(* ===== verification/_CoqProject ===== *)
-Q . S2P
Prelude.v
Bytes.v
HttpGrammar.v
Chunked.v
Net.v
IpText.v
RateLimit.v
Routing.v
RouteLookup.v
RouteBuild.v
Health.v
Selection.v
PathNorm.v
HttpParser.v
HttpFilters.v
Method.v
RequestProcessor.v
Outgoing.v
Reread.v
Response.v
ResponseBody.v
ResponseScan.v
LocalReply.v
RequestBody.v
BackendPool.v
Exchange.v
Serve.v
Config.v
FilterSafety.v
AcceptedFilters.v
ConfigTable.v
ConfigServes.v
ConfigSafety.v
Validation.v
ClientHello.v
TlsPlan.v
DataPlane.v
Addresses.v
Snapshot.v
Apply.v
DnsRefresh.v
UdpWorker.v
SyncAnswer.v
SyncLoop.v
Ports.v
GatewayApi.v
Converters.v
Reconcile.v
ReconcileSpec.v
Reconciled.v
ReconciledTable.v
Services.v
Auth.v
Hub.v
Reports.v
SyncServer.v
Leader.v
Status.v
Certificates.v
Programmed.v
Provision.v
