(* ===== verification/Prelude.v ===== *)
(** * portail, a verification development

    portail is an HTTP/1.1 and TCP/UDP/TLS reverse proxy for the Kubernetes
    Gateway API, written in Rust under [src/src/]. A controller turns the
    cluster's Gateway API objects into one configuration per Gateway and
    hands it, signed, to that Gateway's data planes; a data plane turns a
    configuration, from the controller or a file, into a route table and
    serves clients from it. The development follows that chain: what a
    cluster's objects mean for a Gateway, that the right data plane gets it,
    what table it becomes, and what each backend and client are then sent.

    ** Serving a request

    - [Serve.v] ([proxy/worker.rs], [serve_http] and its readers): a client
      connection. Reads are sniffed ([Method.v]), completed to a head, decided,
      answered or exchanged, and what came after is the next request.
    - [RequestProcessor.v] ([proxy/request_processor.rs], [analyze_request]):
      the decision. It parses the head ([HttpGrammar.v] for the byte classes
      and the word-at-a-time scan, [HttpParser.v] for [extract_routing_info],
      both of [proxy/http_parser.rs]), normalises the path ([PathNorm.v]),
      looks the route up ([Routing.v], [RouteLookup.v], of
      [routing/mod.rs]) and picks a backend by weight and health
      ([Selection.v]).
    - [RouteBuild.v] ([routing/build.rs]): how route tables are built.
    - [Health.v] ([proxy/health.rs]): ejection and probing of backends, with
      the racing of requests, probes and table swaps as a step relation.
    - [RateLimit.v] ([rate_limit.rs]): the per-client token buckets, packed
      in a machine word and updated by compare-and-swap.
    - [Exchange.v] ([proxy/worker.rs], [proxy_http_request]): one request
      proxied. It rewrites the head ([HttpFilters.v], of
      [proxy/http_filters.rs], and [Outgoing.v], [build_outgoing_headers]),
      relays the body ([RequestBody.v], over the chunked decoder of
      [Chunked.v], [proxy/chunked.rs]), reads and rewrites the response
      ([Response.v]), and settles what becomes of both connections.
      [BackendPool.v] ([proxy/backend_pool.rs]) keeps idle ones.
    - [LocalReply.v] ([proxy/worker.rs]): the replies the proxy writes itself.
    - [UdpWorker.v] ([proxy/udp_worker.rs]): UDP sessions and their budgets,
      any number of workers as a step relation.
    - [ClientHello.v] and [TlsPlan.v] ([proxy/tls.rs] and parts of
      [proxy/data_plane.rs] and [proxy/worker.rs]): the server name peeked
      off a TLS connection, which listener takes it, with which certificate.
    - [Reread.v], [ResponseBody.v] and [ResponseScan.v] hold no code: they
      prove what the party at the other end reads of what the code writes.

    ** From a configuration to a serving data plane

    - [Config.v] ([config/types.rs], [config/wire.rs], [config/compile.rs]):
      configurations, the checks of a filter's strings, route compilation.
      [ConfigTable.v] ([config/core.rs]): the table build. [Validation.v]
      ([config/validation.rs]): the checks of a configuration file.
      [ConfigServes.v], [FilterSafety.v], [AcceptedFilters.v] and
      [ConfigSafety.v] hold no code: what a built table serves, and lets on
      the wire.
    - [DataPlane.v] ([proxy/data_plane.rs]): sockets and accept loops brought
      in line with the listeners. [Addresses.v] ([dataplane/addresses.rs]):
      which addresses they bind.
    - [Snapshot.v] ([sync/]): what a controller sends. [Apply.v]
      ([dataplane/apply.rs]) applies it, [DnsRefresh.v]
      ([dataplane/dns_refresh.rs]) re-resolves beside it.
    - [SyncAnswer.v] ([sync/signed.rs], [dataplane/remote.rs]): one poll and
      what its answer is taken for. [SyncLoop.v] ([dataplane/mod.rs]): the
      loop around it.

    ** The controller

    - [GatewayApi.v] ([kubernetes/parent_ref.rs], [hostname.rs],
      [reference_grants.rs]): attachment and references. [Converters.v]
      ([kubernetes/converters.rs]): routes to configurations. [Reconcile.v]
      ([kubernetes/reconciler/mod.rs]): a Gateway's configuration and the
      status owed. [ReconcileSpec.v], [Reconciled.v] and [ReconciledTable.v]
      hold no code: what reconciliation promises, up to the table built.
      [Services.v] ([kubernetes/services.rs]): what Services change in it.
    - [Ports.v] and [Provision.v] ([kubernetes/controller/provision/]): the
      ports bound behind a Service, and a Gateway's objects applied and
      deleted, a pass being a program over its calls to caches and API
      server, with a small logic of what it may call.
    - [Certificates.v] ([kubernetes/controller/validate.rs]): certificateRefs
      resolved, and listener conditions. [Programmed.v]
      ([kubernetes/controller/programmed.rs]): a Gateway's Programmed, from
      live reports. [Status.v] ([kubernetes/status.rs]): statuses as JSON and
      the lists several controllers write.
    - [Auth.v] ([kubernetes/controller/auth.rs], [kubernetes/naming.rs]): who
      may sync a Gateway. [Hub.v] ([hub.rs]): the snapshots served. [Reports.v]
      ([reports.rs]): what data planes report. [SyncServer.v] ([server.rs],
      with the parts of [reconcile.rs] that share the hub): the endpoint they
      poll. [Leader.v] ([leader.rs]): which replica acts.

    [Bytes.v], [Net.v] and [IpText.v] are the byte, string and address
    operations of the Rust standard library the code uses. This file:
    notation, machine integers, tactics, the hint database, shared lemmas.

    ** How the model corresponds to the code

    Definitions keep the source's names; where two share one (a [new] per
    type, a [read_head] on each side), the type is put before it or the file
    tells them apart. Bytes are [Z] in [0, 256), buffers lists of them, and
    integers are [Z] with casts and wrap-around written out; times are
    nanoseconds. Early returns become matches; mutable locals become records
    threaded through the loop; a span of a buffer is a pair of offsets, as in
    the code; a panic is [None]. [DashMap] and [HashMap] are [gmap]; where the
    code's answer could depend on iteration order a theorem shows it does not.
    A socket is the list of the reads it yields, each of a byte or more, its
    end being the peer's close, a budget that ran out, or a drain, as each
    definition says; what was written is returned. Concurrent components are
    step relations over their atomic operations and awaits: workers, passes,
    requests, replicas and other writers interleave freely, caches lag, calls
    get lost. Health flags read one by one while others change them are a
    stream of answers ([Reads]).

    Code that is not the repository's is a class parameter, with what it
    promises as laws where it promises anything, and an instance that shows
    they can hold: [RegexEngine] and [RegexSyntax] (the regex crate),
    [Memchr], [Arch] (the byte order the word tricks run on), [Fnv],
    [AddrHash], [Resolver], [Rustls], [Sealing] (SHA-256 and the snapshot's
    JSON), [AnswerCrypto] (signatures and base64), [Json], [TokenText] and
    [Wire] (JSON and base64 readers), [ConfigText] and [ErrorText] (texts).
    Reading a duration's text is a parameter of [Converters.v]. [IdlePool] is
    the interface between the pool and its clients, discharged by
    [BackendPool]; [GatewayRoute] with [GatewayRouteLaws] that between the
    reconciler and the four kinds of route; [StatusEntry] that between the
    shared lists and what is written in them.

    What theorems assume of the surroundings is in their statements: a
    Gateway's listeners have distinct names and remembered verdicts are sound
    ([Reconciled.v]); a uid and resourceVersion is one object, and an object's
    resourceVersions differ ([Certificates.v], [Status.v]); timers fire less
    than a second late, identities differ and lease records never repeat
    ([Leader.v]); a certificate fingerprint found unchanged was taken of the
    same references ([TlsPlan.v]); the limiter's events come in the order of
    its clock, a sweep at least every 12.4 days ([RateLimit.v]).

    ** What the theorems show

    - No desynchronisation: [connection_stays_in_step] divides the client's
      stream into exactly the requests served, an accepted upgrade being the
      one way past a request's end; [exchange_isolates_requests] and
      [finished_exchange_is_whole] do so for the backends;
      [configured_request_reads_back], [backend_reads_routed_request] and
      [client_reads_response] show that what is written is read back as what
      was decided, under any configuration. The parser accepts exactly the
      unambiguous heads ([accepts_exactly_unambiguous]); body relays are exact
      ([request_body_exact], [response_body_exact], [decode_exact]); optimised
      paths equal their plain readings.
    - The right route: from the cluster's objects
      ([reconcile_attaches_exactly], [references_are_permitted],
      [oldest_route_takes_port], [route_status_exact]) to the table
      ([accepted_routes_are_served], [built_table_serves_config]) and its
      lookup ([find_http_route_correct]); selection is total and fair, the
      limiter refines the ideal bucket its code documents, probes are one per ejected backend,
      pooled connections are conserved, UDP budgets are kept.
    - The right listener and certificate: [client_hello_peek_exact],
      [handshake_shows_listener_cert] (whose condition on hostnames the
      controller's configurations meet, [reconciled_refs_name_listener], and
      a file's need not), [served_certificates_are_vouched],
      [listener_conditions_exact], [pass_binds_what_is_wanted].
    - The right configuration: [snapshot_round_trip],
      [applied_snapshot_is_served], [sync_serves_only_the_controllers],
      [sync_answers_are_true], [only_vouched_pods_sync],
      [reviews_stay_within_limits], [hub_refines_histories],
      [no_slot_outlives_its_gateway], [at_most_one_leader].
    - Telling the truth, and doing no harm: [programmed_is_backed],
      [kept_programmed_lapses], [sync_reports_the_truth],
      [vanished_instances_wake], [status_writes_lose_nothing],
      [foreign_objects_are_left_alone].
    - Termination and errors: [connection_ends], [client_waits_end],
      [validated_build_fails_only_on_dns].
    - Some theorems prove findings: [long_mixed_case_host_is_truncated],
      [unreadable_connection_nominates_nothing], [dotted_name_is_shared],
      [stale_pass_forgets_newer_pair], [file_listener_shows_other_cert],
      [fingerprint_misses_moved_ref], [lagging_cache_changes_foreign_service].

    ** Fuel

    Loops that are not structural take fuel equal to a bound on their turns:
    the bytes of the buffer plus one where each turn moves past a byte
    ([head_loop], [line_end_from], [scan_lines], the chunked decoder,
    [scan_extensions]), the bytes still to be read plus one where each turn
    reads ([sniff_first_request], [read_remaining_headers],
    [skip_empty_lines]), ten where at most eight interim responses are
    swallowed, the ports in use where a free one is drawn
    ([next_free]), the references of a Gateway where each turn resolves one
    ([resolve_gateway_certs]). The exactness theorems hold of the definitions
    with that fuel, so it never runs out where they speak, and
    [client_waits_end] says so of the reading loops. [serve_loop] takes its
    turns from a list; [connection_ends] says how many are enough.

    ** Not modelled

    Sockets, timers and the tasks that drive them: the accept loops, the TCP
    and TLS passthrough relays and the lingering close of [proxy/worker.rs],
    the opening of backend connections, the TLS handshake itself. Timeouts
    appear as the outcomes they lead to. [proxy/h2_bridge.rs], whose protocol
    is the h2 library's. [config/parsing.rs], which reads durations through
    floating point, and [config_watcher.rs]. Of the controller: the watches
    and reflectors ([watch.rs]), its certificate authority ([ca.rs]), class
    and parameter objects ([gatewayclass.rs], [params.rs]), the networks of
    addresses, the glue that runs a pass ([translate.rs], most of
    [reconcile.rs], [mod.rs]) and the bodies of rendered objects
    ([render.rs]). The process: start-up, command line, admin endpoint,
    privileges, logs, metrics and the access log. *)

From stdpp Require Export base tactics option list numbers gmap strings sorting.
From Stdlib Require Export ZArith Lia Bool.

#[global] Open Scope Z_scope.

(** ** Byte literals of the source ([b'\r'], [b' '], ...) *)

Declare Scope portail_scope.
Delimit Scope portail_scope with portail.
#[global] Open Scope portail_scope.

Abbreviation HTAB := 9 (only parsing).
Abbreviation LF := 10 (only parsing).
Abbreviation CR := 13 (only parsing).
Abbreviation SP := 32 (only parsing).
Abbreviation bytes := (list Z) (only parsing).

(** The bytes of an ASCII literal, as [b"..."] in the source. *)
Definition bs (s : string) : list Z :=
  map (fun a => Z.of_N (Ascii.N_of_ascii a)) (String.list_ascii_of_string s).

(** ** Machine integers: values are in [Z], casts and wrap-around written out *)

Definition wrap (w z : Z) : Z := z mod 2 ^ w.
Definition as_u8 (z : Z) : Z := wrap 8 z.
Definition as_u32 (z : Z) : Z := wrap 32 z.
Definition as_u64 (z : Z) : Z := wrap 64 z.
Definition in_range (w z : Z) : Prop := 0 <= z < 2 ^ w.
Definition u8 (z : Z) : Prop := 0 <= z < 256.
Definition u32 (z : Z) : Prop := 0 <= z < 4294967296.
Definition u64 (z : Z) : Prop := 0 <= z < 18446744073709551616.
Definition U32_MAX : Z := 4294967295.
Definition U64_MAX : Z := 18446744073709551615.

(** [Result<T, E>] of the source. *)
Inductive result (A E : Type) : Type :=
  | Ok (a : A)
  | Err (e : E).
Arguments Ok {A E} a.
Arguments Err {A E} e.

(** [std::cmp::Ordering] is [comparison]; [then_with] is lexicographic. *)
Definition then_with (c d : comparison) : comparison :=
  match c with Eq => d | _ => c end.
Definition is_lt (c : comparison) : bool :=
  match c with Lt => true | _ => false end.
Definition bool_cmp (a b : bool) : comparison :=
  match a, b with
  | false, true => Lt
  | true, false => Gt
  | _, _ => Eq
  end.

(** [is_empty] and [is_some]. *)
Definition is_nil {A} (l : list A) : bool := match l with [] => true | _ => false end.

Definition is_some {A} (o : option A) : bool := match o with Some _ => true | None => false end.

(** ** Automation *)

Create HintDb portail.
Create Rewrite HintDb portail.

(** Splits boolean conjunctions and turns comparisons into arithmetic. *)
Ltac bool_simpl :=
  repeat match goal with
  | H : (_ && _) = true |- _ => apply andb_true_iff in H; destruct H
  | H : (_ || _) = false |- _ => apply orb_false_iff in H; destruct H
  | H : negb _ = true |- _ => apply negb_true_iff in H
  | H : negb _ = false |- _ => apply negb_false_iff in H
  | H : (_ =? _) = true |- _ => apply Z.eqb_eq in H
  | H : (_ =? _) = false |- _ => apply Z.eqb_neq in H
  | H : (_ <? _) = true |- _ => apply Z.ltb_lt in H
  | H : (_ <? _) = false |- _ => apply Z.ltb_ge in H
  | H : (_ <=? _) = true |- _ => apply Z.leb_le in H
  | H : (_ <=? _) = false |- _ => apply Z.leb_gt in H
  | H : (_ =? _)%nat = true |- _ => apply Nat.eqb_eq in H
  | H : (_ =? _)%nat = false |- _ => apply Nat.eqb_neq in H
  | H : (_ <? _)%nat = true |- _ => apply Nat.ltb_lt in H
  | H : (_ <? _)%nat = false |- _ => apply Nat.ltb_ge in H
  | H : (_ <=? _)%nat = true |- _ => apply Nat.leb_le in H
  | H : (_ <=? _)%nat = false |- _ => apply Nat.leb_gt in H
  | H : bool_decide _ = true |- _ => apply bool_decide_eq_true in H
  | H : bool_decide _ = false |- _ => apply bool_decide_eq_false in H
  end.

(** Case analysis on the next scrutinee of the goal, or of a hypothesis. *)
Ltac split_match :=
  match goal with
  | |- context [match ?x with _ => _ end] => destruct x eqn:?
  end.
Ltac split_match_in H :=
  match type of H with
  | context [match ?x with _ => _ end] => destruct x eqn:?
  end.

(** [Forall u8] of a literal. *)
Ltac solve_u8 := repeat (apply Forall_cons; split; [red; lia|]); apply Forall_nil; exact I.

(** ** Generic lemmas on lists *)

Section ListLemmas.
Context {A : Type}.
Implicit Types (l k : list A) (p : A -> bool).

(** Length of the longest prefix whose elements satisfy [p]: every
    [while i < len && p(data[i]) { i += 1 }] loop of the source. *)
Fixpoint span_len (p : A -> bool) (l : list A) : nat :=
  match l with
  | [] => 0
  | x :: t => if p x then S (span_len p t) else 0
  end.

Lemma span_len_le p l : (span_len p l <= length l)%nat.
Proof. induction l as [|x t IH]; simpl; [lia|]. destruct (p x); simpl; lia. Qed.

Lemma span_len_take p l : Forall (fun x => p x = true) (take (span_len p l) l).
Proof.
  induction l as [|x t IH]; simpl; [constructor|].
  destruct (p x) eqn:E; simpl; [constructor; auto|constructor].
Qed.

Lemma span_len_stop p l x : l !! span_len p l = Some x -> p x = false.
Proof.
  induction l as [|y t IH]; simpl; [done|].
  destruct (p y) eqn:E; simpl; [auto|]. by intros [= <-].
Qed.

Lemma span_len_app_stop p l x k :
  Forall (fun x => p x = true) l -> p x = false -> span_len p (l ++ x :: k) = length l.
Proof. induction 1 as [|y t Hy _ IH]; simpl; intros Hx; [by rewrite Hx|]. by rewrite Hy, IH. Qed.

Lemma span_len_app_all p l k :
  Forall (fun x => p x = true) l -> span_len p (l ++ k) = (length l + span_len p k)%nat.
Proof. induction 1 as [|y t Hy _ IH]; simpl; [done|]. by rewrite Hy, IH. Qed.

Lemma span_len_all p l : Forall (fun x => p x = true) l -> span_len p l = length l.
Proof. induction 1 as [|y t Hy _ IH]; simpl; [done|]. by rewrite Hy, IH. Qed.

Lemma drop_lookup_cons l i x : l !! i = Some x -> drop i l = x :: drop (S i) l.
Proof. intros H. by rewrite (drop_S _ x). Qed.

Lemma lookup_drop_head l i : head (drop i l) = l !! i.
Proof. rewrite <- (Nat.add_0_r i) at 2. rewrite <- lookup_drop. by destruct (drop i l). Qed.

Lemma length_drop_lt l i : (i < length l)%nat -> drop i l <> [].
Proof. intros H E. apply (f_equal length) in E. rewrite length_drop in E. simpl in E. lia. Qed.

End ListLemmas.

Lemma forallb_Forall {A} (p : A -> bool) l : forallb p l = true <-> Forall (fun x => p x = true) l.
Proof. rewrite forallb_forall, Forall_forall. setoid_rewrite list_elem_of_In. done. Qed.

(** A key tells the elements apart. *)
Lemma NoDup_map_inj {A B} (f : A -> B) l x y : NoDup (map f l) -> x ∈ l -> y ∈ l -> f x = f y -> x = y.
Proof.
  intros Hnd [i Hi]%list_elem_of_lookup [j Hj]%list_elem_of_lookup E. assert (i = j) as <-; [|congruence].
  apply (NoDup_lookup _ i j (f x) Hnd); rewrite list_lookup_fmap; [by rewrite Hi|rewrite Hj; cbn; by rewrite E].
Qed.

(** ** Machine integer lemmas *)

Lemma wrap_small w z : 0 <= z < 2 ^ w -> wrap w z = z.
Proof. apply Z.mod_small. Qed.

Lemma wrap_bound w z : 0 <= w -> 0 <= wrap w z < 2 ^ w.
Proof. intros. apply Z.mod_pos_bound. lia. Qed.

Lemma as_u32_small z : u32 z -> as_u32 z = z.
Proof. apply Z.mod_small. Qed.

Lemma as_u64_small z : u64 z -> as_u64 z = z.
Proof. apply Z.mod_small. Qed.

#[export] Hint Resolve as_u32_small as_u64_small span_len_le : portail.

(** ** Counting entries *)

Definition b2n (b : bool) : nat := if b then 1%nat else 0%nat.

Definition count {A} (p : A -> bool) (m : gmap nat A) : nat := size (filter (fun '(_, c) => p c = true) m).

Lemma count_new {A} p (m : gmap nat A) i c : m !! i = None -> count p (<[i := c]> m) = (count p m + b2n (p c))%nat.
Proof.
  intros Hi. unfold count. rewrite map_filter_insert. case_decide as Hp; [rewrite Hp|apply not_true_is_false in Hp; rewrite Hp].
  - rewrite map_size_insert_None; [cbn; lia|]. apply map_lookup_filter_None. by left.
  - rewrite (delete_id m i Hi). cbn. lia.
Qed.

Lemma count_step {A} p (m : gmap nat A) i c c' :
  m !! i = Some c -> (count p (<[i := c']> m) + b2n (p c) = count p m + b2n (p c'))%nat.
Proof.
  intros Hi. rewrite <- insert_delete_eq, count_new by apply lookup_delete_eq.
  rewrite <- (insert_delete_id m i c Hi) at 2. rewrite (count_new p (delete i m)) by apply lookup_delete_eq. lia.
Qed.

Lemma count_pos {A} p (m : gmap nat A) i c : m !! i = Some c -> p c = true -> (0 < count p m)%nat.
Proof.
  intros Hi Hp. apply Nat.neq_0_lt_0. unfold count. rewrite map_size_non_empty_iff. intros He.
  assert (H : filter (fun '(_, c) => p c = true) m !! i = Some c) by (by apply map_lookup_filter_Some).
  by rewrite He in H.
Qed.

Lemma count_none {A} p (m : gmap nat A) : (forall i c, m !! i = Some c -> p c = false) -> count p m = 0%nat.
Proof.
  intros H. unfold count. apply map_size_empty_iff, map_eq. intros i. rewrite lookup_empty. apply map_lookup_filter_None. right.
  intros c Hi Hp. by rewrite (H i c Hi) in Hp.
Qed.

Lemma count_mono {A} p q (m : gmap nat A) : (forall c, p c = true -> q c = true) -> (count p m <= count q m)%nat.
Proof.
  intros H. apply map_subseteq_size, map_subseteq_spec. intros i c [Hi Hp]%map_lookup_filter_Some.
  apply map_lookup_filter_Some. auto.
Qed.
