(* ===== verification/Bytes.v ===== *)
(** * Byte strings

    What the sources use of Rust's [u8], [[u8]] and [str]: ASCII classes and
    case folding, prefix and suffix stripping, splitting, searching and UTF-8
    validation. A [&[u8]] and a [&str] are both lists of byte values.

    [memchr] is a third-party crate: the searches the program makes with it
    are the operations of the class [Memchr], with their documented result as
    its laws. *)

From S2P Require Import Prelude.

(** ** [u8] methods *)

Definition is_ascii_uppercase (b : Z) : bool := (65 <=? b) && (b <=? 90).
Definition is_ascii_lowercase (b : Z) : bool := (97 <=? b) && (b <=? 122).
Definition is_ascii_alphabetic (b : Z) : bool := is_ascii_uppercase b || is_ascii_lowercase b.
Definition is_ascii_digit (b : Z) : bool := (48 <=? b) && (b <=? 57).
Definition is_ascii_alphanumeric (b : Z) : bool := is_ascii_alphabetic b || is_ascii_digit b.
Definition is_ascii_hexdigit (b : Z) : bool :=
  is_ascii_digit b || ((65 <=? b) && (b <=? 70)) || ((97 <=? b) && (b <=? 102)).
Definition to_ascii_lowercase (b : Z) : Z := if is_ascii_uppercase b then b + 32 else b.
Definition to_ascii_uppercase (b : Z) : Z := if is_ascii_lowercase b then b - 32 else b.

(** ** Slices and strings *)

Definition lowercase (s : list Z) : list Z := map to_ascii_lowercase s.

Fixpoint eq_ignore_ascii_case (a b : list Z) : bool :=
  match a, b with
  | [], [] => true
  | x :: a', y :: b' =>
      (to_ascii_lowercase x =? to_ascii_lowercase y) && eq_ignore_ascii_case a' b'
  | _, _ => false
  end.

Definition beq (a b : list Z) : bool := bool_decide (a = b).

Fixpoint strip_prefix (pre s : list Z) : option (list Z) :=
  match pre, s with
  | [], _ => Some s
  | x :: pre', y :: s' => if x =? y then strip_prefix pre' s' else None
  | _ :: _, [] => None
  end.

Definition starts_with (pre s : list Z) : bool :=
  match strip_prefix pre s with Some _ => true | None => false end.

Definition ends_with (suf s : list Z) : bool :=
  (length suf <=? length s)%nat && beq (drop (length s - length suf) s) suf.

Definition strip_suffix (suf s : list Z) : option (list Z) :=
  if ends_with suf s then Some (take (length s - length suf) s) else None.

(** [data[i..j]]. *)
Definition slice (i j : nat) (l : list Z) : list Z := take (j - i) (drop i l).

(** First index of a byte: [str::find] of an ASCII character. *)
Fixpoint find_byte (c : Z) (l : list Z) : option nat :=
  match l with
  | [] => None
  | x :: t => if x =? c then Some 0%nat else S <$> find_byte c t
  end.

(** Last index of a byte: [str::rfind] of an ASCII character. *)
Fixpoint rfind_byte (c : Z) (l : list Z) : option nat :=
  match l with
  | [] => None
  | x :: t =>
      match rfind_byte c t with
      | Some i => Some (S i)
      | None => if x =? c then Some 0%nat else None
      end
  end.

(** [slice::split] and [str::split] on one byte: always at least one piece. *)
Fixpoint split_on (c : Z) (l : list Z) : list (list Z) :=
  match l with
  | [] => [[]]
  | x :: t =>
      if x =? c then [] :: split_on c t
      else match split_on c t with
           | piece :: rest => (x :: piece) :: rest
           | [] => [[x]]
           end
  end.

(** [str::split_once] on one byte. *)
Definition split_once (c : Z) (l : list Z) : option (list Z * list Z) :=
  match find_byte c l with
  | Some i => Some (take i l, drop (S i) l)
  | None => None
  end.

(** [std::str::from_utf8]: well-formed UTF-8 (Unicode table 3-7). *)
Definition cont_byte (b : Z) : bool := (128 <=? b) && (b <=? 191).
Definition utf8_three (b0 b1 : Z) : bool :=
  ((b0 =? 224) && (160 <=? b1) && (b1 <=? 191))
  || ((225 <=? b0) && (b0 <=? 236) && cont_byte b1)
  || ((b0 =? 237) && (128 <=? b1) && (b1 <=? 159))
  || ((238 <=? b0) && (b0 <=? 239) && cont_byte b1).
Definition utf8_four (b0 b1 : Z) : bool :=
  ((b0 =? 240) && (144 <=? b1) && (b1 <=? 191))
  || ((241 <=? b0) && (b0 <=? 243) && cont_byte b1)
  || ((b0 =? 244) && (128 <=? b1) && (b1 <=? 143)).

Fixpoint utf8_valid (l : list Z) : bool :=
  match l with
  | [] => true
  | b0 :: t0 =>
      if b0 <? 128 then utf8_valid t0
      else match t0 with
      | [] => false
      | b1 :: t1 =>
          if (194 <=? b0) && (b0 <=? 223) then cont_byte b1 && utf8_valid t1
          else match t1 with
          | [] => false
          | b2 :: t2 =>
              if utf8_three b0 b1 then cont_byte b2 && utf8_valid t2
              else match t2 with
              | [] => false
              | b3 :: t3 => utf8_four b0 b1 && cont_byte b2 && cont_byte b3 && utf8_valid t3
              end
          end
      end
  end.

Definition from_utf8 (l : list Z) : option (list Z) := if utf8_valid l then Some l else None.

(** ** The [memchr] crate *)

(** [first_index p l r]: [r] is the first index of [l] whose byte satisfies
    [p], or [None] when there is none. *)
Definition first_index (p : Z -> Prop) (l : list Z) (r : option nat) : Prop :=
  match r with
  | Some i => (exists x, l !! i = Some x /\ p x) /\ Forall (fun x => ~ p x) (take i l)
  | None => Forall (fun x => ~ p x) l
  end.

Class Memchr : Type := {
  memchr : Z -> list Z -> option nat;
  memchr2 : Z -> Z -> list Z -> option nat;
  memchr_spec c l : first_index (fun x => x = c) l (memchr c l);
  memchr2_spec c d l : first_index (fun x => x = c \/ x = d) l (memchr2 c d l);
}.

(** A byte-by-byte scan meets the laws. *)
Fixpoint find_byte2 (c d : Z) (l : list Z) : option nat :=
  match l with
  | [] => None
  | x :: t => if (x =? c) || (x =? d) then Some 0%nat else S <$> find_byte2 c d t
  end.

(** ** Lemmas *)

Lemma first_index_unique (p : Z -> Prop) l r1 r2 :
  first_index p l r1 -> first_index p l r2 -> r1 = r2.
Proof.
  assert (Hlt : forall i j, first_index p l (Some i) -> first_index p l (Some j) -> ~ (i < j)%nat).
  { intros i j [(x & Hx & Hp) _] [_ Hj] Hij. rewrite Forall_forall in Hj.
    apply (Hj x); [|done]. apply list_elem_of_lookup. exists i. by rewrite lookup_take_lt. }
  assert (Hno : forall i, first_index p l (Some i) -> first_index p l None -> False).
  { intros i [(x & Hx & Hp) _] Hn. red in Hn. rewrite Forall_forall in Hn.
    apply (Hn x); [|done]. apply list_elem_of_lookup. eauto. }
  destruct r1 as [i|], r2 as [j|]; intros H1 H2; [|by destruct (Hno i)|by destruct (Hno j)|done].
  f_equal. pose proof (Hlt i j H1 H2). pose proof (Hlt j i H2 H1). lia.
Qed.

Lemma first_index_cons_hit (p : Z -> Prop) x l : p x -> first_index p (x :: l) (Some 0%nat).
Proof. intros. split; [exists x; done|constructor]. Qed.

Lemma first_index_cons_miss (p : Z -> Prop) x l r :
  ~ p x -> first_index p l r -> first_index p (x :: l) (S <$> r).
Proof.
  intros Hx. destruct r as [i|]; simpl; [|by constructor].
  intros [(y & Hy & Hp) HF]. split; [by exists y|by constructor].
Qed.

Lemma find_byte_spec c l : first_index (fun x => x = c) l (find_byte c l).
Proof.
  induction l as [|x t IH]; simpl; [constructor|].
  destruct (Z.eqb_spec x c); [by apply first_index_cons_hit|by apply first_index_cons_miss].
Qed.

Lemma find_byte2_spec c d l : first_index (fun x => x = c \/ x = d) l (find_byte2 c d l).
Proof.
  induction l as [|x t IH]; simpl; [constructor|].
  destruct ((x =? c) || (x =? d)) eqn:E.
  - apply first_index_cons_hit. lia.
  - apply first_index_cons_miss; [lia|done].
Qed.

#[export] Instance memchr_scan : Memchr := {|
  memchr := find_byte; memchr2 := find_byte2;
  memchr_spec := find_byte_spec; memchr2_spec := find_byte2_spec |}.

Lemma memchr_find_byte `{Memchr} c l : memchr c l = find_byte c l.
Proof. eapply first_index_unique; [apply memchr_spec|apply find_byte_spec]. Qed.

Lemma memchr2_find_byte2 `{Memchr} c d l : memchr2 c d l = find_byte2 c d l.
Proof. eapply first_index_unique; [apply memchr2_spec|apply find_byte2_spec]. Qed.

Lemma find_byte_Some c l i :
  find_byte c l = Some i -> l !! i = Some c /\ Forall (fun x => x <> c) (take i l).
Proof.
  intros E. pose proof (find_byte_spec c l) as H. rewrite E in H.
  destruct H as [(x & Hx & ->) HF]. done.
Qed.

Lemma find_byte_None c l : find_byte c l = None -> Forall (fun x => x <> c) l.
Proof. intros E. pose proof (find_byte_spec c l) as H. by rewrite E in H. Qed.

Lemma find_byte_None_iff c l : find_byte c l = None <-> c ∉ l.
Proof.
  split.
  - intros H Hin. apply find_byte_None in H. rewrite Forall_forall in H. by eapply H.
  - induction l as [|x t IH]; simpl; [done|]. intros Hn.
    destruct (Z.eqb_spec x c) as [->|]; [set_solver|]. rewrite IH; [done|set_solver].
Qed.

Lemma find_byte_app_r c l k :
  Forall (fun x => x <> c) l -> find_byte c (l ++ c :: k) = Some (length l).
Proof.
  induction 1 as [|x t Hx _ IH]; simpl; [by rewrite Z.eqb_refl|].
  apply Z.eqb_neq in Hx. by rewrite Hx, IH.
Qed.

Lemma find_byte_split c l i :
  find_byte c l = Some i -> l = take i l ++ c :: drop (S i) l.
Proof.
  intros [H _]%find_byte_Some. rewrite <- (drop_lookup_cons _ _ _ H). by rewrite take_drop.
Qed.

Lemma find_byte_lt c l i : find_byte c l = Some i -> (i < length l)%nat.
Proof. intros [H _]%find_byte_Some. by apply lookup_lt_Some in H. Qed.

(** ** Case folding *)

Lemma to_lower_upper_idem b : to_ascii_lowercase (to_ascii_lowercase b) = to_ascii_lowercase b.
Proof. unfold to_ascii_lowercase, is_ascii_uppercase. repeat split_match; bool_simpl; lia. Qed.

Lemma lowercase_idem s : lowercase (lowercase s) = lowercase s.
Proof. unfold lowercase. rewrite map_map. apply map_ext. apply to_lower_upper_idem. Qed.

Lemma length_lowercase s : length (lowercase s) = length s.
Proof. apply length_map. Qed.

Lemma lowercase_app a b : lowercase (a ++ b) = lowercase a ++ lowercase b.
Proof. apply map_app. Qed.

Lemma eq_ignore_ascii_case_spec a b :
  eq_ignore_ascii_case a b = true <-> lowercase a = lowercase b.
Proof.
  revert b. induction a as [|x a IH]; intros [|y b]; simpl; try done.
  rewrite andb_true_iff, IH, Z.eqb_eq. split; [by intros [-> ->]|by intros [= -> ->]].
Qed.

Lemma eq_ignore_ascii_case_refl a : eq_ignore_ascii_case a a = true.
Proof. by apply eq_ignore_ascii_case_spec. Qed.

Lemma eq_ignore_ascii_case_length a b :
  eq_ignore_ascii_case a b = true -> length a = length b.
Proof.
  rewrite eq_ignore_ascii_case_spec. intros E.
  rewrite <- (length_lowercase a), E. apply length_lowercase.
Qed.

Lemma beq_spec a b : beq a b = true <-> a = b.
Proof. apply bool_decide_eq_true. Qed.

(** ** Prefixes, suffixes, pieces *)

Lemma strip_prefix_Some pre s r : strip_prefix pre s = Some r <-> s = pre ++ r.
Proof.
  revert s. induction pre as [|x pre IH]; intros s; simpl; [naive_solver|].
  destruct s as [|y s]; [naive_solver|].
  destruct (Z.eqb_spec x y) as [->|]; [rewrite IH; naive_solver|naive_solver].
Qed.

Lemma strip_prefix_app pre s : strip_prefix pre (pre ++ s) = Some s.
Proof. by apply strip_prefix_Some. Qed.

Lemma starts_with_spec pre s : starts_with pre s = true <-> exists r, s = pre ++ r.
Proof.
  unfold starts_with. setoid_rewrite <- strip_prefix_Some.
  destruct (strip_prefix pre s); naive_solver.
Qed.

Lemma ends_with_spec suf s : ends_with suf s = true <-> exists r, s = r ++ suf.
Proof.
  unfold ends_with. rewrite andb_true_iff, Nat.leb_le, beq_spec. split.
  - intros [Hl E]. exists (take (length s - length suf) s).
    rewrite <- E at 2. by rewrite take_drop.
  - intros [r ->]. rewrite length_app. split; [lia|].
    replace (length r + length suf - length suf)%nat with (length r) by lia.
    apply drop_app_length.
Qed.

Lemma strip_suffix_app suf a : strip_suffix suf (a ++ suf) = Some a.
Proof.
  unfold strip_suffix, ends_with. rewrite length_app, Nat.add_sub, drop_app_length, take_app_length.
  rewrite (proj2 (Nat.leb_le _ _)) by lia. by rewrite (proj2 (beq_spec suf suf) eq_refl).
Qed.

Lemma split_on_ne c l : split_on c l <> [].
Proof. destruct l as [|x t]; simpl; [done|]. destruct (x =? c); [done|]. by destruct (split_on c t). Qed.

Lemma split_on_no_sep c l : Forall (fun x => x <> c) l -> split_on c l = [l].
Proof.
  induction 1 as [|x t Hx _ IH]; simpl; [done|]. apply Z.eqb_neq in Hx. by rewrite Hx, IH.
Qed.

Lemma split_on_app_sep c l k :
  Forall (fun x => x <> c) l -> split_on c (l ++ c :: k) = l :: split_on c k.
Proof.
  induction 1 as [|x t Hx _ IH]; simpl; [by rewrite Z.eqb_refl|].
  apply Z.eqb_neq in Hx. by rewrite Hx, IH.
Qed.

Lemma split_on_pieces c l : Forall (Forall (fun x => x <> c)) (split_on c l).
Proof.
  induction l as [|x t IH]; simpl; [repeat constructor|].
  destruct (Z.eqb_spec x c); [by constructor|].
  destruct (split_on c t) as [|p r]; [repeat constructor; done|].
  inversion IH; subst. constructor; [by constructor|done].
Qed.

Lemma slice_app_mid a b c : slice (length a) (length a + length b) (a ++ b ++ c) = b.
Proof.
  unfold slice. rewrite drop_app_length. replace (_ - _)%nat with (length b) by lia.
  apply take_app_length.
Qed.

Lemma length_slice i j l : (j <= length l)%nat -> length (slice i j l) = (j - i)%nat.
Proof. intros. unfold slice. rewrite length_take, length_drop. lia. Qed.

(** ** UTF-8 *)

Lemma utf8_valid_ascii l : Forall (fun b => b < 128) l -> utf8_valid l = true.
Proof. induction 1 as [|b t Hb _ IH]; simpl; [done|]. apply Z.ltb_lt in Hb. by rewrite Hb. Qed.

Lemma utf8_valid_ascii_app l k :
  Forall (fun b => b < 128) l -> utf8_valid (l ++ k) = utf8_valid k.
Proof. induction 1 as [|b t Hb _ IH]; simpl; [done|]. apply Z.ltb_lt in Hb. by rewrite Hb. Qed.

#[export] Hint Rewrite @memchr_find_byte @memchr2_find_byte2 lowercase_idem length_lowercase
  lowercase_app : portail.
#[export] Hint Resolve eq_ignore_ascii_case_refl utf8_valid_ascii split_on_ne : portail.

(** ** Deciding a property of every byte by evaluation *)

Lemma byte_forall (f : Z -> bool) :
  forallb f (seqZ 0 256) = true -> forall b, u8 b -> f b = true.
Proof. rewrite forallb_Forall, Forall_forall. intros H b Hb. apply H, elem_of_seqZ. red in Hb. lia. Qed.

(** The bytes of a literal, checked by evaluation. *)
Lemma Forall_u8_literal s : forallb (fun b => (0 <=? b) && (b <? 256)) s = true -> Forall u8 s.
Proof. intros H. apply forallb_Forall in H. eapply Forall_impl; [exact H|]. intros b Hb. cbv beta in Hb. red. lia. Qed.
