(* ===== verification/HttpGrammar.v ===== *)
(** * Byte classes and token scanners of the request-head grammar

    [src/src/proxy/http_parser.rs], up to [extract_routing_info]: the [CLASS]
    table, the word-at-a-time [scan] and the small recognisers the head parser
    calls. [scan] is proved equal to the byte-by-byte loop it speeds up. *)

From S2P Require Import Prelude Bytes.

(** ** [find_header_end] *)

Section Search.
Context `{MC : Memchr}.

(** The [while let] of [find_header_end]; each turn moves [start] forward. *)
Fixpoint find_header_end_from (fuel : nat) (data : list Z) (start : nat) : option nat :=
  match fuel with
  | O => None
  | S fuel' =>
      match memchr CR (drop start data) with
      | None => None
      | Some pos =>
          let abs := (start + pos)%nat in
          if (abs + 3 <? length data)%nat
             && bool_decide (data !! (abs + 1)%nat = Some LF)
             && bool_decide (data !! (abs + 2)%nat = Some CR)
             && bool_decide (data !! (abs + 3)%nat = Some LF)
          then Some (abs + 4)%nat
          else find_header_end_from fuel' data (abs + 1)
      end
  end.

Definition find_header_end (data : list Z) : option nat :=
  find_header_end_from (S (length data)) data 0.

Definition has_header_end (data : list Z) : bool :=
  ends_with [CR; LF; CR; LF] data
  || match find_header_end data with Some _ => true | None => false end.

End Search.

(** ** The [CLASS] table *)

Definition TCHAR : Z := 1.
Definition VALUE : Z := 2.
Definition TARGET : Z := 4.
Definition HOST : Z := 8.

Definition VALUE_HOLES : list Z := [127].
Definition TARGET_HOLES : list Z := [127; 35; 92].

Definition any_of (b : Z) (set : list Z) : bool := existsb (fun x => x =? b) set.

(** One turn of the table's initialising loop. *)
Definition class_entry (b : Z) : Z :=
  let t := 0 in
  let t := if is_ascii_alphanumeric b || any_of b (bs "!#$%&'*+-.^_`|~")
           then Z.lor t TCHAR else t in
  let t := if (b =? HTAB) || ((32 <=? b) && negb (any_of b VALUE_HOLES))
           then Z.lor t VALUE else t in
  let t := if (32 <? b) && negb (any_of b TARGET_HOLES) then Z.lor t TARGET else t in
  if is_ascii_alphanumeric b || any_of b (bs "-._") then Z.lor t HOST else t.

Definition CLASS : list Z := map class_entry (seqZ 0 256).

Definition is_ (b : Z) (class : Z) : bool :=
  negb (Z.land (nth (Z.to_nat b) CLASS 0) class =? 0).

(** [is_forwarding_claim]'s dispatch: a name of length [n] whose first byte,
    case folded by [| 0x20], is [c]. *)
Definition opens (name : list Z) (n : nat) (c : Z) : bool :=
  (length name =? n)%nat
  && match name with x :: _ => Z.lor x 32 =? c | [] => false end.

Definition is_forwarding_claim (name : list Z) : bool :=
  if opens name 9 102 then eq_ignore_ascii_case name (bs "forwarded")
  else if opens name 15 120 then eq_ignore_ascii_case name (bs "x-forwarded-ssl")
  else if opens name 16 120 then
    eq_ignore_ascii_case name (bs "x-forwarded-host")
    || eq_ignore_ascii_case name (bs "x-forwarded-port")
  else if opens name 17 120 then eq_ignore_ascii_case name (bs "x-forwarded-proto")
  else if opens name 18 120 then eq_ignore_ascii_case name (bs "x-forwarded-scheme")
  else false.

Definition is_token (s : list Z) : bool :=
  match s with [] => false | _ => forallb (fun b => is_ b TCHAR) s end.
Definition is_tchar (b : Z) : bool := is_ b TCHAR.
Definition is_field_value_byte (b : Z) : bool := is_ b VALUE.
Definition is_target_byte (b : Z) : bool := is_ b TARGET.

(** ** The word-at-a-time scan *)

(** [u64::from_ne_bytes] depends on the byte order of the target. *)
Inductive endian := Little | Big.
Class Arch := arch_endian : endian.

Fixpoint from_le_bytes (l : list Z) : Z :=
  match l with [] => 0 | b :: t => b + 256 * from_le_bytes t end.
Definition from_ne_bytes `{Arch} (l : list Z) : Z :=
  match arch_endian with Little => from_le_bytes l | Big => from_le_bytes (rev l) end.

Definition wrapping_sub64 (a b : Z) : Z := as_u64 (a - b).
Definition not64 (w : Z) : Z := Z.lxor w U64_MAX.

Section Scan.
Context `{AR : Arch}.

Definition ONES : Z := from_ne_bytes (replicate 8 1).
Definition HIGHS : Z := from_ne_bytes (replicate 8 128).

(** The stop mask of one word. *)
Definition stop_word (w floor : Z) (holes : list Z) : Z :=
  fold_left
    (fun stop hole =>
       let x := Z.lxor w (as_u64 (ONES * hole)) in
       Z.lor stop (Z.land (Z.land (wrapping_sub64 x ONES) (not64 x)) HIGHS))
    holes
    (Z.land (Z.land (wrapping_sub64 w (as_u64 (ONES * floor))) (not64 w)) HIGHS).

Fixpoint scan_words (fuel : nat) (data : list Z) (pos : nat) (floor : Z) (holes : list Z) : nat :=
  match fuel with
  | O => pos
  | S fuel' =>
      if (pos + 8 <=? length data)%nat then
        if stop_word (from_ne_bytes (take 8 (drop pos data))) floor holes =? 0
        then scan_words fuel' data (pos + 8) floor holes
        else pos
      else pos
  end.

Definition scan (data : list Z) (pos : nat) (class floor : Z) (holes : list Z) : nat :=
  let pos := scan_words (length data) data pos floor holes in
  (pos + span_len (fun b => is_ b class) (drop pos data))%nat.

Definition field_value_end (data : list Z) (pos : nat) : nat :=
  scan data pos VALUE 32 VALUE_HOLES.

Definition target_scan (data : list Z) (pos : nat) : nat :=
  scan data pos TARGET 33 TARGET_HOLES.

Fixpoint skip_backslashes (fuel : nat) (data : list Z) (end_ : nat) : nat :=
  match fuel with
  | O => end_
  | S fuel' =>
      if bool_decide (data !! end_ = Some 92)
      then skip_backslashes fuel' data (target_scan data (end_ + 1))
      else end_
  end.

Definition past_query_backslashes `{MC : Memchr} (data : list Z) (start end_ : nat) : nat :=
  match memchr 63 (slice start end_ data) with
  | Some _ => skip_backslashes (length data) data end_
  | None => end_
  end.

End Scan.

(** ** Recognisers of field values *)

Definition is_ows (b : Z) : bool := (b =? SP) || (b =? HTAB).

Definition trim_ows (v : list Z) : list Z :=
  let v := drop (span_len is_ows v) v in
  take (length v - span_len is_ows (rev v)) v.

(** The tail check of [split_host]: nothing, or [":" port]. *)
Definition host_port_tail (rest : list Z) : bool :=
  match rest with
  | [] => true
  | c :: port => (c =? 58) && (span_len is_ascii_digit port =? length port)%nat
  end.

Definition split_host (v : list Z) : option nat :=
  let bracketed := match v with c :: _ => c =? 91 | [] => false end in
  let host_end :=
    if bracketed then
      let i := S (span_len (fun b => is_ascii_hexdigit b || (b =? 58) || (b =? 46)) (drop 1 v)) in
      if (i =? 1)%nat || negb (bool_decide (v !! i = Some 93)) then None else Some (i + 1)%nat
    else Some (span_len (fun b => is_ b HOST) v)
  in
  match host_end with
  | None => None
  | Some h => if host_port_tail (drop h v) then Some h else None
  end.

(** [usize] is 64 bits on every target the program is built for. *)
Definition USIZE_MAX : Z := U64_MAX.
Definition checked_mul (a b : Z) : option Z := if a * b <=? USIZE_MAX then Some (a * b) else None.
Definition checked_add (a b : Z) : option Z := if a + b <=? USIZE_MAX then Some (a + b) else None.

Fixpoint parse_digits_from (n : Z) (v : list Z) : option Z :=
  match v with
  | [] => Some n
  | b :: t =>
      if negb (is_ascii_digit b) then None
      else match checked_mul n 10 with
           | None => None
           | Some m => match checked_add m (b - 48) with
                       | None => None
                       | Some n' => parse_digits_from n' t
                       end
           end
  end.

Definition parse_digits (v : list Z) : option Z :=
  match v with [] => None | _ => parse_digits_from 0 v end.

Definition absolute_scheme_len (target : list Z) : option nat :=
  if (7 <=? length target)%nat && eq_ignore_ascii_case (take 7 target) (bs "http://") then Some 7%nat
  else if (8 <=? length target)%nat && eq_ignore_ascii_case (take 8 target) (bs "https://") then Some 8%nat
  else None.

Definition offers_h2c `{MC : Memchr} (value : list Z) : bool :=
  existsb
    (fun offer =>
       let offer := trim_ows offer in
       let name := match memchr 47 offer with Some i => take i offer | None => offer end in
       eq_ignore_ascii_case (trim_ows name) (bs "h2c"))
    (split_on 44 value).

(** ** Facts about the classes *)

Lemma is_class_entry b c : u8 b -> is_ b c = negb (Z.land (class_entry b) c =? 0).
Proof.
  intros Hb. unfold is_, CLASS. do 2 f_equal.
  rewrite (nth_indep _ 0 (class_entry 0)).
  - rewrite (map_nth class_entry). f_equal. f_equal.
    pose proof (lookup_seqZ_lt 0 256 (Z.to_nat b)) as H.
    apply nth_error_nth. rewrite <- (Z2Nat.id b) at 2 by (red in Hb; lia).
    rewrite <- (Z.add_0_l (Z.of_nat _)), <- H by (red in Hb; lia).
    clear. generalize (Z.to_nat b) as n. induction (seqZ 0 256) as [|x t IH]; intros [|n]; simpl; auto.
  - rewrite length_map, length_seqZ. red in Hb. lia.
Qed.

Lemma is_value_spec b : u8 b -> is_ b VALUE = (b =? 9) || ((32 <=? b) && negb (b =? 127)).
Proof.
  intros Hb. apply eqb_prop. revert b Hb.
  apply (byte_forall (fun b => eqb (is_ b VALUE) ((b =? 9) || ((32 <=? b) && negb (b =? 127))))).
  vm_compute. reflexivity.
Qed.

Lemma is_target_spec b :
  u8 b -> is_ b TARGET = (32 <? b) && negb (b =? 127) && negb (b =? 35) && negb (b =? 92).
Proof.
  intros Hb. apply eqb_prop. revert b Hb.
  apply (byte_forall (fun b => eqb (is_ b TARGET)
    ((32 <? b) && negb (b =? 127) && negb (b =? 35) && negb (b =? 92)))).
  vm_compute. reflexivity.
Qed.

(** A class table lookup is out of range, so false, only outside [u8]. *)
Lemma is_tchar_ascii b : u8 b -> is_ b TCHAR = true ->
  b < 128 /\ b <> 9 /\ b <> 10 /\ b <> 13 /\ b <> 32 /\ b <> 44 /\ b <> 47 /\ b <> 58 /\ b <> 63.
Proof.
  intros Hb H.
  pose proof (byte_forall (fun b => implb (is_ b TCHAR)
    ((b <? 128) && negb (b =? 9) && negb (b =? 10) && negb (b =? 13) && negb (b =? 32)
     && negb (b =? 44) && negb (b =? 47) && negb (b =? 58) && negb (b =? 63))) eq_refl b Hb) as E.
  simpl in E. rewrite H in E. simpl in E. bool_simpl. lia.
Qed.

Lemma is_host_ascii b : u8 b -> is_ b HOST = true -> b < 128 /\ 32 < b /\ b <> 58 /\ b <> 64.
Proof.
  intros Hb H.
  pose proof (byte_forall (fun b => implb (is_ b HOST)
    ((b <? 128) && (32 <? b) && negb (b =? 58) && negb (b =? 64))) eq_refl b Hb) as E.
  simpl in E. rewrite H in E. simpl in E. bool_simpl. lia.
Qed.

(** ** The word test is exact *)

(** Bits of a little-endian word, one byte at a time. *)
Lemma testbit_byte_cons b w n :
  0 <= b < 256 -> 0 <= n ->
  Z.testbit (b + 256 * w) n = if n <? 8 then Z.testbit b n else Z.testbit w (n - 8).
Proof.
  intros Hb Hn. destruct (Z.ltb_spec n 8).
  - rewrite <- (Z.mod_pow2_bits_low (b + 256 * w) 8) by lia.
    replace ((b + 256 * w) mod 2 ^ 8) with b; [done|].
    rewrite (Z.add_comm b), (Z.mul_comm 256).
    change (2 ^ 8) with 256. rewrite Z.add_comm, Z_mod_plus_full. symmetry. by apply Z.mod_small.
  - replace n with (n - 8 + 8) at 1 by lia. rewrite <- Z.div_pow2_bits by lia.
    f_equal. change (2 ^ 8) with 256. rewrite (Z.mul_comm 256), Z_div_plus_full by lia.
    rewrite Z.div_small by lia. lia.
Qed.

Lemma from_le_bytes_bound l : Forall u8 l -> 0 <= from_le_bytes l < 256 ^ Z.of_nat (length l).
Proof.
  induction 1 as [|b t Hb _ IH]; simpl from_le_bytes; [simpl; lia|].
  rewrite length_cons, Nat2Z.inj_succ, Z.pow_succ_r by lia. red in Hb. lia.
Qed.

(** [lane i w]: the high bit of byte [i]. *)
Definition lane (i : nat) (w : Z) : bool := Z.testbit w (8 * Z.of_nat i + 7).

Lemma lane_cons_0 b w : 0 <= b < 256 -> lane 0 (b + 256 * w) = (128 <=? b).
Proof.
  intros Hb. unfold lane. rewrite testbit_byte_cons by lia. simpl.
  assert (H : forallb (fun b => eqb (Z.testbit b 7) (128 <=? b)) (seqZ 0 256) = true) by reflexivity.
  apply eqb_prop, (byte_forall _ H). red. lia.
Qed.

Lemma lane_cons_S i b w : 0 <= b < 256 -> lane (S i) (b + 256 * w) = lane i w.
Proof.
  intros Hb. unfold lane. rewrite testbit_byte_cons by lia.
  destruct (Z.ltb_spec (8 * Z.of_nat (S i) + 7) 8); [lia|]. f_equal. lia.
Qed.

Definition lane_clear (d w : Z) (i : nat) : Prop := lane i d = false \/ lane i w = true.

(** The borrow of [w - ONES * floor] sets a lane that [!w] keeps exactly when
    some byte is below [floor]. *)
Lemma lanes_clear_iff floor l :
  0 <= floor <= 128 -> Forall u8 l ->
  (forall i, (i < length l)%nat ->
     lane_clear (from_le_bytes l - from_le_bytes (replicate (length l) floor)) (from_le_bytes l) i)
  <-> Forall (fun b => floor <= b) l.
Proof.
  intros Hf. induction 1 as [|b t Hb _ IH]; [split; [constructor|simpl; lia]|].
  red in Hb. simpl from_le_bytes. simpl length.
  set (w := from_le_bytes t) in *. set (f := from_le_bytes (replicate (length t) floor)) in *.
  rewrite Forall_cons. destruct (decide (floor <= b)) as [Hge|Hlt].
  - replace (b + 256 * w - (floor + 256 * f)) with ((b - floor) + 256 * (w - f)) by lia.
    rewrite <- IH. split.
    + intros H. split; [done|]. intros i Hi. specialize (H (S i) ltac:(lia)).
      unfold lane_clear in *. by rewrite !lane_cons_S in H by lia.
    + intros [_ H] [|i] Hi; unfold lane_clear in *.
      * rewrite !lane_cons_0 by lia. destruct (Z.leb_spec 128 b); [by right|left].
        apply Z.leb_gt. lia.
      * rewrite !lane_cons_S by lia. apply H. lia.
  - split; [|lia]. intros H. specialize (H 0%nat ltac:(lia)). exfalso.
    replace (b + 256 * w - (floor + 256 * f)) with ((b - floor + 256) + 256 * (w - f - 1)) in H by lia.
    unfold lane_clear in H. rewrite !lane_cons_0 in H by lia.
    destruct H as [H|H]; bool_simpl; lia.
Qed.

Lemma lxor_u8 b h : u8 b -> u8 h -> u8 (Z.lxor b h).
Proof.
  intros Hb Hh.
  assert (H : forallb (fun b => forallb (fun h => (0 <=? Z.lxor b h) && (Z.lxor b h <? 256)) (seqZ 0 256))
                (seqZ 0 256) = true) by (vm_compute; reflexivity).
  pose proof (byte_forall _ (byte_forall _ H b Hb) h Hh) as E. simpl in E. bool_simpl. red. lia.
Qed.

Lemma from_le_bytes_lxor h l :
  u8 h -> Forall u8 l ->
  Z.lxor (from_le_bytes l) (from_le_bytes (replicate (length l) h))
  = from_le_bytes (map (fun b => Z.lxor b h) l).
Proof.
  intros Hh. induction 1 as [|b t Hb _ IH]; [done|]. simpl.
  pose proof (lxor_u8 b h Hb Hh) as Hx. red in Hx.
  rewrite <- IH. red in Hb, Hh. apply Z.bits_inj'. intros n Hn.
  rewrite Z.lxor_spec, !testbit_byte_cons by lia.
  destruct (n <? 8); by rewrite Z.lxor_spec.
Qed.

Lemma lxor_byte_zero b h : u8 b -> u8 h -> 1 <= Z.lxor b h <-> b <> h.
Proof.
  intros Hb Hh. red in Hb, Hh. assert (0 <= Z.lxor b h) by (apply Z.lxor_nonneg; lia).
  rewrite <- (Z.lxor_eq_0_iff b h). lia.
Qed.

Lemma Forall_u8_lxor h l : u8 h -> Forall u8 l -> Forall u8 (map (fun b => Z.lxor b h) l).
Proof.
  intros Hh H. apply Forall_map. eapply Forall_impl; [exact H|]. intros b Hb. by apply lxor_u8.
Qed.

(** The masked word is zero exactly when every lane is clear. *)
Lemma lane_highs n : 0 <= n ->
  Z.testbit (from_le_bytes (replicate 8 128)) n = true <-> (exists i, (i < 8)%nat /\ n = 8 * Z.of_nat i + 7).
Proof.
  intros Hn. split.
  - intros H. assert (Hlt : n < 64).
    { destruct (Z_lt_ge_dec n 64) as [|Hge]; [done|]. exfalso.
      rewrite Z.bits_above_log2 in H; [done|by vm_compute|].
      apply Z.lt_le_trans with 64; [by vm_compute|lia]. }
    assert (E : forallb (fun n => eqb (Z.testbit (from_le_bytes (replicate 8 128)) n) (n mod 8 =? 7))
                  (seqZ 0 64) = true) by (vm_compute; reflexivity).
    rewrite forallb_Forall, Forall_forall in E. specialize (E n ltac:(apply elem_of_seqZ; lia)).
    apply eqb_prop in E. rewrite H in E. symmetry in E. apply Z.eqb_eq in E.
    exists (Z.to_nat (n / 8)). split; [|rewrite Z2Nat.id by (apply Z.div_pos; lia); pose proof (Z.div_mod n 8); lia].
    apply Nat2Z.inj_lt. rewrite Z2Nat.id by (apply Z.div_pos; lia). apply Z.div_lt_upper_bound; lia.
  - intros (j & Hj & ->). do 8 (destruct j as [|j]; [by vm_compute|]). lia.
Qed.

Lemma mask_zero_iff d w :
  0 <= w < 2 ^ 64 ->
  Z.land (Z.land (as_u64 d) (not64 w)) (from_le_bytes (replicate 8 128)) = 0
  <-> forall i, (i < 8)%nat -> lane_clear d w i.
Proof.
  intros Hw.
  assert (Hbit : forall i, (i < 8)%nat ->
    Z.testbit (Z.land (as_u64 d) (not64 w)) (8 * Z.of_nat i + 7) = lane i d && negb (lane i w)).
  { intros i Hi. unfold lane, not64, as_u64, wrap. rewrite Z.land_spec, Z.lxor_spec.
    rewrite Z.mod_pow2_bits_low by lia. f_equal.
    change U64_MAX with (Z.ones 64). rewrite Z.ones_spec_low by lia. apply xorb_true_r. }
  split.
  - intros H i Hi. apply (f_equal (fun z => Z.testbit z (8 * Z.of_nat i + 7))) in H.
    rewrite Z.land_spec, Hbit, Z.bits_0 in H by done.
    assert (Hh : Z.testbit (from_le_bytes (replicate 8 128)) (8 * Z.of_nat i + 7) = true).
    { apply lane_highs; [lia|eauto]. }
    rewrite Hh, andb_true_r in H. unfold lane_clear.
    destruct (lane i d), (lane i w); auto.
  - intros H. apply Z.bits_inj'. intros n Hn. rewrite Z.bits_0, Z.land_spec.
    destruct (Z.testbit (from_le_bytes (replicate 8 128)) n) eqn:E; [|by rewrite andb_false_r].
    apply lane_highs in E as (i & Hi & ->); [|done].
    rewrite Hbit, andb_true_r by done. destruct (H i Hi) as [->| ->]; [done|apply andb_false_r].
Qed.

(** The test on one word, the bytes in either order. *)
Lemma word_test_iff floor l :
  0 <= floor <= 128 -> Forall u8 l -> length l = 8%nat ->
  Z.land (Z.land (wrapping_sub64 (from_le_bytes l) (from_le_bytes (replicate 8 floor)))
            (not64 (from_le_bytes l))) (from_le_bytes (replicate 8 128)) = 0
  <-> Forall (fun b => floor <= b) l.
Proof.
  intros Hf Hl Hn. unfold wrapping_sub64.
  pose proof (from_le_bytes_bound l Hl) as Hb. rewrite Hn in Hb.
  rewrite mask_zero_iff by (split; [lia|]; eapply Z.lt_le_trans; [apply Hb|by vm_compute]).
  rewrite <- (lanes_clear_iff floor l Hf Hl), Hn. done.
Qed.

Section ScanSpec.
Context `{AR : Arch}.

Lemma ones_times f : u8 f -> as_u64 (ONES * f) = from_le_bytes (replicate 8 f).
Proof.
  intros Hf. unfold ONES, from_ne_bytes. destruct arch_endian; simpl; red in Hf;
    (rewrite as_u64_small; [|red]); lia.
Qed.

Lemma highs_le : HIGHS = from_le_bytes (replicate 8 128).
Proof. unfold HIGHS, from_ne_bytes. by destruct arch_endian. Qed.

Lemma ones_le : ONES = from_le_bytes (replicate 8 1).
Proof. unfold ONES, from_ne_bytes. by destruct arch_endian. Qed.

(** The bytes of a word in the order [from_ne_bytes] combines them. *)
Definition ne_order (l : list Z) : list Z :=
  match arch_endian with Little => l | Big => rev l end.

Lemma ne_order_Forall (P : Z -> Prop) l : Forall P (ne_order l) <-> Forall P l.
Proof.
  unfold ne_order. destruct arch_endian; [done|].
  split; intros H; [rewrite <- (rev_involutive l)|]; by apply Forall_rev.
Qed.

Lemma from_ne_bytes_order l : from_ne_bytes l = from_le_bytes (ne_order l).
Proof. unfold from_ne_bytes, ne_order. by destruct arch_endian. Qed.

Lemma length_ne_order l : length (ne_order l) = length l.
Proof. unfold ne_order. destruct arch_endian; [done|apply length_rev]. Qed.

Lemma stop_word_zero l floor holes :
  0 <= floor <= 128 -> Forall u8 holes -> Forall u8 l -> length l = 8%nat ->
  stop_word (from_ne_bytes l) floor holes = 0
  <-> Forall (fun b => floor <= b /\ b ∉ holes) l.
Proof.
  intros Hf Hholes Hl Hn. unfold stop_word.
  rewrite <- (ne_order_Forall u8) in Hl. rewrite <- length_ne_order in Hn.
  rewrite from_ne_bytes_order, <- (ne_order_Forall _ l).
  set (k := ne_order l) in *. clearbody k. clear l.
  rewrite (ones_times floor), highs_le by (red; lia).
  pose proof (word_test_iff floor k Hf Hl Hn) as Hbase.
  set (m := Z.land _ _) in Hbase |- *. clearbody m.
  assert (Hgen : forall m P, (m = 0 <-> Forall P k) ->
    fold_left (fun stop hole =>
       let x := Z.lxor (from_le_bytes k) (as_u64 (ONES * hole)) in
       Z.lor stop (Z.land (Z.land (wrapping_sub64 x ONES) (not64 x)) (from_le_bytes (replicate 8 128))))
      holes m = 0 <-> Forall (fun b => P b /\ b ∉ holes) k).
  { clear Hbase m. induction Hholes as [|h hs Hh _ IH]; intros m P Hm; cbn -[from_le_bytes replicate].
    - rewrite Hm. split; intros H; eapply Forall_impl; eauto; set_solver.
    - rewrite (IH _ (fun b => P b /\ b <> h)).
      + split; intros H; eapply Forall_impl; eauto; set_solver.
      + rewrite Z.lor_eq_0_iff, Hm, (ones_times h Hh), ones_le.
        pose proof (from_le_bytes_lxor h k Hh Hl) as Hx. rewrite Hn in Hx.
        rewrite Hx, word_test_iff.
        * rewrite Forall_map, <- Forall_and. split; intros H; apply Forall_forall; intros b Hin;
            rewrite Forall_forall in H; destruct (H b Hin); (split; [done|]);
            rewrite Forall_forall in Hl; by apply lxor_byte_zero; auto.
        * lia.
        * by apply Forall_u8_lxor.
        * by rewrite length_map. }
  rewrite (Hgen m _ Hbase). done.
Qed.

Lemma scan_words_spec (p : Z -> bool) data floor holes fuel pos :
  0 <= floor <= 128 -> Forall u8 holes -> Forall u8 data ->
  (forall b, u8 b -> floor <= b -> b ∉ holes -> p b = true) ->
  let pos' := scan_words fuel data pos floor holes in
  (pos' + span_len p (drop pos' data) = pos + span_len p (drop pos data))%nat.
Proof.
  intros Hf Hholes Hdata Hp. simpl. revert pos. induction fuel as [|fuel IH]; intros pos; simpl; [done|].
  destruct (Nat.leb_spec (pos + 8) (length data)); [|done].
  destruct (Z.eqb_spec (stop_word (from_ne_bytes (take 8 (drop pos data))) floor holes) 0) as [E|]; [|done].
  rewrite IH.
  assert (Hlen : length (take 8 (drop pos data)) = 8%nat) by (rewrite length_take, length_drop; lia).
  assert (Hu : Forall u8 (take 8 (drop pos data))) by auto using Forall_take, Forall_drop.
  apply stop_word_zero in E; [|done..].
  rewrite <- (take_drop 8 (drop pos data)). rewrite span_len_app_all, Hlen, drop_drop; [lia|].
  apply Forall_forall. intros b Hb. rewrite Forall_forall in E, Hu. destruct (E b Hb). auto.
Qed.

(** [scan] is the per-byte loop whenever its contract holds: every byte at or
    above [floor] that is no hole belongs to the class. *)
Lemma scan_span_len data pos class floor holes :
  0 <= floor <= 128 -> Forall u8 holes -> Forall u8 data ->
  (forall b, u8 b -> floor <= b -> b ∉ holes -> is_ b class = true) ->
  scan data pos class floor holes = (pos + span_len (fun b => is_ b class) (drop pos data))%nat.
Proof. intros. unfold scan. by apply scan_words_spec. Qed.

Lemma field_value_end_span data pos : Forall u8 data ->
  field_value_end data pos = (pos + span_len is_field_value_byte (drop pos data))%nat.
Proof.
  intros. apply scan_span_len; [lia|solve_u8|done|].
  intros b Hb Hfl Hh. rewrite is_value_spec by done. unfold VALUE_HOLES in Hh.
  assert (b <> 127) by set_solver. lia.
Qed.

Lemma target_scan_span data pos : Forall u8 data ->
  target_scan data pos = (pos + span_len is_target_byte (drop pos data))%nat.
Proof.
  intros. apply scan_span_len; [lia|solve_u8|done|].
  intros b Hb Hfl Hh. rewrite is_target_spec by done. unfold TARGET_HOLES in Hh.
  assert (b <> 127 /\ b <> 35 /\ b <> 92) by set_solver. lia.
Qed.

End ScanSpec.

(** ** Decimal lengths *)

Definition decimal_from (n : Z) (v : list Z) : Z := fold_left (fun n b => n * 10 + (b - 48)) v n.
Definition decimal (v : list Z) : Z := decimal_from 0 v.
Definition digits (v : list Z) : Prop := Forall (fun b => is_ascii_digit b = true) v.

Lemma decimal_from_ge n v : 0 <= n -> digits v -> n <= decimal_from n v.
Proof.
  intros Hn Hv. revert n Hn. unfold decimal_from.
  induction Hv as [|b t Hb _ IH]; intros n Hn; simpl; [lia|].
  unfold is_ascii_digit in Hb. bool_simpl. etransitivity; [|apply IH]; lia.
Qed.

Lemma parse_digits_from_spec n v m : 0 <= n <= USIZE_MAX ->
  parse_digits_from n v = Some m <-> digits v /\ m = decimal_from n v /\ decimal_from n v <= USIZE_MAX.
Proof.
  revert n. induction v as [|b t IH]; intros n Hn; cbn [parse_digits_from decimal_from fold_left].
  { split; [intros [= <-]; repeat split; [constructor|lia]|by intros (_ & -> & _)]. }
  destruct (is_ascii_digit b) eqn:Hb; cbn [negb]; [|split; [done|intros [H _]; inversion H; congruence]].
  change (fold_left _ t ?k) with (decimal_from k t).
  assert (0 <= b - 48 <= 9) by (unfold is_ascii_digit in Hb; bool_simpl; lia).
  unfold checked_mul, checked_add.
  destruct (Z.leb_spec (n * 10) USIZE_MAX); [destruct (Z.leb_spec (n * 10 + (b - 48)) USIZE_MAX)|].
  - rewrite IH by lia. unfold digits. rewrite Forall_cons. naive_solver.
  - split; [done|]. intros (Hd & _ & Hle). inversion Hd; subst.
    pose proof (decimal_from_ge (n * 10 + (b - 48)) t ltac:(lia) ltac:(done)). lia.
  - split; [done|]. intros (Hd & _ & Hle). inversion Hd; subst.
    pose proof (decimal_from_ge (n * 10 + (b - 48)) t ltac:(lia) ltac:(done)). lia.
Qed.

(** ** Host values *)

Definition is_ip_byte (b : Z) : bool := is_ascii_hexdigit b || (b =? 58) || (b =? 46).

(** [uri-host]: a DNS-alphabet name, or a bracketed IPv6 address. *)
Definition uri_host (h : list Z) : Prop :=
  Forall (fun b => is_ b HOST = true) h
  \/ exists ip, h = 91 :: ip ++ [93] /\ ip <> [] /\ Forall (fun b => is_ip_byte b = true) ip.

Definition port_suffix (t : list Z) : Prop := t = [] \/ exists port, t = 58 :: port /\ digits port.

Lemma span_len_full {A} (p : A -> bool) l : span_len p l = length l <-> Forall (fun x => p x = true) l.
Proof.
  split; [|apply span_len_all]. intros E. rewrite <- (take_ge l (span_len p l)) by lia. apply span_len_take.
Qed.

Lemma host_port_tail_spec t : host_port_tail t = true <-> port_suffix t.
Proof.
  unfold host_port_tail, port_suffix, digits. destruct t as [|c port]; [naive_solver|].
  rewrite andb_true_iff, Z.eqb_eq, Nat.eqb_eq, span_len_full. naive_solver.
Qed.

Lemma port_suffix_head t : port_suffix t -> head t = None \/ head t = Some 58.
Proof. intros [->|(? & -> & _)]; auto. Qed.

(** A run of [p] ends where a byte outside [p], or nothing, follows. *)
Lemma span_len_run {A} (p : A -> bool) l k :
  Forall (fun x => p x = true) l -> (forall x, head k = Some x -> p x = false) ->
  span_len p (l ++ k) = length l.
Proof.
  intros Hl Hk. destruct k as [|x k]; [by rewrite app_nil_r; apply span_len_all|].
  apply span_len_app_stop; [done|by apply Hk].
Qed.

Lemma split_host_sound v h :
  split_host v = Some h ->
  exists host t, v = host ++ t /\ length host = h /\ uri_host host /\ port_suffix t.
Proof.
  unfold split_host. intros E.
  destruct (match v with c :: _ => c =? 91 | [] => false end) eqn:Eb.
  - destruct v as [|c v]; [done|]. bool_simpl. subst c. simpl in E.
    change (fun b => is_ascii_hexdigit b || (b =? 58) || (b =? 46)) with is_ip_byte in E. rewrite drop_0 in E.
    set (n := span_len is_ip_byte v) in *.
    destruct (Nat.eqb_spec n 0) as [|Hn]; [done|]. simpl in E.
    destruct (bool_decide (v !! n = Some 93)) eqn:E93; [|done]. simpl in E. bool_simpl.
    destruct (host_port_tail (drop (n + 1) v)) eqn:Ht; [|done]. injection E as <-.
    exists (91 :: take n v ++ [93]), (drop (n + 1) v). apply host_port_tail_spec in Ht.
    pose proof (lookup_lt_Some _ _ _ E93) as Hlt.
    split_and!; [| |right; exists (take n v)|done].
    + simpl. f_equal. rewrite <- app_assoc. simpl. rewrite Nat.add_1_r.
      by rewrite <- (drop_lookup_cons _ _ _ E93), take_drop.
    + simpl. rewrite length_app, length_take. simpl. lia.
    + split_and!; [done| |apply span_len_take]. intros H. apply (f_equal length) in H.
      rewrite length_take in H. simpl in H. lia.
  - destruct (host_port_tail (drop (span_len (fun b => is_ b HOST) v) v)) eqn:Ht; [|done].
    injection E as <-. apply host_port_tail_spec in Ht.
    eexists (take _ v), (drop _ v). rewrite take_drop. split_and!; [done| |left; apply span_len_take|done].
    rewrite length_take. pose proof (span_len_le (fun b => is_ b HOST) v). lia.
Qed.

Lemma split_host_complete host t :
  uri_host host -> port_suffix t -> split_host (host ++ t) = Some (length host).
Proof.
  intros Hh Ht. unfold split_host. apply host_port_tail_spec in Ht as Ht'. destruct Hh as [Hh|(ip & -> & Hne & Hip)].
  - assert (Hs : span_len (fun b => is_ b HOST) (host ++ t) = length host).
    { apply span_len_run; [done|]. intros x Hx. destruct (port_suffix_head t Ht); congruence || (simplify_eq; by vm_compute). }
    assert (Hb : match host ++ t with c :: _ => c =? 91 | [] => false end = false).
    { destruct host as [|c host]; simpl.
      - destruct Ht as [->|(? & -> & _)]; done.
      - inversion Hh; subst. destruct (Z.eqb_spec c 91); [subst; by vm_compute in H1|done]. }
    rewrite Hb, Hs, drop_app_length, Ht'. done.
  - simpl. change (fun b => is_ascii_hexdigit b || (b =? 58) || (b =? 46)) with is_ip_byte. rewrite drop_0.
    rewrite <- app_assoc. simpl. rewrite (span_len_app_stop is_ip_byte) by (done || by vm_compute).
    destruct ip as [|c ip]; [done|]. set (l := c :: ip) in *.
    assert (Hl : (length l =? 0)%nat = false) by done. rewrite Hl. simpl.
    rewrite bool_decide_eq_true_2 by (by rewrite list_lookup_middle). simpl.
    replace (drop (length ip + 1) (ip ++ 93 :: t)) with t; [rewrite Ht', length_app; done|].
    rewrite Nat.add_1_r. change (93 :: t) with ([93] ++ t). rewrite app_assoc.
    symmetry. apply drop_app_length'. rewrite length_app. simpl. lia.
Qed.

(** ** Properties *)

(** The word-at-a-time [scan] of the request parser stops exactly where
    the byte-by-byte class loop would, for every byte order, provided the
    caller keeps [scan]'s contract (floor at most 0x80, and every byte at or
    above the floor that is no hole is in the class). *)
Theorem scan_exact `{AR : Arch} (data : list Z) (pos : nat) (class floor : Z) (holes : list Z)
  (Hfloor : 0 <= floor <= 128) (Hholes : Forall u8 holes) (Hdata : Forall u8 data)
  (Hclass : forall b, u8 b -> floor <= b -> b ∉ holes -> is_ b class = true) :
  scan data pos class floor holes = (pos + span_len (fun b => is_ b class) (drop pos data))%nat.
Proof. by apply scan_span_len. Qed.

Lemma scan_exact_witness :
  @scan Little (bs "/a/b?q=12345678 HTTP") 0 TARGET 33 TARGET_HOLES = 15%nat.
Proof.
  rewrite (@scan_exact Little _ 0 TARGET 33 TARGET_HOLES).
  - vm_compute. reflexivity.
  - lia.
  - solve_u8.
  - vm_compute bs. solve_u8.
  - intros b Hb Hfl Hh. rewrite is_target_spec by exact Hb. unfold TARGET_HOLES in Hh.
    assert (b <> 127 /\ b <> 35 /\ b <> 92) by set_solver. lia.
Defined.

(** [parse_digits] reads a Content-Length exactly: it succeeds on a
    non-empty run of digits whose decimal value fits a [usize], with that
    value, and on nothing else (no sign, no list, no wrap-around). *)
Theorem parse_digits_exact (v : list Z) (n : Z) :
  parse_digits v = Some n <-> v <> [] /\ digits v /\ n = decimal v /\ decimal v <= USIZE_MAX.
Proof.
  unfold parse_digits. destruct v as [|b t]; [naive_solver|].
  rewrite parse_digits_from_spec by (vm_compute; intuition discriminate). unfold decimal. naive_solver.
Qed.

(** [split_host] accepts exactly [uri-host [":" port]] and returns the
    length of the host part, so Host and a target's authority are always
    split at the same place. *)
Theorem split_host_exact (v : list Z) (h : nat) :
  split_host v = Some h <->
  exists host t, v = host ++ t /\ length host = h /\ uri_host host /\ port_suffix t.
Proof.
  split; [apply split_host_sound|]. intros (host & t & -> & <- & Hh & Ht). by apply split_host_complete.
Qed.

#[global] Arguments is_ : simpl never.
#[global] Arguments CLASS : simpl never.
#[global] Arguments is_field_value_byte : simpl never.
#[global] Arguments is_target_byte : simpl never.
#[global] Arguments is_tchar : simpl never.
