(* ===== verification/Chunked.v ===== *)
(** * The chunked-body observer

    [src/src/proxy/chunked.rs]: the [Phase] state machine, the bulk-copy
    driver [advance] and its two entry points. The driver is proved equal to
    a byte-at-a-time run, independent of how the stream is cut into reads,
    and to recognise exactly the chunked-body grammar, with the payload of
    the chunks as its output. *)

From S2P Require Import Prelude Bytes HttpGrammar.

(** ** The state machine *)

Inductive Phase :=
  | Size (hex : Z) (has_digit : bool)
  | SizeExt (size : Z)
  | SizeCrlf (size : Z)
  | Data (remaining : Z)
  | DataCrlf (saw_cr : bool)
  | TrailerLineStart
  | TrailerLine (saw_colon : bool)
  | TrailerCr (blank : bool)
  | Done
  | Broken.

#[export] Instance Phase_eq_dec : EqDecision Phase.
Proof. solve_decision. Defined.

Record ChunkedStream := { phase : Phase }.

Definition ChunkedStream_new : ChunkedStream := {| phase := Size 0 false |}.

Definition is_terminated (s : ChunkedStream) : bool := bool_decide (phase s = Done).
Definition is_broken (s : ChunkedStream) : bool := bool_decide (phase s = Broken).

Definition shift_hex (hex nibble : Z) : option Z :=
  if negb (Z.shiftr hex 60 =? 0) then None
  else Some (Z.lor (as_u64 (Z.shiftl hex 4)) nibble).

Definition size_digit (hex nibble : Z) : Phase :=
  match shift_hex hex nibble with Some h => Size h true | None => Broken end.

Definition step (ph : Phase) (byte : Z) : Phase :=
  match ph with
  | Size hex has_digit =>
      if (48 <=? byte) && (byte <=? 57) then size_digit hex (byte - 48)
      else if (97 <=? byte) && (byte <=? 102) then size_digit hex (byte - 97 + 10)
      else if (65 <=? byte) && (byte <=? 70) then size_digit hex (byte - 65 + 10)
      else if (byte =? 59) && has_digit then SizeExt hex
      else if (byte =? CR) && has_digit then SizeCrlf hex
      else Broken
  | SizeExt size =>
      if byte =? CR then SizeCrlf size
      else if is_field_value_byte byte then SizeExt size
      else Broken
  | SizeCrlf size =>
      if (byte =? LF) && (size =? 0) then TrailerLineStart
      else if byte =? LF then Data size
      else Broken
  | Data _ => Broken
  | DataCrlf saw_cr =>
      if negb saw_cr && (byte =? CR) then DataCrlf true
      else if saw_cr && (byte =? LF) then Size 0 false
      else Broken
  | TrailerLineStart =>
      if byte =? CR then TrailerCr true
      else if (byte =? SP) || (byte =? HTAB) || (byte =? 58) then Broken
      else if negb (is_field_value_byte byte) then Broken
      else TrailerLine false
  | TrailerLine saw_colon =>
      if (byte =? CR) && saw_colon then TrailerCr false
      else if byte =? 58 then TrailerLine true
      else if byte =? HTAB then TrailerLine saw_colon
      else if negb (is_field_value_byte byte) then Broken
      else TrailerLine saw_colon
  | TrailerCr blank =>
      if (byte =? LF) && blank then Done
      else if byte =? LF then TrailerLineStart
      else Broken
  | Done | Broken => Broken
  end.

(** The loop of [advance]: the phase it leaves, the bytes consumed, and what
    [on_data] was handed, in order. [i] is the loop's index. *)
Fixpoint advance_loop (fuel : nat) (data : list Z) (ph : Phase) (i : nat) (out : list Z)
  : Phase * nat * list Z :=
  match fuel with
  | O => (ph, i, out)
  | S fuel' =>
      if (i <? length data)%nat then
        match ph with
        | Done => (ph, i, out)
        | Broken => (ph, 0%nat, out)
        | Data remaining =>
            let take_ := Z.to_nat (Z.min remaining (Z.of_nat (length data - i))) in
            let out' := out ++ slice i (i + take_) data in
            let remaining' := remaining - Z.of_nat take_ in
            let ph' := if remaining' =? 0 then DataCrlf false else Data remaining' in
            advance_loop fuel' data ph' (i + take_) out'
        | _ =>
            let ph' := step ph (nth i data 0) in
            match ph' with
            | Broken => (Broken, i, out)
            | _ => advance_loop fuel' data ph' (S i) out
            end
        end
      else (ph, i, out)
  end.

Definition advance (s : ChunkedStream) (data : list Z) : ChunkedStream * nat * list Z :=
  let '(ph, n, out) := advance_loop (S (length data)) data (phase s) 0 [] in
  ({| phase := ph |}, n, out).

Definition observe (s : ChunkedStream) (data : list Z) : ChunkedStream * nat :=
  let '(s', n, _) := advance s data in (s', n).

Definition decode_into (s : ChunkedStream) (data out : list Z) : ChunkedStream * nat * list Z :=
  let '(s', n, payload) := advance s data in (s', n, out ++ payload).

(** ** Phase invariant: sizes fit [u64], a [Data] run is never empty *)

Definition phase_ok (ph : Phase) : Prop :=
  match ph with
  | Size hex _ | SizeExt hex | SizeCrlf hex => u64 hex
  | Data remaining => 0 < remaining < 18446744073709551616
  | _ => True
  end.

(** ** The byte-at-a-time reference *)

Definition bstep (ph : Phase) (b : Z) : Phase * list Z :=
  match ph with
  | Data r => (if r - 1 =? 0 then DataCrlf false else Data (r - 1), [b])
  | _ => (step ph b, [])
  end.

Fixpoint run (ph : Phase) (l : list Z) : Phase * nat * list Z :=
  match l with
  | [] => (ph, 0%nat, [])
  | b :: t =>
      match ph with
      | Done | Broken => (ph, 0%nat, [])
      | _ =>
          let '(ph', o) := bstep ph b in
          match ph' with
          | Broken => (Broken, 0%nat, [])
          | _ => let '(q, n, o') := run ph' t in (q, S n, o ++ o')
          end
      end
  end.

(** ** Hex sizes *)

Lemma shift_hex_spec hex nib : u64 hex -> 0 <= nib < 16 ->
  shift_hex hex nib = if hex * 16 + nib <? 18446744073709551616 then Some (hex * 16 + nib) else None.
Proof.
  intros Hh Hn. unfold shift_hex. red in Hh.
  rewrite Z.shiftr_div_pow2 by lia. change (2 ^ 60) with 1152921504606846976.
  destruct (Z.ltb_spec (hex * 16 + nib) 18446744073709551616).
  - rewrite Z.div_small by lia. simpl. f_equal.
    rewrite Z.shiftl_mul_pow2 by lia. rewrite as_u64_small by (red; lia). change (2 ^ 4) with 16.
    rewrite Z.add_nocarry_lxor, Z.lxor_lor; [done| |].
    all: apply Z.bits_inj'; intros n Hpos; rewrite Z.land_spec, Z.bits_0;
      destruct (Z_lt_ge_dec n 4);
      [change 16 with (2 ^ 4); rewrite Z.mul_pow2_bits_low by lia; done|
       rewrite (Z.bits_above_log2 nib n); [apply andb_false_r|lia|];
       destruct (decide (nib = 0)) as [->|]; [simpl; lia|apply Z.log2_lt_pow2; [lia|]];
       apply Z.lt_le_trans with (2 ^ 4); [lia|apply Z.pow_le_mono_r; lia]].
  - destruct (Z.eqb_spec (hex / 1152921504606846976) 0) as [E|]; [|done].
    apply Z.div_small_iff in E; lia.
Qed.

(** ** The invariant is preserved *)

Lemma size_digit_ok hex nib : u64 hex -> 0 <= nib < 16 -> phase_ok (size_digit hex nib).
Proof.
  intros Hh Hn. unfold size_digit. rewrite shift_hex_spec by done.
  destruct (Z.ltb_spec (hex * 16 + nib) 18446744073709551616); simpl; [|done]. red in Hh |- *. lia.
Qed.

Lemma step_ok ph b : phase_ok ph -> phase_ok (step ph b).
Proof.
  intros Hok. destruct ph as [hex d|n|n|n|c| |c|k| |]; unfold step.
  1: do 3 (split_match; [bool_simpl; apply size_digit_ok; [exact Hok|lia]|]); by repeat split_match.
  all: repeat split_match; try exact I; try exact Hok.
  - cbn [phase_ok] in *. unfold u64 in Hok. bool_simpl. assert (n <> 0) by (intros ->; by rewrite andb_true_r in *).
    lia.
  - cbn [phase_ok]. red. lia.
Qed.

Lemma bstep_ok ph b : phase_ok ph -> phase_ok (bstep ph b).1.
Proof.
  intros Hok. destruct ph; try (by apply step_ok). simpl in *.
  case_match; bool_simpl; simpl; lia.
Qed.

(** ** [advance] is the byte-at-a-time run *)

Lemma bstep_non_data ph b :
  (forall r, ph <> Data r) -> bstep ph b = (step ph b, []).
Proof. destruct ph; try done. intros H. by destruct (H remaining). Qed.

(** A [Data] run taken byte by byte. *)
Lemma run_data r d t :
  0 < r -> Z.of_nat (length d) <= r -> 
  run (Data r) (d ++ t) =
  let ph := if r - Z.of_nat (length d) =? 0 then DataCrlf false else Data (r - Z.of_nat (length d)) in
  let '(q, n, o) := run ph t in (q, (length d + n)%nat, d ++ o).
Proof.
  revert r. induction d as [|b d IH]; intros r Hr Hle; cbn [app length].
  { rewrite Z.sub_0_r. destruct (Z.eqb_spec r 0); [lia|]. simpl. by destruct (run (Data r) t) as [[??]?]. }
  cbn [run bstep]. rewrite length_cons in Hle.
  replace (r - Z.of_nat (S (length d))) with (r - 1 - Z.of_nat (length d)) by lia.
  destruct (Z.eqb_spec (r - 1) 0) as [E|E].
  - destruct d; [|simpl in Hle; lia]. simpl. rewrite E. simpl.
    by destruct (run (DataCrlf false) t) as [[??]?].
  - rewrite IH by lia. simpl.
    destruct (run _ t) as [[q n] o]. done.
Qed.

(** The loop from index [i] runs the rest of the slice. A stream that is
    already broken consumes nothing; it is broken on entry only. *)
Lemma advance_loop_run fuel data ph i out :
  phase_ok ph -> (ph = Broken -> i = 0%nat) -> (i <= length data)%nat -> (length data - i < fuel)%nat ->
  advance_loop fuel data ph i out =
  let '(q, n, o) := run ph (drop i data) in (q, (i + n)%nat, out ++ o).
Proof.
  revert ph i out. induction fuel as [|fuel IH]; intros ph i out Hok Hbr Hi Hfuel; [lia|]. simpl.
  destruct (Nat.ltb_spec i (length data)) as [Hlt|Hge].
  2: { rewrite drop_ge by lia. simpl. by rewrite app_nil_r, Nat.add_0_r. }
  destruct (lookup_lt_is_Some_2 data i Hlt) as [b Hb].
  assert (Hstep : forall ph', ph' = step ph b -> (forall r, ph <> Data r) -> ph <> Done -> ph <> Broken ->
    match ph' with Broken => (Broken, i, out) | _ => advance_loop fuel data ph' (S i) out end =
    (let '(q, n, o) := run ph (drop i data) in (q, (i + n)%nat, out ++ o))).
  { intros ph' -> Hnd Hd Hbk. rewrite (drop_lookup_cons _ _ _ Hb). pose proof (step_ok ph b Hok) as Hok'.
    assert (Hrun : run ph (b :: drop (S i) data) =
      match step ph b with
      | Broken => (Broken, 0%nat, [])
      | ph' => let '(q, n, o) := run ph' (drop (S i) data) in (q, S n, o)
      end).
    { cbn [run]. rewrite bstep_non_data by done. generalize (step ph b) as q. intros q.
      destruct ph; try done; by destruct q. }
    rewrite Hrun.
    destruct (step ph b) eqn:Es; [..|by rewrite Nat.add_0_r, app_nil_r];
      (rewrite IH by (done || lia);
       match goal with |- context [run ?p (drop (S i) data)] =>
         destruct (run p (drop (S i) data)) as [[??]?] end; by rewrite Nat.add_succ_r). }
  destruct ph as [hex d|n|n|r|c| |c|k| |];
    try (rewrite (nth_lookup_Some _ _ _ _ Hb); apply Hstep; [reflexivity|done..]).
  - clear Hstep. cbn [phase_ok] in Hok.
    set (m := Z.to_nat _). assert (Hm : (m <= length data - i)%nat /\ (1 <= m)%nat /\ Z.of_nat m <= r) by lia.
    rewrite IH.
    2: { destruct (Z.eqb_spec (r - Z.of_nat m) 0); cbn [phase_ok]; [done|lia]. }
    2: { destruct (r - Z.of_nat m =? 0); done. }
    2-3: lia.
    rewrite <- (take_drop m (drop i data)), run_data by (rewrite ?length_take, ?length_drop; lia).
    rewrite length_take, length_drop, Nat.min_l, drop_drop by lia. cbv zeta.
    unfold slice. replace (i + m - i)%nat with m by lia.
    destruct (run _ _) as [[q n] o]. f_equal; [f_equal; lia|by rewrite app_assoc].
  - rewrite (drop_lookup_cons _ _ _ Hb). simpl. by rewrite Nat.add_0_r, app_nil_r.
  - rewrite (drop_lookup_cons _ _ _ Hb). simpl. rewrite Hbr by done. by rewrite app_nil_r.
Qed.

Lemma advance_run s data : phase_ok (phase s) ->
  advance s data = let '(q, n, o) := run (phase s) data in ({| phase := q |}, n, o).
Proof.
  intros Hok. unfold advance. rewrite advance_loop_run by (done || lia). rewrite drop_0.
  by destruct (run (phase s) data) as [[??]?].
Qed.

(** ** Streaming *)

Lemma run_ok ph l : phase_ok ph -> phase_ok (run ph l).1.1.
Proof.
  revert ph. induction l as [|b t IH]; intros ph Hok; [done|]. cbn [run].
  pose proof (bstep_ok ph b Hok) as Hb. destruct (bstep ph b) as [ph' o]. cbn [fst] in Hb.
  specialize (IH ph' Hb). destruct (run ph' t) as [[q n] o'].
  destruct ph; try done; destruct ph'; done.
Qed.

Lemma run_app ph a b : 
  run ph (a ++ b) =
  let '(q, n, o) := run ph a in
  match q with
  | Broken => (q, n, o)
  | _ => let '(q', n', o') := run q b in (q', (n + n')%nat, o ++ o')
  end.
Proof.
  revert ph. induction a as [|x a IH]; intros ph; cbn [app].
  { cbn [run]. destruct (run ph b) as [[q n] o] eqn:E; destruct ph; try done.
    destruct b; simpl in E; congruence. }
  cbn [run]. destruct (bstep ph x) as [ph' o].
  destruct ph; try (destruct b; reflexivity);
    (destruct ph'; try reflexivity; rewrite IH; destruct (run _ a) as [[q n] o'];
     destruct q; try reflexivity; destruct (run _ b) as [[q' n'] o'']; rewrite app_assoc; reflexivity).
Qed.

Lemma run_consumed ph l : ((run ph l).1.2 <= length l)%nat.
Proof.
  revert ph. induction l as [|b t IH]; intros ph; [done|]. cbn [run].
  destruct (bstep ph b) as [ph' o]. specialize (IH ph'). destruct (run ph' t) as [[q n] o'].
  cbn [fst snd length] in *. destruct ph; try (simpl; lia); destruct ph'; simpl; lia.
Qed.

(** ** The chunked-body grammar *)

Definition hex_value (b : Z) : option Z :=
  if (48 <=? b) && (b <=? 57) then Some (b - 48)
  else if (97 <=? b) && (b <=? 102) then Some (b - 97 + 10)
  else if (65 <=? b) && (b <=? 70) then Some (b - 65 + 10)
  else None.

(** The value of a run of hex digits after [n], below 2^64. *)
Fixpoint hex_from (n : Z) (ds : list Z) : option Z :=
  match ds with
  | [] => Some n
  | b :: t =>
      match hex_value b with
      | Some v => if n * 16 + v <? 18446744073709551616 then hex_from (n * 16 + v) t else None
      | None => None
      end
  end.

(** [chunk-ext]: nothing, or ';' and field-value bytes. *)
Definition chunk_ext (e : list Z) : Prop :=
  e = [] \/ exists v, e = 59 :: v /\ Forall (fun b => is_field_value_byte b = true) v.

(** A trailer field line: opens with a byte that is no separator, holds a
    colon after it, and only field-value bytes. *)
Definition trailer_line (l : list Z) : Prop :=
  exists b t, l = b :: t /\ b <> SP /\ b <> HTAB /\ b <> 58 /\ 58 ∈ t
  /\ Forall (fun b => is_field_value_byte b = true) l.

Inductive trailer_section : list Z -> Prop :=
  | trailer_end : trailer_section [CR; LF]
  | trailer_field l t : trailer_line l -> trailer_section t -> trailer_section (l ++ CR :: LF :: t).

(** [chunked_body wire payload]. *)
Inductive chunked_body : list Z -> list Z -> Prop :=
  | body_last ds ext t :
      ds <> [] -> hex_from 0 ds = Some 0 -> chunk_ext ext -> trailer_section t ->
      chunked_body (ds ++ ext ++ CR :: LF :: t) []
  | body_chunk ds ext d t p n :
      ds <> [] -> hex_from 0 ds = Some n -> 0 < n -> chunk_ext ext ->
      Z.of_nat (length d) = n -> chunked_body t p ->
      chunked_body (ds ++ ext ++ CR :: LF :: d ++ CR :: LF :: t) (d ++ p).

(** ** What each phase still expects *)

Definition expects_data (r : Z) (w p : list Z) : Prop :=
  exists d t p', w = d ++ CR :: LF :: t /\ Z.of_nat (length d) = r /\ p = d ++ p' /\ chunked_body t p'.

Definition expects_after_size (n : Z) (w p : list Z) : Prop :=
  (n = 0 /\ trailer_section w /\ p = []) \/ (0 < n /\ expects_data n w p).

Definition expects (ph : Phase) (w p : list Z) : Prop :=
  match ph with
  | Size hex hd => exists ds ext t n, w = ds ++ ext ++ CR :: LF :: t /\ (hd = true \/ ds <> [])
      /\ hex_from hex ds = Some n /\ chunk_ext ext /\ expects_after_size n t p
  | SizeExt n => exists e t, w = e ++ CR :: LF :: t
      /\ Forall (fun b => is_field_value_byte b = true) e /\ expects_after_size n t p
  | SizeCrlf n => exists t, w = LF :: t /\ expects_after_size n t p
  | Data r => expects_data r w p
  | DataCrlf false => exists t, w = CR :: LF :: t /\ chunked_body t p
  | DataCrlf true => exists t, w = LF :: t /\ chunked_body t p
  | TrailerLineStart => trailer_section w /\ p = []
  | TrailerLine saw => exists l t, w = l ++ CR :: LF :: t
      /\ Forall (fun b => is_field_value_byte b = true) l /\ (saw = true \/ 58 ∈ l)
      /\ trailer_section t /\ p = []
  | TrailerCr true => w = [LF] /\ p = []
  | TrailerCr false => exists t, w = LF :: t /\ trailer_section t /\ p = []
  | Done => w = [] /\ p = []
  | Broken => False
  end.

Lemma expects_start w p : expects (Size 0 false) w p <-> chunked_body w p.
Proof.
  split.
  - intros (ds & ext & t & n & -> & [?|Hds] & Hn & He & Ha); [done|].
    destruct Ha as [(-> & Ht & ->)|(Hpos & d & t' & p' & -> & Hd & -> & Hb)].
    + by apply body_last.
    + by apply body_chunk with n.
  - intros H. inversion H; subst.
    + exists ds, ext, t, 0. split_and!; auto. by left.
    + exists ds, ext, (d ++ CR :: LF :: t), (Z.of_nat (length d)). split_and!; auto.
      right. split; [done|]. by exists d, t, p0.
Qed.

(** The derivative of [expects ph] by one byte is [expects] of the phase
    [bstep] moves to. *)
Definition derivative (ph : Phase) (w p : list Z) : Prop :=
  exists b t p', w = b :: t /\ p = (bstep ph b).2 ++ p' /\ expects (bstep ph b).1 t p'.

Lemma value_not_cr : is_field_value_byte CR = false. Proof. by vm_compute. Qed.
Lemma value_semicolon : is_field_value_byte 59 = true. Proof. by vm_compute. Qed.
Lemma value_colon : is_field_value_byte 58 = true. Proof. by vm_compute. Qed.
Lemma value_tab : is_field_value_byte HTAB = true. Proof. by vm_compute. Qed.

Lemma derivative_size_crlf n w p : u64 n ->
  expects (SizeCrlf n) w p <-> derivative (SizeCrlf n) w p.
Proof.
  intros Hn. unfold derivative. cbn [bstep step fst snd expects]. split.
  - intros (t & -> & Ha). exists LF, t, p. split_and!; [done..|]. simpl.
    destruct Ha as [(-> & Ht & ->)|(Hpos & Hd)]; [done|].
    destruct (Z.eqb_spec n 0); [lia|done].
  - intros (b & t & p' & -> & -> & He). exists t.
    destruct (Z.eqb_spec b LF) as [->|]; simpl in He; [|done]. split; [done|].
    destruct (Z.eqb_spec n 0) as [->|]; [left; by destruct He|right]. split; [red in Hn; lia|done].
Qed.

Lemma derivative_size_ext n w p :
  expects (SizeExt n) w p <-> derivative (SizeExt n) w p.
Proof.
  unfold derivative. cbn [bstep step fst snd expects]. split.
  - intros ([|b e] & t & -> & He & Ha).
    + exists CR, (LF :: t), p. split_and!; [done..|]. simpl. eauto.
    + exists b, (e ++ CR :: LF :: t), p. split_and!; [done..|]. inversion He; subst.
      destruct (Z.eqb_spec b CR) as [->|]; [by rewrite value_not_cr in *|].
      match goal with H : is_field_value_byte b = true |- _ => rewrite H end. simpl. eauto.
  - intros (b & t & p' & -> & -> & He).
    destruct (Z.eqb_spec b CR) as [->|].
    + destruct He as (t' & -> & Ha). by exists [], t'.
    + destruct (is_field_value_byte b) eqn:Eb; [|done].
      destruct He as (e & t' & -> & He & Ha). exists (b :: e), t'. split_and!; [done|by constructor|done].
Qed.

Lemma derivative_data r w p : 0 < r -> expects (Data r) w p <-> derivative (Data r) w p.
Proof.
  intros Hr. unfold derivative. cbn [bstep fst snd]. split.
  - intros (d & t & p' & -> & Hd & -> & Hb). destruct d as [|b d]; [simpl in Hd; lia|].
    exists b, (d ++ CR :: LF :: t), (d ++ p'). split_and!; [done..|]. rewrite length_cons in Hd.
    destruct (Z.eqb_spec (r - 1) 0).
    + destruct d; [|simpl in Hd; lia]. by exists t.
    + exists d, t, p'. split_and!; (done || lia).
  - intros (b & t & p' & -> & -> & He). destruct (Z.eqb_spec (r - 1) 0).
    + destruct He as (t' & -> & Hb). exists [b], t', p'. split_and!; (done || simpl; lia).
    + destruct He as (d & t' & p'' & -> & Hd & -> & Hb). exists (b :: d), t', p''.
      split_and!; (done || simpl; lia).
Qed.

Lemma derivative_data_crlf c w p : expects (DataCrlf c) w p <-> derivative (DataCrlf c) w p.
Proof.
  unfold derivative. cbn [bstep step fst snd]. destruct c; split.
  - intros (t & -> & Hb). exists LF, t, p. split_and!; [done..|]. simpl. by apply expects_start.
  - intros (b & t & p' & -> & -> & He). destruct (Z.eqb_spec b LF) as [->|]; simpl in He; [|done].
    apply expects_start in He. by exists t.
  - intros (t & -> & Hb). exists CR, (LF :: t), p. split_and!; [done..|]. simpl. eauto.
  - intros (b & t & p' & -> & -> & He). destruct (Z.eqb_spec b CR) as [->|]; simpl in He; [|done].
    destruct He as (t' & -> & Hb). by exists t'.
Qed.

Lemma derivative_trailer_cr k w p : expects (TrailerCr k) w p <-> derivative (TrailerCr k) w p.
Proof.
  unfold derivative. cbn [bstep step fst snd]. destruct k; split.
  - intros (-> & ->). exists LF, [], []. done.
  - intros (b & t & p' & -> & -> & He). destruct (Z.eqb_spec b LF) as [->|]; simpl in He; [|done].
    destruct He as [-> ->]. done.
  - intros (t & -> & Ht & ->). by exists LF, t, [].
  - intros (b & t & p' & -> & -> & He). destruct (Z.eqb_spec b LF) as [->|]; simpl in He; [|done].
    destruct He as [Ht ->]. by exists t.
Qed.

Lemma derivative_trailer_start w p : expects TrailerLineStart w p <-> derivative TrailerLineStart w p.
Proof.
  unfold derivative. cbn [bstep step fst snd expects]. split.
  - intros [Ht ->]. inversion Ht as [|l t (b & l' & -> & H1 & H2 & H3 & Hc & Hv) Ht']; subst.
    + exists CR, [LF], []. done.
    + exists b, (l' ++ CR :: LF :: t), []. split_and!; [done..|]. inversion Hv as [|?? Hb Hl]; subst.
      destruct (Z.eqb_spec b CR) as [->|]; [by rewrite value_not_cr in Hb|].
      assert (E : (b =? SP) || (b =? HTAB) || (b =? 58) = false) by lia. rewrite E, Hb. simpl.
      exists l', t. auto.
  - intros (b & t & p' & -> & -> & He). destruct (Z.eqb_spec b CR) as [->|].
    + destruct He as [-> ->]. split; [constructor|done].
    + destruct ((b =? SP) || (b =? HTAB) || (b =? 58)) eqn:E; [done|].
      destruct (is_field_value_byte b) eqn:Eb; simpl in He; [|done].
      destruct He as (l & t' & -> & Hl & [?|Hc] & Ht & ->); [done|]. split; [|done].
      apply (trailer_field (b :: l)); [|done]. exists b, l. split_and!; (done || lia || by constructor).
Qed.

Lemma derivative_trailer_line c w p : expects (TrailerLine c) w p <-> derivative (TrailerLine c) w p.
Proof.
  unfold derivative. cbn [bstep step fst snd]. split.
  - intros ([|b l] & t & -> & Hl & Hc & Ht & ->).
    + destruct Hc as [->|Hc]; [|by apply not_elem_of_nil in Hc]. exists CR, (LF :: t), []. split_and!; [done..|].
      simpl. eauto.
    + inversion Hl as [|?? Hb Hl']; subst. exists b, (l ++ CR :: LF :: t), []. split_and!; [done..|].
      destruct (Z.eqb_spec b CR) as [->|]; [by rewrite value_not_cr in Hb|]. cbn [andb].
      assert (Hgo : forall c', (c' = true \/ 58 ∈ l) -> expects (TrailerLine c') (l ++ CR :: LF :: t) []).
      { intros c' Hc'. exists l, t. auto. }
      rewrite Hb. destruct (Z.eqb_spec b 58) as [->|]; [apply Hgo; auto|].
      assert (c = true \/ 58 ∈ l) by (rewrite elem_of_cons in Hc; destruct Hc as [?|[?|?]]; auto; congruence).
      destruct (b =? HTAB); by apply Hgo.
  - intros (b & t & p' & -> & -> & He). cbn [app].
    assert (Hgo : forall c', is_field_value_byte b = true -> (c' = true -> c = true \/ b = 58) ->
      expects (TrailerLine c') t p' -> expects (TrailerLine c) (b :: t) p').
    { intros c' Hb Hc' (l & t' & -> & Hl & Hc & Ht & ->). exists (b :: l), t'.
      rewrite elem_of_cons. split_and!; [done|by constructor|naive_solver|done..]. }
    destruct ((b =? CR) && c) eqn:E.
    + bool_simpl. subst. destruct He as (t' & -> & Ht & ->). exists [], t'. auto.
    + destruct (Z.eqb_spec b 58) as [->|]; [eapply Hgo; [apply value_colon| |exact He]; auto|].
      destruct (Z.eqb_spec b HTAB) as [->|]; [eapply Hgo; [apply value_tab| |exact He]; auto|].
      destruct (is_field_value_byte b) eqn:Eb; simpl in He; [|done].
      eapply Hgo; [done| |exact He]; auto.
Qed.

Lemma step_size hex hd b : u64 hex ->
  step (Size hex hd) b =
  match hex_value b with
  | Some v => if hex * 16 + v <? 18446744073709551616 then Size (hex * 16 + v) true else Broken
  | None => if (b =? 59) && hd then SizeExt hex else if (b =? CR) && hd then SizeCrlf hex else Broken
  end.
Proof.
  intros Hh. unfold step, hex_value, size_digit.
  do 3 (split_match; [bool_simpl; rewrite shift_hex_spec by (done || lia); by destruct (_ <? _)|]). done.
Qed.

Lemma hex_value_not_sep v : hex_value 59 = Some v \/ hex_value CR = Some v -> False.
Proof. by intros [H|H]; vm_compute in H. Qed.

Lemma derivative_size hex hd w p : u64 hex ->
  expects (Size hex hd) w p <-> derivative (Size hex hd) w p.
Proof.
  intros Hh. unfold derivative. cbn [bstep fst snd]. split.
  - intros ([|b ds] & ext & t & n & -> & Hd & Hx & He & Ha).
    + destruct Hd as [->|]; [|done]. injection Hx as <-. destruct He as [->|(v & -> & Hv)].
      * exists CR, (LF :: t), p. split_and!; [done..|]. simpl. eauto.
      * exists 59, (v ++ CR :: LF :: t), p. split_and!; [done..|]. simpl. eauto.
    + exists b, (ds ++ ext ++ CR :: LF :: t), p. split_and!; [done..|]. rewrite step_size by done.
      simpl in Hx. destruct (hex_value b) as [v|]; [|done]. case_match; [|done].
      exists ds, ext, t, n. auto.
  - intros (b & t & p' & -> & -> & He). rewrite step_size in He by done. cbn [app].
    destruct (hex_value b) as [v|] eqn:Ev.
    + destruct (hex * 16 + v <? 18446744073709551616) eqn:El; [|done].
      destruct He as (ds & ext & t' & n & -> & _ & Hx & He & Ha). exists (b :: ds), ext, t', n.
      split_and!; auto. simpl. by rewrite Ev, El.
    + destruct hd; rewrite ?andb_true_r, ?andb_false_r in He; [|done].
      destruct (Z.eqb_spec b 59) as [->|]; [|destruct (Z.eqb_spec b CR) as [->|]; [|done]].
      * destruct He as (e & t' & -> & He & Ha). exists [], (59 :: e), t', hex.
        split_and!; auto. right. eauto.
      * destruct He as (t' & -> & Ha). exists [], [], t', hex. split_and!; auto. by left.
Qed.

Lemma expects_derivative ph w p : phase_ok ph -> ph <> Done ->
  expects ph w p <-> derivative ph w p.
Proof.
  intros Hok Hd. destruct ph; cbn [phase_ok] in Hok.
  - by apply derivative_size.
  - apply derivative_size_ext.
  - by apply derivative_size_crlf.
  - apply derivative_data. lia.
  - apply derivative_data_crlf.
  - apply derivative_trailer_start.
  - apply derivative_trailer_line.
  - apply derivative_trailer_cr.
  - done.
  - split; [done|]. intros (b & t & p' & _ & _ & H). done.
Qed.

(** A run reaches [Done] exactly on a word the phase expects. *)
Lemma run_done ph l n p : phase_ok ph ->
  run ph l = (Done, n, p) <-> (n <= length l)%nat /\ expects ph (take n l) p.
Proof.
  revert ph n p. induction l as [|b t IH]; intros ph n p Hok.
  { cbn [run length]. split.
    - intros [= -> <- <-]. done.
    - intros [Hn He]. destruct n; [|lia]. rewrite take_nil in He.
      destruct (decide (ph = Done)) as [->|Hd]; [by destruct He as [_ ->]|].
      apply expects_derivative in He as (? & ? & ? & ? & _); done. }
  destruct (decide (ph = Done)) as [->|Hd].
  { cbn [run expects]. split.
    - intros [= <- <-]. split; [lia|done].
    - intros (Hn & E & ->). destruct n; [done|discriminate]. }
  assert (Hrun : run ph (b :: t) = match (bstep ph b).1 with
      | Broken => (Broken, 0%nat, [])
      | ph' => let '(q, n, o) := run ph' t in (q, S n, (bstep ph b).2 ++ o) end).
  { cbn [run]. destruct (bstep ph b) as [q o] eqn:Eb. cbn [fst snd].
    destruct ph; try done; by destruct q. }
  rewrite Hrun. pose proof (bstep_ok ph b Hok) as Hok'. destruct n as [|n].
  { rewrite take_0. split.
    - destruct (bstep ph b).1; try discriminate; destruct (run _ t) as [[??]?]; discriminate.
    - intros [_ He]. apply expects_derivative in He as (? & ? & ? & ? & _); done. }
  cbn [take length]. rewrite expects_derivative by done. unfold derivative.
  assert (Hex : (exists b' t' p', b :: take n t = b' :: t' /\ p = (bstep ph b').2 ++ p'
      /\ expects (bstep ph b').1 t' p') <->
      exists p', p = (bstep ph b).2 ++ p' /\ expects (bstep ph b).1 (take n t) p').
  { split; [intros (? & ? & p' & [= <- <-] & ? & ?); eauto|intros (p' & ? & ?); eauto 10]. }
  rewrite Hex. clear Hex Hrun.
  destruct (decide ((bstep ph b).1 = Broken)) as [E|E].
  { rewrite E. split; [done|]. by intros (_ & p' & _ & ?). }
  transitivity (exists p', run (bstep ph b).1 t = (Done, n, p') /\ p = (bstep ph b).2 ++ p').
  - destruct (bstep ph b).1; try done; destruct (run _ t) as [[q m] o]; naive_solver.
  - setoid_rewrite (IH (bstep ph b).1 n _ Hok'). split; [intros (p' & [? ?] & ->)|intros (? & p' & -> & ?)];
      eauto with lia.
Qed.

(** ** Properties *)

(** The bulk-copying [advance] loop equals stepping the phase machine one
    byte at a time: same final phase, same count of consumed bytes, same
    payload, from every phase the machine can be in. *)
Theorem advance_bytewise (s : ChunkedStream) (data : list Z) (Hok : phase_ok (phase s)) :
  advance s data = (let '(q, n, o) := run (phase s) data in ({| phase := q |}, n, o))
  /\ phase_ok (run (phase s) data).1.1.
Proof. split; [by apply advance_run|by apply run_ok]. Qed.

Lemma advance_bytewise_witness :
  phase_ok (phase ChunkedStream_new)
  /\ advance ChunkedStream_new (bs "3") = ({| phase := Size 3 true |}, 1%nat, []).
Proof.
  assert (H : phase_ok (phase ChunkedStream_new)) by (vm_compute; intuition discriminate).
  split; [exact H|]. rewrite (proj1 (advance_bytewise ChunkedStream_new (bs "3") H)). vm_compute. reflexivity.
Defined.

(** How the stream is cut into reads does not matter: observing [a] and
    then [b] leaves the stream in the same phase, with the same bytes
    consumed and the same payload, as observing [a ++ b], unless [a] already
    broke the framing, in which case nothing of [b] is consumed. *)
Theorem advance_split (s : ChunkedStream) (a b : list Z) (Hok : phase_ok (phase s)) :
  advance s (a ++ b) =
  let '(s1, n1, o1) := advance s a in
  if is_broken s1 then (s1, n1, o1)
  else let '(s2, n2, o2) := advance s1 b in (s2, (n1 + n2)%nat, o1 ++ o2).
Proof.
  rewrite !advance_run, run_app by done. pose proof (run_ok (phase s) a Hok) as Hq.
  destruct (run (phase s) a) as [[q n] o]. cbn [fst] in Hq. unfold is_broken. cbn [phase].
  destruct (bool_decide_reflect (q = Broken)) as [->|]; [done|].
  rewrite advance_run by done. cbn [phase]. destruct (run q b) as [[??]?]. by destruct q.
Qed.

Lemma advance_split_witness :
  phase_ok (phase ChunkedStream_new)
  /\ advance ChunkedStream_new (bs "2;x" ++ bs "y") = ({| phase := SizeExt 2 |}, 4%nat, []).
Proof.
  assert (H : phase_ok (phase ChunkedStream_new)) by (vm_compute; intuition discriminate).
  split; [exact H|]. rewrite (advance_split ChunkedStream_new (bs "2;x") (bs "y") H). vm_compute. reflexivity.
Defined.

(** C38: a fresh stream terminates exactly on the chunked-body grammar: it
    reports [Done] after consuming [n] bytes and handing out [p] if and only
    if the first [n] bytes are one complete chunked body with payload [p].
    Bytes past the terminator are never consumed. *)
Theorem decode_exact (data : list Z) (n : nat) (p : list Z) :
  advance ChunkedStream_new data = ({| phase := Done |}, n, p)
  <-> (n <= length data)%nat /\ chunked_body (take n data) p.
Proof.
  assert (Hok : phase_ok (phase ChunkedStream_new)) by (vm_compute; intuition discriminate).
  rewrite advance_run by done. rewrite <- expects_start, <- run_done by done.
  cbn [phase ChunkedStream_new]. destruct (run (Size 0 false) data) as [[q m] o]. naive_solver.
Qed.
