(* ===== verification/Net.v ===== *)
(** * Addresses of [std::net] *)

From S2P Require Import Prelude.

(** The integer an address's octets spell, most significant first. *)
Inductive IpAddr :=
  | V4 (octets : Z)
  | V6 (octets : Z).

Inductive SocketAddr :=
  | SocketV4 (ip port : Z)
  | SocketV6 (ip port flowinfo scope_id : Z).

#[export] Instance IpAddr_eq_dec : EqDecision IpAddr.
Proof. solve_decision. Defined.

#[export] Instance SocketAddr_eq_dec : EqDecision SocketAddr.
Proof. solve_decision. Defined.

#[export] Instance SocketAddr_countable : Countable SocketAddr.
Proof.
  refine (inj_countable'
    (fun a => match a with
              | SocketV4 ip p => inl (ip, p)
              | SocketV6 ip p f s => inr (ip, p, (f, s))
              end)
    (fun s => match s with
              | inl (ip, p) => SocketV4 ip p
              | inr (ip, p, (f, s)) => SocketV6 ip p f s
              end) _).
  by intros [].
Defined.

#[export] Instance IpAddr_countable : Countable IpAddr.
Proof.
  refine (inj_countable' (fun a => match a with V4 o => inl o | V6 o => inr o end)
    (fun s => match s with inl o => V4 o | inr o => V6 o end) _).
  by intros [].
Defined.

(** [SocketAddr::from(([0, 0, 0, 0], 0))] *)
Definition unspecified : SocketAddr := SocketV4 0 0.
