(* ===== verification/IpText.v ===== *)
(** * IP addresses in text

    [FromStr] of [std::net]'s addresses, as configuration checks and backend
    construction use it: a cursor over the text, each reader taking a prefix
    or failing and leaving the cursor where it was. *)

From S2P Require Import Prelude Bytes Net.

(** ** The readers of the standard library's parser *)

Definition to_digit (radix c : Z) : option Z :=
  let d := if is_ascii_digit c then c - 48
           else if is_ascii_lowercase c then c - 87
           else if is_ascii_uppercase c then c - 55 else 36 in
  if d <? radix then Some d else None.

(** Digits up to the first other byte; [None] past [max] of them. *)
Fixpoint read_digits (radix : Z) (max : nat) (s : list Z) (value : Z) (count : nat) : option (Z * nat * list Z) :=
  match s with
  | c :: t =>
      match to_digit radix c with
      | Some d => if (max <? S count)%nat then None else read_digits radix max t (value * radix + d) (S count)
      | None => Some (value, count, s)
      end
  | [] => Some (value, count, [])
  end.

(** [bound] is the largest value of the integer type read. *)
Definition read_number (radix : Z) (max : nat) (allow_zero_prefix : bool) (bound : Z) (s : list Z) : option (Z * list Z) :=
  let has_leading_zero := match s with c :: _ => c =? 48 | [] => false end in
  match read_digits radix max s 0 0 with
  | None => None
  | Some (value, count, rest) =>
      if (count =? 0)%nat then None
      else if negb allow_zero_prefix && has_leading_zero && (1 <? count)%nat then None
      else if bound <? value then None else Some (value, rest)
  end.

Definition read_given_char (c : Z) (s : list Z) : option (list Z) :=
  match s with x :: t => if x =? c then Some t else None | [] => None end.

Definition read_separator {A} (sep : Z) (index : nat) (inner : list Z -> option (A * list Z)) (s : list Z) : option (A * list Z) :=
  if (0 <? index)%nat then match read_given_char sep s with Some t => inner t | None => None end else inner s.

Definition read_octet : list Z -> option (Z * list Z) := read_number 10 3 false 255.

Fixpoint read_octets (i n : nat) (value : Z) (s : list Z) : option (Z * list Z) :=
  match n with
  | O => Some (value, s)
  | S n' =>
      match read_separator 46 i read_octet s with
      | Some (o, t) => read_octets (S i) n' (value * 256 + o) t
      | None => None
      end
  end.

Definition read_ipv4_addr (s : list Z) : option (Z * list Z) := read_octets 0 4 0 s.

(** [read_groups] over the [n] slots left, the first at index [i]: the groups
    read and whether the last two were an IPv4 address. *)
Fixpoint read_groups (i n : nat) (s : list Z) : list Z * bool * list Z :=
  match n with
  | O => ([], false, s)
  | S n' =>
      match (if (0 <? n')%nat then read_separator 58 i read_ipv4_addr s else None) with
      | Some (v4, t) => ([v4 / 65536; v4 mod 65536], true, t)
      | None =>
          match read_separator 58 i (read_number 16 4 true 65535) s with
          | Some (g, t) => let '(gs, v4, rest) := read_groups (S i) n' t in (g :: gs, v4, rest)
          | None => ([], false, s)
          end
      end
  end.

Definition from_segments (segs : list Z) : Z := fold_left (fun acc s => acc * 65536 + s) segs 0.

Definition read_ipv6_addr (s : list Z) : option (Z * list Z) :=
  let '(head, head_ipv4, s1) := read_groups 0 8 s in
  if (length head =? 8)%nat then Some (from_segments head, s1)
  else if head_ipv4 then None
  else match read_given_char 58 s1 with
  | None => None
  | Some s2 =>
      match read_given_char 58 s2 with
      | None => None
      | Some s3 =>
          let '(tail, _, s4) := read_groups 0 (8 - (length head + 1)) s3 in
          Some (from_segments (head ++ replicate (8 - length head - length tail) 0 ++ tail), s4)
      end
  end.

(** [parse_with]: the whole text. *)
Definition parse_with {A} (inner : list Z -> option (A * list Z)) (s : list Z) : option A :=
  match inner s with Some (a, []) => Some a | _ => None end.

Definition parse_ipv6 (s : list Z) : option Z := parse_with read_ipv6_addr s.

(** [str::parse::<IpAddr>]. *)
Definition parse_ip_addr (s : list Z) : option IpAddr :=
  parse_with (fun s => match read_ipv4_addr s with
                       | Some (a, t) => Some (V4 a, t)
                       | None => match read_ipv6_addr s with Some (a, t) => Some (V6 a, t) | None => None end
                       end) s.

Example parses_addresses :
  map parse_ip_addr [bs "10.0.0.1"; bs "::1"; bs "1:2::ffff:1.2.3.4"; bs "01.2.3.4"; bs "1::2::3"; bs "256.0.0.1"; bs "::"; bs "1:2:3:4:5:6:7:8"; bs "1.2.3.4:80"]
  = [Some (V4 167772161); Some (V6 1);
     Some (V6 (from_segments [1; 2; 0; 0; 0; 65535; 258; 772])); None; None; None; Some (V6 0);
     Some (V6 (from_segments [1; 2; 3; 4; 5; 6; 7; 8])); None].
Proof. vm_compute. reflexivity. Qed.

(** ** What a parsed IPv6 address is written with *)

Definition ip_byte (b : Z) : Prop := is_ascii_hexdigit b = true \/ b = 58 \/ b = 46.

(** [t] is what is left of [s] once some address bytes are read. *)
Definition reads (s t : list Z) : Prop := exists p, s = p ++ t /\ Forall ip_byte p.

Lemma reads_refl s : reads s s.
Proof. by exists []. Qed.

Lemma reads_trans s t u : reads s t -> reads t u -> reads s u.
Proof. intros (p & -> & Hp) (q & -> & Hq). exists (p ++ q). rewrite <- app_assoc. split; [done|by apply Forall_app]. Qed.

Lemma reads_cons c t u : ip_byte c -> reads t u -> reads (c :: t) u.
Proof. intros Hc (p & -> & Hp). exists (c :: p). split; [done|by constructor]. Qed.

Lemma digit_byte radix c d : radix <= 16 -> to_digit radix c = Some d -> ip_byte c.
Proof.
  intros Hr. unfold to_digit. intros H. left. unfold is_ascii_hexdigit, is_ascii_digit, is_ascii_lowercase, is_ascii_uppercase in *.
  destruct ((48 <=? c) && (c <=? 57)) eqn:E1; [done|]. cbn [orb].
  destruct ((97 <=? c) && (c <=? 122)) eqn:E2.
  { destruct (c - 87 <? radix) eqn:E; [|done]. bool_simpl. rewrite (proj2 (Z.leb_le 97 c)), (proj2 (Z.leb_le c 102)) by lia. by rewrite ?orb_true_r. }
  destruct ((65 <=? c) && (c <=? 90)) eqn:E3.
  { destruct (c - 55 <? radix) eqn:E; [|done]. bool_simpl. rewrite (proj2 (Z.leb_le 65 c)), (proj2 (Z.leb_le c 70)) by lia. by rewrite ?orb_true_r. }
  destruct (36 <? radix) eqn:E; [bool_simpl; lia|done].
Qed.

Lemma read_digits_reads radix max s v n v' n' t : radix <= 16 -> read_digits radix max s v n = Some (v', n', t) -> reads s t.
Proof.
  intros Hr. revert v n. induction s as [|c s IH]; intros v n; cbn [read_digits]; [intros [= <- <- <-]; apply reads_refl|].
  destruct (to_digit radix c) as [d|] eqn:Ed; [|intros [= <- <- <-]; apply reads_refl].
  destruct (max <? S n)%nat; [done|]. intros H%IH. apply reads_cons; [by eapply digit_byte|done].
Qed.

Lemma read_number_reads radix max z bound s v t : radix <= 16 -> read_number radix max z bound s = Some (v, t) -> reads s t.
Proof.
  intros Hr. unfold read_number. destruct (read_digits radix max s 0 0) as [[[v0 n0] t0]|] eqn:E; [|done].
  intros H. apply read_digits_reads in E; [|done].
  repeat match type of H with (if ?b then _ else _) = _ => destruct b; [done|] end. by injection H as <- <-.
Qed.

Lemma read_given_reads c s t : ip_byte c -> read_given_char c s = Some t -> reads s t.
Proof.
  intros Hc. destruct s as [|x s]; [done|]. cbn. destruct (Z.eqb_spec x c); [|done]. subst.
  intros [= <-]. apply reads_cons; [done|apply reads_refl].
Qed.

Lemma read_separator_reads {A} sep i (inner : list Z -> option (A * list Z)) s a t : ip_byte sep ->
  (forall s a t, inner s = Some (a, t) -> reads s t) -> read_separator sep i inner s = Some (a, t) -> reads s t.
Proof.
  intros Hs Hi. unfold read_separator. destruct (0 <? i)%nat; [|apply Hi].
  destruct (read_given_char sep s) as [u|] eqn:E; [|done]. intros H%Hi. eapply reads_trans; [by eapply read_given_reads|done].
Qed.

Lemma ip_byte_dot : ip_byte 46.
Proof. by right; right. Qed.
Lemma ip_byte_colon : ip_byte 58.
Proof. by right; left. Qed.
#[local] Hint Resolve reads_refl ip_byte_dot ip_byte_colon : core.

Lemma read_octets_reads i n v s a t : read_octets i n v s = Some (a, t) -> reads s t.
Proof.
  revert i v s. induction n as [|n IH]; intros i v s; cbn [read_octets]; [intros [= _ <-]; done|].
  destruct (read_separator 46 i read_octet s) as [[o u]|] eqn:E; [|done]. intros H%IH.
  eapply reads_trans; [|exact H]. eapply (read_separator_reads 46 i read_octet); [done| |exact E].
  intros s' a' t' H'. by eapply read_number_reads in H'.
Qed.

Lemma read_groups_reads i n s gs v4 t : read_groups i n s = (gs, v4, t) -> reads s t.
Proof.
  revert i s gs. induction n as [|n IH]; intros i s gs; cbn [read_groups]; [intros [= <- <- <-]; done|].
  destruct (if (0 <? n)%nat then read_separator 58 i read_ipv4_addr s else None) as [[a u]|] eqn:E4.
  { intros [= <- <- <-]. destruct (0 <? n)%nat; [|done]. eapply (read_separator_reads 58 i read_ipv4_addr); [done| |exact E4].
    intros ???. apply read_octets_reads. }
  destruct (read_separator 58 i (read_number 16 4 true 65535) s) as [[g u]|] eqn:Eg; [|intros [= <- <- <-]; done].
  destruct (read_groups (S i) n u) as [[gs' v4'] rest] eqn:Er. intros [= <- <- <-]. apply IH in Er.
  eapply reads_trans; [|exact Er]. eapply (read_separator_reads 58 i); [done| |exact Eg].
  intros ??? H. by eapply read_number_reads in H.
Qed.

(** An IPv6 address in text: at least two bytes, each a hex digit, a colon
    or a dot. *)
Lemma parse_ipv6_bytes s a : parse_ipv6 s = Some a -> Forall ip_byte s /\ s <> [].
Proof.
  unfold parse_ipv6, parse_with. destruct (read_ipv6_addr s) as [[a' rest]|] eqn:E; [|done]. destruct rest; [|done]. intros _.
  assert (reads s []) as (p & Hs & Hp).
  { revert E. unfold read_ipv6_addr. destruct (read_groups 0 8 s) as [[head v4] s1] eqn:E1. apply read_groups_reads in E1.
    destruct (length head =? 8)%nat; [intros [= _ ->]; done|]. destruct v4; [done|].
    destruct (read_given_char 58 s1) as [s2|] eqn:E2; [|done]. destruct (read_given_char 58 s2) as [s3|] eqn:E3; [|done].
    destruct (read_groups 0 _ s3) as [[tail v] s4] eqn:E4. intros [= _ ->].
    apply read_given_reads in E2, E3; [|done..]. apply read_groups_reads in E4.
    eapply reads_trans; [exact E1|]. eapply reads_trans; [exact E2|]. by eapply reads_trans. }
  rewrite app_nil_r in Hs. subst p. split; [done|]. by intros ->.
Qed.
