(* ===== verification/RateLimit.v ===== *)
(** * Per-client token buckets

    [src/src/rate_limit.rs]. A [Limiter] maps a client key to one 64-bit cell
    packing the last-update millisecond (32 bits, wrapping) and the
    millitokens left. [consume] is the lock-free read/compute/compare-exchange
    loop; it is modelled both as one atomic update and as interleaved
    attempts. A limiter under checks and sweeps is proved to refine ideal
    token buckets over unbounded time. *)

From S2P Require Import Prelude Bytes Net.

Definition MILLITOKENS_PER_REQUEST : Z := 1000.
Definition MAX_BURST : Z := U32_MAX / MILLITOKENS_PER_REQUEST.
Definition SWEEP_INTERVAL_SECS : Z := 60.
Definition BACKWARDS_MS : Z := 2147483648.
Definition STALE_MS : Z := 1073741824.

(** The [epoch] of a limiter is the origin of the clock its callers read. *)
Record Limiter := {
  rate : Z;
  burst_mt : Z;
  buckets : gmap Z Z;
}.

Definition saturating_mul32 (a b : Z) : Z := Z.min (a * b) U32_MAX.

Definition Limiter_new (rps burst : Z) : Limiter :=
  {| rate := rps; burst_mt := saturating_mul32 burst MILLITOKENS_PER_REQUEST; buckets := ∅ |}.

Definition reconfigure (l : Limiter) (rps burst : Z) : Limiter :=
  {| rate := rps; burst_mt := saturating_mul32 burst MILLITOKENS_PER_REQUEST; buckets := buckets l |}.

(** [epoch.elapsed().as_millis() as u32] *)
Definition now_ms (elapsed_ms : Z) : Z := as_u32 elapsed_ms.

Definition pack (now_ms tokens : Z) : Z := Z.lor (Z.shiftl now_ms 32) tokens.
Definition unpack (state : Z) : Z * Z := (as_u32 (Z.shiftr state 32), as_u32 state).

Definition elapsed (now last : Z) : option Z :=
  let dt := as_u32 (now - last) in
  if dt <? BACKWARDS_MS then Some dt else None.

Definition refill (tokens dt_ms rate burst : Z) : Z :=
  as_u32 (Z.min (as_u64 (tokens + as_u64 (dt_ms * rate))) burst).

(** The body of [consume]'s loop: the value it tries to store and whether
    the request is granted. *)
Definition consume_next (cur now_ms rate burst : Z) : Z * bool :=
  let '(last, tokens) := unpack cur in
  let '(stamp, filled) :=
    match elapsed now_ms last with
    | Some dt => (now_ms, refill tokens dt rate burst)
    | None => (last, tokens)
    end in
  if MILLITOKENS_PER_REQUEST <=? filled
  then (pack stamp (filled - MILLITOKENS_PER_REQUEST), true)
  else (pack stamp filled, false).

Definition check_at (l : Limiter) (key now_ms : Z) : bool * Limiter :=
  let upd cell := {| rate := rate l; burst_mt := burst_mt l; buckets := <[key := cell]> (buckets l) |} in
  match buckets l !! key with
  | Some cell =>
      let '(next, granted) := consume_next cell now_ms (rate l) (burst_mt l) in
      (granted, upd next)
  | None =>
      let granted := MILLITOKENS_PER_REQUEST <=? burst_mt l in
      let tokens := if granted then burst_mt l - MILLITOKENS_PER_REQUEST else burst_mt l in
      (granted, upd (pack now_ms tokens))
  end.

(** Which buckets [sweep_at] keeps. *)
Definition sweep_keeps (l : Limiter) (now cell : Z) : bool :=
  let '(last, tokens) := unpack cell in
  match elapsed now last with
  | None => true
  | Some dt => (dt <? STALE_MS) && (refill tokens dt (rate l) (burst_mt l) <? burst_mt l)
  end.

Definition sweep_at (l : Limiter) (now : Z) : Limiter :=
  {| rate := rate l; burst_mt := burst_mt l;
     buckets := filter (fun kv => sweep_keeps l now kv.2 = true) (buckets l) |}.

(** [IpAddr::to_canonical] maps [::ffff:a.b.c.d] to its IPv4 address. *)
Definition to_canonical (ip : IpAddr) : IpAddr :=
  match ip with
  | V4 a => V4 a
  | V6 a => if Z.shiftr a 32 =? 65535 then V4 (as_u32 a) else V6 a
  end.

Definition U128_MAX : Z := 2 ^ 128 - 1.

Definition client_key (peer : IpAddr) : Z :=
  match to_canonical peer with
  | V4 v4 => v4
  | V6 v6 => Z.land v6 (wrap 128 (Z.shiftl U128_MAX 64))
  end.

Definition check (l : Limiter) (peer : IpAddr) (elapsed_ms : Z) : bool * Limiter :=
  check_at l (client_key peer) (now_ms elapsed_ms).

(** ** The process-wide registry *)

Definition Registry : Type := gmap (Z * list Z) Limiter.

Definition limiter_for (reg : Registry) (port : Z) (listener : list Z) (rps burst : Z) : Registry :=
  let limiter := default (Limiter_new rps burst) ((reg : gmap (Z * list Z) Limiter) !! (port, listener)) in
  <[(port, listener) := reconfigure limiter rps burst]> (reg : gmap (Z * list Z) Limiter).

(** One tick of the sweeper. [referenced] says which limiters some route
    table still holds ([Arc::strong_count(l) > 1]). *)
Definition sweeper_tick (reg : Registry) (referenced : Z * list Z -> bool) (now : Z * list Z -> Z) : Registry :=
  filter (fun kv => referenced kv.1 = true)
    (map_imap (fun k l => Some (sweep_at l (now k))) (reg : gmap (Z * list Z) Limiter)).

(** ** Interleaved [consume]

    Threads sharing one cell. A thread loads the cell, computes, and tries to
    store with [compare_exchange_weak], which may fail even when the cell
    still holds the value it loaded. [log] lists the requests in the order
    their exchange succeeded, newest first. *)

Inductive attempt :=
  | Start (now : Z)
  | Loaded (now cur : Z)
  | Returned (granted : bool).

Record cell_state := {
  cell : Z;
  attempts : gmap nat attempt;
  log : list (Z * bool);
}.

Section Interleaving.
Context (r b : Z).

Inductive cas_step : cell_state -> cell_state -> Prop :=
  | cas_load c ts lg t now :
      ts !! t = Some (Start now) ->
      cas_step {| cell := c; attempts := ts; log := lg |}
               {| cell := c; attempts := <[t := Loaded now c]> ts; log := lg |}
  | cas_ok c ts lg t now next granted :
      ts !! t = Some (Loaded now c) ->
      consume_next c now r b = (next, granted) ->
      cas_step {| cell := c; attempts := ts; log := lg |}
               {| cell := next; attempts := <[t := Returned granted]> ts; log := (now, granted) :: lg |}
  | cas_fail c ts lg t now cur :
      ts !! t = Some (Loaded now cur) ->
      cas_step {| cell := c; attempts := ts; log := lg |}
               {| cell := c; attempts := <[t := Loaded now c]> ts; log := lg |}.

(** Requests one after another, each one atomic update. *)
Fixpoint consume_all (c : Z) (nows : list Z) : Z * list bool :=
  match nows with
  | [] => (c, [])
  | now :: rest =>
      let '(c', g) := consume_next c now r b in
      let '(c'', gs) := consume_all c' rest in
      (c'', g :: gs)
  end.

End Interleaving.

(** ** The ideal bucket: unbounded time, one level per client *)

Definition ideal_take (r b : Z) (bucket : Z * Z) (t : Z) : bool * (Z * Z) :=
  let '(level, last) := bucket in
  let filled := Z.min (level + (t - last) * r) b in
  if MILLITOKENS_PER_REQUEST <=? filled
  then (true, (filled - MILLITOKENS_PER_REQUEST, t))
  else (false, (filled, t)).

Inductive event :=
  | EvCheck (key t : Z)
  | EvSweep (t : Z).

Definition event_time (e : event) : Z := match e with EvCheck _ t => t | EvSweep t => t end.

(** A limiter driven by events at true times [t], its clock wrapping. *)
Fixpoint limiter_run (l : Limiter) (es : list event) : Limiter * list bool :=
  match es with
  | [] => (l, [])
  | EvCheck key t :: es' =>
      let '(g, l') := check_at l key (now_ms t) in
      let '(l'', gs) := limiter_run l' es' in (l'', g :: gs)
  | EvSweep t :: es' => limiter_run (sweep_at l (now_ms t)) es'
  end.

(** What a sweep means to an ideal bucket: nothing, or, for one that no
    request has touched for [STALE_MS], that it is full again. *)
Definition undisturbed (bucket : Z * Z) (t : Z) : Z * Z := bucket.
Definition full_when_stale (b : Z) (bucket : Z * Z) (t : Z) : Z * Z :=
  if STALE_MS <=? t - bucket.2 then (b, t) else bucket.

Fixpoint ideal_run (swept : Z * Z -> Z -> Z * Z) (r b : Z) (m : Z -> Z * Z) (es : list event) : (Z -> Z * Z) * list bool :=
  match es with
  | [] => (m, [])
  | EvCheck key t :: es' =>
      let '(g, bk) := ideal_take r b (m key) t in
      let '(m', gs) := ideal_run swept r b (fun k => if k =? key then bk else m k) es' in (m', g :: gs)
  | EvSweep t :: es' => ideal_run swept r b (fun k => swept (m k) t) es'
  end.

(** Events in time order, the sweep never more than [STALE_MS] ago. *)
Fixpoint paced (last_sweep now : Z) (es : list event) : Prop :=
  match es with
  | [] => True
  | e :: es' =>
      now <= event_time e /\ event_time e - last_sweep < STALE_MS
      /\ paced (match e with EvSweep t => t | _ => last_sweep end) (event_time e) es'
  end.

(** ** Packing *)

Lemma pack_add now tokens : u32 now -> u32 tokens -> pack now tokens = now * 4294967296 + tokens.
Proof.
  intros Hn Ht. unfold pack. red in Hn, Ht. rewrite Z.shiftl_mul_pow2 by lia.
  change (2 ^ 32) with 4294967296.
  rewrite Z.add_nocarry_lxor, Z.lxor_lor; [done| |];
    (apply Z.bits_inj'; intros n Hpos; rewrite Z.land_spec, Z.bits_0; destruct (Z_lt_ge_dec n 32);
     [change 4294967296 with (2 ^ 32); rewrite Z.mul_pow2_bits_low by lia; done|
      rewrite (Z.bits_above_log2 tokens n); [apply andb_false_r|lia|];
      destruct (decide (tokens = 0)) as [->|]; [simpl; lia|apply Z.log2_lt_pow2; [lia|]];
      apply Z.lt_le_trans with (2 ^ 32); [simpl; lia|apply Z.pow_le_mono_r; lia]]).
Qed.

Lemma unpack_pack now tokens : u32 now -> u32 tokens -> unpack (pack now tokens) = (now, tokens).
Proof.
  intros Hn Ht. rewrite pack_add by done. unfold unpack, as_u32, wrap. red in Hn, Ht.
  rewrite Z.shiftr_div_pow2 by lia. change (2 ^ 32) with 4294967296.
  rewrite Z.div_add_l, (Z.div_small tokens) by lia. f_equal.
  - rewrite Z.add_0_r. apply Z.mod_small. lia.
  - rewrite Z.add_comm, Z_mod_plus_full. apply Z.mod_small. lia.
Qed.

Lemma unpack_range c : u32 (unpack c).1 /\ u32 (unpack c).2.
Proof. unfold unpack, as_u32, u32. split; apply (wrap_bound 32); lia. Qed.

(** ** Clock arithmetic *)

(** Two clock readings less than half the wrap apart: their true distance,
    or nothing when the second is the older. *)
Lemma elapsed_true t l : - BACKWARDS_MS <= t - l < BACKWARDS_MS ->
  elapsed (now_ms t) (now_ms l) = if l <=? t then Some (t - l) else None.
Proof.
  unfold elapsed, now_ms, as_u32, wrap, BACKWARDS_MS. change (2 ^ 32) with 4294967296. intros H.
  rewrite <- Zminus_mod. destruct (Z.leb_spec l t).
  - rewrite Z.mod_small by lia. destruct (Z.ltb_spec (t - l) 2147483648); [done|lia].
  - replace ((t - l) mod 4294967296) with (t - l + 4294967296).
    + destruct (Z.ltb_spec (t - l + 4294967296) 2147483648); [lia|done].
    + rewrite <- (Z_mod_plus_full (t - l) 1 4294967296). rewrite Z.mod_small; lia.
Qed.

Lemma elapsed_range now last dt : elapsed now last = Some dt -> 0 <= dt < BACKWARDS_MS.
Proof.
  unfold elapsed. destruct (Z.ltb_spec (as_u32 (now - last)) BACKWARDS_MS); [|done].
  intros [= <-]. pose proof (wrap_bound 32 (now - last)). unfold as_u32 in *. lia.
Qed.

Lemma now_ms_range t : u32 (now_ms t).
Proof. unfold now_ms, as_u32, u32. apply (wrap_bound 32). lia. Qed.

(** [refill] never overflows: [u32] tokens, rate and burst, any reading. *)
Lemma refill_exact tokens dt r b : u32 tokens -> 0 <= dt < BACKWARDS_MS -> u32 r -> u32 b ->
  refill tokens dt r b = Z.min (tokens + dt * r) b.
Proof.
  unfold u32, BACKWARDS_MS. intros Ht Hd Hr Hb. unfold refill.
  assert (0 <= dt * r < 9223372036854775808) by nia.
  rewrite (as_u64_small (dt * r)) by (red; lia). rewrite as_u64_small by (red; lia).
  apply as_u32_small. red. lia.
Qed.

(** ** One request *)

(** [bucket_at c last tokens]: cell [c] holds [tokens], stamped at true
    time [last]. *)
Definition bucket_at (c last tokens : Z) : Prop := unpack c = (now_ms last, tokens).

Lemma bucket_at_pack t tokens : u32 tokens -> bucket_at (pack (now_ms t) tokens) t tokens.
Proof. intros. apply unpack_pack; auto using now_ms_range. Qed.

Lemma bucket_at_u32 c last tokens : bucket_at c last tokens -> u32 tokens.
Proof. intros E. pose proof (unpack_range c) as [_ H]. unfold bucket_at in E. by rewrite E in H. Qed.

(** In-order request: the ideal bucket's step. *)
Lemma consume_next_ideal c last tokens t r b :
  bucket_at c last tokens -> u32 r -> u32 b -> 0 <= t - last < BACKWARDS_MS ->
  let '(c', g) := consume_next c (now_ms t) r b in
  let '(g', (tokens', _)) := ideal_take r b (tokens, last) t in
  g = g' /\ bucket_at c' t tokens'.
Proof.
  intros Hc Hr Hb Ht. pose proof (bucket_at_u32 _ _ _ Hc) as Hu. unfold consume_next, ideal_take.
  unfold bucket_at in Hc. rewrite Hc, elapsed_true by (unfold BACKWARDS_MS in *; lia).
  destruct (Z.leb_spec last t); [|lia]. rewrite refill_exact by done.
  assert (0 <= (t - last) * r) by (unfold u32 in *; nia).
  destruct (Z.leb_spec MILLITOKENS_PER_REQUEST (Z.min (tokens + (t - last) * r) b));
    (split; [done|apply bucket_at_pack; unfold u32, MILLITOKENS_PER_REQUEST in *; lia]).
Qed.

(** A request that read the clock before the stamp: no refill, no rewind. *)
Lemma consume_next_late c last tokens t r b :
  bucket_at c last tokens -> u32 r -> u32 b -> - BACKWARDS_MS <= t - last < 0 ->
  let '(c', g) := consume_next c (now_ms t) r b in
  g = (MILLITOKENS_PER_REQUEST <=? tokens)
  /\ bucket_at c' last (if g then tokens - MILLITOKENS_PER_REQUEST else tokens).
Proof.
  intros Hc Hr Hb Ht. pose proof (bucket_at_u32 _ _ _ Hc) as Hu. unfold consume_next.
  unfold bucket_at in Hc. rewrite Hc, elapsed_true by (unfold BACKWARDS_MS in *; lia).
  destruct (Z.leb_spec last t); [lia|].
  destruct (Z.leb_spec MILLITOKENS_PER_REQUEST tokens);
    (split; [done|apply bucket_at_pack; unfold u32, MILLITOKENS_PER_REQUEST in *; lia]).
Qed.

(** ** The rate bound *)

(** True clock readings, each within half the wrap of the newest so far. *)
Fixpoint readings (newest : Z) (ts : list Z) : Prop :=
  match ts with
  | [] => True
  | t :: ts' => - BACKWARDS_MS <= t - newest < BACKWARDS_MS /\ readings (Z.max newest t) ts'
  end.

Definition newest_of (newest : Z) (ts : list Z) : Z := fold_left Z.max ts newest.

Definition count_true (gs : list bool) : Z := Z.of_nat (length (filter (fun g => g = true) gs)).

Lemma count_true_cons g gs : count_true (g :: gs) = (if g then 1 else 0) + count_true gs.
Proof.
  unfold count_true. rewrite filter_cons. case_decide; destruct g; simplify_eq;
    rewrite ?length_cons; lia.
Qed.

Lemma consume_all_bound r b c last tokens ts :
  u32 r -> u32 b -> bucket_at c last tokens -> readings last ts ->
  let '(c', gs) := consume_all r b c (map now_ms ts) in
  exists tokens', bucket_at c' (newest_of last ts) tokens'
  /\ 1000 * count_true gs + tokens' <= tokens + (newest_of last ts - last) * r
  /\ last <= newest_of last ts.
Proof.
  intros Hr Hb. revert c last tokens. induction ts as [|t ts IH]; intros c last tokens Hc Hts; cbn [map consume_all].
  { exists tokens. unfold newest_of; simpl. unfold count_true. simpl. split_and!; (done || lia). }
  destruct Hts as [Ht Hts].
  assert (Hstep : exists tokens', let '(c', g) := consume_next c (now_ms t) r b in
    bucket_at c' (Z.max last t) tokens'
    /\ (if g then 1000 else 0) + tokens' <= tokens + (Z.max last t - last) * r).
  { destruct (Z_lt_ge_dec t last).
    - pose proof (consume_next_late c last tokens t r b Hc Hr Hb ltac:(lia)) as H.
      destruct (consume_next c (now_ms t) r b) as [c' g]. destruct H as [-> H].
      rewrite Z.max_l, Z.sub_diag by lia. eexists. split; [exact H|].
      unfold MILLITOKENS_PER_REQUEST in *. destruct (1000 <=? tokens); lia.
    - pose proof (consume_next_ideal c last tokens t r b Hc Hr Hb ltac:(lia)) as H.
      destruct (consume_next c (now_ms t) r b) as [c1 g1]. unfold ideal_take in H.
      rewrite Z.max_r by lia. unfold MILLITOKENS_PER_REQUEST in *.
      destruct (Z.leb_spec 1000 (Z.min (tokens + (t - last) * r) b)); destruct H as [-> H];
        (eexists; split; [exact H|lia]). }
  destruct Hstep as [tokens' Hstep]. destruct (consume_next c (now_ms t) r b) as [c' g].
  destruct Hstep as [Hc' Hle]. specialize (IH c' (Z.max last t) tokens' Hc' Hts).
  destruct (consume_all r b c' (map now_ms ts)) as [c'' gs]. destruct IH as (tk & Hb'' & Hle' & Hmono).
  exists tk. change (newest_of last (t :: ts)) with (newest_of (Z.max last t) ts).
  rewrite count_true_cons. split_and!; [done| |lia].
  destruct g; nia.
Qed.

(** ** Linearisation of the compare-exchange loop *)

Definition sequential (r b c0 : Z) (s : cell_state) : Prop :=
  consume_all r b c0 (map fst (reverse (log s))) = (cell s, map snd (reverse (log s))).

Lemma consume_all_snoc r b c nows now :
  consume_all r b c (nows ++ [now]) =
  let '(c', gs) := consume_all r b c nows in
  let '(c'', g) := consume_next c' now r b in (c'', gs ++ [g]).
Proof.
  revert c. induction nows as [|n ns IH]; intros c; cbn [app consume_all].
  - destruct (consume_next c now r b); done.
  - destruct (consume_next c n r b) as [c1 g1]. rewrite IH.
    destruct (consume_all r b c1 ns) as [c2 gs]. destruct (consume_next c2 now r b); done.
Qed.

Lemma cas_step_sequential r b c0 s s' : cas_step r b s s' -> sequential r b c0 s -> sequential r b c0 s'.
Proof.
  unfold sequential. destruct 1 as [| c ts lg t now next granted Ht Hn|]; cbn [cell log]; [done| |done].
  intros H. rewrite reverse_cons, !map_app. cbn [map fst snd].
  by rewrite consume_all_snoc, H, Hn.
Qed.

(** ** The limiter refines ideal buckets *)

Section Refinement.
Context (r b : Z) (Hr : u32 r) (Hb : u32 b).
(** A sweep leaves a bucket alone until it is stale, and finds it full then. *)
Context (swept : Z * Z -> Z -> Z * Z).
Context (Hfresh : forall bucket t, t - bucket.2 < STALE_MS -> swept bucket t = bucket).
Context (Hstale : forall bucket t, STALE_MS <= t - bucket.2 -> u32 bucket.1 \/ b <= bucket.1 + (t - bucket.2) * r ->
  b <= (swept bucket t).1 + (t - (swept bucket t).2) * r).

(** The client's bucket at time [now], the last sweep at [sw]. *)
Definition bucket_rel (cell : option Z) (ideal : Z * Z) (sw now : Z) : Prop :=
  let '(level, last) := ideal in
  match cell with
  | Some c => bucket_at c last level /\ level <= b /\ last <= now /\ sw - last < STALE_MS
  | None => b <= level + (now - last) * r
  end.

Definition limiter_rel (l : Limiter) (m : Z -> Z * Z) (sw now : Z) : Prop :=
  rate l = r /\ burst_mt l = b /\ forall k, bucket_rel (buckets l !! k) (m k) sw now.

Lemma bucket_rel_later cell ideal sw now now' :
  now <= now' -> bucket_rel cell ideal sw now -> bucket_rel cell ideal sw now'.
Proof.
  intros Hle. destruct ideal as [level last], cell as [c|]; cbn.
  - intros (? & ? & ? & ?). repeat split; (done || lia).
  - red in Hr. nia.
Qed.

Lemma check_at_rel l m sw now key t :
  limiter_rel l m sw now -> now <= t -> t - sw < STALE_MS -> sw <= now ->
  let '(g, l') := check_at l key (now_ms t) in
  let '(g', bk) := ideal_take r b (m key) t in
  g = g' /\ limiter_rel l' (fun k => if k =? key then bk else m k) sw t.
Proof.
  intros (Hrate & Hburst & Hrel) Hle Hsw Hsn. unfold check_at. rewrite Hrate, Hburst.
  pose proof (Hrel key) as Hk.
  assert (Hframe : forall c' bk, bucket_rel (Some c') bk sw t ->
    limiter_rel {| rate := r; burst_mt := b; buckets := <[key := c']> (buckets l) |}
      (fun k => if k =? key then bk else m k) sw t).
  { intros c' bk Hbk. split_and!; [done..|]. intros k. cbn [buckets].
    destruct (Z.eqb_spec k key) as [->|]; [by rewrite lookup_insert_eq|].
    rewrite lookup_insert_ne by done. eapply bucket_rel_later; [done|apply Hrel]. }
  destruct (m key) as [level last] eqn:Em, (buckets l !! key) as [c|] eqn:Ec; cbn in Hk.
  - destruct Hk as (Hc & Hlv & Hln & Hage).
    pose proof (consume_next_ideal c last level t r b Hc Hr Hb ltac:(unfold STALE_MS, BACKWARDS_MS in *; lia)) as H.
    destruct (consume_next c (now_ms t) r b) as [c' g].
    pose proof (bucket_at_u32 _ _ _ Hc) as Hu. unfold ideal_take in *.
    destruct (MILLITOKENS_PER_REQUEST <=? Z.min (level + (t - last) * r) b);
      destruct H as [-> H]; (split; [done|apply Hframe]); cbn;
      split_and!; (done || unfold MILLITOKENS_PER_REQUEST, STALE_MS in *; lia).
  - unfold ideal_take.
    assert (b <= level + (t - last) * r) by (red in Hr; nia). rewrite (Z.min_r _ b) by done.
    red in Hb.
    destruct (Z.leb_spec MILLITOKENS_PER_REQUEST b); (split; [done|apply Hframe]); cbn;
      (split_and!; [apply bucket_at_pack; red| | |]); unfold MILLITOKENS_PER_REQUEST, STALE_MS in *; lia.
Qed.

Lemma sweep_at_rel l m sw now t :
  limiter_rel l m sw now -> now <= t -> t - sw < STALE_MS -> sw <= now ->
  limiter_rel (sweep_at l (now_ms t)) (fun k => swept (m k) t) t t.
Proof.
  intros (Hrate & Hburst & Hrel) Hle Hsw Hsn. split_and!; [done..|]. intros k. cbn [buckets sweep_at].
  pose proof (Hrel k) as Hk. destruct (m k) as [level last].
  pose proof (Hfresh (level, last) t) as Hf. pose proof (Hstale (level, last) t) as Hs. cbn [fst snd] in Hf, Hs.
  rewrite map_lookup_filter. destruct (buckets l !! k) as [c|]; cbn -[sweep_keeps] in Hk |- *.
  2: { destruct (Z_lt_ge_dec (t - last) STALE_MS); [rewrite Hf by done; cbn; red in Hr; nia|].
       destruct (swept (level, last) t) as [level' last']. apply Hs; [lia|]. right. red in Hr. nia. }
  destruct Hk as (Hc & Hlv & Hln & Hage). pose proof (bucket_at_u32 _ _ _ Hc) as Hu.
  assert (Hkeep : sweep_keeps l (now_ms t) c = (t - last <? STALE_MS) && (Z.min (level + (t - last) * r) b <? b)).
  { unfold sweep_keeps, bucket_at in *. rewrite Hc, elapsed_true by (unfold STALE_MS, BACKWARDS_MS in *; lia).
    destruct (Z.leb_spec last t); [|lia].
    rewrite Hrate, Hburst, refill_exact by (done || unfold STALE_MS, BACKWARDS_MS in *; lia). done. }
  rewrite Hkeep. unfold guard. case_decide as Hd; cbn.
  - bool_simpl. rewrite Hf by done. cbn. split_and!; (done || lia).
  - destruct (Z.ltb_spec (t - last) STALE_MS).
    + rewrite Hf by done. destruct (Z.ltb_spec (Z.min (level + (t - last) * r) b) b); [done|]. cbn. lia.
    + destruct (swept (level, last) t) as [level' last']. apply Hs; [done|by left].
Qed.

Lemma limiter_run_rel l m sw now es :
  limiter_rel l m sw now -> sw <= now -> paced sw now es ->
  (limiter_run l es).2 = (ideal_run swept r b m es).2.
Proof.
  revert l m sw now. induction es as [|[key t|t] es IH]; intros l m sw now Hrel Hsn Hp; [done| |];
    cbn [paced event_time] in Hp; destruct Hp as (Hle & Hsw & Hp); cbn [limiter_run ideal_run].
  - pose proof (check_at_rel l m sw now key t Hrel Hle Hsw Hsn) as H.
    destruct (check_at l key (now_ms t)) as [g l'], (ideal_take r b (m key) t) as [g' bk].
    destruct H as [-> Hrel']. specialize (IH l' _ sw t Hrel' ltac:(lia) Hp).
    destruct (limiter_run l' es), (ideal_run swept r b _ es). cbn in *. congruence.
  - eapply IH; [by eapply sweep_at_rel|lia|done].
Qed.

End Refinement.

(** ** Properties *)

(** C39: a limiter whose checks and sweeps take effect in the order of the
    clock, the sweeper (due every minute) coming round at least every
    [STALE_MS], grants exactly what ideal per-client token buckets over
    unbounded time grant, across the 32-bit clock wrap and for every burst.
    The ideal bucket is the one the code documents: dropping a refilled
    bucket is never observable, and a bucket no request has touched for
    [STALE_MS] (12.4 days) is full at the next sweep, refilled or not. If the
    burst refills within [STALE_MS], it is the plain bucket, which no sweep
    touches. *)
Theorem limiter_refines_ideal (rps burst start : Z) (es : list event)
  (Hr : u32 rps) (Hburst : 0 <= burst) (Hpaced : paced start start es) :
  let b := saturating_mul32 burst 1000 in
  let granted := (limiter_run (Limiter_new rps burst) es).2 in
  granted = (ideal_run (full_when_stale b) rps b (fun _ => (b, start)) es).2 /\
  (b <= STALE_MS * rps -> granted = (ideal_run undisturbed rps b (fun _ => (b, start)) es).2).
Proof.
  intros b granted. assert (Hb : u32 b) by (unfold b, u32, saturating_mul32, U32_MAX; lia).
  assert (Hnew : limiter_rel rps b (Limiter_new rps burst) (fun _ => (b, start)) start start).
  { split_and!; [done..|]. intros k. cbn. rewrite lookup_empty. lia. }
  split; [|intros Hfill]; (apply limiter_run_rel with start start; [done|done| | |done|done|done]); intros [level last] t; cbn [fst snd].
  - intros H. unfold full_when_stale. cbn [fst snd]. destruct (Z.leb_spec STALE_MS (t - last)); [lia|done].
  - intros H _. unfold full_when_stale. cbn [fst snd]. destruct (Z.leb_spec STALE_MS (t - last)); cbn [fst snd]; lia.
  - done.
  - intros H [Hu|Hu]; cbn [undisturbed fst snd]; [|done]. red in Hu, Hr.
    assert (STALE_MS * rps <= (t - last) * rps) by (apply Z.mul_le_mono_nonneg_r; lia). lia.
Qed.

(** A burst of one at no rate comes back twelve days later, by the sweep. *)
Example stale_bucket_full_again :
  let es := [EvCheck 7 0; EvCheck 7 1; EvSweep 1000000000; EvSweep 1073741825; EvCheck 7 1073741826] in
  (limiter_run (Limiter_new 0 1) es).2 = [true; false; true] /\
  (ideal_run undisturbed 0 1000 (fun _ => (1000, 0)) es).2 = [true; false; false].
Proof. split; vm_compute; reflexivity. Qed.

Lemma limiter_refines_ideal_witness :
  let es := [EvCheck 7 4294967290; EvCheck 7 4294967291; EvSweep 4294967300; EvCheck 7 4294968300] in
  paced 4294967290 4294967290 es
  /\ (limiter_run (Limiter_new 1 1) es).2 = [true; false; true].
Proof.
  intros es. assert (Hp : paced 4294967290 4294967290 es) by (cbv [paced es event_time STALE_MS]; lia).
  split; [exact Hp|].
  destruct (limiter_refines_ideal 1 1 4294967290 es ltac:(red; lia) ltac:(lia) Hp) as [_ H].
  rewrite H; [vm_compute; reflexivity|vm_compute; discriminate].
Defined.

(** However requests race on a client's bucket and in whatever order
    their clock readings land (any reading within 24.8 days of the newest),
    the bucket grants at most its stored tokens plus [rate] millitokens per
    true millisecond elapsed: 1000 * granted <= tokens + rate * elapsed. *)
Theorem consume_rate_bound (r b c0 last tokens : Z) (ts : list Z)
  (Hr : u32 r) (Hb : u32 b) (Hc : bucket_at c0 last tokens) (Hts : readings last ts) :
  1000 * count_true (consume_all r b c0 (map now_ms ts)).2
  <= tokens + (newest_of last ts - last) * r.
Proof.
  pose proof (consume_all_bound r b c0 last tokens ts Hr Hb Hc Hts) as H.
  destruct (consume_all r b c0 (map now_ms ts)) as [c' gs]. destruct H as (tk & Hc' & Hle & _).
  pose proof (bucket_at_u32 _ _ _ Hc') as Hu. red in Hu. cbn. lia.
Qed.

Lemma consume_rate_bound_witness :
  1000 * count_true (consume_all 1 5000 (pack 10 3000) (map now_ms [12; 11; 900; 5])).2
  <= 3000 + (900 - 10) * 1.
Proof.
  apply (consume_rate_bound 1 5000 (pack 10 3000) 10 3000 [12; 11; 900; 5]).
  - red; lia.
  - red; lia.
  - vm_compute; reflexivity.
  - cbv [readings BACKWARDS_MS]; lia.
Defined.

(** The compare-exchange loop of [consume] is linearisable: in every
    state any interleaving of threads (spurious failures included) can
    reach, the cell and the grants are those of running the requests one at
    a time, in the order their exchanges succeeded. No grant is lost or
    counted twice. *)
Theorem consume_linearizable (r b c0 : Z) (ts : gmap nat attempt) (s : cell_state)
  (Hreach : rtc (cas_step r b) {| cell := c0; attempts := ts; log := [] |} s) :
  consume_all r b c0 (map fst (reverse (log s))) = (cell s, map snd (reverse (log s))).
Proof.
  change (sequential r b c0 s).
  remember {| cell := c0; attempts := ts; log := [] |} as s0 eqn:E0.
  assert (H0 : sequential r b c0 s0) by (by subst). clear E0.
  induction Hreach as [|x y z Hxy _ IH]; eauto using cas_step_sequential.
Qed.

Lemma consume_linearizable_witness :
  consume_all 1 2000 (pack 0 2000) [3] = (pack 3 1000, [true]).
Proof.
  apply (consume_linearizable 1 2000 (pack 0 2000) {[ 0%nat := Start 3 ]}
    {| cell := pack 3 1000; attempts := {[ 0%nat := Returned true ]}; log := [(3, true)] |}).
  eapply rtc_l; [apply (cas_load 1 2000 _ _ _ 0%nat 3); reflexivity|].
  eapply rtc_l; [apply (cas_ok 1 2000 _ _ _ 0%nat 3 (pack 3 1000) true); [reflexivity|vm_compute; reflexivity]|].
  rewrite !insert_singleton_eq. apply rtc_refl.
Defined.
