(* ===== verification/Routing.v ===== *)
(** * The route table and its lookups

    [src/src/routing/mod.rs]: the data of a compiled route table, hostname
    matching, header and query lookups, and the HTTP, TCP, UDP and TLS
    passthrough route searches. Backend selection is in [Selection], table
    construction in [RouteBuild].

    [regex] is a third-party crate: a compiled pattern and its matcher are
    the operations of the class [RegexEngine]. [fnv] is one too: the round
    robin key of a TLS route is [Fnv.fnv] of the bytes it hashes. *)

From S2P Require Import Prelude Bytes Net HttpGrammar.

Class RegexEngine : Type := {
  Regex : Type;
  re_is_match : Regex -> list Z -> bool;
}.

Class Fnv : Type := {
  fnv : list Z -> Z;
  fnv_range l : u64 (fnv l);
}.

(** An [Arc<AtomicU64>] is shared by every clone of its rule: a rule carries
    the identity of the cell, and a store maps identities to values. *)
Abbreviation loc := positive (only parsing).

(** ** Data *)

Record HttpHeader := { header_name : list Z; header_value : list Z }.

Record PathValue := { pv_path : list Z; pv_query : option (list Z) }.

Definition PathValue_from (value : list Z) : PathValue :=
  match split_once 63 value with
  | Some (path, query) => {| pv_path := path; pv_query := Some query |}
  | None => {| pv_path := value; pv_query := None |}
  end.

Inductive URLRewritePath :=
  | ReplaceFullPath (v : PathValue)
  | ReplacePrefixMatch (v : PathValue).

Record Fraction := { numerator : Z; denominator : Z }.

Definition Fraction_ALL : Fraction := {| numerator := 1; denominator := 1 |}.

(** The Euclid loop of [Fraction::new]: [(gcd, rest) = (rest, gcd % rest)]. *)
Fixpoint gcd_loop (fuel : nat) (gcd rest : Z) : Z :=
  match fuel with
  | O => gcd
  | S fuel' => if rest =? 0 then gcd else gcd_loop fuel' rest (gcd mod rest)
  end.

(** 65 turns reach [rest = 0] for any [u32] pair: two turns halve [rest]. *)
Definition Fraction_new (n d : Z) : option Fraction :=
  if (d =? 0) || (d <? n) then None
  else let gcd := gcd_loop 65 n d in
       Some {| numerator := n / gcd; denominator := d / gcd |}.

(** One draw; [draw] is [fastrand::u32(0..denominator)]. *)
Definition sample (f : Fraction) (draw : Z) : bool :=
  (numerator f =? denominator f) || ((0 <? numerator f) && (draw <? numerator f)).

Inductive HttpFilter :=
  | RequestHeaderModifier (add set : list HttpHeader) (remove : list (list Z))
  | ResponseHeaderModifier (add set : list HttpHeader) (remove : list (list Z))
  | RequestRedirect (scheme hostname : option (list Z)) (port : option Z)
      (path : option URLRewritePath) (status_code : Z)
  | URLRewrite (hostname : option (list Z)) (path : option URLRewritePath)
  | RequestMirror (backend_addr : SocketAddr) (fraction : Fraction).

Inductive BackendAction := Forward | Reject.

#[export] Instance BackendAction_eq_dec : EqDecision BackendAction.
Proof. solve_decision. Defined.

Record Backend := {
  socket_addr : SocketAddr;
  weight : Z;
  backend_filters : list HttpFilter;
  use_tls : bool;
  server_name : list Z;
  action : BackendAction;
}.

Inductive PassthroughMiss := NoRoute | NoBackends | NoWeight | Rejected.

Inductive PathMatchType := Prefix | Exact | RegularExpression.

Section Routing.
Context {RE : RegexEngine}.

Inductive ValueMatcher :=
  | VExact (expected : list Z)
  | VRegex (re : Regex).

Definition is_match (m : ValueMatcher) (value : list Z) : bool :=
  match m with
  | VExact expected => beq value expected
  | VRegex re => re_is_match re value
  end.

Record HeaderMatch := { hm_name : list Z; hm_matcher : ValueMatcher }.
Record QueryParamMatch := { qm_name : list Z; qm_matcher : ValueMatcher }.

Record HttpRouteRule := {
  method_match : option (list Z);
  path_match_type : PathMatchType;
  rule_path : list Z;
  path_regex : option Regex;
  header_matches : list HeaderMatch;
  query_param_matches : list QueryParamMatch;
  filters : list HttpFilter;
  backends : list Backend;
  request_timeout : option Z;
  backend_request_timeout : option Z;
  has_filters : bool;
  total_weight : Z;
  cumulative_weights : list Z;
  counter : loc;
  (** The metrics slot, by its label; [None] before the rule enters a table. *)
  requests : option (list Z);
  (** The limiter, by its registry key. *)
  limiter : option (Z * list Z);
  route_index : Z;
}.

(** [HttpRouteRule::new]; [cell] is the freshly allocated counter, which
    holds 0. *)
Definition HttpRouteRule_new (cell : loc) (pmt : PathMatchType) (path : list Z)
  (hms : list HeaderMatch) (qms : list QueryParamMatch) (fs : list HttpFilter)
  (bks : list Backend) : HttpRouteRule :=
  {| method_match := None; path_match_type := pmt; rule_path := path; path_regex := None;
     header_matches := hms; query_param_matches := qms; filters := fs; backends := bks;
     request_timeout := None; backend_request_timeout := None; has_filters := false;
     total_weight := 0; cumulative_weights := []; counter := cell; requests := None;
     limiter := None; route_index := 0 |}.

Definition with_method (r : HttpRouteRule) (m : option (list Z)) : HttpRouteRule :=
  {| method_match := m; path_match_type := path_match_type r; rule_path := rule_path r;
     path_regex := path_regex r; header_matches := header_matches r;
     query_param_matches := query_param_matches r; filters := filters r; backends := backends r;
     request_timeout := request_timeout r; backend_request_timeout := backend_request_timeout r;
     has_filters := has_filters r; total_weight := total_weight r;
     cumulative_weights := cumulative_weights r; counter := counter r; requests := requests r;
     limiter := limiter r; route_index := route_index r |}.

Abbreviation HostEntry := (list HttpRouteRule) (only parsing).

Record ListenerScope := {
  scope_port : Z;
  listener_hostname : option (list Z);
  http_routes : gmap (list Z) (list HttpRouteRule);
  wildcard_http_routes : gmap (list Z) (list HttpRouteRule);
  catch_all_http_routes : option (list HttpRouteRule);
}.

Record PortScopes := { scopes : list ListenerScope; shared : bool }.

Record TlsScope := {
  tls_listener_hostname : option (list Z);
  exact : gmap (list Z) (list Backend);
  wildcard : gmap (list Z) (list Backend);
  catch_all : option (list Backend);
}.

(** [TlsScope::backends]: every backend list, the maps in any order. *)
Definition tls_scope_backends (s : TlsScope) : list (list Backend) :=
  (map_to_list (exact s)).*2 ++ (map_to_list (wildcard s)).*2 ++ option_list (catch_all s).

Record RouteTable := {
  listener_scopes : gmap Z PortScopes;
  shared_scopes : list ListenerScope;
  shared_on_every_port : bool;
  tcp_routes : gmap Z (list Backend);
  udp_routes : gmap Z (list Backend);
  tls_scopes : gmap Z (list TlsScope);
}.

(** ** Hostname matching *)

Definition WILD : list Z := [42; 46].  (* "*." *)

Definition wildcard_covers (parent host : list Z) : bool :=
  ends_with parent host && (length parent <? length host)%nat
  && bool_decide (host !! (length host - length parent - 1)%nat = Some 46).

Definition hostnames_intersect (a b : list Z) : bool :=
  match strip_prefix WILD a, strip_prefix WILD b with
  | None, None => beq a b
  | Some pa, None => wildcard_covers pa b
  | None, Some pb => wildcard_covers pb a
  | Some pa, Some pb => beq pa pb || wildcard_covers pa b || wildcard_covers pb a
  end.

(** [ParentDomains::next] until it is exhausted. *)
Fixpoint parent_domains (host : list Z) : list (list Z) :=
  match host with
  | [] => []
  | c :: rest => if c =? 46 then rest :: parent_domains rest else parent_domains rest
  end.

Definition hostname_match_priority (s : ListenerScope) (request_host : list Z) : option Z :=
  match listener_hostname s with
  | None => Some 0
  | Some lh =>
      match strip_prefix WILD lh with
      | Some parent =>
          if wildcard_covers parent request_host
          then Some (as_u32 (1 + as_u32 (Z.of_nat (length parent)))) else None
      | None => if beq request_host lh then Some U32_MAX else None
      end
  end.

(** ** Header and query lookups *)

Definition not_eol (b : Z) : bool := negb (b =? CR) && negb (b =? LF).

Fixpoint find_header_value_from (fuel : nat) (header_data : list Z) (pos : nat) (name : list Z)
  : option (list Z) :=
  match fuel with
  | O => None
  | S fuel' =>
      if (pos <? length header_data)%nat then
        let line_end := (pos + span_len not_eol (drop pos header_data))%nat in
        let line := slice pos line_end header_data in
        let name_len := length name in
        if (name_len <? length line)%nat && bool_decide (line !! name_len = Some 58)
           && eq_ignore_ascii_case (take name_len line) name
        then from_utf8 (trim_ows (drop (name_len + 1) line))
        else
          let pos := line_end in
          let pos := if bool_decide (header_data !! pos = Some CR) then S pos else pos in
          let pos := if bool_decide (header_data !! pos = Some LF) then S pos else pos in
          find_header_value_from fuel' header_data pos name
      else None
  end.

Definition find_header_value (header_data name : list Z) : option (list Z) :=
  find_header_value_from (length header_data) header_data 0 name.

Fixpoint find_pair (pairs : list (list Z)) (name : list Z) : option (list Z) :=
  match pairs with
  | [] => None
  | kv :: rest =>
      match find_byte 61 kv with
      | Some eq_pos => if beq (take eq_pos kv) name then Some (drop (S eq_pos) kv) else find_pair rest name
      | None => find_pair rest name
      end
  end.

Definition find_query_param_value (query name : list Z) : option (list Z) :=
  match query with
  | [] => None
  | _ => find_pair (split_on 38 query) name
  end.

(** ** Rule matching *)

Definition path_matches (r : HttpRouteRule) (path : list Z) : bool :=
  match path_match_type r with
  | Exact => beq path (rule_path r)
  | RegularExpression =>
      match path_regex r with Some re => re_is_match re path | None => false end
  | Prefix =>
      let prefix := rule_path r in
      let n := length prefix in
      match prefix with
      | [] => true
      | _ =>
          (n <=? length path)%nat && beq (take n path) prefix
          && ((length path =? n)%nat || bool_decide (path !! n = Some 47)
              || bool_decide (prefix !! (n - 1)%nat = Some 47))
      end
  end.

Definition method_matches (r : HttpRouteRule) (method : list Z) : bool :=
  match method_match r with
  | Some required => eq_ignore_ascii_case required method
  | None => true
  end.

Definition headers_match (r : HttpRouteRule) (header_data : list Z) : bool :=
  match header_matches r with
  | [] => true
  | hms =>
      match header_data with
      | [] => false
      | _ => forallb (fun hm => match find_header_value header_data (hm_name hm) with
                                | Some v => is_match (hm_matcher hm) v
                                | None => false
                                end) hms
      end
  end.

Definition query_matches (r : HttpRouteRule) (query_string : list Z) : bool :=
  match query_param_matches r with
  | [] => true
  | qms => forallb (fun qm => match find_query_param_value query_string (qm_name qm) with
                              | Some v => is_match (qm_matcher qm) v
                              | None => false
                              end) qms
  end.

(** The conditions of one turn of [find_best_rule_match]'s loop. *)
Definition rule_matches (r : HttpRouteRule) (method path header_data query_string : list Z) : bool :=
  method_matches r method && path_matches r path && headers_match r header_data
  && query_matches r query_string.

Fixpoint find_best_rule_match (rules : list HttpRouteRule)
  (method path header_data query_string : list Z) : option HttpRouteRule :=
  match rules with
  | [] => None
  | r :: rest =>
      if rule_matches r method path header_data query_string then Some r
      else find_best_rule_match rest method path header_data query_string
  end.

(** ** Precedence of two rules that match one request *)

Definition rank (t : PathMatchType) : Z :=
  match t with Exact => 0 | RegularExpression => 1 | Prefix => 2 end.

Definition match_precedence (a b : HttpRouteRule) : comparison :=
  then_with (rank (path_match_type a) ?= rank (path_match_type b))
  (then_with (Nat.compare (length (rule_path b)) (length (rule_path a)))
  (then_with (bool_cmp (is_some (method_match b)) (is_some (method_match a)))
  (then_with (Nat.compare (length (header_matches b)) (length (header_matches a)))
             (Nat.compare (length (query_param_matches b)) (length (query_param_matches a)))))).

Definition outranks (a b : Z * HttpRouteRule) : bool :=
  is_lt (then_with (b.1 ?= a.1)
        (then_with (match_precedence a.2 b.2)
                   (route_index a.2 ?= route_index b.2))).

(** ** HTTP route lookup *)

Section Lookup.
Context (method path header_data query_string : list Z).

Fixpoint lookup_parents (m : gmap (list Z) (list HttpRouteRule)) (parents : list (list Z))
  : option (Z * HttpRouteRule) :=
  match parents with
  | [] => None
  | parent :: rest =>
      match m !! parent with
      | Some host_entry =>
          match find_best_rule_match host_entry method path header_data query_string with
          | Some rule => Some (as_u32 (1 + as_u32 (Z.of_nat (length parent))), rule)
          | None => lookup_parents m rest
          end
      | None => lookup_parents m rest
      end
  end.

Definition lookup_http_route (s : ListenerScope) (host : list Z) : option (Z * HttpRouteRule) :=
  let exact :=
    match http_routes s !! host with
    | Some he => find_best_rule_match he method path header_data query_string
    | None => None
    end in
  match exact with
  | Some rule => Some (U32_MAX, rule)
  | None =>
      match lookup_parents (wildcard_http_routes s) (parent_domains host) with
      | Some found => Some found
      | None =>
          match catch_all_http_routes s with
          | Some he =>
              match find_best_rule_match he method path header_data query_string with
              | Some rule => Some (0, rule)
              | None => None
              end
          | None => None
          end
      end
  end.

(** Phase 1: the highest listener priority. *)
Definition highest_priority (ss : list ListenerScope) (host : list Z) : option Z :=
  fold_left
    (fun acc s =>
       match hostname_match_priority s host with
       | Some p => match acc with
                   | None => Some p
                   | Some q => if q <? p then Some p else acc
                   end
       | None => acc
       end) ss None.

(** Phase 2: the scopes at that priority. *)
Fixpoint search_scopes (compare : bool) (highest : Z) (host : list Z)
  (best : option (Z * HttpRouteRule)) (ss : list ListenerScope) : option HttpRouteRule :=
  match ss with
  | [] => snd <$> best
  | s :: rest =>
      match hostname_match_priority s host with
      | None => search_scopes compare highest host best rest
      | Some priority =>
          if priority <? highest then search_scopes compare highest host best rest
          else match lookup_http_route s host with
               | None => search_scopes compare highest host best rest
               | Some found =>
                   if negb compare then Some found.2
                   else
                     let best' := match best with
                                  | None => Some found
                                  | Some held => if outranks found held then Some found else best
                                  end in
                     search_scopes compare highest host best' rest
               end
      end
  end.

End Lookup.

(** The host as it is matched: lowercased, but a mixed-case host is copied
    through a 256-byte buffer. *)
Definition host_key (host : list Z) : list Z :=
  if existsb is_ascii_uppercase host then
    default host (from_utf8 (lowercase (take (Nat.min (length host) 256) host)))
  else host.

Definition shared_scopes_of (t : RouteTable) (port : option PortScopes) : list ListenerScope :=
  match shared_scopes t with
  | [] => []
  | ss => if shared_on_every_port t || match port with Some p => shared p | None => false end
          then ss else []
  end.

Definition find_http_route (t : RouteTable) (host method path header_data query_string : list Z)
  (server_port : Z) : option HttpRouteRule :=
  let host_key := host_key host in
  let port := listener_scopes t !! server_port in
  let shared := shared_scopes_of t port in
  let own := match port with Some p => scopes p | None => [] end in
  match highest_priority (own ++ shared) host_key with
  | None => None
  | Some highest =>
      let compare := negb (is_nil own) && negb (is_nil shared) in
      search_scopes method path header_data query_string compare highest host_key None (own ++ shared)
  end.

Definition has_http_routes (t : RouteTable) (server_port : Z) : bool :=
  let port := listener_scopes t !! server_port in
  match port with Some p => negb (is_nil (scopes p)) | None => false end
  || negb (is_nil (shared_scopes_of t port)).

Definition http_scopes (t : RouteTable) : list ListenerScope :=
  concat (map (fun kv => scopes kv.2) (map_to_list (listener_scopes t))) ++ shared_scopes t.

Definition has_tcp_route (t : RouteTable) (server_port : Z) : bool := is_some (tcp_routes t !! server_port).
Definition find_tcp_backends (t : RouteTable) (server_port : Z) : option (list Backend) :=
  tcp_routes t !! server_port.
Definition find_udp_backends (t : RouteTable) (server_port : Z) : option (list Backend) :=
  udp_routes t !! server_port.

(** ** TLS passthrough lookup *)

Section Tls.
Context {FN : Fnv}.

(** What [fnv::FnvHasher] is fed: the native bytes of the port, the
    listener's hostname, one byte for the kind, the route's name. *)
Definition tls_key `{AR : Arch} (port : Z) (s : TlsScope) (kind : Z) (name : list Z) : Z :=
  let port_bytes := match arch_endian with
                    | Little => [port mod 256; port / 256]
                    | Big => [port / 256; port mod 256]
                    end in
  fnv (port_bytes ++ default [] (tls_listener_hostname s) ++ [kind] ++ name).

Fixpoint first_in (pick : TlsScope -> option (list Backend)) (ss : list (Z * TlsScope))
  : option (Z * TlsScope * list Backend) :=
  match ss with
  | [] => None
  | (port, s) :: rest =>
      match pick s with Some b => Some (port, s, b) | None => first_in pick rest end
  end.

Fixpoint first_parent (ss : list (Z * TlsScope)) (parents : list (list Z))
  : option (list Z * (Z * TlsScope * list Backend)) :=
  match parents with
  | [] => None
  | parent :: rest =>
      match first_in (fun s => wildcard s !! parent) ss with
      | Some found => Some (parent, found)
      | None => first_parent ss rest
      end
  end.

Fixpoint find_scope (ss : list TlsScope) (listener : option (list Z)) : option TlsScope :=
  match ss with
  | [] => None
  | s :: rest => if bool_decide (tls_listener_hostname s = listener) then Some s else find_scope rest listener
  end.

Definition tls_candidates (t : RouteTable) (server_port : Z) (listener : option (list Z))
  : list (Z * TlsScope) :=
  let own := match tls_scopes t !! server_port with
             | Some ss => find_scope ss listener
             | None => None
             end in
  let shared := if server_port =? 0 then [] else default [] (tls_scopes t !! 0) in
  match own with Some s => [(server_port, s)] | None => [] end ++ map (fun s => (0, s)) shared.

Definition tls_route `{AR : Arch} (t : RouteTable) (sni : option (list Z)) (server_port : Z)
  (listener : option (list Z)) : option (list Backend * Z) :=
  let ss := tls_candidates t server_port listener in
  let catch := match first_in catch_all ss with
               | Some (port, s, b) => Some (b, tls_key port s 46 [])
               | None => None
               end in
  match sni with
  | None => catch
  | Some sni =>
      match first_in (fun s => exact s !! sni) ss with
      | Some (port, s, b) => Some (b, tls_key port s 61 sni)
      | None =>
          match first_parent ss (parent_domains sni) with
          | Some (parent, (port, s, b)) => Some (b, tls_key port s 42 parent)
          | None => catch
          end
      end
  end.

End Tls.
End Routing.

#[global] Arguments Regex : clear implicits.
#[global] Arguments Regex {_}.
