(* ===== verification/RouteLookup.v ===== *)
(** * What the route lookups promise

    Hostname patterns as sets of hosts, rule precedence as a total preorder,
    and [find_http_route] as the choice of the best candidate within the best
    matching listener ([Routing]). *)

From S2P Require Import Prelude Bytes Net HttpGrammar Routing.

(** ** Hostname patterns *)

Lemma wildcard_covers_spec parent host :
  wildcard_covers parent host = true <-> exists l, host = l ++ 46 :: parent.
Proof.
  unfold wildcard_covers. rewrite !andb_true_iff, ends_with_spec, Nat.ltb_lt, bool_decide_eq_true. split.
  - intros [[[r ->] Hlen] Hdot]. rewrite length_app in *.
    replace (length r + length parent - length parent - 1)%nat with (length r - 1)%nat in Hdot by lia.
    rewrite lookup_app_l in Hdot by lia.
    destruct r as [|x r _] using rev_ind; [simpl in Hlen; lia|].
    rewrite length_app in Hdot. simpl in Hdot. rewrite Nat.add_sub, list_lookup_middle in Hdot by done.
    injection Hdot as ->. exists r. by rewrite <- app_assoc.
  - intros [l ->]. rewrite length_app, length_cons. split_and!.
    + exists (l ++ [46]). by rewrite <- app_assoc.
    + lia.
    + replace (length l + S (length parent) - length parent - 1)%nat with (length l) by lia.
      by apply list_lookup_middle.
Qed.

Lemma wildcard_covers_length parent host :
  wildcard_covers parent host = true -> (length parent < length host)%nat.
Proof. rewrite wildcard_covers_spec. intros [l ->]. rewrite length_app, length_cons. lia. Qed.

Lemma covers_same_length p q host :
  wildcard_covers p host = true -> wildcard_covers q host = true -> length p = length q -> p = q.
Proof.
  rewrite !wildcard_covers_spec. intros [l ->] [k E] Hlen.
  assert (H : length l = length k) by (apply (f_equal length) in E; rewrite !length_app, !length_cons in E; lia).
  apply app_inj_1 in E as [_ E]; [by injection E|done].
Qed.

Lemma parent_domains_spec p host :
  p ∈ parent_domains host <-> wildcard_covers p host = true.
Proof.
  rewrite wildcard_covers_spec. induction host as [|c t IH]; simpl.
  { split; [intros H; by apply not_elem_of_nil in H|]. intros [l E]. by destruct l. }
  transitivity ((c = 46 /\ p = t) \/ exists l, t = l ++ 46 :: p).
  - rewrite <- IH. destruct (Z.eqb_spec c 46); [rewrite elem_of_cons|]; naive_solver.
  - split.
    + intros [[-> ->]|[l ->]]; [by exists []|by exists (c :: l)].
    + intros [[|x l] E]; simpl in E; injection E as -> ->; [by left|right; by exists l].
Qed.

Lemma parent_domains_shorter p host : p ∈ parent_domains host -> (length p < length host)%nat.
Proof. rewrite parent_domains_spec. apply wildcard_covers_length. Qed.

Lemma parent_domains_sorted host :
  StronglySorted (fun a b => (length b < length a)%nat) (parent_domains host).
Proof.
  induction host as [|c t IH]; simpl; [constructor|].
  destruct (c =? 46); [|done]. constructor; [done|].
  apply Forall_forall. intros p. apply parent_domains_shorter.
Qed.

(** The hosts a configured hostname stands for. *)
Definition host_pattern (pat host : list Z) : Prop :=
  match strip_prefix WILD pat with
  | Some parent => wildcard_covers parent host = true
  | None => host = pat
  end.

Lemma covers_wildcard_pattern p q :
  wildcard_covers p (WILD ++ q) = true <-> p = q \/ wildcard_covers p q = true.
Proof.
  rewrite !wildcard_covers_spec. split.
  - intros [l E]. destruct l as [|x [|y l]]; simplify_eq/=.
    + by left.
    + right. by exists l.
  - intros [->|[l ->]]; [by exists [42]|by exists (WILD ++ l)].
Qed.

(** ** Precedence is a total preorder *)

Fixpoint lex (a b : list Z) : comparison :=
  match a, b with
  | x :: a', y :: b' => then_with (x ?= y) (lex a' b')
  | _, _ => Eq
  end.

Lemma then_with_Eq_r c : then_with c Eq = c.
Proof. by destruct c. Qed.

Lemma lex_refl a : lex a a = Eq.
Proof. induction a as [|x a IH]; simpl; [done|]. by rewrite Z.compare_refl. Qed.

Lemma lex_antisym a b : lex b a = CompOpp (lex a b).
Proof.
  revert b. induction a as [|x a IH]; intros [|y b]; simpl; try done.
  rewrite (Z.compare_antisym x y), IH. by destruct (x ?= y).
Qed.

Lemma lex_trans a b c : length a = length b -> length b = length c ->
  lex a b <> Gt -> lex b c <> Gt -> lex a c <> Gt.
Proof.
  revert b c. induction a as [|x a IH]; intros [|y b] [|z c] H1 H2; simpl in *; try done.
  unfold then_with.
  destruct (Z.compare_spec x y), (Z.compare_spec y z), (Z.compare_spec x z); try lia; try done.
  subst. apply IH; congruence.
Qed.

Section Precedence.
Context {RE : RegexEngine}.

(** Smaller is more specific. *)
Definition precedence_key (r : HttpRouteRule) : list Z :=
  [rank (path_match_type r); - Z.of_nat (length (rule_path r));
   (if is_some (method_match r) then 0 else 1);
   - Z.of_nat (length (header_matches r)); - Z.of_nat (length (query_param_matches r))].

Lemma compare_opp_nat (n m : nat) : Nat.compare m n = (- Z.of_nat n ?= - Z.of_nat m).
Proof. by rewrite Z.compare_opp, Nat2Z.inj_compare. Qed.

Lemma match_precedence_lex a b : match_precedence a b = lex (precedence_key a) (precedence_key b).
Proof.
  unfold match_precedence, precedence_key. cbn [lex]. rewrite then_with_Eq_r.
  rewrite !compare_opp_nat. do 3 f_equal. by destruct (method_match a), (method_match b).
Qed.

Definition at_least (a b : HttpRouteRule) : Prop := match_precedence a b <> Gt.

Lemma at_least_trans a b c : at_least a b -> at_least b c -> at_least a c.
Proof. unfold at_least. rewrite !match_precedence_lex. by apply lex_trans. Qed.

Lemma at_least_total a b : at_least a b \/ at_least b a.
Proof.
  unfold at_least. rewrite !match_precedence_lex, (lex_antisym (precedence_key a)).
  destruct (lex (precedence_key a) (precedence_key b)); simpl; auto.
Qed.

(** Route hostname first, then the rule's own match. *)
Definition candidate_key (c : Z * HttpRouteRule) : list Z := - c.1 :: precedence_key c.2.
Definition candidate_cmp (a b : Z * HttpRouteRule) : comparison := lex (candidate_key a) (candidate_key b).

Lemma candidate_cmp_unfold a b :
  candidate_cmp a b = then_with (b.1 ?= a.1) (match_precedence a.2 b.2).
Proof.
  unfold candidate_cmp, candidate_key. cbn [lex]. rewrite match_precedence_lex.
  by rewrite Z.compare_opp.
Qed.

Lemma outranks_weak a b : outranks a b = true -> candidate_cmp a b <> Gt.
Proof.
  unfold outranks. rewrite candidate_cmp_unfold.
  destruct (b.1 ?= a.1); simpl; [|done..]. by destruct (match_precedence a.2 b.2).
Qed.

Lemma not_outranks_weak a b : outranks a b = false -> candidate_cmp b a <> Gt.
Proof.
  unfold candidate_cmp. rewrite lex_antisym. fold (candidate_cmp a b).
  unfold outranks. rewrite candidate_cmp_unfold.
  destruct (b.1 ?= a.1); simpl; [|done..]. by destruct (match_precedence a.2 b.2).
Qed.

Lemma candidate_cmp_trans a b c :
  candidate_cmp a b <> Gt -> candidate_cmp b c <> Gt -> candidate_cmp a c <> Gt.
Proof. by apply lex_trans. Qed.

(** ** Candidates *)

Section Request.
Context (method path header_data query_string : list Z).
Abbreviation matches r := (rule_matches r method path header_data query_string = true).
Abbreviation best_in l := (find_best_rule_match l method path header_data query_string).

Definition rules_sorted (l : list HttpRouteRule) : Prop := StronglySorted at_least l.

Lemma find_best_rule_match_best l : rules_sorted l ->
  match best_in l with
  | Some r => r ∈ l /\ matches r /\ forall r', r' ∈ l -> matches r' -> at_least r r'
  | None => forall r, r ∈ l -> ~ matches r
  end.
Proof.
  induction 1 as [|r l Hs IH Hr]; simpl; [set_solver|].
  destruct (rule_matches r _ _ _ _) eqn:E.
  - split_and!; [set_solver|done|]. intros r' [->|Hin]%elem_of_cons _.
    + unfold at_least. by rewrite match_precedence_lex, lex_refl.
    + rewrite Forall_forall in Hr. by apply Hr.
  - destruct (best_in l) as [b|].
    + destruct IH as (Hin & Hm & Hb). split_and!; [set_solver|done|].
      intros r' [->|Hin']%elem_of_cons Hm'; [congruence|auto].
    + intros r' [->|Hin']%elem_of_cons; [congruence|auto].
Qed.

(** [r] can serve [host] within listener [s], its hostname of precedence [c.1]. *)
Definition candidate (s : ListenerScope) (host : list Z) (c : Z * HttpRouteRule) : Prop :=
  matches c.2 /\
  ((exists he, http_routes s !! host = Some he /\ c.2 ∈ he /\ c.1 = U32_MAX)
   \/ (exists parent he, wildcard_covers parent host = true
        /\ wildcard_http_routes s !! parent = Some he /\ c.2 ∈ he /\ c.1 = 1 + Z.of_nat (length parent))
   \/ (exists he, catch_all_http_routes s = Some he /\ c.2 ∈ he /\ c.1 = 0)).

Definition scope_sorted (s : ListenerScope) : Prop :=
  map_Forall (fun _ l => rules_sorted l) (http_routes s)
  /\ map_Forall (fun _ l => rules_sorted l) (wildcard_http_routes s)
  /\ (forall l, catch_all_http_routes s = Some l -> rules_sorted l).

Lemma candidate_lt_len s host c : candidate s host c -> 0 <= c.1 <= Z.max (Z.of_nat (length host)) U32_MAX.
Proof.
  intros [_ [(he & _ & _ & ->)|[(p & he & Hp & _ & _ & ->)|(he & _ & _ & ->)]]];
    [unfold U32_MAX; lia| |unfold U32_MAX; lia].
  apply wildcard_covers_length in Hp. lia.
Qed.

Lemma same_rank_at_least p r r' : at_least r r' -> candidate_cmp (p, r) (p, r') <> Gt.
Proof. intros H. rewrite candidate_cmp_unfold. cbn. by rewrite Z.compare_refl. Qed.

Lemma higher_rank_wins p q r r' : q < p -> candidate_cmp (p, r) (q, r') <> Gt.
Proof. intros H. rewrite candidate_cmp_unfold. cbn. by rewrite (proj2 (Z.compare_lt_iff q p)). Qed.

Definition is_best (P : Z * HttpRouteRule -> Prop) (o : option (Z * HttpRouteRule)) : Prop :=
  match o with
  | Some c => P c /\ forall c', P c' -> candidate_cmp c c' <> Gt
  | None => forall c, ~ P c
  end.

(** The wildcard walk: longest parent first. *)
Definition wildcard_candidate (m : gmap (list Z) (list HttpRouteRule)) (ps : list (list Z))
  (c : Z * HttpRouteRule) : Prop :=
  matches c.2 /\ exists parent he, parent ∈ ps /\ m !! parent = Some he /\ c.2 ∈ he
  /\ c.1 = 1 + Z.of_nat (length parent).

Lemma lookup_parents_best m ps :
  map_Forall (fun _ l => rules_sorted l) m ->
  StronglySorted (fun a b => (length b < length a)%nat) ps ->
  Forall (fun p => Z.of_nat (length p) < U32_MAX) ps ->
  is_best (wildcard_candidate m ps) (lookup_parents method path header_data query_string m ps).
Proof.
  intros Hm. induction 1 as [|p ps Hs IH Hp]; intros Hl; cbn [lookup_parents].
  { intros c (_ & parent & he & H & _). by apply not_elem_of_nil in H. }
  inversion Hl as [|?? Hlp Hl']; subst. specialize (IH Hl').
  assert (Hrest : (forall r he, m !! p = Some he -> r ∈ he -> ~ matches r) ->
    is_best (wildcard_candidate m (p :: ps)) (lookup_parents method path header_data query_string m ps)).
  { intros Hno. assert (Heq : forall c, wildcard_candidate m (p :: ps) c <-> wildcard_candidate m ps c).
    { intros c. split; intros (Hc & parent & he & Hin & Hhe & Hr & Hk); (split; [done|]).
      - apply elem_of_cons in Hin as [->|Hin]; [by destruct (Hno _ _ Hhe Hr)|]. by exists parent, he.
      - exists parent, he. by rewrite elem_of_cons; auto. }
    destruct (lookup_parents _ _ _ _ m ps) as [c|]; simpl in *; [|by setoid_rewrite Heq].
    rewrite Heq. destruct IH. split; [done|]. intros c'. rewrite Heq. auto. }
  destruct (m !! p) as [he|] eqn:Ehe; [|apply Hrest; congruence].
  pose proof (find_best_rule_match_best he (Hm _ _ Ehe)) as Hbest.
  destruct (find_best_rule_match he _ _ _ _) as [r|]; [|apply Hrest; intros r he' [= <-]; auto].
  destruct Hbest as (Hin & Hmr & Hb).
  assert (Hk : as_u32 (1 + as_u32 (Z.of_nat (length p))) = 1 + Z.of_nat (length p)).
  { unfold U32_MAX in Hlp. rewrite (as_u32_small (Z.of_nat _)) by (red; lia). apply as_u32_small. red. lia. }
  rewrite Hk. split.
  - split; [done|]. exists p, he. split_and!; [set_solver|done..].
  - intros [k r'] (Hmr' & parent & he' & Hpin & Hhe' & Hr' & Hk'). simpl in *. subst k.
    apply elem_of_cons in Hpin as [->|Hpin].
    + rewrite Ehe in Hhe'. injection Hhe' as <-. apply same_rank_at_least. auto.
    + apply higher_rank_wins. rewrite Forall_forall in Hp. specialize (Hp _ Hpin). lia.
Qed.

(** One host entry, all its rules at rank [k]. *)
Definition entry_candidate (k : Z) (o : option (list HttpRouteRule)) (c : Z * HttpRouteRule) : Prop :=
  matches c.2 /\ exists he, o = Some he /\ c.2 ∈ he /\ c.1 = k.

Lemma entry_best k o : (forall l, o = Some l -> rules_sorted l) ->
  is_best (entry_candidate k o)
    (match match o with Some he => best_in he | None => None end with
     | Some r => Some (k, r) | None => None end).
Proof.
  intros Ho. destruct o as [he|]; [|intros c (_ & he & ? & _); done].
  pose proof (find_best_rule_match_best he (Ho he eq_refl)) as Hb. destruct (best_in he) as [r|].
  - destruct Hb as (Hin & Hm & Hb). split; [split; [done|]; by exists he|].
    intros [k' r'] (Hm' & he' & E & Hr' & E'). injection E as <-. simpl in *.
    subst k'. apply same_rank_at_least. auto.
  - intros c (Hm & he' & E & Hr & _). injection E as <-. by apply (Hb c.2).
Qed.

Lemma entry_best_or (k : Z) (o : option (list HttpRouteRule)) :
  match match o with Some he => best_in he | None => None end with
  | Some r => Some (k, r) | None => None end
  = match o with
    | Some he => match best_in he with Some r => Some (k, r) | None => None end
    | None => None end.
Proof. destruct o; reflexivity. Qed.

(** [lookup_http_route] picks the best candidate of its listener. *)
Lemma lookup_http_route_best s host :
  scope_sorted s -> Z.of_nat (length host) < U32_MAX ->
  is_best (candidate s host) (lookup_http_route method path header_data query_string s host).
Proof.
  intros (Hx & Hw & Hc) Hlen. unfold lookup_http_route.
  assert (Hlens : Forall (fun p => Z.of_nat (length p) < U32_MAX) (parent_domains host)).
  { apply Forall_forall. intros p ?%parent_domains_shorter. lia. }
  pose proof (lookup_parents_best (wildcard_http_routes s) (parent_domains host) Hw
    (parent_domains_sorted host) Hlens) as Hpar.
  assert (Hwild : forall c, (matches c.2 /\ exists parent he, wildcard_covers parent host = true
        /\ wildcard_http_routes s !! parent = Some he /\ c.2 ∈ he /\ c.1 = 1 + Z.of_nat (length parent))
     <-> wildcard_candidate (wildcard_http_routes s) (parent_domains host) c).
  { intros c. unfold wildcard_candidate. by setoid_rewrite parent_domains_spec. }
  assert (Hwlt : forall c, wildcard_candidate (wildcard_http_routes s) (parent_domains host) c -> 0 < c.1 < U32_MAX).
  { intros c (_ & p & he & Hp & _ & _ & ->). apply parent_domains_shorter in Hp. lia. }
  pose proof (entry_best U32_MAX (http_routes s !! host) (Hx host)) as Hex.
  pose proof (entry_best 0 (catch_all_http_routes s) Hc) as Hcat.
  unfold candidate.
  destruct (match http_routes s !! host with Some he => best_in he | None => None end) as [r|].
  { destruct Hex as [[Hm Hr] Hb]. split; [by eauto|]. intros [k r'] [Hm' [H|[H|H]]].
    - by apply Hb.
    - apply higher_rank_wins. by apply (Hwlt (k, r')), Hwild.
    - destruct H as (he & _ & _ & E). simpl in E. subst k. apply higher_rank_wins. unfold U32_MAX. lia. }
  destruct (lookup_parents _ _ _ _ _ _) as [[k r]|].
  { destruct Hpar as [Hp Hb]. pose proof (Hwlt _ Hp) as Hk. apply Hwild in Hp as [Hm Hp]. split; [by eauto|].
    intros [k' r'] [Hm' [H|[H|H]]].
    - exfalso. by apply (Hex (k', r')).
    - by apply Hb, Hwild.
    - destruct H as (he & _ & _ & E). simpl in E, Hk. subst k'. apply higher_rank_wins. lia. }
  assert (Hnone : forall c, candidate s host c ->
    matches c.2 /\ exists he, catch_all_http_routes s = Some he /\ c.2 ∈ he /\ c.1 = 0).
  { intros c [Hm [H|[H|H]]]; [exfalso; by apply (Hex c)|exfalso; by apply (Hpar c), Hwild|done]. }
  fold (candidate s host) in Hnone |- *. rewrite <- entry_best_or.
  destruct (match match catch_all_http_routes s with Some he => _ | None => None end with Some r => _ | None => _ end)
    as [c|]; simpl in Hcat |- *.
  - destruct Hcat as [[Hm Hr] Hb]. split; [by split; eauto|]. intros c' Hc'. by apply Hb, Hnone.
  - intros c Hc'. by apply (Hcat c), Hnone.
Qed.

(** ** The listener a host selects *)

Lemma hostname_match_priority_range s host p :
  Z.of_nat (length host) < U32_MAX -> hostname_match_priority s host = Some p ->
  match listener_hostname s with
  | None => p = 0
  | Some lh => match strip_prefix WILD lh with
               | Some parent => wildcard_covers parent host = true /\ p = 1 + Z.of_nat (length parent) /\ p < U32_MAX
               | None => lh = host /\ p = U32_MAX
               end
  end.
Proof.
  intros Hlen. unfold hostname_match_priority. destruct (listener_hostname s) as [lh|]; [|congruence].
  destruct (strip_prefix WILD lh) as [parent|].
  - destruct (wildcard_covers parent host) eqn:E; [|done]. intros [= <-].
    pose proof (wildcard_covers_length _ _ E). unfold U32_MAX in *.
    rewrite (as_u32_small (Z.of_nat _)) by (red; lia). rewrite as_u32_small by (red; lia).
    split_and!; (done || lia).
  - destruct (beq host lh) eqn:E; [|done]. apply beq_spec in E. intros [= <-]. auto.
Qed.

(** Two listeners of one port at one priority have one hostname. *)
Lemma priority_determines_hostname s1 s2 host p :
  Z.of_nat (length host) < U32_MAX ->
  hostname_match_priority s1 host = Some p -> hostname_match_priority s2 host = Some p ->
  listener_hostname s1 = listener_hostname s2.
Proof.
  intros Hlen H1%hostname_match_priority_range H2%hostname_match_priority_range; [|done..].
  destruct (listener_hostname s1) as [a|], (listener_hostname s2) as [b|]; try done.
  - destruct (strip_prefix WILD a) as [pa|] eqn:Ea, (strip_prefix WILD b) as [pb|] eqn:Eb.
    + destruct H1 as (Ha & Hp & _), H2 as (Hb & Hq & _).
      apply strip_prefix_Some in Ea as ->, Eb as ->.
      rewrite (covers_same_length pa pb host); [done..|lia].
    + lia.
    + lia.
    + destruct H1, H2. congruence.
  - destruct (strip_prefix WILD a); unfold U32_MAX in *; lia.
  - destruct (strip_prefix WILD b); unfold U32_MAX in *; lia.
Qed.

Definition priority_le (ss : list ListenerScope) (host : list Z) (p : Z) : Prop :=
  forall s q, s ∈ ss -> hostname_match_priority s host = Some q -> q <= p.

Lemma highest_priority_spec ss host :
  match highest_priority ss host with
  | Some p => (exists s, s ∈ ss /\ hostname_match_priority s host = Some p) /\ priority_le ss host p
  | None => forall s, s ∈ ss -> hostname_match_priority s host = None
  end.
Proof.
  unfold highest_priority.
  assert (Hgen : forall ss' acc,
    match acc with
    | Some p => (exists s, s ∈ ss' /\ hostname_match_priority s host = Some p) /\ priority_le ss' host p
    | None => forall s, s ∈ ss' -> hostname_match_priority s host = None
    end ->
    match fold_left (fun acc s => match hostname_match_priority s host with
       | Some p => match acc with None => Some p | Some q => if q <? p then Some p else acc end
       | None => acc end) ss acc with
    | Some p => (exists s, s ∈ ss' ++ ss /\ hostname_match_priority s host = Some p) /\ priority_le (ss' ++ ss) host p
    | None => forall s, s ∈ ss' ++ ss -> hostname_match_priority s host = None
    end).
  { induction ss as [|s ss IH]; intros ss' acc Hacc; [by rewrite app_nil_r|]. cbn [fold_left].
    rewrite cons_middle, app_assoc. apply IH. unfold priority_le in *.
    destruct (hostname_match_priority s host) as [p|] eqn:E.
    - destruct acc as [q|].
      + destruct Hacc as [[s0 [Hin Hq]] Hle]. destruct (Z.ltb_spec q p).
        * split; [exists s; set_solver|]. intros s1 q1 [Hin1| ->%list_elem_of_singleton]%elem_of_app E1.
          -- specialize (Hle _ _ Hin1 E1). lia.
          -- rewrite E in E1. injection E1. lia.
        * split; [exists s0; set_solver|]. intros s1 q1 [Hin1| ->%list_elem_of_singleton]%elem_of_app E1; [eauto|].
          rewrite E in E1. injection E1. lia.
      + split; [exists s; set_solver|]. intros s1 q1 [Hin1| ->%list_elem_of_singleton]%elem_of_app E1.
        * by rewrite (Hacc _ Hin1) in E1.
        * rewrite E in E1. injection E1. lia.
    - destruct acc as [q|].
      + destruct Hacc as [[s0 [Hin Hq]] Hle]. split; [exists s0; set_solver|].
        intros s1 q1 [Hin1| ->%list_elem_of_singleton]%elem_of_app E1; [eauto|congruence].
      + intros s1 [Hin1| ->%list_elem_of_singleton]%elem_of_app; auto. }
  apply (Hgen [] None). set_solver.
Qed.

(** ** The search at that priority *)

Definition at_priority (ss : list ListenerScope) (host : list Z) (p : Z) (c : Z * HttpRouteRule) : Prop :=
  exists s, s ∈ ss /\ hostname_match_priority s host = Some p /\ candidate s host c.

Lemma is_best_ext P Q o : (forall c, P c <-> Q c) -> is_best P o -> is_best Q o.
Proof.
  intros E. destruct o as [c|]; simpl.
  - rewrite E. intros [? H]. split; [done|]. intros c'. rewrite <- E. auto.
  - intros H c. rewrite <- E. auto.
Qed.

Lemma is_best_combine P Q held found :
  is_best P (Some held) -> is_best Q (Some found) ->
  is_best (fun c => P c \/ Q c) (Some (if outranks found held then found else held)).
Proof.
  intros [Hp Hbp] [Hq Hbq]. destruct (outranks found held) eqn:E; (split; [auto|]); intros c [H|H]; auto.
  - eapply candidate_cmp_trans; [by apply outranks_weak|auto].
  - eapply candidate_cmp_trans; [by apply not_outranks_weak|auto].
Qed.

Abbreviation search := (search_scopes method path header_data query_string) (only parsing).

Lemma at_priority_cons s ss host p c :
  at_priority (s :: ss) host p c <->
  (hostname_match_priority s host = Some p /\ candidate s host c) \/ at_priority ss host p c.
Proof. unfold at_priority. setoid_rewrite elem_of_cons. naive_solver. Qed.

Lemma search_compare ss host p best P :
  Z.of_nat (length host) < U32_MAX -> Forall scope_sorted ss -> priority_le ss host p -> is_best P best ->
  exists o, search true p host best ss = snd <$> o /\ is_best (fun c => P c \/ at_priority ss host p c) o.
Proof.
  intros Hlen Hs. revert best P. induction Hs as [|s ss Hsort _ IH]; intros best P Hle Hbest.
  { exists best. split; [done|]. eapply is_best_ext; [|done]. intros c. split; [auto|]. intros [?|(? & ?%not_elem_of_nil & _)]; done. }
  assert (Hle' : priority_le ss host p) by (intros ???; apply Hle; set_solver).
  assert (Hskip : (forall c, ~ (hostname_match_priority s host = Some p /\ candidate s host c)) ->
    exists o, search true p host best ss = snd <$> o /\ is_best (fun c => P c \/ at_priority (s :: ss) host p c) o).
  { intros Hno. destruct (IH best P Hle' Hbest) as (o & -> & Ho). exists o. split; [done|].
    eapply is_best_ext; [|exact Ho]. intros c. rewrite at_priority_cons. specialize (Hno c). tauto. }
  cbn [search_scopes]. destruct (hostname_match_priority s host) as [q|] eqn:E; [|apply Hskip; by intros c []].
  pose proof (Hle s q ltac:(set_solver) E) as Hqp.
  destruct (Z.ltb_spec q p); [apply Hskip; intros c [[= ->] _]; lia|]. assert (q = p) as -> by lia.
  pose proof (lookup_http_route_best s host Hsort Hlen) as Hlook.
  destruct (lookup_http_route _ _ _ _ s host) as [found|]; [|apply Hskip; intros c [_ ?]; by apply (Hlook c)].
  simpl negb. cbv iota.
  set (best' := match best with None => Some found | Some held => _ end).
  assert (Hbest' : is_best (fun c => P c \/ candidate s host c) best').
  { unfold best'. destruct best as [held|].
    - replace (if outranks found held then Some found else Some held)
        with (Some (if outranks found held then found else held)) by (by destruct (outranks found held)).
      by apply is_best_combine.
    - eapply is_best_ext; [|exact Hlook]. intros c. specialize (Hbest c). tauto. }
  destruct (IH best' _ Hle' Hbest') as (o & -> & Ho). exists o. split; [done|].
  eapply is_best_ext; [|exact Ho]. intros c. rewrite at_priority_cons, E. intuition congruence.
Qed.

Lemma search_unique ss host p :
  Z.of_nat (length host) < U32_MAX -> Forall scope_sorted ss -> NoDup (map listener_hostname ss) ->
  priority_le ss host p ->
  exists o, search false p host None ss = snd <$> o /\ is_best (at_priority ss host p) o.
Proof.
  intros Hlen Hs. induction Hs as [|s ss Hsort _ IH]; intros Hnd Hle.
  { exists None. split; [done|]. intros c (? & ?%not_elem_of_nil & _). done. }
  cbn [map] in Hnd. apply NoDup_cons in Hnd as [Hnin Hnd].
  assert (Hle' : priority_le ss host p) by (intros ???; apply Hle; set_solver).
  assert (Hskip : (forall c, ~ (hostname_match_priority s host = Some p /\ candidate s host c)) ->
    exists o, search false p host None ss = snd <$> o /\ is_best (at_priority (s :: ss) host p) o).
  { intros Hno. destruct (IH Hnd Hle') as (o & -> & Ho). exists o. split; [done|].
    eapply is_best_ext; [|exact Ho]. intros c. rewrite at_priority_cons. specialize (Hno c). tauto. }
  cbn [search_scopes]. destruct (hostname_match_priority s host) as [q|] eqn:E; [|apply Hskip; by intros c []].
  pose proof (Hle s q ltac:(set_solver) E) as Hqp.
  destruct (Z.ltb_spec q p); [apply Hskip; intros c [[= ->] _]; lia|]. assert (q = p) as -> by lia.
  pose proof (lookup_http_route_best s host Hsort Hlen) as Hlook.
  destruct (lookup_http_route _ _ _ _ s host) as [found|]; [|apply Hskip; intros c [_ ?]; by apply (Hlook c)].
  exists (Some found). split; [done|]. eapply is_best_ext; [|exact Hlook]. intros c.
  rewrite at_priority_cons, E. split; [auto|]. intros [[_ ?]|(s' & Hin & E' & _)]; [done|].
  destruct Hnin. rewrite (priority_determines_hostname s s' host p) by done.
  by apply list_elem_of_fmap_2.
Qed.

End Request.

(** ** Table invariant *)

Definition scopes_ok (ss : list ListenerScope) : Prop :=
  NoDup (map listener_hostname ss) /\ Forall scope_sorted ss.

Definition table_ok (t : RouteTable) : Prop :=
  map_Forall (fun _ p => scopes_ok (scopes p)) (listener_scopes t) /\ scopes_ok (shared_scopes t).

(** The scopes a port searches. *)
Definition searched (t : RouteTable) (port : Z) : list ListenerScope :=
  match listener_scopes t !! port with Some p => scopes p | None => [] end
  ++ shared_scopes_of t (listener_scopes t !! port).

Lemma scopes_ok_nil : scopes_ok [].
Proof. split; [apply NoDup_nil_2|constructor]. Qed.

Lemma shared_scopes_of_ok t o : table_ok t -> scopes_ok (shared_scopes_of t o).
Proof.
  intros [_ H]. unfold shared_scopes_of. destruct (shared_scopes t); [apply scopes_ok_nil|].
  case_match; [done|apply scopes_ok_nil].
Qed.

Lemma own_scopes_ok t port : table_ok t ->
  scopes_ok (match listener_scopes t !! port with Some p => scopes p | None => [] end).
Proof. intros [H _]. destruct (_ !! port) eqn:E; [by eapply H|apply scopes_ok_nil]. Qed.

Lemma length_host_key host : (length (host_key host) <= length host)%nat.
Proof.
  unfold host_key, from_utf8. case_match; [|done]. case_match; simpl; [|done].
  rewrite length_lowercase, length_take. lia.
Qed.

Lemma find_http_route_best t host method path header_data query_string port :
  table_ok t -> Z.of_nat (length host) < U32_MAX ->
  match highest_priority (searched t port) (host_key host) with
  | None => find_http_route t host method path header_data query_string port = None
  | Some p => exists o, find_http_route t host method path header_data query_string port = snd <$> o
      /\ is_best (at_priority method path header_data query_string (searched t port) (host_key host) p) o
  end.
Proof.
  intros Hok Hlen. pose proof (length_host_key host) as Hk.
  assert (Hlen' : Z.of_nat (length (host_key host)) < U32_MAX) by lia.
  pose proof (own_scopes_ok t port Hok) as [Hnd1 Hs1].
  pose proof (shared_scopes_of_ok t (listener_scopes t !! port) Hok) as [Hnd2 Hs2].
  unfold find_http_route. unfold searched in *.
  set (own := match listener_scopes t !! port with Some p => scopes p | None => [] end) in *.
  set (sh := shared_scopes_of t (listener_scopes t !! port)) in *.
  pose proof (highest_priority_spec (own ++ sh) (host_key host)) as Hhi.
  destruct (highest_priority (own ++ sh) (host_key host)) as [p|]; [|done]. destruct Hhi as [_ Hle].
  destruct (is_nil own) eqn:Eo; [|destruct (is_nil sh) eqn:Es]; cbn [negb andb].
  - destruct own; [|done]. cbn [app] in *. by apply search_unique.
  - destruct sh; [|done]. rewrite app_nil_r in *. by apply search_unique.
  - destruct (search_compare method path header_data query_string (own ++ sh) (host_key host) p None (fun _ => False))
      as (o & -> & Ho); [done|by apply Forall_app|done|intros c []|].
    exists o. split; [done|]. eapply is_best_ext; [|exact Ho]. intros c. simpl. tauto.
Qed.

(** Folding the host's case first changes nothing up to 256 bytes. *)
Lemma lowercase_no_upper l : existsb is_ascii_uppercase l = false -> lowercase l = l.
Proof.
  induction l as [|x l IH]; simpl; [done|]. intros [Hx Hl]%orb_false_iff.
  rewrite IH by done. f_equal. unfold to_ascii_lowercase. by rewrite Hx.
Qed.

Lemma lowercase_has_no_upper l : existsb is_ascii_uppercase (lowercase l) = false.
Proof.
  induction l as [|x l IH]; simpl; [done|]. rewrite IH, orb_false_r.
  unfold to_ascii_lowercase. destruct (is_ascii_uppercase x) eqn:E; [|done].
  unfold is_ascii_uppercase in *. bool_simpl. lia.
Qed.

Lemma host_key_lowercase host : (length host <= 256)%nat -> utf8_valid (lowercase host) = true ->
  host_key host = lowercase host.
Proof.
  intros Hlen Hu. unfold host_key. destruct (existsb is_ascii_uppercase host) eqn:E.
  - rewrite Nat.min_l, take_ge by lia. unfold from_utf8. by rewrite Hu.
  - by rewrite lowercase_no_upper.
Qed.

End Precedence.
