(* ===== verification/RouteBuild.v ===== *)
(** * Building a route table

    [src/src/routing/build.rs]: the operations that add routes to a table,
    the stable sort of a host entry by precedence, the DNS signature, and the
    construction of backends from resolved addresses. Every operation keeps
    [RouteLookup.table_ok], the invariant the lookups rely on. *)

From S2P Require Import Prelude Bytes Net IpText HttpGrammar Routing RouteLookup.

(** The hash of an address ([fnv] over [SocketAddr]'s [Hash]) and name
    resolution are outside the program. *)
Class AddrHash : Type := {
  backend_addr_hash : SocketAddr -> Z;
  backend_addr_hash_range a : u64 (backend_addr_hash a);
}.

Class Resolver : Type := {
  to_socket_addrs : list Z -> Z -> option (list SocketAddr);
}.

Section Build.
Context {RE : RegexEngine}.

(** ** Stable sort by precedence *)

(** Inserts [r], which comes after every rule of [l], past its equals. *)
Fixpoint insert_rule (r : HttpRouteRule) (l : list HttpRouteRule) : list HttpRouteRule :=
  match l with
  | [] => [r]
  | x :: t => match match_precedence x r with
              | Gt => r :: x :: t
              | _ => x :: insert_rule r t
              end
  end.

(** [slice::sort_by] is stable. *)
Definition sort_rules (l : list HttpRouteRule) : list HttpRouteRule :=
  fold_left (fun acc r => insert_rule r acc) l [].

(** ** Listener scopes *)

Definition ListenerScope_new (port : Z) (hostname : option (list Z)) : ListenerScope :=
  {| scope_port := port; listener_hostname := lowercase <$> hostname;
     http_routes := ∅; wildcard_http_routes := ∅; catch_all_http_routes := None |}.

Fixpoint prefix_sums (acc : Z) (ws : list Z) : list Z :=
  match ws with [] => [] | w :: t => (acc + w) :: prefix_sums (acc + w) t end.

Definition sum_weights (ws : list Z) : Z := fold_left Z.add ws 0.

(** The metadata [push_route] computes. *)
Definition with_metadata (r : HttpRouteRule) (host_lower : list Z) : HttpRouteRule :=
  {| method_match := method_match r; path_match_type := path_match_type r; rule_path := rule_path r;
     path_regex := path_regex r; header_matches := header_matches r;
     query_param_matches := query_param_matches r; filters := filters r; backends := backends r;
     request_timeout := request_timeout r; backend_request_timeout := backend_request_timeout r;
     has_filters := negb (is_nil (filters r))
                    || existsb (fun b => negb (is_nil (backend_filters b))) (backends r);
     total_weight := sum_weights (map weight (backends r));
     cumulative_weights := prefix_sums 0 (map weight (backends r));
     counter := counter r; requests := Some host_lower;
     limiter := limiter r; route_index := route_index r |}.

(** Which host entry of a scope a route hostname names. *)
Inductive EntryRef :=
  | ECatchAll
  | EWildcard (parent : list Z)
  | EExact (host : list Z).

Definition entry_of (host_lower : list Z) : EntryRef :=
  if beq host_lower [42] then ECatchAll
  else match strip_prefix WILD host_lower with
       | Some parent => EWildcard parent
       | None => EExact host_lower
       end.

Definition alter_entry (f : option (list HttpRouteRule) -> list HttpRouteRule) (e : EntryRef)
  (s : ListenerScope) : ListenerScope :=
  match e with
  | ECatchAll =>
      {| scope_port := scope_port s; listener_hostname := listener_hostname s;
         http_routes := http_routes s; wildcard_http_routes := wildcard_http_routes s;
         catch_all_http_routes := Some (f (catch_all_http_routes s)) |}
  | EWildcard k =>
      {| scope_port := scope_port s; listener_hostname := listener_hostname s;
         http_routes := http_routes s;
         wildcard_http_routes := <[k := f (wildcard_http_routes s !! k)]> (wildcard_http_routes s);
         catch_all_http_routes := catch_all_http_routes s |}
  | EExact k =>
      {| scope_port := scope_port s; listener_hostname := listener_hostname s;
         http_routes := <[k := f (http_routes s !! k)]> (http_routes s);
         wildcard_http_routes := wildcard_http_routes s;
         catch_all_http_routes := catch_all_http_routes s |}
  end.

(** Appends the rule to its host entry, and names that entry. *)
Definition push_route (s : ListenerScope) (route_host : list Z) (rule : HttpRouteRule)
  : ListenerScope * EntryRef :=
  let host_lower := lowercase route_host in
  let e := entry_of host_lower in
  (alter_entry (fun o => default [] o ++ [with_metadata rule host_lower]) e s, e).

Definition sort_entry (e : EntryRef) (s : ListenerScope) : ListenerScope :=
  alter_entry (fun o => sort_rules (default [] o)) e s.

(** Every entry of a scope, sorted ([host_entries_mut] under [sort_rules]). *)
Definition sort_scope (s : ListenerScope) : ListenerScope :=
  {| scope_port := scope_port s; listener_hostname := listener_hostname s;
     http_routes := sort_rules <$> http_routes s;
     wildcard_http_routes := sort_rules <$> wildcard_http_routes s;
     catch_all_http_routes := sort_rules <$> catch_all_http_routes s |}.

(** ** Route tables *)

Definition RouteTable_new : RouteTable :=
  {| listener_scopes := ∅; shared_scopes := []; shared_on_every_port := true;
     tcp_routes := ∅; udp_routes := ∅; tls_scopes := ∅ |}.

Definition set_listener_scopes (t : RouteTable) m : RouteTable :=
  {| listener_scopes := m; shared_scopes := shared_scopes t;
     shared_on_every_port := shared_on_every_port t; tcp_routes := tcp_routes t;
     udp_routes := udp_routes t; tls_scopes := tls_scopes t |}.

Definition set_shared_scopes (t : RouteTable) ss : RouteTable :=
  {| listener_scopes := listener_scopes t; shared_scopes := ss;
     shared_on_every_port := shared_on_every_port t; tcp_routes := tcp_routes t;
     udp_routes := udp_routes t; tls_scopes := tls_scopes t |}.

Definition default_port : PortScopes := {| scopes := []; shared := false |}.

(** [f] on the first scope with this hostname, or on a new one at the end. *)
Fixpoint update_scope (port : Z) (normalized : option (list Z)) (f : ListenerScope -> ListenerScope)
  (ss : list ListenerScope) : list ListenerScope :=
  match ss with
  | [] => [f (ListenerScope_new port normalized)]
  | s :: rest =>
      if bool_decide (listener_hostname s = normalized) then f s :: rest
      else s :: update_scope port normalized f rest
  end.

(** [scope_mut] and what its caller does through the reference. *)
Definition scope_mut (t : RouteTable) (listener_port : Z) (hostname : option (list Z))
  (f : ListenerScope -> ListenerScope) : RouteTable :=
  let normalized := lowercase <$> hostname in
  if listener_port =? 0 then
    set_shared_scopes t (update_scope 0 normalized f (shared_scopes t))
  else
    let p := default default_port (listener_scopes t !! listener_port) in
    set_listener_scopes t
      (<[listener_port := {| scopes := update_scope listener_port normalized f (scopes p);
                             shared := shared p |}]> (listener_scopes t)).

Definition push_http_route_for_listener (t : RouteTable) (listener_port : Z)
  (hostname : option (list Z)) (route_host : list Z) (rule : HttpRouteRule) : RouteTable :=
  scope_mut t listener_port hostname (fun s => (push_route s route_host rule).1).

Definition add_http_route_for_listener (t : RouteTable) (listener_port : Z)
  (hostname : option (list Z)) (route_host : list Z) (rule : HttpRouteRule) : RouteTable :=
  scope_mut t listener_port hostname
    (fun s => let '(s', e) := push_route s route_host rule in sort_entry e s').

Definition add_http_route (t : RouteTable) (host : list Z) (rule : HttpRouteRule) : RouteTable :=
  add_http_route_for_listener t 0 None host rule.

Definition sort_http_routes (t : RouteTable) : RouteTable :=
  set_shared_scopes
    (set_listener_scopes t
       ((fun p => {| scopes := map sort_scope (scopes p); shared := shared p |}) <$> listener_scopes t))
    (map sort_scope (shared_scopes t)).

Definition share_any_port_scopes_on (t : RouteTable) (ports : list Z) : RouteTable :=
  {| listener_scopes :=
       fold_left (fun m port => let p := default default_port (m !! port) in
                                <[port := {| scopes := scopes p; shared := true |}]> m)
         ports (listener_scopes t);
     shared_scopes := shared_scopes t; shared_on_every_port := false;
     tcp_routes := tcp_routes t; udp_routes := udp_routes t; tls_scopes := tls_scopes t |}.

(** [insert_first]: the first registration of a key wins. *)
Definition insert_first {K} `{Countable K} (m : gmap K (list Backend)) (k : K) (bks : list Backend)
  : gmap K (list Backend) * bool :=
  match m !! k with
  | None => (<[k := bks]> m, true)
  | Some _ => (m, false)
  end.

Definition add_tcp_route (t : RouteTable) (port : Z) (bks : list Backend) : RouteTable * bool :=
  let '(m, fresh) := insert_first (tcp_routes t) port bks in
  ({| listener_scopes := listener_scopes t; shared_scopes := shared_scopes t;
      shared_on_every_port := shared_on_every_port t; tcp_routes := m;
      udp_routes := udp_routes t; tls_scopes := tls_scopes t |}, fresh).

Definition add_udp_route (t : RouteTable) (port : Z) (bks : list Backend) : RouteTable * bool :=
  let '(m, fresh) := insert_first (udp_routes t) port bks in
  ({| listener_scopes := listener_scopes t; shared_scopes := shared_scopes t;
      shared_on_every_port := shared_on_every_port t; tcp_routes := tcp_routes t;
      udp_routes := m; tls_scopes := tls_scopes t |}, fresh).

Definition TlsScope_default (hostname : option (list Z)) : TlsScope :=
  {| tls_listener_hostname := hostname; exact := ∅; wildcard := ∅; catch_all := None |}.

(** What [add_tls_route_for_listener] does to the scope it found or made. *)
Definition tls_scope_insert (s : TlsScope) (route_host : list Z) (bks : list Backend) : TlsScope * bool :=
  let host_lower := lowercase route_host in
  if beq host_lower [42] then
    match catch_all s with
    | Some _ => (s, false)
    | None => ({| tls_listener_hostname := tls_listener_hostname s; exact := exact s;
                  wildcard := wildcard s; catch_all := Some bks |}, true)
    end
  else match strip_prefix WILD host_lower with
  | Some parent =>
      let '(m, fresh) := insert_first (wildcard s) parent bks in
      ({| tls_listener_hostname := tls_listener_hostname s; exact := exact s;
          wildcard := m; catch_all := catch_all s |}, fresh)
  | None =>
      let '(m, fresh) := insert_first (exact s) host_lower bks in
      ({| tls_listener_hostname := tls_listener_hostname s; exact := m;
          wildcard := wildcard s; catch_all := catch_all s |}, fresh)
  end.

Fixpoint update_tls_scope (hostname : option (list Z)) (route_host : list Z) (bks : list Backend)
  (ss : list TlsScope) : list TlsScope * bool :=
  match ss with
  | [] => let '(s, fresh) := tls_scope_insert (TlsScope_default hostname) route_host bks in ([s], fresh)
  | s :: rest =>
      if bool_decide (tls_listener_hostname s = hostname) then
        let '(s', fresh) := tls_scope_insert s route_host bks in (s' :: rest, fresh)
      else let '(rest', fresh) := update_tls_scope hostname route_host bks rest in (s :: rest', fresh)
  end.

Definition add_tls_route_for_listener (t : RouteTable) (port : Z) (hostname : option (list Z))
  (route_host : list Z) (bks : list Backend) : RouteTable * bool :=
  let '(ss, fresh) := update_tls_scope (lowercase <$> hostname) route_host bks
                        (default [] (tls_scopes t !! port)) in
  ({| listener_scopes := listener_scopes t; shared_scopes := shared_scopes t;
      shared_on_every_port := shared_on_every_port t; tcp_routes := tcp_routes t;
      udp_routes := udp_routes t; tls_scopes := <[port := ss]> (tls_scopes t) |}, fresh).

Definition add_tls_route (t : RouteTable) (port : Z) (hostname : list Z) (bks : list Backend) :=
  add_tls_route_for_listener t port None hostname bks.

(** ** The DNS signature *)

Definition map_values {K A} `{Countable K} (m : gmap K A) : list A := (map_to_list m).*2.

Definition scope_rules (s : ListenerScope) : list HttpRouteRule :=
  concat (map_values (http_routes s)) ++ concat (map_values (wildcard_http_routes s))
  ++ default [] (catch_all_http_routes s).

Definition mirror_addrs (fs : list HttpFilter) : list SocketAddr :=
  omap (fun f => match f with RequestMirror a _ => Some a | _ => None end) fs.

Definition http_addrs (t : RouteTable) : list SocketAddr :=
  concat (map (fun r => map socket_addr (backends r) ++ mirror_addrs (filters r))
            (concat (map scope_rules (http_scopes t)))).

Definition l4_backends (t : RouteTable) : list Backend :=
  concat (map_values (tcp_routes t)) ++ concat (map_values (udp_routes t))
  ++ concat (concat (map tls_scope_backends (concat (map_values (tls_scopes t))))).

Definition dns_addrs (t : RouteTable) : list SocketAddr :=
  http_addrs t ++ map socket_addr (l4_backends t).

Definition wrapping_add64 (a b : Z) : Z := as_u64 (a + b).

Definition dns_signature `{AH : AddrHash} (t : RouteTable) : Z :=
  fold_left (fun acc h => wrapping_add64 acc h) (map backend_addr_hash (dns_addrs t)) 0.

(** ** Backends *)

Fixpoint dedup (seen : list SocketAddr) (l : list SocketAddr) : list SocketAddr :=
  match l with
  | [] => []
  | a :: t => if bool_decide (a ∈ seen) then dedup seen t else a :: dedup (a :: seen) t
  end.

Inductive ResolveError := ResolveFailed | NoAddresses.

Definition resolve_socket_addrs `{RS : Resolver} (address : list Z) (port : Z)
  : result (list SocketAddr) ResolveError :=
  match parse_ip_addr address with
  | Some (V4 ip) => Ok [SocketV4 ip port]
  | Some (V6 ip) => Ok [SocketV6 ip port 0 0]
  | None =>
      match to_socket_addrs address port with
      | None => Err ResolveFailed
      | Some addrs => match dedup [] addrs with [] => Err NoAddresses | l => Ok l end
      end
  end.

Definition forward_backend (address : list Z) (w : Z) (a : SocketAddr) : Backend :=
  {| socket_addr := a; weight := w; backend_filters := []; use_tls := false;
     server_name := address; action := Forward |}.

Definition with_weight `{RS : Resolver} (address : list Z) (port w : Z) : result Backend ResolveError :=
  match resolve_socket_addrs address port with
  | Err e => Err e
  | Ok addrs => Ok (forward_backend address w (nth 0 addrs unspecified))
  end.

Definition Backend_new `{RS : Resolver} (address : list Z) (port : Z) : result Backend ResolveError :=
  with_weight address port 1.

Definition rejecting (w : Z) : Backend :=
  {| socket_addr := unspecified; weight := w; backend_filters := []; use_tls := false;
     server_name := []; action := Reject |}.

Definition all_with_weight `{RS : Resolver} (address : list Z) (port w : Z)
  : result (list Backend) ResolveError :=
  match resolve_socket_addrs address port with
  | Err e => Err e
  | Ok addrs => Ok (map (forward_backend address w) addrs)
  end.

End Build.

(** ** The sort is stable *)

Section SortFacts.
Context {RE : RegexEngine}.
Implicit Types (r x : HttpRouteRule) (l : list HttpRouteRule).

Lemma insert_rule_perm r l : insert_rule r l ≡ₚ r :: l.
Proof.
  induction l as [|x t IH]; simpl; [done|]. destruct (match_precedence x r); [| |done].
  all: rewrite IH; apply Permutation_swap.
Qed.

Lemma not_gt_flip r x : match_precedence x r = Gt -> at_least r x.
Proof.
  unfold at_least. rewrite !match_precedence_lex, (lex_antisym (precedence_key r)).
  by destruct (lex (precedence_key r) (precedence_key x)).
Qed.

Lemma insert_rule_sorted r l : rules_sorted l -> rules_sorted (insert_rule r l).
Proof.
  induction 1 as [|x t Hs IH Hx]; simpl; [by repeat constructor|].
  destruct (match_precedence x r) eqn:E.
  1,2: constructor; [done|]; rewrite insert_rule_perm; constructor; [unfold at_least; congruence|done].
  constructor; [by constructor|]. apply not_gt_flip in E. constructor; [done|].
  eapply Forall_impl; [exact Hx|]. intros y Hy. by eapply at_least_trans.
Qed.

Lemma fold_insert_sorted l acc : rules_sorted acc ->
  rules_sorted (fold_left (fun acc r => insert_rule r acc) l acc).
Proof. revert acc. induction l as [|r l IH]; intros acc H; simpl; auto using insert_rule_sorted. Qed.

Lemma fold_insert_perm l acc : fold_left (fun acc r => insert_rule r acc) l acc ≡ₚ acc ++ l.
Proof.
  revert acc. induction l as [|r l IH]; intros acc; simpl; [by rewrite app_nil_r|].
  rewrite IH, insert_rule_perm. simpl. by rewrite Permutation_middle.
Qed.

Lemma sort_rules_sorted l : rules_sorted (sort_rules l).
Proof. apply fold_insert_sorted. constructor. Qed.

Lemma sort_rules_perm l : sort_rules l ≡ₚ l.
Proof. apply fold_insert_perm. Qed.

(** Rules of one precedence. *)
Definition tied (k : list Z) (r : HttpRouteRule) : Prop := precedence_key r = k.
#[local] Instance tied_dec k r : Decision (tied k r).
Proof. unfold tied. apply _. Defined.

Lemma insert_rule_tied k r l : rules_sorted l ->
  filter (tied k) (insert_rule r l) = filter (tied k) (l ++ [r]).
Proof.
  induction 1 as [|x t Hs IH Hx]; simpl; [done|].
  destruct (match_precedence x r) eqn:E.
  1,2: rewrite !filter_cons; case_decide; by rewrite IH.
  rewrite (filter_cons _ r). case_decide as Hk.
  - assert (Hno : filter (tied k) (x :: t) = []).
    { assert (Hall : Forall (fun y => ~ tied k y) (x :: t)).
      { assert (Hgt : forall y, at_least x y -> ~ tied k y).
        { intros y Hy Ht. apply Hy. rewrite match_precedence_lex, Ht, <- Hk, <- match_precedence_lex. done. }
        constructor; [apply Hgt; unfold at_least; by rewrite match_precedence_lex, lex_refl|].
        eapply Forall_impl; [exact Hx|done]. }
      clear -Hall. induction Hall as [|y u Hy _ IHu]; [done|]. rewrite filter_cons. case_decide; [done|apply IHu]. }
    rewrite Hno. change (x :: t ++ [r]) with ((x :: t) ++ [r]). rewrite filter_app, Hno. simpl.
    rewrite filter_cons. by case_decide.
  - change (x :: t ++ [r]) with ((x :: t) ++ [r]). rewrite filter_app, (filter_cons _ r [] ).
    case_decide; [done|]. by rewrite app_nil_r.
Qed.

Lemma sort_rules_tied k l : filter (tied k) (sort_rules l) = filter (tied k) l.
Proof.
  unfold sort_rules. change (filter (tied k) l) with (filter (tied k) [] ++ filter (tied k) l).
  assert (H0 : rules_sorted []) by constructor. revert H0. generalize (@nil HttpRouteRule) as acc.
  induction l as [|r l IH]; intros acc Hacc; simpl; [by rewrite app_nil_r|].
  rewrite IH by (by apply insert_rule_sorted). rewrite insert_rule_tied, filter_app by done.
  rewrite <- app_assoc. f_equal. rewrite !filter_cons. by case_decide.
Qed.

(** ** Scopes *)

Lemma alter_entry_hostname f e s : listener_hostname (alter_entry f e s) = listener_hostname s.
Proof. by destruct e. Qed.

Lemma alter_entry_sorted f e s :
  scope_sorted s -> (forall o, rules_sorted (f o)) -> scope_sorted (alter_entry f e s).
Proof.
  intros (Hx & Hw & Hc) Hf. destruct e; split_and!; cbn; try done.
  - intros l [= <-]. apply Hf.
  - by apply map_Forall_insert_2.
  - by apply map_Forall_insert_2.
Qed.

(** Sorting the entry just pushed to is all a sorted scope needs. *)
Lemma alter_entry_twice f g e s :
  alter_entry g e (alter_entry f e s) = alter_entry (fun o => g (Some (f o))) e s.
Proof. destruct e; unfold alter_entry; cbn; rewrite ?lookup_insert_eq, ?insert_insert_eq; done. Qed.

Lemma add_route_sorted s host r : scope_sorted s ->
  scope_sorted (let '(s', e) := push_route s host r in sort_entry e s').
Proof.
  intros Hs. unfold push_route, sort_entry. rewrite alter_entry_twice.
  apply alter_entry_sorted; [done|]. intros o. apply sort_rules_sorted.
Qed.

Lemma sort_scope_sorted s : scope_sorted (sort_scope s).
Proof.
  split_and!; cbn.
  - intros k l (l' & <- & _)%lookup_fmap_Some. apply sort_rules_sorted.
  - intros k l (l' & <- & _)%lookup_fmap_Some. apply sort_rules_sorted.
  - intros l. destruct (catch_all_http_routes s); simpl; [|done]. intros [= <-]. apply sort_rules_sorted.
Qed.

Lemma ListenerScope_new_sorted port h : scope_sorted (ListenerScope_new port h).
Proof. split_and!; cbn; [apply map_Forall_empty..|done]. Qed.

(** ** Scope lists *)

Definition hostnames_ok (ss : list ListenerScope) : Prop := NoDup (map listener_hostname ss).

Lemma update_scope_hostnames port h f ss :
  (forall s, listener_hostname (f s) = listener_hostname s) -> lowercase <$> h = h ->
  map listener_hostname (update_scope port h f ss) =
  if bool_decide (h ∈ map listener_hostname ss) then map listener_hostname ss
  else map listener_hostname ss ++ [h].
Proof.
  intros Hf Hh. induction ss as [|s ss IH]; simpl; [by rewrite Hf; cbn; rewrite Hh|].
  destruct (bool_decide_reflect (listener_hostname s = h)) as [E|E]; simpl.
  - rewrite Hf. rewrite bool_decide_eq_true_2 by set_solver. done.
  - rewrite IH. do 2 case_bool_decide; try done; set_solver.
Qed.

Lemma update_scope_nodup port h f ss :
  (forall s, listener_hostname (f s) = listener_hostname s) -> lowercase <$> h = h ->
  hostnames_ok ss -> hostnames_ok (update_scope port h f ss).
Proof.
  unfold hostnames_ok. intros Hf Hh Hnd. rewrite update_scope_hostnames by done.
  case_bool_decide; [done|]. apply NoDup_app. split_and!; [done|set_solver|apply NoDup_singleton].
Qed.

Lemma update_scope_Forall (P : ListenerScope -> Prop) port h f ss :
  (forall s, P s -> P (f s)) -> P (ListenerScope_new port h) -> Forall P ss -> Forall P (update_scope port h f ss).
Proof.
  intros Hf Hn. induction 1 as [|s ss Hs Hss IH]; simpl; [constructor; [auto|constructor]|].
  case_bool_decide; constructor; auto.
Qed.

Lemma lowercase_opt_idem (h : option (list Z)) : lowercase <$> (lowercase <$> h) = lowercase <$> h.
Proof. destruct h; simpl; [by rewrite lowercase_idem|done]. Qed.

Lemma update_scope_ok port h f ss :
  (forall s, listener_hostname (f s) = listener_hostname s) -> (forall s, scope_sorted s -> scope_sorted (f s)) ->
  scopes_ok ss -> scopes_ok (update_scope port (lowercase <$> h) f ss).
Proof.
  intros Hh Hs [Hnd Hso]. split.
  - apply update_scope_nodup; [done|apply lowercase_opt_idem|done].
  - apply update_scope_Forall; [done|apply ListenerScope_new_sorted|done].
Qed.

(** ** Tables *)

(** What holds between pushes and the final sort. *)
Definition table_hostnames_ok (t : RouteTable) : Prop :=
  map_Forall (fun _ p => hostnames_ok (scopes p)) (listener_scopes t) /\ hostnames_ok (shared_scopes t).

Lemma RouteTable_new_ok : table_ok RouteTable_new.
Proof. split; [apply map_Forall_empty|apply scopes_ok_nil]. Qed.

Lemma scope_mut_ok t port h f :
  (forall s, listener_hostname (f s) = listener_hostname s) -> (forall s, scope_sorted s -> scope_sorted (f s)) ->
  table_ok t -> table_ok (scope_mut t port h f).
Proof.
  intros Hh Hs [Hl Hsh]. unfold scope_mut. destruct (port =? 0); split; cbn; try done.
  - by apply update_scope_ok.
  - apply map_Forall_insert_2; [|done]. cbn. apply update_scope_ok; [done..|].
    destruct (listener_scopes t !! port) eqn:E; simpl; [by eapply Hl|apply scopes_ok_nil].
Qed.

Lemma scope_mut_hostnames_ok t port h f :
  (forall s, listener_hostname (f s) = listener_hostname s) ->
  table_hostnames_ok t -> table_hostnames_ok (scope_mut t port h f).
Proof.
  intros Hh [Hl Hsh]. unfold scope_mut. destruct (port =? 0); split; cbn; try done.
  - apply update_scope_nodup; [done|apply lowercase_opt_idem|done].
  - apply map_Forall_insert_2; [|done]. cbn. apply update_scope_nodup; [done|apply lowercase_opt_idem|].
    destruct (listener_scopes t !! port) eqn:E; simpl; [by eapply Hl|apply NoDup_nil_2].
Qed.

Lemma sort_scopes_ok ss : hostnames_ok ss -> scopes_ok (map sort_scope ss).
Proof.
  intros H. split; [unfold hostnames_ok in H; rewrite map_map; done|].
  apply Forall_map, Forall_true. apply sort_scope_sorted.
Qed.

Lemma sort_http_routes_ok t : table_hostnames_ok t -> table_ok (sort_http_routes t).
Proof.
  intros [Hl Hs]. split; cbn; [|by apply sort_scopes_ok].
  intros k p (p' & <- & E)%lookup_fmap_Some. cbn. apply sort_scopes_ok. by eapply Hl.
Qed.

Lemma share_any_port_scopes_on_ok t ports : table_ok t -> table_ok (share_any_port_scopes_on t ports).
Proof.
  intros [Hl Hs]. split; cbn; [|done]. revert Hl. generalize (listener_scopes t) as m.
  induction ports as [|p ports IH]; intros m Hm; simpl; [done|]. apply IH.
  apply map_Forall_insert_2; [|done]. cbn.
  destruct (m !! p) eqn:E; simpl; [by eapply Hm|apply scopes_ok_nil].
Qed.

End SortFacts.

(** ** What a build produces *)

Section BuildFacts.
Context {RE : RegexEngine}.

(** One operation of a table build. *)
Inductive build_op :=
  | OpPush (port : Z) (listener : option (list Z)) (host : list Z) (rule : HttpRouteRule)
  | OpAdd (port : Z) (listener : option (list Z)) (host : list Z) (rule : HttpRouteRule)
  | OpTcp (port : Z) (bks : list Backend)
  | OpUdp (port : Z) (bks : list Backend)
  | OpTls (port : Z) (listener : option (list Z)) (host : list Z) (bks : list Backend)
  | OpShare (ports : list Z).

Definition build_step (t : RouteTable) (op : build_op) : RouteTable :=
  match op with
  | OpPush port l h r => push_http_route_for_listener t port l h r
  | OpAdd port l h r => add_http_route_for_listener t port l h r
  | OpTcp port b => (add_tcp_route t port b).1
  | OpUdp port b => (add_udp_route t port b).1
  | OpTls port l h b => (add_tls_route_for_listener t port l h b).1
  | OpShare ports => share_any_port_scopes_on t ports
  end.

Definition is_push (op : build_op) : bool := match op with OpPush _ _ _ _ => true | _ => false end.

Lemma push_route_hostname s h r : listener_hostname (push_route s h r).1 = listener_hostname s.
Proof. apply alter_entry_hostname. Qed.

Lemma add_route_hostname s h r :
  listener_hostname (let '(s', e) := push_route s h r in sort_entry e s') = listener_hostname s.
Proof. unfold push_route, sort_entry. by rewrite !alter_entry_hostname. Qed.

Lemma share_hostnames_ok t ports :
  table_hostnames_ok t -> table_hostnames_ok (share_any_port_scopes_on t ports).
Proof.
  intros [Hl Hs]. split; cbn; [|done]. revert Hl. generalize (listener_scopes t) as m.
  induction ports as [|p ports IH]; intros m Hm; simpl; [done|]. apply IH.
  apply map_Forall_insert_2; [|done]. cbn.
  destruct (m !! p) eqn:E; simpl; [by eapply Hm|apply NoDup_nil_2].
Qed.

Lemma build_step_hostnames_ok t op : table_hostnames_ok t -> table_hostnames_ok (build_step t op).
Proof.
  intros H. destruct op; cbn [build_step].
  - apply scope_mut_hostnames_ok; [intros; apply push_route_hostname|done].
  - apply scope_mut_hostnames_ok; [intros; apply add_route_hostname|done].
  - unfold add_tcp_route. by destruct (insert_first _ _ _).
  - unfold add_udp_route. by destruct (insert_first _ _ _).
  - unfold add_tls_route_for_listener. by destruct (update_tls_scope _ _ _ _).
  - by apply share_hostnames_ok.
Qed.

Lemma build_step_ok t op : is_push op = false -> table_ok t -> table_ok (build_step t op).
Proof.
  intros Hp H. destruct op; cbn [build_step]; try done.
  - apply scope_mut_ok; [intros; apply add_route_hostname|intros; by apply add_route_sorted|done].
  - unfold add_tcp_route. by destruct (insert_first _ _ _).
  - unfold add_udp_route. by destruct (insert_first _ _ _).
  - unfold add_tls_route_for_listener. by destruct (update_tls_scope _ _ _ _).
  - by apply share_any_port_scopes_on_ok.
Qed.

Lemma table_ok_hostnames t : table_ok t -> table_hostnames_ok t.
Proof. intros [H [? _]]. split; [|done]. intros k p E. by destruct (H k p E). Qed.

Lemma build_hostnames_ok t ops : table_hostnames_ok t -> table_hostnames_ok (fold_left build_step ops t).
Proof. revert t. induction ops as [|op ops IH]; intros t H; simpl; auto using build_step_hostnames_ok. Qed.

Lemma build_ok t ops : Forall (fun op => is_push op = false) ops ->
  table_ok t -> table_ok (fold_left build_step ops t).
Proof. intros Hp. revert t. induction Hp as [|op ops Hop _ IH]; intros t H; simpl; auto using build_step_ok. Qed.

(** ** An added rule is a candidate *)

Definition entry_rank (e : EntryRef) (host : list Z) : option Z :=
  match e with
  | ECatchAll => Some 0
  | EWildcard parent => if wildcard_covers parent host then Some (1 + Z.of_nat (length parent)) else None
  | EExact h => if beq h host then Some U32_MAX else None
  end.

Lemma add_route_candidate m pa hd q s host route_host r k :
  rule_matches r m pa hd q = true -> entry_rank (entry_of (lowercase route_host)) host = Some k ->
  candidate m pa hd q (let '(s', e) := push_route s route_host r in sort_entry e s') host
    (k, with_metadata r (lowercase route_host)).
Proof.
  intros Hm Hk. unfold push_route, sort_entry. rewrite alter_entry_twice. split; [exact Hm|].
  assert (Hin : forall o, with_metadata r (lowercase route_host) ∈
    sort_rules (default [] o ++ [with_metadata r (lowercase route_host)])).
  { intros o. rewrite sort_rules_perm. set_solver. }
  destruct (entry_of (lowercase route_host)) as [|parent|h]; cbn in Hk |- *.
  - right. right. injection Hk as <-. eexists. split; [done|]. split; [apply Hin|done].
  - destruct (wildcard_covers parent host) eqn:E; [|done]. injection Hk as <-.
    right. left. exists parent. rewrite lookup_insert_eq. eexists. split; [done|]. split; [done|].
    split; [apply Hin|done].
  - destruct (beq h host) eqn:E; [|done]. apply beq_spec in E as ->. injection Hk as <-.
    left. rewrite lookup_insert_eq. eexists. split; [done|]. split; [apply Hin|done].
Qed.

Lemma update_scope_elem port h f ss :
  exists s0, f s0 ∈ update_scope port h f ss
  /\ (listener_hostname s0 = h \/ s0 = ListenerScope_new port h).
Proof.
  induction ss as [|s ss IH]; simpl; [eexists; split; [by left|by right]|].
  case_bool_decide as E; [exists s; split; [by left|by left]|].
  destruct IH as (s0 & Hin & H). exists s0. split; [by right|done].
Qed.

Lemma add_route_searched t port lh route_host r : port <> 0 ->
  exists s0, (let '(s', e) := push_route s0 route_host r in sort_entry e s')
      ∈ searched (add_http_route_for_listener t port lh route_host r) port
  /\ listener_hostname s0 = lowercase <$> lh.
Proof.
  intros Hp. unfold searched, add_http_route_for_listener, scope_mut.
  destruct (Z.eqb_spec port 0); [done|]. cbn [listener_scopes set_listener_scopes].
  rewrite lookup_insert_eq. cbn [scopes].
  set (f := fun s => let '(s', e) := push_route s route_host r in sort_entry e s').
  set (ss := scopes (default default_port (listener_scopes t !! port))).
  destruct (update_scope_elem port (lowercase <$> lh) f ss) as (s0 & Hin & Hs0).
  exists s0. split; [apply elem_of_app; left; exact Hin|].
  destruct Hs0 as [?| ->]; [done|]. cbn. apply lowercase_opt_idem.
Qed.

End BuildFacts.

(** ** Properties *)

(** [sort_rules] is a stable sort by match precedence: a permutation of
    the entry, most specific rule first, rules of equal precedence in the
    order they were pushed (route order decides their tie). *)
Theorem sort_rules_stable {RE : RegexEngine} (l : list HttpRouteRule) :
  sort_rules l ≡ₚ l
  /\ StronglySorted (fun a b => match_precedence a b <> Gt) (sort_rules l)
  /\ forall k, filter (fun r => precedence_key r = k) (sort_rules l) = filter (fun r => precedence_key r = k) l.
Proof.
  split_and!; [apply sort_rules_perm|apply sort_rules_sorted|]. intros k. exact (sort_rules_tied k l).
Qed.

(** The table invariant holds after every build: from an empty table,
    any sequence of add and share operations keeps one scope per listener
    hostname and every host entry sorted; with batched pushes the final
    [sort_http_routes] establishes it. *)
Theorem build_keeps_table_ok {RE : RegexEngine} (ops : list build_op) :
  table_ok (sort_http_routes (fold_left build_step ops RouteTable_new))
  /\ (forallb (fun op => negb (is_push op)) ops = true -> table_ok (fold_left build_step ops RouteTable_new)).
Proof.
  split.
  - apply sort_http_routes_ok, build_hostnames_ok, table_ok_hostnames, RouteTable_new_ok.
  - intros H. apply build_ok; [|apply RouteTable_new_ok]. apply forallb_Forall in H.
    eapply Forall_impl; [exact H|]. intros op. apply negb_true_iff.
Qed.

(** A regex engine for the witnesses: a pattern matches itself. *)
#[local] Instance literal_regex : RegexEngine := {| Regex := list Z; re_is_match := beq |}.

Lemma build_keeps_table_ok_witness :
  forallb (fun op => negb (is_push op)) [OpAdd 80 (Some (bs "A.test")) (bs "a.test")
    (HttpRouteRule_new 1 Prefix (bs "/") [] [] [] [])] = true
  /\ table_ok (fold_left build_step [OpAdd 80 (Some (bs "A.test")) (bs "a.test")
    (HttpRouteRule_new 1 Prefix (bs "/") [] [] [] [])] RouteTable_new).
Proof.
  split; [reflexivity|].
  exact (proj2 (build_keeps_table_ok [OpAdd 80 (Some (bs "A.test")) (bs "a.test")
    (HttpRouteRule_new 1 Prefix (bs "/") [] [] [] [])]) eq_refl).
Defined.



(** A rule added for a listener serves the requests it matches: when
    the listener's hostname is the best match for the host on the port, the
    lookup finds a rule, and that rule is the added one or one at least as
    specific. *)
Theorem add_route_served {RE : RegexEngine} (t : RouteTable) (port : Z) (listener : option (list Z))
  (route_host : list Z) (r : HttpRouteRule) (host method path header_data query_string : list Z) (k p : Z)
  (Hok : table_ok t) (Hport : port <> 0) (Hlen : Z.of_nat (length host) < U32_MAX)
  (Hmatch : rule_matches r method path header_data query_string = true)
  (Hroute : entry_rank (entry_of (lowercase route_host)) (host_key host) = Some k)
  (Hlistener : hostname_match_priority (ListenerScope_new port listener) (host_key host) = Some p)
  (Hbest : forall s q, s ∈ searched (add_http_route_for_listener t port listener route_host r) port ->
     hostname_match_priority s (host_key host) = Some q -> q <= p) :
  exists k' r',
    find_http_route (add_http_route_for_listener t port listener route_host r)
      host method path header_data query_string port = Some r'
    /\ then_with (k ?= k') (match_precedence r' (with_metadata r (lowercase route_host))) <> Gt.
Proof.
  set (t' := add_http_route_for_listener t port listener route_host r) in *.
  assert (Hok' : table_ok t') by (apply (build_step_ok t (OpAdd port listener route_host r)); done).
  destruct (add_route_searched t port listener route_host r Hport) as (s0 & Hin & Hh).
  set (s' := let '(s', e) := push_route s0 route_host r in sort_entry e s') in *.
  assert (Hp : hostname_match_priority s' (host_key host) = Some p).
  { unfold hostname_match_priority in *. unfold s'. rewrite add_route_hostname, Hh. exact Hlistener. }
  assert (Hc : candidate method path header_data query_string s' (host_key host)
    (k, with_metadata r (lowercase route_host))) by (by apply add_route_candidate).
  pose proof (find_http_route_best t' host method path header_data query_string port Hok' Hlen) as Hf.
  pose proof (highest_priority_spec (searched t' port) (host_key host)) as Hhi.
  destruct (highest_priority (searched t' port) (host_key host)) as [p'|].
  2: { specialize (Hhi s' Hin). congruence. }
  destruct Hhi as [(s1 & Hin1 & Hs1) Hle]. assert (p' = p) as ->.
  { pose proof (Hle s' p Hin Hp). pose proof (Hbest s1 p' Hin1 Hs1). lia. }
  assert (Hat : at_priority method path header_data query_string (searched t' port) (host_key host) p
    (k, with_metadata r (lowercase route_host))) by (by exists s').
  destruct Hf as ([[k' r']|] & -> & Hb); [|by destruct (Hb _ Hat)].
  exists k', r'. split; [done|]. destruct Hb as [_ Hb]. specialize (Hb _ Hat).
  by rewrite candidate_cmp_unfold in Hb.
Qed.

Lemma add_route_served_witness :
  let r := HttpRouteRule_new 1 Exact (bs "/x") [] [] [] [] in
  exists k' r',
    find_http_route (add_http_route_for_listener RouteTable_new 443 None (bs "*.Example.com") r)
      (bs "a.example.com") (bs "GET") (bs "/x") [] [] 443 = Some r'
    /\ then_with (12 ?= k') (match_precedence r' (with_metadata r (bs "*.example.com"))) <> Gt.
Proof.
  intros r.
  apply (add_route_served RouteTable_new 443 None (bs "*.Example.com") r (bs "a.example.com") (bs "GET")
    (bs "/x") [] [] 12 0).
  - exact RouteTable_new_ok.
  - lia.
  - vm_compute; reflexivity.
  - vm_compute; reflexivity.
  - vm_compute; reflexivity.
  - vm_compute; reflexivity.
  - intros s q Hs. change (searched _ 443) with
      [let '(s', e) := push_route (ListenerScope_new 443 None) (bs "*.Example.com") r in sort_entry e s'] in Hs.
    apply list_elem_of_singleton in Hs. subst s. intros E. vm_compute in E. injection E as <-. lia.
Defined.

(** Hostname patterns intersect, as the table build decides which
    listeners a route attaches to, exactly when some concrete host is matched
    by both. *)
Theorem hostnames_intersect_exact (a b : list Z) :
  hostnames_intersect a b = true <-> exists host, host_pattern a host /\ host_pattern b host.
Proof.
  unfold hostnames_intersect, host_pattern.
  destruct (strip_prefix WILD a) as [pa|] eqn:Ea, (strip_prefix WILD b) as [pb|] eqn:Eb.
  - apply strip_prefix_Some in Ea as ->, Eb as ->.
    rewrite !orb_true_iff, beq_spec, !covers_wildcard_pattern. split.
    + assert (Hsub : forall p q, wildcard_covers p q = true ->
        exists host, wildcard_covers p host = true /\ wildcard_covers q host = true).
      { intros p q [l ->]%wildcard_covers_spec. exists ([42; 46] ++ l ++ 46 :: p).
        rewrite !wildcard_covers_spec. split; [by exists ([42; 46] ++ l); rewrite <- app_assoc|by exists [42]]. }
      assert (Heq : forall p, exists host, wildcard_covers p host = true /\ wildcard_covers p host = true).
      { intros p. exists ([42] ++ 46 :: p). rewrite wildcard_covers_spec. split; by exists [42]. }
      intros [[->|[->|H]]|[->|H]]; eauto. destruct (Hsub _ _ H) as (h & ? & ?). eauto.
    + intros (host & [l ->]%wildcard_covers_spec & [k E]%wildcard_covers_spec).
      apply app_eq_inv in E as [(z & -> & E)|(z & -> & E)].
      * destruct z as [|x z]; simplify_eq/=; [by auto|]. left. right. right. apply wildcard_covers_spec. by exists z.
      * destruct z as [|x z]; simplify_eq/=; [by auto|]. right. right. apply wildcard_covers_spec. by exists z.
  - split; [by eauto|]. intros (h & H & ->). done.
  - split; [by eauto|]. intros (h & -> & H). done.
  - rewrite beq_spec. naive_solver.
Qed.

(** The wildcard walk visits exactly the parents whose wildcard covers
    the host, longest first. *)
Theorem parent_domains_exact (host : list Z) :
  (forall p, p ∈ parent_domains host <-> exists label, host = label ++ 46 :: p)
  /\ StronglySorted (fun a b => (length b < length a)%nat) (parent_domains host).
Proof.
  split; [|apply parent_domains_sorted]. intros p. by rewrite parent_domains_spec, wildcard_covers_spec.
Qed.

(** ** Hosts in any case *)

(** Routing ignores the case of a request's host, for every ASCII host
    of at most 256 bytes (longer than any DNS name). *)
Theorem find_http_route_ignores_case {RE : RegexEngine} (t : RouteTable)
  (host method path header_data query_string : list Z) (port : Z)
  (Hlen : (length host <= 256)%nat) (Hascii : Forall (fun b => b < 128) host) :
  find_http_route t host method path header_data query_string port
  = find_http_route t (lowercase host) method path header_data query_string port.
Proof.
  assert (Hlow : Forall (fun b => b < 128) (lowercase host)).
  { apply Forall_map. eapply Forall_impl; [exact Hascii|]. intros b Hb. unfold to_ascii_lowercase.
    destruct (is_ascii_uppercase b) eqn:E; [|done]. unfold is_ascii_uppercase in E. bool_simpl. lia. }
  assert (Hk : host_key host = host_key (lowercase host)).
  { rewrite (host_key_lowercase host) by auto using utf8_valid_ascii.
    rewrite host_key_lowercase; rewrite ?length_lowercase, ?lowercase_idem; auto using utf8_valid_ascii. }
  unfold find_http_route. by rewrite Hk.
Qed.

Lemma find_http_route_ignores_case_witness :
  let t := add_http_route RouteTable_new (bs "a.test") (HttpRouteRule_new 1 Exact (bs "/") [] [] [] []) in
  find_http_route t (bs "A.Test") (bs "GET") (bs "/") [] [] 80
  = find_http_route t (bs "a.test") (bs "GET") (bs "/") [] [] 80.
Proof.
  intros t. apply (find_http_route_ignores_case t (bs "A.Test") (bs "GET") (bs "/") [] [] 80).
  - vm_compute. lia.
  - vm_compute bs. repeat (apply Forall_cons; split; [lia|]). apply Forall_nil. exact I.
Defined.

(** Past 256 bytes case does matter: a mixed-case host is cut to its first 256
    bytes and can match a route whose hostname is that prefix, while the same
    host in lowercase matches no route. *)
Theorem long_mixed_case_host_is_truncated :
  let t := add_http_route RouteTable_new (replicate 256 97) (HttpRouteRule_new 1 Exact (bs "/") [] [] [] []) in
  let host := 65 :: replicate 256 97 in
  is_some (find_http_route t host (bs "GET") (bs "/") [] [] 80) = true
  /\ find_http_route t (lowercase host) (bs "GET") (bs "/") [] [] 80 = None.
Proof. split; vm_compute; reflexivity. Qed.

(** ** The DNS signature ignores order *)

Lemma wrapping_fold l acc :
  fold_left (fun acc h => wrapping_add64 acc h) l acc mod 2 ^ 64 = (acc + fold_right Z.add 0 l) mod 2 ^ 64.
Proof.
  revert acc. induction l as [|h l IH]; intros acc; simpl fold_left; simpl fold_right; [f_equal; lia|].
  rewrite IH. unfold wrapping_add64, as_u64, wrap. rewrite Z.add_mod_idemp_l by lia. f_equal. lia.
Qed.

Lemma wrapping_fold_range l acc : u64 acc -> u64 (fold_left (fun acc h => wrapping_add64 acc h) l acc).
Proof.
  revert acc. induction l as [|h l IH]; intros acc H; simpl; [done|]. apply IH.
  unfold wrapping_add64, as_u64, u64. apply (wrap_bound 64). lia.
Qed.

Lemma sum_perm (l k : list Z) : l ≡ₚ k -> fold_right Z.add 0 l = fold_right Z.add 0 k.
Proof. induction 1; simpl; lia. Qed.

Lemma dns_signature_sum {RE : RegexEngine} {AH : AddrHash} t :
  dns_signature t = as_u64 (fold_right Z.add 0 (map backend_addr_hash (dns_addrs t))).
Proof.
  unfold dns_signature. rewrite <- (as_u64_small (fold_left _ _ _)).
  - apply wrapping_fold.
  - apply wrapping_fold_range. red. lia.
Qed.

(** Two tables that route to the same addresses, counted with
    repetition, have one DNS signature, in whatever order the resolver
    returned them and the maps hold them: a reordering never swaps the
    table. *)
Theorem dns_signature_order_free {RE : RegexEngine} {AH : AddrHash} (t1 t2 : RouteTable)
  (Hperm : dns_addrs t1 ≡ₚ dns_addrs t2) : dns_signature t1 = dns_signature t2.
Proof. rewrite !dns_signature_sum. f_equal. apply sum_perm. by apply Permutation_map. Qed.

(** An address hash for the witness. *)
Definition port_hash (a : SocketAddr) : Z :=
  match a with SocketV4 _ p => as_u64 p | SocketV6 _ p _ _ => as_u64 p end.

Lemma port_hash_range a : u64 (port_hash a).
Proof. destruct a; apply (wrap_bound 64); lia. Qed.

Lemma dns_signature_order_free_witness :
  let AH := {| backend_addr_hash := port_hash; backend_addr_hash_range := port_hash_range |} in
  let b1 := forward_backend [] 1 (SocketV4 1 80) in
  let b2 := forward_backend [] 1 (SocketV4 2 81) in
  dns_signature (AH := AH) (add_tcp_route RouteTable_new 9 [b1; b2]).1
  = dns_signature (AH := AH) (add_udp_route RouteTable_new 9 [b2; b1]).1.
Proof.
  intros AH b1 b2. apply (dns_signature_order_free (AH := AH)).
  vm_compute. apply perm_swap.
Defined.
