(* ===== verification/Health.v ===== *)
(** * Backend health and recovery probes

    [src/src/proxy/health.rs]. The registry's operations as state
    transformers; the probe tasks as a step relation over the registry, the
    tasks and the spawns still owed; and the [tracked] flag as a step
    relation over interleaved [record_failure] and [prune] calls. *)

From S2P Require Import Prelude Bytes Net HttpGrammar Routing RouteBuild.

Inductive Status := STATUS_HEALTHY | STATUS_UNHEALTHY | STATUS_PROBING.

#[export] Instance Status_eq_dec : EqDecision Status.
Proof. solve_decision. Defined.

Definition FAILURE_THRESHOLD : Z := 3.
(** Milliseconds. *)
Definition PROBE_INITIAL_INTERVAL : Z := 10000.
Definition PROBE_MAX_INTERVAL : Z := 300000.
Definition DURATION_MAX : Z := 18446744073709551615999.

(** [current.saturating_mul(2).min(PROBE_MAX_INTERVAL)] *)
Definition next_probe_interval (current : Z) : Z := Z.min (Z.min (current * 2) DURATION_MAX) PROBE_MAX_INTERVAL.

(** [probe] names the task whose abort handle the entry holds. *)
Record BackendHealth := {
  consecutive_failures : Z;
  status : Status;
  probe : option nat;
}.

Definition healthy : BackendHealth :=
  {| consecutive_failures := 0; status := STATUS_HEALTHY; probe := None |}.

Record HealthRegistry := {
  health_backends : gmap SocketAddr BackendHealth;
  tracked : bool;
}.

Definition HealthRegistry_new : HealthRegistry := {| health_backends := ∅; tracked := false |}.

Definition is_healthy (h : HealthRegistry) (addr : SocketAddr) : bool :=
  if negb (tracked h) then true
  else match health_backends h !! addr with
       | None => true
       | Some e => bool_decide (status e = STATUS_HEALTHY)
       end.

Definition record_success (h : HealthRegistry) (addr : SocketAddr) : HealthRegistry :=
  if negb (tracked h) then h
  else match health_backends h !! addr with
       | None => h
       | Some e =>
           let was_unhealthy := negb (bool_decide (status e = STATUS_HEALTHY)) in
           if was_unhealthy || (0 <? consecutive_failures e) then
             {| health_backends := <[addr := {| consecutive_failures := 0; status := STATUS_HEALTHY;
                                                probe := probe e |}]> (health_backends h);
                tracked := tracked h |}
           else h
       end.

Definition compare_exchange (s expected desired : Status) : Status * bool :=
  if bool_decide (s = expected) then (desired, true) else (s, false).

(** Whether the caller should spawn a probe, and the new registry. The entry
    is locked throughout. *)
Definition record_failure (h : HealthRegistry) (addr : SocketAddr) : HealthRegistry * bool :=
  let e := default healthy (health_backends h !! addr) in
  let new_count := as_u32 (consecutive_failures e + 1) in
  let '(st, spawn) :=
    if FAILURE_THRESHOLD <=? new_count then
      let '(st1, _) := compare_exchange (status e) STATUS_HEALTHY STATUS_UNHEALTHY in
      compare_exchange st1 STATUS_UNHEALTHY STATUS_PROBING
    else (status e, false) in
  ({| health_backends := <[addr := {| consecutive_failures := new_count; status := st;
                                      probe := probe e |}]> (health_backends h);
      tracked := true |}, spawn).

Section Routed.
Context {RE : RegexEngine}.

(** [routed_addrs] *)
Definition routed_addrs (t : RouteTable) : gset SocketAddr :=
  list_to_set (map socket_addr (concat (map backends (concat (map scope_rules (http_scopes t))))))
  ∪ list_to_set (map socket_addr (l4_backends t)).

(** [prune] run alone: the second emptiness check finds what the first did. *)
Definition prune (h : HealthRegistry) (t : RouteTable) : HealthRegistry :=
  if negb (tracked h) then h
  else
    let kept := filter (fun kv => kv.1 ∈ routed_addrs t) (health_backends h) in
    {| health_backends := kept; tracked := negb (bool_decide (kept = ∅)) |}.

End Routed.

(** ** Probe tasks *)

Inductive ProbeState :=
  | Asleep
  | Connecting
  | Finished.

#[export] Instance ProbeState_eq_dec : EqDecision ProbeState.
Proof. solve_decision. Defined.

Record ProbeTask := {
  task_addr : SocketAddr;
  interval : Z;
  attempt_no : Z;
  task_state : ProbeState;
  aborted : bool;
}.

Definition with_state (p : ProbeTask) (s : ProbeState) (iv n : Z) : ProbeTask :=
  {| task_addr := task_addr p; interval := iv; attempt_no := n; task_state := s; aborted := aborted p |}.

Definition abort_task (p : ProbeTask) : ProbeTask :=
  {| task_addr := task_addr p; interval := interval p; attempt_no := attempt_no p;
     task_state := task_state p; aborted := true |}.

(** The registry, the tasks ever spawned, and the addresses whose
    [record_failure] returned true and whose [spawn_probe] is still to run. *)
Record World := {
  reg : HealthRegistry;
  tasks : gmap nat ProbeTask;
  owed : list SocketAddr;
}.

Definition set_probe (e : BackendHealth) (id : nat) : BackendHealth :=
  {| consecutive_failures := consecutive_failures e; status := status e; probe := Some id |}.

Definition abort_opt (o : option nat) (ts : gmap nat ProbeTask) : gmap nat ProbeTask :=
  match o with Some id => alter abort_task id ts | None => ts end.

(** [spawn_probe] with [id] the new task. *)
Definition spawn_probe (w : World) (addr : SocketAddr) (id : nat) : HealthRegistry * gmap nat ProbeTask :=
  let task := {| task_addr := addr; interval := PROBE_INITIAL_INTERVAL; attempt_no := 0;
                 task_state := Asleep; aborted := false |} in
  match health_backends (reg w) !! addr with
  | Some e =>
      ({| health_backends := <[addr := set_probe e id]> (health_backends (reg w)); tracked := tracked (reg w) |},
       <[id := task]> (abort_opt (probe e) (tasks w)))
  | None => (reg w, <[id := abort_task task]> (tasks w))
  end.

(** [still_probing] of [run_probe]. *)
Definition still_probing (h : HealthRegistry) (addr : SocketAddr) : bool :=
  match health_backends h !! addr with
  | Some e => bool_decide (status e = STATUS_PROBING)
  | None => false
  end.

(** The [connected] branch of [run_probe]. *)
Definition probe_connected (h : HealthRegistry) (addr : SocketAddr) : HealthRegistry :=
  match health_backends h !! addr with
  | Some e =>
      {| health_backends := <[addr := {| consecutive_failures := 0;
            status := (compare_exchange (status e) STATUS_PROBING STATUS_HEALTHY).1;
            probe := probe e |}]> (health_backends h);
         tracked := tracked h |}
  | None => h
  end.

(** Dropping entries aborts the probes they hold ([Drop for BackendHealth]). *)
Definition abort_dropped (before after : gmap SocketAddr BackendHealth) (ts : gmap nat ProbeTask)
  : gmap nat ProbeTask :=
  map_fold (fun addr e ts => match after !! addr with Some _ => ts | None => abort_opt (probe e) ts end) ts before.

Inductive probe_step {RE : RegexEngine} : World -> World -> Prop :=
  | step_failure w addr h' spawn :
      record_failure (reg w) addr = (h', spawn) ->
      probe_step w {| reg := h'; tasks := tasks w; owed := if spawn then addr :: owed w else owed w |}
  | step_success w addr :
      probe_step w {| reg := record_success (reg w) addr; tasks := tasks w; owed := owed w |}
  | step_spawn w addr id before after h' ts' :
      owed w = before ++ addr :: after -> tasks w !! id = None ->
      spawn_probe w addr id = (h', ts') ->
      probe_step w {| reg := h'; tasks := ts'; owed := before ++ after |}
  | step_wake w id p :
      tasks w !! id = Some p -> task_state p = Asleep ->
      probe_step w {| reg := reg w;
        tasks := <[id := with_state p (if still_probing (reg w) (task_addr p) then Connecting else Finished)
                          (interval p) (attempt_no p + 1)]> (tasks w);
        owed := owed w |}
  | step_connected w id p :
      tasks w !! id = Some p -> task_state p = Connecting ->
      probe_step w {| reg := probe_connected (reg w) (task_addr p);
        tasks := <[id := with_state p Finished (interval p) (attempt_no p)]> (tasks w); owed := owed w |}
  | step_refused w id p :
      tasks w !! id = Some p -> task_state p = Connecting ->
      probe_step w {| reg := reg w;
        tasks := <[id := with_state p Asleep (next_probe_interval (interval p)) (attempt_no p)]> (tasks w);
        owed := owed w |}
  | step_prune w t :
      probe_step w {| reg := prune (reg w) t;
        tasks := abort_dropped (health_backends (reg w)) (health_backends (prune (reg w) t)) (tasks w);
        owed := owed w |}.

Definition World_new : World := {| reg := HealthRegistry_new; tasks := ∅; owed := [] |}.

(** A task that still runs and was not told to stop. *)
Definition live (w : World) (id : nat) (p : ProbeTask) : Prop :=
  tasks w !! id = Some p /\ aborted p = false /\ task_state p <> Finished.

(** ** The [tracked] flag under interleaving

    [n] is how many entries the map holds. A [record_failure] inserts, then
    loads the flag, then stores it; a [prune] retains, looks whether the map
    is empty, lowers the flag, looks again and raises it. *)

Inductive flag_thread :=
  | FInserted | FLoadedFalse
  | PRetained | PSawEmpty | PLowered | PSawEntry
  | Idle.

Record flag_state := {
  entries : nat;
  flag : bool;
  threads : gmap nat flag_thread;
}.

Inductive flag_step : flag_state -> flag_state -> Prop :=
  | flag_insert n f ts t m :
      ts !! t = Some Idle -> (n <= m)%nat -> (0 < m)%nat ->
      flag_step {| entries := n; flag := f; threads := ts |}
                {| entries := m; flag := f; threads := <[t := FInserted]> ts |}
  | flag_load n f ts t :
      ts !! t = Some FInserted ->
      flag_step {| entries := n; flag := f; threads := ts |}
                {| entries := n; flag := f; threads := <[t := if f then Idle else FLoadedFalse]> ts |}
  | flag_raise n f ts t :
      ts !! t = Some FLoadedFalse ->
      flag_step {| entries := n; flag := f; threads := ts |}
                {| entries := n; flag := true; threads := <[t := Idle]> ts |}
  | flag_retain n ts t m :
      ts !! t = Some Idle -> (m <= n)%nat ->
      flag_step {| entries := n; flag := true; threads := ts |}
                {| entries := m; flag := true; threads := <[t := PRetained]> ts |}
  | flag_look n f ts t :
      ts !! t = Some PRetained ->
      flag_step {| entries := n; flag := f; threads := ts |}
                {| entries := n; flag := f; threads := <[t := if (n =? 0)%nat then PSawEmpty else Idle]> ts |}
  | flag_lower n f ts t :
      ts !! t = Some PSawEmpty ->
      flag_step {| entries := n; flag := f; threads := ts |}
                {| entries := n; flag := false; threads := <[t := PLowered]> ts |}
  | flag_look_again n f ts t :
      ts !! t = Some PLowered ->
      flag_step {| entries := n; flag := f; threads := ts |}
                {| entries := n; flag := f; threads := <[t := if (n =? 0)%nat then Idle else PSawEntry]> ts |}
  | flag_re_raise n f ts t :
      ts !! t = Some PSawEntry ->
      flag_step {| entries := n; flag := f; threads := ts |}
                {| entries := n; flag := true; threads := <[t := Idle]> ts |}.

(** A thread that will look at the flag, or raise it, before it is done. *)
Definition will_raise (th : flag_thread) : Prop :=
  match th with FInserted | FLoadedFalse | PLowered | PSawEntry => True | _ => False end.

(** ** Lemmas *)

Lemma trip_probing s :
  (let '(st1, _) := compare_exchange s STATUS_HEALTHY STATUS_UNHEALTHY in
   compare_exchange st1 STATUS_UNHEALTHY STATUS_PROBING)
  = (STATUS_PROBING, negb (bool_decide (s = STATUS_PROBING))).
Proof. by destruct s. Qed.

Lemma record_failure_lookup h addr a :
  health_backends (record_failure h addr).1 !! a =
  if decide (a = addr)
  then Some {| consecutive_failures := as_u32 (consecutive_failures (default healthy (health_backends h !! addr)) + 1);
               status := if FAILURE_THRESHOLD <=? as_u32 (consecutive_failures (default healthy (health_backends h !! addr)) + 1)
                         then STATUS_PROBING else status (default healthy (health_backends h !! addr));
               probe := probe (default healthy (health_backends h !! addr)) |}
  else health_backends h !! a.
Proof.
  unfold record_failure. set (e := default healthy _). rewrite trip_probing.
  destruct (FAILURE_THRESHOLD <=? _); cbn; destruct (decide (a = addr)) as [->|Hn];
    rewrite ?lookup_insert_eq, ?lookup_insert_ne by congruence; reflexivity.
Qed.

(** A spawn is asked for exactly when this failure moved the entry to
    [STATUS_PROBING]. *)
Lemma record_failure_spawn h addr :
  (record_failure h addr).2 =
  (FAILURE_THRESHOLD <=? as_u32 (consecutive_failures (default healthy (health_backends h !! addr)) + 1))
  && negb (bool_decide (status (default healthy (health_backends h !! addr)) = STATUS_PROBING)).
Proof.
  unfold record_failure. set (e := default healthy _). rewrite trip_probing.
  by destruct (FAILURE_THRESHOLD <=? _).
Qed.

(** The other entry operations write the whole entry at most, and never its
    probe slot, nor [STATUS_PROBING]. *)
Definition recovers (h h' : HealthRegistry) : Prop :=
  forall a, match health_backends h !! a, health_backends h' !! a with
  | Some e, Some e' => probe e' = probe e /\ (status e' = STATUS_PROBING -> e' = e)
  | None, None => True
  | _, _ => False
  end.

Lemma recovers_refl h : recovers h h.
Proof. intros a. destruct (health_backends h !! a); auto. Qed.

Lemma recovers_insert h addr e e' tr :
  health_backends h !! addr = Some e -> probe e' = probe e -> status e' <> STATUS_PROBING ->
  recovers h {| health_backends := <[addr := e']> (health_backends h); tracked := tr |}.
Proof.
  intros He Hp Hs a. cbn. destruct (decide (a = addr)) as [->|Hn].
  - rewrite He, lookup_insert_eq. split; [done|]. intros H; by rewrite H in Hs.
  - rewrite lookup_insert_ne by congruence. destruct (health_backends h !! a); auto.
Qed.

Lemma record_success_recovers h addr : recovers h (record_success h addr).
Proof.
  unfold record_success. destruct (tracked h); cbn [negb]; [|apply recovers_refl].
  destruct (health_backends h !! addr) as [e|] eqn:He; [|apply recovers_refl].
  destruct (_ || _); [|apply recovers_refl]. by apply recovers_insert with e.
Qed.

Lemma probe_connected_recovers h addr : recovers h (probe_connected h addr).
Proof.
  unfold probe_connected.
  destruct (health_backends h !! addr) as [e|] eqn:He; [|apply recovers_refl].
  apply recovers_insert with e; [done|done|].
  unfold compare_exchange. cbn. by destruct (status e).
Qed.

Lemma probe_connected_status h addr e :
  health_backends (probe_connected h addr) !! addr = Some e -> status e <> STATUS_PROBING.
Proof.
  unfold probe_connected. destruct (health_backends h !! addr) as [e0|] eqn:He; [|congruence].
  cbn. rewrite lookup_insert_eq. intros [= <-]. unfold compare_exchange. cbn. by destruct (status e0).
Qed.

Lemma abort_opt_lookup o ts id :
  abort_opt o ts !! id = if decide (o = Some id) then abort_task <$> ts !! id else ts !! id.
Proof.
  destruct o as [i|]; cbn; [|by case_decide].
  destruct (decide (Some i = Some id)) as [[= ->]|Hn]; [by rewrite lookup_alter_eq|].
  apply lookup_alter_ne. congruence.
Qed.

Lemma abort_task_idem p : abort_task (abort_task p) = abort_task p.
Proof. done. Qed.

(** [id] is the probe of an entry of [before] that [after] lacks. *)
Definition dropped (before after : gmap SocketAddr BackendHealth) (id : nat) : Prop :=
  exists addr e, before !! addr = Some e /\ after !! addr = None /\ probe e = Some id.

Lemma dropped_insert m after i e id :
  m !! i = None ->
  dropped (<[i := e]> m) after id <-> (after !! i = None /\ probe e = Some id) \/ dropped m after id.
Proof.
  intros Hi. split.
  - intros (a & e' & Ha & Haf & Hp). destruct (decide (a = i)) as [->|Hn].
    + rewrite lookup_insert_eq in Ha. injection Ha as ->. by left.
    + rewrite lookup_insert_ne in Ha by congruence. right. by exists a, e'.
  - intros [[? ?]|(a & e' & Ha & Haf & Hp)]; [exists i, e; by rewrite lookup_insert_eq|].
    exists a, e'. rewrite lookup_insert_ne by congruence. done.
Qed.

Lemma abort_dropped_lookup before after ts id :
  (abort_dropped before after ts !! id = ts !! id \/
   abort_dropped before after ts !! id = abort_task <$> ts !! id) /\
  (dropped before after id -> abort_dropped before after ts !! id = abort_task <$> ts !! id) /\
  (~ dropped before after id -> abort_dropped before after ts !! id = ts !! id).
Proof.
  unfold abort_dropped.
  apply (map_fold_weak_ind (fun r m =>
    (r !! id = ts !! id \/ r !! id = abort_task <$> ts !! id) /\
    (dropped m after id -> r !! id = abort_task <$> ts !! id) /\
    (~ dropped m after id -> r !! id = ts !! id))).
  - split; [by left|]. split; [|done]. intros (? & ? & H & _). by rewrite lookup_empty in H.
  - intros i e m r Hi (IH0 & IH1 & IH2). rewrite dropped_insert by done.
    destruct (after !! i) eqn:Haf; [naive_solver|].
    rewrite abort_opt_lookup. destruct (decide (probe e = Some id)) as [Hp|Hn]; [|naive_solver].
    assert (abort_task <$> r !! id = abort_task <$> ts !! id) as ->.
    { destruct IH0 as [->| ->]; [done|]. by destruct (ts !! id). }
    naive_solver.
Qed.

(** ** The probe invariant *)

Record probe_inv (w : World) : Prop := {
  inv_slot : forall addr e id, health_backends (reg w) !! addr = Some e -> probe e = Some id ->
    exists p, tasks w !! id = Some p /\ task_addr p = addr;
  inv_live : forall id p, live w id p ->
    exists e, health_backends (reg w) !! task_addr p = Some e /\ probe e = Some id;
  inv_probing : forall addr e, health_backends (reg w) !! addr = Some e -> status e = STATUS_PROBING ->
    addr ∈ owed w \/ exists id p, probe e = Some id /\ live w id p;
}.

Lemma probe_inv_new : probe_inv World_new.
Proof. split; [intros ??? H| intros ?? [H _] | intros ?? H]; cbn in H; by rewrite lookup_empty in H. Qed.

(** What a registry step that keeps every slot must show. *)
Lemma probe_inv_registry w h' ow :
  probe_inv w ->
  (forall a, match health_backends (reg w) !! a, health_backends h' !! a with
             | Some e, Some e' => probe e' = probe e /\ (status e' = STATUS_PROBING -> status e = STATUS_PROBING \/ a ∈ ow)
             | None, Some e' => probe e' = None /\ (status e' = STATUS_PROBING -> a ∈ ow)
             | None, None => True
             | Some _, None => False
             end) ->
  (forall a, a ∈ owed w -> a ∈ ow) ->
  probe_inv {| reg := h'; tasks := tasks w; owed := ow |}.
Proof.
  intros [I1 I2 I3] Hh Ho. split; cbn.
  - intros a e' id Ha Hp. specialize (Hh a). rewrite Ha in Hh.
    destruct (health_backends (reg w) !! a) as [e|] eqn:He; [|destruct Hh; congruence].
    destruct Hh as [Hpe _]. apply (I1 a e); congruence.
  - intros id p Hl. destruct (I2 id p Hl) as (e & He & Hp). specialize (Hh (task_addr p)). rewrite He in Hh.
    destruct (health_backends h' !! task_addr p) as [e'|]; [|done]. exists e'. destruct Hh; split; congruence.
  - intros a e' Ha Hs. specialize (Hh a). rewrite Ha in Hh.
    destruct (health_backends (reg w) !! a) as [e|] eqn:He; [|left; by apply Hh].
    destruct Hh as [Hp Hst]. destruct (Hst Hs) as [Hs'|]; [|by left].
    destruct (I3 a e He Hs') as [|(id & p & Hid & Hl)]; [left; auto|].
    right. exists id, p. by rewrite Hp.
Qed.

(** What a step of one task that stays live, or finishes once its entry is
    not probing, must show. *)
Lemma probe_inv_task w h' id p p' :
  probe_inv w -> recovers (reg w) h' ->
  tasks w !! id = Some p -> task_state p <> Finished ->
  task_addr p' = task_addr p -> aborted p' = aborted p ->
  (task_state p' = Finished ->
     forall e, health_backends h' !! task_addr p = Some e -> status e <> STATUS_PROBING) ->
  probe_inv {| reg := h'; tasks := <[id := p']> (tasks w); owed := owed w |}.
Proof.
  intros [I1 I2 I3] Hh Hid Hst Haddr Hab Hfin. split; cbn.
  - intros a e' i Ha Hp. specialize (Hh a). rewrite Ha in Hh.
    destruct (health_backends (reg w) !! a) as [e|] eqn:He; [|done]. destruct Hh as [Hpe _].
    destruct (I1 a e i He) as (q & Hq & Hqa); [congruence|].
    destruct (decide (i = id)) as [->|Hn].
    + exists p'. rewrite lookup_insert_eq. split; congruence.
    + exists q. by rewrite lookup_insert_ne by congruence.
  - intros i q (Hq & Hqa & Hqs). cbn in Hq.
    assert (exists q0, live w i q0 /\ task_addr q0 = task_addr q) as (q0 & Hl & Hta).
    { destruct (decide (i = id)) as [->|Hn].
      - rewrite lookup_insert_eq in Hq. injection Hq as <-. exists p. repeat split; congruence.
      - rewrite lookup_insert_ne in Hq by congruence. by exists q. }
    destruct (I2 i q0 Hl) as (e & He & Hp). rewrite Hta in He. specialize (Hh (task_addr q)). rewrite He in Hh.
    destruct (health_backends h' !! task_addr q) as [e'|]; [|done]. exists e'. destruct Hh; split; congruence.
  - intros a e' Ha Hs. pose proof (Hh a) as Hh'. rewrite Ha in Hh'.
    destruct (health_backends (reg w) !! a) as [e|] eqn:He; [|done].
    destruct Hh' as [_ Heq]. pose proof (Heq Hs) as Heq'. clear Heq. subst e'.
    destruct (I3 a e He Hs) as [|(i & q & Hi & Hq & Hqa & Hqs)]; [by left|].
    right. exists i. destruct (decide (i = id)) as [->|Hn].
    + exists p'. split; [done|]. destruct (I1 a e id He Hi) as (p0 & Hp0 & Hp0a).
      unfold live; cbn. rewrite lookup_insert_eq. repeat split; [congruence|].
      intros Hf. apply (Hfin Hf e); congruence.
    + exists q. unfold live; cbn. rewrite lookup_insert_ne by congruence. done.
Qed.

Lemma live_abort_opt w o id p :
  abort_opt o (tasks w) !! id = Some p -> aborted p = false ->
  tasks w !! id = Some p /\ o <> Some id.
Proof.
  rewrite abort_opt_lookup. destruct (decide (o = Some id)) as [Ho|Ho]; [|done].
  intros H Hab. apply fmap_Some in H as (q & _ & ->). done.
Qed.

Lemma probe_inv_spawn w addr id before after h' ts' :
  probe_inv w -> owed w = before ++ addr :: after -> tasks w !! id = None ->
  spawn_probe w addr id = (h', ts') ->
  probe_inv {| reg := h'; tasks := ts'; owed := before ++ after |}.
Proof.
  intros [I1 I2 I3] Ho Hid Hsp. unfold spawn_probe in Hsp.
  assert (Hne : forall a e i, health_backends (reg w) !! a = Some e -> probe e = Some i -> i <> id).
  { intros a e i Ha Hp ->. destruct (I1 a e id Ha Hp) as (? & ? & _). congruence. }
  assert (Hin : forall a, a ∈ owed w -> a <> addr -> a ∈ before ++ after).
  { intros a Ha Hn. rewrite Ho in Ha. set_solver. }
  destruct (health_backends (reg w) !! addr) as [e|] eqn:He; injection Hsp as <- <-; split; cbn.
  - intros a e' i Ha Hp. destruct (decide (a = addr)) as [->|Hn].
    + rewrite lookup_insert_eq in Ha. injection Ha as <-. cbn in Hp. injection Hp as <-.
      eexists. by rewrite lookup_insert_eq.
    + rewrite lookup_insert_ne in Ha by congruence. destruct (I1 a e' i Ha Hp) as (p & Hi & Hpa).
      rewrite lookup_insert_ne by (apply not_eq_sym; eauto). rewrite abort_opt_lookup, Hi.
      case_decide; eexists; split; try reflexivity; done.
  - intros i p (Hi & Hab & Hst). cbn in Hi. destruct (decide (i = id)) as [->|Hn].
    + rewrite lookup_insert_eq in Hi. injection Hi as <-. cbn. eexists. by rewrite lookup_insert_eq.
    + rewrite lookup_insert_ne in Hi by congruence. apply live_abort_opt in Hi as [Hi Hpe]; [|done].
      destruct (I2 i p) as (e' & He' & Hp'); [done|]. exists e'. split; [|done].
      rewrite lookup_insert_ne; [done|]. intros Heq. congruence.
  - intros a e' Ha Hs. destruct (decide (a = addr)) as [->|Hn].
    + right. rewrite lookup_insert_eq in Ha. injection Ha as <-. exists id. eexists. split; [done|].
      unfold live; cbn. rewrite lookup_insert_eq. done.
    + rewrite lookup_insert_ne in Ha by congruence.
      destruct (I3 a e' Ha Hs) as [Hw|(i & p & Hp & Hi & Hab & Hst)]; [left; auto|].
      right. exists i, p. split; [done|]. unfold live; cbn. split; [|done].
      rewrite lookup_insert_ne by (apply not_eq_sym; eauto). rewrite abort_opt_lookup, decide_False; [done|].
      intros Hpe. destruct (I1 a e' i Ha Hp) as (? & ? & ?), (I1 addr e i He Hpe) as (? & ? & ?). congruence.
  - intros a e' i Ha Hp. destruct (I1 a e' i Ha Hp) as (p & Hi & Hpa). exists p.
    rewrite lookup_insert_ne by (apply not_eq_sym; eauto). done.
  - intros i p (Hi & Hab & Hst). cbn in Hi. destruct (decide (i = id)) as [->|Hn].
    + rewrite lookup_insert_eq in Hi. injection Hi as <-. done.
    + rewrite lookup_insert_ne in Hi by congruence. by apply I2.
  - intros a e' Ha Hs. destruct (I3 a e' Ha Hs) as [Hw|(i & p & Hp & Hi & Hab & Hst)].
    + left. apply Hin; [done|]. congruence.
    + right. exists i, p. split; [done|]. unfold live; cbn.
      rewrite lookup_insert_ne by (apply not_eq_sym; eauto). done.
Qed.

Section Probes.
Context {RE : RegexEngine}.

Lemma prune_lookup h t a :
  health_backends (prune h t) !! a =
  if tracked h && negb (bool_decide (a ∈ routed_addrs t)) then None else health_backends h !! a.
Proof.
  unfold prune. destruct (tracked h); cbn -[filter routed_addrs]; [|done].
  rewrite map_lookup_filter. destruct (health_backends h !! a) eqn:E; cbn -[routed_addrs]; [|by case_bool_decide].
  case_bool_decide; cbn -[routed_addrs]; [by rewrite option_guard_True | by rewrite option_guard_False].
Qed.

Lemma prune_subset h t a e : health_backends (prune h t) !! a = Some e -> health_backends h !! a = Some e.
Proof. rewrite prune_lookup. by destruct (tracked h && _). Qed.

Lemma probe_inv_prune w t :
  probe_inv w ->
  probe_inv {| reg := prune (reg w) t;
    tasks := abort_dropped (health_backends (reg w)) (health_backends (prune (reg w) t)) (tasks w);
    owed := owed w |}.
Proof.
  intros [I1 I2 I3]. set (h' := prune (reg w) t). split; cbn.
  - intros a e i Ha Hp. apply prune_subset in Ha. destruct (I1 a e i Ha Hp) as (p & Hi & Hpa).
    destruct (abort_dropped_lookup (health_backends (reg w)) (health_backends h') (tasks w) i) as [[-> | ->] _];
      rewrite Hi; eexists; split; try reflexivity; done.
  - intros i p (Hi & Hab & Hst). cbn in Hi.
    destruct (abort_dropped_lookup (health_backends (reg w)) (health_backends h') (tasks w) i) as ([Hk|Hk] & Hd & _);
      rewrite Hk in Hi.
    2: { apply fmap_Some in Hi as (q & _ & ->). done. }
    destruct (I2 i p) as (e & He & Hp); [done|]. exists e. split; [|done].
    destruct (health_backends h' !! task_addr p) as [e'|] eqn:He'.
    + apply prune_subset in He'. congruence.
    + rewrite Hd, Hi in Hk by (by exists (task_addr p), e). injection Hk as Hk. rewrite <- Hk in Hab. done.
  - intros a e Ha Hs. pose proof Ha as Ha'. apply prune_subset in Ha'.
    destruct (I3 a e Ha' Hs) as [|(i & p & Hp & Hi & Hab & Hst)]; [by left|].
    right. exists i, p. split; [done|]. unfold live; cbn. split; [|done].
    destruct (abort_dropped_lookup (health_backends (reg w)) (health_backends h') (tasks w) i) as (_ & _ & ->); [done|].
    intros (a' & e' & He' & Hn & Hp'). destruct (I1 a e i Ha' Hp) as (? & ? & ?), (I1 a' e' i He' Hp') as (? & ? & ?).
    unfold h' in *. congruence.
Qed.

Lemma probe_inv_step w w' : probe_inv w -> probe_step w w' -> probe_inv w'.
Proof.
  intros Hi Hs. destruct Hs as [w addr h' spawn Hf|w addr|w addr id before after h' ts' Ho Hid Hsp|w id p Hp Hst
    |w id p Hp Hst|w id p Hp Hst|w t].
  - apply probe_inv_registry; [done| |intros a; destruct spawn; set_solver].
    pose proof (record_failure_lookup (reg w) addr) as Hl.
    pose proof (record_failure_spawn (reg w) addr) as Hsp. rewrite Hf in Hl, Hsp. cbn in Hl, Hsp.
    intros a. rewrite Hl. destruct (decide (a = addr)) as [->|Hn]; [|destruct (health_backends (reg w) !! a); auto].
    destruct (health_backends (reg w) !! addr) as [e|] eqn:He; cbn in *; split; try done; intros Hpr.
    destruct (FAILURE_THRESHOLD <=? _) eqn:Ht; cbn [andb] in Hsp; [|by left].
    case_bool_decide as Hc; [by left|]. rewrite Hsp. right. left.
  - apply probe_inv_registry; [done| |done]. intros a. pose proof (record_success_recovers (reg w) addr a) as H.
    destruct (health_backends (reg w) !! a), (health_backends _ !! a); try done.
    destruct H as [? H]. split; [done|]. intros Hx. left. rewrite <- (H Hx). done.
  - by eapply probe_inv_spawn.
  - apply probe_inv_task with p; [done|apply recovers_refl|done|congruence|done|done|].
    unfold still_probing. cbn. intros Hfin e He. rewrite He in Hfin. by case_bool_decide.
  - apply probe_inv_task with p; [done|apply probe_connected_recovers|done|congruence|done|done|].
    intros _ e He. by apply probe_connected_status in He.
  - apply probe_inv_task with p; [done|apply recovers_refl|done|congruence|done|done|]. done.
  - by apply probe_inv_prune.
Qed.

Lemma reachable_invariant (P : World -> Prop) w :
  P World_new -> (forall x y, P x -> probe_step x y -> P y) -> rtc probe_step World_new w -> P w.
Proof.
  intros H0 Hs H. apply (rtc_ind_r (R := probe_step) P World_new); [done| |done]. eauto.
Qed.

(** Between operations no entry is in [STATUS_UNHEALTHY], and the flag is up
    whenever the map holds an entry. *)
Definition at_rest (h : HealthRegistry) : Prop :=
  map_Forall (fun _ e => status e <> STATUS_UNHEALTHY) (health_backends h) /\
  (health_backends h <> ∅ -> tracked h = true).

Lemma at_rest_step w w' : at_rest (reg w) -> probe_step w w' -> at_rest (reg w').
Proof.
  intros [Hu Ht] Hs. destruct Hs as [w addr h' spawn Hf|w addr|w addr id before after h' ts' Ho Hid Hsp| | | |w t]; cbn;
    try (by split).
  - split.
    + intros a e. pose proof (record_failure_lookup (reg w) addr a) as Hl. rewrite Hf in Hl. cbn in Hl. rewrite Hl.
      destruct (decide (a = addr)); [|apply Hu]. intros [= <-]. cbn.
      destruct (FAILURE_THRESHOLD <=? _); [done|]. destruct (health_backends (reg w) !! addr) eqn:E; [by eapply Hu|done].
    + unfold record_failure in Hf. destruct (if FAILURE_THRESHOLD <=? _ then _ else _) in Hf. injection Hf as <- _. done.
  - unfold record_success. destruct (negb _); [done|]. destruct (_ !! addr) eqn:E; [|done]. destruct (_ || _); [|done].
    split; cbn; [by apply map_Forall_insert_2|]. intros _. apply Ht. intros He. by rewrite He, lookup_empty in E.
  - unfold spawn_probe in Hsp. destruct (_ !! addr) as [e|] eqn:E; injection Hsp as <- <-; [|done].
    split; cbn; [apply map_Forall_insert_2; [exact (Hu addr e E)|done]|].
    intros _. apply Ht. intros He. by rewrite He, lookup_empty in E.
  - unfold probe_connected. destruct (_ !! task_addr p) as [e|] eqn:E; [|done].
    split; cbn; [apply map_Forall_insert_2; [|done]|intros _; apply Ht; intros He; by rewrite He, lookup_empty in E].
    cbn. apply (Hu _) in E. by destruct (status e).
  - split.
    + intros a e Ha. by eapply Hu, prune_subset.
    + unfold prune. destruct (tracked (reg w)) eqn:Htr; cbn -[filter routed_addrs].
      * intros Hn. by rewrite bool_decide_eq_false_2.
      * by rewrite Htr.
Qed.

Lemma at_rest_reachable w : rtc probe_step World_new w -> at_rest (reg w).
Proof. apply (reachable_invariant (fun w => at_rest (reg w))); [by split|]. intros x y. apply at_rest_step. Qed.

Lemma probe_inv_reachable w : rtc probe_step World_new w -> probe_inv w.
Proof. apply (reachable_invariant probe_inv); [apply probe_inv_new|apply probe_inv_step]. Qed.

(** C40: whatever failures, successes, swaps and probe outcomes happen and in
    whatever order, including tasks whose abort has not landed yet: no address
    has two live probes, a live probe's address is tracked, and an address
    kept out of rotation is either being probed or has its probe still to be
    spawned by the failure that ejected it. *)
Theorem probes_one_per_ejected_backend w :
  rtc probe_step World_new w ->
  (forall id1 p1 id2 p2, live w id1 p1 -> live w id2 p2 -> task_addr p1 = task_addr p2 -> id1 = id2) /\
  (forall id p, live w id p -> is_Some (health_backends (reg w) !! task_addr p)) /\
  (forall addr, is_healthy (reg w) addr = false ->
     addr ∈ owed w \/ exists id p, live w id p /\ task_addr p = addr).
Proof.
  intros Hr. pose proof (probe_inv_reachable w Hr) as [I1 I2 I3]. pose proof (at_rest_reachable w Hr) as [Hu _].
  split; [|split].
  - intros id1 p1 id2 p2 H1 H2 Ha. destruct (I2 _ _ H1) as (e1 & He1 & Hp1), (I2 _ _ H2) as (e2 & He2 & Hp2). congruence.
  - intros id p Hl. destruct (I2 id p Hl) as (e & He & _). by exists e.
  - unfold is_healthy. intros addr. destruct (negb _); [done|].
    destruct (_ !! addr) as [e|] eqn:He; [|done]. case_bool_decide as Hst; [done|]. intros _.
    assert (status e = STATUS_PROBING) as Hp by (pose proof (Hu _ _ He) as Hx; cbn in Hx; destruct (status e); congruence).
    destruct (I3 addr e He Hp) as [|(id & p & Hid & Hl)]; [by left|]. right. exists id, p. split; [done|].
    destruct (I1 addr e id He Hid) as (q & Hq & Hqa). destruct Hl as (? & _). congruence.
Qed.

(** ** Failure counting *)

Definition record_failures (h : HealthRegistry) (addr : SocketAddr) (n : nat) : HealthRegistry :=
  Nat.iter n (fun h => (record_failure h addr).1) h.

Lemma record_failures_S h addr n :
  record_failures h addr (S n) = (record_failure (record_failures h addr n) addr).1.
Proof. done. Qed.

Lemma record_failures_entry h addr n :
  health_backends h !! addr = None -> Z.of_nat (S n) < 2 ^ 32 ->
  health_backends (record_failures h addr (S n)) !! addr =
    Some {| consecutive_failures := Z.of_nat (S n);
            status := if (S n <? 3)%nat then STATUS_HEALTHY else STATUS_PROBING; probe := None |} /\
  tracked (record_failures h addr (S n)) = true.
Proof.
  intros Hn. assert (Htr : forall h, tracked (record_failure h addr).1 = true).
  { intros h0. unfold record_failure. by destruct (if FAILURE_THRESHOLD <=? _ then _ else _). }
  induction n as [|n IH]; intros Hb; rewrite record_failures_S; (split; [|apply Htr]);
    rewrite record_failure_lookup, decide_True by done.
  - change (record_failures h addr 0) with h. by rewrite Hn.
  - destruct IH as [IH _]; [lia|]. rewrite IH.
    cbn [default from_option id consecutive_failures status probe].
    assert (as_u32 (Z.of_nat (S n) + 1) = Z.of_nat (S (S n))) as ->.
    { unfold as_u32, wrap. rewrite Z.mod_small; lia. }
    do 2 f_equal. unfold FAILURE_THRESHOLD.
    destruct (Z.leb_spec 3 (Z.of_nat (S (S n)))), (Nat.ltb_spec (S (S n)) 3); try done; try lia.
    destruct (Nat.ltb_spec (S n) 3); [done|lia].
Qed.

(** An untracked address stays in rotation through its first two
    failures, leaves it at the third, and exactly that failure asks for a
    probe; a success brings it back and clears the count, so that three more
    are needed. *)
Theorem ejected_at_threshold h addr n :
  health_backends h !! addr = None -> Z.of_nat (S n) < 2 ^ 32 ->
  let h' := record_failures h addr n in
  is_healthy h' addr = (n <? 3)%nat /\
  (record_failure h' addr).2 = (n =? 2)%nat /\
  (tracked h' = true -> is_healthy (record_success h' addr) addr = true /\
   forall e, health_backends (record_success h' addr) !! addr = Some e -> consecutive_failures e = 0).
Proof.
  intros Hn Hb. cbv zeta. rewrite record_failure_spawn. destruct n as [|n].
  { change (record_failures h addr 0) with h. unfold is_healthy, record_success. rewrite Hn.
    destruct (tracked h) eqn:Ht; cbn; rewrite ?Ht; cbn; rewrite ?Hn; cbn; repeat split; congruence. }
  destruct (record_failures_entry h addr n Hn) as [He Ht]; [lia|].
  unfold record_success, is_healthy. rewrite Ht, He.
  cbn [negb default from_option id consecutive_failures status probe].
  assert (as_u32 (Z.of_nat (S n) + 1) = Z.of_nat (S (S n))) as ->.
  { unfold as_u32, wrap. rewrite Z.mod_small; lia. }
  assert ((0 <? Z.of_nat (S n)) = true) as -> by (apply Z.ltb_lt; lia). rewrite orb_true_r. cbn [health_backends tracked].
  rewrite lookup_insert_eq, ?Ht. cbn [negb status]. unfold FAILURE_THRESHOLD.
  destruct (Nat.ltb_spec (S n) 3); (split; [done|]); (split; [|split; [done|by intros e [= <-]]]).
  - destruct (Z.leb_spec 3 (Z.of_nat (S (S n)))), (Nat.eqb_spec (S n) 2); try done; lia.
  - rewrite bool_decide_eq_true_2, andb_false_r by done. symmetry. apply Nat.eqb_neq. lia.
Qed.

(** The wait before the [n]-th retry. *)
Definition probe_wait (n : nat) : Z := Nat.iter n next_probe_interval PROBE_INITIAL_INTERVAL.

(** The waits double from ten seconds up to the five-minute ceiling and
    stay there: a probe never gives up and never retries faster. *)
Theorem probe_backoff n : probe_wait n = Z.min (10000 * 2 ^ Z.of_nat n) 300000.
Proof.
  induction n as [|n IH]; [done|].
  change (probe_wait (S n)) with (next_probe_interval (probe_wait n)). rewrite IH.
  unfold next_probe_interval, DURATION_MAX, PROBE_MAX_INTERVAL.
  rewrite Nat2Z.inj_succ, Z.pow_succ_r by lia.
  pose proof (Z.pow_pos_nonneg 2 (Z.of_nat n)). lia.
Qed.

(** A swap keeps the state of exactly the backends the new table still
    routes to, and aborts the probes of the others. *)
Theorem prune_exact w t :
  rtc probe_step World_new w ->
  let w' := {| reg := prune (reg w) t;
    tasks := abort_dropped (health_backends (reg w)) (health_backends (prune (reg w) t)) (tasks w);
    owed := owed w |} in
  (forall a, health_backends (reg w') !! a =
     if decide (a ∈ routed_addrs t) then health_backends (reg w) !! a else None) /\
  (forall id p, live w' id p <-> live w id p /\ task_addr p ∈ routed_addrs t).
Proof.
  intros Hr w'. pose proof (probe_inv_reachable w Hr) as Hi. pose proof (at_rest_reachable w Hr) as [_ Ht].
  assert (Hl : forall a, health_backends (reg w') !! a =
     if decide (a ∈ routed_addrs t) then health_backends (reg w) !! a else None).
  { intros a. cbn. rewrite prune_lookup. destruct (tracked (reg w)) eqn:E; cbn -[routed_addrs].
    - case_bool_decide; case_decide; done.
    - case_decide; [done|]. destruct (decide (health_backends (reg w) = ∅)) as [He|Hn]; [by rewrite He|].
      apply Ht in Hn. congruence. }
  split; [done|]. intros id p. pose proof (probe_inv_prune w t Hi) as Hi'. fold w' in Hi'.
  destruct (abort_dropped_lookup (health_backends (reg w)) (health_backends (reg w')) (tasks w) id) as (Hd0 & Hd1 & Hd2).
  fold w' in Hd0. split.
  - intros Hlv. destruct (inv_live w' Hi' id p Hlv) as (e & He & _). rewrite Hl in He. case_decide as Hin; [|done].
    split; [|done]. destruct Hlv as (Hid & Hab & Hst). cbn in Hid. split; [|done].
    destruct Hd0 as [Hd0|Hd0]; change (health_backends (prune (reg w) t)) with (health_backends (reg w')) in Hid;
      rewrite Hd0 in Hid; [done|]. apply fmap_Some in Hid as (q & _ & ->). done.
  - intros [(Hid & Hab & Hst) Hin]. split; [|done]. cbn. change (health_backends (prune (reg w) t)) with (health_backends (reg w')).
    rewrite Hd2; [done|]. intros (a & e & Ha & Hna & Hp).
    destruct (inv_slot w Hi a e id Ha Hp) as (q & Hq & Hqa). assert (q = p) as -> by congruence. rewrite <- Hqa in *.
    rewrite Hl, decide_True in Hna by done. congruence.
Qed.

End Probes.

(** ** The flag *)

Definition flag_inv (s : flag_state) : Prop :=
  (0 < entries s)%nat -> flag s = true \/ exists t th, threads s !! t = Some th /\ will_raise th.

Lemma flag_step_inv s s' : flag_inv s -> flag_step s s' -> flag_inv s'.
Proof.
  intros Hi Hs.
  assert (Hkeep : forall (ts : gmap nat flag_thread) t th,
    will_raise th -> exists t' th', <[t := th]> ts !! t' = Some th' /\ will_raise th').
  { intros ts t th H. exists t, th. by rewrite lookup_insert_eq. }
  assert (Hother : forall (ts : gmap nat flag_thread) t th th0,
    ts !! t = Some th0 -> ~ will_raise th0 -> (exists t' th', ts !! t' = Some th' /\ will_raise th') ->
    exists t' th', <[t := th]> ts !! t' = Some th' /\ will_raise th').
  { intros ts t th th0 Ht Hn (t' & th' & Ht' & Hw). exists t', th'. rewrite lookup_insert_ne; [done|]. congruence. }
  unfold flag_inv in *. destruct Hs as [n f ts t m Ht _ Hm|n f ts t Ht|n f ts t Ht|n ts t m Ht Hm|n f ts t Ht|n f ts t Ht
    |n f ts t Ht|n f ts t Ht]; cbn in *; intros Hpos.
  - right. by apply Hkeep.
  - destruct f; [by left|]. right. by apply Hkeep.
  - by left.
  - by left.
  - destruct (Hi Hpos) as [|Hw]; [by left|]. right. eapply Hother; [exact Ht|by intros []|done].
  - right. by apply Hkeep.
  - destruct (Nat.eqb_spec n 0); [lia|]. right. by apply Hkeep.
  - by left.
Qed.

(** However inserts and prunes interleave, the flag is up whenever the
    map has an entry, or some call under way will still raise it; so once the
    calls under way have returned, a lowered flag means an empty map. *)
Theorem tracked_flag_sound ts s :
  rtc flag_step {| entries := 0; flag := false; threads := ts |} s ->
  ((0 < entries s)%nat -> flag s = true \/ exists t th, threads s !! t = Some th /\ will_raise th) /\
  ((forall t th, threads s !! t = Some th -> th = Idle) -> flag s = false -> entries s = 0%nat).
Proof.
  intros Hr. assert (flag_inv s) as Hi.
  { apply (rtc_ind_r (R := flag_step) flag_inv {| entries := 0; flag := false; threads := ts |}); [|eauto using flag_step_inv|done].
    intros H; cbn in H; lia. }
  split; [exact Hi|]. intros Hidle Hf. destruct (entries s) as [|n] eqn:En; [done|].
  unfold flag_inv in Hi. rewrite En, Hf in Hi. destruct Hi as [|(t & th & Ht & Hw)]; [lia|done|].
  by rewrite (Hidle t th Ht) in Hw.
Qed.

(** ** Witnesses *)

#[local] Existing Instance literal_regex.

Definition backend_a : SocketAddr := SocketV4 167772161 8080.

(** Three failures, then the spawn they ask for. *)
Definition ejected_world : World :=
  let h := record_failures HealthRegistry_new backend_a 3 in
  let '(h', ts) := spawn_probe {| reg := h; tasks := ∅; owed := [backend_a] |} backend_a 0 in
  {| reg := h'; tasks := ts; owed := [] |}.

Lemma ejected_world_reachable : rtc probe_step World_new ejected_world.
Proof.
  eapply rtc_l; [eapply (step_failure _ backend_a); reflexivity|].
  eapply rtc_l; [eapply (step_failure _ backend_a); reflexivity|].
  eapply rtc_l; [eapply (step_failure _ backend_a); reflexivity|].
  eapply rtc_l; [eapply (step_spawn _ backend_a 0 [] []); reflexivity|].
  apply rtc_refl.
Qed.

Lemma probes_one_per_ejected_backend_witness :
  is_healthy (reg ejected_world) backend_a = false /\
  (backend_a ∈ owed ejected_world \/ exists id p, live ejected_world id p /\ task_addr p = backend_a).
Proof.
  split; [reflexivity|].
  apply (probes_one_per_ejected_backend ejected_world ejected_world_reachable). reflexivity.
Defined.

Lemma ejected_at_threshold_witness :
  is_healthy (record_failures HealthRegistry_new backend_a 3) backend_a = false.
Proof. apply (ejected_at_threshold HealthRegistry_new backend_a 3); reflexivity. Defined.

Lemma prune_exact_witness :
  health_backends (prune (reg ejected_world) RouteTable_new) !! backend_a = None.
Proof.
  pose proof (prune_exact ejected_world RouteTable_new ejected_world_reachable) as [H _].
  exact (H backend_a).
Defined.

Definition pruned_flag : flag_state := {| entries := 0; flag := false; threads := {[0%nat := Idle]} |}.

Lemma tracked_flag_sound_witness : flag pruned_flag = false /\ entries pruned_flag = 0%nat.
Proof.
  split; [reflexivity|].
  apply (tracked_flag_sound {[0%nat := Idle]} pruned_flag); [| |reflexivity].
  - eapply rtc_l; [apply (flag_insert 0 false {[0%nat := Idle]} 0 1); [reflexivity|lia|lia]|].
    eapply rtc_l; [apply (flag_load 1 false _ 0); reflexivity|].
    eapply rtc_l; [apply (flag_raise 1 false _ 0); reflexivity|].
    eapply rtc_l; [apply (flag_retain 1 _ 0 0); [reflexivity|lia]|].
    eapply rtc_l; [apply (flag_look 0 true _ 0); reflexivity|].
    eapply rtc_l; [apply (flag_lower 0 true _ 0); reflexivity|].
    eapply rtc_l; [apply (flag_look_again 0 false _ 0); reflexivity|].
    apply rtc_refl.
  - intros t th H. cbn in H. destruct (decide (t = 0%nat)) as [->|Hn].
    + by injection H as <-.
    + by rewrite lookup_singleton_ne in H.
Defined.
