(* ===== verification/Selection.v ===== *)
(** * Backend selection

    [src/src/routing/mod.rs], [BackendSelector] and the weighted walks below
    it. Counters are wrapping [u64] cells: a rule's in a store keyed by the
    cell's identity, an L4 route's in the selector's map.

    Other threads change backend health while a selection runs, and each
    pass over the list asks again. [Reads] gives the answer to the question
    pass [k] asks about position [i]: [fun _ _ => is_healthy h] is a registry
    nobody touches, and theorems over all [Reads] hold under any race. *)

From S2P Require Import Prelude Bytes Net HttpGrammar Routing RouteBuild Health.

Definition Reads := nat -> nat -> SocketAddr -> bool.

(** A registry that does not change during the call. *)
Definition steady (h : HealthRegistry) : Reads := fun _ _ a => is_healthy h a.

(** [AtomicU64::fetch_add(1)] on a cell holding [v]. *)
Definition fetch_add1 (v : Z) : Z * Z := (v, as_u64 (v + 1)).

Record BackendSelector := { route_counters : gmap Z Z }.

Definition BackendSelector_new : BackendSelector := {| route_counters := ∅ |}.

Definition next_counter (s : BackendSelector) (route_hash : Z) : Z * BackendSelector :=
  let '(old, new) := fetch_add1 (default 0 (route_counters s !! route_hash)) in
  (old, {| route_counters := <[route_hash := new]> (route_counters s) |}).

Definition add64 (a b : Z) : Z := as_u64 (a + b).

(** The weight sum both selections start with ([health] is pass 0's). *)
Fixpoint healthy_weight_from (health : nat -> SocketAddr -> bool) (i : nat) (acc : Z) (bks : list Backend) : Z :=
  match bks with
  | [] => acc
  | b :: rest =>
      healthy_weight_from health (S i)
        (if (0 <? weight b) && health i (socket_addr b) then add64 acc (weight b) else acc) rest
  end.

Fixpoint total_weight_from (acc : Z) (bks : list Backend) : Z :=
  match bks with [] => acc | b :: rest => total_weight_from (add64 acc (weight b)) rest end.

Fixpoint slot_owner_from (cumulative : Z) (i : nat) (bks : list Backend) (slot : Z) : option nat :=
  match bks with
  | [] => None
  | b :: rest =>
      let cumulative := add64 cumulative (weight b) in
      if slot <? cumulative then Some i else slot_owner_from cumulative (S i) rest slot
  end.

Definition slot_owner (bks : list Backend) (slot : Z) : option nat := slot_owner_from 0 0 bks slot.

Fixpoint nth_healthy_from (health : nat -> SocketAddr -> bool) (cumulative : Z) (i : nat)
  (bks : list Backend) (slot : Z) : option nat :=
  match bks with
  | [] => None
  | b :: rest =>
      if (weight b =? 0) || bool_decide (action b = Reject) || negb (health i (socket_addr b))
      then nth_healthy_from health cumulative (S i) rest slot
      else
        let cumulative := add64 cumulative (weight b) in
        if slot <? cumulative then Some i else nth_healthy_from health cumulative (S i) rest slot
  end.

Definition nth_healthy_weighted (health : nat -> SocketAddr -> bool) (bks : list Backend) (slot : Z) : option nat :=
  nth_healthy_from health 0 0 bks slot.

(** The loop of [select_degraded]: what it has summed so far. *)
Record Shares := {
  cumulative : Z;
  rejected : Z;
  rejected_below_slot : Z;
  healthy_forward : Z;
}.

Fixpoint shares_from (health : nat -> SocketAddr -> bool) (slot : Z) (i : nat) (s : Shares) (bks : list Backend)
  : Shares :=
  match bks with
  | [] => s
  | b :: rest =>
      let w := weight b in
      let s' :=
        if bool_decide (action b = Reject) then
          {| cumulative := add64 (cumulative s) w; rejected := add64 (rejected s) w;
             rejected_below_slot := if add64 (cumulative s) w <=? slot
                                    then add64 (rejected_below_slot s) w else rejected_below_slot s;
             healthy_forward := healthy_forward s |}
        else
          {| cumulative := add64 (cumulative s) w; rejected := rejected s;
             rejected_below_slot := rejected_below_slot s;
             healthy_forward := if (0 <? w) && health i (socket_addr b)
                                then add64 (healthy_forward s) w else healthy_forward s |} in
      shares_from health slot (S i) s' rest
  end.

Definition no_shares : Shares :=
  {| cumulative := 0; rejected := 0; rejected_below_slot := 0; healthy_forward := 0 |}.

(** [counter / total_weight * (total_weight - rejected) + (slot - rejected_below_slot)] *)
Definition forward_pick (counter total rejected slot below : Z) : Z :=
  as_u64 (as_u64 (counter / total * as_u64 (total - rejected)) + as_u64 (slot - below)).

(** Passes 1 and 2 of the reads. *)
Definition select_degraded (bks : list Backend) (reads : Reads) (counter total_weight : Z) : option nat :=
  let slot := counter mod total_weight in
  match slot_owner bks slot with
  | None => None
  | Some owner =>
      let s := shares_from (reads 1%nat) slot 0 no_shares bks in
      let owner_rejects := match bks !! owner with
                           | Some b => bool_decide (action b = Reject)
                           | None => false
                           end in
      if owner_rejects || (healthy_forward s =? 0) then Some owner
      else
        match nth_healthy_weighted (reads 2%nat) bks
                (forward_pick counter total_weight (rejected s) slot (rejected_below_slot s)
                 mod healthy_forward s) with
        | Some i => Some i
        | None => Some owner
        end
  end.

(** [partition_point(|&cw| cw <= slot)] of a sorted list. *)
Definition partition_point (cws : list Z) (slot : Z) : nat := span_len (fun cw => cw <=? slot) cws.

Section Select.
Context {RE : RegexEngine}.

(** What a selection that draws [counter] answers. *)
Definition pick_http (rule : HttpRouteRule) (reads : Reads) (pool_weight counter : Z) : option nat :=
  if pool_weight =? total_weight rule
  then Some (partition_point (cumulative_weights rule) (counter mod total_weight rule))
  else select_degraded (backends rule) reads counter (total_weight rule).

(** [counters] is the store of the rules' shared cells. *)
Definition select_healthy_weighted_backend (rule : HttpRouteRule) (reads : Reads) (counters : gmap loc Z)
  : option nat * gmap loc Z :=
  match backends rule with
  | [b] => (if 0 <? weight b then Some 0%nat else None, counters)
  | bks =>
      let healthy_weight := healthy_weight_from (reads 0%nat) 0 0 bks in
      let pool_weight := if healthy_weight =? 0 then total_weight rule else healthy_weight in
      if pool_weight =? 0 then (None, counters)
      else
        let '(drawn, next) := fetch_add1 (default 0 (counters !! counter rule)) in
        (pick_http rule reads pool_weight drawn, <[counter rule := next]> counters)
  end.

Definition pick_l4 (bks : list Backend) (reads : Reads) (total healthy_weight counter : Z) : option nat :=
  if (healthy_weight =? total) || (healthy_weight =? 0)
  then slot_owner bks (counter mod total)
  else select_degraded bks reads counter total.

Definition select_l4_backend (s : BackendSelector) (key : Z) (bks : list Backend) (reads : Reads)
  : option Backend * BackendSelector :=
  let total := total_weight_from 0 bks in
  let healthy_weight := healthy_weight_from (reads 0%nat) 0 0 bks in
  if total =? 0 then (None, s)
  else
    let '(drawn, s') := next_counter s key in
    (pick_l4 bks reads total healthy_weight drawn ≫= fun i => bks !! i, s').

Definition resolve_tls_passthrough `{FN : Fnv} `{AR : Arch} (t : RouteTable) (sni : option (list Z))
  (server_port : Z) (listener : option (list Z)) (s : BackendSelector) (reads : Reads)
  : result SocketAddr PassthroughMiss * BackendSelector :=
  match match tls_route t sni server_port listener with
        | Some route => Some route
        | None => match tcp_routes t !! server_port with
                  | Some bks => Some (bks, server_port)
                  | None => None
                  end
        end with
  | None => (Err NoRoute, s)
  | Some (bks, key) =>
      if is_nil bks then (Err NoBackends, s)
      else
        let '(chosen, s') := select_l4_backend s key bks reads in
        (match chosen with
         | None => Err NoWeight
         | Some b => if bool_decide (action b = Reject) then Err Rejected else Ok (socket_addr b)
         end, s')
  end.

End Select.

(** ** Reference: the owner of a slot of a list of weights *)

Fixpoint owner (ws : list Z) (s : Z) : option nat :=
  match ws with
  | [] => None
  | w :: rest => if s <? w then Some 0%nat else option_map S (owner rest (s - w))
  end.

Fixpoint sum (ws : list Z) : Z := match ws with [] => 0 | w :: rest => w + sum rest end.

(** How many of the [n] numbers from [a] satisfy [P]. *)
Fixpoint cnt (P : Z -> bool) (a : Z) (n : nat) : Z :=
  match n with O => 0 | S n' => cnt P a n' + Z.b2z (P (a + Z.of_nat n')) end.

(** A backend list whose [u32] weights have a [u64] sum. *)
Definition weights_ok (bks : list Backend) : Prop :=
  Forall (fun b => u32 (weight b)) bks /\ sum (map weight bks) < 2 ^ 64.

(** ** Counting *)

Section Counting.
Implicit Types (P Q : Z -> bool).

Lemma cnt_ext P Q a n :
  (forall x, a <= x < a + Z.of_nat n -> P x = Q x) -> cnt P a n = cnt Q a n.
Proof.
  induction n as [|n IH]; cbn [cnt]; intros H; [done|].
  rewrite IH, H; [done|lia|]. intros x Hx. apply H. lia.
Qed.

Lemma cnt_app P a n m : cnt P a (n + m) = cnt P a n + cnt P (a + Z.of_nat n) m.
Proof.
  induction m as [|m IH]; [rewrite Nat.add_0_r; cbn; lia|].
  rewrite Nat.add_succ_r. cbn [cnt]. rewrite IH. replace (a + Z.of_nat (n + m)) with (a + Z.of_nat n + Z.of_nat m) by lia. lia.
Qed.

Lemma cnt_shift P a d n : cnt P (a + d) n = cnt (fun x => P (x + d)) a n.
Proof.
  induction n as [|n IH]; cbn [cnt]; [done|]. rewrite IH. do 3 f_equal. lia.
Qed.

Lemma cnt_bounds P a n : 0 <= cnt P a n <= Z.of_nat n.
Proof. induction n as [|n IH]; cbn [cnt]; [lia|]. destruct (P (a + Z.of_nat n)); cbn [Z.b2z]; lia. Qed.

Lemma cnt_const P a n c : (forall x, a <= x < a + Z.of_nat n -> P x = c) -> cnt P a n = Z.b2z c * Z.of_nat n.
Proof.
  induction n as [|n IH]; cbn [cnt]; intros H; [lia|].
  rewrite IH, H; [lia|lia|]. intros x Hx. apply H. lia.
Qed.

Lemma cnt_negb P a n : cnt (fun x => negb (P x)) a n = Z.of_nat n - cnt P a n.
Proof. induction n as [|n IH]; cbn [cnt]; [done|]. rewrite IH. destruct (P (a + Z.of_nat n)); cbn [negb Z.b2z]; lia. Qed.

(** A periodic predicate counts the same over any whole period. *)
Lemma cnt_window P (N : nat) a :
  (forall x, 0 <= x -> P (x + Z.of_nat N) = P x) -> 0 <= a -> cnt P a N = cnt P 0 N.
Proof.
  intros Hp Ha. rewrite <- (Z2Nat.id a) by done. induction (Z.to_nat a) as [|k IH]; [done|].
  rewrite <- IH. rewrite Nat2Z.inj_succ.
  pose proof (cnt_app P (Z.of_nat k) 1 N) as H1. pose proof (cnt_app P (Z.of_nat k) N 1) as H2.
  rewrite Nat.add_comm, H1 in H2. cbn [cnt] in H2.
  rewrite !Z.add_0_r, !Z.add_0_l in H2. rewrite Hp in H2 by lia.
  replace (Z.succ (Z.of_nat k)) with (Z.of_nat k + Z.of_nat 1) by lia. lia.
Qed.

Lemma cnt_periods P (N q : nat) :
  (forall x, 0 <= x -> P (x + Z.of_nat N) = P x) -> cnt P 0 (q * N) = Z.of_nat q * cnt P 0 N.
Proof.
  intros Hp. induction q as [|q IH]; [cbn; lia|].
  change (S q * N)%nat with (N + q * N)%nat. rewrite cnt_app, Z.add_comm, cnt_shift.
  rewrite (cnt_ext _ P), IH; [lia|]. intros x Hx. apply Hp. lia.
Qed.

(** Numbering the members of [P] from 0 and asking [Q] of each number counts
    [Q] over the numbers handed out. *)
Lemma cnt_numbered P Q n :
  cnt (fun c => P c && Q (cnt P 0 (Z.to_nat c))) 0 n = cnt Q 0 (Z.to_nat (cnt P 0 n)).
Proof.
  induction n as [|n IH]; cbn [cnt]; [done|]. rewrite IH, Z.add_0_l, Nat2Z.id.
  pose proof (cnt_bounds P 0 n) as [Hb _].
  destruct (P (Z.of_nat n)); cbn [andb Z.b2z]; rewrite ?Z.add_0_r; [|done].
  rewrite Z2Nat.inj_add by lia. change (Z.to_nat 1) with 1%nat.
  rewrite cnt_app. cbn [cnt]. rewrite Z2Nat.id by done. f_equal. rewrite !Z.add_0_l, Z.add_0_r. done.
Qed.

End Counting.

(** ** Owners *)

Definition own_in (C : nat -> bool) (ws : list Z) (s : Z) : bool :=
  match owner ws s with Some i => C i | None => false end.

(** The weight of the positions in [C]. *)
Fixpoint sum_in (C : nat -> bool) (ws : list Z) : Z :=
  match ws with [] => 0 | w :: rest => (if C 0%nat then w else 0) + sum_in (fun i => C (S i)) rest end.

(** The weight of the positions outside [C] that lie wholly below [s]. *)
Fixpoint below (C : nat -> bool) (ws : list Z) (s : Z) : Z :=
  match ws with
  | [] => 0
  | w :: rest => (if negb (C 0%nat) && (w <=? s) then w else 0) + below (fun i => C (S i)) rest (s - w)
  end.

Abbreviation nonneg := (Forall (fun w => 0 <= w)) (only parsing).

Lemma sum_nonneg ws : nonneg ws -> 0 <= sum ws.
Proof. induction 1; cbn; lia. Qed.

Lemma sum_in_bounds C ws : nonneg ws -> 0 <= sum_in C ws <= sum ws.
Proof.
  intros H. revert C. induction H as [|w ws Hw _ IH]; intros C; cbn; [lia|].
  specialize (IH (fun i => C (S i))). destruct (C 0%nat); lia.
Qed.

Lemma sum_in_at ws i : sum_in (Nat.eqb i) ws = default 0 (ws !! i).
Proof.
  revert i. induction ws as [|w ws IH]; intros [|i]; cbn; [done|done| |apply IH].
  rewrite Z.add_comm. enough (sum_in (fun _ => false) ws = 0) by lia. clear. induction ws; cbn; [done|lia].
Qed.

Lemma owner_some ws s : nonneg ws -> 0 <= s ->
  match owner ws s with
  | Some i => s < sum ws /\ exists w, ws !! i = Some w /\ 0 < w
  | None => sum ws <= s
  end.
Proof.
  intros H. revert s. induction H as [|w ws Hw Hws IH]; intros s Hs; cbn; [done|].
  pose proof (sum_nonneg ws Hws). destruct (Z.ltb_spec s w).
  - split; [lia|]. exists w. split; [done|lia].
  - specialize (IH (s - w) ltac:(lia)). destruct (owner ws (s - w)) as [i|]; cbn; [|lia].
    destruct IH as [? (w' & ? & ?)]. split; [lia|]. by exists w'.
Qed.

Lemma own_in_cons C w ws s :
  own_in C (w :: ws) s = if s <? w then C 0%nat else own_in (fun i => C (S i)) ws (s - w).
Proof. unfold own_in. cbn. destruct (s <? w); [done|]. by destruct (owner ws (s - w)). Qed.

Lemma cnt_own_in_cons C w ws n :
  0 <= w ->
  cnt (own_in C (w :: ws)) 0 n =
  Z.b2z (C 0%nat) * Z.min w (Z.of_nat n) + cnt (own_in (fun i => C (S i)) ws) 0 (Z.to_nat (Z.of_nat n - w)).
Proof.
  intros Hw. destruct (Z.le_gt_cases (Z.of_nat n) w) as [Hn|Hn].
  - rewrite (cnt_const _ _ _ (C 0%nat)).
    + replace (Z.to_nat (Z.of_nat n - w)) with 0%nat by lia. cbn [cnt]. lia.
    + intros x Hx. rewrite own_in_cons. destruct (Z.ltb_spec x w); [done|lia].
  - replace n with (Z.to_nat w + Z.to_nat (Z.of_nat n - w))%nat at 1 by lia.
    rewrite cnt_app, cnt_shift, Z2Nat.id by lia. rewrite (cnt_const _ 0 (Z.to_nat w) (C 0%nat)), Z2Nat.id; [|lia|].
    2: { intros x Hx. rewrite own_in_cons. destruct (Z.ltb_spec x w); [done|lia]. }
    rewrite Z.min_l by lia. f_equal. apply cnt_ext. intros x Hx. rewrite own_in_cons.
    destruct (Z.ltb_spec (x + w) w); [lia|]. by replace (x + w - w) with x by lia.
Qed.

(** Each position owns as many slots as its weight. *)
Lemma cnt_owned C ws : nonneg ws -> cnt (own_in C ws) 0 (Z.to_nat (sum ws)) = sum_in C ws.
Proof.
  intros H. revert C. induction H as [|w ws Hw Hws IH]; intros C; [done|].
  pose proof (sum_nonneg ws Hws). rewrite cnt_own_in_cons by done. cbn [sum sum_in].
  rewrite Z2Nat.id by lia. replace (w + sum ws - w) with (sum ws) by lia. rewrite IH, Z.min_l by lia.
  destruct (C 0%nat); cbn [Z.b2z]; lia.
Qed.

Lemma below_neg C ws s : nonneg ws -> s < 0 -> below C ws s = 0.
Proof.
  intros H. revert C s. induction H as [|w ws Hw Hws IH]; intros C s Hs; cbn; [done|].
  rewrite IH by lia. destruct (Z.leb_spec w s); [lia|]. by rewrite andb_false_r.
Qed.

(** At a slot owned by [C], the slots of [C] before it are all the slots
    before it but those of the other positions, none of which it splits. *)
Lemma cnt_before C ws s :
  nonneg ws -> 0 <= s -> own_in C ws s = true ->
  cnt (own_in C ws) 0 (Z.to_nat s) = s - below C ws s.
Proof.
  intros H. revert C s. induction H as [|w ws Hw Hws IH]; intros C s Hs; [done|].
  rewrite own_in_cons, cnt_own_in_cons by done. rewrite Z2Nat.id by done. cbn [below].
  destruct (Z.ltb_spec s w) as [Hlt|Hge]; intros Ho.
  - rewrite Ho. replace (Z.to_nat (s - w)) with 0%nat by lia. cbn [negb andb cnt Z.b2z].
    rewrite (below_neg _ ws) by (done || lia). lia.
  - rewrite IH by (done || lia). destruct (Z.leb_spec w s); [|lia].
    destruct (C 0%nat); cbn [negb andb Z.b2z]; lia.
Qed.

(** ** The code's walks as owners *)

Definition rejects (bks : list Backend) (i : nat) : bool :=
  match bks !! i with Some b => bool_decide (action b = Reject) | None => false end.

Definition forwards (bks : list Backend) (i : nat) : bool := negb (rejects bks i).

(** The weights among which the forwarding share is spread: those of the
    healthy forwarding backends. *)
Fixpoint forward_weights (health : nat -> SocketAddr -> bool) (i : nat) (bks : list Backend) : list Z :=
  match bks with
  | [] => []
  | b :: rest =>
      (if bool_decide (action b = Reject) || negb (health i (socket_addr b)) then 0 else weight b)
      :: forward_weights health (S i) rest
  end.

Fixpoint healthy_sum (health : nat -> SocketAddr -> bool) (i : nat) (bks : list Backend) : Z :=
  match bks with
  | [] => 0
  | b :: rest => (if health i (socket_addr b) then weight b else 0) + healthy_sum health (S i) rest
  end.

Abbreviation weights bks := (map weight bks) (only parsing).

Lemma weights_ok_nonneg bks : weights_ok bks -> nonneg (weights bks).
Proof. intros [H _]. rewrite Forall_fmap. eapply Forall_impl; [exact H|]. unfold u32. cbn. intros; lia. Qed.

Lemma add64_small a b : 0 <= a -> 0 <= b -> a + b < 2 ^ 64 -> add64 a b = a + b.
Proof. intros. apply as_u64_small. red. lia. Qed.

Section Walks.
Context (health : nat -> SocketAddr -> bool).

Lemma forward_weights_nonneg i bks : nonneg (weights bks) -> nonneg (forward_weights health i bks).
Proof.
  revert i. induction bks as [|b bks IH]; cbn; intros i H; constructor; inversion H; subst; [|by apply IH].
  by destruct (_ || _).
Qed.

Lemma forward_weights_sum i bks : nonneg (weights bks) ->
  sum (forward_weights health i bks) <= sum_in (forwards bks) (weights bks).
Proof.
  revert i. induction bks as [|b bks IH]; cbn [map forward_weights sum sum_in]; intros i H; [done|].
  inversion H; subst. specialize (IH (S i) ltac:(done)).
  change (sum_in (fun j => forwards (b :: bks) (S j)) (weights bks)) with (sum_in (forwards bks) (weights bks)).
  change (forwards (b :: bks) 0) with (negb (bool_decide (action b = Reject))).
  destruct (bool_decide (action b = Reject)); cbn [orb negb]; [lia|]. destruct (health i _); cbn [negb]; lia.
Qed.

Lemma forward_weights_lookup i bks j w : forward_weights health i bks !! j = Some w -> 0 < w ->
  exists b, bks !! j = Some b /\ weight b = w /\ action b <> Reject /\ health (i + j)%nat (socket_addr b) = true.
Proof.
  revert i j. induction bks as [|b bks IH]; intros i [|j]; cbn; [done|done| |].
  - intros [= <-] Hw. exists b. rewrite Nat.add_0_r. destruct (bool_decide _) eqn:Ea; cbn in Hw; [lia|].
    destruct (health i _); cbn in Hw; [|lia]. bool_simpl. done.
  - intros Hl Hw. destruct (IH (S i) j Hl Hw) as (b' & ?). exists b'. by replace (i + S j)%nat with (S i + j)%nat by lia.
Qed.

Lemma forward_weights_at i bks j b : bks !! j = Some b -> action b <> Reject ->
  health (i + j)%nat (socket_addr b) = true -> forward_weights health i bks !! j = Some (weight b).
Proof.
  revert i j. induction bks as [|b' bks IH]; intros i [|j]; cbn; [done|done| |].
  - intros [= ->] Ha. rewrite Nat.add_0_r. intros ->. by rewrite bool_decide_eq_false_2.
  - intros Hl Ha Hh. apply IH; try done. by replace (S i + j)%nat with (i + S j)%nat by lia.
Qed.

Lemma slot_owner_from_owner c i bks s :
  nonneg (weights bks) -> 0 <= c -> c + sum (weights bks) < 2 ^ 64 ->
  slot_owner_from c i bks s = Nat.add i <$> owner (weights bks) (s - c).
Proof.
  revert c i. induction bks as [|b bks IH]; cbn; intros c i H Hc Hb; [done|].
  inversion H; subst. pose proof (sum_nonneg (weights bks) ltac:(done)).
  rewrite add64_small by lia. destruct (Z.ltb_spec s (c + weight b)), (Z.ltb_spec (s - c) (weight b)); try lia.
  - cbn. by rewrite Nat.add_0_r.
  - rewrite IH by (done || lia). replace (s - (c + weight b)) with (s - c - weight b) by lia.
    destruct (owner _ _); cbn; [|done]. f_equal. lia.
Qed.

Lemma nth_healthy_from_owner c i bks s :
  nonneg (weights bks) -> 0 <= c <= s -> c + sum (weights bks) < 2 ^ 64 ->
  nth_healthy_from health c i bks s = Nat.add i <$> owner (forward_weights health i bks) (s - c).
Proof.
  revert c i. induction bks as [|b bks IH]; cbn [nth_healthy_from map sum forward_weights owner]; intros c i H Hc Hb; [done|].
  inversion H; subst. pose proof (sum_nonneg (weights bks) ltac:(done)).
  assert (Hskip : forall o : option nat, Nat.add (S i) <$> o = Nat.add i <$> option_map S o).
  { intros [k|]; cbn; [f_equal; lia|done]. }
  destruct (weight b =? 0) eqn:Ew, (bool_decide (action b = Reject)) eqn:Ea, (health i (socket_addr b)); cbn [orb negb];
    bool_simpl;
    try (rewrite IH by (done || lia); rewrite ?Ew; destruct (Z.ltb_spec (s - c) 0); [lia|];
         rewrite Z.sub_0_r; apply Hskip).
  rewrite add64_small by lia. destruct (Z.ltb_spec s (c + weight b)), (Z.ltb_spec (s - c) (weight b)); try lia.
  - cbn. by rewrite Nat.add_0_r.
  - rewrite IH by (done || lia). replace (s - (c + weight b)) with (s - c - weight b) by lia. apply Hskip.
Qed.

Lemma healthy_weight_from_sum i acc bks :
  nonneg (weights bks) -> 0 <= acc -> acc + sum (weights bks) < 2 ^ 64 ->
  healthy_weight_from health i acc bks = acc + healthy_sum health i bks.
Proof.
  revert i acc. induction bks as [|b bks IH]; cbn; intros i acc H Hc Hb; [lia|].
  inversion H; subst. pose proof (sum_nonneg (weights bks) ltac:(done)).
  destruct (Z.ltb_spec 0 (weight b)), (health i (socket_addr b)); cbn; rewrite ?add64_small, IH by (done || lia); lia.
Qed.

Lemma shares_from_spec slot i s bks :
  nonneg (weights bks) ->
  0 <= rejected s <= cumulative s -> 0 <= rejected_below_slot s <= cumulative s -> 0 <= healthy_forward s <= cumulative s ->
  cumulative s + sum (weights bks) < 2 ^ 64 ->
  shares_from health slot i s bks =
  {| cumulative := cumulative s + sum (weights bks);
     rejected := rejected s + sum_in (rejects bks) (weights bks);
     rejected_below_slot := rejected_below_slot s + below (forwards bks) (weights bks) (slot - cumulative s);
     healthy_forward := healthy_forward s + sum (forward_weights health i bks) |}.
Proof.
  revert i s. induction bks as [|b bks IH]; intros i s H Hr Hb Hh Hc.
  { destruct s; cbn. by rewrite !Z.add_0_r. }
  inversion H; subst. cbn [map sum] in Hc. pose proof (sum_nonneg (weights bks) ltac:(done)).
  cbn [shares_from map sum sum_in below forward_weights].
  change (fun j => rejects (b :: bks) (S j)) with (rejects bks).
  change (fun j => forwards (b :: bks) (S j)) with (forwards bks).
  change (forwards (b :: bks) 0) with (negb (bool_decide (action b = Reject))).
  change (rejects (b :: bks) 0) with (bool_decide (action b = Reject)).
  rewrite !(add64_small (cumulative s)) by lia.
  assert (Hle : forall w x c, (c + w <=? x) = (w <=? x - c)).
  { intros w x c. destruct (Z.leb_spec (c + w) x), (Z.leb_spec w (x - c)); lia. }
  destruct (bool_decide (action b = Reject)); cbn [orb negb andb].
  - rewrite (add64_small (rejected s)) by lia. rewrite (add64_small (rejected_below_slot s)) by lia. rewrite Hle.
    rewrite IH; cbn [cumulative rejected rejected_below_slot healthy_forward];
      [|done|lia|destruct (_ <=? _); lia|lia|lia].
    f_equal; try lia. replace (slot - (cumulative s + weight b)) with (slot - cumulative s - weight b) by lia.
    destruct (_ <=? _); lia.
  - rewrite IH; cbn [cumulative rejected rejected_below_slot healthy_forward]; [|done|lia|lia| |lia].
    + f_equal; try lia.
      * replace (slot - (cumulative s + weight b)) with (slot - cumulative s - weight b) by lia. lia.
      * destruct (Z.ltb_spec 0 (weight b)), (health i (socket_addr b)); cbn [andb negb];
          rewrite ?(add64_small (healthy_forward s)) by lia; lia.
    + destruct (Z.ltb_spec 0 (weight b)), (health i (socket_addr b)); cbn [andb];
        rewrite ?(add64_small (healthy_forward s)) by lia; lia.
Qed.

End Walks.

Lemma slot_owner_owner bks s : weights_ok bks -> slot_owner bks s = owner (weights bks) s.
Proof.
  intros Hok. unfold slot_owner. rewrite slot_owner_from_owner by (try apply weights_ok_nonneg; try done; apply Hok).
  rewrite Z.sub_0_r. by destruct (owner _ s).
Qed.

Lemma total_weight_from_sum acc bks :
  nonneg (weights bks) -> 0 <= acc -> acc + sum (weights bks) < 2 ^ 64 ->
  total_weight_from acc bks = acc + sum (weights bks).
Proof.
  revert acc. induction bks as [|b bks IH]; cbn; intros acc H Hc Hb; [lia|].
  inversion H; subst. pose proof (sum_nonneg (weights bks) ltac:(done)). rewrite add64_small, IH by (done || lia). lia.
Qed.

(** ** The forwarding share is dealt out in order *)

Section Degraded.
Context (bks : list Backend) (Hok : weights_ok bks).

#[local] Abbreviation ws := (map weight bks).
#[local] Abbreviation T := (sum (map weight bks)).

Definition forwards_at (c : Z) : bool := own_in (forwards bks) (weights bks) (c mod sum (weights bks)).

(** How many of the counters before [c] fell to a forwarding backend. *)
Definition forwarded_before (c : Z) : Z := cnt forwards_at 0 (Z.to_nat c).

Lemma sum_in_split : sum_in (rejects bks) ws = T - sum_in (forwards bks) ws.
Proof using Type.
  unfold forwards. clear. generalize (rejects bks) as C. generalize (weights bks) as l.
  induction l as [|w l IH]; intros C; cbn; [done|]. rewrite (IH (fun i => C (S i))).
  destruct (C 0%nat); cbn; lia.
Qed.

Lemma forwards_at_periodic x : 0 < T -> forwards_at (x + T) = forwards_at x.
Proof using Type. intros H. unfold forwards_at. f_equal.  rewrite <- (Z.mul_1_l T) at 1. apply Z_mod_plus_full. Qed.

Lemma forwarded_before_split q s : 0 < T -> 0 <= q -> 0 <= s <= T ->
  forwarded_before (q * T + s) = q * sum_in (forwards bks) ws + cnt (own_in (forwards bks) ws) 0 (Z.to_nat s).
Proof using Hok.
  intros HT Hq Hs. pose proof (weights_ok_nonneg bks Hok) as Hnn.
  assert (Hin : forall n, Z.of_nat n <= T -> cnt forwards_at 0 n = cnt (own_in (forwards bks) ws) 0 n).
  { intros n Hn. apply cnt_ext. intros x Hx. unfold forwards_at.  rewrite Z.mod_small by lia. done. }
  assert (0 <= q * T) by (apply Z.mul_nonneg_nonneg; lia).
  unfold forwarded_before. rewrite Z2Nat.inj_add, Z2Nat.inj_mul, cnt_app by lia.
  rewrite cnt_periods by (intros x _; rewrite Z2Nat.id by lia; by apply forwards_at_periodic).
  rewrite (Z2Nat.id q) by done. rewrite (Hin (Z.to_nat T)) by lia. rewrite (cnt_owned _ ws) by done.
  f_equal. rewrite cnt_shift.
  rewrite <- Hin by lia. apply cnt_ext. intros x _. unfold forwards_at. 
  rewrite Nat2Z.inj_mul, !Z2Nat.id by lia. f_equal. apply Z_mod_plus_full.
Qed.

Lemma forward_pick_counts c :
  0 < T -> 0 <= c < 2 ^ 64 -> forwards_at c = true ->
  forward_pick c T (sum_in (rejects bks) ws) (c mod T) (below (forwards bks) ws (c mod T)) = forwarded_before c
  /\ forwarded_before c <= c.
Proof using Hok.
  intros HT Hc Ho. pose proof (weights_ok_nonneg bks Hok) as Hnn. destruct Hok as [_ Hsum].
  pose proof (Z.mod_pos_bound c T HT) as Hm. pose proof (Z_div_mod_eq_full c T) as Hdm.
  assert (0 <= c / T) as Hq by (apply Z.div_pos; lia).
  pose proof (sum_in_bounds (forwards bks) ws Hnn) as Hf.
  pose proof (cnt_bounds (own_in (forwards bks) ws) 0 (Z.to_nat (c mod T))) as Hcnt.
  assert (forwarded_before c = c / T * sum_in (forwards bks) ws + (c mod T - below (forwards bks) ws (c mod T))) as HF.
  { rewrite Hdm at 1. rewrite (Z.mul_comm T), forwarded_before_split by lia. f_equal. by apply cnt_before; [|lia|]. }
  rewrite (cnt_before _ _ _ Hnn) in Hcnt by (done || lia).
  assert (forwarded_before c <= c) as Hle.
  { unfold forwarded_before. pose proof (cnt_bounds forwards_at 0 (Z.to_nat c)). lia. }
  split; [|done]. assert (0 <= c / T * sum_in (forwards bks) ws) by (apply Z.mul_nonneg_nonneg; lia).
  unfold forward_pick. rewrite sum_in_split.
  replace (T - (T - sum_in (forwards bks) ws)) with (sum_in (forwards bks) ws) by lia.
  rewrite (as_u64_small (sum_in _ _)) by (red; lia). rewrite (as_u64_small (_ * _)) by (red; lia).
  rewrite (as_u64_small (_ - _)) by (red; lia). rewrite as_u64_small by (red; lia). by rewrite HF.
Qed.

(** [select_degraded] against the reference, under any reads. *)
Lemma select_degraded_spec reads c :
  0 < T -> 0 <= c < 2 ^ 64 ->
  exists o, owner ws (c mod T) = Some o /\
  select_degraded bks reads c T =
    Some (if rejects bks o || (sum (forward_weights (reads 1%nat) 0 bks) =? 0) then o
          else default o (owner (forward_weights (reads 2%nat) 0 bks)
                            (forwarded_before c mod sum (forward_weights (reads 1%nat) 0 bks)))).
Proof using Hok.
  intros HT Hc. pose proof (weights_ok_nonneg bks Hok) as Hnn.
  pose proof (Z.mod_pos_bound c T HT) as Hm.
  pose proof (owner_some ws (c mod T) Hnn ltac:(lia)) as Ho.
  unfold select_degraded. rewrite slot_owner_owner by done. 
  destruct (owner ws (c mod T)) as [o|] eqn:Eo; [|lia]. exists o. split; [done|].
  rewrite shares_from_spec by (first [done | cbn; lia | apply Hok]).
  cbn [healthy_forward rejected rejected_below_slot cumulative no_shares]. rewrite !Z.add_0_l, Z.sub_0_r.
  fold (rejects bks o). destruct (rejects bks o) eqn:Er; cbn [orb]; [done|].
  destruct (Z.eqb_spec (sum (forward_weights (reads 1%nat) 0 bks)) 0) as [E0|E0]; [done|].
  pose proof (sum_nonneg _ (forward_weights_nonneg (reads 1%nat) 0 bks Hnn)) as HH.
   destruct (forward_pick_counts c HT Hc) as [-> _].
  { unfold forwards_at, own_in.  rewrite Eo. unfold forwards. by rewrite Er. }
  unfold nth_healthy_weighted. rewrite nth_healthy_from_owner; [|done| |apply Hok].
  - rewrite Z.sub_0_r. destruct (owner (forward_weights _ _ _) _); done.
  - split; [done|]. apply Z.mod_pos_bound. lia.
Qed.

End Degraded.

(** ** One answer *)

Lemma forwarded_before_period bks k c : weights_ok bks -> 0 < sum (weights bks) -> 0 <= k -> 0 <= c ->
  forwarded_before bks (c + k * sum (weights bks)) = forwarded_before bks c + k * sum_in (forwards bks) (weights bks).
Proof.
  intros Hok HT Hk Hc. set (T := sum (weights bks)) in *.
  pose proof (Z.mod_pos_bound c T HT). assert (0 <= c / T) by (apply Z.div_pos; lia).
  assert (c = c / T * T + c mod T) as E by (pose proof (Z_div_mod_eq_full c T); lia).
  replace (c + k * T) with ((c / T + k) * T + c mod T) by lia. rewrite E at 3.
  unfold T in *. rewrite !forwarded_before_split by (done || lia). lia.
Qed.

Lemma healthy_sum_bounds health i bks : nonneg (weights bks) ->
  sum (forward_weights health i bks) <= healthy_sum health i bks <= sum (weights bks).
Proof.
  revert i. induction bks as [|b bks IH]; cbn; intros i H; [done|]. inversion H; subst.
  specialize (IH (S i) ltac:(done)). destruct (bool_decide (action b = Reject)), (health i (socket_addr b)); cbn; lia.
Qed.

Lemma healthy_sum_nonneg health i bks : nonneg (weights bks) -> 0 <= healthy_sum health i bks.
Proof.
  intros H. pose proof (healthy_sum_bounds health i bks H).
  pose proof (sum_nonneg _ (forward_weights_nonneg health i bks H)). lia.
Qed.

(** When the healthy weight is the whole weight, every backend with weight is
    healthy. *)
Lemma healthy_sum_full health i bks : nonneg (weights bks) -> healthy_sum health i bks = sum (weights bks) ->
  (forall j b, bks !! j = Some b -> 0 < weight b -> health (i + j)%nat (socket_addr b) = true) /\
  sum (forward_weights health i bks) = sum_in (forwards bks) (weights bks).
Proof.
  revert i. induction bks as [|b bks IH]; intros i H Hs; [split; [intros [|j] b; done|done]|].
  inversion H; subst. cbn [healthy_sum map sum] in Hs. pose proof (healthy_sum_bounds health (S i) bks ltac:(done)).
  assert ((0 < weight b -> health i (socket_addr b) = true) /\ healthy_sum health (S i) bks = sum (weights bks)) as [Hb Hr].
  { destruct (health i (socket_addr b)); split; try done; lia. }
  destruct (IH (S i) ltac:(done) Hr) as [IH1 IH2]. split.
  - intros [|j] b' Hl Hw; cbn in Hl.
    + injection Hl as <-. rewrite Nat.add_0_r. auto.
    + replace (i + S j)%nat with (S i + j)%nat by lia. by apply IH1.
  - cbn [map forward_weights sum sum_in]. change (fun j => forwards (b :: bks) (S j)) with (forwards bks).
    change (forwards (b :: bks) 0) with (negb (bool_decide (action b = Reject))). rewrite IH2.
    destruct (bool_decide (action b = Reject)); cbn; [done|].
    destruct (health i (socket_addr b)); cbn; [done|]. destruct (Z.le_gt_cases (weight b) 0); [lia|]. naive_solver lia.
Qed.

Lemma sum_weights_sum ws : sum_weights ws = sum ws.
Proof.
  unfold sum_weights. enough (forall a, fold_left Z.add ws a = a + sum ws) by (by rewrite H).
  induction ws as [|w ws IH]; intros a; cbn; [lia|]. rewrite IH. lia.
Qed.

Lemma partition_point_owner acc ws slot i :
  owner ws (slot - acc) = Some i -> partition_point (prefix_sums acc ws) slot = i.
Proof.
  revert acc i. induction ws as [|w ws IH]; cbn; intros acc i; [done|].
  destruct (Z.ltb_spec (slot - acc) w), (Z.leb_spec (acc + w) slot); try lia; [by intros [= <-]|].
  replace (slot - acc - w) with (slot - (acc + w)) by lia. unfold partition_point in IH.
  destruct (owner ws (slot - (acc + w))) eqn:E; [|done]. intros [= <-]. by rewrite (IH _ _ E).
Qed.

Section Answers.
Context {RE : RegexEngine}.

(** A rule as [push_route] leaves it. *)
Definition compiled (r : HttpRouteRule) : Prop :=
  total_weight r = sum_weights (map weight (backends r)) /\
  cumulative_weights r = prefix_sums 0 (map weight (backends r)).

Lemma with_metadata_compiled r host : compiled (with_metadata r host).
Proof. done. Qed.

(** The reference for both selectors: what a draw of [c] yields. *)
Definition answer (bks : list Backend) (reads : Reads) (c : Z) : option nat :=
  let T := sum (map weight bks) in
  let hw := healthy_sum (reads 0%nat) 0 bks in
  if T =? 0 then None
  else match owner (map weight bks) (c mod T) with
       | None => None
       | Some o =>
           if (hw =? T) || (hw =? 0) || rejects bks o || (sum (forward_weights (reads 1%nat) 0 bks) =? 0) then Some o
           else Some (default o (owner (forward_weights (reads 2%nat) 0 bks)
                       (forwarded_before bks c mod sum (forward_weights (reads 1%nat) 0 bks))))
       end.

Lemma pick_l4_answer bks reads c :
  weights_ok bks -> 0 <= c < 2 ^ 64 -> 0 < sum (weights bks) ->
  pick_l4 bks reads (sum (weights bks)) (healthy_sum (reads 0%nat) 0 bks) c = answer bks reads c.
Proof.
  intros Hok Hc HT. unfold pick_l4, answer. destruct (Z.eqb_spec (sum (weights bks)) 0); [lia|].
  rewrite slot_owner_owner by done.
  destruct (select_degraded_spec bks Hok reads c HT Hc) as (o & Ho & ->). rewrite Ho.
  destruct ((_ =? _) || (_ =? 0)); cbn [orb]; [done|]. by destruct (rejects bks o || _).
Qed.

Lemma answer_single b reads c : 0 <= weight b ->
  answer [b] reads c = if 0 <? weight b then Some 0%nat else None.
Proof.
  intros Hw. unfold answer. cbn -[forwarded_before Z.modulo]. rewrite Z.add_0_r.
  destruct (Z.eqb_spec (weight b) 0), (Z.ltb_spec 0 (weight b)); try lia; [done|].
  pose proof (Z.mod_pos_bound c (weight b)). destruct (Z.ltb_spec (c mod weight b) (weight b)); [|lia].
  destruct (reads 0%nat 0%nat (socket_addr b)); cbn; rewrite ?Z.add_0_r, ?Z.eqb_refl, ?orb_true_r; done.
Qed.

(** Both selectors, given the counter they draw. *)
Lemma select_http_answer rule reads counters :
  compiled rule -> weights_ok (backends rule) -> u64 (default 0 (counters !! counter rule)) ->
  let c := default 0 (counters !! counter rule) in
  select_healthy_weighted_backend rule reads counters =
  (answer (backends rule) reads c,
   if (length (backends rule) =? 1)%nat || (sum (weights (backends rule)) =? 0) then counters
   else <[counter rule := as_u64 (c + 1)]> counters).
Proof.
  intros [Ht Hcw] Hok Hc c. pose proof (weights_ok_nonneg _ Hok) as Hnn.
  rewrite sum_weights_sum in Ht. unfold select_healthy_weighted_backend.
  assert (Hmany : (length (backends rule) =? 1)%nat = false ->
    (let healthy_weight := healthy_weight_from (reads 0%nat) 0 0 (backends rule) in
     let pool_weight := if healthy_weight =? 0 then total_weight rule else healthy_weight in
     if pool_weight =? 0 then (None, counters)
     else let '(drawn, next) := fetch_add1 c in
       (pick_http rule reads pool_weight drawn, <[counter rule := next]> counters)) =
    (answer (backends rule) reads c,
     if (length (backends rule) =? 1)%nat || (sum (weights (backends rule)) =? 0) then counters
     else <[counter rule := as_u64 (c + 1)]> counters)).
  { intros ->. cbv zeta. rewrite healthy_weight_from_sum, Z.add_0_l by (done || apply Hok).
    pose proof (healthy_sum_bounds (reads 0%nat) 0 (backends rule) Hnn).
    pose proof (healthy_sum_nonneg (reads 0%nat) 0 (backends rule) Hnn). cbn [orb fetch_add1].
    rewrite Ht. set (hw := healthy_sum _ _ _) in *. set (T := sum (weights (backends rule))) in *.
    destruct (Z.eqb_spec T 0) as [HT|HT].
    { destruct (Z.eqb_spec hw 0); [|lia]. rewrite (proj2 (Z.eqb_eq T 0)) by done.
      unfold answer. fold T. by rewrite (proj2 (Z.eqb_eq T 0)). }
    destruct (Z.eqb_spec (if hw =? 0 then T else hw) 0) as [Hp|Hp]; [destruct (Z.eqb_spec hw 0); lia|].
    f_equal. assert (0 <= c < 2 ^ 64) as Hc' by (unfold u64 in Hc; unfold c; lia).
    rewrite <- pick_l4_answer by (done || (fold T; lia)). fold hw. fold T.
    unfold pick_http, pick_l4. rewrite Ht, Hcw. rewrite slot_owner_owner by done.
    pose proof (Z.mod_pos_bound c T ltac:(lia)) as Hm.
    pose proof (owner_some _ (c mod T) Hnn ltac:(lia)) as Ho.
    destruct (owner (weights (backends rule)) (c mod T)) as [o|] eqn:Eo; [|fold T in Ho; lia].
    rewrite (partition_point_owner 0 (weights (backends rule)) (c mod T) o) by (by rewrite Z.sub_0_r).
    destruct (Z.eqb_spec hw 0) as [E|E]; [by rewrite Z.eqb_refl, orb_true_r|]. rewrite orb_false_r.
    by destruct (hw =? T). }
  destruct (backends rule) as [|b [|b' l]] eqn:Eb; [by apply Hmany| |by apply Hmany].
  cbn [length Nat.eqb orb]. inversion Hnn; subst. by rewrite answer_single.
Qed.

Lemma select_l4_answer s key bks reads :
  weights_ok bks -> u64 (default 0 (route_counters s !! key)) ->
  let c := default 0 (route_counters s !! key) in
  (select_l4_backend s key bks reads).1 = answer bks reads c ≫= fun i => bks !! i.
Proof.
  intros Hok Hc c. pose proof (weights_ok_nonneg _ Hok) as Hnn. unfold select_l4_backend.
  rewrite total_weight_from_sum, healthy_weight_from_sum, !Z.add_0_l by (done || apply Hok).
  pose proof (sum_nonneg _ Hnn). destruct (Z.eqb_spec (sum (weights bks)) 0) as [E|E].
  - unfold answer. by rewrite (proj2 (Z.eqb_eq _ 0) E).
  - unfold next_counter, fetch_add1. cbn [fst]. unfold u64 in Hc. rewrite pick_l4_answer by (done || lia). done.
Qed.

(** [n] selections in a row, the [k]-th under the reads [reads k]. *)
Fixpoint select_run (rule : HttpRouteRule) (reads : nat -> Reads) (counters : gmap loc Z) (n : nat)
  : list (option nat) * gmap loc Z :=
  match n with
  | O => ([], counters)
  | S n' =>
      let '(l, cs) := select_run rule reads counters n' in
      let '(a, cs') := select_healthy_weighted_backend rule (reads n') cs in
      (l ++ [a], cs')
  end.

Definition times (i : nat) (l : list (option nat)) : Z :=
  Z.of_nat (length (filter (fun a => a = Some i) l)).

Lemma times_snoc i l a : times i (l ++ [a]) = times i l + Z.b2z (bool_decide (a = Some i)).
Proof.
  unfold times. rewrite filter_app, length_app. cbn. case_decide; case_bool_decide; try done; cbn; lia.
Qed.

(** A run answers for consecutive counters. *)
Lemma select_run_answers rule reads counters n i :
  compiled rule -> weights_ok (backends rule) ->
  let c0 := default 0 (counters !! counter rule) in
  0 <= c0 < 2 ^ 64 -> c0 + Z.of_nat n <= 2 ^ 64 ->
  times i (select_run rule reads counters n).1 =
    cnt (fun x => bool_decide (answer (backends rule) (reads (Z.to_nat (x - c0))) x = Some i)) c0 n.
Proof.
  intros Hcp Hok c0 H0 Hn. pose proof (weights_ok_nonneg _ Hok) as Hnn.
  enough (times i (select_run rule reads counters n).1 =
    cnt (fun x => bool_decide (answer (backends rule) (reads (Z.to_nat (x - c0))) x = Some i)) c0 n /\
    default 0 ((select_run rule reads counters n).2 !! counter rule) =
    if (length (backends rule) =? 1)%nat || (sum (weights (backends rule)) =? 0) then c0
    else as_u64 (c0 + Z.of_nat n)) by tauto.
  induction n as [|n IH].
  { cbn. split; [done|]. destruct (_ || _); [done|]. fold c0. rewrite Z.add_0_r, as_u64_small; [done|red; lia]. }
  destruct IH as [IH1 IH2]; [lia|]. cbn [select_run].
  destruct (select_run rule reads counters n) as [l cs] eqn:Er. cbn [fst snd] in IH1, IH2.
  assert (Hu : u64 (default 0 (cs !! counter rule))).
  { rewrite IH2. destruct (_ || _); [red; lia|]. unfold as_u64, u64. apply (wrap_bound 64). lia. }
  rewrite select_http_answer by done. cbn [fst snd]. rewrite times_snoc, IH1. cbn [cnt].
  replace (c0 + Z.of_nat n - c0) with (Z.of_nat n) by lia. rewrite Nat2Z.id. split.
  - do 3 f_equal. rewrite IH2.
    destruct (Nat.eqb_spec (length (backends rule)) 1) as [E1|E1]; cbn [orb].
    + destruct (backends rule) as [|b [|]]; [done| |done]. inversion Hnn; subst. by rewrite !answer_single.
    + destruct (Z.eqb_spec (sum (weights (backends rule))) 0) as [E|E].
      * unfold answer. by rewrite (proj2 (Z.eqb_eq _ 0) E).
      * rewrite as_u64_small by (red; lia). done.
  - rewrite IH2. destruct (_ || _); [done|]. rewrite lookup_insert_eq. cbn. unfold as_u64, wrap.
    rewrite Zplus_mod_idemp_l. f_equal. lia.
Qed.

(** An answer, case by case. *)
Lemma answer_sound bks reads c :
  nonneg (weights bks) -> 0 < sum (weights bks) -> 0 <= c ->
  exists o i, owner (weights bks) (c mod sum (weights bks)) = Some o /\ answer bks reads c = Some i /\
  (exists b, bks !! i = Some b /\ 0 < weight b) /\
  (rejects bks o = true -> i = o) /\
  (rejects bks o = false -> rejects bks i = false) /\
  (i = o \/ exists b, bks !! i = Some b /\ action b <> Reject /\ reads 2%nat i (socket_addr b) = true).
Proof.
  intros Hnn HT Hc. pose proof (Z.mod_pos_bound c _ HT) as Hm.
  pose proof (owner_some _ (c mod sum (weights bks)) Hnn ltac:(lia)) as Ho. unfold answer.
  destruct (Z.eqb_spec (sum (weights bks)) 0); [lia|].
  destruct (owner (weights bks) _) as [o|]; [|lia]. destruct Ho as [_ (w & Hw & Hpos)].
  rewrite list_lookup_fmap in Hw. apply fmap_Some in Hw as (b & Hb & ->). exists o.
  destruct (_ || rejects bks o || _) eqn:E; [exists o; repeat split; eauto|].
  pose proof (forward_weights_nonneg (reads 2%nat) 0 bks Hnn) as Hf.
  set (s := forwarded_before bks c mod _). bool_simpl.
  assert (0 <= s) as Hs.
  { pose proof (sum_nonneg _ (forward_weights_nonneg (reads 1%nat) 0 bks Hnn)). apply Z.mod_pos_bound. lia. }
  pose proof (owner_some _ s Hf Hs) as Ho2. destruct (owner (forward_weights _ _ _) s) as [k|]; cbn [default].
  - destruct Ho2 as [_ (w & Hk & Hw)]. apply forward_weights_lookup in Hk as (b' & Hb' & Hw' & Ha & Hh); [|done].
    exists k. split; [done|]. split; [done|]. split; [exists b'; split; [done|lia]|].
    split; [congruence|]. split; [intros _; unfold rejects; rewrite Hb'; by apply bool_decide_eq_false|].
    right. exists b'. done.
  - exists o. repeat split; eauto.
Qed.

(** Whatever backend health does while the selection runs, it answers
    [None] exactly when no backend has weight, and otherwise picks a backend
    that has; the HTTP and the L4 selectors, though coded differently, pick
    the same backend from the same draw. *)
Theorem selection_total rule reads counters s key :
  compiled rule -> weights_ok (backends rule) ->
  u64 (default 0 (counters !! counter rule)) ->
  default 0 (route_counters s !! key) = default 0 (counters !! counter rule) ->
  ((select_healthy_weighted_backend rule reads counters).1 = None <->
     Forall (fun b => weight b = 0) (backends rule)) /\
  (forall i, (select_healthy_weighted_backend rule reads counters).1 = Some i ->
     exists b, backends rule !! i = Some b /\ 0 < weight b) /\
  (select_l4_backend s key (backends rule) reads).1 =
     (select_healthy_weighted_backend rule reads counters).1 ≫= fun i => backends rule !! i.
Proof.
  intros Hcp Hok Hc Hs. pose proof (weights_ok_nonneg _ Hok) as Hnn.
  rewrite select_http_answer by done. cbn [fst]. rewrite select_l4_answer by (rewrite ?Hs; done). rewrite Hs.
  pose proof (sum_nonneg _ Hnn) as H0.
  assert (Hz : sum (weights (backends rule)) = 0 <-> Forall (fun b => weight b = 0) (backends rule)).
  { clear -Hnn. induction (backends rule) as [|b l IH]; cbn in *; [split; [constructor|done]|]. inversion Hnn; subst.
    pose proof (sum_nonneg (weights l) ltac:(done)). rewrite Forall_cons, <- IH by done. lia. }
  rewrite <- Hz. destruct (Z.eq_dec (sum (weights (backends rule))) 0) as [E|E].
  - assert (answer (backends rule) reads (default 0 (counters !! counter rule)) = None) as ->.
    { unfold answer. by rewrite (proj2 (Z.eqb_eq _ 0) E). }
    done.
  - unfold u64 in Hc. destruct (answer_sound (backends rule) reads (default 0 (counters !! counter rule)) Hnn)
      as (o & i & _ & -> & Hb & _); [lia|lia|].
    split; [split; [done|congruence]|]. split; [|done]. by intros j [= <-].
Qed.

(** Over any [total_weight] consecutive draws, and whatever health does
    from one read to the next, a Reject entry (an invalid backendRef) is
    picked exactly its weight's number of times: it neither absorbs the share
    of an unhealthy backend nor gives up its own. *)
Theorem reject_share_exact rule reads counters i b :
  compiled rule -> weights_ok (backends rule) ->
  backends rule !! i = Some b -> action b = Reject ->
  let c0 := default 0 (counters !! counter rule) in
  0 <= c0 < 2 ^ 64 -> c0 + total_weight rule <= 2 ^ 64 ->
  times i (select_run rule reads counters (Z.to_nat (total_weight rule))).1 = weight b.
Proof.
  intros Hcp Hok Hb Hr c0 H0 Hn. pose proof (weights_ok_nonneg _ Hok) as Hnn.
  pose proof (proj1 Hcp) as Ht. rewrite sum_weights_sum in Ht. rewrite Ht in *.
  pose proof (sum_nonneg _ Hnn) as HT. set (T := sum (weights (backends rule))) in *.
  destruct (Z.eq_dec T 0) as [E|E].
  { rewrite E. transitivity 0; [done|]. assert (0 <= weight b <= T); [|lia].
    pose proof (sum_in_bounds (Nat.eqb i) _ Hnn) as Hbd. rewrite sum_in_at, list_lookup_fmap, Hb in Hbd. exact Hbd. }
  rewrite select_run_answers by (first [done | fold c0; lia]). fold c0.
  rewrite (cnt_ext _ (fun x => own_in (Nat.eqb i) (weights (backends rule)) (x mod T))).
  - rewrite cnt_window by (first [lia | intros x Hx]; rewrite Z2Nat.id by done; f_equal;
      rewrite <- (Z.mul_1_l T) at 1; apply Z_mod_plus_full).
    rewrite (cnt_ext _ (own_in (Nat.eqb i) (weights (backends rule)))).
    + unfold T. rewrite cnt_owned, sum_in_at, list_lookup_fmap, Hb by done. done.
    + intros x Hx. by rewrite Z.mod_small by lia.
  - intros x Hx. destruct (answer_sound (backends rule) (reads (Z.to_nat (x - c0))) x Hnn)
      as (o & k & Ho & -> & _ & Hro & Hno & _); [fold T; lia|lia|].
    unfold own_in. fold T in Ho. rewrite Ho.
    assert (rejects (backends rule) i = true) as Hri.
    { unfold rejects. rewrite Hb. by apply bool_decide_eq_true. }
    apply eq_true_iff_eq. rewrite bool_decide_eq_true, Nat.eqb_eq. split.
    + intros [= ->]. destruct (rejects (backends rule) o) eqn:Eo; [auto|]. rewrite Hno in Hri by done. done.
    + intros ->. by rewrite Hro.
Qed.

Lemma rejects_at bks i b : bks !! i = Some b -> rejects bks i = bool_decide (action b = Reject).
Proof. unfold rejects. by intros ->. Qed.

Lemma owner_eq_own_in ws i s : bool_decide (owner ws s = Some i) = own_in (Nat.eqb i) ws s.
Proof.
  unfold own_in. apply eq_true_iff_eq. rewrite bool_decide_eq_true. destruct (owner ws s) as [k|]; [|done].
  rewrite Nat.eqb_eq. naive_solver.
Qed.

(** Over [k] rounds of the whole weight, position [i] owns [k] times its
    weight, wherever the rounds start. *)
Lemma cnt_rounds ws i k a : nonneg ws -> 0 < sum ws -> 0 <= k -> 0 <= a ->
  cnt (fun x => bool_decide (owner ws (x mod sum ws) = Some i)) a (Z.to_nat (k * sum ws)) = k * default 0 (ws !! i).
Proof.
  intros Hnn HT Hk Ha.
  assert (Hper : forall q x, owner ws ((x + q * sum ws) mod sum ws) = owner ws (x mod sum ws)).
  { intros q x. by rewrite Z_mod_plus_full. }
  rewrite cnt_window; [| |done].
  2: { intros x Hx. rewrite Z2Nat.id by lia. by rewrite Hper. }
  rewrite Z2Nat.inj_mul by lia. rewrite cnt_periods.
  2: { intros x Hx. rewrite Z2Nat.id by lia. pose proof (Hper 1 x) as E. rewrite Z.mul_1_l in E. by rewrite E. }
  rewrite Z2Nat.id by done. f_equal. rewrite (cnt_ext _ (own_in (Nat.eqb i) ws)).
  - by rewrite cnt_owned, sum_in_at.
  - intros x Hx. rewrite Z.mod_small by lia. apply owner_eq_own_in.
Qed.

Lemma owner_has_weight ws s i w : nonneg ws -> 0 <= s -> owner ws s = Some i -> ws !! i = Some w -> 0 < w.
Proof.
  intros Hnn Hs Ho Hw. pose proof (owner_some ws s Hnn Hs) as H. rewrite Ho in H.
  destruct H as [_ (w' & ? & ?)]. congruence.
Qed.

Section Steady.
Context (bks : list Backend) (h : HealthRegistry).
#[local] Abbreviation T := (sum (map weight bks)).
#[local] Abbreviation fw := (forward_weights (steady h 0%nat) 0 bks).

(** With a healthy forwarding backend in the list, a forwarding backend is
    picked when its turn among the forwarding picks comes. *)
Lemma answer_degraded c i b :
  weights_ok bks -> 0 < sum fw -> healthy_sum (steady h 0%nat) 0 bks <> T ->
  0 <= c -> bks !! i = Some b -> action b <> Reject ->
  bool_decide (answer bks (steady h) c = Some i) =
  forwards_at bks c && bool_decide (owner fw (forwarded_before bks c mod sum fw) = Some i).
Proof using Type.
  intros Hok HH Hne Hc Hb Ha. pose proof (weights_ok_nonneg _ Hok) as Hnn.
  pose proof (healthy_sum_bounds (steady h 0%nat) 0 bks Hnn) as Hhs.
  unfold answer. change (steady h 1%nat) with (steady h 0%nat). change (steady h 2%nat) with (steady h 0%nat).
  destruct (Z.eqb_spec T 0); [lia|]. unfold forwards_at, own_in, forwards.
  pose proof (Z.mod_pos_bound c T ltac:(lia)) as Hm.
  pose proof (owner_some _ (c mod T) Hnn ltac:(lia)) as Ho. destruct (owner (weights bks) (c mod T)) as [o|]; [|lia].
  destruct (Z.eqb_spec (healthy_sum (steady h 0%nat) 0 bks) T), (Z.eqb_spec (healthy_sum (steady h 0%nat) 0 bks) 0),
    (Z.eqb_spec (sum fw) 0); try lia.
  cbn [orb]. rewrite orb_false_r. destruct (rejects bks o) eqn:Er; cbn [negb andb].
  - apply bool_decide_eq_false. intros [= ->]. rewrite (rejects_at _ _ _ Hb) in Er. bool_simpl. done.
  - pose proof (Z.mod_pos_bound (forwarded_before bks c) (sum fw) HH) as Hm2.
    pose proof (owner_some fw _ (forward_weights_nonneg _ _ _ Hnn) (proj1 Hm2)) as Ho2.
    destruct (owner fw _) as [k|]; [done|lia].
Qed.

Lemma cnt_degraded i b c0 :
  weights_ok bks -> 0 < sum fw -> healthy_sum (steady h 0%nat) 0 bks <> T ->
  0 <= c0 -> bks !! i = Some b -> action b <> Reject ->
  cnt (fun x => bool_decide (answer bks (steady h) x = Some i)) c0 (Z.to_nat (sum fw * T)) =
  sum_in (forwards bks) (map weight bks) * default 0 (fw !! i).
Proof using Type.
  intros Hok HH Hne Hc Hb Ha. pose proof (weights_ok_nonneg _ Hok) as Hnn.
  pose proof (healthy_sum_bounds (steady h 0%nat) 0 bks Hnn) as Hhs.
  assert (0 < T) as HT by lia. assert (0 <= sum fw * T) as Hn0 by (apply Z.mul_nonneg_nonneg; lia).
  pose proof (forward_weights_nonneg (steady h 0%nat) 0 bks Hnn) as Hfn.
  set (turn := fun k => bool_decide (owner fw (k mod sum fw) = Some i)).
  rewrite (cnt_ext _ (fun x => forwards_at bks x && turn (forwarded_before bks x))).
  2: { intros x Hx. apply (answer_degraded x i b); (done || lia). }
  rewrite cnt_window; [| |done].
  - unfold forwarded_before. rewrite cnt_numbered.
    change (cnt (forwards_at bks) 0 (Z.to_nat (sum fw * T))) with (forwarded_before bks (sum fw * T)).
    pose proof (forwarded_before_period bks (sum fw) 0 Hok HT ltac:(lia) ltac:(lia)) as E.
    rewrite Z.add_0_l in E. rewrite E. change (forwarded_before bks 0) with 0. rewrite Z.add_0_l.
    unfold turn. rewrite Z.mul_comm, cnt_rounds; try done; try lia. by apply sum_in_bounds.
  - intros x Hx. rewrite Z2Nat.id by done. f_equal.
    + unfold forwards_at. by rewrite Z_mod_plus_full.
    + unfold turn. rewrite forwarded_before_period by (done || lia). rewrite (Z.mul_comm (sum fw)). by rewrite Z_mod_plus_full.
Qed.

End Steady.

(** C37: while health stands still, some forwarding backend with weight is
    healthy and the counter does not wrap, the shares are exact over [healthy weight * total weight]
    consecutive draws: a Reject entry keeps its configured share, the
    forwarding share goes to the healthy forwarding backends in proportion to
    their weights, and an unhealthy one gets nothing. *)
Theorem weighted_fairness rule h counters i b :
  compiled rule -> weights_ok (backends rule) -> backends rule !! i = Some b ->
  let T := total_weight rule in
  let H := sum (forward_weights (steady h 0%nat) 0 (backends rule)) in
  let c0 := default 0 (counters !! counter rule) in
  0 < H -> 0 <= c0 < 2 ^ 64 -> c0 + H * T <= 2 ^ 64 ->
  times i (select_run rule (fun _ => steady h) counters (Z.to_nat (H * T))).1 =
  match action b with
  | Reject => H * weight b
  | Forward => if is_healthy h (socket_addr b)
               then sum_in (forwards (backends rule)) (map weight (backends rule)) * weight b
               else 0
  end.
Proof.
  intros Hcp Hok Hb T H c0 HH Hc0 Hn. pose proof (weights_ok_nonneg _ Hok) as Hnn.
  pose proof (proj1 Hcp) as Ht. rewrite sum_weights_sum in Ht. unfold T in *. clear T. rewrite Ht in *.
  pose proof (healthy_sum_bounds (steady h 0%nat) 0 (backends rule) Hnn) as Hhs. fold H in Hhs.
  set (T := sum (weights (backends rule))) in *.
  assert (0 <= H * T) as Hn0 by (apply Z.mul_nonneg_nonneg; lia).
  assert (Hlook : weights (backends rule) !! i = Some (weight b)) by (by rewrite list_lookup_fmap, Hb).
  rewrite select_run_answers by (first [done | fold c0; lia]). fold c0.
  assert (Hfast : forall P : Z -> bool, (forall x, c0 <= x -> P x = bool_decide (owner (weights (backends rule)) (x mod T) = Some i)) ->
    cnt P c0 (Z.to_nat (H * T)) = H * weight b).
  { intros P HP. rewrite (cnt_ext _ (fun x => bool_decide (owner (weights (backends rule)) (x mod T) = Some i))).
    - unfold T. rewrite cnt_rounds, Hlook by (done || (fold T; lia)). done.
    - intros x Hx. apply HP. lia. }
  destruct (action b) eqn:Ea.
  - assert (Hfwi : is_healthy h (socket_addr b) = true -> forward_weights (steady h 0%nat) 0 (backends rule) !! i = Some (weight b)).
    { intros Hh. apply forward_weights_at; [done|congruence|done]. }
    destruct (Z.eq_dec (healthy_sum (steady h 0%nat) 0 (backends rule)) T) as [Efull|Ne].
    + destruct (healthy_sum_full _ _ _ Hnn Efull) as [Hall Hsum]. fold H in Hsum. rewrite <- Hsum.
      rewrite Hfast.
      * destruct (is_healthy h (socket_addr b)) eqn:Eh; [done|].
        destruct (Z.lt_total 0 (weight b)) as [Hw|[Hw|Hw]].
        -- specialize (Hall i b Hb Hw). unfold steady in Hall. congruence.
        -- rewrite <- Hw. lia.
        -- rewrite Forall_lookup in Hnn. apply Hnn in Hlook. lia.
      * intros x Hx. unfold answer. fold T. destruct (Z.eqb_spec T 0); [lia|]. rewrite Efull, Z.eqb_refl. cbn [orb].
        by destruct (owner _ _).
    + unfold H, T in *. rewrite (cnt_degraded _ h i b) by (done || congruence || lia).
      destruct (is_healthy h (socket_addr b)) eqn:Eh; [by rewrite Hfwi|].
      destruct (forward_weights (steady h 0%nat) 0 (backends rule) !! i) as [w|] eqn:Ew; cbn; [|lia].
      destruct (Z.lt_total 0 w) as [Hw|[Hw|Hw]]; [|lia|].
      * apply forward_weights_lookup in Ew as (b' & Hb' & _ & _ & Hh); [|done]. unfold steady in Hh. congruence.
      * pose proof (forward_weights_nonneg (steady h 0%nat) 0 _ Hnn) as Hf. rewrite Forall_lookup in Hf. apply Hf in Ew. lia.
  - apply Hfast. intros x Hx. destruct (answer_sound (backends rule) (steady h) x Hnn)
      as (o & k & Ho & -> & _ & Hro & Hno & _); [fold T; lia|lia|]. fold T in Ho. rewrite Ho.
    assert (rejects (backends rule) i = true) as Hri by (rewrite (rejects_at _ _ _ Hb); by apply bool_decide_eq_true).
    apply bool_decide_ext. split; [|intros [= ->]; by rewrite Hro].
    intros [= ->]. destruct (rejects (backends rule) o) eqn:Eo; [by rewrite <- Hro|]. rewrite Hno in Hri by done. done.
Qed.

End Answers.

(** ** Witnesses *)

#[local] Existing Instance literal_regex.

Definition weighted (a : SocketAddr) (w : Z) (act : BackendAction) : Backend :=
  {| socket_addr := a; weight := w; backend_filters := []; use_tls := false; server_name := []; action := act |}.

(** An ejected backend of weight 2, a healthy one of weight 1 and an invalid
    backendRef of weight 1. *)
Definition degraded_rule : HttpRouteRule :=
  with_metadata (HttpRouteRule_new 1 Prefix (bs "/") [] [] []
    [weighted backend_a 2 Forward; weighted (SocketV4 167772162 8080) 1 Forward; weighted unspecified 1 Reject])
    (bs "*").

Definition degraded_registry : HealthRegistry := record_failures HealthRegistry_new backend_a 3.

Lemma degraded_rule_ok : weights_ok (backends degraded_rule).
Proof. split; [repeat constructor; cbn; lia|cbn; lia]. Qed.

Lemma selection_total_witness :
  (select_l4_backend BackendSelector_new 80 (backends degraded_rule) (steady degraded_registry)).1 =
  Some (weighted (SocketV4 167772162 8080) 1 Forward).
Proof.
  assert (Hc : u64 (default 0 ((∅ : gmap loc Z) !! counter degraded_rule))) by (vm_compute; split; congruence).
  pose proof (selection_total degraded_rule (steady degraded_registry) ∅ BackendSelector_new 80
    (with_metadata_compiled _ _) degraded_rule_ok Hc eq_refl) as (_ & _ & H).
  etransitivity; [exact H|]. vm_compute. reflexivity.
Defined.

Definition flapping : nat -> Reads :=
  fun k => if Nat.even k then steady degraded_registry else steady HealthRegistry_new.

Lemma reject_share_exact_witness :
  times 2 (select_run degraded_rule flapping {[1%positive := 5]} (Z.to_nat (total_weight degraded_rule))).1
  = weight (weighted unspecified 1 Reject).
Proof.
  refine (reject_share_exact degraded_rule flapping {[1%positive := 5]} 2 (weighted unspecified 1 Reject)
    (with_metadata_compiled _ _) degraded_rule_ok eq_refl eq_refl _ _).
  - vm_compute. split; congruence.
  - vm_compute. congruence.
Defined.

Lemma weighted_fairness_witness :
  times 1 (select_run degraded_rule (fun _ => steady degraded_registry) ∅
    (Z.to_nat (sum (forward_weights (steady degraded_registry 0%nat) 0 (backends degraded_rule))
               * total_weight degraded_rule))).1
  = (if is_healthy degraded_registry (SocketV4 167772162 8080)
     then sum_in (forwards (backends degraded_rule)) (map weight (backends degraded_rule)) * 1 else 0)
  /\ sum_in (forwards (backends degraded_rule)) (map weight (backends degraded_rule)) = 3.
Proof.
  split; [|reflexivity].
  refine (weighted_fairness degraded_rule degraded_registry ∅ 1 (weighted (SocketV4 167772162 8080) 1 Forward)
    (with_metadata_compiled _ _) degraded_rule_ok eq_refl _ _ _).
  - vm_compute. reflexivity.
  - vm_compute. split; congruence.
  - vm_compute. congruence.
Defined.

(** The same run, evaluated. *)
Example degraded_run :
  (select_run degraded_rule (fun _ => steady degraded_registry) ∅ 4).1 = [Some 1; Some 1; Some 1; Some 2]%nat.
Proof. vm_compute. reflexivity. Qed.
