(* ===== verification/PathNorm.v ===== *)
(** * Dot-segment removal

    [normalize_path], [remove_dot_segments] and [dot_segment] of
    [src/src/proxy/http_parser.rs]. The byte scan and the string rewriting
    are proved equal to RFC 3986 5.2.4 on the list of path segments. *)

From S2P Require Import Prelude Bytes.

(** ** The code *)

Inductive Dots :=
  | Segment (dots : nat)
  | WithParams.

Definition opens_encoded_dot (l : list Z) : bool :=
  match l with
  | a :: b :: c :: _ => (a =? 37) && (b =? 50) && ((c =? 101) || (c =? 69))
  | _ => false
  end.

(** The [while dots <= 2] loop of [dot_segment]; three turns at most. *)
Fixpoint dot_segment_from (turns : nat) (rest : list Z) (dots : nat) : option Dots :=
  match turns with
  | O => None
  | S turns' =>
      match rest with
      | [] => if (0 <? dots)%nat then Some (Segment dots) else None
      | c :: t =>
          if c =? 46 then dot_segment_from turns' t (S dots)
          else if opens_encoded_dot rest then dot_segment_from turns' (drop 3 rest) (S dots)
          else if c =? 47 then if (0 <? dots)%nat then Some (Segment dots) else None
          else if c =? 59 then if (0 <? dots)%nat then Some WithParams else None
          else None
      end
  end.

Definition dot_segment (segment : list Z) : option Dots := dot_segment_from 3 segment 0.

(** [out.truncate(out.rfind('/').unwrap_or(0))] *)
Definition pop_segment (out : list Z) : list Z := take (default 0%nat (rfind_byte 47 out)) out.

Fixpoint remove_loop (segments : list (list Z)) (out : list Z) : option (list Z) :=
  match segments with
  | [] => Some out
  | segment :: rest =>
      match dot_segment segment with
      | None => remove_loop rest (out ++ 47 :: segment)
      | Some WithParams => None
      | Some (Segment n) =>
          let out := if (n =? 1)%nat then out else pop_segment out in
          remove_loop rest (match rest with [] => out ++ [47] | _ => out end)
      end
  end.

Definition remove_dot_segments (path : list Z) : option (list Z) :=
  remove_loop (split_on 47 (drop 1 path)) [].

Inductive Cow :=
  | Borrowed (s : list Z)
  | Owned (s : list Z).

Definition cow_str (c : Cow) : list Z := match c with Borrowed s | Owned s => s end.

Section Normalize.
Context `{MC : Memchr}.

Fixpoint normalize_loop (fuel : nat) (path : list Z) (from : nat) : option Cow :=
  match fuel with
  | O => Some (Borrowed path)
  | S fuel' =>
      match memchr2 46 37 (drop from path) with
      | None => Some (Borrowed path)
      | Some i =>
          let at_ := (from + i)%nat in
          if bool_decide (path !! (at_ - 1)%nat = Some 47) then
            match dot_segment (drop at_ path) with
            | Some (Segment _) => Owned <$> remove_dot_segments path
            | Some WithParams => None
            | None => normalize_loop fuel' path (at_ + 1)
            end
          else normalize_loop fuel' path (at_ + 1)
      end
  end.

(** Each turn moves [from] past a byte of the path. *)
Definition normalize_path (path : list Z) : option Cow :=
  match path with
  | 47 :: _ => normalize_loop (length path) path 1
  | _ => Some (Borrowed path)
  end.

End Normalize.

(** ** Reference: RFC 3986 5.2.4 on segments *)

(** A path from its segments, each after a slash. *)
Definition join (segs : list (list Z)) : list Z := concat (map (fun s => 47 :: s) segs).

(** [kept] holds the segments kept so far, the last one first. *)
Fixpoint resolve (segs kept : list (list Z)) : list (list Z) :=
  match segs with
  | [] => kept
  | s :: rest =>
      match dot_segment s with
      | None => resolve rest (s :: kept)
      | Some (Segment 1) => resolve rest (match rest with [] => [] :: kept | _ => kept end)
      | Some _ => resolve rest (match rest with [] => [] :: tail kept | _ => tail kept end)
      end
  end.

Definition path_segments (path : list Z) : list (list Z) := split_on 47 (drop 1 path).

Definition has_params (s : list Z) : bool :=
  match dot_segment s with Some WithParams => true | _ => false end.
Definition is_plain (s : list Z) : bool := match dot_segment s with None => true | _ => false end.

(** ** Lemmas *)

Abbreviation no_slash := (Forall (fun x => x <> 47)) (only parsing).

Lemma join_app a b : join (a ++ b) = join a ++ join b.
Proof. unfold join. by rewrite map_app, concat_app. Qed.

Lemma split_join s segs : no_slash s -> Forall no_slash segs -> split_on 47 (s ++ join segs) = s :: segs.
Proof.
  intros Hs H. revert s Hs. induction H as [|t segs Ht _ IH]; intros s Hs; cbn.
  - rewrite app_nil_r. by apply split_on_no_sep.
  - rewrite split_on_app_sep by done. f_equal. by apply IH.
Qed.

Lemma split_on_join c l : c = 47 -> l = match split_on c l with [] => [] | s :: rest => s ++ join rest end.
Proof.
  intros ->. induction l as [|x t IH]; [done|]. cbn [split_on].
  destruct (Z.eqb_spec x 47) as [->|Hx].
  - pose proof (split_on_ne 47 t). destruct (split_on 47 t) as [|p r]; [done|]. cbn. f_equal. exact IH.
  - pose proof (split_on_ne 47 t). destruct (split_on 47 t) as [|p r]; [done|]. cbn. f_equal. exact IH.
Qed.

Lemma path_segments_join p : join (path_segments (47 :: p)) = 47 :: p.
Proof.
  unfold path_segments. change (drop 1 (47 :: p)) with p. pose proof (split_on_join 47 p eq_refl) as E.
  pose proof (split_on_ne 47 p). destruct (split_on 47 p) as [|s r]; [done|]. unfold join in E |- *. cbn. congruence.
Qed.

Lemma join_path_segments segs : segs <> [] -> Forall no_slash segs -> path_segments (join segs) = segs.
Proof.
  intros Hne H. destruct H as [|s segs Hs H]; [done|]. exact (split_join s segs Hs H).
Qed.

Lemma path_segments_no_slash p : Forall no_slash (path_segments p).
Proof. apply split_on_pieces. Qed.

(** A dot-segment is decided by the bytes before the next slash. *)
Lemma dot_segment_from_app n s k d : no_slash s ->
  dot_segment_from n (s ++ 47 :: k) d = dot_segment_from n s d.
Proof.
  revert s d. induction n as [|n IH]; intros s d Hs; [done|].
  destruct Hs as [|c s Hc Hs]; cbn [dot_segment_from app].
  - by destruct k as [|x [|y k]].
  - destruct (c =? 46); [by apply IH|].
    assert (opens_encoded_dot (c :: s ++ 47 :: k) = opens_encoded_dot (c :: s)) as ->.
    { destruct Hs as [|x s Hx Hs]; cbn; [by rewrite andb_false_r, ?andb_true_r; destruct k|].
      destruct Hs as [|y s Hy Hs]; cbn; [|done]. by rewrite !andb_false_r. }
    destruct (opens_encoded_dot (c :: s)) eqn:E; [|done].
    destruct Hs as [|x s Hx Hs]; [done|]. destruct Hs as [|y s Hy Hs]; [done|].
    cbn [drop app]. by apply IH.
Qed.

Lemma dot_segment_join s segs : no_slash s -> dot_segment (s ++ join segs) = dot_segment s.
Proof.
  intros Hs. destruct segs as [|t segs]; [cbn [join map concat]; by rewrite app_nil_r|]. exact (dot_segment_from_app 3 s (t ++ join segs) 0 Hs).
Qed.

Lemma dot_segment_opens c t : dot_segment (c :: t) <> None -> c = 46 \/ c = 37.
Proof.
  unfold dot_segment. cbn [dot_segment_from]. destruct (Z.eqb_spec c 46); [by left|].
  destruct (opens_encoded_dot (c :: t)) eqn:E.
  - cbn in E. destruct t as [|x [|y t]]; try done. bool_simpl. by right.
  - cbn. by destruct (c =? 47), (c =? 59).
Qed.

Lemma dot_segment_nil : dot_segment [] = None.
Proof. done. Qed.

Lemma rfind_byte_no c l : Forall (fun x => x <> c) l -> rfind_byte c l = None.
Proof. induction 1 as [|x t Hx _ IH]; cbn; [done|]. rewrite IH. by apply Z.eqb_neq in Hx as ->. Qed.

Lemma rfind_byte_last c l k : Forall (fun x => x <> c) k -> rfind_byte c (l ++ c :: k) = Some (length l).
Proof.
  intros Hk. induction l as [|x t IH]; cbn; [by rewrite rfind_byte_no, Z.eqb_refl|]. by rewrite IH.
Qed.

Lemma pop_segment_join kept : Forall no_slash kept ->
  pop_segment (join (rev kept)) = join (rev (tail kept)).
Proof.
  intros [|s k Hs _]; [done|]. cbn [tail rev]. rewrite join_app.
  unfold pop_segment. cbn [join map concat]. rewrite app_nil_r, rfind_byte_last by done.
  apply take_app_length.
Qed.

Lemma join_snoc kept s : join (rev kept) ++ 47 :: s = join (rev (s :: kept)).
Proof. cbn [rev]. rewrite join_app. unfold join at 3. cbn [map concat]. by rewrite app_nil_r. Qed.

Lemma no_slash_tail kept : Forall no_slash kept -> Forall no_slash (tail kept).
Proof. by intros [|]. Qed.

Lemma remove_loop_resolve segs kept :
  Forall no_slash segs -> Forall no_slash kept ->
  remove_loop segs (join (rev kept)) =
  if existsb has_params segs then None else Some (join (rev (resolve segs kept))).
Proof.
  intros H. revert kept. induction H as [|s segs Hs Hsegs IH]; intros kept Hd; [done|].
  cbn [remove_loop existsb resolve]. unfold has_params at 1.
  destruct (dot_segment s) as [[n|]|]; cbn [orb]; [|done|rewrite join_snoc; apply IH; by constructor].
  assert (Hn : forall d, Forall no_slash d ->
    remove_loop segs (match segs with [] => join (rev d) ++ [47] | _ => join (rev d) end) =
    if existsb has_params segs then None
    else Some (join (rev (resolve segs (match segs with [] => [] :: d | _ => d end))))).
  { intros d Hdd. destruct segs as [|t r]; [cbn; by rewrite join_snoc|]. by apply IH. }
  destruct (Nat.eqb_spec n 1) as [->|Hne]; [by apply Hn|].
  rewrite pop_segment_join by done. rewrite Hn by (by apply no_slash_tail).
  destruct n as [|[|n]]; done.
Qed.

(** ** The byte scan finds the first dot-segment *)

Fixpoint first_dots (after_slash : bool) (l : list Z) : option Dots :=
  match l with
  | [] => None
  | c :: t =>
      match (if after_slash then dot_segment l else None) with
      | Some d => Some d
      | None => first_dots (c =? 47) t
      end
  end.

Definition ends_slash (b : bool) (k : list Z) : bool := match last k with Some c => c =? 47 | None => b end.

Lemma first_dots_skip b k l :
  Forall (fun c => ~ (c = 46 \/ c = 37)) k -> first_dots b (k ++ l) = first_dots (ends_slash b k) l.
Proof.
  intros H. revert b. induction H as [|c k Hc Hk IH]; intros b; [done|]. cbn [app first_dots].
  assert ((if b then dot_segment (c :: k ++ l) else None) = None) as ->.
  { destruct b; [|done]. destruct (dot_segment _) eqn:E; [|done]. exfalso. apply Hc.
    apply (dot_segment_opens c (k ++ l)). by rewrite E. }
  rewrite IH. unfold ends_slash. rewrite last_cons. by destruct (last k).
Qed.

Lemma first_dots_inside s segs : no_slash s ->
  first_dots false (s ++ join segs) = match segs with [] => None | t :: r => first_dots true (t ++ join r) end.
Proof.
  induction 1 as [|c s Hc _ IH].
  - by destruct segs.
  - cbn [app first_dots]. apply Z.eqb_neq in Hc as ->. exact IH.
Qed.

Fixpoint first_of (segs : list (list Z)) : option Dots :=
  match segs with
  | [] => None
  | s :: r => match dot_segment s with Some d => Some d | None => first_of r end
  end.

Lemma first_dots_segments s segs : no_slash s -> Forall no_slash segs ->
  first_dots true (s ++ join segs) = first_of (s :: segs).
Proof.
  intros Hs H. revert s Hs. induction H as [|t r Ht Hr IH]; intros s Hs; cbn [first_of].
  - cbn [join map concat]. rewrite app_nil_r. destruct Hs as [|c s Hc Hs]; [done|].
    cbn [first_dots]. destruct (dot_segment (c :: s)); [done|]. apply Z.eqb_neq in Hc as ->.
    rewrite <- (app_nil_r s). exact (first_dots_inside s [] Hs).
  - change (match dot_segment t with Some d => Some d | None => first_of r end) with (first_of (t :: r)).
    rewrite <- IH by done. destruct Hs as [|c s Hc Hs].
    + change ([] ++ join (t :: r)) with (47 :: (t ++ join r)). cbn [first_dots].
      change (dot_segment []) with (@None Dots).
      destruct (dot_segment (47 :: t ++ join r)) eqn:E; [|done].
      destruct (dot_segment_opens 47 (t ++ join r)); [by rewrite E|lia|lia].
    + change ((c :: s) ++ join (t :: r)) with (c :: (s ++ join (t :: r))). cbn [first_dots].
      change (c :: (s ++ join (t :: r))) with ((c :: s) ++ join (t :: r)).
      rewrite dot_segment_join by (by constructor). destruct (dot_segment (c :: s)); [done|].
      apply Z.eqb_neq in Hc as ->. by rewrite first_dots_inside.
Qed.

Section Correct.
Context `{MC : Memchr}.

(** What a scan that found [d] first does with the path. *)
Definition outcome (path : list Z) (d : option Dots) : option Cow :=
  match d with
  | None => Some (Borrowed path)
  | Some WithParams => None
  | Some (Segment _) => Owned <$> remove_dot_segments path
  end.

Lemma normalize_loop_first fuel path from :
  (1 <= from)%nat -> (length path - from <= fuel)%nat ->
  normalize_loop fuel path from =
  outcome path (first_dots (bool_decide (path !! (from - 1)%nat = Some 47)) (drop from path)).
Proof.
  revert from. induction fuel as [|fuel IH]; intros from Hf Hfuel; cbn [normalize_loop].
  { by rewrite drop_ge by lia. }
  pose proof (memchr2_spec 46 37 (drop from path)) as Hm.
  destruct (memchr2 46 37 (drop from path)) as [i|]; cbn in Hm.
  2: { rewrite <- (app_nil_r (drop from path)), first_dots_skip by done. done. }
  destruct Hm as [(c & Hc & Hdot) Hbefore]. rewrite lookup_drop in Hc.
  assert (Hdrop : drop from path = take i (drop from path) ++ drop (from + i) path).
  { rewrite <- drop_drop. by rewrite take_drop. }
  rewrite Hdrop, first_dots_skip by done.
  assert (ends_slash (bool_decide (path !! (from - 1)%nat = Some 47)) (take i (drop from path))
          = bool_decide (path !! (from + i - 1)%nat = Some 47)) as ->.
  { unfold ends_slash. rewrite last_lookup, length_take, length_drop.
    apply lookup_lt_Some in Hc as Hlt. rewrite Nat.min_l by lia. destruct i as [|i]; cbn [Nat.pred].
    - cbn [take lookup list_lookup]. by rewrite Nat.add_0_r.
    - rewrite lookup_take_lt, lookup_drop by lia. replace (from + S i - 1)%nat with (from + i)%nat by lia.
      destruct (path !! (from + i)%nat) eqn:E.
      + apply eq_true_iff_eq. rewrite Z.eqb_eq, bool_decide_eq_true. naive_solver.
      + apply lookup_ge_None in E. lia. }
  rewrite (drop_lookup_cons _ _ _ Hc). cbn [first_dots].
  specialize (IH (from + i + 1)%nat ltac:(lia) ltac:(lia)).
  replace (from + i + 1 - 1)%nat with (from + i)%nat in IH by lia. rewrite Hc in IH.
  replace (from + i + 1)%nat with (S (from + i)) in IH |- * by lia.
  assert (bool_decide (Some c = Some 47) = (c =? 47)) as Hb.
  { apply eq_true_iff_eq. rewrite Z.eqb_eq, bool_decide_eq_true. naive_solver. }
  rewrite Hb in IH. rewrite <- (drop_lookup_cons _ _ _ Hc).
  destruct (bool_decide (path !! (from + i - 1)%nat = Some 47)); [|exact IH]. destruct (dot_segment (drop (from + i) path)) as [[n|]|]; [done|done|exact IH].
Qed.

Lemma first_of_spec segs :
  match first_of segs with
  | None => forallb is_plain segs = true /\ existsb has_params segs = false
  | Some WithParams => existsb has_params segs = true
  | Some (Segment _) => forallb is_plain segs = false
  end.
Proof.
  induction segs as [|s r IH]; cbn [first_of forallb existsb]; [done|]. unfold is_plain, has_params in *.
  by destruct (dot_segment s) as [[n|]|].
Qed.

(** The whole of [normalize_path], on the segments of the path. *)
Lemma normalize_path_segments p :
  normalize_path (47 :: p) =
  let segs := path_segments (47 :: p) in
  if existsb has_params segs then None
  else if forallb is_plain segs then Some (Borrowed (47 :: p))
  else Some (Owned (join (rev (resolve segs [])))).
Proof.
  unfold normalize_path. rewrite normalize_loop_first by (cbn; lia). cbn [Nat.sub lookup list_lookup].
  change (drop 1 (47 :: p)) with p. rewrite bool_decide_eq_true_2 by done. cbv zeta.
  pose proof (split_on_join 47 p eq_refl) as Hp. pose proof (split_on_pieces 47 p) as Hns.
  pose proof (remove_loop_resolve (path_segments (47 :: p)) [] (path_segments_no_slash _) (Forall_nil_2 _)) as Hr.
  change (path_segments (47 :: p)) with (split_on 47 p) in *.
  assert (first_dots true p = first_of (split_on 47 p)) as ->.
  { pose proof (split_on_ne 47 p). destruct (split_on 47 p) as [|s r]; [done|]. inversion Hns; subst.
    by apply first_dots_segments. }
  pose proof (first_of_spec (split_on 47 p)) as Hf. destruct (first_of (split_on 47 p)) as [[n|]|]; cbn [outcome].
  - rewrite Hf. unfold remove_dot_segments. change (drop 1 (47 :: p)) with p.
    change (join (rev [])) with (@nil Z) in Hr. rewrite Hr. by destruct (existsb _ _).
  - by rewrite Hf.
  - by destruct Hf as [-> ->].
Qed.

Lemma resolve_plain segs kept :
  existsb has_params segs = false -> Forall (fun s => is_plain s = true) kept ->
  Forall (fun s => is_plain s = true) (resolve segs kept).
Proof.
  revert kept. induction segs as [|s r IH]; intros kept He Hk; cbn [resolve]; [done|].
  cbn [existsb] in He. apply orb_false_iff in He as [Hs He].
  assert (Ht : Forall (fun s => is_plain s = true) (tail kept)) by (by destruct Hk).
  destruct (dot_segment s) as [d|] eqn:E.
  - destruct d as [[|[|n]]|]; destruct r; apply IH; try done; by constructor.
  - apply IH; [done|]. constructor; [|done]. unfold is_plain. by rewrite E.
Qed.

Lemma resolve_no_slash segs kept :
  Forall no_slash segs -> Forall no_slash kept -> Forall no_slash (resolve segs kept).
Proof.
  intros H. revert kept. induction H as [|s r Hs Hr IH]; intros kept Hk; cbn [resolve]; [done|].
  pose proof (no_slash_tail _ Hk). destruct (dot_segment s) as [d|].
  - destruct d as [[|[|n]]|]; destruct r; apply IH; try done; by constructor.
  - apply IH. by constructor.
Qed.

Lemma resolve_ne segs kept : segs <> [] -> resolve segs kept <> [].
Proof.
  revert kept. induction segs as [|s r IH]; intros kept Hne; [done|]. cbn [resolve].
  destruct r as [|s' r].
  - destruct (dot_segment s) as [[[|[|n]]|]|]; done.
  - destruct (dot_segment s) as [[[|[|n]]|]|]; by apply IH.
Qed.

Lemma join_cons segs : segs <> [] -> exists p, join segs = 47 :: p.
Proof. destruct segs; [done|]. cbn. eauto. Qed.

(** What is returned is settled: no dot-segment is left in it. *)
Lemma normalize_path_settled p c :
  normalize_path (47 :: p) = Some c ->
  Forall (fun s => dot_segment s = None) (path_segments (cow_str c)) /\
  normalize_path (cow_str c) = Some (Borrowed (cow_str c)).
Proof.
  set (segs := path_segments (47 :: p)).
  assert (Hgood : forall q, forallb is_plain (path_segments (47 :: q)) = true ->
    Forall (fun s => dot_segment s = None) (path_segments (47 :: q)) /\
    normalize_path (47 :: q) = Some (Borrowed (47 :: q))).
  { intros q Hq. assert (Hn : Forall (fun s => dot_segment s = None) (path_segments (47 :: q))).
    { apply forallb_Forall in Hq. eapply Forall_impl; [exact Hq|]. intros s. unfold is_plain.
      by destruct (dot_segment s). }
    split; [done|]. rewrite normalize_path_segments. cbv zeta. rewrite Hq.
    assert (existsb has_params (path_segments (47 :: q)) = false) as ->; [|done].
    clear -Hn. induction Hn as [|s r Hs _ IH]; [done|]. cbn. rewrite IH. unfold has_params. by rewrite Hs. }
  rewrite normalize_path_segments. cbv zeta. fold segs.
  destruct (existsb has_params segs) eqn:He; [done|].
  destruct (forallb is_plain segs) eqn:Hp; intros [= <-]; cbn [cow_str]; [by apply Hgood|].
  assert (Hne : rev (resolve segs []) <> []).
  { intros E. apply (resolve_ne segs []); [apply split_on_ne|]. rewrite <- (rev_involutive (resolve segs [])), E. done. }
  destruct (join_cons _ Hne) as [q Hq]. rewrite Hq. apply Hgood. rewrite <- Hq.
  rewrite join_path_segments; [|done|].
  - apply forallb_Forall. apply Forall_rev. by apply resolve_plain.
  - apply Forall_rev. apply resolve_no_slash; [apply path_segments_no_slash|done].
Qed.

(** The scan and the string rewriting compute RFC 3986 5.2.4 on the
    path's segments; the path is refused exactly when some segment is a
    dot-segment with parameters, returned as it came exactly when no segment
    is a dot-segment, and whatever is returned has no dot-segment left, so
    that normalising it again changes nothing. *)
Theorem normalize_path_exact p :
  let segs := path_segments (47 :: p) in
  normalize_path (47 :: p) =
    (if existsb has_params segs then None
     else if forallb is_plain segs then Some (Borrowed (47 :: p))
     else Some (Owned (join (rev (resolve segs []))))) /\
  (forall c, normalize_path (47 :: p) = Some c ->
     Forall (fun s => dot_segment s = None) (path_segments (cow_str c)) /\
     normalize_path (cow_str c) = Some (Borrowed (cow_str c))).
Proof. intros segs. split; [apply normalize_path_segments|]. apply normalize_path_settled. Qed.

End Correct.

Example normalize_examples :
  normalize_path (bs "/public/%2E./admin") = Some (Owned (bs "/admin")) /\
  normalize_path (bs "/a/b/..") = Some (Owned (bs "/a/")) /\
  normalize_path (bs "/a/..;x/b") = None /\
  normalize_path (bs "/a/...") = Some (Borrowed (bs "/a/...")).
Proof. by vm_compute. Qed.
