(* ===== verification/HttpParser.v ===== *)
(** * The request-head parser

    [extract_routing_info] of [src/src/proxy/http_parser.rs], with
    [StripSpans] and [HttpRequestInfo]. A borrowed slice is its bytes; of the
    path, whose position in the buffer the caller asks for, the record also
    keeps the offset ([None] for the static ["/"]). *)

From S2P Require Import Prelude Bytes HttpGrammar.

(** ** Data *)

Definition MAX_STRIP_SPANS : nat := 8.

(** The first [len] entries of the span array. *)
Record StripSpans := {
  spans : list (Z * Z);
  needs_slow_path : bool;
}.

Definition StripSpans_default : StripSpans := {| spans := []; needs_slow_path := false |}.

Definition push (s : StripSpans) (start end_ : nat) : StripSpans :=
  if (length (spans s) <? MAX_STRIP_SPANS)%nat
  then {| spans := spans s ++ [(as_u32 (Z.of_nat start), as_u32 (Z.of_nat end_))];
          needs_slow_path := needs_slow_path s |}
  else {| spans := spans s; needs_slow_path := true |}.

(** [StripSpans::iter] *)
Definition spans_iter (s : StripSpans) : list (nat * nat) :=
  map (fun '(a, b) => (Z.to_nat a, Z.to_nat b)) (spans s).

Definition slow (s : StripSpans) (b : bool) : StripSpans :=
  {| spans := spans s; needs_slow_path := needs_slow_path s || b |}.

Record HttpRequestInfo := {
  method : list Z;
  info_host : list Z;
  path : list Z;
  path_at : option nat;
  query_string : list Z;
  keepalive : bool;
  header_data : list Z;
  head_len : nat;
  content_length : option Z;
  is_chunked : bool;
  is_upgrade : bool;
  header_violation : bool;
  strip_spans : StripSpans;
  upgrade_span : option (Z * Z);
  expect_continue : bool;
}.

(** The [anyhow!] messages of [extract_routing_info]. *)
Inductive ParseError :=
  | MalformedRequestLine
  | NonUtf8RequestLine
  | MissingHost
  | NonAsciiHost.

(** The mutable locals a header line can change. *)
Record Fields := {
  violation : bool;
  f_host : option (list Z);
  explicit_keepalive : option bool;
  f_content_length : option Z;
  f_is_chunked : bool;
  has_upgrade_header : bool;
  offers_h2c_upgrade : bool;
  connection_has_upgrade : bool;
  f_expect_continue : bool;
  f_slow : bool;  (** what the lines add to [strip_spans.needs_slow_path] *)
}.

Definition Fields_init (v : bool) : Fields :=
  {| violation := v; f_host := None; explicit_keepalive := None; f_content_length := None;
     f_is_chunked := false; has_upgrade_header := false; offers_h2c_upgrade := false;
     connection_has_upgrade := false; f_expect_continue := false; f_slow := false |}.

Definition violate (f : Fields) : Fields :=
  {| violation := true; f_host := f_host f; explicit_keepalive := explicit_keepalive f;
     f_content_length := f_content_length f; f_is_chunked := f_is_chunked f;
     has_upgrade_header := has_upgrade_header f; offers_h2c_upgrade := offers_h2c_upgrade f;
     connection_has_upgrade := connection_has_upgrade f; f_expect_continue := f_expect_continue f;
     f_slow := f_slow f |}.

Definition set_host (f : Fields) (h : list Z) : Fields :=
  {| violation := violation f; f_host := Some h; explicit_keepalive := explicit_keepalive f;
     f_content_length := f_content_length f; f_is_chunked := f_is_chunked f;
     has_upgrade_header := has_upgrade_header f; offers_h2c_upgrade := offers_h2c_upgrade f;
     connection_has_upgrade := connection_has_upgrade f; f_expect_continue := f_expect_continue f;
     f_slow := f_slow f |}.

Definition set_content_length (f : Fields) (n : Z) : Fields :=
  {| violation := violation f; f_host := f_host f; explicit_keepalive := explicit_keepalive f;
     f_content_length := Some n; f_is_chunked := f_is_chunked f;
     has_upgrade_header := has_upgrade_header f; offers_h2c_upgrade := offers_h2c_upgrade f;
     connection_has_upgrade := connection_has_upgrade f; f_expect_continue := f_expect_continue f;
     f_slow := f_slow f |}.

Definition set_chunked (f : Fields) : Fields :=
  {| violation := violation f; f_host := f_host f; explicit_keepalive := explicit_keepalive f;
     f_content_length := f_content_length f; f_is_chunked := true;
     has_upgrade_header := has_upgrade_header f; offers_h2c_upgrade := offers_h2c_upgrade f;
     connection_has_upgrade := connection_has_upgrade f; f_expect_continue := f_expect_continue f;
     f_slow := f_slow f |}.

Definition set_upgrade (f : Fields) : Fields :=
  {| violation := violation f; f_host := f_host f; explicit_keepalive := explicit_keepalive f;
     f_content_length := f_content_length f; f_is_chunked := f_is_chunked f;
     has_upgrade_header := true; offers_h2c_upgrade := offers_h2c_upgrade f;
     connection_has_upgrade := connection_has_upgrade f; f_expect_continue := f_expect_continue f;
     f_slow := f_slow f || has_upgrade_header f |}.

Definition set_h2c (f : Fields) : Fields :=
  {| violation := violation f; f_host := f_host f; explicit_keepalive := explicit_keepalive f;
     f_content_length := f_content_length f; f_is_chunked := f_is_chunked f;
     has_upgrade_header := has_upgrade_header f; offers_h2c_upgrade := true;
     connection_has_upgrade := connection_has_upgrade f; f_expect_continue := f_expect_continue f;
     f_slow := f_slow f |}.

Definition set_keepalive (f : Fields) (b : bool) : Fields :=
  {| violation := violation f; f_host := f_host f; explicit_keepalive := Some b;
     f_content_length := f_content_length f; f_is_chunked := f_is_chunked f;
     has_upgrade_header := has_upgrade_header f; offers_h2c_upgrade := offers_h2c_upgrade f;
     connection_has_upgrade := connection_has_upgrade f; f_expect_continue := f_expect_continue f;
     f_slow := f_slow f |}.

Definition set_connection_upgrade (f : Fields) : Fields :=
  {| violation := violation f; f_host := f_host f; explicit_keepalive := explicit_keepalive f;
     f_content_length := f_content_length f; f_is_chunked := f_is_chunked f;
     has_upgrade_header := has_upgrade_header f; offers_h2c_upgrade := offers_h2c_upgrade f;
     connection_has_upgrade := true; f_expect_continue := f_expect_continue f; f_slow := f_slow f |}.

Definition set_expect (f : Fields) : Fields :=
  {| violation := violation f; f_host := f_host f; explicit_keepalive := explicit_keepalive f;
     f_content_length := f_content_length f; f_is_chunked := f_is_chunked f;
     has_upgrade_header := has_upgrade_header f; offers_h2c_upgrade := offers_h2c_upgrade f;
     connection_has_upgrade := connection_has_upgrade f; f_expect_continue := true; f_slow := f_slow f |}.

Definition set_slow (f : Fields) : Fields :=
  {| violation := violation f; f_host := f_host f; explicit_keepalive := explicit_keepalive f;
     f_content_length := f_content_length f; f_is_chunked := f_is_chunked f;
     has_upgrade_header := has_upgrade_header f; offers_h2c_upgrade := offers_h2c_upgrade f;
     connection_has_upgrade := connection_has_upgrade f; f_expect_continue := f_expect_continue f;
     f_slow := true |}.

Inductive LineKind := Keep | Strip | Upgrade.

(** ** Header lines *)

(** One token of a Connection value. *)
Definition connection_token (f : Fields) (token : list Z) : Fields :=
  let token := trim_ows token in
  if eq_ignore_ascii_case token (bs "close") then set_keepalive f false
  else if eq_ignore_ascii_case token (bs "keep-alive") then set_keepalive f true
  else if eq_ignore_ascii_case token (bs "upgrade") then set_connection_upgrade f
  else if eq_ignore_ascii_case token (bs "content-length")
          || eq_ignore_ascii_case token (bs "transfer-encoding")
          || eq_ignore_ascii_case token (bs "host") then violate f
  else if negb (match token with [] => true | _ => false end)
          && negb (eq_ignore_ascii_case token (bs "http2-settings")) then set_slow f
  else f.

(** The guarded arms key on the name's length and folded first byte. *)
Definition named (name : list Z) (n : nat) (c : Z) (lower : list Z) : bool :=
  opens name n c && eq_ignore_ascii_case name lower.

Section Parser.
Context `{MC : Memchr} `{AR : Arch}.

Definition field_line (is_http10 : bool) (f : Fields) (name value : list Z) : Fields * LineKind :=
  if named name 4 104 (bs "host") then
    let value := trim_ows value in
    match split_host value, f_host f with
    | Some h, None => (set_host f (take h value), Keep)
    | _, _ => (violate f, Keep)
    end
  else if named name 14 99 (bs "content-length") then
    match parse_digits (trim_ows value), f_content_length f with
    | Some n, None => (set_content_length f n, Keep)
    | _, _ => (violate f, Keep)
    end
  else if named name 17 116 (bs "transfer-encoding") then
    if is_http10 || f_is_chunked f || negb (eq_ignore_ascii_case (trim_ows value) (bs "chunked"))
    then (violate f, Keep)
    else (set_chunked f, Keep)
  else if named name 7 117 (bs "upgrade") then
    if offers_h2c value then (set_h2c f, Strip) else (set_upgrade f, Upgrade)
  else if named name 10 99 (bs "connection") then
    (fold_left connection_token (split_on 44 value) f, Strip)
  else if named name 6 101 (bs "expect") then
    (if eq_ignore_ascii_case (trim_ows value) (bs "100-continue") then set_expect f else f, Strip)
  else if named name 10 107 (bs "keep-alive") then (f, Strip)
  else if named name 16 112 (bs "proxy-connection") then (f, Strip)
  else if named name 2 116 (bs "te") then (f, Strip)
  else if named name 7 116 (bs "trailer") then (f, Strip)
  else if named name 14 104 (bs "http2-settings") then (f, Strip)
  else if is_forwarding_claim name then (f, Strip)
  else (f, Keep).

Record HeadState := {
  pos : nat;
  fields : Fields;
  h_spans : StripSpans;
  h_upgrade_span : option (Z * Z);
  terminated : bool;
}.

Definition stop (st : HeadState) (at_ : nat) : HeadState :=
  {| pos := at_; fields := violate (fields st); h_spans := h_spans st;
     h_upgrade_span := h_upgrade_span st; terminated := terminated st |}.

(** The end of one turn: the line [line_start..next] was taken in. *)
Definition take_line (is_http10 : bool) (st : HeadState) (name value : list Z) (line_start next : nat) : HeadState :=
  let '(f, kind) := field_line is_http10 (fields st) name value in
  if violation f then
    {| pos := next; fields := f; h_spans := h_spans st; h_upgrade_span := h_upgrade_span st;
       terminated := terminated st |}
  else
    {| pos := next; fields := f;
       h_spans := match kind with Strip => push (h_spans st) line_start next | _ => h_spans st end;
       h_upgrade_span := match kind with
                         | Upgrade => Some (as_u32 (Z.of_nat line_start), as_u32 (Z.of_nat next))
                         | _ => h_upgrade_span st
                         end;
       terminated := terminated st |}.

(** [while !violation && pos < len]; every turn that does not break moves
    [pos] forward. *)
Fixpoint head_loop (fuel : nat) (is_http10 : bool) (data : list Z) (st : HeadState) : HeadState :=
  match fuel with
  | O => st
  | S fuel' =>
      if violation (fields st) || negb (pos st <? length data)%nat then st
      else
        let line_start := pos st in
        if bool_decide (data !! line_start = Some CR) then
          {| pos := pos st; fields := fields st; h_spans := h_spans st; h_upgrade_span := h_upgrade_span st;
             terminated := bool_decide (data !! (line_start + 1)%nat = Some LF) |}
        else
          let name_end := (line_start + span_len (fun b => is_ b TCHAR) (drop line_start data))%nat in
          if (name_end =? line_start)%nat || negb (bool_decide (data !! name_end = Some 58)) then stop st name_end
          else
            let value_start := (name_end + 1)%nat in
            let value_end := scan data value_start VALUE 32 VALUE_HOLES in
            if negb (bool_decide (data !! value_end = Some CR)) || negb (bool_decide (data !! (value_end + 1)%nat = Some LF))
            then stop st name_end
            else
              head_loop fuel' is_http10 data
                (take_line is_http10 st (slice line_start name_end data) (slice value_start value_end data)
                   line_start (value_end + 2))
  end.

(** ** The request line *)

Record RequestLine := {
  rl_method : list Z;
  rl_target : list Z;
  rl_target_start : nat;
  rl_http10 : bool;
  rl_header_start : nat;
}.

Definition HTTP11 : list Z := bs "HTTP/1.1" ++ [CR; LF].
Definition HTTP10 : list Z := bs "HTTP/1.0" ++ [CR; LF].

Definition request_line (data : list Z) : result RequestLine ParseError :=
  let method_end := span_len (fun b => is_ b TCHAR) data in
  if (method_end =? 0)%nat || negb (bool_decide (data !! method_end = Some SP)) then Err MalformedRequestLine
  else
    let target_start := (method_end + 1)%nat in
    let scanned := scan data target_start TARGET 33 TARGET_HOLES in
    let target_end := if bool_decide (data !! scanned = Some 92)
                      then past_query_backslashes data target_start scanned else scanned in
    if (target_end =? target_start)%nat || negb (bool_decide (data !! target_end = Some SP))
    then Err MalformedRequestLine
    else
      let version := slice (target_end + 1) (target_end + 11) data in
      if negb (beq version HTTP11) && negb (beq version HTTP10) then Err MalformedRequestLine
      else match from_utf8 (take target_end data) with
           | None => Err NonUtf8RequestLine
           | Some line =>
               Ok {| rl_method := take method_end line; rl_target := drop target_start line;
                     rl_target_start := target_start; rl_http10 := beq version HTTP10;
                     rl_header_start := (target_end + 11)%nat |}
           end.

(** What the target alone says: a violation, the authority's host, the path
    with its offset in the target. *)
Definition read_target (meth target : list Z) : bool * option (list Z) * list Z * option nat :=
  if beq meth (bs "CONNECT") then (true, None, target, Some 0%nat)
  else if negb (match target with c :: _ => c =? 47 | [] => false end) then
    if beq target (bs "*") then (negb (beq meth (bs "OPTIONS")), None, target, Some 0%nat)
    else match absolute_scheme_len target with
         | Some scheme_len =>
             let rest := drop scheme_len target in
             let authority_len := default (length rest) (memchr 47 rest) in
             let authority := take authority_len rest in
             let '(viol, target_host) :=
               match split_host authority with
               | Some h => if (0 <? h)%nat then (false, Some (take h authority)) else (true, None)
               | None => (true, None)
               end in
             if (authority_len <? length rest)%nat
             then (viol, target_host, drop authority_len rest, Some (scheme_len + authority_len)%nat)
             else (viol, target_host, bs "/", None)
         | None => (true, None, target, Some 0%nat)
         end
  else (false, None, target, Some 0%nat).

(** Everything after the header loop. *)
Definition finish (rl : RequestLine) (data : list Z) (target_host : option (list Z)) (path : list Z)
  (path_off : option nat) (st : HeadState) : result HttpRequestInfo ParseError :=
  let f := fields st in
  let viol := violation f || negb (terminated st) in
  let host := match f_host f with
              | Some h => Some h
              | None => if rl_http10 rl then Some (default [] target_host)
                        else if viol then Some []
                        else None
              end in
  match host with
  | None => Err MissingHost
  | Some host =>
      let viol := viol || match target_host with Some t => negb (eq_ignore_ascii_case t host) | None => false end in
      let viol := viol || (match host with [] => negb (rl_http10 rl) | _ => false end)
                  || (match f_content_length f with Some _ => f_is_chunked f | None => false end) in
      match from_utf8 host with
      | None => Err NonAsciiHost
      | Some host =>
          let '(p, q) := match find_byte 63 path with
                         | Some i => (take i path, drop (S i) path)
                         | None => (path, [])
                         end in
          Ok {| method := rl_method rl; info_host := host; path := p;
                path_at := option_map (fun o => (rl_target_start rl + o)%nat) path_off;
                query_string := q;
                keepalive := default (negb (rl_http10 rl)) (explicit_keepalive f);
                header_data := slice (rl_header_start rl) (pos st) data;
                head_len := (pos st + 2)%nat;
                content_length := f_content_length f;
                is_chunked := f_is_chunked f;
                is_upgrade := has_upgrade_header f && connection_has_upgrade f && negb (offers_h2c_upgrade f);
                header_violation := viol;
                strip_spans := slow (h_spans st) (f_slow f);
                upgrade_span := h_upgrade_span st;
                expect_continue := f_expect_continue f |}
      end
  end.

Definition head_init (viol : bool) (start : nat) : HeadState :=
  {| pos := start; fields := Fields_init viol; h_spans := StripSpans_default; h_upgrade_span := None;
     terminated := false |}.

Definition extract_routing_info (data : list Z) : result HttpRequestInfo ParseError :=
  match request_line data with
  | Err e => Err e
  | Ok rl =>
      let '(viol, target_host, path, path_off) := read_target (rl_method rl) (rl_target rl) in
      finish rl data target_host path path_off
        (head_loop (S (length data)) (rl_http10 rl) data (head_init viol (rl_header_start rl)))
  end.

End Parser.

Example parse_get :
  match extract_routing_info (AR := Little)
    (bs "GET http://h.test:80/a?q=1 HTTP/1.1" ++ [13;10] ++ bs "Host: H.test" ++ [13;10]
     ++ bs "Connection: close, x-foo" ++ [13;10;13;10] ++ bs "rest") with
  | Ok i => header_violation i = false /\ info_host i = bs "H.test" /\ path i = bs "/a" /\ path_at i = Some 20%nat
            /\ query_string i = bs "q=1" /\ keepalive i = false /\ head_len i = 79%nat
            /\ strip_spans i = {| spans := [(51, 77)]; needs_slow_path := true |}
  | Err _ => False
  end.
Proof. by vm_compute. Qed.

(** ** Reference: the grammar of a head *)

Abbreviation CRLF := ([13; 10]) (only parsing).

Definition line : Type := list Z * list Z.
Definition render_line (l : line) : list Z := l.1 ++ 58 :: l.2 ++ CRLF.
Definition render_lines (ls : list line) : list Z := concat (map render_line ls).

Definition token (s : list Z) : Prop := s <> [] /\ Forall (fun b => is_ b TCHAR = true) s.
Definition good_line (l : line) : Prop := token l.1 /\ Forall (fun b => is_ b VALUE = true) l.2.

(** Visible bytes without '#', and a backslash only after a '?'. *)
Definition good_target (t : list Z) : Prop :=
  t <> [] /\ exists a b, t = a ++ b /\ Forall (fun x => is_ x TARGET = true) a /\
    Forall (fun x => is_ x TARGET || (x =? 92) = true) b /\ (b <> [] -> 63 ∈ a).

Record request := {
  rq_method : list Z;
  rq_target : list Z;
  rq_http10 : bool;
  rq_lines : list line;
}.

Definition version (http10 : bool) : list Z := if http10 then HTTP10 else HTTP11.

Definition render_request_line (r : request) : list Z :=
  rq_method r ++ SP :: rq_target r ++ SP :: version (rq_http10 r).

Definition render (r : request) : list Z := render_request_line r ++ render_lines (rq_lines r) ++ CRLF.

Definition good_request (r : request) : Prop :=
  token (rq_method r) /\ good_target (rq_target r) /\ utf8_valid (rq_target r) = true /\ Forall good_line (rq_lines r).

(** The first blank line, byte by byte. *)
Definition opens_blank (l : list Z) : bool :=
  match l with a :: b :: c :: d :: _ => (a =? 13) && (b =? 10) && (c =? 13) && (d =? 10) | _ => false end.

Fixpoint first_blank (l : list Z) : option nat :=
  match l with
  | [] => None
  | c :: t => if opens_blank l then Some 4%nat else S <$> first_blank t
  end.

(** ** [find_header_end] *)

Lemma first_blank_skip k l : Forall (fun x => x <> 13) k -> first_blank (k ++ l) = Nat.add (length k) <$> first_blank l.
Proof.
  induction 1 as [|x k Hx _ IH]; cbn [app first_blank length].
  - by destruct (first_blank l).
  - assert (opens_blank (x :: k ++ l) = false) as ->.
    { cbn. destruct (k ++ l) as [|? [|? [|? ?]]]; try done. by apply Z.eqb_neq in Hx as ->. }
    rewrite IH. by destruct (first_blank l).
Qed.

Lemma opens_blank_lookup data at_ x : data !! at_ = Some x -> x = 13 ->
  opens_blank (drop at_ data) =
  (at_ + 3 <? length data)%nat && bool_decide (data !! (at_ + 1)%nat = Some 10)
  && bool_decide (data !! (at_ + 2)%nat = Some 13) && bool_decide (data !! (at_ + 3)%nat = Some 10).
Proof.
  intros Hx ->. rewrite <- !lookup_drop. pose proof (length_drop data at_) as Hl.
  rewrite (drop_lookup_cons _ _ _ Hx) in *. cbn [length] in Hl.
  destruct (drop (S at_) data) as [|b [|c [|d t]]] eqn:E; cbn [length] in Hl; cbn [opens_blank lookup list_lookup].
  1-3: destruct (Nat.ltb_spec (at_ + 3) (length data)); [lia|done].
  destruct (Nat.ltb_spec (at_ + 3) (length data)); [|lia]. cbn [andb].
  assert (Hb : forall u v, bool_decide (Some u = Some v) = (u =? v)).
  { intros u v. apply eq_true_iff_eq. rewrite bool_decide_eq_true, Z.eqb_eq. naive_solver. }
  by rewrite !Hb.
Qed.

Lemma find_header_end_first `{MC : Memchr} data : find_header_end data = first_blank data.
Proof.
  unfold find_header_end.
  enough (forall fuel start, (length data - start < fuel)%nat ->
    find_header_end_from fuel data start = Nat.add start <$> first_blank (drop start data)) as H.
  { rewrite H by lia. change (drop 0 data) with data. by destruct (first_blank data). }
  induction fuel as [|fuel IH]; intros start Hf; [lia|]. cbn [find_header_end_from].
  pose proof (memchr_spec 13 (drop start data)) as Hm.
  destruct (memchr 13 (drop start data)) as [i|]; cbn in Hm.
  2: { rewrite <- (app_nil_r (drop start data)), first_blank_skip by done. done. }
  destruct Hm as [(x & Hx & ->) Hb]. rewrite lookup_drop in Hx. apply lookup_lt_Some in Hx as Hlt.
  assert (Hdrop : drop start data = take i (drop start data) ++ drop (start + i) data).
  { rewrite <- drop_drop. by rewrite take_drop. }
  rewrite Hdrop, first_blank_skip by done. rewrite length_take, length_drop, Nat.min_l by lia.
  rewrite <- (opens_blank_lookup _ _ _ Hx eq_refl).
  rewrite (drop_lookup_cons _ _ _ Hx). cbn [first_blank]. destruct (opens_blank _).
  - cbn. f_equal. lia.
  - rewrite IH by lia. replace (start + i + 1)%nat with (S (start + i)) by lia.
    destruct (first_blank (drop (S (start + i)) data)); cbn; [f_equal; lia|done].
Qed.

Lemma first_blank_miss x l : opens_blank (x :: l) = false -> first_blank (x :: l) = S <$> first_blank l.
Proof. cbn [first_blank]. by intros ->. Qed.

Lemma first_blank_line k c l : Forall (fun x => x <> 13) k -> c <> 13 ->
  first_blank (k ++ CRLF ++ c :: l) = Nat.add (length k + 2) <$> first_blank (c :: l).
Proof.
  intros Hk Hc. rewrite first_blank_skip by done. cbn [app].
  assert (Hno : forall a t, opens_blank (13 :: 10 :: c :: t) = false /\ opens_blank (10 :: a :: t) = false).
  { intros a t. split; cbn; [|by destruct t as [|? [|? ?]]]. destruct t; [done|]. apply Z.eqb_neq in Hc as ->. by cbn. }
  rewrite !first_blank_miss by (apply (Hno c l)).
  destruct (first_blank (c :: l)); cbn; [f_equal; lia|done].
Qed.

Lemma first_blank_end k l : Forall (fun x => x <> 13) k ->
  first_blank (k ++ CRLF ++ CRLF ++ l) = Some (length k + 4)%nat.
Proof. intros Hk. rewrite first_blank_skip by done. done. Qed.

(** ** The header loop is a fold over the lines *)

Section Loop.
Context `{AR : Arch} `{MC : Memchr}.

Definition line_step (is_http10 : bool) (st : HeadState) (l : line) : HeadState :=
  take_line is_http10 st l.1 l.2 (pos st) (pos st + length (render_line l)).

Fixpoint run_lines (is_http10 : bool) (st : HeadState) (ls : list line) : HeadState :=
  match ls with
  | [] => st
  | l :: rest => if violation (fields st) then st else run_lines is_http10 (line_step is_http10 st l) rest
  end.

Definition ended (st : HeadState) : HeadState :=
  {| pos := pos st; fields := fields st; h_spans := h_spans st; h_upgrade_span := h_upgrade_span st;
     terminated := true |}.

Lemma take_line_pos h st n v a b : pos (take_line h st n v a b) = b.
Proof. unfold take_line. destruct (field_line _ _ _ _) as [f k]. by destruct (violation f). Qed.

Lemma take_line_terminated h st n v a b : terminated (take_line h st n v a b) = terminated st.
Proof. unfold take_line. destruct (field_line _ _ _ _) as [f k]. by destruct (violation f). Qed.

Lemma length_render_line l : length (render_line l) = (length l.1 + length l.2 + 3)%nat.
Proof. unfold render_line. rewrite length_app. cbn. rewrite length_app. cbn. lia. Qed.

Lemma lookup_pre {A} (pre : list A) x t : (pre ++ x :: t) !! length pre = Some x.
Proof. by apply list_lookup_middle. Qed.

(** One turn over a well-formed line. *)
Lemma head_loop_turn fuel h data st pre l tl :
  data = pre ++ render_line l ++ tl -> pos st = length pre -> good_line l -> Forall u8 data ->
  violation (fields st) = false ->
  head_loop (S fuel) h data st = head_loop fuel h data (line_step h st l).
Proof.
  intros Hd Hp [[Hne Hn] Hv] Hu Hviol. destruct l as [n v]. cbn [fst snd] in *.
  cbn [head_loop]. rewrite Hviol, Hp. cbn [orb].
  assert (Hlen : length data = (length pre + (length n + length v + 3) + length tl)%nat).
  { rewrite Hd, !length_app, length_render_line. cbn. lia. }
  destruct (Nat.ltb_spec (length pre) (length data)); [|lia]. cbn [negb].
  assert (Hdrop : drop (length pre) data = n ++ 58 :: v ++ CRLF ++ tl).
  { rewrite Hd, drop_app_length. unfold render_line. cbn [fst snd]. by rewrite <- !app_assoc, <- app_comm_cons, <- app_assoc. }
  assert (Hhd : data !! length pre <> Some 13).
  { rewrite <- (Nat.add_0_r (length pre)), <- lookup_drop, Hdrop. destruct Hn as [|c n Hc Hn]; [done|].
    cbn. intros [= ->]. vm_compute in Hc. done. }
  rewrite bool_decide_eq_false_2 by done.
  rewrite Hdrop, span_len_app_stop by (done || vm_compute; done).
  assert (length n <> 0%nat) by (by destruct n).
  destruct (Nat.eqb_spec (length pre + length n) (length pre)); [lia|]. cbn [orb].
  assert (Hat : forall i, data !! (length pre + i)%nat = (n ++ 58 :: v ++ CRLF ++ tl) !! i).
  { intros i. by rewrite <- lookup_drop, Hdrop. }
  rewrite Hat, lookup_pre, bool_decide_eq_true_2 by done. cbn [negb].
  assert (Hdrop2 : drop (length pre + length n + 1) data = v ++ CRLF ++ tl).
  { replace (length pre + length n + 1)%nat with (length pre + (length n + 1))%nat by lia.
    rewrite <- drop_drop, Hdrop, <- drop_drop, drop_app_length. done. }
  assert (scan data (length pre + length n + 1) VALUE 32 VALUE_HOLES = length pre + length n + 1 + length v)%nat as Hscan.
  { change (scan data (length pre + length n + 1) VALUE 32 VALUE_HOLES) with (field_value_end data (length pre + length n + 1)).
    rewrite field_value_end_span by done. rewrite Hdrop2. f_equal. by apply span_len_app_stop. }
  rewrite Hscan.
  assert (Hat2 : forall i, data !! (length pre + length n + 1 + i)%nat = (v ++ 13 :: 10 :: tl) !! i).
  { intros i. by rewrite <- lookup_drop, Hdrop2. }
  rewrite (Hat2 (length v)), lookup_pre, bool_decide_eq_true_2 by done.
  rewrite <- (Nat.add_assoc _ (length v) 1), (Hat2 (length v + 1)%nat).
  rewrite lookup_app_r by lia. replace (length v + 1 - length v)%nat with 1%nat by lia.
  rewrite bool_decide_eq_true_2 by done. cbn [negb orb]. unfold line_step. rewrite Hp. f_equal.
  assert (slice (length pre) (length pre + length n) data = n) as ->.
  { unfold slice. rewrite Hdrop. replace (_ - _)%nat with (length n) by lia. by apply take_app_length. }
  assert (slice (length pre + length n + 1) (length pre + length n + 1 + length v) data = v) as ->.
  { unfold slice. rewrite Hdrop2. replace (_ - _)%nat with (length v) by lia. by apply take_app_length. }
  cbn [fst snd]. f_equal. rewrite length_render_line. cbn. lia.
Qed.

Lemma head_loop_stuck fuel h data st : violation (fields st) = true -> head_loop fuel h data st = st.
Proof. destruct fuel; cbn; [done|]. by intros ->. Qed.

Lemma head_loop_lines fuel h data st pre ls tl :
  data = pre ++ render_lines ls ++ CRLF ++ tl -> pos st = length pre -> Forall good_line ls -> Forall u8 data ->
  (length ls < fuel)%nat ->
  head_loop fuel h data st =
  let st' := run_lines h st ls in if violation (fields st') then st' else ended st'.
Proof.
  intros Hd Hp Hg Hu. revert fuel st pre Hd Hp. induction Hg as [|l ls Hl Hg IH]; intros fuel st pre Hd Hp Hf;
    (destruct fuel as [|fuel]; [cbn in Hf; lia|]).
  - cbn [run_lines]. cbv zeta. destruct (violation (fields st)) eqn:Ev; [by apply head_loop_stuck|].
    cbn [head_loop]. rewrite Ev. cbn [orb render_lines map concat app] in *. subst data. rewrite Hp.
    destruct (Nat.ltb_spec (length pre) (length (pre ++ 13 :: 10 :: tl))) as [|Hge];
      [|rewrite length_app in Hge; cbn in Hge; lia]. cbn [negb].
    rewrite lookup_pre, bool_decide_eq_true_2 by done.
    replace (length pre + 1)%nat with (length (pre ++ [13])) by (rewrite length_app; cbn; lia).
    change (pre ++ 13 :: 10 :: tl) with (pre ++ [13] ++ 10 :: tl).
    rewrite (app_assoc pre [13] (10 :: tl)), lookup_pre, bool_decide_eq_true_2 by done.
    unfold ended. by rewrite Hp.
  - cbn [run_lines]. destruct (violation (fields st)) eqn:Ev; [cbv zeta; rewrite Ev; by apply head_loop_stuck|].
    assert (Hsplit : data = pre ++ render_line l ++ render_lines ls ++ CRLF ++ tl).
    { rewrite Hd. unfold render_lines. cbn [map concat]. by rewrite <- !app_assoc. }
    rewrite (head_loop_turn fuel h data st pre l _ Hsplit Hp Hl Hu Ev).
    apply (IH fuel _ (pre ++ render_line l)).
    + by rewrite Hsplit, <- app_assoc.
    + unfold line_step. rewrite take_line_pos, Hp, length_app. done.
    + cbn in Hf. lia.
Qed.

(** A loop that reached the blank line without a violation read lines. *)
Lemma head_loop_sound fuel h data st :
  Forall u8 data -> terminated st = false ->
  let st' := head_loop fuel h data st in
  violation (fields st') = false -> terminated st' = true ->
  exists ls tl, drop (pos st) data = render_lines ls ++ CRLF ++ tl /\ Forall good_line ls /\
    st' = ended (run_lines h st ls) /\ pos st' = (pos st + length (render_lines ls))%nat.
Proof.
  intros Hu. revert st. induction fuel as [|fuel IH]; intros st Ht st' Hv Hterm; subst st'.
  { cbn in Hterm. congruence. }
  cbn [head_loop] in *. destruct (violation (fields st)) eqn:Ev; cbn [orb] in *; [congruence|].
  destruct (Nat.ltb_spec (pos st) (length data)); cbn [negb] in *; [|congruence].
  case_bool_decide as Hcr; cbn [fields terminated pos] in *.
  { case_bool_decide as Hlf; [|done]. exists [], (drop (pos st + 2) data). split; [|split; [done|split]].
    - rewrite (drop_lookup_cons _ _ _ Hcr). cbn. f_equal.
      replace (pos st + 1)%nat with (S (pos st)) in Hlf by lia. rewrite (drop_lookup_cons _ _ _ Hlf).
      by replace (pos st + 2)%nat with (S (S (pos st))) by lia.
    - done.
    - cbn. lia. }
  set (k := span_len (fun b => is_ b TCHAR) (drop (pos st) data)) in *.
  destruct ((pos st + k =? pos st)%nat || _) eqn:E1; [done|]. bool_simpl.
  set (ve := scan data (pos st + k + 1) VALUE 32 VALUE_HOLES) in *.
  destruct (negb (bool_decide (data !! ve = _)) || _) eqn:E2; [done|]. bool_simpl.
  assert (Hve : ve = (pos st + k + 1 + span_len (fun b => is_ b VALUE) (drop (pos st + k + 1) data))%nat).
  { apply field_value_end_span. done. }
  set (m := span_len (fun b => is_ b VALUE) (drop (pos st + k + 1) data)) in *.
  set (n := slice (pos st) (pos st + k) data) in *. set (v := slice (pos st + k + 1) ve data) in *.
  assert (Hnk : n = take k (drop (pos st) data)) by (unfold n, slice; f_equal; lia).
  assert (Hvm : v = take m (drop (pos st + k + 1) data)) by (unfold v, slice; f_equal; lia).
  pose proof (span_len_le (fun b => is_ b TCHAR) (drop (pos st) data)) as Hk. fold k in Hk. rewrite length_drop in Hk.
  pose proof (span_len_le (fun b => is_ b VALUE) (drop (pos st + k + 1) data)) as Hm. fold m in Hm. rewrite length_drop in Hm.
  assert (length n = k) as Hln by (rewrite Hnk, length_take, length_drop; lia).
  assert (length v = m) as Hlv by (rewrite Hvm, length_take, length_drop; lia).
  assert (Hdrop : drop (pos st) data = render_line (n, v) ++ drop (ve + 2) data).
  { unfold render_line. cbn [fst snd]. rewrite <- (take_drop k (drop (pos st) data)), <- Hnk, drop_drop.
    rewrite <- app_assoc. f_equal. cbn [app].
    rewrite (drop_lookup_cons data (pos st + k) 58) by done. f_equal.
    replace (S (pos st + k)) with (pos st + k + 1)%nat by lia.
    rewrite <- (take_drop m (drop (pos st + k + 1) data)), <- Hvm, drop_drop, <- Hve, <- app_assoc. f_equal. cbn [app].
    rewrite (drop_lookup_cons data ve 13) by done. f_equal.
    replace (ve + 1)%nat with (S ve) in * by lia. rewrite (drop_lookup_cons data (S ve) 10) by done. f_equal. f_equal. lia. }
  assert (line_step h st (n, v) = take_line h st n v (pos st) (ve + 2)) as Hstep.
  { unfold line_step. cbn [fst snd]. f_equal. rewrite length_render_line. cbn [fst snd]. lia. }
  rewrite <- Hstep in Hv, Hterm |- *.
  destruct (IH (line_step h st (n, v))) as (ls & tl & Hls & Hg & Hst & Hpos); [|done|done|].
  { rewrite Hstep. by rewrite take_line_terminated. }
  assert (pos (line_step h st (n, v)) = (ve + 2)%nat) as Hps by (rewrite Hstep; apply take_line_pos).
  exists ((n, v) :: ls), tl. split; [|split; [|split]].
  - unfold render_lines. cbn [map concat]. rewrite Hdrop, <- app_assoc. f_equal. rewrite <- Hps. exact Hls.
  - constructor; [|done]. split; cbn [fst snd]; [split|].
    + intros ->. cbn in Hln. lia.
    + rewrite Hnk. apply span_len_take.
    + rewrite Hvm. apply span_len_take.
  - cbn [run_lines]. rewrite Ev. exact Hst.
  - rewrite Hpos, Hps. unfold render_lines. cbn [map concat]. rewrite length_app, length_render_line. cbn [fst snd]. lia.
Qed.

End Loop.

(** ** The request line *)

Definition target_or_backslash (x : Z) : bool := is_ x TARGET || (x =? 92).

Lemma span_len_split {A} (p : A -> bool) l :
  exists a b, l = a ++ b /\ length a = span_len p l /\ Forall (fun x => p x = true) a /\
  match b with [] => True | x :: _ => p x = false end.
Proof.
  exists (take (span_len p l) l), (drop (span_len p l) l). pose proof (span_len_le p l).
  split; [by rewrite take_drop|]. split; [rewrite length_take; lia|]. split; [apply span_len_take|].
  destruct (drop (span_len p l) l) as [|x t] eqn:E; [done|]. apply (span_len_stop p l).
  rewrite <- (Nat.add_0_r (span_len p l)), <- lookup_drop, E. done.
Qed.

Lemma span_len_prefix {A} (p : A -> bool) a b :
  Forall (fun x => p x = true) a -> match b with [] => True | x :: _ => p x = false end ->
  span_len p (a ++ b) = length a.
Proof.
  intros Ha Hb. destruct b as [|x b]; [rewrite app_nil_r; by apply span_len_all|by apply span_len_app_stop].
Qed.

Section RequestLine.
Context `{AR : Arch} `{MC : Memchr}.

(** From a backslash on, the scans together run over targets and
    backslashes. *)
Lemma skip_backslashes_span fuel data e t :
  Forall u8 data -> drop e data = 92 :: t -> (length data - e <= fuel)%nat ->
  skip_backslashes fuel data e = (e + span_len target_or_backslash (drop e data))%nat.
Proof.
  intros Hu. revert e t. induction fuel as [|fuel IH]; intros e t Hd Hf.
  { apply (f_equal length) in Hd. rewrite length_drop in Hd. cbn in Hd. lia. }
  assert (Hat : data !! e = Some 92) by (rewrite <- (Nat.add_0_r e), <- lookup_drop, Hd; done).
  cbn [skip_backslashes]. rewrite bool_decide_eq_true_2 by done.
  rewrite target_scan_span by done.
  assert (Ht : drop (e + 1) data = t).
  { rewrite <- drop_drop, Hd. done. }
  rewrite Ht, Hd. destruct (span_len_split is_target_byte t) as (a & b & Hab & Hla & Ha & Hb).
  unfold is_target_byte in Ha, Hb. rewrite <- Hla. change (span_len target_or_backslash (92 :: t)) with (S (span_len target_or_backslash t)).
  assert (Ha' : Forall (fun x => target_or_backslash x = true) a).
  { eapply Forall_impl; [exact Ha|]. intros x Hx. unfold target_or_backslash. cbv beta in Hx. by rewrite Hx. }
  rewrite Hab, span_len_app_all by done.
  assert (Hdb : drop (e + 1 + length a) data = b) by (rewrite <- drop_drop, Ht, Hab, drop_app_length; done).
  destruct b as [|x b].
  - cbn [span_len]. destruct fuel as [|fuel]; cbn [skip_backslashes]; [lia|].
    rewrite bool_decide_eq_false_2; [lia|]. intros Hx. apply lookup_lt_Some in Hx.
    apply (f_equal length) in Hdb. rewrite length_drop in Hdb. cbn in Hdb. lia.
  - assert (Hx : data !! (e + 1 + length a)%nat = Some x) by (rewrite <- (Nat.add_0_r (e + 1 + length a)), <- lookup_drop, Hdb; done).
    destruct (Z.eqb_spec x 92) as [->|Hne].
    + rewrite (IH _ _ Hdb) by lia. rewrite Hdb. lia.
    + cbn [span_len]. assert (target_or_backslash x = false) as ->.
      { unfold target_or_backslash. rewrite Hb. by apply Z.eqb_neq in Hne as ->. }
      destruct fuel as [|fuel]; cbn [skip_backslashes]; [lia|].
      rewrite bool_decide_eq_false_2; [lia|]. congruence.
Qed.

Definition target_end_of (data : list Z) (start : nat) : nat :=
  let scanned := scan data start TARGET 33 TARGET_HOLES in
  if bool_decide (data !! scanned = Some 92) then past_query_backslashes data start scanned else scanned.

Lemma target_end_spec data start :
  Forall u8 data ->
  exists a b, drop start data = a ++ b /\ Forall (fun x => is_ x TARGET = true) a /\
  match b with [] => True | x :: _ => is_ x TARGET = false end /\
  target_end_of data start =
    (start + length a + (if bool_decide (head b = Some 92%Z) && bool_decide (63%Z ∈ a)
                         then span_len target_or_backslash b else 0))%nat.
Proof.
  intros Hu. destruct (span_len_split is_target_byte (drop start data)) as (a & b & Hab & Hla & Ha & Hb).
  unfold is_target_byte in Ha, Hb.
  exists a, b. split; [done|]. split; [done|]. split; [done|].
  unfold target_end_of. change (scan data start TARGET 33 TARGET_HOLES) with (target_scan data start).
  rewrite target_scan_span, <- Hla by done.
  assert (Hd : drop (start + length a) data = b) by (rewrite <- drop_drop, Hab, drop_app_length; done).
  assert (Hhd : data !! (start + length a)%nat = head b).
  { rewrite <- (lookup_drop_head data). by rewrite Hd. }
  rewrite Hhd. case_bool_decide as H92; cbn [andb]; [|lia].
  unfold past_query_backslashes. rewrite memchr_find_byte.
  assert (slice start (start + length a) data = a) as ->.
  { unfold slice. rewrite Hab. replace (_ - _)%nat with (length a) by lia. apply take_app_length. }
  pose proof (find_byte_None_iff 63 a) as H63. destruct (find_byte 63 a) as [i|] eqn:E.
  - rewrite bool_decide_eq_true_2.
    + destruct b as [|x b]; [done|]. cbn in H92. injection H92 as ->.
      rewrite (skip_backslashes_span _ _ _ b) by (done || lia). by rewrite Hd.
    + destruct (decide (63 ∈ a)) as [|Hn]; [done|]. apply H63 in Hn. congruence.
  - rewrite bool_decide_eq_false_2 by (by apply H63). lia.
Qed.

Lemma sp_not_target : is_ 32 TARGET = false /\ target_or_backslash 32 = false.
Proof. by vm_compute. Qed.

Lemma target_end_complete data start t tl :
  Forall u8 data -> drop start data = t ++ 32 :: tl -> good_target t ->
  target_end_of data start = (start + length t)%nat.
Proof.
  intros Hu Hd (_ & a0 & b0 & Ht & Ha0 & Hb0 & Hq).
  destruct (target_end_spec data start Hu) as (a & b & Hab & Ha & Hb & ->).
  destruct sp_not_target as [Hs1 Hs2].
  assert (Hall : Forall (fun x => target_or_backslash x = true) t).
  { rewrite Ht. apply Forall_app. split; [|done].
    eapply Forall_impl; [exact Ha0|]. intros x Hx. unfold target_or_backslash. cbv beta in Hx. by rewrite Hx. }
  assert (exists b', t = a ++ b' /\ b = b' ++ 32 :: tl) as (b' & Hta & Hbb).
  { rewrite Hab in Hd. destruct (app_eq_app _ _ _ _ Hd) as (k & [[-> Hk]|[-> Hk]]).
    - destruct k as [|x k]; [exists []; rewrite !app_nil_r; cbn in Hk |- *; by rewrite Hk|].
      cbn in Hk. injection Hk as <- _. apply Forall_app in Ha as [_ Ha]. inversion Ha; subst. congruence.
    - by exists k. }
  destruct b' as [|x b'].
  - rewrite Hbb. cbn [app head]. rewrite bool_decide_eq_false_2 by done. cbn [andb]. rewrite Hta, app_nil_r. lia.
  - rewrite Hbb in Hb |- *. cbn [app head] in Hb |- *.
    assert (x = 92) as ->.
    { rewrite Hta in Hall. apply Forall_app in Hall as [_ Hall]. inversion Hall as [|? ? Hx _]; subst.
      unfold target_or_backslash in Hx. rewrite Hb in Hx. cbn in Hx. by apply Z.eqb_eq in Hx. }
    rewrite bool_decide_eq_true_2 by done. cbn [andb].
    assert (63 ∈ a) as Hin.
    { rewrite Ht in Hta. destruct (app_eq_app _ _ _ _ Hta) as (k & [[-> Hk]|[-> Hk]]).
      - destruct k as [|y k]; [|apply Forall_app in Ha0 as [_ Ha0]; inversion Ha0; subst; cbn in Hk; injection Hk as <- _; congruence].
        cbn in Hk. subst b0. rewrite app_nil_r in Hq. by apply Hq.
      - apply elem_of_app. left. apply Hq. intros ->. by destruct k. }
    rewrite bool_decide_eq_true_2 by done.
    change (92 :: b' ++ 32 :: tl) with ((92 :: b') ++ 32 :: tl).
    rewrite Hta in Hall |- *. apply Forall_app in Hall as [_ Hall].
    rewrite span_len_prefix, length_app by done. lia.
Qed.

Lemma target_end_sound data start t :
  Forall u8 data -> t = slice start (target_end_of data start) data -> t <> [] -> good_target t.
Proof.
  intros Hu -> Hne. split; [done|]. destruct (target_end_spec data start Hu) as (a & b & Hab & Ha & Hb & ->).
  unfold slice. rewrite Hab.
  set (m := if _ && _ then _ else _). replace (start + length a + m - start)%nat with (length a + m)%nat by lia.
  exists a, (take m b). split; [by rewrite take_app_add|]. split; [done|].
  unfold m. case_bool_decide as H1; cbn [andb]; [|done]. case_bool_decide as H2; [|done].
  split; [apply span_len_take|done].
Qed.

End RequestLine.

Section Heads.
Context `{AR : Arch} `{MC : Memchr}.

Definition as_request_line (r : request) : RequestLine :=
  {| rl_method := rq_method r; rl_target := rq_target r; rl_target_start := (length (rq_method r) + 1)%nat;
     rl_http10 := rq_http10 r; rl_header_start := length (render_request_line r) |}.

Lemma token_ascii s : Forall u8 s -> Forall (fun b => is_ b TCHAR = true) s ->
  Forall (fun b => b < 128) s /\ Forall (fun b => b <> 13) s.
Proof.
  intros Hu H. assert (H' : Forall (fun b => u8 b /\ is_ b TCHAR = true) s) by (by apply Forall_and).
  split; (eapply Forall_impl; [exact H'|]); intros x [H1 H2]; by apply (is_tchar_ascii x).
Qed.

Lemma length_version b : length (version b) = 10%nat.
Proof. by destruct b. Qed.

Lemma version_beq b : beq (version b) HTTP10 = b /\ negb (beq (version b) HTTP11) && negb (beq (version b) HTTP10) = false.
Proof. by destruct b. Qed.

Lemma request_line_complete data r tl :
  Forall u8 data -> data = render_request_line r ++ tl ->
  token (rq_method r) -> good_target (rq_target r) -> utf8_valid (rq_target r) = true ->
  request_line data = Ok (as_request_line r).
Proof.
  intros Hu Hd [Hmne Hm] Ht Hutf. set (m := rq_method r) in *. set (t := rq_target r) in *.
  assert (Hd' : data = m ++ 32 :: t ++ 32 :: version (rq_http10 r) ++ tl).
  { rewrite Hd. unfold render_request_line. by rewrite <- app_assoc, <- app_comm_cons, <- app_assoc, <- app_comm_cons. }
  assert (Hspan : span_len (fun b => is_ b TCHAR) data = length m).
  { rewrite Hd'. by apply span_len_app_stop. }
  unfold request_line. rewrite Hspan. destruct (Nat.eqb_spec (length m) 0) as [E|_]; [by destruct m|]. cbn [orb].
  assert (Hsp : data !! length m = Some 32) by (rewrite Hd'; apply lookup_pre).
  rewrite bool_decide_eq_true_2 by done. cbn [negb].
  assert (Hdt : drop (length m + 1) data = t ++ 32 :: version (rq_http10 r) ++ tl).
  { rewrite <- drop_drop, Hd', drop_app_length. done. }
  fold (target_end_of data (length m + 1)). rewrite (target_end_complete data _ t _ Hu Hdt Ht).
  destruct (Nat.eqb_spec (length m + 1 + length t) (length m + 1)) as [E|_];
    [destruct Ht as [Htne _]; by destruct t; cbn in E; [|lia]|]. cbn [orb].
  assert (Hdt2 : drop (length m + 1 + length t) data = 32 :: version (rq_http10 r) ++ tl).
  { rewrite <- drop_drop, Hdt, drop_app_length. done. }
  rewrite <- (Nat.add_0_r (length m + 1 + length t)), <- lookup_drop, Hdt2, Nat.add_0_r.
  cbn [lookup list_lookup]. rewrite bool_decide_eq_true_2 by done. cbn [negb].
  assert (slice (length m + 1 + length t + 1) (length m + 1 + length t + 11) data = version (rq_http10 r)) as ->.
  { unfold slice. rewrite <- drop_drop, Hdt2. replace (_ - _)%nat with (length (version (rq_http10 r))) by (rewrite length_version; lia).
    apply take_app_length. }
  destruct (version_beq (rq_http10 r)) as [-> ->].
  assert (Htake : take (length m + 1 + length t) data = m ++ 32 :: t).
  { rewrite Hd'. change (32 :: t ++ ?x) with ((32 :: t) ++ x). rewrite app_assoc.
    replace (length m + 1 + length t)%nat with (length (m ++ 32 :: t)) by (rewrite length_app; cbn; lia).
    apply take_app_length. }
  rewrite Htake. unfold from_utf8.
  assert (Hmu : Forall u8 m) by (rewrite Hd' in Hu; by apply Forall_app in Hu as [? _]).
  rewrite utf8_valid_ascii_app by (by apply token_ascii). cbn [utf8_valid Z.ltb Z.compare Pos.compare Pos.compare_cont].
  rewrite Hutf. f_equal. unfold as_request_line. fold m. fold t. f_equal.
  - apply take_app_length.
  - rewrite <- drop_drop, drop_app_length. done.
  - unfold render_request_line. fold m. fold t. rewrite length_app. cbn. rewrite length_app. cbn. rewrite length_version. lia.
Qed.

Lemma request_line_sound data rl :
  Forall u8 data -> request_line data = Ok rl ->
  exists r, rl = as_request_line r /\ rq_lines r = [] /\ token (rq_method r) /\ good_target (rq_target r) /\
    utf8_valid (rq_target r) = true /\ data = render_request_line r ++ drop (rl_header_start rl) data.
Proof.
  intros Hu. unfold request_line. set (k := span_len (fun b => is_ b TCHAR) data).
  destruct ((k =? 0)%nat || _) eqn:E1; [done|]. bool_simpl.
  fold (target_end_of data (k + 1)). set (te := target_end_of data (k + 1)).
  destruct ((te =? k + 1)%nat || _) eqn:E2; [done|]. bool_simpl.
  set (ver := slice (te + 1) (te + 11) data).
  destruct (negb (beq ver HTTP11) && negb (beq ver HTTP10)) eqn:E3; [done|].
  destruct (from_utf8 (take te data)) as [ln|] eqn:E4; [|done]. intros [= <-].
  unfold from_utf8 in E4. destruct (utf8_valid (take te data)) eqn:Hutf; [|done]. injection E4 as <-.
  assert (Hte : (k + 1 <= te)%nat).
  { unfold te. destruct (target_end_spec data (k + 1) Hu) as (a & b & _ & _ & _ & ->). lia. }
  pose proof (span_len_le (fun b => is_ b TCHAR) data) as Hk. fold k in Hk.
  assert (Htlt : (te < length data)%nat) by (by eapply lookup_lt_Some).
  set (m := take k data). set (t := slice (k + 1) te data).
  assert (Hlm : length m = k) by (unfold m; rewrite length_take; lia).
  assert (Hlt : length t = (te - (k + 1))%nat) by (unfold t; rewrite length_slice; lia).
  assert (Hv : ver = version (beq ver HTTP10)).
  { destruct (beq ver HTTP10) eqn:Eb; [by apply beq_spec in Eb|]. rewrite andb_true_r in E3.
    apply negb_false_iff, beq_spec in E3. done. }
  assert (Hlv : length ver = 10%nat) by (rewrite Hv; apply length_version).
  assert (Hlong : (te + 11 <= length data)%nat).
  { unfold ver, slice in Hlv. rewrite length_take, length_drop in Hlv. lia. }
  assert (Htk : take te data = m ++ 32 :: t).
  { rewrite <- (take_drop k (take te data)). rewrite take_take, Nat.min_l by lia. unfold m. f_equal.
    rewrite (drop_lookup_cons (take te data) k 32) by (by rewrite lookup_take_lt by lia).
    f_equal. unfold t, slice. rewrite skipn_firstn_comm. f_equal; [lia|]. f_equal. lia. }
  assert (Hdata : data = m ++ 32 :: t ++ 32 :: ver ++ drop (te + 11) data).
  { rewrite <- (take_drop te data) at 1. rewrite Htk, <- app_assoc. f_equal. cbn [app]. f_equal. f_equal.
    rewrite (drop_lookup_cons data te 32) by done. f_equal.
    rewrite <- (take_drop 10 (drop (S te) data)), drop_drop. replace (S te + 10)%nat with (te + 11)%nat by lia. f_equal.
    unfold ver, slice. f_equal; [lia|]. f_equal. lia. }
  exists {| rq_method := m; rq_target := t; rq_http10 := beq ver HTTP10; rq_lines := [] |}.
  unfold as_request_line, render_request_line, good_target. cbn [rq_method rq_target rq_http10 rq_lines rl_header_start].
  assert (Hmc : Forall (fun b => is_ b TCHAR = true) m) by apply span_len_take.
  assert (Hmu : Forall u8 m) by (by apply Forall_take).
  split; [|split; [done|split; [|split; [|split]]]].
  - f_equal.
    + rewrite Htk. by rewrite <- Hlm, take_app_length.
    + rewrite Htk. replace (k + 1)%nat with (length m + 1)%nat by lia. rewrite <- drop_drop, drop_app_length. done.
    + by rewrite Hlm.
    + rewrite length_app. cbn. rewrite length_app. cbn. rewrite length_version. lia.
  - split; [|done]. intros Em. rewrite Em in Hlm. cbn in Hlm. lia.
  - apply (target_end_sound data (k + 1)); [done|done|]. intros Et. fold te t in Et. rewrite Et in Hlt. cbn in Hlt. lia.
  - rewrite Htk in Hutf. by rewrite utf8_valid_ascii_app in Hutf by (by apply token_ascii).
  - rewrite <- Hv. rewrite <- app_assoc, <- app_comm_cons, <- app_assoc, <- app_comm_cons. exact Hdata.
Qed.

End Heads.

(** ** What an accepted head says, line by line *)

(** The values of the lines named [nm], whatever their case. *)
Definition values (nm : list Z) (ls : list line) : list (list Z) :=
  map snd (filter (fun l => lowercase l.1 = nm) ls).

Lemma values_snoc nm ls l :
  values nm (ls ++ [l]) = values nm ls ++ (if bool_decide (lowercase l.1 = nm) then [l.2] else []).
Proof.
  unfold values. rewrite filter_app, map_app. f_equal. rewrite filter_cons.
  case_decide; case_bool_decide; done.
Qed.

Lemma lower_or32 x c : u8 x -> is_ascii_lowercase c = true -> to_ascii_lowercase x = c -> Z.lor x 32 = c.
Proof.
  intros Hx Hc <-. revert Hc.
  pose proof (byte_forall (fun x => implb (is_ascii_lowercase (to_ascii_lowercase x)) (Z.lor x 32 =? to_ascii_lowercase x))
    eq_refl x Hx) as H. cbv beta in H. destruct (is_ascii_lowercase (to_ascii_lowercase x)); [|done].
  cbn in H. by apply Z.eqb_eq in H.
Qed.

(** The length and first-byte key never decides: the arm is the name. *)
Lemma named_exact name n c lower :
  Forall u8 name -> lowercase lower = lower -> length lower = n -> head lower = Some c -> is_ascii_lowercase c = true ->
  named name n c lower = bool_decide (lowercase name = lower).
Proof.
  intros Hu Hl Hn Hh Hc. unfold named.
  assert (Heq : eq_ignore_ascii_case name lower = bool_decide (lowercase name = lower)).
  { apply eq_true_iff_eq. by rewrite eq_ignore_ascii_case_spec, bool_decide_eq_true, Hl. }
  rewrite Heq. case_bool_decide as E; [|by rewrite andb_false_r]. rewrite andb_true_r. unfold opens.
  rewrite <- (length_lowercase name), E, Hn, Nat.eqb_refl. cbn [andb].
  destruct Hu as [|x name Hx Hu]; [by subst lower|]. subst lower. cbn in Hh. injection Hh as Hh.
  apply Z.eqb_eq. by apply lower_or32.
Qed.

(** Evaluates setters and projections only. *)
Ltac cbn_fields :=
  cbn [fst snd f_host f_content_length f_is_chunked violation set_host set_content_length set_chunked violate].

Section Accepted.
Context `{AR : Arch} `{MC : Memchr}.

(** The framing and routing headers never named by a Connection token. *)
Definition harmless_token (tok : list Z) : Prop :=
  let k := lowercase (trim_ows tok) in
  k <> bs "content-length" /\ k <> bs "transfer-encoding" /\ k <> bs "host".

Record fields_read (http10 : bool) (f : Fields) (ls : list line) : Prop := {
  read_host :
    (values (bs "host") ls = [] /\ f_host f = None) \/
    (exists v h, values (bs "host") ls = [v] /\ split_host (trim_ows v) = Some h /\ f_host f = Some (take h (trim_ows v)));
  read_length :
    (values (bs "content-length") ls = [] /\ f_content_length f = None) \/
    (exists v n, values (bs "content-length") ls = [v] /\ parse_digits (trim_ows v) = Some n /\ f_content_length f = Some n);
  read_coding :
    (values (bs "transfer-encoding") ls = [] /\ f_is_chunked f = false) \/
    (exists v, values (bs "transfer-encoding") ls = [v] /\ lowercase (trim_ows v) = bs "chunked" /\
       f_is_chunked f = true /\ http10 = false);
  read_connection :
    Forall (fun v => Forall harmless_token (split_on 44 v)) (values (bs "connection") ls);
}.

(** The parts of [Fields] the record above reads. *)
Definition same_core (f g : Fields) : Prop :=
  f_host f = f_host g /\ f_content_length f = f_content_length g /\ f_is_chunked f = f_is_chunked g.

Lemma connection_token_core f tok : same_core f (connection_token f tok).
Proof. unfold connection_token. repeat split_match; done. Qed.

Lemma connection_token_violation f tok :
  violation (connection_token f tok) = false -> violation f = false /\ harmless_token tok.
Proof.
  unfold connection_token, harmless_token.
  assert (Hk : forall s, lowercase s = s -> eq_ignore_ascii_case (trim_ows tok) s = bool_decide (lowercase (trim_ows tok) = s)).
  { intros s Hs. apply eq_true_iff_eq. by rewrite eq_ignore_ascii_case_spec, bool_decide_eq_true, Hs. }
  rewrite !Hk by done. set (k := lowercase (trim_ows tok)).
  assert (Hd : forall s, bool_decide (k = s) = true -> k = s) by (intros s; apply bool_decide_eq_true).
  destruct (bool_decide (k = bs "close")) eqn:E1; [apply Hd in E1; cbn; intros ->; rewrite E1; done|].
  destruct (bool_decide (k = bs "keep-alive")) eqn:E2; [apply Hd in E2; cbn; intros ->; rewrite E2; done|].
  destruct (bool_decide (k = bs "upgrade")) eqn:E3; [apply Hd in E3; cbn; intros ->; rewrite E3; done|].
  destruct (bool_decide (k = bs "content-length") || bool_decide (k = bs "transfer-encoding") || bool_decide (k = bs "host")) eqn:E4;
    [done|]. bool_simpl. intros Hv. split; [|done]. by destruct (_ && _).
Qed.

Lemma connection_tokens f toks :
  let f' := fold_left connection_token toks f in
  same_core f f' /\ (violation f' = false -> violation f = false /\ Forall harmless_token toks).
Proof.
  revert f. induction toks as [|tok toks IH]; intros f; cbn [fold_left]; [done|].
  destruct (IH (connection_token f tok)) as [(H1 & H2 & H3) IHv].
  destruct (connection_token_core f tok) as (G1 & G2 & G3). split; [by split; [|split]; etransitivity|].
  intros Hv. destruct (IHv Hv) as [Hv' Hall]. apply connection_token_violation in Hv' as [? ?]. split; [done|]. by constructor.
Qed.

(** A line of another name leaves the record alone. *)
Lemma fields_read_other http10 f g ls l :
  fields_read http10 f ls -> same_core f g ->
  lowercase l.1 <> bs "host" -> lowercase l.1 <> bs "content-length" -> lowercase l.1 <> bs "transfer-encoding" ->
  lowercase l.1 <> bs "connection" -> fields_read http10 g (ls ++ [l]).
Proof.
  intros [R1 R2 R3 R4] (S1 & S2 & S3) N1 N2 N3 N4.
  split; rewrite values_snoc, bool_decide_eq_false_2, app_nil_r by done; rewrite <- ?S1, <- ?S2, <- ?S3; done.
Qed.

(** A value list grows only on its own name. *)
Lemma values_snoc_hit nm ls l : lowercase l.1 = nm -> values nm (ls ++ [l]) = values nm ls ++ [l.2].
Proof. intros H. by rewrite values_snoc, bool_decide_eq_true_2. Qed.

Lemma values_snoc_miss nm ls l : lowercase l.1 <> nm -> values nm (ls ++ [l]) = values nm ls.
Proof. intros H. by rewrite values_snoc, bool_decide_eq_false_2, app_nil_r. Qed.

Lemma field_line_read http10 f ls l :
  Forall u8 l.1 -> fields_read http10 f ls ->
  violation (field_line http10 f l.1 l.2).1 = false ->
  fields_read http10 (field_line http10 f l.1 l.2).1 (ls ++ [l]).
Proof.
  intros Hu HR. unfold field_line. rewrite !named_exact by done.
  pose proof (fun g => fields_read_other http10 f g ls l HR) as Hother. destruct HR as [R1 R2 R3 R4].
  destruct (bool_decide (lowercase l.1 = bs "host")) eqn:E1; bool_simpl.
  { destruct (split_host (trim_ows l.2)) as [h|] eqn:Eh, (f_host f) as [h0|] eqn:Ef; cbn_fields; try done. intros _.
    destruct R1 as [[R1 _]|(v & h' & _ & _ & R1)]; [|congruence].
    split; cbn_fields; [|by rewrite values_snoc_miss by (by rewrite E1)..].
    right. exists l.2, h. rewrite values_snoc_hit by done. by rewrite R1. }
  destruct (bool_decide (lowercase l.1 = bs "content-length")) eqn:E2; bool_simpl.
  { destruct (parse_digits (trim_ows l.2)) as [n|] eqn:Eh, (f_content_length f) as [n0|] eqn:Ef; cbn_fields; try done. intros _.
    destruct R2 as [[R2 _]|(v & h' & _ & _ & R2)]; [|congruence].
    split; cbn_fields; [by rewrite values_snoc_miss by (by rewrite E2)| |by rewrite values_snoc_miss by (by rewrite E2)..].
    right. exists l.2, n. rewrite values_snoc_hit by done. by rewrite R2. }
  destruct (bool_decide (lowercase l.1 = bs "transfer-encoding")) eqn:E3; bool_simpl.
  { destruct (http10 || f_is_chunked f || _) eqn:Ec; cbn_fields; [done|]. intros _. bool_simpl.
    destruct R3 as [[R3 _]|(v & _ & _ & R3 & _)]; [|congruence].
    split; cbn_fields; [by rewrite values_snoc_miss by (by rewrite E3)..| |by rewrite values_snoc_miss by (by rewrite E3)].
    right. exists l.2. rewrite values_snoc_hit by done. rewrite R3. repeat split; try done.
    change (bs "chunked") with (lowercase (bs "chunked")). by apply eq_ignore_ascii_case_spec. }
  destruct (bool_decide (lowercase l.1 = bs "upgrade")) eqn:E4; bool_simpl.
  { intros _. destruct (offers_h2c l.2); (apply Hother; [by repeat split|..]); rewrite E4; done. }
  destruct (bool_decide (lowercase l.1 = bs "connection")) eqn:E5; bool_simpl.
  { cbn_fields. intros Hv. destruct (connection_tokens f (split_on 44 l.2)) as [(S1 & S2 & S3) Hh]. apply Hh in Hv as [_ Hh'].
    split; rewrite <- ?S1, <- ?S2, <- ?S3; [by rewrite values_snoc_miss by (by rewrite E5)..|].
    rewrite values_snoc_hit by done. apply Forall_app. split; [done|]. by constructor. }
  intros _. repeat (case_match; [apply Hother; by repeat split_match|]). by apply Hother.
Qed.

Lemma run_lines_read http10 st ls seen :
  Forall (fun l : line => Forall u8 l.1) ls ->
  fields_read http10 (fields st) seen -> violation (fields (run_lines http10 st ls)) = false ->
  fields_read http10 (fields (run_lines http10 st ls)) (seen ++ ls).
Proof.
  intros Hu. revert st seen. induction Hu as [|l ls Hl _ IH]; intros st seen HR Hv; [by rewrite app_nil_r|].
  cbn [run_lines] in *. destruct (violation (fields st)) eqn:Ev; [congruence|].
  change (seen ++ l :: ls) with (seen ++ [l] ++ ls). rewrite app_assoc. apply IH; [|done].
  assert (fields (line_step http10 st l) = (field_line http10 (fields st) l.1 l.2).1) as Hf.
  { unfold line_step, take_line. destruct (field_line _ _ _ _) as [f k]. by destruct (violation f). }
  rewrite Hf. apply field_line_read; [done|done|]. rewrite <- Hf.
  destruct (violation (fields (line_step http10 st l))) eqn:Ev2; [|done].
  destruct ls; cbn [run_lines] in Hv; [congruence|]. rewrite Ev2 in Hv. congruence.
Qed.

Lemma run_lines_pos http10 st ls : violation (fields (run_lines http10 st ls)) = false ->
  pos (run_lines http10 st ls) = (pos st + length (render_lines ls))%nat.
Proof.
  revert st. induction ls as [|l ls IH]; intros st Hv; cbn [run_lines] in *; [cbn; lia|].
  destruct (violation (fields st)) eqn:Ev; [congruence|]. rewrite IH by done.
  unfold line_step. rewrite take_line_pos. unfold render_lines. cbn [map concat]. rewrite length_app. lia.
Qed.

End Accepted.

(** ** Acceptance *)

Lemma Forall_u8_trim v : Forall u8 v -> Forall u8 (trim_ows v).
Proof. intros H. unfold trim_ows. by apply Forall_take, Forall_drop. Qed.

Lemma is_ip_ascii b : is_ip_byte b = true -> b < 128.
Proof. unfold is_ip_byte, is_ascii_hexdigit, is_ascii_digit. intros H. lia. Qed.

Lemma split_host_ascii v h : Forall u8 v -> split_host v = Some h -> Forall (fun b => b < 128) (take h v).
Proof.
  intros Hu Hs. apply split_host_sound in Hs as (host & t & -> & <- & Hh & _). rewrite take_app_length.
  apply Forall_app in Hu as [Hu _]. destruct Hh as [Hh|(ip & -> & _ & Hip)].
  - assert (H : Forall (fun b => u8 b /\ is_ b HOST = true) host) by (by apply Forall_and).
    eapply Forall_impl; [exact H|]. intros x [Hx Hx']. by apply (is_host_ascii x).
  - constructor; [lia|]. apply Forall_app. split; [|by repeat constructor].
    eapply Forall_impl; [exact Hip|]. apply is_ip_ascii.
Qed.

Section Acceptance.
Context `{AR : Arch} `{MC : Memchr}.

Definition target_violation (r : request) : bool := (read_target (rq_method r) (rq_target r)).1.1.1.
Definition target_host (r : request) : option (list Z) := (read_target (rq_method r) (rq_target r)).1.1.2.

Lemma target_host_ascii r t : Forall u8 (rq_target r) -> target_host r = Some t -> Forall (fun b => b < 128) t.
Proof.
  unfold target_host, read_target. intros Hu. destruct (beq (rq_method r) _); [done|].
  destruct (negb _); [|done]. destruct (beq (rq_target r) _); [done|].
  destruct (absolute_scheme_len (rq_target r)) as [n|]; [|done]. cbv zeta.
  set (a := take (default _ _) (drop n (rq_target r))).
  assert (Ha : Forall u8 a) by (by apply Forall_take, Forall_drop).
  destruct (split_host a) as [h|] eqn:Eh; [destruct (0 <? h)%nat|]; destruct (_ <? _)%nat; cbn; try done;
    intros [= <-]; by apply split_host_ascii.
Qed.

(** One reading only: one Host, one length or one [chunked] at most, nothing
    of either nominated by Connection, and a target that agrees with Host. *)
Record unambiguous (r : request) : Prop := {
  un_target : target_violation r = false;
  un_host :
    match values (bs "host") (rq_lines r) with
    | [] => rq_http10 r = true
    | [v] => exists h, split_host (trim_ows v) = Some h /\
               (take h (trim_ows v) = [] -> rq_http10 r = true) /\
               (forall t, target_host r = Some t -> lowercase t = lowercase (take h (trim_ows v)))
    | _ => False
    end;
  un_framing :
    match values (bs "content-length") (rq_lines r), values (bs "transfer-encoding") (rq_lines r) with
    | [], [] => True
    | [v], [] => exists n, parse_digits (trim_ows v) = Some n
    | [], [v] => lowercase (trim_ows v) = bs "chunked" /\ rq_http10 r = false
    | _, _ => False
    end;
  un_connection : Forall (fun v => Forall harmless_token (split_on 44 v)) (values (bs "connection") (rq_lines r));
}.

Lemma values_app nm a b : values nm (a ++ b) = values nm a ++ values nm b.
Proof. unfold values. by rewrite filter_app, map_app. Qed.

Lemma values_one_hit nm l : lowercase l.1 = nm -> values nm [l] = [l.2].
Proof. exact (values_snoc_hit nm [] l). Qed.

Lemma connection_tokens_ok f toks :
  violation f = false -> Forall harmless_token toks -> violation (fold_left connection_token toks f) = false.
Proof.
  intros Hv H. revert f Hv. induction H as [|tok toks (H1 & H2 & H3) _ IH]; intros f Hv; cbn [fold_left]; [done|].
  apply IH. unfold connection_token.
  assert (Hk : forall s, lowercase s = s -> lowercase (trim_ows tok) <> s -> eq_ignore_ascii_case (trim_ows tok) s = false).
  { intros s Hs Hne. apply not_true_iff_false. rewrite eq_ignore_ascii_case_spec, Hs. done. }
  rewrite (Hk (bs "content-length")), (Hk (bs "transfer-encoding")), (Hk (bs "host")) by done.
  cbn [orb]. repeat (split_match; [done|]). done.
Qed.

(** In a list read so far without violation, a line that keeps the whole
    list unambiguous brings none. *)
Lemma field_line_ok http10 f seen l rest m t :
  Forall u8 l.1 -> fields_read http10 f seen -> violation f = false ->
  unambiguous {| rq_method := m; rq_target := t; rq_http10 := http10; rq_lines := seen ++ l :: rest |} ->
  violation (field_line http10 f l.1 l.2).1 = false.
Proof.
  intros Hu [R1 R2 R3 R4] Hv [_ U1 U2 U3]. cbn [rq_lines rq_http10] in *.
  change (seen ++ l :: rest) with (seen ++ [l] ++ rest) in *.
  unfold field_line. rewrite !named_exact by done.
  destruct (bool_decide (lowercase l.1 = bs "host")) eqn:E1; bool_simpl.
  { rewrite values_app, (values_app _ [l]), (values_one_hit _ l E1) in U1.
    destruct (values (bs "host") seen) as [|v0 vs] eqn:Es; [|destruct vs; cbn in U1; done].
    destruct R1 as [[_ ->]|(? & ? & ? & _)]; [|done]. cbn [app] in U1.
    destruct (values (bs "host") rest); [|done]. destruct U1 as (h & -> & _). cbn_fields. done. }
  destruct (bool_decide (lowercase l.1 = bs "content-length")) eqn:E2; bool_simpl.
  { generalize dependent (values (bs "transfer-encoding") (seen ++ [l] ++ rest)). intros te U2.
    rewrite (values_app (bs "content-length")), (values_app (bs "content-length") [l]) in U2.
    rewrite (values_one_hit _ l E2) in U2.
    destruct (values (bs "content-length") seen) as [|v0 vs] eqn:Es;
      [|destruct vs; cbn in U2; destruct te; done].
    destruct R2 as [[_ ->]|(? & ? & ? & _)]; [|done]. cbn [app] in U2.
    destruct (values (bs "content-length") rest), te; try done.
    destruct U2 as (n & ->). cbn_fields. done. }
  destruct (bool_decide (lowercase l.1 = bs "transfer-encoding")) eqn:E3; bool_simpl.
  { generalize dependent (values (bs "content-length") (seen ++ [l] ++ rest)). intros cl U2.
    rewrite (values_app (bs "transfer-encoding")), (values_app (bs "transfer-encoding") [l]) in U2.
    rewrite (values_one_hit _ l E3) in U2.
    destruct (values (bs "transfer-encoding") seen) as [|v0 vs] eqn:Es;
      [|destruct cl as [|? []]; destruct vs; cbn in U2; done].
    destruct R3 as [[_ ->]|(? & ? & _)]; [|done]. cbn [app] in U2.
    destruct cl as [|? []]; try done. destruct (values (bs "transfer-encoding") rest); [|done].
    destruct U2 as [Hch ->]. change (bs "chunked") with (lowercase (bs "chunked")) in Hch.
    apply eq_ignore_ascii_case_spec in Hch. rewrite Hch. cbn_fields. done. }
  destruct (bool_decide (lowercase l.1 = bs "upgrade")) eqn:E4; bool_simpl.
  { by destruct (offers_h2c l.2). }
  destruct (bool_decide (lowercase l.1 = bs "connection")) eqn:E5; bool_simpl.
  { cbn_fields. apply connection_tokens_ok; [done|].
    rewrite (values_app (bs "connection")), (values_app (bs "connection") [l]), (values_one_hit _ l E5) in U3.
    apply Forall_app in U3 as [_ U3].
    apply Forall_app in U3 as [U3 _]. by inversion U3. }
  repeat (case_match; try done).
Qed.

Lemma run_lines_ok http10 st ls seen m t :
  Forall (fun l : line => Forall u8 l.1) ls -> fields_read http10 (fields st) seen -> violation (fields st) = false ->
  unambiguous {| rq_method := m; rq_target := t; rq_http10 := http10; rq_lines := seen ++ ls |} ->
  violation (fields (run_lines http10 st ls)) = false.
Proof.
  intros Hu. revert st seen. induction Hu as [|l ls Hl _ IH]; intros st seen HR Hv Hun; cbn [run_lines]; [done|].
  rewrite Hv. assert (fields (line_step http10 st l) = (field_line http10 (fields st) l.1 l.2).1) as Hf.
  { unfold line_step, take_line. destruct (field_line _ _ _ _) as [f k]. by destruct (violation f). }
  pose proof (field_line_ok http10 _ seen l ls m t Hl HR Hv Hun) as Hok.
  apply (IH _ (seen ++ [l])); [|by rewrite Hf|].
  - rewrite Hf. by apply field_line_read.
  - by rewrite <- app_assoc.
Qed.

Lemma fields_read_init http10 : fields_read http10 (Fields_init false) [].
Proof. split; [by left|by left|by left|constructor]. Qed.

(** The host the fields and the target settle on. *)
Definition final_host (f : Fields) (http10 : bool) (th : option (list Z)) : option (list Z) :=
  match f_host f with Some h => Some h | None => if http10 then Some (default [] th) else None end.

Lemma finish_accepts rl data th p off st info :
  finish rl data th p off st = Ok info -> header_violation info = false ->
  violation (fields st) = false /\ terminated st = true /\
  exists host, final_host (fields st) (rl_http10 rl) th = Some host /\
    (forall t, th = Some t -> lowercase t = lowercase host) /\ (host = [] -> rl_http10 rl = true) /\
    (f_content_length (fields st) <> None -> f_is_chunked (fields st) = false).
Proof.
  unfold finish, final_host. destruct (violation (fields st)) eqn:Ev; cbn [orb].
  { destruct (f_host (fields st)); [|destruct (rl_http10 rl)]; destruct (from_utf8 _); try done;
      destruct (find_byte 63 p); intros [= <-]; done. }
  destruct (terminated st); cbn [negb].
  2: { destruct (f_host (fields st)); [|destruct (rl_http10 rl)]; destruct (from_utf8 _); try done;
         destruct (find_byte 63 p); intros [= <-]; done. }
  intros H Hv. split; [done|]. split; [done|].
  destruct (match f_host (fields st) with Some h => Some h | None => _ end) as [host|] eqn:Eh; [|done].
  exists host. split; [by destruct (f_host (fields st)), (rl_http10 rl)|].
  destruct (from_utf8 host); [|done]. destruct (match find_byte 63 p with Some _ => _ | None => _ end) as [p' q'].
  injection H as <-. cbn [header_violation] in Hv. cbn [orb] in Hv.
  apply orb_false_iff in Hv as [Hv Hcl]. apply orb_false_iff in Hv as [Hth Hne]. split; [|split].
  - intros t ->. apply negb_false_iff, eq_ignore_ascii_case_spec in Hth. done.
  - intros ->. by apply negb_false_iff in Hne.
  - by destruct (f_content_length (fields st)).
Qed.

Definition path_query (p : list Z) : list Z * list Z :=
  match find_byte 63 p with Some i => (take i p, drop (S i) p) | None => (p, []) end.

Lemma finish_completes rl data th p off st host :
  violation (fields st) = false -> terminated st = true ->
  final_host (fields st) (rl_http10 rl) th = Some host -> Forall (fun b => b < 128) host ->
  (forall t, th = Some t -> lowercase t = lowercase host) -> (host = [] -> rl_http10 rl = true) ->
  (f_content_length (fields st) <> None -> f_is_chunked (fields st) = false) ->
  exists info, finish rl data th p off st = Ok info /\ header_violation info = false /\
    method info = rl_method rl /\ info_host info = host /\ (path info, query_string info) = path_query p /\
    path_at info = option_map (fun o => (rl_target_start rl + o)%nat) off /\
    header_data info = slice (rl_header_start rl) (pos st) data /\ head_len info = (pos st + 2)%nat /\
    content_length info = f_content_length (fields st) /\ is_chunked info = f_is_chunked (fields st).
Proof.
  intros Hv Ht Hh Hasc Hth Hne Hcl. unfold finish. rewrite Hv, Ht. cbn [orb negb].
  assert (match f_host (fields st) with Some h => Some h | None => if rl_http10 rl then Some (default [] th) else None end
          = Some host) as -> by exact Hh.
  unfold from_utf8. rewrite utf8_valid_ascii by done. unfold path_query.
  destruct (match find_byte 63 p with Some _ => _ | None => _ end) as [p' q'].
  eexists. split; [reflexivity|]. cbn. repeat split.
  assert (match th with Some t => negb (eq_ignore_ascii_case t host) | None => false end = false) as ->.
  { destruct th as [t|]; [|done]. apply negb_false_iff, eq_ignore_ascii_case_spec. by apply Hth. }
  assert (match host with [] => negb (rl_http10 rl) | _ => false end = false) as ->.
  { destruct host; [|done]. by rewrite Hne. }
  cbn. destruct (f_content_length (fields st)); [|done]. by rewrite Hcl.
Qed.

Definition with_lines (r : request) (ls : list line) : request :=
  {| rq_method := rq_method r; rq_target := rq_target r; rq_http10 := rq_http10 r; rq_lines := ls |}.

Lemma extract_accepts data info :
  Forall u8 data -> extract_routing_info data = Ok info -> header_violation info = false ->
  exists r rest, data = render r ++ rest /\ good_request r /\ unambiguous r.
Proof.
  intros Hu. unfold extract_routing_info. destruct (request_line data) as [rl|] eqn:Erl; [|done].
  destruct (request_line_sound data rl Hu Erl) as (r & -> & Hnil & Hm & Ht & Hutf & Hdata).
  cbn [as_request_line rl_method rl_target rl_http10 rl_header_start] in *.
  destruct (read_target (rq_method r) (rq_target r)) as [[[viol th] p] off] eqn:Etgt.
  intros Hfin Hv. apply finish_accepts in Hfin as (Hviol & Hterm & host & Hhost & Hth & Hne & Hcl); [|done].
  cbn [rl_http10 as_request_line] in *.
  set (st0 := head_init viol (length (render_request_line r))) in *.
  destruct (head_loop_sound _ (rq_http10 r) data st0 Hu eq_refl Hviol Hterm) as (ls & tl & Hdrop & Hg & Hst & Hpos).
  rewrite Hst in *. cbn [ended fields] in *.
  assert (viol = false) as Hvf.
  { destruct viol; [|done]. destruct ls; cbn [run_lines] in Hviol; done. }
  assert (Hdata' : data = render (with_lines r ls) ++ tl).
  { rewrite Hdata at 1. unfold render, st0 in *. cbn [head_init pos] in Hdrop. rewrite Hdrop. unfold with_lines, render_request_line.
    cbn [rq_method rq_target rq_http10 rq_lines]. by rewrite <- !app_assoc. }
  exists (with_lines r ls), tl. split; [done|]. split; [exact (conj Hm (conj Ht (conj Hutf Hg)))|].
  assert (Hnames : Forall (fun l : line => Forall u8 l.1) ls).
  { rewrite Hdata' in Hu. apply Forall_app in Hu as [Hu _]. unfold render in Hu.
    apply Forall_app in Hu as [_ Hu]. apply Forall_app in Hu as [Hu _]. cbn [with_lines rq_lines] in Hu. clear -Hu.
    induction ls as [|l ls IH]; [constructor|]. unfold render_lines in Hu. cbn [map concat] in Hu.
    apply Forall_app in Hu as [Hl Hu]. constructor; [|by apply IH]. unfold render_line in Hl. by apply Forall_app in Hl as [? _]. }
  assert (HR : fields_read (rq_http10 r) (fields (run_lines (rq_http10 r) st0 ls)) ([] ++ ls)).
  { apply run_lines_read; [done| |done]. unfold st0. subst viol. apply fields_read_init. }
  destruct HR as [R1 R2 R3 R4]. cbn [app] in *. unfold final_host in Hhost.
  split; unfold target_violation, target_host, with_lines; cbn [rq_method rq_target rq_http10 rq_lines].
  - by rewrite Etgt.
  - destruct R1 as [[-> Hf]|(v & h & -> & Hs & Hf)]; rewrite Hf in Hhost.
    + by destruct (rq_http10 r).
    + injection Hhost as <-. exists h. rewrite Etgt. cbn [fst snd]. auto.
  - destruct R2 as [[-> Hf]|(v & n & -> & Hp & Hf)]; destruct R3 as [[-> Hf3]|(v3 & -> & Hc & Hf3 & H10)]; eauto.
    rewrite Hf, Hf3 in Hcl. by specialize (Hcl ltac:(done)).
  - done.
Qed.

Lemma names_u8 ls : Forall u8 (render_lines ls) -> Forall (fun l : line => Forall u8 l.1 /\ Forall u8 l.2) ls.
Proof.
  induction ls as [|l ls IH]; [constructor|]. unfold render_lines. cbn [map concat].
  intros [Hl Hu]%Forall_app. constructor; [|by apply IH]. unfold render_line in Hl. apply Forall_app in Hl as [? Hl].
  inversion Hl as [|? ? _ Hl']; subst. by apply Forall_app in Hl' as [? _].
Qed.

Lemma render_lines_count ls : (length ls <= length (render_lines ls))%nat.
Proof.
  induction ls as [|l ls IH]; [done|]. unfold render_lines in *. cbn [map concat length].
  rewrite length_app, length_render_line. lia.
Qed.

(** The Host an unambiguous request routes by. *)
Definition routed_host (r : request) : list Z :=
  match values (bs "host") (rq_lines r) with
  | v :: _ => take (default 0%nat (split_host (trim_ows v))) (trim_ows v)
  | [] => default [] (target_host r)
  end.

Definition routed_length (r : request) : option Z :=
  match values (bs "content-length") (rq_lines r) with v :: _ => parse_digits (trim_ows v) | [] => None end.

Lemma values_u8 nm ls : Forall (fun l : line => Forall u8 l.1 /\ Forall u8 l.2) ls -> Forall (Forall u8) (values nm ls).
Proof.
  intros H. unfold values. apply Forall_forall. intros v (l & -> & Hl)%list_elem_of_fmap.
  apply list_elem_of_filter in Hl as [_ Hl]. rewrite Forall_forall in H. by apply H.
Qed.

(** What [finish] asks of the fields, from what was read. *)
Lemma final_host_routed r f :
  Forall u8 (rq_target r) -> Forall (fun l : line => Forall u8 l.1 /\ Forall u8 l.2) (rq_lines r) ->
  unambiguous r -> fields_read (rq_http10 r) f (rq_lines r) ->
  final_host f (rq_http10 r) (target_host r) = Some (routed_host r) /\
  Forall (fun b => b < 128) (routed_host r) /\
  (forall t, target_host r = Some t -> lowercase t = lowercase (routed_host r)) /\
  (routed_host r = [] -> rq_http10 r = true).
Proof.
  intros Htu Hnv [_ U1 _ _] [R1 _ _ _]. pose proof (target_host_ascii r) as Hasc. unfold final_host, routed_host.
  destruct R1 as [[Hvals ->]|(v & h & Hvals & Hs & ->)]; rewrite Hvals in U1 |- *.
  - rewrite U1. split; [done|]. split; [destruct (target_host r); [by apply Hasc|constructor]|].
    split; [by intros t ->|done].
  - destruct U1 as (h' & Hs' & Hne & Hth). rewrite Hs in Hs' |- *. injection Hs' as <-. cbn [default from_option id].
    split; [done|]. split; [|done]. apply split_host_ascii; [|done]. apply Forall_u8_trim.
    pose proof (values_u8 (bs "host") _ Hnv) as Hvu. rewrite Hvals in Hvu. by inversion Hvu.
Qed.

Lemma framing_routed r f :
  unambiguous r -> fields_read (rq_http10 r) f (rq_lines r) ->
  f_content_length f = routed_length r /\
  f_is_chunked f = negb (is_nil (values (bs "transfer-encoding") (rq_lines r))) /\
  (f_content_length f <> None -> f_is_chunked f = false).
Proof.
  intros [_ _ U2 _] [_ R2 R3 _]. unfold routed_length.
  destruct R2 as [[Hc ->]|(v & n & Hc & Hp & ->)], R3 as [[He ->]|(v3 & He & _ & -> & _)];
    rewrite Hc, He in U2 |- *; rewrite ?Hp; done.
Qed.

(** The state the header loop of an accepted head ends in. *)
Definition lines_state (r : request) : HeadState :=
  run_lines (rq_http10 r) (head_init false (length (render_request_line r))) (rq_lines r).

(** The parts of an accepted head are bytes when the head is. *)
Lemma render_u8 r rest : Forall u8 (render r ++ rest) ->
  Forall u8 (rq_target r) /\ Forall (fun l : line => Forall u8 l.1 /\ Forall u8 l.2) (rq_lines r).
Proof.
  unfold render, render_request_line. intros [[Hu [Hl _]%Forall_app]%Forall_app _]%Forall_app.
  apply Forall_app in Hu as [_ Hu]. inversion Hu as [|? ? _ Hu']; subst. apply Forall_app in Hu' as [Ht _].
  split; [done|]. by apply names_u8.
Qed.

Lemma lines_state_ok r :
  unambiguous r -> Forall (fun l : line => Forall u8 l.1 /\ Forall u8 l.2) (rq_lines r) ->
  violation (fields (lines_state r)) = false /\ fields_read (rq_http10 r) (fields (lines_state r)) (rq_lines r) /\
  pos (lines_state r) = (length (render_request_line r) + length (render_lines (rq_lines r)))%nat.
Proof.
  intros Hun Hnv. assert (Hn : Forall (fun l : line => Forall u8 l.1) (rq_lines r)).
  { eapply Forall_impl; [exact Hnv|]. by intros l [? _]. }
  assert (Hv : violation (fields (lines_state r)) = false).
  { apply (run_lines_ok _ (head_init false _) _ [] (rq_method r) (rq_target r) Hn (fields_read_init _) eq_refl). by destruct r. }
  split; [done|]. split; [|by apply run_lines_pos].
  apply (run_lines_read _ _ _ []); [done|apply fields_read_init|done].
Qed.

(** On an accepted head the parser is its final checks on that state. *)
Lemma extract_runs r rest :
  good_request r -> unambiguous r -> Forall u8 (render r ++ rest) ->
  extract_routing_info (render r ++ rest) =
  finish (as_request_line r) (render r ++ rest) (target_host r) (read_target (rq_method r) (rq_target r)).1.2
    (read_target (rq_method r) (rq_target r)).2 (ended (lines_state r)).
Proof.
  intros (Hm & Ht & Hutf & Hl) Hun Hu. set (data := render r ++ rest) in *.
  assert (Hd : data = render_request_line r ++ render_lines (rq_lines r) ++ CRLF ++ rest).
  { unfold data, render. by rewrite <- !app_assoc. }
  unfold extract_routing_info. rewrite (request_line_complete data r _ Hu Hd Hm Ht Hutf).
  cbn [as_request_line rl_method rl_target rl_http10 rl_header_start].
  pose proof (un_target r Hun) as Hviol. unfold target_violation, target_host in *.
  destruct (read_target (rq_method r) (rq_target r)) as [[[viol th] p] off]. cbn [fst snd] in *. subst viol.
  rewrite (head_loop_lines _ _ data (head_init false _) (render_request_line r) (rq_lines r) rest Hd eq_refl Hl Hu).
  2: { rewrite Hd, !length_app. pose proof (render_lines_count (rq_lines r)). lia. }
  fold (lines_state r). cbv zeta. destruct (render_u8 r rest Hu) as [_ Hnv].
  by destruct (lines_state_ok r Hun Hnv) as (-> & _).
Qed.

Lemma extract_reading r rest :
  good_request r -> unambiguous r -> Forall u8 (render r ++ rest) ->
  exists info, extract_routing_info (render r ++ rest) = Ok info /\ header_violation info = false /\
    method info = rq_method r /\ info_host info = routed_host r /\
    header_data info = render_lines (rq_lines r) /\ head_len info = length (render r) /\
    content_length info = routed_length r /\
    is_chunked info = negb (is_nil (values (bs "transfer-encoding") (rq_lines r))) /\
    (path info, query_string info) = path_query (read_target (rq_method r) (rq_target r)).1.2 /\
    path_at info = option_map (fun o => (length (rq_method r) + 1 + o)%nat) (read_target (rq_method r) (rq_target r)).2.
Proof.
  intros Hg Hun Hu. rewrite (extract_runs r rest Hg Hun Hu). destruct (render_u8 r rest Hu) as [Htu Hnv].
  destruct (lines_state_ok r Hun Hnv) as (Hv & HR & Hpos).
  destruct (final_host_routed r _ Htu Hnv Hun HR) as (Hfh & Hha & Hth & Hne).
  destruct (framing_routed r _ Hun HR) as (Hcl & Hch & Hex).
  destruct (finish_completes (as_request_line r) (render r ++ rest) (target_host r) (read_target (rq_method r) (rq_target r)).1.2
    (read_target (rq_method r) (rq_target r)).2 (ended (lines_state r)) (routed_host r))
    as (info & Hi & Hiv & Him & Hih & Hipq & Hiat & Hihd & Hilen & Hicl & Hich); try done.
  exists info. rewrite Hi. split_and!; try done.
  - rewrite Hihd. cbn [ended pos as_request_line rl_header_start]. rewrite Hpos.
    unfold render. rewrite <- !app_assoc. apply slice_app_mid.
  - rewrite Hilen. cbn [ended pos]. rewrite Hpos. unfold render. rewrite !length_app. cbn. lia.
  - rewrite Hicl. exact Hcl.
  - rewrite Hich. exact Hch.
Qed.

Lemma render_no_cr r : good_request r -> Forall u8 (render r) ->
  Forall (fun x => x <> 13) (rq_method r ++ 32 :: rq_target r ++ 32 :: take 8 (version (rq_http10 r))).
Proof.
  intros (Hm & Ht & _ & _) Hu. unfold render, render_request_line in Hu. apply Forall_app in Hu as [Hu _].
  apply Forall_app in Hu as [Hmu Hu]. inversion Hu as [|? ? _ Hu']; subst. apply Forall_app in Hu' as [Htu _].
  apply Forall_app. split; [by apply token_ascii; [|apply Hm]|]. constructor; [lia|]. apply Forall_app. split.
  - destruct Ht as (_ & a & b & Hab & Ha & Hb & _). rewrite Hab in Htu |- *. apply Forall_app in Htu as [Hau Hbu]. apply Forall_app. split.
    + assert (H : Forall (fun x => u8 x /\ is_ x TARGET = true) a) by (by apply Forall_and).
      eapply Forall_impl; [exact H|]. intros x [H1 H2]. rewrite is_target_spec in H2 by done. lia.
    + assert (H : Forall (fun x => u8 x /\ is_ x TARGET || (x =? 92) = true) b) by (by apply Forall_and).
      eapply Forall_impl; [exact H|]. intros x [H1 H2]. rewrite is_target_spec in H2 by done. lia.
  - constructor; [lia|]. by destruct (rq_http10 r); repeat constructor.
Qed.

Lemma line_no_cr l : good_line l -> Forall u8 (render_line l) ->
  Forall (fun x => x <> 13) (l.1 ++ 58 :: l.2) /\ exists c t, render_line l = c :: t /\ c <> 13.
Proof.
  intros [[Hne Hn] Hv] Hu. unfold render_line in *. apply Forall_app in Hu as [Hnu Hu].
  inversion Hu as [|? ? _ Hu']; subst. apply Forall_app in Hu' as [Hvu _].
  destruct (token_ascii _ Hnu Hn) as [_ Hncr]. split.
  - apply Forall_app. split; [done|]. constructor; [lia|].
    assert (H : Forall (fun x => u8 x /\ is_ x VALUE = true) l.2) by (by apply Forall_and).
    eapply Forall_impl; [exact H|]. intros x [H1 H2]. rewrite is_value_spec in H2 by done. lia.
  - destruct Hncr as [|c t Hc _]; [done|]. by exists c, (t ++ 58 :: l.2 ++ CRLF).
Qed.

(** The first blank line of a rendered head is its last line, whatever
    bytes follow. *)
Lemma first_blank_lines k ls rest :
  Forall good_line ls -> Forall u8 (render_lines ls) -> Forall (fun x => x <> 13) k ->
  first_blank (k ++ CRLF ++ render_lines ls ++ CRLF ++ rest) = Some (length k + 2 + length (render_lines ls) + 2)%nat.
Proof.
  intros Hg. revert k. induction Hg as [|l ls Hl Hg IH]; intros k Hu Hk.
  - change (render_lines [] ++ CRLF ++ rest) with (CRLF ++ rest). rewrite first_blank_end by done. cbn. f_equal. lia.
  - unfold render_lines in *. cbn [map concat] in *. apply Forall_app in Hu as [Hlu Hu].
    destruct (line_no_cr l Hl Hlu) as [Hlcr (c & t & Hc & Hcne)].
    assert (Hsplit : render_line l = (l.1 ++ 58 :: l.2) ++ CRLF) by (unfold render_line; by rewrite <- app_assoc).
    set (X := concat (map render_line ls) ++ CRLF ++ rest) in *.
    assert (HX : c :: (t ++ X) = (l.1 ++ 58 :: l.2) ++ CRLF ++ X) by (rewrite app_assoc, <- Hsplit, Hc; done).
    replace (k ++ CRLF ++ (render_line l ++ concat (map render_line ls)) ++ CRLF ++ rest)
      with (k ++ CRLF ++ c :: (t ++ X)) by (rewrite Hc, <- !app_assoc; done).
    rewrite first_blank_line by done. rewrite HX. unfold X. rewrite IH by done.
    cbn [fmap option_fmap option_map]. f_equal. rewrite Hsplit, !length_app. cbn. lia.
Qed.

Lemma find_header_end_render r rest : good_request r -> Forall u8 (render r) ->
  find_header_end (render r ++ rest) = Some (length (render r)).
Proof.
  intros Hg Hu. rewrite find_header_end_first.
  assert (Hv : forall b, version b = take 8 (version b) ++ CRLF) by (by intros []).
  set (k := rq_method r ++ 32 :: rq_target r ++ 32 :: take 8 (version (rq_http10 r))).
  assert (Hr : render r = k ++ CRLF ++ render_lines (rq_lines r) ++ CRLF).
  { unfold render, render_request_line, k. rewrite (Hv (rq_http10 r)) at 1.
    repeat (rewrite <- ?app_assoc; cbn [app]). done. }
  assert (Hlu : Forall u8 (render_lines (rq_lines r))).
  { unfold render in Hu. apply Forall_app in Hu as [_ Hu]. by apply Forall_app in Hu as [? _]. }
  rewrite Hr, <- !app_assoc. rewrite first_blank_lines; [|apply Hg|done|by apply render_no_cr].
  f_equal. rewrite !length_app. cbn. lia.
Qed.

(** C35: the parser accepts exactly the heads with one reading: a request
    whose lines are all grammatical, with one usable Host (HTTP/1.0 may omit
    it), at most one well-formed length or one [chunked] and never both, no
    framing or routing header nominated by Connection, and a target naming
    the same host. *)
Theorem accepts_exactly_unambiguous data :
  Forall u8 data ->
  (exists info, extract_routing_info data = Ok info /\ header_violation info = false) <->
  (exists r rest, data = render r ++ rest /\ good_request r /\ unambiguous r).
Proof.
  intros Hu. split; [intros (info & H1 & H2); by eapply extract_accepts|].
  intros (r & rest & -> & Hg & Hun). destruct (extract_reading r rest Hg Hun Hu) as (info & Hi & Hv & _). by exists info.
Qed.

(** What the parser reads off an accepted head, however the bytes go on
    after it: the head ends at the first blank line of the buffer, the header
    bytes are the lines, and method, Host, length, coding, path and query are
    those of the request line and of the only lines that can carry them. *)
Theorem accepted_reading r rest :
  good_request r -> unambiguous r -> Forall u8 (render r ++ rest) ->
  exists info, extract_routing_info (render r ++ rest) = Ok info /\ header_violation info = false /\
    find_header_end (render r ++ rest) = Some (head_len info) /\ head_len info = length (render r) /\
    header_data info = render_lines (rq_lines r) /\
    method info = rq_method r /\ info_host info = routed_host r /\
    content_length info = routed_length r /\
    is_chunked info = negb (is_nil (values (bs "transfer-encoding") (rq_lines r))) /\
    (content_length info <> None -> is_chunked info = false) /\
    (path info, query_string info) = path_query (read_target (rq_method r) (rq_target r)).1.2.
Proof.
  intros Hg Hun Hu. destruct (extract_reading r rest Hg Hun Hu)
    as (info & Hi & Hv & Hm & Hh & Hd & Hl & Hcl & Hch & Hpq & _).
  exists info. rewrite Hl. apply Forall_app in Hu as [Hu _]. rewrite find_header_end_render by done.
  split_and!; try done. rewrite Hcl, Hch. destruct Hun as [_ _ U _]. unfold routed_length.
  destruct (values (bs "content-length") _) as [|? []], (values (bs "transfer-encoding") _) as [|? []]; done.
Qed.

End Acceptance.

(** ** Witnesses *)

Definition sample_request : request :=
  {| rq_method := bs "POST"; rq_target := bs "http://h.test:80/a?q=\"; rq_http10 := false;
     rq_lines := [(bs "Host", bs " H.test"); (bs "Content-Length", bs " 4"); (bs "Connection", bs "close, x-a")] |}.

Lemma sample_good : good_request sample_request.
Proof.
  split; [split; [done|repeat constructor]|]. split; [|split; [done|repeat constructor; done]].
  split; [done|]. exists (bs "http://h.test:80/a?q="), (bs "\"). split; [done|]. split; [repeat constructor|].
  split; [repeat constructor|]. intros _. apply (bool_decide_eq_true_1 _). by vm_compute.
Qed.

Lemma sample_unambiguous : unambiguous sample_request.
Proof.
  split; [reflexivity| | |].
  - exists 6%nat. split; [by vm_compute|]. split; [done|]. intros t. vm_compute. by intros [= <-].
  - exists 4. by vm_compute.
  - repeat constructor; done.
Qed.

Lemma sample_u8 : Forall u8 (render sample_request ++ bs "body").
Proof. apply Forall_forall. intros x Hx. apply (list_elem_of_In _ _) in Hx. vm_compute in Hx. red. intuition lia. Qed.

Lemma accepts_exactly_unambiguous_witness :
  exists info, extract_routing_info (AR := Little) (render sample_request ++ bs "body") = Ok info /\ header_violation info = false.
Proof.
  apply (accepts_exactly_unambiguous (render sample_request ++ bs "body") sample_u8).
  exists sample_request, (bs "body"). exact (conj eq_refl (conj sample_good sample_unambiguous)).
Defined.

Lemma accepted_reading_witness :
  exists info, extract_routing_info (AR := Big) (render sample_request ++ bs "body") = Ok info /\
    head_len info = length (render sample_request) /\ content_length info = Some 4.
Proof.
  destruct (accepted_reading (AR := Big) sample_request (bs "body") sample_good sample_unambiguous sample_u8)
    as (info & Hi & _ & _ & Hl & _ & _ & _ & Hcl & _).
  exists info. split; [exact Hi|]. split; [exact Hl|]. rewrite Hcl. vm_compute. reflexivity.
Defined.
