(* ===== verification/HttpFilters.v ===== *)
(** * Request and response head rewriting

    [src/src/proxy/http_filters.rs]: what is copied, cut, replaced and
    appended when a head goes on to a backend or back to a client. Every
    function of the source that fills an [out] buffer returns the buffer's
    new contents here. Mirrors are dispatched by tasks; [mirror_targets] is
    the part that decides which. *)

From S2P Require Import Prelude Bytes Net HttpGrammar HttpParser Routing.

Abbreviation CRLF_ := ([13; 10]) (only parsing).

(** ** [str::trim]: the Unicode [White_Space] characters, in UTF-8 *)

(** Length of the white-space character opening [l], 0 if there is none. *)
Definition ws_len (l : list Z) : nat :=
  match l with
  | a :: rest =>
      if ((9 <=? a) && (a <=? 13)) || (a =? 32) then 1
      else match rest with
           | b :: rest' =>
               if (a =? 194) && ((b =? 133) || (b =? 160)) then 2
               else match rest' with
                    | c :: _ =>
                        if ((a =? 225) && (b =? 154) && (c =? 128))
                           || ((a =? 226) && (b =? 128) && (((128 <=? c) && (c <=? 138)) || (c =? 168) || (c =? 169) || (c =? 175)))
                           || ((a =? 226) && (b =? 129) && (c =? 159))
                           || ((a =? 227) && (b =? 128) && (c =? 128))
                        then 3 else 0
                    | [] => 0
                    end
           | [] => 0
           end
  | [] => 0
  end.

Fixpoint trim_start (fuel : nat) (l : list Z) : list Z :=
  match fuel with
  | O => l
  | S fuel' => match ws_len l with O => l | n => trim_start fuel' (drop n l) end
  end.

(** Length of the white-space character closing [l]. *)
Definition ws_len_back (l : list Z) : nat :=
  let ends (n : nat) := (n <=? length l)%nat && (ws_len (drop (length l - n) l) =? n)%nat in
  if ends 1%nat then 1 else if ends 2%nat then 2 else if ends 3%nat then 3 else 0.

Fixpoint trim_end (fuel : nat) (l : list Z) : list Z :=
  match fuel with
  | O => l
  | S fuel' => match ws_len_back l with O => l | n => trim_end fuel' (take (length l - n) l) end
  end.

Definition str_trim (l : list Z) : list Z :=
  let l := trim_start (length l) l in trim_end (length l) l.

(** ** [Display] of addresses and lengths *)

Fixpoint decimal_digits (fuel : nat) (n : Z) (acc : list Z) : list Z :=
  match fuel with
  | O => acc
  | S fuel' =>
      let acc := (48 + n mod 10) :: acc in
      if n <? 10 then acc else decimal_digits fuel' (n / 10) acc
  end.

(** Twenty digits write any [u64]. *)
Definition print_decimal (n : Z) : list Z := decimal_digits 20 n [].

Definition hex_char (d : Z) : Z := if d <? 10 then 48 + d else 87 + d.

Fixpoint hex_digits (fuel : nat) (n : Z) (acc : list Z) : list Z :=
  match fuel with
  | O => acc
  | S fuel' =>
      let acc := hex_char (n mod 16) :: acc in
      if n <? 16 then acc else hex_digits fuel' (n / 16) acc
  end.

Definition print_hex16 (n : Z) : list Z := hex_digits 4 n [].

Definition print_ipv4 (ip : Z) : list Z :=
  print_decimal (ip / 16777216) ++ [46] ++ print_decimal (ip / 65536 mod 256) ++ [46]
  ++ print_decimal (ip / 256 mod 256) ++ [46] ++ print_decimal (ip mod 256).

Definition segments6 (ip : Z) : list Z :=
  map (fun i => ip / 2 ^ (16 * (7 - i)) mod 65536) [0; 1; 2; 3; 4; 5; 6; 7].

(** The longest run of zero segments, the first of equal ones: start and
    length, as the loop of [Ipv6Addr]'s [Display] finds it. *)
Fixpoint longest_zeros (segs : list Z) (i : nat) (cur best : nat * nat) : nat * nat :=
  match segs with
  | [] => best
  | s :: rest =>
      if s =? 0 then
        let cur := if (cur.2 =? 0)%nat then (i, 1%nat) else (cur.1, S cur.2) in
        longest_zeros rest (S i) cur (if (best.2 <? cur.2)%nat then cur else best)
      else longest_zeros rest (S i) (0%nat, 0%nat) best
  end.

Definition sep_hex (segs : list Z) : list Z :=
  match segs with
  | [] => []
  | s :: rest => print_hex16 s ++ concat (map (fun s => 58 :: print_hex16 s) rest)
  end.

Definition print_ipv6 (ip : Z) : list Z :=
  if ip / 4294967296 =? 65535 then bs "::ffff:" ++ print_ipv4 (ip mod 4294967296)
  else
    let segs := segments6 ip in
    let '(start, len) := longest_zeros segs 0 (0%nat, 0%nat) (0%nat, 0%nat) in
    if (1 <? len)%nat
    then sep_hex (take start segs) ++ [58; 58] ++ sep_hex (drop (start + len) segs)
    else sep_hex segs.

Definition print_ip (ip : IpAddr) : list Z :=
  match ip with V4 a => print_ipv4 a | V6 a => print_ipv6 a end.

(** ** [ForwardedLines] *)

Definition IP_TEXT_MAX : nat := 6 * 5 + 15.
Definition CAP : nat :=
  length (bs "X-Forwarded-For: " ++ CRLF_ ++ bs "X-Forwarded-Proto: https" ++ CRLF_) + IP_TEXT_MAX.

(** [write!] into the fixed buffer: what does not fit is dropped. The length
    is kept in a [u8]. *)
Definition ForwardedLines_new (client_ip : IpAddr) (is_tls : bool) : list Z :=
  let text := bs "X-Forwarded-For: " ++ print_ip client_ip ++ CRLF_
              ++ bs "X-Forwarded-Proto: " ++ (if is_tls then bs "https" else bs "http") ++ CRLF_ in
  let len := as_u8 (Z.of_nat (Nat.min (length text) CAP)) in
  take (Z.to_nat len) text.

(** ** Lines *)

Section Filters.
Context `{MC : Memchr}.

(** [header_lines], collected. Each turn moves past an LF. *)
Fixpoint header_lines_from (fuel : nat) (raw : list Z) (pos : nat) : list (list Z) :=
  match fuel with
  | O => []
  | S fuel' =>
      if (pos <? length raw)%nat then
        let start := pos in
        let end_ := match memchr LF (drop pos raw) with Some p => (pos + p)%nat | None => length raw end in
        let line := if (start <? end_)%nat && bool_decide (raw !! (end_ - 1)%nat = Some CR)
                    then slice start (end_ - 1) raw else slice start end_ raw in
        let rest := header_lines_from fuel' raw (end_ + 1) in
        match line with [] => rest | _ => line :: rest end
      else []
  end.

Definition header_lines (raw : list Z) : list (list Z) := header_lines_from (S (length raw)) raw 0.

Definition header_value_if (line name : list Z) : option (list Z) :=
  match memchr 58 line with
  | None => None
  | Some p =>
      if negb (eq_ignore_ascii_case (take p line) name) then None
      else option_map str_trim (from_utf8 (drop (p + 1) line))
  end.

Definition first_lower (name : list Z) : option Z := option_map to_ascii_lowercase (head name).

Definition is_hop_by_hop_request_header (name : list Z) : bool :=
  match first_lower name with
  | None => false
  | Some c =>
      if c =? 99 then eq_ignore_ascii_case name (bs "connection")
      else if c =? 107 then eq_ignore_ascii_case name (bs "keep-alive")
      else if c =? 112 then eq_ignore_ascii_case name (bs "proxy-connection")
      else if c =? 116 then eq_ignore_ascii_case name (bs "te") || eq_ignore_ascii_case name (bs "trailer")
      else if c =? 101 then eq_ignore_ascii_case name (bs "expect")
      else if c =? 104 then eq_ignore_ascii_case name (bs "http2-settings")
      else if (c =? 102) || (c =? 120) then is_forwarding_claim name
      else false
  end.

Definition is_hop_by_hop_response_header (name : list Z) : bool :=
  match first_lower name with
  | None => false
  | Some c =>
      if c =? 99 then eq_ignore_ascii_case name (bs "connection")
      else if c =? 107 then eq_ignore_ascii_case name (bs "keep-alive")
      else if c =? 112 then eq_ignore_ascii_case name (bs "proxy-connection")
      else if c =? 116 then eq_ignore_ascii_case name (bs "te") || eq_ignore_ascii_case name (bs "trailer")
      else if c =? 117 then eq_ignore_ascii_case name (bs "upgrade")
      else false
  end.

(** ** Request lines *)

Definition target_bounds (line : list Z) : option (nat * nat) :=
  match memchr SP line with
  | None => None
  | Some a =>
      match memchr SP (drop (a + 1) line) with
      | None => None
      | Some b => Some ((a + 1)%nat, (a + 1 + b)%nat)
      end
  end.

Definition query_glue (value_query : list Z) : list Z :=
  if is_nil value_query || ends_with [38] value_query then [] else [38].

Definition put_request_line (line path : list Z) (value_query : option (list Z)) : list Z :=
  match target_bounds line with
  | None => line
  | Some (start, end_) =>
      let query := match memchr 63 (slice start end_ line) with Some q => (start + q)%nat | None => end_ end in
      take start line ++ path
      ++ match value_query with
         | None => slice query end_ line
         | Some vq =>
             [63] ++ vq ++ (if (query + 1 <? end_)%nat then query_glue vq ++ slice (query + 1) end_ line else [])
         end
      ++ drop end_ line
  end.

(** ** Origin form *)

Record OriginForm := { authority : list Z; of_host_line : option (Z * Z) }.

Fixpoint host_line_from (fuel : nat) (raw : list Z) (start : nat) : option (Z * Z) :=
  match fuel with
  | O => None
  | S fuel' =>
      match memchr LF (drop start raw) with
      | None => None
      | Some len =>
          let end_ := (start + len + 1)%nat in
          let l := slice start end_ raw in
          if (5 <=? length l)%nat && eq_ignore_ascii_case (take 5 l) (bs "host:")
          then Some (as_u32 (Z.of_nat start), as_u32 (Z.of_nat end_))
          else host_line_from fuel' raw end_
      end
  end.

Definition host_line (raw : list Z) : option (Z * Z) :=
  match memchr LF raw with
  | None => None
  | Some n => host_line_from (length raw) raw (n + 1)
  end.

(** [path_start] is at least 1 in an accepted head: [raw[s - 1]] is in
    range. *)
Definition OriginForm_of (raw : list Z) (path_span : option (Z * Z)) : option OriginForm :=
  let path_start := option_map (fun '(s, _) => Z.to_nat s) path_span in
  if match path_start with Some s => bool_decide (raw !! (s - 1)%nat = Some SP) | None => false end then None
  else match memchr SP raw with
  | None => None
  | Some sp =>
      let target := (sp + 1)%nat in
      if match raw !! target with Some c => (c =? 47) || (c =? 42) | None => true end then None
      else
        let http := bool_decide (raw !! (target + 4)%nat = Some 58) in
        let start := (target + (if http then 7 else 8))%nat in
        match match path_start with
              | Some s => Some s
              | None => option_map (fun n => (start + n)%nat) (memchr SP (drop start raw))
              end with
        | None => None
        | Some end_ => Some {| authority := slice start end_ raw; of_host_line := host_line raw |}
        end
  end.

Definition put_host (auth : list Z) : list Z := bs "Host: " ++ auth ++ CRLF_.

(** ** Forwarding a request head *)

Definition append_forward_headers (forwarded : list Z) (keep_upgrade : bool) (origin : option OriginForm) : list Z :=
  forwarded
  ++ (if keep_upgrade then bs "Connection: upgrade" ++ CRLF_ else [])
  ++ match origin with
     | Some o => match of_host_line o with None => put_host (authority o) | Some _ => [] end
     | None => []
     end.

Definition span_nat (s : Z * Z) : nat * nat := (Z.to_nat s.1, Z.to_nat s.2).

(** The closure [cut]: the bytes it writes; the copy resumes at the span's
    end. *)
Definition cut (raw : list Z) (origin : option OriginForm) (host : option (nat * nat)) (cursor : nat) (l : nat * nat)
  : list Z :=
  slice cursor l.1 raw
  ++ match origin with
     | Some o => if bool_decide (Some l = host) then put_host (authority o) else []
     | None => []
     end.

(** [while let Some(line) = lines.next_if(|&(ls, _)| ls < s)] *)
Fixpoint drain_lines (raw : list Z) (origin : option OriginForm) (host : option (nat * nat)) (s cursor : nat)
  (ls : list (nat * nat)) : list Z * nat * list (nat * nat) :=
  match ls with
  | l :: rest =>
      if (l.1 <? s)%nat then
        let '(out, cursor', rest') := drain_lines raw origin host s l.2 rest in
        (cut raw origin host cursor l ++ out, cursor', rest')
      else ([], cursor, ls)
  | [] => ([], cursor, [])
  end.

(** The gap copies, from the first span to the terminator. *)
Fixpoint copy_gaps (raw : list Z) (origin : option OriginForm) (host : option (nat * nat)) (terminator cursor : nat)
  (spans ls : list (nat * nat)) : list Z :=
  match spans with
  | (s, e) :: rest =>
      let '(out, cursor', ls') := drain_lines raw origin host s cursor ls in
      out ++ slice cursor' s raw ++ copy_gaps raw origin host terminator e rest ls'
  | [] =>
      let '(out, cursor') :=
        fold_left (fun '(out, cursor) l => (out ++ cut raw origin host cursor l, l.2)) ls ([], cursor) in
      out ++ slice cursor' terminator raw
  end.

Definition nat2_lt (a b : nat * nat) : bool := (a.1 <? b.1)%nat || ((a.1 =? b.1)%nat && (a.2 <? b.2)%nat).

Definition assemble_forward_headers (raw : list Z) (path : option (list Z)) (spans : StripSpans)
  (upgrade_span : option (Z * Z)) (keep_upgrade : bool) (origin : option OriginForm) (forwarded : list Z) : list Z :=
  let terminator_start := (length raw - 2)%nat in
  let strip_upgrade := if keep_upgrade then None else option_map span_nat upgrade_span in
  let host_line := match origin with Some o => option_map span_nat (of_host_line o) | None => None end in
  let lines := match strip_upgrade, host_line with
               | Some u, Some h => if nat2_lt h u then [h; u] else [u; h]
               | Some u, None => [u]
               | None, Some h => [h]
               | None, None => []
               end in
  let '(first, cursor) :=
    match path with
    | Some path => let c := default 0%nat (memchr CR raw) in (put_request_line (take c raw) path None, c)
    | None => ([], 0%nat)
    end in
  first ++ copy_gaps raw origin host_line terminator_start cursor (spans_iter spans) lines
  ++ append_forward_headers forwarded keep_upgrade origin ++ CRLF_.

(** Pass 1 of the slow path. *)
Definition nominated (raw : list Z) : list (list Z) :=
  concat (map (fun line =>
    match header_value_if line (bs "connection") with
    | None => []
    | Some value =>
        List.filter (fun t => negb (is_nil t)
                && negb (eq_ignore_ascii_case t (bs "content-length")
                         || eq_ignore_ascii_case t (bs "transfer-encoding")
                         || eq_ignore_ascii_case t (bs "host")))
          (map str_trim (split_on 44 value))
    end) (header_lines raw)).

(** One header line of pass 2. *)
Definition forward_line (nom : list (list Z)) (keep_upgrade : bool) (origin : option OriginForm) (line : list Z)
  : list Z :=
  match memchr 58 line with
  | None => line ++ CRLF_
  | Some name_end =>
      let name := take name_end line in
      let strip :=
        if eq_ignore_ascii_case name (bs "upgrade") then negb keep_upgrade
        else is_hop_by_hop_request_header name || existsb (eq_ignore_ascii_case name) nom in
      let plain := if strip then [] else line ++ CRLF_ in
      match origin with
      | Some o => if eq_ignore_ascii_case name (bs "host") then put_host (authority o) else plain
      | None => plain
      end
  end.

Definition assemble_forward_headers_slow (raw : list Z) (path : option (list Z)) (keep_upgrade : bool)
  (origin : option OriginForm) (forwarded : list Z) : list Z :=
  let nom := nominated raw in
  match header_lines raw with
  | [] => []
  | first :: rest =>
      match path with Some path => put_request_line first path None | None => first end ++ CRLF_
      ++ concat (map (forward_line nom keep_upgrade origin) rest)
  end
  ++ append_forward_headers forwarded keep_upgrade origin ++ CRLF_.

(** ** Response heads *)

Record ResponseCuts := {
  strip : StripSpans;
  cuts_length : option ((Z * Z) * (Z * Z));
}.

(** The closure [put_length]. *)
Definition put_length (raw : list Z) (keep_length : bool) (cursor : nat) (l : (Z * Z) * (Z * Z)) : list Z :=
  slice cursor (Z.to_nat l.1.1) raw
  ++ (if keep_length
      then bs "Content-Length: " ++ slice (Z.to_nat l.2.1) (Z.to_nat l.2.2) raw ++ CRLF_
      else []).

Fixpoint copy_cuts (raw : list Z) (keep_length : bool) (cursor : nat) (len : option ((Z * Z) * (Z * Z)))
  (spans : list (nat * nat)) : list Z :=
  match spans with
  | (s, e) :: rest =>
      match len with
      | Some l =>
          if (Z.to_nat l.1.1 <? s)%nat
          then put_length raw keep_length cursor l ++ slice (Z.to_nat l.1.2) s raw
               ++ copy_cuts raw keep_length e None rest
          else slice cursor s raw ++ copy_cuts raw keep_length e len rest
      | None => slice cursor s raw ++ copy_cuts raw keep_length e len rest
      end
  | [] =>
      match len with
      | Some l => put_length raw keep_length cursor l ++ slice (Z.to_nat l.1.2) (length raw - 2) raw
      | None => slice cursor (length raw - 2) raw
      end
  end.

Definition copy_around_cuts (raw : list Z) (keep_length : bool) (cuts : ResponseCuts) : list Z :=
  copy_cuts raw keep_length 0 (cuts_length cuts) (spans_iter (strip cuts)).

Fixpoint copy_lines_from (lines : list (list Z)) (content_length : option Z) : list Z :=
  match lines with
  | [] => []
  | line :: rest =>
      let keep := line ++ CRLF_ ++ copy_lines_from rest content_length in
      match memchr 58 line with
      | Some p =>
          if eq_ignore_ascii_case (take p line) (bs "content-length") then
            match content_length with
            | Some n => bs "Content-Length: " ++ print_decimal n ++ CRLF_
            | None => []
            end ++ copy_lines_from rest None
          else if is_hop_by_hop_response_header (take p line) then copy_lines_from rest content_length
          else keep
      | None => keep
      end
  end.

Definition copy_lines_sanitized (raw : list Z) (content_length : option Z) : list Z :=
  match header_lines raw with
  | [] => []
  | status_line :: rest => status_line ++ CRLF_ ++ copy_lines_from rest content_length
  end.

Definition sanitize_response_headers (raw : list Z) (content_length : option Z) (cuts : option ResponseCuts)
  (client_close : bool) : list Z :=
  match cuts with
  | Some cuts => copy_around_cuts raw (is_some content_length) cuts
  | None => copy_lines_sanitized raw content_length
  end
  ++ (if client_close then bs "Connection: close" ++ CRLF_ else [])
  ++ CRLF_.

(** ** Filters *)

Record HeaderModifications := {
  mods_add : list HttpHeader;
  mods_set : list HttpHeader;
  mods_remove : list (list Z);
}.

Record RewrittenPath := { rw_path : list Z; rw_query : option (list Z) }.
Record Rewrite := { rw_hostname : option (list Z); rw_to : option RewrittenPath }.

Definition prefix_remainder (rule_path request_path : list Z) : list Z :=
  default [] (strip_prefix rule_path request_path).

Definition join_prefix_path (prefix suffix : list Z) : list Z :=
  let prefix := if ends_with [47] prefix && starts_with [47] suffix
                then take (length prefix - 1) prefix else prefix in
  let needs_slash := negb (ends_with [47] prefix) && negb (starts_with [47] suffix) && negb (is_nil suffix) in
  let result := prefix ++ (if needs_slash then [47] else []) ++ suffix in
  if is_nil result then [47] else result.

Fixpoint extract_header_mods (filters : list HttpFilter) (is_response : bool) : option HeaderModifications :=
  match filters with
  | [] => None
  | f :: rest =>
      match f, is_response with
      | RequestHeaderModifier add set remove, false =>
          Some {| mods_add := add; mods_set := set; mods_remove := remove |}
      | ResponseHeaderModifier add set remove, true =>
          Some {| mods_add := add; mods_set := set; mods_remove := remove |}
      | _, _ => extract_header_mods rest is_response
      end
  end.

Fixpoint extract_url_rewrite (filters : list HttpFilter) (rule_path request_path : list Z) : option Rewrite :=
  match filters with
  | [] => None
  | URLRewrite hostname path :: _ =>
      Some {| rw_hostname := hostname;
              rw_to := option_map (fun p => match p with
                | ReplaceFullPath v => {| rw_path := pv_path v; rw_query := pv_query v |}
                | ReplacePrefixMatch v =>
                    {| rw_path := join_prefix_path (pv_path v) (prefix_remainder rule_path request_path);
                       rw_query := pv_query v |}
                end) path |}
  | _ :: rest => extract_url_rewrite rest rule_path request_path
  end.

(** Which mirrors [dispatch_mirrors] spawns: [draws] are the samples drawn
    for the fractions, [permits] how many of [MIRROR_PERMITS] are free. *)
Fixpoint mirror_targets (filters : list HttpFilter) (draws : list Z) (permits : nat) : list SocketAddr :=
  match filters with
  | [] => []
  | RequestMirror addr fraction :: rest =>
      if sample fraction (default 0 (head draws)) then
        match permits with
        | O => mirror_targets rest (tail draws) O
        | S p => addr :: mirror_targets rest (tail draws) p
        end
      else mirror_targets rest (tail draws) permits
  | _ :: rest => mirror_targets rest draws permits
  end.

Definition put_header (h : HttpHeader) : list Z := header_name h ++ bs ": " ++ header_value h ++ CRLF_.

Fixpoint find_set (name : list Z) (i : nat) (hs : list HttpHeader) : option (nat * HttpHeader) :=
  match hs with
  | [] => None
  | h :: rest => if eq_ignore_ascii_case (header_name h) name then Some (i, h) else find_set name (S i) rest
  end.

(** One line of [apply_header_mods_inner]: what it writes, the [set] it
    applied, whether it was the Host line being replaced. *)
Definition mod_line (mods : option HeaderModifications) (rewrite_hostname : option (list Z)) (line : list Z)
  : list Z * option nat * bool :=
  match memchr 58 line with
  | None => (line ++ CRLF_, None, false)
  | Some colon_pos =>
      let name := take colon_pos line in
      match (match rewrite_hostname with
             | Some new_host => if eq_ignore_ascii_case name (bs "host") then Some new_host else None
             | None => None
             end), mods with
      | Some new_host, _ => (put_host new_host, None, true)
      | None, Some m =>
          if existsb (fun r => eq_ignore_ascii_case r name) (mods_remove m) then ([], None, false)
          else match find_set name 0 (mods_set m) with
               | Some (idx, h) => (put_header h, Some idx, false)
               | None => (line ++ CRLF_, None, false)
               end
      | None, None => (line ++ CRLF_, None, false)
      end
  end.

Definition apply_header_mods_inner (raw : list Z) (mods : option HeaderModifications)
  (rewrite_hostname : option (list Z)) : list Z :=
  let done := map (mod_line mods rewrite_hostname) (header_lines raw) in
  let host_found := existsb (fun d => d.2) done in
  let applied (i : nat) := existsb (fun d => bool_decide (d.1.2 = Some i)) done in
  concat (map (fun d => d.1.1) done)
  ++ match rewrite_hostname with
     | Some h => if host_found then [] else put_host h
     | None => []
     end
  ++ match mods with
     | Some m =>
         concat (imap (fun i h => if applied i then [] else put_header h) (mods_set m))
         ++ concat (map put_header (mods_add m))
     | None => []
     end
  ++ CRLF_.

Definition split_first_line (raw : list Z) : list Z * list Z :=
  let nl := match memchr LF raw with Some p => (p + 1)%nat | None => length raw end in
  let line := default (take nl raw) (strip_suffix [LF] (take nl raw)) in
  (default line (strip_suffix [CR] line), drop nl raw).

Definition rewrite_request_head (header_region : list Z) (path : option (list Z * option (list Z)))
  (mods : option HeaderModifications) (rewrite_hostname : option (list Z)) : list Z :=
  let '(first_line, rest) := split_first_line header_region in
  match path with
  | Some (p, value_query) => put_request_line first_line p value_query
  | None => first_line
  end ++ CRLF_ ++ apply_header_mods_inner rest mods rewrite_hostname.

Definition apply_request_header_modifications (header_region : list Z) (mods : option HeaderModifications)
  (url_rewrite : option Rewrite) : list Z :=
  let path := match url_rewrite with
              | Some r => option_map (fun p => (rw_path p, rw_query p)) (rw_to r)
              | None => None
              end in
  let rewrite_hostname := match url_rewrite with Some r => rw_hostname r | None => None end in
  rewrite_request_head header_region path mods rewrite_hostname.

Definition apply_response_header_mods (headers : list Z) (mods : HeaderModifications) : list Z :=
  let '(status_line, rest) := split_first_line headers in
  status_line ++ CRLF_ ++ apply_header_mods_inner rest (Some mods) None.

End Filters.
