(* ===== verification/Method.v ===== *)
(** * HTTP methods on the wire

    [src/src/proxy/method.rs], and the sniff [is_http_request] of
    [src/src/proxy/request_processor.rs] that splits HTTP from opaque TCP on
    a shared port. *)

From S2P Require Import Prelude Bytes HttpGrammar.

Definition MAX_METHOD_LEN : nat := 20.
Definition MIN_METHOD_LEN : nat := 3.

Definition is_method_byte (b : Z) : bool := is_ascii_uppercase b || (b =? 45).

(** The loop of [method_len]: bytes 1 to [MAX_METHOD_LEN] of the data. *)
Fixpoint method_len_from (i : nat) (l : list Z) : option nat :=
  match l with
  | [] => None
  | b :: t =>
      if b =? SP then if (MIN_METHOD_LEN <=? i)%nat then Some i else None
      else if negb (is_method_byte b) then None
      else method_len_from (S i) t
  end.

Definition method_len (data : list Z) : option nat :=
  match data with
  | [] => None
  | b :: t => if is_ascii_uppercase b then method_len_from 1 (take MAX_METHOD_LEN t) else None
  end.

Definition is_idempotent (method : list Z) : bool :=
  existsb (beq method) [bs "GET"; bs "HEAD"; bs "OPTIONS"; bs "TRACE"; bs "PUT"; bs "DELETE"].

Definition is_valid_method (method : list Z) : bool :=
  (MIN_METHOD_LEN <=? length method)%nat && (length method <=? MAX_METHOD_LEN)%nat
  && match method with b :: _ => is_ascii_alphabetic b | [] => false end
  && forallb (fun b => is_method_byte (to_ascii_uppercase b)) method.

Section Sniff.
Context `{AR : Arch}.

(** The seven four-byte tags. *)
Definition method_tags : list Z :=
  map from_ne_bytes [bs "GET "; bs "POST"; bs "PUT "; bs "DELE"; bs "HEAD"; bs "OPTI"; bs "PATC"].

Definition is_http_request (data : list Z) : bool :=
  if (length data <? 4)%nat then false
  else existsb (Z.eqb (from_ne_bytes (take 4 data))) method_tags || is_some (method_len data).

End Sniff.

(** ** Reference *)

(** A method token as the sniff admits it. *)
Definition wire_method (m : list Z) : Prop :=
  (MIN_METHOD_LEN <= length m <= MAX_METHOD_LEN)%nat /\
  (exists b t, m = b :: t /\ is_ascii_uppercase b = true) /\ Forall (fun b => is_method_byte b = true) m.

Lemma method_len_from_spec i l n :
  method_len_from i l = Some n <->
  exists m t, l = m ++ SP :: t /\ Forall (fun b => is_method_byte b = true) m /\ n = (i + length m)%nat /\
    (MIN_METHOD_LEN <= n)%nat.
Proof.
  revert i. induction l as [|b l IH]; intros i; cbn [method_len_from].
  { split; [done|]. intros ([|? ?] & t & H & _); done. }
  destruct (Z.eqb_spec b SP) as [->|Hb].
  - split.
    + destruct (Nat.leb_spec MIN_METHOD_LEN i); [|done]. intros [= <-]. exists [], l. cbn. repeat split; try constructor; lia.
    + intros ([|x m] & t & H & Hm & -> & Hn); cbn [app length] in *.
      * rewrite Nat.add_0_r in *. by apply Nat.leb_le in Hn as ->.
      * injection H as <- _. inversion Hm as [|? ? Hx]; subst. vm_compute in Hx. done.
  - destruct (is_method_byte b) eqn:Em; cbn [negb].
    + rewrite IH. split; intros (m & t & H & Hm & Hn & Hl).
      * exists (b :: m), t. rewrite H. split; [done|]. split; [by constructor|]. cbn [length]. lia.
      * destruct m as [|x m]; [by injection H as ? _|]. injection H as <- H. apply Forall_cons in Hm as [_ Hm].
        exists m, t. cbn [length] in Hn. split; [done|]. split; [done|]. lia.
    + split; [done|]. intros ([|x m] & t & H & Hm & _); [by injection H as ? _|]. injection H as <- H.
      inversion Hm; subst. congruence.
Qed.

(** What [method_len] measures: a wire method followed by the space of the
    request line, and nothing else. *)
Lemma method_len_spec data n :
  method_len data = Some n <-> exists m t, data = m ++ SP :: t /\ wire_method m /\ length m = n.
Proof.
  unfold method_len, wire_method. destruct data as [|b data].
  { split; [done|]. intros ([|? ?] & t & H & _); done. }
  destruct (is_ascii_uppercase b) eqn:Eb.
  - rewrite method_len_from_spec. split.
    + intros (m & t & Ht & Hm & -> & Hl). exists (b :: m), (t ++ drop MAX_METHOD_LEN data).
      assert (Hd : data = m ++ SP :: t ++ drop MAX_METHOD_LEN data).
      { rewrite <- (take_drop MAX_METHOD_LEN data) at 1. rewrite Ht. by rewrite <- app_assoc. }
      assert (length (take MAX_METHOD_LEN data) <= MAX_METHOD_LEN)%nat as Hlen by (rewrite length_take; lia).
      rewrite Ht, length_app in Hlen. cbn in Hlen. split; [by rewrite Hd at 1|]. cbn [length]. split; [|lia].
      split; [cbn [length]; lia|]. split; [eauto|]. constructor; [|done]. unfold is_method_byte. by rewrite Eb.
    + intros ([|x m] & t & Ht & ([Hl1 Hl2] & _ & Hm) & Hn); cbn in Ht; [by injection Ht as -> _|]. injection Ht as <- Ht.
      inversion Hm; subst. cbn in Hl1, Hl2.
      exists m, (take (MAX_METHOD_LEN - length m - 1) t). split; [|repeat split; [done|cbn; lia..]].
      rewrite take_app, take_ge by lia. f_equal.
      destruct (MAX_METHOD_LEN - length m)%nat as [|k] eqn:E; [lia|]. cbn. f_equal. f_equal. lia.
  - split; [done|]. intros ([|x m] & t & Ht & (_ & (b' & t' & Hm & Hb') & _) & _); cbn in Ht; [done|].
    injection Ht as <- _. injection Hm as <- _. congruence.
Qed.

Section SniffSpec.
Context `{AR : Arch}.

Lemma from_ne_bytes4_inj a b : Forall u8 a -> Forall u8 b -> length a = length b ->
  from_ne_bytes a = from_ne_bytes b -> a = b.
Proof.
  assert (Hle : forall x y, Forall u8 x -> Forall u8 y -> length x = length y -> from_le_bytes x = from_le_bytes y -> x = y).
  { intros x y Hx. revert y. induction Hx as [|c x Hc Hx IH]; intros [|d y] Hy Hl He; try done.
    inversion Hy as [|? ? Hd Hy']; subst. cbn in He, Hl. unfold u8 in *.
    assert (c = d /\ from_le_bytes x = from_le_bytes y) as [-> Hxy] by lia. f_equal. apply IH; [done|lia|done]. }
  intros Ha Hb Hl. unfold from_ne_bytes. destruct arch_endian; [by apply Hle|].
  intros H. apply Hle in H; [|by apply Forall_rev|by apply Forall_rev|by rewrite !length_rev].
  by rewrite <- (rev_involutive a), H, rev_involutive.
Qed.

End SniffSpec.

(** The sniff takes for HTTP exactly the data that open with one of
    the seven common methods' first four bytes, or with a method token of 3
    to 20 uppercase letters and hyphens (the first a letter) followed by a
    space: in particular every request line whose method the validator could
    accept in uppercase, and no read shorter than four bytes. *)
Theorem is_http_request_exact `{AR : Arch} data :
  Forall u8 data ->
  is_http_request data = true <->
  (exists tag t, tag ∈ [bs "GET "; bs "POST"; bs "PUT "; bs "DELE"; bs "HEAD"; bs "OPTI"; bs "PATC"] /\ data = tag ++ t) \/
  (exists m t, data = m ++ SP :: t /\ wire_method m).
Proof.
  intros Hu. unfold is_http_request. set (tags := [bs "GET "; _; _; _; _; _; _]).
  assert (Htag : Forall (fun t => length t = 4%nat /\ Forall u8 t) tags).
  { unfold tags. repeat constructor; vm_compute; intuition congruence. }
  destruct (Nat.ltb_spec (length data) 4) as [Hs|Hs].
  { split; [done|]. intros [(tag & t & Hin & ->)|(m & t & -> & (Hl & _) & _)]; rewrite length_app in Hs.
    - rewrite Forall_forall in Htag. destruct (Htag tag Hin). lia.
    - unfold MIN_METHOD_LEN in Hl. cbn in Hs. lia. }
  rewrite orb_true_iff. f_equiv.
  - unfold method_tags. fold tags. rewrite existsb_exists. split.
    + intros (x & Hx & He). apply in_map_iff in Hx as (tag & <- & Hin). apply Z.eqb_eq in He.
      apply list_elem_of_In in Hin. rewrite Forall_forall in Htag. destruct (Htag tag Hin) as [Hl Hu'].
      apply from_ne_bytes4_inj in He; [|by apply Forall_take|done|rewrite length_take; lia].
      exists tag, (drop 4 data). split; [done|]. by rewrite <- He, take_drop.
    + intros (tag & t & Hin & ->). exists (from_ne_bytes tag). rewrite Forall_forall in Htag. destruct (Htag tag Hin) as [Hl _].
      split; [apply in_map, list_elem_of_In; exact Hin|]. apply Z.eqb_eq. by rewrite <- Hl, take_app_length.
  - destruct (method_len data) as [n|] eqn:E; cbn [is_some].
    + apply method_len_spec in E as (m & t & Hd & Hm & _). split; [eauto|done].
    + split; [done|]. intros (m & t & Hd & Hm).
      assert (method_len data = Some (length m)) by (apply method_len_spec; eauto). congruence.
Qed.

Lemma is_http_request_exact_witness :
  is_http_request (AR := Little) (bs "PROPFIND / HTTP/1.1") = true /\ Forall u8 (bs "PROPFIND / HTTP/1.1").
Proof.
  assert (Hu : Forall u8 (bs "PROPFIND / HTTP/1.1")) by (apply Forall_forall; intros x Hx;
    apply (list_elem_of_In _ _) in Hx; vm_compute in Hx; red; intuition lia).
  split; [|exact Hu]. apply (is_http_request_exact (AR := Little) _ Hu). right.
  exists (bs "PROPFIND"), (bs "/ HTTP/1.1"). split; [reflexivity|]. split; [vm_compute; lia|].
  split; [exists 80, (bs "ROPFIND"); split; reflexivity|repeat constructor].
Defined.

(** A route method the configuration accepts is one the sniff lets
    through in uppercase, and conversely: the two cannot disagree on which
    requests can ever match. *)
Theorem valid_method_is_sniffed m rest :
  is_valid_method m = true <-> method_len (map to_ascii_uppercase m ++ SP :: rest) = Some (length m).
Proof.
  assert (Hup : forall b, is_ascii_uppercase (to_ascii_uppercase b) = is_ascii_alphabetic b).
  { intros b. unfold is_ascii_alphabetic, to_ascii_uppercase, is_ascii_uppercase, is_ascii_lowercase.
    destruct ((97 <=? b) && (b <=? 122)) eqn:E; bool_simpl; lia. }
  unfold is_valid_method. rewrite !andb_true_iff, !Nat.leb_le, forallb_Forall. rewrite method_len_spec. split.
  - intros (((Hl1 & Hl2) & Ha) & Hm).
    exists (map to_ascii_uppercase m), rest. split; [done|]. rewrite length_map. split; [|done].
    split; [by rewrite length_map|]. split; [|by rewrite Forall_fmap].
    destruct m as [|b m]; [done|]. eexists _, _. split; [reflexivity|]. by rewrite Hup.
  - intros (m' & t & Heq & (Hl & (b & t' & Hm' & Hb) & HF) & Hlen).
    assert (map to_ascii_uppercase m = m') as <-.
    { rewrite <- (take_app_length m' (SP :: t)), <- Heq, Hlen, <- (length_map to_ascii_uppercase m).
      by rewrite take_app_length. }
    rewrite length_map in Hl. rewrite Forall_fmap in HF. destruct m as [|c m]; [done|].
    cbn in Hm'. injection Hm' as <- _. rewrite Hup in Hb. repeat split; try lia; done.
Qed.
