(* ===== verification/RequestProcessor.v ===== *)
(** * From bytes to a routing decision

    [src/src/proxy/request_processor.rs]: the pipeline that parses a head,
    normalises its path, looks its route up, answers redirects and errors
    itself and picks a backend for the rest. Logging and metrics are left
    out; every call returns [Ok] in the source, so the result is the decision
    and the selection state it leaves. *)

From S2P Require Import Prelude Bytes Net HttpGrammar Routing RouteLookup RouteBuild Health Selection PathNorm.
From S2P Require Import HttpParser HttpFilters Method.

Record RequestMeta := {
  meta_head_len : nat;
  meta_content_length : option Z;
  meta_is_chunked : bool;
  meta_is_upgrade : bool;
  is_head : bool;
  idempotent : bool;
  meta_keepalive : bool;
  path_span : option (Z * Z);
  normalized_path : option (list Z);
  meta_strip_spans : StripSpans;
  meta_upgrade_span : option (Z * Z);
  meta_expect_continue : bool;
  meta_local_reply_reusable : bool;
  meta_client_done : bool;
}.

(** [head.get(s..e)] *)
Definition get_range (s e : nat) (l : list Z) : option (list Z) :=
  if (s <=? e)%nat && (e <=? length l)%nat then Some (slice s e l) else None.

(** [RequestMeta::path] *)
Definition RequestMeta_path (m : RequestMeta) (head : list Z) : list Z :=
  match normalized_path m with
  | Some path => path
  | None =>
      default (bs "/")
        (match path_span m with
         | None => None
         | Some (s, e) =>
             match get_range (Z.to_nat s) (Z.to_nat e) head with
             | None => None
             | Some b => from_utf8 b
             end
         end)
  end.

Record LocalReply := {
  status : Z;
  location : option (list Z);
  reusable : bool;
  reply_client_done : bool;
  reply_head : bool;
}.

Definition head_is_whole (info : HttpRequestInfo) : bool :=
  negb (is_upgrade info) && negb (is_chunked info) && (default 0 (content_length info) =? 0).

Definition local_reply_reusable (info : HttpRequestInfo) : bool := keepalive info && head_is_whole info.

Record ClientSent := { sent_keepalive : bool; request_in : bool; seen_past : bool }.

Definition client_done (sent : ClientSent) : bool :=
  negb (sent_keepalive sent) && request_in sent && negb (seen_past sent).

(** [subslice_span] of the parsed path in the request buffer. *)
Definition subslice_span (at_ : option nat) (sub : list Z) : option (Z * Z) :=
  option_map (fun off => (as_u32 (Z.of_nat off), as_u32 (Z.of_nat (off + length sub)))) at_.

(** ** Redirects *)

Definition build_redirect_location (scheme : option (list Z)) (hostname : list Z) (port : option Z)
  (path : list Z) (value_query : option (list Z)) (query default_scheme : list Z) (incoming_port : Z) : list Z :=
  let final_scheme := default default_scheme scheme in
  let '(query_mark, vq, glue) :=
    match value_query with
    | None => if is_nil query then ([], [], []) else ([63], [], [])
    | Some v => if is_nil query then ([63], v, []) else ([63], v, query_glue v)
    end in
  let scheme_changed := is_some scheme && negb (beq final_scheme default_scheme) in
  let effective_port := match port with
                        | Some p => Some p
                        | None => if scheme_changed then None else Some incoming_port
                        end in
  let tail_ := path ++ query_mark ++ vq ++ glue ++ query in
  match effective_port with
  | Some p =>
      if negb ((beq final_scheme (bs "http") && (p =? 80)) || (beq final_scheme (bs "https") && (p =? 443)))
      then final_scheme ++ bs "://" ++ hostname ++ [58] ++ print_decimal p ++ tail_
      else final_scheme ++ bs "://" ++ hostname ++ tail_
  | None => final_scheme ++ bs "://" ++ hostname ++ tail_
  end.

Section Decide.
Context {RE : RegexEngine} `{MC : Memchr} `{AR : Arch}.

Fixpoint build_redirect_from (filters : list HttpFilter) (rule_path request_host request_path query : list Z)
  (is_tls : bool) (server_port : Z) : option (Z * list Z) :=
  match filters with
  | [] => None
  | RequestRedirect scheme hostname port path status_code :: _ =>
      let '(redirect_path, value_query) :=
        match path with
        | Some (ReplaceFullPath v) => (pv_path v, pv_query v)
        | Some (ReplacePrefixMatch v) =>
            (join_prefix_path (pv_path v) (prefix_remainder rule_path request_path), pv_query v)
        | None => (request_path, None)
        end in
      let default_scheme := if is_tls then bs "https" else bs "http" in
      Some (status_code,
            build_redirect_location scheme (default request_host hostname) port redirect_path value_query query
              default_scheme server_port)
  | _ :: rest => build_redirect_from rest rule_path request_host request_path query is_tls server_port
  end.

Definition build_redirect (rule : HttpRouteRule) (request_host request_path query : list Z) (is_tls : bool)
  (server_port : Z) : option (Z * list Z) :=
  build_redirect_from (filters rule) (rule_path rule) request_host request_path query is_tls server_port.

(** ** Decisions *)

Inductive RoutingResult :=
  | HttpForward (backend : Backend) (rule : HttpRouteRule) (meta : RequestMeta)
  | Reply (r : LocalReply)
  | TcpForward (backend_addr : SocketAddr)
  | UdpForward (backend_addr : SocketAddr)
  | CloseConnection.

(** What selections change: the rules' counters and the L4 selector. *)
Record SelectState := { rule_counters : gmap loc Z; selector : BackendSelector }.

Definition BAD_REQUEST : RoutingResult :=
  Reply {| status := 400; location := None; reusable := false; reply_client_done := false; reply_head := false |}.

Definition analyze_http_request (routes : RouteTable) (st : SelectState) (request_data : list Z) (reads : Reads)
  (is_tls : bool) (server_port : Z) : RoutingResult * SelectState :=
  match extract_routing_info request_data with
  | Err _ => (BAD_REQUEST, st)
  | Ok request_info =>
      if header_violation request_info then (BAD_REQUEST, st)
      else
        let reuse := local_reply_reusable request_info in
        let done_ := client_done {| sent_keepalive := keepalive request_info;
                                    request_in := head_is_whole request_info;
                                    seen_past := (head_len request_info <? length request_data)%nat |} in
        let is_head := eq_ignore_ascii_case (method request_info) (bs "HEAD") in
        let reply s loc := Reply {| status := s; location := loc; reusable := reuse;
                                    reply_client_done := done_; reply_head := is_head |} in
        match normalize_path (path request_info) with
        | None => (BAD_REQUEST, st)
        | Some npath =>
            match find_http_route routes (info_host request_info) (method request_info) (cow_str npath)
                    (header_data request_info) (query_string request_info) server_port with
            | None => (reply 404 None, st)
            | Some rule =>
                match (if has_filters rule
                       then build_redirect rule (info_host request_info) (cow_str npath)
                              (query_string request_info) is_tls server_port
                       else None) with
                | Some (status_code, location) => (reply status_code (Some location), st)
                | None =>
                    if is_nil (backends rule) then (reply 500 None, st)
                    else
                      let '(idx, counters) := select_healthy_weighted_backend rule reads (rule_counters st) in
                      let st' := {| rule_counters := counters; selector := selector st |} in
                      match idx ≫= fun i => backends rule !! i with
                      | None => (reply 503 None, st')
                      | Some b =>
                          if bool_decide (action b = Reject) then (reply 500 None, st')
                          else
                            (HttpForward b rule
                               {| meta_head_len := head_len request_info;
                                  meta_content_length := content_length request_info;
                                  meta_is_chunked := is_chunked request_info;
                                  meta_is_upgrade := is_upgrade request_info;
                                  is_head := is_head;
                                  idempotent := is_idempotent (method request_info);
                                  meta_keepalive := keepalive request_info;
                                  path_span := subslice_span (path_at request_info) (path request_info);
                                  normalized_path := match npath with Owned p => Some p | Borrowed _ => None end;
                                  meta_strip_spans := strip_spans request_info;
                                  meta_upgrade_span := upgrade_span request_info;
                                  meta_expect_continue := expect_continue request_info;
                                  meta_local_reply_reusable := reuse;
                                  meta_client_done := done_ |}, st')
                      end
                end
            end
        end
  end.

Definition analyze_l4_request (st : SelectState) (server_port : Z) (found : option (list Backend))
  (make_decision : SocketAddr -> RoutingResult) (reads : Reads) : RoutingResult * SelectState :=
  match found with
  | None => (CloseConnection, st)
  | Some backend_list =>
      if is_nil backend_list then (CloseConnection, st)
      else
        let '(chosen, s) := select_l4_backend (selector st) server_port backend_list reads in
        let st' := {| rule_counters := rule_counters st; selector := s |} in
        match chosen with
        | None => (CloseConnection, st')
        | Some b => if bool_decide (action b = Reject) then (CloseConnection, st')
                    else (make_decision (socket_addr b), st')
        end
  end.

Definition analyze_udp_request (routes : RouteTable) (st : SelectState) (server_port : Z) (reads : Reads)
  : RoutingResult * SelectState :=
  analyze_l4_request st server_port (find_udp_backends routes server_port) UdpForward reads.

Definition analyze_tcp_request (routes : RouteTable) (st : SelectState) (server_port : Z) (reads : Reads)
  : RoutingResult * SelectState :=
  analyze_l4_request st server_port (find_tcp_backends routes server_port) TcpForward reads.

Definition analyze_request (routes : RouteTable) (st : SelectState) (request_data : list Z) (server_port : Z)
  (reads : Reads) (is_tls : bool) : RoutingResult * SelectState :=
  if is_nil request_data then (CloseConnection, st)
  else if is_http_request request_data
  then analyze_http_request routes st request_data reads is_tls server_port
  else analyze_tcp_request routes st server_port reads.

End Decide.

(** ** The path that is routed is the path that is sent *)

Lemma utf8_valid_prefix n a c b :
  (length a <= n)%nat -> c < 128 -> utf8_valid (a ++ c :: b) = true -> utf8_valid a = true.
Proof.
  intros Hn Hc. revert a Hn.
  assert (Hcont : cont_byte c = false) by (unfold cont_byte; lia).
  assert (H3 : forall x, utf8_three x c = false) by (intros x; unfold utf8_three; rewrite Hcont; lia).
  assert (H4 : forall x, utf8_four x c = false) by (intros x; unfold utf8_four; rewrite Hcont; lia).
  induction n as [|n IH]; intros a Hn; [by destruct a; [|cbn in Hn; lia]|].
  destruct a as [|b0 a]; [done|]. cbn in Hn. cbn [app utf8_valid].
  destruct (b0 <? 128); [apply IH; lia|].
  destruct a as [|b1 a]; cbn [app].
  { rewrite Hcont, H3. destruct (_ && _); [done|]. destruct b as [|? [|? ?]]; try done. by rewrite H4. }
  destruct ((194 <=? b0) && (b0 <=? 223)).
  { rewrite !andb_true_iff. intros [? H]. split; [done|]. apply IH; [cbn in Hn; lia|done]. }
  destruct a as [|b2 a]; cbn [app].
  { rewrite Hcont, andb_false_l. destruct (utf8_three b0 b1); [done|]. destruct b; [done|].
    by rewrite andb_false_r. }
  destruct (utf8_three b0 b1).
  { rewrite !andb_true_iff. intros [? H]. split; [done|]. apply IH; [cbn in Hn; lia|done]. }
  destruct a as [|b3 a]; cbn [app]; [by rewrite Hcont, andb_false_r|].
  rewrite !andb_true_iff. intros [? H]. split; [done|]. apply IH; [cbn in Hn; lia|done].
Qed.

Lemma normalize_borrowed `{MC : Memchr} p s : normalize_path p = Some (Borrowed s) -> s = p.
Proof.
  assert (Hloop : forall fuel from, normalize_loop fuel p from = Some (Borrowed s) -> s = p).
  { induction fuel as [|fuel IH]; intros from; cbn [normalize_loop]; [by intros [= <-]|].
    destruct (memchr2 46 37 (drop from p)); [|by intros [= <-]].
    case_bool_decide; [|apply IH]. destruct (dot_segment _) as [[?|]|]; [|done|apply IH].
    by destruct (remove_dot_segments p). }
  unfold normalize_path. destruct p as [|c p]; [by intros [= <-]|].
  repeat (case_match; try (by intros [= <-])). apply Hloop.
Qed.

Lemma lower_ascii s w : Forall u8 s -> lowercase s = w -> Forall (fun b => b < 128) w -> Forall (fun b => b < 128) s.
Proof.
  intros Hu <-. unfold lowercase. rewrite Forall_fmap. intros H. eapply Forall_impl; [exact H|]. intros b. cbn.
  unfold to_ascii_lowercase, is_ascii_uppercase. destruct (_ && _) eqn:E; bool_simpl; lia.
Qed.

Lemma scheme_ascii t n : Forall u8 t -> absolute_scheme_len t = Some n ->
  Forall (fun b => b < 128) (take n t) /\ (n <= length t)%nat.
Proof.
  unfold absolute_scheme_len. intros Hu. repeat (case_match; [bool_simpl; intros [= <-]|]); [..|done].
  1-2: split; [|done]; rewrite eq_ignore_ascii_case_spec in *; eapply lower_ascii; [by apply Forall_take|eassumption|];
    repeat constructor.
Qed.

Lemma authority_ascii a h : Forall u8 a -> split_host a = Some h -> Forall (fun b => b < 128) a.
Proof.
  intros Hu Hs. pose proof (split_host_ascii a h Hu Hs) as Hh.
  apply split_host_sound in Hs as (host & t & -> & <- & _ & Ht). rewrite take_app_length in Hh.
  apply Forall_app. split; [done|]. destruct Ht as [->|(port & -> & Hp)]; [constructor|].
  constructor; [lia|]. eapply Forall_impl; [exact Hp|]. unfold is_ascii_digit. intros x Hx. cbv beta in Hx. lia.
Qed.

(** Where the parsed path lies in the target. *)
Lemma read_target_path `{MC : Memchr} m t th p off :
  Forall u8 t -> utf8_valid t = true -> read_target m t = (false, th, p, off) ->
  match off with
  | Some o => (o <= length t)%nat /\ p = drop o t /\ utf8_valid p = true
  | None => p = bs "/"
  end.
Proof.
  intros Hu Hv. unfold read_target. destruct (beq m _); [done|].
  destruct (negb _); [|intros [= <- <- <-]; change (drop 0 t) with t; repeat split; [lia|done]].
  destruct (beq t _); [intros [= _ <- <- <-]; change (drop 0 t) with t; repeat split; [lia|done]|].
  destruct (absolute_scheme_len t) as [n|] eqn:En; [|done]. cbv zeta.
  set (rest := drop n t). set (al := default (length rest) (memchr 47 rest)).
  destruct (scheme_ascii t n Hu En) as [Hn Hle].
  destruct (split_host (take al rest)) as [h|] eqn:Eh; [destruct (0 <? h)%nat|]; destruct (Nat.ltb_spec al (length rest));
    intros [= <- <- <-]; try done.
  assert (Hr : drop al rest = drop (n + al) t) by (unfold rest; apply drop_drop).
  assert (Hlr : length rest = (length t - n)%nat) by (unfold rest; apply length_drop).
  split; [lia|]. split; [done|].
  assert (Ha : Forall (fun b => b < 128) (take al rest)).
  { eapply authority_ascii; [|exact Eh]. by apply Forall_take, Forall_drop. }
  rewrite <- (take_drop n t), utf8_valid_ascii_app in Hv by done. fold rest in Hv.
  rewrite <- (take_drop al rest), utf8_valid_ascii_app in Hv by done. done.
Qed.

Section Paths.
Context `{MC : Memchr} `{AR : Arch}.

(** The bytes of the buffer at the recorded span are the path, and they are
    text. *)
Lemma accepted_path data info :
  Forall u8 data -> extract_routing_info data = Ok info -> header_violation info = false ->
  match path_at info with
  | Some off => slice off (off + length (path info)) data = path info /\ utf8_valid (path info) = true
                /\ (off + length (path info) <= length data)%nat
  | None => path info = bs "/"
  end.
Proof.
  intros Hu Hi Hv. destruct (extract_accepts data info Hu Hi Hv) as (r & rest & -> & Hg & Hun).
  destruct (extract_reading r rest Hg Hun Hu) as (info' & Hi' & _ & _ & _ & _ & _ & _ & _ & Hpq & Hat).
  assert (info' = info) as -> by congruence. clear Hi Hi'.
  pose proof Hg as (_ & _ & Hutf & _). pose proof (un_target r Hun) as Hviol. unfold target_violation in Hviol.
  assert (Hdata : render r ++ rest = rq_method r ++ 32 :: rq_target r ++ 32 :: version (rq_http10 r)
                    ++ render_lines (rq_lines r) ++ CRLF_ ++ rest).
  { unfold render, render_request_line. repeat (rewrite <- ?app_assoc; cbn [app]). done. }
  assert (Htu : Forall u8 (rq_target r)).
  { rewrite Hdata in Hu. apply Forall_app in Hu as [_ Hu]. inversion Hu as [|? ? _ Hu']; subst. by apply Forall_app in Hu' as [? _]. }
  destruct (read_target (rq_method r) (rq_target r)) as [[[viol th] p] off] eqn:Et. cbn [fst snd] in *. subst viol.
  pose proof (read_target_path _ _ _ _ _ Htu Hutf Et) as Hp. rewrite Hat. destruct off as [o|]; cbn [option_map].
  2: { subst p. by injection Hpq as -> _. }
  destruct Hp as (Ho & -> & Hpv).
  assert (exists suf, drop o (rq_target r) = path info ++ suf /\ utf8_valid (path info) = true) as (suf & Hsuf & Hval).
  { unfold path_query in Hpq. destruct (find_byte 63 (drop o (rq_target r))) as [i|] eqn:Ef; injection Hpq as -> _.
    - pose proof (find_byte_split _ _ _ Ef) as Hs. eexists. split; [exact Hs|]. rewrite Hs in Hpv.
      eapply (utf8_valid_prefix _ _ 63); [reflexivity|lia|exact Hpv].
    - exists []. by rewrite app_nil_r. }
  assert (exists y, drop (length (rq_method r) + 1 + o) (render r ++ rest) = path info ++ y) as (y & Hy).
  { exists (suf ++ 32 :: version (rq_http10 r) ++ render_lines (rq_lines r) ++ CRLF_ ++ rest).
    rewrite <- drop_drop, <- drop_drop, Hdata, drop_app_length.
    change (drop 1 (32 :: ?l)) with l. rewrite drop_app_le, Hsuf, <- app_assoc by done. done. }
  split; [|split; [done|]].
  - unfold slice. rewrite Hy. replace (_ - _)%nat with (length (path info)) by lia. apply take_app_length.
  - apply (f_equal length) in Hy. rewrite length_drop, (length_app (path info)) in Hy.
    assert (length (rq_method r) + 1 + o <= length (render r ++ rest))%nat as Hin
      by (rewrite Hdata, length_app; cbn; rewrite length_app; lia).
    lia.
Qed.

End Paths.

Section Decisions.
Context {RE : RegexEngine} `{MC : Memchr} `{AR : Arch}.

Lemma as_u32_len n (data : list Z) : (n <= length data)%nat -> Z.of_nat (length data) < 2 ^ 32 -> Z.to_nat (as_u32 (Z.of_nat n)) = n.
Proof. intros Hn Hd. rewrite as_u32_small by (red; lia). lia. Qed.

(** What a forward decision went through. *)
Lemma forward_inv routes st data reads is_tls port b rule meta st' :
  analyze_http_request routes st data reads is_tls port = (HttpForward b rule meta, st') ->
  exists info npath i,
    extract_routing_info data = Ok info /\ header_violation info = false /\
    normalize_path (path info) = Some npath /\
    find_http_route routes (info_host info) (method info) (cow_str npath) (header_data info) (query_string info) port = Some rule /\
    (select_healthy_weighted_backend rule reads (rule_counters st)).1 = Some i /\ backends rule !! i = Some b /\
    action b = Forward /\
    path_span meta = subslice_span (path_at info) (path info) /\
    normalized_path meta = match npath with Owned p => Some p | Borrowed _ => None end /\
    meta_head_len meta = head_len info /\ meta_content_length meta = content_length info /\
    meta_is_chunked meta = is_chunked info /\ meta_is_upgrade meta = is_upgrade info /\
    meta_strip_spans meta = strip_spans info /\ meta_upgrade_span meta = upgrade_span info /\
    meta_local_reply_reusable meta = local_reply_reusable info.
Proof.
  unfold analyze_http_request. destruct (extract_routing_info data) as [info|]; [|done].
  destruct (header_violation info) eqn:Ev; [done|]. destruct (normalize_path (path info)) as [npath|] eqn:En; [|done].
  destruct (find_http_route _ _ _ _ _ _ _) as [rule'|] eqn:Ef; [|done].
  destruct (if has_filters rule' then _ else None) as [[? ?]|]; [done|].
  destruct (is_nil (backends rule')); [done|].
  destruct (select_healthy_weighted_backend rule' reads (rule_counters st)) as [idx cs] eqn:Es.
  destruct idx as [i|]; cbn [mbind option_bind]; [|done]. destruct (backends rule' !! i) as [b'|] eqn:Eb; [|done].
  case_bool_decide as Ea; [done|]. intros [= <- <- <- _].
  exists info, npath, i. cbn. repeat split; try done; [by rewrite Es|]. by destruct (action b').
Qed.

(** Where the parser's path lies, the path is read back. *)
Lemma meta_path data info npath meta :
  Forall u8 data -> Z.of_nat (length data) < 2 ^ 32 -> extract_routing_info data = Ok info -> header_violation info = false ->
  normalize_path (path info) = Some npath -> path_span meta = subslice_span (path_at info) (path info) ->
  normalized_path meta = match npath with Owned p => Some p | Borrowed _ => None end ->
  RequestMeta_path meta data = cow_str npath.
Proof.
  intros Hu Hlen Hi Hv Hn Hs Hp.
  unfold RequestMeta_path. rewrite Hp, Hs. destruct npath as [s|s]; [|done]. apply normalize_borrowed in Hn as ->.
  cbn [cow_str]. pose proof (accepted_path data info Hu Hi Hv) as Hpath. destruct (path_at info) as [off|]; cbn [subslice_span option_map].
  - destruct Hpath as (Hsl & Hval & Hin). rewrite !as_u32_len with (data := data) by (done || lia). unfold get_range.
    destruct (Nat.leb_spec off (off + length (path info))), (Nat.leb_spec (off + length (path info)) (length data)); try lia.
    cbn [andb]. rewrite Hsl. unfold from_utf8. by rewrite Hval.
  - by rewrite Hpath.
Qed.

(** The path a backend is sent is the very path the route was found
    for, normalised: [RequestMeta::path] reads it back from the buffer span
    or the normalised copy, and it has no dot-segment left to resolve. *)
Theorem forwarded_path_is_routed_path routes st data reads is_tls port b rule meta st' :
  Forall u8 data -> Z.of_nat (length data) < 2 ^ 32 ->
  analyze_http_request routes st data reads is_tls port = (HttpForward b rule meta, st') ->
  exists info, extract_routing_info data = Ok info /\
    find_http_route routes (info_host info) (method info) (RequestMeta_path meta data) (header_data info)
      (query_string info) port = Some rule /\
    normalize_path (RequestMeta_path meta data) = Some (Borrowed (RequestMeta_path meta data)).
Proof.
  intros Hu Hlen H. apply forward_inv in H as (info & npath & i & Hi & Hv & Hn & Hf & _ & _ & _ & Hs & Hp & _).
  exists info. split; [done|].
  rewrite (meta_path data info npath meta) by done.
  split; [done|]. destruct (path info) as [|c p] eqn:Epath; [by injection Hn as <-|].
  destruct (decide (c = 47)) as [->|Hc].
  - apply (normalize_path_settled p _ Hn).
  - assert (normalize_path (c :: p) = Some (Borrowed (c :: p))) as E.
    { unfold normalize_path. by repeat case_match. }
    rewrite E in Hn. injection Hn as <-. exact E.
Qed.

(** A request is forwarded only if its head has one reading, framed as
    that reading says, and only to a backend of the matched rule that has
    weight and is no invalid backendRef. *)
Theorem forward_sound routes st data reads is_tls port b rule meta st' :
  Forall u8 data -> compiled rule -> weights_ok (backends rule) ->
  u64 (default 0 (rule_counters st !! counter rule)) ->
  analyze_http_request routes st data reads is_tls port = (HttpForward b rule meta, st') ->
  (exists r rest, data = render r ++ rest /\ good_request r /\ unambiguous r /\
     meta_head_len meta = length (render r) /\ meta_content_length meta = routed_length r /\
     meta_is_chunked meta = negb (is_nil (values (bs "transfer-encoding") (rq_lines r)))) /\
  b ∈ backends rule /\ 0 < weight b /\ action b = Forward.
Proof.
  intros Hu Hcp Hok Hc H. apply forward_inv in H as (info & npath & i & Hi & Hv & _ & _ & Hs & Hb & Ha & _ & _ & Hl & Hcl & Hch & _).
  split.
  - destruct (extract_accepts data info Hu Hi Hv) as (r & rest & -> & Hg & Hun). exists r, rest.
    destruct (extract_reading r rest Hg Hun Hu) as (info' & Hi' & _ & _ & _ & _ & Hl' & Hcl' & Hch' & _).
    assert (info' = info) as -> by congruence. rewrite Hl, Hcl, Hch.
    exact (conj eq_refl (conj Hg (conj Hun (conj Hl' (conj Hcl' Hch'))))).
  - split; [by eapply list_elem_of_lookup_2|]. split; [|done].
    rewrite select_http_answer in Hs by done. cbn [fst] in Hs. pose proof (weights_ok_nonneg _ Hok) as Hnn.
    pose proof (sum_nonneg _ Hnn). unfold u64 in Hc.
    destruct (Z.eq_dec (sum (map weight (backends rule))) 0) as [E|E].
    { unfold answer in Hs. by rewrite (proj2 (Z.eqb_eq _ 0) E) in Hs. }
    destruct (answer_sound (backends rule) reads (default 0 (rule_counters st !! counter rule)) Hnn)
      as (o & k & _ & Hk & (b' & Hb' & Hw) & _); [lia|lia|]. congruence.
Qed.

Lemma reply_inv routes st data reads is_tls port rep st' :
  analyze_http_request routes st data reads is_tls port = (Reply rep, st') ->
  (status rep = 400 /\ reusable rep = false) \/
  exists info, extract_routing_info data = Ok info /\ header_violation info = false /\
    reusable rep = local_reply_reusable info.
Proof.
  unfold analyze_http_request. destruct (extract_routing_info data) as [info|]; [|intros [= <- _]; by left].
  destruct (header_violation info) eqn:Ev; [intros [= <- _]; by left|].
  destruct (normalize_path (path info)) as [npath|]; [|intros [= <- _]; by left].
  intros H. right. exists info. split; [done|]. split; [done|]. revert H.
  destruct (find_http_route _ _ _ _ _ _ _) as [rule|]; [|by intros [= <- _]].
  destruct (if has_filters rule then _ else None) as [[? ?]|]; [by intros [= <- _]|].
  destruct (is_nil (backends rule)); [by intros [= <- _]|].
  destruct (select_healthy_weighted_backend rule reads (rule_counters st)) as [idx cs].
  destruct (idx ≫= _) as [b|]; [|by intros [= <- _]]. case_bool_decide; [by intros [= <- _]|done].
Qed.

(** When the proxy answers a request itself, the connection stays open
    only past a whole request (no body announced, none chunked), so the next
    byte read is the next request's first; and a head the parser refuses is
    answered 400 and closed. *)
Theorem local_reply_reuse_safe routes st data reads is_tls port rep st' :
  Forall u8 data ->
  analyze_http_request routes st data reads is_tls port = (Reply rep, st') ->
  (reusable rep = true ->
     exists r rest, data = render r ++ rest /\ good_request r /\ unambiguous r /\
       values (bs "transfer-encoding") (rq_lines r) = [] /\ default 0 (routed_length r) = 0) /\
  ((forall r rest, data = render r ++ rest -> good_request r -> unambiguous r -> False) ->
     status rep = 400 /\ reusable rep = false).
Proof.
  intros Hu H. apply reply_inv in H as [[Hs Hr]|(info & Hi & Hv & Hr)]; [split; [congruence|done]|].
  destruct (extract_accepts data info Hu Hi Hv) as (r & rest & -> & Hg & Hun).
  split; [|intros Hno; destruct (Hno r rest eq_refl Hg Hun)].
  rewrite Hr. unfold local_reply_reusable, head_is_whole. intros Hw.
  destruct (extract_reading r rest Hg Hun Hu) as (info' & Hi' & _ & _ & _ & _ & _ & Hcl & Hch & _).
  assert (info' = info) as -> by congruence. rewrite Hcl, Hch in Hw. bool_simpl.
  exists r, rest. split; [done|]. split; [done|]. split; [done|].
  destruct (values (bs "transfer-encoding") (rq_lines r)); done.
Qed.

(** What an L4 decision forwards to is a backend of the route with weight
    and no invalid backendRef. *)
Lemma l4_forward_sound st port found (make : SocketAddr -> RoutingResult) reads addr st' :
  (forall a b, make a = make b -> a = b) ->
  (forall bks, found = Some bks -> weights_ok bks) -> u64 (default 0 (route_counters (selector st) !! port)) ->
  analyze_l4_request st port found make reads = (make addr, st') -> CloseConnection <> make addr ->
  exists bks b, found = Some bks /\ b ∈ bks /\ socket_addr b = addr /\ 0 < weight b /\ action b = Forward.
Proof.
  intros Hinj Hw Hc H Hne. revert H. unfold analyze_l4_request.
  destruct found as [bks|] eqn:Er; [|by intros [= ? _]]. destruct (is_nil bks); [by intros [= ? _]|].
  pose proof (select_l4_answer (selector st) port bks reads (Hw bks eq_refl) Hc) as Hs.
  destruct (select_l4_backend (selector st) port bks reads) as [chosen s']. cbn [fst] in Hs. subst chosen.
  set (c := default 0 (route_counters (selector st) !! port)) in *. pose proof (weights_ok_nonneg _ (Hw bks eq_refl)) as Hnn.
  destruct (answer bks reads c ≫= _) as [b|] eqn:Ea; [|by intros [= ? _]]. case_bool_decide as Hact; [by intros [= ? _]|].
  intros [= Hm _]. apply Hinj in Hm as <-.
  apply bind_Some in Ea as (i & Hi & Hb). exists bks, b. split; [done|]. split; [by eapply list_elem_of_lookup_2|].
  split; [done|]. split; [|by destruct (action b)].
  destruct (Z.eq_dec (sum (map weight bks)) 0) as [E|E].
  { unfold answer in Hi. by rewrite (proj2 (Z.eqb_eq _ 0) E) in Hi. }
  pose proof (sum_nonneg _ Hnn). unfold u64 in Hc.
  destruct (answer_sound bks reads c Hnn) as (o & k & _ & Hk & (b' & Hb' & Hwt) & _); [lia|lia|]. congruence.
Qed.

(** Data that is not HTTP reaches only a backend of the port's TCP
    route that has weight and is no invalid backendRef; without such a route
    the connection closes. *)
Theorem tcp_forward_sound routes st data port reads is_tls addr st' :
  is_http_request data = false ->
  (forall bks, tcp_routes routes !! port = Some bks -> weights_ok bks) ->
  u64 (default 0 (route_counters (selector st) !! port)) ->
  analyze_request routes st data port reads is_tls = (TcpForward addr, st') ->
  exists bks b, tcp_routes routes !! port = Some bks /\ b ∈ bks /\ socket_addr b = addr /\ 0 < weight b /\ action b = Forward.
Proof.
  intros Hh Hw Hc. unfold analyze_request. destruct (is_nil data); [done|]. rewrite Hh. unfold analyze_tcp_request, find_tcp_backends.
  intros H. eapply l4_forward_sound in H; [|by intros ? ? [= ->]|exact Hw|done|done]. destruct H as (bks & b & H). by exists bks, b.
Qed.

End Decisions.

(** ** Witnesses *)

#[local] Existing Instance literal_regex.
#[local] Instance witness_arch : Arch := Little.

Definition sample_rule : HttpRouteRule :=
  HttpRouteRule_new 1 Prefix (bs "/") [] [] [] [weighted backend_a 2 Forward; weighted unspecified 1 Reject].

(** One HTTP route on port 80, one TCP route on port 9000. *)
Definition sample_table : RouteTable :=
  (add_tcp_route (add_http_route_for_listener RouteTable_new 80 None (bs "h.test") sample_rule) 9000
    [weighted backend_a 1 Forward]).1.

Definition sample_data : list Z := render sample_request ++ bs "body".

Definition sample_state : SelectState := {| rule_counters := ∅; selector := BackendSelector_new |}.

Lemma sample_decides : exists b meta st',
  analyze_http_request sample_table sample_state sample_data (steady HealthRegistry_new) false 80
  = (HttpForward b (with_metadata sample_rule (bs "h.test")) meta, st').
Proof. eexists _, _, _. vm_compute. reflexivity. Qed.

Lemma sample_rule_ok : weights_ok (backends (with_metadata sample_rule (bs "h.test"))).
Proof. split; [repeat constructor; cbn; lia|cbn; lia]. Qed.

Lemma forwarded_path_is_routed_path_witness : exists b meta st' info,
  analyze_http_request sample_table sample_state sample_data (steady HealthRegistry_new) false 80
  = (HttpForward b (with_metadata sample_rule (bs "h.test")) meta, st') /\
  find_http_route sample_table (info_host info) (method info) (RequestMeta_path meta sample_data) (header_data info)
      (query_string info) 80 = Some (with_metadata sample_rule (bs "h.test")).
Proof.
  destruct sample_decides as (b & meta & st' & E).
  destruct (forwarded_path_is_routed_path sample_table sample_state sample_data (steady HealthRegistry_new) false 80
    b _ meta st' sample_u8 ltac:(vm_compute; reflexivity) E) as (info & _ & Hf & _).
  exists b, meta, st', info. exact (conj E Hf).
Defined.

Lemma forward_sound_witness : exists b meta st',
  analyze_http_request sample_table sample_state sample_data (steady HealthRegistry_new) false 80
  = (HttpForward b (with_metadata sample_rule (bs "h.test")) meta, st') /\ 0 < weight b /\ action b = Forward.
Proof.
  destruct sample_decides as (b & meta & st' & E).
  assert (Hc : u64 (default 0 (rule_counters sample_state !! counter (with_metadata sample_rule (bs "h.test")))))
    by (vm_compute; split; congruence).
  destruct (forward_sound sample_table sample_state sample_data (steady HealthRegistry_new) false 80
    b _ meta st' sample_u8 (with_metadata_compiled _ _) sample_rule_ok Hc E) as (_ & _ & H).
  exists b, meta, st'. exact (conj E H).
Defined.

Definition smuggling : list Z :=
  bs "POST / HTTP/1.1" ++ CRLF_ ++ bs "Host: h" ++ CRLF_ ++ bs "Content-Length: 4" ++ CRLF_
  ++ bs "Transfer-Encoding: chunked" ++ CRLF_ ++ CRLF_.

Lemma local_reply_reuse_safe_witness : exists rep st',
  analyze_http_request sample_table sample_state smuggling (steady HealthRegistry_new) false 80 = (Reply rep, st') /\
  status rep = 400 /\
  (reusable rep = true -> exists r rest, smuggling = render r ++ rest /\ good_request r /\ unambiguous r /\
     values (bs "transfer-encoding") (rq_lines r) = [] /\ default 0 (routed_length r) = 0).
Proof.
  assert (Hu : Forall u8 smuggling) by (apply Forall_forall; intros x Hx; apply (list_elem_of_In _ _) in Hx;
    vm_compute in Hx; red; intuition lia).
  assert (exists rep st', analyze_http_request sample_table sample_state smuggling (steady HealthRegistry_new) false 80
    = (Reply rep, st') /\ status rep = 400) as (rep & st' & E & Hs)
    by (eexists _, _; split; [vm_compute; reflexivity|reflexivity]).
  exists rep, st'. split; [exact E|]. split; [exact Hs|].
  exact (proj1 (local_reply_reuse_safe sample_table sample_state smuggling (steady HealthRegistry_new) false 80 rep st' Hu E)).
Defined.

Lemma tcp_forward_sound_witness : exists addr st' bks b,
  analyze_request sample_table sample_state (bs "SSH-2.0-Go ") 9000 (steady HealthRegistry_new) false = (TcpForward addr, st') /\
  tcp_routes sample_table !! 9000 = Some bks /\ b ∈ bks /\ socket_addr b = addr.
Proof.
  assert (exists addr st', analyze_request sample_table sample_state (bs "SSH-2.0-Go ") 9000 (steady HealthRegistry_new) false
    = (TcpForward addr, st')) as (addr & st' & E) by (eexists _, _; vm_compute; reflexivity).
  assert (Hw : forall bks, tcp_routes sample_table !! 9000 = Some bks -> weights_ok bks).
  { intros bks H. vm_compute in H. injection H as <-. split; [repeat constructor; cbn; lia|cbn; lia]. }
  assert (Hc : u64 (default 0 (route_counters (selector sample_state) !! 9000))) by (vm_compute; split; congruence).
  assert (Hh : is_http_request (bs "SSH-2.0-Go ") = false) by (vm_compute; reflexivity).
  destruct (tcp_forward_sound sample_table sample_state (bs "SSH-2.0-Go ") 9000 (steady HealthRegistry_new) false addr st'
    Hh Hw Hc E) as (bks & b & Hb & Hin & Ha & _).
  exists addr, st', bks, b. exact (conj E (conj Hb (conj Hin Ha))).
Defined.
