(* ===== verification/Outgoing.v ===== *)
(** * The head a backend receives

    [build_outgoing_headers] of [src/src/proxy/worker.rs] over the filters of
    [HttpFilters]: the head of an accepted request without its hop-by-hop
    lines, by the spans the parser recorded or line by line, then the rule's
    and the backend's modifications. *)

From S2P Require Import Prelude Bytes Net HttpGrammar Routing Selection PathNorm HttpParser HttpFilters RequestProcessor.

Section Outgoing.
Context `{MC : Memchr}.

(** Which path replaces the request line's own. *)
Definition outgoing_path (raw : list Z) (origin : option OriginForm) (meta : RequestMeta) : option (list Z) :=
  match origin with
  | Some _ => Some (RequestMeta_path meta raw)
  | None => normalized_path meta
  end.

(** The head before any filter. *)
Definition forward_head (raw : list Z) (meta : RequestMeta) (forwarded : list Z) : list Z :=
  let origin := OriginForm_of raw (path_span meta) in
  let path := outgoing_path raw origin meta in
  if needs_slow_path (meta_strip_spans meta)
  then assemble_forward_headers_slow raw path (meta_is_upgrade meta) origin forwarded
  else assemble_forward_headers raw path (meta_strip_spans meta) (meta_upgrade_span meta) (meta_is_upgrade meta)
         origin forwarded.

Definition build_outgoing_headers {RE : RegexEngine} (buf : list Z) (req_header_end : nat) (rule : HttpRouteRule) (backend : Backend)
  (meta : RequestMeta) (peer_ip : IpAddr) (is_tls : bool) : list Z :=
  let raw := take req_header_end buf in
  let scratch := forward_head raw meta (ForwardedLines_new peer_ip is_tls) in
  if has_filters rule then
    let rule_mods := extract_header_mods (filters rule) false in
    let url_rewrite := extract_url_rewrite (filters rule) (rule_path rule) (RequestMeta_path meta raw) in
    let backend_mods := extract_header_mods (backend_filters backend) false in
    if is_some rule_mods || is_some url_rewrite || is_some backend_mods then
      let scratch := apply_request_header_modifications scratch rule_mods url_rewrite in
      match backend_mods with
      | Some bm => apply_request_header_modifications scratch (Some bm) None
      | None => scratch
      end
    else scratch
  else scratch.

End Outgoing.

(** ** Heads as lists of lines *)

Definition line_text (l : line) : list Z := l.1 ++ 58 :: l.2.
Definition request_text (r : request) : list Z :=
  rq_method r ++ SP :: rq_target r ++ SP :: take 8 (version (rq_http10 r)).

Definition crlf_lines (ls : list (list Z)) : list Z := concat (map (fun l => l ++ CRLF_) ls).

Lemma render_line_text l : render_line l = line_text l ++ CRLF_.
Proof. unfold render_line, line_text. by rewrite <- app_assoc. Qed.

Lemma render_lines_text ls : render_lines ls = crlf_lines (map line_text ls).
Proof. unfold render_lines, crlf_lines. rewrite map_map. f_equal. apply map_ext, render_line_text. Qed.

Lemma render_lines_app a b : render_lines (a ++ b) = render_lines a ++ render_lines b.
Proof. unfold render_lines. by rewrite map_app, concat_app. Qed.

Lemma render_request_text r : render_request_line r = request_text r ++ CRLF_.
Proof.
  unfold render_request_line, request_text. rewrite <- !app_assoc. cbn [app]. rewrite <- app_assoc. cbn [app].
  by destruct (rq_http10 r).
Qed.

Lemma render_text r : render r = crlf_lines (request_text r :: map line_text (rq_lines r)) ++ CRLF_.
Proof.
  unfold render. rewrite render_request_text, render_lines_text. unfold crlf_lines. cbn [map concat].
  by rewrite <- !app_assoc.
Qed.

(** A line the writers and [header_lines] take for one. *)
Definition whole_line (l : list Z) : Prop := l <> [] /\ Forall (fun x => x <> 10) l.

Section Lines.
Context `{MC : Memchr}.

Lemma header_lines_from_crlf raw pos ls tl fuel :
  drop pos raw = crlf_lines ls ++ tl -> Forall whole_line ls ->
  (length raw - pos < length ls + fuel)%nat ->
  header_lines_from (length ls + fuel) raw pos = ls ++ header_lines_from fuel raw (pos + length (crlf_lines ls)).
Proof.
  intros Hd Hw. revert pos Hd. induction Hw as [|l ls [Hne Hlf] _ IH]; intros pos Hd Hf.
  { cbn. by rewrite Nat.add_0_r. }
  cbn [length Nat.add header_lines_from]. unfold crlf_lines in Hd |- *. cbn [map concat] in Hd |- *.
  fold (crlf_lines ls) in Hd |- *. rewrite <- !app_assoc in Hd. cbn [app] in Hd.
  assert (Hlen : length (drop pos raw) = (length l + 2 + length (crlf_lines ls ++ tl))%nat).
  { rewrite Hd, length_app. cbn. lia. }
  rewrite length_drop in Hlen.
  destruct (Nat.ltb_spec pos (length raw)); [|destruct l; [done|cbn in Hlen; lia]].
  rewrite memchr_find_byte, Hd.
  change (l ++ 13 :: 10 :: ?x) with (l ++ [13] ++ 10 :: x). rewrite app_assoc, find_byte_app_r.
  2: { apply Forall_app. split; [done|]. by repeat constructor. }
  rewrite length_app. cbn [length].
  destruct (Nat.ltb_spec pos (pos + (length l + 1))); [|lia]. cbn [andb].
  replace (pos + (length l + 1) - 1)%nat with (pos + length l)%nat by lia.
  rewrite <- lookup_drop, Hd, list_lookup_middle, bool_decide_eq_true_2 by done.
  assert (slice pos (pos + length l) raw = l) as ->.
  { unfold slice. rewrite Hd. replace (_ - _)%nat with (length l) by lia. apply take_app_length. }
  destruct l as [|x l]; [done|]. rewrite IH; [| |cbn in Hlen, Hf |- *; lia].
  - rewrite !length_app. cbn [length]. cbn [app]. do 3 f_equal. lia.
  - replace (pos + (length (x :: l) + 1) + 1)%nat with (pos + (length (x :: l) + 2))%nat by lia.
    rewrite <- drop_drop, Hd. change (13 :: 10 :: ?t) with (CRLF_ ++ t). rewrite app_assoc.
    replace (length (x :: l) + 2)%nat with (length ((x :: l) ++ CRLF_)) by (rewrite length_app; done).
    apply drop_app_length.
Qed.

Lemma length_crlf_lines ls : Forall whole_line ls -> (length ls <= length (crlf_lines ls))%nat.
Proof.
  induction 1 as [|l ls [Hne _] _ IH]; [done|]. unfold crlf_lines in *. cbn [map concat length].
  rewrite !length_app. cbn. lia.
Qed.

(** [header_lines] of a block of CRLF lines and its blank line. *)
Lemma header_lines_crlf ls : Forall whole_line ls -> header_lines (crlf_lines ls ++ CRLF_) = ls.
Proof.
  intros Hw. unfold header_lines. pose proof (length_crlf_lines ls Hw) as Hl.
  set (raw := crlf_lines ls ++ CRLF_).
  assert (Hr : length raw = (length (crlf_lines ls) + 2)%nat) by (unfold raw; rewrite length_app; done).
  replace (S (length raw)) with (length ls + (S (S (length (crlf_lines ls) - length ls + 1))))%nat by lia.
  rewrite (header_lines_from_crlf raw 0 ls CRLF_) by (done || lia). cbn [Nat.add].
  cbn [header_lines_from].
  set (n := length (crlf_lines ls)) in *.
  assert (Hd : drop n raw = CRLF_) by apply drop_app_length.
  destruct (Nat.ltb_spec n (length raw)); [|lia]. rewrite Hd, memchr_find_byte. cbn [find_byte Z.eqb Pos.eqb fmap option_fmap option_map].
  destruct (Nat.ltb_spec n (n + 1)); [|lia]. replace (n + 1 - 1)%nat with (n + 0)%nat by lia.
  rewrite <- lookup_drop, Hd. cbn [andb lookup list_lookup]. rewrite bool_decide_eq_true_2 by done.
  unfold slice. rewrite Nat.add_0_r, Nat.sub_diag, take_0.
  destruct (Nat.ltb_spec (n + 1 + 1) (length raw)); [lia|]. apply app_nil_r.
Qed.
End Lines.

(** ** Where the lines of a head lie *)

(** The spans of the selected lines, the first line starting at [p]. *)
Fixpoint spans_of (sel : line -> bool) (p : nat) (ls : list line) : list (nat * nat) :=
  match ls with
  | [] => []
  | l :: rest =>
      let p' := (p + length (render_line l))%nat in
      if sel l then (p, p') :: spans_of sel p' rest else spans_of sel p' rest
  end.

(** [host] is where the selected line lies, and no other line's span. *)
Fixpoint marks (sel : line -> bool) (host : option (nat * nat)) (p : nat) (ls : list line) : Prop :=
  match ls with
  | [] => True
  | l :: rest =>
      let p' := (p + length (render_line l))%nat in
      bool_decide (Some (p, p') = host) = sel l /\ marks sel host p' rest
  end.

Lemma spans_of_ge sel p ls s : s ∈ spans_of sel p ls -> (p <= s.1 < s.2)%nat.
Proof.
  revert p. induction ls as [|l ls IH]; intros p; cbn [spans_of]; [by intros ?%elem_of_nil|].
  pose proof (length_render_line l) as Hl.
  destruct (sel l); [intros [->|Hs]%elem_of_cons; [cbn; lia|]|intros Hs]; apply IH in Hs; lia.
Qed.

Lemma spans_of_none sel p ls : Forall (fun l => sel l = false) ls -> spans_of sel p ls = [].
Proof. intros H. revert p. induction H as [|l ls Hl _ IH]; intros p; cbn [spans_of]; [done|]. by rewrite Hl. Qed.

Lemma spans_of_ext sel sel' p ls : Forall (fun l => sel l = sel' l) ls -> spans_of sel p ls = spans_of sel' p ls.
Proof. intros H. revert p. induction H as [|l ls Hl _ IH]; intros p; cbn [spans_of]; [done|]. by rewrite Hl, IH. Qed.

Lemma length_spans_of sel p ls : length (spans_of sel p ls) = length (List.filter sel ls).
Proof.
  revert p. induction ls as [|l ls IH]; intros p; cbn [spans_of List.filter]; [done|].
  destruct (sel l); cbn [length]; by rewrite IH.
Qed.

(** At most one line selected: its span marks it. *)
Lemma marks_from sel host p ls :
  (length (spans_of sel p ls) <= 1)%nat ->
  (forall s, head (spans_of sel p ls) = Some s -> host = Some s) ->
  (forall s, host = Some s -> (s.1 < p)%nat \/ head (spans_of sel p ls) = Some s) ->
  marks sel host p ls.
Proof.
  revert p. induction ls as [|l ls IH]; intros p; cbn [spans_of marks]; [done|].
  pose proof (length_render_line l) as Hl. set (p' := (p + length (render_line l))%nat).
  destruct (sel l) eqn:El; cbn [length head]; intros H1 H2 H3.
  - pose proof (H2 _ eq_refl) as ->. rewrite bool_decide_eq_true_2 by done. split; [done|].
    assert (spans_of sel p' ls = []) as E by (destruct (spans_of sel p' ls); [done|cbn in H1; lia]).
    apply IH; rewrite E; [cbn; lia|done|]. intros s [= <-]. left. cbn. lia.
  - split.
    + apply bool_decide_eq_false_2. intros E. symmetry in E. destruct (H3 _ E) as [Hp|Hp]; [cbn in Hp; lia|].
      destruct (spans_of sel p' ls) as [|s t] eqn:Es; [done|]. cbn in Hp. injection Hp as ->.
      assert ((p, p') ∈ spans_of sel p' ls) as Hin by (rewrite Es; by apply elem_of_cons; left).
      apply spans_of_ge in Hin. cbn in Hin. lia.
    + apply IH; [done|done|]. intros s Hs. destruct (H3 s Hs); [left; lia|by right].
Qed.

Lemma marks_unique sel p ls : (length (spans_of sel p ls) <= 1)%nat -> marks sel (head (spans_of sel p ls)) p ls.
Proof. intros H. apply marks_from; auto. Qed.

(** ** The gap copies *)

Lemma slice_split a b c (l : list Z) : (a <= b)%nat -> (b <= c)%nat -> slice a c l = slice a b l ++ slice b c l.
Proof.
  intros Ha Hb. unfold slice. rewrite <- (take_drop (b - a) (take (c - a) (drop a l))).
  rewrite take_take, Nat.min_l by lia. f_equal. rewrite skipn_firstn_comm, drop_drop. f_equal; [lia|]. f_equal. lia.
Qed.

Lemma slice_nil a (l : list Z) : slice a a l = [].
Proof. unfold slice. by rewrite Nat.sub_diag, take_0. Qed.

Section Gaps.
Context (raw : list Z) (origin : option OriginForm) (host : option (nat * nat)).

Lemma fold_cuts ls out c :
  fold_left (fun '(out, cursor) l => (out ++ cut raw origin host cursor l, l.2)) ls (out, c) =
  let '(out', c') := fold_left (fun '(out, cursor) l => (out ++ cut raw origin host cursor l, l.2)) ls ([], c) in
  (out ++ out', c').
Proof.
  revert out c. induction ls as [|l ls IH]; intros out c; cbn [fold_left]; [by rewrite app_nil_r|].
  rewrite IH. rewrite (IH ([] ++ _)). destruct (fold_left _ ls ([], _)) as [out' c']. by rewrite <- app_assoc.
Qed.

(** A line that lies before the next span is cut first. *)
Lemma copy_gaps_line t c spans l ls :
  Forall (fun s : nat * nat => (l.1 < s.1)%nat) spans ->
  copy_gaps raw origin host t c spans (l :: ls) = cut raw origin host c l ++ copy_gaps raw origin host t l.2 spans ls.
Proof.
  intros Hs. destruct spans as [|[s e] spans]; cbn [copy_gaps].
  - cbn [fold_left]. rewrite fold_cuts. destruct (fold_left _ ls _) as [out c']. by rewrite <- app_assoc.
  - inversion Hs as [|? ? Hl _]; subst. cbn [drain_lines]. cbn in Hl. apply Nat.ltb_lt in Hl as ->.
    destruct (drain_lines _ _ _ _ _ ls) as [[out c'] ls']. by rewrite <- app_assoc.
Qed.

Lemma copy_gaps_span t c s e spans ls :
  Forall (fun l : nat * nat => (s < l.1)%nat) ls ->
  copy_gaps raw origin host t c ((s, e) :: spans) ls = slice c s raw ++ copy_gaps raw origin host t e spans ls.
Proof.
  intros Hl. cbn [copy_gaps]. destruct Hl as [|l ls Hl _]; cbn [drain_lines]; [done|].
  destruct (Nat.ltb_spec l.1 s); [lia|done].
Qed.

(** What the fast path writes for a line: nothing for a span, the authority
    for the Host line of an absolute-form request, nothing for another cut
    line, the line otherwise. *)
Definition gap_line (spanned lined hosts : line -> bool) (l : line) : list Z :=
  if spanned l then []
  else if lined l then
    match origin with Some o => if hosts l then put_host (authority o) else [] | None => [] end
  else render_line l.

Lemma copy_gaps_lines spanned lined hosts ls p c tl :
  Forall (fun l => spanned l = true -> lined l = false) ls -> marks hosts host p ls ->
  (c <= p)%nat -> drop p raw = render_lines ls ++ tl ->
  copy_gaps raw origin host (p + length (render_lines ls)) c (spans_of spanned p ls) (spans_of lined p ls) =
  slice c p raw ++ concat (map (gap_line spanned lined hosts) ls).
Proof.
  intros Hdis. revert p c. induction Hdis as [|l ls Hl0 _ IH]; intros p c Hm Hc Hd.
  { cbn. rewrite Nat.add_0_r, app_nil_r. by rewrite ?app_nil_l. }
  cbn [marks] in Hm. cbn [spans_of map concat]. set (p' := (p + length (render_line l))%nat) in *. destruct Hm as [Hh Hm].
  assert (Hlen : length (render_lines (l :: ls)) = (length (render_line l) + length (render_lines ls))%nat).
  { unfold render_lines. cbn [map concat]. apply length_app. }
  unfold render_lines in Hd. cbn [map concat] in Hd. fold (render_lines ls) in Hd. rewrite <- app_assoc in Hd.
  assert (Hd' : drop p' raw = render_lines ls ++ tl).
  { unfold p'. rewrite <- drop_drop, Hd. apply drop_app_length. }
  assert (Hl : slice p p' raw = render_line l).
  { unfold slice, p'. rewrite Hd. replace (_ - _)%nat with (length (render_line l)) by lia. apply take_app_length. }
  rewrite Hlen, Nat.add_assoc. fold p'.
  assert (Hp : (p < p')%nat) by (unfold p'; rewrite length_render_line; lia).
  assert (Hafter : forall sel, Forall (fun s : nat * nat => (p < s.1)%nat) (spans_of sel p' ls)).
  { intros sel. apply Forall_forall. intros s Hs. apply spans_of_ge in Hs. lia. }
  unfold gap_line at 1. destruct (spanned l) eqn:Es.
  - rewrite (Hl0 eq_refl), copy_gaps_span by apply Hafter. rewrite IH by (done || lia). by rewrite slice_nil.
  - destruct (lined l) eqn:El.
    + rewrite copy_gaps_line by apply Hafter. unfold cut. cbn [fst snd]. rewrite Hh, IH, slice_nil by (done || lia).
      rewrite <- app_assoc. by destruct origin.
    + rewrite IH by (done || lia). rewrite (slice_split c p p'), Hl, <- app_assoc by lia. done.
Qed.

End Gaps.

(** ** What the parser records of the lines *)

Section Recorded.
Context `{MC : Memchr}.

Definition line_kind (l : line) : LineKind := (field_line false (Fields_init false) l.1 l.2).2.
Definition spanned (l : line) : bool := match line_kind l with Strip => true | _ => false end.
Definition upgrades (l : line) : bool := match line_kind l with Upgrade => true | _ => false end.

(** Whether a line is kept depends on the line alone. *)
Lemma field_line_kind h f l : (field_line h f l.1 l.2).2 = line_kind l.
Proof. unfold line_kind, field_line. repeat (case_match; try done). Qed.

(** A token whose headers the fast path strips anyway. *)
Definition mild_token (tok : list Z) : Prop :=
  lowercase (trim_ows tok) ∈ [[]; bs "close"; bs "keep-alive"; bs "upgrade"; bs "http2-settings"].

Lemma connection_token_effects f tok :
  let f' := connection_token f tok in
  has_upgrade_header f' = has_upgrade_header f /\ offers_h2c_upgrade f' = offers_h2c_upgrade f /\
  (f_slow f' = false -> f_slow f = false) /\ (f_slow f' = false -> violation f' = false -> mild_token tok).
Proof.
  unfold connection_token, mild_token. set (t := trim_ows tok).
  assert (Hk : forall s, eq_ignore_ascii_case t s = true -> lowercase t = lowercase s) by (intros s; apply eq_ignore_ascii_case_spec).
  destruct (eq_ignore_ascii_case t (bs "close")) eqn:E1; [apply Hk in E1; rewrite E1; repeat split; cbn; set_solver|].
  destruct (eq_ignore_ascii_case t (bs "keep-alive")) eqn:E2; [apply Hk in E2; rewrite E2; repeat split; cbn; set_solver|].
  destruct (eq_ignore_ascii_case t (bs "upgrade")) eqn:E3; [apply Hk in E3; rewrite E3; repeat split; cbn; set_solver|].
  destruct (_ || _ || _) eqn:E4; [repeat split; by cbn|].
  destruct t as [|x t']; cbn [negb andb]; [repeat split; cbn; set_solver|].
  destruct (eq_ignore_ascii_case (x :: t') (bs "http2-settings")) eqn:E5; cbn [negb].
  - apply Hk in E5. rewrite E5. repeat split; cbn; set_solver.
  - repeat split; by cbn.
Qed.

Lemma connection_tokens_effects f toks :
  let f' := fold_left connection_token toks f in
  has_upgrade_header f' = has_upgrade_header f /\ offers_h2c_upgrade f' = offers_h2c_upgrade f /\
  (f_slow f' = false -> f_slow f = false) /\ (f_slow f' = false -> violation f' = false -> Forall mild_token toks).
Proof.
  revert f. induction toks as [|tok toks IH]; intros f; cbn [fold_left]; [done|].
  destruct (IH (connection_token f tok)) as (H1 & H2 & H3 & H4).
  destruct (connection_token_effects f tok) as (G1 & G2 & G3 & G4).
  split; [congruence|]. split; [congruence|]. split; [auto|]. intros Hs Hv. constructor; [|auto].
  destruct (connection_tokens (connection_token f tok) toks) as [_ Hviol]. apply G4; [auto|by apply Hviol].
Qed.

Lemma field_line_effects h f l :
  Forall u8 l.1 -> let f' := (field_line h f l.1 l.2).1 in
  (f_slow f' = false -> f_slow f = false) /\
  (has_upgrade_header f = true -> has_upgrade_header f' = true) /\
  (offers_h2c_upgrade f = true -> offers_h2c_upgrade f' = true) /\
  (upgrades l = true -> has_upgrade_header f' = true /\ (f_slow f' = false -> has_upgrade_header f = false)) /\
  (lowercase l.1 = bs "upgrade" -> spanned l = true -> offers_h2c_upgrade f' = true) /\
  (lowercase l.1 = bs "connection" -> f_slow f' = false -> violation f' = false -> Forall mild_token (split_on 44 l.2)).
Proof.
  intros Hu. unfold upgrades, spanned. rewrite <- (field_line_kind h f l). unfold field_line. rewrite !named_exact by done.
  destruct (bool_decide (lowercase l.1 = bs "host")) eqn:E1; bool_simpl.
  { rewrite E1. by destruct (split_host _), (f_host f). }
  destruct (bool_decide (lowercase l.1 = bs "content-length")) eqn:E2; bool_simpl.
  { rewrite E2. by destruct (parse_digits _), (f_content_length f). }
  destruct (bool_decide (lowercase l.1 = bs "transfer-encoding")) eqn:E3; bool_simpl.
  { rewrite E3. by destruct (_ || _ || _). }
  destruct (bool_decide (lowercase l.1 = bs "upgrade")) eqn:E4; bool_simpl.
  { rewrite E4. destruct (offers_h2c l.2); cbn; [done|].
    repeat split; try done; intros ?; bool_simpl; done. }
  destruct (bool_decide (lowercase l.1 = bs "connection")) eqn:E5; bool_simpl.
  { destruct (connection_tokens_effects f (split_on 44 l.2)) as (G1 & G2 & G3 & G4). cbn [fst snd].
    rewrite G1, G2. by repeat split. }
  repeat (case_match; [repeat split; cbn; intros; try done; by case_match|]). by cbn.
Qed.

Lemma line_step_ok h st l :
  violation (fields (line_step h st l)) = false ->
  let p' := (pos st + length (render_line l))%nat in
  pos (line_step h st l) = p' /\ fields (line_step h st l) = (field_line h (fields st) l.1 l.2).1 /\
  h_spans (line_step h st l) = (if spanned l then push (h_spans st) (pos st) p' else h_spans st) /\
  h_upgrade_span (line_step h st l) =
    (if upgrades l then Some (as_u32 (Z.of_nat (pos st)), as_u32 (Z.of_nat p')) else h_upgrade_span st).
Proof.
  unfold spanned, upgrades. rewrite <- (field_line_kind h (fields st) l). unfold line_step, take_line.
  destruct (field_line h (fields st) l.1 l.2) as [f k]. cbn [fst snd].
  destruct (violation f) eqn:Ev; cbn; [congruence|]. intros _. by destruct k.
Qed.

Lemma run_lines_violation h st ls : violation (fields st) = true -> run_lines h st ls = st.
Proof. destruct ls; [done|]. cbn [run_lines]. by intros ->. Qed.

Lemma run_lines_cons_ok h st l ls :
  violation (fields (run_lines h st (l :: ls))) = false ->
  run_lines h st (l :: ls) = run_lines h (line_step h st l) ls /\ violation (fields (line_step h st l)) = false.
Proof.
  cbn [run_lines]. destruct (violation (fields st)) eqn:Ev; [congruence|]. intros Hv. split; [done|].
  destruct (violation (fields (line_step h st l))) eqn:Ev'; [|done]. rewrite run_lines_violation in Hv by done. congruence.
Qed.

Lemma span_u32 (a b : nat) : (a <= b)%nat -> Z.of_nat b < 4294967296 ->
  span_nat (as_u32 (Z.of_nat a), as_u32 (Z.of_nat b)) = (a, b).
Proof. intros H1 H2. unfold span_nat. cbn [fst snd]. rewrite !as_u32_small by (red; lia). by rewrite !Nat2Z.id. Qed.

(** The recorded spans are those of the stripped lines, unless they
    overflow. *)
Lemma run_lines_spans h st ls :
  violation (fields (run_lines h st ls)) = false -> needs_slow_path (h_spans (run_lines h st ls)) = false ->
  Z.of_nat (pos st + length (render_lines ls)) < 4294967296 ->
  needs_slow_path (h_spans st) = false /\
  spans_iter (h_spans (run_lines h st ls)) = spans_iter (h_spans st) ++ spans_of spanned (pos st) ls.
Proof.
  revert st. induction ls as [|l ls IH]; intros st Hv Hs Hlen; [split; [done|]; cbn; by rewrite app_nil_r|].
  apply run_lines_cons_ok in Hv as Hrun. destruct Hrun as [Hrun Hok]. rewrite Hrun in Hv, Hs |- *.
  destruct (line_step_ok h st l Hok) as (Hpos & _ & Hsp & _).
  assert (Hl : length (render_lines (l :: ls)) = (length (render_line l) + length (render_lines ls))%nat).
  { unfold render_lines. cbn [map concat]. apply length_app. }
  destruct (IH (line_step h st l)) as [Hn Hi]; [done|done|rewrite Hpos; lia|]. rewrite Hi, Hpos, Hsp. rewrite Hsp in Hn.
  cbn [spans_of]. destruct (spanned l); [|done]. unfold push in *. destruct (_ <? _)%nat; cbn [needs_slow_path] in Hn; [|done].
  split; [done|]. unfold spans_iter. cbn [spans]. rewrite map_app, <- app_assoc. cbn [map app]. do 2 f_equal.
  apply (span_u32 (pos st)); lia.
Qed.

Lemma run_lines_upgrades h st ls :
  Forall (fun l : line => Forall u8 l.1) ls ->
  violation (fields (run_lines h st ls)) = false -> f_slow (fields (run_lines h st ls)) = false ->
  Z.of_nat (pos st + length (render_lines ls)) < 4294967296 ->
  f_slow (fields st) = false /\
  option_map span_nat (h_upgrade_span (run_lines h st ls)) =
    (match spans_of upgrades (pos st) ls with s :: _ => Some s | [] => option_map span_nat (h_upgrade_span st) end) /\
  (length (spans_of upgrades (pos st) ls) <= if has_upgrade_header (fields st) then 0 else 1)%nat /\
  (offers_h2c_upgrade (fields (run_lines h st ls)) = false ->
     offers_h2c_upgrade (fields st) = false /\ Forall (fun l => lowercase l.1 = bs "upgrade" -> spanned l = false) ls) /\
  Forall (fun l => lowercase l.1 = bs "connection" -> Forall mild_token (split_on 44 l.2)) ls.
Proof.
  intros Hu. revert st. induction Hu as [|l ls Hul _ IH]; intros st Hv Hs Hlen.
  { cbn. split_and!; try done; lia. }
  apply run_lines_cons_ok in Hv as Hrun. destruct Hrun as [Hrun Hok]. rewrite Hrun in Hv, Hs |- *.
  destruct (line_step_ok h st l Hok) as (Hpos & Hf & _ & Hup).
  assert (Hl : length (render_lines (l :: ls)) = (length (render_line l) + length (render_lines ls))%nat).
  { unfold render_lines. cbn [map concat]. apply length_app. }
  destruct (IH (line_step h st l)) as (Hsl & Hsp & Hcnt & Hoff & Hmild); [done|done|rewrite Hpos; lia|].
  rewrite Hf in Hsl, Hcnt, Hoff, Hok. rewrite Hup, Hpos in Hsp. rewrite Hpos in Hcnt.
  destruct (field_line_effects h (fields st) l Hul) as (E1 & E2 & E3 & E4 & E5 & E6).
  split; [auto|]. cbn [spans_of]. split; [|split; [|split]].
  - rewrite Hsp. destruct (upgrades l) eqn:Eu; [|done]. destruct (E4 eq_refl) as [G1 G2]. rewrite G1 in Hcnt.
    destruct (spans_of upgrades _ ls) as [|s t]; [|cbn in Hcnt; lia]. cbn [option_map]. f_equal. apply span_u32; lia.
  - destruct (upgrades l) eqn:Eu.
    + destruct (E4 eq_refl) as [G1 G2]. rewrite G1 in Hcnt. rewrite G2 by done. cbn [length]. lia.
    + destruct (has_upgrade_header (fields st)); [by rewrite E2 in Hcnt|].
      destruct (has_upgrade_header _); lia.
  - intros Ho. destruct (Hoff Ho) as [Ho1 Ho2]. split.
    + destruct (offers_h2c_upgrade (fields st)); [by rewrite E3 in Ho1|done].
    + constructor; [|done]. intros Hn. destruct (spanned l); [by rewrite E5 in Ho1|done].
  - constructor; [|done]. auto.
Qed.

End Recorded.

(** ** Both writers, line by line *)

Definition hosts (l : line) : bool := eq_ignore_ascii_case l.1 (bs "host").

Definition head_start (r : request) : nat := length (render_request_line r).

(** Two selections that never meet, at most one line each. *)
Lemma spans_of_merge a b p ls :
  Forall (fun l => a l = true -> b l = false) ls ->
  (length (spans_of a p ls) <= 1)%nat -> (length (spans_of b p ls) <= 1)%nat ->
  spans_of (fun l => a l || b l) p ls =
  match head (spans_of a p ls), head (spans_of b p ls) with
  | Some u, Some h => if nat2_lt h u then [h; u] else [u; h]
  | Some u, None => [u]
  | None, Some h => [h]
  | None, None => []
  end.
Proof.
  intros Hall. revert p. induction Hall as [|l ls Hab _ IH]; intros p; cbn [spans_of]; [done|].
  set (p' := (p + length (render_line l))%nat). intros Ha Hb.
  assert (Hp : (p < p')%nat) by (unfold p'; rewrite length_render_line; lia).
  assert (Hnil : forall sel, (length ((p, p') :: spans_of sel p' ls) <= 1)%nat -> spans_of sel p' ls = []).
  { intros sel H. destruct (spans_of sel p' ls); [done|cbn in H; lia]. }
  assert (Hge : forall sel s, head (spans_of sel p' ls) = Some s -> (p < s.1)%nat).
  { intros sel s H. destruct (spans_of sel p' ls) as [|s' t] eqn:E; [done|]. injection H as ->.
    assert (s ∈ spans_of sel p' ls) as Hin by (rewrite E; by apply elem_of_cons; left). apply spans_of_ge in Hin. lia. }
  destruct (a l) eqn:Ea; [rewrite Hab in Hb |- * by done|destruct (b l) eqn:Eb]; cbn [orb head].
  - pose proof (Hnil a Ha) as Hn. rewrite IH, Hn by (rewrite ?Hn; cbn; done || lia). cbn [head].
    destruct (head (spans_of b p' ls)) as [h|] eqn:Eh; [|done]. apply Hge in Eh. unfold nat2_lt. cbn [fst snd].
    destruct (Nat.ltb_spec h.1 p); [lia|]. destruct (Nat.eqb_spec h.1 p); [lia|]. done.
  - pose proof (Hnil b Hb) as Hn. rewrite IH, Hn by (rewrite ?Hn; cbn; done || lia). cbn [head].
    destruct (head (spans_of a p' ls)) as [u|] eqn:Eu; [|done]. apply Hge in Eu. unfold nat2_lt. cbn [fst snd].
    destruct (Nat.ltb_spec p u.1); [done|lia].
  - by apply IH.
Qed.

Section Writers.
Context `{MC : Memchr} `{AR : Arch}.

Lemma token_no_colon s : Forall u8 s -> Forall (fun b => is_ b TCHAR = true) s -> Forall (fun b => b <> 58) s.
Proof.
  intros Hu H. assert (H' : Forall (fun b => u8 b /\ is_ b TCHAR = true) s) by (by apply Forall_and).
  eapply Forall_impl; [exact H'|]. intros x [Hx Ht] ->. by vm_compute in Ht.
Qed.

Lemma value_no_lf s : Forall u8 s -> Forall (fun b => is_ b VALUE = true) s -> Forall (fun b => b <> 10) s.
Proof.
  intros Hu H. assert (H' : Forall (fun b => u8 b /\ is_ b VALUE = true) s) by (by apply Forall_and).
  eapply Forall_impl; [exact H'|]. intros x [Hx Ht] ->. by vm_compute in Ht.
Qed.

Lemma token_no_lf s : Forall u8 s -> Forall (fun b => is_ b TCHAR = true) s -> Forall (fun b => b <> 10) s.
Proof.
  intros Hu H. assert (H' : Forall (fun b => u8 b /\ is_ b TCHAR = true) s) by (by apply Forall_and).
  eapply Forall_impl; [exact H'|]. intros x [Hx Ht] ->. by vm_compute in Ht.
Qed.

Definition u8_line (l : line) : Prop := Forall u8 l.1 /\ Forall u8 l.2.

Lemma line_text_whole l : good_line l -> u8_line l -> whole_line (line_text l).
Proof.
  intros [[Hne Hn] Hv] [Hnu Hvu]. unfold line_text. split; [by destruct l.1|].
  apply Forall_app. split; [by apply token_no_lf|]. constructor; [lia|]. by apply value_no_lf.
Qed.

Lemma target_no_lf t : good_target t -> Forall u8 t -> Forall (fun b => b <> 10) t.
Proof.
  intros (_ & a & b & -> & Ha & Hb & _) [Hau Hbu]%Forall_app. apply Forall_app. split.
  - assert (H : Forall (fun x => u8 x /\ is_ x TARGET = true) a) by (by apply Forall_and).
    eapply Forall_impl; [exact H|]. intros x [_ Hx] ->. by vm_compute in Hx.
  - assert (H : Forall (fun x => u8 x /\ is_ x TARGET || (x =? 92) = true) b) by (by apply Forall_and).
    eapply Forall_impl; [exact H|]. intros x [_ Hx] ->. by vm_compute in Hx.
Qed.

Lemma request_text_whole r : good_request r -> Forall u8 (render r) -> whole_line (request_text r).
Proof.
  intros Hg Hu. pose proof Hg as ((Hne & Hm) & Ht & _ & _).
  pose proof Hu as Hu0. rewrite <- (app_nil_r (render r)) in Hu0. destruct (render_u8 r [] Hu0) as [Htu _].
  unfold render, render_request_line in Hu. apply Forall_app in Hu as [Hu _]. apply Forall_app in Hu as [Hmu _].
  unfold request_text. split; [by destruct (rq_method r)|].
  apply Forall_app. split; [by apply token_no_lf|]. constructor; [lia|]. apply Forall_app. split; [by apply target_no_lf|].
  constructor; [lia|]. by destruct (rq_http10 r); repeat constructor.
Qed.

Lemma header_lines_render r : good_request r -> Forall u8 (render r) ->
  header_lines (render r) = request_text r :: map line_text (rq_lines r).
Proof.
  intros Hg Hu. rewrite render_text. apply header_lines_crlf. constructor; [by apply request_text_whole|].
  pose proof Hu as Hu0. rewrite <- (app_nil_r (render r)) in Hu0. destruct (render_u8 r [] Hu0) as [_ Hl].
  destruct Hg as (_ & _ & _ & Hg). apply Forall_fmap. eapply Forall_impl; [exact (proj2 (Forall_and _ _) (conj Hg Hl))|].
  intros l [? ?]. by apply line_text_whole.
Qed.

(** What the slow path writes for a line. *)
Definition slow_line (nom : list (list Z)) (keep : bool) (origin : option OriginForm) (l : line) : list Z :=
  let strip := if eq_ignore_ascii_case l.1 (bs "upgrade") then negb keep
               else is_hop_by_hop_request_header l.1 || existsb (eq_ignore_ascii_case l.1) nom in
  let plain := if strip then [] else render_line l in
  match origin with
  | Some o => if hosts l then put_host (authority o) else plain
  | None => plain
  end.

Lemma memchr_colon l : good_line l -> u8_line l -> memchr 58 (line_text l) = Some (length l.1).
Proof. intros [[_ Hn] _] [Hu _]. rewrite memchr_find_byte. apply find_byte_app_r. by apply token_no_colon. Qed.

Lemma forward_line_text nom keep origin l : good_line l -> u8_line l ->
  forward_line nom keep origin (line_text l) = slow_line nom keep origin l.
Proof.
  intros Hg Hu. unfold forward_line, slow_line, hosts. rewrite memchr_colon by done.
  assert (take (length l.1) (line_text l) = l.1) as -> by apply take_app_length. by rewrite <- render_line_text.
Qed.

Definition first_text (r : request) (path : option (list Z)) : list Z :=
  match path with Some p => put_request_line (request_text r) p None | None => request_text r end.

Lemma slow_writes r path keep origin fwd : good_request r -> Forall u8 (render r) ->
  assemble_forward_headers_slow (render r) path keep origin fwd =
  first_text r path ++ CRLF_ ++ concat (map (slow_line (nominated (render r)) keep origin) (rq_lines r))
  ++ append_forward_headers fwd keep origin ++ CRLF_.
Proof.
  intros Hg Hu. unfold assemble_forward_headers_slow. set (nom := nominated (render r)).
  rewrite header_lines_render by done. fold (first_text r path). rewrite <- !app_assoc. do 2 f_equal.
  rewrite map_map. f_equal. f_equal.
  pose proof Hu as Hu0. rewrite <- (app_nil_r (render r)) in Hu0. destruct (render_u8 r [] Hu0) as [_ Hl].
  destruct Hg as (_ & _ & _ & Hg). apply map_ext_Forall.
  eapply Forall_impl; [exact (proj2 (Forall_and _ _) (conj Hg Hl))|]. intros l [? ?]. by apply forward_line_text.
Qed.

End Writers.

(** ** The fast path *)

Section Fast.
Context `{MC : Memchr} `{AR : Arch}.

Lemma lower_colon x : to_ascii_lowercase x = 58 -> x = 58.
Proof. unfold to_ascii_lowercase, is_ascii_uppercase. destruct (_ && _) eqn:E; bool_simpl; lia. Qed.

Lemma hosts_prefix l : Forall (fun b => b <> 58) l.1 ->
  (5 <=? length (render_line l))%nat && eq_ignore_ascii_case (take 5 (render_line l)) (bs "host:") = hosts l.
Proof.
  intros Hn. unfold hosts. apply eq_true_iff_eq. rewrite andb_true_iff, Nat.leb_le, !eq_ignore_ascii_case_spec.
  rewrite length_render_line. unfold render_line. destruct l as [n v]. cbn [fst snd] in *.
  change (lowercase (bs "host:")) with [104; 111; 115; 116; 58]. change (lowercase (bs "host")) with [104; 111; 115; 116].
  split.
  - intros [_ H]. destruct n as [|a [|b [|c [|d [|e n]]]]]; cbn [take app lowercase map] in H |- *;
      injection H; intros; subst; try done; try congruence.
    exfalso. rewrite !Forall_cons in Hn. apply Hn. by apply lower_colon.
  - intros H. pose proof (length_lowercase n) as Hl. rewrite H in Hl. cbn [length] in Hl. split; [lia|].
    change (58 :: v ++ CRLF_) with ([58] ++ v ++ CRLF_). rewrite app_assoc.
    replace 5%nat with (length (n ++ [58])) by (rewrite length_app; cbn; lia).
    rewrite take_app_length, lowercase_app, H. done.
Qed.

Lemma render_line_shape l : good_line l -> u8_line l ->
  render_line l = (line_text l ++ [13]) ++ [10] /\ Forall (fun x => x <> 10) (line_text l ++ [13]).
Proof.
  intros Hg Hu. split; [rewrite render_line_text, <- app_assoc; done|].
  apply Forall_app. split; [by apply line_text_whole|]. by repeat constructor.
Qed.

Lemma host_line_from_lines raw start ls fuel :
  drop start raw = render_lines ls ++ CRLF_ -> Forall good_line ls -> Forall u8_line ls ->
  (length ls + 1 < fuel)%nat -> Z.of_nat (length raw) < 4294967296 -> (start <= length raw)%nat ->
  option_map span_nat (host_line_from fuel raw start) = head (spans_of hosts start ls).
Proof.
  intros Hd Hg. revert start fuel Hd. induction Hg as [|l ls Hl Hg IH]; intros start fuel Hd Hu Hf Hraw Hst;
    (destruct fuel as [|fuel]; [lia|]); cbn [host_line_from spans_of]; rewrite memchr_find_byte.
  - cbn [render_lines map concat app] in Hd. rewrite Hd. cbn [find_byte Z.eqb Pos.eqb fmap option_fmap option_map].
    assert (Hlen : length raw = (start + 2)%nat).
    { apply (f_equal length) in Hd. rewrite length_drop in Hd. cbn in Hd. lia. }
    assert (slice start (start + 1 + 1) raw = CRLF_) as ->.
    { unfold slice. rewrite Hd. replace (start + 1 + 1 - start)%nat with 2%nat by lia. done. }
    cbn [length Nat.leb andb]. destruct fuel as [|fuel]; [done|]. cbn [host_line_from].
    rewrite memchr_find_byte, (drop_ge raw) by lia. done.
  - inversion Hu as [|? ? Hul Hu']; subst. destruct (render_line_shape l Hl Hul) as [Hsh Hlf].
    unfold render_lines in Hd. cbn [map concat] in Hd. fold (render_lines ls) in Hd. rewrite <- app_assoc in Hd.
    pose proof (length_render_line l) as Hll.
    assert (Hd' : drop (start + length (render_line l)) raw = render_lines ls ++ CRLF_).
    { rewrite <- drop_drop, Hd. apply drop_app_length. }
    assert (Hlen : (start + length (render_line l) <= length raw)%nat).
    { apply (f_equal length) in Hd. rewrite length_drop, length_app in Hd. lia. }
    assert (Hfb : find_byte 10 (drop start raw) = Some (length (line_text l ++ [13]))).
    { rewrite Hd, Hsh, <- app_assoc. by apply find_byte_app_r. }
    rewrite Hfb.
    replace (start + length (line_text l ++ [13%Z]) + 1)%nat with (start + length (render_line l))%nat
      by (rewrite Hsh, (length_app (_ ++ _)); cbn; lia).
    assert (slice start (start + length (render_line l)) raw = render_line l) as ->.
    { unfold slice. rewrite Hd. replace (_ - _)%nat with (length (render_line l)) by lia. apply take_app_length. }
    rewrite hosts_prefix by (apply token_no_colon; [apply Hul|apply Hl]).
    destruct (hosts l); [cbn [option_map head]; f_equal; apply span_u32; lia|]. apply IH; [done|done|cbn in Hf; lia|done|lia].
Qed.

Lemma request_text_no_cr r : good_request r -> Forall u8 (render r) ->
  find_byte 13 (render r) = Some (length (request_text r)).
Proof.
  intros Hg Hu. unfold render. rewrite render_request_text, <- !app_assoc. apply find_byte_app_r. by apply render_no_cr.
Qed.

Lemma length_request_text r : head_start r = (length (request_text r) + 2)%nat.
Proof. unfold head_start. rewrite render_request_text, length_app. done. Qed.

Lemma find_byte_app_l c a b i : find_byte c a = Some i -> find_byte c (a ++ b) = Some i.
Proof.
  revert i. induction a as [|x a IH]; intros i; cbn; [done|]. destruct (x =? c); [done|].
  destruct (find_byte c a); [|done]. intros [= <-]. by rewrite (IH _ eq_refl).
Qed.

Lemma host_line_render r : good_request r -> Forall u8 (render r) -> Z.of_nat (length (render r)) < 4294967296 ->
  option_map span_nat (host_line (render r)) = head (spans_of hosts (head_start r) (rq_lines r)).
Proof.
  intros Hg Hu Hlen. pose proof (request_text_whole r Hg Hu) as [_ Hlf].
  pose proof Hu as Hu0. rewrite <- (app_nil_r (render r)) in Hu0. destruct (render_u8 r [] Hu0) as [_ Hl].
  assert (Hr : render r = (request_text r ++ [13]) ++ 10 :: render_lines (rq_lines r) ++ CRLF_).
  { unfold render. rewrite render_request_text, <- !app_assoc. done. }
  assert (Hfb : find_byte 10 (render r) = Some (length (request_text r ++ [13]))).
  { rewrite Hr. apply find_byte_app_r. apply Forall_app. split; [done|]. by repeat constructor. }
  unfold host_line. rewrite memchr_find_byte, Hfb.
  assert (Hst : (length (request_text r ++ [13%Z]) + 1)%nat = head_start r).
  { rewrite length_request_text, length_app. cbn. lia. }
  rewrite Hst. pose proof (render_lines_count (rq_lines r)) as Hc.
  assert (Hlr : length (render r) = (head_start r + length (render_lines (rq_lines r)) + 2)%nat).
  { unfold render. rewrite !length_app. unfold head_start. cbn. lia. }
  apply host_line_from_lines; [|apply Hg|exact Hl|pose proof (length_request_text r); lia|done|lia].
  unfold render, head_start. apply drop_app_length.
Qed.

(** The origin the writers are given: none, or one with the head's Host
    line. *)
Definition origin_of_head (r : request) (origin : option OriginForm) : Prop :=
  match origin with Some o => of_host_line o = host_line (render r) | None => True end.

Definition cut_line (keep : bool) (origin : option OriginForm) (l : line) : bool :=
  (negb keep && upgrades l) || (is_some origin && hosts l).

Definition fast_line (keep : bool) (origin : option OriginForm) (l : line) : list Z :=
  gap_line origin spanned (cut_line keep origin) (fun l => is_some origin && hosts l) l.

Lemma filter_hosts ls : length (List.filter hosts ls) = length (values (bs "host") ls).
Proof.
  unfold values. rewrite length_map. induction ls as [|l ls IH]; [done|]. cbn [List.filter]. rewrite filter_cons.
  assert (hosts l = bool_decide (lowercase l.1 = bs "host")) as ->.
  { apply eq_true_iff_eq. unfold hosts. by rewrite eq_ignore_ascii_case_spec, bool_decide_eq_true. }
  case_bool_decide; case_decide; try done; cbn [length]; by rewrite IH.
Qed.

Lemma hosts_kept l : Forall u8 l.1 -> hosts l = true -> line_kind l = Keep.
Proof.
  intros Hu H. unfold line_kind, field_line. rewrite !named_exact by done. unfold hosts in H.
  apply eq_ignore_ascii_case_spec in H. rewrite bool_decide_eq_true_2 by done. by destruct (split_host _).
Qed.

Lemma fast_writes r path keep origin fwd :
  good_request r -> unambiguous r -> Forall u8 (render r) -> Z.of_nat (length (render r)) < 4294967296 ->
  origin_of_head r origin ->
  needs_slow_path (h_spans (lines_state r)) = false -> f_slow (fields (lines_state r)) = false ->
  assemble_forward_headers (render r) path (slow (h_spans (lines_state r)) (f_slow (fields (lines_state r))))
    (h_upgrade_span (lines_state r)) keep origin fwd =
  first_text r path ++ CRLF_ ++ concat (map (fast_line keep origin) (rq_lines r))
  ++ append_forward_headers fwd keep origin ++ CRLF_.
Proof.
  intros Hg Hun Hu Hlen Ho Hs1 Hs2.
  pose proof Hu as Hu0. rewrite <- (app_nil_r (render r)) in Hu0. destruct (render_u8 r [] Hu0) as [_ Hl].
  destruct (lines_state_ok r Hun Hl) as (Hv & _ & _).
  assert (Hn : Forall (fun l : line => Forall u8 l.1) (rq_lines r)) by (eapply Forall_impl; [exact Hl|]; by intros l [? _]).
  assert (Hlr : length (render r) = (head_start r + length (render_lines (rq_lines r)) + 2)%nat).
  { unfold render. rewrite !length_app. unfold head_start. cbn. lia. }
  set (st := lines_state r) in *.
  destruct (run_lines_spans _ _ _ Hv Hs1) as [_ Hsp]; [cbn [head_init pos]; fold (head_start r); lia|].
  destruct (run_lines_upgrades _ _ _ Hn Hv Hs2) as (_ & Hup & Hcnt & _); [cbn [head_init pos]; fold (head_start r); lia|].
  fold (lines_state r) st in Hsp, Hup. cbn [head_init pos h_spans h_upgrade_span fields] in Hsp, Hup, Hcnt.
  fold (head_start r) in Hsp, Hup, Hcnt. cbn in Hcnt.
  set (up := fun l => negb keep && upgrades l). set (ho := fun l => is_some origin && hosts l).
  assert (Hup1 : (length (spans_of up (head_start r) (rq_lines r)) <= 1)%nat).
  { unfold up. destruct keep; cbn [negb andb]; [|exact Hcnt]. rewrite spans_of_none; [cbn; lia|]. by apply Forall_true. }
  assert (Hho1 : (length (spans_of ho (head_start r) (rq_lines r)) <= 1)%nat).
  { unfold ho. destruct origin; cbn [is_some andb]; [|rewrite spans_of_none; [cbn; lia|by apply Forall_true]].
    rewrite length_spans_of. setoid_rewrite filter_hosts. destruct Hun as [_ U _ _].
    destruct (values _ _) as [|? [|? ?]]; cbn; [lia|lia|done]. }
  assert (Hstrip : (if keep then None else option_map span_nat (h_upgrade_span st)) = head (spans_of up (head_start r) (rq_lines r))).
  { unfold up. destruct keep; cbn [negb andb]; [rewrite spans_of_none; [done|by apply Forall_true]|].
    rewrite Hup. change (fun l => upgrades l) with upgrades. by destruct (spans_of upgrades _ _). }
  assert (Hhost : (match origin with Some o => option_map span_nat (of_host_line o) | None => None end)
                  = head (spans_of ho (head_start r) (rq_lines r))).
  { unfold ho. destruct origin as [o|]; cbn [is_some andb]; [|rewrite spans_of_none; [done|by apply Forall_true]].
    cbn [origin_of_head] in Ho. rewrite Ho. by apply host_line_render. }
  unfold assemble_forward_headers. rewrite Hstrip, Hhost.
  assert (Hdis : Forall (fun l => spanned l = true -> cut_line keep origin l = false) (rq_lines r)).
  { eapply Forall_impl; [exact Hn|]. intros l Hul Hsl. unfold cut_line, spanned, upgrades in *.
    destruct (hosts l) eqn:Eh; [by rewrite (hosts_kept l Hul Eh) in Hsl|].
    destruct (line_kind l); [done| |done]. by rewrite !andb_false_r. }
  rewrite <- (spans_of_merge up ho); [|eapply Forall_impl; [exact Hn|]|done|done].
  2: { intros l Hul. unfold up, ho, upgrades. intros H. destruct (hosts l) eqn:Eh; [|by rewrite andb_false_r].
       by rewrite (hosts_kept l Hul Eh), andb_false_r in H. }
  change (spans_iter (slow (h_spans st) (f_slow (fields st)))) with (spans_iter (h_spans st)). rewrite Hsp. cbn [spans_iter spans StripSpans_default map app].
  change (fun l => up l || ho l) with (cut_line keep origin).
  replace (length (render r) - 2)%nat with (head_start r + length (render_lines (rq_lines r)))%nat by lia.
  assert (Hdrop : drop (head_start r) (render r) = render_lines (rq_lines r) ++ CRLF_).
  { unfold render, head_start. apply drop_app_length. }
  pose proof (length_request_text r) as Hht. unfold first_text.
  destruct path as [p|].
  - rewrite memchr_find_byte, request_text_no_cr by done. cbn [default from_option id].
    rewrite (copy_gaps_lines _ _ _ spanned (cut_line keep origin) ho _ _ _ CRLF_ Hdis (marks_unique _ _ _ Hho1)) by (done || lia).
    assert (Hsplit : render r = request_text r ++ CRLF_ ++ render_lines (rq_lines r) ++ CRLF_).
    { unfold render. by rewrite render_request_text, <- app_assoc. }
    rewrite Hsplit at 1. rewrite take_app_length, <- !app_assoc. f_equal.
    rewrite Hsplit, Hht. by rewrite (slice_app_mid (request_text r) CRLF_).
  - rewrite (copy_gaps_lines _ _ _ spanned (cut_line keep origin) ho _ _ _ CRLF_ Hdis (marks_unique _ _ _ Hho1)) by (done || lia).
    rewrite app_nil_l, <- !app_assoc. change (13 :: 10 :: ?x) with (CRLF_ ++ x).
    rewrite (app_assoc (request_text r)), <- render_request_text. f_equal.
    exact (slice_app_mid [] (render_request_line r) _).
Qed.

End Fast.

(** ** The two writers agree *)

(** Headers that go whatever the Connection field says. *)
Definition claim_names : list (list Z) :=
  [bs "forwarded"; bs "x-forwarded-ssl"; bs "x-forwarded-host"; bs "x-forwarded-port"; bs "x-forwarded-proto";
   bs "x-forwarded-scheme"].
Definition hop_names : list (list Z) :=
  [bs "connection"; bs "keep-alive"; bs "proxy-connection"; bs "te"; bs "trailer"; bs "expect"; bs "http2-settings"].

Lemma eqi_lower name s : lowercase s = s -> eq_ignore_ascii_case name s = bool_decide (lowercase name = s).
Proof. intros Hs. apply eq_true_iff_eq. by rewrite eq_ignore_ascii_case_spec, bool_decide_eq_true, Hs. Qed.

Lemma opens_lower name s n c : Forall u8 name -> lowercase name = s -> length s = n -> head s = Some c ->
  is_ascii_lowercase c = true -> opens name n c = true.
Proof.
  intros Hu <- <- Hh Hc. unfold opens. rewrite length_lowercase, Nat.eqb_refl. cbn [andb].
  destruct Hu as [|x name Hx _]; [done|]. cbn in Hh. injection Hh as Hh. apply Z.eqb_eq. by apply lower_or32.
Qed.

Lemma opens_length name n c : opens name n c = true -> length (lowercase name) = n.
Proof. unfold opens. intros [H _]%andb_true_iff. rewrite length_lowercase. by apply Nat.eqb_eq. Qed.

Lemma is_forwarding_claim_exact name : Forall u8 name ->
  is_forwarding_claim name = bool_decide (lowercase name ∈ claim_names).
Proof.
  intros Hu. apply eq_true_iff_eq. rewrite bool_decide_eq_true. unfold is_forwarding_claim. rewrite !eqi_lower by done.
  split.
  - unfold claim_names. intros H.
    repeat match type of H with (if ?b then _ else _) = true => destruct b end; try done;
      rewrite ?orb_true_iff, ?bool_decide_eq_true in H; set_solver.
  - unfold claim_names. rewrite !elem_of_cons, elem_of_nil. intros H.
    destruct_or! H; try done; rewrite H;
      repeat match goal with |- context [opens name ?n ?c] =>
        let E := fresh in destruct (opens name n c) eqn:E;
        [first [reflexivity | apply opens_length in E; rewrite H in E; discriminate E]|] end;
      match goal with E : opens name ?n ?c = false |- _ =>
        rewrite (opens_lower name _ n c Hu H eq_refl eq_refl eq_refl) in E; discriminate E end.
Qed.

Lemma is_hop_exact name : Forall u8 name ->
  is_hop_by_hop_request_header name = bool_decide (lowercase name ∈ hop_names ++ claim_names).
Proof.
  intros Hu. apply eq_true_iff_eq. unfold is_hop_by_hop_request_header.
  rewrite is_forwarding_claim_exact, !eqi_lower, !bool_decide_eq_true by done. split.
  - unfold hop_names. intros H. destruct (first_lower name) as [c|]; [|done].
    repeat match type of H with (if ?b then _ else _) = true => destruct b end; try done;
      rewrite ?orb_true_iff, ?bool_decide_eq_true in H; set_solver.
  - intros H. assert (first_lower name = head (lowercase name)) as -> by (by destruct name).
    unfold hop_names, claim_names in H. cbn [app] in H. rewrite !elem_of_cons, elem_of_nil in H.
    destruct_or! H; try done; rewrite H; vm_compute; reflexivity.
Qed.

(** ** Nominated headers *)

Section Trim.

Lemma trim_ows_app_l a p : Forall (fun b => is_ows b = true) a -> trim_ows (a ++ p) = trim_ows p.
Proof.
  intros Ha. unfold trim_ows. rewrite span_len_app_all by done.
  assert (drop (length a + span_len is_ows p) (a ++ p) = drop (span_len is_ows p) p) as ->; [|done].
  by rewrite <- drop_drop, drop_app_length.
Qed.

Lemma trim_ows_none p : Forall (fun b => is_ows b = true) p -> trim_ows p = [].
Proof. intros Hp. unfold trim_ows. by rewrite span_len_all, drop_all, take_nil. Qed.

Lemma trim_ows_app_r p b : Forall (fun b => is_ows b = true) b -> trim_ows (p ++ b) = trim_ows p.
Proof.
  intros Hb. destruct (span_len_split is_ows p) as (w & q & -> & _ & Hw & Hq).
  rewrite <- app_assoc, (trim_ows_app_l w (q ++ b)), (trim_ows_app_l w q) by done. destruct q as [|x q]; [cbn [app]; by rewrite (trim_ows_none b Hb)|].
  unfold trim_ows. cbn [app span_len]. rewrite Hq. cbn [drop].
  change (x :: q ++ b) with ((x :: q) ++ b). rewrite rev_app_distr.
  rewrite span_len_app_all by (by apply Forall_rev). rewrite length_rev, length_app.
  pose proof (span_len_le is_ows (rev (x :: q))) as Hle. rewrite length_rev in Hle.
  rewrite take_app_le by lia. f_equal. lia.
Qed.

(** What [trim_ows] takes off. *)
Lemma trim_ows_shape v : exists a b, v = a ++ trim_ows v ++ b /\
  Forall (fun x => is_ows x = true) a /\ Forall (fun x => is_ows x = true) b.
Proof.
  unfold trim_ows. set (w := drop (span_len is_ows v) v). set (k := span_len is_ows (rev w)).
  exists (take (span_len is_ows v) v), (drop (length w - k) w). rewrite take_drop. unfold w at 1. rewrite take_drop.
  split; [done|]. split; [apply span_len_take|].
  assert (rev (take k (rev w)) = drop (length w - k) w) as <-.
  { by rewrite firstn_skipn_rev, !rev_involutive, length_rev. }
  apply Forall_rev, span_len_take.
Qed.

Lemma split_on_app_l c a l : Forall (fun x => x <> c) a ->
  split_on c (a ++ l) = match split_on c l with p :: r => (a ++ p) :: r | [] => [a] end.
Proof.
  intros Ha. destruct (split_on c l) as [|p r] eqn:E; [by apply split_on_ne in E|].
  induction Ha as [|x a Hx _ IH]; cbn [app split_on]; [done|]. apply Z.eqb_neq in Hx. by rewrite Hx, IH.
Qed.

Lemma split_on_app_r c l b : Forall (fun x => x <> c) b ->
  exists ps p, split_on c l = ps ++ [p] /\ split_on c (l ++ b) = ps ++ [p ++ b].
Proof.
  intros Hb. induction l as [|x l (ps & p & E1 & E2)]; cbn [app split_on].
  - exists [], []. by rewrite split_on_no_sep.
  - destruct (x =? c); [exists ([] :: ps), p; by rewrite E1, E2|]. rewrite E1, E2.
    destruct ps as [|q ps]; [by exists [], (x :: p)|]. by exists ((x :: q) :: ps), p.
Qed.

Lemma ows_no_comma a : Forall (fun x => is_ows x = true) a -> Forall (fun x => x <> 44) a.
Proof. intros H. eapply Forall_impl; [exact H|]. intros x Hx ->. done. Qed.

(** Trimming a value first does not change its trimmed tokens. *)
Lemma tokens_of_trimmed v : map trim_ows (split_on 44 (trim_ows v)) = map trim_ows (split_on 44 v).
Proof.
  destruct (trim_ows_shape v) as (a & b & Hv & Ha & Hb). rewrite Hv at 2.
  rewrite split_on_app_l by (by apply ows_no_comma).
  destruct (split_on_app_r 44 (trim_ows v) b) as (ps & p & E1 & E2); [by apply ows_no_comma|]. rewrite E1, E2.
  assert (H : map trim_ows (ps ++ [p ++ b]) = map trim_ows (ps ++ [p])).
  { rewrite !map_app. cbn [map]. by rewrite trim_ows_app_r. }
  rewrite <- H. by destruct ps; cbn [app map]; rewrite (trim_ows_app_l a _ Ha).
Qed.

(** On ASCII text without control white space, [str::trim] is [trim_ows]. *)
Definition plain (x : Z) : Prop := 0 <= x < 128 /\ ~ (10 <= x <= 13).

Lemma ws_len_plain x l : plain x -> ws_len (x :: l) = if is_ows x then 1%nat else 0%nat.
Proof.
  intros [Hx Hc]. unfold ws_len, is_ows.
  assert (((9 <=? x) && (x <=? 13)) || (x =? 32) = (x =? 32) || (x =? 9)) as -> by lia.
  destruct ((x =? 32) || (x =? 9)) eqn:E; [done|].
  assert ((x =? 194) = false) as -> by lia. assert ((x =? 225) = false) as -> by lia.
  assert ((x =? 226) = false) as -> by lia. assert ((x =? 227) = false) as -> by lia. cbn [andb orb].
  by destruct l as [|? [|? ?]].
Qed.

Lemma trim_start_plain fuel l : Forall plain l -> (length l <= fuel)%nat -> trim_start fuel l = drop (span_len is_ows l) l.
Proof.
  intros Hl. revert fuel. induction Hl as [|x l Hx Hl IH]; intros fuel Hf; [by destruct fuel|].
  destruct fuel as [|fuel]; [cbn in Hf; lia|]. cbn [trim_start span_len]. rewrite ws_len_plain by done.
  destruct (is_ows x); [|done]. cbn [drop]. apply IH. cbn in Hf. lia.
Qed.

Lemma ws_len_back_plain l x : Forall plain l -> plain x -> ws_len_back (l ++ [x]) = if is_ows x then 1%nat else 0%nat.
Proof.
  intros Hl Hx. unfold ws_len_back.
  assert (Hends : forall n, (1 < n)%nat -> (n <=? length (l ++ [x]))%nat && (ws_len (drop (length (l ++ [x]) - n) (l ++ [x])) =? n)%nat = false).
  { intros n Hn. apply andb_false_iff. destruct (Nat.leb_spec n (length (l ++ [x]))) as [Hle|]; [|by left]. right.
    assert (Hall : Forall plain (drop (length (l ++ [x]) - n) (l ++ [x]))).
    { apply Forall_drop, Forall_app. split; [done|]. by constructor. }
    apply Nat.eqb_neq. destruct Hall as [|y t Hy _]; [cbn; lia|]. rewrite ws_len_plain by done. destruct (is_ows y); lia. }
  cbv zeta beta. rewrite (Hends 2%nat), (Hends 3%nat) by lia. rewrite length_app. cbn [length]. replace (length l + 1 - 1)%nat with (length l) by lia.
  rewrite drop_app_length, ws_len_plain by done. destruct (Nat.leb_spec 1 (length l + 1)); [|lia]. by destruct (is_ows x).
Qed.

Lemma trim_end_plain fuel l : Forall plain l -> (length l <= fuel)%nat ->
  trim_end fuel l = take (length l - span_len is_ows (rev l)) l.
Proof.
  revert fuel. induction l as [|x l IH] using rev_ind; intros fuel Hl Hf; [by destruct fuel|].
  apply Forall_app in Hl as [Hl Hx]. inversion Hx as [|? ? Hx' _]; subst. rewrite length_app in *. cbn [length] in *.
  destruct fuel as [|fuel]; [lia|]. cbn [trim_end]. rewrite ws_len_back_plain, rev_unit by done. cbn [span_len].
  destruct (is_ows x).
  - rewrite length_app. cbn [length]. replace (length l + 1 - 1)%nat with (length l) by lia.
    rewrite take_app_length, IH by (done || lia). rewrite take_app_le by lia. f_equal. lia.
  - rewrite Nat.sub_0_r, take_ge; [done|]. rewrite length_app. cbn. lia.
Qed.

Lemma str_trim_plain l : Forall plain l -> str_trim l = trim_ows l.
Proof.
  intros Hl. unfold str_trim, trim_ows. rewrite trim_start_plain by (done || lia). cbv zeta.
  rewrite trim_end_plain; [done| |done]. by apply Forall_drop.
Qed.

End Trim.

Section Agree.
Context `{MC : Memchr} `{AR : Arch}.

Lemma spanned_exact l : Forall u8 l.1 ->
  spanned l = bool_decide (lowercase l.1 ∈ hop_names ++ claim_names)
              || (bool_decide (lowercase l.1 = bs "upgrade") && offers_h2c l.2).
Proof.
  intros Hu. unfold spanned, line_kind, field_line. rewrite !named_exact, is_forwarding_claim_exact by done.
  destruct (decide (lowercase l.1 ∈ hop_names ++ claim_names)) as [Hin|Hout].
  - rewrite (bool_decide_eq_true_2 (lowercase l.1 ∈ hop_names ++ claim_names)) by done.
    unfold hop_names, claim_names in *. cbn [app] in Hin. rewrite !elem_of_cons, elem_of_nil in Hin.
    destruct_or! Hin; try done; rewrite Hin; by vm_compute.
  - rewrite (bool_decide_eq_false_2 (lowercase l.1 ∈ hop_names ++ claim_names)) by done.
    apply not_elem_of_app in Hout as [Hh Hc].
    rewrite (bool_decide_eq_false_2 (lowercase l.1 ∈ claim_names)) by done. unfold hop_names in Hh.
    rewrite !not_elem_of_cons in Hh. destruct Hh as (N1 & N2 & N3 & N4 & N5 & N6 & N7 & _).
    rewrite (bool_decide_eq_false_2 _ N1), (bool_decide_eq_false_2 _ N2), (bool_decide_eq_false_2 _ N3), (bool_decide_eq_false_2 _ N4),
      (bool_decide_eq_false_2 _ N5), (bool_decide_eq_false_2 _ N6), (bool_decide_eq_false_2 _ N7). cbn [orb].
    destruct (bool_decide (lowercase l.1 = bs "host")) eqn:E1; bool_simpl; [rewrite E1; by destruct (split_host _)|].
    destruct (bool_decide (lowercase l.1 = bs "content-length")) eqn:E2; bool_simpl; [rewrite E2; by destruct (parse_digits _)|].
    destruct (bool_decide (lowercase l.1 = bs "transfer-encoding")) eqn:E3; bool_simpl; [rewrite E3; by destruct (eq_ignore_ascii_case (trim_ows l.2) _)|].
    by destruct (bool_decide (lowercase l.1 = bs "upgrade")), (offers_h2c l.2).
Qed.

Lemma upgrades_exact l : Forall u8 l.1 ->
  upgrades l = bool_decide (lowercase l.1 = bs "upgrade") && negb (offers_h2c l.2).
Proof.
  intros Hu. unfold upgrades, line_kind, field_line. rewrite !named_exact by done.
  destruct (decide (lowercase l.1 = bs "upgrade")) as [E|N].
  - rewrite E. vm_compute bool_decide. by destruct (offers_h2c l.2).
  - rewrite (bool_decide_eq_false_2 _ N). cbn [andb]. repeat (case_match; try done).
Qed.

(** The names the slow path strips on Connection's word alone. *)
Definition mild_names : list (list Z) := [bs "close"; bs "keep-alive"; bs "upgrade"; bs "http2-settings"].

Lemma header_value_if_text l name : good_line l -> u8_line l ->
  header_value_if (line_text l) name =
  if eq_ignore_ascii_case l.1 name then option_map str_trim (from_utf8 l.2) else None.
Proof.
  intros Hg Hu. unfold header_value_if. rewrite memchr_colon by done.
  assert (take (length l.1) (line_text l) = l.1) as -> by apply take_app_length.
  assert (drop (length l.1 + 1) (line_text l) = l.2) as ->.
  { unfold line_text. by rewrite <- drop_drop, drop_app_length. }
  by destruct (eq_ignore_ascii_case l.1 name).
Qed.

(** The request line nominates nothing. *)
Lemma header_value_if_request r : good_request r -> Forall u8 (render r) ->
  header_value_if (request_text r) (bs "connection") = None.
Proof.
  intros ((_ & Hm) & _) Hu. unfold render, render_request_line in Hu. apply Forall_app in Hu as [Hu _].
  apply Forall_app in Hu as [Hmu _]. pose proof (token_no_colon _ Hmu Hm) as Hnc.
  unfold header_value_if. rewrite memchr_find_byte. destruct (find_byte 58 (request_text r)) as [i|] eqn:E; [|done].
  destruct (eq_ignore_ascii_case (take i (request_text r)) (bs "connection")) eqn:Ee; [|done]. exfalso.
  apply find_byte_Some in E as [Hi _]. unfold request_text in Hi, Ee.
  assert (Hge : (length (rq_method r) < i)%nat).
  { destruct (Nat.lt_trichotomy i (length (rq_method r))) as [Hlt|[->|]]; [| |done].
    - rewrite lookup_app_l in Hi by done. rewrite Forall_lookup in Hnc. by destruct (Hnc i 58).
    - by rewrite list_lookup_middle in Hi. }
  apply eq_ignore_ascii_case_spec in Ee. assert (Hin : 32 ∈ lowercase (bs "connection")).
  { rewrite <- Ee. unfold lowercase. apply list_elem_of_fmap. exists 32. split; [done|].
    apply (list_elem_of_lookup_2 _ (length (rq_method r))). rewrite lookup_take_lt by done. by apply list_lookup_middle. }
  revert Hin. apply (bool_decide_eq_false_1 _). by vm_compute.
Qed.

Lemma split_on_covers c l x : x ∈ l -> x = c \/ exists p, p ∈ split_on c l /\ x ∈ p.
Proof.
  induction l as [|y l IH]; [by intros ?%elem_of_nil|]. cbn [split_on]. intros [->|Hx]%elem_of_cons.
  - destruct (Z.eqb_spec y c); [by left|]. right. destruct (split_on c l) as [|p r]; [exists [y]|exists (y :: p)]; rewrite !elem_of_cons; auto.
  - destruct (IH Hx) as [->|(p & Hp & Hin)]; [by left|]. right. destruct (y =? c); [exists p; rewrite elem_of_cons; auto|].
    destruct (split_on c l) as [|q r]; [by apply elem_of_nil in Hp|].
    apply elem_of_cons in Hp as [->|Hp]; [exists (y :: q)|exists p]; rewrite !elem_of_cons; auto.
Qed.

Lemma split_on_elem c l p x : p ∈ split_on c l -> x ∈ p -> x ∈ l.
Proof.
  revert p. induction l as [|y l IH]; intros p; cbn [split_on].
  { intros ->%list_elem_of_singleton. done. }
  intros Hp Hx. apply elem_of_cons. destruct (y =? c).
  { apply elem_of_cons in Hp as [->|Hp]; [by apply elem_of_nil in Hx|right; by apply (IH p)]. }
  destruct (split_on c l) as [|q r].
  { apply list_elem_of_singleton in Hp as ->. apply list_elem_of_singleton in Hx as ->. by left. }
  apply elem_of_cons in Hp as [->|Hp].
  - apply elem_of_cons in Hx as [->|Hx]; [by left|right]. apply (IH q); [by apply elem_of_cons; left|done].
  - right. apply (IH p); [by apply elem_of_cons; right|done].
Qed.

Lemma mild_byte tok x : mild_token tok -> x ∈ tok -> is_ows x = true \/ x < 128.
Proof.
  intros Hm Hx. destruct (trim_ows_shape tok) as (a & b & Ht & Ha & Hb). rewrite Ht in Hx.
  rewrite Forall_forall in Ha, Hb. rewrite !elem_of_app in Hx. destruct Hx as [Hx|[Hx|Hx]]; [by left; apply Ha| |by left; apply Hb].
  right. assert (Hl : to_ascii_lowercase x ∈ lowercase (trim_ows tok)) by (apply list_elem_of_fmap; eauto).
  assert (Hall : Forall (Forall (fun b => b < 128)) ([] :: mild_names)) by (repeat constructor).
  rewrite Forall_forall in Hall. specialize (Hall _ Hm). rewrite Forall_forall in Hall. apply Hall in Hl.
  unfold to_ascii_lowercase, is_ascii_uppercase in Hl. destruct (_ && _) eqn:E in Hl; bool_simpl; lia.
Qed.

Lemma mild_plain v : Forall u8 v -> Forall (fun b => is_ b VALUE = true) v -> Forall mild_token (split_on 44 v) ->
  Forall plain v.
Proof.
  intros Hu Hv Hm. rewrite Forall_forall in Hu. rewrite Forall_forall in Hv. rewrite Forall_forall in Hm. apply Forall_forall. intros x Hx. specialize (Hu x Hx). specialize (Hv x Hx).
  rewrite is_value_spec in Hv by done. red in Hu. unfold plain.
  assert (x < 128); [|lia]. destruct (split_on_covers 44 v x Hx) as [->|(p & Hp & Hxp)]; [lia|].
  destruct (mild_byte p x (Hm p Hp) Hxp) as [Ho|]; [|done]. unfold is_ows in Ho. lia.
Qed.

(** A value the fast path takes nominates nothing else. *)
Lemma mild_nominates v toks : Forall u8 v -> Forall (fun b => is_ b VALUE = true) v -> Forall mild_token (split_on 44 v) ->
  toks = List.filter (fun t => negb (is_nil t)
           && negb (eq_ignore_ascii_case t (bs "content-length") || eq_ignore_ascii_case t (bs "transfer-encoding")
                    || eq_ignore_ascii_case t (bs "host"))) (map str_trim (split_on 44 (str_trim v))) ->
  Forall (fun t => lowercase t ∈ mild_names) toks.
Proof.
  intros Hu Hv Hm ->. pose proof (mild_plain v Hu Hv Hm) as Hp.
  assert (Htr : Forall plain (trim_ows v)) by (unfold trim_ows; by apply Forall_take, Forall_drop).
  assert (Hpieces : Forall (Forall plain) (split_on 44 (trim_ows v))).
  { rewrite Forall_forall in Htr. apply Forall_forall. intros p Hp'. apply Forall_forall. intros x Hx. apply Htr. by apply (split_on_elem 44 _ p). }
  rewrite (str_trim_plain v Hp).
  assert (map str_trim (split_on 44 (trim_ows v)) = map trim_ows (split_on 44 v)) as ->.
  { rewrite <- tokens_of_trimmed. apply map_ext_Forall. eapply Forall_impl; [exact Hpieces|]. apply str_trim_plain. }
  apply Forall_forall. intros t Ht. apply list_elem_of_In, filter_In in Ht as [Ht Hne]. apply list_elem_of_In in Ht.
  apply list_elem_of_fmap in Ht as (tok & -> & Htok). rewrite Forall_forall in Hm. apply Hm in Htok. bool_simpl.
  unfold mild_token in Htok. apply elem_of_cons in Htok as [E|]; [|done].
  destruct (trim_ows tok); done.
Qed.

End Agree.

Section Equal.
Context `{MC : Memchr} `{AR : Arch}.

Lemma finish_recorded rl data th p off st info :
  finish rl data th p off st = Ok info ->
  strip_spans info = slow (h_spans st) (f_slow (fields st)) /\ upgrade_span info = h_upgrade_span st /\
  is_upgrade info = has_upgrade_header (fields st) && connection_has_upgrade (fields st) && negb (offers_h2c_upgrade (fields st)).
Proof.
  unfold finish. destruct (match f_host (fields st) with Some _ => _ | None => _ end) as [host|]; [|done].
  destruct (from_utf8 host); [|done]. destruct (match find_byte 63 p with Some _ => _ | None => _ end) as [p' q'].
  by intros [= <-].
Qed.

(** What the parser hands the writers, and what it says of the lines when
    the fast path is open. *)
Lemma parsed_lines r rest info :
  good_request r -> unambiguous r -> Forall u8 (render r ++ rest) -> Z.of_nat (length (render r)) < 4294967296 ->
  extract_routing_info (render r ++ rest) = Ok info -> needs_slow_path (strip_spans info) = false ->
  strip_spans info = slow (h_spans (lines_state r)) (f_slow (fields (lines_state r))) /\
  upgrade_span info = h_upgrade_span (lines_state r) /\
  needs_slow_path (h_spans (lines_state r)) = false /\ f_slow (fields (lines_state r)) = false /\
  Forall (fun l => lowercase l.1 = bs "connection" -> Forall mild_token (split_on 44 l.2)) (rq_lines r) /\
  (is_upgrade info = true -> Forall (fun l => lowercase l.1 = bs "upgrade" -> spanned l = false) (rq_lines r)).
Proof.
  intros Hg Hun Hu Hlen Hi Hs. rewrite (extract_runs r rest Hg Hun Hu) in Hi.
  apply finish_recorded in Hi as (H1 & H2 & H3). cbn [ended h_spans fields h_upgrade_span] in *.
  rewrite H1 in Hs. unfold slow in Hs. cbn [needs_slow_path] in Hs. apply orb_false_iff in Hs as [Hs1 Hs2].
  destruct (render_u8 r rest Hu) as [_ Hl]. destruct (lines_state_ok r Hun Hl) as (Hv & _ & _).
  assert (Hn : Forall (fun l : line => Forall u8 l.1) (rq_lines r)) by (eapply Forall_impl; [exact Hl|]; by intros l [? _]).
  destruct (run_lines_upgrades _ _ _ Hn Hv Hs2) as (_ & _ & _ & Hoff & Hmild).
  { cbn [head_init pos]. unfold render in Hlen. rewrite !length_app in Hlen. cbn [length] in Hlen. lia. }
  split_and!; try done. rewrite H3. intros Hup. bool_simpl. by apply Hoff.
Qed.

Lemma nominated_mild r :
  good_request r -> Forall u8 (render r) ->
  Forall (fun l => lowercase l.1 = bs "connection" -> Forall mild_token (split_on 44 l.2)) (rq_lines r) ->
  Forall (fun t => lowercase t ∈ mild_names) (nominated (render r)).
Proof.
  intros Hg Hu Hm. unfold nominated. rewrite header_lines_render by done. cbn [map concat].
  rewrite header_value_if_request by done. cbn [app].
  pose proof Hu as Hu0. rewrite <- (app_nil_r (render r)) in Hu0. destruct (render_u8 r [] Hu0) as [_ Hl].
  destruct Hg as (_ & _ & _ & Hg). apply Forall_concat. rewrite map_map. apply Forall_fmap.
  rewrite Forall_forall in Hm, Hg, Hl. apply Forall_forall. intros l Hin. cbn.
  specialize (Hm l Hin). specialize (Hg l Hin). specialize (Hl l Hin). cbv beta in Hl.
  rewrite header_value_if_text by done. destruct (eq_ignore_ascii_case l.1 _) eqn:E; [|constructor].
  apply eq_ignore_ascii_case_spec in E. specialize (Hm E). unfold from_utf8.
  destruct (utf8_valid l.2); cbn [option_map]; [|constructor].
  apply (mild_nominates l.2); [apply Hl|apply Hg|exact Hm|done].
Qed.

Lemma line_agrees nom keep origin l :
  Forall u8 l.1 -> Forall (fun t => lowercase t ∈ mild_names) nom -> lowercase l.1 <> bs "close" ->
  (keep = true -> lowercase l.1 = bs "upgrade" -> spanned l = false) ->
  fast_line keep origin l = slow_line nom keep origin l.
Proof.
  intros Hu Hnom Hclose Hkeep.
  assert (Hn : existsb (eq_ignore_ascii_case l.1) nom = true -> lowercase l.1 ∈ mild_names).
  { intros (t & Ht & He)%existsb_exists. apply list_elem_of_In in Ht. rewrite Forall_forall in Hnom.
    apply eq_ignore_ascii_case_spec in He. rewrite He. by apply Hnom. }
  unfold fast_line, slow_line, gap_line, cut_line. rewrite is_hop_exact, (eqi_lower _ (bs "upgrade")) by done.
  rewrite (upgrades_exact l Hu). unfold spanned in *. destruct (hosts l) eqn:Eh.
  - rewrite (hosts_kept l Hu Eh). unfold hosts in Eh. apply eq_ignore_ascii_case_spec in Eh.
    change (lowercase (bs "host")) with (bs "host") in Eh. rewrite Eh. rewrite (bool_decide_eq_false_2 (bs "host" = _)) by done.
    cbn [andb]. rewrite andb_false_r, andb_true_r. cbn [orb]. destruct origin as [o|]; cbn [is_some]; [done|].
    rewrite bool_decide_eq_false_2 by (apply (bool_decide_eq_false_1 _); by vm_compute).
    destruct (existsb _ nom); [|done]. exfalso. specialize (Hn eq_refl). rewrite Eh in Hn.
    revert Hn. apply (bool_decide_eq_false_1 _). by vm_compute.
  - rewrite andb_false_r, orb_false_r. fold (spanned l) in *. rewrite spanned_exact in * by done.
    assert (Horig : forall x : list Z, match origin with Some o => x | None => x end = x) by (by intros; destruct origin).
    rewrite !Horig.
    destruct (bool_decide (lowercase l.1 = bs "upgrade")) eqn:Eu; bool_simpl.
    + rewrite Eu in *. rewrite (bool_decide_eq_false_2 (bs "upgrade" ∈ _)) in * by (apply (bool_decide_eq_false_1 _); by vm_compute).
      cbn [andb orb] in *. destruct keep; [by rewrite Hkeep|]. by destruct (offers_h2c l.2).
    + cbn [andb]. rewrite orb_false_r, andb_false_r. destruct (bool_decide (_ ∈ _)) eqn:Ein; [done|]. cbn [orb].
      destruct (existsb _ nom); [|done]. exfalso. specialize (Hn eq_refl). bool_simpl.
      unfold mild_names in Hn. rewrite !elem_of_cons, elem_of_nil in Hn. destruct_or! Hn; try done; apply Ein; rewrite Hn;
        apply (bool_decide_eq_true_1 _); by vm_compute.
Qed.

End Equal.

Section Theorems.
Context `{MC : Memchr} `{AR : Arch}.

(** The two ways a head is forwarded are one. For an accepted head the
    parser left to the fast path, copying around the recorded spans writes
    the same bytes as filtering line by line, whatever path replaces the
    request line's and whether the target was absolute. A header called
    [close] is the one a [Connection: close] names that only the slow path
    drops. *)
Theorem fast_path_is_slow_path r rest info path origin fwd :
  good_request r -> unambiguous r -> Forall u8 (render r ++ rest) -> Z.of_nat (length (render r)) < 4294967296 ->
  extract_routing_info (render r ++ rest) = Ok info -> needs_slow_path (strip_spans info) = false ->
  values (bs "close") (rq_lines r) = [] -> origin_of_head r origin ->
  assemble_forward_headers (render r) path (strip_spans info) (upgrade_span info) (is_upgrade info) origin fwd =
  assemble_forward_headers_slow (render r) path (is_upgrade info) origin fwd.
Proof.
  intros Hg Hun Hu Hlen Hi Hs Hclose Ho.
  destruct (parsed_lines r rest info Hg Hun Hu Hlen Hi Hs) as (Hsp & Hus & Hs1 & Hs2 & Hmild & Hup).
  destruct (render_u8 r rest Hu) as [_ Hl]. apply Forall_app in Hu as [Hu _].
  rewrite Hsp, Hus, fast_writes, slow_writes by done. do 3 f_equal. f_equal. apply map_ext_Forall.
  pose proof (nominated_mild r Hg Hu Hmild) as Hnom. rewrite Forall_forall in Hl. apply Forall_forall. intros l Hin.
  destruct (Hl l Hin) as [Hul _]. apply line_agrees; [done|done| |].
  - intros E. assert (l.2 ∈ values (bs "close") (rq_lines r)) as Hc; [|by rewrite Hclose in Hc; apply elem_of_nil in Hc].
    apply list_elem_of_fmap. exists l. split; [done|]. by apply list_elem_of_filter.
  - intros Hk E. specialize (Hup Hk). rewrite Forall_forall in Hup. by apply Hup.
Qed.

End Theorems.

(** ** Witnesses *)

Definition proxied_request : request :=
  {| rq_method := bs "GET"; rq_target := bs "http://h.test/a/../b?q"; rq_http10 := false;
     rq_lines := [(bs "TE", bs " gzip"); (bs "Host", bs " H.test"); (bs "Upgrade", bs " websocket");
                  (bs "X-Forwarded-Proto", bs " https"); (bs "Connection", bs " keep-alive , close"); (bs "Accept", bs " */*")] |}.

Lemma proxied_good : good_request proxied_request /\ unambiguous proxied_request /\
  Forall u8 (render proxied_request ++ []).
Proof.
  split; [|split].
  - split; [split; [done|repeat constructor]|]. split; [|split; [done|repeat constructor; done]].
    split; [done|]. exists (bs "http://h.test/a/../b?q"), []. split; [by rewrite app_nil_r|]. split; [repeat constructor|]. done.
  - split; [reflexivity| |done|repeat constructor; done].
    exists 6%nat. split; [by vm_compute|]. split; [done|]. intros t. vm_compute. by intros [= <-].
  - apply Forall_forall. intros x Hx. apply (list_elem_of_In _ _) in Hx. vm_compute in Hx. red. intuition lia.
Qed.

Lemma fast_path_is_slow_path_witness :
  exists info, extract_routing_info (AR := Little) (render proxied_request ++ []) = Ok info /\
    assemble_forward_headers (render proxied_request) (Some (bs "/b")) (strip_spans info) (upgrade_span info)
      (is_upgrade info) (OriginForm_of (render proxied_request) (Some (17, 24))) (ForwardedLines_new (V4 167837955) true) =
    assemble_forward_headers_slow (render proxied_request) (Some (bs "/b")) (is_upgrade info)
      (OriginForm_of (render proxied_request) (Some (17, 24))) (ForwardedLines_new (V4 167837955) true).
Proof.
  destruct proxied_good as (Hg & Hun & Hu).
  destruct (extract_routing_info (AR := Little) (render proxied_request ++ [])) as [info|] eqn:E; [|by vm_compute in E].
  exists info. split; [reflexivity|].
  apply (fast_path_is_slow_path (AR := Little) proxied_request [] info _ _ _ Hg Hun Hu);
    [reflexivity|exact E|vm_compute in E; injection E as <-; reflexivity|reflexivity|reflexivity].
Defined.

