(* ===== verification/Reread.v ===== *)
(** * What a backend reads

    The head [forward_head] writes for an accepted request is read back by
    the parser as the same request: one reading, the same method, host, path,
    query and framing. No second request hides in what is sent on. *)

From S2P Require Import Prelude Bytes Net HttpGrammar Routing RouteLookup RouteBuild Health Selection PathNorm.
From S2P Require Import HttpParser HttpFilters RequestProcessor Outgoing.

(** ** The forwarding lines *)

(** An address as [std::net] holds it. *)
Definition ip_ok (ip : IpAddr) : Prop :=
  match ip with V4 a => 0 <= a < 2 ^ 32 | V6 a => 0 <= a < 2 ^ 128 end.

Definition forwarding_lines (ip : IpAddr) (is_tls : bool) : list line :=
  [(bs "X-Forwarded-For", SP :: print_ip ip);
   (bs "X-Forwarded-Proto", SP :: if is_tls then bs "https" else bs "http")].

Definition ip_char (b : Z) : Prop := 46 <= b <= 58 \/ 97 <= b <= 102.

Ltac solve_ip_chars := repeat (apply Forall_cons_2; [unfold ip_char; lia|]); apply Forall_nil_2.

Lemma decimal_digits_spec fuel n acc k : 0 <= n < 10 ^ Z.of_nat k -> (0 < k <= fuel)%nat -> Forall ip_char acc ->
  Forall ip_char (decimal_digits fuel n acc) /\ (length (decimal_digits fuel n acc) <= length acc + k)%nat.
Proof.
  revert n acc k. induction fuel as [|fuel IH]; intros n acc k Hn Hk Hacc; [lia|]. cbn [decimal_digits].
  pose proof (Z.mod_pos_bound n 10 ltac:(lia)) as Hm.
  assert (Hacc' : Forall ip_char ((48 + n mod 10) :: acc)) by (constructor; [left; lia|done]).
  destruct (Z.ltb_spec n 10) as [Hlt|Hge]; [split; [done|cbn; lia]|].
  destruct k as [|[|k]]; [lia|change (10 ^ Z.of_nat 1) with 10 in Hn; lia|].
  destruct (IH (n / 10) ((48 + n mod 10) :: acc) (S k)) as [H1 H2]; [|lia|done|].
  - rewrite Nat2Z.inj_succ, Z.pow_succ_r in Hn by lia. split; [apply Z.div_pos; lia|]. apply Z.div_lt_upper_bound; lia.
  - split; [done|]. cbn [length] in H2. lia.
Qed.

Lemma hex_digits_spec fuel n acc : 0 <= n -> Forall ip_char acc ->
  Forall ip_char (hex_digits fuel n acc) /\ (length (hex_digits fuel n acc) <= length acc + fuel)%nat.
Proof.
  revert n acc. induction fuel as [|fuel IH]; intros n acc Hn Hacc; cbn [hex_digits]; [split; [done|lia]|].
  pose proof (Z.mod_pos_bound n 16 ltac:(lia)) as Hm.
  assert (Hacc' : Forall ip_char (hex_char (n mod 16) :: acc)).
  { constructor; [|done]. unfold hex_char. destruct (Z.ltb_spec (n mod 16) 10); [left|right]; lia. }
  destruct (n <? 16); [split; [done|cbn; lia]|].
  destruct (IH (n / 16) (hex_char (n mod 16) :: acc)) as [H1 H2]; [apply Z.div_pos; lia|done|].
  split; [done|]. cbn [length] in H2. lia.
Qed.

Lemma octet_spec n : 0 <= n < 256 -> Forall ip_char (print_decimal n) /\ (length (print_decimal n) <= 3)%nat.
Proof. intros H. apply (decimal_digits_spec 20 n [] 3); [change (10 ^ Z.of_nat 3) with 1000; lia|lia|constructor]. Qed.

Lemma print_ipv4_spec a : 0 <= a < 2 ^ 32 -> Forall ip_char (print_ipv4 a) /\ (length (print_ipv4 a) <= 15)%nat.
Proof.
  intros Ha. change (2 ^ 32) with 4294967296 in Ha. unfold print_ipv4.
  assert (H1 : 0 <= a / 16777216 < 256) by (split; [apply Z.div_pos; lia|apply Z.div_lt_upper_bound; lia]).
  pose proof (Z.mod_pos_bound (a / 65536) 256 ltac:(lia)) as H2. pose proof (Z.mod_pos_bound (a / 256) 256 ltac:(lia)) as H3.
  pose proof (Z.mod_pos_bound a 256 ltac:(lia)) as H4.
  apply octet_spec in H1 as [F1 L1]. apply octet_spec in H2 as [F2 L2].
  apply octet_spec in H3 as [F3 L3]. apply octet_spec in H4 as [F4 L4].
  assert (Hdot : Forall ip_char [46]) by solve_ip_chars.
  split; [repeat (apply Forall_app_2; [assumption|]); assumption|]. rewrite !length_app. cbn [length]. lia.
Qed.

Lemma sep_hex_spec segs : Forall (fun s => 0 <= s) segs ->
  Forall ip_char (sep_hex segs) /\ (length (sep_hex segs) <= 5 * length segs)%nat.
Proof.
  assert (Hcat : forall l, Forall (fun s => 0 <= s) l ->
    Forall ip_char (concat (map (fun s => 58 :: print_hex16 s) l)) /\
    (length (concat (map (fun s => 58%Z :: print_hex16 s) l)) <= 5 * length l)%nat).
  { induction 1 as [|s l Hs _ [IH1 IH2]]; [split; [constructor|cbn; lia]|]. cbn [map concat length].
    destruct (hex_digits_spec 4 s [] Hs) as [F L]; [constructor|]. fold (print_hex16 s) in F, L. split.
    - apply Forall_app. split; [|done]. constructor; [left; lia|done].
    - rewrite length_app. cbn [length] in *. lia. }
  destruct 1 as [|s l Hs Hl]; [split; [constructor|cbn; lia]|]. destruct (Hcat l Hl) as [F1 L1].
  destruct (hex_digits_spec 4 s [] Hs) as [F L]; [constructor|]. fold (print_hex16 s) in F, L. cbn [sep_hex].
  split; [by apply Forall_app|]. rewrite length_app. cbn [length] in *. lia.
Qed.

Lemma print_ip_spec ip : ip_ok ip -> Forall ip_char (print_ip ip) /\ (length (print_ip ip) <= IP_TEXT_MAX)%nat.
Proof.
  unfold IP_TEXT_MAX. destruct ip as [a|a]; cbn [ip_ok print_ip]; intros Ha.
  { destruct (print_ipv4_spec a Ha). split; [done|lia]. }
  unfold print_ipv6. destruct (a / 4294967296 =? 65535).
  { destruct (print_ipv4_spec (a mod 4294967296)) as [F L]; [change (2 ^ 32) with 4294967296; apply Z.mod_pos_bound; lia|].
    split; [apply Forall_app; split; [|done]|rewrite length_app; change (length (bs "::ffff:")) with 7%nat; lia].
    change (bs "::ffff:") with [58; 58; 102; 102; 102; 102; 58]. solve_ip_chars. }
  assert (Hsegs : Forall (fun s => 0 <= s) (segments6 a)).
  { unfold segments6. apply Forall_fmap. apply Forall_true. intros i. cbn. apply Z.mod_pos_bound. lia. }
  assert (Hlen : length (segments6 a) = 8%nat) by done.
  destruct (longest_zeros (segments6 a) 0 (0%nat, 0%nat) (0%nat, 0%nat)) as [start len].
  destruct (1 <? len)%nat.
  - destruct (sep_hex_spec (take start (segments6 a))) as [F1 L1]; [by apply Forall_take|].
    destruct (sep_hex_spec (drop (start + len) (segments6 a))) as [F2 L2]; [by apply Forall_drop|].
    split; [apply Forall_app; split; [done|]; apply Forall_app; split; [solve_ip_chars|done]|].
    rewrite !length_app. rewrite length_take in L1. rewrite length_drop in L2. cbn [length]. lia.
  - destruct (sep_hex_spec (segments6 a) Hsegs) as [F L]. split; [done|]. lia.
Qed.

(** The fixed buffer holds the lines of every peer. *)
Lemma forwarded_fits ip is_tls : ip_ok ip -> ForwardedLines_new ip is_tls = render_lines (forwarding_lines ip is_tls).
Proof.
  intros Hip. destruct (print_ip_spec ip Hip) as [_ Hl]. unfold ForwardedLines_new.
  set (text := bs "X-Forwarded-For: " ++ _).
  assert (Ht : text = render_lines (forwarding_lines ip is_tls)).
  { unfold text, forwarding_lines, render_lines, render_line. cbn [map concat fst snd].
    change (bs "X-Forwarded-For: ") with (bs "X-Forwarded-For" ++ [58; 32]).
    change (bs "X-Forwarded-Proto: ") with (bs "X-Forwarded-Proto" ++ [58; 32]).
    repeat (rewrite <- ?app_assoc; cbn [app]). done. }
  assert (Hlen : (length text <= CAP)%nat).
  { unfold text. rewrite !length_app. change CAP with 90%nat. change (length (bs "X-Forwarded-For: ")) with 17%nat.
    change (length (bs "X-Forwarded-Proto: ")) with 19%nat. unfold IP_TEXT_MAX in Hl.
    assert (length (if is_tls then bs "https" else bs "http") <= 5)%nat by (destruct is_tls; cbn; lia). cbn [length]. lia. }
  rewrite Nat.min_l by done. assert (Hcap : (CAP < 256)%nat) by (vm_compute; lia).
  unfold as_u8. rewrite wrap_small by (change (2 ^ 8) with 256; lia). rewrite Nat2Z.id. by rewrite take_ge.
Qed.

(** ** The request line *)

Definition query_at (t : list Z) : nat := default (length t) (find_byte 63 t).

(** The target with another path before its query. *)
Definition new_target (t p : list Z) : list Z := p ++ drop (query_at t) t.

(** ... with another path and the query its value brought, the request's own
    after it. *)
Definition rewritten_target (t p : list Z) (value_query : option (list Z)) : list Z :=
  p ++ match value_query with
       | None => drop (query_at t) t
       | Some vq => 63 :: vq ++ (if (query_at t + 1 <? length t)%nat then query_glue vq ++ drop (S (query_at t)) t else [])
       end.

Definition with_target (r : request) (t : list Z) : request :=
  {| rq_method := rq_method r; rq_target := t; rq_http10 := rq_http10 r; rq_lines := rq_lines r |}.

Section RequestLine.
Context `{MC : Memchr} `{AR : Arch}.

Lemma token_no_sp s : Forall (fun b => is_ b TCHAR = true) s -> Forall (fun b => b <> 32) s.
Proof. intros H. eapply Forall_impl; [exact H|]. intros x Hx ->. by vm_compute in Hx. Qed.

Lemma target_no_sp t : good_target t -> Forall (fun b => b <> 32) t.
Proof.
  intros (_ & a & b & -> & Ha & Hb & _). apply Forall_app. split.
  - eapply Forall_impl; [exact Ha|]. intros x Hx ->. by vm_compute in Hx.
  - eapply Forall_impl; [exact Hb|]. intros x Hx ->. by vm_compute in Hx.
Qed.

Lemma put_request_line_value r p vq : good_request r ->
  put_request_line (request_text r) p vq = request_text (with_target r (rewritten_target (rq_target r) p vq)).
Proof.
  intros ((_ & Hm) & Ht & _). set (m := rq_method r) in *. set (t := rq_target r) in *.
  set (v := take 8 (version (rq_http10 r))).
  assert (Hrt : request_text r = m ++ 32 :: t ++ 32 :: v) by done.
  assert (Hd : drop (length m + 1) (request_text r) = t ++ 32 :: v).
  { rewrite Hrt, <- drop_drop, drop_app_length. done. }
  unfold put_request_line, target_bounds. rewrite memchr_find_byte, Hrt, find_byte_app_r, <- Hrt by (by apply token_no_sp).
  rewrite memchr_find_byte, Hd, find_byte_app_r by (by apply target_no_sp). rewrite memchr_find_byte.
  assert (Hsl : slice (length m + 1) (length m + 1 + length t) (request_text r) = t).
  { unfold slice. rewrite Hd. replace (_ - _)%nat with (length t) by lia. apply take_app_length. }
  rewrite Hsl.
  assert (Htk : take (length m + 1) (request_text r) = m ++ [32]).
  { rewrite Hrt. change (32 :: t ++ 32 :: v) with ([32] ++ t ++ 32 :: v). rewrite app_assoc.
    replace (length m + 1)%nat with (length (m ++ [32%Z])) by (rewrite length_app; done). apply take_app_length. }
  assert (Hdr : drop (length m + 1 + length t) (request_text r) = 32 :: v).
  { rewrite <- drop_drop, Hd. apply drop_app_length. }
  assert ((match find_byte 63 t with Some q => (length m + 1 + q)%nat | None => (length m + 1 + length t)%nat end)
          = (length m + 1 + query_at t)%nat) as -> by (unfold query_at; by destruct (find_byte 63 t)).
  assert (Hq : forall k, (k <= length t)%nat -> slice (length m + 1 + k) (length m + 1 + length t) (request_text r) = drop k t).
  { intros k Hk. unfold slice. rewrite <- drop_drop, Hd, drop_app_le by done.
    replace (_ - _)%nat with (length (drop k t)) by (rewrite length_drop; lia). apply take_app_length. }
  assert (Hqa : (query_at t <= length t)%nat).
  { unfold query_at. destruct (find_byte 63 t) eqn:E; cbn; [apply find_byte_lt in E; lia|lia]. }
  rewrite Htk, Hdr. unfold request_text, with_target, rewritten_target. cbn [rq_method rq_target rq_http10]. fold m t v.
  destruct vq as [vq|]; [|rewrite Hq by done; by rewrite <- !app_assoc].
  replace (length m + 1 + query_at t + 1)%nat with (length m + 1 + S (query_at t))%nat by lia.
  destruct (Nat.ltb_spec (query_at t + 1) (length t)).
  - rewrite (proj2 (Nat.ltb_lt _ _)) by lia. rewrite Hq by lia. rewrite <- !app_assoc. cbn [app]. do 4 f_equal. by rewrite <- !app_assoc.
  - rewrite (proj2 (Nat.ltb_ge _ _)) by lia. rewrite <- !app_assoc. cbn [app]. do 4 f_equal. by rewrite <- !app_assoc.
Qed.

Lemma put_request_line_text r p : good_request r ->
  put_request_line (request_text r) p None = request_text (with_target r (new_target (rq_target r) p)).
Proof. apply put_request_line_value. Qed.

(** A path that stands at the head of a target. *)
Definition origin_path (p : list Z) : Prop :=
  head p = Some 47 /\ Forall (fun x => is_ x TARGET = true) p /\ (63 ∉ p) /\ utf8_valid p = true /\ Forall u8 p.

Lemma query_split t : t = take (query_at t) t ++ drop (query_at t) t /\ (63 ∉ take (query_at t) t) /\
  (drop (query_at t) t = [] \/ exists q, drop (query_at t) t = 63 :: q).
Proof.
  split; [by rewrite take_drop|]. unfold query_at. destruct (find_byte 63 t) as [i|] eqn:E; cbn [default from_option id].
  - apply find_byte_Some in E as [Hi Hn]. split.
    + intros Hin. rewrite Forall_forall in Hn. by apply (Hn 63).
    + right. eexists. by apply drop_lookup_cons.
  - apply find_byte_None_iff in E. rewrite take_ge, drop_ge by done. auto.
Qed.

Lemma new_target_good t p : good_target t -> origin_path p -> good_target (new_target t p).
Proof.
  intros (_ & a & b & Ht & Ha & Hb & Hq) (Hh & Hp & _). split; [by destruct p|].
  destruct (query_split t) as (Hs & Hn & Hd). unfold new_target. set (k := query_at t) in *.
  destruct (decide (b = [])) as [->|Hne].
  - exists (p ++ drop k t), []. rewrite app_nil_r in *. split; [done|]. split; [|done]. apply Forall_app. split; [done|].
    rewrite Ht. by apply Forall_drop.
  - assert (Hka : (k < length a)%nat).
    { destruct (Nat.lt_ge_cases k (length a)) as [|Hge]; [done|]. exfalso. apply Hn.
      rewrite Ht, take_app, take_ge by done. apply elem_of_app. left. by apply Hq. }
    exists (p ++ drop k a), b. rewrite Ht, drop_app_le by lia. split; [by rewrite app_assoc|].
    split; [apply Forall_app; split; [done|by apply Forall_drop]|]. split; [done|]. intros _. apply elem_of_app. right.
    destruct Hd as [Hd|[q Hd]]; rewrite Ht, drop_app_le in Hd by lia.
    + apply (f_equal length) in Hd. rewrite length_app, length_drop in Hd. cbn in Hd. lia.
    + destruct (drop k a) as [|x l] eqn:E; [apply (f_equal length) in E; rewrite length_drop in E; cbn in E; lia|].
      injection Hd as -> _. by apply elem_of_cons; left.
Qed.

Lemma utf8_valid_app a b : utf8_valid a = true -> utf8_valid (a ++ b) = utf8_valid b.
Proof.
  remember (length a) as n eqn:Hn. assert (Hle : (length a <= n)%nat) by lia. clear Hn. revert a Hle.
  induction n as [|n IH]; intros a Hn; [by destruct a; [|cbn in Hn; lia]|].
  destruct a as [|b0 a]; [done|]. cbn in Hn. cbn [app utf8_valid].
  destruct (b0 <? 128); [apply IH; lia|]. destruct a as [|b1 a]; [done|]. cbn [app] in *. cbn in Hn.
  destruct ((194 <=? b0) && (b0 <=? 223)).
  { intros [-> H]%andb_true_iff. apply IH; [lia|done]. }
  destruct a as [|b2 a]; [done|]. cbn [app]. cbn in Hn.
  destruct (utf8_three b0 b1).
  { intros [-> H]%andb_true_iff. apply IH; [lia|done]. }
  destruct a as [|b3 a]; [done|]. cbn [app]. cbn in Hn.
  intros [-> H]%andb_true_iff. apply IH; [lia|done].
Qed.

(** Text cut before an ASCII byte is text on both sides. *)
Lemma utf8_valid_cut a c b : c < 128 -> utf8_valid (a ++ c :: b) = true ->
  utf8_valid a = true /\ utf8_valid (c :: b) = true /\ utf8_valid b = true.
Proof.
  intros Hc H. assert (Ha : utf8_valid a = true) by (by eapply (utf8_valid_prefix (length a) a c b)).
  rewrite utf8_valid_app in H by done. split; [done|]. split; [done|]. cbn [utf8_valid] in H.
  assert ((c <? 128) = true) as Hlt by lia. by rewrite Hlt in H.
Qed.

Lemma new_target_utf8 t p : utf8_valid t = true -> utf8_valid p = true -> utf8_valid (new_target t p) = true.
Proof.
  intros Ht Hp. unfold new_target. rewrite utf8_valid_app by done. destruct (query_split t) as (Hs & _ & [->|[q Hq]]); [done|].
  rewrite Hq in Hs |- *. rewrite Hs in Ht. by apply utf8_valid_cut in Ht as (_ & ? & _).
Qed.

(** How an origin-form target reads. *)
Lemma read_target_origin m t p : beq m (bs "CONNECT") = false -> origin_path p ->
  read_target m (new_target t p) = (false, None, new_target t p, Some 0%nat).
Proof.
  intros Hm (Hh & _). unfold read_target. rewrite Hm. destruct p as [|c p]; [done|]. injection Hh as ->. done.
Qed.

Lemma path_query_new_target t p : origin_path p -> path_query (new_target t p) = (p, drop (S (query_at t)) t).
Proof.
  intros (_ & _ & Hn & _). unfold path_query, new_target. destruct (query_split t) as (_ & _ & [Hd|[q Hd]]); rewrite Hd.
  - rewrite app_nil_r. apply find_byte_None_iff in Hn as ->. f_equal. rewrite <- Nat.add_1_r, <- drop_drop, Hd. done.
  - rewrite find_byte_app_r.
    + rewrite take_app_length. f_equal. rewrite <- (Nat.add_1_r (length p)), <- drop_drop, drop_app_length.
      by rewrite <- (Nat.add_1_r (query_at t)), <- drop_drop, Hd.
    + apply Forall_forall. intros x Hx ->. done.
Qed.

End RequestLine.

(** ** The lines that are sent *)

Definition host_of (o : OriginForm) : line := (bs "Host", SP :: authority o).

Definition sent_line (stays : line -> bool) (origin : option OriginForm) (l : line) : list line :=
  match origin with
  | Some o => if hosts l then [host_of o] else if stays l then [l] else []
  | None => if stays l then [l] else []
  end.

Definition added_lines (ip : IpAddr) (is_tls keep : bool) (origin : option OriginForm) : list line :=
  forwarding_lines ip is_tls
  ++ (if keep then [(bs "Connection", bs " upgrade")] else [])
  ++ match origin with
     | Some o => match of_host_line o with None => [host_of o] | Some _ => [] end
     | None => []
     end.

(** The request a backend is sent. *)
Definition sent (r : request) (path : option (list Z)) (stays : line -> bool) (keep : bool) (origin : option OriginForm)
  (ip : IpAddr) (is_tls : bool) : request :=
  {| rq_method := rq_method r;
     rq_target := match path with Some p => new_target (rq_target r) p | None => rq_target r end;
     rq_http10 := rq_http10 r;
     rq_lines := concat (map (sent_line stays origin) (rq_lines r)) ++ added_lines ip is_tls keep origin |}.

Section Sent.
Context `{MC : Memchr} `{AR : Arch}.

Definition slow_stays (nom : list (list Z)) (keep : bool) (l : line) : bool :=
  negb (if eq_ignore_ascii_case l.1 (bs "upgrade") then negb keep
        else is_hop_by_hop_request_header l.1 || existsb (eq_ignore_ascii_case l.1) nom).

Definition fast_stays (keep : bool) (l : line) : bool := negb (spanned l) && negb (negb keep && upgrades l).

Lemma put_host_line o : put_host (authority o) = render_line (host_of o).
Proof. done. Qed.

Lemma slow_line_sent nom keep origin l :
  slow_line nom keep origin l = render_lines (sent_line (slow_stays nom keep) origin l).
Proof.
  unfold slow_line, sent_line, slow_stays. set (strip := if eq_ignore_ascii_case _ _ then _ else _).
  destruct origin as [o|]; [destruct (hosts l)|]; [unfold render_lines; cbn [map concat]; by rewrite app_nil_r|..];
    destruct strip; unfold render_lines; cbn [negb map concat]; by rewrite ?app_nil_r.
Qed.

Lemma fast_line_sent keep origin l : Forall u8 l.1 ->
  fast_line keep origin l = render_lines (sent_line (fast_stays keep) origin l).
Proof.
  intros Hu. unfold fast_line, gap_line, cut_line, sent_line, fast_stays.
  destruct (hosts l) eqn:Eh.
  - unfold spanned, upgrades. rewrite (hosts_kept l Hu Eh). rewrite !andb_false_r. cbn [negb andb orb].
    destruct origin as [o|]; cbn [is_some andb]; unfold render_lines; cbn [map concat]; by rewrite app_nil_r.
  - rewrite andb_false_r, orb_false_r. destruct (spanned l), (negb keep && upgrades l), origin as [o|];
      unfold render_lines; cbn [negb andb map concat]; by rewrite ?app_nil_r.
Qed.

Lemma render_lines_concat (f : line -> list line) ls :
  concat (map (fun l => render_lines (f l)) ls) = render_lines (concat (map f ls)).
Proof.
  unfold render_lines. induction ls as [|l ls IH]; [done|]. cbn [map concat]. by rewrite map_app, concat_app, IH.
Qed.

Lemma append_renders ip is_tls keep origin : ip_ok ip ->
  append_forward_headers (ForwardedLines_new ip is_tls) keep origin = render_lines (added_lines ip is_tls keep origin).
Proof.
  intros Hip. unfold append_forward_headers, added_lines. rewrite forwarded_fits, !render_lines_app by done. f_equal. f_equal.
  - by destruct keep.
  - destruct origin as [o|]; [|done]. destruct (of_host_line o); [done|]. unfold render_lines. cbn [map concat].
    by rewrite app_nil_r.
Qed.

Lemma sent_renders r path stays keep origin ip is_tls : good_request r -> ip_ok ip ->
  first_text r path ++ CRLF_ ++ concat (map (fun l => render_lines (sent_line stays origin l)) (rq_lines r))
  ++ append_forward_headers (ForwardedLines_new ip is_tls) keep origin ++ CRLF_
  = render (sent r path stays keep origin ip is_tls).
Proof.
  intros Hg Hip. unfold render. rewrite render_request_text, append_renders, render_lines_concat by done.
  unfold sent. cbn [rq_lines]. rewrite render_lines_app, <- !app_assoc. f_equal.
  unfold first_text. destruct path as [p|]; [|done]. by rewrite put_request_line_text.
Qed.

Lemma slow_sends r path keep origin ip is_tls : good_request r -> Forall u8 (render r) -> ip_ok ip ->
  assemble_forward_headers_slow (render r) path keep origin (ForwardedLines_new ip is_tls) =
  render (sent r path (slow_stays (nominated (render r)) keep) keep origin ip is_tls).
Proof.
  intros Hg Hu Hip. rewrite slow_writes, <- sent_renders by done. do 3 f_equal. f_equal. apply map_ext. intros l.
  apply slow_line_sent.
Qed.

Lemma fast_sends r path keep origin ip is_tls :
  good_request r -> unambiguous r -> Forall u8 (render r) -> Z.of_nat (length (render r)) < 4294967296 ->
  origin_of_head r origin -> ip_ok ip ->
  needs_slow_path (h_spans (lines_state r)) = false -> f_slow (fields (lines_state r)) = false ->
  assemble_forward_headers (render r) path (slow (h_spans (lines_state r)) (f_slow (fields (lines_state r))))
    (h_upgrade_span (lines_state r)) keep origin (ForwardedLines_new ip is_tls) =
  render (sent r path (fast_stays keep) keep origin ip is_tls).
Proof.
  intros Hg Hun Hu Hlen Ho Hip Hs1 Hs2. rewrite fast_writes, <- sent_renders by done. do 3 f_equal. f_equal.
  pose proof Hu as Hu0. rewrite <- (app_nil_r (render r)) in Hu0. destruct (render_u8 r [] Hu0) as [_ Hl].
  apply map_ext_Forall. eapply Forall_impl; [exact Hl|]. intros l [Hul _]. by apply fast_line_sent.
Qed.

(** Framing and routing lines stay, Connection goes. *)
Definition faithful (stays : line -> bool) (ls : list line) : Prop :=
  Forall (fun l => (lowercase l.1 ∈ [bs "content-length"; bs "transfer-encoding"; bs "host"] -> stays l = true) /\
                   (lowercase l.1 = bs "connection" -> stays l = false)) ls.

Lemma fast_faithful keep ls : Forall (fun l : line => Forall u8 l.1) ls -> faithful (fast_stays keep) ls.
Proof.
  intros H. eapply Forall_impl; [exact H|]. intros l Hu. unfold fast_stays. rewrite spanned_exact, upgrades_exact by done.
  split; intros Hn.
  - rewrite !elem_of_cons, elem_of_nil in Hn. destruct_or! Hn; try done; rewrite Hn; by destruct keep, (offers_h2c l.2).
  - by rewrite Hn.
Qed.

Lemma nominated_pinned raw t : t ∈ nominated raw ->
  lowercase t ∉ [bs "content-length"; bs "transfer-encoding"; bs "host"].
Proof.
  unfold nominated. intros (x & Hx & Ht)%list_elem_of_In%in_concat. apply in_map_iff in Hx as (l & <- & _).
  destruct (header_value_if l _) as [v|]; [|done]. apply filter_In in Ht as [_ Ht]. bool_simpl.
  rewrite !eqi_lower in * by done. bool_simpl. rewrite !not_elem_of_cons. repeat split; try done. apply not_elem_of_nil.
Qed.

Lemma slow_faithful raw keep ls : Forall (fun l : line => Forall u8 l.1) ls -> faithful (slow_stays (nominated raw) keep) ls.
Proof.
  intros H. eapply Forall_impl; [exact H|]. intros l Hu. unfold slow_stays. rewrite is_hop_exact, eqi_lower by done.
  split; intros Hn.
  - assert (existsb (eq_ignore_ascii_case l.1) (nominated raw) = false) as ->.
    { apply not_true_iff_false. intros (t & Ht & He)%existsb_exists. apply list_elem_of_In in Ht.
      apply eq_ignore_ascii_case_spec in He. rewrite He in Hn. by apply nominated_pinned in Ht. }
    rewrite orb_false_r. rewrite !elem_of_cons, elem_of_nil in Hn. by destruct_or! Hn; try done; rewrite Hn.
  - by rewrite Hn.
Qed.

End Sent.

(** ** They are one request *)

Section Reread.
Context `{MC : Memchr} `{AR : Arch}.

Lemma values_nil nm : values nm [] = [].
Proof. done. Qed.

Lemma values_cons nm l ls : values nm (l :: ls) = (if bool_decide (lowercase l.1 = nm) then [l.2] else []) ++ values nm ls.
Proof. change (l :: ls) with ([l] ++ ls). rewrite values_app. f_equal. exact (values_snoc nm [] l). Qed.

Lemma hosts_lower l : hosts l = bool_decide (lowercase l.1 = bs "host").
Proof. by apply eqi_lower. Qed.

Lemma values_sent_line stays origin l nm : (lowercase l.1 = nm -> stays l = true) -> nm <> bs "host" ->
  values nm (sent_line stays origin l) = values nm [l].
Proof.
  intros Hs Hnm. unfold sent_line. rewrite hosts_lower, (values_cons nm l), values_nil, app_nil_r.
  destruct (decide (lowercase l.1 = nm)) as [E|N].
  - rewrite (Hs E), (bool_decide_eq_true_2 _ E), (bool_decide_eq_false_2 (lowercase l.1 = bs "host")) by congruence.
    assert (values nm [l] = [l.2]) by (by rewrite values_cons, bool_decide_eq_true_2). by destruct origin.
  - rewrite (bool_decide_eq_false_2 _ N).
    assert (Hone : values nm (if stays l then [l] else []) = []).
    { destruct (stays l); [|done]. by rewrite values_cons, bool_decide_eq_false_2. }
    destruct origin as [o|]; [|done]. case_bool_decide; [|done].
    rewrite values_cons, bool_decide_eq_false_2; [done|]. by intros <-.
Qed.

Lemma values_sent_framing stays origin ls nm :
  faithful stays ls -> nm ∈ [bs "content-length"; bs "transfer-encoding"] ->
  values nm (concat (map (sent_line stays origin) ls)) = values nm ls.
Proof.
  intros H Hnm. induction H as [|l ls [Hl _] _ IH]; [done|]. cbn [map concat]. rewrite values_app, IH.
  change (l :: ls) with ([l] ++ ls). rewrite (values_app nm [l]). f_equal. apply values_sent_line.
  - intros <-. apply Hl. rewrite !elem_of_cons in Hnm |- *. destruct Hnm as [E|[E|E]]; [by left|by right; left|by apply elem_of_nil in E].
  - intros ->. revert Hnm. apply (bool_decide_eq_false_1 _). by vm_compute.
Qed.

Lemma values_sent_connection stays origin ls :
  faithful stays ls -> values (bs "connection") (concat (map (sent_line stays origin) ls)) = [].
Proof.
  induction 1 as [|l ls [_ Hl] _ IH]; [done|]. cbn [map concat]. rewrite values_app, IH, app_nil_r.
  unfold sent_line. rewrite hosts_lower.
  assert (Hone : values (bs "connection") (if stays l then [l] else []) = []).
  { destruct (stays l) eqn:E; [|done]. rewrite values_cons, bool_decide_eq_false_2; [done|]. intros Hc. by apply Hl in Hc. }
  destruct origin as [o|]; [|done]. by case_bool_decide.
Qed.

Lemma values_sent_host stays origin ls :
  faithful stays ls -> values (bs "host") (concat (map (sent_line stays origin) ls)) =
  match origin with Some o => map (fun _ => SP :: authority o) (values (bs "host") ls) | None => values (bs "host") ls end.
Proof.
  induction 1 as [|l ls [Hl _] _ IH]; [by destruct origin|]. cbn [map concat]. rewrite values_app, IH, (values_cons _ l).
  unfold sent_line. rewrite hosts_lower. case_bool_decide as E.
  - rewrite Hl by (rewrite E; apply (bool_decide_eq_true_1 _); by vm_compute). destruct origin as [o|]; [done|].
    by rewrite values_cons, bool_decide_eq_true_2.
  - assert (Hone : values (bs "host") (if stays l then [l] else []) = []).
    { destruct (stays l); [|done]. by rewrite values_cons, bool_decide_eq_false_2. }
    destruct origin as [o|]; exact (f_equal (fun x => x ++ _) Hone).
Qed.

Lemma values_added nm ip is_tls keep origin :
  nm ∈ [bs "content-length"; bs "transfer-encoding"] -> values nm (added_lines ip is_tls keep origin) = [].
Proof.
  rewrite !elem_of_cons, elem_of_nil. unfold added_lines, forwarding_lines. intros H.
  destruct_or! H; try done; subst nm; (destruct origin as [o|]; [destruct (of_host_line o)|]; by destruct keep).
Qed.

Lemma values_added_host ip is_tls keep origin :
  values (bs "host") (added_lines ip is_tls keep origin) =
  match origin with Some o => match of_host_line o with None => [SP :: authority o] | Some _ => [] end | None => [] end.
Proof. unfold added_lines, forwarding_lines. destruct origin as [o|]; [destruct (of_host_line o)|]; by destruct keep. Qed.

Lemma values_added_connection ip is_tls keep origin :
  Forall (fun v => Forall harmless_token (split_on 44 v)) (values (bs "connection") (added_lines ip is_tls keep origin)).
Proof.
  assert (values (bs "connection") (added_lines ip is_tls keep origin) = if keep then [bs " upgrade"] else []) as ->.
  { unfold added_lines, forwarding_lines. destruct origin as [o|]; [destruct (of_host_line o)|]; by destruct keep. }
  destruct keep; [|constructor]. repeat constructor; done.
Qed.

(** What the writers are given for an absolute-form target. *)
Definition origin_ok (r : request) (o : OriginForm) : Prop :=
  of_host_line o = host_line (render r) /\ Forall u8 (authority o) /\
  exists h, split_host (authority o) = Some h /\ (0 < h)%nat /\ target_host r = Some (take h (authority o)).

Lemma host_line_values r : good_request r -> unambiguous r -> Forall u8 (render r) -> Z.of_nat (length (render r)) < 4294967296 ->
  is_some (host_line (render r)) = negb (is_nil (values (bs "host") (rq_lines r))).
Proof.
  intros Hg Hun Hu Hlen. pose proof (host_line_render r Hg Hu Hlen) as H.
  pose proof (length_spans_of hosts (head_start r) (rq_lines r)) as Hl. rewrite filter_hosts in Hl.
  destruct (host_line (render r)), (spans_of hosts _ _), (values _ _); try done; cbn in H, Hl; congruence.
Qed.

Lemma trim_ows_sp s : trim_ows (SP :: s) = trim_ows s.
Proof. apply (trim_ows_app_l [32]). by repeat constructor. Qed.

Lemma trim_ows_id s : Forall (fun b => is_ows b = false) s -> trim_ows s = s.
Proof.
  intros H. unfold trim_ows. assert (Hz : forall l, Forall (fun b => is_ows b = false) l -> span_len is_ows l = 0%nat).
  { intros l. destruct 1 as [|x l Hx _]; [done|]. cbn. by rewrite Hx. }
  rewrite Hz by done. cbn [drop]. rewrite Hz by (by apply Forall_rev). rewrite Nat.sub_0_r. by apply take_ge.
Qed.

Lemma authority_bytes a h : Forall u8 a -> split_host a = Some h ->
  Forall (fun b => is_ows b = false /\ is_ b VALUE = true) a.
Proof.
  intros Hu Hs. apply split_host_sound in Hs as (host & t & -> & <- & Hh & Ht). apply Forall_app in Hu as [Hu1 Hu2].
  assert (Hrange : forall b, 33 <= b < 127 -> is_ows b = false /\ is_ b VALUE = true).
  { intros b Hb. rewrite is_value_spec by (red; lia). unfold is_ows. lia. }
  apply Forall_app. split.
  - destruct Hh as [Hh|(ip & -> & _ & Hip)].
    + assert (H : Forall (fun b => u8 b /\ is_ b HOST = true) host) by (by apply Forall_and).
      eapply Forall_impl; [exact H|]. intros b [Hb Hx]. destruct (is_host_ascii b Hb Hx) as (? & ? & _).
      apply Hrange. split; [lia|]. destruct (Z.eq_dec b 127) as [->|]; [by vm_compute in Hx|lia].
    + constructor; [apply Hrange; lia|]. apply Forall_app. split; [|constructor; [apply Hrange; lia|constructor]].
      eapply Forall_impl; [exact Hip|]. intros b Hb. apply Hrange.
      unfold is_ip_byte, is_ascii_hexdigit, is_ascii_digit in Hb. lia.
  - destruct Ht as [->|(port & -> & Hp)]; [constructor|]. constructor; [apply Hrange; lia|].
    eapply Forall_impl; [exact Hp|]. intros b Hb. apply Hrange. unfold is_ascii_digit in Hb. cbv beta in Hb. lia.
Qed.

End Reread.

Section SentRequest.
Context `{MC : Memchr} `{AR : Arch}.

(** The path and origin [build_outgoing_headers] hands the writers. *)
Definition path_fits (r : request) (path : option (list Z)) (origin : option OriginForm) : Prop :=
  match path with
  | Some p => origin_path p /\ (origin = None -> target_host r = None)
  | None => origin = None
  end.
Definition origin_fits (r : request) (origin : option OriginForm) : Prop :=
  match origin with Some o => origin_ok r o | None => True end.

Lemma not_connect r : target_violation r = false -> beq (rq_method r) (bs "CONNECT") = false.
Proof. unfold target_violation, read_target. by destruct (beq _ _). Qed.

Lemma sent_target r path stays keep origin ip is_tls :
  target_violation r = false -> path_fits r path origin ->
  let r' := sent r path stays keep origin ip is_tls in
  target_violation r' = false /\ target_host r' = if is_some path then None else target_host r.
Proof.
  intros Hv Hp. pose proof (not_connect r Hv) as Hm. unfold target_violation, target_host in *. cbn [sent rq_method rq_target].
  destruct path as [p|]; [|done]. destruct Hp as [Hp _].
  by rewrite read_target_origin.
Qed.

Lemma sent_framing r path stays keep origin ip is_tls nm :
  faithful stays (rq_lines r) -> nm ∈ [bs "content-length"; bs "transfer-encoding"] ->
  values nm (rq_lines (sent r path stays keep origin ip is_tls)) = values nm (rq_lines r).
Proof.
  intros Hf Hnm. cbn [sent rq_lines].
  by rewrite values_app, values_sent_framing, values_added, app_nil_r by done.
Qed.

Lemma sent_hosts r path stays keep origin ip is_tls :
  good_request r -> unambiguous r -> Forall u8 (render r) -> Z.of_nat (length (render r)) < 4294967296 ->
  faithful stays (rq_lines r) -> origin_fits r origin ->
  values (bs "host") (rq_lines (sent r path stays keep origin ip is_tls)) =
  match origin with Some o => [SP :: authority o] | None => values (bs "host") (rq_lines r) end.
Proof.
  intros Hg Hun Hu Hlen Hf Ho. cbn [sent rq_lines].
  rewrite values_app, values_sent_host, values_added_host by done.
  destruct origin as [o|]; [|by rewrite app_nil_r]. destruct Ho as [-> _].
  pose proof (host_line_values r Hg Hun Hu Hlen) as H. destruct Hun as [_ U _ _].
  destruct (values (bs "host") (rq_lines r)) as [|v [|? ?]], (host_line (render r)); done.
Qed.

(** The authority is the target's host, and a usable Host value. *)
Lemma authority_value o h : Forall u8 (authority o) -> split_host (authority o) = Some h ->
  trim_ows (SP :: authority o) = authority o.
Proof.
  intros Hu Hs. rewrite trim_ows_sp. apply trim_ows_id. eapply Forall_impl; [exact (authority_bytes _ _ Hu Hs)|].
  by intros b [? _].
Qed.

Lemma sent_unambiguous r path stays keep origin ip is_tls :
  good_request r -> unambiguous r -> Forall u8 (render r) -> Z.of_nat (length (render r)) < 4294967296 ->
  faithful stays (rq_lines r) -> origin_fits r origin -> path_fits r path origin ->
  unambiguous (sent r path stays keep origin ip is_tls).
Proof.
  intros Hg Hun Hu Hlen Hf Ho Hp. pose proof (sent_target r path stays keep origin ip is_tls (un_target r Hun) Hp) as [Ht1 Ht2].
  set (r' := sent r path stays keep origin ip is_tls) in *.
  pose proof (sent_hosts r path stays keep origin ip is_tls Hg Hun Hu Hlen Hf Ho) as Hh. fold r' in Hh.
  split; [done|..].
  - rewrite Hh. change (rq_http10 r') with (rq_http10 r). destruct origin as [o|].
    + destruct Ho as (_ & Hau & h & Hs & Hpos & Hth). exists h. rewrite (authority_value o h) by done.
      split; [done|]. rewrite Ht2. destruct path as [p|]; [|done]. split; [|done].
      intros E. apply (f_equal length) in E. apply split_host_sound in Hs as (host & t & Ea & <- & _).
      rewrite Ea, take_app_length in E. cbn in E. lia.
    + pose proof (un_host r Hun) as U. destruct (values (bs "host") (rq_lines r)) as [|v [|? ?]]; [done| |done].
      destruct U as (h & Hs & Hne & Hth). exists h. split; [done|]. split; [done|]. rewrite Ht2. by destruct path.
  - unfold r'. rewrite !sent_framing by (done || set_solver). change (rq_http10 _) with (rq_http10 r). apply Hun.
  - unfold r'. cbn [sent rq_lines]. rewrite values_app, values_sent_connection by done. apply values_added_connection.
Qed.

Lemma value_line nm s : token nm -> Forall u8 nm -> Forall (fun b => u8 b /\ is_ b VALUE = true) s ->
  good_line (nm, s) /\ u8_line (nm, s).
Proof. intros Hn Hnu Hs. apply Forall_and in Hs as [H1 H2]. done. Qed.

Lemma added_good ip is_tls keep origin r : ip_ok ip -> origin_fits r origin ->
  Forall (fun l => good_line l /\ u8_line l) (added_lines ip is_tls keep origin).
Proof.
  intros Hip Ho. destruct (print_ip_spec ip Hip) as [Hc _].
  assert (Hlit : forall s, Forall (fun b => u8 b /\ is_ b VALUE = true) s -> Forall (fun b => u8 b /\ is_ b VALUE = true) (SP :: s)).
  { intros s Hs. constructor; [|done]. split; [red; lia|done]. }
  assert (Hip' : Forall (fun b => u8 b /\ is_ b VALUE = true) (print_ip ip)).
  { eapply Forall_impl; [exact Hc|]. intros b Hb. assert (u8 b) by (red; unfold ip_char in Hb; lia).
    split; [done|]. rewrite is_value_spec by done. unfold ip_char in Hb. lia. }
  assert (Htok : forall s, s <> [] -> forallb (fun b => is_ b TCHAR && (0 <=? b) && (b <? 256)) s = true -> token s /\ Forall u8 s).
  { intros s Hne Hs. apply forallb_Forall in Hs. split; [split; [done|]|]; (eapply Forall_impl; [exact Hs|]);
      intros b Hb; cbv beta in Hb; bool_simpl; [done|red; lia]. }
  assert (Hval : forall s, forallb (fun b => is_ b VALUE && (0 <=? b) && (b <? 256)) s = true -> Forall (fun b => u8 b /\ is_ b VALUE = true) s).
  { intros s Hs. apply forallb_Forall in Hs. eapply Forall_impl; [exact Hs|]. intros b Hb. cbv beta in Hb. bool_simpl.
    split; [red; lia|done]. }
  assert (Hhost : forall o, origin = Some o -> good_line (host_of o) /\ u8_line (host_of o)).
  { intros o ->. destruct Ho as (_ & Hau & h & Hs & _). apply value_line; [by apply Htok..|]. apply Hlit.
    apply Forall_and. split; [done|]. eapply Forall_impl; [exact (authority_bytes _ _ Hau Hs)|]. by intros b [_ ?]. }
  unfold added_lines, forwarding_lines. apply Forall_app. split; [|apply Forall_app; split].
  - constructor; [apply value_line; [by apply Htok..|by apply Hlit]|]. constructor; [|constructor].
    apply value_line; [by apply Htok..|]. apply Hlit, Hval. by destruct is_tls.
  - destruct keep; [|constructor]. constructor; [|constructor]. apply value_line; [by apply Htok..|by apply Hval].
  - destruct origin as [o|]; [|constructor]. destruct (of_host_line o); [constructor|]. constructor; [by apply Hhost|constructor].
Qed.

End SentRequest.

Section Reading.
Context `{MC : Memchr} `{AR : Arch}.


Lemma render_is_u8 r : Forall u8 (rq_method r) -> Forall u8 (rq_target r) -> Forall u8_line (rq_lines r) -> Forall u8 (render r).
Proof.
  intros Hm Ht Hl. assert (Hcr : Forall u8 CRLF_) by by apply Forall_u8_literal.
  assert (Hv : Forall u8 (version (rq_http10 r))) by (destruct (rq_http10 r); by apply Forall_u8_literal).
  assert (Hsp : u8 SP) by (red; lia). assert (Hco : u8 58) by (red; lia).
  unfold render, render_request_line. apply Forall_app_2; [apply Forall_app_2; [done|]; constructor; [done|];
    apply Forall_app_2; [done|]; by constructor|]. apply Forall_app_2; [|done].
  unfold render_lines. apply Forall_concat, Forall_fmap. eapply Forall_impl; [exact Hl|]. intros l [H1 H2]. cbn. unfold render_line.
  apply Forall_app_2; [done|]. constructor; [done|]. by apply Forall_app_2.
Qed.

Lemma sent_lines_good r stays origin ip is_tls keep :
  Forall (fun l => good_line l /\ u8_line l) (rq_lines r) -> ip_ok ip -> origin_fits r origin ->
  Forall (fun l => good_line l /\ u8_line l)
    (concat (map (sent_line stays origin) (rq_lines r)) ++ added_lines ip is_tls keep origin).
Proof.
  intros Hl Hip Ho. apply Forall_app_2; [|by apply (added_good ip is_tls keep origin r)].
  apply Forall_concat, Forall_fmap. eapply Forall_impl; [exact Hl|]. intros l Hgl. cbn. unfold sent_line.
  assert (Hone : Forall (fun l => good_line l /\ u8_line l) (if stays l then [l] else [])).
  { destruct (stays l); [|constructor]. constructor; [done|constructor]. }
  destruct origin as [o|]; [|done]. destruct (hosts l); [|done]. constructor; [|constructor].
  destruct Ho as (_ & Hau & h & Hs & _). apply value_line.
  - split; [done|repeat constructor].
  - by apply Forall_u8_literal.
  - constructor; [split; [red; lia|done]|]. apply Forall_and. split; [done|].
    eapply Forall_impl; [exact (authority_bytes _ _ Hau Hs)|]. by intros b [_ ?].
Qed.

Lemma sent_good r path stays keep origin ip is_tls :
  good_request r -> Forall u8 (render r) -> ip_ok ip -> origin_fits r origin -> path_fits r path origin ->
  good_request (sent r path stays keep origin ip is_tls) /\ Forall u8 (render (sent r path stays keep origin ip is_tls)).
Proof.
  intros Hg Hu Hip Ho Hp. pose proof Hu as Hu0. rewrite <- (app_nil_r (render r)) in Hu0.
  destruct (render_u8 r [] Hu0) as [Htu Hl]. pose proof Hg as (Hm & Ht & Hutf & Hgl).
  assert (Hlines := sent_lines_good r stays origin ip is_tls keep (proj2 (Forall_and _ _) (conj Hgl Hl)) Hip Ho).
  apply Forall_and in Hlines as [L1 L2].
  assert (Hmu : Forall u8 (rq_method r)).
  { unfold render, render_request_line in Hu. apply Forall_app in Hu as [Hu _]. by apply Forall_app in Hu as [? _]. }
  split.
  - split; [done|]. cbn [sent rq_target]. destruct path as [p|]; [|done]. destruct Hp as [Hp _].
    split; [by apply new_target_good|]. split; [|done]. apply new_target_utf8; [done|apply Hp].
  - apply render_is_u8; [done| |done]. cbn [sent rq_target]. destruct path as [p|]; [|done]. destruct Hp as [Hp _].
    apply Forall_app_2; [apply Hp|by apply Forall_drop].
Qed.

(** The host the backend routes by is the one the proxy routed by. *)
Lemma sent_routed_host r path stays keep origin ip is_tls :
  good_request r -> unambiguous r -> Forall u8 (render r) -> Z.of_nat (length (render r)) < 4294967296 ->
  faithful stays (rq_lines r) -> origin_fits r origin -> path_fits r path origin ->
  lowercase (routed_host (sent r path stays keep origin ip is_tls)) = lowercase (routed_host r).
Proof.
  intros Hg Hun Hu Hlen Hf Ho Hp. pose proof (sent_target r path stays keep origin ip is_tls (un_target r Hun) Hp) as [_ Ht].
  unfold routed_host. rewrite (sent_hosts r path stays keep origin ip is_tls Hg Hun Hu Hlen Hf Ho), Ht.
  pose proof (un_host r Hun) as U. destruct origin as [o|].
  - destruct Ho as (_ & Hau & h & Hs & _ & Hth). rewrite (authority_value o h Hau Hs), Hs. cbn [default from_option id].
    destruct (values (bs "host") (rq_lines r)) as [|v [|? ?]]; [by rewrite Hth| |done].
    destruct U as (h' & -> & _ & Hlow). by apply Hlow.
  - destruct (values (bs "host") (rq_lines r)) as [|v ?]; [|done]. destruct path as [p|]; [|done].
    destruct Hp as [_ Hp]. by rewrite Hp.
Qed.

Lemma sent_reading r path stays keep origin ip is_tls :
  good_request r -> unambiguous r -> Forall u8 (render r) -> Z.of_nat (length (render r)) < 4294967296 -> ip_ok ip ->
  faithful stays (rq_lines r) -> origin_fits r origin -> path_fits r path origin ->
  let out := render (sent r path stays keep origin ip is_tls) in
  exists info, extract_routing_info out = Ok info /\ header_violation info = false /\ head_len info = length out /\
    method info = rq_method r /\ lowercase (info_host info) = lowercase (routed_host r) /\
    content_length info = routed_length r /\
    is_chunked info = negb (is_nil (values (bs "transfer-encoding") (rq_lines r))) /\
    (path_query (match path with Some p => new_target (rq_target r) p | None => (read_target (rq_method r) (rq_target r)).1.2 end)
       = (HttpParser.path info, query_string info)).
Proof.
  intros Hg Hun Hu Hlen Hip Hf Ho Hp out. set (r' := sent r path stays keep origin ip is_tls) in *.
  destruct (sent_good r path stays keep origin ip is_tls Hg Hu Hip Ho Hp) as [Hg' Hu'].
  pose proof (sent_unambiguous r path stays keep origin ip is_tls Hg Hun Hu Hlen Hf Ho Hp) as Hun'.
  destruct (extract_reading r' [] Hg' Hun') as (info & Hi & Hv & Hm & Hh & _ & Hl & Hc & Hch & Hpq & _); [by rewrite app_nil_r|].
  rewrite app_nil_r in Hi. exists info. split_and!; try done.
  - rewrite Hh. by apply sent_routed_host.
  - rewrite Hc. unfold routed_length, r'. by rewrite sent_framing by (done || set_solver).
  - rewrite Hch. unfold r'. by rewrite sent_framing by (done || set_solver).
  - rewrite Hpq. unfold r'. cbn [sent rq_method rq_target]. destruct path as [p|]; [|done]. destruct Hp as [Hp _].
    rewrite read_target_origin; [done|by apply not_connect, un_target|done].
Qed.

End Reading.

(** ** Absolute targets *)

Section Absolute.
Context `{MC : Memchr} `{AR : Arch}.

Lemma scheme_spec t n : absolute_scheme_len t = Some n ->
  (n <= length t)%nat /\ (n = if bool_decide (t !! 4%nat = Some 58%Z) then 7%nat else 8%nat) /\
  (exists c, t !! 0%nat = Some c /\ (c =? 47) || (c =? 42) = false) /\ Forall (fun x => x <> 63 /\ x <> 32) (take n t).
Proof.
  unfold absolute_scheme_len. intros H.
  assert (Hlow : forall w, lowercase (take (length w) t) = w -> (length w <= length t)%nat ->
    (forall i x, w !! i = Some x -> exists y, t !! i = Some y /\ to_ascii_lowercase y = x)).
  { intros w Hw Hl i x Hx. pose proof (lookup_lt_Some _ _ _ Hx) as Hi. destruct (lookup_lt_is_Some_2 t i) as [y Hy]; [lia|].
    exists y. split; [done|]. rewrite <- Hw in Hx. unfold lowercase in Hx. rewrite list_lookup_fmap, lookup_take_lt, Hy in Hx by done.
    by injection Hx. }
  assert (Hno : forall w, lowercase (take (length w) t) = w -> Forall (fun x => x <> 63 /\ x <> 32) w ->
    Forall (fun x => x <> 63 /\ x <> 32) (take (length w) t)).
  { intros w Hw Hf. rewrite <- Hw in Hf. unfold lowercase in Hf. rewrite Forall_fmap in Hf. eapply Forall_impl; [exact Hf|].
    intros x [H1 H2]. unfold to_ascii_lowercase in H1, H2. destruct (is_ascii_uppercase x) eqn:E; [|done].
    unfold is_ascii_uppercase in E. lia. }
  assert (Hh : forall y, to_ascii_lowercase y = 104 -> (y =? 47) || (y =? 42) = false).
  { intros y Hy. unfold to_ascii_lowercase in Hy. apply orb_false_iff. rewrite !Z.eqb_neq.
    destruct (is_ascii_uppercase y) eqn:E; [unfold is_ascii_uppercase in E; bool_simpl|]; lia. }
  destruct ((7 <=? length t)%nat && _) eqn:E7.
  - injection H as <-. bool_simpl. rename H into Hl, H0 into He. apply eq_ignore_ascii_case_spec in He.
    change (lowercase (bs "http://")) with (bs "http://") in He. change 7%nat with (length (bs "http://")) in He, Hl.
    destruct (Hlow _ He Hl 4%nat 58 eq_refl) as (y & Hy & Hly). destruct (Hlow _ He Hl 0%nat 104 eq_refl) as (z & Hz & Hlz).
    apply lower_colon in Hly as ->. split; [done|]. rewrite bool_decide_eq_true_2 by done. split; [done|].
    split; [exists z; auto|]. apply (Hno _ He). apply (bool_decide_eq_true_1 _). by vm_compute.
  - destruct ((8 <=? length t)%nat && _) eqn:E8; [|done]. injection H as <-. bool_simpl. rename H into Hl, H0 into He.
    apply eq_ignore_ascii_case_spec in He. change (lowercase (bs "https://")) with (bs "https://") in He.
    change 8%nat with (length (bs "https://")) in He, Hl.
    destruct (Hlow _ He Hl 4%nat 115 eq_refl) as (y & Hy & Hly). destruct (Hlow _ He Hl 0%nat 104 eq_refl) as (z & Hz & Hlz).
    split; [done|]. rewrite bool_decide_eq_false_2 by (rewrite Hy; intros [= ->]; done). split; [done|].
    split; [exists z; auto|]. apply (Hno _ He). apply (bool_decide_eq_true_1 _). by vm_compute.
Qed.

(** The shapes of target the parser takes. *)
Lemma read_target_shapes m t th p off : read_target m t = (false, th, p, off) ->
  (th = None /\ p = t /\ off = Some 0%nat /\ (t = bs "*" \/ head t = Some 47)) \/
  (exists n a rest h, absolute_scheme_len t = Some n /\ drop n t = a ++ rest /\ split_host a = Some h /\ (0 < h)%nat /\
     th = Some (take h a) /\
     ((rest = [] /\ p = bs "/" /\ off = None) \/ (head rest = Some 47 /\ p = rest /\ off = Some (n + length a)%nat))).
Proof.
  unfold read_target. destruct (beq m _); [done|]. destruct (negb _) eqn:En.
  2: { intros [= <- <- <-]. left. repeat split; try done. right. apply negb_false_iff in En. destruct t as [|c t]; [done|].
       apply Z.eqb_eq in En as ->. done. }
  destruct (beq t (bs "*")) eqn:Es; [intros [= _ <- <- <-]; left; repeat split; try done; left; by apply beq_spec|].
  destruct (absolute_scheme_len t) as [n|] eqn:Esc; [|done]. cbv zeta. rewrite memchr_find_byte.
  set (rest := drop n t). destruct (find_byte 47 rest) as [i|] eqn:Ef; cbn [default from_option id].
  - pose proof (find_byte_split _ _ _ Ef) as Hsp. pose proof (find_byte_lt _ _ _ Ef) as Hlt.
    destruct (split_host (take i rest)) as [h|] eqn:Eh; [destruct (Nat.ltb_spec 0 h)|]; destruct (Nat.ltb_spec i (length rest));
      try lia; intros [= <- <- <-]. right.
    exists n, (take i rest), (drop i rest), h. rewrite take_drop. split_and!; try done. right.
    split; [|split; [done|f_equal; rewrite length_take; lia]]. rewrite lookup_drop_head. by apply find_byte_Some in Ef as [? _].
  - rewrite take_ge by done. destruct (split_host rest) as [h|] eqn:Eh; [destruct (Nat.ltb_spec 0 h)|];
      destruct (Nat.ltb_spec (length rest) (length rest)); try lia; intros [= <- <- <-]. right.
    exists n, rest, [], h. rewrite app_nil_r. split_and!; try done. by left.
Qed.

End Absolute.

(** ** The path sent *)

Section SentPath.
Context `{MC : Memchr} `{AR : Arch}.

Lemma resolve_Forall (P : list Z -> Prop) segs kept : P [] -> Forall P segs -> Forall P kept -> Forall P (resolve segs kept).
Proof.
  intros H0 H. revert kept. induction H as [|s r Hs Hr IH]; intros kept Hk; cbn [resolve]; [done|].
  assert (Forall P (tail kept)) by (by destruct Hk). destruct (dot_segment s) as [d|]; [|apply IH; by constructor].
  destruct d as [[|[|n]]|]; destruct r; apply IH; try done; by constructor.
Qed.

(** A segment of good text. *)
Definition good_segment (s : list Z) : Prop :=
  Forall (fun x => is_ x TARGET = true) s /\ (63 ∉ s) /\ utf8_valid s = true /\ Forall u8 s.

Lemma join_good segs : segs <> [] -> Forall good_segment segs -> origin_path (join segs).
Proof.
  intros Hne H. assert (Hall : Forall (fun x => is_ x TARGET = true) (join segs) /\ (63 ∉ join segs) /\
    utf8_valid (join segs) = true /\ Forall u8 (join segs)).
  { clear Hne. induction H as [|s segs (H1 & H2 & H3 & H4) _ (I1 & I2 & I3 & I4)].
    { split; [constructor|]. split; [apply not_elem_of_nil|]. split; [done|constructor]. }
    change (join (s :: segs)) with (47 :: s ++ join segs). split; [|split; [|split]].
    - constructor; [done|]. by apply Forall_app_2.
    - apply not_elem_of_cons. split; [done|]. by apply not_elem_of_app.
    - cbn [utf8_valid]. by rewrite utf8_valid_app.
    - constructor; [red; lia|]. by apply Forall_app_2. }
  split; [|done]. by destruct segs.
Qed.

Lemma segments_good p : origin_path (47 :: p) -> Forall good_segment (path_segments (47 :: p)).
Proof.
  intros (_ & H1 & H2 & H3 & H4).
  enough (forall segs, Forall (fun x => is_ x TARGET = true) (join segs) -> 63 ∉ join segs ->
    utf8_valid (join segs) = true -> Forall u8 (join segs) -> Forall good_segment segs) as H.
  { apply H; by rewrite path_segments_join. }
  clear. induction segs as [|s segs IH]; intros H1 H2 H3 H4; [constructor|].
  change (join (s :: segs)) with (47 :: s ++ join segs) in *.
  inversion H1 as [|? ? _ H1']; subst. inversion H4 as [|? ? _ H4']; subst. apply not_elem_of_cons in H2 as [_ H2].
  apply Forall_app in H1' as [? ?], H4' as [? ?]. apply not_elem_of_app in H2 as [? ?]. cbn in H3.
  assert (utf8_valid s = true /\ utf8_valid (join segs) = true) as [? ?].
  { destruct segs as [|s' segs]; [change (join []) with (@nil Z) in *; by rewrite app_nil_r in H3|].
    change (join (s' :: segs)) with (47 :: s' ++ join segs) in *. by apply utf8_valid_cut in H3 as (? & ? & _). }
  constructor; [done|]. by apply IH.
Qed.

Lemma normalized_origin_path p c : origin_path p -> normalize_path p = Some c -> origin_path (cow_str c).
Proof.
  intros Hp. destruct p as [|x p]; [by destruct Hp|]. assert (x = 47) as -> by (by destruct Hp as [[= ->] _]).
  rewrite normalize_path_segments. cbv zeta. destruct (existsb has_params _); [done|]. destruct (forallb is_plain _).
  { by intros [= <-]. }
  intros [= <-]. cbn [cow_str]. apply join_good.
  - intros E. apply (f_equal (@rev _)) in E. rewrite rev_involutive in E. cbn in E. revert E. apply resolve_ne, split_on_ne.
  - apply Forall_rev, resolve_Forall; [|by apply segments_good|constructor].
    split; [constructor|]. split; [apply not_elem_of_nil|]. split; [done|constructor].
Qed.

Lemma target_before_query t : good_target t -> Forall (fun x => is_ x TARGET = true) (take (query_at t) t).
Proof.
  intros (_ & a & b & Ht & Ha & _ & Hq). destruct (decide (b = [])) as [->|Hne].
  { rewrite app_nil_r in Ht. subst. by apply Forall_take. }
  destruct (query_split t) as (_ & Hn & _). set (k := query_at t) in *.
  assert (k <= length a)%nat.
  { destruct (Nat.le_gt_cases k (length a)) as [|Hgt]; [done|]. exfalso. apply Hn.
    rewrite Ht, take_app, take_ge by lia. apply elem_of_app. left. by apply Hq. }
  rewrite Ht, take_app_le by done. by apply Forall_take.
Qed.

Lemma query_at_skip a t : 63 ∉ a -> query_at (a ++ t) = (length a + query_at t)%nat.
Proof.
  intros Ha. unfold query_at. assert (H : find_byte 63 (a ++ t) = Nat.add (length a) <$> find_byte 63 t).
  { induction a as [|x a IH]; [cbn [app]; by destruct (find_byte 63 t)|]. apply not_elem_of_cons in Ha as [Hx Ha]. cbn [app find_byte length].
    destruct (Z.eqb_spec x 63); [congruence|]. rewrite IH by done. by destruct (find_byte 63 t). }
  rewrite H. destruct (find_byte 63 t); cbn; [done|]. by rewrite length_app.
Qed.

Lemma authority_no_query a h : Forall u8 a -> split_host a = Some h -> (63 ∉ a) /\ (32 ∉ a).
Proof.
  intros Hu Hs. apply split_host_sound in Hs as (host & t & -> & <- & Hh & Ht).
  assert (Hx : forall x, x = 63 \/ x = 32 -> x ∉ host ++ t); [|by split; apply Hx; auto].
  intros x Hx Hin. apply elem_of_app in Hin as [Hin|Hin].
  - destruct Hh as [Hh|(ip & -> & _ & Hip)].
    + rewrite Forall_forall in Hh. apply Hh in Hin. by destruct Hx as [-> | ->]; vm_compute in Hin.
    + rewrite Forall_forall in Hip. apply elem_of_cons in Hin as [->|Hin]; [lia|].
      apply elem_of_app in Hin as [Hin|Hin%list_elem_of_singleton]; [|lia]. apply Hip in Hin.
      by destruct Hx as [-> | ->]; vm_compute in Hin.
  - destruct Ht as [->|(port & -> & Hp)]; [by apply elem_of_nil in Hin|]. apply elem_of_cons in Hin as [->|Hin]; [lia|].
    unfold digits in Hp. rewrite Forall_forall in Hp. apply Hp in Hin. by destruct Hx as [-> | ->]; vm_compute in Hin.
Qed.

(** The path and query of an accepted target, against the target itself. *)
Lemma parsed_path r th p off : good_request r -> Forall u8 (rq_target r) ->
  read_target (rq_method r) (rq_target r) = (false, th, p, off) ->
  (path_query p).2 = drop (S (query_at (rq_target r))) (rq_target r) /\
  (origin_path (path_query p).1 \/ (rq_target r = bs "*" /\ p = bs "*" /\ th = None)).
Proof.
  intros (_ & Ht & Hutf & _) Hu Hrt. set (t := rq_target r) in *.
  assert (Hpq : forall x, path_query x = (take (query_at x) x, drop (S (query_at x)) x)).
  { intros x. unfold path_query, query_at. destruct (find_byte 63 x); [done|]. cbn. by rewrite take_ge, drop_ge by lia. }
  rewrite Hpq. cbn [fst snd].
  assert (Hcut : forall o q, t = o ++ q -> 63 ∉ o -> Forall (fun b => b < 128) o -> head q = Some 47 ->
    drop (S (query_at q)) q = drop (S (query_at t)) t /\ origin_path (take (query_at q) q)).
  { intros o q Hoq Hno Hasc Hh. pose proof (target_before_query t Ht) as Hb. rewrite Hoq, query_at_skip in Hb |- * by done.
    replace (S (length o + query_at q)) with (length o + S (query_at q))%nat by lia.
    rewrite <- drop_drop, drop_app_length. split; [done|]. rewrite take_app_add in Hb. apply Forall_app in Hb as [_ Hb].
    destruct (query_split q) as (Hq & Hn & Hd). rewrite Hoq in Hutf, Hu. apply Forall_app in Hu as [_ Hu].
    rewrite utf8_valid_ascii_app in Hutf by done. split; [|split; [done|split; [done|split; [|by apply Forall_take]]]].
    - rewrite Hq in Hh. destruct (take (query_at q) q) as [|c k] eqn:E; [|done].
      cbn in Hh. destruct Hd as [Hd|[y Hd]]; rewrite Hd in Hh; done.
    - destruct Hd as [Hd|[y Hd]]; rewrite Hq, Hd in Hutf; [by rewrite app_nil_r in Hutf|].
      by apply utf8_valid_cut in Hutf as (? & _). }
  destruct (read_target_shapes _ _ _ _ _ Hrt) as [(-> & -> & -> & Hsh)|(n & a & rest & h & Hsc & Hd & Hs & Hpos & -> & Hrest)].
  - destruct Hsh as [E|Hh]; [split; [done|]; by right|]. destruct (Hcut [] t eq_refl) as [? ?]; [apply not_elem_of_nil|constructor|done|].
    split; [done|]. by left.
  - destruct (scheme_spec t n Hsc) as (Hle & _ & _ & Hno). destruct (scheme_ascii t n Hu Hsc) as [Hasc _].
    assert (Hau : Forall u8 a).
    { apply (Forall_drop _ n) in Hu. rewrite Hd in Hu. by apply Forall_app in Hu as [? _]. }
    destruct (authority_no_query a h Hau Hs) as [Hqa _]. pose proof (authority_ascii a h Hau Hs) as Haa.
    assert (Hpre : t = (take n t ++ a) ++ rest) by (by rewrite <- app_assoc, <- Hd, take_drop).
    assert (H63 : 63 ∉ take n t ++ a).
    { apply not_elem_of_app. split; [|done]. intros Hin. rewrite Forall_forall in Hno. by apply Hno in Hin as [? _]. }
    destruct Hrest as [(-> & -> & _)|(Hh & -> & _)].
    + rewrite app_nil_r in Hpre. rewrite Hpre. rewrite <- (app_nil_r (take n t ++ a)), query_at_skip, app_nil_r by done.
      change (drop (S (query_at (bs "/"))) (bs "/")) with (@nil Z). split; [symmetry; apply drop_ge; lia|]. left. split; [done|]. split; [by repeat constructor|].
      split; [apply (bool_decide_eq_true_1 _); by vm_compute|]. split; [done|]. by apply Forall_u8_literal.
    + destruct (Hcut (take n t ++ a) rest Hpre H63) as [? ?]; [by apply Forall_app_2|done|]. split; [done|]. by left.
Qed.

End SentPath.

(** ** The whole head *)

Section Whole.
Context `{MC : Memchr} `{AR : Arch}.

Lemma render_target r : drop (length (rq_method r) + 1) (render r) =
  rq_target r ++ 32 :: version (rq_http10 r) ++ render_lines (rq_lines r) ++ CRLF_.
Proof.
  unfold render, render_request_line. rewrite <- drop_drop, <- app_assoc, drop_app_length. cbn [app drop].
  by rewrite <- app_assoc.
Qed.

Lemma origin_of_target r th p off sub :
  good_request r -> unambiguous r -> Forall u8 (render r) -> Z.of_nat (length (render r)) < 4294967296 ->
  read_target (rq_method r) (rq_target r) = (false, th, p, off) ->
  let origin := OriginForm_of (render r) (subslice_span (option_map (fun o => (length (rq_method r) + 1 + o)%nat) off) sub) in
  match th with None => origin = None | Some _ => exists o, origin = Some o /\ origin_ok r o end.
Proof.
  intros Hg Hun Hu Hlen Hrt. pose proof Hg as ((_ & Hm) & Ht & _). pose proof (render_target r) as Hd.
  set (m := rq_method r) in *. set (t := rq_target r) in *. set (W := version _ ++ _) in Hd.
  pose proof Hu as Hu0. rewrite <- (app_nil_r (render r)) in Hu0. destruct (render_u8 r [] Hu0) as [Htu _]. fold t in Htu.
  assert (Hat : forall i, render r !! (length m + 1 + i)%nat = (t ++ 32 :: W) !! i) by (intros i; by rewrite <- lookup_drop, Hd).
  assert (Hsp : find_byte 32 (render r) = Some (length m)).
  { unfold render, render_request_line. rewrite <- app_assoc. apply find_byte_app_r. by apply token_no_sp. }
  assert (Hfit : (length m + 1 + length t <= length (render r))%nat).
  { apply (f_equal length) in Hd. rewrite length_drop, length_app in Hd. cbn in Hd. lia. }
  assert (Hu32 : forall n, (n <= length (render r))%nat -> Z.to_nat (as_u32 (Z.of_nat n)) = n).
  { intros n Hn. rewrite as_u32_small by (red; lia). lia. }
  destruct (read_target_shapes _ _ _ _ _ Hrt) as [(-> & _ & -> & _)|(n & a & rest & h & Hsc & Hda & Hs & Hpos & -> & Hrest)].
  - cbn [subslice_span option_map]. unfold OriginForm_of. cbn [option_map]. rewrite Hu32 by lia.
    replace (length m + 1 + 0 - 1)%nat with (length m) by lia. apply find_byte_Some in Hsp as [Hsp _].
    by rewrite bool_decide_eq_true_2.
  - destruct (scheme_spec t n Hsc) as (Hle & Hn & (c & Hc & Hcne) & _).
    assert (Hau : Forall u8 a).
    { apply (Forall_drop _ n) in Htu. rewrite Hda in Htu. by apply Forall_app in Htu as [? _]. }
    destruct (authority_no_query a h Hau Hs) as [_ H32].
    assert (Hla : length t = (n + length a + length rest)%nat).
    { apply (f_equal length) in Hda. rewrite length_drop, length_app in Hda. lia. }
    assert (Hane : (0 < length a)%nat).
    { apply split_host_sound in Hs as (host & x & -> & <- & _). rewrite length_app. lia. }
    assert (Hlt : forall i, (i < length t)%nat -> render r !! (length m + 1 + i)%nat = t !! i).
    { intros i Hi. by rewrite Hat, lookup_app_l. }
    assert (Hok : origin_ok r {| authority := a; of_host_line := host_line (render r) |}).
    { split; [done|]. split; [done|]. exists h. cbn [authority]. split; [done|]. split; [done|].
      unfold target_host. by fold m t; rewrite Hrt. }
    exists {| authority := a; of_host_line := host_line (render r) |}. split; [|exact Hok].
    unfold OriginForm_of. rewrite memchr_find_byte, Hsp.
    assert (Htgt : render r !! (length m + 1)%nat = Some c).
    { replace (length m + 1)%nat with (length m + 1 + 0)%nat by lia. rewrite Hlt by lia. done. }
    rewrite Htgt, Hcne.
    assert (Hstart : (length m + 1 + (if bool_decide (render r !! (length m + 1 + 4)%nat = Some 58%Z) then 7 else 8))%nat
                     = (length m + 1 + n)%nat).
    { rewrite Hn at 1. rewrite Hlt; [done|]. destruct (bool_decide _); lia. }
    rewrite Hstart.
    assert (Hdn : drop (length m + 1 + n) (render r) = a ++ rest ++ 32 :: W).
    { rewrite <- drop_drop, Hd, drop_app_le, Hda, <- app_assoc by done. done. }
    assert (Hauth : forall e, e = (length m + 1 + (n + length a))%nat -> slice (length m + 1 + n) e (render r) = a).
    { intros e ->. unfold slice. rewrite Hdn. replace (_ - _)%nat with (length a) by lia. apply take_app_length. }
    destruct Hrest as [(-> & -> & ->)|(_ & -> & ->)]; cbn [subslice_span option_map].
    + rewrite memchr_find_byte, Hdn. cbn [app]. rewrite find_byte_app_r by (apply Forall_forall; intros x Hx ->; done).
      cbn [option_map]. rewrite Hauth by lia. done.
    + rewrite Hu32 by lia. rewrite bool_decide_eq_false_2.
      * rewrite Hauth by done. done.
      * replace (length m + 1 + (n + length a) - 1)%nat with (length m + 1 + (n + (length a - 1)))%nat by lia.
        rewrite Hlt by lia. rewrite <- lookup_drop, Hda, lookup_app_l by lia. intros Hx. apply H32.
        by apply list_elem_of_lookup_2 in Hx.
Qed.

End Whole.

Section Theorems.
Context {RE : RegexEngine} `{MC : Memchr} `{AR : Arch}.

(** What [forward_head] writes is a rendered request. *)
Lemma forward_head_sends r rest info npath meta ip is_tls :
  good_request r -> unambiguous r -> Forall u8 (render r ++ rest) -> Z.of_nat (length (render r)) < 4294967296 -> ip_ok ip ->
  extract_routing_info (render r ++ rest) = Ok info -> normalize_path (HttpParser.path info) = Some npath ->
  path_span meta = subslice_span (path_at info) (HttpParser.path info) ->
  normalized_path meta = match npath with Owned p => Some p | Borrowed _ => None end ->
  meta_is_upgrade meta = is_upgrade info -> meta_strip_spans meta = strip_spans info ->
  meta_upgrade_span meta = upgrade_span info ->
  exists path stays origin, faithful stays (rq_lines r) /\ origin_fits r origin /\ path_fits r path origin /\
    (path = None -> target_host r = None) /\ (path = Some (cow_str npath) \/ path = None /\ cow_str npath = HttpParser.path info) /\
    forward_head (render r) meta (ForwardedLines_new ip is_tls) = render (sent r path stays (is_upgrade info) origin ip is_tls).
Proof.
  intros Hg Hun Hu Hlen Hip Hi Hn Hspan Hnp Hup Hss Hus.
  destruct (extract_reading r rest Hg Hun Hu) as (info' & Hi' & Hv & _ & _ & _ & _ & _ & _ & Hpq & Hat).
  assert (info' = info) as -> by congruence. clear Hi'.
  destruct (render_u8 r rest Hu) as [Htu Hl]. pose proof Hu as [Hur _]%Forall_app.
  assert (Hnames : Forall (fun l : line => Forall u8 l.1) (rq_lines r)) by (eapply Forall_impl; [exact Hl|]; by intros l [? _]).
  pose proof (un_target r Hun) as Hviol. unfold target_violation in Hviol.
  destruct (read_target (rq_method r) (rq_target r)) as [[[viol th] p] off] eqn:Hrt. cbn [fst snd] in *. subst viol.
  destruct (parsed_path r th p off Hg Htu Hrt) as [Hq Hop].
  pose proof (origin_of_target r th p off (HttpParser.path info) Hg Hun Hur Hlen Hrt) as Ho. cbv zeta in Ho.
  rewrite <- Hat, <- Hspan in Ho. set (origin := OriginForm_of (render r) (path_span meta)) in *.
  assert (Hpi : HttpParser.path info = (path_query p).1) by (by rewrite <- Hpq).
  assert (Hor : origin_fits r origin /\ origin_of_head r origin).
  { destruct th; [destruct Ho as (o & -> & Hok); by split; [|apply Hok]|by rewrite Ho]. }
  destruct Hor as [Hof Hoh].
  assert (Hpf : path_fits r (outgoing_path (render r) origin meta) origin /\
    (outgoing_path (render r) origin meta = None -> target_host r = None) /\
    (outgoing_path (render r) origin meta = Some (cow_str npath) \/
     outgoing_path (render r) origin meta = None /\ cow_str npath = HttpParser.path info)).
  { destruct th as [th|].
    - destruct Ho as (o & E & _). rewrite E. cbn [outgoing_path].
      destruct Hop as [Hop|(_ & _ & ?)]; [|done]. rewrite <- Hpi in Hop.
      destruct (extract_reading r [] Hg Hun) as (info0 & Hi0 & Hv0 & _ & _ & _ & _ & _ & _ & Hpq0 & Hat0); [by rewrite app_nil_r|].
      rewrite Hrt in Hpq0, Hat0. cbn [fst snd] in Hpq0, Hat0. rewrite app_nil_r in Hi0.
      assert (HttpParser.path info0 = HttpParser.path info) as Hsame by congruence.
      rewrite (meta_path (render r) info0 npath meta); [|done|done|done|done|by rewrite Hsame|by rewrite Hsame, Hat0, <- Hat|done].
      split; [|split; [done|by left]]. split; [|done]. by apply (normalized_origin_path (HttpParser.path info)).
    - rewrite Ho. cbn [outgoing_path]. rewrite Hnp. assert (Hno : target_host r = None) by (unfold target_host; by rewrite Hrt).
      destruct npath as [s|s].
      + split; [done|]. split; [done|]. right. split; [done|]. by apply normalize_borrowed in Hn.
      + split; [|split; [done|by left]]. split.
        * destruct Hop as [Hop|(Ht & -> & _)]; [rewrite <- Hpi in Hop; by apply (normalized_origin_path _ (Owned s) Hop)|].
          exfalso. rewrite Hpi in Hn. vm_compute in Hn. done.
        * intros _. unfold target_host. by rewrite Hrt. }
  destruct Hpf as (Hpf & Hnone & Hpath). unfold forward_head. fold origin. rewrite Hup, Hss, Hus.
  destruct (needs_slow_path (strip_spans info)) eqn:Eslow.
  - exists (outgoing_path (render r) origin meta), (slow_stays (nominated (render r)) (is_upgrade info)), origin.
    split; [by apply slow_faithful|]. split; [done|]. split; [done|]. split; [done|]. split; [done|]. by apply slow_sends.
  - exists (outgoing_path (render r) origin meta), (fast_stays (is_upgrade info)), origin.
    split; [by apply fast_faithful|]. split; [done|]. split; [done|]. split; [done|]. split; [done|].
    destruct (parsed_lines r rest info Hg Hun Hu Hlen Hi Eslow) as (-> & -> & Hs1 & Hs2 & _). by apply fast_sends.
Qed.

(** No request smuggling. Whenever a request is forwarded, the head
    written to the backend (either writer, any target form, before filters)
    is read back by the same strict parser without a violation, ends where
    the buffer ends, and carries the method, host, query and body framing
    the request was routed by, and the very path the route was found for. *)
Theorem backend_reads_routed_request routes st data reads is_tls port b rule meta st' ip :
  Forall u8 data -> Z.of_nat (length data) < 2 ^ 32 -> ip_ok ip ->
  analyze_http_request routes st data reads is_tls port = (HttpForward b rule meta, st') ->
  let raw := take (meta_head_len meta) data in
  let out := forward_head raw meta (ForwardedLines_new ip is_tls) in
  exists info info', extract_routing_info data = Ok info /\
    extract_routing_info out = Ok info' /\ header_violation info' = false /\ head_len info' = length out /\
    method info' = method info /\ lowercase (info_host info') = lowercase (info_host info) /\
    content_length info' = meta_content_length meta /\ is_chunked info' = meta_is_chunked meta /\
    HttpParser.path info' = RequestMeta_path meta data /\ query_string info' = query_string info.
Proof.
  intros Hu Hlen Hip H. apply forward_inv in H
    as (info & npath & i & Hi & Hv & Hn & _ & _ & _ & _ & Hspan & Hnp & Hhl & Hcl & Hch & Hup & Hss & Hus & _).
  pose proof (meta_path data info npath meta Hu Hlen Hi Hv Hn Hspan Hnp) as Hmp.
  destruct (extract_accepts data info Hu Hi Hv) as (r & rest & -> & Hg & Hun).
  destruct (extract_reading r rest Hg Hun Hu) as (info0 & Hi0 & _ & Hm & Hh & _ & Hl & Hc & Hc2 & Hpq & Hat).
  assert (info0 = info) as -> by congruence. clear Hi0. rewrite Hhl, Hl. cbv zeta. rewrite take_app_length.
  assert (Hlr : Z.of_nat (length (render r)) < 4294967296).
  { change (2 ^ 32) with 4294967296 in Hlen. rewrite length_app in Hlen. lia. }
  destruct (forward_head_sends r rest info npath meta ip is_tls Hg Hun Hu Hlr Hip Hi Hn Hspan Hnp Hup Hss Hus)
    as (path & stays & origin & Hf & Ho & Hp & _ & Hpath & ->).
  pose proof Hu as [Hur _]%Forall_app.
  destruct (sent_reading r path stays (is_upgrade info) origin ip is_tls Hg Hun Hur Hlr Hip Hf Ho Hp)
    as (info' & Hi' & Hv' & Hl' & Hm' & Hh' & Hc' & Hch' & Hpq').
  exists info, info'. rewrite Hcl, Hch, Hmp. split_and!; try done; [congruence..| |].
  all: destruct (render_u8 r rest Hu) as [Htu _]; pose proof (un_target r Hun) as Hviol; unfold target_violation in Hviol.
  all: destruct (read_target (rq_method r) (rq_target r)) as [[[viol th] p] off] eqn:Hrt; cbn [fst snd] in *; subst viol.
  all: destruct (parsed_path r th p off Hg Htu Hrt) as [Hq _]; rewrite <- Hpq in Hq; cbn [snd] in Hq.
  all: destruct Hpath as [->|[-> Hc0]].
  all: try (destruct Hp as [Hp _]; rewrite path_query_new_target in Hpq' by done).
  all: congruence.
Qed.

End Theorems.

Section Unreadable.
Context `{MC : Memchr} `{AR : Arch}.

(** A Connection value that is not UTF-8 nominates no header on the
    slow path, although its other tokens are what sent the request there:
    the headers it names are forwarded. *)
Theorem unreadable_connection_nominates_nothing r :
  good_request r -> Forall u8 (render r) ->
  Forall (fun v => utf8_valid v = false) (values (bs "connection") (rq_lines r)) ->
  nominated (render r) = [].
Proof.
  intros Hg Hu Hv. unfold nominated. rewrite header_lines_render by done. cbn [map concat].
  rewrite header_value_if_request by done. cbn [app].
  pose proof Hu as Hu0. rewrite <- (app_nil_r (render r)) in Hu0. destruct (render_u8 r [] Hu0) as [_ Hl].
  destruct Hg as (_ & _ & _ & Hg). induction Hg as [|l ls Hgl Hg IH]; [done|].
  inversion Hl as [|? ? Hul Hl']; subst. rewrite values_cons in Hv. apply Forall_app in Hv as [Hv1 Hv2].
  cbn [map concat]. rewrite IH by done. rewrite header_value_if_text, (eqi_lower l.1) by done.
  case_bool_decide; [|done]. inversion Hv1 as [|? ? Hx _]; subst. unfold from_utf8. by rewrite Hx.
Qed.

End Unreadable.

(** ** Witnesses *)

#[local] Existing Instance literal_regex.

Lemma backend_reads_routed_request_witness : exists b meta st' info',
  analyze_http_request (AR := Little) sample_table sample_state sample_data (steady HealthRegistry_new) false 80
  = (HttpForward b (with_metadata sample_rule (bs "h.test")) meta, st') /\
  extract_routing_info (AR := Little)
    (forward_head (take (meta_head_len meta) sample_data) meta (ForwardedLines_new (V6 1) false)) = Ok info' /\
  header_violation info' = false /\ content_length info' = meta_content_length meta.
Proof.
  destruct sample_decides as (b & meta & st' & E).
  destruct (backend_reads_routed_request (AR := Little) sample_table sample_state sample_data (steady HealthRegistry_new)
    false 80 b _ meta st' (V6 1) sample_u8 ltac:(vm_compute; reflexivity) ltac:(cbn; lia) E)
    as (info & info' & _ & H1 & H2 & _ & _ & _ & H3 & _).
  exists b, meta, st', info'. exact (conj E (conj H1 (conj H2 H3))).
Defined.

(** The bytes of that head. *)
Example sample_outgoing : exists b meta st',
  analyze_http_request (AR := Little) sample_table sample_state sample_data (steady HealthRegistry_new) false 80
  = (HttpForward b (with_metadata sample_rule (bs "h.test")) meta, st') /\
  forward_head (take (meta_head_len meta) sample_data) meta (ForwardedLines_new (V6 1) false) =
  crlf_lines [bs "POST /a?q=\ HTTP/1.1"; bs "Host: h.test:80"; bs "Content-Length: 4"; bs "X-Forwarded-For: ::1";
              bs "X-Forwarded-Proto: http"; []].
Proof. eexists _, _, _. split; [vm_compute; reflexivity|vm_compute; reflexivity]. Qed.

Definition unreadable_request : request :=
  {| rq_method := bs "GET"; rq_target := bs "/"; rq_http10 := false;
     rq_lines := [(bs "Host", bs "h"); (bs "Connection", bs "secret, " ++ [255]); (bs "Secret", bs "1")] |}.

Lemma unreadable_connection_nominates_nothing_witness :
  nominated (render unreadable_request) = [] /\
  assemble_forward_headers_slow (render unreadable_request) None false None [] =
    crlf_lines [bs "GET / HTTP/1.1"; bs "Host:h"; bs "Secret:1"; []].
Proof.
  split; [|vm_compute; reflexivity]. apply (unreadable_connection_nominates_nothing unreadable_request).
  - split; [split; [done|repeat constructor]|]. split; [|split; [done|repeat constructor; done]].
    split; [done|]. exists (bs "/"), []. by repeat constructor.
  - apply Forall_u8_literal. by vm_compute.
  - repeat constructor.
Defined.
