(* ===== verification/Response.v ===== *)
(** * Response heads and bodies

    The response side of [src/src/proxy/worker.rs]: the two readings of a
    backend's response head ([scan_response_head], [parse_response_head]),
    the framing the relay follows ([frame_response]), and the relay itself,
    [read_response_head], [forward_response_headers] and
    [forward_response_body], as functions of what the backend sends: its
    reads, in order, the end of the list being its close. A relay returns the
    bytes written to the client. Timeouts and I/O errors cut such a run short
    and are not modelled; replies the proxy writes itself are in
    [LocalReply.v]. *)

From S2P Require Import Prelude Bytes Net HttpGrammar Chunked Routing HttpParser HttpFilters.

(** ** One reading of a head *)

Inductive BodyFraming :=
  | Length (n : Z)
  | ChunkedBody
  | Close.

#[export] Instance BodyFraming_eq_dec : EqDecision BodyFraming.
Proof. solve_decision. Defined.

Record ResponseHead := {
  head_status : Z;
  head_body : BodyFraming;
  head_backend_close : bool;
}.

Inductive HeadScan :=
  | Partial
  | Malformed
  | Head (end_ : nat) (head : ResponseHead) (cuts : option ResponseCuts).

(** The status line without its CRLF. *)
Definition parse_status_line (line : list Z) : option (Z * bool) :=
  match line with
  | h :: t1 :: t2 :: p :: sl :: one :: dot :: minor :: sp :: d0 :: d1 :: d2 :: reason =>
      if negb (beq [h; t1; t2; p; sl; one; dot] (bs "HTTP/1.") && (sp =? SP) && (49 <=? d0) && (d0 <=? 57)) then None
      else if negb (is_ascii_digit minor && is_ascii_digit d1 && is_ascii_digit d2)
              || negb (match reason with [] => true | c :: _ => c =? SP end)
              || negb (forallb is_field_value_byte reason)
      then None
      else Some ((d0 - 48) * 100 + (d1 - 48) * 10 + (d2 - 48), minor =? 48)
  | _ => None
  end.

(** The mutable locals both readings share. *)
Record ResponseFields := {
  r_content_length : option Z;
  r_chunked : bool;
  r_close : bool;
  r_keep_alive : bool;
}.

Definition ResponseFields_init : ResponseFields :=
  {| r_content_length := None; r_chunked := false; r_close := false; r_keep_alive := false |}.

(** The loop over a Connection value's tokens. *)
Definition connection_tokens (f : ResponseFields) (value : list Z) : ResponseFields :=
  fold_left (fun f token =>
    let token := trim_ows token in
    {| r_content_length := r_content_length f; r_chunked := r_chunked f;
       r_close := r_close f || eq_ignore_ascii_case token (bs "close");
       r_keep_alive := r_keep_alive f || eq_ignore_ascii_case token (bs "keep-alive") |}) (split_on 44 value) f.

(** The end of both readings. *)
Definition read_head (status : Z) (is_http10 : bool) (f : ResponseFields) : option ResponseHead :=
  if r_chunked f && is_http10 then None
  else Some {| head_status := status;
               head_body := match r_chunked f, r_content_length f with
                            | true, _ => ChunkedBody
                            | false, Some n => Length n
                            | false, None => Close
                            end;
               head_backend_close := r_close f || (is_http10 && negb (r_keep_alive f)) |}.

Section Heads.
Context `{MC : Memchr} `{AR : Arch}.

(** One line of [parse_response_head]. *)
Definition response_line (f : ResponseFields) (line : list Z) : option ResponseFields :=
  if is_some (memchr CR line) then None
  else match memchr 58 line with
  | None => None
  | Some colon =>
      let name := take colon line in
      let value := drop (colon + 1) line in
      if negb (is_token name) then None
      else if eq_ignore_ascii_case name (bs "content-length") then
        match parse_digits (trim_ows value) with
        | None => None
        | Some n =>
            if match r_content_length f with Some seen => negb (seen =? n) | None => false end then None
            else Some {| r_content_length := Some n; r_chunked := r_chunked f; r_close := r_close f;
                         r_keep_alive := r_keep_alive f |}
        end
      else if eq_ignore_ascii_case name (bs "transfer-encoding") then
        if r_chunked f || negb (eq_ignore_ascii_case (trim_ows value) (bs "chunked")) then None
        else Some {| r_content_length := r_content_length f; r_chunked := true; r_close := r_close f;
                     r_keep_alive := r_keep_alive f |}
      else if eq_ignore_ascii_case name (bs "connection") then Some (connection_tokens f value)
      else Some f
  end.

Fixpoint response_lines (f : ResponseFields) (lines : list (list Z)) : option ResponseFields :=
  match lines with
  | [] => Some f
  | line :: rest => match response_line f line with None => None | Some f' => response_lines f' rest end
  end.

Definition parse_response_head (head : list Z) : option ResponseHead :=
  match header_lines head with
  | [] => None
  | first :: rest =>
      match parse_status_line first with
      | None => None
      | Some (status, is_http10) =>
          match response_lines ResponseFields_init rest with
          | None => None
          | Some f => read_head status is_http10 f
          end
      end
  end.

(** ** The one-pass reading *)

Inductive LineEnd := LineCr (cr : nat) | LinePartial | LineIrregular.

(** [data.get(pos..pos + 2)] *)
Definition get2 (data : list Z) (pos : nat) : option (Z * Z) :=
  match drop pos data with a :: b :: _ => Some (a, b) | _ => None end.

(** Each turn moves past a byte. *)
Fixpoint line_end_from (fuel : nat) (data : list Z) (pos : nat) : LineEnd :=
  match fuel with
  | O => LinePartial
  | S fuel' =>
      let pos := field_value_end data pos in
      match get2 data pos with
      | Some (a, b) =>
          if (a =? CR) && (b =? LF) then LineCr pos
          else if (a =? CR) || (a =? LF) then LineIrregular
          else line_end_from fuel' data (pos + 1)
      | None => LinePartial
      end
  end.

Definition line_end (data : list Z) (pos : nat) : LineEnd := line_end_from (S (length data)) data pos.

Definition ResponseCuts_default : ResponseCuts := {| strip := StripSpans_default; cuts_length := None |}.

Definition cut_strip (c : ResponseCuts) (start end_ : nat) : ResponseCuts :=
  {| strip := push (strip c) start end_; cuts_length := cuts_length c |}.

(** Where the value of the first Content-Length line starts past its leading
    zeros, and where it ends. *)
Definition length_cut (start colon pos : nat) (value : list Z) : (Z * Z) * (Z * Z) :=
  let digits := trim_ows value in
  let at_ := (colon + 1 + span_len is_ows value)%nat in
  let zeros := span_len (fun b => b =? 48) digits in
  ((as_u32 (Z.of_nat start), as_u32 (Z.of_nat pos)),
   (as_u32 (Z.of_nat (at_ + Nat.min zeros (length digits - 1))), as_u32 (Z.of_nat (at_ + length digits)))).

(** The match on a line's name: [None] where the pass gives up. *)
Definition regular_line (f : ResponseFields) (c : ResponseCuts) (start colon pos : nat) (name value : list Z)
  : option (ResponseFields * ResponseCuts) :=
  if named name 14 99 (bs "content-length") then
    match parse_digits (trim_ows value) with
    | None => None
    | Some n =>
        let f' := {| r_content_length := Some n; r_chunked := r_chunked f; r_close := r_close f;
                     r_keep_alive := r_keep_alive f |} in
        match r_content_length f with
        | None => Some (f', {| strip := strip c; cuts_length := Some (length_cut start colon pos value) |})
        | Some seen => if negb (seen =? n) then None else Some (f', cut_strip c start pos)
        end
    end
  else if named name 17 116 (bs "transfer-encoding") then
    if r_chunked f || negb (eq_ignore_ascii_case (trim_ows value) (bs "chunked")) then None
    else Some ({| r_content_length := r_content_length f; r_chunked := true; r_close := r_close f;
                  r_keep_alive := r_keep_alive f |}, c)
  else if named name 10 99 (bs "connection") then Some (connection_tokens f value, cut_strip c start pos)
  else if is_hop_by_hop_response_header name then Some (f, cut_strip c start pos)
  else Some (f, c).

Inductive Scanned :=
  | GaveUp
  | RanOut
  | Blank (pos : nat) (f : ResponseFields) (c : ResponseCuts).

Fixpoint scan_lines (fuel : nat) (data : list Z) (pos : nat) (f : ResponseFields) (c : ResponseCuts) : Scanned :=
  match fuel with
  | O => GaveUp
  | S fuel' =>
      match get2 data pos with
      | None => RanOut
      | Some (a, b) =>
          if (a =? CR) && (b =? LF) then Blank pos f c
          else if (a =? CR) || (a =? LF) then GaveUp
          else
            let start := pos in
            let colon := (start + span_len is_tchar (drop start data))%nat in
            match data !! colon with
            | None => RanOut
            | Some x =>
                if negb ((x =? 58) && (start <? colon)%nat) then GaveUp
                else match line_end data (colon + 1) with
                | LineIrregular => GaveUp
                | LinePartial => RanOut
                | LineCr cr =>
                    match regular_line f c start colon (cr + 2) (slice start colon data) (slice (colon + 1) cr data) with
                    | None => GaveUp
                    | Some (f', c') => scan_lines fuel' data (cr + 2) f' c'
                    end
                end
            end
      end
  end.

Definition scan_regular_head (data : list Z) : option HeadScan :=
  match line_end data 0 with
  | LinePartial => Some Partial
  | LineIrregular => None
  | LineCr status_end =>
      match parse_status_line (take status_end data) with
      | None => None
      | Some (status, is_http10) =>
          match scan_lines (S (length data)) data (status_end + 2) ResponseFields_init ResponseCuts_default with
          | GaveUp => None
          | RanOut => Some Partial
          | Blank pos f c =>
              match read_head status is_http10 f with
              | None => None
              | Some head => Some (Head (pos + 2) head (if needs_slow_path (strip c) then None else Some c))
              end
          end
      end
  end.

Definition scan_response_head (data : list Z) : HeadScan :=
  match scan_regular_head data with
  | Some scan => scan
  | None =>
      match find_header_end data with
      | None => Partial
      | Some end_ =>
          match parse_response_head (take end_ data) with
          | Some head => Head end_ head None
          | None => Malformed
          end
      end
  end.

(** ** Framing *)

Definition response_has_no_body (status : Z) (is_head : bool) : bool :=
  is_head || (status =? 204) || (status =? 304) || ((100 <=? status) && (status <? 200)).

Record ResponseFraming := {
  fr_status : Z;
  fr_backend_close : bool;
  fr_content_length : option Z;
  no_body : bool;
  body_bytes_already_forwarded : Z;
  fr_chunked : option ChunkedStream;
  overshoot : bool;
}.

Definition close_delimited (f : ResponseFraming) : bool :=
  negb (no_body f) && negb (is_some (fr_content_length f)) && negb (is_some (fr_chunked f)).

Definition frame_response (parsed : ResponseHead) (header_buf : list Z) (header_end : nat)
  (is_head_request expect_upgrade : bool) : ResponseFraming :=
  let status := head_status parsed in
  let nobody := response_has_no_body status is_head_request in
  let framing cl fwd ch over :=
    {| fr_status := status; fr_backend_close := head_backend_close parsed; fr_content_length := cl;
       no_body := nobody; body_bytes_already_forwarded := fwd; fr_chunked := ch; overshoot := over |} in
  let tail_ := drop header_end header_buf in
  let tail_len := Z.of_nat (length tail_) in
  if is_head_request then framing None 0 None false
  else if (status =? 101) && expect_upgrade then framing None tail_len None false
  else if nobody then framing None 0 None (negb (is_nil tail_))
  else match head_body parsed with
  | ChunkedBody =>
      let '(stream, consumed) :=
        if is_nil tail_ then (ChunkedStream_new, 0%nat) else observe ChunkedStream_new tail_ in
      framing None (Z.of_nat consumed) (Some stream) (is_terminated stream && (consumed <? length tail_)%nat)
  | Length cl => framing (Some cl) (Z.min tail_len cl) None (cl <? tail_len)
  | Close => framing None tail_len None false
  end.

(** ** Reading the head *)

Definition RESPONSE_HEADER_CAP : nat := Z.to_nat 65536.
Definition MAX_INTERIM_RESPONSES : nat := 8.

Inductive HeadRead :=
  | HeadReadHead (end_ : nat) (head : ResponseHead) (cuts : option ResponseCuts)
  | HeadReadMalformed
  | Unanswered.

Inductive HeadError := TooManyInterim | HeadersTooLarge | ClosedMidHead.

(** The buffered interim responses a turn swallows before it reads or
    returns. Each drains a head of at least a byte. *)
Inductive Swallowed :=
  | NeedsMore (buf : list Z) (interim_seen : nat)
  | Settled (r : HeadRead) (buf : list Z)
  | TooMany.

Definition is_interim (status : Z) : bool := (100 <=? status) && (status <? 200) && negb (status =? 101).

Fixpoint swallow (fuel : nat) (buf : list Z) (interim_seen : nat) : Swallowed :=
  match fuel with
  | O => NeedsMore buf interim_seen
  | S fuel' =>
      match scan_response_head buf with
      | Partial => NeedsMore buf interim_seen
      | Malformed => Settled HeadReadMalformed buf
      | Head header_end head cuts =>
          if is_interim (head_status head) then
            if (MAX_INTERIM_RESPONSES <? S interim_seen)%nat then TooMany
            else swallow fuel' (drop header_end buf) (S interim_seen)
          else Settled (HeadReadHead header_end head cuts) buf
      end
  end.

(** [read_response_head]: what it settled on, the buffer it left and the
    reads it did not take. At most [MAX_INTERIM_RESPONSES] turns drain
    between two reads. *)
Fixpoint read_response_head (reads : list (list Z)) (buf : list Z) (interim_seen : nat) (answered : bool)
  : result (HeadRead * list Z * list (list Z)) HeadError :=
  match swallow (S (S MAX_INTERIM_RESPONSES)) buf interim_seen with
  | TooMany => Err TooManyInterim
  | Settled r buf' => Ok (r, buf', reads)
  | NeedsMore buf' seen =>
      if (RESPONSE_HEADER_CAP <? length buf')%nat then Err HeadersTooLarge
      else match reads with
      | chunk :: rest => read_response_head rest (buf' ++ chunk) seen true
      | [] => if answered then Err ClosedMidHead else Ok (Unanswered, buf', [])
      end
  end.

(** ** Forwarding *)

Inductive HeaderPhase :=
  | Proxied (framing : ResponseFraming) (keep : bool)
  | ErrorSent (status : Z)
  | PhaseUnanswered.

(** [forward_response_headers] of the head in [header_buf]: the phase and
    what the client is sent of the response ([ErrorSent]'s reply is the
    proxy's own). [keep_alive] is [keep_open(drain, keepalive)]. *)
Definition forward_response_head (head_read : HeadRead) (header_buf : list Z) (resp_mods : option HeaderModifications)
  (is_head_request expect_upgrade keep_alive : bool) : HeaderPhase * list Z :=
  match head_read with
  | HeadReadMalformed => (ErrorSent 502, [])
  | Unanswered => (PhaseUnanswered, [])
  | HeadReadHead resp_header_end head cuts =>
      let framing := frame_response head header_buf resp_header_end is_head_request expect_upgrade in
      if (fr_status framing =? 101) && negb expect_upgrade then (ErrorSent 502, [])
      else
        let tail_end := (resp_header_end + Z.to_nat (body_bytes_already_forwarded framing))%nat in
        if fr_status framing =? 101 then (Proxied framing false, take tail_end header_buf)
        else
          let content_length := match head_body head with Length n => Some n | _ => None end in
          let keep := keep_alive && negb (close_delimited framing) in
          let scratch := sanitize_response_headers (take resp_header_end header_buf) content_length cuts (negb keep) in
          let headers := match resp_mods with Some mods => apply_response_header_mods scratch mods | None => scratch end in
          (Proxied framing keep, headers ++ slice resp_header_end tail_end header_buf)
  end.

Inductive BodyEnd := Complete | Closed | Truncated | BodyBroken.

(** Where a relay left off: how the body ended, what it wrote, whether the
    backend overshot, and the reads it did not take. *)
Record Relayed := {
  body_end : BodyEnd;
  written : list Z;
  overshot : bool;
  unread : list (list Z);
}.

Definition wrote_before (w : list Z) (r : Relayed) : Relayed :=
  {| body_end := body_end r; written := w ++ written r; overshot := overshot r; unread := unread r |}.

(** The read loop of [forward_response_body]. *)
Fixpoint relay_body (reads : list (list Z)) (cl : option Z) (forwarded : Z) (stream : option ChunkedStream)
  (delimited_by_close over : bool) : Relayed :=
  match reads with
  | [] => {| body_end := if delimited_by_close then Closed else Truncated; written := []; overshot := over; unread := [] |}
  | buf :: rest =>
      match stream with
      | Some s =>
          let '(s', consumed) := observe s buf in
          if is_broken s' then {| body_end := BodyBroken; written := []; overshot := over; unread := rest |}
          else if is_terminated s' then
            {| body_end := Complete; written := take consumed buf; overshot := over || (consumed <? length buf)%nat;
               unread := rest |}
          else wrote_before (take consumed buf) (relay_body rest cl forwarded (Some s') delimited_by_close over)
      | None =>
          match cl with
          | Some n =>
              let to_write := Z.min (Z.of_nat (length buf)) (n - forwarded) in
              let forwarded' := forwarded + to_write in
              if n <=? forwarded' then
                {| body_end := Complete; written := take (Z.to_nat to_write) buf;
                   overshot := over || (to_write <? Z.of_nat (length buf)); unread := rest |}
              else wrote_before (take (Z.to_nat to_write) buf)
                     (relay_body rest cl forwarded' None delimited_by_close over)
          | None => wrote_before buf (relay_body rest cl forwarded None delimited_by_close over)
          end
      end
  end.

Definition forward_response_body (reads : list (list Z)) (framing : ResponseFraming) : Relayed :=
  let ended e := {| body_end := e; written := []; overshot := overshoot framing; unread := reads |} in
  if no_body framing then ended Complete
  else if match fr_content_length framing with
          | Some cl => cl <=? body_bytes_already_forwarded framing
          | None => false
          end then ended Complete
  else if match fr_chunked framing with Some s => is_terminated s | None => false end then ended Complete
  else if match fr_chunked framing with Some s => is_broken s | None => false end then ended BodyBroken
  else relay_body reads (fr_content_length framing) (body_bytes_already_forwarded framing) (fr_chunked framing)
         (close_delimited framing) (overshoot framing).

End Heads.

Definition backend_conn_poolable (framing_clean is_head was_upgrade : bool) : bool :=
  framing_clean && negb is_head && negb was_upgrade.
