(* ===== verification/ResponseBody.v ===== *)
(** * Response bodies

    The relay of a response body ([frame_response], [forward_response_body]
    of [src/src/proxy/worker.rs], modelled in [Response.v]) sends the client
    the body the head frames, byte for byte, however the backend's bytes are
    cut into reads. *)

From S2P Require Import Prelude Bytes Net HttpGrammar Chunked Routing HttpParser HttpFilters Response.

(** ** Bodies, whatever the reads *)

(** What a client is sent of a body, out of everything the backend sends
    from the end of the head to its close, and how the body ended. *)
Definition body_ends (body : option BodyFraming) (stream sent : list Z) (e : BodyEnd) : Prop :=
  match body with
  | None => e = Complete /\ sent = []
  | Some (Length n) =>
      (n <= Z.of_nat (length stream) /\ e = Complete /\ sent = take (Z.to_nat n) stream)
      \/ (Z.of_nat (length stream) < n /\ e = Truncated /\ sent = stream)
  | Some ChunkedBody =>
      (e = Complete /\ exists p rest, stream = sent ++ rest /\ chunked_body sent p)
      \/ (e = Truncated /\ sent = stream /\ forall w rest p, stream = w ++ rest -> ~ chunked_body w p)
      \/ (e = BodyBroken /\ sent `prefix_of` stream
          /\ forall more w rest p, stream ++ more = w ++ rest -> ~ chunked_body w p)
  | Some Close => e = Closed /\ sent = stream
  end.

(** The body a response with this head carries. *)
Definition response_body (head : ResponseHead) (is_head : bool) : option BodyFraming :=
  if response_has_no_body (head_status head) is_head then None else Some (head_body head).

(** Nothing taken off the connection was left unsent. *)
Definition clean (reads : list (list Z)) (r : Relayed) : Prop :=
  concat reads = written r ++ concat (unread r).

Lemma run_open ph l q n o : run ph l = (q, n, o) -> q <> Done -> q <> Broken -> n = length l.
Proof.
  revert ph n o. induction l as [|b t IH]; intros ph n o; cbn [run]; [by intros [= _ <- _]|].
  intros H Hd Hb.
  assert (H' : let '(ph', o1) := bstep ph b in
    match ph' with Broken => (Broken, 0%nat, []) | _ => let '(q, n, o') := run ph' t in (q, S n, o1 ++ o') end = (q, n, o)).
  { destruct ph; try exact H; injection H; intros; congruence. }
  clear H. destruct (bstep ph b) as [ph' o1].
  destruct (run ph' t) as [[q' n'] o'] eqn:E. specialize (IH ph' n' o').
  destruct ph'; injection H'; intros; subst; try congruence; cbn [length]; f_equal; by apply IH.
Qed.

Lemma wrote_before_clean w rest r : clean rest r -> clean (w :: rest) (wrote_before w r).
Proof. unfold clean. cbn [concat wrote_before written unread]. intros ->. by rewrite app_assoc. Qed.

Lemma relay_close reads cl fwd over : cl = None ->
  let r := relay_body reads cl fwd None true over in
  body_end r = Closed /\ written r = concat reads /\ unread r = [] /\ overshot r = over.
Proof.
  intros ->. induction reads as [|buf rest IH]; [done|]. cbn [relay_body]. destruct IH as (H1 & H2 & H3 & H4).
  cbn [wrote_before body_end written unread overshot concat]. by rewrite H2.
Qed.

Lemma take_all_z (l : list Z) n : Z.of_nat (length l) <= n -> take (Z.to_nat n) l = l.
Proof. intros H. apply take_ge. lia. Qed.

Lemma relay_length reads n fwd d over : fwd < n ->
  let r := relay_body reads (Some n) fwd None d over in
  let stream := concat reads in
  (n - fwd <= Z.of_nat (length stream) /\ body_end r = Complete /\ written r = take (Z.to_nat (n - fwd)) stream
    /\ (overshot r = false -> clean reads r) /\ (overshot r = false -> over = false))
  \/ (Z.of_nat (length stream) < n - fwd /\ body_end r = (if d then Closed else Truncated) /\ written r = stream
      /\ unread r = []).
Proof.
  revert fwd. induction reads as [|buf rest IH]; intros fwd Hf; cbn [relay_body concat].
  { right. cbn. split; [lia|done]. }
  set (w := Z.min (Z.of_nat (length buf)) (n - fwd)). rewrite length_app.
  destruct (Z.leb_spec n (fwd + w)); cbn [body_end written overshot unread].
  - left. split; [lia|]. split; [done|]. assert (Hw : w = n - fwd /\ n - fwd <= Z.of_nat (length buf)) by lia. destruct Hw as [-> Hle]. split; [|split].
    + rewrite take_app_le by lia. done.
    + intros [_ Hge]%orb_false_iff. apply Z.ltb_ge in Hge. unfold clean. cbn [written unread concat].
      by rewrite take_all_z by lia.
    + by intros [-> _]%orb_false_iff.
  - assert (w = Z.of_nat (length buf)) as Hw by lia. cbn [wrote_before body_end written overshot unread].
    destruct (IH (fwd + w) ltac:(lia)) as [(H1 & H2 & H3 & H4 & H5)|(H1 & H2 & H3 & H4)].
    + left. split; [lia|]. split; [done|]. split; [|split; [|done]].
      * rewrite H3, (take_all_z buf) by lia. rewrite take_app_ge by lia. do 2 f_equal. lia.
      * intros Ho. rewrite (take_all_z buf) by lia. apply wrote_before_clean. auto.
    + right. split; [lia|]. split; [done|]. split; [|done]. by rewrite H3, (take_all_z buf) by lia.
Qed.

Lemma observe_run s data : phase_ok (phase s) ->
  observe s data = ({| phase := (run (phase s) data).1.1 |}, (run (phase s) data).1.2).
Proof. intros H. unfold observe. rewrite advance_run by done. by destruct (run (phase s) data) as [[q n] o]. Qed.

(** The chunked relay follows the run over the whole stream. *)
Lemma relay_chunked reads cl fwd s over :
  phase_ok (phase s) -> phase s <> Done -> phase s <> Broken ->
  let r := relay_body reads cl fwd (Some s) false over in
  let stream := concat reads in
  let '(q, n, _) := run (phase s) stream in
  (q = Done /\ body_end r = Complete /\ written r = take n stream
    /\ (overshot r = false -> clean reads r) /\ (overshot r = false -> over = false))
  \/ (q <> Done /\ q <> Broken /\ body_end r = Truncated /\ written r = stream)
  \/ (q = Broken /\ body_end r = BodyBroken /\ written r `prefix_of` stream).
Proof.
  revert s. induction reads as [|buf rest IH]; intros s Hok Hd Hb; cbn [relay_body concat].
  { cbn [run]. right. left. done. }
  rewrite observe_run by done. rewrite run_app. pose proof (run_ok (phase s) buf Hok) as Hok'.
  pose proof (run_consumed (phase s) buf) as Hc. destruct (run (phase s) buf) as [[q n] o] eqn:Er. cbn [fst snd] in *.
  unfold is_broken, is_terminated. cbn [phase].
  destruct (bool_decide_reflect (q = Broken)) as [->|Hqb].
  { right. right. cbn [body_end written]. split; [done|]. split; [done|]. apply prefix_nil. }
  destruct (bool_decide_reflect (q = Done)) as [->|Hqd].
  { cbn [run]. assert (Hr : run Done (concat rest) = (Done, 0%nat, [])) by (by destruct (concat rest)).
    rewrite Hr. left. cbn [body_end written overshot unread]. split; [done|]. split; [done|]. rewrite Nat.add_0_r.
    split; [by rewrite take_app_le by lia|]. split; [|by intros [-> _]%orb_false_iff].
    intros [_ Hge]%orb_false_iff. apply Nat.ltb_ge in Hge. unfold clean. cbn [concat written unread].
    by rewrite take_ge by lia. }
  assert (n = length buf) as -> by (by eapply run_open).
  specialize (IH {| phase := q |} Hok' Hqd Hqb). cbn [phase] in IH. rewrite firstn_all.
  assert (Hm : match q with Broken => (q, length buf, o) | _ => let '(q', n', o') := run q (concat rest) in (q', (length buf + n')%nat, o ++ o') end
    = (let '(q', n', o') := run q (concat rest) in (q', (length buf + n')%nat, o ++ o'))) by (by destruct q).
  rewrite Hm. destruct (run q (concat rest)) as [[q' n'] o'].
  cbn [wrote_before body_end written overshot unread].
  destruct IH as [(-> & H2 & H3 & H4 & H5)|[(H1 & H2 & H3 & H4)|(-> & H2 & H3)]].
  - left. split; [done|]. split; [done|]. split; [|split; [|done]].
    + rewrite H3. rewrite take_app_ge by lia. do 2 f_equal. lia.
    + intros Ho. apply wrote_before_clean. auto.
  - right. left. split_and!; try done. by rewrite H4.
  - right. right. split_and!; try done. by apply prefix_app.
Qed.

Lemma fresh_ok : phase_ok (Size 0 false).
Proof. vm_compute. intuition discriminate. Qed.

(** A chunked body at the head of a stream is where the run ends. *)
Lemma chunked_run w rest p : chunked_body w p -> run (Size 0 false) (w ++ rest) = (Done, length w, p).
Proof.
  intros H. apply run_done; [apply fresh_ok|]. rewrite length_app, take_app_length. split; [lia|]. by apply expects_start.
Qed.

Lemma run_not_done stream q n o : run (Size 0 false) stream = (q, n, o) -> q <> Done ->
  forall w rest p, stream = w ++ rest -> ~ chunked_body w p.
Proof. intros Hr Hq w rest p -> Hb. rewrite (chunked_run _ _ _ Hb) in Hr. congruence. Qed.

Lemma run_broken_app ph a b n o : run ph a = (Broken, n, o) -> run ph (a ++ b) = (Broken, n, o).
Proof. rewrite run_app. by intros ->. Qed.

Section Bodies.


Variables (head : ResponseHead) (buf : list Z) (header_end : nat) (is_head expect_upgrade : bool).
Let framing := frame_response head buf header_end is_head expect_upgrade.
Let tail_ := drop header_end buf.
Hypothesis Hproxied : (head_status head =? 101) && expect_upgrade = false.

Lemma frame_no_body : no_body framing = response_has_no_body (head_status head) is_head.
Proof. subst framing. unfold frame_response. repeat case_match; done. Qed.

Definition tail_sent : list Z :=
  slice header_end (header_end + Z.to_nat (body_bytes_already_forwarded framing)) buf.

Lemma tail_sent_take : tail_sent = take (Z.to_nat (body_bytes_already_forwarded framing)) tail_.
Proof. unfold tail_sent, slice. f_equal. lia. Qed.

Definition body_spec (reads : list (list Z)) : Prop :=
  let r := forward_response_body reads framing in
  let sent := tail_sent ++ written r in
  body_ends (response_body head is_head) (tail_ ++ concat reads) sent (body_end r)
  /\ (body_end r = Complete -> backend_conn_poolable (negb (overshot r)) is_head false = true ->
      tail_ ++ concat reads = sent ++ concat (unread r)).

Lemma no_body_spec reads : response_has_no_body (head_status head) is_head = true -> body_spec reads.
Proof.
  intros Hn. unfold body_spec, forward_response_body. rewrite frame_no_body, Hn. cbn [body_end written overshot unread].
  unfold response_body. rewrite Hn, tail_sent_take, app_nil_r. unfold framing, frame_response.
  destruct is_head; cbn [body_bytes_already_forwarded overshoot backend_conn_poolable negb andb].
  { split; [by rewrite take_0|done]. }
  rewrite Hproxied, Hn. cbn [body_bytes_already_forwarded overshoot]. rewrite take_0. split; [done|]. intros _ Hp.
  unfold tail_. by destruct (drop header_end buf).
Qed.

Lemma length_spec reads n : response_has_no_body (head_status head) is_head = false -> head_body head = Length n -> 0 <= n ->
  body_spec reads.
Proof.
  intros Hn Hb Hpos. unfold body_spec, forward_response_body. rewrite frame_no_body, Hn. unfold response_body.
  rewrite Hn, Hb, tail_sent_take. unfold framing, frame_response.
  assert (is_head = false) as -> by (by destruct is_head). rewrite Hproxied, Hn, Hb. cbn [negb].
  cbn [fr_content_length fr_chunked body_bytes_already_forwarded overshoot close_delimited no_body is_some negb andb].
  fold tail_. assert (Hfwd : 0 <= Z.min (Z.of_nat (length tail_)) n <= n) by lia. pose proof (Z.le_min_l (Z.of_nat (length tail_)) n) as Hl.
  pose proof (Z.min_spec (Z.of_nat (length tail_)) n) as Hs. remember (Z.min (Z.of_nat (length tail_)) n) as fwd eqn:Ef. clear Ef.
  destruct (Z.leb_spec n fwd) as [Hle|Hlt].
  - cbn [body_end written unread overshot]. assert (fwd = n) by lia. subst fwd. rewrite app_nil_r. split.
    + left. rewrite length_app. split; [lia|]. split; [done|]. by rewrite take_app_le by lia.
    + intros _ Hc. cbn [backend_conn_poolable andb negb] in Hc. unfold backend_conn_poolable in Hc. bool_simpl.
      by rewrite take_all_z by lia.
  - assert (fwd = Z.of_nat (length tail_)) as Hf by lia. rewrite (take_all_z tail_) by lia.
    destruct (relay_length reads n fwd false (n <? Z.of_nat (length tail_)) Hlt)
      as [(H1 & H2 & H3 & H4 & H5)|(H1 & H2 & H3 & H4)]; cbv zeta in *.
    + split.
      * left. rewrite length_app. split; [lia|]. split; [done|]. rewrite H3, take_app_ge by lia. do 2 f_equal. lia.
      * intros _ Hc. unfold backend_conn_poolable in Hc. bool_simpl. rewrite <- app_assoc. f_equal. by apply H4.
    + split; [|by rewrite H2]. right. rewrite length_app, H3. split; [lia|done].
Qed.

Lemma close_spec reads : response_has_no_body (head_status head) is_head = false -> head_body head = Close -> body_spec reads.
Proof.
  intros Hn Hb. unfold body_spec, forward_response_body. rewrite frame_no_body, Hn. unfold response_body.
  rewrite Hn, Hb, tail_sent_take. unfold framing, frame_response.
  assert (is_head = false) as -> by (by destruct is_head). rewrite Hproxied, Hn, Hb.
  cbn [fr_content_length fr_chunked body_bytes_already_forwarded overshoot].
  unfold close_delimited. cbn [fr_content_length fr_chunked no_body is_some negb andb].
  fold tail_. rewrite (take_all_z tail_) by lia.
  destruct (relay_close reads None (Z.of_nat (length tail_)) false eq_refl) as (H1 & H2 & H3 & _).
  split; [by rewrite H1, H2|by rewrite H1].
Qed.

Lemma chunked_spec reads : response_has_no_body (head_status head) is_head = false -> head_body head = ChunkedBody ->
  body_spec reads.
Proof.
  intros Hn Hb. unfold body_spec, forward_response_body. rewrite frame_no_body, Hn. unfold response_body.
  rewrite Hn, Hb, tail_sent_take. unfold framing, frame_response.
  assert (is_head = false) as -> by (by destruct is_head). rewrite Hproxied, Hn, Hb. fold tail_.
  assert (Ho : (if is_nil tail_ then (ChunkedStream_new, 0%nat) else observe ChunkedStream_new tail_) =
    ({| phase := (run (Size 0 false) tail_).1.1 |}, (run (Size 0 false) tail_).1.2)).
  { destruct tail_; [done|]. cbn [is_nil]. rewrite observe_run by apply fresh_ok. done. }
  rewrite Ho. pose proof (run_ok _ tail_ fresh_ok) as Hok. pose proof (run_consumed (Size 0 false) tail_) as Hc.
  destruct (run (Size 0 false) tail_) as [[q n] o] eqn:Er. cbn [fst snd] in *.
  cbn [fr_content_length fr_chunked body_bytes_already_forwarded overshoot]. unfold is_terminated, is_broken. cbn [phase].
  rewrite Nat2Z.id.
  unfold close_delimited. cbn [fr_content_length fr_chunked no_body is_some negb andb].
  pose proof (run_app (Size 0 false) tail_ (concat reads)) as Happ. rewrite Er in Happ.
  destruct (bool_decide_reflect (q = Done)) as [->|Hqd].
  { cbn [body_end written overshot unread]. rewrite app_nil_r. split.
    - left. split; [done|]. exists o, (drop n tail_ ++ concat reads). split; [by rewrite app_assoc, take_drop|].
      apply expects_start. by apply run_done in Er as [_ He]; [|apply fresh_ok].
    - intros _ Hp. unfold backend_conn_poolable in Hp. bool_simpl. cbn [andb] in *. bool_simpl. by rewrite take_ge by lia. }
  destruct (bool_decide_reflect (q = Broken)) as [->|Hqb].
  { cbn [body_end written]. rewrite app_nil_r. split; [|done]. right. right. split; [done|]. split.
    - exists (drop n tail_ ++ concat reads). by rewrite app_assoc, take_drop.
    - intros more. rewrite <- app_assoc. apply (run_not_done _ Broken n o); [by apply run_broken_app|done]. }
  assert (n = length tail_) as -> by (by eapply run_open). rewrite firstn_all.
  pose proof (relay_chunked reads None (Z.of_nat (length tail_)) {| phase := q |} false Hok Hqd Hqb) as Hr.
  cbn [phase andb] in *. cbv zeta in Hr.
  assert (Happ' : run (Size 0 false) (tail_ ++ concat reads) =
    let '(q', n', o') := run q (concat reads) in (q', (length tail_ + n')%nat, o ++ o')) by (rewrite Happ; by destruct q).
  destruct (run q (concat reads)) as [[q' n'] o'].
  destruct Hr as [(-> & H2 & H3 & H4 & _)|[(H1 & H2 & H3 & H4)|(-> & H2 & H3)]].
  - split.
    + left. split; [done|]. exists (o ++ o'), (drop n' (concat reads)). rewrite H3, <- app_assoc, take_drop. split; [done|].
      apply run_done in Happ' as [_ He]; [|apply fresh_ok]. apply expects_start.
      rewrite take_app_add' in He by done. done.
    + intros _ Hp. unfold backend_conn_poolable in Hp. bool_simpl. rewrite <- app_assoc. f_equal. by apply H4.
  - split; [|by rewrite H3]. right. left. rewrite H4. split; [done|]. split; [done|]. by eapply run_not_done.
  - split; [|by rewrite H2]. right. right. split; [done|]. split; [by apply prefix_app|].
    intros more. apply (run_not_done _ Broken (length tail_ + n')%nat (o ++ o')); [by apply run_broken_app|done].
Qed.

End Bodies.

(** Every framing. *)
Lemma body_relayed head buf header_end is_head expect_upgrade reads :
  (head_status head =? 101) && expect_upgrade = false -> match head_body head with Length n => 0 <= n | _ => True end ->
  body_spec head buf header_end is_head expect_upgrade reads.
Proof.
  intros Hup Hlen. destruct (response_has_no_body (head_status head) is_head) eqn:Hn; [by apply no_body_spec|].
  destruct (head_body head) as [n| |] eqn:Hb; [by eapply length_spec|by apply chunked_spec|by apply close_spec].
Qed.

(** ** Properties *)

(** Whatever the reads the backend's bytes arrive in, the client is sent
    exactly the body the head frames: nothing after a response without one,
    [Content-Length] bytes, one chunked body up to its terminator, or
    everything up to the backend's close; and the end the relay reports is
    [Complete] only when that body was whole. Of a connection that may go
    back to the pool, no byte was read that the client was not sent. *)
Theorem response_body_exact head buf header_end is_head expect_upgrade reads
  (Hup : (head_status head =? 101) && expect_upgrade = false)
  (Hlen : match head_body head with Length n => 0 <= n | _ => True end) :
  let framing := frame_response head buf header_end is_head expect_upgrade in
  let r := forward_response_body reads framing in
  let sent := slice header_end (header_end + Z.to_nat (body_bytes_already_forwarded framing)) buf ++ written r in
  let stream := drop header_end buf ++ concat reads in
  body_ends (response_body head is_head) stream sent (body_end r)
  /\ (body_end r = Complete -> backend_conn_poolable (negb (overshot r)) is_head false = true ->
      stream = sent ++ concat (unread r)).
Proof. by apply body_relayed. Qed.

Definition sample_head (b : BodyFraming) : ResponseHead :=
  {| head_status := 200; head_body := b; head_backend_close := false |}.

Lemma response_body_exact_witness :
  (head_status (sample_head (Length 5)) =? 101) && false = false /\ 0 <= 5 /\
  let framing := frame_response (sample_head (Length 5)) (bs "head" ++ bs "ab") 4 false false in
  let r := forward_response_body [bs "c"; bs "defg"] framing in
  (5 <= 7 /\ Complete = Complete /\ bs "abcde" = bs "abcde") \/ (7 < 5 /\ Complete = Truncated /\ bs "abcde" = bs "abcdefg").
Proof.
  split; [reflexivity|]. split; [lia|].
  pose proof (proj1 (response_body_exact (sample_head (Length 5)) (bs "head" ++ bs "ab") 4 false false
    [bs "c"; bs "defg"] eq_refl ltac:(vm_compute; discriminate))) as H.
  vm_compute in H. vm_compute. exact H.
Defined.

Example relay_drops_overshoot :
  (let '{| body_end := e; written := w; overshot := o |} :=
     forward_response_body [bs "3"; [13; 10]; bs "abc"; [13; 10; 48; 13]; [10; 13; 10] ++ bs "HTTP"]
       (frame_response (sample_head ChunkedBody) [] 0 false false) in (e, w, o))
  = (Complete, bs "3" ++ [13; 10] ++ bs "abc" ++ [13; 10; 48; 13; 10; 13; 10], true).
Proof. vm_compute. reflexivity. Qed.
