(* ===== verification/ResponseScan.v ===== *)
(** * Response heads

    The head functions of [src/src/proxy/worker.rs] modelled in
    [Response.v]: the one-pass scan of a response head reads what the
    line-by-line parser reads, the spans it records cut the head as the line
    copy of [src/src/proxy/http_filters.rs] writes it, the head a client is
    sent reads back with the status and framing the relay follows, and the
    reads off the connection settle on the first head that is no interim
    response. *)

From S2P Require Import Prelude Bytes Net HttpGrammar Routing HttpParser HttpFilters Outgoing Response.

(** ** Lines *)

Definition in_line (b : Z) : bool := negb ((b =? CR) || (b =? LF)).

(** A line's text: no line break in it. *)
Definition line_bytes (l : list Z) : Prop := Forall (fun b => in_line b = true) l.

Lemma value_in_line b : is_field_value_byte b = true -> in_line b = true.
Proof.
  intros H. unfold in_line. destruct (Z.eqb_spec b CR) as [->|]; [by vm_compute in H|].
  destruct (Z.eqb_spec b LF) as [->|]; [by vm_compute in H|done].
Qed.

Lemma line_bytes_no_cr l : line_bytes l -> Forall (fun x => x <> 13) l.
Proof. intros H. eapply Forall_impl; [exact H|]. by intros x Hx ->. Qed.

Lemma line_bytes_no_lf l : line_bytes l -> Forall (fun x => x <> 10) l.
Proof. intros H. eapply Forall_impl; [exact H|]. by intros x Hx ->. Qed.

Section Scan.
Context `{MC : Memchr} `{AR : Arch}.

Definition line_break (data : list Z) (pos : nat) : nat := (pos + span_len in_line (drop pos data))%nat.

Lemma get2_drop data pos l : drop pos data = l -> get2 data pos = match l with a :: b :: _ => Some (a, b) | _ => None end.
Proof. unfold get2. by intros ->. Qed.

(** [line_end] stops at the first CR or LF. *)
Lemma line_end_from_spec fuel data pos : Forall u8 data -> (length data - pos < fuel)%nat ->
  line_end_from fuel data pos =
  match get2 data (line_break data pos) with
  | Some (a, b) => if (a =? CR) && (b =? LF) then LineCr (line_break data pos) else LineIrregular
  | None => LinePartial
  end.
Proof.
  intros Hu. revert pos. induction fuel as [|fuel IH]; intros pos Hf; [lia|]. cbn [line_end_from].
  rewrite field_value_end_span by done.
  destruct (span_len_split is_field_value_byte (drop pos data)) as (a & b & Hd & Hl & Ha & Hb).
  rewrite <- Hl. assert (Hd' : drop (pos + length a) data = b) by (rewrite <- drop_drop, Hd; apply drop_app_length).
  assert (Ha' : Forall (fun x => in_line x = true) a) by (eapply Forall_impl; [exact Ha|]; intros x; apply value_in_line).
  assert (Hlen : (length (drop pos data) = length a + length b)%nat) by (rewrite Hd; apply length_app).
  rewrite length_drop in Hlen. rewrite (get2_drop _ _ _ Hd').
  assert (Hbr : line_break data pos = (pos + length a + span_len in_line b)%nat).
  { unfold line_break. rewrite Hd. rewrite span_len_app_all by done. lia. }
  assert (Hdb : drop (line_break data pos) data = drop (span_len in_line b) b).
  { rewrite Hbr, <- drop_drop, Hd'. done. }
  rewrite (get2_drop _ _ _ Hdb).
  destruct b as [|x [|y b]].
  - done.
  - cbn [span_len]. by destruct (in_line x).
  - destruct (in_line x) eqn:Ex.
    + pose proof Ex as Hx. apply negb_true_iff, orb_false_iff in Hx as [Hx1 Hx2]. rewrite Hx1, Hx2. cbn [andb orb].
      assert (Hd1 : drop (pos + length a + 1) data = y :: b) by (rewrite <- drop_drop, Hd'; done).
      rewrite IH by (cbn [length] in Hlen; lia).
      assert (Hbr1 : line_break data (pos + length a + 1) = line_break data pos).
      { rewrite Hbr. unfold line_break. rewrite Hd1. cbn [span_len]. rewrite Ex. cbn [span_len]. lia. }
      rewrite Hbr1, (get2_drop _ _ _ Hdb). done.
    + cbn [span_len] in Hbr |- *. rewrite Ex in Hbr |- *. rewrite Nat.add_0_r in Hbr. cbn [drop]. rewrite Hbr.
      unfold in_line in Ex. apply negb_false_iff in Ex. rewrite Ex. done.
Qed.

Lemma line_end_spec data pos : Forall u8 data ->
  match line_end data pos with
  | LineCr cr => exists l tl, drop pos data = l ++ 13 :: 10 :: tl /\ line_bytes l /\ cr = (pos + length l)%nat
  | LinePartial => exists l t, drop pos data = l ++ t /\ line_bytes l /\ (length t <= 1)%nat
  | LineIrregular => True
  end.
Proof.
  intros Hu. unfold line_end. rewrite line_end_from_spec by (done || lia).
  destruct (span_len_split in_line (drop pos data)) as (l & t & Hd & Hl & Ha & Ht).
  unfold line_break. rewrite <- Hl.
  assert (Hd' : drop (pos + length l) data = t) by (rewrite <- drop_drop, Hd; apply drop_app_length).
  rewrite (get2_drop _ _ _ Hd'). destruct t as [|x [|y t]].
  - exists l, []. split_and!; [done|done|cbn; lia].
  - exists l, [x]. split_and!; [done|done|cbn; lia].
  - destruct ((x =? CR) && (y =? LF)) eqn:E; [|done]. apply andb_true_iff in E as [->%Z.eqb_eq ->%Z.eqb_eq].
    exists l, t. done.
Qed.

(** ** The scan is a fold over the lines *)

Definition plain_line (l : line) : Prop := token l.1 /\ Forall u8 l.1 /\ line_bytes l.2.

(** Where the bytes ran out: inside a line, or before one. *)
Definition open_tail (tl : list Z) : Prop := exists k t, tl = k ++ t /\ line_bytes k /\ (length t <= 1)%nat.

Fixpoint scan_fold (f : ResponseFields) (c : ResponseCuts) (p : nat) (ls : list line)
  : option (ResponseFields * ResponseCuts) :=
  match ls with
  | [] => Some (f, c)
  | l :: rest =>
      let p' := (p + length (render_line l))%nat in
      match regular_line f c p (p + length l.1) p' l.1 l.2 with
      | None => None
      | Some (f', c') => scan_fold f' c' p' rest
      end
  end.

Lemma tchar_in_line b : is_tchar b = true -> in_line b = true.
Proof.
  intros H. unfold in_line. destruct (Z.eqb_spec b CR) as [->|]; [by vm_compute in H|].
  destruct (Z.eqb_spec b LF) as [->|]; [by vm_compute in H|done].
Qed.

Lemma token_line_bytes n : Forall (fun b => is_tchar b = true) n -> line_bytes n.
Proof. intros H. eapply Forall_impl; [exact H|]. intros x. apply tchar_in_line. Qed.

Lemma scan_lines_spec fuel data pos f c : Forall u8 data -> (length data - pos < fuel)%nat ->
  match scan_lines fuel data pos f c with
  | GaveUp => True
  | RanOut => exists ls tl, drop pos data = render_lines ls ++ tl /\ Forall plain_line ls /\ open_tail tl
  | Blank p f' c' => exists ls tl, drop pos data = render_lines ls ++ 13 :: 10 :: tl /\ Forall plain_line ls
      /\ p = (pos + length (render_lines ls))%nat /\ scan_fold f c pos ls = Some (f', c')
  end.
Proof.
  intros Hu. revert pos f c. induction fuel as [|fuel IH]; intros pos f c Hf; [lia|]. cbn [scan_lines].
  unfold get2. destruct (drop pos data) as [|a [|b t]] eqn:Hd.
  { exists [], []. split_and!; [done|by constructor|]. exists [], []. split_and!; [done|by constructor|cbn; lia]. }
  { exists [], [a]. split_and!; [done|by constructor|]. exists [], [a]. split_and!; [done|by constructor|cbn; lia]. }
  destruct ((a =? CR) && (b =? LF)) eqn:Ebl.
  { apply andb_true_iff in Ebl as [->%Z.eqb_eq ->%Z.eqb_eq]. exists [], t. cbn. split_and!; [done|by constructor|lia|done]. }
  destruct ((a =? CR) || (a =? LF)) eqn:Eirr; [done|].
  rewrite <- Hd. destruct (span_len_split is_tchar (drop pos data)) as (n & r & Hs & Hl & Hn & Hr).
  rewrite <- Hl. assert (Hdn : drop (pos + length n) data = r) by (rewrite <- drop_drop, Hs; apply drop_app_length).
  assert (Hx : data !! (pos + length n)%nat = head r) by (rewrite <- lookup_drop_head, Hdn; done).
  rewrite Hx. destruct r as [|x r]; cbn [head].
  { exists [], (n ++ []). split_and!; [by rewrite Hs|by constructor|]. exists n, [].
    split_and!; [done|by apply token_line_bytes|cbn; lia]. }
  destruct ((x =? 58) && (pos <? pos + length n)%nat) eqn:Ecol; cbn [negb]; [|done].
  apply andb_true_iff in Ecol as [->%Z.eqb_eq Hne%Nat.ltb_lt].
  pose proof (line_end_spec data (pos + length n + 1) Hu) as Hle.
  assert (Hdv : drop (pos + length n + 1) data = r) by (rewrite <- drop_drop, Hdn; done). rewrite Hdv in Hle.
  destruct (line_end data _) as [cr| |]; [|destruct Hle as (v & t' & -> & Hv & Ht')|done].
  2: { exists [], (n ++ 58 :: v ++ t'). split_and!; [by rewrite Hs|by constructor|]. exists (n ++ 58 :: v), t'.
       split_and!; [by rewrite <- app_assoc| |done]. apply Forall_app. split; [by apply token_line_bytes|]. by constructor. }
  destruct Hle as (v & tl & -> & Hv & ->).
  assert (Hsn : slice pos (pos + length n) data = n).
  { unfold slice. rewrite Hs. replace (_ - _)%nat with (length n) by lia. apply take_app_length. }
  assert (Hsv : slice (pos + length n + 1) (pos + length n + 1 + length v) data = v).
  { unfold slice. rewrite Hdv. replace (_ - _)%nat with (length v) by lia. apply take_app_length. }
  rewrite Hsn, Hsv.
  assert (Hp : (pos + length n + 1 + length v + 2 = pos + length (render_line (n, v)))%nat).
  { rewrite length_render_line. cbn [fst snd]. lia. }
  rewrite Hp. assert (Hd' : drop (pos + length (render_line (n, v))) data = tl).
  { rewrite <- Hp. rewrite <- drop_drop, <- drop_drop, Hdv, drop_app_length. done. }
  assert (Hlen : (length (drop pos data) = length (render_line (n, v)) + length tl)%nat).
  { rewrite Hs, length_render_line, !length_app. cbn [length fst snd]. rewrite length_app. cbn [length]. lia. }
  assert (Hg : plain_line (n, v)).
  { split; [split; [by destruct n; [cbn in Hne; lia|]|done]|]. split; [|done]. cbn [fst].
    assert (Hud : Forall u8 (drop pos data)) by (by apply Forall_drop). rewrite Hs in Hud. by apply Forall_app in Hud as [? _]. }
  assert (Hr' : drop pos data = render_line (n, v) ++ tl).
  { rewrite Hs. unfold render_line. cbn [fst snd]. rewrite <- app_assoc. cbn [app]. by rewrite <- app_assoc. }
  destruct (regular_line f c pos (pos + length n) _ n v) as [[f' c']|] eqn:Er; [|done].
  rewrite length_drop in Hlen. pose proof (length_render_line (n, v)).
  specialize (IH (pos + length (render_line (n, v)))%nat f' c' ltac:(lia)).
  destruct (scan_lines fuel data _ f' c') as [| |p f'' c'']; [done| |].
  - destruct IH as (ls & tl' & Hls & Hpl & Ho). exists ((n, v) :: ls), tl'. split_and!; [|by constructor|done].
    rewrite Hr', <- Hd', Hls. unfold render_lines. cbn [map concat]. by rewrite <- app_assoc.
  - destruct IH as (ls & tl' & Hls & Hpl & -> & Hfo). exists ((n, v) :: ls), tl'. split_and!; [|by constructor| |].
    + rewrite Hr', <- Hd', Hls. unfold render_lines. cbn [map concat]. by rewrite <- app_assoc.
    + unfold render_lines. cbn [map concat]. rewrite length_app. lia.
    + cbn [scan_fold fst snd]. by rewrite Er.
Qed.

(** ** Where the head ends *)

Lemma plain_line_text l : plain_line l -> whole_line (line_text l) /\ line_bytes (line_text l) /\
  memchr 58 (line_text l) = Some (length l.1).
Proof.
  intros ([Hne Hn] & Hu & Hv).
  assert (Ht : line_bytes (line_text l)).
  { apply Forall_app. split; [by apply token_line_bytes|]. by constructor. }
  split; [split; [unfold line_text; by destruct l.1|by apply line_bytes_no_lf]|]. split; [done|].
  rewrite memchr_find_byte. apply find_byte_app_r. by apply token_no_colon.
Qed.

Lemma first_blank_plain k ls tl : Forall (fun x => x <> 13) k -> Forall plain_line ls ->
  first_blank (k ++ CRLF_ ++ render_lines ls ++ tl) =
  Nat.add (length k + length (render_lines ls)) <$> first_blank (CRLF_ ++ tl).
Proof.
  intros Hk Hls. revert k Hk. induction Hls as [|l ls Hl Hls IH]; intros k Hk.
  { change (render_lines [] ++ tl) with tl. rewrite first_blank_skip by done. cbn [length render_lines map concat].
    by rewrite Nat.add_0_r. }
  destruct (plain_line_text l Hl) as (_ & Hcr%line_bytes_no_cr & _).
  destruct (line_text l) as [|c t] eqn:Ec; [by destruct (proj1 Hl); unfold line_text in Ec; destruct l.1|].
  assert (Hx : render_lines (l :: ls) ++ tl = (c :: t) ++ CRLF_ ++ render_lines ls ++ tl).
  { unfold render_lines. cbn [map concat]. rewrite render_line_text, Ec, <- !app_assoc. done. }
  rewrite Hx. change ((c :: t) ++ ?x) with (c :: (t ++ x)). inversion Hcr; subst.
  rewrite first_blank_line by done. change (c :: t ++ ?x) with ((c :: t) ++ x). rewrite IH by done.
  rewrite <- option_fmap_compose. apply option_fmap_ext. intros n. cbn [compose].
  unfold render_lines. cbn [map concat]. rewrite length_app, (render_line_text l), Ec, length_app. cbn [length]. lia.
Qed.

Lemma first_blank_open tl : open_tail tl -> first_blank (CRLF_ ++ tl) = None.
Proof.
  intros (k & t & -> & Hk & Ht). destruct Hk as [|c k Hc Hk].
  - destruct t as [|x [|y t]]; [done|done|cbn in Ht; lia].
  - assert (Hcr : Forall (fun x => x <> 13) (c :: k)) by (by apply line_bytes_no_cr, Forall_cons).
    inversion Hcr; subst. change (CRLF_ ++ (c :: k) ++ t) with ([] ++ CRLF_ ++ c :: (k ++ t)). rewrite first_blank_line by done.
    change (c :: k ++ t) with ((c :: k) ++ t). rewrite first_blank_skip by done.
    destruct t as [|x [|y t]]; [done|done|cbn in Ht; lia].
Qed.

Lemma first_blank_hit tl : first_blank (CRLF_ ++ 13 :: 10 :: tl) = Some 4%nat.
Proof. done. Qed.

(** A line cut short is no blank line. *)
Lemma first_blank_short l t : line_bytes l -> (length t <= 1)%nat -> first_blank (l ++ t) = None.
Proof.
  intros Hl Ht. rewrite first_blank_skip by (by apply line_bytes_no_cr). destruct t as [|x [|y t]]; [done|done|cbn in Ht; lia].
Qed.

(** ** The lines read alike *)

Lemma response_line_regular f c p l : plain_line l ->
  response_line f (line_text l) =
  fst <$> regular_line f c p (p + length l.1) (p + length (render_line l)) l.1 l.2.
Proof.
  intros Hl. destruct (plain_line_text l Hl) as (_ & Ht & Hm). destruct Hl as ([Hne Hn] & Hu & Hv).
  unfold response_line.
  assert (memchr CR (line_text l) = None) as ->.
  { rewrite memchr_find_byte. apply find_byte_None_iff. intros Hin. apply line_bytes_no_cr in Ht.
    rewrite Forall_forall in Ht. by apply (Ht _ Hin). }
  cbn [is_some]. rewrite Hm.
  assert (take (length l.1) (line_text l) = l.1) as -> by apply take_app_length.
  assert (drop (length l.1 + 1) (line_text l) = l.2) as -> by (rewrite <- drop_drop; unfold line_text; by rewrite drop_app_length).
  assert (is_token l.1 = true) as ->.
  { unfold is_token. destruct l.1; [done|]. by apply forallb_Forall. }
  cbn [negb]. unfold regular_line. rewrite !named_exact by done.
  assert (Hk : forall s, lowercase s = s -> eq_ignore_ascii_case l.1 s = bool_decide (lowercase l.1 = s)).
  { intros s Hs. apply eq_true_iff_eq. by rewrite eq_ignore_ascii_case_spec, bool_decide_eq_true, Hs. }
  rewrite !Hk by done. repeat case_bool_decide; try done.
  - destruct (parse_digits _) as [n|]; [|done]. destruct (r_content_length f) as [seen|]; [|done]. by destruct (negb (seen =? n)).
  - by destruct (_ || _).
  - by destruct (is_hop_by_hop_response_header l.1).
Qed.

Lemma response_lines_fold f c p ls : Forall plain_line ls ->
  response_lines f (map line_text ls) = fst <$> scan_fold f c p ls.
Proof.
  intros Hls. revert f c p. induction Hls as [|l ls Hl _ IH]; intros f c p; [done|]. cbn [map response_lines scan_fold].
  rewrite (response_line_regular f c p l Hl). destruct (regular_line _ _ _ _ _ _ _) as [[f' c']|]; [|done].
  cbn [fmap option_fmap option_map fst]. apply IH.
Qed.

Lemma header_lines_plain first ls : line_bytes first -> first <> [] -> Forall plain_line ls ->
  header_lines (first ++ CRLF_ ++ render_lines ls ++ CRLF_) = first :: map line_text ls.
Proof.
  intros Hf Hne Hls. rewrite render_lines_text.
  assert (Hx : first ++ CRLF_ ++ crlf_lines (map line_text ls) ++ CRLF_ = crlf_lines (first :: map line_text ls) ++ CRLF_).
  { unfold crlf_lines. cbn [map concat]. by rewrite <- !app_assoc. }
  rewrite Hx. apply header_lines_crlf. constructor; [split; [done|by apply line_bytes_no_lf]|].
  apply Forall_fmap. eapply Forall_impl; [exact Hls|]. intros l Hl. by apply plain_line_text.
Qed.

(** What a regular head is: a status line and plain lines, read by the fold. *)
Lemma scan_regular_spec data : Forall u8 data ->
  match scan_regular_head data with
  | None => True
  | Some Malformed => False
  | Some Partial => find_header_end data = None
  | Some (Head e head cuts) => exists first ls rest status http10 f c,
      let raw := first ++ CRLF_ ++ render_lines ls ++ CRLF_ in
      data = raw ++ rest /\ e = length raw /\ line_bytes first /\ Forall plain_line ls /\
      parse_status_line first = Some (status, http10) /\ read_head status http10 f = Some head /\
      scan_fold ResponseFields_init ResponseCuts_default (length first + 2) ls = Some (f, c) /\
      cuts = (if needs_slow_path (strip c) then None else Some c)
  end.
Proof.
  intros Hu. unfold scan_regular_head. pose proof (line_end_spec data 0 Hu) as Hle. rewrite drop_0 in Hle.
  destruct (line_end data 0) as [cr| |]; [|destruct Hle as (l & t & -> & Hl & Ht)|done].
  2: { rewrite find_header_end_first. by apply first_blank_short. }
  destruct Hle as (first & tl & Hd & Hf & ->). cbn [Nat.add].
  assert (take (length first) data = first) as -> by (rewrite Hd; apply take_app_length).
  destruct (parse_status_line first) as [[status http10]|] eqn:Es; [|done].
  pose proof (scan_lines_spec (S (length data)) data (length first + 2) ResponseFields_init ResponseCuts_default Hu ltac:(lia)) as Hsc.
  assert (Hdt : drop (length first + 2) data = tl) by (rewrite Hd, <- drop_drop, drop_app_length; done).
  rewrite Hdt in Hsc.
  destruct (scan_lines _ _ _ _ _) as [| |p f c]; [done|destruct Hsc as (ls & tl' & -> & Hls & Ho)|].
  { rewrite find_header_end_first, Hd. change (first ++ 13 :: 10 :: ?x) with (first ++ CRLF_ ++ x).
    rewrite first_blank_plain by (done || by apply line_bytes_no_cr). by rewrite first_blank_open. }
  destruct Hsc as (ls & tl' & -> & Hls & -> & Hfold). destruct (read_head status http10 f) as [head|] eqn:Er; [|done].
  exists first, ls, tl', status, http10, f, c. split_and!; try done.
  - rewrite Hd, <- !app_assoc. done.
  - rewrite !length_app. cbn [length]. lia.
Qed.

(** Both readings agree. *)
Lemma scanned_head data : Forall u8 data ->
  match scan_response_head data with
  | Partial => find_header_end data = None
  | Malformed => exists e, find_header_end data = Some e /\ parse_response_head (take e data) = None
  | Head e head _ => find_header_end data = Some e /\ parse_response_head (take e data) = Some head
  end.
Proof.
  intros Hu. unfold scan_response_head. pose proof (scan_regular_spec data Hu) as H.
  destruct (scan_regular_head data) as [[| |e head cuts]|]; [done|done| |].
  - destruct H as (first & ls & rest & status & http10 & f & c & -> & -> & Hf & Hls & Hs & Hr & Hfold & _).
    rewrite take_app_length. split.
    + rewrite find_header_end_first, <- !app_assoc.
      rewrite first_blank_plain by (done || by apply line_bytes_no_cr). change (CRLF_ ++ rest) with (13 :: 10 :: rest).
      rewrite first_blank_hit. cbn [fmap option_fmap option_map]. f_equal. rewrite !length_app. cbn [length]. lia.
    + unfold parse_response_head. rewrite header_lines_plain by (done || by intros ->). rewrite Hs.
      rewrite (response_lines_fold _ ResponseCuts_default (length first + 2)) by done. by rewrite Hfold.
  - destruct (find_header_end data) as [e|] eqn:He; [|done].
    destruct (parse_response_head (take e data)) eqn:Hp; [done|]. by exists e.
Qed.

End Scan.

(** ** Lengths, printed *)

Lemma decimal_snoc v d : decimal (v ++ [d]) = decimal v * 10 + (d - 48).
Proof. unfold decimal, decimal_from. by rewrite fold_left_app. Qed.

(** Digits without a leading zero, but for zero itself. *)
Definition canonical (v : list Z) : Prop := digits v /\ (v = [48] \/ exists d t, v = d :: t /\ d <> 48).

Lemma decimal_lower d t : digits (d :: t) -> d <> 48 -> 10 ^ Z.of_nat (length t) <= decimal (d :: t).
Proof.
  intros Hd Hne. revert Hd. induction t as [|x t IH] using rev_ind; intros Hd.
  - cbn. inversion Hd as [|? ? H _]; subst. unfold is_ascii_digit in H. bool_simpl. lia.
  - rewrite app_comm_cons, decimal_snoc. rewrite app_comm_cons in Hd. apply Forall_app in Hd as [Hd Hx].
    inversion Hx as [|? ? H _]; subst. unfold is_ascii_digit in H. bool_simpl.
    rewrite length_app. cbn [length]. rewrite Nat2Z.inj_add, Z.pow_add_r by lia. specialize (IH Hd). lia.
Qed.

Lemma decimal_digits_canonical fuel v acc : canonical v -> (length v <= fuel)%nat ->
  decimal_digits fuel (decimal v) acc = v ++ acc.
Proof.
  revert v acc. induction fuel as [|fuel IH]; intros v acc [Hd Hc] Hl.
  { destruct v; [|cbn in Hl; lia]. by destruct Hc as [|(? & ? & ? & _)]. }
  destruct v as [|x v] using rev_ind; [by destruct Hc as [|(? & ? & ? & _)]|]. clear IHv.
  apply Forall_app in Hd as [Hv Hx]. inversion Hx as [|? ? H _]; subst. unfold is_ascii_digit in H. bool_simpl.
  rewrite decimal_snoc. cbn [decimal_digits].
  replace ((decimal v * 10 + (x - 48)) mod 10) with (x - 48) by (rewrite Z.add_comm, Z.mod_add, Z.mod_small by lia; done).
  replace ((decimal v * 10 + (x - 48)) / 10) with (decimal v) by (rewrite Z.add_comm, Z.div_add, Z.div_small by lia; lia).
  replace (48 + (x - 48)) with x by lia.
  destruct v as [|d t].
  { cbn [decimal decimal_from fold_left]. destruct (Z.ltb_spec (0 * 10 + (x - 48)) 10); [done|lia]. }
  assert (Hne : d <> 48).
  { destruct Hc as [E|(d' & t' & E & Hne)]; [by destruct t|]. cbn in E. by injection E as -> _. }
  pose proof (decimal_lower d t Hv Hne). assert (0 < 10 ^ Z.of_nat (length t)) by (apply Z.pow_pos_nonneg; lia).
  destruct (Z.ltb_spec (decimal (d :: t) * 10 + (x - 48)) 10); [lia|].
  rewrite IH; [by rewrite <- app_assoc|split; [done|right; by exists d, t]|rewrite length_app in Hl; cbn in Hl |- *; lia].
Qed.

Lemma decimal_zeros z v : Forall (fun b => (b =? 48) = true) z -> decimal (z ++ v) = decimal v.
Proof.
  induction 1 as [|x z Hx _ IH]; [done|]. apply Z.eqb_eq in Hx as ->. cbn [app]. exact IH.
Qed.

(** Past the leading zeros, but for the last digit. *)
Definition significant (v : list Z) : list Z := drop (Nat.min (span_len (fun b => b =? 48) v) (length v - 1)) v.

(** Printing a length read from digits drops the leading zeros, no more. *)
Lemma print_parsed v n : parse_digits v = Some n -> print_decimal n = significant v.
Proof.
  intros H. assert (Hne : v <> []) by (by destruct v). assert (Hp : parse_digits_from 0 v = Some n) by (by destruct v).
  apply parse_digits_from_spec in Hp as (Hd & -> & Hmax); [|unfold USIZE_MAX, U64_MAX; lia]. fold (decimal v) in *.
  destruct (span_len_split (fun b => b =? 48) v) as (z & r & -> & Hz & Hzs & Hr). unfold significant. rewrite <- Hz, length_app.
  apply Forall_app in Hd as [Hdz Hdr].
  assert (Hcan : exists w, drop (Nat.min (length z) (length z + length r - 1)) (z ++ r) = w /\ canonical w /\ decimal (z ++ r) = decimal w).
  { eexists. split; [reflexivity|]. destruct r as [|x r].
    - rewrite app_nil_r in *. destruct z as [|x z] using rev_ind; [done|]. clear IHz.
      apply Forall_app in Hzs as [Hzs Hx]. inversion Hx as [|? ? E _]; subst. apply Z.eqb_eq in E as ->.
      rewrite length_app. cbn [length]. rewrite Nat.add_0_r, Nat.add_sub, Nat.min_r, drop_app_length by lia.
      split; [split; [by apply Forall_app in Hdz as [_ ?]|by left]|]. by apply decimal_zeros.
    - cbn [length]. rewrite Nat.min_l, drop_app_length by lia. apply Z.eqb_neq in Hr.
      split; [split; [done|right; by exists x, r]|]. by apply decimal_zeros. }
  destruct Hcan as (w & -> & Hw & Hdec). rewrite Hdec in Hmax |- *. apply (decimal_digits_canonical 20 w []) in Hw as Hprint.
  { unfold print_decimal. by rewrite Hprint, app_nil_r. }
  destruct Hw as [Hwd [->|(d & t & -> & Hd)]]; [cbn; lia|]. pose proof (decimal_lower d t Hwd Hd).
  destruct (Nat.leb_spec (length (d :: t)) 20) as [|Hlt]; [done|]. cbn [length] in Hlt.
  assert (10 ^ 20 <= 10 ^ Z.of_nat (length t)) by (apply Z.pow_le_mono_r; lia).
  exfalso. change (decimal_from 0 (d :: t)) with (decimal (d :: t)) in *. change (decimal_from 0 ?x) with (decimal x) in *. unfold USIZE_MAX, U64_MAX in *. lia.
Qed.

(** ** What the scan cuts *)

Definition counts (l : line) : bool := bool_decide (lowercase l.1 = bs "content-length").
Definition hops (l : line) : bool := is_hop_by_hop_response_header l.1.

(** The lines cut whole; [seen] once a Content-Length line was passed. *)
Fixpoint cut_spans (seen : bool) (p : nat) (ls : list line) : list (nat * nat) :=
  match ls with
  | [] => []
  | l :: rest =>
      let p' := (p + length (render_line l))%nat in
      let rest' := cut_spans (seen || counts l) p' rest in
      if (if counts l then seen else hops l) then (p, p') :: rest' else rest'
  end.

(** The first Content-Length line. *)
Fixpoint length_line (p : nat) (ls : list line) : option (nat * line) :=
  match ls with
  | [] => None
  | l :: rest => if counts l then Some (p, l) else length_line (p + length (render_line l)) rest
  end.

Definition length_cut_of (pl : nat * line) : (Z * Z) * (Z * Z) :=
  length_cut pl.1 (pl.1 + length pl.2.1) (pl.1 + length (render_line pl.2)) pl.2.2.

(** The head without the lines cut, the first length written out. *)
Fixpoint kept_lines (len : option Z) (ls : list line) : list Z :=
  match ls with
  | [] => []
  | l :: rest =>
      if counts l then
        match len with Some n => bs "Content-Length: " ++ print_decimal n ++ CRLF_ | None => [] end ++ kept_lines None rest
      else if hops l then kept_lines len rest
      else render_line l ++ kept_lines len rest
  end.

Definition response_hop_names : list (list Z) :=
  [bs "connection"; bs "keep-alive"; bs "proxy-connection"; bs "te"; bs "trailer"; bs "upgrade"].

Lemma is_hop_response_exact name : is_hop_by_hop_response_header name = bool_decide (lowercase name ∈ response_hop_names).
Proof.
  apply eq_true_iff_eq. unfold is_hop_by_hop_response_header. rewrite !eqi_lower, bool_decide_eq_true by done.
  unfold response_hop_names. rewrite !elem_of_cons, elem_of_nil. split.
  - intros H. destruct (first_lower name) as [c0|]; [|done].
    repeat match type of H with (if ?b then _ else _) = true => destruct b end; try done;
      rewrite ?orb_true_iff, ?bool_decide_eq_true in H; tauto.
  - intros H. assert (first_lower name = head (lowercase name)) as -> by (by destruct name).
    destruct_or! H; try done; rewrite H; vm_compute; reflexivity.
Qed.

Lemma connection_tokens_length f v : r_content_length (Response.connection_tokens f v) = r_content_length f.
Proof.
  unfold Response.connection_tokens. generalize (split_on 44 v). intros toks. revert f.
  induction toks as [|t toks IH]; intros f; [done|]. cbn [fold_left]. by rewrite IH.
Qed.

Lemma regular_line_cut f c p q e l f' c' : Forall u8 l.1 ->
  regular_line f c p q e l.1 l.2 = Some (f', c') ->
  r_content_length f' = (if counts l then parse_digits (trim_ows l.2) else r_content_length f) /\
  (counts l = true -> is_some (r_content_length f') = true /\ (forall n, r_content_length f = Some n -> r_content_length f' = Some n)) /\
  strip c' = (if (if counts l then is_some (r_content_length f) else hops l) then push (strip c) p e else strip c) /\
  cuts_length c' = (if counts l && negb (is_some (r_content_length f)) then Some (length_cut p q e l.2) else cuts_length c).
Proof.
  intros Hu. unfold regular_line, counts, hops. rewrite !named_exact by done.
  destruct (bool_decide_reflect (lowercase l.1 = bs "content-length")) as [E|E].
  { destruct (parse_digits _) as [n|]; [|done]. destruct (r_content_length f) as [seen|]; cbn [is_some negb andb].
    - destruct (Z.eqb_spec seen n) as [->|]; cbn [negb]; [|done]. intros [= <- <-]. cbn. split_and!; done.
    - intros [= <- <-]. cbn. by split_and!. }
  rewrite is_hop_response_exact. destruct (bool_decide_reflect (lowercase l.1 = bs "transfer-encoding")) as [E1|E1].
  { rewrite E1. destruct (_ || _); [done|]. intros [= <- <-].
    rewrite bool_decide_eq_false_2 by (apply (bool_decide_eq_false_1 _); by vm_compute). by split_and!. }
  destruct (bool_decide_reflect (lowercase l.1 = bs "connection")) as [E2|E2].
  { intros [= <- <-]. rewrite E2, connection_tokens_length.
    rewrite bool_decide_eq_true_2 by (apply (bool_decide_eq_true_1 _); by vm_compute). by split_and!. }
  case_bool_decide; intros [= <- <-]; by split_and!.
Qed.

Lemma scan_fold_cuts f c p ls f' c' :
  Forall plain_line ls -> scan_fold f c p ls = Some (f', c') -> needs_slow_path (strip c') = false ->
  Z.of_nat (p + length (render_lines ls)) < 4294967296 ->
  let seen := is_some (r_content_length f) in
  needs_slow_path (strip c) = false /\
  spans_iter (strip c') = spans_iter (strip c) ++ cut_spans seen p ls /\
  cuts_length c' = (if seen then cuts_length c else match length_line p ls with Some l => Some (length_cut_of l) | None => cuts_length c end) /\
  (seen = true -> r_content_length f' = r_content_length f) /\
  (seen = false -> r_content_length f' = match length_line p ls with Some l => parse_digits (trim_ows l.2.2) | None => None end).
Proof.
  intros Hls. revert f c p. induction Hls as [|l ls Hl _ IH]; intros f c p; cbn [scan_fold].
  { intros [= <- <-] Hn _. cbn [cut_spans length_line]. rewrite app_nil_r. split_and!; try done.
    - by destruct (is_some _).
    - by destruct (r_content_length f). }
  set (p' := (p + length (render_line l))%nat).
  assert (Hlen : length (render_lines (l :: ls)) = (length (render_line l) + length (render_lines ls))%nat).
  { unfold render_lines. cbn [map concat]. apply length_app. }
  destruct (regular_line _ _ _ _ _ _ _) as [[f1 c1]|] eqn:Er; [|done]. intros Hf Hn Hb.
  apply regular_line_cut in Er as (H1 & H2 & H3 & H4); [|apply Hl].
  destruct (IH f1 c1 p' Hf Hn ltac:(subst p'; lia)) as (G1 & G2 & G3 & G4 & G5). clear IH.
  rewrite H3 in G1, G2. rewrite H4 in G3. cbn [cut_spans length_line]. fold p'.
  set (b := if counts l then is_some (r_content_length f) else hops l) in *.
  assert (Hpush : needs_slow_path (if b then push (strip c) p p' else strip c) = false -> needs_slow_path (strip c) = false /\
    spans_iter (if b then push (strip c) p p' else strip c) = spans_iter (strip c) ++ (if b then [(p, p')] else [])).
  { destruct b; [|by rewrite app_nil_r]. unfold push. destruct (_ <? _)%nat; [|done].
    cbn [needs_slow_path]. intros Hs. split; [done|]. unfold spans_iter. cbn [spans]. rewrite map_app. f_equal. cbn [map].
    f_equal. apply (span_u32 p); subst p'; lia. }
  destruct (Hpush G1) as [Hs0 Hs1]. split; [done|]. split.
  { rewrite G2, Hs1, <- app_assoc. f_equal.
    assert (Hseen : is_some (r_content_length f1) = is_some (r_content_length f) || counts l).
    { destruct (counts l); [rewrite orb_true_r; by apply H2|by rewrite orb_false_r, H1]. }
    rewrite Hseen. by destruct b. }
  clear b H3 G1 G2 Hpush Hs0 Hs1.
  destruct (counts l) eqn:Ec; cbn [andb] in *.
  - destruct (H2 eq_refl) as [H21 H22]. rewrite H21 in *. destruct (r_content_length f) as [n0|] eqn:Ef; cbn [is_some negb] in *.
    + split; [done|]. split; [|done]. intros _. rewrite G4 by done. by apply H22.
    + split; [done|]. split; [done|]. intros _. by rewrite G4.
  - rewrite H1 in *. split; [done|]. split; done.
Qed.

(** ** The cuts and the line copy write the same head *)

Lemma copy_cuts_len raw keep cursor l spans : Forall (fun s : nat * nat => (Z.to_nat l.1.1 < s.1)%nat) spans ->
  copy_cuts raw keep cursor (Some l) spans = put_length raw keep cursor l ++ copy_cuts raw keep (Z.to_nat l.1.2) None spans.
Proof.
  destruct 1 as [|[s e] spans Hs _]; cbn [copy_cuts]; [done|]. cbn in Hs. by apply Nat.ltb_lt in Hs as ->.
Qed.

Lemma copy_cuts_span raw keep cursor len s e spans : (forall l, len = Some l -> (s <= Z.to_nat l.1.1)%nat) ->
  copy_cuts raw keep cursor len ((s, e) :: spans) = slice cursor s raw ++ copy_cuts raw keep e len spans.
Proof.
  intros H. cbn [copy_cuts]. destruct len as [l|]; [|done]. specialize (H l eq_refl).
  destruct (Nat.ltb_spec (Z.to_nat l.1.1) s); [lia|done].
Qed.

Lemma cut_spans_ge seen p ls s : s ∈ cut_spans seen p ls -> (p <= s.1)%nat.
Proof.
  revert seen p. induction ls as [|l ls IH]; intros seen p; cbn [cut_spans]; [by intros ?%elem_of_nil|].
  destruct (if counts l then seen else hops l); [intros [->|Hs]%elem_of_cons; [cbn; lia|]|intros Hs]; apply IH in Hs; lia.
Qed.

Lemma length_line_ge p ls pl : length_line p ls = Some pl -> (p <= pl.1)%nat.
Proof.
  revert p. induction ls as [|l ls IH]; intros p; cbn [length_line]; [done|].
  destruct (counts l); [intros [= <-]; cbn; lia|]. intros H%IH. lia.
Qed.

Lemma length_line_le raw p ls tl pl : length_line p ls = Some pl -> drop p raw = render_lines ls ++ tl ->
  (p <= length raw)%nat -> (pl.1 <= length raw)%nat.
Proof.
  revert p. induction ls as [|l ls IH]; intros p E Hd Hp; [done|]. cbn [length_line] in E.
  destruct (counts l); [by injection E as <-|].
  unfold render_lines in Hd. cbn [map concat] in Hd. fold (render_lines ls) in Hd. rewrite <- app_assoc in Hd.
  apply (f_equal length) in Hd as Hlen. rewrite length_drop, length_app in Hlen.
  apply (IH _ E); [rewrite <- drop_drop, Hd; apply drop_app_length|lia].
Qed.

(** The digits the length cut points at. *)
Lemma slice_significant raw p l tl : drop p raw = render_line l ++ tl -> Z.of_nat (length raw) < 4294967296 ->
  let c := length_cut p (p + length l.1) (p + length (render_line l)) l.2 in
  slice (Z.to_nat c.2.1) (Z.to_nat c.2.2) raw = significant (trim_ows l.2).
Proof.
  intros Hd Hlen. cbv zeta. unfold length_cut. cbn [fst snd]. set (d := trim_ows l.2). set (o := span_len is_ows l.2).
  assert (Hv : drop (p + length l.1 + 1) raw = l.2 ++ CRLF_ ++ tl).
  { rewrite <- !drop_drop, Hd. unfold render_line. rewrite <- app_assoc, drop_app_length. cbn [app drop]. by rewrite <- app_assoc. }
  set (w := drop o l.2).
  assert (Hw : drop (p + length l.1 + 1 + o) raw = w ++ CRLF_ ++ tl).
  { rewrite <- drop_drop, Hv, drop_app_le by apply span_len_le. done. }
  assert (Hdw : d = take (length w - span_len is_ows (rev w)) w) by done.
  set (k := (length w - span_len is_ows (rev w))%nat) in *.
  assert (Hk : length d = k) by (rewrite Hdw, length_take; lia).
  assert (Hbound : (p + length l.1 + 1 + o + length d <= length raw)%nat).
  { apply (f_equal length) in Hw. rewrite length_drop, length_app in Hw. cbn [length] in Hw.
    apply (f_equal length) in Hd. rewrite length_drop, length_app, length_render_line in Hd.
    assert (o <= length l.2)%nat by apply span_len_le. lia. }
  set (m := Nat.min (span_len (fun b => b =? 48) d) (length d - 1)).
  rewrite !as_u32_small by (red; lia). rewrite !Nat2Z.id. unfold slice, significant. fold m.
  rewrite <- drop_drop, Hw, drop_app_le by lia. rewrite take_app_le by (rewrite length_drop; lia).
  rewrite Hdw at 2. rewrite skipn_firstn_comm. f_equal. lia.
Qed.

Lemma copy_cuts_lines raw cl ls p cursor seen :
  drop p raw = render_lines ls ++ CRLF_ -> (cursor <= p)%nat -> Z.of_nat (length raw) < 4294967296 ->
  (seen = false -> forall pl n, length_line p ls = Some pl -> cl = Some n -> parse_digits (trim_ows pl.2.2) = Some n) ->
  copy_cuts raw (is_some cl) cursor (if seen then None else option_map length_cut_of (length_line p ls)) (cut_spans seen p ls) =
  slice cursor p raw ++ kept_lines (if seen then None else cl) ls.
Proof.
  revert p cursor seen. induction ls as [|l ls IH]; intros p cursor seen Hd Hc Hraw Hcl.
  { cbn [cut_spans length_line option_map kept_lines]. rewrite app_nil_r.
    assert (length raw = (p + 2)%nat).
    { apply (f_equal length) in Hd. rewrite length_drop in Hd. cbn in Hd. lia. }
    destruct seen; cbn [copy_cuts]; f_equal; lia. }
  cbn [cut_spans kept_lines length_line] in *. set (p' := (p + length (render_line l))%nat) in *.
  unfold render_lines in Hd. cbn [map concat] in Hd. fold (render_lines ls) in Hd. rewrite <- app_assoc in Hd.
  assert (Hd' : drop p' raw = render_lines ls ++ CRLF_) by (unfold p'; rewrite <- drop_drop, Hd; apply drop_app_length).
  assert (Hl : slice p p' raw = render_line l).
  { unfold slice, p'. rewrite Hd. replace (_ - _)%nat with (length (render_line l)) by lia. apply take_app_length. }
  assert (Hp : (p < p')%nat) by (unfold p'; rewrite length_render_line; lia).
  assert (Hpr : (p' <= length raw)%nat).
  { apply (f_equal length) in Hd'. rewrite length_drop, length_app in Hd'. cbn in Hd'. lia. }
  destruct (counts l) eqn:Ec.
  - destruct seen; cbn [orb].
    + rewrite copy_cuts_span by done. rewrite (IH p' p' true), slice_nil by (done || lia). done.
    + cbn [option_map]. rewrite copy_cuts_len.
      2: { apply Forall_forall. intros s Hs%cut_spans_ge. unfold length_cut_of, length_cut. cbn [fst snd].
           rewrite as_u32_small, Nat2Z.id by (red; lia). lia. }
      assert (He : Z.to_nat (length_cut_of (p, l)).1.2 = p').
      { unfold length_cut_of, length_cut. cbn [fst snd]. rewrite as_u32_small, Nat2Z.id by (red; lia). done. }
      rewrite He, (IH p' p' true), slice_nil by (done || lia). cbn [app]. unfold put_length. rewrite <- app_assoc. f_equal.
      { unfold length_cut_of, length_cut. cbn [fst snd]. by rewrite as_u32_small, Nat2Z.id by (red; lia). }
      f_equal. destruct cl as [n|]; [|done]. cbn [is_some]. unfold length_cut_of. cbn [fst snd].
      rewrite (slice_significant raw p l _ Hd Hraw). rewrite <- (print_parsed (trim_ows l.2) n); [done|].
      exact (Hcl eq_refl (p, l) n eq_refl eq_refl).
  - rewrite orb_false_r. destruct (hops l) eqn:Eh.
    + rewrite copy_cuts_span.
      2: { intros c. destruct seen; [done|]. destruct (length_line p' ls) as [pl|] eqn:E; [|done]. intros [= <-].
           apply length_line_ge in E as Hge. destruct pl as [q l']. unfold length_cut_of, length_cut. cbn [fst snd] in *.
           pose proof (length_line_le _ _ _ _ _ E Hd' Hpr) as Hq. cbn [fst] in Hq.
           rewrite as_u32_small, Nat2Z.id by (red; lia). lia. }
      rewrite (IH p' p' seen), slice_nil by (done || lia). done.
    + rewrite (IH p' cursor seen) by (done || lia). rewrite (slice_split cursor p p'), Hl, <- app_assoc by lia. done.
Qed.

Section Sanitize.
Context `{MC : Memchr} `{AR : Arch}.

Lemma copy_lines_kept cl ls : Forall plain_line ls -> copy_lines_from (map line_text ls) cl = kept_lines cl ls.
Proof.
  intros Hls. revert cl. induction Hls as [|l ls Hl _ IH]; intros cl; [done|]. cbn [map copy_lines_from kept_lines].
  destruct (plain_line_text l Hl) as (_ & _ & ->).
  assert (take (length l.1) (line_text l) = l.1) as -> by apply take_app_length.
  rewrite eqi_lower by done. fold (counts l). fold (hops l). destruct (counts l); [by rewrite IH|].
  destruct (hops l); [done|]. by rewrite IH, render_line_text, <- app_assoc.
Qed.

Lemma sanitized_lines first ls cl : line_bytes first -> first <> [] -> Forall plain_line ls ->
  copy_lines_sanitized (first ++ CRLF_ ++ render_lines ls ++ CRLF_) cl = first ++ CRLF_ ++ kept_lines cl ls.
Proof.
  intros Hf Hne Hls. unfold copy_lines_sanitized. rewrite header_lines_plain by done. by rewrite copy_lines_kept.
Qed.

Lemma head_cuts_lines first ls cl f c : 
  let raw := first ++ CRLF_ ++ render_lines ls ++ CRLF_ in
  Forall plain_line ls -> Z.of_nat (length raw) < 4294967296 ->
  scan_fold ResponseFields_init ResponseCuts_default (length first + 2) ls = Some (f, c) -> needs_slow_path (strip c) = false ->
  (forall n, cl = Some n -> r_content_length f = Some n) ->
  copy_around_cuts raw (is_some cl) c = first ++ CRLF_ ++ kept_lines cl ls.
Proof.
  intros raw Hls Hlen Hfold Hn Hcl.
  assert (Hlr : length raw = (length first + 2 + length (render_lines ls) + 2)%nat).
  { unfold raw. rewrite !length_app. cbn [length]. lia. }
  destruct (scan_fold_cuts _ _ _ _ _ _ Hls Hfold Hn ltac:(lia)) as (_ & Hs & Hc & _ & Hr). cbn [is_some r_content_length ResponseFields_init] in *.
  unfold copy_around_cuts. rewrite Hs, Hc. change (spans_iter (strip ResponseCuts_default)) with (@nil (nat * nat)). cbn [app].
  assert (Hd : drop (length first + 2) raw = render_lines ls ++ CRLF_).
  { unfold raw. rewrite <- drop_drop, drop_app_length. done. }
  pose proof (copy_cuts_lines raw cl ls (length first + 2) 0 false Hd ltac:(lia) Hlen) as H. cbn [option_map] in H.
  assert (Hm : match length_line (length first + 2) ls with Some l => Some (length_cut_of l) | None => cuts_length ResponseCuts_default end
    = option_map length_cut_of (length_line (length first + 2) ls)) by (by destruct (length_line _ ls)).
  rewrite Hm, H.
  - change (first ++ 13 :: 10 :: ?x) with (first ++ CRLF_ ++ x). rewrite app_assoc. f_equal. unfold slice. rewrite Nat.sub_0_r, drop_0. unfold raw. rewrite app_assoc.
    replace (length first + 2)%nat with (length (first ++ CRLF_)) by (rewrite length_app; done). apply take_app_length.
  - intros _ pl n Hp Hn'. rewrite (Hr eq_refl), Hp in Hcl. by apply Hcl.
Qed.

(** ** What an accepted head is made of *)

Lemma slice_Forall (P : Z -> Prop) i j l : Forall P l -> Forall P (slice i j l).
Proof. intros H. unfold slice. by apply Forall_take, Forall_drop. Qed.

Lemma find_byte_before c (l : list Z) i j : find_byte c l = Some i -> (j <= i)%nat -> Forall (fun x => x <> c) (take j l).
Proof.
  revert i j. induction l as [|x l IH]; intros i j; cbn; [done|]. destruct (Z.eqb_spec x c) as [->|Hne].
  - intros [= <-] Hj. assert (j = 0%nat) as -> by lia. constructor.
  - destruct (find_byte c l) as [k|]; [|done]. intros [= <-] Hj. destruct j as [|j]; [constructor|].
    cbn [take]. constructor; [done|]. apply (IH k); [done|lia].
Qed.

Lemma header_lines_whole raw : Forall u8 raw ->
  Forall (fun l => l <> [] /\ Forall (fun x => x <> 10) l /\ Forall u8 l) (header_lines raw).
Proof.
  intros Hu. unfold header_lines. generalize (S (length raw)), 0%nat. intros fuel.
  induction fuel as [|fuel IH]; intros pos; cbn [header_lines_from]; [constructor|].
  destruct (pos <? length raw)%nat; [|constructor]. rewrite memchr_find_byte.
  set (end_ := match find_byte 10 (drop pos raw) with Some p => (pos + p)%nat | None => length raw end).
  assert (Hs : forall j, (j <= end_)%nat -> Forall (fun x => x <> 10) (slice pos j raw) /\ Forall u8 (slice pos j raw)).
  { intros j Hj. split; [|by apply slice_Forall]. unfold slice, end_ in *.
    destruct (find_byte 10 (drop pos raw)) as [p|] eqn:E; [apply (find_byte_before 10 _ p); [done|lia]|].
    apply Forall_take. by apply find_byte_None. }
  assert (Hl : forall l, Forall (fun x => x <> 10) l /\ Forall u8 l ->
    Forall (fun l => l <> [] /\ Forall (fun x => x <> 10) l /\ Forall u8 l)
      (match l with [] => header_lines_from fuel raw (end_ + 1) | _ => l :: header_lines_from fuel raw (end_ + 1) end)).
  { intros [|x l] H; [apply IH|constructor; [done|apply IH]]. }
  destruct (_ && _); apply Hl, Hs; lia.
Qed.

Lemma parse_status_line_bytes line st : parse_status_line line = Some st -> line_bytes line.
Proof.
  unfold parse_status_line. do 12 (destruct line as [|? line]; [done|]).
  destruct (negb _) eqn:E1; [done|]. destruct (_ || _ || _) eqn:E2; [done|]. intros _. bool_simpl.
  match goal with H : beq _ _ = true |- _ => apply beq_spec in H; injection H; intros; subst end.
  assert (Hd : forall b, is_ascii_digit b = true -> in_line b = true).
  { intros b Hb. unfold is_ascii_digit in Hb. unfold in_line. bool_simpl.
    destruct (Z.eqb_spec b CR) as [->|]; [lia|]. destruct (Z.eqb_spec b LF) as [->|]; [lia|done]. }
  subst. repeat (constructor; [done || (apply Hd; done)|]).
  constructor; [apply Hd; unfold is_ascii_digit; lia|]. do 2 (constructor; [by apply Hd|]).
  match goal with H : forallb _ _ = true |- _ => apply forallb_Forall in H; eapply Forall_impl; [exact H|] end.
  intros x. apply value_in_line.
Qed.

Lemma response_line_plain f f' line : Forall u8 line -> Forall (fun x => x <> 10) line ->
  response_line f line = Some f' -> exists l, line = line_text l /\ plain_line l.
Proof.
  intros Hu Hlf. unfold response_line. destruct (memchr CR line) eqn:Ecr; [done|]. cbn [is_some].
  destruct (memchr 58 line) as [c|] eqn:Ec; [|done]. rewrite memchr_find_byte in Ec, Ecr.
  destruct (is_token (take c line)) eqn:Et; [|done]. intros _. exists (take c line, drop (c + 1) line).
  apply find_byte_Some in Ec as Hc. destruct Hc as [Hx _]. split.
  - unfold line_text. cbn [fst snd]. rewrite Nat.add_1_r, <- (drop_lookup_cons _ _ _ Hx). by rewrite take_drop.
  - apply find_byte_None in Ecr. split; [|split].
    + cbn [fst]. unfold is_token in Et. destruct (take c line) as [|x t]; [done|]. split; [done|]. by apply forallb_Forall.
    + by apply Forall_take.
    + apply Forall_drop. eapply Forall_impl; [exact (proj2 (Forall_and _ _) (conj Ecr Hlf))|]. intros x [H1 H2].
      unfold in_line. apply Z.eqb_neq in H1 as ->. by apply Z.eqb_neq in H2 as ->.
Qed.

Lemma accepted_lines raw head : Forall u8 raw -> parse_response_head raw = Some head ->
  exists first ls status http10 f, header_lines raw = first :: map line_text ls /\ line_bytes first /\ Forall plain_line ls /\
    parse_status_line first = Some (status, http10) /\ response_lines ResponseFields_init (map line_text ls) = Some f /\
    read_head status http10 f = Some head.
Proof.
  intros Hu. unfold parse_response_head. pose proof (header_lines_whole raw Hu) as Hw.
  destruct (header_lines raw) as [|first rest]; [done|]. inversion Hw as [|? ? _ Hw']; subst.
  destruct (parse_status_line first) as [[status http10]|] eqn:Es; [|done].
  destruct (response_lines ResponseFields_init rest) as [f|] eqn:Ef; [|done]. intros Hr.
  assert (Hls : exists ls, rest = map line_text ls /\ Forall plain_line ls).
  { clear -Hw' Ef. revert Ef. generalize ResponseFields_init. induction Hw' as [|l rest (_ & Hlf & Hu) _ IH]; intros f0.
    { exists []. by split. }
    cbn [response_lines]. destruct (response_line f0 l) as [f1|] eqn:E; [|done]. intros Hf.
    destruct (response_line_plain _ _ _ Hu Hlf E) as (pl & -> & Hpl). destruct (IH f1 Hf) as (ls & -> & Hls).
    exists (pl :: ls). split; [done|]. by constructor. }
  destruct Hls as (ls & -> & Hls). exists first, ls, status, http10, f. split_and!; try done. by eapply parse_status_line_bytes.
Qed.

(** ** The head the client reads *)

Definition written_length (n : Z) : line := (bs "Content-Length", SP :: print_decimal n).

(** [kept_lines], as lines. *)
Fixpoint kept (cl : option Z) (ls : list line) : list line :=
  match ls with
  | [] => []
  | l :: rest =>
      if counts l then match cl with Some n => [written_length n] | None => [] end ++ kept None rest
      else if hops l then kept cl rest
      else l :: kept cl rest
  end.

Lemma kept_lines_render cl ls : kept_lines cl ls = render_lines (kept cl ls).
Proof.
  revert cl. induction ls as [|l ls IH]; intros cl; [done|]. cbn [kept_lines kept].
  destruct (counts l); [|destruct (hops l); [done|]; by rewrite IH]. rewrite IH. destruct cl as [n|]; [|done].
  unfold render_lines. cbn [map concat app]. f_equal.
Qed.

Lemma significant_parses v n : parse_digits v = Some n -> parse_digits (significant v) = Some n /\ digits (significant v).
Proof.
  intros H. assert (Hne : v <> []) by (by destruct v). assert (Hp : parse_digits_from 0 v = Some n) by (by destruct v).
  apply parse_digits_from_spec in Hp as (Hd & -> & Hmax); [|unfold USIZE_MAX, U64_MAX; lia]. unfold significant.
  set (m := Nat.min _ _). assert (Hz : Forall (fun b => (b =? 48) = true) (take m v)).
  { pose proof (span_len_take (fun b => b =? 48) v) as Ht. unfold m. rewrite Nat.min_comm, <- take_take. by apply Forall_take. }
  assert (Hdec : decimal v = decimal (drop m v)) by (rewrite <- (take_drop m v) at 1; by apply decimal_zeros).
  assert (Hdd : digits (drop m v)) by (by apply Forall_drop). split; [|done].
  assert (Hnn : drop m v <> []).
  { intros E. apply (f_equal length) in E. rewrite length_drop in E. cbn in E. destruct v; [done|]. cbn [length] in *. lia. }
  unfold parse_digits. destruct (drop m v) as [|x t] eqn:E; [done|].
  apply parse_digits_from_spec; [unfold USIZE_MAX, U64_MAX; lia|]. fold (decimal v) in *. fold (decimal (x :: t)). by rewrite <- Hdec.
Qed.

(** A length read from the wire, printed and read again. *)
Lemma printed_length v n : parse_digits v = Some n ->
  parse_digits (trim_ows (SP :: print_decimal n)) = Some n /\ Forall (fun b => in_line b = true) (SP :: print_decimal n).
Proof.
  intros H. rewrite (print_parsed v n H). destruct (significant_parses v n H) as [Hp Hd]. split.
  - change (SP :: ?x) with ([SP] ++ x). rewrite trim_ows_app_l by (by repeat constructor).
    assert (Ht : trim_ows (significant v) = significant v); [|by rewrite Ht].
    assert (Hno : forall l, digits l -> span_len is_ows l = 0%nat).
    { intros [|x l] Hl; [done|]. inversion Hl as [|? ? Hx _]; subst. cbn [span_len]. unfold is_ascii_digit in Hx. bool_simpl.
      unfold is_ows. destruct (Z.eqb_spec x SP) as [->|]; [lia|]. destruct (Z.eqb_spec x HTAB) as [->|]; [lia|done]. }
    unfold trim_ows. rewrite (Hno _ Hd), drop_0, (Hno (rev _)) by (by apply Forall_rev). by rewrite Nat.sub_0_r, firstn_all.
  - constructor; [done|]. eapply Forall_impl; [exact Hd|]. intros x Hx. unfold is_ascii_digit in Hx. unfold in_line. bool_simpl.
    destruct (Z.eqb_spec x CR) as [->|]; [lia|]. destruct (Z.eqb_spec x LF) as [->|]; [lia|done].
Qed.

Lemma written_length_plain v n : parse_digits v = Some n -> plain_line (written_length n).
Proof.
  intros H. split; [|split; [cbn [fst written_length]; vm_compute bs; solve_u8|by apply (printed_length v)]]. split; [done|]. by apply forallb_Forall.
Qed.

Definition readable (cl : option Z) : Prop := match cl with Some n => exists v, parse_digits v = Some n | None => True end.

Lemma kept_plain cl ls : readable cl -> Forall plain_line ls -> Forall plain_line (kept cl ls).
Proof.
  intros Hcl Hls. revert cl Hcl. induction Hls as [|l ls Hl _ IH]; intros cl Hcl; [constructor|]. cbn [kept].
  destruct (counts l); [|destruct (hops l); [by apply IH|constructor; [done|by apply IH]]].
  apply Forall_app. split; [|by apply (IH None)]. destruct cl as [n|]; [|constructor]. destruct Hcl as [v Hv].
  constructor; [by eapply written_length_plain|constructor].
Qed.

(** One line, by its name. *)
Lemma response_line_text f l : plain_line l ->
  response_line f (line_text l) =
  if counts l then
    match parse_digits (trim_ows l.2) with
    | None => None
    | Some n =>
        if match r_content_length f with Some seen => negb (seen =? n) | None => false end then None
        else Some {| r_content_length := Some n; r_chunked := r_chunked f; r_close := r_close f; r_keep_alive := r_keep_alive f |}
    end
  else if bool_decide (lowercase l.1 = bs "transfer-encoding") then
    if r_chunked f || negb (eq_ignore_ascii_case (trim_ows l.2) (bs "chunked")) then None
    else Some {| r_content_length := r_content_length f; r_chunked := true; r_close := r_close f; r_keep_alive := r_keep_alive f |}
  else if bool_decide (lowercase l.1 = bs "connection") then Some (Response.connection_tokens f l.2)
  else Some f.
Proof.
  intros Hl. rewrite (response_line_regular f ResponseCuts_default 0 l Hl). unfold regular_line. destruct Hl as (_ & Hu & _).
  rewrite !named_exact by done. fold (counts l). destruct (counts l).
  { destruct (parse_digits _) as [n|]; [|done]. destruct (r_content_length f) as [s|]; [|done]. by destruct (negb (s =? n)). }
  case_bool_decide; [by destruct (_ || _)|]. case_bool_decide; [done|]. by destruct (is_hop_by_hop_response_header l.1).
Qed.

Lemma connection_hops l : lowercase l.1 = bs "connection" -> hops l = true.
Proof. intros E. unfold hops. rewrite is_hop_response_exact, E. by vm_compute. Qed.

Lemma encoding_not_hops l : lowercase l.1 = bs "transfer-encoding" -> hops l = false.
Proof. intros E. unfold hops. rewrite is_hop_response_exact, E. by vm_compute. Qed.

Lemma connection_tokens_chunked f v : r_chunked (Response.connection_tokens f v) = r_chunked f.
Proof.
  unfold Response.connection_tokens. generalize (split_on 44 v). intros toks. revert f.
  induction toks as [|t toks IH]; intros f; [done|]. cbn [fold_left]. by rewrite IH.
Qed.

(** The kept lines say what the lines said, but for the connection options
    and for a length they no longer give. *)
Lemma kept_reread cl ls f f' g : readable cl -> Forall plain_line ls -> (is_some cl = true -> r_content_length g = None) ->
  r_chunked g = r_chunked f -> response_lines f (map line_text ls) = Some f' ->
  response_lines g (map line_text (kept cl ls)) =
  Some {| r_content_length := match cl with Some n => if existsb counts ls then Some n else None | None => r_content_length g end;
          r_chunked := r_chunked f'; r_close := r_close g; r_keep_alive := r_keep_alive g |}.
Proof.
  intros Hcl Hls. revert cl Hcl f g. induction Hls as [|l ls Hl Hls IH]; intros cl Hcl f g Hg Hc.
  { cbn [map response_lines kept existsb]. intros [= <-]. rewrite <- Hc. destruct g as [gl ? ? ?]. cbn [r_content_length] in Hg. f_equal.
    destruct cl; [|done]. by rewrite Hg. }
  cbn [map response_lines kept existsb]. rewrite response_line_text by done. destruct (counts l) eqn:Ec; cbn [orb].
  - destruct (parse_digits (trim_ows l.2)) as [m|] eqn:Em; [|done]. destruct (match r_content_length f with Some _ => _ | None => _ end); [done|].
    intros Hf. destruct cl as [n|]; cbn [app map].
    + destruct Hcl as [v Hv]. cbn [response_lines]. rewrite response_line_text by (by eapply written_length_plain).
      change (counts (written_length n)) with true. cbv iota. cbn [snd written_length]. rewrite (proj1 (printed_length v n Hv)).
      rewrite (Hg eq_refl). erewrite IH; [..|exact Hf]; try done.
    + erewrite IH; [..|exact Hf]; done.
  - destruct (bool_decide_reflect (lowercase l.1 = bs "transfer-encoding")) as [Et|Et].
    + destruct (_ || _) eqn:Eo; [done|]. intros Hf. rewrite (encoding_not_hops l Et). cbn [map response_lines].
      rewrite response_line_text, Ec by done. rewrite bool_decide_eq_true_2 by done. rewrite Hc, Eo.
      erewrite IH; [..|exact Hf]; done.
    + destruct (bool_decide_reflect (lowercase l.1 = bs "connection")) as [En|En].
      * rewrite (connection_hops l En). intros Hf. erewrite IH; [..|exact Hf]; [done|done|done|by rewrite connection_tokens_chunked].
      * intros Hf. destruct (hops l); [by eapply IH|]. cbn [map response_lines]. rewrite response_line_text, Ec by done.
        rewrite !bool_decide_eq_false_2 by done. by eapply IH.
Qed.

Lemma length_read ls f f' n : Forall plain_line ls -> response_lines f (map line_text ls) = Some f' -> r_content_length f' = Some n ->
  r_content_length f = Some n \/ (existsb counts ls = true /\ exists v, parse_digits v = Some n).
Proof.
  intros Hls. revert f. induction Hls as [|l ls Hl _ IH]; intros f; cbn [map response_lines existsb]; [intros [= ->]; by left|].
  rewrite response_line_text by done. destruct (counts l) eqn:Ec; cbn [orb].
  - destruct (parse_digits (trim_ows l.2)) as [m|] eqn:Em; [|done]. destruct (match r_content_length f with Some _ => _ | None => _ end); [done|].
    intros Hf Hn. right. split; [done|]. destruct (IH _ Hf Hn) as [[= <-]|[_ ?]]; [by exists (trim_ows l.2)|done].
  - case_bool_decide; [destruct (_ || _); [done|]; intros Hf Hn; by destruct (IH _ Hf Hn); [left|right]|].
    case_bool_decide; intros Hf Hn; [|by apply (IH f)].
    destruct (IH _ Hf Hn) as [H1|?]; [|by right]. rewrite connection_tokens_length in H1. by left.
Qed.

Definition closing (close : bool) : list line := if close then [(bs "Connection", bs " close")] else [].

(** The length the caller passes on: the one that frames the body. *)
Definition framing_length (head : ResponseHead) : option Z := match head_body head with Length n => Some n | _ => None end.

Lemma read_head_length status http10 f head n : read_head status http10 f = Some head -> framing_length head = Some n ->
  r_content_length f = Some n.
Proof.
  unfold read_head, framing_length. destruct (_ && _); [done|]. intros [= <-]. cbn [head_body].
  destruct (r_chunked f); [done|]. destruct (r_content_length f); congruence.
Qed.

Lemma closing_plain close : Forall plain_line (closing close).
Proof.
  destruct close; [|constructor]. constructor; [|constructor]. split; [split; [done|by apply forallb_Forall]|]. split.
  - cbn [fst]. vm_compute bs. solve_u8.
  - unfold line_bytes. by apply forallb_Forall.
Qed.

Lemma response_lines_app f ls ls' :
  response_lines f (ls ++ ls') = match response_lines f ls with Some f' => response_lines f' ls' | None => None end.
Proof. revert f. induction ls as [|l ls IH]; intros f; cbn [app response_lines]; [done|]. destruct (response_line f l); [apply IH|done]. Qed.

Lemma sanitized_text raw head close first ls : header_lines raw = first :: map line_text ls -> Forall plain_line ls ->
  sanitize_response_headers raw (framing_length head) None close =
  first ++ CRLF_ ++ render_lines (kept (framing_length head) ls ++ closing close) ++ CRLF_.
Proof.
  intros Hh Hls. unfold sanitize_response_headers, copy_lines_sanitized. rewrite Hh, copy_lines_kept, kept_lines_render by done.
  unfold render_lines. rewrite map_app, concat_app, <- !app_assoc. do 3 f_equal. by destruct close.
Qed.

Lemma cut_head data e head c close :
  Forall u8 data -> Z.of_nat (length data) < 4294967296 -> scan_response_head data = Head e head (Some c) ->
  sanitize_response_headers (take e data) (framing_length head) (Some c) close =
  sanitize_response_headers (take e data) (framing_length head) None close.
Proof.
  intros Hu Hlen Hs. unfold scan_response_head in Hs. pose proof (scan_regular_spec data Hu) as H.
  destruct (scan_regular_head data) as [sc|].
  2: { destruct (find_header_end data); [|done]. by destruct (parse_response_head _). }
  subst sc. destruct H as (first & ls & rest & status & http10 & f & c' & -> & -> & Hf & Hls & Hst & Hr & Hfold & Hc).
  destruct (needs_slow_path (strip c')) eqn:En; [done|]. injection Hc as <-. rewrite take_app_length.
  unfold sanitize_response_headers. f_equal. rewrite sanitized_lines; [|done|by intros ->|done].
  apply (head_cuts_lines first ls _ f c); [done|rewrite length_app in Hlen; lia|done|done|]. intros n. by eapply read_head_length.
Qed.


(** ** Reading the head off the connection *)

Lemma sanitized_uncut data e head cuts close :
  Forall u8 data -> Z.of_nat (length data) < 4294967296 -> scan_response_head data = Head e head cuts ->
  sanitize_response_headers (take e data) (framing_length head) cuts close =
  sanitize_response_headers (take e data) (framing_length head) None close.
Proof. intros Hu Hlen Hs. destruct cuts as [c|]; [|done]. by apply cut_head. Qed.

Lemma framing_length_read status http10 f head ls : Forall plain_line ls ->
  response_lines ResponseFields_init (map line_text ls) = Some f -> read_head status http10 f = Some head ->
  readable (framing_length head) /\ (forall n, framing_length head = Some n -> existsb counts ls = true).
Proof.
  intros Hls Hlines Hr. destruct (framing_length head) as [n|] eqn:E; [|done]. pose proof (read_head_length _ _ _ _ _ Hr E) as Hn.
  destruct (length_read ls _ f n Hls Hlines Hn) as [|[? ?]]; [done|]. split; [done|]. by intros ? [= <-].
Qed.

(** What the client is sent of an accepted head: a first line and lines. *)
Lemma sanitized_shape data e head cuts close :
  Forall u8 data -> Z.of_nat (length data) < 4294967296 -> scan_response_head data = Head e head cuts ->
  exists first ls, sanitize_response_headers (take e data) (framing_length head) cuts close = first ++ CRLF_ ++ render_lines ls ++ CRLF_ /\
    line_bytes first /\ first <> [] /\ Forall plain_line ls.
Proof.
  intros Hu Hlen Hs. rewrite (sanitized_uncut data e head cuts close Hu Hlen Hs).
  pose proof (scanned_head data Hu) as H. rewrite Hs in H. destruct H as [_ Hp].
  destruct (accepted_lines (take e data) head ltac:(by apply Forall_take) Hp)
    as (first & ls & status & http10 & f & Hh & Hf & Hls & Hst & Hlines & Hr).
  exists first, (kept (framing_length head) ls ++ closing close). rewrite (sanitized_text _ _ _ _ _ Hh Hls).
  split; [done|]. split; [done|]. split; [by intros ->|]. apply Forall_app. split; [|apply closing_plain].
  apply kept_plain; [|done]. by apply (framing_length_read status http10 f head ls).
Qed.

Lemma first_blank_take l e : first_blank l = Some e -> first_blank (take e l) = Some e /\ (e <= length l)%nat.
Proof.
  revert e. induction l as [|c t IH]; intros e; cbn [first_blank]; [done|].
  destruct (opens_blank (c :: t)) eqn:E.
  - intros [= <-]. destruct t as [|x [|y [|z t]]]; try done.
    change (take 4 (c :: x :: y :: z :: t)) with [c; x; y; z].
    assert (Ho : opens_blank [c; x; y; z] = true) by exact E. cbn [first_blank]. rewrite Ho. cbn [length]. split; [done|lia].
  - destruct (first_blank t) as [k|]; [|done]. intros [= <-]. destruct (IH k eq_refl) as [H1 H2].
    cbn [take first_blank length].
    assert (opens_blank (c :: take k t) = false) as ->.
    { destruct (opens_blank (c :: take k t)) eqn:E'; [|done]. rewrite <- E. clear -E'.
      destruct k as [|[|[|k]]], t as [|x [|y [|z t]]]; done. }
    rewrite H1. split; [done|lia].
Qed.

(** An interim response, whole. *)
Definition interim_head (w : list Z) : Prop :=
  find_header_end w = Some (length w) /\ exists h, parse_response_head w = Some h /\ is_interim (head_status h) = true.

(** What a settled read says of the buffer. *)
Definition settles (r : HeadRead) (buf : list Z) : Prop :=
  match r with
  | HeadReadHead e head cuts => find_header_end buf = Some e /\ parse_response_head (take e buf) = Some head /\
      scan_response_head buf = Head e head cuts /\ is_interim (head_status head) = false
  | HeadReadMalformed => exists e, find_header_end buf = Some e /\ parse_response_head (take e buf) = None
  | Unanswered => False
  end.

(** [swallow] after [is_] interim responses, of which the first are behind. *)
Definition swallowed (buf : list Z) (seen : nat) (r : Swallowed) : Prop :=
  exists is_, Forall interim_head is_ /\
  match r with
  | NeedsMore buf' seen' => buf = concat is_ ++ buf' /\ seen' = (seen + length is_)%nat /\
      (seen' <= MAX_INTERIM_RESPONSES)%nat /\ find_header_end buf' = None
  | Settled r buf' => buf = concat is_ ++ buf' /\ (seen + length is_ <= MAX_INTERIM_RESPONSES)%nat /\ settles r buf'
  | TooMany => concat is_ `prefix_of` buf /\ (seen + length is_ = S MAX_INTERIM_RESPONSES)%nat
  end.

Lemma swallow_spec fuel buf seen : Forall u8 buf -> (seen <= MAX_INTERIM_RESPONSES)%nat ->
  (S (S MAX_INTERIM_RESPONSES) <= fuel + seen)%nat -> swallowed buf seen (swallow fuel buf seen).
Proof.
  revert buf seen. induction fuel as [|fuel IH]; intros buf seen Hu Hs Hf; [lia|]. cbn [swallow].
  pose proof (scanned_head buf Hu) as Hsc. destruct (scan_response_head buf) as [| |e head cuts] eqn:Escan.
  - exists []. split; [constructor|]. cbn. split_and!; try done; lia.
  - exists []. split; [constructor|]. cbn [concat length app]. split_and!; try done; lia.
  - destruct Hsc as [He Hp]. destruct (is_interim (head_status head)) eqn:Ei.
    2: { exists []. split; [constructor|]. cbn [concat length app]. split; [done|]. split; [lia|]. by split_and!. }
    rewrite find_header_end_first in He. destruct (first_blank_take _ _ He) as [He' Hle].
    assert (Hint : interim_head (take e buf)).
    { split; [rewrite find_header_end_first, He', length_take; f_equal; lia|]. by exists head. }
    destruct (Nat.ltb_spec MAX_INTERIM_RESPONSES (S seen)).
    { exists [take e buf]. split; [by constructor|]. cbn [concat length]. rewrite app_nil_r. split; [|lia].
      exists (drop e buf). by rewrite take_drop. }
    destruct (IH (drop e buf) (S seen)) as (is_ & Hi & H'); [by apply Forall_drop|lia|lia|].
    exists (take e buf :: is_). split; [by constructor|]. cbn [concat length].
    destruct (swallow fuel (drop e buf) (S seen)) as [buf' seen'|r buf'|].
    + destruct H' as (Hb & -> & Hm & Hn). rewrite <- app_assoc, <- Hb, take_drop. split_and!; try done; lia.
    + destruct H' as (Hb & Hm & Hn). rewrite <- app_assoc, <- Hb, take_drop. split_and!; try done; lia.
    + destruct H' as (Hb & Hm). split; [|lia]. rewrite <- (take_drop e buf) at 2. by apply prefix_app.
Qed.

(** What [read_response_head] makes of [stream], read or still to come. *)
Definition read_outcome (stream : list Z) (r : result (HeadRead * list Z * list (list Z)) HeadError) : Prop :=
  exists is_, Forall interim_head is_ /\
  match r with
  | Ok (Unanswered, _, _) => stream = []
  | Ok (r, buf, rest) => stream = concat is_ ++ buf ++ concat rest /\ (length is_ <= MAX_INTERIM_RESPONSES)%nat /\ settles r buf
  | Err TooManyInterim => concat is_ `prefix_of` stream /\ length is_ = S MAX_INTERIM_RESPONSES
  | Err HeadersTooLarge => exists buf rest, stream = concat is_ ++ buf ++ rest /\ find_header_end buf = None /\
      (RESPONSE_HEADER_CAP < length buf)%nat
  | Err ClosedMidHead => exists buf, stream = concat is_ ++ buf /\ stream <> [] /\ find_header_end buf = None
  end.

Lemma read_head_from reads before buf answered :
  Forall (fun c => Forall u8 c /\ c <> []) reads -> Forall u8 buf -> Forall interim_head before ->
  (length before <= MAX_INTERIM_RESPONSES)%nat -> (answered = false -> before = [] /\ buf = []) ->
  (answered = true -> concat before ++ buf <> []) ->
  read_outcome (concat before ++ buf ++ concat reads) (read_response_head reads buf (length before) answered).
Proof.
  intros Hr. revert before buf answered. induction Hr as [|chunk reads [Hcu Hcn] Hr IH]; intros before buf answered Hu Hb Hl Ha Hne.
  - cbn [read_response_head concat]. rewrite app_nil_r.
    destruct (swallow_spec (S (S MAX_INTERIM_RESPONSES)) buf (length before) Hu Hl ltac:(lia)) as (is_ & Hi & H).
    destruct (swallow _ buf _) as [buf' seen'|r buf'|].
    + destruct H as (-> & -> & Hm & Hn). destruct (Nat.ltb_spec RESPONSE_HEADER_CAP (length buf')) as [Hc|Hc].
      * exists (before ++ is_). split; [by apply Forall_app|]. exists buf', []. split; [|done]. by rewrite app_nil_r, concat_app, <- app_assoc.
      * destruct answered.
        -- exists (before ++ is_). split; [by apply Forall_app|]. exists buf'. split; [by rewrite concat_app, <- app_assoc|]. by split; [apply Hne|].
        -- exists []. split; [constructor|]. destruct (Ha eq_refl) as [-> Hnil]. by rewrite Hnil.
    + destruct H as (-> & Hm & Hset). exists (before ++ is_). split; [by apply Forall_app|].
      destruct r; [| |done]; (split; [by rewrite concat_app, app_nil_r, <- app_assoc|]; split; [rewrite length_app; lia|done]).
    + destruct H as ([tl ->] & Hm). exists (before ++ is_). split; [by apply Forall_app|]. split; [|rewrite length_app; lia].
      exists tl. by rewrite concat_app, <- app_assoc.
  - cbn [read_response_head concat].
    destruct (swallow_spec (S (S MAX_INTERIM_RESPONSES)) buf (length before) Hu Hl ltac:(lia)) as (is_ & Hi & H).
    destruct (swallow _ buf _) as [buf' seen'|r buf'|].
    + destruct H as (-> & -> & Hm & Hn). apply Forall_app in Hu as [_ Hu]. destruct (Nat.ltb_spec RESPONSE_HEADER_CAP (length buf')) as [Hc|Hc].
      * exists (before ++ is_). split; [by apply Forall_app|]. exists buf', (chunk ++ concat reads). split; [|done]. by rewrite concat_app, <- !app_assoc.
      * rewrite <- length_app. replace (concat before ++ (concat is_ ++ buf') ++ chunk ++ concat reads)
          with (concat (before ++ is_) ++ (buf' ++ chunk) ++ concat reads) by (by rewrite concat_app, <- !app_assoc).
        apply IH; [by apply Forall_app|by apply Forall_app|rewrite length_app; lia|done|].
        intros _ E. apply app_eq_nil in E as [_ E]. by apply app_eq_nil in E as [_ E].
    + destruct H as (-> & Hm & Hset). exists (before ++ is_). split; [by apply Forall_app|].
      destruct r; [| |done]; (split; [by rewrite concat_app, <- !app_assoc|]; split; [rewrite length_app; lia|done]).
    + destruct H as ([tl ->] & Hm). exists (before ++ is_). split; [by apply Forall_app|]. split; [|rewrite length_app; lia].
      exists (tl ++ chunk ++ concat reads). by rewrite concat_app, <- !app_assoc.
Qed.

(** ** Properties *)

(** C32: the head a client is sent says what the backend's head said. Whichever
    way it was copied, and whatever follows it on the wire, it ends where the
    proxy ended it, and reads back with the status and the body framing the
    relay follows; told to close, the client reads that too. *)
Theorem client_reads_response data e head cuts close rest
  (Hu : Forall u8 data) (Hlen : Z.of_nat (length data) < 4294967296) (Hs : scan_response_head data = Head e head cuts) :
  let sent := sanitize_response_headers (take e data) (framing_length head) cuts close in
  find_header_end (sent ++ rest) = Some (length sent) /\
  exists head', parse_response_head sent = Some head' /\ head_status head' = head_status head /\
    head_body head' = head_body head /\ (close = true -> head_backend_close head' = true).
Proof.
  cbv zeta. rewrite (sanitized_uncut data e head cuts close Hu Hlen Hs). pose proof (scanned_head data Hu) as H. rewrite Hs in H. destruct H as [_ Hp].
  destruct (accepted_lines (take e data) head ltac:(by apply Forall_take) Hp)
    as (first & ls & status & http10 & f & Hh & Hf & Hls & Hst & Hlines & Hr).
  rewrite (sanitized_text _ _ _ _ _ Hh Hls).
  destruct (framing_length_read status http10 f head ls Hls Hlines Hr) as [Hcl Hex]. assert (Hk : Forall plain_line (kept (framing_length head) ls ++ closing close)).
  { apply Forall_app. split; [by apply kept_plain|apply closing_plain]. }
  assert (Hne : first <> []) by (by intros ->). split.
  - rewrite find_header_end_first, <- !app_assoc, first_blank_plain by (done || by apply line_bytes_no_cr).
    change (CRLF_ ++ rest) with (13 :: 10 :: rest). rewrite first_blank_hit. cbn [fmap option_fmap option_map]. f_equal.
    rewrite !length_app. cbn [length]. lia.
  - unfold parse_response_head. rewrite header_lines_plain, Hst, map_app, response_lines_app by done.
    rewrite (kept_reread _ ls ResponseFields_init f ResponseFields_init Hcl Hls ltac:(done) eq_refl Hlines).
    assert (Hcl' : match framing_length head with Some n => if existsb counts ls then Some n else None | None => r_content_length ResponseFields_init end
      = framing_length head) by (destruct (framing_length head) as [n|]; [by rewrite (Hex n eq_refl)|done]).
    rewrite Hcl'. clear Hcl Hcl' Hex Hk. unfold read_head in Hr. destruct (r_chunked f && http10) eqn:E10; [done|]. injection Hr as <-.
    assert (Hclose : response_lines {| r_content_length := framing_length {| head_status := status;
          head_body := if r_chunked f then ChunkedBody else match r_content_length f with Some n => Length n | None => Close end;
          head_backend_close := r_close f || (http10 && negb (r_keep_alive f)) |};
        r_chunked := r_chunked f; r_close := false; r_keep_alive := false |} (map line_text (closing close)) =
      Some {| r_content_length := framing_length {| head_status := status;
          head_body := if r_chunked f then ChunkedBody else match r_content_length f with Some n => Length n | None => Close end;
          head_backend_close := r_close f || (http10 && negb (r_keep_alive f)) |};
        r_chunked := r_chunked f; r_close := close; r_keep_alive := false |}).
    { destruct close; [|done]. cbn [closing map response_lines]. pose proof (closing_plain true) as Hpl. inversion Hpl; subst.
      rewrite response_line_text by done. done. }
    cbn [r_close r_keep_alive ResponseFields_init]. rewrite Hclose. eexists. split; [unfold read_head; cbn [r_chunked]; rewrite E10; reflexivity|].
    cbn [head_status head_body head_backend_close r_chunked r_content_length r_close]. split; [done|]. split; [|by intros ->].
    unfold framing_length. cbn [head_body]. destruct (r_chunked f); [done|]. by destruct (r_content_length f).
Qed.

(** The one-pass scan and the reference reading of a response head are the
    same function, cuts aside: on any bytes, the scan waits for more exactly
    when they hold no blank line, and otherwise accepts the bytes up to the
    first one with the status, framing and close [parse_response_head] finds
    there, or rejects them as it does. *)
Theorem scan_response_head_exact data (Hu : Forall u8 data) :
  match scan_response_head data with
  | Partial => find_header_end data = None
  | Malformed => exists e, find_header_end data = Some e /\ parse_response_head (take e data) = None
  | Head e head _ => find_header_end data = Some e /\ parse_response_head (take e data) = Some head
  end.
Proof. by apply scanned_head. Qed.

(** A regular head is cut in place as the line-by-line copy writes it:
    the spans and the digits the one-pass scan records give the same bytes
    as splitting the head into lines and writing the parsed length anew. *)
Theorem cuts_write_the_same_head data e head c close
  (Hu : Forall u8 data) (Hlen : Z.of_nat (length data) < 4294967296) (Hs : scan_response_head data = Head e head (Some c)) :
  sanitize_response_headers (take e data) (framing_length head) (Some c) close =
  sanitize_response_headers (take e data) (framing_length head) None close.
Proof. by apply cut_head. Qed.

(** Reading a response head, however the backend's bytes are cut into
    reads, is to take whole interim responses off the stream, at most
    [MAX_INTERIM_RESPONSES] of them, and settle on the first other head or
    malformed one, with everything after the interim responses kept. The
    errors are exact: one interim too many, more than the cap without a blank
    line, or a close inside a head; and only a backend that never sent a byte
    is [Unanswered]. *)
Theorem read_response_head_exact reads (Hr : Forall (fun c => Forall u8 c /\ c <> []) reads) :
  read_outcome (concat reads) (read_response_head reads [] 0 false).
Proof. apply (read_head_from reads [] [] false); by repeat constructor || done || lia. Qed.

End Sanitize.

Definition interim_text : list Z := bs "HTTP/1.1 103 Early Hints" ++ CRLF_ ++ CRLF_.
Definition final_text : list Z :=
  bs "HTTP/1.1 200 OK" ++ CRLF_ ++ bs "Content-Length:  007" ++ CRLF_ ++ bs "Connection: keep-alive" ++ CRLF_
  ++ bs "X-A: b" ++ CRLF_ ++ CRLF_.
Definition final_read : ResponseHead := {| head_status := 200; head_body := Length 7; head_backend_close := false |}.

#[local] Instance little_endian : Arch := Little.

Lemma final_u8 : Forall u8 final_text /\ Forall u8 interim_text.
Proof. split; (apply Forall_u8_literal; by vm_compute). Qed.

Lemma scan_response_head_exact_witness :
  Forall u8 final_text /\ find_header_end final_text = Some 73%nat /\ parse_response_head (take 73 final_text) = Some final_read.
Proof.
  split; [exact (proj1 final_u8)|]. pose proof (scan_response_head_exact final_text (proj1 final_u8)) as H. vm_compute in H.
  vm_compute. exact H.
Defined.

Definition final_cuts : ResponseCuts :=
  Eval vm_compute in match scan_response_head final_text with Head _ _ (Some c) => c | _ => ResponseCuts_default end.

Lemma final_scan : scan_response_head final_text = Head 73 final_read (Some final_cuts).
Proof. vm_compute. reflexivity. Qed.

Lemma cuts_write_the_same_head_witness :
  scan_response_head final_text = Head 73 final_read (Some final_cuts) /\
  sanitize_response_headers (take 73 final_text) (framing_length final_read) (Some final_cuts) true =
  sanitize_response_headers (take 73 final_text) (framing_length final_read) None true.
Proof.
  split; [exact final_scan|].
  apply (cuts_write_the_same_head final_text 73 final_read final_cuts true (proj1 final_u8)); [vm_compute; reflexivity|exact final_scan].
Defined.

Lemma client_reads_response_witness :
  scan_response_head final_text = Head 73 final_read (Some final_cuts) /\
  let sent := sanitize_response_headers (take 73 final_text) (framing_length final_read) (Some final_cuts) true in
  find_header_end (sent ++ bs "1234567") = Some (length sent).
Proof.
  split; [exact final_scan|].
  apply (client_reads_response final_text 73 final_read (Some final_cuts) true (bs "1234567") (proj1 final_u8));
    [vm_compute; reflexivity|exact final_scan].
Defined.

Lemma read_response_head_exact_witness :
  Forall (fun c => Forall u8 c /\ c <> []) [interim_text ++ take 5 final_text; drop 5 final_text] /\
  read_outcome (interim_text ++ final_text) (read_response_head [interim_text ++ take 5 final_text; drop 5 final_text] [] 0 false).
Proof.
  assert (H : Forall (fun c => Forall u8 c /\ c <> []) [interim_text ++ take 5 final_text; drop 5 final_text]).
  { destruct final_u8 as [H1 H2]. constructor; [|constructor; [|constructor]]; (split; [|done]).
    - apply Forall_app. split; [exact H2|by apply Forall_take].
    - by apply Forall_drop. }
  split; [exact H|]. exact (read_response_head_exact _ H).
Defined.

Example settles_past_interim :
  (fun r => match r with Ok (HeadReadHead e h _, buf, rest) => Some (e, h, buf, rest) | _ => None end)
    (read_response_head [interim_text ++ take 5 final_text; drop 5 final_text] [] 0 false) = Some (73%nat, final_read, final_text, []).
Proof. vm_compute. reflexivity. Qed.
