(* ===== verification/LocalReply.v ===== *)
(** * Replies the proxy writes itself

    [build_local_reply], its precomputed forms and the writers around them,
    from [src/src/proxy/worker.rs]. The precomputed bytes are those of the
    builder, and a client that reads a reply finds the status and the body
    length the proxy meant. *)

From S2P Require Import Prelude Bytes Net HttpGrammar Routing HttpParser HttpFilters Outgoing Response ResponseScan.

(** ** The builder *)

(** The match on the status: what is answered, and its reason. *)
Definition reply_reason (status : Z) (has_location : bool) : Z * list Z :=
  if status =? 301 then (301, bs "Moved Permanently")
  else if status =? 302 then (302, bs "Found")
  else if status =? 303 then (303, bs "See Other")
  else if status =? 307 then (307, bs "Temporary Redirect")
  else if status =? 308 then (308, bs "Permanent Redirect")
  else if status =? 400 then (400, bs "Bad Request")
  else if status =? 404 then (404, bs "Not Found")
  else if status =? 408 then (408, bs "Request Timeout")
  else if status =? 429 then (429, bs "Too Many Requests")
  else if status =? 431 then (431, bs "Request Header Fields Too Large")
  else if status =? 502 then (502, bs "Bad Gateway")
  else if status =? 503 then (503, bs "Service Unavailable")
  else if status =? 504 then (504, bs "Gateway Timeout")
  else if has_location then (status, bs "Found")
  else (500, bs "Internal Server Error").

Definition build_local_reply (status : Z) (location : option (list Z)) (close head : bool) : list Z :=
  let '(status, reason) := reply_reason status (is_some location) in
  let body := print_decimal status ++ [SP] ++ reason in
  bs "HTTP/1.1 " ++ print_decimal status ++ [SP] ++ reason ++ CRLF_
  ++ match location with Some l => bs "Location: " ++ l ++ CRLF_ | None => [] end
  ++ (if status =? 429 then bs "Retry-After: 1" ++ CRLF_ else [])
  ++ bs "Content-Length: " ++ print_decimal (Z.of_nat (length body)) ++ CRLF_
  ++ (if close then bs "Connection: close" ++ CRLF_ else [])
  ++ CRLF_
  ++ (if head then [] else body).

(** ** The precomputed forms *)

Record FixedReply := {
  fixed_keep : list Z;
  fixed_close : list Z;
  fixed_body_len : nat;
}.

(** The macro: its literals are text. *)
Definition fixed_reply (status reason len extra : list Z) (body_len : nat) : FixedReply :=
  {| fixed_keep := bs "HTTP/1.1 " ++ status ++ bs " " ++ reason ++ CRLF_ ++ extra ++ bs "Content-Length: " ++ len ++ CRLF_
                   ++ CRLF_ ++ status ++ bs " " ++ reason;
     fixed_close := bs "HTTP/1.1 " ++ status ++ bs " " ++ reason ++ CRLF_ ++ extra ++ bs "Content-Length: " ++ len ++ CRLF_
                    ++ bs "Connection: close" ++ CRLF_ ++ CRLF_ ++ status ++ bs " " ++ reason;
     fixed_body_len := body_len |}.

Definition BAD_REQUEST_REPLY : FixedReply := fixed_reply (bs "400") (bs "Bad Request") (bs "15") [] 15.
Definition NOT_FOUND : FixedReply := fixed_reply (bs "404") (bs "Not Found") (bs "13") [] 13.
Definition REQUEST_TIMEOUT : FixedReply := fixed_reply (bs "408") (bs "Request Timeout") (bs "19") [] 19.
Definition TOO_MANY_REQUESTS : FixedReply :=
  fixed_reply (bs "429") (bs "Too Many Requests") (bs "21") (bs "Retry-After: 1" ++ CRLF_) 21.
Definition HEADERS_TOO_LARGE : FixedReply := fixed_reply (bs "431") (bs "Request Header Fields Too Large") (bs "35") [] 35.
Definition INTERNAL_SERVER_ERROR : FixedReply := fixed_reply (bs "500") (bs "Internal Server Error") (bs "25") [] 25.
Definition BAD_GATEWAY : FixedReply := fixed_reply (bs "502") (bs "Bad Gateway") (bs "15") [] 15.
Definition SERVICE_UNAVAILABLE : FixedReply := fixed_reply (bs "503") (bs "Service Unavailable") (bs "23") [] 23.
Definition GATEWAY_TIMEOUT : FixedReply := fixed_reply (bs "504") (bs "Gateway Timeout") (bs "19") [] 19.

(** [FixedReply::bytes]. *)
Definition fixed_bytes (r : FixedReply) (close head : bool) : list Z :=
  let full := if close then fixed_close r else fixed_keep r in
  if head then take (length full - fixed_body_len r) full else full.

Definition static_reply (status : Z) : option FixedReply :=
  if (status =? 301) || (status =? 302) || (status =? 303) || (status =? 307) || (status =? 308) then None
  else Some (if status =? 400 then BAD_REQUEST_REPLY
             else if status =? 404 then NOT_FOUND
             else if status =? 408 then REQUEST_TIMEOUT
             else if status =? 429 then TOO_MANY_REQUESTS
             else if status =? 431 then HEADERS_TOO_LARGE
             else if status =? 502 then BAD_GATEWAY
             else if status =? 503 then SERVICE_UNAVAILABLE
             else if status =? 504 then GATEWAY_TIMEOUT
             else INTERNAL_SERVER_ERROR).

Definition local_reply_bytes (status : Z) (location : option (list Z)) (close head : bool) : list Z :=
  match match location with None => static_reply status | Some _ => None end with
  | Some reply => fixed_bytes reply close head
  | None => build_local_reply status location close head
  end.

(** What [send_error_response] writes. *)
Definition send_error_response (error_code : Z) : list Z := local_reply_bytes error_code None true false.

(** ** The precomputed bytes *)

Lemma static_is_built status close head :
  local_reply_bytes status None close head = build_local_reply status None close head.
Proof.
  unfold local_reply_bytes, static_reply, build_local_reply, reply_reason. cbn [is_some].
  repeat match goal with |- context [status =? ?k] =>
    destruct (Z.eqb_spec status k) as [->|?]; [destruct close, head; vm_compute; reflexivity|] end.
  cbn [orb]. destruct close, head; vm_compute; reflexivity.
Qed.

(** ** A reply, line by line *)

Definition reply_line (status : Z) (reason : list Z) : list Z := bs "HTTP/1.1 " ++ print_decimal status ++ [SP] ++ reason.

Definition location_lines (location : option (list Z)) : list line :=
  match location with Some l => [(bs "Location", SP :: l)] | None => [] end.
Definition retry_lines (status : Z) : list line := if status =? 429 then [(bs "Retry-After", bs " 1")] else [].

Definition reply_lines (status : Z) (reason : list Z) (location : option (list Z)) (close : bool) : list line :=
  location_lines location ++ retry_lines status
  ++ [written_length (Z.of_nat (length (print_decimal status ++ [SP] ++ reason)))]
  ++ closing close.

Definition reply_body (status : Z) (reason : list Z) : list Z := print_decimal status ++ [SP] ++ reason.

Lemma reply_rendered status location close head :
  let '(s, reason) := reply_reason status (is_some location) in
  build_local_reply status location close head =
  (reply_line s reason ++ CRLF_ ++ render_lines (reply_lines s reason location close) ++ CRLF_)
  ++ (if head then [] else reply_body s reason).
Proof.
  unfold build_local_reply. destruct (reply_reason status (is_some location)) as [s reason].
  set (body := print_decimal s ++ [SP] ++ reason). unfold reply_line, reply_lines, reply_body. fold body.
  assert (Hl : render_lines (location_lines location) =
    match location with Some l => bs "Location: " ++ l ++ CRLF_ | None => [] end).
  { destruct location; [|done]. unfold render_lines. cbn [location_lines map concat]. by rewrite app_nil_r. }
  assert (Hr : render_lines (retry_lines s) =
    if s =? 429 then bs "Retry-After: 1" ++ CRLF_ else []) by (unfold retry_lines; by destruct (s =? 429)).
  assert (Hn : render_lines [written_length (Z.of_nat (length body))] =
    bs "Content-Length: " ++ print_decimal (Z.of_nat (length body)) ++ CRLF_).
  { unfold render_lines. cbn [map concat]. by rewrite app_nil_r. }
  assert (Hc : render_lines (closing close) = if close then bs "Connection: close" ++ CRLF_ else []) by (by destruct close).
  rewrite !render_lines_app, Hl, Hr, Hn, Hc. unfold body. repeat (rewrite <- !app_assoc; cbn [app]). reflexivity.
Qed.

(** Three digits. *)
Lemma print_three n : 100 <= n <= 999 -> print_decimal n = [48 + n / 10 / 10; 48 + n / 10 mod 10; 48 + n mod 10].
Proof.
  intros Hn. unfold print_decimal. cbn [decimal_digits].
  assert (10 <= n / 10 < 100) by (split; [apply Z.div_le_lower_bound|apply Z.div_lt_upper_bound]; lia).
  assert (1 <= n / 10 / 10 < 10) by (split; [apply Z.div_le_lower_bound|apply Z.div_lt_upper_bound]; lia).
  destruct (Z.ltb_spec n 10); [lia|]. destruct (Z.ltb_spec (n / 10) 10); [lia|]. destruct (Z.ltb_spec (n / 10 / 10) 10); [|lia].
  rewrite (Z.mod_small (n / 10 / 10)) by lia. done.
Qed.

Lemma parse_reply_line n reason : 100 <= n <= 999 -> Forall (fun b => is_field_value_byte b = true) reason ->
  parse_status_line (reply_line n reason) = Some (n, false).
Proof.
  intros Hn Hr. unfold reply_line. rewrite print_three by done.
  pose proof (Z.mod_pos_bound n 10 ltac:(lia)). pose proof (Z.mod_pos_bound (n / 10) 10 ltac:(lia)).
  assert (1 <= n / 10 / 10 < 10).
  { assert (10 <= n / 10 < 100) by (split; [apply Z.div_le_lower_bound|apply Z.div_lt_upper_bound]; lia).
    split; [apply Z.div_le_lower_bound|apply Z.div_lt_upper_bound]; lia. }
  pose proof (Z.div_mod n 10 ltac:(lia)). pose proof (Z.div_mod (n / 10) 10 ltac:(lia)).
  set (a := n / 10 / 10) in *. set (b := n / 10 mod 10) in *. set (c := n mod 10) in *.
  change (bs "HTTP/1.1 ") with [72; 84; 84; 80; 47; 49; 46; 49; 32]. cbn [app parse_status_line].
  change (beq [72; 84; 84; 80; 47; 49; 46] (bs "HTTP/1.")) with true. cbn [andb Z.eqb Pos.eqb].
  unfold is_ascii_digit.
  assert (forallb is_field_value_byte (SP :: reason) = true) as ->.
  { cbn [forallb]. apply andb_true_iff. split; [by vm_compute|]. by apply forallb_Forall. }
  destruct (Z.leb_spec 49 (48 + a)); [|lia]. destruct (Z.leb_spec (48 + a) 57); [|lia].
  destruct (Z.leb_spec 48 (48 + b)); [|lia]. destruct (Z.leb_spec (48 + b) 57); [|lia].
  destruct (Z.leb_spec 48 (48 + c)); [|lia]. destruct (Z.leb_spec (48 + c) 57); [|lia].
  cbn [Z.leb Z.compare Pos.compare Pos.compare_cont andb orb negb]. f_equal. f_equal. lia.
Qed.

(** ** Reading it back *)

Definition reply_ok (status : Z) (location : option (list Z)) : Prop :=
  100 <= status <= 999 /\ match location with Some l => line_bytes l | None => True end.

Lemma reply_reason_ok status location : reply_ok status location ->
  let '(s, reason) := reply_reason status (is_some location) in
  100 <= s <= 999 /\ Forall (fun b => is_field_value_byte b = true) reason /\ (length reason <= 40)%nat.
Proof.
  intros [Hs _]. unfold reply_reason.
  repeat match goal with |- context [status =? ?k] =>
    destruct (status =? k); [split; [lia|]; split; [by apply forallb_Forall|vm_compute; lia]|] end.
  destruct (is_some location); (split; [lia|]; split; [by apply forallb_Forall|vm_compute; lia]).
Qed.

Section Reread.
Context `{MC : Memchr} `{AR : Arch}.

Lemma literal_line n v : n <> [] -> forallb (fun b => is_tchar b && (0 <=? b) && (b <? 256)) n = true -> line_bytes v ->
  plain_line (n, v).
Proof.
  intros Hne Hn Hv. apply forallb_Forall in Hn. split; [split; [done|]|split; [|done]]; cbn [fst];
    (eapply Forall_impl; [exact Hn|]); intros x Hx; cbv beta in Hx; bool_simpl; [done|red; lia].
Qed.

Lemma small_length_parses (n : nat) : (n <= 44)%nat -> exists v, parse_digits v = Some (Z.of_nat n).
Proof.
  intros Hn. exists (print_decimal (Z.of_nat n)). do 45 (destruct n as [|n]; [vm_compute; reflexivity|]). lia.
Qed.

Lemma reply_lines_plain s reason location close : (length (reply_body s reason) <= 44)%nat ->
  match location with Some l => line_bytes l | None => True end -> Forall plain_line (reply_lines s reason location close).
Proof.
  intros Hb Hl. unfold reply_lines. apply Forall_app. split; [|apply Forall_app; split; [|constructor; [|apply closing_plain]]].
  - destruct location as [l|]; [|constructor]. constructor; [|constructor]. apply literal_line; [done|done|by constructor].
  - unfold retry_lines. destruct (s =? 429); [|constructor]. constructor; [|constructor].
    apply literal_line; [done|done|by apply forallb_Forall].
  - destruct (small_length_parses _ Hb) as [v Hv]. by eapply written_length_plain.
Qed.

Lemma skipped_line f l ls : plain_line l -> counts l = false -> lowercase l.1 <> bs "transfer-encoding" ->
  lowercase l.1 <> bs "connection" -> response_lines f (line_text l :: ls) = response_lines f ls.
Proof.
  intros Hl Hc Ht Hn. cbn [response_lines]. rewrite response_line_text, Hc by done. by rewrite !bool_decide_eq_false_2 by done.
Qed.

Lemma reply_fields s reason location close : (length (reply_body s reason) <= 44)%nat ->
  match location with Some l => line_bytes l | None => True end ->
  response_lines ResponseFields_init (map line_text (reply_lines s reason location close)) =
  Some {| r_content_length := Some (Z.of_nat (length (reply_body s reason))); r_chunked := false; r_close := close; r_keep_alive := false |}.
Proof.
  intros Hb Hl. pose proof (reply_lines_plain s reason location close Hb Hl) as Hp. unfold reply_lines in *.
  fold (reply_body s reason) in *. set (n := length (reply_body s reason)) in *.
  assert (Hloc : forall ls, response_lines ResponseFields_init (map line_text (location_lines location ++ ls)) =
    response_lines ResponseFields_init (map line_text ls)).
  { intros ls. destruct location as [l|]; [|done]. cbn [location_lines app map]. apply skipped_line; try done.
    apply literal_line; [done|done|by constructor]. }
  assert (Hre : forall ls, response_lines ResponseFields_init (map line_text (retry_lines s ++ ls)) =
    response_lines ResponseFields_init (map line_text ls)).
  { intros ls. unfold retry_lines. destruct (s =? 429); [|done]. cbn [app map]. apply skipped_line; try done.
    apply literal_line; [done|done|by apply forallb_Forall]. }
  rewrite Hloc, Hre. destruct (small_length_parses n Hb) as [v Hv]. cbn [app map response_lines].
  rewrite response_line_text by (by eapply written_length_plain). change (counts (written_length (Z.of_nat n))) with true.
  cbv iota. cbn [snd written_length]. rewrite (proj1 (printed_length v _ Hv)). cbn [r_content_length ResponseFields_init].
  destruct close; [|done]. cbn [closing map response_lines]. pose proof (closing_plain true) as Hpl. inversion Hpl; subst.
  by rewrite response_line_text by done.
Qed.

Lemma built_reply_reads status location close head : reply_ok status location ->
  let '(s, reason) := reply_reason status (is_some location) in
  let reply := build_local_reply status location close head in
  exists e, find_header_end reply = Some e /\
  parse_response_head (take e reply) =
    Some {| head_status := s; head_body := Length (Z.of_nat (length (reply_body s reason))); head_backend_close := close |} /\
  drop e reply = if head then [] else reply_body s reason.
Proof.
  intros Hok. pose proof (reply_reason_ok _ _ Hok) as Hr. pose proof (reply_rendered status location close head) as Hren.
  destruct (reply_reason status (is_some location)) as [s reason]. destruct Hr as (Hs & Hv & Hlen). destruct Hok as [_ Hl].
  assert (Hb : (length (reply_body s reason) <= 44)%nat).
  { unfold reply_body. rewrite print_three, !length_app by done. cbn [length]. lia. }
  pose proof (parse_reply_line s reason Hs Hv) as Hfirst. pose proof (parse_status_line_bytes _ _ Hfirst) as Hfb.
  pose proof (reply_lines_plain s reason location close Hb Hl) as Hls. cbv zeta. rewrite Hren. clear Hren.
  set (raw := reply_line s reason ++ CRLF_ ++ render_lines (reply_lines s reason location close) ++ CRLF_).
  exists (length raw). split; [|split].
  - rewrite find_header_end_first. unfold raw. rewrite <- !app_assoc.
    rewrite first_blank_plain by (done || by apply line_bytes_no_cr).
    change (first_blank (CRLF_ ++ CRLF_ ++ ?x)) with (Some 4%nat). cbn [fmap option_fmap option_map]. f_equal.
    rewrite !length_app. cbn [length]. lia.
  - rewrite take_app_length. unfold parse_response_head, raw. rewrite header_lines_plain by (done || by intros E; rewrite E in Hfirst).
    rewrite Hfirst, reply_fields by done. cbn. by rewrite orb_false_r.
  - apply drop_app_length.
Qed.
End Reread.

(** ** Properties *)

(** The precomputed replies are the builder's, byte for byte: for every
    status, with or without the close announced, whole or answering HEAD. *)
Theorem fixed_replies_match_the_builder status close head :
  local_reply_bytes status None close head = build_local_reply status None close head.
Proof. apply static_is_built. Qed.

(** A client that reads a reply of the proxy's own finds a head that ends
    at its first blank line, the status answered, a length that is that of
    the body which follows (none after HEAD) and the close the proxy means,
    whatever the redirect's location is, as long as it is one line. *)
Theorem local_reply_reads_back `{MC : Memchr} `{AR : Arch} status location close head (Hok : reply_ok status location) :
  let '(s, reason) := reply_reason status (is_some location) in
  let reply := local_reply_bytes status location close head in
  exists e, find_header_end reply = Some e /\
  parse_response_head (take e reply) =
    Some {| head_status := s; head_body := Length (Z.of_nat (length (reply_body s reason))); head_backend_close := close |} /\
  drop e reply = if head then [] else reply_body s reason.
Proof.
  assert (local_reply_bytes status location close head = build_local_reply status location close head) as ->.
  { destruct location; [done|apply static_is_built]. }
  by apply built_reply_reads.
Qed.

Lemma local_reply_reads_back_witness :
  reply_ok 302 (Some (bs "https://a.test/x")) /\
  exists e, find_header_end (local_reply_bytes 302 (Some (bs "https://a.test/x")) true false) = Some e /\
    drop e (local_reply_bytes 302 (Some (bs "https://a.test/x")) true false) = bs "302 Found".
Proof.
  assert (H : reply_ok 302 (Some (bs "https://a.test/x"))) by (split; [lia|by apply forallb_Forall]).
  split; [exact H|].
  destruct (@local_reply_reads_back memchr_scan Little 302 (Some (bs "https://a.test/x")) true false H) as (e & He & _ & Hd).
  exists e. split; [exact He|exact Hd].
Defined.
