(* ===== verification/RequestBody.v ===== *)
(** * Request bodies

    Where a request ends in what the client sent, and the relay of its body,
    from [src/src/proxy/worker.rs]: [Framing::of], [relay_request_body] and
    the mirror tee. The client's reads are a list, in order, its end being
    the client's close; [takes] is how many writes the backend accepts
    before it goes away. Progress budgets are not modelled: one that runs
    out ends the exchange as an error does. *)

From S2P Require Import Prelude Bytes Net HttpGrammar Chunked Routing HttpParser HttpFilters RequestProcessor.
From S2P Require Import Response ResponseBody.

(** ** [Framing] *)

Record Framing := {
  fm_read : nat;
  fm_header_end : nat;
  fm_end : nat;
  fm_chunked : option ChunkedStream;
}.

(** [Framing::of]. *)
Definition Framing_of (read : list Z) (meta : RequestMeta) : option Framing :=
  let header_end := meta_head_len meta in
  let tail_ := drop header_end read in
  let framing end_ ch := {| fm_read := length read; fm_header_end := header_end; fm_end := end_; fm_chunked := ch |} in
  match meta_content_length meta with
  | Some cl => Some (framing (header_end + Z.to_nat (Z.min (Z.of_nat (length tail_)) cl))%nat None)
  | None =>
      if meta_is_chunked meta then
        let '(stream, consumed) := observe ChunkedStream_new tail_ in
        if is_broken stream then None else Some (framing (header_end + consumed)%nat (Some stream))
      else Some (framing header_end None)
  end.

(** ** Mirrors *)

Definition MIRROR_BODY_MAX : nat := Z.to_nat (1024 * 1024).

(** [mirror_body] and [overflow]. *)
Record Mirror := { mirror_body : option (list Z); overflow : bool }.

Definition tee_mirror_chunk (m : Mirror) (chunk : list Z) : Mirror :=
  match mirror_body m with
  | None => m
  | Some mb =>
      if overflow m then m
      else
        let space := (MIRROR_BODY_MAX - length mb)%nat in
        if (length chunk <=? space)%nat then {| mirror_body := Some (mb ++ chunk); overflow := false |}
        else {| mirror_body := Some mb; overflow := true |}
  end.

Definition mirror_init (has_mirrors : bool) (initial_body : list Z) : Mirror :=
  {| mirror_body := if has_mirrors then Some (take (Nat.min (length initial_body) MIRROR_BODY_MAX) initial_body) else None;
     overflow := has_mirrors && (MIRROR_BODY_MAX <? length initial_body)%nat |}.

(** ** The relay *)

Inductive RequestBody :=
  | BodyComplete (mirror leftover : option (list Z))
  | BodyTruncated
  | BodyMalformed
  | BackendGone.

(** How the relay ended, what the backend took, the client's reads left. *)
Record RequestRelay := { rr_end : RequestBody; rr_written : list Z; rr_reads : list (list Z) }.

Definition relayed_before (w : list Z) (r : RequestRelay) : RequestRelay :=
  {| rr_end := rr_end r; rr_written := w ++ rr_written r; rr_reads := rr_reads r |}.

Definition relay_done (m : Mirror) (leftover : option (list Z)) (reads : list (list Z)) : RequestRelay :=
  {| rr_end := BodyComplete (if overflow m then None else mirror_body m) leftover; rr_written := []; rr_reads := reads |}.

Definition past (n : nat) (buf : list Z) (leftover : option (list Z)) : option (list Z) :=
  if (n <? length buf)%nat then Some (drop n buf) else leftover.

(** [while remaining > 0] *)
Fixpoint relay_counted (reads : list (list Z)) (remaining : Z) (m : Mirror) (leftover : option (list Z)) (takes : nat)
  : RequestRelay :=
  if remaining <=? 0 then relay_done m leftover reads
  else match reads with
  | [] => {| rr_end := BodyTruncated; rr_written := []; rr_reads := [] |}
  | buf :: rest =>
      let to_send := Z.to_nat (Z.min (Z.of_nat (length buf)) remaining) in
      match takes with
      | O => {| rr_end := BackendGone; rr_written := []; rr_reads := rest |}
      | S takes' =>
          relayed_before (take to_send buf)
            (relay_counted rest (remaining - Z.of_nat to_send) (tee_mirror_chunk m (take to_send buf))
               (past to_send buf leftover) takes')
      end
  end.

(** [while !stream.is_terminated() && !stream.is_broken()] *)
Fixpoint relay_stream (reads : list (list Z)) (stream : ChunkedStream) (m : Mirror) (leftover : option (list Z)) (takes : nat)
  : RequestRelay :=
  if is_terminated stream then relay_done m leftover reads
  else if is_broken stream then {| rr_end := BodyMalformed; rr_written := []; rr_reads := reads |}
  else match reads with
  | [] => {| rr_end := BodyTruncated; rr_written := []; rr_reads := [] |}
  | buf :: rest =>
      let '(stream', consumed) := observe stream buf in
      if is_broken stream' then {| rr_end := BodyMalformed; rr_written := []; rr_reads := rest |}
      else match takes with
      | O => {| rr_end := BackendGone; rr_written := []; rr_reads := rest |}
      | S takes' =>
          relayed_before (take consumed buf)
            (relay_stream rest stream' (tee_mirror_chunk m (take consumed buf)) (past consumed buf leftover) takes')
      end
  end.

Definition relay_request_body (reads : list (list Z)) (buf : list Z) (header_end request_end : nat) (content_length : option Z)
  (chunked : option ChunkedStream) (has_mirrors : bool) (takes : nat) : RequestRelay :=
  let body_in_initial := (request_end - header_end)%nat in
  let m := mirror_init has_mirrors (slice header_end request_end buf) in
  match content_length with
  | Some cl => relay_counted reads (cl - Z.of_nat body_in_initial) m None takes
  | None =>
      match chunked with
      | Some stream => relay_stream reads stream m None takes
      | None => relay_done m None reads
      end
  end.

(** The bytes held back for the keepalive loop: those past the request in
    the initial read, then those past it in the relay's last read. *)
Definition initial_leftover (buf : list Z) (fm : Framing) : option (list Z) :=
  if (fm_end fm <? fm_read fm)%nat then Some (slice (fm_end fm) (fm_read fm) buf) else None.

(** ** What the relay sends *)

(** A request's body, out of everything the client sends past its head. *)
Definition request_body (meta : RequestMeta) (stream body : list Z) : Prop :=
  match meta_content_length meta with
  | Some n => n <= Z.of_nat (length stream) /\ body = take (Z.to_nat n) stream
  | None => if meta_is_chunked meta then body `prefix_of` stream /\ exists p, chunked_body body p else body = []
  end.

Definition no_request_body (meta : RequestMeta) (stream : list Z) : Prop := forall body, ~ request_body meta stream body.

(** What a mirror is sent of a body. *)
Definition mirrored (has_mirrors : bool) (body : list Z) : option (list Z) :=
  if has_mirrors && (length body <=? MIRROR_BODY_MAX)%nat then Some body else None.

(** The tee after [done_] bytes of body. *)
Definition tee_at (has_mirrors : bool) (done_ : list Z) (m : Mirror) : Prop :=
  is_some (mirror_body m) = has_mirrors /\
  (has_mirrors = true -> overflow m = (MIRROR_BODY_MAX <? length done_)%nat) /\
  (overflow m = false -> has_mirrors = true -> mirror_body m = Some done_).

Lemma mirror_init_tee has_mirrors body : tee_at has_mirrors body (mirror_init has_mirrors body).
Proof.
  unfold mirror_init, tee_at. destruct has_mirrors; cbn [mirror_body overflow is_some andb]; [|done].
  split; [done|]. split; [done|]. intros H%Nat.ltb_ge _. by rewrite Nat.min_l, firstn_all by lia.
Qed.

Lemma tee_step has_mirrors done_ m chunk : tee_at has_mirrors done_ m -> tee_at has_mirrors (done_ ++ chunk) (tee_mirror_chunk m chunk).
Proof.
  intros (H1 & H2 & H3). unfold tee_mirror_chunk. destruct (mirror_body m) as [mb|] eqn:Em; cbn [is_some] in H1; subst has_mirrors.
  2: { split; [by rewrite Em|]. split; [done|]. done. }
  specialize (H2 eq_refl). unfold tee_at. rewrite length_app. destruct (overflow m) eqn:Eo.
  - symmetry in H2. apply Nat.ltb_lt in H2. rewrite Em, Eo. split; [done|]. split; [|done]. intros _. symmetry. apply Nat.ltb_lt. lia.
  - specialize (H3 eq_refl eq_refl). injection H3 as ->. symmetry in H2. apply Nat.ltb_ge in H2.
    destruct (Nat.leb_spec (length chunk) (MIRROR_BODY_MAX - length done_)); cbn [mirror_body overflow is_some].
    + split; [done|]. split; [|done]. intros _. symmetry. apply Nat.ltb_ge. lia.
    + split; [done|]. split; [|done]. intros _. symmetry. apply Nat.ltb_lt. lia.
Qed.

Lemma tee_done has_mirrors body m : tee_at has_mirrors body m -> (if overflow m then None else mirror_body m) = mirrored has_mirrors body.
Proof.
  intros (H1 & H2 & H3). unfold mirrored. destruct has_mirrors; cbn [andb].
  - rewrite H2 by done. specialize (H2 eq_refl). destruct (Nat.ltb_spec MIRROR_BODY_MAX (length body)) as [H|H].
    + destruct (Nat.leb_spec (length body) MIRROR_BODY_MAX); [lia|done].
    + destruct (Nat.leb_spec (length body) MIRROR_BODY_MAX); [|lia]. by apply H3.
  - destruct (mirror_body m); [done|]. by destruct (overflow m).
Qed.

Definition held (o : option (list Z)) : list Z := default [] o.

(** The relay from [done_] bytes of body on, [leftover] not yet set. *)
Definition relay_from (has_mirrors : bool) (done_ : list Z) (reads : list (list Z)) (whole : list Z -> Prop) (r : RequestRelay) : Prop :=
  match rr_end r with
  | BodyComplete mirror leftover => concat reads = rr_written r ++ held leftover ++ concat (rr_reads r) /\
      whole (rr_written r) /\ mirror = mirrored has_mirrors (done_ ++ rr_written r)
  | BodyTruncated => rr_written r = concat reads /\ (forall w, w `prefix_of` concat reads -> ~ whole w)
  | BodyMalformed => rr_written r `prefix_of` concat reads /\ (forall more w, w `prefix_of` concat reads ++ more -> ~ whole w)
  | BackendGone => rr_written r `prefix_of` concat reads /\
      (forall w, w `prefix_of` concat reads -> whole w -> rr_written r `prefix_of` w)
  end.

Lemma past_all n (buf : list Z) lo : (length buf <= n)%nat -> past n buf lo = lo.
Proof. intros H. unfold past. destruct (Nat.ltb_spec n (length buf)); [lia|done]. Qed.

Lemma past_held n (buf : list Z) : take n buf ++ held (past n buf None) = buf.
Proof.
  unfold past. destruct (Nat.ltb_spec n (length buf)); cbn [held default]; [apply take_drop|].
  by rewrite app_nil_r, take_ge by lia.
Qed.

Lemma relay_counted_spec has_mirrors done_ reads n m takes : tee_at has_mirrors done_ m ->
  relay_from has_mirrors done_ reads (fun w => Z.of_nat (length w) = Z.max 0 n) (relay_counted reads n m None takes).
Proof.
  revert done_ n m takes. induction reads as [|buf rest IH]; intros done_ n m takes Hm; cbn [relay_counted].
  { destruct (Z.leb_spec n 0).
    - unfold relay_from. cbn. split; [done|]. split; [lia|]. rewrite app_nil_r. by apply tee_done.
    - unfold relay_from. cbn. split; [done|]. intros w ->%prefix_nil_inv. cbn. lia. }
  destruct (Z.leb_spec n 0).
  { unfold relay_from, relay_done. cbn [rr_end rr_written rr_reads]. split; [done|]. split; [cbn; lia|]. rewrite app_nil_r. by apply tee_done. }
  set (k := Z.to_nat _). destruct takes as [|takes]; [unfold relay_from; cbn [rr_end rr_written]; split; [|intros w _ _]; apply prefix_nil|].
  destruct (Z.le_gt_cases n (Z.of_nat (length buf))) as [Hle|Hgt].
  - assert (Hk : Z.of_nat k = n /\ (k <= length buf)%nat) by lia. destruct Hk as [Hk Hkb].
    assert (Hend : forall lo, relay_counted rest (n - Z.of_nat k) (tee_mirror_chunk m (take k buf)) lo takes =
      relay_done (tee_mirror_chunk m (take k buf)) lo rest).
    { intros lo. rewrite Hk, Z.sub_diag. by destruct rest. }
    rewrite Hend. unfold relay_from, relay_done. cbn [relayed_before rr_end rr_written rr_reads concat]. rewrite app_nil_r. split.
    + by rewrite app_assoc, past_held.
    + split; [rewrite length_take; lia|]. apply tee_done. by apply tee_step.
  - assert (Hk : k = length buf) by lia. rewrite Hk, firstn_all, past_all by lia.
    specialize (IH (done_ ++ buf) (n - Z.of_nat (length buf)) (tee_mirror_chunk m buf) takes (tee_step _ _ _ _ Hm)).
    unfold relay_from in *. cbn [relayed_before rr_end rr_written rr_reads concat].
    destruct (rr_end (relay_counted rest _ _ _ _)) as [mirror leftover| | |].
    + destruct IH as (H1 & H2 & H3). split; [by rewrite H1, <- app_assoc|]. split; [rewrite length_app; lia|]. by rewrite app_assoc.
    + destruct IH as (H1 & H2). split; [by rewrite H1|]. intros w [t Ht] Hw.
      assert (length w <= length (buf ++ concat rest))%nat by (rewrite Ht, length_app; lia).
      destruct (Z.le_gt_cases (Z.of_nat (length (concat rest))) (n - Z.of_nat (length buf) - 1)) as [|Hc]; [rewrite length_app in *; lia|].
      apply (H2 (take (Z.to_nat (n - Z.of_nat (length buf))) (concat rest))); [apply prefix_take|]. rewrite length_take. lia.
    + destruct IH as (H1 & H2). split; [by apply prefix_app|]. intros more w [t Ht] Hw. apply (H2 more (drop (length buf) w)).
      * exists t. rewrite <- app_assoc in Ht. apply (f_equal (drop (length buf))) in Ht.
        rewrite drop_app_length, drop_app_le in Ht by lia. done.
      * rewrite length_drop. lia.
    + destruct IH as (H1 & H2). split; [by apply prefix_app|]. intros w [t Ht] Hw.
      assert (Hsplit : w = buf ++ drop (length buf) w).
      { rewrite <- (take_drop (length buf) w) at 1. f_equal. apply (f_equal (take (length buf))) in Ht.
        rewrite take_app_length, take_app_le in Ht by lia. done. }
      rewrite Hsplit. apply prefix_app, H2; [|rewrite length_drop; lia]. exists t. rewrite Hsplit, <- app_assoc in Ht.
      by apply app_inv_head in Ht.
Qed.

Lemma run_done_app ph w t n o : run ph w = (Done, n, o) -> run ph (w ++ t) = (Done, n, o).
Proof. intros H. rewrite run_app, H. destruct t; cbn [run]; by rewrite Nat.add_0_r, app_nil_r. Qed.

Definition stream_whole (ph : Phase) (w : list Z) : Prop := exists o, run ph w = (Done, length w, o).

(** What completes a body after [buf] completes it from the phase [buf] left. *)
Lemma stream_whole_app ph buf q n o w : run ph buf = (q, n, o) -> q <> Broken -> q <> Done -> stream_whole q w -> stream_whole ph (buf ++ w).
Proof.
  intros Hr Hb Hd [o' Hw]. assert (n = length buf) as -> by (by eapply run_open). exists (o ++ o'). rewrite run_app, Hr.
  rewrite Hw, length_app. by destruct q.
Qed.

Lemma stream_whole_prefix ph buf q n o w : run ph buf = (q, n, o) -> q <> Broken -> q <> Done -> stream_whole ph w ->
  ~ w `prefix_of` buf.
Proof. intros Hr Hb Hd [o' Hw] [t ->]. rewrite (run_done_app _ _ _ _ _ Hw) in Hr. congruence. Qed.

Lemma stream_whole_split ph buf q n o w more : run ph buf = (q, n, o) -> q <> Broken -> q <> Done -> stream_whole ph w ->
  w `prefix_of` buf ++ more -> exists w', w = buf ++ w' /\ w' `prefix_of` more /\ stream_whole q w'.
Proof.
  intros Hr Hb Hd Hw [t Ht].
  destruct (Nat.le_gt_cases (length w) (length buf)) as [Hle|Hgt].
  - exfalso. eapply (stream_whole_prefix ph buf); [exact Hr|done|done|exact Hw|]. exists (drop (length w) buf).
    apply (f_equal (take (length buf))) in Ht. rewrite take_app_length, take_app_ge in Ht by lia.
    rewrite <- (take_drop (length w) buf) at 1. f_equal. rewrite Ht, take_app_length. done.
  - exists (drop (length buf) w). assert (Hsplit : w = buf ++ drop (length buf) w).
    { rewrite <- (take_drop (length buf) w) at 1. f_equal. apply (f_equal (take (length buf))) in Ht.
      rewrite take_app_length, take_app_le in Ht by lia. done. }
    split; [done|]. split.
    + exists t. rewrite Hsplit, <- app_assoc in Ht. by apply app_inv_head in Ht.
    + destruct Hw as [o' Hw]. rewrite Hsplit, run_app, Hr in Hw. exists (run q (drop (length buf) w)).2.
      assert (n = length buf) as -> by (by eapply run_open). rewrite length_app in Hw.
      destruct (run q (drop (length buf) w)) as [[q' n'] o2]. cbn [snd].
      destruct q; try done; injection Hw as -> Hn _; do 2 f_equal; lia.
Qed.

Lemma relay_stream_spec has_mirrors done_ reads s m takes : phase_ok (phase s) -> phase s <> Broken -> tee_at has_mirrors done_ m ->
  relay_from has_mirrors done_ reads (stream_whole (phase s)) (relay_stream reads s m None takes).
Proof.
  revert done_ s m takes. induction reads as [|buf rest IH]; intros done_ s m takes Hok Hb Hm; cbn [relay_stream];
    unfold is_terminated, is_broken; destruct (bool_decide_reflect (phase s = Done)) as [Hd|Hd];
    try (rewrite (bool_decide_eq_false_2 (phase s = Broken)) by done).
  - unfold relay_from. cbn. split; [done|]. split; [rewrite Hd; by exists []|]. rewrite app_nil_r. by apply tee_done.
  - unfold relay_from. cbn. split; [done|]. intros w ->%prefix_nil_inv [o Ho]. cbn in Ho. congruence.
  - unfold relay_from, relay_done. cbn [rr_end rr_written rr_reads]. split; [done|]. split; [rewrite Hd; by exists []|].
    rewrite app_nil_r. by apply tee_done.
  - rewrite observe_run by done. pose proof (run_ok (phase s) buf Hok) as Hok'. pose proof (run_consumed (phase s) buf) as Hc.
    destruct (run (phase s) buf) as [[q n] o] eqn:Er. cbn [fst snd phase] in *.
    destruct (bool_decide_reflect (q = Broken)) as [->|Hqb].
    { unfold relay_from. cbn [rr_end rr_written]. split; [apply prefix_nil|]. intros more w [t Ht] [o' Hw].
      apply (run_broken_app _ _ (concat rest ++ more)) in Er. cbn [concat] in Ht. rewrite app_assoc, Ht in Er.
      rewrite (run_done_app _ _ _ _ _ Hw) in Er. done. }
    destruct takes as [|takes]; [unfold relay_from; cbn [rr_end rr_written]; split; [|intros w _ _]; apply prefix_nil|].
    destruct (decide (q = Done)) as [->|Hqd].
    + assert (Hend : forall lo m', relay_stream rest {| phase := Done |} m' lo takes = relay_done m' lo rest) by (by intros; destruct rest).
      rewrite Hend. unfold relay_from, relay_done. cbn [relayed_before rr_end rr_written rr_reads concat]. rewrite app_nil_r. split.
      * by rewrite app_assoc, past_held.
      * split; [|apply tee_done; by apply tee_step]. exists o. rewrite length_take, Nat.min_l by done.
        apply run_done in Er as [Hn He]; [|done]. apply run_done; [done|]. rewrite take_take, length_take, Nat.min_id. split; [lia|done].
    + assert (n = length buf) as -> by (by eapply run_open). rewrite firstn_all, past_all by lia.
      specialize (IH (done_ ++ buf) {| phase := q |} (tee_mirror_chunk m buf) takes Hok' Hqb (tee_step _ _ _ _ Hm)).
      unfold relay_from in *. cbn [relayed_before rr_end rr_written rr_reads concat phase] in *.
      destruct (rr_end (relay_stream rest _ _ _ _)) as [mirror leftover| | |].
      * destruct IH as (H1 & H2 & H3). split; [by rewrite H1, <- app_assoc|]. split; [by eapply stream_whole_app|]. by rewrite app_assoc.
      * destruct IH as (H1 & H2). split; [by rewrite H1|]. intros w Hw Hwh.
        destruct (stream_whole_split _ _ _ _ _ _ _ Er Hqb Hqd Hwh Hw) as (w' & _ & Hp & Hwh'). by apply (H2 w').
      * destruct IH as (H1 & H2). split; [by apply prefix_app|]. intros more w Hw Hwh. rewrite <- app_assoc in Hw.
        destruct (stream_whole_split _ _ _ _ _ _ _ Er Hqb Hqd Hwh Hw) as (w' & _ & Hp & Hwh'). by apply (H2 more w').
      * destruct IH as (H1 & H2). split; [by apply prefix_app|]. intros w Hw Hwh.
        destruct (stream_whole_split _ _ _ _ _ _ _ Er Hqb Hqd Hwh Hw) as (w' & -> & Hp & Hwh'). apply prefix_app. by apply H2.
Qed.

(** ** From the head on *)

Section FromHead.
Context (buf : list Z) (meta : RequestMeta) (fm : Framing) (has_mirrors : bool) (takes : nat) (reads : list (list Z)).
Hypothesis Hhead : (meta_head_len meta <= length buf)%nat.
Hypothesis Hlen : match meta_content_length meta with Some n => 0 <= n | None => True end.
Hypothesis Hfm : Framing_of buf meta = Some fm.

Let tail_ := drop (meta_head_len meta) buf.
Let r := relay_request_body reads buf (fm_header_end fm) (fm_end fm) (meta_content_length meta) (fm_chunked fm) has_mirrors takes.
Let sent := slice (fm_header_end fm) (fm_end fm) buf ++ rr_written r.
Let stream := tail_ ++ concat reads.

(** What the caller keeps for the next request. *)
Definition kept_for_next (leftover : option (list Z)) : option (list Z) :=
  match leftover with Some l => Some l | None => initial_leftover buf fm end.

Definition relay_exact : Prop :=
  match rr_end r with
  | BodyComplete mirror leftover => request_body meta stream sent /\ mirror = mirrored has_mirrors sent /\
      stream = sent ++ held (kept_for_next leftover) ++ concat (rr_reads r)
  | BodyTruncated => sent = stream /\ no_request_body meta stream
  | BodyMalformed => sent `prefix_of` stream /\ forall more, no_request_body meta (stream ++ more)
  | BackendGone => sent `prefix_of` stream /\ forall body, request_body meta stream body -> sent `prefix_of` body
  end.

(** The initial read held the whole body. *)
Lemma exact_at_once k : fm_read fm = length buf -> fm_header_end fm = meta_head_len meta ->
  fm_end fm = (meta_head_len meta + k)%nat -> (k <= length tail_)%nat -> request_body meta stream (take k tail_) ->
  r = relay_done (mirror_init has_mirrors (slice (fm_header_end fm) (fm_end fm) buf)) None reads -> relay_exact.
Proof.
  intros Hr Hh He Hk Hb Hrr. unfold relay_exact, sent, kept_for_next, initial_leftover. rewrite Hrr. cbn [relay_done rr_end rr_written rr_reads].
  assert (Hs : slice (fm_header_end fm) (fm_end fm) buf = take k tail_).
  { unfold slice, tail_. rewrite Hh, He. f_equal. lia. }
  rewrite app_nil_r, Hs, Hr, He. split; [done|]. split; [apply tee_done, mirror_init_tee|].
  unfold stream. rewrite app_assoc. f_equal. rewrite <- (take_drop k tail_) at 1. f_equal.
  assert (Hlt : length tail_ = (length buf - meta_head_len meta)%nat) by (unfold tail_; apply length_drop).
  destruct (Nat.ltb_spec (meta_head_len meta + k) (length buf)); cbn [held default].
  - unfold slice. unfold tail_. rewrite drop_drop, take_ge by (rewrite length_drop; lia). done.
  - rewrite drop_ge by lia. done.
Qed.

(** The initial read ended inside the body. *)
Lemma exact_later whole : fm_read fm = length buf -> fm_header_end fm = meta_head_len meta -> fm_end fm = length buf ->
  (forall w s, w `prefix_of` s -> whole w <-> request_body meta (tail_ ++ s) (tail_ ++ w)) ->
  (forall s b, request_body meta (tail_ ++ s) b -> exists w, b = tail_ ++ w /\ w `prefix_of` s) ->
  relay_from has_mirrors tail_ reads whole r -> relay_exact.
Proof.
  intros Hr Hh He Hw Hb Hrel. unfold relay_exact, sent, relay_from in *.
  assert (Hs : slice (fm_header_end fm) (fm_end fm) buf = tail_).
  { unfold slice, tail_. rewrite Hh, He. apply take_ge. rewrite length_drop. lia. }
  assert (Hno : forall s, (forall w, w `prefix_of` s -> ~ whole w) -> no_request_body meta (tail_ ++ s)).
  { intros s H b Hrb. destruct (Hb s b Hrb) as (w & -> & Hp). apply (H w Hp). by apply (Hw w s Hp). }
  rewrite Hs. destruct (rr_end r) as [mirror leftover| | |].
  - destruct Hrel as (H1 & H2 & H3). split; [|split; [done|]].
    + unfold stream. apply (Hw (rr_written r) (concat reads)); [|done]. exists (held leftover ++ concat (rr_reads r)). done.
    + unfold stream, kept_for_next, initial_leftover. rewrite He, Hr, Nat.ltb_irrefl, <- app_assoc, H1. do 2 f_equal. by destruct leftover.
  - destruct Hrel as (H1 & H2). split; [by rewrite H1|]. by apply Hno.
  - destruct Hrel as (H1 & H2). split; [by apply prefix_app|]. intros more. unfold stream. rewrite <- app_assoc. apply Hno, H2.
  - destruct Hrel as (H1 & H2). split; [by apply prefix_app|]. intros body Hbody. destruct (Hb _ _ Hbody) as (w & -> & Hp).
    apply prefix_app, H2; [done|]. by apply (Hw w (concat reads)).
Qed.

Lemma prefix_length_take (w s : list Z) : w `prefix_of` s -> w = take (length w) s.
Proof. intros [t ->]. by rewrite take_app_length. Qed.

Lemma relay_request_exact : relay_exact.
Proof.
  pose proof Hfm as Hf0. pose proof Hlen as Hl0. unfold Framing_of in Hf0. fold tail_ in Hf0.
  destruct (meta_content_length meta) as [n|] eqn:Ecl in Hf0, Hl0; [|destruct (meta_is_chunked meta) eqn:Ech in Hf0].
  - injection Hf0 as Hf. destruct (Z.le_gt_cases n (Z.of_nat (length tail_))) as [Hle|Hgt].
    + apply (exact_at_once (Z.to_nat n)); [by rewrite <- Hf|by rewrite <- Hf|rewrite <- Hf; cbn [fm_end]; lia|lia| |].
      * unfold request_body. rewrite Ecl. unfold stream. rewrite length_app, take_app_le by lia. split; [lia|done].
      * unfold r, relay_request_body. rewrite Ecl.
        assert (n - Z.of_nat (fm_end fm - fm_header_end fm) = 0) as -> by (rewrite <- Hf; cbn [fm_end fm_header_end]; lia).
        by destruct reads.
    + assert (He : fm_end fm = length buf).
      { rewrite <- Hf. cbn [fm_end]. unfold tail_ in *. rewrite length_drop in *. lia. }
      apply (exact_later (fun w => Z.of_nat (length w) = Z.max 0 (n - Z.of_nat (length tail_)))); [by rewrite <- Hf|by rewrite <- Hf|done| | |].
      * intros w s Hp. unfold request_body. rewrite Ecl, length_app. rewrite take_app_ge by lia. pose proof (prefix_length _ _ Hp). split.
        -- intros Hw. split; [lia|]. f_equal. rewrite (prefix_length_take w s Hp) at 1. f_equal. lia.
        -- intros [H1 H2]. apply app_inv_head in H2. apply (f_equal length) in H2. rewrite length_take in H2. lia.
      * intros s b. unfold request_body. rewrite Ecl, length_app. intros [H1 ->]. rewrite take_app_ge by lia. eexists. split; [done|]. apply prefix_take.
      * unfold r, relay_request_body. rewrite Ecl.
        assert (Hi : (fm_end fm - fm_header_end fm)%nat = length tail_) by (rewrite He, <- Hf; unfold tail_; cbn [fm_header_end]; by rewrite length_drop).
        rewrite Hi. apply relay_counted_spec.
        assert (slice (fm_header_end fm) (fm_end fm) buf = tail_) as ->; [|apply mirror_init_tee].
        unfold slice, tail_. rewrite He, <- Hf. apply take_ge. cbn [fm_header_end]. rewrite length_drop. lia.
  - rewrite observe_run in Hf0 by apply fresh_ok. change (phase ChunkedStream_new) with (Size 0 false) in Hf0.
    pose proof (run_ok _ tail_ fresh_ok) as Hok. pose proof (run_consumed (Size 0 false) tail_) as Hc.
    destruct (run (Size 0 false) tail_) as [[q k] o] eqn:Er. cbn [fst snd] in *. unfold is_broken in Hf0. cbn [phase] in Hf0.
    destruct (bool_decide_reflect (q = Broken)) as [|Hqb]; [done|]. injection Hf0 as Hf.
    destruct (decide (q = Done)) as [->|Hqd].
    + apply (exact_at_once k); [by rewrite <- Hf|by rewrite <- Hf|by rewrite <- Hf|done| |].
      * unfold request_body. rewrite Ecl, Ech. split; [exists (drop k tail_ ++ concat reads); unfold stream; by rewrite app_assoc, take_drop|].
        exists o. apply expects_start. by apply run_done in Er as [_ He]; [|apply fresh_ok].
      * unfold r, relay_request_body. rewrite Ecl, <- Hf. cbn [fm_chunked]. by destruct reads.
    + assert (k = length tail_) as -> by (by eapply run_open).
      assert (He : fm_end fm = length buf).
      { rewrite <- Hf. cbn [fm_end]. unfold tail_. rewrite length_drop. lia. }
      assert (Hwhole : forall w, stream_whole q w <-> exists p, chunked_body (tail_ ++ w) p).
      { intros w. split.
        - intros Hw. destruct (stream_whole_app _ _ _ _ _ _ Er Hqb Hqd Hw) as [p Hp]. exists p.
          apply run_done in Hp as [_ He']; [|apply fresh_ok]. rewrite firstn_all in He'. by apply expects_start.
        - intros [p Hp]. destruct (stream_whole_split (Size 0 false) tail_ q _ _ (tail_ ++ w) w Er Hqb Hqd) as (w' & E & _ & Hw'); [| done|].
          + exists p. rewrite <- (app_nil_r (tail_ ++ w)) at 1. by apply chunked_run.
          + by apply app_inv_head in E as ->. }
      apply (exact_later (stream_whole q)); [by rewrite <- Hf|by rewrite <- Hf|done| | |].
      * intros w s Hp. unfold request_body. rewrite Ecl, Ech, Hwhole. split; [|by intros [_ ?]]. intros H. split; [by apply prefix_app|done].
      * intros s b. unfold request_body. rewrite Ecl, Ech. intros [Hp [p Hb]].
        destruct (stream_whole_split (Size 0 false) tail_ q _ _ b s Er Hqb Hqd) as (w & -> & Hw & _); [|done|by exists w].
        exists p. rewrite <- (app_nil_r b) at 1. by apply chunked_run.
      * unfold r, relay_request_body. rewrite Ecl, <- Hf. cbn [fm_chunked].
        apply (relay_stream_spec has_mirrors tail_ reads {| phase := q |}); [done|done|]. rewrite Hf.
        assert (slice (fm_header_end fm) (fm_end fm) buf = tail_) as ->; [|apply mirror_init_tee].
        unfold slice, tail_. rewrite He, <- Hf. apply take_ge. cbn [fm_header_end]. rewrite length_drop. lia.
  - injection Hf0 as Hf. apply (exact_at_once 0); [by rewrite <- Hf|by rewrite <- Hf|rewrite <- Hf; cbn [fm_end]; lia|lia| |].
    + unfold request_body. by rewrite Ecl, Ech, take_0.
    + unfold r, relay_request_body. by rewrite Ecl, <- Hf.
Qed.

End FromHead.

(** The relay takes reads off the front. *)
Lemma relay_reads_suffix reads buf header_end request_end cl chunked mirrors takes :
  exists taken, reads = taken ++ rr_reads (relay_request_body reads buf header_end request_end cl chunked mirrors takes).
Proof.
  unfold relay_request_body. set (m := mirror_init _ _). clearbody m. destruct cl as [n|]; [|destruct chunked as [s|]; [|by exists []]].
  - generalize (n - Z.of_nat (request_end - header_end)) as k, (@None (list Z)) as lo. intros k lo. revert k lo m takes.
    induction reads as [|b rest IH]; intros k lo m takes; cbn [relay_counted]; (destruct (k <=? 0); [by exists []|]); [by exists []|].
    destruct takes as [|takes]; [by exists [b]|].
    match goal with |- context [relay_counted rest ?k' ?m' ?lo' takes] => destruct (IH k' lo' m' takes) as [t Ht] end.
    exists (b :: t). cbn [relayed_before rr_reads app]. by f_equal.
  - generalize (@None (list Z)) as lo. intros lo. revert s lo m takes.
    induction reads as [|b rest IH]; intros s lo m takes; cbn [relay_stream];
      (destruct (is_terminated s); [by exists []|]; destruct (is_broken s); [by exists []|]); [by exists []|].
    destruct (observe s b) as [s' c]. destruct (is_broken s'); [by exists [b]|]. destruct takes as [|takes]; [by exists [b]|].
    match goal with |- context [relay_stream rest ?k' ?m' ?lo' takes] => destruct (IH k' lo' m' takes) as [t Ht] end.
    exists (b :: t). cbn [relayed_before rr_reads app]. by f_equal.
Qed.

(** A request has one body. *)
Lemma request_body_unique meta stream a b : request_body meta stream a -> request_body meta stream b -> a = b.
Proof.
  unfold request_body. destruct (meta_content_length meta) as [n|]; [by intros [_ ->] [_ ->]|].
  destruct (meta_is_chunked meta); [|by intros -> ->]. intros [[ra Ha] [pa Hpa]] [[rb Hb] [pb Hpb]].
  pose proof (chunked_run a ra pa Hpa) as Ra. pose proof (chunked_run b rb pb Hpb) as Rb. rewrite <- Ha in Ra. rewrite <- Hb in Rb.
  rewrite Ra in Rb. injection Rb as Hl _. rewrite Ha in Hb. by apply app_inj_1 in Hb as [? _].
Qed.

(** ** Property *)

(** The backend is sent exactly the request's body, however the client's
    bytes are cut into reads: [Content-Length] bytes, one chunked body up to
    its terminator, or none; every byte past it is held back for the next
    request, in order, and none is lost. A mirror gets that same body or,
    past the cap, nothing. Cut short, the relay says so: no body completes
    the request, however the client goes on if the framing broke; and a
    backend that went away was sent nothing past the body's end. *)
Theorem request_body_exact buf meta fm has_mirrors takes reads
  (Hhead : (meta_head_len meta <= length buf)%nat)
  (Hlen : match meta_content_length meta with Some n => 0 <= n | None => True end)
  (Hfm : Framing_of buf meta = Some fm) :
  let r := relay_request_body reads buf (fm_header_end fm) (fm_end fm) (meta_content_length meta) (fm_chunked fm) has_mirrors takes in
  let sent := slice (fm_header_end fm) (fm_end fm) buf ++ rr_written r in
  let stream := drop (meta_head_len meta) buf ++ concat reads in
  match rr_end r with
  | BodyComplete mirror leftover => request_body meta stream sent /\ mirror = mirrored has_mirrors sent /\
      stream = sent ++ held (kept_for_next buf fm leftover) ++ concat (rr_reads r)
  | BodyTruncated => sent = stream /\ no_request_body meta stream
  | BodyMalformed => sent `prefix_of` stream /\ forall more, no_request_body meta (stream ++ more)
  | BackendGone => sent `prefix_of` stream /\ forall body, request_body meta stream body -> sent `prefix_of` body
  end.
Proof. by apply relay_request_exact. Qed.

Definition chunked_meta : RequestMeta :=
  {| meta_head_len := 4; meta_content_length := None; meta_is_chunked := true; meta_is_upgrade := false; is_head := false;
     idempotent := false; meta_keepalive := true; path_span := None; normalized_path := None;
     meta_strip_spans := StripSpans_default; meta_upgrade_span := None; meta_expect_continue := false;
     meta_local_reply_reusable := false; meta_client_done := false |}.

Definition chunked_start : list Z := bs "head" ++ bs "3" ++ [13; 10] ++ bs "ab".
Definition chunked_rest : list (list Z) := [bs "c" ++ [13; 10; 48; 13; 10]; [13; 10] ++ bs "GET /"].

Lemma request_body_exact_witness :
  exists fm, Framing_of chunked_start chunked_meta = Some fm /\
  rr_end (relay_request_body chunked_rest chunked_start (fm_header_end fm) (fm_end fm) None (fm_chunked fm) true 9) =
    BodyComplete (Some (bs "3" ++ [13; 10] ++ bs "abc" ++ [13; 10; 48; 13; 10; 13; 10])) (Some (bs "GET /")) /\
  exists sent, request_body chunked_meta (drop 4 chunked_start ++ concat chunked_rest) sent.
Proof.
  eexists. split; [vm_compute; reflexivity|]. split; [vm_compute; reflexivity|].
  pose proof (request_body_exact chunked_start chunked_meta _ true 9 chunked_rest ltac:(vm_compute; lia) I eq_refl) as H.
  cbv zeta in H.
  match type of H with match ?e with _ => _ end =>
    assert (E : exists m l, e = BodyComplete m l) by (do 2 eexists; vm_compute; reflexivity); destruct E as (m & l & E); rewrite E in H end.
  eexists. exact (proj1 H).
Defined.
