(* ===== verification/BackendPool.v ===== *)
(** * The pool of idle backend connections

    [src/src/proxy/backend_pool.rs]: idle connections by address, and over
    TLS by the name they were opened for. [BackendPool] and
    [SharedBackendPool] hold the same map; the second's operations each run
    under its shard's lock, so they are the same functions here. What the
    pool promises its callers is the class [IdlePool]; the theorems about a
    run of operations are proved against it. Opening a connection is I/O and
    is not modelled; nor are the metrics. *)

From S2P Require Import Prelude Bytes Net.

(** A connection: only its identity matters here. *)
Record Conn := { conn_id : nat }.

#[export] Instance Conn_eq_dec : EqDecision Conn.
Proof. solve_decision. Defined.

(** A [Vec] used as a stack, its top first. *)
Record IdleConns := {
  plain : list Conn;
  tls : list (list Z * list Conn);
}.

Definition IdleConns_default : IdleConns := {| plain := []; tls := [] |}.

Definition sni (use_tls : bool) (server_name : list Z) : option (list Z) := if use_tls then Some server_name else None.

(** [while let Some(conn) = conns.pop()]: [live] is what [idle_and_open]
    answers. *)
Fixpoint pop_live (live : Conn -> bool) (conns : list Conn) : option Conn * list Conn :=
  match conns with
  | [] => (None, [])
  | c :: rest => if live c then (Some c, rest) else pop_live live rest
  end.

(** [find] by name, with the list changed in place. *)
Fixpoint take_named (live : Conn -> bool) (name : list Z) (l : list (list Z * list Conn))
  : option Conn * list (list Z * list Conn) :=
  match l with
  | [] => (None, [])
  | (s, conns) :: rest =>
      if beq s name then let '(c, conns') := pop_live live conns in (c, (s, conns') :: rest)
      else let '(c, rest') := take_named live name rest in (c, (s, conns) :: rest')
  end.

Definition take_live (live : Conn -> bool) (name : option (list Z)) (i : IdleConns) : option Conn * IdleConns :=
  match name with
  | None => let '(c, conns) := pop_live live (plain i) in (c, {| plain := conns; tls := tls i |})
  | Some s => let '(c, l) := take_named live s (tls i) in (c, {| plain := plain i; tls := l |})
  end.

Definition push_idle (conn : Conn) (max_idle : nat) (conns : list Conn) : list Conn :=
  if (length conns <? max_idle)%nat then conn :: conns else conns.

(** [position], or a new entry at the end. *)
Fixpoint put_named (name : list Z) (conn : Conn) (max_idle : nat) (l : list (list Z * list Conn)) : list (list Z * list Conn) :=
  match l with
  | [] => [(name, push_idle conn max_idle [])]
  | (s, conns) :: rest =>
      if beq s name then (s, push_idle conn max_idle conns) :: rest
      else (s, conns) :: put_named name conn max_idle rest
  end.

Definition put (name : option (list Z)) (conn : Conn) (max_idle : nat) (i : IdleConns) : IdleConns :=
  match name with
  | None => {| plain := push_idle conn max_idle (plain i); tls := tls i |}
  | Some s => {| plain := plain i; tls := put_named s conn max_idle (tls i) |}
  end.

Record BackendPool := { pools : gmap SocketAddr IdleConns; max_idle_per_backend : nat }.

Definition BackendPool_new (max_idle : nat) : BackendPool := {| pools := ∅; max_idle_per_backend := max_idle |}.

Definition take_idle (live : Conn -> bool) (addr : SocketAddr) (use_tls : bool) (server_name : list Z) (p : BackendPool)
  : option Conn * BackendPool :=
  match pools p !! addr with
  | None => (None, p)
  | Some idle =>
      let '(c, idle') := take_live live (sni use_tls server_name) idle in
      (c, {| pools := <[addr := idle']> (pools p); max_idle_per_backend := max_idle_per_backend p |})
  end.

Definition release (addr : SocketAddr) (use_tls : bool) (server_name : list Z) (conn : Conn) (p : BackendPool) : BackendPool :=
  {| pools := <[addr := put (sni use_tls server_name) conn (max_idle_per_backend p) (default IdleConns_default (pools p !! addr))]> (pools p);
     max_idle_per_backend := max_idle_per_backend p |}.

(** [acquire]: what the pool holds, or the connection [fresh] opens. The
    flag is [from_pool]. *)
Definition acquire {E} (live : Conn -> bool) (addr : SocketAddr) (use_tls : bool) (server_name : list Z) (fresh : result Conn E)
  (p : BackendPool) : result (Conn * bool) E * BackendPool :=
  match take_idle live addr use_tls server_name p with
  | (Some c, p') => (Ok (c, true), p')
  | (None, p') => (match fresh with Ok c => Ok (c, false) | Err e => Err e end, p')
  end.

(** [PoolHandle]: either scope, the same operations. *)
Inductive PoolHandle := PerConn (p : BackendPool) | Shared (p : BackendPool).

Definition handle_pool (h : PoolHandle) : BackendPool := match h with PerConn p | Shared p => p end.
Definition with_pool (h : PoolHandle) (p : BackendPool) : PoolHandle := match h with PerConn _ => PerConn p | Shared _ => Shared p end.

Definition handle_take_idle (live : Conn -> bool) (addr : SocketAddr) (use_tls : bool) (server_name : list Z) (h : PoolHandle)
  : option Conn * PoolHandle :=
  let '(c, p) := take_idle live addr use_tls server_name (handle_pool h) in (c, with_pool h p).

Definition handle_release (addr : SocketAddr) (use_tls : bool) (server_name : list Z) (conn : Conn) (h : PoolHandle) : PoolHandle :=
  with_pool h (release addr use_tls server_name conn (handle_pool h)).

(** ** Errors opening one *)

Inductive ConnectError := LocalError | BackendError.

(** Linux: EMFILE 24, ENFILE 23, ENOBUFS 105, ENOMEM 12. *)
Definition out_of_fds_or_memory (raw_os_error : option Z) : bool :=
  match raw_os_error with Some e => (e =? 24) || (e =? 23) || (e =? 105) || (e =? 12) | None => false end.

Definition connect_error (raw_os_error : option Z) : ConnectError :=
  if out_of_fds_or_memory raw_os_error then LocalError else BackendError.

(** ** What a pool promises *)

(** Where an idle connection may be reused: its address, and the name it was
    opened for over TLS. *)
Definition key : Type := SocketAddr * option (list Z).

#[export] Instance key_eq_dec : EqDecision key := _.

Class IdlePool (P : Type) := {
  idle_at : P -> key -> list Conn;
  pool_max : P -> nat;
  pool_take : (Conn -> bool) -> key -> P -> option Conn * P;
  pool_put : key -> Conn -> P -> P;
  (** A take pops until a live one, from its own key only. *)
  pool_take_at : forall live k p k', let '(c, p') := pool_take live k p in
    pool_max p' = pool_max p /\ c = (pop_live live (idle_at p k)).1 /\
    idle_at p' k' = if decide (k' = k) then (pop_live live (idle_at p k)).2 else idle_at p k';
  (** A put pushes, up to the cap, on its own key only. *)
  pool_put_at : forall k c p k', pool_max (pool_put k c p) = pool_max p /\
    idle_at (pool_put k c p) k' = if decide (k' = k) then push_idle c (pool_max p) (idle_at p k) else idle_at p k';
}.

(** ** The map keeps the promise *)

Fixpoint named_conns (name : list Z) (l : list (list Z * list Conn)) : list Conn :=
  match l with
  | [] => []
  | (s, conns) :: rest => if beq s name then conns else named_conns name rest
  end.

Definition conns_of (i : IdleConns) (name : option (list Z)) : list Conn :=
  match name with None => plain i | Some s => named_conns s (tls i) end.

Definition idle_for (p : BackendPool) (k : key) : list Conn :=
  match pools p !! k.1 with Some i => conns_of i k.2 | None => [] end.

Definition key_tls (k : key) : bool := is_some k.2.
Definition key_name (k : key) : list Z := default [] k.2.

Lemma sni_key k : sni (key_tls k) (key_name k) = k.2.
Proof. by destruct k as [a [s|]]. Qed.

Lemma beq_refl s : beq s s = true.
Proof. by apply beq_spec. Qed.

Lemma beq_ne s t : s <> t -> beq s t = false.
Proof. intros H. destruct (beq s t) eqn:E; [|done]. by apply beq_spec in E. Qed.

Lemma take_named_at live name l name' :
  let '(c, l') := take_named live name l in
  c = (pop_live live (named_conns name l)).1 /\
  named_conns name' l' = if decide (name' = name) then (pop_live live (named_conns name l)).2 else named_conns name' l.
Proof.
  induction l as [|[s conns] l IH]; cbn [take_named named_conns]; [by destruct (decide _)|].
  destruct (beq s name) eqn:Es.
  - apply beq_spec in Es as ->. destruct (pop_live live conns) as [c conns'] eqn:Ep. cbn [fst snd named_conns]. split; [done|].
    destruct (decide (name' = name)) as [->|Hne]; [by rewrite beq_refl|by rewrite beq_ne by congruence].
  - destruct (take_named live name l) as [c l']. destruct IH as [-> IH]. split; [done|]. cbn [named_conns].
    destruct (beq s name') eqn:Es'; [|done]. apply beq_spec in Es' as ->.
    destruct (decide (name' = name)) as [->|]; [by rewrite beq_refl in Es|done].
Qed.

Lemma put_named_at name conn m l name' :
  named_conns name' (put_named name conn m l) =
  if decide (name' = name) then push_idle conn m (named_conns name l) else named_conns name' l.
Proof.
  induction l as [|[s conns] l IH]; cbn [put_named named_conns].
  { destruct (decide (name' = name)) as [->|Hne]; [by rewrite beq_refl|by rewrite beq_ne by congruence]. }
  destruct (beq s name) eqn:Es; cbn [named_conns].
  - apply beq_spec in Es as ->. destruct (decide (name' = name)) as [->|Hne]; [by rewrite beq_refl|by rewrite beq_ne by congruence].
  - rewrite IH. destruct (beq s name') eqn:Es'; [|done]. apply beq_spec in Es' as ->.
    destruct (decide (name' = name)) as [->|]; [by rewrite beq_refl in Es|done].
Qed.

Lemma take_live_at live name i name' :
  let '(c, i') := take_live live name i in
  c = (pop_live live (conns_of i name)).1 /\
  conns_of i' name' = if decide (name' = name) then (pop_live live (conns_of i name)).2 else conns_of i name'.
Proof.
  unfold take_live. destruct name as [s|].
  - pose proof (take_named_at live s (tls i)) as H. destruct (take_named live s (tls i)) as [c l].
    destruct name' as [s'|]; cbn [conns_of plain tls].
    + destruct (H s') as [-> ->]. split; [done|]. destruct (decide (s' = s)), (decide (Some s' = Some s)); congruence.
    + destruct (H s) as [-> _]. split; [done|]. by destruct (decide (None = Some s)).
  - cbn [conns_of]. destruct (pop_live live (plain i)) as [c conns]. split; [done|].
    destruct name' as [s'|]; cbn [conns_of plain tls snd]; by destruct (decide _).
Qed.

Lemma put_at name conn m i name' :
  conns_of (put name conn m i) name' = if decide (name' = name) then push_idle conn m (conns_of i name) else conns_of i name'.
Proof.
  destruct name as [s|]; cbn [put]; destruct name' as [s'|]; cbn [conns_of plain tls].
  - rewrite put_named_at. destruct (decide (s' = s)), (decide (Some s' = Some s)); congruence.
  - by destruct (decide (None = Some s)).
  - by destruct (decide (Some s' = None)).
  - by destruct (decide _).
Qed.

Lemma same_address (a : SocketAddr) (n n' : option (list Z)) : (a, n) = (a, n') <-> n = n'.
Proof. split; [by intros [= ->]|by intros ->]. Qed.

#[export, refine] Instance backend_pool : IdlePool BackendPool := {|
  idle_at := idle_for;
  pool_max := max_idle_per_backend;
  pool_take live k := take_idle live k.1 (key_tls k) (key_name k);
  pool_put k := release k.1 (key_tls k) (key_name k);
|}.
Proof.
  - intros live [a n] p [a' n']. unfold take_idle, idle_for. rewrite sni_key. cbn [fst snd].
    destruct (pools p !! a) as [i|] eqn:Ea.
    + pose proof (take_live_at live n i) as H. destruct (take_live live n i) as [c i']. cbn [pools max_idle_per_backend].
      split; [done|]. destruct (H n') as [-> Hn]. split; [done|]. destruct (decide (a' = a)) as [->|Hne].
      * rewrite lookup_insert_eq, Ea, Hn. apply decide_ext. symmetry. apply same_address.
      * rewrite lookup_insert_ne by congruence. rewrite decide_False; [done|]. intros E. by injection E.
    + split; [done|]. split; [done|]. case_decide as E; [injection E as -> ->; by rewrite Ea|done].
  - intros [a n] c p [a' n']. unfold release, idle_for. rewrite sni_key. cbn [fst snd pools max_idle_per_backend].
    split; [done|]. destruct (decide (a' = a)) as [->|Hne].
    + rewrite lookup_insert_eq, put_at. destruct (pools p !! a) as [i|]; cbn [default].
      * apply decide_ext. symmetry. apply same_address.
      * assert (Hnil : forall m, conns_of IdleConns_default m = []) by (by intros []). rewrite !Hnil.
        apply decide_ext. symmetry. apply same_address.
    + rewrite lookup_insert_ne by congruence. rewrite decide_False; [done|]. intros E. by injection E.
Defined.

(** ** A run of operations *)

Inductive PoolOp := Take (live : Conn -> bool) (k : key) | Put (k : key) (c : Conn).

Section Runs.
Context {P : Type} `{IdlePool P}.

(** Every operation of a run, with what the takes got. *)
Definition pool_step (s : P * list (key * Conn)) (op : PoolOp) : P * list (key * Conn) :=
  match op with
  | Take live k => match pool_take live k s.1 with
                   | (Some c, p) => (p, (k, c) :: s.2)
                   | (None, p) => (p, s.2)
                   end
  | Put k c => (pool_put k c s.1, s.2)
  end.

Definition pool_run (p : P) (ops : list PoolOp) : P * list (key * Conn) := fold_left pool_step ops (p, []).

(** What a run handed out, and took back, under a key. *)
Definition under (k : key) (l : list (key * Conn)) : list Conn := map snd (filter (fun kc => kc.1 = k) l).

Fixpoint puts (ops : list PoolOp) : list (key * Conn) :=
  match ops with
  | [] => []
  | Put k c :: rest => (k, c) :: puts rest
  | Take _ _ :: rest => puts rest
  end.

Lemma puts_app a b : puts (a ++ b) = puts a ++ puts b.
Proof. induction a as [|[live k|k c] a IH]; cbn [puts app]; [done|done|by rewrite IH]. Qed.

Lemma under_app k a b : under k (a ++ b) = under k a ++ under k b.
Proof. unfold under. by rewrite filter_app, map_app. Qed.

Lemma under_cons k k' c l : under k ((k', c) :: l) = if decide (k' = k) then c :: under k l else under k l.
Proof. unfold under. rewrite filter_cons. cbn [fst]. by destruct (decide (k' = k)). Qed.

Lemma pop_live_sub live conns : let '(c, rest) := pop_live live conns in (match c with Some c => [c] | None => [] end) ++ rest ⊆+ conns.
Proof.
  induction conns as [|c conns IH]; cbn [pop_live]; [done|]. destruct (live c); [done|].
  destruct (pop_live live conns) as [c' rest]. by apply submseteq_cons.
Qed.

Lemma pop_live_live live conns c rest : pop_live live conns = (Some c, rest) -> live c = true.
Proof. induction conns as [|x conns IH]; cbn [pop_live]; [done|]. destruct (live x) eqn:E; [by intros [= <- <-]|done]. Qed.

(** ** Invariants of a run *)

Lemma run_conserves p ops k : idle_at p k = [] ->
  let '(p', got) := pool_run p ops in
  pool_max p' = pool_max p /\ under k got ++ idle_at p' k ⊆+ under k (puts ops) /\ (length (idle_at p' k) <= pool_max p)%nat.
Proof.
  intros He. unfold pool_run. induction ops as [|op ops IH] using rev_ind.
  { cbn [fold_left puts]. rewrite He. split; [done|]. split; [done|cbn; lia]. }
  rewrite fold_left_app. cbn [fold_left]. destruct (fold_left pool_step ops (p, [])) as [p1 got]. destruct IH as (Hm & Hs & Hl).
  destruct op as [live k1|k1 c]; cbn [pool_step fst snd].
  - pose proof (pool_take_at live k1 p1 k) as Ht. destruct (pool_take live k1 p1) as [c p2]. destruct Ht as (Hm2 & -> & Hi).
    rewrite puts_app, app_nil_r. pose proof (pop_live_sub live (idle_at p1 k1)) as Hp.
    destruct (pop_live live (idle_at p1 k1)) as [c rest]. cbn [fst snd] in *.
    destruct (decide (k = k1)) as [<-|Hne].
    + assert (Hsub : under k (match c with Some c => (k, c) :: got | None => got end) ++ idle_at p2 k ⊆+ under k got ++ idle_at p1 k).
      { rewrite Hi. destruct c as [c|]; [rewrite under_cons, decide_True by done|].
        - cbn [app]. rewrite Permutation_middle. by apply submseteq_app.
        - by apply submseteq_app. }
      assert (Hlen : (length (idle_at p2 k) <= length (idle_at p1 k))%nat).
      { rewrite Hi. apply submseteq_length in Hp. rewrite length_app in Hp. lia. }
      destruct c as [c|]; (split; [congruence|]; split; [by etrans|lia]).
    + destruct c as [c|]; rewrite ?under_cons, ?decide_False, Hi by congruence; (split; [congruence|]; split; [done|lia]).
  - destruct (pool_put_at k1 c p1 k) as [Hm2 Hi]. rewrite puts_app, under_app. cbn [puts]. rewrite under_cons, Hi.
    split; [congruence|]. destruct (decide (k = k1)) as [<-|Hne].
    + rewrite (decide_True (P := k = k)) by done. unfold push_idle. change (under k []) with (@nil Conn).
      destruct (Nat.ltb_spec (length (idle_at p1 k)) (pool_max p1)).
      * split; [|cbn [length]; lia]. rewrite <- Permutation_cons_append. rewrite <- Permutation_middle. by apply submseteq_skip.
      * split; [|lia]. by apply submseteq_inserts_r.
    + rewrite decide_False by congruence. change (under k []) with (@nil Conn). rewrite app_nil_r. by split.
Qed.

End Runs.

(** ** Property *)

(** C33: over any run of checkouts and check-ins, a backend connection is
    handed out only for the address, protocol and server name it was checked
    in under, never twice for one check-in, and no more than the cap stay
    idle: what was handed out under a key and what is idle under it are
    together among the connections checked in under it, counted. *)
Theorem pool_conserves_connections max_idle ops k :
  let '(p, got) := pool_run (BackendPool_new max_idle) ops in
  under k got ++ idle_at p k ⊆+ under k (puts ops) /\ (length (idle_at p k) <= max_idle)%nat.
Proof.
  pose proof (run_conserves (BackendPool_new max_idle) ops k eq_refl) as H.
  destruct (pool_run (BackendPool_new max_idle) ops) as [p got]. by destruct H as (_ & H1 & H2).
Qed.

Example tls_conns_stay_apart :
  let a := SocketV4 167772161 443 in
  (pool_run (BackendPool_new 4)
     [Put (a, Some (bs "a.test")) {| conn_id := 1 |}; Put (a, None) {| conn_id := 2 |};
      Take (fun _ => true) (a, Some (bs "b.test")); Take (fun _ => true) (a, Some (bs "a.test"));
      Take (fun _ => true) (a, Some (bs "a.test"))]).2 = [((a, Some (bs "a.test")), {| conn_id := 1 |})].
Proof. vm_compute. reflexivity. Qed.
