(* ===== verification/Exchange.v ===== *)
(** * One exchange

    [proxy_http_request] of [src/src/proxy/worker.rs] and the helpers it
    calls: connect, send with one retry, relay the request body, forward the
    response head and body, and decide what becomes of both connections. A
    [Script] says how the world answers: what each connect does, what each
    backend connection takes and sends, and which budget runs out. Writes to
    the client succeed: a failed one ends the exchange at that point, and
    the client with it. *)

From S2P Require Import Prelude Bytes Net HttpGrammar Chunked Routing RouteBuild Health Selection HttpParser HttpFilters RequestProcessor.
From S2P Require Import Outgoing Response ResponseBody ResponseScan LocalReply RequestBody.

(** ** The world's side *)

Inductive ConnectOutcome := Opened | OutOfResources | ConnectRefused | ConnectTimedOut.

(** A backend connection: whether it takes the request's first write, how
    many body writes it takes after that, what it sends, and whether the end
    of that is a stall past the budget rather than its close. *)
Record BackendSide := {
  takes_request : bool;
  takes_writes : nat;
  sends : list (list Z);
  stalls : bool;
}.

Record Script := {
  pooled : bool;                    (** [take_idle] had a live connection *)
  first_connect : ConnectOutcome;
  first_side : BackendSide;
  fresh_connect : ConnectOutcome;   (** [resend_on_fresh] *)
  fresh_side : BackendSide;
  client_stalls : bool;             (** the client's reads end past the total deadline *)
}.

(** ** The connection's state *)

Record ConnState := {
  last_status : Z;
  linger : bool;
  cs_client_done : bool;
  reset : bool;
}.

Definition set_status (st : ConnState) (s : Z) : ConnState :=
  {| last_status := s; linger := linger st; cs_client_done := cs_client_done st; reset := reset st |}.
Definition set_client_done (st : ConnState) (b : bool) : ConnState :=
  {| last_status := last_status st; linger := linger st; cs_client_done := b; reset := reset st |}.
Definition close_after_reply (st : ConnState) : ConnState :=
  {| last_status := last_status st; linger := negb (cs_client_done st); cs_client_done := cs_client_done st; reset := reset st |}.
Definition refused (st : ConnState) (s : Z) : ConnState := close_after_reply (set_status st s).
Definition reset_on_drop (st : ConnState) : ConnState :=
  {| last_status := last_status st; linger := linger st; cs_client_done := cs_client_done st; reset := true |}.

Definition keep_open (drain_started reusable : bool) : bool := reusable && negb drain_started.

(** What [HealthRegistry] is told, by address. *)
Inductive HealthEvent := RecordSuccess (a : SocketAddr) | RecordFailure (a : SocketAddr).

(** The exchange so far: what it returns, and what it did to each party. *)
Record Exchange := {
  ex_keep : bool;
  ex_leftover : option (list Z);
  ex_reads : list (list Z);               (** the client's reads left *)
  ex_client : list Z;                     (** written to the client *)
  ex_backends : list (list Z);            (** taken by each backend connection *)
  ex_health : list HealthEvent;
  ex_mirror : option (list Z);            (** dispatched to the mirrors *)
  ex_released : option (list (list Z));   (** pooled, with what it has yet to send *)
  ex_tunnel : bool;
  ex_state : ConnState;
}.

(** The pieces of an exchange that outlive an early return. *)
Record Progress := {
  pr_reads : list (list Z);
  pr_client : list Z;
  pr_backends : list (list Z);
  pr_health : list HealthEvent;
  pr_mirror : option (list Z);
}.

Definition told (e : HealthEvent) (p : Progress) : Progress :=
  {| pr_reads := pr_reads p; pr_client := pr_client p; pr_backends := pr_backends p; pr_health := pr_health p ++ [e]; pr_mirror := pr_mirror p |}.
Definition wrote (w : list Z) (p : Progress) : Progress :=
  {| pr_reads := pr_reads p; pr_client := pr_client p ++ w; pr_backends := pr_backends p; pr_health := pr_health p; pr_mirror := pr_mirror p |}.
Definition sent_on (w : list Z) (p : Progress) : Progress :=
  {| pr_reads := pr_reads p; pr_client := pr_client p; pr_backends := pr_backends p ++ [w]; pr_health := pr_health p; pr_mirror := pr_mirror p |}.

(** What the last connection took: what it was first sent, then the relay's. *)
Definition also_sent (w : list Z) (p : Progress) : Progress :=
  {| pr_reads := pr_reads p; pr_client := pr_client p;
     pr_backends := match reverse (pr_backends p) with b :: rest => reverse ((b ++ w) :: rest) | [] => [] end;
     pr_health := pr_health p; pr_mirror := pr_mirror p |}.

(** [return Ok((keep, leftover))] *)
Definition return_ok (p : Progress) (st : ConnState) (keep : bool) (leftover : option (list Z)) (released : option (list (list Z)))
  (tunnel : bool) : Exchange :=
  {| ex_keep := keep; ex_leftover := leftover; ex_reads := pr_reads p; ex_client := pr_client p; ex_backends := pr_backends p;
     ex_health := pr_health p; ex_mirror := pr_mirror p; ex_released := released; ex_tunnel := tunnel; ex_state := st |}.

Definition gave_up (p : Progress) (st : ConnState) : Exchange := return_ok p st false None None false.

(** [fail_backend]. *)
Definition fail_backend (p : Progress) (st : ConnState) (addr : SocketAddr) (code : Z) : Exchange :=
  gave_up (wrote (send_error_response code) (told (RecordFailure addr) p)) (refused st code).

(** [refuse_locally]: the backend's health hears nothing. *)
Definition refuse_locally (p : Progress) (st : ConnState) : Exchange :=
  gave_up (wrote (send_error_response 503) p) (set_status st 503).

(** The failures of [connect_to_backend] and of [resend_on_fresh]. *)
Definition connect_failed (p : Progress) (st : ConnState) (addr : SocketAddr) (c : ConnectOutcome) : option Exchange :=
  match c with
  | Opened => None
  | OutOfResources => Some (refuse_locally p st)
  | ConnectRefused => Some (fail_backend p st addr 502)
  | ConnectTimedOut => Some (fail_backend p st addr 504)
  end.

Definition CONTINUE : list Z := bs "HTTP/1.1 100 Continue" ++ CRLF_ ++ CRLF_.

Section Exchange.
Context {RE : RegexEngine} `{MC : Memchr} `{AR : Arch}.

(** [extract_response_mods]. *)
Definition extract_response_mods (rule : HttpRouteRule) (backend : Backend) : option HeaderModifications :=
  match extract_header_mods (filters rule) true with
  | Some m => Some m
  | None => extract_header_mods (backend_filters backend) true
  end.

Variables (drain_started : bool) (backend : Backend) (rule : HttpRouteRule) (meta : RequestMeta) (sc : Script)
  (headers first_body : list Z).

Let addr := socket_addr backend.
Let request := headers ++ first_body.

(** [resend_on_fresh]: the exchange it already ended, or the progress. *)
Definition resend_on_fresh (p : Progress) (st : ConnState) : Exchange + Progress :=
  match connect_failed p st addr (fresh_connect sc) with
  | Some ex => inl ex
  | None =>
      let p := told (RecordSuccess addr) p in
      if takes_request (fresh_side sc) then inr (sent_on request p)
      else inl (fail_backend p st addr 502)
  end.

(** [send_request_with_retry]: [inr (p, reused)]. *)
Definition send_request_with_retry (p : Progress) (st : ConnState) : Exchange + (Progress * bool) :=
  if takes_request (first_side sc) then inr (sent_on request p, pooled sc)
  else if pooled sc then
    match resend_on_fresh p st with
    | inl ex => inl ex
    | inr p => inr (p, false)
    end
  else inl (fail_backend p st addr 502).

(** [forward_response_headers]: the phase, what the client is written, and
    the reads left. *)
Definition forward_response_headers (side : BackendSide) (answered_early : bool) : HeaderPhase * list Z * list (list Z) :=
  let expect_upgrade := meta_is_upgrade meta && negb answered_early in
  let keep_alive := keep_open drain_started (meta_keepalive meta && negb answered_early) in
  let error code := (ErrorSent code, send_error_response code, []) in
  let stalled := if answered_early then (PhaseUnanswered, [], []) else error 504 in
  match read_response_head (sends side) [] 0 false with
  | Err ClosedMidHead => if stalls side then stalled else error 502
  | Err _ => error 502
  | Ok (Unanswered, _, _) => if stalls side then stalled else (PhaseUnanswered, [], [])
  | Ok (r, buf, rest) =>
      match forward_response_head r buf (extract_response_mods rule backend) (is_head meta) expect_upgrade keep_alive with
      | (ErrorSent code, _) => error code
      | (phase, out) => (phase, out, rest)
      end
  end.

(** The response, once its head went out. *)
Definition respond (p : Progress) (st : ConnState) (framing : ResponseFraming) (keep : bool) (reads : list (list Z))
  (stalled : bool) (leftover : option (list Z)) (answered_early : bool) : Exchange :=
  let st := set_status st (fr_status framing) in
  if meta_is_upgrade meta && (fr_status framing =? 101) then return_ok (also_sent (held leftover) p) st false None None true
  else
    let r := forward_response_body reads framing in
    let p := wrote (written r) p in
    match body_end r with
    | Closed => gave_up p (if stalled then reset_on_drop st else close_after_reply st)
    | BodyBroken | Truncated => gave_up p (reset_on_drop st)
    | Complete =>
        if answered_early then gave_up p (close_after_reply st)
        else
          let pool := backend_conn_poolable (negb (overshot r)) (is_head meta) (meta_is_upgrade meta)
                      && negb (fr_backend_close framing) in
          return_ok p (if keep then st else close_after_reply st) keep leftover (if pool then Some (unread r) else None) false
    end.

(** The response loop: [replayable] at most once. *)
Definition answer_from (p : Progress) (st : ConnState) (side : BackendSide) (leftover : option (list Z)) (answered_early : bool)
  (unanswered : Progress -> Exchange) : Exchange :=
  let '(phase, out, rest) := forward_response_headers side answered_early in
  let p := wrote out p in
  match phase with
  | ErrorSent code => gave_up p (refused st code)
  | Proxied framing keep => respond p st framing keep rest (stalls side) leftover answered_early
  | PhaseUnanswered => unanswered p
  end.

Definition answer_request (p : Progress) (st : ConnState) (side : BackendSide) (leftover : option (list Z)) (replayable answered_early : bool)
  : Exchange :=
  let nobody p := gave_up (wrote (send_error_response 502) p) (refused st 502) in
  answer_from p st side leftover answered_early (fun p =>
    if replayable then
      match resend_on_fresh p st with
      | inl ex => ex
      | inr p => answer_from p st (fresh_side sc) leftover answered_early nobody
      end
    else nobody p).

End Exchange.

Section Proxy.
Context {RE : RegexEngine} `{MC : Memchr} `{AR : Arch}.

Definition has_mirrors (rule : HttpRouteRule) : bool :=
  existsb (fun f => match f with RequestMirror _ _ => true | _ => false end) (filters rule).

(** The whole body came with the head. *)
Definition body_held (buf : list Z) (meta : RequestMeta) (fm : Framing) : bool :=
  match meta_content_length meta, fm_chunked fm with
  | Some cl, _ => cl <=? Z.of_nat (fm_read fm - fm_header_end fm)
  | None, Some stream => is_terminated stream
  | None, None => true
  end.

Definition proxy_http_request (drain_started : bool) (buf : list Z) (fm : Framing) (backend : Backend) (rule : HttpRouteRule)
  (meta : RequestMeta) (peer_ip : IpAddr) (is_tls : bool) (sc : Script) (reads : list (list Z)) (st : ConnState) : Exchange :=
  let st := set_status st 0 in
  let leftover := initial_leftover buf fm in
  let held_ := body_held buf meta fm in
  let done_ b l := client_done {| sent_keepalive := meta_keepalive meta; request_in := b && negb (meta_is_upgrade meta);
                                  seen_past := is_some l |} in
  let st := set_client_done st (done_ held_ leftover) in
  let p := {| pr_reads := reads; pr_client := []; pr_backends := []; pr_health := []; pr_mirror := None |} in
  match (if pooled sc then None else connect_failed p st (socket_addr backend) (first_connect sc)) with
  | Some ex => ex
  | None =>
      let p := told (RecordSuccess (socket_addr backend)) p in
      let headers := build_outgoing_headers buf (fm_header_end fm) rule backend meta peer_ip is_tls in
      let first_body := slice (fm_header_end fm) (fm_end fm) buf in
      match send_request_with_retry backend sc headers first_body p st with
      | inl ex => ex
      | inr (p, reused) =>
          let side := if takes_request (first_side sc) then first_side sc else fresh_side sc in
          let replayable := reused && idempotent meta && held_ in
          let p := if meta_expect_continue meta then wrote CONTINUE p else p in
          let r := relay_request_body reads buf (fm_header_end fm) (fm_end fm) (meta_content_length meta) (fm_chunked fm)
                     (has_mirrors rule) (takes_writes side) in
          let p := also_sent (rr_written r) p in
          let p := {| pr_reads := rr_reads r; pr_client := pr_client p; pr_backends := pr_backends p; pr_health := pr_health p;
                      pr_mirror := match rr_end r with
                                   | BodyComplete (Some body) _ => Some (headers ++ body)
                                   | _ => None
                                   end |} in
          let expired := gave_up (wrote (send_error_response 408) p) (refused st 408) in
          match rr_end r with
          | BodyMalformed => gave_up (wrote (send_error_response 400) p) (refused st 400)
          | BodyTruncated => if client_stalls sc then expired else gave_up (wrote (send_error_response 400) p) (refused st 400)
          | BackendGone =>
              if client_stalls sc then expired
              else answer_request drain_started backend rule meta sc headers first_body p st side leftover replayable true
          | BodyComplete _ relay_leftover =>
              let leftover := match relay_leftover with Some l => Some l | None => leftover end in
              let st := set_client_done st (done_ true leftover) in
              answer_request drain_started backend rule meta sc headers first_body p st side leftover replayable false
          end
      end
  end.

End Proxy.

(** ** What an exchange did *)

Section Did.
Context {RE : RegexEngine} `{MC : Memchr} `{AR : Arch}.
Context (drain_started : bool) (backend : Backend) (rule : HttpRouteRule) (meta : RequestMeta) (sc : Script)
  (headers first_body : list Z).

(** It ended with the response whole: [side] sent it, after [p]. *)
Definition completed (p : Progress) (st : ConnState) (side : BackendSide) (leftover : option (list Z)) (ex : Exchange) : Prop :=
  exists framing keep out rest,
    forward_response_headers drain_started backend rule meta side false = (Proxied framing keep, out, rest) /\
    meta_is_upgrade meta && (fr_status framing =? 101) = false /\
    let r := forward_response_body rest framing in
    body_end r = Complete /\ ex_client ex = pr_client p ++ out ++ written r /\ ex_backends ex = pr_backends p /\
    ex_reads ex = pr_reads p /\ ex_keep ex = keep /\ ex_leftover ex = leftover /\ ex_tunnel ex = false /\
    ex_released ex = (if backend_conn_poolable (negb (overshot r)) (is_head meta) (meta_is_upgrade meta)
                         && negb (fr_backend_close framing) then Some (unread r) else None).

Definition over (ex : Exchange) : Prop := ex_keep ex = false /\ ex_released ex = None.

(** The connection that answers: the first that took the request, unless
    others took it before. *)
Definition answering (sc : Script) (before : list (list Z)) : BackendSide :=
  if is_nil before && takes_request (first_side sc) then first_side sc else fresh_side sc.

(** The head the backend answers with has status 101. *)
Definition accepts_upgrade (side : BackendSide) : Prop :=
  exists e head cuts buf rest, read_response_head (sends side) [] 0 false = Ok (HeadReadHead e head cuts, buf, rest) /\ head_status head = 101.

(** It left HTTP: [side] accepted, after [p], the upgrade the request asked
    for, and was sent what the client had sent past the request. *)
Definition switched (p : Progress) (side : BackendSide) (leftover : option (list Z)) (ex : Exchange) : Prop :=
  over ex /\ meta_is_upgrade meta = true /\ accepts_upgrade side /\ ex_backends ex = pr_backends (also_sent (held leftover) p) /\
  ex_reads ex = pr_reads p.

(** The exchange is over for both connections, or it left HTTP, or the
    response was whole. *)
Definition ended (p : Progress) (st : ConnState) (side : BackendSide) (leftover : option (list Z)) (answered_early : bool) (ex : Exchange) : Prop :=
  (over ex /\ ex_tunnel ex = false /\ ex_backends ex = pr_backends p) \/
  (answered_early = false /\ (switched p side leftover ex /\ ex_tunnel ex = true \/ completed p st side leftover ex)).

Lemma accepted_upgrade side answered_early framing keep out rest :
  forward_response_headers drain_started backend rule meta side answered_early = (Proxied framing keep, out, rest) ->
  meta_is_upgrade meta && (fr_status framing =? 101) = true -> answered_early = false /\ accepts_upgrade side.
Proof.
  intros Hf [Hup H101]%andb_true_iff. unfold forward_response_headers in Hf. rewrite Hup in Hf. cbn [andb] in Hf.
  destruct (read_response_head (sends side) [] 0 false) as [[[r buf] rest'] | []] eqn:Er; try (destruct (stalls side), answered_early; done); try done.
  destruct r as [e head cuts| |]; [|done|destruct (stalls side), answered_early; done].
  unfold forward_response_head in Hf. set (fr := frame_response _ _ _ _ _) in Hf.
  assert (Hst : fr_status fr = head_status head) by (unfold fr, frame_response; repeat case_match; done). rewrite Hst in Hf.
  destruct (head_status head =? 101) eqn:E1; cbn [andb] in Hf.
  - destruct answered_early; [done|]. split; [done|]. exists e, head, cuts, buf, rest'. split; [done|]. by apply Z.eqb_eq.
  - injection Hf as Hfr _ _ _. rewrite <- Hfr, Hst in H101. congruence.
Qed.

Lemma unanswered_silent side answered_early out rest :
  forward_response_headers drain_started backend rule meta side answered_early = (PhaseUnanswered, out, rest) -> out = [].
Proof.
  intros Ef. unfold forward_response_headers in Ef. repeat case_match; simplify_eq; try done;
    match goal with H : forward_response_head _ _ _ _ _ _ = (PhaseUnanswered, _) |- _ => unfold forward_response_head in H end;
    repeat case_match; simplify_eq; done.
Qed.

Lemma answer_from_ended p st side leftover answered_early unanswered :
  (forall p', pr_backends p' = pr_backends p -> pr_client p' = pr_client p -> pr_reads p' = pr_reads p ->
     ended p st side leftover answered_early (unanswered p')) ->
  ended p st side leftover answered_early (answer_from drain_started backend rule meta p st side leftover answered_early unanswered).
Proof.
  intros Hun. unfold answer_from.
  destruct (forward_response_headers drain_started backend rule meta side answered_early) as [[phase out] rest] eqn:Ef.
  destruct phase as [framing keep|code|]; [|by left|].
  - unfold respond. destruct (meta_is_upgrade meta && (fr_status framing =? 101)) eqn:Eu.
    { destruct (accepted_upgrade _ _ _ _ _ _ Ef Eu) as [-> Hacc]. apply andb_true_iff in Eu as [Hup _]. right. split; [done|]. by left. }
    destruct (body_end (forward_response_body rest framing)) eqn:Eb; [|by left|by left|by left].
    destruct answered_early; [by left|]. right. split; [done|]. right. exists framing, keep, out, rest. split; [done|]. split; [done|].
    cbv zeta. split; [done|]. cbn [return_ok ex_client ex_backends ex_reads ex_keep ex_leftover ex_tunnel ex_released wrote pr_client pr_backends pr_reads].
    rewrite <- app_assoc. split_and!; done.
  - apply Hun; [done| |done]. cbn [wrote pr_client].
    by rewrite (unanswered_silent _ _ _ _ Ef), app_nil_r.
Qed.

Lemma resend_inl p st ex : resend_on_fresh backend sc headers first_body p st = inl ex ->
  over ex /\ ex_backends ex = pr_backends p /\ ex_tunnel ex = false.
Proof.
  unfold resend_on_fresh, connect_failed. destruct (fresh_connect sc); try (by intros [= <-]).
  destruct (takes_request _); [done|]. by intros [= <-].
Qed.

Lemma resend_inr p st p' : resend_on_fresh backend sc headers first_body p st = inr p' ->
  pr_backends p' = pr_backends p ++ [headers ++ first_body] /\ pr_client p' = pr_client p /\ pr_reads p' = pr_reads p.
Proof.
  unfold resend_on_fresh, connect_failed. destruct (fresh_connect sc); try done.
  destruct (takes_request _); [|done]. by intros [= <-].
Qed.

Definition resent (p : Progress) : Progress := sent_on (headers ++ first_body) p.

Lemma answer_ended p st side leftover replayable answered_early :
  let ex := answer_request drain_started backend rule meta sc headers first_body p st side leftover replayable answered_early in
  ended p st side leftover answered_early ex \/ (replayable = true /\ ended (resent p) st (fresh_side sc) leftover answered_early ex).
Proof.
  cbv zeta. unfold answer_request.
  destruct (forward_response_headers drain_started backend rule meta side answered_early) as [[phase out] rest] eqn:Ef.
  destruct phase as [framing keep|code|].
  1,2: left; unfold answer_from; rewrite Ef.
  - pose proof (answer_from_ended p st side leftover answered_early (fun _ => gave_up p st)) as H. unfold answer_from in H. rewrite Ef in H.
    apply H. intros p' H1 _ _. by left.
  - by left.
  - apply unanswered_silent in Ef as Hs. subst out.
    unfold answer_from at 1. unfold answer_from at 2. rewrite Ef. destruct replayable.
    2: { left. by left. }
    destruct (resend_on_fresh backend sc headers first_body (wrote [] p) st) as [ex|p'] eqn:Er.
    + left. left. destruct (resend_inl _ _ _ Er) as (H1 & H2 & H3). by split_and!.
    + right. split; [done|]. destruct (resend_inr _ _ _ Er) as (H1 & H2 & H3). cbn [wrote pr_backends pr_client pr_reads] in *.
      rewrite app_nil_r in H2.
      assert (Hsame : forall q ex, pr_backends q = pr_backends p' -> pr_client q = pr_client p' -> pr_reads q = pr_reads p' ->
        ended p' st (fresh_side sc) leftover answered_early ex -> ended q st (fresh_side sc) leftover answered_early ex).
      { intros q ex Q1 Q2 Q3 [H|[H Hc]]; [left|right; split; [done|]]; unfold switched, completed, also_sent in *; cbn [pr_backends] in *;
          by rewrite Q1, ?Q2, ?Q3. }
      apply Hsame; [by rewrite H1|by rewrite H2|by rewrite H3|].
      apply answer_from_ended. intros p2 Hb Hc Hr. left. done.
Qed.

End Did.

(** ** The whole exchange *)

Section Whole.
Context {RE : RegexEngine} `{MC : Memchr} `{AR : Arch}.
Context (drain_started : bool) (buf : list Z) (fm : Framing) (backend : Backend) (rule : HttpRouteRule) (meta : RequestMeta)
  (peer_ip : IpAddr) (is_tls : bool) (sc : Script) (reads : list (list Z)) (st : ConnState).
Hypothesis Hhead : (meta_head_len meta <= length buf)%nat.
Hypothesis Hlen : match meta_content_length meta with Some n => 0 <= n | None => True end.
Hypothesis Hfm : Framing_of buf meta = Some fm.

Let headers := build_outgoing_headers buf (fm_header_end fm) rule backend meta peer_ip is_tls.
Let first_body := slice (fm_header_end fm) (fm_end fm) buf.
Let side := if takes_request (first_side sc) then first_side sc else fresh_side sc.
Let r := relay_request_body reads buf (fm_header_end fm) (fm_end fm) (meta_content_length meta) (fm_chunked fm)
           (has_mirrors rule) (takes_writes side).
Let stream := drop (meta_head_len meta) buf ++ concat reads.

Definition interim : list Z := if meta_expect_continue meta then CONTINUE else [].

Lemma also_sent_last w p l x : pr_backends p = l ++ [x] -> pr_backends (also_sent w p) = l ++ [x ++ w].
Proof.
  intros H. unfold also_sent. cbn [pr_backends]. rewrite H, reverse_snoc, reverse_cons, reverse_involutive. done.
Qed.

Lemma held_silent : body_held buf meta fm = true -> rr_written r = [].
Proof.
  intros Hh. unfold r, relay_request_body. unfold body_held in Hh. unfold Framing_of in Hfm.
  destruct (meta_content_length meta) as [n|] eqn:Ecl in Hh, Hfm, Hlen |- *.
  - injection Hfm as Hf. rewrite <- Hf in Hh |- *. cbn [fm_read fm_header_end fm_end] in *. apply Z.leb_le in Hh.
    rewrite length_drop.
    assert (n - Z.of_nat (meta_head_len meta + Z.to_nat (Z.min (Z.of_nat (length buf - meta_head_len meta)) n) - meta_head_len meta) = 0) as -> by lia.
    by destruct reads.
  - destruct (fm_chunked fm) as [s|]; [|done]. destruct reads; cbn [relay_stream]; by rewrite Hh.
Qed.

Lemma send_sent p st' p' reused : pr_backends p = [] ->
  send_request_with_retry backend sc headers first_body p st' = inr (p', reused) ->
  pr_backends p' = [headers ++ first_body] /\ pr_client p' = pr_client p /\ (reused = true -> pooled sc = true).
Proof.
  intros Hp. unfold send_request_with_retry. destruct (takes_request (first_side sc)).
  { intros [= <- <-]. cbn [sent_on pr_backends pr_client]. by rewrite Hp. }
  destruct (pooled sc); [|done]. destruct (resend_on_fresh _ _ _ _ _ _) as [|p1] eqn:Er; [done|]. intros [= <- <-].
  apply resend_inr in Er as (H1 & H2 & H3). by rewrite H1, H2, Hp.
Qed.

Lemma send_failed p st' ex' : pr_backends p = [] -> send_request_with_retry backend sc headers first_body p st' = inl ex' ->
  over ex' /\ ex_backends ex' = [] /\ ex_tunnel ex' = false.
Proof.
  intros Hp. unfold send_request_with_retry. destruct (takes_request (first_side sc)); [done|].
  destruct (pooled sc); [|intros [= <-]; by rewrite <- Hp].
  destruct (resend_on_fresh _ _ _ _ _ _) as [ex1|] eqn:Er; [|done]. intros [= <-]. apply resend_inl in Er as (H1 & H2 & H3).
  by rewrite H2, Hp.
Qed.

(** What became of the exchange. *)
Definition outcome (ex : Exchange) : Prop :=
  (over ex /\ ex_tunnel ex = false /\ Forall (fun w => w = headers ++ first_body \/ w = headers ++ first_body ++ rr_written r) (ex_backends ex))
  \/ exists mirror lo p st' side',
      rr_end r = BodyComplete mirror lo /\ (side' = first_side sc \/ side' = fresh_side sc) /\
      (switched meta p side' (kept_for_next buf fm lo) ex /\ ex_tunnel ex = true \/
       completed drain_started backend rule meta p st' side' (kept_for_next buf fm lo) ex) /\
      pr_reads p = rr_reads r /\ pr_client p = interim /\
      (exists pre, pr_backends p = pre ++ [headers ++ first_body ++ rr_written r] /\ Forall (fun w => w = headers ++ first_body) pre /\
         side' = answering sc pre).

Lemma answer_outcome p st' leftover replayable answered_early :
  pr_backends p = [headers ++ first_body ++ rr_written r] -> pr_reads p = rr_reads r -> pr_client p = interim ->
  (replayable = true -> rr_written r = []) ->
  (answered_early = false -> exists mirror lo, rr_end r = BodyComplete mirror lo /\ leftover = kept_for_next buf fm lo) ->
  outcome (answer_request drain_started backend rule meta sc headers first_body p st' side leftover replayable answered_early).
Proof.
  intros Hb Hr Hc Hrep Hdone. unfold outcome.
  destruct (answer_ended drain_started backend rule meta sc headers first_body p st' side leftover replayable answered_early) as [H|[Hrp H]];
    destruct H as [(Ho & Ht & Hbs)|[He Hcom]].
  - left. split; [done|]. split; [done|]. rewrite Hbs, Hb. constructor; [by right|constructor].
  - right. destruct (Hdone He) as (mirror & lo & Hrr & ->). exists mirror, lo, p, st', side. split_and!; try done.
    + unfold side. destruct (takes_request (first_side sc)); [by left|by right].
    + exists []. rewrite Hb. by split_and!.
  - left. split; [done|]. split; [done|]. rewrite Hbs. cbn [resent sent_on pr_backends]. rewrite Hb. cbn [app].
    constructor; [by right|]. constructor; [by left|constructor].
  - right. destruct (Hdone He) as (mirror & lo & Hrr & ->). exists mirror, lo, (resent headers first_body p), st', (fresh_side sc).
    split_and!; try done; [by right|]. exists [headers ++ first_body]. cbn [resent sent_on pr_backends]. rewrite Hb, (Hrep Hrp), !app_nil_r.
    split_and!; [done|by repeat constructor|done].
Qed.

Lemma over_outcome ex : over ex -> ex_tunnel ex = false ->
  ex_backends ex = [] \/ ex_backends ex = [headers ++ first_body ++ rr_written r] -> outcome ex.
Proof.
  intros Ho Ht Hb. left. split; [done|]. split; [done|]. destruct Hb as [->| ->]; [constructor|]. constructor; [by right|constructor].
Qed.

Lemma exchange_outcome : outcome (proxy_http_request drain_started buf fm backend rule meta peer_ip is_tls sc reads st).
Proof.
  unfold proxy_http_request. fold headers first_body side r.
  match goal with |- context [connect_failed ?p0 ?st0 ?a ?c] => set (p := p0); set (st0' := st0) end.
  destruct (if pooled sc then None else connect_failed p st0' (socket_addr backend) (first_connect sc)) as [e|] eqn:Ec.
  { destruct (pooled sc); [done|]. unfold connect_failed in Ec.
    destruct (first_connect sc); try done; injection Ec as <-; apply over_outcome; try done; by left. }
  destruct (send_request_with_retry backend sc headers first_body (told (RecordSuccess (socket_addr backend)) p) st0') as [e|[p1 reused]] eqn:Es.
  { apply send_failed in Es as (H1 & H2 & H3); [|done]. apply over_outcome; [done|done|by left]. }
  apply send_sent in Es as (Hb & Hc & _); [|done]. cbn [told pr_client p] in Hc.
  set (p2 := if meta_expect_continue meta then wrote CONTINUE p1 else p1).
  assert (Hb2 : pr_backends p2 = [] ++ [headers ++ first_body]) by (unfold p2; by destruct (meta_expect_continue meta)).
  assert (Hc2 : pr_client p2 = interim).
  { unfold p2, interim. destruct (meta_expect_continue meta); [|done]. cbn [wrote pr_client]. by rewrite Hc. }
  pose proof (also_sent_last (rr_written r) p2 _ _ Hb2) as Hb3. cbn [app] in Hb3. rewrite <- app_assoc in Hb3.
  assert (Hrep : reused && idempotent meta && body_held buf meta fm = true -> rr_written r = []).
  { intros [_ H]%andb_true_iff. by apply held_silent. }
  assert (Hq : forall code st1, outcome (gave_up (wrote (send_error_response code)
      {| pr_reads := rr_reads r; pr_client := pr_client (also_sent (rr_written r) p2); pr_backends := pr_backends (also_sent (rr_written r) p2);
         pr_health := pr_health (also_sent (rr_written r) p2);
         pr_mirror := match rr_end r with BodyComplete (Some body) _ => Some (headers ++ body) | _ => None end |}) st1)).
  { intros code st1. apply over_outcome; [done|done|]. right. cbn [gave_up return_ok ex_backends wrote pr_backends]. done. }
  destruct (rr_end r) as [mirror lo| | |] eqn:Er.
  - apply answer_outcome; cbn [pr_backends pr_reads pr_client also_sent]; try done. intros _. exists mirror, lo. done.
  - destruct (client_stalls sc); apply Hq.
  - apply Hq.
  - destruct (client_stalls sc); [apply Hq|]. apply answer_outcome; cbn [pr_backends pr_reads pr_client also_sent]; done.
Qed.

End Whole.

(** ** Both sides of a finished exchange *)

Section Sides.
Context {RE : RegexEngine} `{MC : Memchr} `{AR : Arch}.

(** The relay sends the request's body or a part of it, never more. *)
Lemma sent_bounded buf meta fm mirrors takes reads :
  (meta_head_len meta <= length buf)%nat -> match meta_content_length meta with Some n => 0 <= n | None => True end ->
  Framing_of buf meta = Some fm ->
  let r := relay_request_body reads buf (fm_header_end fm) (fm_end fm) (meta_content_length meta) (fm_chunked fm) mirrors takes in
  let sent := slice (fm_header_end fm) (fm_end fm) buf ++ rr_written r in
  let stream := drop (meta_head_len meta) buf ++ concat reads in
  sent `prefix_of` stream /\ forall body, request_body meta stream body -> sent `prefix_of` body.
Proof.
  intros H1 H2 H3. pose proof (relay_request_exact buf meta fm mirrors takes reads H1 H2 H3) as H. unfold relay_exact in H.
  cbv zeta. destruct (rr_end _) as [mirror lo| | |].
  - destruct H as (Hb & _ & Hs). split; [by eexists|]. intros body Hbody. by rewrite (request_body_unique _ _ _ _ Hb Hbody).
  - destruct H as (Hs & Hno). rewrite Hs. split; [done|]. intros body Hbody. by destruct (Hno body).
  - destruct H as (Hs & Hno). split; [done|]. intros body Hbody. destruct (Hno [] body). by rewrite app_nil_r.
  - done.
Qed.

Lemma parsed_length raw head n : Forall u8 raw -> parse_response_head raw = Some head -> head_body head = Length n -> 0 <= n.
Proof.
  intros Hu Hp Hn. destruct (accepted_lines raw head Hu Hp) as (first & ls & status & h10 & f & _ & _ & Hls & _ & Hl & Hr).
  assert (Hf : r_content_length f = Some n) by (eapply read_head_length; [exact Hr|unfold framing_length; by rewrite Hn]).
  destruct (length_read ls _ f n Hls Hl Hf) as [|[_ [v Hv]]]; [done|].
  assert (Hd : parse_digits_from 0 v = Some n) by (by destruct v).
  apply parse_digits_from_spec in Hd as (Hdig & -> & _); [|unfold USIZE_MAX, U64_MAX; lia]. by apply decimal_from_ge.
Qed.

(** The head as the client is sent it. *)
Definition client_head (rule : HttpRouteRule) (backend : Backend) (raw : list Z) (head : ResponseHead) (cuts : option ResponseCuts)
  (close : bool) : list Z :=
  let scratch := sanitize_response_headers raw (framing_length head) cuts close in
  match extract_response_mods rule backend with Some mods => apply_response_header_mods scratch mods | None => scratch end.

Lemma proxied_inv drain_started backend rule meta side framing keep out rest :
  forward_response_headers drain_started backend rule meta side false = (Proxied framing keep, out, rest) ->
  meta_is_upgrade meta && (fr_status framing =? 101) = false ->
  exists e head cuts buf, read_response_head (sends side) [] 0 false = Ok (HeadReadHead e head cuts, buf, rest) /\
    framing = frame_response head buf e (is_head meta) (meta_is_upgrade meta) /\ (head_status head =? 101) = false /\
    out = client_head rule backend (take e buf) head cuts (negb keep)
          ++ slice e (e + Z.to_nat (body_bytes_already_forwarded framing)) buf.
Proof.
  unfold forward_response_headers. cbn [negb]. rewrite !andb_true_r.
  destruct (read_response_head (sends side) [] 0 false) as [[[r buf] rest'] | []] eqn:Er; try (destruct (stalls side); done); try done.
  destruct r as [e head cuts| |]; [|done|destruct (stalls side); done].
  unfold forward_response_head. set (fr := frame_response _ _ _ _ _).
  assert (Hst : fr_status fr = head_status head) by (unfold fr, frame_response; repeat case_match; done). rewrite Hst.
  destruct (head_status head =? 101) eqn:E1.
  { destruct (meta_is_upgrade meta); cbn [negb andb]; [|done]. intros [= <- <- <- <-]. by rewrite Hst, E1. }
  cbn [andb]. intros [= <- <- <- <-] _. exists e, head, cuts, buf. split; [done|]. split; [done|]. split; [done|]. done.
Qed.

(** A backend's bytes, read by read. *)
Definition wire (reads : list (list Z)) : Prop := Forall (fun c => Forall u8 c /\ c <> []) reads.

Lemma completed_response drain_started backend rule meta p st side leftover ex : wire (sends side) ->
  completed drain_started backend rule meta p st side leftover ex ->
  exists e head cuts buf rest body,
    read_response_head (sends side) [] 0 false = Ok (HeadReadHead e head cuts, buf, rest) /\
    body_ends (response_body head (is_head meta)) (drop e buf ++ concat rest) body Complete /\
    ex_client ex = pr_client p ++ client_head rule backend (take e buf) head cuts (negb (ex_keep ex)) ++ body /\
    forall conn, ex_released ex = Some conn -> meta_is_upgrade meta = false /\ is_head meta = false /\ head_backend_close head = false /\
      drop e buf ++ concat rest = body ++ concat conn.
Proof.
  intros Hw (framing & keep & out & rest & Hf & Hup & Hcom & Hcl & _ & _ & Hk & _ & _ & Hrel).
  destruct (proxied_inv _ _ _ _ _ _ _ _ _ Hf Hup) as (e & head & cuts & buf & Hr & -> & H101 & ->).
  pose proof (read_head_from (sends side) [] [] false Hw ltac:(constructor) ltac:(constructor) ltac:(cbn; lia) ltac:(done) ltac:(done)) as Hout.
  change (length (@nil (list Z))) with 0%nat in Hout. cbn [concat app] in Hout.
  rewrite Hr in Hout. destruct Hout as (is_ & _ & Hsp & _ & _ & Hp & _ & _).
  assert (Hu : Forall u8 buf).
  { assert (Hall : Forall u8 (concat (sends side))) by (apply Forall_concat; eapply Forall_impl; [exact Hw|]; by intros c [? _]).
    rewrite Hsp in Hall. apply Forall_app in Hall as [_ Hall]. by apply Forall_app in Hall as [? _]. }
  assert (Hlen : match head_body head with Length n => 0 <= n | _ => True end).
  { destruct (head_body head) eqn:Eb; [|done|done]. eapply parsed_length; [by apply Forall_take|exact Hp|exact Eb]. }
  pose proof (body_relayed head buf e (is_head meta) (meta_is_upgrade meta) rest ltac:(by rewrite H101) Hlen) as [Hbody Hclean].
  cbv zeta in Hbody, Hclean. set (fr := frame_response _ _ _ _ _) in *. rewrite Hcom in Hbody.
  exists e, head, cuts, buf, rest, (tail_sent head buf e (is_head meta) (meta_is_upgrade meta) ++ written (forward_response_body rest fr)).
  split; [done|]. split; [exact Hbody|]. split; [rewrite Hcl, Hk; by rewrite <- !app_assoc|].
  intros conn Hc. rewrite Hrel in Hc. destruct (backend_conn_poolable _ _ _ && negb (fr_backend_close fr)) eqn:Ep; [|done]. injection Hc as <-.
  apply andb_true_iff in Ep as [Ep Hbc]. unfold backend_conn_poolable in Ep. bool_simpl.
  assert (fr_backend_close fr = head_backend_close head) as Heq by (unfold fr, frame_response; repeat case_match; done).
  split_and!; [done|done|by rewrite <- Heq|]. apply Hclean; [done|]. unfold backend_conn_poolable.
  repeat match goal with H : overshot _ = false |- _ => rewrite H | H : is_head meta = false |- _ => rewrite H end. done.
Qed.

End Sides.

Section Request.
Context {RE : RegexEngine} `{MC : Memchr} `{AR : Arch}.

(** What a backend connection took: the head, then no more than the body. *)
Definition within_request (meta : RequestMeta) (headers stream w : list Z) : Prop :=
  exists b, w = headers ++ b /\ b `prefix_of` stream /\ forall body, request_body meta stream body -> b `prefix_of` body.

(** Every backend connection was kept within the request. Only if the
    exchange left HTTP did the last one take [more]: the request asked for
    the upgrade, that backend answered it with 101, and [more], with the
    reads the tunnel goes on with, is what the client sent after the whole
    body. *)
Definition isolated (sc : Script) (meta : RequestMeta) (headers stream : list Z) (ex : Exchange) : Prop :=
  if ex_tunnel ex then
    meta_is_upgrade meta = true /\
    exists pre body more, accepts_upgrade (answering sc pre) /\ ex_backends ex = pre ++ [headers ++ body ++ more] /\ Forall (within_request meta headers stream) pre /\
      request_body meta stream body /\ stream = body ++ more ++ concat (ex_reads ex)
  else Forall (within_request meta headers stream) (ex_backends ex).

(** Nothing past the request reaches a backend, but by the upgrade it
    asked for. *)
Lemma exchange_isolated drain_started buf fm backend rule meta peer_ip is_tls sc reads st :
  (meta_head_len meta <= length buf)%nat -> match meta_content_length meta with Some n => 0 <= n | None => True end ->
  Framing_of buf meta = Some fm ->
  let ex := proxy_http_request drain_started buf fm backend rule meta peer_ip is_tls sc reads st in
  let headers := build_outgoing_headers buf (fm_header_end fm) rule backend meta peer_ip is_tls in
  isolated sc meta headers (drop (meta_head_len meta) buf ++ concat reads) ex.
Proof.
  intros Hhead Hlen Hfm. cbv zeta. set (headers := build_outgoing_headers _ _ _ _ _ _ _). set (stream := _ ++ concat reads).
  pose proof (relay_request_exact buf meta fm (has_mirrors rule)
    (takes_writes (if takes_request (first_side sc) then first_side sc else fresh_side sc)) reads Hhead Hlen Hfm) as Hrel.
  pose proof (sent_bounded buf meta fm (has_mirrors rule)
      (takes_writes (if takes_request (first_side sc) then first_side sc else fresh_side sc)) reads Hhead Hlen Hfm) as [Hs Hb].
  pose proof (exchange_outcome drain_started buf fm backend rule meta peer_ip is_tls sc reads st Hhead Hlen Hfm) as Hout.
  cbv zeta in Hs, Hb. unfold relay_exact in Hrel. unfold outcome in Hout. fold headers in Hout. set (r := relay_request_body _ _ _ _ _ _ _ _) in *.
  set (ex := proxy_http_request _ _ _ _ _ _ _ _ _ _ _) in *. set (first_body := slice (fm_header_end fm) (fm_end fm) buf) in *.
  assert (Hw : within_request meta headers stream (headers ++ first_body ++ rr_written r)) by (eexists; split; [reflexivity|]; done).
  assert (Hpre : forall s, first_body ++ rr_written r `prefix_of` s -> first_body `prefix_of` s)
    by (intros s Hps; etrans; [by apply prefix_app_r|exact Hps]).
  assert (Hw1 : within_request meta headers stream (headers ++ first_body)).
  { eexists. split; [reflexivity|]. split; [by apply Hpre|]. intros body Hbody. by apply Hpre, Hb. }
  destruct Hout as [(_ & Ht & Ho)|(mirror & lo & p & st' & side' & Hrr & _ & Hend & Hpr & _ & pre & Hpb & Hall & ->)]; unfold isolated.
  { rewrite Ht. eapply Forall_impl; [exact Ho|]. by intros w [->| ->]. }
  assert (Hall' : Forall (within_request meta headers stream) pre) by (eapply Forall_impl; [exact Hall|]; by intros w ->).
  destruct Hend as [[(_ & Hup & Hacc & Hbe & Hre) Ht]|(framing & keep & out & rest & _ & _ & _ & _ & Hbe & _ & _ & _ & Ht & _)]; rewrite Ht.
  - split; [done|]. rewrite Hrr in Hrel. destruct Hrel as (Hbody & _ & Hst).
    exists pre, (first_body ++ rr_written r), (held (kept_for_next buf fm lo)).
    rewrite Hbe, (also_sent_last _ _ _ _ Hpb), Hre, Hpr, <- !app_assoc. split_and!; try done. unfold stream. by rewrite Hst, <- !app_assoc.
  - rewrite Hbe, Hpb. apply Forall_app. split; [done|]. by constructor.
Qed.

(** The request of an exchange that leaves a connection in use. *)
Lemma exchange_request drain_started buf fm backend rule meta peer_ip is_tls sc reads st :
  (meta_head_len meta <= length buf)%nat -> match meta_content_length meta with Some n => 0 <= n | None => True end ->
  Framing_of buf meta = Some fm ->
  let ex := proxy_http_request drain_started buf fm backend rule meta peer_ip is_tls sc reads st in
  let headers := build_outgoing_headers buf (fm_header_end fm) rule backend meta peer_ip is_tls in
  let stream := drop (meta_head_len meta) buf ++ concat reads in
  ex_keep ex = true \/ is_some (ex_released ex) = true ->
  (exists body pre, request_body meta stream body /\ ex_backends ex = pre ++ [headers ++ body] /\
     stream = body ++ held (ex_leftover ex) ++ concat (ex_reads ex)) /\
  exists p st' side, (side = first_side sc \/ side = fresh_side sc) /\ pr_client p = interim meta /\
    completed drain_started backend rule meta p st' side (ex_leftover ex) ex.
Proof.
  intros Hhead Hlen Hfm. cbv zeta. intros Hused.
  assert (Hover : forall ex, over ex -> ~ (ex_keep ex = true \/ is_some (ex_released ex) = true)) by (intros ex [-> ->] [|]; done).
  pose proof (exchange_outcome drain_started buf fm backend rule meta peer_ip is_tls sc reads st Hhead Hlen Hfm) as [[Ho _]|Ho];
    [by destruct (Hover _ Ho)|].
  destruct Ho as (mirror & lo & p & st' & side' & Hrr & Hside & [[[Ho _] _]|Hcom] & Hpr & Hpc & pre & Hpb & _); [by destruct (Hover _ Ho)|].
  pose proof (relay_request_exact buf meta fm (has_mirrors rule)
    (takes_writes (if takes_request (first_side sc) then first_side sc else fresh_side sc)) reads Hhead Hlen Hfm) as Hrel.
  unfold relay_exact in Hrel. rewrite Hrr in Hrel. destruct Hrel as (Hbody & _ & Hst).
  pose proof Hcom as (framing & keep & out & rest0 & _ & _ & _ & _ & Hbe & Hre & _ & Hlo & _ & _). split.
  - eexists _, pre. split; [exact Hbody|]. split; [by rewrite Hbe, Hpb|]. by rewrite Hlo, Hre, Hpr.
  - exists p, st', side'. split; [done|]. split; [done|]. by rewrite Hlo.
Qed.

Lemma exchange_reads drain_started buf fm backend rule meta peer_ip is_tls sc reads st :
  (meta_head_len meta <= length buf)%nat -> match meta_content_length meta with Some n => 0 <= n | None => True end ->
  Framing_of buf meta = Some fm ->
  let ex := proxy_http_request drain_started buf fm backend rule meta peer_ip is_tls sc reads st in
  ex_keep ex = true -> exists taken, reads = taken ++ ex_reads ex.
Proof.
  intros Hhead Hlen Hfm. cbv zeta. intros Hk.
  pose proof (exchange_outcome drain_started buf fm backend rule meta peer_ip is_tls sc reads st Hhead Hlen Hfm) as [[[Ho1 _] _]|Ho]; [congruence|].
  destruct Ho as (mirror & lo & p & st' & side' & _ & _ & [[[[Ho _] _] _]|Hcom] & Hpr & _); [congruence|].
  destruct Hcom as (framing & keep & out & rest0 & _ & _ & _ & _ & _ & Hre & _). rewrite Hre, Hpr. apply relay_reads_suffix.
Qed.

End Request.

(** ** Properties *)

Section Properties.
Context {RE : RegexEngine} `{MC : Memchr} `{AR : Arch}.

(** Whatever the backend and the client do, no backend connection is sent
    a byte of the client's past the end of the request it was opened for:
    each takes the rewritten head and then a part of what the client sent
    after its own head, within the request's body. Only an accepted upgrade,
    which leaves HTTP, carries on. *)
Theorem exchange_isolates_requests drain_started buf fm backend rule meta peer_ip is_tls sc reads st
  (Hhead : (meta_head_len meta <= length buf)%nat)
  (Hlen : match meta_content_length meta with Some n => 0 <= n | None => True end)
  (Hfm : Framing_of buf meta = Some fm) :
  let ex := proxy_http_request drain_started buf fm backend rule meta peer_ip is_tls sc reads st in
  let headers := build_outgoing_headers buf (fm_header_end fm) rule backend meta peer_ip is_tls in
  let stream := drop (meta_head_len meta) buf ++ concat reads in
  ex_tunnel ex = false ->
  Forall (fun w => exists b, w = headers ++ b /\ b `prefix_of` stream /\ forall body, request_body meta stream body -> b `prefix_of` body)
    (ex_backends ex).
Proof.
  cbv zeta. intros Ht. pose proof (exchange_isolated drain_started buf fm backend rule meta peer_ip is_tls sc reads st Hhead Hlen Hfm) as H.
  unfold isolated in H. by rewrite Ht in H.
Qed.

(** C31: an exchange after which a connection is used again went through
    whole, on both sides. If the client's stays open, or the backend's goes
    back to the pool, then the backend that answered was sent the head and
    the body of exactly one request, what the client sent after that is the
    next request's, in order and undiminished, and the client was sent one
    final response: its head, then the whole body it frames. A pooled
    connection has nothing read of it beyond that response. *)
Theorem finished_exchange_is_whole drain_started buf fm backend rule meta peer_ip is_tls sc reads st
  (Hhead : (meta_head_len meta <= length buf)%nat)
  (Hlen : match meta_content_length meta with Some n => 0 <= n | None => True end)
  (Hfm : Framing_of buf meta = Some fm)
  (Hw1 : wire (sends (first_side sc))) (Hw2 : wire (sends (fresh_side sc))) :
  let ex := proxy_http_request drain_started buf fm backend rule meta peer_ip is_tls sc reads st in
  let headers := build_outgoing_headers buf (fm_header_end fm) rule backend meta peer_ip is_tls in
  let stream := drop (meta_head_len meta) buf ++ concat reads in
  ex_keep ex = true \/ is_some (ex_released ex) = true ->
  (exists body pre, request_body meta stream body /\ ex_backends ex = pre ++ [headers ++ body] /\
     stream = body ++ held (ex_leftover ex) ++ concat (ex_reads ex)) /\
  exists side e head cuts bbuf rest body, (side = first_side sc \/ side = fresh_side sc) /\
    read_response_head (sends side) [] 0 false = Ok (HeadReadHead e head cuts, bbuf, rest) /\
    body_ends (response_body head (is_head meta)) (drop e bbuf ++ concat rest) body Complete /\
    ex_client ex = interim meta ++ client_head rule backend (take e bbuf) head cuts (negb (ex_keep ex)) ++ body /\
    forall conn, ex_released ex = Some conn -> meta_is_upgrade meta = false /\ is_head meta = false /\
      head_backend_close head = false /\ drop e bbuf ++ concat rest = body ++ concat conn.
Proof.
  cbv zeta. intros Hused.
  destruct (exchange_request drain_started buf fm backend rule meta peer_ip is_tls sc reads st Hhead Hlen Hfm Hused)
    as [Hreq (p & st' & side & Hside & Hpc & Hcom)].
  split; [exact Hreq|]. assert (Hw : wire (sends side)) by (by destruct Hside as [->| ->]).
  destruct (completed_response _ _ _ _ _ _ _ _ _ Hw Hcom) as (e & head & cuts & bbuf & rest & body & H1 & H2 & H3 & H4).
  exists side, e, head, cuts, bbuf, rest, body. rewrite Hpc in H3. split_and!; done.
Qed.

End Properties.

(** ** Witnesses *)

#[local] Existing Instance literal_regex.
#[local] Instance exchange_arch : Arch := Little.

Definition sample_script : Script :=
  {| pooled := true; first_connect := Opened;
     first_side := {| takes_request := true; takes_writes := 4; sends := []; stalls := false |};
     fresh_connect := Opened;
     fresh_side := {| takes_request := true; takes_writes := 4;
                      sends := [bs "HTTP/1.1 200 OK" ++ CRLF_ ++ bs "Content-Length: 2"; CRLF_ ++ CRLF_ ++ bs "o"; bs "k"]; stalls := false |};
     client_stalls := false |}.

Definition sample_get : list Z := bs "GET /a HTTP/1.1" ++ CRLF_ ++ bs "Host: h.test" ++ CRLF_ ++ CRLF_.

Definition get_meta : RequestMeta :=
  {| meta_head_len := 33; meta_content_length := None; meta_is_chunked := false; meta_is_upgrade := false; is_head := false;
     idempotent := true; meta_keepalive := true; path_span := Some (4, 6); normalized_path := None;
     meta_strip_spans := StripSpans_default; meta_upgrade_span := None; meta_expect_continue := false;
     meta_local_reply_reusable := true; meta_client_done := false |}.

Definition idle_state : ConnState := {| last_status := 0; linger := false; cs_client_done := false; reset := false |}.

Definition get_framing : Framing := {| fm_read := 37; fm_header_end := 33; fm_end := 33; fm_chunked := None |}.

(** A pooled connection closes unanswered; the GET is replayed on a fresh one
    and both connections live on. *)
Definition sample_exchange : Exchange :=
  proxy_http_request false (sample_get ++ bs "GET ") get_framing (weighted backend_a 2 Forward) sample_rule get_meta (V4 1) false
    sample_script [bs "/b"] idle_state.

Example sample_exchange_replays :
  (ex_keep sample_exchange, ex_leftover sample_exchange, length (ex_backends sample_exchange), ex_released sample_exchange,
   ex_client sample_exchange)
  = (true, Some (bs "GET "), 2%nat, Some [], bs "HTTP/1.1 200 OK" ++ CRLF_ ++ bs "Content-Length: 2" ++ CRLF_ ++ CRLF_ ++ bs "ok").
Proof. vm_compute. reflexivity. Qed.

Lemma exchange_isolates_requests_witness :
  Framing_of (sample_get ++ bs "GET ") get_meta = Some get_framing /\
  Forall (fun w => exists b, w = build_outgoing_headers (sample_get ++ bs "GET ") 33 sample_rule (weighted backend_a 2 Forward)
                                  get_meta (V4 1) false ++ b /\ b `prefix_of` bs "GET /b")
    (ex_backends sample_exchange).
Proof.
  assert (H : Framing_of (sample_get ++ bs "GET ") get_meta = Some get_framing) by (vm_compute; reflexivity).
  split; [exact H|].
  pose proof (exchange_isolates_requests false (sample_get ++ bs "GET ") get_framing (weighted backend_a 2 Forward) sample_rule get_meta
    (V4 1) false sample_script [bs "/b"] idle_state ltac:(vm_compute; lia) I H ltac:(vm_compute; reflexivity)) as G.
  eapply Forall_impl; [exact G|]. intros w (b & Hw & Hb & _). exists b. exact (conj Hw Hb).
Defined.

Lemma finished_exchange_is_whole_witness :
  ex_keep sample_exchange = true /\
  exists body pre, request_body get_meta (bs "GET /b") body /\
    ex_backends sample_exchange = pre ++ [build_outgoing_headers (sample_get ++ bs "GET ") 33 sample_rule (weighted backend_a 2 Forward)
                                           get_meta (V4 1) false ++ body].
Proof.
  assert (H : Framing_of (sample_get ++ bs "GET ") get_meta = Some get_framing) by (vm_compute; reflexivity).
  assert (K : ex_keep sample_exchange = true) by (vm_compute; reflexivity). split; [exact K|].
  assert (W1 : wire (sends (first_side sample_script))) by constructor.
  assert (W2 : wire (sends (fresh_side sample_script))).
  { repeat (constructor; [split; [apply Forall_u8_literal; vm_compute; reflexivity|done]|]). constructor. }
  destruct (finished_exchange_is_whole false (sample_get ++ bs "GET ") get_framing (weighted backend_a 2 Forward) sample_rule get_meta
    (V4 1) false sample_script [bs "/b"] idle_state ltac:(vm_compute; lia) I H W1 W2 (or_introl K)) as [(body & pre & H1 & H2 & _) _].
  exists body, pre. exact (conj H1 H2).
Defined.
