(* ===== verification/Serve.v ===== *)
(** * A client connection

    [serve_http] of [src/src/proxy/worker.rs]: the first read and its sniff,
    then request after request until the connection closes or turns out to
    be opaque TCP. The client's bytes are a list of reads, its end being the
    client's close, a drain of an idle connection, or a stall past the
    header budget ([gone_silent]). What else each request meets, the routes
    loaded, the backends' health, the limiter, a drain and the backend, is
    its [Turn]. *)

From S2P Require Import Prelude Bytes Net HttpGrammar Chunked Routing RouteLookup RouteBuild Health Selection PathNorm HttpParser HttpFilters.
From S2P Require Import Method RequestProcessor Outgoing Response ResponseBody ResponseScan LocalReply RequestBody Exchange.

Definition CLIENT_BUF : nat := Z.to_nat (64 * 1024).

(** ** Reading the client *)

(** [read_head]: up to the room left in the buffer, the rest of a longer
    arrival staying in the socket. [None] at the end. *)
Definition read_head (buf : list Z) (reads : list (list Z)) : option (list Z * list (list Z)) :=
  match reads with
  | [] => None
  | chunk :: rest =>
      let room := (CLIENT_BUF - length buf)%nat in
      Some (buf ++ take room chunk, if (room <? length chunk)%nat then drop room chunk :: rest else rest)
  end.

(** [as_chunks::<2>()], the leading CRLF pairs. *)
Fixpoint crlf_pairs (data : list Z) : nat :=
  match data with
  | a :: b :: rest => if (a =? CR) && (b =? LF) then S (crlf_pairs rest) else 0%nat
  | _ => 0%nat
  end.

Definition empty_lines_len (data : list Z) : nat := (crlf_pairs data * 2)%nat.

Section Serve.
Context {RE : RegexEngine} `{MC : Memchr} `{AR : Arch}.

Definition may_open_request (data : list Z) : bool :=
  is_http_request data
  || ((length data <=? MAX_METHOD_LEN)%nat && match data with b :: _ => is_ascii_uppercase b | [] => false end
      && forallb is_method_byte data).

(** What it drained, the buffer and the reads left. Each turn takes a read. *)
Fixpoint sniff_first_request (fuel : nat) (buf : list Z) (reads : list (list Z)) (await_method : bool)
  : list Z * list Z * list (list Z) :=
  match fuel with
  | O => ([], buf, reads)
  | S fuel' =>
      let skip := empty_lines_len buf in
      let rest := drop skip buf in
      if is_http_request rest then (take skip buf, rest, reads)
      else
        let undecided := beq rest [CR] || ((0 <? skip)%nat && is_nil rest) || (await_method && may_open_request rest) in
        if negb undecided || (CLIENT_BUF <=? length buf)%nat then ([], buf, reads)
        else match read_head buf reads with
        | None => ([], buf, reads)
        | Some (buf', reads') => sniff_first_request fuel' buf' reads' await_method
        end
  end.

Inductive HeadersRead := HeadersWhole (buf : list Z) (reads : list (list Z)) | ClientClosed | HeadersTooLong.

(** [read_remaining_headers]. *)
Fixpoint read_remaining_headers (fuel : nat) (buf : list Z) (reads : list (list Z)) : HeadersRead :=
  match fuel with
  | O => ClientClosed
  | S fuel' =>
      if (CLIENT_BUF <=? length buf)%nat then HeadersTooLong
      else match read_head buf reads with
      | None => ClientClosed
      | Some (buf', reads') =>
          if has_header_end buf' then HeadersWhole buf' reads' else read_remaining_headers fuel' buf' reads'
      end
  end.

(** As many reads as bytes at most, each of a byte or more. *)
Definition enough (reads : list (list Z)) : nat := S (length (concat reads)).

Inductive Handoff := HandoffClose | HandoffTcp (addr : SocketAddr) | HandoffError.

(** [complete_headers]: the head whole, or how the connection ends and what
    it is written. *)
Definition complete_headers (gone_silent : bool) (buf : list Z) (reads : list (list Z)) (st : ConnState)
  : (list Z * list (list Z)) + (Handoff * list Z * ConnState) :=
  match read_remaining_headers (enough reads) buf reads with
  | HeadersWhole buf' reads' => inl (buf', reads')
  | ClientClosed => if gone_silent then inr (HandoffError, send_error_response 408, st) else inr (HandoffClose, [], st)
  | HeadersTooLong => inr (HandoffError, send_error_response 431, refused st 431)
  end.

(** ** Requests *)

Definition pipelined_tail (request : list Z) : option (list Z) :=
  match find_header_end request with
  | None => None
  | Some head_end => if (head_end <? length request)%nat then Some (drop head_end request) else None
  end.

Record Turn := {
  t_routes : RouteTable;
  t_health : Reads;
  t_limited : bool;      (** the rule has a limiter and its check fails *)
  t_drain : bool;
  t_script : Script;
}.

(** A request the loop took up, with what came before it. *)
Inductive Entry :=
  | Answered (skipped head : list Z) (reply : LocalReply) (written : list Z)
  | Exchanged (skipped head : list Z) (backend : Backend) (rule : HttpRouteRule) (meta : RequestMeta) (framed : list Z) (sc : Script)
      (ex : Exchange).

(** [send_local_reply]: what it writes, and the state. *)
Definition send_local_reply (reply : LocalReply) (st : ConnState) : list Z * ConnState :=
  let st := set_client_done st (reply_client_done reply) in
  (local_reply_bytes (status reply) (location reply) (negb (reusable reply)) (reply_head reply),
   if reusable reply then st else close_after_reply st).

Definition with_reusable (r : LocalReply) (b : bool) : LocalReply :=
  {| status := status r; location := location r; reusable := b; reply_client_done := reply_client_done r; reply_head := reply_head r |}.

(** How a request was answered: the bytes pending, or the end. *)
Inductive Answer :=
  | Pending (e : Entry) (bytes : option (list Z)) (reads : list (list Z)) (st : ConnState)
  | Finished (e : option Entry) (h : Handoff) (st : ConnState).

Definition reply_and (skipped buf : list Z) (reads : list (list Z)) (reply : LocalReply) (st : ConnState) : Answer :=
  let '(written, st) := send_local_reply reply st in
  let head := match find_header_end buf with Some e => take e buf | None => buf end in
  let e := Answered skipped head reply written in
  if reusable reply then Pending e (pipelined_tail buf) reads st else Finished (Some e) HandoffClose st.

Section Loop.
Variables (server_port : Z) (peer_ip : IpAddr) (is_tls gone_silent : bool).

(** One request, its head whole in [buf]. *)
Definition serve_request (t : Turn) (skipped buf : list Z) (reads : list (list Z)) (sel : SelectState) (st : ConnState)
  : Answer * SelectState :=
  let '(result, sel) := analyze_request (t_routes t) sel buf server_port (t_health t) is_tls in
  (match result with
   | TcpForward addr => Finished None (HandoffTcp addr) st
   | HttpForward backend rule meta =>
       if t_limited t then
         reply_and skipped buf reads {| status := 429; location := None; reusable := keep_open (t_drain t) (meta_local_reply_reusable meta);
           reply_client_done := meta_client_done meta; reply_head := is_head meta |} (set_status st 429)
       else match Framing_of buf meta with
       | None =>
           reply_and skipped buf reads {| status := 400; location := None; reusable := false; reply_client_done := false;
             reply_head := is_head meta |} st
       | Some framing =>
           let ex := proxy_http_request (t_drain t) buf framing backend rule meta peer_ip is_tls (t_script t) reads st in
           let e := Exchanged skipped (take (meta_head_len meta) buf) backend rule meta
                      (build_outgoing_headers buf (fm_header_end framing) rule backend meta peer_ip is_tls) (t_script t) ex in
           if ex_keep ex then Pending e (ex_leftover ex) (ex_reads ex) (ex_state ex) else Finished (Some e) HandoffClose (ex_state ex)
       end
   | Reply reply => reply_and skipped buf reads (with_reusable reply (keep_open (t_drain t) (reusable reply))) st
   | UdpForward _ | CloseConnection => Finished None HandoffClose st
   end, sel).

(** The loop over empty lines before the next request: what it skips, the
    buffer and the reads it leaves, or the close. *)
Fixpoint skip_empty_lines (fuel : nat) (skipped buf : list Z) (reads : list (list Z)) : option (list Z * list Z * list (list Z)) :=
  match fuel with
  | O => None
  | S fuel' =>
      let skip := empty_lines_len buf in
      let skipped := skipped ++ take skip buf in
      let buf := drop skip buf in
      if (0 <? skip)%nat && is_nil buf then
        match read_head [] reads with
        | None => Some (skipped, [], reads)
        | Some (buf', reads') => skip_empty_lines fuel' skipped buf' reads'
        end
      else if beq buf [CR] then
        match read_head buf reads with
        | None => None
        | Some (buf', reads') => skip_empty_lines fuel' skipped buf' reads'
        end
      else Some (skipped, buf, reads)
  end.

(** Between two requests: the next head, whole, or the end. *)
Definition next_request (bytes : option (list Z)) (reads : list (list Z)) (st : ConnState)
  : (list Z * list Z * list (list Z)) + (Handoff * list Z * ConnState) :=
  let '(buf, reads) := match bytes with
                       | Some b => (b, reads)
                       | None => match read_head [] reads with Some (b, r) => (b, r) | None => ([], reads) end
                       end in
  match skip_empty_lines (enough reads + 1) [] buf reads with
  | None => inr (HandoffClose, [], st)
  | Some (skipped, buf, reads) =>
      if is_nil buf || negb (may_open_request buf) then inr (HandoffClose, [], st)
      else match (if has_header_end buf then inl (buf, reads) else complete_headers gone_silent buf reads st) with
      | inr stop => inr stop
      | inl (buf, reads) => if negb (is_http_request buf) then inr (HandoffClose, [], st) else inl (skipped, buf, reads)
      end
  end.

Record Served := {
  sv_handoff : option Handoff;  (** [None]: more requests than turns *)
  sv_log : list Entry;
  sv_last : list Z;             (** written after the last entry *)
  sv_state : ConnState;
}.

Definition logged (e : Entry) (s : Served) : Served :=
  {| sv_handoff := sv_handoff s; sv_log := e :: sv_log s; sv_last := sv_last s; sv_state := sv_state s |}.

Fixpoint serve_loop (turns : list Turn) (skipped buf : list Z) (reads : list (list Z)) (sel : SelectState) (st : ConnState) : Served :=
  match turns with
  | [] => {| sv_handoff := None; sv_log := []; sv_last := []; sv_state := st |}
  | t :: turns' =>
      let '(a, sel) := serve_request t skipped buf reads sel st in
      match a with
      | Finished e h st => {| sv_handoff := Some h; sv_log := match e with Some e => [e] | None => [] end; sv_last := []; sv_state := st |}
      | Pending e bytes reads st =>
          let st := set_client_done st false in
          match next_request bytes reads st with
          | inr (h, w, st) => {| sv_handoff := Some h; sv_log := [e]; sv_last := w; sv_state := st |}
          | inl (skipped, buf, reads) => logged e (serve_loop turns' skipped buf reads sel st)
          end
      end
  end.

Definition serve_http (tcp_route : bool) (turns : list Turn) (reads : list (list Z)) (sel : SelectState) (st : ConnState) : Served :=
  let stop h w st := {| sv_handoff := Some h; sv_log := []; sv_last := w; sv_state := st |} in
  let '(buf, reads) := match read_head [] reads with Some (b, r) => (b, r) | None => ([], reads) end in
  let '(skipped, buf, reads) := sniff_first_request (enough reads) buf reads (negb tcp_route) in
  match (if is_http_request buf && negb (has_header_end buf) then complete_headers gone_silent buf reads st else inl (buf, reads)) with
  | inr (h, w, st) => stop h w st
  | inl (buf, reads) => if is_nil buf then stop HandoffClose [] st else serve_loop turns skipped buf reads sel st
  end.

End Loop.
End Serve.

(** ** Nothing of the stream is lost *)

Definition all_crlf (s : list Z) : Prop := exists n, s = concat (replicate n CRLF_).

Lemma all_crlf_app a b : all_crlf a -> all_crlf b -> all_crlf (a ++ b).
Proof. intros [n ->] [m ->]. exists (n + m)%nat. by rewrite replicate_add, concat_app. Qed.

Lemma empty_lines_crlf data : all_crlf (take (empty_lines_len data) data).
Proof.
  exists (crlf_pairs data). unfold empty_lines_len.
  enough (H : forall n data, (length data <= n)%nat -> take (crlf_pairs data * 2) data = concat (replicate (crlf_pairs data) CRLF_)).
  { by apply (H (length data)). }
  clear data. induction n as [|n IH]; intros data Hn; [by destruct data; [|cbn in Hn; lia]|].
  destruct data as [|a [|b rest]]; [done|done|]. cbn [crlf_pairs]. destruct ((a =? CR) && (b =? LF)) eqn:E; [|done].
  apply andb_true_iff in E as [->%Z.eqb_eq ->%Z.eqb_eq]. cbn [Nat.mul Nat.add take replicate concat app]. do 2 f_equal.
  apply IH. cbn [length] in Hn. lia.
Qed.

Lemma read_head_stream buf reads b r : (length buf < CLIENT_BUF)%nat -> wire reads -> read_head buf reads = Some (b, r) ->
  b ++ concat r = buf ++ concat reads /\ wire r /\ (length (concat r) < length (concat reads))%nat.
Proof.
  intros Hroom Hw. unfold read_head. destruct Hw as [|chunk rest [Hu Hne] Hw]; [done|]. intros [= <- <-].
  set (room := (CLIENT_BUF - length buf)%nat). cbn [concat]. destruct (Nat.ltb_spec room (length chunk)).
  - cbn [concat]. rewrite <- app_assoc. split; [f_equal; by rewrite app_assoc, take_drop|]. split.
    + constructor; [|done]. split; [by apply Forall_drop|]. by apply length_drop_lt.
    + rewrite !length_app, length_drop. unfold room. lia.
  - rewrite take_ge by lia. split; [by rewrite <- app_assoc|]. split; [done|]. rewrite length_app. destruct chunk; [done|]. cbn. lia.
Qed.

Lemma empty_room : (length (@nil Z) < CLIENT_BUF)%nat.
Proof. unfold CLIENT_BUF. cbn [length]. lia. Qed.

Section Stream.
Context {RE : RegexEngine} `{MC : Memchr} `{AR : Arch}.

Lemma sniff_stream fuel buf reads await sk b r : wire reads -> sniff_first_request fuel buf reads await = (sk, b, r) ->
  sk ++ b ++ concat r = buf ++ concat reads /\ wire r /\ all_crlf sk.
Proof.
  revert buf reads. induction fuel as [|fuel IH]; intros buf reads Hw; cbn [sniff_first_request].
  { intros [= <- <- <-]. split; [done|]. split; [done|]. by exists 0%nat. }
  destruct (is_http_request (drop (empty_lines_len buf) buf)).
  { intros [= <- <- <-]. split; [by rewrite app_assoc, take_drop|]. split; [done|]. apply empty_lines_crlf. }
  assert (Hstay : ([], buf, reads) = (sk, b, r) -> sk ++ b ++ concat r = buf ++ concat reads /\ wire r /\ all_crlf sk).
  { intros [= <- <- <-]. split; [done|]. split; [done|]. by exists 0%nat. }
  destruct (negb _ || (CLIENT_BUF <=? length buf)%nat) eqn:E; [done|]. apply orb_false_iff in E as [_ Hroom%Nat.leb_gt].
  destruct (read_head buf reads) as [[b1 r1]|] eqn:Er; [|done].
  destruct (read_head_stream _ _ _ _ Hroom Hw Er) as (H1 & H2 & _). intros H. rewrite <- H1. by apply IH.
Qed.

Lemma remaining_stream fuel buf reads b r : wire reads -> read_remaining_headers fuel buf reads = HeadersWhole b r ->
  b ++ concat r = buf ++ concat reads /\ wire r.
Proof.
  revert buf reads. induction fuel as [|fuel IH]; intros buf reads Hw; cbn [read_remaining_headers]; [done|].
  destruct (CLIENT_BUF <=? length buf)%nat eqn:E; [done|]. apply Nat.leb_gt in E.
  destruct (read_head buf reads) as [[b1 r1]|] eqn:Er; [|done].
  destruct (read_head_stream _ _ _ _ E Hw Er) as (H1 & H2 & _).
  destruct (has_header_end b1); [by intros [= <- <-]|]. intros H. rewrite <- H1. by apply IH.
Qed.

Lemma complete_stream silent buf reads st b r : wire reads -> complete_headers silent buf reads st = inl (b, r) ->
  b ++ concat r = buf ++ concat reads /\ wire r.
Proof.
  intros Hw. unfold complete_headers. destruct (read_remaining_headers _ _ _) as [b1 r1| |] eqn:E; [|by destruct silent|done].
  intros [= <- <-]. by eapply remaining_stream.
Qed.

Lemma skip_stream fuel skipped buf reads sk b r : wire reads -> all_crlf skipped ->
  skip_empty_lines fuel skipped buf reads = Some (sk, b, r) ->
  sk ++ b ++ concat r = skipped ++ buf ++ concat reads /\ wire r /\ all_crlf sk.
Proof.
  revert skipped buf reads. induction fuel as [|fuel IH]; intros skipped buf reads Hw Hs; cbn [skip_empty_lines]; [done|].
  set (skip := empty_lines_len buf).
  assert (Hs' : all_crlf (skipped ++ take skip buf)) by (apply all_crlf_app; [done|apply empty_lines_crlf]).
  assert (Hsplit : skipped ++ buf ++ concat reads = (skipped ++ take skip buf) ++ drop skip buf ++ concat reads).
  { rewrite <- !app_assoc. f_equal. by rewrite (app_assoc (take skip buf)), take_drop. }
  rewrite Hsplit. destruct ((0 <? skip)%nat && is_nil (drop skip buf)) eqn:E0.
  - apply andb_true_iff in E0 as [_ En]. destruct (drop skip buf) as [|]; [|done]. cbn [app].
    destruct (read_head [] reads) as [[b1 r1]|] eqn:Er.
    + destruct (read_head_stream _ _ _ _ empty_room Hw Er) as (H1 & H2 & _). cbn [app] in H1. intros H. rewrite <- H1. by apply IH.
    + intros [= <- <- <-]. done.
  - destruct (beq (drop skip buf) [CR]) eqn:Ec; [|intros [= <- <- <-]; done]. apply beq_spec in Ec. rewrite Ec.
    destruct (read_head [CR] reads) as [[b1 r1]|] eqn:Er; [|done].
    assert (Hr1 : (length [CR] < CLIENT_BUF)%nat) by (unfold CLIENT_BUF; cbn [length]; lia).
    destruct (read_head_stream _ _ _ _ Hr1 Hw Er) as (H1 & H2 & _). intros H. rewrite <- H1. by apply IH.
Qed.

Lemma next_stream silent bytes reads st sk b r : wire reads -> next_request silent bytes reads st = inl (sk, b, r) ->
  sk ++ b ++ concat r = held bytes ++ concat reads /\ wire r /\ all_crlf sk.
Proof.
  intros Hw. unfold next_request.
  set (start := match bytes with Some b => (b, reads) | None => match read_head [] reads with Some (b, r) => (b, r) | None => ([], reads) end end).
  assert (Hst : start.1 ++ concat start.2 = held bytes ++ concat reads /\ wire start.2).
  { unfold start. destruct bytes as [x|]; [done|]. destruct (read_head [] reads) as [[b1 r1]|] eqn:Er; [|done].
    destruct (read_head_stream _ _ _ _ empty_room Hw Er) as (H1 & H2 & _). done. }
  destruct start as [b0 r0]. cbn [fst snd] in Hst. destruct Hst as [<- Hw0].
  destruct (skip_empty_lines _ _ b0 r0) as [[[sk1 b1] r1]|] eqn:Es; [|done].
  apply skip_stream in Es as (H1 & H2 & H3); [|done|by exists 0%nat]. cbn [app] in H1. rewrite <- H1.
  destruct (is_nil b1 || negb (may_open_request b1)); [done|].
  destruct (if has_header_end b1 then inl (b1, r1) else complete_headers silent b1 r1 st) as [[b2 r2]|] eqn:Ec; [|done].
  assert (Hc : b2 ++ concat r2 = b1 ++ concat r1 /\ wire r2).
  { destruct (has_header_end b1); [by injection Ec as <- <-|by eapply complete_stream]. }
  destruct Hc as [Hc1 Hc2]. destruct (negb (is_http_request b2)); [done|]. intros [= <- <- <-]. by rewrite Hc1.
Qed.

(** ** Requests in the stream *)

Definition entry_parts (e : Entry) : list Z * list Z :=
  match e with Answered sk head _ _ => (sk, head) | Exchanged sk head _ _ _ _ _ _ => (sk, head) end.

(** What a request's own head frames of the bytes after it. *)
Definition frames (r : request) (stream body : list Z) : Prop :=
  match routed_length r with
  | Some n => n <= Z.of_nat (length stream) /\ body = take (Z.to_nat n) stream
  | None => if is_nil (values (bs "transfer-encoding") (rq_lines r)) then body = [] else body `prefix_of` stream /\ exists p, chunked_body body p
  end.

(** A request the loop went on after: a head of one reading, the body that
    head frames, and the one backend that was sent the two. *)
Definition entry_took (e : Entry) (head body stream : list Z) : Prop :=
  exists r, head = render r /\ good_request r /\ unambiguous r /\ frames r stream body /\
  match e with
  | Answered _ _ _ _ => body = []
  | Exchanged _ _ _ _ _ framed _ ex => exists pre, ex_backends ex = pre ++ [framed ++ body]
  end.

(** What its backends were sent: within what its head frames, but for an
    accepted upgrade. *)
Definition entry_sound (e : Entry) (stream : list Z) : Prop :=
  match e with
  | Answered _ _ _ _ => True
  | Exchanged _ head _ _ meta framed sc ex =>
      (exists r, head = render r /\ good_request r /\ unambiguous r /\ forall stream body, request_body meta stream body <-> frames r stream body) /\
      isolated sc meta framed stream ex
  end.

(** The client's stream, request by request: empty lines, a head, its body,
    and after the last request whatever else came. *)
Inductive partitions : list Z -> list Entry -> list Z -> Prop :=
  | parts_end s : partitions s [] s
  | parts_last e sk head s : entry_parts e = (sk, head) -> all_crlf sk -> entry_sound e s -> partitions (sk ++ head ++ s) [e] s
  | parts_next e sk head body s log rest : entry_parts e = (sk, head) -> all_crlf sk -> entry_sound e (body ++ s) ->
      entry_took e head body (body ++ s) -> partitions s log rest -> partitions (sk ++ head ++ body ++ s) (e :: log) rest.

Lemma render_not_nil r : render r <> [].
Proof. unfold render, render_request_line. intros E. apply (f_equal length) in E. rewrite !length_app in E. cbn in E. lia. Qed.

Lemma routed_length_nonneg r : match routed_length r with Some n => 0 <= n | None => True end.
Proof.
  unfold routed_length. destruct (values _ _) as [|v vs]; [done|]. destruct (parse_digits (trim_ows v)) as [n|] eqn:E; [|done].
  assert (Hd : parse_digits_from 0 (trim_ows v) = Some n) by (by destruct (trim_ows v)).
  apply parse_digits_from_spec in Hd as (Hdig & -> & _); [|unfold USIZE_MAX, U64_MAX; lia]. by apply decimal_from_ge.
Qed.

Lemma whole_frames r info stream : content_length info = routed_length r ->
  is_chunked info = negb (is_nil (values (bs "transfer-encoding") (rq_lines r))) -> local_reply_reusable info = true -> frames r stream [].
Proof.
  intros Hcl Hch. unfold local_reply_reusable, head_is_whole, frames. rewrite Hcl, Hch. intros Hw.
  destruct (routed_length r) as [n|]; cbn [default from_option id] in Hw; bool_simpl; [|by destruct (is_nil _)].
  match goal with H : n = 0 |- _ => subst n end. split; [lia|done].
Qed.

(** The buffer opens with a request that frames no body. *)
Definition whole_head (buf : list Z) : Prop :=
  exists r rest, buf = render r ++ rest /\ good_request r /\ unambiguous r /\ forall stream, frames r stream [].

(** What the head of a forwarded request says. *)
Lemma forwarded_request routes sel buf port health tls b rule meta sel' : Forall u8 buf ->
  analyze_request routes sel buf port health tls = (HttpForward b rule meta, sel') ->
  exists r rest, buf = render r ++ rest /\ good_request r /\ unambiguous r /\ meta_head_len meta = length (render r) /\
    (forall stream body, request_body meta stream body <-> frames r stream body) /\
    (meta_local_reply_reusable meta = true -> forall stream, frames r stream []) /\
    match meta_content_length meta with Some n => 0 <= n | None => True end.
Proof.
  intros Hu. unfold analyze_request. destruct (is_nil buf); [done|]. destruct (is_http_request buf).
  - intros H. apply forward_inv in H as (info & npath & i & Hi & Hv & _ & _ & _ & _ & _ & _ & _ & Hl & Hcl & Hch & _ & _ & _ & Hre).
    destruct (extract_accepts buf info Hu Hi Hv) as (r & rest & -> & Hg & Hun).
    destruct (extract_reading r rest Hg Hun Hu) as (info' & Hi' & _ & _ & _ & _ & Hhl & Hicl & Hich & _).
    assert (info' = info) as -> by congruence. exists r, rest. split_and!; try done; [by rewrite Hl| | |].
    + intros stream body. unfold request_body, frames. rewrite Hcl, Hch, Hicl, Hich. by destruct (routed_length r), (is_nil _).
    + rewrite Hre. intros Hw stream. by eapply whole_frames.
    + rewrite Hcl, Hicl. apply routed_length_nonneg.
  - unfold analyze_tcp_request, analyze_l4_request. destruct (find_tcp_backends routes port) as [l|]; [|done].
    destruct (is_nil l); [done|]. destruct (select_l4_backend _ _ _ _) as [[c|] s]; [|done]. by case_bool_decide.
Qed.

(** A reply that keeps the connection open follows a whole request. *)
Lemma replied_request routes sel buf port health tls reply sel' : Forall u8 buf ->
  analyze_request routes sel buf port health tls = (Reply reply, sel') -> reusable reply = true -> whole_head buf.
Proof.
  intros Hu. unfold analyze_request. destruct (is_nil buf); [done|]. destruct (is_http_request buf).
  - intros [[_ Hr]|(info & Hi & Hv & Hr)]%reply_inv Hre; [congruence|].
    destruct (extract_accepts buf info Hu Hi Hv) as (r & rest & -> & Hg & Hun).
    destruct (extract_reading r rest Hg Hun Hu) as (info' & Hi' & _ & _ & _ & _ & _ & Hicl & Hich & _).
    assert (info' = info) as -> by congruence. exists r, rest. split_and!; try done. intros stream.
    eapply whole_frames; [done|done|congruence].
  - unfold analyze_tcp_request, analyze_l4_request. destruct (find_tcp_backends routes port) as [l|]; [|done].
    destruct (is_nil l); [done|]. destruct (select_l4_backend _ _ _ _) as [[c|] s]; [|done]. by case_bool_decide.
Qed.

Definition answered_soundly (sk buf : list Z) (reads : list (list Z)) (a : Answer) : Prop :=
  match a with
  | Pending e bytes reads' _ => exists head body, entry_parts e = (sk, head) /\ head <> [] /\
      buf ++ concat reads = head ++ body ++ held bytes ++ concat reads' /\
      entry_took e head body (body ++ held bytes ++ concat reads') /\ entry_sound e (body ++ held bytes ++ concat reads') /\ wire reads'
  | Finished (Some e) _ _ => exists head rest, entry_parts e = (sk, head) /\ buf ++ concat reads = head ++ rest /\ entry_sound e rest
  | Finished None _ _ => True
  end.

Lemma reply_and_sound sk buf reads reply st : Forall u8 buf -> wire reads -> (reusable reply = true -> whole_head buf) ->
  answered_soundly sk buf reads (reply_and sk buf reads reply st).
Proof.
  intros Hu Hw Hwhole. unfold reply_and. destruct (send_local_reply reply st) as [written st'].
  destruct (reusable reply); cbn [answered_soundly entry_parts entry_took entry_sound].
  - destruct (Hwhole eq_refl) as (r & rest & -> & Hg & Hun & Hfr). apply Forall_app in Hu as [Hu _].
    unfold pipelined_tail. rewrite find_header_end_render by done. rewrite take_app_length, drop_app_length, length_app.
    exists (render r), []. cbn [app]. split; [done|]. split; [apply render_not_nil|].
    assert (Hheld : held (if (length (render r) <? length (render r) + length rest)%nat then Some rest else None) = rest).
    { destruct (Nat.ltb_spec (length (render r)) (length (render r) + length rest)); [done|]. destruct rest; [done|cbn in *; lia]. }
    rewrite Hheld. split; [by rewrite app_assoc|]. split; [by exists r|done].
  - destruct (find_header_end buf) as [e|].
    + exists (take e buf), (drop e buf ++ concat reads). by rewrite app_assoc, take_drop.
    + by exists buf, (concat reads).
Qed.

Lemma serve_request_sound port ip tls t sk buf reads sel st a sel' : Forall u8 buf -> wire reads ->
  serve_request port ip tls t sk buf reads sel st = (a, sel') -> answered_soundly sk buf reads a.
Proof.
  intros Hu Hw. unfold serve_request.
  destruct (analyze_request (t_routes t) sel buf port (t_health t) tls) as [result sel1] eqn:Ea. intros [= <- <-].
  destruct result as [backend rule meta|reply|addr|addr|]; [| |done|done|done].
  2: { apply reply_and_sound; [done|done|]. cbn [reusable with_reusable]. unfold keep_open. intros H. bool_simpl. by eapply replied_request. }
  destruct (forwarded_request _ _ _ _ _ _ _ _ _ _ Hu Ea) as (r & rest & Hbuf & Hg & Hun & Hhl & Hfr & Hre & Hcl).
  destruct (t_limited t).
  { apply reply_and_sound; [done|done|]. cbn [reusable]. unfold keep_open. intros H. bool_simpl. exists r, rest. split_and!; by auto. }
  destruct (Framing_of buf meta) as [fm|] eqn:Ef; [|by apply reply_and_sound].
  assert (Hlen : (meta_head_len meta <= length buf)%nat) by (rewrite Hbuf, length_app; lia).
  pose proof (exchange_isolated (t_drain t) buf fm backend rule meta ip tls (t_script t) reads st Hlen Hcl Ef) as Hiso.
  pose proof (exchange_request (t_drain t) buf fm backend rule meta ip tls (t_script t) reads st Hlen Hcl Ef) as Hreq.
  pose proof (exchange_reads (t_drain t) buf fm backend rule meta ip tls (t_script t) reads st Hlen Hcl Ef) as Hrd.
  cbv zeta in Hiso, Hreq, Hrd. set (ex := proxy_http_request _ _ _ _ _ _ _ _ _ _ _) in *.
  assert (Hhead : buf ++ concat reads = take (meta_head_len meta) buf ++ drop (meta_head_len meta) buf ++ concat reads) by (by rewrite app_assoc, take_drop).
  assert (Hrender : take (meta_head_len meta) buf = render r) by (rewrite Hbuf, Hhl; apply take_app_length).
  assert (Hread : exists r0, take (meta_head_len meta) buf = render r0 /\ good_request r0 /\ unambiguous r0 /\
    forall stream body, request_body meta stream body <-> frames r0 stream body) by (by exists r).
  destruct (ex_keep ex) eqn:Ek; cbn [answered_soundly entry_parts entry_took entry_sound].
  - destruct (Hreq (or_introl eq_refl)) as [(body & pre & Hb & Hbk & Hst) _]. exists (take (meta_head_len meta) buf), body.
    split; [done|]. split; [rewrite Hrender; apply render_not_nil|].
    rewrite <- Hst. split; [done|]. split; [exists r; split_and!; try done; [by apply Hfr|by exists pre]|]. split; [done|].
    destruct (Hrd eq_refl) as [taken Ht]. rewrite Ht in Hw. unfold wire in *. by apply Forall_app in Hw as [_ ?].
  - exists (take (meta_head_len meta) buf), (drop (meta_head_len meta) buf ++ concat reads). done.
Qed.

Lemma wire_u8 reads : wire reads -> Forall u8 (concat reads).
Proof. intros H. apply Forall_concat. eapply Forall_impl; [exact H|]. by intros c [? _]. Qed.

Lemma serve_loop_sound port ip tls silent turns sk buf reads sel st : Forall u8 (buf ++ concat reads) -> buf <> [] -> wire reads -> all_crlf sk ->
  let s := serve_loop port ip tls silent turns sk buf reads sel st in
  (exists rest, partitions (sk ++ buf ++ concat reads) (sv_log s) rest) /\
  ((length (buf ++ concat reads) < length turns)%nat -> sv_handoff s <> None).
Proof.
  revert sk buf reads sel st. induction turns as [|t turns IH]; intros sk buf reads sel st Hu Hne Hw Hsk; cbn [serve_loop].
  { split; [eexists; constructor|cbn; lia]. }
  destruct (serve_request port ip tls t sk buf reads sel st) as [a sel1] eqn:Ea. apply Forall_app in Hu as [Hub Hur].
  pose proof (serve_request_sound _ _ _ _ _ _ _ _ _ _ _ Hub Hw Ea) as Hs.
  destruct a as [e bytes reads' st'|[e|] h st']; cbn [answered_soundly] in Hs.
  - destruct Hs as (head & body & Hp & Hh & Hst & Htook & Hsound & Hw').
    assert (Hu' : Forall u8 (held bytes ++ concat reads')).
    { assert (Hall : Forall u8 (buf ++ concat reads)) by (by apply Forall_app). rewrite Hst in Hall.
      apply Forall_app in Hall as [_ Hall]. by apply Forall_app in Hall as [_ ?]. }
    destruct (next_request silent bytes reads' (set_client_done st' false)) as [[[sk1 b1] r1]|[[h w] st1]] eqn:En.
    + destruct (next_stream _ _ _ _ _ _ _ Hw' En) as (Hn & Hw1 & Hsk1). rewrite <- Hn in Hu'.
      assert (Hb1 : b1 <> []).
      { intros ->. unfold next_request in En. repeat case_match; simplify_eq; try done;
          try (match goal with H : is_nil [] || _ = false |- _ => done end);
          match goal with H : negb (is_http_request []) = false |- _ => done end. }
      apply Forall_app in Hu' as [_ Hu'].
      destruct (IH sk1 b1 r1 sel1 (set_client_done st' false) Hu' Hb1 Hw1 Hsk1) as [[rest Hpart] Hterm]. cbn [logged sv_log sv_handoff]. split.
      * exists rest. rewrite Hst. apply (parts_next e sk head body); [done|done|done|done|]. by rewrite <- Hn.
      * intros Hlt. apply Hterm. cbn [length] in Hlt. rewrite Hst, !length_app in Hlt.
        apply (f_equal length) in Hn. rewrite !length_app in Hn. rewrite length_app. destruct head; [done|]. cbn [length] in Hlt. lia.
    + cbn [sv_log sv_handoff]. split; [|done]. exists (held bytes ++ concat reads'). rewrite Hst.
      apply (parts_next e sk head body); [done|done|done|done|constructor].
  - destruct Hs as (head & rest & Hp & Hst & Hsound). cbn [sv_log sv_handoff]. split; [|done]. exists rest. rewrite Hst. by apply parts_last.
  - cbn [sv_log sv_handoff]. split; [|done]. eexists. constructor.
Qed.

Lemma serve_http_sound port ip tls silent tcp turns reads sel st : wire reads ->
  let s := serve_http port ip tls silent tcp turns reads sel st in
  (exists rest, partitions (concat reads) (sv_log s) rest) /\
  ((length (concat reads) < length turns)%nat -> sv_handoff s <> None).
Proof.
  intros Hw. unfold serve_http. cbv zeta.
  set (start := match read_head [] reads with Some (b, r) => (b, r) | None => ([], reads) end).
  assert (Hst : start.1 ++ concat start.2 = concat reads /\ wire start.2).
  { unfold start. destruct (read_head [] reads) as [[b1 r1]|] eqn:Er; [|done].
    destruct (read_head_stream _ _ _ _ empty_room Hw Er) as (H1 & H2 & _). done. }
  destruct start as [b0 r0]. cbn [fst snd] in Hst. destruct Hst as [H0 Hw0].
  destruct (sniff_first_request _ b0 r0 _) as [[sk b1] r1] eqn:Es.
  destruct (sniff_stream _ _ _ _ _ _ _ Hw0 Es) as (H1 & Hw1 & Hsk).
  destruct (if is_http_request b1 && negb (has_header_end b1) then complete_headers silent b1 r1 st else inl (b1, r1))
    as [[b2 r2]|[[h w] st1]] eqn:Ec; [|split; [eexists; constructor|done]].
  assert (Hc : b2 ++ concat r2 = b1 ++ concat r1 /\ wire r2).
  { destruct (is_http_request b1 && _); [by eapply complete_stream|by injection Ec as <- <-]. }
  destruct Hc as [Hc Hw2]. rewrite <- Hc, H0 in H1. destruct (is_nil b2) eqn:En; [split; [eexists; constructor|done]|].
  assert (Hu : Forall u8 (b2 ++ concat r2)).
  { pose proof (wire_u8 reads Hw) as Hu. rewrite <- H1 in Hu. by apply Forall_app in Hu as [_ ?]. }
  destruct (serve_loop_sound port ip tls silent turns sk b2 r2 sel st Hu ltac:(by destruct b2) Hw2 Hsk) as [[rest Hp] Hterm].
  rewrite H1 in Hp. split; [by exists rest|]. intros Hlt. apply Hterm. rewrite <- H1, length_app in Hlt. lia.
Qed.

(** ** Properties *)

(** C1: a client connection is served request by request, with nothing
    desynchronised. Whatever the client sends, in whatever reads, and
    whatever the routes, the backends' health, the limiter and the backends
    do meanwhile, the client's byte stream divides, in order and without a
    gap, into the requests the loop took up: empty lines, a head, its body.
    Each request the loop went on after has a head with exactly one reading
    and the body that head frames, whether a backend was sent the two or the
    proxy answered itself. No backend was sent a byte from outside its own
    request, with one exception: a request that asked for an upgrade and
    that a backend answered with 101, where the connection leaves HTTP. There
    the answering backend was sent the whole request and then, in order, only
    what the client sent after it; every other backend stays within it. *)
Theorem connection_stays_in_step port ip tls silent tcp turns reads sel st (Hw : wire reads) :
  exists rest, partitions (concat reads) (sv_log (serve_http port ip tls silent tcp turns reads sel st)) rest.
Proof. by apply serve_http_sound. Qed.

(** C34: the request loop ends: every turn takes at least a byte off the
    client, so a connection that sends no more bytes than there are turns is
    closed, handed to a TCP route or failed, whatever it sends. *)
Theorem connection_ends port ip tls silent tcp turns reads sel st (Hw : wire reads)
  (Hturns : (length (concat reads) < length turns)%nat) :
  exists h, sv_handoff (serve_http port ip tls silent tcp turns reads sel st) = Some h.
Proof.
  destruct (serve_http_sound port ip tls silent tcp turns reads sel st Hw) as [_ H].
  destruct (sv_handoff _) as [h|]; [by exists h|by destruct (H Hturns)].
Qed.

End Stream.

(** ** Enough fuel: the loops read a byte or more at each turn *)

Section Fuel.
Context {RE : RegexEngine} `{MC : Memchr} `{AR : Arch}.

Lemma remaining_fuel f f' buf reads : wire reads -> (length (concat reads) < f)%nat -> (length (concat reads) < f')%nat ->
  read_remaining_headers f buf reads = read_remaining_headers f' buf reads.
Proof.
  revert f' buf reads. induction f as [|f IH]; intros [|f'] buf reads Hw Hf Hf'; [lia|lia|lia|]. cbn [read_remaining_headers].
  destruct (CLIENT_BUF <=? length buf)%nat eqn:E; [done|]. apply Nat.leb_gt in E.
  destruct (read_head buf reads) as [[b1 r1]|] eqn:Er; [|done].
  destruct (read_head_stream _ _ _ _ E Hw Er) as (_ & H2 & H3). destruct (has_header_end b1); [done|]. apply IH; [done|lia|lia].
Qed.

Lemma sniff_fuel f f' buf reads await : wire reads -> (length (concat reads) < f)%nat -> (length (concat reads) < f')%nat ->
  sniff_first_request f buf reads await = sniff_first_request f' buf reads await.
Proof.
  revert f' buf reads. induction f as [|f IH]; intros [|f'] buf reads Hw Hf Hf'; [lia|lia|lia|]. cbn [sniff_first_request].
  destruct (is_http_request _); [done|].
  destruct (negb _ || (CLIENT_BUF <=? length buf)%nat) eqn:E; [done|]. apply orb_false_iff in E as [_ E%Nat.leb_gt].
  destruct (read_head buf reads) as [[b1 r1]|] eqn:Er; [|done].
  destruct (read_head_stream _ _ _ _ E Hw Er) as (_ & H2 & H3). apply IH; [done|lia|lia].
Qed.

Lemma skip_fuel f f' skipped buf reads : wire reads -> (length (concat reads) < f)%nat -> (length (concat reads) < f')%nat ->
  skip_empty_lines f skipped buf reads = skip_empty_lines f' skipped buf reads.
Proof.
  revert f' skipped buf reads. induction f as [|f IH]; intros [|f'] skipped buf reads Hw Hf Hf'; [lia|lia|lia|]. cbn [skip_empty_lines].
  set (skip := empty_lines_len buf). destruct ((0 <? skip)%nat && is_nil (drop skip buf)).
  - destruct (read_head [] reads) as [[b1 r1]|] eqn:Er; [|done].
    destruct (read_head_stream _ _ _ _ empty_room Hw Er) as (_ & H2 & H3). apply IH; [done|lia|lia].
  - destruct (beq (drop skip buf) [CR]) eqn:Ec; [|done]. apply beq_spec in Ec. rewrite Ec.
    destruct (read_head [CR] reads) as [[b1 r1]|] eqn:Er; [|done].
    assert (Hr1 : (length [CR] < CLIENT_BUF)%nat) by (unfold CLIENT_BUF; cbn [length]; lia).
    destruct (read_head_stream _ _ _ _ Hr1 Hw Er) as (_ & H2 & H3). apply IH; [done|lia|lia].
Qed.

(** The waits for a client's bytes end too. The sniff of the first
    request, the wait for a head's end and the skip of empty lines each
    take a byte or more at every read, so the fuel the connection gives
    them never decides: any larger amount gives the same answer. *)
Theorem client_waits_end more buf reads await skipped (Hw : wire reads) :
  sniff_first_request (enough reads + more) buf reads await = sniff_first_request (enough reads) buf reads await /\
  read_remaining_headers (enough reads + more) buf reads = read_remaining_headers (enough reads) buf reads /\
  skip_empty_lines (enough reads + 1 + more) skipped buf reads = skip_empty_lines (enough reads + 1) skipped buf reads.
Proof. unfold enough. split_and!; [apply sniff_fuel|apply remaining_fuel|apply skip_fuel]; done || lia. Qed.

End Fuel.

(** ** Witnesses *)

#[local] Existing Instance literal_regex.
#[local] Instance connection_arch : Arch := Little.

Definition sample_turn : Turn :=
  {| t_routes := sample_table; t_health := steady HealthRegistry_new; t_limited := false; t_drain := false; t_script := sample_script |}.

(** An empty line, a GET, a GET of an unknown host answered 404, and half a
    third request: in three reads that split where they like. *)
Definition lost_get : list Z := bs "GET /a HTTP/1.1" ++ CRLF_ ++ bs "Host: no.test" ++ CRLF_ ++ CRLF_.

Definition sample_reads : list (list Z) := [CRLF_ ++ bs "GE"; drop 2 sample_get ++ take 9 lost_get; drop 9 lost_get ++ bs "GET /c"].

Definition sample_served : Served :=
  serve_http 80 (V4 1) false false false (replicate 150 sample_turn) sample_reads sample_state idle_state.

Example sample_served_log :
  (sv_handoff sample_served, map (fun e => (entry_parts e, match e with Answered _ _ r _ => Some (status r) | Exchanged _ _ _ _ _ _ _ _ => None end))
                                 (sv_log sample_served))
  = (Some HandoffClose, [(CRLF_, sample_get, None); ([], lost_get, Some 404)]).
Proof. vm_compute. reflexivity. Qed.

(** The backend accepts an upgrade: it was sent the request and what came
    with it, the rest is the tunnel's. One that refuses is sent the request
    alone. *)
Definition upgrade_get : list Z :=
  bs "GET /a HTTP/1.1" ++ CRLF_ ++ bs "Host: h.test" ++ CRLF_ ++ bs "Connection: upgrade" ++ CRLF_ ++ bs "Upgrade: websocket" ++ CRLF_ ++ CRLF_.

Definition turn_answering (line : list Z) : Turn :=
  let side := {| takes_request := true; takes_writes := 4; sends := [line ++ CRLF_ ++ CRLF_]; stalls := false |} in
  {| t_routes := sample_table; t_health := steady HealthRegistry_new; t_limited := false; t_drain := false;
     t_script := {| pooled := false; first_connect := Opened; first_side := side; fresh_connect := Opened; fresh_side := side;
                    client_stalls := false |} |}.

Definition upgrade_served (line : list Z) : list (bool * list (list Z) * list (list Z)) :=
  map (fun e => match e with
                | Exchanged _ _ _ _ _ framed _ ex => (ex_tunnel ex, map (drop (length framed)) (ex_backends ex), ex_reads ex)
                | Answered _ _ _ _ => (false, [], [])
                end)
    (sv_log (serve_http 80 (V4 1) false false false (replicate 300 (turn_answering line)) [upgrade_get ++ bs "ping"; bs "pong"] sample_state idle_state)).

Example upgrade_accepted : upgrade_served (bs "HTTP/1.1 101 Switching Protocols") = [(true, [bs "ping"], [bs "pong"])].
Proof. vm_compute. reflexivity. Qed.

Example upgrade_refused : upgrade_served (bs "HTTP/1.1 403 Forbidden") = [(false, [[]], [bs "pong"])].
Proof. vm_compute. reflexivity. Qed.

Lemma sample_reads_wire : wire sample_reads.
Proof. repeat (constructor; [split; [apply Forall_u8_literal; vm_compute; reflexivity|done]|]). constructor. Qed.

Lemma connection_stays_in_step_witness :
  length (sv_log sample_served) = 2%nat /\ exists rest, partitions (concat sample_reads) (sv_log sample_served) rest.
Proof.
  split; [vm_compute; reflexivity|].
  exact (connection_stays_in_step 80 (V4 1) false false false (replicate 150 sample_turn) sample_reads sample_state idle_state sample_reads_wire).
Defined.

Lemma connection_ends_witness : (length (concat sample_reads) < 150)%nat /\ exists h, sv_handoff sample_served = Some h.
Proof.
  split; [vm_compute; lia|].
  exact (connection_ends 80 (V4 1) false false false (replicate 150 sample_turn) sample_reads sample_state idle_state sample_reads_wire
           ltac:(vm_compute; lia)).
Defined.

Lemma client_waits_end_witness :
  read_remaining_headers (enough sample_reads + 7) (bs "G") sample_reads = read_remaining_headers (enough sample_reads) (bs "G") sample_reads.
Proof. destruct (client_waits_end 7 (bs "G") sample_reads true [] sample_reads_wire) as (_ & H & _). exact H. Defined.
