(* ===== verification/Config.v ===== *)
(** * Configurations, checked and compiled

    [src/src/config/types.rs]: the configuration a file or the Kubernetes
    controller gives the data plane. [src/src/config/wire.rs]: what a filter's
    strings may contain, given that the data plane splices them raw into HTTP
    heads. [src/src/config/compile.rs]: one HTTP route checked and put in the
    table's form. Error texts are left out: an error keeps its reason, its
    cause and where it sits. The parsing and compiling of regular expressions
    is the [regex] crate's, the class [RegexSyntax]. *)

From S2P Require Import Prelude Bytes Net HttpGrammar Method Routing IpText.

(** ** Types *)

Inductive Protocol := HTTP | HTTPS | TLS | TCP | UDP.

#[export] Instance Protocol_eq_dec : EqDecision Protocol.
Proof. solve_decision. Defined.

Inductive TlsMode := Terminate | Passthrough.

#[export] Instance TlsMode_eq_dec : EqDecision TlsMode.
Proof. solve_decision. Defined.

Record CertificateRef := {
  cert_name : list Z;
  cert_namespace : option (list Z);
  cert_hostname : option (list Z);
  cert_pem : option (list Z);
  key_pem : option (list Z);
}.

Record TlsConfig := { tls_mode : TlsMode; certificate_refs : list CertificateRef }.

Record RateLimitSpec := { requests_per_second : Z; spec_burst : option Z }.

Definition effective_burst (s : RateLimitSpec) : Z := default (requests_per_second s) (spec_burst s).

Record ListenerConfig := {
  l_name : list Z;
  l_protocol : Protocol;
  l_port : Z;
  l_target_port : option Z;
  l_hostname : option (list Z);
  l_address : option (list Z);
  l_interface : option (list Z);
  l_tls : option TlsConfig;
  l_rate_limit : option RateLimitSpec;
}.

Definition is_tls_passthrough (l : ListenerConfig) : bool :=
  bool_decide (l_protocol l = TLS)
  && match l_tls l with Some tls => bool_decide (tls_mode tls = Passthrough) | None => false end.

Record GatewayConfig := { g_name : list Z; listeners : list ListenerConfig; g_addresses : list (list Z) }.

(** [port] is an [i32]. *)
Record ParentRef := { pr_name : list Z; section_name : option (list Z); pr_port : option Z }.

Definition as_u16 (z : Z) : Z := wrap 16 z.

Definition selects (pr : ParentRef) (l : ListenerConfig) : bool :=
  match section_name pr with Some s => beq (l_name l) s | None => true end
  && match pr_port pr with Some p => l_port l =? as_u16 p | None => true end.

Inductive HttpPathMatchType := CfgPathPrefix | CfgExact | CfgRegularExpression.

#[export] Instance HttpPathMatchType_eq_dec : EqDecision HttpPathMatchType.
Proof. solve_decision. Defined.

Inductive StringMatchType := StringExact | StringRegularExpression.

Record HttpPathMatch := { pm_type : HttpPathMatchType; pm_value : list Z }.
Record HttpHeaderMatch := { chm_name : list Z; chm_value : list Z; chm_type : StringMatchType }.
Record HttpQueryParamMatch := { cqm_name : list Z; cqm_value : list Z; cqm_type : StringMatchType }.

Record HttpRouteMatch := {
  m_method : option (list Z);
  m_path : option HttpPathMatch;
  m_headers : list HttpHeaderMatch;
  m_query_params : list HttpQueryParamMatch;
}.

Definition HttpRouteMatch_path_prefix (path : list Z) : HttpRouteMatch :=
  {| m_method := None; m_path := Some {| pm_type := CfgPathPrefix; pm_value := path |}; m_headers := []; m_query_params := [] |}.

Record HeaderModifierConfig := { cfg_add : list HttpHeader; cfg_set : list HttpHeader; cfg_remove : list (list Z) }.

Inductive HttpURLRewritePath := CfgReplaceFullPath (value : list Z) | CfgReplacePrefixMatch (value : list Z).

Record RequestRedirectConfig := {
  rd_scheme : option (list Z);
  rd_hostname : option (list Z);
  rd_port : option Z;
  rd_path : option HttpURLRewritePath;
  rd_status_code : Z;
}.

Record URLRewriteConfig := { ur_hostname : option (list Z); ur_path : option HttpURLRewritePath }.

Record MirrorFraction := { mf_numerator : Z; mf_denominator : Z }.

(** [RequestMirrorConfig]'s fields are [FRequestMirror]'s. *)
Inductive HttpRouteFilter :=
  | FRequestHeaderModifier (config : HeaderModifierConfig)
  | FResponseHeaderModifier (config : HeaderModifierConfig)
  | FRequestRedirect (config : RequestRedirectConfig)
  | FURLRewrite (config : URLRewriteConfig)
  | FRequestMirror (backend_ref : BackendRef) (percent : option Z) (fraction : option MirrorFraction)
with BackendRef :=
  | mkBackendRef (name : list Z) (port weight : Z) (group kind : list Z) (filters : list HttpRouteFilter)
      (app_protocol : option (list Z)) (invalid : bool).

Definition br_name (b : BackendRef) : list Z := let 'mkBackendRef n _ _ _ _ _ _ _ := b in n.
Definition br_port (b : BackendRef) : Z := let 'mkBackendRef _ p _ _ _ _ _ _ := b in p.
Definition br_weight (b : BackendRef) : Z := let 'mkBackendRef _ _ w _ _ _ _ _ := b in w.
Definition br_group (b : BackendRef) : list Z := let 'mkBackendRef _ _ _ g _ _ _ _ := b in g.
Definition br_kind (b : BackendRef) : list Z := let 'mkBackendRef _ _ _ _ k _ _ _ := b in k.
Definition br_filters (b : BackendRef) : list HttpRouteFilter := let 'mkBackendRef _ _ _ _ _ fs _ _ := b in fs.
Definition br_app_protocol (b : BackendRef) : option (list Z) := let 'mkBackendRef _ _ _ _ _ _ a _ := b in a.
Definition br_invalid (b : BackendRef) : bool := let 'mkBackendRef _ _ _ _ _ _ _ i := b in i.

(** In nanoseconds, as [Duration] keeps them. *)
Record HttpRouteTimeouts := { t_request : option Z; t_backend_request : option Z }.

(** [HttpRouteRule] of the configuration. *)
Record CfgRule := {
  c_matches : list HttpRouteMatch;
  c_filters : list HttpRouteFilter;
  backend_refs : list BackendRef;
  timeouts : option HttpRouteTimeouts;
}.

Definition is_redirect (f : HttpRouteFilter) : bool := match f with FRequestRedirect _ => true | _ => false end.

Definition redirects (r : CfgRule) : bool := existsb is_redirect (c_filters r).

Record HttpRouteConfig := { h_parent_refs : list ParentRef; hostnames : list (list Z); h_rules : list CfgRule }.

Record L4RouteRule := { l4_backend_refs : list BackendRef }.
Record TcpRouteConfig := { t_parent_refs : list ParentRef; t_rules : list L4RouteRule }.
Record TlsRouteConfig := { s_parent_refs : list ParentRef; s_hostnames : list (list Z); s_rules : list L4RouteRule }.

(** The fields of [PerformanceConfig] the checks read. *)
Record PerformanceConfig := { udp_session_timeout : Z; udp_max_sessions : option Z }.

Record PortailConfig := {
  gateway : GatewayConfig;
  cfg_http_routes : list HttpRouteConfig;
  cfg_tcp_routes : list TcpRouteConfig;
  cfg_tls_routes : list TlsRouteConfig;
  cfg_udp_routes : list TcpRouteConfig;
  performance : PerformanceConfig;
  endpoint_overrides : gmap (list Z * Z) (list (list Z * Z));
  app_protocol_overrides : gmap (list Z * Z) (list Z);
  headless_target_ports : gmap (list Z * Z) Z;
}.

(** ** What may reach the wire *)

Inductive WireError :=
  | NotFieldName
  | ControlCharacter (byte : Z) (at_ : nat)
  | NotHostname
  | PathNotAbsolute
  | PathByte (byte : Z) (at_ : nat)
  | NotScheme
  | FramingHeader
  | HostNotSet                     (** Host can only be set *)
  | HostSetTwice (second first : nat)
  | TwoHostLines.

Definition is_header_name (name : list Z) : bool := is_token name.

(** [iter().position(..)], with the byte there. *)
Fixpoint position (p : Z -> bool) (i : nat) (l : list Z) : option (nat * Z) :=
  match l with
  | [] => None
  | b :: t => if p b then Some (i, b) else position p (S i) t
  end.

Definition header_value_violation (value : list Z) : option (nat * Z) := position (fun b => negb (is_field_value_byte b)) 0 value.

Definition check_header_name (name : list Z) : result unit WireError :=
  if is_header_name name then Ok tt else Err NotFieldName.

Definition check_header_value (value : list Z) : result unit WireError :=
  match header_value_violation value with
  | None => Ok tt
  | Some (i, b) => Err (ControlCharacter b i)
  end.

Definition dns_label (l : list Z) : bool :=
  (1 <=? length l)%nat && (length l <=? 63)%nat
  && forallb (fun b => is_ascii_alphanumeric b || (b =? 45)) l
  && negb (bool_decide (head l = Some 45)) && negb (bool_decide (last l = Some 45)).

Definition is_dns_name (host : list Z) : bool := (length host <=? 253)%nat && forallb dns_label (split_on 46 host).

Definition check_hostname (host : list Z) : result unit WireError :=
  let valid := match strip_prefix [91] host with
               | Some rest => match strip_suffix [93] rest with Some v6 => is_some (parse_ipv6 v6) | None => false end
               | None => is_dns_name host
               end in
  if valid then Ok tt else Err NotHostname.

Definition check_path (path : list Z) : result unit WireError :=
  if negb (starts_with [47] path) then Err PathNotAbsolute
  else match position (fun b => negb (is_target_byte b)) 0 path with
  | None => Ok tt
  | Some (i, b) => Err (PathByte b i)
  end.

Definition check_scheme (scheme : list Z) : result unit WireError :=
  if eq_ignore_ascii_case scheme (bs "http") || eq_ignore_ascii_case scheme (bs "https") then Ok tt else Err NotScheme.

Definition REQUEST_FRAMING : list (list Z) :=
  [bs "Content-Length"; bs "Transfer-Encoding"; bs "Connection"; bs "Keep-Alive"; bs "Proxy-Connection"; bs "TE";
   bs "Trailer"; bs "Upgrade"; bs "Expect"; bs "HTTP2-Settings"].

Definition RESPONSE_FRAMING : list (list Z) :=
  [bs "Content-Length"; bs "Transfer-Encoding"; bs "Connection"; bs "Keep-Alive"; bs "Proxy-Connection"; bs "Trailer";
   bs "Upgrade"].

Inductive Side := Request | Response.

Inductive ModOp := OpSet | OpAdd | OpRemove.

Definition is_host (name : list Z) : bool := eq_ignore_ascii_case name (bs "host").

(** [?] *)
Definition and_then {A B E} (x : result A E) (k : A -> result B E) : result B E :=
  match x with Ok a => k a | Err e => Err e end.

Fixpoint check_all {A E} (f : A -> result unit E) (l : list A) : result unit E :=
  match l with [] => Ok tt | a :: t => and_then (f a) (fun _ => check_all f t) end.

Definition check_modified_name (side : Side) (op : ModOp) (name : list Z) : result unit WireError :=
  and_then (check_header_name name) (fun _ =>
    let framing := match side with Request => REQUEST_FRAMING | Response => RESPONSE_FRAMING end in
    if existsb (fun f => eq_ignore_ascii_case f name) framing then Err FramingHeader
    else match side with
    | Request =>
        if is_host name then match op with OpSet => Ok tt | _ => Err HostNotSet end else Ok tt
    | Response => Ok tt
    end).

Definition check_modified_header (side : Side) (op : ModOp) (h : HttpHeader) : result unit WireError :=
  and_then (check_modified_name side op (header_name h)) (fun _ => check_header_value (header_value h)).

(** Where the Host entries of [set] are. *)
Definition host_entries (set : list HttpHeader) : list nat :=
  map fst (filter (fun ih : nat * HttpHeader => is_host (header_name ih.2) = true) (imap pair set)).

Definition check_header_modifier (m : HeaderModifierConfig) (side : Side) : result unit WireError :=
  and_then (check_all (check_modified_header side OpSet) (cfg_set m)) (fun _ =>
  and_then (check_all (check_modified_header side OpAdd) (cfg_add m)) (fun _ =>
  and_then (check_all (check_modified_name side OpRemove) (cfg_remove m)) (fun _ =>
    match side with
    | Request => match host_entries (cfg_set m) with first :: i :: _ => Err (HostSetTwice i first) | _ => Ok tt end
    | Response => Ok tt
    end))).

Definition check_destination (hostname : option (list Z)) (path : option HttpURLRewritePath) : result unit WireError :=
  and_then (match hostname with Some host => check_hostname host | None => Ok tt end) (fun _ =>
    match path with
    | None => Ok tt
    | Some (CfgReplaceFullPath value) => check_path value
    | Some (CfgReplacePrefixMatch value) => if is_nil value then Ok tt else check_path value
    end).

Definition check_filter (f : HttpRouteFilter) : result unit WireError :=
  match f with
  | FRequestHeaderModifier config => check_header_modifier config Request
  | FResponseHeaderModifier config => check_header_modifier config Response
  | FRequestRedirect config =>
      and_then (match rd_scheme config with Some s => check_scheme s | None => Ok tt end) (fun _ =>
        check_destination (rd_hostname config) (rd_path config))
  | FURLRewrite config => check_destination (ur_hostname config) (ur_path config)
  | FRequestMirror _ _ _ => Ok tt
  end.

Definition rewrites_host (f : HttpRouteFilter) : bool :=
  match f with FURLRewrite config => is_some (ur_hostname config) | _ => false end.

Definition sets_host (f : HttpRouteFilter) : bool :=
  match f with FRequestHeaderModifier config => existsb (fun h => is_host (header_name h)) (cfg_set config) | _ => false end.

Definition check_rule_filters (fs : list HttpRouteFilter) : result unit WireError :=
  if existsb rewrites_host fs && existsb sets_host fs then Err TwoHostLines else Ok tt.

(** ** Compiling a route *)

Class RegexSyntax {RE : RegexEngine} : Type := {
  (** parsed alone and printed back, without comments *)
  re_print_alone : list Z -> option (list Z);
  re_new : list Z -> option Regex;
}.

Inductive RejectReason := UnsupportedValue | IncompatibleFilters.

#[export] Instance RejectReason_eq_dec : EqDecision RejectReason.
Proof. solve_decision. Defined.

Inductive BackendRefError := RefNameEmpty | RefPortZero | RefWeight.

Inductive RouteCause :=
  | RedirectWithRewrite
  | FilterRepeated (i : nat)
  | Wire (e : WireError)
  | PrefixReplacementMatch (i : nat)
  | InvalidMethod
  | MatchPathNotAbsolute
  | HeaderNameEmpty
  | HeaderNameInvalid
  | QueryNameEmpty
  | QueryNameSeparator
  | InvalidRegex
  | RedirectStatus
  | MirrorBackend (e : BackendRefError)
  | BackendFilter
  | MirrorTwoShares
  | MirrorShare
  | FilterMissingConfig
  | FilterTypeUnsupported.

Inductive Place := AtRule (i : nat) | AtBackendRef (i : nat) | AtMatch (i : nat) | AtFilter (i : nat) | AtHeader (i : nat) | AtQueryParam (i : nat).

Record RouteError := { reason : RejectReason; cause : RouteCause; places : list Place }.

Definition unsupported (c : RouteCause) : RouteError := {| reason := UnsupportedValue; cause := c; places := [] |}.
Definition incompatible (c : RouteCause) : RouteError := {| reason := IncompatibleFilters; cause := c; places := [] |}.
Definition at_ (p : Place) (e : RouteError) : RouteError := {| reason := reason e; cause := cause e; places := p :: places e |}.

Definition map_err {A E F} (f : E -> F) (x : result A E) : result A F := match x with Ok a => Ok a | Err e => Err (f e) end.

(** [.enumerate().map(..).collect::<Result<_, _>>()] *)
Fixpoint try_imap {A B} (place : nat -> Place) (f : A -> result B RouteError) (i : nat) (l : list A) : result (list B) RouteError :=
  match l with
  | [] => Ok []
  | a :: t => and_then (map_err (at_ (place i)) (f a)) (fun b => and_then (try_imap place f (S i) t) (fun bs => Ok (b :: bs)))
  end.

(** [BackendRef::validate] of [validation.rs]. *)
Definition validate_backend_ref (b : BackendRef) : result unit BackendRefError :=
  if is_nil (br_name b) then Err RefNameEmpty
  else if br_port b =? 0 then Err RefPortZero
  else if 1000000 <? br_weight b then Err RefWeight
  else Ok tt.

(** [std::mem::discriminant] *)
Definition discriminant (f : HttpRouteFilter) : nat :=
  match f with
  | FRequestHeaderModifier _ => 0 | FResponseHeaderModifier _ => 1 | FRequestRedirect _ => 2
  | FURLRewrite _ => 3 | FRequestMirror _ _ _ => 4
  end.

Definition is_mirror (f : HttpRouteFilter) : bool := match f with FRequestMirror _ _ _ => true | _ => false end.

Fixpoint check_no_repeats_from (i : nat) (earlier fs : list HttpRouteFilter) : result unit RouteError :=
  match fs with
  | [] => Ok tt
  | f :: rest =>
      if negb (is_mirror f) && existsb (fun e => (discriminant e =? discriminant f)%nat) earlier
      then Err (incompatible (FilterRepeated i))
      else check_no_repeats_from (S i) (earlier ++ [f]) rest
  end.

Definition check_no_repeats (fs : list HttpRouteFilter) : result unit RouteError := check_no_repeats_from 0 [] fs.

Definition check_filter_combination (fs : list HttpRouteFilter) : result unit RouteError :=
  and_then (check_no_repeats fs) (fun _ =>
    if existsb is_redirect fs && existsb (fun f => match f with FURLRewrite _ => true | _ => false end) fs
    then Err (incompatible RedirectWithRewrite)
    else map_err (fun e => incompatible (Wire e)) (check_rule_filters fs)).

Definition replaces_prefix (f : HttpRouteFilter) : bool :=
  let path := match f with
              | FRequestRedirect config => rd_path config
              | FURLRewrite config => ur_path config
              | _ => None
              end in
  match path with Some (CfgReplacePrefixMatch _) => true | _ => false end.

Fixpoint check_prefix_matches (i : nat) (ms : list HttpRouteMatch) : result unit RouteError :=
  match ms with
  | [] => Ok tt
  | m :: rest =>
      match m_path m with
      | Some p => if bool_decide (pm_type p = CfgPathPrefix) then check_prefix_matches (S i) rest
                  else Err (incompatible (PrefixReplacementMatch i))
      | None => check_prefix_matches (S i) rest
      end
  end.

Definition check_prefix_replacement (rule : CfgRule) : result unit RouteError :=
  if existsb replaces_prefix (c_filters rule) then check_prefix_matches 0 (c_matches rule) else Ok tt.

Definition redirects_beside_backends (rule : CfgRule) : bool := negb (is_nil (backend_refs rule)) && redirects rule.

(** [trim_end_matches(c)] *)
Definition trim_end_matches (c : Z) (s : list Z) : list Z :=
  take (length s - span_len (fun b => b =? c) (reverse s)) s.

Section Compile.
Context {RE : RegexEngine} {RS : RegexSyntax}.

Definition compile_regex (pattern : list Z) : result Regex RouteError :=
  match re_print_alone pattern with
  | None => Err (unsupported InvalidRegex)
  | Some alone => match re_new (bs "^(?:" ++ alone ++ bs ")$") with
                  | None => Err (unsupported InvalidRegex)
                  | Some re => Ok re
                  end
  end.

Record CompiledMatch := {
  cm_method : option (list Z);
  cm_path_match_type : PathMatchType;
  cm_path : list Z;
  cm_path_regex : option Regex;
  cm_headers : list HeaderMatch;
  cm_query_params : list QueryParamMatch;
}.

Inductive CompiledFilter :=
  | Ready (f : HttpFilter)
  | Mirror (backend : BackendRef) (fraction : Fraction).

Record CompiledRule := {
  source : CfgRule;
  cr_matches : list CompiledMatch;
  cr_filters : list CompiledFilter;
  cr_backend_filters : list (list HttpFilter);
}.

Definition to_rule (cell : loc) (m : CompiledMatch) (fs : list HttpFilter) (bks : list Backend) (ts : option HttpRouteTimeouts)
  : HttpRouteRule :=
  let rule := with_method (HttpRouteRule_new cell (cm_path_match_type m) (cm_path m) (cm_headers m) (cm_query_params m) fs bks)
                (cm_method m) in
  {| method_match := method_match rule; path_match_type := path_match_type rule; rule_path := rule_path rule;
     path_regex := cm_path_regex m; header_matches := header_matches rule; query_param_matches := query_param_matches rule;
     filters := filters rule; backends := backends rule;
     request_timeout := match ts with Some t => t_request t | None => request_timeout rule end;
     backend_request_timeout := match ts with Some t => t_backend_request t | None => backend_request_timeout rule end;
     has_filters := has_filters rule; total_weight := total_weight rule; cumulative_weights := cumulative_weights rule;
     counter := counter rule; requests := requests rule; limiter := limiter rule; route_index := route_index rule |}.

Definition value_matcher (value : list Z) (t : StringMatchType) : result ValueMatcher RouteError :=
  match t with
  | StringExact => Ok (VExact value)
  | StringRegularExpression => and_then (compile_regex value) (fun re => Ok (VRegex re))
  end.

Definition compile_header_match (h : HttpHeaderMatch) : result HeaderMatch RouteError :=
  if is_nil (chm_name h) then Err (unsupported HeaderNameEmpty)
  else if negb (is_header_name (chm_name h)) then Err (unsupported HeaderNameInvalid)
  else and_then (value_matcher (chm_value h) (chm_type h)) (fun v => Ok {| hm_name := lowercase (chm_name h); hm_matcher := v |}).

Definition compile_query_match (q : HttpQueryParamMatch) : result QueryParamMatch RouteError :=
  if is_nil (cqm_name q) then Err (unsupported QueryNameEmpty)
  else if is_some (find_byte 38 (cqm_name q)) || is_some (find_byte 61 (cqm_name q)) then Err (unsupported QueryNameSeparator)
  else and_then (value_matcher (cqm_value q) (cqm_type q)) (fun v => Ok {| qm_name := cqm_name q; qm_matcher := v |}).

Definition compile_path (p : option HttpPathMatch) : result (PathMatchType * list Z * option Regex) RouteError :=
  match p with
  | None => Ok (Prefix, [47], None)
  | Some p =>
      match pm_type p with
      | CfgRegularExpression => and_then (compile_regex (pm_value p)) (fun re => Ok (RegularExpression, pm_value p, Some re))
      | t =>
          if negb (starts_with [47] (pm_value p)) then Err (unsupported MatchPathNotAbsolute)
          else match t with
          | CfgExact => Ok (Exact, pm_value p, None)
          | _ => Ok (Prefix, match trim_end_matches 47 (pm_value p) with [] => [47] | trimmed => trimmed end, None)
          end
      end
  end.

Definition compile_match (m : HttpRouteMatch) : result CompiledMatch RouteError :=
  if match m_method m with Some method => negb (is_valid_method method) | None => false end
  then Err (unsupported InvalidMethod)
  else
  and_then (compile_path (m_path m)) (fun '(path_match_type, path, path_regex) =>
  and_then (try_imap AtHeader compile_header_match 0 (m_headers m)) (fun headers =>
  and_then (try_imap AtQueryParam compile_query_match 0 (m_query_params m)) (fun query_params =>
    Ok {| cm_method := m_method m; cm_path_match_type := path_match_type; cm_path := path; cm_path_regex := path_regex;
          cm_headers := headers; cm_query_params := query_params |}))).

Definition mirror_fraction (percent : option Z) (fraction : option MirrorFraction) : result Fraction RouteError :=
  let new n d := match Fraction_new n d with Some f => Ok f | None => Err (unsupported MirrorShare) end in
  match fraction, percent with
  | Some _, Some _ => Err (unsupported MirrorTwoShares)
  | Some f, None => new (mf_numerator f) (mf_denominator f)
  | None, Some percent => new percent 100
  | None, None => Ok Fraction_ALL
  end.

(** [URLRewritePath::from] *)
Definition URLRewritePath_from (p : HttpURLRewritePath) : URLRewritePath :=
  match p with
  | CfgReplaceFullPath value => ReplaceFullPath (PathValue_from value)
  | CfgReplacePrefixMatch value => ReplacePrefixMatch (PathValue_from value)
  end.

Definition table_filter (f : HttpRouteFilter) : result CompiledFilter RouteError :=
  match f with
  | FRequestHeaderModifier c => Ok (Ready (RequestHeaderModifier (cfg_add c) (cfg_set c) (cfg_remove c)))
  | FResponseHeaderModifier c => Ok (Ready (ResponseHeaderModifier (cfg_add c) (cfg_set c) (cfg_remove c)))
  | FRequestRedirect c =>
      Ok (Ready (RequestRedirect (option_map lowercase (rd_scheme c)) (rd_hostname c) (rd_port c)
                   (option_map URLRewritePath_from (rd_path c)) (rd_status_code c)))
  | FURLRewrite c => Ok (Ready (URLRewrite (ur_hostname c) (option_map URLRewritePath_from (ur_path c))))
  | FRequestMirror b percent fraction => and_then (mirror_fraction percent fraction) (fun fr => Ok (Mirror b fr))
  end.

Definition redirect_status (code : Z) : bool := existsb (fun c => c =? code) [301; 302; 303; 307; 308].

Definition compile_filter (f : HttpRouteFilter) : result CompiledFilter RouteError :=
  and_then (match f with
            | FRequestRedirect c => if redirect_status (rd_status_code c) then Ok tt else Err (unsupported RedirectStatus)
            | FRequestMirror b _ _ => map_err (fun e => unsupported (MirrorBackend e)) (validate_backend_ref b)
            | _ => Ok tt
            end) (fun _ =>
  and_then (map_err (fun e => unsupported (Wire e)) (check_filter f)) (fun _ => table_filter f)).

Definition compile_backend_filter (f : HttpRouteFilter) : result HttpFilter RouteError :=
  match f with
  | FRequestHeaderModifier _ | FResponseHeaderModifier _ =>
      and_then (map_err (fun e => unsupported (Wire e)) (check_filter f)) (fun _ =>
      and_then (table_filter f) (fun cf =>
        match cf with Ready filter => Ok filter | Mirror _ _ => Err (unsupported BackendFilter) end))
  | _ => Err (unsupported BackendFilter)
  end.

Definition compile_backend_filters (b : BackendRef) : result (list HttpFilter) RouteError :=
  and_then (check_no_repeats (br_filters b)) (fun _ => try_imap AtFilter compile_backend_filter 0 (br_filters b)).

Definition compile_rule (rule : CfgRule) : result CompiledRule RouteError :=
  and_then (check_filter_combination (c_filters rule)) (fun _ =>
  and_then (check_prefix_replacement rule) (fun _ =>
    let forwards_to := if redirects rule then [] else backend_refs rule in
    and_then (try_imap AtBackendRef compile_backend_filters 0 forwards_to) (fun backend_filters =>
    let matches := if is_nil (c_matches rule) then [HttpRouteMatch_path_prefix [47]] else c_matches rule in
    and_then (try_imap AtMatch compile_match 0 matches) (fun matches =>
    and_then (try_imap AtFilter compile_filter 0 (c_filters rule)) (fun filters =>
      Ok {| source := rule; cr_matches := matches; cr_filters := filters; cr_backend_filters := backend_filters |}))))).

Definition compile_http_route (route : HttpRouteConfig) : result (list CompiledRule) RouteError :=
  try_imap AtRule compile_rule 0 (h_rules route).

End Compile.

(** ** Results *)

Lemma and_then_ok {A B E} (x : result A E) (k : A -> result B E) b : and_then x k = Ok b <-> exists a, x = Ok a /\ k a = Ok b.
Proof.
  destruct x as [a|e]; cbn [and_then].
  - split; [intros H; by exists a|by intros (a' & [= <-] & H)].
  - split; [done|by intros (a' & ? & _)].
Qed.

Lemma map_err_ok {A E F} (f : E -> F) (x : result A E) a : map_err f x = Ok a <-> x = Ok a.
Proof. destruct x; cbn; split; congruence. Qed.
