(* ===== verification/FilterSafety.v ===== *)
(** * Filters and the wire

    No code here: what the filter checks of [Config.v] buy. A filter that
    [compile_filter] accepts puts only whole header lines, host names and
    paths on the wire, and none that frames a message; so a head rewritten
    by accepted filters still has one reading, with the framing it had. *)

From S2P Require Import Prelude Bytes Net HttpGrammar Routing RouteBuild Health Selection PathNorm HttpParser HttpFilters Method.
From S2P Require Import RequestProcessor Outgoing Reread Response ResponseBody ResponseScan LocalReply IpText Config.

(** ** Modified lines *)

Definition hdr_line (h : HttpHeader) : line := (header_name h, SP :: header_value h).
Definition host_line_of (host : list Z) : line := (bs "Host", SP :: host).

(** What becomes of one line, and which [set] entry replaced it. *)
Definition rewritten_host (host : option (list Z)) (l : line) : option (list Z) :=
  match host with Some h => if hosts l then Some h else None | None => None end.

Definition new_lines (mods : option HeaderModifications) (host : option (list Z)) (l : line) : list line :=
  match rewritten_host host l, mods with
  | Some h, _ => [host_line_of h]
  | None, Some m =>
      if existsb (fun r => eq_ignore_ascii_case r l.1) (mods_remove m) then []
      else match find_set l.1 0 (mods_set m) with Some (_, h) => [hdr_line h] | None => [l] end
  | None, None => [l]
  end.

Definition set_index (mods : option HeaderModifications) (host : option (list Z)) (l : line) : option nat :=
  match rewritten_host host l, mods with
  | None, Some m =>
      if existsb (fun r => eq_ignore_ascii_case r l.1) (mods_remove m) then None else fst <$> find_set l.1 0 (mods_set m)
  | _, _ => None
  end.

Definition applied (mods : option HeaderModifications) (host : option (list Z)) (ls : list line) (i : nat) : bool :=
  existsb (fun l => bool_decide (set_index mods host l = Some i)) ls.

Definition appended_set (mods : option HeaderModifications) (host : option (list Z)) (ls : list line) (m : HeaderModifications) : list line :=
  concat (imap (fun i h => if applied mods host ls i then [] else [hdr_line h]) (mods_set m)).

Definition appended (mods : option HeaderModifications) (host : option (list Z)) (ls : list line) : list line :=
  match host with Some h => if existsb hosts ls then [] else [host_line_of h] | None => [] end
  ++ match mods with Some m => appended_set mods host ls m ++ map hdr_line (mods_add m) | None => [] end.

Definition modified (mods : option HeaderModifications) (host : option (list Z)) (ls : list line) : list line :=
  concat (map (new_lines mods host) ls) ++ appended mods host ls.

Lemma render_one l : render_lines [l] = render_line l.
Proof. unfold render_lines. cbn [map concat]. apply app_nil_r. Qed.

Lemma put_header_line h : put_header h = render_line (hdr_line h).
Proof. unfold put_header, render_line, hdr_line. cbn [fst snd]. by rewrite <- ?app_assoc. Qed.

Lemma put_host_renders h : put_host h = render_line (host_line_of h).
Proof. done. Qed.

Lemma imap_concat_render {A} (f : nat -> A -> list line) (l : list A) :
  concat (imap (fun i a => render_lines (f i a)) l) = render_lines (concat (imap f l)).
Proof.
  revert f. induction l as [|a l IH]; intros f; [done|]. cbn [imap concat]. rewrite render_lines_app. f_equal.
  apply (IH (fun i => f (S i))).
Qed.

Section Modified.
Context `{MC : Memchr} `{AR : Arch}.

Lemma mod_line_text mods host l : plain_line l ->
  mod_line mods host (line_text l) = (render_lines (new_lines mods host l), set_index mods host l, is_some (rewritten_host host l)).
Proof.
  intros Hl. destruct (plain_line_text l Hl) as (_ & _ & Hc). unfold mod_line. rewrite Hc.
  assert (take (length l.1) (line_text l) = l.1) as -> by (unfold line_text; apply take_app_length). fold (hosts l).
  unfold new_lines, set_index, rewritten_host. rewrite <- render_line_text.
  destruct host as [h|]; [destruct (hosts l); [by rewrite render_one|]|].
  all: destruct mods as [m|]; [|by rewrite render_one]; destruct (existsb _ (mods_remove m)); [done|].
  all: destruct (find_set l.1 0 (mods_set m)) as [[i h']|]; cbn [fmap option_fmap option_map fst]; rewrite render_one; [by rewrite put_header_line|done].
Qed.

Lemma header_lines_block ls : Forall plain_line ls -> header_lines (render_lines ls ++ CRLF_) = map line_text ls.
Proof.
  intros Hls. rewrite render_lines_text. apply header_lines_crlf. apply Forall_fmap. eapply Forall_impl; [exact Hls|].
  intros l Hl. by apply plain_line_text.
Qed.

(** [apply_header_mods_inner] of a block of lines is a block of lines. *)
Lemma apply_mods_lines mods host ls : Forall plain_line ls ->
  apply_header_mods_inner (render_lines ls ++ CRLF_) mods host = render_lines (modified mods host ls) ++ CRLF_.
Proof.
  intros Hls. unfold apply_header_mods_inner. rewrite header_lines_block by done. cbv zeta. rewrite (map_map line_text (mod_line mods host)).
  assert (Hmap : map (fun l => mod_line mods host (line_text l)) ls =
    map (fun l => (render_lines (new_lines mods host l), set_index mods host l, is_some (rewritten_host host l))) ls).
  { apply map_ext_in. intros l Hl. apply mod_line_text. rewrite Forall_forall in Hls. by apply Hls, list_elem_of_In. }
  rewrite Hmap. clear Hmap. rewrite map_map. cbn [fst].
  unfold modified, appended. rewrite !render_lines_app, <- !app_assoc, <- render_lines_concat. f_equal.
  assert (Hex : forall (p : list Z * option nat * bool -> bool), existsb p (map (fun l =>
    (render_lines (new_lines mods host l), set_index mods host l, is_some (rewritten_host host l))) ls) =
    existsb (fun l => p (render_lines (new_lines mods host l), set_index mods host l, is_some (rewritten_host host l))) ls).
  { intros p. clear Hls. induction ls as [|l ls IH]; [done|]. cbn [map existsb]. by rewrite IH. }
  f_equal.
  - destruct host as [h|]; [|done]. rewrite Hex. cbn [fst snd].
    assert (existsb (fun l => is_some (rewritten_host (Some h) l)) ls = existsb hosts ls) as ->.
    { clear. induction ls as [|l ls IH]; [done|]. cbn [existsb]. rewrite IH. f_equal. unfold rewritten_host. by destruct (hosts l). }
    destruct (existsb hosts ls); [done|by rewrite render_one, put_host_renders].
  - f_equal. destruct mods as [m|]; [|done]. rewrite render_lines_app. f_equal.
    + unfold appended_set. rewrite <- imap_concat_render. f_equal. apply imap_ext. intros i h _. cbn beta. rewrite Hex. cbn [fst snd].
      unfold applied. destruct (existsb _ ls); [done|]. by rewrite render_one, put_header_line.
    + unfold render_lines. rewrite map_map. f_equal.
Qed.

(** ** What modifications leave alone *)

Definition touches (m : HeaderModifications) (nm : list Z) : Prop :=
  (exists h, h ∈ mods_set m ++ mods_add m /\ lowercase (header_name h) = nm) \/ (exists r, r ∈ mods_remove m /\ lowercase r = nm).

Definition mods_touch (mods : option HeaderModifications) (nm : list Z) : Prop :=
  match mods with Some m => touches m nm | None => False end.

Lemma find_set_Some name i hs j h : find_set name i hs = Some (j, h) ->
  (i <= j)%nat /\ hs !! (j - i)%nat = Some h /\ lowercase (header_name h) = lowercase name.
Proof.
  revert i. induction hs as [|x hs IH]; intros i; cbn [find_set]; [done|].
  destruct (eq_ignore_ascii_case (header_name x) name) eqn:E.
  - intros [= <- <-]. rewrite Nat.sub_diag. split; [lia|]. split; [done|]. by apply eq_ignore_ascii_case_spec.
  - intros H. apply IH in H as (H1 & H2 & H3). split; [lia|]. split; [|done]. replace (j - i)%nat with (S (j - S i)) by lia. done.
Qed.

Lemma find_set_None name i hs : find_set name i hs = None -> Forall (fun h => lowercase (header_name h) <> lowercase name) hs.
Proof.
  revert i. induction hs as [|x hs IH]; intros i; cbn [find_set]; [constructor|].
  destruct (eq_ignore_ascii_case (header_name x) name) eqn:E; [done|]. intros H. constructor; [|by eapply IH].
  intros E'. apply eq_ignore_ascii_case_spec in E'. congruence.
Qed.

Lemma appended_set_elem mods host ls m l : l ∈ appended_set mods host ls m -> exists h, h ∈ mods_set m /\ l = hdr_line h.
Proof.
  unfold appended_set. intros Hl. apply list_elem_of_In, in_concat in Hl as (x & Hx & Hl). apply list_elem_of_In in Hx.
  apply elem_of_lookup_imap in Hx as (i & h & -> & Hi). destruct (applied mods host ls i); [done|].
  destruct Hl as [<-|[]]. exists h. split; [by eapply list_elem_of_lookup_2|done].
Qed.

(** The lines whose names, in lower case, satisfy [P]. *)
Definition named_lines (P : list Z -> bool) (ls : list line) : list line := filter (fun l => P (lowercase l.1) = true) ls.

Lemma named_lines_app P a b : named_lines P (a ++ b) = named_lines P a ++ named_lines P b.
Proof. apply filter_app. Qed.

Lemma named_lines_none P ls : (forall l, l ∈ ls -> P (lowercase l.1) = false) -> named_lines P ls = [].
Proof.
  intros H. unfold named_lines. induction ls as [|l ls IH]; [done|]. rewrite filter_cons_False by (rewrite (H l) by set_solver; done).
  apply IH. set_solver.
Qed.

Lemma named_lines_concat P (f : line -> list line) ls : (forall l, l ∈ ls -> named_lines P (f l) = named_lines P [l]) ->
  named_lines P (concat (map f ls)) = named_lines P ls.
Proof.
  induction ls as [|l ls IH]; intros Hf; [done|]. cbn [map concat]. rewrite named_lines_app, IH, Hf by set_solver.
  by rewrite <- named_lines_app.
Qed.

Lemma named_line_none P l : P (lowercase l.1) = false -> named_lines P [l] = [].
Proof. intros H. apply named_lines_none. intros x ->%list_elem_of_singleton. done. Qed.

Lemma new_lines_untouched P mods host l : (forall nm, P nm = true -> ~ mods_touch mods nm) ->
  (is_some host = true -> P (bs "host") = false) -> named_lines P (new_lines mods host l) = named_lines P [l].
Proof.
  intros Hm Hh. unfold new_lines, rewritten_host.
  assert (Hno : forall nm, mods_touch mods nm -> P nm = false).
  { intros nm Ht. destruct (P nm) eqn:E; [|done]. by destruct (Hm nm E). }
  assert (Hnone : named_lines P (match mods with Some m =>
      if existsb (fun r => eq_ignore_ascii_case r l.1) (mods_remove m) then []
      else match find_set l.1 0 (mods_set m) with Some (_, h) => [hdr_line h] | None => [l] end | None => [l] end) = named_lines P [l]).
  { destruct mods as [m|]; [|done]. destruct (existsb _ (mods_remove m)) eqn:Er.
    - apply existsb_exists in Er as (r & Hr & Heq). apply eq_ignore_ascii_case_spec in Heq. symmetry. apply named_line_none, Hno.
      right. exists r. split; [by apply list_elem_of_In|done].
    - destruct (find_set l.1 0 (mods_set m)) as [[i h]|] eqn:Ef; [|done]. apply find_set_Some in Ef as (_ & Hi & Hn).
      apply list_elem_of_lookup_2 in Hi. assert (Ht : touches m (lowercase l.1)) by (left; exists h; set_solver).
      rewrite !named_line_none; [done|by apply Hno|]. cbn [hdr_line fst]. rewrite Hn. by apply Hno. }
  destruct host as [h|]; [|done]. destruct (hosts l) eqn:Eh; [|done]. rewrite hosts_lower in Eh. apply bool_decide_eq_true in Eh.
  specialize (Hh eq_refl). rewrite !named_line_none; [done|by rewrite Eh|]. exact Hh.
Qed.

(** Names no modification touches keep their lines. *)
Lemma lines_untouched P mods host ls : (forall nm, P nm = true -> ~ mods_touch mods nm) ->
  (is_some host = true -> P (bs "host") = false) -> named_lines P (modified mods host ls) = named_lines P ls.
Proof.
  intros Hm Hh. unfold modified. rewrite named_lines_app, (named_lines_none P (appended mods host ls)).
  2: { assert (Hno : forall nm, mods_touch mods nm -> P nm = false).
    { intros nm Ht. destruct (P nm) eqn:E; [|done]. by destruct (Hm nm E). }
    unfold appended. intros l [Hl|Hl]%elem_of_app.
    - destruct host as [h|]; [|by apply not_elem_of_nil in Hl]. destruct (existsb hosts ls); [by apply not_elem_of_nil in Hl|].
      apply list_elem_of_singleton in Hl as ->. exact (Hh eq_refl).
    - destruct mods as [m|]; [|by apply not_elem_of_nil in Hl]. apply Hno. left. apply elem_of_app in Hl as [Hl|Hl].
      + apply appended_set_elem in Hl as (h & Hs & ->). exists h. set_solver.
      + apply list_elem_of_fmap in Hl as (h & -> & Ha). exists h. set_solver. }
  rewrite app_nil_r. apply named_lines_concat. intros l _. by apply new_lines_untouched.
Qed.

Lemma values_named nm ls : values nm ls = map snd (named_lines (fun n => bool_decide (n = nm)) ls).
Proof. unfold values, named_lines. f_equal. apply list_filter_iff. intros l. by rewrite bool_decide_eq_true. Qed.

Lemma values_untouched mods host nm ls : ~ mods_touch mods nm -> (is_some host = true -> nm <> bs "host") ->
  values nm (modified mods host ls) = values nm ls.
Proof.
  intros Hm Hh. rewrite !values_named. f_equal. apply lines_untouched.
  - by intros n ->%bool_decide_eq_true.
  - intros H. apply bool_decide_eq_false. intros E. by apply (Hh H).
Qed.

End Modified.

(** ** What the checks accept *)

(** A Rust [String]. *)
Definition str_ok (s : list Z) : Prop := Forall u8 s /\ utf8_valid s = true.

Definition framing_names (side : Side) : list (list Z) :=
  map lowercase match side with Request => REQUEST_FRAMING | Response => RESPONSE_FRAMING end.

Definition header_safe (h : HttpHeader) : Prop := good_line (hdr_line h) /\ u8_line (hdr_line h).

Definition sets_hosts (set : list HttpHeader) : list HttpHeader := filter (fun h => is_host (header_name h) = true) set.

Record mods_safe (side : Side) (m : HeaderModifications) : Prop := {
  safe_lines : Forall header_safe (mods_set m ++ mods_add m);
  safe_framing : forall nm, nm ∈ framing_names side -> ~ touches m nm;
  safe_host : side = Request -> (length (sets_hosts (mods_set m)) <= 1)%nat /\
    Forall (fun h => is_host (header_name h) = false) (mods_add m) /\ Forall (fun r => is_host r = false) (mods_remove m);
}.

Lemma check_all_ok {A E} (f : A -> result unit E) l : check_all f l = Ok tt <-> Forall (fun a => f a = Ok tt) l.
Proof.
  induction l as [|a l IH]; cbn [check_all]; [split; [constructor|done]|]. rewrite and_then_ok, Forall_cons, <- IH. split.
  - intros ([] & H1 & H2). done.
  - intros [H1 H2]. by exists tt.
Qed.

Lemma position_none p i l : position p i l = None <-> Forall (fun b => p b = false) l.
Proof.
  revert i. induction l as [|b l IH]; intros i; cbn [position]; [split; [constructor|done]|].
  rewrite Forall_cons. destruct (p b); [split; [done|by intros [? _]]|]. rewrite (IH (S i)). split; [done|by intros [_ ?]].
Qed.

Lemma is_token_spec s : is_token s = true <-> token s.
Proof.
  unfold is_token, token. destruct s as [|b s]; [split; [done|by intros [? _]]|]. rewrite forallb_Forall. split; [done|by intros [_ ?]].
Qed.

Lemma check_value_ok v : check_header_value v = Ok tt -> Forall (fun b => is_ b VALUE = true) v.
Proof.
  unfold check_header_value, header_value_violation. destruct (position _ 0 v) as [[i b]|] eqn:E; [done|]. intros _.
  apply position_none in E. eapply Forall_impl; [exact E|]. intros b Hb. by apply negb_false_iff in Hb.
Qed.

Lemma framing_spec side name :
  existsb (fun f => eq_ignore_ascii_case f name) match side with Request => REQUEST_FRAMING | Response => RESPONSE_FRAMING end
  = bool_decide (lowercase name ∈ framing_names side).
Proof.
  unfold framing_names. set (fs := match side with Request => _ | Response => _ end). apply eq_true_iff_eq.
  rewrite existsb_exists, bool_decide_eq_true, list_elem_of_fmap. split.
  - intros (f & Hf & He). apply eq_ignore_ascii_case_spec in He. exists f. split; [done|by apply list_elem_of_In].
  - intros (f & He & Hf). exists f. split; [by apply list_elem_of_In|]. by apply eq_ignore_ascii_case_spec.
Qed.

Lemma check_name_ok side op name : check_modified_name side op name = Ok tt ->
  token name /\ (lowercase name ∉ framing_names side) /\ (side = Request -> op <> OpSet -> is_host name = false).
Proof.
  unfold check_modified_name. rewrite and_then_ok. intros ([] & Hn & H). cbv zeta in H. rewrite framing_spec in H.
  case_bool_decide; [done|]. split.
  { unfold check_header_name, is_header_name in Hn. destruct (is_token name) eqn:E; [|done]. by apply is_token_spec. }
  split; [done|]. intros -> Hop. destruct (is_host name); [|done]. by destruct op.
Qed.

Lemma check_header_ok side op h : str_ok (header_name h) -> str_ok (header_value h) -> check_modified_header side op h = Ok tt ->
  header_safe h /\ (lowercase (header_name h) ∉ framing_names side) /\ (side = Request -> op <> OpSet -> is_host (header_name h) = false).
Proof.
  intros [Hn _] [Hv _]. unfold check_modified_header. rewrite and_then_ok. intros ([] & H1 & H2).
  destruct (check_name_ok _ _ _ H1) as (Ht & Hf & Hh). apply check_value_ok in H2. split; [|done]. split; split; cbn [hdr_line fst snd]; try done.
  - by constructor.
  - constructor; [red; lia|done].
Qed.

Lemma host_entries_length set : length (host_entries set) = length (sets_hosts set).
Proof.
  unfold host_entries, sets_hosts. rewrite length_map.
  assert (H : forall (g : nat -> nat), length (filter (fun ih : nat * HttpHeader => is_host (header_name ih.2) = true) (imap (fun i h => (g i, h)) set))
    = length (filter (fun h => is_host (header_name h) = true) set)); [|apply (H id)].
  induction set as [|h set IH]; intros g; [done|]. cbn [imap]. rewrite !filter_cons. cbn [snd].
  pose proof (IH (fun i => g (S i))) as IH'. destruct (decide _); cbn [length]; [f_equal|]; exact IH'.
Qed.

Definition mods_of (c : HeaderModifierConfig) : HeaderModifications :=
  {| mods_add := cfg_add c; mods_set := cfg_set c; mods_remove := cfg_remove c |}.

Definition header_typed (h : HttpHeader) : Prop := str_ok (header_name h) /\ str_ok (header_value h).

Definition modifier_typed (c : HeaderModifierConfig) : Prop :=
  Forall header_typed (cfg_set c) /\ Forall header_typed (cfg_add c) /\ Forall str_ok (cfg_remove c).

Lemma check_modifier_ok side c : modifier_typed c -> check_header_modifier c side = Ok tt -> mods_safe side (mods_of c).
Proof.
  intros (Ts & Ta & _). unfold check_header_modifier. rewrite and_then_ok. intros ([] & Hs & H). rewrite and_then_ok in H.
  destruct H as ([] & Ha & H). rewrite and_then_ok in H. destruct H as ([] & Hr & Hh).
  apply check_all_ok in Hs. apply check_all_ok in Ha. apply check_all_ok in Hr.
  assert (Hset : Forall (fun h => header_safe h /\ (lowercase (header_name h) ∉ framing_names side)) (cfg_set c)).
  { apply Forall_and in Ts as [T1 T2]. rewrite Forall_forall in Hs, T1, T2 |- *. intros h Hin.
    destruct (check_header_ok side OpSet h (T1 h Hin) (T2 h Hin) (Hs h Hin)) as (? & ? & _). done. }
  assert (Hadd : Forall (fun h => header_safe h /\ (lowercase (header_name h) ∉ framing_names side) /\
    (side = Request -> is_host (header_name h) = false)) (cfg_add c)).
  { apply Forall_and in Ta as [T1 T2]. rewrite Forall_forall in Ha, T1, T2 |- *. intros h Hin.
    destruct (check_header_ok side OpAdd h (T1 h Hin) (T2 h Hin) (Ha h Hin)) as (? & ? & H3). split_and!; try done. intros ->. by apply H3. }
  assert (Hrem : Forall (fun r => (lowercase r ∉ framing_names side) /\ (side = Request -> is_host r = false)) (cfg_remove c)).
  { eapply Forall_impl; [exact Hr|]. intros r H. destruct (check_name_ok _ _ _ H) as (_ & ? & H3). split; [done|]. intros ->. by apply H3. }
  split; cbn [mods_of mods_set mods_add mods_remove].
  - apply Forall_app. split; [eapply Forall_impl; [exact Hset|]|eapply Forall_impl; [exact Hadd|]]; by intros h [? _].
  - intros nm Hnm [(h & Hin & E)|(r & Hin & E)]; subst nm.
    + apply elem_of_app in Hin as [Hin|Hin]; rewrite Forall_forall in Hset, Hadd; [by apply (Hset h Hin)|by apply (Hadd h Hin)].
    + rewrite Forall_forall in Hrem. by apply (Hrem r Hin).
  - intros ->. split; [|split; [eapply Forall_impl; [exact Hadd|]|eapply Forall_impl; [exact Hrem|]]].
    + rewrite <- host_entries_length. destruct (host_entries (cfg_set c)) as [|? [|? ?]]; cbn [length]; [lia|lia|done].
    + intros h (_ & _ & H). by apply H.
    + intros r (_ & H). by apply H.
Qed.

(** ** Response heads *)

Section Responses.
Context `{MC : Memchr} `{AR : Arch}.

Definition response_framing (nm : list Z) : bool :=
  bool_decide (nm = bs "content-length") || bool_decide (nm = bs "transfer-encoding") || bool_decide (nm = bs "connection").

(** Only the framing lines are read. *)
Lemma response_lines_named f ls : Forall plain_line ls ->
  response_lines f (map line_text ls) = response_lines f (map line_text (named_lines response_framing ls)).
Proof.
  intros Hls. revert f. induction Hls as [|l ls Hl _ IH]; intros f; [done|]. unfold named_lines in *. rewrite filter_cons.
  cbn [map response_lines]. destruct (decide _) as [Hd|Hd].
  - cbn [map response_lines]. destruct (response_line f (line_text l)); [apply IH|done].
  - apply not_true_is_false in Hd. unfold response_framing in Hd. bool_simpl. rewrite response_line_text by done. unfold counts.
    rewrite !bool_decide_eq_false_2 by done. apply IH.
Qed.

Lemma header_safe_plain h : header_safe h -> plain_line (hdr_line h).
Proof.
  intros [[Ht Hv] [Hu _]]. split; [done|]. split; [done|]. eapply Forall_impl; [exact Hv|]. intros b. apply value_in_line.
Qed.

Lemma modified_plain side m ls : mods_safe side m -> Forall plain_line ls -> Forall plain_line (modified (Some m) None ls).
Proof.
  intros Hm Hls. pose proof (safe_lines _ _ Hm) as Hs. apply Forall_app in Hs as [Hs Ha].
  assert (Hset : forall h, h ∈ mods_set m -> plain_line (hdr_line h)).
  { intros h Hin. rewrite Forall_forall in Hs. by apply header_safe_plain, Hs. }
  unfold modified, appended. apply Forall_app. split; [|apply Forall_app; split; [constructor|apply Forall_app; split]].
  - apply Forall_concat, Forall_fmap. eapply Forall_impl; [exact Hls|]. intros l Hl. cbn. unfold new_lines. cbn [rewritten_host].
    destruct (existsb _ (mods_remove m)); [constructor|]. destruct (find_set l.1 0 (mods_set m)) as [[i h]|] eqn:E.
    + constructor; [|constructor]. apply find_set_Some in E as (_ & Hi & _). by eapply Hset, list_elem_of_lookup_2.
    + by constructor.
  - apply Forall_forall. intros l Hl. apply appended_set_elem in Hl as (h & Hin & ->). by apply Hset.
  - apply Forall_fmap. eapply Forall_impl; [exact Ha|]. intros h. apply header_safe_plain.
Qed.

Lemma split_first_line_crlf first x : Forall (fun b => b <> 10) first -> split_first_line (first ++ CRLF_ ++ x) = (first, x).
Proof.
  intros Hf. unfold split_first_line. rewrite memchr_find_byte.
  change (first ++ CRLF_ ++ x) with (first ++ [13] ++ 10 :: x). rewrite app_assoc, find_byte_app_r.
  2: { apply Forall_app. split; [done|]. by repeat constructor. }
  assert (E : (first ++ [13]) ++ 10 :: x = ((first ++ [13]) ++ [10]) ++ x) by (by rewrite <- (app_assoc (first ++ [13]))).
  rewrite E. replace (Nat.add (length (first ++ [13])) 1) with (length ((first ++ [13]) ++ [10])) by (rewrite (length_app (first ++ [13])); done).
  rewrite take_app_length, drop_app_length, strip_suffix_app. cbn [default from_option id]. by rewrite strip_suffix_app.
Qed.

(** Modifying a block of lines under a first line. *)
Lemma apply_response_lines m first ls : line_bytes first -> Forall plain_line ls ->
  apply_response_header_mods (first ++ CRLF_ ++ render_lines ls ++ CRLF_) m
  = first ++ CRLF_ ++ render_lines (modified (Some m) None ls) ++ CRLF_.
Proof.
  intros Hf Hls. unfold apply_response_header_mods. rewrite split_first_line_crlf by (by apply line_bytes_no_lf).
  by rewrite apply_mods_lines.
Qed.

Lemma modified_response_lines m ls f : mods_safe Response m -> Forall plain_line ls ->
  response_lines f (map line_text (modified (Some m) None ls)) = response_lines f (map line_text ls).
Proof.
  intros Hm Hls. rewrite (response_lines_named _ (modified _ _ _)) by (by eapply modified_plain).
  rewrite (response_lines_named _ ls) by done. do 2 f_equal. apply lines_untouched; [|done].
  intros nm Hnm. apply (safe_framing _ _ Hm). unfold response_framing in Hnm.
  apply orb_true_iff in Hnm as [[H|H]%orb_true_iff|H]; apply bool_decide_eq_true in H as ->; 
    (apply (bool_decide_unpack (_ ∈ framing_names Response)); vm_compute; exact I).
Qed.

(** An accepted ResponseHeaderModifier cannot change what a client makes
    of a response. Whatever the backend's head was and whatever the modifier
    sets, adds and removes, the head the client is sent still ends at its
    first blank line, where the proxy ended it, and reads with the status,
    the body framing and the close that the unmodified head reads with. *)
Theorem modified_response_reads_back c data e head cuts close rest
  (Ht : modifier_typed c) (Hc : check_header_modifier c Response = Ok tt)
  (Hu : Forall u8 data) (Hlen : Z.of_nat (length data) < 4294967296) (Hs : scan_response_head data = Head e head cuts) :
  let sent := sanitize_response_headers (take e data) (framing_length head) cuts close in
  let out := apply_response_header_mods sent (mods_of c) in
  find_header_end (out ++ rest) = Some (length out) /\ parse_response_head out = parse_response_head sent.
Proof.
  cbv zeta. pose proof (check_modifier_ok Response c Ht Hc) as Hm.
  destruct (sanitized_shape data e head cuts close Hu Hlen Hs) as (first & ls & Hsent & Hf & Hne & Hls). rewrite Hsent.
  rewrite apply_response_lines by done. pose proof (modified_plain Response (mods_of c) ls Hm Hls) as Hml. split.
  - rewrite find_header_end_first, <- !app_assoc, first_blank_plain by (done || by apply line_bytes_no_cr).
    change (CRLF_ ++ rest) with (13 :: 10 :: rest). rewrite first_blank_hit. cbn [fmap option_fmap option_map]. f_equal.
    rewrite !length_app. cbn [length]. lia.
  - unfold parse_response_head. rewrite !header_lines_plain by done. by rewrite modified_response_lines.
Qed.

End Responses.

(** ** Request heads: the Host line *)

Section Hosts.
Context `{MC : Memchr} `{AR : Arch}.

Lemma is_host_lower name : is_host name = bool_decide (lowercase name = bs "host").
Proof. apply (eqi_lower name (bs "host")). reflexivity. Qed.

Lemma sets_hosts_nil set : sets_hosts set = [] -> Forall (fun h => is_host (header_name h) = false) set.
Proof.
  unfold sets_hosts. induction set as [|h set IH]; [constructor|]. rewrite filter_cons. destruct (decide _) as [|Hd]; [done|].
  intros H. constructor; [by apply not_true_is_false|by apply IH].
Qed.

Lemma sets_hosts_one set h : sets_hosts set = [h] -> is_host (header_name h) = true /\
  exists a b, set = a ++ h :: b /\ Forall (fun h => is_host (header_name h) = false) a /\ Forall (fun h => is_host (header_name h) = false) b.
Proof.
  induction set as [|x set IH]; [done|]. unfold sets_hosts in *. rewrite filter_cons. destruct (decide _) as [Hd|Hd].
  - intros [= -> H]. split; [done|]. exists [], set. split; [done|]. split; [constructor|]. by apply sets_hosts_nil.
  - intros H. destruct (IH H) as (Hh & a & b & -> & Ha & Hb). split; [done|]. exists (x :: a), b. split; [done|].
    split; [|done]. constructor; [by apply not_true_is_false|done].
Qed.

Lemma hosts_value l : values (bs "host") [l] = if hosts l then [l.2] else [].
Proof. rewrite values_cons, hosts_lower. by rewrite app_nil_r. Qed.

Lemma values_host_none ls : Forall (fun l => hosts l = false) ls <-> values (bs "host") ls = [].
Proof.
  induction ls as [|l ls IH]; [split; [done|constructor]|]. rewrite Forall_cons, values_cons, <- hosts_lower.
  destruct (hosts l); [split; [by intros [? _]|done]|]. rewrite IH. split; [by intros [_ ?]|done].
Qed.

(** The [set] entries appended, Host among them at most once. *)
Lemma appended_set_hosts mods host ls m h a b : mods_set m = a ++ h :: b -> is_host (header_name h) = true ->
  Forall (fun h => is_host (header_name h) = false) a -> Forall (fun h => is_host (header_name h) = false) b ->
  values (bs "host") (appended_set mods host ls m) = if applied mods host ls (length a) then [] else [SP :: header_value h].
Proof.
  intros Hset Hh Ha Hb. unfold appended_set. rewrite Hset, imap_app, concat_app, values_app. cbn [imap concat]. rewrite values_app.
  assert (Hnone : forall (f : nat -> bool) l, Forall (fun h => is_host (header_name h) = false) l ->
    values (bs "host") (concat (imap (fun i h => if f i then [] else [hdr_line h]) l)) = []).
  { intros f l Hl. revert f. induction Hl as [|x l Hx _ IH]; intros f; [done|]. cbn [imap concat]. rewrite values_app.
    match goal with |- _ ++ ?v = [] => assert (v = []) as -> by exact (IH (fun i => f (S i))) end.
    rewrite app_nil_r. destruct (f 0%nat); [done|]. rewrite hosts_value. unfold hosts. cbn [hdr_line fst]. unfold is_host in Hx. by rewrite Hx. }
  rewrite (Hnone (applied mods host ls) a Ha). cbn [app].
  match goal with |- _ ++ ?v = _ => assert (v = []) as -> by exact (Hnone (fun i => applied mods host ls (length a + S i)%nat) b Hb) end.
  rewrite app_nil_r, Nat.add_0_r. destruct (applied mods host ls (length a)); [done|]. rewrite hosts_value. unfold hosts. cbn [hdr_line fst snd].
  unfold is_host in Hh. by rewrite Hh.
Qed.

Lemma find_set_host nm i a h b : lowercase nm = bs "host" -> is_host (header_name h) = true ->
  Forall (fun h => is_host (header_name h) = false) a -> find_set nm i (a ++ h :: b) = Some ((i + length a)%nat, h).
Proof.
  intros Hn Hh Ha. revert i. induction Ha as [|x a Hx _ IH]; intros i; cbn [app find_set].
  - assert (eq_ignore_ascii_case (header_name h) nm = true) as ->.
    { apply eq_ignore_ascii_case_spec. rewrite Hn. rewrite is_host_lower in Hh. by apply bool_decide_eq_true in Hh. }
    cbn [length]. by rewrite Nat.add_0_r.
  - assert (eq_ignore_ascii_case (header_name x) nm = false) as ->.
    { apply not_true_is_false. rewrite eq_ignore_ascii_case_spec, Hn. rewrite is_host_lower in Hx. by apply bool_decide_eq_false in Hx. }
    rewrite IH. cbn [length]. do 2 f_equal. lia.
Qed.

(** A line of another name brings no Host and takes no Host entry. *)
Lemma new_lines_other m host l : hosts l = false -> values (bs "host") (new_lines (Some m) host l) = [] /\
  (forall j h, set_index (Some m) host l = Some j -> mods_set m !! j = Some h -> is_host (header_name h) = false).
Proof.
  intros Hl. unfold new_lines, set_index, rewritten_host. rewrite Hl.
  assert ((match host with Some h => None | None => None end : option (list Z)) = None) as -> by (by destruct host).
  destruct (existsb _ (mods_remove m)); [done|]. destruct (find_set l.1 0 (mods_set m)) as [[i h]|] eqn:Ef.
  - apply find_set_Some in Ef as (_ & Hi & Hn). rewrite Nat.sub_0_r in Hi.
    assert (Hh : is_host (header_name h) = false).
    { rewrite is_host_lower, Hn. rewrite hosts_lower in Hl. done. }
    split; [rewrite hosts_value; unfold hosts; cbn [hdr_line fst]; unfold is_host in Hh; by rewrite Hh|].
    cbn [fmap option_fmap option_map fst]. intros j h' [= <-]. rewrite Hi. by intros [= <-].
  - split; [by rewrite hosts_value, Hl|done].
Qed.

Lemma other_lines m host ls : Forall (fun l => hosts l = false) ls ->
  values (bs "host") (concat (map (new_lines (Some m) host) ls)) = [] /\
  (forall j h, applied (Some m) host ls j = true -> mods_set m !! j = Some h -> is_host (header_name h) = false).
Proof.
  induction 1 as [|l ls Hl _ [IH1 IH2]]; [done|]. destruct (new_lines_other m host l Hl) as [H1 H2]. cbn [map concat]. split.
  - by rewrite values_app, H1, IH1.
  - intros j h. unfold applied. cbn [existsb]. intros [Hj|Hj]%orb_true_iff; [|by apply IH2]. apply bool_decide_eq_true in Hj. by apply H2.
Qed.

Definition lone_host (ls : list line) : Prop := (length (values (bs "host") ls) <= 1)%nat.

Lemma lone_host_split ls : lone_host ls -> values (bs "host") ls = [] \/
  exists a l b, ls = a ++ l :: b /\ hosts l = true /\ Forall (fun l => hosts l = false) a /\ Forall (fun l => hosts l = false) b.
Proof.
  unfold lone_host. induction ls as [|l ls IH]; [by left|]. rewrite values_cons, <- hosts_lower. destruct (hosts l) eqn:El; cbn [app length].
  - intros H. right. exists [], l, ls. split; [done|]. split; [done|]. split; [constructor|]. apply values_host_none.
    destruct (values (bs "host") ls); [done|cbn in H; lia].
  - intros H. destruct (IH H) as [->|(a & x & b & -> & Hx & Ha & Hb)]; [by left|]. right. exists (l :: a), x, b. split; [done|].
    split; [done|]. split; [by constructor|done].
Qed.

(** What a safe modifier makes of the Host: the one it sets, or the one that
    was there. *)
Lemma modified_host m ls : mods_safe Request m -> lone_host ls ->
  values (bs "host") (modified (Some m) None ls) =
  match sets_hosts (mods_set m) with [] => values (bs "host") ls | h :: _ => [SP :: header_value h] end.
Proof.
  intros Hm Hls. destruct (safe_host _ _ Hm eq_refl) as (Hone & Hadd & Hrem).
  assert (Hadds : values (bs "host") (map hdr_line (mods_add m)) = []).
  { apply values_host_none, Forall_fmap. eapply Forall_impl; [exact Hadd|]. intros h Hh. exact Hh. }
  destruct (sets_hosts (mods_set m)) as [|h [|? ?]] eqn:Es; [| |cbn in Hone; lia].
  - apply values_untouched; [|done]. apply sets_hosts_nil in Es. intros [(h & Hin & E)|(r & Hin & E)].
    + rewrite Forall_forall in Es, Hadd. assert (is_host (header_name h) = false) as Hh by (apply elem_of_app in Hin as [?|?]; [by apply Es|by apply Hadd]).
      rewrite is_host_lower, E in Hh. done.
    + rewrite Forall_forall in Hrem. specialize (Hrem r Hin). cbv beta in Hrem. rewrite is_host_lower, E in Hrem. done.
  - apply sets_hosts_one in Es as (Hh & a & b & Hset & Ha & Hb).
    unfold modified, appended. rewrite !values_app, Hadds, app_nil_r. cbn [app].
    rewrite (appended_set_hosts (Some m) None ls m h a b Hset Hh Ha Hb). change (values (bs "host") [] ) with (@nil (list Z)). cbn [app].
    destruct (lone_host_split ls Hls) as [Hnil|(x & l & y & -> & Hl & Hx & Hy)].
    + apply values_host_none in Hnil. destruct (other_lines m None ls Hnil) as [-> Hidx]. cbn [app].
      destruct (applied (Some m) None ls (length a)) eqn:Eap; [|done].
      assert (is_host (header_name h) = false); [|congruence]. apply (Hidx (length a) h); [done|]. rewrite Hset. apply list_lookup_middle. done.
    + rewrite map_app, concat_app, values_app, (proj1 (other_lines m None x Hx)). cbn [map concat app].
      rewrite values_app, (proj1 (other_lines m None y Hy)), app_nil_r.
      assert (Hnm : lowercase l.1 = bs "host") by (rewrite hosts_lower in Hl; by apply bool_decide_eq_true in Hl).
      assert (Hnr : existsb (fun r => eq_ignore_ascii_case r l.1) (mods_remove m) = false).
      { apply not_true_is_false. intros (r & Hr & He)%existsb_exists. apply eq_ignore_ascii_case_spec in He. rewrite Forall_forall in Hrem.
        specialize (Hrem r (proj2 (list_elem_of_In _ _) Hr)). cbv beta in Hrem. rewrite is_host_lower, He, Hnm in Hrem. done. }
      assert (Hsi : set_index (Some m) None l = Some (length a)).
      { unfold set_index. cbn [rewritten_host]. rewrite Hnr, Hset, (find_set_host _ 0 a h b) by done. done. }
      assert (applied (Some m) None (x ++ l :: y) (length a) = true) as ->.
      { unfold applied. rewrite existsb_app. cbn [existsb]. rewrite Hsi, bool_decide_eq_true_2 by done. by rewrite orb_true_r. }
      rewrite app_nil_r. unfold new_lines. cbn [rewritten_host]. rewrite Hnr, Hset, (find_set_host _ 0 a h b) by done.
      rewrite hosts_value. unfold hosts. cbn [hdr_line fst snd]. unfold is_host in Hh. by rewrite Hh.
Qed.

(** What a host rewrite makes of it, beside modifications that leave it. *)
Lemma rewritten_hosts mods host ls : ~ mods_touch mods (bs "host") -> lone_host ls ->
  values (bs "host") (modified mods (Some host) ls) = [SP :: host].
Proof.
  intros Hm Hls. unfold modified, appended. rewrite !values_app.
  assert (values (bs "host") match mods with Some m => appended_set mods (Some host) ls m ++ map hdr_line (mods_add m) | None => [] end = []) as ->.
  { destruct mods as [m|]; [|done]. apply values_host_none, Forall_app. split; apply Forall_forall; intros l Hl.
    - apply appended_set_elem in Hl as (h & Hin & ->). apply not_true_is_false. intros Hh. apply Hm. left. exists h.
      split; [set_solver|]. rewrite hosts_lower in Hh. by apply bool_decide_eq_true in Hh.
    - apply list_elem_of_fmap in Hl as (h & -> & Hin). apply not_true_is_false. intros Hh. apply Hm. left. exists h.
      split; [set_solver|]. rewrite hosts_lower in Hh. by apply bool_decide_eq_true in Hh. }
  rewrite app_nil_r.
  assert (Hother : forall l, hosts l = false -> values (bs "host") (new_lines mods (Some host) l) = []).
  { intros l Hl. destruct mods as [m|]; [by apply new_lines_other|]. unfold new_lines, rewritten_host. by rewrite Hl, hosts_value, Hl. }
  assert (Hothers : forall ls, Forall (fun l => hosts l = false) ls -> values (bs "host") (concat (map (new_lines mods (Some host)) ls)) = []).
  { induction 1 as [|l ls' Hl _ IH]; [done|]. cbn [map concat]. by rewrite values_app, Hother, IH. }
  destruct (lone_host_split ls Hls) as [Hnil|(x & l & y & -> & Hl & Hx & Hy)].
  - apply values_host_none in Hnil. rewrite Hothers by done.
    assert (existsb hosts ls = false) as ->.
    { apply not_true_is_false. intros (l & Hl & Hh)%existsb_exists. rewrite Forall_forall in Hnil.
      rewrite (Hnil l) in Hh; [done|by apply list_elem_of_In]. }
    done.
  - rewrite existsb_app. cbn [existsb]. rewrite Hl, orb_true_r. change (values (bs "host") []) with (@nil (list Z)). rewrite app_nil_r.
    rewrite map_app, concat_app, values_app, Hothers by done. cbn [map concat app]. rewrite values_app, (Hothers y Hy), app_nil_r.
    unfold new_lines, rewritten_host. rewrite Hl. done.
Qed.

End Hosts.

(** ** Request heads: the rewritten request *)

Definition modified_request (r : request) (path : option (list Z * option (list Z))) (mods : option HeaderModifications)
  (host : option (list Z)) : request :=
  {| rq_method := rq_method r;
     rq_target := match path with Some (p, vq) => rewritten_target (rq_target r) p vq | None => rq_target r end;
     rq_http10 := rq_http10 r;
     rq_lines := modified mods host (rq_lines r) |}.

Definition mods_fine (mods : option HeaderModifications) : Prop := match mods with Some m => mods_safe Request m | None => True end.

(** A Host value every reader takes for one host. *)
Definition host_safe (h : list Z) : Prop := split_host h = Some (length h) /\ h <> [] /\ Forall u8 h.

Definition host_fine (host : option (list Z)) : Prop := match host with Some h => host_safe h | None => True end.

(** A path and query fit for a target. *)
Definition path_fine (path : option (list Z * option (list Z))) : Prop :=
  match path with
  | Some (p, vq) => origin_path p /\
      match vq with Some q => Forall (fun x => is_ x TARGET = true) q /\ str_ok q | None => True end
  | None => True
  end.

Definition sound_line (l : line) : Prop := good_line l /\ u8_line l.

Section Rewriting.
Context `{MC : Memchr} `{AR : Arch}.

Lemma sound_plain l : sound_line l -> plain_line l.
Proof.
  intros [[Ht Hv] [Hu _]]. split; [done|]. split; [done|]. eapply Forall_impl; [exact Hv|]. intros b. apply value_in_line.
Qed.

Lemma host_line_sound h : host_safe h -> sound_line (host_line_of h).
Proof.
  intros (Hs & _ & Hu). apply value_line.
  - split; [done|]. by apply forallb_Forall.
  - by apply Forall_u8_literal.
  - constructor; [split; [red; lia|done]|]. apply Forall_and. split; [done|].
    eapply Forall_impl; [exact (authority_bytes _ _ Hu Hs)|]. by intros b [_ ?].
Qed.

Lemma modified_sound mods host ls : mods_fine mods -> host_fine host -> Forall sound_line ls -> Forall sound_line (modified mods host ls).
Proof.
  intros Hm Hh Hls.
  assert (Hset : forall m h, mods = Some m -> h ∈ mods_set m -> sound_line (hdr_line h)).
  { intros m h -> Hin. pose proof (safe_lines _ _ Hm) as Hs. rewrite Forall_forall in Hs. apply Hs. set_solver. }
  unfold modified, appended. apply Forall_app. split; [|apply Forall_app; split].
  - apply Forall_concat, Forall_fmap. eapply Forall_impl; [exact Hls|]. intros l Hl. cbn. unfold new_lines, rewritten_host.
    assert (Hrest : Forall sound_line match mods with Some m =>
      if existsb (fun r => eq_ignore_ascii_case r l.1) (mods_remove m) then []
      else match find_set l.1 0 (mods_set m) with Some (_, h) => [hdr_line h] | None => [l] end | None => [l] end).
    { destruct mods as [m|]; [|by constructor]. destruct (existsb _ (mods_remove m)); [constructor|].
      destruct (find_set l.1 0 (mods_set m)) as [[i h]|] eqn:E; [|by constructor]. constructor; [|constructor].
      apply find_set_Some in E as (_ & Hi & _). by eapply Hset, list_elem_of_lookup_2. }
    destruct host as [h|]; [|done]. destruct (hosts l); [|done]. constructor; [by apply host_line_sound|constructor].
  - destruct host as [h|]; [|constructor]. destruct (existsb hosts ls); [constructor|]. constructor; [by apply host_line_sound|constructor].
  - destruct mods as [m|]; [|constructor]. apply Forall_app. split.
    + apply Forall_forall. intros l Hl. apply appended_set_elem in Hl as (h & Hin & ->). by eapply Hset.
    + pose proof (safe_lines _ _ Hm) as Hs. apply Forall_app in Hs as [_ Ha]. by apply Forall_fmap.
Qed.

Lemma rewrite_renders r path mods host : good_request r -> Forall u8 (render r) ->
  rewrite_request_head (render r) path mods host = render (modified_request r path mods host).
Proof.
  intros Hg Hu. pose proof Hu as Hu0. rewrite <- (app_nil_r (render r)) in Hu0. destruct (render_u8 r [] Hu0) as [_ Hl].
  assert (Hls : Forall plain_line (rq_lines r)).
  { destruct Hg as (_ & _ & _ & Hgl). eapply Forall_impl; [exact (proj2 (Forall_and _ _) (conj Hgl Hl))|]. apply sound_plain. }
  unfold rewrite_request_head, render. rewrite render_request_text, <- !app_assoc.
  rewrite split_first_line_crlf by (by apply request_text_whole). rewrite apply_mods_lines by done.
  rewrite render_request_text, <- !app_assoc. do 2 f_equal.
  destruct path as [[p vq]|]; [by rewrite put_request_line_value|done].
Qed.

Lemma target_byte x : is_ x TARGET || (x =? 92) = true -> x <> 32.
Proof. intros H ->. by vm_compute in H. Qed.

Lemma good_target_bytes t : good_target t -> Forall (fun x => is_ x TARGET || (x =? 92) = true) t.
Proof.
  intros (_ & a & b & -> & Ha & Hb & _). apply Forall_app. split; [|done]. eapply Forall_impl; [exact Ha|]. by intros x ->.
Qed.

Lemma rewritten_target_good t p vq : good_target t -> utf8_valid t = true -> Forall u8 t -> path_fine (Some (p, vq)) ->
  good_target (rewritten_target t p vq) /\ utf8_valid (rewritten_target t p vq) = true /\ Forall u8 (rewritten_target t p vq) /\
  head (rewritten_target t p vq) = Some 47.
Proof.
  intros Ht Hv Hu [Hp Hq]. pose proof Hp as (Hh & Hpt & Hn & Hpv & Hpu).
  assert (Hhead : head (rewritten_target t p vq) = Some 47) by (unfold rewritten_target; by destruct p). destruct vq as [q|].
  2: { split; [by apply new_target_good|]. split; [by apply new_target_utf8|]. split; [|done].
       apply Forall_app. split; [done|by apply Forall_drop]. }
  destruct Hq as (Hqt & Hqu & Hqv).
  assert (Hor : forall l, Forall (fun x => is_ x TARGET = true) l -> Forall (fun x => is_ x TARGET || (x =? 92) = true) l).
  { intros l Hl. eapply Forall_impl; [exact Hl|]. by intros x ->. }
  assert (Hglue : Forall u8 (query_glue q) /\ utf8_valid (query_glue q) = true /\ Forall (fun x => is_ x TARGET || (x =? 92) = true) (query_glue q)).
  { unfold query_glue. destruct (_ || _); [done|]. split; [by apply Forall_u8_literal|]. split; [done|]. constructor; [done|constructor]. }
  destruct Hglue as (G1 & G2 & G3).
  set (tl := if (query_at t + 1 <? length t)%nat then query_glue q ++ drop (S (query_at t)) t else []).
  assert (Htl : Forall u8 tl /\ utf8_valid tl = true /\ Forall (fun x => is_ x TARGET || (x =? 92) = true) tl).
  { unfold tl. destruct (query_at t + 1 <? length t)%nat; [|done]. split; [apply Forall_app; split; [done|by apply Forall_drop]|].
    split; [|apply Forall_app; split; [done|by apply Forall_drop, good_target_bytes]].
    rewrite utf8_valid_app by done. destruct (query_split t) as (Hs & _ & [Hd|[k Hd]]).
    - rewrite <- Nat.add_1_r, <- drop_drop, Hd. done.
    - rewrite <- Nat.add_1_r, <- drop_drop, Hd. rewrite Hd in Hs. rewrite Hs in Hv. by apply utf8_valid_cut in Hv as (_ & _ & ?). }
  destruct Htl as (T1 & T2 & T3). unfold rewritten_target. fold tl. split; [|split; [|split; [|done]]].
  - split; [by destruct p|]. exists (p ++ [63]), (q ++ tl). split; [by rewrite <- app_assoc|]. split; [apply Forall_app; split; [done|by repeat constructor]|].
    split; [apply Forall_app; split; [by apply Hor|done]|]. intros _. apply elem_of_app. right. by apply list_elem_of_singleton.
  - rewrite utf8_valid_app by done. cbn [utf8_valid]. change (63 <? 128) with true. cbv iota. by rewrite utf8_valid_app.
  - apply Forall_app. split; [done|]. constructor; [red; lia|]. by apply Forall_app.
Qed.

(** What a rewrite leaves of a request, the Host aside. *)
Record carried (r r' : request) : Prop := {
  carried_good : good_request r';
  carried_u8 : Forall u8 (render r');
  carried_method : rq_method r' = rq_method r;
  carried_version : rq_http10 r' = rq_http10 r;
  carried_target : target_violation r' = false /\ target_host r' = None;
  carried_framing : forall nm, nm ∈ [bs "content-length"; bs "transfer-encoding"; bs "connection"] -> values nm (rq_lines r') = values nm (rq_lines r);
  carried_host : lone_host (rq_lines r');
}.

Lemma mods_framing mods nm : mods_fine mods -> nm ∈ [bs "content-length"; bs "transfer-encoding"; bs "connection"] -> ~ mods_touch mods nm.
Proof.
  intros Hm Hnm. destruct mods as [m|]; [|by intros []]. apply (safe_framing _ _ Hm).
  rewrite !elem_of_cons in Hnm. destruct Hnm as [->|[->|[->|[]%elem_of_nil]]];
    (apply (bool_decide_unpack (_ ∈ framing_names Request)); vm_compute; exact I).
Qed.

(** The Host after a rewrite. *)
Definition new_host (mods : option HeaderModifications) (host : option (list Z)) (ls : list line) : list (list Z) :=
  match host, mods with
  | Some h, _ => [SP :: h]
  | None, Some m => match sets_hosts (mods_set m) with [] => values (bs "host") ls | h :: _ => [SP :: header_value h] end
  | None, None => values (bs "host") ls
  end.

Lemma modified_hosts mods host ls : mods_fine mods -> (is_some host = true -> ~ mods_touch mods (bs "host")) -> lone_host ls ->
  values (bs "host") (modified mods host ls) = new_host mods host ls.
Proof.
  intros Hm Hh Hls. destruct host as [h|]; [apply rewritten_hosts; [by apply Hh|done]|].
  destruct mods as [m|]; [by apply modified_host|]. apply values_untouched; [by intros []|done].
Qed.

Lemma rewrite_carries r path mods host : good_request r -> Forall u8 (render r) -> target_violation r = false -> target_host r = None ->
  lone_host (rq_lines r) -> mods_fine mods -> host_fine host -> (is_some host = true -> ~ mods_touch mods (bs "host")) -> path_fine path ->
  carried r (modified_request r path mods host).
Proof.
  intros Hg Hu Hv Ht Hl Hm Hh Hmh Hp. pose proof Hu as Hu0. rewrite <- (app_nil_r (render r)) in Hu0.
  destruct (render_u8 r [] Hu0) as [Htu Hlu]. pose proof Hg as (Hmt & Htg & Hutf & Hgl).
  pose proof (modified_sound mods host (rq_lines r) Hm Hh (proj2 (Forall_and _ _) (conj Hgl Hlu))) as Hls. apply Forall_and in Hls as [L1 L2].
  assert (Hmu : Forall u8 (rq_method r)).
  { unfold render, render_request_line in Hu. apply Forall_app in Hu as [Hu _]. by apply Forall_app in Hu as [? _]. }
  assert (Htgt : let t := rq_target (modified_request r path mods host) in good_target t /\ utf8_valid t = true /\ Forall u8 t /\
    target_violation (modified_request r path mods host) = false /\ target_host (modified_request r path mods host) = None).
  { cbv zeta. cbn [modified_request rq_target]. destruct path as [[p vq]|]; [|done].
    destruct (rewritten_target_good (rq_target r) p vq Htg Hutf Htu Hp) as (H1 & H2 & H3 & H4). split_and!; try done.
    all: unfold target_violation, target_host, modified_request; cbn [rq_method rq_target]; unfold read_target;
      rewrite (not_connect r Hv); destruct (rewritten_target (rq_target r) p vq) as [|c k]; [done|]; by injection H4 as ->. }
  cbv zeta in Htgt. destruct Htgt as (H1 & H2 & H3 & H4 & H5). split; try done.
  - by apply render_is_u8.
  - intros nm Hnm. cbn [modified_request rq_lines]. apply values_untouched; [by apply mods_framing|].
    intros _ ->. rewrite !elem_of_cons in Hnm. by destruct Hnm as [?|[?|[?|[]%elem_of_nil]]].
  - unfold lone_host. cbn [modified_request rq_lines]. rewrite modified_hosts by done. unfold new_host, lone_host in *.
    destruct host; [cbn; lia|]. destruct mods as [m|]; [|done]. destruct (sets_hosts (mods_set m)); [done|cbn; lia].
Qed.

Lemma carried_trans r r' r'' : carried r r' -> carried r' r'' -> carried r r''.
Proof.
  intros [A1 A2 A3 A4 A5 A6 A7] [B1 B2 B3 B4 B5 B6 B7]. split; try done; try congruence. intros nm Hnm. by rewrite B6, A6.
Qed.

End Rewriting.

(** ** Safe filters *)

Definition table_mods (add set : list HttpHeader) (remove : list (list Z)) : HeaderModifications :=
  {| mods_add := add; mods_set := set; mods_remove := remove |}.

Definition path_value_safe (v : PathValue) : Prop := exists value, v = PathValue_from value /\ str_ok value /\ check_path value = Ok tt.

Definition path_safe (p : option URLRewritePath) : Prop :=
  match p with
  | None => True
  | Some (ReplaceFullPath v) => path_value_safe v
  | Some (ReplacePrefixMatch v) => v = PathValue_from [] \/ path_value_safe v
  end.

Definition filter_safe (f : HttpFilter) : Prop :=
  match f with
  | RequestHeaderModifier add set remove => mods_safe Request (table_mods add set remove)
  | ResponseHeaderModifier add set remove => mods_safe Response (table_mods add set remove)
  | RequestRedirect _ hostname _ path _ => host_fine hostname /\ path_safe path
  | URLRewrite hostname path => host_fine hostname /\ path_safe path
  | RequestMirror _ _ => True
  end.

Definition t_rewrites_host (f : HttpFilter) : bool := match f with URLRewrite (Some _) _ => true | _ => false end.
Definition t_sets_host (f : HttpFilter) : bool :=
  match f with RequestHeaderModifier _ set _ => existsb (fun h => is_host (header_name h)) set | _ => false end.

Record rule_safe {RE : RegexEngine} (rule : HttpRouteRule) : Prop := {
  rule_filters_safe : Forall filter_safe (filters rule);
  rule_one_host : existsb t_rewrites_host (filters rule) && existsb t_sets_host (filters rule) = false;
  rule_backends_safe : Forall (fun b => Forall filter_safe (backend_filters b)) (backends rule);
  rule_path_text : utf8_valid (rule_path rule) = true;
}.

(** The Host values a filter list sets are such values. *)
Definition hosts_readable (fs : list HttpFilter) : Prop :=
  forall add set remove h, RequestHeaderModifier add set remove ∈ fs -> h ∈ sets_hosts set ->
    exists n, split_host (trim_ows (header_value h)) = Some n /\ take n (trim_ows (header_value h)) <> [].

Section Safe.
Context {RE : RegexEngine} `{MC : Memchr} `{AR : Arch}.

Lemma extract_mods_elem fs m : extract_header_mods fs false = Some m -> RequestHeaderModifier (mods_add m) (mods_set m) (mods_remove m) ∈ fs.
Proof.
  induction fs as [|f fs IH]; cbn [extract_header_mods]; [done|]. destruct f; try (intros H; apply elem_of_cons; right; by apply IH).
  intros [= <-]. apply elem_of_cons. by left.
Qed.

Lemma extract_mods_fine fs : Forall filter_safe fs -> mods_fine (extract_header_mods fs false).
Proof.
  intros Hs. destruct (extract_header_mods fs false) as [m|] eqn:E; [|done]. apply extract_mods_elem in E.
  rewrite Forall_forall in Hs. specialize (Hs _ E). by destruct m.
Qed.

Lemma extract_rewrite_elem fs rp path rw : extract_url_rewrite fs rp path = Some rw -> exists hostname p, URLRewrite hostname p ∈ fs /\
  rw_hostname rw = hostname /\ rw_to rw = option_map (fun p => match p with
                | ReplaceFullPath v => {| rw_path := pv_path v; rw_query := pv_query v |}
                | ReplacePrefixMatch v => {| rw_path := join_prefix_path (pv_path v) (prefix_remainder rp path); rw_query := pv_query v |}
                end) p.
Proof.
  induction fs as [|f fs IH]; cbn [extract_url_rewrite]; [done|]. 
  destruct f; try (intros H; destruct (IH H) as (? & ? & ? & ?); eexists _, _; split; [apply elem_of_cons; by right|done]).
  intros [= <-]. eexists _, _. split; [apply elem_of_cons; by left|done].
Qed.

(** *** Paths *)

Definition path_bytes (p : list Z) : Prop := Forall (fun x => is_ x TARGET = true) p /\ (63 ∉ p) /\ str_ok p.

Lemma path_bytes_nil : path_bytes [].
Proof. split; [constructor|]. split; [apply not_elem_of_nil|]. by split; [constructor|]. Qed.

Lemma origin_path_bytes p : origin_path p <-> head p = Some 47 /\ path_bytes p.
Proof. unfold origin_path, path_bytes, str_ok. tauto. Qed.

Lemma path_bytes_app a b : path_bytes a -> path_bytes b -> path_bytes (a ++ b).
Proof.
  intros (A1 & A2 & A3 & A4) (B1 & B2 & B3 & B4). split; [by apply Forall_app|]. split; [rewrite elem_of_app; tauto|].
  split; [by apply Forall_app|]. by rewrite utf8_valid_app.
Qed.

Lemma path_bytes_slash : path_bytes [47].
Proof. split; [by repeat constructor|]. split; [set_solver|]. split; [by apply Forall_u8_literal|done]. Qed.

Lemma path_value_fine value : str_ok value -> check_path value = Ok tt ->
  origin_path (pv_path (PathValue_from value)) /\
  match pv_query (PathValue_from value) with Some q => Forall (fun x => is_ x TARGET = true) q /\ str_ok q | None => True end.
Proof.
  intros [Hu Hv] Hc. unfold check_path in Hc. destruct (starts_with [47] value) eqn:Es; [|done]. cbn [negb] in Hc.
  destruct (position _ 0 value) as [[i b]|] eqn:Ep; [done|]. apply position_none in Ep.
  assert (Ht : Forall (fun x => is_ x TARGET = true) value) by (eapply Forall_impl; [exact Ep|]; intros x Hx; by apply negb_false_iff in Hx).
  apply starts_with_spec in Es as [r ->]. unfold PathValue_from, split_once.
  destruct (find_byte 63 ([47] ++ r)) as [i|] eqn:E; cbn [pv_path pv_query].
  - apply find_byte_Some in E as [Hi Hn]. pose proof (drop_lookup_cons _ _ _ Hi) as Hd. set (v := [47] ++ r) in *.
    assert (Hsplit : v = take i v ++ 63 :: drop (S i) v) by (by rewrite <- Hd, take_drop).
    pose proof Hv as Hv'. rewrite Hsplit in Hv'. apply utf8_valid_cut in Hv' as (V1 & _ & V2); [|lia]. split.
    + destruct i as [|i]; [by unfold v in Hi|]. split; [done|]. split; [by apply Forall_take|]. split; [|split; [done|by apply Forall_take]].
      intros Hin. rewrite Forall_forall in Hn. by apply (Hn 63).
    + split; [by apply Forall_drop|]. split; [by apply Forall_drop|done].
  - split; [|done]. apply find_byte_None_iff in E. done.
Qed.

Lemma join_prefix_fine prefix suffix : (prefix = [] \/ origin_path prefix) -> path_bytes suffix ->
  origin_path (join_prefix_path prefix suffix).
Proof.
  intros Hp Hs. unfold join_prefix_path.
  set (cut := ends_with [47] prefix && starts_with [47] suffix).
  set (p' := if cut then take (length prefix - 1) prefix else prefix).
  assert (Hp' : path_bytes p' /\ (p' = [] \/ head p' = Some 47) /\ (p' = [] -> prefix = [] \/ starts_with [47] suffix = true)).
  { assert (Hb : path_bytes prefix) by (destruct Hp as [->|Hp]; [apply path_bytes_nil|by apply origin_path_bytes in Hp as [_ ?]]).
    unfold p', cut. destruct (ends_with [47] prefix) eqn:Ee; cbn [andb].
    2: { split; [done|]. split; [destruct Hp as [->|Hp]; [by left|right; apply Hp]|by left]. }
    destruct (starts_with [47] suffix) eqn:Es.
    2: { split; [done|]. split; [destruct Hp as [->|Hp]; [by left|right; apply Hp]|by left]. }
    apply ends_with_spec in Ee as [q ->]. rewrite length_app, Nat.add_sub, take_app_length.
    destruct Hb as (B1 & B2 & B3 & B4). apply Forall_app in B1 as [B1 _]. apply Forall_app in B3 as [B3 _].
    change (q ++ [47]) with (q ++ 47 :: []) in B4. apply utf8_valid_cut in B4 as (B4 & _ & _); [|lia].
    split; [split; [done|]; split; [set_solver|done]|]. split; [|by right].
    destruct q as [|c q]; [by left|]. right. destruct Hp as [Hp|(Hh & _)]; [by destruct q|done]. }
  destruct Hp' as (Hb & Hh & Hn). clearbody p'.
  set (slash := if negb (ends_with [47] p') && negb (starts_with [47] suffix) && negb (is_nil suffix) then [47] else []).
  assert (Hsl : path_bytes slash) by (unfold slash; match goal with |- path_bytes (if ?b then _ else _) => destruct b end; [apply path_bytes_slash|apply path_bytes_nil]).
  assert (Hall : path_bytes (p' ++ slash ++ suffix)) by (by repeat apply path_bytes_app).
  destruct (is_nil (p' ++ slash ++ suffix)) eqn:En; [apply origin_path_bytes; split; [done|apply path_bytes_slash]|].
  apply origin_path_bytes. split; [|done]. destruct Hh as [->|Hh]; [|by destruct p'].
  cbn [app]. unfold slash. cbn [app] in En. unfold slash in En. change (ends_with [47] []) with false. cbn [negb andb].
  change (ends_with [47] []) with false in En. cbn [negb andb] in En.
  destruct (starts_with [47] suffix) eqn:Es; cbn [negb andb app] in *.
  - apply starts_with_spec in Es as [k ->]. done.
  - destruct suffix; [done|]. done.
Qed.

Lemma remainder_bytes rp p : utf8_valid rp = true -> path_bytes p -> path_bytes (prefix_remainder rp p).
Proof.
  intros Hr (H1 & H2 & H3 & H4). unfold prefix_remainder. destruct (strip_prefix rp p) as [s|] eqn:E; [|apply path_bytes_nil].
  apply strip_prefix_Some in E as ->. cbn [default from_option id]. apply Forall_app in H1 as [_ H1]. apply Forall_app in H3 as [_ H3].
  rewrite utf8_valid_app in H4 by done. split; [done|]. split; [set_solver|done].
Qed.

(** The path and host of a safe URL rewrite. *)
Definition rewrite_path (url_rewrite : option Rewrite) : option (list Z * option (list Z)) :=
  match url_rewrite with Some r => option_map (fun p => (rw_path p, rw_query p)) (rw_to r) | None => None end.
Definition rewrite_host (url_rewrite : option Rewrite) : option (list Z) :=
  match url_rewrite with Some r => rw_hostname r | None => None end.

Lemma extract_rewrite_fine fs rp path : Forall filter_safe fs -> utf8_valid rp = true -> path_bytes path ->
  path_fine (rewrite_path (extract_url_rewrite fs rp path)) /\ host_fine (rewrite_host (extract_url_rewrite fs rp path)).
Proof.
  intros Hs Hrp Hp. destruct (extract_url_rewrite fs rp path) as [rw|] eqn:E; [|done].
  apply extract_rewrite_elem in E as (hostname & p & Hin & Hh & Ht). rewrite Forall_forall in Hs. destruct (Hs _ Hin) as [H1 H2].
  cbn [rewrite_path rewrite_host]. rewrite Ht, Hh. split; [|done]. destruct p as [[v|v]|]; cbn [option_map path_fine rw_path rw_query]; [| |done].
  - destruct H2 as (value & -> & Hv & Hc). by apply path_value_fine.
  - assert (Hrem := remainder_bytes rp path Hrp Hp). destruct H2 as [->|(value & -> & Hv & Hc)].
    + split; [|done]. apply join_prefix_fine; [by left|done].
    + destruct (path_value_fine value Hv Hc) as [O Q]. split; [|done]. apply join_prefix_fine; [by right|done].
Qed.

(** A rule that rewrites the Host sets none. *)
Lemma one_host fs rp path : existsb t_rewrites_host fs && existsb t_sets_host fs = false -> Forall filter_safe fs ->
  is_some (rewrite_host (extract_url_rewrite fs rp path)) = true -> ~ mods_touch (extract_header_mods fs false) (bs "host").
Proof.
  intros Hone Hs Hh. destruct (extract_url_rewrite fs rp path) as [rw|] eqn:E; [|done].
  apply extract_rewrite_elem in E as (hostname & p & Hin & Hhn & _). cbn [rewrite_host] in Hh. rewrite Hhn in Hh. destruct hostname as [h|]; [|done].
  assert (existsb t_rewrites_host fs = true) as Hr by (apply existsb_exists; eexists; split; [by apply list_elem_of_In|done]).
  rewrite Hr in Hone. cbn [andb] in Hone. pose proof (extract_mods_fine fs Hs) as Hm. destruct (extract_header_mods fs false) as [m|] eqn:Em; [|by intros []].
  apply extract_mods_elem in Em. destruct (safe_host _ _ Hm eq_refl) as (_ & Ha & Hrm). cbn [mods_touch].
  assert (Hset : Forall (fun h => is_host (header_name h) = false) (mods_set m)).
  { apply Forall_forall. intros x Hx. apply not_true_is_false. intros Hxh. rewrite (proj2 (existsb_exists t_sets_host fs)) in Hone; [done|].
    eexists. split; [by apply list_elem_of_In, Em|]. cbn [t_sets_host]. apply existsb_exists. exists x. split; [by apply list_elem_of_In|done]. }
  intros [(x & Hx & Ex)|(x & Hx & Ex)].
  - rewrite Forall_forall in Hset, Ha. assert (is_host (header_name x) = false) as Hf by (apply elem_of_app in Hx as [?|?]; [by apply Hset|by apply Ha]).
    rewrite is_host_lower, Ex in Hf. done.
  - rewrite Forall_forall in Hrm. specialize (Hrm x Hx). cbv beta in Hrm. rewrite is_host_lower, Ex in Hrm. done.
Qed.

End Safe.

(** ** A filtered head has one reading *)

Section Filtered.
Context {RE : RegexEngine} `{MC : Memchr} `{AR : Arch}.

Definition host_ok (r : request) : Prop :=
  match values (bs "host") (rq_lines r) with
  | [] => rq_http10 r = true
  | [v] => exists h, split_host (trim_ows v) = Some h /\ (take h (trim_ows v) = [] -> rq_http10 r = true)
  | _ => False
  end.

Lemma unambiguous_host_ok r : unambiguous r -> host_ok r.
Proof.
  intros Hun. pose proof (un_host r Hun) as U. unfold host_ok. destruct (values (bs "host") (rq_lines r)) as [|v [|? ?]]; [done| |done].
  destruct U as (h & H1 & H2 & _). by exists h.
Qed.

Lemma carried_unambiguous r r' : unambiguous r -> carried r r' -> host_ok r' -> unambiguous r'.
Proof.
  intros Hun [_ _ Hm Hv [Ht1 Ht2] Hf _] Hh. split.
  - done.
  - unfold host_ok in Hh. destruct (values (bs "host") (rq_lines r')) as [|v [|? ?]]; [done| |done].
    destruct Hh as (h & H1 & H2). exists h. split; [done|]. split; [done|]. rewrite Ht2. done.
  - rewrite !Hf by set_solver. rewrite Hv. apply Hun.
  - rewrite Hf by set_solver. apply Hun.
Qed.

Lemma host_ok_lone r : host_ok r -> lone_host (rq_lines r).
Proof. unfold host_ok, lone_host. destruct (values (bs "host") (rq_lines r)) as [|v [|? ?]]; [cbn; lia|cbn; lia|done]. Qed.

Lemma carried_refl r : good_request r -> Forall u8 (render r) -> unambiguous r -> target_host r = None -> carried r r.
Proof. intros Hg Hu Hun Ht. split; try done; [split; [apply Hun|done]|]. by apply host_ok_lone, unambiguous_host_ok. Qed.

Lemma host_safe_value h : host_safe h -> trim_ows (SP :: h) = h.
Proof.
  intros (Hs & _ & Hu). rewrite trim_ows_sp. apply trim_ows_id. eapply Forall_impl; [exact (authority_bytes _ _ Hu Hs)|]. by intros b [? _].
Qed.

(** The Host of a rewritten head is one host, if the Host values the filters
    set are. *)
Lemma rewrite_host_ok r path mods host : mods_fine mods -> host_fine host -> (is_some host = true -> ~ mods_touch mods (bs "host")) ->
  host_ok r -> (forall m h, mods = Some m -> h ∈ sets_hosts (mods_set m) ->
    exists n, split_host (trim_ows (header_value h)) = Some n /\ take n (trim_ows (header_value h)) <> []) ->
  host_ok (modified_request r path mods host).
Proof.
  intros Hm Hh Hmh Hok Hread. unfold host_ok. cbn [modified_request rq_lines rq_http10].
  rewrite modified_hosts by (done || by apply host_ok_lone). unfold new_host. destruct host as [h|].
  - exists (length h). rewrite host_safe_value by done. destruct Hh as (Hs & Hne & _). split; [done|]. by rewrite take_ge.
  - destruct mods as [m|]; [|exact Hok]. destruct (sets_hosts (mods_set m)) as [|x l] eqn:Es; [exact Hok|].
    destruct (Hread m x eq_refl ltac:(rewrite Es; apply elem_of_cons; by left)) as (n & Hn1 & Hn2). exists n. rewrite trim_ows_sp. done.
Qed.

(** The two passes of [build_outgoing_headers] over a rendered request. *)
Definition filtered (rule : HttpRouteRule) (b : Backend) (path : list Z) (r : request) : request :=
  let rule_mods := extract_header_mods (filters rule) false in
  let url_rewrite := extract_url_rewrite (filters rule) (rule_path rule) path in
  let backend_mods := extract_header_mods (backend_filters b) false in
  if has_filters rule && (is_some rule_mods || is_some url_rewrite || is_some backend_mods) then
    let r1 := modified_request r (rewrite_path url_rewrite) rule_mods (rewrite_host url_rewrite) in
    match backend_mods with Some _ => modified_request r1 None backend_mods None | None => r1 end
  else r.

Lemma filtered_carries rule b path r : rule_safe rule -> b ∈ backends rule -> path_bytes path ->
  good_request r -> Forall u8 (render r) -> unambiguous r -> target_host r = None ->
  carried r (filtered rule b path r) /\
  (hosts_readable (filters rule) -> hosts_readable (backend_filters b) -> host_ok (filtered rule b path r)).
Proof.
  intros Hsafe Hb Hp Hg Hu Hun Ht. pose proof (rule_filters_safe _ Hsafe) as Hfs. pose proof (rule_backends_safe _ Hsafe) as Hbs.
  rewrite Forall_forall in Hbs. specialize (Hbs b Hb). cbv beta in Hbs. unfold filtered. cbv zeta.
  destruct (has_filters rule && _); [|split; [by apply carried_refl|intros _ _; by apply unambiguous_host_ok]].
  pose proof (extract_mods_fine _ Hfs) as Hm1. pose proof (extract_mods_fine _ Hbs) as Hm2.
  destruct (extract_rewrite_fine (filters rule) (rule_path rule) path Hfs (rule_path_text _ Hsafe) Hp) as [Hpf Hhf].
  pose proof (one_host (filters rule) (rule_path rule) path (rule_one_host _ Hsafe) Hfs) as Hoh.
  set (rw := extract_url_rewrite (filters rule) (rule_path rule) path) in *.
  set (r1 := modified_request r (rewrite_path rw) (extract_header_mods (filters rule) false) (rewrite_host rw)).
  assert (H1 : carried r r1) by (apply rewrite_carries; try done; [apply Hun|by apply host_ok_lone, unambiguous_host_ok]).
  assert (O1 : hosts_readable (filters rule) -> host_ok r1).
  { intros Hr. apply rewrite_host_ok; try done; [by apply unambiguous_host_ok|]. intros m h Hm Hin. apply extract_mods_elem in Hm. by eapply Hr. }
  destruct (extract_header_mods (backend_filters b) false) as [m2|] eqn:E2; [|split; [done|by intros ? _; apply O1]].
  pose proof H1 as [A1 A2 A3 A4 [A5 A5'] A6 A7]. split.
  - eapply carried_trans; [exact H1|]. by apply rewrite_carries.
  - intros Hr1 Hr2. apply rewrite_host_ok; try done; [by apply O1|]. intros m h [= <-] Hin. apply extract_mods_elem in E2. by eapply Hr2.
Qed.

Lemma filtered_renders rule b path r : good_request r -> Forall u8 (render r) -> rule_safe rule -> b ∈ backends rule -> path_bytes path ->
  unambiguous r -> target_host r = None ->
  (if has_filters rule then
    let rule_mods := extract_header_mods (filters rule) false in
    let url_rewrite := extract_url_rewrite (filters rule) (rule_path rule) path in
    let backend_mods := extract_header_mods (backend_filters b) false in
    if is_some rule_mods || is_some url_rewrite || is_some backend_mods then
      let scratch := apply_request_header_modifications (render r) rule_mods url_rewrite in
      match backend_mods with
      | Some bm => apply_request_header_modifications scratch (Some bm) None
      | None => scratch
      end
    else render r
  else render r) = render (filtered rule b path r).
Proof.
  intros Hg Hu Hsafe Hb Hp Hun Ht. pose proof (rule_filters_safe _ Hsafe) as Hfs. unfold filtered. cbv zeta. destruct (has_filters rule); [|done]. cbn [andb].
  destruct (_ || _); [|done]. unfold apply_request_header_modifications at 2 3.
  change (match extract_url_rewrite (filters rule) (rule_path rule) path with Some r0 => option_map _ (rw_to r0) | None => None end)
    with (rewrite_path (extract_url_rewrite (filters rule) (rule_path rule) path)).
  change (match extract_url_rewrite (filters rule) (rule_path rule) path with Some r0 => rw_hostname r0 | None => None end)
    with (rewrite_host (extract_url_rewrite (filters rule) (rule_path rule) path)).
  rewrite rewrite_renders by done. destruct (extract_header_mods (backend_filters b) false) as [m2|]; [|done].
  unfold apply_request_header_modifications.
  destruct (extract_rewrite_fine (filters rule) (rule_path rule) path Hfs (rule_path_text _ Hsafe) Hp) as [Hpf Hhf].
  pose proof (one_host (filters rule) (rule_path rule) path (rule_one_host _ Hsafe) Hfs) as Hoh.
  assert (H1 := rewrite_carries r (rewrite_path (extract_url_rewrite (filters rule) (rule_path rule) path)) (extract_header_mods (filters rule) false)
    (rewrite_host (extract_url_rewrite (filters rule) (rule_path rule) path)) Hg Hu (un_target _ Hun) Ht
    ltac:(by apply host_ok_lone, unambiguous_host_ok) (extract_mods_fine _ Hfs) Hhf Hoh Hpf).
  by apply rewrite_renders; [apply (carried_good _ _ H1)|apply (carried_u8 _ _ H1)].
Qed.

Lemma parsed_path_bytes data info npath : Forall u8 data -> extract_routing_info data = Ok info -> header_violation info = false ->
  normalize_path (HttpParser.path info) = Some npath -> path_bytes (cow_str npath).
Proof.
  intros Hu Hi Hv Hn. destruct (extract_accepts data info Hu Hi Hv) as (r & rest & -> & Hg & Hun).
  destruct (extract_reading r rest Hg Hun Hu) as (info' & Hi' & _ & _ & _ & _ & _ & _ & _ & Hpq & _).
  assert (info' = info) as -> by congruence. destruct (render_u8 r rest Hu) as [Htu _].
  pose proof (un_target r Hun) as Hviol. unfold target_violation in Hviol.
  destruct (read_target (rq_method r) (rq_target r)) as [[[viol th] p] off] eqn:Hrt. cbn [fst snd] in *. subst viol.
  destruct (parsed_path r th p off Hg Htu Hrt) as [_ [Ho|(_ & -> & _)]].
  - rewrite <- Hpq in Ho. cbn [fst] in Ho. by apply (normalized_origin_path _ npath) in Ho as [_ ?]%origin_path_bytes.
  - assert (HttpParser.path info = bs "*") as E by (by injection Hpq as -> _). rewrite E in Hn. vm_compute in Hn. injection Hn as <-.
    cbn [cow_str]. split; [by repeat constructor|]. split; [set_solver|]. split; [by apply Forall_u8_literal|done].
Qed.

(** What a safe rule's filters make of a forwarded request. *)
Lemma outgoing_request routes st data reads is_tls port b rule meta st' ip :
  Forall u8 data -> Z.of_nat (length data) < 2 ^ 32 -> ip_ok ip -> rule_safe rule ->
  analyze_http_request routes st data reads is_tls port = (HttpForward b rule meta, st') ->
  exists r rest r', data = render r ++ rest /\ good_request r /\ unambiguous r /\
    build_outgoing_headers data (meta_head_len meta) rule b meta ip is_tls = render r' /\
    good_request r' /\ Forall u8 (render r') /\ rq_method r' = rq_method r /\ rq_http10 r' = rq_http10 r /\ lone_host (rq_lines r') /\
    (forall nm, nm ∈ [bs "content-length"; bs "transfer-encoding"] -> values nm (rq_lines r') = values nm (rq_lines r)) /\
    meta_content_length meta = routed_length r /\ meta_is_chunked meta = negb (is_nil (values (bs "transfer-encoding") (rq_lines r))) /\
    (hosts_readable (filters rule) -> hosts_readable (backend_filters b) -> unambiguous r').
Proof.
  intros Hu Hlen Hip Hsafe H. apply forward_inv in H
    as (info & npath & i & Hi & Hv & Hn & _ & _ & Hb & _ & Hspan & Hnp & Hhl & Hcl & Hch & Hup & Hss & Hus & _).
  pose proof (parsed_path_bytes data info npath Hu Hi Hv Hn) as Hpb.
  destruct (extract_accepts data info Hu Hi Hv) as (r & rest & -> & Hg & Hun).
  destruct (extract_reading r rest Hg Hun Hu) as (info0 & Hi0 & _ & Hm & _ & _ & Hl & Hc & Hc2 & Hpq & Hat).
  assert (info0 = info) as -> by congruence. clear Hi0.
  assert (Hlr : Z.of_nat (length (render r)) < 4294967296).
  { change (2 ^ 32) with 4294967296 in Hlen. rewrite length_app in Hlen. lia. }
  destruct (forward_head_sends r rest info npath meta ip is_tls Hg Hun Hu Hlr Hip Hi Hn Hspan Hnp Hup Hss Hus)
    as (path & stays & origin & Hf & Ho & Hp & Hnone & _ & Hsend).
  pose proof Hu as [Hur _]%Forall_app. set (r0 := sent r path stays (is_upgrade info) origin ip is_tls) in *.
  destruct (sent_good r path stays (is_upgrade info) origin ip is_tls Hg Hur Hip Ho Hp) as [Hg0 Hu0]. fold r0 in Hg0, Hu0.
  pose proof (sent_unambiguous r path stays (is_upgrade info) origin ip is_tls Hg Hun Hur Hlr Hf Ho Hp) as Hun0. fold r0 in Hun0.
  destruct (sent_target r path stays (is_upgrade info) origin ip is_tls (un_target r Hun) Hp) as [_ Ht0]. fold r0 in Ht0.
  assert (Hth : target_host r0 = None) by (rewrite Ht0; destruct path; [done|by apply Hnone]).
  assert (Hraw : RequestMeta_path meta (render r) = cow_str npath).
  { destruct (extract_reading r [] Hg Hun) as (info1 & Hi1 & Hv1 & _ & _ & _ & _ & _ & _ & Hpq1 & Hat1); [by rewrite app_nil_r|].
    rewrite app_nil_r in Hi1. assert (HttpParser.path info1 = HttpParser.path info) as E by congruence.
    apply (meta_path (render r) info1 npath meta Hur); [|done|done|by rewrite E| |done].
    - change (2 ^ 32) with 4294967296. done.
    - by rewrite E, Hat1, <- Hat. }
  destruct (filtered_carries rule b (cow_str npath) r0 Hsafe (list_elem_of_lookup_2 _ _ _ Hb) Hpb Hg0 Hu0 Hun0 Hth) as [Hcar Hhost].
  exists r, rest, (filtered rule b (cow_str npath) r0). split; [done|]. split; [done|]. split; [done|]. split.
  { unfold build_outgoing_headers. rewrite Hhl, Hl, take_app_length, Hsend, Hraw. apply filtered_renders; try done. by eapply list_elem_of_lookup_2. }
  pose proof Hcar as [C1 C2 C3 C4 C5 C6 C7]. split_and!; try done.
  - intros nm Hnm. rewrite C6 by set_solver. unfold r0. by apply sent_framing.
  - by rewrite Hcl.
  - by rewrite Hch.
  - intros H1 H2. eapply carried_unambiguous; [exact Hun0|exact Hcar|]. by apply Hhost.
Qed.

(** The same, as the next reader of the head sees it. *)
Lemma filtered_reads_back routes st data reads is_tls port b rule meta st' ip
  (Hu : Forall u8 data) (Hlen : Z.of_nat (length data) < 2 ^ 32) (Hip : ip_ok ip) (Hsafe : rule_safe rule)
  (H : analyze_http_request routes st data reads is_tls port = (HttpForward b rule meta, st')) :
  let out := build_outgoing_headers data (meta_head_len meta) rule b meta ip is_tls in
  exists r rest r', data = render r ++ rest /\ good_request r /\ unambiguous r /\ out = render r' /\ good_request r' /\
    find_header_end (out ++ rest) = Some (length out) /\ rq_method r' = rq_method r /\
    values (bs "content-length") (rq_lines r') = values (bs "content-length") (rq_lines r) /\
    values (bs "transfer-encoding") (rq_lines r') = values (bs "transfer-encoding") (rq_lines r) /\
    (length (values (bs "host") (rq_lines r')) <= 1)%nat /\
    (hosts_readable (filters rule) -> hosts_readable (backend_filters b) ->
     exists info, extract_routing_info out = Ok info /\ header_violation info = false /\ head_len info = length out /\
       content_length info = meta_content_length meta /\ is_chunked info = meta_is_chunked meta).
Proof.
  destruct (outgoing_request routes st data reads is_tls port b rule meta st' ip Hu Hlen Hip Hsafe H)
    as (r & rest & r' & Hd & Hg & Hun & Hout & Hg' & Hu' & Hm & _ & Hl & Hf & Hcl & Hch & Hrd).
  cbv zeta. rewrite Hout. exists r, rest, r'. split_and!; try done; [by apply find_header_end_render|apply Hf; set_solver|apply Hf; set_solver|].
  intros H1 H2. destruct (extract_reading r' [] Hg' (Hrd H1 H2)) as (info & Hi & Hv & _ & _ & _ & Hhl & Hc & Hc2 & _); [by rewrite app_nil_r|].
  rewrite app_nil_r in Hi. exists info. split_and!; try done.
  - rewrite Hc, Hcl. unfold routed_length. by rewrite Hf by set_solver.
  - rewrite Hc2, Hch. by rewrite Hf by set_solver.
Qed.

End Filtered.

(** ** Witness *)

#[local] Instance witness_arch : Arch := Little.

Definition response_modifier : HeaderModifierConfig :=
  {| cfg_add := [{| header_name := bs "X-Trace"; header_value := bs "1" |}];
     cfg_set := [{| header_name := bs "Server"; header_value := bs "portail" |}];
     cfg_remove := [bs "X-Powered-By"] |}.

Lemma response_modifier_typed : modifier_typed response_modifier.
Proof. split; [|split]; repeat constructor; cbn; try reflexivity; lia. Qed.

Lemma modified_response_reads_back_witness :
  let sent := sanitize_response_headers (take 73 final_text) (framing_length final_read) (Some final_cuts) true in
  let out := apply_response_header_mods sent (mods_of response_modifier) in
  out <> sent /\ find_header_end (out ++ bs "1234567") = Some (length out) /\ parse_response_head out = parse_response_head sent.
Proof.
  split; [vm_compute; congruence|].
  apply (modified_response_reads_back response_modifier final_text 73 final_read (Some final_cuts) true (bs "1234567")
    response_modifier_typed eq_refl (proj1 final_u8)); [vm_compute; reflexivity|exact final_scan].
Defined.
