(* ===== verification/AcceptedFilters.v ===== *)
(** * Accepted filters

    No code here: the filters [compile_rule] lets through are the safe ones
    of [FilterSafety.v], for every configuration whose strings are strings.
    The rules a table build makes of a compiled rule are therefore safe. *)

From S2P Require Import Prelude Bytes Net HttpGrammar Routing RouteBuild Health Selection PathNorm HttpParser HttpFilters Method.
From S2P Require Import RequestProcessor Outgoing Reread IpText Config FilterSafety.

(** ** Accepted filters are safe *)

(** The strings of a configuration. *)
Definition path_typed (p : option HttpURLRewritePath) : Prop :=
  match p with Some (CfgReplaceFullPath v) | Some (CfgReplacePrefixMatch v) => str_ok v | None => True end.

Definition host_typed (h : option (list Z)) : Prop := match h with Some h => str_ok h | None => True end.

Definition filter_typed (f : HttpRouteFilter) : Prop :=
  match f with
  | FRequestHeaderModifier c | FResponseHeaderModifier c => modifier_typed c
  | FRequestRedirect c => host_typed (rd_hostname c) /\ path_typed (rd_path c)
  | FURLRewrite c => host_typed (ur_hostname c) /\ path_typed (ur_path c)
  | FRequestMirror _ _ _ => True
  end.

Definition compiled_safe (cf : CompiledFilter) : Prop := match cf with Ready f => filter_safe f | Mirror _ _ => True end.

Section Accepted.

Lemma dns_name_bytes h : Forall u8 h -> is_dns_name h = true -> Forall (fun b => is_ b HOST = true) h /\ h <> [].
Proof.
  unfold is_dns_name. intros Hu [_ H]%andb_true_iff. apply forallb_Forall in H. split; [|by intros ->; apply Forall_cons in H as [? _]].
  apply Forall_forall. intros b Hb. destruct (split_on_covers 46 h b Hb) as [->|(p & Hp & Hbp)]; [done|].
  rewrite Forall_forall in H. specialize (H p Hp). unfold dns_label in H. rewrite !andb_true_iff in H. destruct H as [[[_ H] _] _].
  apply forallb_Forall in H. rewrite Forall_forall in H. apply H in Hbp. cbv beta in Hbp.
  rewrite Forall_forall in Hu. specialize (Hu b Hb).
  assert (Hall : implb (is_ascii_alphanumeric b || (b =? 45)) (is_ b HOST) = true)
    by (apply (byte_forall (fun b => implb (is_ascii_alphanumeric b || (b =? 45)) (is_ b HOST))); [vm_compute; reflexivity|done]).
  by rewrite Hbp in Hall.
Qed.

(** What [check_hostname] accepts, every reader of a Host takes whole. *)
Lemma check_hostname_ok h : Forall u8 h -> check_hostname h = Ok tt -> host_safe h.
Proof.
  intros Hu. unfold check_hostname. destruct (strip_prefix [91] h) as [rest|] eqn:Ep.
  - apply strip_prefix_Some in Ep as ->. destruct (strip_suffix [93] rest) as [v6|] eqn:Es; [|done].
    destruct (parse_ipv6 v6) as [a|] eqn:Ea; [|done]. intros _. apply parse_ipv6_bytes in Ea as [Hb Hne].
    assert (rest = v6 ++ [93]) as ->.
    { unfold strip_suffix in Es. destruct (ends_with [93] rest) eqn:Ee; [|done]. apply ends_with_spec in Ee as [k ->].
      injection Es as <-. by rewrite length_app, Nat.add_sub, take_app_length. }
    split; [|done]. rewrite <- (app_nil_r ([91] ++ v6 ++ [93])) at 1. apply split_host_complete; [|by left]. right. exists v6.
    split; [done|]. split; [done|]. eapply Forall_impl; [exact Hb|]. intros b Hbyte. unfold is_ip_byte.
    destruct Hbyte as [->|[->| ->]]; [done|by rewrite orb_true_r|by rewrite !orb_true_r].
  - destruct (is_dns_name h) eqn:Ed; [|done]. intros _. apply (dns_name_bytes h Hu) in Ed as [Hb Hne]. split; [|done].
    rewrite <- (app_nil_r h) at 1. apply split_host_complete; [by left|by left].
Qed.

Lemma check_destination_ok hostname path : host_typed hostname -> path_typed path -> check_destination hostname path = Ok tt ->
  host_fine hostname /\ path_safe (option_map URLRewritePath_from path).
Proof.
  intros Hh Hp. unfold check_destination. rewrite and_then_ok. intros ([] & H1 & H2). split.
  - destruct hostname as [h|]; [|done]. by apply check_hostname_ok; [apply Hh|].
  - destruct path as [[v|v]|]; cbn [option_map URLRewritePath_from path_safe]; [by exists v| |done].
    destruct v as [|b v]; [by left|]. right. by exists (b :: v).
Qed.

Lemma check_filter_ok f cf : filter_typed f -> check_filter f = Ok tt -> table_filter f = Ok cf -> compiled_safe cf.
Proof.
  intros Ht Hc. destruct f as [c|c|c|c|b p fr]; cbn [filter_typed check_filter table_filter] in *.
  - intros [= <-]. by apply check_modifier_ok.
  - intros [= <-]. by apply check_modifier_ok.
  - rewrite and_then_ok in Hc. destruct Hc as ([] & _ & Hc). intros [= <-]. cbn [compiled_safe filter_safe].
    by apply check_destination_ok; [apply Ht..|].
  - intros [= <-]. cbn [compiled_safe filter_safe]. by apply check_destination_ok; [apply Ht..|].
  - rewrite and_then_ok. by intros (x & _ & [= <-]).
Qed.

Lemma compile_filter_ok f cf : filter_typed f -> compile_filter f = Ok cf -> compiled_safe cf.
Proof.
  intros Ht. unfold compile_filter. rewrite and_then_ok. intros ([] & _ & H). rewrite and_then_ok in H. destruct H as ([] & Hc & H).
  rewrite map_err_ok in Hc. by eapply check_filter_ok.
Qed.

Lemma compile_backend_filter_ok f g : filter_typed f -> compile_backend_filter f = Ok g -> filter_safe g.
Proof.
  intros Ht H. assert (exists cf, check_filter f = Ok tt /\ table_filter f = Ok cf /\ cf = Ready g) as (cf & Hc & Hf & ->).
  { destruct f as [c|c|c|c|b p fr]; cbn [compile_backend_filter] in H; try done.
    all: rewrite and_then_ok in H; destruct H as ([] & Hc & H); rewrite map_err_ok in Hc; rewrite and_then_ok in H; destruct H as (cf & Hf & H);
      destruct cf; [injection H as ->|done]; by eexists. }
  by apply (check_filter_ok f (Ready g)).
Qed.

(** What a fallible map collected. *)
Lemma try_imap_ok {A B} place (f : A -> result B RouteError) i l bs : try_imap place f i l = Ok bs <-> Forall2 (fun a b => f a = Ok b) l bs.
Proof.
  revert i bs. induction l as [|a l IH]; intros i bs; cbn [try_imap].
  - split; [intros [= <-]; constructor|intros H; by inversion H].
  - rewrite and_then_ok. split.
    + intros (b & Hb & H). rewrite map_err_ok in Hb. rewrite and_then_ok in H. destruct H as (bs' & Hbs & [= <-]).
      constructor; [done|]. by apply IH in Hbs.
    + intros H. inversion H as [|? b ? bs' Hb Hbs]; subst. exists b. rewrite map_err_ok. split; [done|]. rewrite and_then_ok.
      exists bs'. split; [by apply IH|done].
Qed.

Lemma Forall2_typed {A B} (P : A -> Prop) (Q : B -> Prop) (f : A -> result B RouteError) l bs :
  (forall a b, P a -> f a = Ok b -> Q b) -> Forall P l -> Forall2 (fun a b => f a = Ok b) l bs -> Forall Q bs.
Proof.
  intros Hf Hl H. induction H as [|a b l bs Hab _ IH]; [constructor|]. apply Forall_cons in Hl as [Ha Hl]. constructor; [by eapply Hf|by apply IH].
Qed.

End Accepted.

(** ** Compiled rules *)

Section CompiledRules.
Context {RE : RegexEngine} {RS : RegexSyntax}.

Definition match_typed (m : HttpRouteMatch) : Prop := match m_path m with Some p => str_ok (pm_value p) | None => True end.

Definition backend_typed (b : BackendRef) : Prop := Forall filter_typed (br_filters b).

Definition cfg_rule_typed (r : CfgRule) : Prop :=
  Forall match_typed (c_matches r) /\ Forall filter_typed (c_filters r) /\ Forall backend_typed (backend_refs r).

Lemma trim_end_utf8 c s : c < 128 -> utf8_valid s = true -> utf8_valid (trim_end_matches c s) = true.
Proof.
  intros Hc Hv. unfold trim_end_matches. set (n := span_len (fun b => b =? c) (reverse s)).
  destruct (decide (n = 0%nat)) as [->|Hn]; [by rewrite Nat.sub_0_r, take_ge|].
  pose proof (span_len_le (fun b => b =? c) (reverse s)) as Hle. fold n in Hle. rewrite length_reverse in Hle.
  assert (Hc' : s !! (length s - n)%nat = Some c).
  { pose proof (span_len_take (fun b => b =? c) (reverse s)) as Ht. fold n in Ht. rewrite Forall_lookup in Ht.
    destruct (lookup_lt_is_Some_2 s (length s - n)) as [x Hx]; [lia|]. rewrite Hx. f_equal.
    specialize (Ht (n - 1)%nat x). rewrite lookup_take_lt, reverse_lookup in Ht by lia.
    replace (length s - S (n - 1))%nat with (length s - n)%nat in Ht by lia. apply Ht in Hx. by apply Z.eqb_eq in Hx. }
  pose proof (drop_lookup_cons _ _ _ Hc') as Hd. rewrite <- (take_drop (length s - n) s), Hd in Hv.
  by apply utf8_valid_cut in Hv as (? & _ & _).
Qed.

Lemma compile_path_utf8 p t path re : match p with Some p => str_ok (pm_value p) | None => True end ->
  compile_path p = Ok (t, path, re) -> utf8_valid path = true.
Proof.
  intros Hp. unfold compile_path. destruct p as [p|]; [|by intros [= _ <- _]]. destruct Hp as [_ Hv].
  assert (Htrim : utf8_valid match trim_end_matches 47 (pm_value p) with [] => [47] | trimmed => trimmed end = true).
  { pose proof (trim_end_utf8 47 (pm_value p) ltac:(lia) Hv) as Ht. by destruct (trim_end_matches 47 (pm_value p)). }
  destruct (pm_type p).
  - destruct (negb _); [done|]. intros [= _ <- _]. exact Htrim.
  - destruct (negb _); [done|]. by intros [= _ <- _].
  - rewrite and_then_ok. by intros (x & _ & [= _ <- _]).
Qed.

Lemma compile_match_utf8 m cm : match_typed m -> compile_match m = Ok cm -> utf8_valid (cm_path cm) = true.
Proof.
  intros Hm. unfold compile_match. destruct (match m_method m with Some _ => _ | None => _ end); [done|].
  rewrite and_then_ok. intros ([[t path] re] & Hp & H). rewrite and_then_ok in H. destruct H as (hs & _ & H).
  rewrite and_then_ok in H. destruct H as (qs & _ & [= <-]). by eapply compile_path_utf8.
Qed.

(** The filters a rule goes live with: what is ready, and mirrors. *)
Definition live_filter (cfs : list CompiledFilter) (f : HttpFilter) : Prop :=
  Ready f ∈ cfs \/ exists a fr, f = RequestMirror a fr.

(** What makes every rule of a compiled rule safe. *)
Record compiled_rule_safe (cr : CompiledRule) : Prop := {
  cr_ready : Forall compiled_safe (cr_filters cr);
  cr_one_host : forall fs, Forall (live_filter (cr_filters cr)) fs -> existsb t_rewrites_host fs && existsb t_sets_host fs = false;
  cr_backends : Forall (Forall filter_safe) (cr_backend_filters cr);
  cr_paths : Forall (fun cm => utf8_valid (cm_path cm) = true) (cr_matches cr);
}.

Lemma table_filter_hosts f g : table_filter f = Ok (Ready g) -> t_rewrites_host g = rewrites_host f /\ t_sets_host g = sets_host f.
Proof.
  destruct f as [c|c|c|c|b p fr]; cbn [table_filter]; [intros [= <-]..|rewrite and_then_ok; by intros (? & _ & ?)].
  all: done.
Qed.

Lemma live_hosts cfgs cfs fs (p : HttpFilter -> bool) (q : HttpRouteFilter -> bool) :
  Forall2 (fun a b => compile_filter a = Ok b) cfgs cfs -> Forall (live_filter cfs) fs ->
  (forall f g, table_filter f = Ok (Ready g) -> p g = q f) -> (forall a fr, p (RequestMirror a fr) = false) ->
  existsb p fs = true -> existsb q cfgs = true.
Proof.
  intros Hc Hl Hpq Hm (f & Hf & Hp)%existsb_exists. rewrite Forall_forall in Hl. destruct (Hl f (proj2 (list_elem_of_In _ _) Hf)) as [Hr|(a & fr & ->)].
  2: { by rewrite Hm in Hp. }
  apply list_elem_of_lookup in Hr as [i Hi]. destruct (Forall2_lookup_r _ _ _ _ _ Hc Hi) as (g & Hg & E).
  unfold compile_filter in E. rewrite and_then_ok in E. destruct E as ([] & _ & E). rewrite and_then_ok in E. destruct E as ([] & _ & E).
  apply existsb_exists. exists g. split; [by eapply list_elem_of_In, list_elem_of_lookup_2|]. by rewrite <- (Hpq _ _ E).
Qed.

Lemma compile_rule_ok rule cr : cfg_rule_typed rule -> compile_rule rule = Ok cr -> compiled_rule_safe cr.
Proof.
  intros (Tm & Tf & Tb). unfold compile_rule. rewrite and_then_ok. intros ([] & Hcomb & H). rewrite and_then_ok in H. destruct H as ([] & _ & H).
  cbv zeta in H. rewrite and_then_ok in H. destruct H as (bfs & Hb & H). rewrite and_then_ok in H. destruct H as (ms & Hm & H).
  rewrite and_then_ok in H. destruct H as (fs & Hf & [= <-]). apply try_imap_ok in Hb. apply try_imap_ok in Hm. apply try_imap_ok in Hf.
  split; cbn [cr_filters cr_backend_filters cr_matches].
  - eapply Forall2_typed; [|exact Tf|exact Hf]. intros a b. apply compile_filter_ok.
  - intros live Hl. apply not_true_is_false. intros [H1 H2]%andb_true_iff.
    eapply (live_hosts _ _ _ t_rewrites_host rewrites_host) in H1; [|done..|intros f g E; by apply table_filter_hosts in E as [? _]|done].
    eapply (live_hosts _ _ _ t_sets_host sets_host) in H2; [|done..|intros f g E; by apply table_filter_hosts in E as [_ ?]|done].
    unfold check_filter_combination in Hcomb. rewrite and_then_ok in Hcomb. destruct Hcomb as ([] & _ & Hcomb).
    destruct (_ && _); [done|]. rewrite map_err_ok in Hcomb. unfold check_rule_filters in Hcomb. by rewrite H1, H2 in Hcomb.
  - assert (T : Forall backend_typed (if redirects rule then [] else backend_refs rule)) by (destruct (redirects rule); [constructor|done]).
    eapply (Forall2_typed backend_typed); [|exact T|exact Hb]. intros b bf Hbt E. unfold compile_backend_filters in E.
    rewrite and_then_ok in E. destruct E as ([] & _ & E). apply try_imap_ok in E. eapply Forall2_typed; [|exact Hbt|exact E].
    intros a g. apply compile_backend_filter_ok.
  - assert (T : Forall match_typed (if is_nil (c_matches rule) then [HttpRouteMatch_path_prefix [47]] else c_matches rule)).
    { destruct (is_nil (c_matches rule)); [|done]. constructor; [|constructor]. split; [by apply Forall_u8_literal|done]. }
    eapply Forall2_typed; [|exact T|exact Hm]. intros a b. apply compile_match_utf8.
Qed.

(** A rule made of a compiled one is safe. *)
Lemma to_rule_safe cr cell m fs bks ts : compiled_rule_safe cr -> m ∈ cr_matches cr -> Forall (live_filter (cr_filters cr)) fs ->
  Forall (fun b => backend_filters b = [] \/ backend_filters b ∈ cr_backend_filters cr) bks -> rule_safe (to_rule cell m fs bks ts).
Proof.
  intros Hcr Hm Hfs Hbs. split; cbn [to_rule filters backends rule_path HttpRouteRule_new with_method].
  - eapply Forall_impl; [exact Hfs|]. intros f [Hf|(a & fr & ->)]; [|done]. pose proof (cr_ready _ Hcr) as Hr.
    rewrite Forall_forall in Hr. by apply (Hr (Ready f)).
  - by apply (cr_one_host cr).
  - eapply Forall_impl; [exact Hbs|]. intros b [->|Hb]; [constructor|]. pose proof (cr_backends _ Hcr) as Hr.
    rewrite Forall_forall in Hr. by apply Hr.
  - pose proof (cr_paths _ Hcr) as Hr. rewrite Forall_forall in Hr. by apply Hr.
Qed.

End CompiledRules.
