(* ===== verification/ConfigTable.v ===== *)
(** * From a configuration to a route table

    [src/src/config/core.rs]: name resolution with one lookup per name and
    port, the backends and filters of compiled rules, the listeners and
    hostnames a route attaches to, and the table build under its two
    policies. The build is a computation over the resolver's memory, the
    counter cells it allocates and the process's rate limiters, which either
    returns or fails. The lookup is an arbitrary function of the call's
    number: it may answer the same question differently each time. *)

From S2P Require Import Prelude Bytes Net RateLimit HttpGrammar Routing RouteLookup RouteBuild Config.

(** ** The build's state and effects *)

Inductive BuildPolicy := Strict | Lenient.

#[export] Instance BuildPolicy_eq_dec : EqDecision BuildPolicy.
Proof. solve_decision. Defined.

Record BuildState := {
  calls : nat;                                               (** lookups made so far *)
  seen : gmap (list Z * Z) (option (list SocketAddr));
  next_cell : loc;                                           (** cells from here on are free *)
  limiters : Registry;
}.

Inductive BuildError :=
  | RouteRejected (route_idx : nat) (e : RouteError)
  | Unresolved (name : list Z) (port : Z).

Definition Build (A : Type) : Type := BuildState -> result A BuildError * BuildState.

#[export] Instance Build_ret : MRet Build := fun A a s => (Ok a, s).
#[export] Instance Build_bind : MBind Build :=
  fun A B k m s => match m s with (Ok a, s') => k a s' | (Err e, s') => (Err e, s') end.

Definition throw {A} (e : BuildError) : Build A := fun s => (Err e, s).

(** A loop that collects, and one that carries a value. *)
Fixpoint collect {A B} (f : A -> Build (list B)) (l : list A) : Build (list B) :=
  match l with
  | [] => mret []
  | a :: t => x ← f a; y ← collect f t; mret (x ++ y)
  end.

Fixpoint each {A T} (f : T -> A -> Build T) (l : list A) (t : T) : Build T :=
  match l with
  | [] => mret t
  | a :: rest => t' ← f t a; each f rest t'
  end.

(** A new atomic counter. *)
Definition alloc : Build loc := fun s =>
  (Ok (next_cell s), {| calls := calls s; seen := seen s; next_cell := Pos.succ (next_cell s); limiters := limiters s |}).

(** [limiter_for]; the handle is its registry key. *)
Definition attach_limiter (l : ListenerConfig) (rl : RateLimitSpec) : Build (Z * list Z) := fun s =>
  (Ok (l_port l, l_name l),
   {| calls := calls s; seen := seen s; next_cell := next_cell s;
      limiters := limiter_for (limiters s) (l_port l) (l_name l) (requests_per_second rl) (effective_burst rl) |}).

(** ** Address order *)

Definition addr_compare (a b : SocketAddr) : comparison :=
  match a, b with
  | SocketV4 ip p, SocketV4 ip' p' => then_with (ip ?= ip') (p ?= p')
  | SocketV4 _ _, SocketV6 _ _ _ _ => Lt
  | SocketV6 _ _ _ _, SocketV4 _ _ => Gt
  | SocketV6 ip p f s, SocketV6 ip' p' f' s' => then_with (ip ?= ip') (then_with (p ?= p') (then_with (f ?= f') (s ?= s')))
  end.

(** [Ord::min] *)
Definition addr_min (a b : SocketAddr) : SocketAddr := match addr_compare a b with Gt => b | _ => a end.

Definition smallest (l : list SocketAddr) : option SocketAddr :=
  fold_left (fun acc a => Some match acc with Some s => addr_min s a | None => a end) l None.

(** ** Listeners and hostnames *)

Definition takes_http_routes (l : ListenerConfig) : bool := match l_protocol l with HTTP | HTTPS => true | _ => false end.

(** The candidates of one parentRef, those of names already matched left out. *)
Fixpoint match_listeners (matched candidates : list ListenerConfig) : list ListenerConfig :=
  match candidates with
  | [] => matched
  | l :: rest =>
      match_listeners (if existsb (fun m => beq (l_name m) (l_name l)) matched then matched else matched ++ [l]) rest
  end.

Definition find_listeners_for_route (parent_refs : list ParentRef) (gateway : GatewayConfig) : list ListenerConfig :=
  if is_nil parent_refs then []
  else fold_left (fun matched pr => match_listeners matched (List.filter (selects pr) (listeners gateway))) parent_refs [].

Definition hostname_matches (listener_hostname route_hostname : list Z) : bool :=
  hostnames_intersect (lowercase listener_hostname) (lowercase route_hostname).

(** The narrower of two hostnames that intersect. *)
Definition narrower (listener_hostname rh : list Z) : list Z :=
  let lh := lowercase listener_hostname in
  let rh_lower := lowercase rh in
  if starts_with WILD rh_lower && negb (starts_with WILD lh) then lh
  else if starts_with WILD lh && negb (starts_with WILD rh_lower) then rh_lower
  else if (length lh <=? length rh_lower)%nat then rh_lower else lh.

Definition intersect_hostnames (listener_hostname : option (list Z)) (route_hostnames : list (list Z)) : list (list Z) :=
  match listener_hostname with
  | None => route_hostnames
  | Some lh => map (narrower lh) (List.filter (hostname_matches lh) route_hostnames)
  end.

(** What a route's hostnames come to in one listener's scope; none, and the
    scope is skipped. *)
Definition effective_hostnames (listener_hostname : option (list Z)) (route_hostnames : list (list Z)) : list (list Z) :=
  if is_nil route_hostnames then [default [42] listener_hostname] else intersect_hostnames listener_hostname route_hostnames.

Section Table.
Context {RE : RegexEngine} {RS : RegexSyntax}.

(** The process's keyed hash of an address. *)
Context (keyed_hash : SocketAddr -> Z).

Context (policy : BuildPolicy) (lookup : nat -> list Z -> Z -> option (list SocketAddr)).

(** ** Resolution *)

Definition addrs (name : list Z) (port : Z) : Build (option (list SocketAddr)) := fun s =>
  match seen s !! (name, port) with
  | Some found => (Ok found, s)
  | None =>
      let made found := {| calls := S (calls s); seen := <[(name, port) := found]> (seen s);
                           next_cell := next_cell s; limiters := limiters s |} in
      match lookup (calls s) name port with
      | Some found => (Ok (Some found), made (Some found))
      | None =>
          if bool_decide (policy = Strict)
          then (Err (Unresolved name port),
                {| calls := S (calls s); seen := seen s; next_cell := next_cell s; limiters := limiters s |})
          else (Ok None, made None)
      end
  end.

(** [max_by_key]: the last of the greatest. *)
Definition one_target (l : list SocketAddr) : option SocketAddr :=
  fold_left (fun acc a => Some match acc with
                               | Some m => if keyed_hash a <? keyed_hash m then m else a
                               | None => a
                               end) l None.

(** The addresses a backend dials, each with the name it goes by. *)
Definition endpoints (cfg : PortailConfig) (name : list Z) (port : Z) : Build (list (SocketAddr * list Z)) :=
  match endpoint_overrides cfg !! (name, port) with
  | Some (t :: targets) =>
      collect (fun '(host, target_port) =>
        found ← addrs host target_port;
        mret (match found ≫= one_target with Some a => [(a, host)] | None => [] end)) (t :: targets)
  | _ =>
      let connect_port := default port (headless_target_ports cfg !! (name, port)) in
      found ← addrs name connect_port;
      mret (map (fun a => (a, name)) (default [] found))
  end.

Definition backend_at (addr : SocketAddr) (w : Z) (name : list Z) : Backend :=
  {| socket_addr := addr; weight := w; backend_filters := []; use_tls := false; server_name := name; action := Forward |}.

Definition ref_backends (cfg : PortailConfig) (br : BackendRef) : Build (list Backend) :=
  if br_invalid br then mret [rejecting (br_weight br)]
  else es ← endpoints cfg (br_name br) (br_port br);
       mret (map (fun '(a, name) => backend_at a (br_weight br) name) es).

(** [Resolver::backends] *)
Definition l4_route_backends (cfg : PortailConfig) (refs : list BackendRef) : Build (list Backend) := collect (ref_backends cfg) refs.

(** ** Rules *)

Definition wants_tls (cfg : PortailConfig) (br : BackendRef) : bool :=
  let app_protocol := match br_app_protocol br with
                      | Some p => Some p
                      | None => app_protocol_overrides cfg !! (br_name br, br_port br)
                      end in
  bool_decide (app_protocol = Some (bs "https")).

Definition http_ref_backends (cfg : PortailConfig) (ref : BackendRef * list HttpFilter) : Build (list Backend) :=
  let '(br, fs) := ref in
  if br_invalid br then mret [rejecting (br_weight br)]
  else es ← endpoints cfg (br_name br) (br_port br);
       mret (map (fun '(a, name) => {| socket_addr := a; weight := br_weight br; backend_filters := fs;
                                       use_tls := wants_tls cfg br; server_name := name; action := Forward |}) es).

Definition rule_backends (cfg : PortailConfig) (rule : CompiledRule) : Build (list Backend) :=
  if redirects (source rule) then mret []
  else collect (http_ref_backends cfg) (zip (backend_refs (source rule)) (cr_backend_filters rule)).

Definition rule_filter (cfg : PortailConfig) (f : CompiledFilter) : Build (list HttpFilter) :=
  match f with
  | Ready filter => mret [filter]
  | Mirror b fraction =>
      if br_invalid b then mret []
      else es ← endpoints cfg (br_name b) (br_port b);
           mret (match smallest es.*1 with Some a => [RequestMirror a fraction] | None => [] end)
  end.

Definition rule_filters (cfg : PortailConfig) (fs : list CompiledFilter) : Build (list HttpFilter) := collect (rule_filter cfg) fs.

(** The rules of one compiled rule, one per match. *)
Definition match_rules (cfg : PortailConfig) (rule : CompiledRule) : Build (list HttpRouteRule) :=
  bks ← rule_backends cfg rule;
  fs ← rule_filters cfg (cr_filters rule);
  collect (fun m => cell ← alloc; mret [to_rule cell m fs bks (timeouts (source rule))]) (cr_matches rule).

Definition route_rules (cfg : PortailConfig) (rules : list CompiledRule) : Build (list HttpRouteRule) := collect (match_rules cfg) rules.

(** ** HTTP routes *)

(** Port, listener hostname and limiter. *)
Definition Scope : Type := Z * option (list Z) * option (Z * list Z).

Definition listener_scope (l : ListenerConfig) : Build (list Scope) :=
  match l_rate_limit l with
  | Some rl => handle ← attach_limiter l rl; mret [(l_port l, l_hostname l, Some handle)]
  | None => mret [(l_port l, l_hostname l, None)]
  end.

Definition route_scopes (cfg : PortailConfig) (route : HttpRouteConfig) : Build (list Scope) :=
  if is_nil (h_parent_refs route) then mret [(0, None, None)]
  else collect listener_scope (List.filter takes_http_routes (find_listeners_for_route (h_parent_refs route) (gateway cfg))).

(** A rule as one insert carries it. *)
Definition for_insert (rule : HttpRouteRule) (cell : loc) (lim : option (Z * list Z)) (idx : Z) : HttpRouteRule :=
  {| method_match := method_match rule; path_match_type := path_match_type rule; rule_path := rule_path rule;
     path_regex := path_regex rule; header_matches := header_matches rule; query_param_matches := query_param_matches rule;
     filters := filters rule; backends := backends rule; request_timeout := request_timeout rule;
     backend_request_timeout := backend_request_timeout rule; has_filters := has_filters rule; total_weight := total_weight rule;
     cumulative_weights := cumulative_weights rule; counter := cell; requests := requests rule; limiter := lim; route_index := idx |}.

Definition push_rules (idx : nat) (port : Z) (lh : option (list Z)) (lim : option (Z * list Z)) (host : list Z) (rules : list HttpRouteRule)
  (t : RouteTable) : Build RouteTable :=
  each (fun t rule =>
    cell ← alloc;
    mret (push_http_route_for_listener t port lh host (for_insert rule cell lim (as_u32 (Z.of_nat idx))))) rules t.

Definition push_scope (route : HttpRouteConfig) (idx : nat) (rules : list HttpRouteRule) (t : RouteTable) (scope : Scope) : Build RouteTable :=
  let '(port, lh, lim) := scope in
  each (fun t host => push_rules idx port lh lim host rules t) (effective_hostnames lh (hostnames route)) t.

Definition convert_http_route (cfg : PortailConfig) (t : RouteTable) (ir : nat * HttpRouteConfig) : Build RouteTable :=
  let '(idx, route) := ir in
  match compile_http_route route with
  | Err e => if bool_decide (policy = Strict) then throw (RouteRejected idx e) else mret t
  | Ok compiled =>
      rules ← route_rules cfg compiled;
      scopes ← route_scopes cfg route;
      each (push_scope route idx rules) scopes t
  end.

(** ** TCP, UDP and TLS routes *)

Definition takes_l4 (is_udp : bool) (l : ListenerConfig) : bool :=
  if is_udp then bool_decide (l_protocol l = UDP) else match l_protocol l with TCP | TLS => true | _ => false end.

Definition convert_l4_route (cfg : PortailConfig) (is_udp : bool) (t : RouteTable) (route : TcpRouteConfig) : Build RouteTable :=
  match t_rules route with
  | [] => mret t
  | rule :: _ =>
      let ls := List.filter (takes_l4 is_udp) (find_listeners_for_route (t_parent_refs route) (gateway cfg)) in
      if is_nil ls then mret t
      else bks ← l4_route_backends cfg (l4_backend_refs rule);
           mret (fold_left (fun t l => (if is_udp then add_udp_route t (l_port l) bks else add_tcp_route t (l_port l) bks).1) ls t)
  end.

Definition convert_l4_routes (cfg : PortailConfig) (routes : list TcpRouteConfig) (is_udp : bool) (t : RouteTable) : Build RouteTable :=
  each (convert_l4_route cfg is_udp) routes t.

(** The order of [(u16, Option<&str>)]. *)
Fixpoint bytes_compare (a b : list Z) : comparison :=
  match a, b with
  | [], [] => Eq
  | [], _ => Lt
  | _, [] => Gt
  | x :: a, y :: b => then_with (x ?= y) (bytes_compare a b)
  end.

Definition scope_compare (a b : Z * option (list Z)) : comparison :=
  then_with (a.1 ?= b.1) match a.2, b.2 with
                         | None, None => Eq
                         | None, Some _ => Lt
                         | Some _, None => Gt
                         | Some x, Some y => bytes_compare x y
                         end.

Fixpoint insert_scope (x : Z * option (list Z)) (l : list (Z * option (list Z))) : list (Z * option (list Z)) :=
  match l with
  | [] => [x]
  | y :: t => match scope_compare x y with Gt => y :: insert_scope x t | _ => x :: y :: t end
  end.

(** [sort_unstable]: scopes that compare equal are equal. *)
Definition sort_scopes (l : list (Z * option (list Z))) : list (Z * option (list Z)) := foldr insert_scope [] l.

(** [Vec::dedup] *)
Fixpoint dedup_runs (l : list (Z * option (list Z))) : list (Z * option (list Z)) :=
  match l with
  | x :: ((y :: _) as t) => if bool_decide (x = y) then dedup_runs t else x :: dedup_runs t
  | l => l
  end.

Definition tls_route_scopes (cfg : PortailConfig) (route : TlsRouteConfig) : list (Z * option (list Z) * list (list Z)) :=
  let scopes := if is_nil (s_parent_refs route) then [(0, None)]
                else map (fun l => (l_port l, l_hostname l))
                       (List.filter is_tls_passthrough (find_listeners_for_route (s_parent_refs route) (gateway cfg))) in
  List.filter (fun s => negb (is_nil s.2))
    (map (fun '(port, lh) => (port, lh, effective_hostnames lh (s_hostnames route))) (dedup_runs (sort_scopes scopes))).

Definition convert_tls_route (cfg : PortailConfig) (t : RouteTable) (route : TlsRouteConfig) : Build RouteTable :=
  let scopes := tls_route_scopes cfg route in
  if is_nil scopes then mret t
  else each (fun t rule =>
         bks ← l4_route_backends cfg (l4_backend_refs rule);
         mret (fold_left (fun t '(port, lh, hosts) =>
                 fold_left (fun t host => (add_tls_route_for_listener t port lh host bks).1) hosts t) scopes t)) (s_rules route) t.

(** ** The build *)

Definition fresh_resolver : Build unit := fun s =>
  (Ok tt, {| calls := calls s; seen := ∅; next_cell := next_cell s; limiters := limiters s |}).

Definition fill_table (cfg : PortailConfig) : Build RouteTable :=
  t ← each (convert_http_route cfg) (imap pair (cfg_http_routes cfg)) RouteTable_new;
  let t := share_any_port_scopes_on (sort_http_routes t) (map l_port (List.filter takes_http_routes (listeners (gateway cfg)))) in
  t ← convert_l4_routes cfg (cfg_tcp_routes cfg) false t;
  t ← convert_l4_routes cfg (cfg_udp_routes cfg) true t;
  each (convert_tls_route cfg) (cfg_tls_routes cfg) t.

Definition build_route_table (cfg : PortailConfig) : Build RouteTable := _ ← fresh_resolver; fill_table cfg.

End Table.

Section Public.
Context {RE : RegexEngine} {RS : RegexSyntax} (keyed_hash : SocketAddr -> Z) (resolver : nat -> Resolver).

(** [resolve_socket_addrs], the system resolver asked anew at each call. *)
Definition system_lookup (call : nat) (name : list Z) (port : Z) : option (list SocketAddr) :=
  match resolve_socket_addrs (RS := resolver call) name port with Ok l => Some l | Err _ => None end.

Definition to_route_table_strict (cfg : PortailConfig) : Build RouteTable := build_route_table keyed_hash Strict system_lookup cfg.
Definition to_route_table (cfg : PortailConfig) : Build RouteTable := build_route_table keyed_hash Lenient system_lookup cfg.

End Public.

(** ** Reasoning about builds *)

Lemma bind_ok {A B} (m : Build A) (k : A -> Build B) s b s' :
  (m ≫= k) s = (Ok b, s') <-> exists a s1, m s = (Ok a, s1) /\ k a s1 = (Ok b, s').
Proof.
  unfold mbind, Build_bind. destruct (m s) as [[a|e] s1].
  - split; [intros H; by exists a, s1|by intros (? & ? & [= <- <-] & H)].
  - split; [done|by intros (? & ? & ? & _)].
Qed.

(** Whatever [m] returns satisfies [Q]. *)
Definition returns {A} (m : Build A) (Q : A -> Prop) : Prop := forall s a s', m s = (Ok a, s') -> Q a.

Lemma returns_ret {A} (a : A) (Q : A -> Prop) : Q a -> returns (mret a) Q.
Proof. by intros H s a' s' [= <- _]. Qed.

Lemma returns_bind {A B} (m : Build A) (k : A -> Build B) P Q : returns m P -> (forall a, P a -> returns (k a) Q) -> returns (m ≫= k) Q.
Proof. intros Hm Hk s b s' (a & s1 & H1 & H2)%bind_ok. eapply Hk; [by eapply Hm|exact H2]. Qed.

Lemma returns_any {A} (m : Build A) : returns m (fun _ => True).
Proof. done. Qed.

Lemma returns_weaken {A} (m : Build A) (P Q : A -> Prop) : (forall a, P a -> Q a) -> returns m P -> returns m Q.
Proof. intros H Hm s a s' E. by eapply H, Hm. Qed.

Lemma returns_collect {A B} (f : A -> Build (list B)) l (Q : B -> Prop) : (forall a, a ∈ l -> returns (f a) (Forall Q)) -> returns (collect f l) (Forall Q).
Proof.
  induction l as [|a l IH]; intros Hf; cbn [collect]; [by apply returns_ret|].
  apply (returns_bind _ _ (Forall Q)); [apply Hf; set_solver|]. intros x Hx.
  apply (returns_bind _ _ (Forall Q)); [apply IH; intros b Hb; apply Hf; set_solver|]. intros y Hy. by apply returns_ret, Forall_app.
Qed.

Lemma returns_each {A T} (f : T -> A -> Build T) l t (I : T -> Prop) :
  I t -> (forall t a, a ∈ l -> I t -> returns (f t a) I) -> returns (each f l t) I.
Proof.
  revert t. induction l as [|a l IH]; intros t Ht Hf; cbn [each]; [by apply returns_ret|].
  apply (returns_bind _ _ I); [apply Hf; [set_solver|done]|]. intros t' Ht'. apply IH; [done|]. intros. apply Hf; [set_solver|done].
Qed.

(** ** Two builds that agree

    [m2] follows [m1] when it returns what [m1] returns and ends where it
    ends, provided [R] holds of the end. *)

Section Follows.
Context (R : BuildState -> Prop) (mono : BuildState -> BuildState -> Prop).
Context (mono_pre : PreOrder mono) (R_mono : forall s s', mono s s' -> R s' -> R s).

Definition follows {A} (m1 m2 : Build A) : Prop :=
  forall s a s', m1 s = (Ok a, s') -> mono s s' /\ (R s' -> m2 s = (Ok a, s')).

Lemma follows_ret {A} (a : A) : follows (mret a) (mret a).
Proof. intros s a' s' H. injection H as <- <-. split; [reflexivity|done]. Qed.

Lemma follows_throw {A} e (m : Build A) : follows (throw e) m.
Proof. by intros s a s'. Qed.

Lemma follows_bind {A B} (m1 m2 : Build A) (k1 k2 : A -> Build B) :
  follows m1 m2 -> (forall a, follows (k1 a) (k2 a)) -> follows (m1 ≫= k1) (m2 ≫= k2).
Proof.
  intros Hm Hk s b s' (a & s1 & H1 & H2)%bind_ok. destruct (Hm _ _ _ H1) as [M1 E1]. destruct (Hk a _ _ _ H2) as [M2 E2].
  split; [by transitivity s1|]. intros HR. apply bind_ok. exists a, s1. split; [|by apply E2]. apply E1. by eapply R_mono.
Qed.

Lemma follows_collect {A B} (f1 f2 : A -> Build (list B)) l : (forall a, follows (f1 a) (f2 a)) -> follows (collect f1 l) (collect f2 l).
Proof.
  intros Hf. induction l as [|a l IH]; cbn [collect]; [apply follows_ret|]. apply follows_bind; [apply Hf|]. intros x.
  apply follows_bind; [exact IH|]. intros y. apply follows_ret.
Qed.

Lemma follows_each {A T} (f1 f2 : T -> A -> Build T) l t : (forall t a, follows (f1 t a) (f2 t a)) -> follows (each f1 l t) (each f2 l t).
Proof.
  intros Hf. revert t. induction l as [|a l IH]; intros t; cbn [each]; [apply follows_ret|]. apply follows_bind; [apply Hf|]. intros t'. apply IH.
Qed.

(** A step that leaves the resolver alone follows itself. *)
Lemma follows_self {A} (m : Build A) : (forall s a s', m s = (Ok a, s') -> mono s s') -> follows m m.
Proof. intros H s a s' E. split; [by eapply H|done]. Qed.

Context {RE : RegexEngine} {RS : RegexSyntax} (keyed_hash : SocketAddr -> Z).
Context (p1 p2 : BuildPolicy) (l1 l2 : nat -> list Z -> Z -> option (list SocketAddr)).
Context (Haddrs : forall name port, follows (addrs p1 l1 name port) (addrs p2 l2 name port)).
Context (Hpolicy : p1 = p2 \/ p1 = Strict).
Context (mono_seen : forall s s', seen s = seen s' -> calls s = calls s' -> (next_cell s <= next_cell s')%positive -> mono s s').

Lemma follows_alloc : follows alloc alloc.
Proof. apply follows_self. intros s a s' [= _ <-]. apply mono_seen; cbn [seen calls next_cell]; [done|done|lia]. Qed.

Lemma follows_listener_scope l : follows (listener_scope l) (listener_scope l).
Proof.
  unfold listener_scope. destruct (l_rate_limit l); [|apply follows_ret]. apply follows_bind; [|intros; apply follows_ret].
  apply follows_self. intros s a s' [= _ <-]. apply mono_seen; cbn [seen calls next_cell]; [done|done|lia].
Qed.

Lemma follows_endpoints cfg name port : follows (endpoints keyed_hash p1 l1 cfg name port) (endpoints keyed_hash p2 l2 cfg name port).
Proof.
  unfold endpoints. destruct (endpoint_overrides cfg !! (name, port)) as [[|t ts]|].
  all: try (apply follows_bind; [apply Haddrs|intros; apply follows_ret]).
  apply follows_collect. intros [host tp]. apply follows_bind; [apply Haddrs|intros; apply follows_ret].
Qed.

Ltac follow :=
  repeat first
    [ apply follows_ret | apply follows_alloc | apply follows_listener_scope | apply follows_endpoints
    | apply follows_bind; [|intros ?] | apply follows_collect; intros ? | apply follows_each; intros ? ?
    | match goal with |- follows (if ?b then _ else _) _ => destruct b end
    | match goal with |- follows (let '(_, _) := ?p in _) _ => destruct p end
    | match goal with |- follows (match ?p with pair _ _ => _ end) _ => destruct p end ].

Lemma follows_l4_backends cfg refs : follows (l4_route_backends keyed_hash p1 l1 cfg refs) (l4_route_backends keyed_hash p2 l2 cfg refs).
Proof. unfold l4_route_backends, ref_backends. follow. Qed.

Lemma follows_route_rules cfg crs : follows (route_rules keyed_hash p1 l1 cfg crs) (route_rules keyed_hash p2 l2 cfg crs).
Proof.
  unfold route_rules, match_rules, rule_backends, rule_filters, http_ref_backends, rule_filter.
  apply follows_collect. intros cr. apply follows_bind; [follow|intros bks]. apply follows_bind; [|intros fs; follow].
  apply follows_collect. intros [f|b fr]; follow.
Qed.

Lemma follows_convert_http cfg t ir : follows (convert_http_route keyed_hash p1 l1 cfg t ir) (convert_http_route keyed_hash p2 l2 cfg t ir).
Proof.
  destruct ir as [idx route]. unfold convert_http_route. destruct (compile_http_route route) as [crs|e].
  - apply follows_bind; [apply follows_route_rules|intros rules]. apply follows_bind; [unfold route_scopes; follow|intros scopes].
    unfold push_scope, push_rules. follow.
  - destruct Hpolicy as [->| ->].
    + case_bool_decide; [apply follows_throw|apply follows_ret].
    + rewrite bool_decide_eq_true_2 by done. apply follows_throw.
Qed.

Lemma follows_l4_tls cfg t :
  follows (t ← convert_l4_routes keyed_hash p1 l1 cfg (cfg_tcp_routes cfg) false t;
           t ← convert_l4_routes keyed_hash p1 l1 cfg (cfg_udp_routes cfg) true t;
           each (convert_tls_route keyed_hash p1 l1 cfg) (cfg_tls_routes cfg) t)
          (t ← convert_l4_routes keyed_hash p2 l2 cfg (cfg_tcp_routes cfg) false t;
           t ← convert_l4_routes keyed_hash p2 l2 cfg (cfg_udp_routes cfg) true t;
           each (convert_tls_route keyed_hash p2 l2 cfg) (cfg_tls_routes cfg) t).
Proof.
  assert (Hl4 : forall is_udp t route, follows (convert_l4_route keyed_hash p1 l1 cfg is_udp t route) (convert_l4_route keyed_hash p2 l2 cfg is_udp t route)).
  { intros u t' route. unfold convert_l4_route. destruct (t_rules route); [apply follows_ret|]. destruct (is_nil _); [apply follows_ret|].
    apply follows_bind; [apply follows_l4_backends|intros; apply follows_ret]. }
  unfold convert_l4_routes. apply follows_bind; [apply follows_each; intros; apply Hl4|intros t1].
  apply follows_bind; [apply follows_each; intros; apply Hl4|intros t2].
  apply follows_each. intros t' route. unfold convert_tls_route. destruct (is_nil _); [apply follows_ret|].
  apply follows_each. intros t3 rule. apply follows_bind; [apply follows_l4_backends|intros; apply follows_ret].
Qed.

Lemma follows_fill cfg : follows (fill_table keyed_hash p1 l1 cfg) (fill_table keyed_hash p2 l2 cfg).
Proof.
  unfold fill_table. apply follows_bind; [apply follows_each; intros; apply follows_convert_http|intros t]. apply follows_l4_tls.
Qed.

End Follows.

(** ** Policies *)

Section Policies.
Context {RE : RegexEngine} {RS : RegexSyntax} (keyed_hash : SocketAddr -> Z).
Context (lookup : nat -> list Z -> Z -> option (list SocketAddr)).

Lemma strict_fill_lenient cfg s t s' :
  fill_table keyed_hash Strict lookup cfg s = (Ok t, s') -> fill_table keyed_hash Lenient lookup cfg s = (Ok t, s').
Proof.
  intros H. assert (Hf : follows (fun _ => True) (fun _ _ => True) (fill_table keyed_hash Strict lookup cfg) (fill_table keyed_hash Lenient lookup cfg)).
  { apply follows_fill; [by split|done| |by right|done]. intros name port s0 a s1. unfold addrs. destruct (seen s0 !! (name, port)); [done|].
    destruct (lookup (calls s0) name port); [done|]. by rewrite bool_decide_eq_true_2. }
  by apply (Hf s t s').
Qed.

(** Every build returns under the lenient policy. *)
Definition total {A} (m : Build A) : Prop := forall s, exists a s', m s = (Ok a, s').

Lemma total_ret {A} (a : A) : total (mret a).
Proof. intros s. by exists a, s. Qed.

Lemma total_bind {A B} (m : Build A) (k : A -> Build B) : total m -> (forall a, total (k a)) -> total (m ≫= k).
Proof.
  intros Hm Hk s. destruct (Hm s) as (a & s1 & E1). destruct (Hk a s1) as (b & s2 & E2). exists b, s2. apply bind_ok. by exists a, s1.
Qed.

Lemma total_collect {A B} (f : A -> Build (list B)) l : (forall a, total (f a)) -> total (collect f l).
Proof. intros Hf. induction l; cbn [collect]; [apply total_ret|]. repeat (apply total_bind; [done|intros]). apply total_ret. Qed.

Lemma total_each {A T} (f : T -> A -> Build T) l t : (forall t a, total (f t a)) -> total (each f l t).
Proof. intros Hf. revert t. induction l as [|a l IH]; intros t; cbn [each]; [apply total_ret|]. by apply total_bind. Qed.

Lemma total_addrs name port : total (addrs Lenient lookup name port).
Proof.
  intros s. unfold addrs. destruct (seen s !! (name, port)); [by eexists _, _|]. destruct (lookup (calls s) name port); [by eexists _, _|].
  rewrite bool_decide_eq_false_2 by done. by eexists _, _.
Qed.

Lemma total_endpoints cfg name port : total (endpoints keyed_hash Lenient lookup cfg name port).
Proof.
  unfold endpoints. destruct (endpoint_overrides cfg !! (name, port)) as [[|t ts]|].
  all: try (apply total_bind; [apply total_addrs|intros; apply total_ret]).
  apply total_collect. intros [host tp]. apply total_bind; [apply total_addrs|intros; apply total_ret].
Qed.

Ltac totals :=
  repeat first
    [ apply total_ret | apply total_endpoints | apply total_bind; [|intros ?] | apply total_collect; intros ? | apply total_each; intros ? ?
    | match goal with |- total (if ?b then _ else _) => destruct b end
    | match goal with |- total (match ?p with _ => _ end) => destruct p end
    | intros ?; by eexists _, _ ].

Lemma total_fill cfg : total (fill_table keyed_hash Lenient lookup cfg).
Proof.
  assert (Hl4r : forall u t route, total (convert_l4_route keyed_hash Lenient lookup cfg u t route)).
  { intros. unfold convert_l4_route, l4_route_backends, ref_backends. totals. }
  unfold fill_table. apply total_bind.
  { apply total_each. intros t [idx route]. unfold convert_http_route. destruct (compile_http_route route); [|totals].
    apply total_bind; [|intros rules; apply total_bind; [|intros scopes]].
    - unfold route_rules, match_rules, rule_backends, rule_filters, http_ref_backends, rule_filter. totals.
    - unfold route_scopes, listener_scope. totals.
    - unfold push_scope, push_rules. totals. }
  intros t. cbv zeta. apply total_bind; [apply total_each; intros; apply Hl4r|intros t1].
  apply total_bind; [apply total_each; intros; apply Hl4r|intros t2].
  apply total_each. intros t3 route. unfold convert_tls_route, l4_route_backends, ref_backends. totals.
Qed.

End Policies.

(** ** What a build asks and how it fails *)

Section Lookups.
Context {RE : RegexEngine} {RS : RegexSyntax} (keyed_hash : SocketAddr -> Z).
Context (policy : BuildPolicy) (lookup : nat -> list Z -> Z -> option (list SocketAddr)).

(** An invariant of the resolver's memory. *)
Lemma fill_keeps (J : BuildState -> Prop) cfg s t s' :
  (forall s s', seen s = seen s' -> calls s = calls s' -> J s -> J s') ->
  (forall s name port found s', addrs policy lookup name port s = (Ok found, s') -> J s -> J s') ->
  fill_table keyed_hash policy lookup cfg s = (Ok t, s') -> J s -> J s'.
Proof.
  intros Hs Ha H. assert (Hf : follows (fun _ => True) (fun s s' => J s -> J s') (fill_table keyed_hash policy lookup cfg) (fill_table keyed_hash policy lookup cfg)).
  { apply follows_fill; [split; [by intros ? ?|by intros ? ? ? H1 H2 H3; apply H2, H1]|done| |by left|intros s0 s1 H1 H2 _; by apply Hs].
    intros name port s0 a s1 E. split; [by eapply Ha|done]. }
  by apply (Hf s t s').
Qed.

(** One lookup for each name and port remembered, made since [c0]. *)
Definition lookups_since (c0 : nat) (s : BuildState) : Prop :=
  calls s = (c0 + size (seen s))%nat /\
  forall name port found, seen s !! (name, port) = Some found -> exists call, (c0 <= call < calls s)%nat /\ lookup call name port = found.

Lemma addrs_lookups c0 s name port found s' : addrs policy lookup name port s = (Ok found, s') -> lookups_since c0 s -> lookups_since c0 s'.
Proof.
  unfold addrs. destruct (seen s !! (name, port)) as [f|] eqn:E; [by intros [= _ <-]|]. intros H [Hc Hl].
  assert (exists f, lookup (calls s) name port = f /\ s' = {| calls := S (calls s); seen := <[(name, port) := f]> (seen s);
    next_cell := next_cell s; limiters := limiters s |}) as (f & Hf & ->).
  { destruct (lookup (calls s) name port) as [l|]; [injection H as _ <-; by eexists|]. case_bool_decide; [done|]. injection H as _ <-. by eexists. }
  split; cbn [calls seen].
  - rewrite map_size_insert_None by done. lia.
  - intros n p f' [[[= -> ->] ->]|[_ Hn]]%lookup_insert_Some; [exists (calls s); split; [lia|done]|].
    destruct (Hl _ _ _ Hn) as (c & ? & ?). exists c. split; [lia|done].
Qed.

(** The same build with answers that do not change. *)
Lemma fill_memo cfg s t s' (answers : list Z -> Z -> option (list SocketAddr)) :
  fill_table keyed_hash policy lookup cfg s = (Ok t, s') ->
  map_Forall (fun k found => answers k.1 k.2 = found) (seen s') ->
  fill_table keyed_hash policy (fun _ => answers) cfg s = (Ok t, s').
Proof.
  intros H. assert (Hf : follows (fun s => map_Forall (fun k found => answers k.1 k.2 = found) (seen s)) (fun s s' => seen s ⊆ seen s')
    (fill_table keyed_hash policy lookup cfg) (fill_table keyed_hash policy (fun _ => answers) cfg)).
  { apply follows_fill; [split; [by intros ?|by intros ? ? ? ? ?; etrans]| | |by left|by intros s0 s1 -> _ _].
    - intros s0 s1 Hsub HR k v Hk. apply HR. by eapply lookup_weaken.
    - intros name port s0 a s1. unfold addrs. destruct (seen s0 !! (name, port)) as [f|] eqn:E; [by intros [= <- <-]|].
      destruct (lookup (calls s0) name port) as [l|].
      + intros [= <- <-]. split; [by apply insert_subseteq|]. intros HR. specialize (HR (name, port) (Some l) (lookup_insert_eq _ _ _)).
        cbn [fst snd] in HR. by rewrite HR.
      + case_bool_decide; [done|]. intros [= <- <-]. split; [by apply insert_subseteq|]. intros HR.
        specialize (HR (name, port) None (lookup_insert_eq _ _ _)). cbn [fst snd] in HR. by rewrite HR. }
  by apply (Hf s t s').
Qed.

(** Whatever [m] fails with satisfies [P]. *)
Definition fails {A} (m : Build A) (P : BuildError -> BuildState -> Prop) : Prop := forall s e s', m s = (Err e, s') -> P e s'.

Lemma fails_ret {A} (a : A) P : fails (mret a) P.
Proof. by intros s e s'. Qed.

Lemma fails_bind {A B} (m : Build A) (k : A -> Build B) P : fails m P -> (forall a, fails (k a) P) -> fails (m ≫= k) P.
Proof.
  intros Hm Hk s e s'. unfold mbind, Build_bind. destruct (m s) as [[a|e'] s1] eqn:E; [apply Hk|]. intros [= <- <-]. by eapply Hm.
Qed.

Lemma fails_collect {A B} (f : A -> Build (list B)) l P : (forall a, fails (f a) P) -> fails (collect f l) P.
Proof. intros Hf. induction l; cbn [collect]; [apply fails_ret|]. repeat (apply fails_bind; [done|intros]). apply fails_ret. Qed.

Lemma fails_each {A T} (f : T -> A -> Build T) l t P : (forall t a, a ∈ l -> fails (f t a) P) -> fails (each f l t) P.
Proof.
  revert t. induction l as [|a l IH]; intros t Hf; cbn [each]; [apply fails_ret|].
  apply fails_bind; [apply Hf; set_solver|intros t']. apply IH. intros. apply Hf. set_solver.
Qed.

(** Why a build fails: a route that does not compile, or a lookup. *)
Definition failure (cfg : PortailConfig) (e : BuildError) (s : BuildState) : Prop :=
  policy = Strict /\
  match e with
  | RouteRejected idx err => exists route, cfg_http_routes cfg !! idx = Some route /\ compile_http_route route = Err err
  | Unresolved name port => exists call, calls s = S call /\ lookup call name port = None
  end.

Lemma fails_addrs cfg name port : fails (addrs policy lookup name port) (failure cfg).
Proof.
  intros s e s'. unfold addrs. destruct (seen s !! (name, port)); [done|]. destruct (lookup (calls s) name port) eqn:E; [done|].
  case_bool_decide; [|done]. intros [= <- <-]. split; [done|]. by exists (calls s).
Qed.

Ltac failing cfg :=
  repeat first
    [ apply fails_ret | apply (fails_addrs cfg) | apply fails_bind; [|intros ?] | apply fails_collect; intros ? | apply fails_each; intros ? ? ?
    | match goal with |- fails (if ?b then _ else _) _ => destruct b end
    | match goal with |- fails (match ?p with _ => _ end) _ => destruct p end
    | intros ? ? ?; done ].

Lemma fails_fill cfg : fails (fill_table keyed_hash policy lookup cfg) (failure cfg).
Proof.
  unfold fill_table. apply fails_bind.
  { apply fails_each. intros t [idx route] Hin. unfold convert_http_route. destruct (compile_http_route route) as [crs|err] eqn:E.
    - apply fails_bind; [|intros rules; apply fails_bind; [|intros scopes]].
      + unfold route_rules, match_rules, rule_backends, rule_filters, http_ref_backends, rule_filter, endpoints. failing cfg.
      + unfold route_scopes, listener_scope. failing cfg.
      + unfold push_scope, push_rules. failing cfg.
    - case_bool_decide; [|apply fails_ret]. intros s e s' [= <- <-]. split; [done|]. exists route. split; [|done].
      apply elem_of_lookup_imap in Hin as (i & r & [= -> ->] & Hi). done. }
  intros t. cbv zeta. apply fails_bind; [|intros t1; apply fails_bind; [|intros t2]].
  all: unfold convert_l4_routes, convert_l4_route, convert_tls_route, l4_route_backends, ref_backends, endpoints; failing cfg.
Qed.

Lemma each_elem {A T} (f : T -> A -> Build T) l t s t' s' a : each f l t s = (Ok t', s') -> a ∈ l ->
  exists t1 s1 t2 s2, f t1 a s1 = (Ok t2, s2).
Proof.
  revert t s. induction l as [|x l IH]; intros t s; [by intros _ ?%elem_of_nil|]. cbn [each]. intros (t1 & s1 & H1 & H2)%bind_ok [->|Ha]%elem_of_cons.
  - by exists t, s, t1, s1.
  - by eapply IH.
Qed.

Lemma strict_fill_compiles cfg s t s' idx route : policy = Strict -> fill_table keyed_hash policy lookup cfg s = (Ok t, s') ->
  cfg_http_routes cfg !! idx = Some route -> exists crs, compile_http_route route = Ok crs.
Proof.
  intros Hp (t1 & s1 & H & _)%bind_ok Hi.
  destruct (each_elem _ _ _ _ _ _ (idx, route) H) as (t2 & s2 & t3 & s3 & Hc).
  { apply elem_of_lookup_imap. by exists idx, route. }
  unfold convert_http_route in Hc. destruct (compile_http_route route) as [crs|e]; [by exists crs|]. by rewrite bool_decide_eq_true_2 in Hc.
Qed.

End Lookups.

Section Answered.
Context {RE : RegexEngine} {RS : RegexSyntax} (keyed_hash : SocketAddr -> Z).
Context (policy : BuildPolicy) (lookup : nat -> list Z -> Z -> option (list SocketAddr)).

(** The lookup's answers a finished build went by: one for each name and
    port it asked for. *)
Definition answered (s s' : BuildState) (answers : list Z -> Z -> option (list SocketAddr)) : Prop :=
  calls s' = (calls s + size (seen s'))%nat /\
  forall name port found, seen s' !! (name, port) = Some found ->
    answers name port = found /\ exists call, (calls s <= call < calls s')%nat /\ lookup call name port = found.

Definition final_answers (s' : BuildState) (name : list Z) (port : Z) : option (list SocketAddr) := default None (seen s' !! (name, port)).

Lemma build_fill cfg s t s' : build_route_table keyed_hash policy lookup cfg s = (Ok t, s') ->
  fill_table keyed_hash policy lookup cfg {| calls := calls s; seen := ∅; next_cell := next_cell s; limiters := limiters s |} = (Ok t, s').
Proof. by intros (u & s1 & [= _ <-] & H)%bind_ok. Qed.

Lemma build_answered cfg s t s' : build_route_table keyed_hash policy lookup cfg s = (Ok t, s') ->
  answered s s' (final_answers s') /\ build_route_table keyed_hash policy (fun _ => final_answers s') cfg s = (Ok t, s').
Proof.
  intros H%build_fill. split.
  - assert (Hl : lookups_since lookup (calls s) s').
    { eapply (fill_keeps keyed_hash policy lookup (lookups_since lookup (calls s))); [| |exact H|].
      - intros s0 s1 Es Ec [H1 H2]. unfold lookups_since. rewrite <- Es, <- Ec. done.
      - intros. by eapply addrs_lookups.
      - split; [cbn; rewrite map_size_empty; lia|]. cbn. by intros ? ? ? ?%lookup_empty_Some. }
    destruct Hl as [Hc Hl]. split; [done|]. intros name port found Hs. split; [unfold final_answers; by rewrite Hs|by apply Hl].
  - apply bind_ok. eexists tt, _. split; [done|]. eapply fill_memo; [exact H|]. intros [name port] found E. cbn [fst snd].
    unfold final_answers. by rewrite E.
Qed.

(** Under the strict policy every name asked for was answered. *)
Lemma strict_fill_resolves cfg s t s' : policy = Strict -> fill_table keyed_hash policy lookup cfg s = (Ok t, s') ->
  map_Forall (fun _ found => found <> None) (seen s) -> map_Forall (fun _ found => found <> None) (seen s').
Proof.
  intros Hp H. eapply (fill_keeps keyed_hash policy lookup (fun s => map_Forall (fun _ found => found <> None) (seen s))); [| |exact H].
  - by intros s0 s1 -> _.
  - intros s0 name port found s1. unfold addrs. destruct (seen s0 !! (name, port)); [by intros [= _ <-]|].
    destruct (lookup (calls s0) name port); [|by rewrite bool_decide_eq_true_2]. intros [= _ <-] Hs. by apply map_Forall_insert_2.
Qed.

End Answered.

(** ** Picks that do not depend on record order *)

Definition addr_key (a : SocketAddr) : list Z :=
  match a with SocketV4 ip p => [0; ip; p; 0; 0] | SocketV6 ip p f s => [1; ip; p; f; s] end.

Lemma addr_compare_lex a b : addr_compare a b = lex (addr_key a) (addr_key b).
Proof.
  destruct a, b; cbn [addr_compare addr_key lex]; rewrite ?Z.compare_refl; cbn [then_with]; rewrite ?then_with_Eq_r; done.
Qed.

Lemma addr_compare_eq a b : addr_compare a b = Eq -> a = b.
Proof.
  unfold addr_compare, then_with. destruct a as [ip p|ip p f s], b as [ip' p'|ip' p' f' s']; try done.
  all: repeat match goal with |- context [?x ?= ?y] => destruct (Z.compare_spec x y) end; try done; by subst.
Qed.

Lemma addr_key_length a b : length (addr_key a) = length (addr_key b).
Proof. by destruct a, b. Qed.

Definition addr_le (a b : SocketAddr) : Prop := addr_compare a b <> Gt.

Lemma addr_le_trans a b c : addr_le a b -> addr_le b c -> addr_le a c.
Proof. unfold addr_le. rewrite !addr_compare_lex. apply lex_trans; apply addr_key_length. Qed.

Lemma addr_le_antisym a b : addr_le a b -> addr_le b a -> a = b.
Proof.
  unfold addr_le. intros H1 H2. apply addr_compare_eq. rewrite !addr_compare_lex in *. rewrite lex_antisym in H2.
  by destruct (lex (addr_key a) (addr_key b)).
Qed.

Lemma addr_min_le a b : (addr_min a b = a \/ addr_min a b = b) /\ addr_le (addr_min a b) a /\ addr_le (addr_min a b) b.
Proof.
  unfold addr_min, addr_le. destruct (addr_compare a b) eqn:E; (split; [auto|]); rewrite !addr_compare_lex in *; rewrite ?lex_refl, ?E; try done.
  split; [|done]. rewrite lex_antisym, E. done.
Qed.

(** A fold that keeps the better of two keeps a best one. *)
Lemma fold_best {A} (le : A -> A -> Prop) (pick : A -> A -> A) l acc :
  (forall a b c, le a b -> le b c -> le a c) -> (forall a, le a a) ->
  (forall m a, (pick m a = m \/ pick m a = a) /\ le (pick m a) m /\ le (pick m a) a) ->
  match fold_left (fun acc a => Some match acc with Some m => pick m a | None => a end) l acc with
  | Some m => (acc = Some m \/ m ∈ l) /\ (forall a, a ∈ l \/ acc = Some a -> le m a)
  | None => acc = None /\ l = []
  end.
Proof.
  intros Htr Hrf Hp. revert acc. induction l as [|x l IH]; intros acc; cbn [fold_left].
  - destruct acc as [m|]; [|done]. split; [by left|]. intros a [?%not_elem_of_nil|[= ->]]; [done|apply Hrf].
  - specialize (IH (Some match acc with Some m => pick m x | None => x end)). destruct (fold_left _ l _) as [m|]; [|by destruct IH].
    destruct IH as [H1 H2]. destruct acc as [m0|].
    + destruct (Hp m0 x) as (Hc & Hm & Hx). assert (Hbest : le m (pick m0 x)) by (apply H2; by right). split.
      * rewrite elem_of_cons. destruct H1 as [[= <-]|H1]; [|by auto]. destruct Hc as [->| ->]; auto.
      * intros a [[->|Ha]%elem_of_cons|[= ->]]; [by eapply Htr|apply H2; by left|by eapply Htr].
    + split; [rewrite elem_of_cons; destruct H1 as [[= <-]|H1]; auto|]. intros a [[->|Ha]%elem_of_cons|?]; [apply H2; by right|apply H2; by left|done].
Qed.

Lemma fold_best_unique {A} (le : A -> A -> Prop) (pick : A -> A -> A) l l' :
  (forall a b c, le a b -> le b c -> le a c) -> (forall a, le a a) ->
  (forall m a, (pick m a = m \/ pick m a = a) /\ le (pick m a) m /\ le (pick m a) a) ->
  (forall a b, a ∈ l -> b ∈ l -> le a b -> le b a -> a = b) -> (forall a, a ∈ l <-> a ∈ l') ->
  fold_left (fun acc a => Some match acc with Some m => pick m a | None => a end) l None =
  fold_left (fun acc a => Some match acc with Some m => pick m a | None => a end) l' None.
Proof.
  intros Htr Hrf Hp Hanti Hset. pose proof (fold_best le pick l None Htr Hrf Hp) as H1. pose proof (fold_best le pick l' None Htr Hrf Hp) as H2.
  destruct (fold_left _ l None) as [m|], (fold_left _ l' None) as [m'|].
  - destruct H1 as [[?|M1] B1], H2 as [[?|M2] B2]; try done. f_equal. apply Hset in M2 as M2'.
    apply Hanti; [done|done|apply B1; by left|apply B2; left; by apply Hset].
  - destruct H1 as [[?|M1] _], H2 as [_ ->]; [done|]. apply Hset in M1. by apply not_elem_of_nil in M1.
  - destruct H1 as [_ ->], H2 as [[?|M2] _]; [done|]. apply Hset in M2. by apply not_elem_of_nil in M2.
  - done.
Qed.

(** ** Properties *)

(** What the two build policies promise. The lenient build always
    returns a table. The strict build either returns exactly the table and
    state the lenient one does, every HTTP route accepted and every name
    asked for resolved, or fails, and then for a stated cause: the HTTP route
    it names does not compile, or the lookup it made last found nothing. *)
Theorem build_policies {RE : RegexEngine} {RS : RegexSyntax} (keyed_hash : SocketAddr -> Z)
  (lookup : nat -> list Z -> Z -> option (list SocketAddr)) (cfg : PortailConfig) (s : BuildState) :
  (exists t s', build_route_table keyed_hash Lenient lookup cfg s = (Ok t, s')) /\
  match build_route_table keyed_hash Strict lookup cfg s with
  | (Ok t, s') => build_route_table keyed_hash Lenient lookup cfg s = (Ok t, s') /\
      (forall idx route, cfg_http_routes cfg !! idx = Some route -> exists crs, compile_http_route route = Ok crs) /\
      (forall k found, seen s' !! k = Some found -> found <> None)
  | (Err (RouteRejected idx err), _) => exists route, cfg_http_routes cfg !! idx = Some route /\ compile_http_route route = Err err
  | (Err (Unresolved name port), s') => exists call, calls s' = S call /\ lookup call name port = None
  end.
Proof.
  split.
  { destruct (total_fill keyed_hash lookup cfg {| calls := calls s; seen := ∅; next_cell := next_cell s; limiters := limiters s |}) as (t & s' & E).
    exists t, s'. apply bind_ok. by eexists tt, _. }
  destruct (build_route_table keyed_hash Strict lookup cfg s) as [[t|e] s'] eqn:H.
  - apply build_fill in H. split; [apply bind_ok; eexists tt, _; split; [done|]; by apply strict_fill_lenient|]. split.
    + intros idx route. by eapply (strict_fill_compiles keyed_hash Strict lookup cfg _ t s').
    + exact (strict_fill_resolves keyed_hash Strict lookup cfg _ t s' eq_refl H (map_Forall_empty _)).
  - assert (Hf : failure Strict lookup cfg e s').
    { eapply (fails_bind fresh_resolver (fun _ => fill_table keyed_hash Strict lookup cfg)); [by intros ? ? ?|intros; apply fails_fill|exact H]. }
    destruct Hf as [_ Hf]. by destruct e.
Qed.

(** One build sees one DNS. However the lookup answers from call to call,
    a finished build asked it exactly once for each name and port it needed,
    and is the build of a lookup that always gives that one answer: rules that
    share a backend share its addresses. *)
Theorem one_lookup_per_name {RE : RegexEngine} {RS : RegexSyntax} (keyed_hash : SocketAddr -> Z) (policy : BuildPolicy)
  (lookup : nat -> list Z -> Z -> option (list SocketAddr)) (cfg : PortailConfig) (s s' : BuildState) (t : RouteTable)
  (H : build_route_table keyed_hash policy lookup cfg s = (Ok t, s')) :
  exists answers, answered lookup s s' answers /\ build_route_table keyed_hash policy (fun _ => answers) cfg s = (Ok t, s').
Proof. exists (final_answers s'). by eapply build_answered. Qed.

(** A resolver that only reorders its records, or repeats some, changes
    no pick: an ExternalName endpoint's one target (when the keyed hash tells
    the addresses apart) and a mirror's address depend on the set of
    addresses alone. *)
Theorem picks_ignore_record_order (keyed_hash : SocketAddr -> Z) (l l' : list SocketAddr)
  (Hset : forall a, a ∈ l <-> a ∈ l') (Hinj : forall a b, a ∈ l -> b ∈ l -> keyed_hash a = keyed_hash b -> a = b) :
  one_target keyed_hash l = one_target keyed_hash l' /\ smallest l = smallest l'.
Proof.
  split.
  - apply (fold_best_unique (fun a b => keyed_hash b <= keyed_hash a)); [lia|lia| | |done].
    + intros m a. destruct (Z.ltb_spec (keyed_hash a) (keyed_hash m)); split; try (by auto); lia.
    + intros a b Ha Hb H1 H2. apply Hinj; [done..|lia].
  - apply (fold_best_unique addr_le); [apply addr_le_trans| |apply addr_min_le| |done].
    + intros a. unfold addr_le. by rewrite addr_compare_lex, lex_refl.
    + intros a b _ _. apply addr_le_antisym.
Qed.

(** ** Witnesses *)

#[local] Existing Instance literal_regex.

(** A regex syntax for the witnesses: every pattern is literal text. *)
Definition literal_syntax : RegexSyntax := {| re_print_alone := Some; re_new := Some |}.
#[local] Existing Instance literal_syntax.

Definition listener_config (name : list Z) (protocol : Protocol) (port : Z) (hostname : option (list Z)) : ListenerConfig :=
  {| l_name := name; l_protocol := protocol; l_port := port; l_target_port := None; l_hostname := hostname; l_address := None;
     l_interface := None; l_tls := None; l_rate_limit := None |}.

Definition backend_ref (name : list Z) (port : Z) : BackendRef := mkBackendRef name port 1 [] [] [] None false.

(** Two HTTP listeners and a TCP one; one HTTP route on every listener, one
    TCP route. *)
Definition sample_config : PortailConfig :=
  {| gateway := {| g_name := bs "gw"; g_addresses := [];
       listeners := [listener_config (bs "web") HTTP 80 None; listener_config (bs "sec") HTTPS 443 (Some (bs "*.Example.com"));
                     listener_config (bs "db") TCP 9000 None] |};
     cfg_http_routes := [{| h_parent_refs := [{| pr_name := bs "gw"; section_name := None; pr_port := None |}];
       hostnames := [bs "a.example.com"];
       h_rules := [{| c_matches := [HttpRouteMatch_path_prefix (bs "/v1")];
         c_filters := [FRequestHeaderModifier {| cfg_add := []; cfg_set := [{| header_name := bs "X-Tenant"; header_value := bs "a" |}];
                                                 cfg_remove := [bs "Cookie"] |};
                       FURLRewrite {| ur_hostname := Some (bs "svc.internal"); ur_path := Some (CfgReplacePrefixMatch (bs "/v2")) |}];
         backend_refs := [backend_ref (bs "svc") 8080; backend_ref (bs "svc") 8080]; timeouts := None |}] |}];
     cfg_tcp_routes := [{| t_parent_refs := [{| pr_name := bs "gw"; section_name := Some (bs "db"); pr_port := None |}];
       t_rules := [{| l4_backend_refs := [backend_ref (bs "pg") 5432] |}] |}];
     cfg_tls_routes := []; cfg_udp_routes := [];
     performance := {| udp_session_timeout := 30; udp_max_sessions := None |};
     endpoint_overrides := ∅; app_protocol_overrides := ∅; headless_target_ports := ∅ |}.

Definition sample_lookup (call : nat) (name : list Z) (port : Z) : option (list SocketAddr) := Some [SocketV4 (167772161 + Z.of_nat call) port].

Definition start_state : BuildState := {| calls := 0; seen := ∅; next_cell := 1; limiters := ∅ |}.

Definition sample_built : RouteTable :=
  match build_route_table (fun _ => 0) Strict sample_lookup sample_config start_state with (Ok t, _) => t | _ => RouteTable_new end.

Lemma sample_built_by : exists s', build_route_table (fun _ => 0) Strict sample_lookup sample_config start_state = (Ok sample_built, s').
Proof. eexists. vm_compute. reflexivity. Qed.

Lemma one_lookup_per_name_witness : exists s' answers,
  build_route_table (fun _ => 0) Strict sample_lookup sample_config start_state = (Ok sample_built, s') /\ answered sample_lookup start_state s' answers.
Proof.
  destruct sample_built_by as [s' H].
  destruct (one_lookup_per_name (fun _ => 0) Strict sample_lookup sample_config start_state s' sample_built H) as (answers & Ha & _).
  exists s', answers. exact (conj H Ha).
Defined.

Definition record_hash (a : SocketAddr) : Z := match a with SocketV4 ip _ => ip * 7 mod 100 | SocketV6 ip _ _ _ => ip end.

Lemma picks_ignore_record_order_witness :
  one_target record_hash [SocketV4 1 80; SocketV4 2 80; SocketV4 14 80] = one_target record_hash [SocketV4 14 80; SocketV4 2 80; SocketV4 1 80; SocketV4 2 80]
  /\ smallest [SocketV4 1 80; SocketV4 2 80; SocketV4 14 80] = smallest [SocketV4 14 80; SocketV4 2 80; SocketV4 1 80; SocketV4 2 80].
Proof.
  apply (picks_ignore_record_order record_hash).
  - intros a. rewrite !elem_of_cons. tauto.
  - intros a b Ha Hb. rewrite !elem_of_cons, elem_of_nil in Ha, Hb.
    destruct Ha as [->|[->|[->|[]]]], Hb as [->|[->|[->|[]]]]; vm_compute; congruence.
Defined.
