(* ===== verification/ConfigServes.v ===== *)
(** * What a built table serves

    No code here: the reference reading of a configuration, as the list of
    rules it puts on each listener and hostname, and the proof that the
    table [build_route_table] makes holds exactly those; so a lookup in it
    answers with the rule the configuration calls for. *)

From S2P Require Import Prelude Bytes Net RateLimit HttpGrammar Routing RouteLookup RouteBuild Config ConfigTable.

(** ** What a configuration describes

    The reference: the backends, filters and rules of a configuration as
    functions of the answers to its lookups, and the inserts a build makes,
    in order. *)

Section Reference.
Context {RE : RegexEngine} {RS : RegexSyntax} (keyed_hash : SocketAddr -> Z).
Context (answers : list Z -> Z -> option (list SocketAddr)).

Definition ref_endpoints (cfg : PortailConfig) (name : list Z) (port : Z) : list (SocketAddr * list Z) :=
  match endpoint_overrides cfg !! (name, port) with
  | Some (t :: targets) =>
      omap (fun '(host, tp) => (fun a => (a, host)) <$> (answers host tp ≫= one_target keyed_hash)) (t :: targets)
  | _ => map (fun a => (a, name)) (default [] (answers name (default port (headless_target_ports cfg !! (name, port)))))
  end.

Definition described_backends (cfg : PortailConfig) (br : BackendRef) (fs : list HttpFilter) (tls : bool) : list Backend :=
  if br_invalid br then [rejecting (br_weight br)]
  else map (fun e => {| socket_addr := e.1; weight := br_weight br; backend_filters := fs; use_tls := tls;
                        server_name := e.2; action := Forward |}) (ref_endpoints cfg (br_name br) (br_port br)).

Definition described_l4 (cfg : PortailConfig) (refs : list BackendRef) : list Backend :=
  concat (map (fun br => described_backends cfg br [] false) refs).

Definition described_http (cfg : PortailConfig) (cr : CompiledRule) : list Backend :=
  if redirects (source cr) then []
  else concat (map (fun bf => described_backends cfg bf.1 bf.2 (wants_tls cfg bf.1)) (zip (backend_refs (source cr)) (cr_backend_filters cr))).

Definition described_filter (cfg : PortailConfig) (f : CompiledFilter) : list HttpFilter :=
  match f with
  | Ready f => [f]
  | Mirror b fraction =>
      if br_invalid b then []
      else match smallest (ref_endpoints cfg (br_name b) (br_port b)).*1 with Some a => [RequestMirror a fraction] | None => [] end
  end.

Definition described_rules (cfg : PortailConfig) (cr : CompiledRule) : list HttpRouteRule :=
  map (fun m => to_rule 1 m (concat (map (described_filter cfg) (cr_filters cr))) (described_http cfg cr) (timeouts (source cr))) (cr_matches cr).

Record Insert := { in_port : Z; in_listener : option (list Z); in_host : list Z; in_rule : HttpRouteRule }.

Definition described_scopes (cfg : PortailConfig) (route : HttpRouteConfig) : list Scope :=
  if is_nil (h_parent_refs route) then [(0, None, None)]
  else map (fun l => (l_port l, l_hostname l, (fun _ => (l_port l, l_name l)) <$> l_rate_limit l))
         (List.filter takes_http_routes (find_listeners_for_route (h_parent_refs route) (gateway cfg))).

Definition scope_inserts (route : HttpRouteConfig) (idx : nat) (rules : list HttpRouteRule) (scope : Scope) : list Insert :=
  let '(port, lh, lim) := scope in
  concat (map (fun host => map (fun rule =>
    {| in_port := port; in_listener := lh; in_host := host; in_rule := for_insert rule 1 lim (as_u32 (Z.of_nat idx)) |}) rules)
    (effective_hostnames lh (hostnames route))).

Definition route_inserts (cfg : PortailConfig) (ir : nat * HttpRouteConfig) : list Insert :=
  match compile_http_route ir.2 with
  | Err _ => []
  | Ok compiled =>
      concat (map (scope_inserts ir.2 ir.1 (concat (map (described_rules cfg) compiled))) (described_scopes cfg ir.2))
  end.

Definition config_inserts (cfg : PortailConfig) : list Insert := concat (map (route_inserts cfg) (imap pair (cfg_http_routes cfg))).

End Reference.

Section Described.
Context {RE : RegexEngine} {RS : RegexSyntax} (keyed_hash : SocketAddr -> Z).
Context (policy : BuildPolicy) (answers : list Z -> Z -> option (list SocketAddr)).

(** The resolver remembers only these answers. *)
Definition remembers (s : BuildState) : Prop := map_Forall (fun k found => answers k.1 k.2 = found) (seen s).

(** From such a state, [m] returns [a], if it returns. *)
Definition gives {A} (m : Build A) (a : A) : Prop :=
  forall s a' s', remembers s -> m s = (Ok a', s') -> remembers s' /\ a' = a /\ (next_cell s <= next_cell s')%positive.

Lemma gives_ret {A} (a : A) : gives (mret a) a.
Proof. intros s a' s' Hs [= <- <-]. done. Qed.

Lemma gives_bind {A B} (m : Build A) (k : A -> Build B) a b : gives m a -> gives (k a) b -> gives (m ≫= k) b.
Proof.
  intros Hm Hk s b' s' Hs (a' & s1 & H1 & H2)%bind_ok. destruct (Hm _ _ _ Hs H1) as (Hs1 & -> & L1).
  destruct (Hk _ _ _ Hs1 H2) as (Hs2 & -> & L2). split; [done|]. split; [done|]. lia.
Qed.

Lemma gives_collect {A B} (f : A -> Build (list B)) (g : A -> list B) l : (forall a, gives (f a) (g a)) -> gives (collect f l) (concat (map g l)).
Proof.
  intros Hf. induction l as [|a l IH]; cbn [collect map concat]; [apply gives_ret|].
  eapply gives_bind; [apply Hf|]. eapply gives_bind; [exact IH|]. apply gives_ret.
Qed.

Abbreviation lookup := (fun (_ : nat) => answers) (only parsing).

Lemma gives_addrs name port : gives (addrs policy lookup name port) (answers name port).
Proof.
  intros s a s' Hs. unfold addrs. destruct (seen s !! (name, port)) as [f|] eqn:E.
  { intros [= <- <-]. split; [done|]. split; [|done]. symmetry. exact (Hs _ _ E). }
  destruct (answers name port) as [l|] eqn:Ea; [|case_bool_decide; [done|]]; intros [= <- <-].
  all: split; [|done]; apply map_Forall_insert_2; done.
Qed.

Lemma gives_endpoints cfg name port : gives (endpoints keyed_hash policy lookup cfg name port) (ref_endpoints keyed_hash answers cfg name port).
Proof.
  unfold endpoints, ref_endpoints. destruct (endpoint_overrides cfg !! (name, port)) as [[|t ts]|].
  all: try (eapply gives_bind; [apply gives_addrs|apply gives_ret]).
  assert (E : forall l, omap (fun '(host, tp) => (fun a => (a, host)) <$> (answers host tp ≫= one_target keyed_hash)) l =
    concat (map (fun '(host, tp) => match answers host tp ≫= one_target keyed_hash with Some a => [(a, host)] | None => [] end) l)).
  { induction l as [|[h p] l IH]; [done|]. cbn [omap list_omap map concat]. rewrite <- IH. by destruct (answers h p ≫= _). }
  rewrite E. apply gives_collect. intros [host tp]. eapply gives_bind; [apply gives_addrs|apply gives_ret].
Qed.

Lemma gives_http_backends cfg cr : gives (rule_backends keyed_hash policy lookup cfg cr) (described_http keyed_hash answers cfg cr).
Proof.
  unfold rule_backends, described_http. destruct (redirects (source cr)); [apply gives_ret|]. apply gives_collect. intros [br fs].
  unfold http_ref_backends, described_backends. cbn [fst snd]. destruct (br_invalid br); [apply gives_ret|].
  eapply gives_bind; [apply gives_endpoints|]. erewrite map_ext; [apply gives_ret|]. by intros [a name].
Qed.

Lemma gives_l4_backends cfg refs : gives (l4_route_backends keyed_hash policy lookup cfg refs) (described_l4 keyed_hash answers cfg refs).
Proof.
  apply gives_collect. intros br. unfold ref_backends, described_backends. destruct (br_invalid br); [apply gives_ret|].
  eapply gives_bind; [apply gives_endpoints|]. erewrite map_ext; [apply gives_ret|]. by intros [a name].
Qed.

Lemma gives_filters cfg fs : gives (rule_filters keyed_hash policy lookup cfg fs) (concat (map (described_filter keyed_hash answers cfg) fs)).
Proof.
  apply gives_collect. intros [f|b fr]; cbn [rule_filter described_filter]; [apply gives_ret|]. destruct (br_invalid b); [apply gives_ret|].
  eapply gives_bind; [apply gives_endpoints|apply gives_ret].
Qed.

Lemma gives_scopes cfg route : gives (route_scopes cfg route) (described_scopes cfg route).
Proof.
  unfold route_scopes, described_scopes. destruct (is_nil _); [apply gives_ret|].
  assert (E : forall ls, map (fun l => (l_port l, l_hostname l, (fun _ => (l_port l, l_name l)) <$> l_rate_limit l)) ls =
    concat (map (fun l => [(l_port l, l_hostname l, (fun _ => (l_port l, l_name l)) <$> l_rate_limit l)]) ls)).
  { induction ls as [|l ls IH]; [done|]. cbn [map concat]. by rewrite IH. }
  rewrite E. apply gives_collect. intros l. unfold listener_scope. destruct (l_rate_limit l) as [rl|]; [|apply gives_ret].
  eapply (gives_bind _ _ (l_port l, l_name l)); [|apply gives_ret]. intros s a s' Hs [= <- <-]. done.
Qed.

(** Rules, but for the cells of their counters. *)
Definition erased (r : HttpRouteRule) : HttpRouteRule := for_insert r 1 (limiter r) (route_index r).

Definition yields (m : Build (list HttpRouteRule)) (rules : list HttpRouteRule) : Prop :=
  forall s rs s', remembers s -> m s = (Ok rs, s') -> remembers s' /\ map erased rs = map erased rules /\ (next_cell s <= next_cell s')%positive.

Lemma yields_collect {A} (f : A -> Build (list HttpRouteRule)) g l : (forall a, yields (f a) (g a)) -> yields (collect f l) (concat (map g l)).
Proof.
  intros Hf. induction l as [|a l IH]; cbn [collect map concat].
  - intros s rs s' Hs [= <- <-]. done.
  - intros s rs s' Hs (x & s1 & H1 & H2)%bind_ok. apply bind_ok in H2 as (y & s2 & H2 & [= <- <-]).
    destruct (Hf a _ _ _ Hs H1) as (R1 & E1 & L1). destruct (IH _ _ _ R1 H2) as (R2 & E2 & L2).
    split; [done|]. split; [by rewrite !map_app, E1, E2|lia].
Qed.

Lemma yields_rules cfg crs : yields (route_rules keyed_hash policy lookup cfg crs) (concat (map (described_rules keyed_hash answers cfg) crs)).
Proof.
  apply yields_collect. intros cr s rs s' Hs (bks & s1 & H1 & H2)%bind_ok. apply bind_ok in H2 as (fs & s2 & H2 & H3).
  destruct (gives_http_backends cfg cr _ _ _ Hs H1) as (R1 & -> & L1). destruct (gives_filters cfg _ _ _ _ R1 H2) as (R2 & -> & L2).
  unfold described_rules.
  set (fs := concat (map (described_filter keyed_hash answers cfg) (cr_filters cr))) in *. set (bks := described_http keyed_hash answers cfg cr) in *.
  assert (Hy : yields (collect (fun m => cell ← alloc; mret [to_rule cell m fs bks (timeouts (source cr))]) (cr_matches cr))
    (concat (map (fun m => [to_rule 1 m fs bks (timeouts (source cr))]) (cr_matches cr)))).
  { apply yields_collect. intros m s3 r3 s4 Hs3 (c & s5 & [= <- <-] & [= <- <-])%bind_ok. split; [done|]. split; [done|]. cbn [next_cell]. lia. }
  destruct (Hy _ _ _ R2 H3) as (R3 & E & L3). split; [done|]. split; [|lia]. rewrite E. f_equal.
  clear. induction (cr_matches cr) as [|m l IH]; [done|]. cbn [map concat app]. by rewrite IH.
Qed.

End Described.

(** ** The inserts of a build *)

Section Pushes.
Context {RE : RegexEngine} {RS : RegexSyntax} (keyed_hash : SocketAddr -> Z).
Context (policy : BuildPolicy) (answers : list Z -> Z -> option (list SocketAddr)).

Definition push_insert (t : RouteTable) (i : Insert) : RouteTable :=
  push_http_route_for_listener t (in_port i) (in_listener i) (in_host i) (in_rule i).

Definition erase (i : Insert) : Insert :=
  {| in_port := in_port i; in_listener := in_listener i; in_host := in_host i; in_rule := erased (in_rule i) |}.

Definition cell_of (i : Insert) : loc := counter (in_rule i).

(** Each insert counts on a cell of its own, allocated between [s] and [s']. *)
Definition own_cells (s s' : BuildState) (ins : list Insert) : Prop :=
  NoDup (map cell_of ins) /\ Forall (fun i => (next_cell s <= cell_of i < next_cell s')%positive) ins.

Lemma own_cells_app s s1 s' a b : own_cells s s1 a -> own_cells s1 s' b -> (next_cell s <= next_cell s1)%positive ->
  (next_cell s1 <= next_cell s')%positive -> own_cells s s' (a ++ b).
Proof.
  intros [N1 F1] [N2 F2] L1 L2. split.
  - rewrite map_app. apply NoDup_app. split; [done|]. split; [|done]. intros c (i & -> & Hi)%list_elem_of_fmap (j & E & Hj)%list_elem_of_fmap.
    rewrite Forall_forall in F1, F2. specialize (F1 i Hi). specialize (F2 j Hj). cbv beta in F1, F2. rewrite E in F1. lia.
  - apply Forall_app. split; [eapply Forall_impl; [exact F1|]|eapply Forall_impl; [exact F2|]]; intros i; cbn beta; lia.
Qed.

Lemma own_cells_weaken s s0 s' ins : (next_cell s <= next_cell s0)%positive -> own_cells s0 s' ins -> own_cells s s' ins.
Proof. intros L [N F]. split; [done|]. eapply Forall_impl; [exact F|]. intros i. cbn beta. lia. Qed.

(** From a state of these answers, [m] pushes inserts that read as [ref]. *)
Definition pushes (t : RouteTable) (ref : list Insert) (m : Build RouteTable) : Prop :=
  forall s t' s', remembers answers s -> m s = (Ok t', s') ->
    remembers answers s' /\ (next_cell s <= next_cell s')%positive /\
    exists ins, t' = fold_left push_insert ins t /\ map erase ins = ref /\ own_cells s s' ins.

Lemma pushes_ret t : pushes t [] (mret t).
Proof. intros s t' s' Hs [= <- <-]. split; [done|]. split; [done|]. exists []. split; [done|]. split; [done|]. by split; constructor. Qed.

Lemma pushes_each {A} (f : RouteTable -> A -> Build RouteTable) ref l t :
  (forall t a, pushes t (ref a) (f t a)) -> pushes t (concat (map ref l)) (each f l t).
Proof.
  intros Hf. revert t. induction l as [|a l IH]; intros t; cbn [each map concat]; [apply pushes_ret|].
  intros s t' s' Hs (t1 & s1 & H1 & H2)%bind_ok. destruct (Hf t a _ _ _ Hs H1) as (R1 & L1 & ins1 & -> & E1 & O1).
  destruct (IH _ _ _ _ R1 H2) as (R2 & L2 & ins2 & -> & E2 & O2). split; [done|]. split; [lia|].
  exists (ins1 ++ ins2). split; [by rewrite fold_left_app|]. split; [by rewrite map_app, E1, E2|]. by eapply own_cells_app.
Qed.

Lemma pushes_after {A} (m : Build A) (k : A -> Build RouteTable) (P : A -> Prop) t ref :
  (forall s a s', remembers answers s -> m s = (Ok a, s') -> remembers answers s' /\ P a /\ (next_cell s <= next_cell s')%positive) ->
  (forall a, P a -> pushes t ref (k a)) -> pushes t ref (m ≫= k).
Proof.
  intros Hm Hk s t' s' Hs (a & s1 & H1 & H2)%bind_ok. destruct (Hm _ _ _ Hs H1) as (R1 & Pa & L1).
  destruct (Hk a Pa _ _ _ R1 H2) as (R2 & L2 & ins & Ht & E & O). split; [done|]. split; [lia|]. exists ins.
  split; [done|]. split; [done|]. by eapply own_cells_weaken.
Qed.

Lemma pushes_scope route idx rules t scope : pushes t (scope_inserts route idx rules scope) (push_scope route idx rules t scope).
Proof.
  destruct scope as [[port lh] lim]. apply pushes_each. intros t' host. unfold push_rules.
  set (ins_of := fun rule cell => {| in_port := port; in_listener := lh; in_host := host; in_rule := for_insert rule cell lim (as_u32 (Z.of_nat idx)) |}).
  assert (E : map (fun rule => ins_of rule 1%positive) rules = concat (map (fun rule => [ins_of rule 1%positive]) rules)).
  { clear. induction rules as [|r l IH]; [done|]. cbn [map concat app]. by rewrite IH. }
  fold (ins_of). change (map _ rules) with (map (fun rule => ins_of rule 1%positive) rules). rewrite E. apply pushes_each.
  intros t1 rule s t2 s' Hs (c & s1 & [= <- <-] & [= <- <-])%bind_ok. split; [done|]. split; [cbn [next_cell]; lia|].
  exists [ins_of rule (next_cell s)]. split; [done|]. split; [done|]. split; [apply NoDup_singleton|].
  constructor; [cbn; lia|constructor].
Qed.

Lemma scope_inserts_erased route idx rules rules' scope : map erased rules = map erased rules' ->
  scope_inserts route idx rules scope = scope_inserts route idx rules' scope.
Proof.
  intros E. destruct scope as [[port lh] lim]. cbn [scope_inserts]. f_equal. apply map_ext. intros host.
  assert (forall rs, map (fun rule => {| in_port := port; in_listener := lh; in_host := host; in_rule := for_insert rule 1 lim (as_u32 (Z.of_nat idx)) |}) rs =
    map (fun rule => {| in_port := port; in_listener := lh; in_host := host; in_rule := for_insert rule 1 lim (as_u32 (Z.of_nat idx)) |}) (map erased rs)) as H.
  { intros rs. rewrite map_map. apply map_ext. by intros r. }
  by rewrite H, E, <- H.
Qed.

Lemma pushes_route cfg t ir : pushes t (route_inserts keyed_hash answers cfg ir) (convert_http_route keyed_hash policy (fun _ => answers) cfg t ir).
Proof.
  destruct ir as [idx route]. unfold route_inserts, convert_http_route. cbn [fst snd]. destruct (compile_http_route route) as [crs|e].
  2: { case_bool_decide; [by intros s t' s'|apply pushes_ret]. }
  eapply pushes_after; [intros s a s' Hs H; exact (yields_rules keyed_hash policy answers cfg crs s a s' Hs H)|]. cbv beta. intros rules Er.
  eapply (pushes_after _ _ (fun scopes => scopes = described_scopes cfg route)); [apply gives_scopes|]. intros scopes ->.
  erewrite (map_ext (scope_inserts route idx _)); [apply pushes_each; intros; apply pushes_scope|]. intros scope.
  symmetry. by apply scope_inserts_erased.
Qed.

Lemma pushes_http cfg : pushes RouteTable_new (config_inserts keyed_hash answers cfg)
  (each (convert_http_route keyed_hash policy (fun _ => answers) cfg) (imap pair (cfg_http_routes cfg)) RouteTable_new).
Proof. apply pushes_each. intros. apply pushes_route. Qed.

End Pushes.

(** ** What a table holds *)

#[export] Instance EntryRef_eq_dec : EqDecision EntryRef.
Proof. solve_decision. Defined.

Section Contents.
Context {RE : RegexEngine}.

Definition entry_rules (s : ListenerScope) (e : EntryRef) : list HttpRouteRule :=
  default [] match e with
             | ECatchAll => catch_all_http_routes s
             | EWildcard p => wildcard_http_routes s !! p
             | EExact h => http_routes s !! h
             end.

Lemma entry_rules_alter f e s e' : entry_rules (alter_entry f e s) e' =
  if decide (e' = e) then f match e with
                            | ECatchAll => catch_all_http_routes s
                            | EWildcard p => wildcard_http_routes s !! p
                            | EExact h => http_routes s !! h
                            end else entry_rules s e'.
Proof.
  destruct e, e'; unfold entry_rules, alter_entry; cbn [catch_all_http_routes wildcard_http_routes http_routes]; try done.
  all: destruct (decide _) as [E|E]; try done.
  all: try (by destruct E). all: try (injection E as ->; by rewrite lookup_insert_eq).
  all: rewrite lookup_insert_ne; [done|congruence].
Qed.

Lemma entry_rules_sorted s e r : r ∈ entry_rules (sort_scope s) e <-> r ∈ entry_rules s e.
Proof.
  destruct e; unfold entry_rules, sort_scope; cbn [catch_all_http_routes wildcard_http_routes http_routes]; rewrite ?lookup_fmap;
    match goal with |- context [sort_rules <$> ?o] => destruct o end; cbn; rewrite ?sort_rules_perm; done.
Qed.

(** A rule can serve a host through one of the entries that rank it. *)
Lemma candidate_entry method path header_data query_string s host c :
  candidate method path header_data query_string s host c <->
  rule_matches c.2 method path header_data query_string = true /\ exists e, c.2 ∈ entry_rules s e /\ entry_rank e host = Some c.1.
Proof.
  unfold candidate. apply and_iff_compat_l. split.
  - intros [(he & Hl & Hin & Hk)|[(parent & he & Hw & Hl & Hin & Hk)|(he & Hl & Hin & Hk)]].
    + exists (EExact host). cbn. rewrite Hl, (proj2 (beq_spec host host) eq_refl). by rewrite Hk.
    + exists (EWildcard parent). cbn. rewrite Hl, Hw. by rewrite Hk.
    + exists ECatchAll. cbn. rewrite Hl. by rewrite Hk.
  - intros (e & Hin & Hk). destruct e as [|parent|h]; cbn in Hin, Hk.
    + right. right. destruct (catch_all_http_routes s) as [he|]; [|by apply not_elem_of_nil in Hin]. injection Hk as Hk. by exists he.
    + right. left. destruct (wildcard_covers parent host) eqn:E; [|done]. injection Hk as Hk.
      destruct (wildcard_http_routes s !! parent) as [he|] eqn:El; [|by apply not_elem_of_nil in Hin]. by exists parent, he.
    + left. destruct (beq h host) eqn:E; [|done]. apply beq_spec in E as ->. injection Hk as Hk.
      destruct (http_routes s !! host) as [he|] eqn:El; [|by apply not_elem_of_nil in Hin]. by exists he.
Qed.

Lemma update_scope_elems port h f ss s' : hostnames_ok ss -> (forall s, listener_hostname (f s) = listener_hostname s) ->
  s' ∈ update_scope port h f ss <->
  (s' ∈ ss /\ listener_hostname s' <> h) \/
  (exists s, s' = f s /\ ((s ∈ ss /\ listener_hostname s = h) \/ (h ∉ map listener_hostname ss /\ s = ListenerScope_new port h))).
Proof.
  unfold hostnames_ok. intros Hnd Hf. induction ss as [|x ss IH]; cbn [update_scope map] in *.
  - rewrite list_elem_of_singleton. split.
    + intros ->. right. eexists. split; [done|]. right. split; [set_solver|done].
    + intros [[? _]|(s & -> & [[? _]|[_ ->]])]; set_solver.
  - apply NoDup_cons in Hnd as [Hx Hnd]. case_bool_decide as Ex.
    + subst h. rewrite !elem_of_cons. split.
      * intros [->|Hs]; [right; exists x; split; [done|]; left; set_solver|]. left. split; [by right|]. intros E. apply Hx. rewrite <- E.
        by apply list_elem_of_fmap_2.
      * intros [[[->|Hs] Hne]|(s & -> & [[Hs Eh]|[Hno _]])]; [done|by right| |set_solver].
        apply elem_of_cons in Hs as [->|Hs]; [by left|]. exfalso. apply Hx. rewrite <- Eh. by apply list_elem_of_fmap_2.
    + rewrite !elem_of_cons, IH by done. split.
      * intros [->|[[Hs Hne]|(s & -> & [[Hs Eh]|[Hno ->]])]].
        -- left. split; [by left|done].
        -- left. split; [by right|done].
        -- right. exists s. split; [done|]. left. set_solver.
        -- right. eexists. split; [done|]. right. split; [|done]. set_solver.
      * intros [[[->|Hs] Hne]|(s & -> & [[Hs Eh]|[Hno ->]])]; [by left|right; by left| |].
        -- apply elem_of_cons in Hs as [->|Hs]; [done|]. right. right. exists s. split; [done|]. by left.
        -- right. right. eexists. split; [done|]. right. set_solver.
Qed.

(** The scopes routes of a port go to; port 0 is the shared one. *)
Definition scopes_at (t : RouteTable) (port : Z) : list ListenerScope :=
  if port =? 0 then shared_scopes t else match listener_scopes t !! port with Some p => scopes p | None => [] end.

Lemma scopes_at_hostnames t port : table_hostnames_ok t -> hostnames_ok (scopes_at t port).
Proof.
  intros [Hl Hs]. unfold scopes_at. destruct (port =? 0); [done|]. destruct (listener_scopes t !! port) as [p|] eqn:E; [by eapply Hl|apply NoDup_nil_2].
Qed.

Lemma scopes_at_push t i port : scopes_at (push_insert t i) port =
  if bool_decide (port = in_port i)
  then update_scope port (lowercase <$> in_listener i) (fun s => (push_route s (in_host i) (in_rule i)).1) (scopes_at t port)
  else scopes_at t port.
Proof.
  unfold push_insert, push_http_route_for_listener, scope_mut, scopes_at. destruct (Z.eqb_spec (in_port i) 0) as [E0|E0].
  - rewrite E0. destruct (Z.eqb_spec port 0) as [->|Hp]; [by rewrite bool_decide_eq_true_2|]. by rewrite bool_decide_eq_false_2.
  - cbn [set_listener_scopes listener_scopes shared_scopes]. case_bool_decide as E.
    + subst port. rewrite (proj2 (Z.eqb_neq _ 0) E0), lookup_insert_eq. cbn [scopes].
      destruct (listener_scopes t !! in_port i); done.
    + destruct (port =? 0); [done|]. by rewrite lookup_insert_ne.
Qed.

(** A rule in a table, as an insert left it there. *)
Definition placed (i : Insert) : HttpRouteRule := with_metadata (in_rule i) (lowercase (in_host i)).

Record holds (t : RouteTable) (ins : list Insert) : Prop := {
  holds_scopes : forall port lh, (exists s, s ∈ scopes_at t port /\ listener_hostname s = lh) <->
    (exists i, i ∈ ins /\ in_port i = port /\ lowercase <$> in_listener i = lh);
  holds_rules : forall port s e r, s ∈ scopes_at t port ->
    (r ∈ entry_rules s e <-> exists i, i ∈ ins /\ in_port i = port /\ lowercase <$> in_listener i = listener_hostname s /\
       entry_of (lowercase (in_host i)) = e /\ r = placed i);
}.

Lemma holds_new : holds RouteTable_new [].
Proof.
  split.
  - intros port lh. unfold scopes_at. cbn. rewrite lookup_empty. destruct (port =? 0); split; intros (x & Hx & _); by apply not_elem_of_nil in Hx.
  - intros port s e r. unfold scopes_at. cbn. rewrite lookup_empty. by destruct (port =? 0); intros ?%not_elem_of_nil.
Qed.

Lemma push_route_rules s host r e x : x ∈ entry_rules (push_route s host r).1 e <->
  x ∈ entry_rules s e \/ (entry_of (lowercase host) = e /\ x = with_metadata r (lowercase host)).
Proof.
  cbn [push_route fst]. rewrite entry_rules_alter. destruct (decide (e = entry_of (lowercase host))) as [->|Hne].
  - rewrite elem_of_app, list_elem_of_singleton. unfold entry_rules. naive_solver.
  - naive_solver.
Qed.

Lemma entry_rules_new port h e : entry_rules (ListenerScope_new port h) e = [].
Proof. by destruct e; cbn; rewrite ?lookup_empty. Qed.

Lemma holds_push t ins i : table_hostnames_ok t -> holds t ins -> holds (push_insert t i) (ins ++ [i]).
Proof.
  intros Hok [Hs Hr]. assert (Hf : forall s, listener_hostname (push_route s (in_host i) (in_rule i)).1 = listener_hostname s) by (intros; apply push_route_hostname).
  assert (Hcases : forall port s', s' ∈ scopes_at (push_insert t i) port ->
    (s' ∈ scopes_at t port /\ ~ (port = in_port i /\ listener_hostname s' = lowercase <$> in_listener i)) \/
    (port = in_port i /\ exists s, s' = (push_route s (in_host i) (in_rule i)).1 /\ listener_hostname s = lowercase <$> in_listener i /\
      (s ∈ scopes_at t port \/ ((lowercase <$> in_listener i) ∉ map listener_hostname (scopes_at t port) /\ s = ListenerScope_new port (lowercase <$> in_listener i))))).
  { intros port s'. rewrite scopes_at_push. case_bool_decide as E; [|intros; left; tauto].
    rewrite update_scope_elems by (done || by apply scopes_at_hostnames). intros [[H1 H2]|(s & -> & [[H1 H2]|[H1 ->]])]; [left; tauto| |].
    - right. split; [done|]. exists s. tauto.
    - right. split; [done|]. eexists. split; [done|]. split; [cbn; apply lowercase_opt_idem|]. by right. }
  split.
  - intros port lh. split.
    + intros (s' & Hin & Hlh). destruct (Hcases port s' Hin) as [[H1 _]|(-> & s & -> & Hn & _)].
      * destruct (proj1 (Hs port lh)) as (j & Hj & ? & ?); [by exists s'|]. exists j. rewrite elem_of_app. tauto.
      * rewrite Hf in Hlh. exists i. rewrite elem_of_app, list_elem_of_singleton. naive_solver.
    + intros (j & [Hj| ->%list_elem_of_singleton]%elem_of_app & Hp & Hl).
      * destruct (proj2 (Hs port lh)) as (s & Hin & Hn); [by exists j|]. rewrite scopes_at_push. case_bool_decide as E; [|by exists s].
        destruct (decide (lh = lowercase <$> in_listener i)) as [->|Hne].
        -- eexists. rewrite update_scope_elems by (done || by apply scopes_at_hostnames). split; [right; exists s; split; [done|]; by left|]. by rewrite Hf.
        -- exists s. rewrite update_scope_elems by (done || by apply scopes_at_hostnames). split; [left; split; [done|congruence]|done].
      * rewrite scopes_at_push, bool_decide_eq_true_2 by done.
        destruct (decide (lh ∈ map listener_hostname (scopes_at t port))) as [(s & Hn & Hin)%list_elem_of_fmap|Hno].
        -- eexists. rewrite update_scope_elems by (done || by apply scopes_at_hostnames). split; [right; exists s; split; [done|]; left; split; [done|congruence]|].
           by rewrite Hf.
        -- eexists. rewrite update_scope_elems by (done || by apply scopes_at_hostnames). split; [right; eexists; split; [done|]; right; split; [congruence|done]|].
           rewrite Hf. cbn. by rewrite lowercase_opt_idem.
  - intros port s' e r Hin. destruct (Hcases port s' Hin) as [[H1 Hne]|(-> & s & -> & Hn & Ho)].
    + rewrite (Hr port s' e r H1). split.
      * intros (j & Hj & ?). exists j. rewrite elem_of_app. tauto.
      * intros (j & [Hj| ->%list_elem_of_singleton]%elem_of_app & Hp & Hl & Hrest); [by exists j|]. destruct Hne. by split.
    + rewrite push_route_rules, Hf, Hn. setoid_rewrite elem_of_app. setoid_rewrite list_elem_of_singleton.
      assert (Hold : r ∈ entry_rules s e <-> exists j, j ∈ ins /\ in_port j = in_port i /\ lowercase <$> in_listener j = lowercase <$> in_listener i /\
        entry_of (lowercase (in_host j)) = e /\ r = placed j).
      { destruct Ho as [Ho|[Hno ->]]; [rewrite <- Hn; by apply Hr|]. rewrite entry_rules_new. split; [by intros ?%not_elem_of_nil|].
        intros (j & Hj & Hp & Hl & _). exfalso. apply Hno. destruct (proj2 (Hs (in_port i) (lowercase <$> in_listener i))) as (x & Hx & <-); [by exists j|].
        by apply list_elem_of_fmap_2. }
      rewrite Hold. split.
      * intros [(j & Hj & H)|[He Hx]]; [exists j; tauto|]. exists i. split; [by right|done].
      * intros (j & [Hj| ->] & Hp & Hl & He & Hx); [left; by exists j|by right].
Qed.

Lemma holds_pushes t ins0 ins : table_hostnames_ok t -> holds t ins0 ->
  table_hostnames_ok (fold_left push_insert ins t) /\ holds (fold_left push_insert ins t) (ins0 ++ ins).
Proof.
  revert t ins0. induction ins as [|i ins IH]; intros t ins0 Hok Hh; cbn [fold_left]; [by rewrite app_nil_r|].
  replace (ins0 ++ i :: ins) with ((ins0 ++ [i]) ++ ins) by (by rewrite <- app_assoc). apply IH; [|by apply holds_push].
  apply (build_step_hostnames_ok t (OpPush (in_port i) (in_listener i) (in_host i) (in_rule i)) Hok).
Qed.

Lemma scopes_at_sort t port : scopes_at (sort_http_routes t) port = map sort_scope (scopes_at t port).
Proof.
  unfold scopes_at. cbn. destruct (port =? 0); [done|]. rewrite lookup_fmap. by destruct (listener_scopes t !! port).
Qed.

Lemma holds_sort t ins : holds t ins -> holds (sort_http_routes t) ins.
Proof.
  intros [Hs Hr]. split.
  - intros port lh. rewrite <- Hs, scopes_at_sort. split.
    + intros (s & (s0 & -> & Hin)%list_elem_of_fmap & H). by exists s0.
    + intros (s & Hin & H). exists (sort_scope s). split; [by apply list_elem_of_fmap_2|done].
  - intros port s e r. rewrite scopes_at_sort. intros (s0 & -> & Hin)%list_elem_of_fmap. rewrite entry_rules_sorted. by apply (Hr port s0).
Qed.

(** What [share_any_port_scopes_on] changes. *)
Lemma share_lookup ports (m : gmap Z PortScopes) port :
  fold_left (fun m port => let p := default default_port (m !! port) in <[port := {| scopes := scopes p; shared := true |}]> m) ports m !! port =
  if bool_decide (port ∈ ports) then Some {| scopes := scopes (default default_port (m !! port)); shared := true |} else m !! port.
Proof.
  revert m. induction ports as [|p ports IH]; intros m; cbn [fold_left]; [by rewrite bool_decide_eq_false_2 by apply not_elem_of_nil|].
  rewrite IH. destruct (decide (port = p)) as [->|Hne].
  - rewrite !lookup_insert_eq. cbn [default from_option scopes]. rewrite (bool_decide_eq_true_2 (p ∈ p :: ports)) by set_solver.
    by case_bool_decide.
  - rewrite !lookup_insert_ne by done. rewrite (bool_decide_ext (port ∈ p :: ports) (port ∈ ports)); [done|]. rewrite elem_of_cons. naive_solver.
Qed.

Lemma scopes_at_share t ports port : scopes_at (share_any_port_scopes_on t ports) port = scopes_at t port.
Proof.
  unfold scopes_at. cbn [share_any_port_scopes_on shared_scopes listener_scopes]. destruct (port =? 0); [done|]. rewrite share_lookup.
  case_bool_decide; [|done]. by destruct (listener_scopes t !! port).
Qed.

Lemma holds_ext t t' ins : (forall port, scopes_at t' port = scopes_at t port) -> holds t ins -> holds t' ins.
Proof. intros E [Hs Hr]. split; [intros port lh|intros port s e r]; rewrite E; [apply Hs|apply Hr]. Qed.

(** No port shares before [share_any_port_scopes_on]. *)
Definition unshared (t : RouteTable) : Prop := map_Forall (fun _ p => shared p = false) (listener_scopes t).

Lemma unshared_push t i : unshared t -> unshared (push_insert t i).
Proof.
  intros H. unfold push_insert, push_http_route_for_listener, scope_mut. destruct (in_port i =? 0); [done|]. unfold unshared.
  cbn [set_listener_scopes listener_scopes]. apply map_Forall_insert_2; [|done]. cbn [shared].
  destruct (listener_scopes t !! in_port i) as [p|] eqn:E; [exact (H _ _ E)|done].
Qed.

Lemma unshared_pushes t ins : unshared t -> unshared (fold_left push_insert ins t).
Proof. revert t. induction ins as [|i ins IH]; intros t H; cbn [fold_left]; [done|]. by apply IH, unshared_push. Qed.

Lemma unshared_sort t : unshared t -> unshared (sort_http_routes t).
Proof. intros H k p (p' & <- & E)%lookup_fmap_Some. exact (H _ _ E). Qed.

(** The scopes a port searches once sharing is set. *)
Lemma searched_share t ports port : unshared t -> port <> 0 ->
  searched (share_any_port_scopes_on t ports) port = scopes_at t port ++ (if bool_decide (port ∈ ports) then scopes_at t 0 else []).
Proof.
  intros Hu Hp. unfold searched, shared_scopes_of, scopes_at. rewrite (proj2 (Z.eqb_neq port 0) Hp).
  cbn [share_any_port_scopes_on shared_scopes listener_scopes shared_on_every_port orb Z.eqb].
  rewrite share_lookup. case_bool_decide; cbn [scopes shared].
  - f_equal; [by destruct (listener_scopes t !! port)|]. by destruct (shared_scopes t).
  - f_equal. destruct (listener_scopes t !! port) as [p|] eqn:E; [rewrite (Hu _ _ E)|]; by destruct (shared_scopes t).
Qed.

End Contents.

(** ** The table of a configuration *)

Section Built.
Context {RE : RegexEngine} {RS : RegexSyntax} (keyed_hash : SocketAddr -> Z).
Context (policy : BuildPolicy) (lookup : nat -> list Z -> Z -> option (list SocketAddr)).

Definition http_ports (cfg : PortailConfig) : list Z := map l_port (List.filter takes_http_routes (listeners (gateway cfg))).

(** TCP, UDP and TLS routes leave the HTTP part of a table alone. *)
Definition same_http (t t' : RouteTable) : Prop :=
  listener_scopes t' = listener_scopes t /\ shared_scopes t' = shared_scopes t /\ shared_on_every_port t' = shared_on_every_port t.

Lemma same_http_refl t : same_http t t.
Proof. done. Qed.

Lemma same_http_trans a b c : same_http a b -> same_http b c -> same_http a c.
Proof. intros (? & ? & ?) (? & ? & ?). repeat split; congruence. Qed.

Lemma fold_same_http {A} (f : RouteTable -> A -> RouteTable) l t : (forall t a, same_http t (f t a)) -> same_http t (fold_left f l t).
Proof.
  intros Hf. revert t. induction l as [|a l IH]; intros t; cbn [fold_left]; [done|]. eapply same_http_trans; [apply Hf|apply IH].
Qed.

Lemma l4_same_http (look : nat -> list Z -> Z -> option (list SocketAddr)) cfg t0 routes is_udp t : same_http t0 t ->
  returns (convert_l4_routes keyed_hash policy look cfg routes is_udp t) (same_http t0).
Proof.
  intros Ht. apply returns_each; [done|]. intros t1 route _ H1. unfold convert_l4_route. destruct (t_rules route); [by apply returns_ret|].
  destruct (is_nil _); [by apply returns_ret|]. eapply returns_bind; [apply returns_any|]. intros bks _. apply returns_ret.
  eapply same_http_trans; [exact H1|]. apply fold_same_http. intros t2 ?. unfold add_udp_route, add_tcp_route.
  destruct is_udp; by destruct (insert_first _ _ _).
Qed.

Lemma tls_same_http (look : nat -> list Z -> Z -> option (list SocketAddr)) cfg t0 routes t : same_http t0 t -> returns (each (convert_tls_route keyed_hash policy look cfg) routes t) (same_http t0).
Proof.
  intros Ht. apply returns_each; [done|]. intros t1 route _ H1. unfold convert_tls_route. destruct (is_nil _); [by apply returns_ret|].
  apply returns_each; [done|]. intros t2 rule _ H2. eapply returns_bind; [apply returns_any|]. intros bks _. apply returns_ret.
  eapply same_http_trans; [exact H2|]. apply fold_same_http. intros t3 [[port lh] hosts]. apply fold_same_http. intros t4 host.
  unfold add_tls_route_for_listener. by destruct (update_tls_scope _ _ _ _).
Qed.

(** What [fill_table] left in the table of HTTP routes. *)
Lemma built_holds cfg s t s' : build_route_table keyed_hash policy lookup cfg s = (Ok t, s') ->
  exists ins, map erase ins = config_inserts keyed_hash (final_answers s') cfg /\ own_cells s s' ins /\ table_ok t /\ holds t ins /\
    forall port, port <> 0 -> searched t port = scopes_at t port ++ (if bool_decide (port ∈ http_ports cfg) then scopes_at t 0 else []).
Proof.
  intros H. pose proof H as H0. destruct (build_answered keyed_hash policy lookup cfg s t s' H) as [_ Hb]. apply bind_ok in Hb as (u & s0 & [= _ <-] & Hb).
  apply bind_ok in Hb as (t1 & s1 & H1 & H2).
  destruct (pushes_http keyed_hash policy (final_answers s') cfg _ _ _ (map_Forall_empty _) H1) as (R1 & L1 & ins & -> & E1 & O1).
  set (t1 := fold_left push_insert ins RouteTable_new) in *.
  set (t2 := share_any_port_scopes_on (sort_http_routes t1) (http_ports cfg)).
  assert (Hcells : (next_cell s1 <= next_cell s')%positive /\ same_http t2 t).
  { cbv zeta in H2. fold (http_ports cfg) in H2. fold t2 in H2. split.
    - assert (Hm : follows (fun _ => True) (fun a b => (next_cell a <= next_cell b)%positive)
        (t ← convert_l4_routes keyed_hash policy (fun _ => final_answers s') cfg (cfg_tcp_routes cfg) false t2;
         t ← convert_l4_routes keyed_hash policy (fun _ => final_answers s') cfg (cfg_udp_routes cfg) true t;
         each (convert_tls_route keyed_hash policy (fun _ => final_answers s') cfg) (cfg_tls_routes cfg) t)
        (t ← convert_l4_routes keyed_hash policy (fun _ => final_answers s') cfg (cfg_tcp_routes cfg) false t2;
         t ← convert_l4_routes keyed_hash policy (fun _ => final_answers s') cfg (cfg_udp_routes cfg) true t;
         each (convert_tls_route keyed_hash policy (fun _ => final_answers s') cfg) (cfg_tls_routes cfg) t)).
      { apply follows_l4_tls; [split; [by intros ?|by intros ? ? ? ? ?; etrans]|done|].
        intros name port s2 a s3. unfold addrs. destruct (seen s2 !! (name, port)); [by intros [= <- <-]|].
        destruct (final_answers s' name port); [by intros [= <- <-]|]. case_bool_decide; [done|by intros [= <- <-]]. }
      by apply (Hm s1 t s').
    - apply bind_ok in H2 as (t3 & s3 & H3 & H2). apply bind_ok in H2 as (t4 & s4 & H4 & H2).
      eapply tls_same_http; [|exact H2]. eapply l4_same_http; [|exact H4]. by eapply l4_same_http; [|exact H3]. }
  destruct Hcells as [L2 (S1 & S2 & S3)].
  assert (Hok : table_hostnames_ok t1 /\ holds t1 ins).
  { apply (holds_pushes RouteTable_new []); [apply table_ok_hostnames, RouteTable_new_ok|apply holds_new]. }
  destruct Hok as [Hn Hh]. exists ins. split; [done|].
  assert (Hat : forall port, scopes_at t port = scopes_at t2 port) by (intros; unfold scopes_at; by rewrite S1, S2).
  split.
  { destruct O1 as [N F]. split; [done|]. eapply Forall_impl; [exact F|]. intros i. cbn [next_cell]. lia. }
  assert (Hok2 : table_ok t2) by (by apply share_any_port_scopes_on_ok, sort_http_routes_ok).
  split; [unfold table_ok in *; by rewrite S1, S2|]. split.
  - eapply (holds_ext (sort_http_routes t1)); [|by apply holds_sort]. intros port. rewrite Hat. apply scopes_at_share.
  - intros port Hp. assert (searched t port = searched t2 port) as -> by (unfold searched, shared_scopes_of; by rewrite S1, S2, S3).
    rewrite !Hat. unfold t2. rewrite searched_share, !scopes_at_share; [done| |done]. apply unshared_sort, unshared_pushes, map_Forall_empty.
Qed.

End Built.

(** ** Which configured rule answers a request *)

Section Requests.
Context {RE : RegexEngine} {RS : RegexSyntax}.

Section Request.
Context (cfg : PortailConfig) (ins : list Insert) (port : Z) (host method path header_data query_string : list Z).

(** Inserts under port 0 serve every HTTP port. *)
Definition reaches (i : Insert) : Prop := in_port i = port \/ (in_port i = 0 /\ port ∈ http_ports cfg).

Definition listener_rank (i : Insert) : option Z := hostname_match_priority (ListenerScope_new (in_port i) (in_listener i)) host.
Definition route_rank (i : Insert) : option Z := entry_rank (entry_of (lowercase (in_host i))) host.
Definition insert_matches (i : Insert) : bool := rule_matches (in_rule i) method path header_data query_string.

(** No listener with a route on the port fits the host better than rank [p]. *)
Definition top_rank (p : Z) : Prop := forall j q, j ∈ ins -> reaches j -> listener_rank j = Some q -> q <= p.

(** The answer an insert list calls for: the best matching rule of the
    best-fitting listeners, or none. *)
Definition answer_of (o : option HttpRouteRule) : Prop :=
  match o with
  | Some r => exists i p k, i ∈ ins /\ reaches i /\ erased r = placed i /\ insert_matches i = true /\
      listener_rank i = Some p /\ top_rank p /\ route_rank i = Some k /\
      forall j k', j ∈ ins -> reaches j -> listener_rank j = Some p -> insert_matches j = true -> route_rank j = Some k' ->
        then_with (k' ?= k) (match_precedence (placed i) (placed j)) <> Gt
  | None => forall j p, j ∈ ins -> reaches j -> listener_rank j = Some p -> top_rank p -> insert_matches j = true -> route_rank j = None
  end.

End Request.

Lemma hostname_rank s i host : listener_hostname s = lowercase <$> in_listener i -> hostname_match_priority s host = listener_rank host i.
Proof. intros E. unfold listener_rank, hostname_match_priority. cbn [ListenerScope_new listener_hostname]. by rewrite E. Qed.

Lemma elem_of_erase ins i : i ∈ map erase ins <-> exists i0, i0 ∈ ins /\ i = erase i0.
Proof. rewrite list_elem_of_fmap. naive_solver. Qed.

Lemma table_answers cfg t ins host method path header_data query_string port :
  table_ok t -> holds t ins -> port <> 0 ->
  searched t port = scopes_at t port ++ (if bool_decide (port ∈ http_ports cfg) then scopes_at t 0 else []) ->
  Z.of_nat (length host) < U32_MAX ->
  answer_of cfg (map erase ins) port (host_key host) method path header_data query_string
    (find_http_route t host method path header_data query_string port).
Proof.
  intros Hok Hh Hp Hs Hlen.
  assert (Hscope : forall s, s ∈ searched t port -> exists i, i ∈ ins /\ reaches cfg port i /\ listener_hostname s = lowercase <$> in_listener i).
  { intros s. rewrite Hs, elem_of_app. intros [Hin|Hin].
    - destruct (proj1 (holds_scopes t ins Hh port (listener_hostname s))) as (i & ? & ? & <-); [by exists s|]. exists i. split; [done|]. split; [by left|done].
    - case_bool_decide; [|by apply not_elem_of_nil in Hin].
      destruct (proj1 (holds_scopes t ins Hh 0 (listener_hostname s))) as (i & ? & ? & <-); [by exists s|]. exists i. split; [done|]. split; [by right|done]. }
  assert (Hins : forall i, i ∈ ins -> reaches cfg port i -> exists s, s ∈ searched t port /\ listener_hostname s = lowercase <$> in_listener i /\
    placed i ∈ entry_rules s (entry_of (lowercase (in_host i)))).
  { intros i Hi Hr. assert (exists s, s ∈ searched t port /\ s ∈ scopes_at t (in_port i) /\ listener_hostname s = lowercase <$> in_listener i) as (s & H1 & H2 & H3).
    { destruct (proj2 (holds_scopes t ins Hh (in_port i) (lowercase <$> in_listener i))) as (s & Hin & E); [by exists i|]. exists s. split; [|done].
      rewrite Hs, elem_of_app. destruct Hr as [<-|[E0 Hport]]; [by left|]. right. rewrite bool_decide_eq_true_2 by done. by rewrite <- E0. }
    exists s. split; [done|]. split; [done|]. apply (holds_rules t ins Hh (in_port i)); [done|]. by exists i. }
  assert (Hrule : forall s e r, s ∈ searched t port -> r ∈ entry_rules s e -> exists i, i ∈ ins /\ reaches cfg port i /\
    listener_hostname s = lowercase <$> in_listener i /\ entry_of (lowercase (in_host i)) = e /\ r = placed i).
  { intros s e r. rewrite Hs, elem_of_app. intros [Hin|Hin] He.
    - apply (holds_rules t ins Hh port s e r Hin) in He as (i & ? & ? & ? & ? & ?). exists i. split; [done|]. split; [by left|done].
    - case_bool_decide; [|by apply not_elem_of_nil in Hin].
      apply (holds_rules t ins Hh 0 s e r Hin) in He as (i & ? & ? & ? & ? & ?). exists i. split; [done|]. split; [by right|done]. }
  pose proof (find_http_route_best t host method path header_data query_string port Hok Hlen) as Hf.
  pose proof (highest_priority_spec (searched t port) (host_key host)) as Hhi.
  destruct (highest_priority (searched t port) (host_key host)) as [p|].
  2: { rewrite Hf. intros j p (j0 & Hj & ->)%elem_of_erase Hr Hl _ _. destruct (Hins j0 Hj Hr) as (s & Hin & E & _).
       specialize (Hhi s Hin). rewrite (hostname_rank s j0) in Hhi by done. unfold listener_rank in *. cbn [erase in_port in_listener] in Hl. congruence. }
  destruct Hhi as [(s0 & Hin0 & Hp0) Hle], Hf as (o & -> & Hb).
  assert (Htop : top_rank cfg (map erase ins) port (host_key host) p).
  { intros j q (j0 & Hj & ->)%elem_of_erase Hr Hl. destruct (Hins j0 Hj Hr) as (s & Hin & E & _). apply (Hle s q Hin).
    by rewrite (hostname_rank s j0). }
  assert (Hcand : forall j k', j ∈ ins -> reaches cfg port j -> listener_rank (host_key host) j = Some p ->
    insert_matches method path header_data query_string j = true -> route_rank (host_key host) j = Some k' ->
    at_priority method path header_data query_string (searched t port) (host_key host) p (k', placed j)).
  { intros j k' Hj Hr Hl Hm Hk. destruct (Hins j Hj Hr) as (s & Hin & E & He). exists s. split; [done|]. split; [by rewrite (hostname_rank s j)|].
    apply candidate_entry. split; [exact Hm|]. by exists (entry_of (lowercase (in_host j))). }
  destruct o as [[k r]|]; cbn [fmap option_fmap option_map snd].
  - destruct Hb as [(s & Hin & Hsp & Hc) Hb]. apply candidate_entry in Hc as (Hm & e & He & Hk). cbn [fst snd] in Hm, He, Hk.
    destruct (Hrule s e r Hin He) as (i & Hi & Hri & El & Ee & ->). exists (erase i), p, k.
    split; [apply elem_of_erase; by exists i|]. split; [exact Hri|]. split; [done|]. split; [exact Hm|].
    split; [change (listener_rank (host_key host) i = Some p); by rewrite <- (hostname_rank s i)|]. split; [done|]. split; [unfold route_rank; cbn [erase in_host]; by rewrite Ee|].
    intros j k' (j0 & Hj & ->)%elem_of_erase Hrj Hlj Hmj Hkj. specialize (Hb (k', placed j0)). rewrite candidate_cmp_unfold in Hb.
    apply Hb. by apply Hcand.
  - intros j p' (j0 & Hj & ->)%elem_of_erase Hrj Hlj Htop' Hmj. destruct (route_rank (host_key host) (erase j0)) as [k'|] eqn:Ek; [|done]. exfalso.
    assert (p' = p) as ->.
    { destruct (Hscope s0 Hin0) as (i & Hi & Hri & El). rewrite (hostname_rank s0 i) in Hp0 by done.
      pose proof (Htop (erase j0) p' ltac:(apply elem_of_erase; by exists j0) Hrj Hlj).
      pose proof (Htop' (erase i) p ltac:(apply elem_of_erase; by exists i) Hri Hp0). lia. }
    exact (Hb _ (Hcand j0 k' Hj Hrj Hlj Hmj Ek)).
Qed.

End Requests.

(** ** Hostname intersections *)

Lemma starts_wild pat : starts_with WILD pat = is_some (strip_prefix WILD pat).
Proof.
  destruct (starts_with WILD pat) eqn:E; symmetry.
  - apply starts_with_spec in E as [k ->]. by rewrite (proj2 (strip_prefix_Some _ _ _) eq_refl).
  - destruct (strip_prefix WILD pat) as [p|] eqn:Ep; [|done]. apply strip_prefix_Some in Ep as ->. rewrite (proj2 (starts_with_spec _ _)) in E; [done|by exists p].
Qed.

Lemma wild_strip pat : if starts_with WILD pat then exists p, pat = WILD ++ p /\ strip_prefix WILD pat = Some p else strip_prefix WILD pat = None.
Proof.
  rewrite starts_wild. destruct (strip_prefix WILD pat) as [p|] eqn:E; cbn [is_some]; [|done]. exists p. by apply strip_prefix_Some in E.
Qed.

Lemma covers_trans p q host : wildcard_covers p q = true -> wildcard_covers q host = true -> wildcard_covers p host = true.
Proof.
  intros [l ->]%wildcard_covers_spec [k ->]%wildcard_covers_spec. apply wildcard_covers_spec. exists (k ++ 46 :: l). by rewrite <- app_assoc.
Qed.

(** The narrower of two intersecting patterns matches what both match. *)
Lemma narrower_exact lh rh host : hostname_matches lh rh = true ->
  host_pattern (narrower lh rh) host <-> host_pattern (lowercase lh) host /\ host_pattern (lowercase rh) host.
Proof.
  unfold hostname_matches, narrower, hostnames_intersect, host_pattern. set (a := lowercase lh). set (b := lowercase rh). clearbody a b.
  pose proof (wild_strip a) as Ha. pose proof (wild_strip b) as Hb.
  destruct (starts_with WILD a), (starts_with WILD b); cbn [andb negb].
  - destruct Ha as (p & -> & Ea), Hb as (q & -> & Eb). rewrite Ea, Eb. rewrite !length_app. intros H.
    assert (Hcov : (length p <= length q)%nat -> p = q \/ wildcard_covers p q = true).
    { intros Hle. rewrite !orb_true_iff, beq_spec, !covers_wildcard_pattern in H. destruct H as [[->|H]|[->|H]]; auto.
      apply wildcard_covers_length in H. lia. }
    assert (Hcov' : (length q < length p)%nat -> wildcard_covers q p = true).
    { intros Hlt. rewrite !orb_true_iff, beq_spec, !covers_wildcard_pattern in H. destruct H as [[->|[->|H]]|[->|H]]; auto; try lia.
      apply wildcard_covers_length in H. lia. }
    destruct (Nat.leb_spec (length WILD + length p) (length WILD + length q)).
    + rewrite Eb. split; [|tauto]. intros Hq. split; [|done]. destruct Hcov as [->|Hc]; [lia|done|]. by eapply covers_trans.
    + rewrite Ea. split; [|tauto]. intros Hq. split; [done|]. eapply covers_trans; [apply Hcov'; lia|done].
  - destruct Ha as (p & -> & Ea). rewrite Ea, Hb. intros H. split; [by intros ->|by intros [_ ->]].
  - destruct Hb as (q & -> & Eb). rewrite Ha, Eb. intros H. split; [by intros ->|by intros [-> _]].
  - rewrite Ha, Hb. intros ->%beq_spec. destruct (length b <=? length b)%nat; rewrite ?Ha, ?Hb; tauto.
Qed.

Lemma intersect_exact lh rhs host : (exists h, h ∈ intersect_hostnames (Some lh) rhs /\ host_pattern h host) <->
  host_pattern (lowercase lh) host /\ exists rh, rh ∈ rhs /\ host_pattern (lowercase rh) host.
Proof.
  unfold intersect_hostnames. split.
  - intros (h & (rh & -> & Hin)%list_elem_of_fmap & Hp). apply list_elem_of_In, filter_In in Hin as [Hin Hm].
    apply narrower_exact in Hp as [H1 H2]; [|done]. split; [done|]. exists rh. split; [by apply list_elem_of_In|done].
  - intros (Hl & rh & Hin & Hr). assert (Hm : hostname_matches lh rh = true).
    { unfold hostname_matches. apply hostnames_intersect_exact. by exists host. }
    exists (narrower lh rh). split; [|by apply narrower_exact]. apply list_elem_of_fmap_2, list_elem_of_In, filter_In.
    split; [by apply list_elem_of_In|done].
Qed.

(** ** TCP and UDP routes *)

Section L4.
Context {RE : RegexEngine} {RS : RegexSyntax} (keyed_hash : SocketAddr -> Z).
Context (policy : BuildPolicy) (answers : list Z -> Z -> option (list SocketAddr)).

Definition l4_map (is_udp : bool) (t : RouteTable) : gmap Z (list Backend) := if is_udp then udp_routes t else tcp_routes t.

Definition l4_ports (cfg : PortailConfig) (is_udp : bool) (route : TcpRouteConfig) : list Z :=
  map l_port (List.filter (takes_l4 is_udp) (find_listeners_for_route (t_parent_refs route) (gateway cfg))).

(** The backends a route brings to a port, and those of the first route that
    brings any. *)
Definition l4_offer (cfg : PortailConfig) (is_udp : bool) (port : Z) (route : TcpRouteConfig) : option (list Backend) :=
  match t_rules route with
  | [] => None
  | rule :: _ => if bool_decide (port ∈ l4_ports cfg is_udp route) then Some (described_l4 keyed_hash answers cfg (l4_backend_refs rule)) else None
  end.

Fixpoint first_offer (cfg : PortailConfig) (is_udp : bool) (port : Z) (routes : list TcpRouteConfig) : option (list Backend) :=
  match routes with
  | [] => None
  | route :: rest => match l4_offer cfg is_udp port route with Some bks => Some bks | None => first_offer cfg is_udp port rest end
  end.

Lemma add_l4_map (is_udp u : bool) t p bks port :
  l4_map u (if is_udp then add_udp_route t p bks else add_tcp_route t p bks).1 !! port =
  if bool_decide (u = is_udp /\ port = p) then Some (default bks (l4_map u t !! port)) else l4_map u t !! port.
Proof.
  unfold l4_map, add_udp_route, add_tcp_route, insert_first.
  destruct is_udp, u; (case_bool_decide as E; [destruct E as [E1 ->]; try done|]);
    (match goal with |- context [match ?m !! ?k with _ => _ end] => destruct (m !! k) eqn:Em end);
    cbn [fst udp_routes tcp_routes]; rewrite ?lookup_insert_eq; try done; try (by rewrite Em);
    rewrite lookup_insert_ne; try done; by intros ->; apply E.
Qed.

Lemma fold_l4_map (is_udp u : bool) bks ls t port :
  l4_map u (fold_left (fun t (l : ListenerConfig) => (if is_udp then add_udp_route t (l_port l) bks else add_tcp_route t (l_port l) bks).1) ls t) !! port =
  if bool_decide (u = is_udp /\ port ∈ map l_port ls) then Some (default bks (l4_map u t !! port)) else l4_map u t !! port.
Proof.
  revert t. induction ls as [|l ls IH]; intros t; cbn [fold_left map].
  { rewrite bool_decide_eq_false_2; [done|]. intros [_ ?%not_elem_of_nil]. done. }
  rewrite IH, add_l4_map. destruct (decide (u = is_udp)) as [->|Hu].
  2: { rewrite !bool_decide_eq_false_2 by tauto. done. }
  rewrite (bool_decide_ext (is_udp = is_udp /\ port = l_port l) (port = l_port l)) by tauto.
  rewrite (bool_decide_ext (is_udp = is_udp /\ port ∈ map l_port ls) (port ∈ map l_port ls)) by tauto.
  rewrite (bool_decide_ext (is_udp = is_udp /\ port ∈ l_port l :: map l_port ls) (port = l_port l \/ port ∈ map l_port ls)) by (rewrite elem_of_cons; tauto).
  destruct (decide (port = l_port l)) as [E1|E1]; destruct (decide (port ∈ map l_port ls)) as [E2|E2].
  - rewrite !bool_decide_eq_true_2 by tauto. done.
  - rewrite (bool_decide_eq_false_2 (port ∈ map l_port ls)), !bool_decide_eq_true_2 by tauto. done.
  - rewrite (bool_decide_eq_false_2 (port = l_port l)), !bool_decide_eq_true_2 by tauto. done.
  - rewrite !bool_decide_eq_false_2 by tauto. done.
Qed.

(** What a run of routes adds to the L4 maps. *)
Definition l4_grows (cfg : PortailConfig) (is_udp : bool) (routes : list TcpRouteConfig) (t t' : RouteTable) : Prop :=
  forall u port, l4_map u t' !! port =
    if bool_decide (u = is_udp) then match l4_map u t !! port with Some b => Some b | None => first_offer cfg is_udp port routes end
    else l4_map u t !! port.

Lemma convert_l4_grows cfg is_udp t route s t' s' : remembers answers s ->
  convert_l4_route keyed_hash policy (fun _ => answers) cfg is_udp t route s = (Ok t', s') -> remembers answers s' /\ l4_grows cfg is_udp [route] t t'.
Proof.
  intros Hs H. unfold convert_l4_route in H. unfold l4_grows, first_offer, l4_offer, l4_ports. destruct (t_rules route) as [|rule rules].
  { injection H as <- <-. split; [done|]. intros u port. case_bool_decide; [|done]. by destruct (l4_map u t !! port). }
  set (ls := List.filter (takes_l4 is_udp) (find_listeners_for_route (t_parent_refs route) (gateway cfg))) in *.
  clearbody ls. destruct (is_nil ls) eqn:En.
  { destruct ls; [|done]. injection H as <- <-. split; [done|]. intros u port. case_bool_decide; [|done]. cbn [map].
    rewrite (bool_decide_eq_false_2 (port ∈ [])) by apply not_elem_of_nil. by destruct (l4_map u t !! port). }
  apply bind_ok in H as (bks & s1 & H1 & [= <- <-]). destruct (gives_l4_backends keyed_hash policy answers cfg _ _ _ _ Hs H1) as (R1 & -> & _).
  split; [done|]. intros u port. rewrite fold_l4_map. destruct (decide (u = is_udp)) as [->|Hu].
  2: { rewrite (bool_decide_eq_false_2 (u = is_udp)), bool_decide_eq_false_2 by tauto. done. }
  rewrite (bool_decide_eq_true_2 (is_udp = is_udp)) by done.
  rewrite (bool_decide_ext (is_udp = is_udp /\ port ∈ map l_port ls) (port ∈ map l_port ls)) by tauto.
  case_bool_decide; destruct (l4_map is_udp t !! port); done.
Qed.

Lemma l4_grows_app cfg is_udp route routes t t1 t2 : l4_grows cfg is_udp [route] t t1 -> l4_grows cfg is_udp routes t1 t2 ->
  l4_grows cfg is_udp (route :: routes) t t2.
Proof.
  intros H1 H2 u port. rewrite (H2 u port), (H1 u port). case_bool_decide; [|done]. cbn [first_offer].
  destruct (l4_map u t !! port); [done|]. by destruct (l4_offer cfg is_udp port route).
Qed.

Lemma convert_l4_routes_grow cfg is_udp routes t s t' s' : remembers answers s ->
  convert_l4_routes keyed_hash policy (fun _ => answers) cfg routes is_udp t s = (Ok t', s') -> remembers answers s' /\ l4_grows cfg is_udp routes t t'.
Proof.
  unfold convert_l4_routes. revert t s. induction routes as [|route routes IH]; intros t s Hs; cbn [each].
  - intros [= <- <-]. split; [done|]. intros u port. case_bool_decide; [|done]. cbn [first_offer]. by destruct (l4_map u t !! port).
  - intros (t1 & s1 & H1 & H2)%bind_ok. destruct (convert_l4_grows cfg is_udp t route s t1 s1 Hs H1) as [R1 G1].
    destruct (IH t1 s1 R1 H2) as [R2 G2]. split; [done|]. by eapply l4_grows_app.
Qed.

(** HTTP and TLS routes leave the L4 maps alone. *)
Definition same_l4 (t t' : RouteTable) : Prop := tcp_routes t' = tcp_routes t /\ udp_routes t' = udp_routes t.

Lemma tls_same_l4 (look : nat -> list Z -> Z -> option (list SocketAddr)) cfg t0 routes t : same_l4 t0 t ->
  returns (each (convert_tls_route keyed_hash policy look cfg) routes t) (same_l4 t0).
Proof.
  intros Ht. apply returns_each; [done|]. intros t1 route _ H1. unfold convert_tls_route. destruct (is_nil _); [by apply returns_ret|].
  apply returns_each; [done|]. intros t2 rule _ H2. eapply returns_bind; [apply returns_any|]. intros bks _. apply returns_ret.
  assert (Hfold : forall {A} (f : RouteTable -> A -> RouteTable) l t, (forall t a, same_l4 t (f t a)) -> same_l4 t (fold_left f l t)).
  { intros A f l. induction l as [|a l IH]; intros t3 Hf; cbn [fold_left]; [done|]. destruct (IH (f t3 a) Hf) as [E1 E2], (Hf t3 a) as [E3 E4]. split; congruence. }
  assert (Hgoal : same_l4 t2 (fold_left (fun t '(port, lh, hosts) => fold_left (fun t host => (add_tls_route_for_listener t port lh host bks).1) hosts t)
    (tls_route_scopes cfg route) t2)).
  { apply Hfold. intros t3 [[port lh] hosts]. apply Hfold. intros t4 host. unfold add_tls_route_for_listener. by destruct (update_tls_scope _ _ _ _). }
  destruct Hgoal as [E1 E2], H2 as [E3 E4]. split; congruence.
Qed.

Lemma push_same_l4 ins t : same_l4 t (fold_left push_insert ins t).
Proof.
  revert t. induction ins as [|i ins IH]; intros t; cbn [fold_left]; [done|]. destruct (IH (push_insert t i)) as [E1 E2].
  assert (same_l4 t (push_insert t i)) as [E3 E4] by (unfold push_insert, push_http_route_for_listener, scope_mut; by destruct (in_port i =? 0)).
  split; congruence.
Qed.

End L4.

Section L4Built.
Context {RE : RegexEngine} {RS : RegexSyntax} (keyed_hash : SocketAddr -> Z).
Context (policy : BuildPolicy) (lookup : nat -> list Z -> Z -> option (list SocketAddr)).

Lemma built_l4 cfg s t s' : build_route_table keyed_hash policy lookup cfg s = (Ok t, s') ->
  forall port, find_tcp_backends t port = first_offer keyed_hash (final_answers s') cfg false port (cfg_tcp_routes cfg) /\
    find_udp_backends t port = first_offer keyed_hash (final_answers s') cfg true port (cfg_udp_routes cfg).
Proof.
  intros H port. destruct (build_answered keyed_hash policy lookup cfg s t s' H) as [_ Hb].
  apply bind_ok in Hb as (u & s0 & [= _ <-] & Hb). apply bind_ok in Hb as (t1 & s1 & H1 & Hb).
  destruct (pushes_http keyed_hash policy (final_answers s') cfg _ _ _ (map_Forall_empty _) H1) as (R1 & _ & ins & -> & _).
  cbv zeta in Hb. apply bind_ok in Hb as (t3 & s3 & H3 & Hb). apply bind_ok in Hb as (t4 & s4 & H4 & Hb).
  destruct (convert_l4_routes_grow _ _ _ _ _ _ _ _ _ _ R1 H3) as [R3 G3]. destruct (convert_l4_routes_grow _ _ _ _ _ _ _ _ _ _ R3 H4) as [R4 G4].
  destruct (tls_same_l4 keyed_hash policy _ cfg t4 _ t4 (conj eq_refl eq_refl) _ _ _ Hb) as [E1 E2].
  destruct (push_same_l4 ins RouteTable_new) as [P1 P2].
  unfold find_tcp_backends, find_udp_backends. rewrite E1, E2. split.
  - pose proof (G4 false port) as A. pose proof (G3 false port) as B. cbn [l4_map] in A, B. rewrite A, bool_decide_eq_false_2 by done.
    rewrite B, bool_decide_eq_true_2 by done. cbn [share_any_port_scopes_on sort_http_routes set_listener_scopes set_shared_scopes tcp_routes].
    rewrite P1. cbn [RouteTable_new tcp_routes]. by rewrite lookup_empty.
  - pose proof (G4 true port) as A. pose proof (G3 true port) as B. cbn [l4_map] in A, B. rewrite A, bool_decide_eq_true_2 by done.
    rewrite B, bool_decide_eq_false_2 by done. cbn [share_any_port_scopes_on sort_http_routes set_listener_scopes set_shared_scopes udp_routes].
    rewrite P2. cbn [RouteTable_new udp_routes]. by rewrite lookup_empty.
Qed.

End L4Built.

(** ** Properties *)


(** Every rule a build inserts counts its rotation on a cell of its own,
    allocated by that build: the rules the table holds are the configuration's,
    with pairwise distinct counters, so no two listeners, hostnames or
    matches share a rotation, nor does a table with the one it replaces. *)
Theorem rules_rotate_alone {RE : RegexEngine} {RS : RegexSyntax} (keyed_hash : SocketAddr -> Z) (policy : BuildPolicy)
  (lookup : nat -> list Z -> Z -> option (list SocketAddr)) (cfg : PortailConfig) (s s' : BuildState) (t : RouteTable)
  (H : build_route_table keyed_hash policy lookup cfg s = (Ok t, s')) :
  exists ins, map erase ins = config_inserts keyed_hash (final_answers s') cfg /\ holds t ins /\
    NoDup (map cell_of ins) /\ forall i, i ∈ ins -> (next_cell s <= cell_of i < next_cell s')%positive.
Proof.
  destruct (built_holds keyed_hash policy lookup cfg s t s' H) as (ins & E & [Hn Hc] & _ & Hh & _). exists ins.
  split; [done|]. split; [done|]. split; [done|]. by apply Forall_forall.
Qed.

(** One route per TCP or UDP port. The backends a port balances over are
    those of the first rule of the first route, in configuration order, whose
    parentRefs select a listener of that protocol on the port; later routes
    and rules change nothing. *)
Theorem l4_first_route_wins {RE : RegexEngine} {RS : RegexSyntax} (keyed_hash : SocketAddr -> Z) (policy : BuildPolicy)
  (lookup : nat -> list Z -> Z -> option (list SocketAddr)) (cfg : PortailConfig) (s s' : BuildState) (t : RouteTable)
  (H : build_route_table keyed_hash policy lookup cfg s = (Ok t, s')) :
  exists answers, answered lookup s s' answers /\
    forall port, find_tcp_backends t port = first_offer keyed_hash answers cfg false port (cfg_tcp_routes cfg) /\
      find_udp_backends t port = first_offer keyed_hash answers cfg true port (cfg_udp_routes cfg).
Proof.
  exists (final_answers s'). split; [by eapply build_answered|]. by eapply built_l4.
Qed.

(** A route attached to a listener with a hostname serves exactly the
    hosts both name: a host is covered by one of the intersected hostnames
    just when the listener's hostname covers it and one of the route's does,
    in any case. *)
Theorem intersect_hostnames_exact (lh : list Z) (rhs : list (list Z)) (host : list Z) :
  (exists h, h ∈ intersect_hostnames (Some lh) rhs /\ host_pattern h host) <->
  host_pattern (lowercase lh) host /\ exists rh, rh ∈ rhs /\ host_pattern (lowercase rh) host.
Proof. apply intersect_exact. Qed.

(** ** Witnesses *)

#[local] Existing Instance literal_regex.
#[local] Existing Instance literal_syntax.

Lemma sample_finds : exists r, find_http_route sample_built (bs "A.example.com") (bs "GET") (bs "/v1/x") [] [] 443 = Some r.
Proof.
  assert (H : forall o : option HttpRouteRule, is_some o = true -> exists r, o = Some r) by (intros [r|]; [by exists r|done]).
  apply H. vm_compute. reflexivity.
Qed.


Lemma rules_rotate_alone_witness : exists s' ins,
  build_route_table (fun _ => 0) Strict sample_lookup sample_config start_state = (Ok sample_built, s') /\ map erase ins = config_inserts (fun _ => 0) (final_answers s') sample_config /\ holds sample_built ins /\ NoDup (map cell_of ins).
Proof.
  destruct sample_built_by as [s' H].
  destruct (rules_rotate_alone (fun _ => 0) Strict sample_lookup sample_config start_state s' sample_built H) as (ins & E & Hh & Hn & _).
  exists s', ins. exact (conj H (conj E (conj Hh Hn))).
Defined.

Lemma l4_first_route_wins_witness : exists answers,
  first_offer (fun _ => 0) answers sample_config false 9000 (cfg_tcp_routes sample_config) = Some [backend_at (SocketV4 167772162 5432) 1 (bs "pg")].
Proof.
  destruct sample_built_by as [s' H].
  destruct (l4_first_route_wins (fun _ => 0) Strict sample_lookup sample_config start_state s' sample_built H) as (answers & _ & Ha).
  exists answers. rewrite <- (proj1 (Ha 9000)). vm_compute. reflexivity.
Defined.
