(* ===== verification/ConfigSafety.v ===== *)
(** * What a built table lets on the wire

    No code here: the rules of a table built from any configuration carry
    safe filters only, so no request forwarded by such a table can be read
    in two ways ([FilterSafety.v]), whatever the configuration says. *)

From S2P Require Import Prelude Bytes Net HttpGrammar Routing RouteLookup RouteBuild Health Selection PathNorm HttpParser HttpFilters Method.
From S2P Require Import RequestProcessor Outgoing Reread Config FilterSafety AcceptedFilters ConfigTable ConfigServes.

Section Found.
Context {RE : RegexEngine}.

Lemma best_match_elem rules method path header_data query_string r :
  find_best_rule_match rules method path header_data query_string = Some r -> r ∈ rules.
Proof.
  induction rules as [|x rules IH]; cbn [find_best_rule_match]; [done|]. destruct (rule_matches _ _ _ _ _); rewrite elem_of_cons; [intros [= ->]; by left|].
  intros H. right. by apply IH.
Qed.

Lemma parents_elem m ps method path header_data query_string k r : lookup_parents method path header_data query_string m ps = Some (k, r) ->
  exists p he, m !! p = Some he /\ r ∈ he.
Proof.
  induction ps as [|p ps IH]; cbn [lookup_parents]; [done|]. destruct (m !! p) as [he|] eqn:E; [|done].
  destruct (find_best_rule_match he _ _ _ _) as [x|] eqn:Ef; [|done]. intros [= _ ->]. exists p, he. split; [done|]. by eapply best_match_elem.
Qed.

(** A rule found is a rule of a scope searched. *)
Lemma lookup_elem s host method path header_data query_string k r : lookup_http_route method path header_data query_string s host = Some (k, r) ->
  exists e, r ∈ entry_rules s e.
Proof.
  unfold lookup_http_route. destruct (match http_routes s !! host with Some he => _ | None => None end) as [x|] eqn:E.
  - intros [= _ ->]. exists (EExact host). unfold entry_rules. destruct (http_routes s !! host) as [he|]; [|done]. by eapply best_match_elem.
  - destruct (lookup_parents _ _ _ _ _ _) as [[k' x]|] eqn:Ep.
    + intros [= _ ->]. apply parents_elem in Ep as (p & he & Hl & Hin). exists (EWildcard p). unfold entry_rules. by rewrite Hl.
    + destruct (catch_all_http_routes s) as [he|] eqn:Ec; [|done]. destruct (find_best_rule_match he _ _ _ _) as [x|] eqn:Ef; [|done].
      intros [= _ ->]. exists ECatchAll. unfold entry_rules. rewrite Ec. by eapply best_match_elem.
Qed.

Lemma search_elem compare highest host method path header_data query_string best ss r :
  search_scopes method path header_data query_string compare highest host best ss = Some r ->
  (exists s k, s ∈ ss /\ lookup_http_route method path header_data query_string s host = Some (k, r)) \/ snd <$> best = Some r.
Proof.
  revert best. induction ss as [|s ss IH]; intros best; cbn [search_scopes]; [by right|].
  assert (Hlift : forall best' : option (Z * HttpRouteRule), (exists s' k, s' ∈ ss /\ lookup_http_route method path header_data query_string s' host = Some (k, r)) \/ snd <$> best' = Some r ->
    (exists s' k, s' ∈ s :: ss /\ lookup_http_route method path header_data query_string s' host = Some (k, r)) \/ snd <$> best' = Some r).
  { intros best' [(s' & k & Hin & H)|H]; [left; exists s', k; split; [by apply elem_of_cons; right|done]|by right]. }
  destruct (hostname_match_priority s host); [|intros H; by apply Hlift, IH]. destruct (_ <? _); [intros H; by apply Hlift, IH|].
  destruct (lookup_http_route _ _ _ _ s host) as [[k x]|] eqn:E; [|intros H; by apply Hlift, IH].
  assert (Hhere : x = r -> (exists s' k', s' ∈ s :: ss /\ lookup_http_route method path header_data query_string s' host = Some (k', r)) \/ snd <$> best = Some r).
  { intros ->. left. exists s, k. split; [apply elem_of_cons; by left|done]. }
  destruct (negb compare); [intros [= H]; by apply Hhere|]. intros H. apply IH, Hlift in H as [H|H]; [by left|].
  destruct best as [held|]; [destruct (outranks (k, x) held)|]; cbn in H; [injection H as H; by apply Hhere|by right|injection H as H; by apply Hhere].
Qed.

Lemma find_elem t host method path header_data query_string port r : find_http_route t host method path header_data query_string port = Some r ->
  exists s e, s ∈ searched t port /\ r ∈ entry_rules s e.
Proof.
  unfold find_http_route. fold (searched t port). destruct (highest_priority _ _); [|done].
  intros [(s & k & Hin & H)|H]%search_elem; [|done]. apply lookup_elem in H as [e He]. by exists s, e.
Qed.

End Found.

Section Safe.
Context {RE : RegexEngine} {RS : RegexSyntax} (keyed_hash : SocketAddr -> Z).

Definition cfg_typed (cfg : PortailConfig) : Prop := Forall (fun route => Forall cfg_rule_typed (h_rules route)) (cfg_http_routes cfg).

Lemma for_insert_safe r cell lim idx : rule_safe r -> rule_safe (for_insert r cell lim idx).
Proof. by intros [H1 H2 H3 H4]. Qed.

Lemma placed_safe i : rule_safe (in_rule (erase i)) -> rule_safe (placed i).
Proof. by intros [H1 H2 H3 H4]. Qed.

Lemma described_rules_safe answers cfg cr : compiled_rule_safe cr -> Forall rule_safe (described_rules keyed_hash answers cfg cr).
Proof.
  intros Hcr. apply Forall_fmap, Forall_forall. intros m Hm. cbv beta. apply to_rule_safe with (cr := cr); [done|done| |].
  - apply Forall_concat, Forall_fmap, Forall_forall. intros f Hf. destruct f as [f|b fr]; cbn [compose described_filter].
    + constructor; [by left|constructor].
    + destruct (br_invalid b); [constructor|]. destruct (smallest _); [|constructor]. constructor; [right; by eexists _, _|constructor].
  - unfold described_http. destruct (redirects (source cr)); [constructor|]. apply Forall_concat, Forall_fmap, Forall_forall. intros [br fs] Hin.
    cbn [compose fst snd]. unfold described_backends. destruct (br_invalid br); [constructor; [by left|constructor]|].
    apply Forall_fmap, Forall_forall. intros e _. right. cbn. by apply elem_of_zip_r in Hin.
Qed.

Lemma config_inserts_safe answers cfg : cfg_typed cfg -> Forall (fun i => rule_safe (in_rule i)) (config_inserts keyed_hash answers cfg).
Proof.
  intros Ht. apply Forall_concat, Forall_fmap, Forall_forall. intros [idx route] Hin. cbn [compose]. unfold route_inserts. cbn [fst snd].
  apply elem_of_lookup_imap in Hin as (i & r & [= -> ->] & Hi). unfold cfg_typed in Ht. rewrite Forall_forall in Ht. specialize (Ht r (list_elem_of_lookup_2 _ _ _ Hi)). cbv beta in Ht.
  destruct (compile_http_route r) as [crs|e] eqn:Ec; [|constructor]. unfold compile_http_route in Ec. apply try_imap_ok in Ec.
  assert (Hsafe : Forall compiled_rule_safe crs) by (eapply Forall2_typed; [|exact Ht|exact Ec]; intros; by eapply compile_rule_ok).
  apply Forall_concat, Forall_fmap, Forall_forall. intros [[port lh] lim] _. cbn [compose scope_inserts].
  apply Forall_concat, Forall_fmap, Forall_forall. intros host _. cbn [compose]. apply Forall_fmap, Forall_concat, Forall_fmap.
  eapply Forall_impl; [exact Hsafe|]. intros cr Hcr. cbn [compose]. eapply Forall_impl; [by apply (described_rules_safe answers cfg)|].
  intros rule Hr. cbn [compose in_rule]. by apply for_insert_safe.
Qed.

Lemma built_rules_safe policy lookup cfg s t s' host method path header_data query_string port r : cfg_typed cfg -> port <> 0 ->
  build_route_table keyed_hash policy lookup cfg s = (Ok t, s') ->
  find_http_route t host method path header_data query_string port = Some r -> rule_safe r.
Proof.
  intros Ht Hp Hb Hf. destruct (built_holds keyed_hash policy lookup cfg s t s' Hb) as (ins & He & _ & _ & Hh & Hs).
  assert (Hins : Forall (fun i => rule_safe (placed i)) ins).
  { pose proof (config_inserts_safe (final_answers s') cfg Ht) as H. rewrite <- He, Forall_forall in H. apply Forall_forall.
    intros i Hi. apply placed_safe, (H (erase i)). by apply list_elem_of_fmap_2. }
  rewrite Forall_forall in Hins. apply find_elem in Hf as (sc & e & Hin & Hr). rewrite Hs in Hin by done.
  apply elem_of_app in Hin as [Hin|Hin]; [|case_bool_decide; [|by apply not_elem_of_nil in Hin]].
  - destruct (proj1 (holds_rules t ins Hh port sc e r Hin) Hr) as (i & Hi & _ & _ & _ & E). rewrite E. by apply Hins.
  - destruct (proj1 (holds_rules t ins Hh 0 sc e r Hin) Hr) as (i & Hi & _ & _ & _ & E). rewrite E. by apply Hins.
Qed.

End Safe.

(** ** Properties *)

(** C2: no request smuggling through configuration. For every configuration
    whatsoever and every table built from it, under either policy and
    whatever DNS answers: whenever the table forwards a client's bytes, with
    whatever the rule's and the backend's filters rewrite, set, add and
    remove, the head sent to the backend is one grammatical request that ends
    where the buffer ends, with the method and exactly the framing lines of
    the client's request and at most one Host line; and if the Host values
    the filters set are hosts, the strict parser accepts it with the length
    and coding the body is relayed by. *)
Theorem configured_request_reads_back {RE : RegexEngine} {RS : RegexSyntax} {MC : Memchr} {AR : Arch} (keyed_hash : SocketAddr -> Z)
  (policy : BuildPolicy) (lookup : nat -> list Z -> Z -> option (list SocketAddr)) (cfg : PortailConfig) (s s' : BuildState) (t : RouteTable)
  (st st' : SelectState) (data : list Z) (reads : Reads) (is_tls : bool) (port : Z) (b : Backend) (rule : HttpRouteRule) (meta : RequestMeta) (ip : IpAddr)
  (Hcfg : cfg_typed cfg) (Hb : build_route_table keyed_hash policy lookup cfg s = (Ok t, s'))
  (Hu : Forall u8 data) (Hlen : Z.of_nat (length data) < 2 ^ 32) (Hip : ip_ok ip) (Hport : 0 < port)
  (H : analyze_http_request t st data reads is_tls port = (HttpForward b rule meta, st')) :
  let out := build_outgoing_headers data (meta_head_len meta) rule b meta ip is_tls in
  exists r rest r', data = render r ++ rest /\ good_request r /\ unambiguous r /\ out = render r' /\ good_request r' /\
    find_header_end (out ++ rest) = Some (length out) /\ rq_method r' = rq_method r /\
    values (bs "content-length") (rq_lines r') = values (bs "content-length") (rq_lines r) /\
    values (bs "transfer-encoding") (rq_lines r') = values (bs "transfer-encoding") (rq_lines r) /\
    (length (values (bs "host") (rq_lines r')) <= 1)%nat /\
    (hosts_readable (filters rule) -> hosts_readable (backend_filters b) ->
     exists info, extract_routing_info out = Ok info /\ header_violation info = false /\ head_len info = length out /\
       content_length info = meta_content_length meta /\ is_chunked info = meta_is_chunked meta).
Proof.
  eapply (filtered_reads_back t st data reads is_tls port b rule meta st' ip); try done.
  pose proof H as (info & npath & i & _ & _ & _ & Hf & _)%forward_inv. eapply built_rules_safe; [exact Hcfg| |exact Hb|exact Hf]. lia.
Qed.

(** ** Witness *)

#[local] Existing Instance literal_regex.
#[local] Existing Instance literal_syntax.
#[local] Instance witness_arch : Arch := Little.

Definition sample_post : list Z :=
  bs "POST /v1/x?q HTTP/1.1" ++ CRLF_ ++ bs "Host: a.example.com" ++ CRLF_ ++ bs "Content-Length: 4" ++ CRLF_
  ++ bs "Cookie: k=v" ++ CRLF_ ++ CRLF_ ++ bs "body".

Lemma sample_post_u8 : Forall u8 sample_post.
Proof. apply Forall_u8_literal. vm_compute. reflexivity. Qed.

Lemma sample_config_typed : cfg_typed sample_config.
Proof.
  assert (Hs : forall x, forallb (fun b => (0 <=? b) && (b <? 256)) x && utf8_valid x = true -> str_ok x).
  { intros x [H1 H2]%andb_true_iff. split; [by apply Forall_u8_literal|done]. }
  unfold cfg_typed. cbn [sample_config cfg_http_routes]. apply Forall_singleton. cbn [h_rules]. apply Forall_singleton.
  split; [|split]; cbn [c_matches c_filters backend_refs].
  - apply Forall_singleton. apply Hs. reflexivity.
  - apply Forall_cons. split; [|apply Forall_singleton].
    + split; [|split]; cbn [cfg_set cfg_add cfg_remove]; [apply Forall_singleton|apply Forall_nil; exact I|apply Forall_singleton; apply Hs; reflexivity].
      split; apply Hs; reflexivity.
    + split; apply Hs; reflexivity.
  - apply Forall_cons. split; [|apply Forall_singleton]; apply Forall_nil; exact I.
Qed.

Lemma forwards_some (o : RoutingResult * SelectState) : match o with (HttpForward _ _ _, _) => true | _ => false end = true ->
  exists b rule meta st', o = (HttpForward b rule meta, st').
Proof. destruct o as [[b rule meta| | | |] st']; try done. intros _. by exists b, rule, meta, st'. Qed.

Lemma sample_forwards : exists b rule meta st',
  analyze_http_request sample_built sample_state sample_post (steady HealthRegistry_new) false 80 = (HttpForward b rule meta, st').
Proof. apply forwards_some. vm_compute. reflexivity. Qed.

Lemma configured_request_reads_back_witness : exists b rule meta r rest r',
  build_outgoing_headers sample_post (meta_head_len meta) rule b meta (V4 1) false = render r' /\ good_request r' /\
  sample_post = render r ++ rest /\ rq_method r' = rq_method r /\
  values (bs "content-length") (rq_lines r') = values (bs "content-length") (rq_lines r).
Proof.
  destruct sample_built_by as [s' Hb], sample_forwards as (b & rule & meta & st' & H).
  destruct (configured_request_reads_back (fun _ => 0) Strict sample_lookup sample_config start_state s' sample_built sample_state st' sample_post
    (steady HealthRegistry_new) false 80 b rule meta (V4 1) sample_config_typed Hb sample_post_u8 ltac:(vm_compute; reflexivity)
    ltac:(vm_compute; split; congruence) ltac:(lia) H) as (r & rest & r' & Hd & _ & _ & Ho & Hg & _ & Hm & Hc & _).
  exists b, rule, meta, r, rest, r'. exact (conj Ho (conj Hg (conj Hd (conj Hm Hc)))).
Defined.
