(* ===== verification/Validation.v ===== *)
(** * Validating a file configuration

    [src/src/config/validation.rs]: the checks a configuration file passes
    before it is loaded. Error texts are left out: an error keeps which check
    failed. *)

From S2P Require Import Prelude Bytes Net IpText RateLimit HttpGrammar Routing RouteLookup RouteBuild Config FilterSafety AcceptedFilters ConfigTable ConfigServes.

Inductive ValidationError :=
  | GatewayNameEmpty
  | NoListener
  | ListenerNameEmpty
  | PortZero
  | InterfaceEmpty
  | InterfaceTooLong
  | InterfaceCharacter
  | InvalidBindAddress
  | RateOutOfRange
  | BurstOutOfRange
  | TlsRequired
  | TlsModeMismatch
  | NoCertificate
  | CertificateNameEmpty (i : nat)
  | TlsForbidden
  | NoHostname
  | HostnameEmpty
  | HostnameWithPort
  | WildcardForm
  | NoParentRef
  | ParentRefNameEmpty
  | NoRule
  | NoBackendRef
  | InvalidBackendRef (i : nat) (e : BackendRefError)
  | FilterUnset (i : nat)
  | RuleError (i : nat) (e : ValidationError)
  | RouteErrorAt (e : RouteError)
  | AtListener (i : nat) (e : ValidationError)
  | AtHttpRoute (i : nat) (e : ValidationError)
  | AtTcpRoute (i : nat) (e : ValidationError)
  | AtTlsRoute (i : nat) (e : ValidationError)
  | AtUdpRoute (i : nat) (e : ValidationError)
  | PortConflict (port : Z)
  | ProtocolConflict (port : Z)
  | UnresolvedParentRef
  | SessionTimeoutZero
  | MaxSessionsZero.

Abbreviation Checked := (result unit ValidationError) (only parsing).

(** A loop of checks, each error placed by its index. *)
Fixpoint check_each {A} (place : nat -> ValidationError -> ValidationError) (f : A -> Checked) (i : nat) (l : list A) : Checked :=
  match l with
  | [] => Ok tt
  | a :: t => and_then (map_err (place i) (f a)) (fun _ => check_each place f (S i) t)
  end.

(** An unplaced loop. *)
Definition check_list {A} (f : A -> Checked) (l : list A) : Checked := check_each (fun _ e => e) f 0 l.

Definition ensure (b : bool) (e : ValidationError) : Checked := if b then Ok tt else Err e.

(** ** Listeners *)

Definition validate_port (port : Z) : Checked := ensure (negb (port =? 0)) PortZero.

Definition contains_byte (c : Z) (s : list Z) : bool := is_some (find_byte c s).

Definition validate_interface (interface : list Z) : Checked :=
  and_then (ensure (negb (is_nil interface)) InterfaceEmpty) (fun _ =>
  and_then (ensure (length interface <=? 15)%nat InterfaceTooLong) (fun _ =>
    ensure (negb (contains_byte 32 interface || contains_byte 47 interface || contains_byte 58 interface)) InterfaceCharacter)).

Definition validate_rate_limit (s : RateLimitSpec) : Checked :=
  and_then (ensure (negb ((requests_per_second s =? 0) || (1000000 <? requests_per_second s))) RateOutOfRange) (fun _ =>
    match spec_burst s with
    | Some burst => ensure (negb ((burst =? 0) || (MAX_BURST <? burst))) BurstOutOfRange
    | None => Ok tt
    end).

Definition validate_listener_tls (l : ListenerConfig) : Checked :=
  match l_protocol l with
  | HTTPS =>
      match l_tls l with
      | None => Err TlsRequired
      | Some tls =>
          if negb (bool_decide (tls_mode tls = Terminate)) then Err TlsModeMismatch
          else if is_nil (certificate_refs tls) then Err NoCertificate
          else check_each (fun i _ => CertificateNameEmpty i) (fun c => ensure (negb (is_nil (cert_name c))) NoCertificate) 0 (certificate_refs tls)
      end
  | TLS =>
      match l_tls l with
      | None => Err TlsRequired
      | Some tls => ensure (bool_decide (tls_mode tls = Passthrough)) TlsModeMismatch
      end
  | HTTP | TCP | UDP => ensure (negb (is_some (l_tls l))) TlsForbidden
  end.

Definition validate_listener (l : ListenerConfig) : Checked :=
  and_then (ensure (negb (is_nil (l_name l))) ListenerNameEmpty) (fun _ =>
  and_then (validate_port (l_port l)) (fun _ =>
  and_then (match l_interface l with Some i => validate_interface i | None => Ok tt end) (fun _ =>
  and_then (match l_address l with Some a => ensure (is_some (parse_ip_addr a)) InvalidBindAddress | None => Ok tt end) (fun _ =>
  and_then (match l_rate_limit l with Some rl => validate_rate_limit rl | None => Ok tt end) (fun _ =>
    validate_listener_tls l))))).

Definition validate_gateway (g : GatewayConfig) : Checked :=
  and_then (ensure (negb (is_nil (g_name g))) GatewayNameEmpty) (fun _ =>
  and_then (ensure (negb (is_nil (listeners g))) NoListener) (fun _ =>
    check_each AtListener validate_listener 0 (listeners g))).

(** ** Routes *)

Definition validate_parent_ref (pr : ParentRef) : Checked := ensure (negb (is_nil (pr_name pr))) ParentRefNameEmpty.

Definition validate_backend_refs (refs : list BackendRef) : Checked :=
  (fix go i l := match l with
                 | [] => Ok tt
                 | b :: t => and_then (map_err (InvalidBackendRef i) (validate_backend_ref b)) (fun _ => go (S i) t)
                 end) 0%nat refs.

Definition validate_route {R} (parent_refs : list ParentRef) (rules : list R) (validate_rule : R -> Checked) : Checked :=
  and_then (ensure (negb (is_nil parent_refs)) NoParentRef) (fun _ =>
  and_then (check_list validate_parent_ref parent_refs) (fun _ =>
  and_then (ensure (negb (is_nil rules)) NoRule) (fun _ =>
    check_each RuleError validate_rule 0 rules))).

Definition validate_hostname_wildcard (hostname : list Z) : Checked :=
  ensure (negb (starts_with [42] hostname && negb (starts_with WILD hostname))) WildcardForm.

(** A redirect or rewrite that changes nothing. *)
Definition filter_unset (f : HttpRouteFilter) : bool :=
  match f with
  | FRequestRedirect c => negb (is_some (rd_scheme c) || is_some (rd_hostname c) || is_some (rd_port c) || is_some (rd_path c))
  | FURLRewrite c => negb (is_some (ur_hostname c) || is_some (ur_path c))
  | _ => false
  end.

Definition validate_http_rule (r : CfgRule) : Checked :=
  and_then (if redirects r then Ok []
            else if is_nil (backend_refs r) then Err NoBackendRef else Ok (backend_refs r)) (fun forwards_to =>
  and_then (validate_backend_refs forwards_to) (fun _ =>
    check_each (fun i _ => FilterUnset i) (fun f => ensure (negb (filter_unset f)) (FilterUnset 0)) 0 (c_filters r))).

Section Http.
Context {RE : RegexEngine} {RS : RegexSyntax}.

Definition validate_http_route (route : HttpRouteConfig) : Checked :=
  and_then (ensure (negb (is_nil (hostnames route))) NoHostname) (fun _ =>
  and_then (check_list (fun h =>
    and_then (ensure (negb (is_nil h)) HostnameEmpty) (fun _ =>
    and_then (ensure (negb (contains_byte 58 h)) HostnameWithPort) (fun _ => validate_hostname_wildcard h))) (hostnames route)) (fun _ =>
  and_then (validate_route (h_parent_refs route) (h_rules route) validate_http_rule) (fun _ =>
    match compile_http_route route with Ok _ => Ok tt | Err e => Err (RouteErrorAt e) end))).

End Http.

Definition validate_l4_rule (r : L4RouteRule) : Checked :=
  and_then (ensure (negb (is_nil (l4_backend_refs r))) NoBackendRef) (fun _ => validate_backend_refs (l4_backend_refs r)).

Definition validate_tcp_route (route : TcpRouteConfig) : Checked := validate_route (t_parent_refs route) (t_rules route) validate_l4_rule.

Definition validate_tls_route (route : TlsRouteConfig) : Checked :=
  and_then (ensure (negb (is_nil (s_hostnames route))) NoHostname) (fun _ =>
  and_then (check_list (fun h =>
    and_then (ensure (negb (is_nil h)) HostnameEmpty) (fun _ => validate_hostname_wildcard h)) (s_hostnames route)) (fun _ =>
    validate_route (s_parent_refs route) (s_rules route) validate_l4_rule)).

(** ** Across the configuration *)

(** What the check takes for a listener's socket. *)
Definition socket_of (l : ListenerConfig) : option (list Z) * Z * bool :=
  (l_address l, default (l_port l) (l_target_port l), bool_decide (l_protocol l = UDP)).

Fixpoint port_conflicts_from (used : list (option (list Z) * Z * bool)) (ls : list ListenerConfig) : Checked :=
  match ls with
  | [] => Ok tt
  | l :: rest =>
      if bool_decide (socket_of l ∈ used) then Err (PortConflict (default (l_port l) (l_target_port l)))
      else port_conflicts_from (socket_of l :: used) rest
  end.

Definition validate_port_conflicts (cfg : PortailConfig) : Checked := port_conflicts_from [] (listeners (gateway cfg)).

Inductive Family := HttpFamily | TlsFamily | TcpFamily.

#[export] Instance Family_eq_dec : EqDecision Family.
Proof. solve_decision. Defined.

Definition family (p : Protocol) : option Family :=
  match p with HTTP => Some HttpFamily | HTTPS | TLS => Some TlsFamily | TCP => Some TcpFamily | UDP => None end.

(** [first_on_port] keeps the first listener of each port; only its family
    is read. *)
Fixpoint port_protocols_from (first_on_port : gmap Z Protocol) (ls : list ListenerConfig) : Checked :=
  match ls with
  | [] => Ok tt
  | l :: rest =>
      match family (l_protocol l) with
      | None => port_protocols_from first_on_port rest
      | Some own =>
          let first := default (l_protocol l) (first_on_port !! l_port l) in
          if bool_decide (family first = Some own) then port_protocols_from (<[l_port l := first]> first_on_port) rest
          else Err (ProtocolConflict (l_port l))
      end
  end.

Definition validate_port_protocols (cfg : PortailConfig) : Checked := port_protocols_from ∅ (listeners (gateway cfg)).

Definition check_refs (ls : list ListenerConfig) (refs : list ParentRef) : Checked :=
  check_list (fun pr => ensure (existsb (selects pr) ls) UnresolvedParentRef) refs.

Definition validate_parent_refs_resolve (cfg : PortailConfig) : Checked :=
  let ls := listeners (gateway cfg) in
  and_then (check_each AtHttpRoute (fun r => check_refs (List.filter takes_http_routes ls) (h_parent_refs r)) 0 (cfg_http_routes cfg)) (fun _ =>
  and_then (check_each AtTcpRoute (fun r => check_refs ls (t_parent_refs r)) 0 (cfg_tcp_routes cfg)) (fun _ =>
  and_then (check_each AtTlsRoute (fun r => check_refs ls (s_parent_refs r)) 0 (cfg_tls_routes cfg)) (fun _ =>
    check_each AtUdpRoute (fun r => check_refs ls (t_parent_refs r)) 0 (cfg_udp_routes cfg)))).

Definition validate_performance (p : PerformanceConfig) : Checked :=
  and_then (ensure (negb (udp_session_timeout p =? 0)) SessionTimeoutZero) (fun _ =>
    ensure (negb (bool_decide (udp_max_sessions p = Some 0))) MaxSessionsZero).

Definition validate {RE : RegexEngine} {RS : RegexSyntax} (cfg : PortailConfig) : Checked :=
  and_then (validate_gateway (gateway cfg)) (fun _ =>
  and_then (check_each AtHttpRoute validate_http_route 0 (cfg_http_routes cfg)) (fun _ =>
  and_then (check_each AtTcpRoute validate_tcp_route 0 (cfg_tcp_routes cfg)) (fun _ =>
  and_then (check_each AtTlsRoute validate_tls_route 0 (cfg_tls_routes cfg)) (fun _ =>
  and_then (check_each AtUdpRoute validate_tcp_route 0 (cfg_udp_routes cfg)) (fun _ =>
  and_then (validate_port_conflicts cfg) (fun _ =>
  and_then (validate_port_protocols cfg) (fun _ =>
  and_then (validate_parent_refs_resolve cfg) (fun _ =>
    validate_performance (performance cfg))))))))).

(** ** What the checks establish *)

Lemma check_each_ok {A} place (f : A -> Checked) i l : check_each place f i l = Ok tt <-> Forall (fun a => f a = Ok tt) l.
Proof.
  revert i. induction l as [|a l IH]; intros i; cbn [check_each]; [split; [constructor|done]|].
  rewrite and_then_ok, Forall_cons, <- (IH (S i)). split.
  - intros ([] & H1 & H2). by rewrite map_err_ok in H1.
  - intros [H1 H2]. exists tt. by rewrite map_err_ok.
Qed.

Lemma ensure_ok b e : ensure b e = Ok tt <-> b = true.
Proof. unfold ensure. by destruct b. Qed.

Lemma then_ok {E} (x : result unit E) (k : unit -> result unit E) : and_then x k = Ok tt <-> x = Ok tt /\ k tt = Ok tt.
Proof. rewrite and_then_ok. split; [by intros ([] & ? & ?)|intros [? ?]; by exists tt]. Qed.

Lemma port_conflicts_ok used ls : port_conflicts_from used ls = Ok tt <-> NoDup (map socket_of ls) /\ Forall (fun l => socket_of l ∉ used) ls.
Proof.
  revert used. induction ls as [|l ls IH]; intros used; cbn [port_conflicts_from map].
  - split; [intros _; split; constructor|done].
  - case_bool_decide as Hin; [split; [done|by intros [_ [? _]%Forall_cons]]|]. rewrite IH, NoDup_cons, Forall_cons. split.
    + intros [Hn Hf]. split; [split; [|done]|split; [done|]].
      * intros (x & E & Hx)%list_elem_of_fmap. rewrite Forall_forall in Hf. apply (Hf x Hx). rewrite E. by apply elem_of_cons; left.
      * eapply Forall_impl; [exact Hf|]. intros x Hx H. apply Hx, elem_of_cons. by right.
    + intros [[Hl Hn] [_ Hf]]. split; [done|]. rewrite Forall_forall in Hf |- *. intros x Hx [E|H]%elem_of_cons; [|by apply (Hf x)].
      apply Hl. rewrite <- E. by apply list_elem_of_fmap_2.
Qed.

(** Listeners of one port are of one family. *)
Lemma port_protocols_ok m ls : port_protocols_from m ls = Ok tt ->
  (forall l f, l ∈ ls -> family (l_protocol l) = Some f -> forall p, m !! l_port l = Some p -> family p = Some f) /\
  (forall l l' f f', l ∈ ls -> l' ∈ ls -> family (l_protocol l) = Some f -> family (l_protocol l') = Some f' -> l_port l = l_port l' -> f = f').
Proof.
  revert m. induction ls as [|l ls IH]; intros m; cbn [port_protocols_from].
  { intros _. split; intros ? ? ?%not_elem_of_nil || intros ? ? ? ? ?%not_elem_of_nil; done. }
  destruct (family (l_protocol l)) as [own|] eqn:Ef.
  - case_bool_decide as Hfirst; [|done]. intros H. destruct (IH _ H) as [H1 H2].
    assert (Hmine : forall x f, x ∈ ls -> family (l_protocol x) = Some f -> l_port x = l_port l -> f = own).
    { intros x f Hx Hf Hp. pose proof (H1 x f Hx Hf) as Hm. rewrite Hp, lookup_insert_eq in Hm. specialize (Hm _ eq_refl). congruence. }
    split.
    + intros x f [->|Hx]%elem_of_cons Hf p Hp.
      * rewrite Hp in Hfirst. cbn in Hfirst. congruence.
      * destruct (decide (l_port x = l_port l)) as [E|E].
        -- rewrite (Hmine x f Hx Hf E). rewrite E in Hp. rewrite Hp in Hfirst. done.
        -- apply (H1 x f Hx Hf). by rewrite lookup_insert_ne.
    + intros x y f f' [->|Hx]%elem_of_cons [->|Hy]%elem_of_cons Hf Hf' E.
      * congruence.
      * rewrite Ef in Hf. injection Hf as <-. symmetry. by eapply Hmine.
      * rewrite Ef in Hf'. injection Hf' as <-. by eapply Hmine.
      * by eapply (H2 x y).
  - intros H. destruct (IH _ H) as [H1 H2]. split.
    + intros x f [->|Hx]%elem_of_cons Hf; [congruence|]. by apply H1.
    + intros x y f f' [->|Hx]%elem_of_cons [->|Hy]%elem_of_cons Hf Hf' E; [congruence..|]. by eapply (H2 x y).
Qed.

(** ** Listeners a route finds *)

Lemma match_listeners_spec matched cands :
  (forall l, l ∈ match_listeners matched cands -> l ∈ matched \/ l ∈ cands) /\
  (forall l, l ∈ matched -> l ∈ match_listeners matched cands) /\
  (forall l, l ∈ cands -> exists m, m ∈ match_listeners matched cands /\ l_name m = l_name l).
Proof.
  revert matched. induction cands as [|c cands IH]; intros matched; cbn [match_listeners].
  { split; [by left|]. split; [done|]. by intros l ?%not_elem_of_nil. }
  set (matched' := if existsb (fun m => beq (l_name m) (l_name c)) matched then matched else matched ++ [c]).
  destruct (IH matched') as (H1 & H2 & H3).
  assert (Hsub : forall l, l ∈ matched -> l ∈ matched') by (intros l Hl; unfold matched'; destruct (existsb _ _); [done|rewrite elem_of_app; by left]).
  assert (Hc : exists m, m ∈ matched' /\ l_name m = l_name c).
  { unfold matched'. destruct (existsb _ _) eqn:E.
    - apply existsb_exists in E as (m & Hm & E). exists m. split; [by apply list_elem_of_In|by apply beq_spec].
    - exists c. split; [rewrite elem_of_app, list_elem_of_singleton; by right|done]. }
  split; [|split].
  - intros l Hl. rewrite elem_of_cons. destruct (H1 l Hl) as [H|H]; [|by right; right]. unfold matched' in H.
    destruct (existsb _ _); [by left|]. apply elem_of_app in H as [H| ->%list_elem_of_singleton]; [by left|by right; left].
  - intros l Hl. by apply H2, Hsub.
  - intros l [->|Hl]%elem_of_cons; [|by apply H3]. destruct Hc as (m & Hm & E). exists m. split; [by apply H2|done].
Qed.

Lemma find_listeners_spec refs g :
  (forall l, l ∈ find_listeners_for_route refs g -> l ∈ listeners g /\ exists pr, pr ∈ refs /\ selects pr l = true) /\
  (forall pr l, pr ∈ refs -> l ∈ listeners g -> selects pr l = true -> exists m, m ∈ find_listeners_for_route refs g /\ l_name m = l_name l).
Proof.
  assert (Hgen : forall refs matched, let r := fold_left (fun matched pr => match_listeners matched (List.filter (selects pr) (listeners g))) refs matched in
    (forall l, l ∈ r -> l ∈ matched \/ (l ∈ listeners g /\ exists pr, pr ∈ refs /\ selects pr l = true)) /\
    (forall l, l ∈ matched -> l ∈ r) /\
    (forall pr l, pr ∈ refs -> l ∈ listeners g -> selects pr l = true -> exists m, m ∈ r /\ l_name m = l_name l)).
  { clear refs. induction refs as [|pr refs IH]; intros matched; cbv zeta; cbn [fold_left].
    { split; [by left|]. split; [done|]. by intros pr l ?%not_elem_of_nil. }
    destruct (IH (match_listeners matched (List.filter (selects pr) (listeners g)))) as (H1 & H2 & H3).
    destruct (match_listeners_spec matched (List.filter (selects pr) (listeners g))) as (M1 & M2 & M3). split; [|split].
    - intros l Hl. destruct (H1 l Hl) as [H|(Hin & x & Hx & Hs)]; [|right; split; [done|]; exists x; rewrite elem_of_cons; auto].
      destruct (M1 l H) as [Hm|Hc]; [by left|]. apply list_elem_of_In, filter_In in Hc as [Hc Hs]. right. split; [by apply list_elem_of_In|].
      exists pr. rewrite elem_of_cons. auto.
    - intros l Hl. by apply H2, M2.
    - intros x l [->|Hx]%elem_of_cons Hin Hs; [|by eapply H3]. destruct (M3 l) as (m & Hm & E).
      { apply list_elem_of_In, filter_In. split; [by apply list_elem_of_In|done]. }
      exists m. split; [by apply H2|done]. }
  destruct (Hgen refs []) as (H1 & _ & H3). unfold find_listeners_for_route. destruct refs as [|pr refs]; cbn [is_nil].
  { split; [by intros l ?%not_elem_of_nil|by intros x l ?%not_elem_of_nil]. }
  split; [|done]. intros l Hl. destruct (H1 l Hl) as [?%not_elem_of_nil|H]; [done|exact H].
Qed.

(** Where listener names differ, a route finds every listener it selects. *)
Lemma find_listeners_exact refs g l : NoDup (map l_name (listeners g)) ->
  l ∈ find_listeners_for_route refs g <-> l ∈ listeners g /\ exists pr, pr ∈ refs /\ selects pr l = true.
Proof.
  intros Hn. destruct (find_listeners_spec refs g) as [H1 H2]. split; [apply H1|]. intros (Hin & pr & Hpr & Hs).
  destruct (H2 pr l Hpr Hin Hs) as (m & Hm & E). destruct (H1 m Hm) as [Hmin _]. by rewrite <- (NoDup_map_inj l_name _ m l Hn Hmin Hin E).
Qed.

(** ** Properties *)

Section Validated.
Context {RE : RegexEngine} {RS : RegexSyntax}.

Lemma validated_parts cfg : validate cfg = Ok tt ->
  Forall (fun l => validate_listener l = Ok tt) (listeners (gateway cfg)) /\
  Forall (fun r => validate_http_route r = Ok tt) (cfg_http_routes cfg) /\
  validate_port_conflicts cfg = Ok tt /\ validate_port_protocols cfg = Ok tt /\
  Forall (fun r => check_refs (List.filter takes_http_routes (listeners (gateway cfg))) (h_parent_refs r) = Ok tt) (cfg_http_routes cfg).
Proof.
  unfold validate, validate_gateway, validate_parent_refs_resolve. cbv zeta. rewrite !then_ok, !check_each_ok. tauto.
Qed.

Lemma validated_compiles cfg route : validate cfg = Ok tt -> route ∈ cfg_http_routes cfg -> exists crs, compile_http_route route = Ok crs.
Proof.
  intros (_ & H & _)%validated_parts Hr. rewrite Forall_forall in H. specialize (H route Hr). unfold validate_http_route in H.
  rewrite !then_ok in H. destruct H as (_ & _ & _ & H). destruct (compile_http_route route) as [crs|]; [by exists crs|done].
Qed.

Lemma validated_route_refs cfg route : validate cfg = Ok tt -> route ∈ cfg_http_routes cfg ->
  h_parent_refs route <> [] /\ h_rules route <> [] /\ hostnames route <> [].
Proof.
  intros (_ & H & _)%validated_parts Hr. rewrite Forall_forall in H. specialize (H route Hr). unfold validate_http_route, validate_route in H.
  rewrite !then_ok, !ensure_ok in H. destruct H as (H1 & _ & (H2 & _ & H3 & _) & _).
  destruct (h_parent_refs route), (h_rules route), (hostnames route); done.
Qed.

(** C30: a validated file never fails a strict load for what it says. The
    strict table build of a configuration that passed [validate] returns a
    table, or fails because a lookup found nothing; no HTTP route is rejected
    then. *)
Theorem validated_build_fails_only_on_dns (keyed_hash : SocketAddr -> Z) (lookup : nat -> list Z -> Z -> option (list SocketAddr))
  (cfg : PortailConfig) (s : BuildState) (Hv : validate cfg = Ok tt) :
  match build_route_table keyed_hash Strict lookup cfg s with
  | (Ok _, _) => True
  | (Err (Unresolved name port), s') => exists call, calls s' = S call /\ lookup call name port = None
  | (Err (RouteRejected _ _), _) => False
  end.
Proof.
  destruct (build_route_table keyed_hash Strict lookup cfg s) as [[t|e] s'] eqn:H; [done|].
  assert (Hf : failure Strict lookup cfg e s').
  { eapply (fails_bind fresh_resolver (fun _ => fill_table keyed_hash Strict lookup cfg)); [by intros ? ? ?|intros; apply fails_fill|exact H]. }
  destruct Hf as [_ Hf]. destruct e as [idx err|name port]; [|done]. destruct Hf as (route & Hi & Hc).
  destruct (validated_compiles cfg route Hv (list_elem_of_lookup_2 _ _ _ Hi)) as [crs E]. congruence.
Qed.

(** What a validated file guarantees of its listeners: no two take the
    same address text, port and socket family; those that share a published
    port carry protocols of one family; every port is at least 1; and a rate
    limit is one the limiter can hold: its burst in millitokens, stated or
    defaulted to the rate, is exact, not cut off at 32 bits. *)
Theorem validated_listeners (cfg : PortailConfig) (Hv : validate cfg = Ok tt)
  (Ht : forall l, l ∈ listeners (gateway cfg) -> 0 <= l_port l /\
     forall rl, l_rate_limit l = Some rl -> u32 (requests_per_second rl) /\ forall b, spec_burst rl = Some b -> u32 b) :
  NoDup (map socket_of (listeners (gateway cfg))) /\
  (forall l l' f f', l ∈ listeners (gateway cfg) -> l' ∈ listeners (gateway cfg) ->
     family (l_protocol l) = Some f -> family (l_protocol l') = Some f' -> l_port l = l_port l' -> f = f') /\
  (forall l, l ∈ listeners (gateway cfg) -> 1 <= l_port l) /\
  (forall l rl, l ∈ listeners (gateway cfg) -> l_rate_limit l = Some rl ->
     1 <= requests_per_second rl <= 1000000 /\ 1 <= effective_burst rl /\
     burst_mt (Limiter_new (requests_per_second rl) (effective_burst rl)) = 1000 * effective_burst rl).
Proof.
  apply validated_parts in Hv as (Hl & _ & Hc & Hp & _). rewrite Forall_forall in Hl. split_and!.
  - by apply port_conflicts_ok in Hc as [? _].
  - apply port_protocols_ok in Hp as [_ Hp]. exact Hp.
  - intros l Hin. destruct (Ht l Hin) as [H0 _]. specialize (Hl l Hin). unfold validate_listener in Hl. rewrite !then_ok in Hl.
    destruct Hl as (_ & Hz & _). unfold validate_port in Hz. rewrite ensure_ok in Hz. apply negb_true_iff, Z.eqb_neq in Hz. lia.
  - intros l rl Hin Er. destruct (Ht l Hin) as [_ Hrl]. destruct (Hrl rl Er) as [[R0 _] Hb]. specialize (Hl l Hin). unfold validate_listener in Hl.
    rewrite !then_ok, Er in Hl. destruct Hl as (_ & _ & _ & _ & Hr & _). unfold validate_rate_limit in Hr. rewrite then_ok, ensure_ok in Hr.
    destruct Hr as [Hr1 Hr2]. apply negb_true_iff, orb_false_iff in Hr1 as [Z1%Z.eqb_neq Z2%Z.ltb_ge].
    assert (1 <= effective_burst rl <= MAX_BURST).
    { unfold effective_burst. destruct (spec_burst rl) as [b|] eqn:Eb; cbn [default from_option id].
      - rewrite ensure_ok in Hr2. apply negb_true_iff, orb_false_iff in Hr2 as [B1%Z.eqb_neq B2%Z.ltb_ge].
        destruct (Hb b eq_refl) as [B0 _]. lia.
      - assert (1000000 <= MAX_BURST) by (vm_compute; congruence). lia. }
    split; [lia|]. split; [lia|]. cbn [Limiter_new burst_mt]. unfold saturating_mul32.
    assert (MAX_BURST * MILLITOKENS_PER_REQUEST <= U32_MAX) by (vm_compute; congruence).
    change MILLITOKENS_PER_REQUEST with 1000 in *. lia.
Qed.

(** No route of a validated file is attached nowhere. Where listener
    names differ, every HTTP route of a validated configuration has a
    listener scope; its scopes are exactly the HTTP and HTTPS listeners one of
    its parentRefs selects. *)
Theorem validated_route_attaches (cfg : PortailConfig) (route : HttpRouteConfig)
  (Hv : validate cfg = Ok tt) (Hn : NoDup (map l_name (listeners (gateway cfg)))) (Hr : route ∈ cfg_http_routes cfg) :
  described_scopes cfg route <> [] /\
  forall port lh lim, (port, lh, lim) ∈ described_scopes cfg route <->
    exists l pr, l ∈ listeners (gateway cfg) /\ takes_http_routes l = true /\ pr ∈ h_parent_refs route /\ selects pr l = true /\
      port = l_port l /\ lh = l_hostname l /\ lim = (fun _ => (l_port l, l_name l)) <$> l_rate_limit l.
Proof.
  destruct (validated_route_refs cfg route Hv Hr) as (Hrefs & _).
  assert (Hnil : is_nil (h_parent_refs route) = false) by (by destruct (h_parent_refs route)).
  assert (Hscopes : forall port lh lim, (port, lh, lim) ∈ described_scopes cfg route <->
    exists l pr, l ∈ listeners (gateway cfg) /\ takes_http_routes l = true /\ pr ∈ h_parent_refs route /\ selects pr l = true /\
      port = l_port l /\ lh = l_hostname l /\ lim = (fun _ => (l_port l, l_name l)) <$> l_rate_limit l).
  { intros port lh lim. unfold described_scopes. rewrite Hnil, list_elem_of_fmap. split.
    - intros (l & [= -> -> ->] & Hl). apply list_elem_of_In, filter_In in Hl as [Hl Ht]. apply list_elem_of_In, find_listeners_exact in Hl as (Hin & pr & Hpr & Hs); [|done].
      by exists l, pr.
    - intros (l & pr & Hin & Ht & Hpr & Hs & -> & -> & ->). exists l. split; [done|]. apply list_elem_of_In, filter_In.
      split; [|done]. apply list_elem_of_In, find_listeners_exact; [done|]. split; [done|]. by exists pr. }
  split; [|done]. apply validated_parts in Hv as (_ & _ & _ & _ & Hc). rewrite Forall_forall in Hc. specialize (Hc route Hr).
  unfold check_refs, check_list in Hc. apply check_each_ok in Hc. destruct (h_parent_refs route) as [|pr refs] eqn:Er; [done|].
  apply Forall_cons in Hc as [Hc _]. rewrite ensure_ok in Hc. apply existsb_exists in Hc as (l & Hl & Hs). apply filter_In in Hl as [Hl Ht].
  assert (Hin : (l_port l, l_hostname l, (fun _ => (l_port l, l_name l)) <$> l_rate_limit l) ∈ described_scopes cfg route).
  { apply Hscopes. exists l, pr. split; [by apply list_elem_of_In|]. split; [done|]. split; [by apply elem_of_cons; left|done]. }
  intros E. rewrite E in Hin. by apply not_elem_of_nil in Hin.
Qed.

End Validated.

(** ** Witnesses *)

#[local] Existing Instance literal_regex.
#[local] Existing Instance literal_syntax.

Definition with_listeners (cfg : PortailConfig) (ls : list ListenerConfig) : PortailConfig :=
  {| gateway := {| g_name := g_name (gateway cfg); listeners := ls; g_addresses := g_addresses (gateway cfg) |};
     cfg_http_routes := cfg_http_routes cfg; cfg_tcp_routes := cfg_tcp_routes cfg; cfg_tls_routes := cfg_tls_routes cfg;
     cfg_udp_routes := cfg_udp_routes cfg; performance := performance cfg; endpoint_overrides := endpoint_overrides cfg;
     app_protocol_overrides := app_protocol_overrides cfg; headless_target_ports := headless_target_ports cfg |}.

Definition limited_listener : ListenerConfig :=
  {| l_name := bs "web"; l_protocol := HTTP; l_port := 80; l_target_port := None; l_hostname := None; l_address := None;
     l_interface := Some (bs "eth0"); l_tls := None;
     l_rate_limit := Some {| requests_per_second := 100; spec_burst := None |} |}.

Definition valid_config : PortailConfig := with_listeners sample_config [limited_listener; listener_config (bs "db") TCP 9000 None].

Lemma valid_config_valid : validate valid_config = Ok tt.
Proof. vm_compute. reflexivity. Qed.

Lemma validated_build_fails_only_on_dns_witness :
  validate valid_config = Ok tt /\
  match build_route_table (fun _ => 0) Strict sample_lookup valid_config start_state with
  | (Ok _, _) => True
  | (Err (Unresolved name port), s') => exists call, calls s' = S call /\ sample_lookup call name port = None
  | (Err (RouteRejected _ _), _) => False
  end.
Proof.
  split; [exact valid_config_valid|].
  exact (validated_build_fails_only_on_dns (fun _ => 0) sample_lookup valid_config start_state valid_config_valid).
Defined.

Lemma validated_listeners_witness :
  burst_mt (Limiter_new 100 (effective_burst {| requests_per_second := 100; spec_burst := None |})) = 1000 * 100.
Proof.
  assert (Ht : forall l, l ∈ listeners (gateway valid_config) -> 0 <= l_port l /\
    forall rl, l_rate_limit l = Some rl -> u32 (requests_per_second rl) /\ forall b, spec_burst rl = Some b -> u32 b).
  { intros l. cbn. rewrite !elem_of_cons, elem_of_nil. intros [->|[->|[]]]; (split; [cbn; lia|]); [|done].
    intros rl [= <-]. split; [split; cbn; lia|done]. }
  destruct (validated_listeners valid_config valid_config_valid Ht) as (_ & _ & _ & H).
  apply (H limited_listener {| requests_per_second := 100; spec_burst := None |}); [|reflexivity]. apply elem_of_cons. left. reflexivity.
Defined.

Lemma validated_route_attaches_witness : exists route, route ∈ cfg_http_routes valid_config /\ described_scopes valid_config route <> [].
Proof.
  destruct (cfg_http_routes valid_config) as [|route rest] eqn:E; [discriminate E|]. exists route.
  assert (Hr : route ∈ cfg_http_routes valid_config) by (rewrite E; apply elem_of_cons; left; reflexivity).
  split; [apply elem_of_cons; left; reflexivity|].
  assert (Hn : NoDup (map l_name (listeners (gateway valid_config)))) by (apply (bool_decide_unpack (NoDup _)); vm_compute; exact I).
  exact (proj1 (validated_route_attaches valid_config route valid_config_valid Hn Hr)).
Defined.

(** ** What the checks let through *)

(** Two listeners of one name pass, and a route on the Gateway, which selects
    both, serves on the first only. *)
Definition twin_config : PortailConfig :=
  with_listeners sample_config [listener_config (bs "web") HTTP 80 None; listener_config (bs "web") HTTP 81 None; listener_config (bs "db") TCP 9000 None].

Definition twin_built : RouteTable :=
  match build_route_table (fun _ => 0) Strict sample_lookup twin_config start_state with (Ok t, _) => t | _ => RouteTable_new end.

(** Listeners of the same name: a configuration with two HTTP listeners
    of one name passes validation, its route's parentRef selects both, and
    the table built from it serves the route on the first's port and nothing
    on the second's. *)
Theorem same_name_listener_left_out :
  validate twin_config = Ok tt /\
  forallb (fun l => selects {| pr_name := bs "gw"; section_name := None; pr_port := None |} l) (listeners (gateway twin_config)) = true /\
  is_some (find_http_route twin_built (bs "a.example.com") (bs "GET") (bs "/v1") [] [] 80) = true /\
  find_http_route twin_built (bs "a.example.com") (bs "GET") (bs "/v1") [] [] 81 = None.
Proof. repeat split; vm_compute; reflexivity. Qed.

(** The address a socket is bound to ([create_tcp_listener]). *)
Definition bind_address (l : ListenerConfig) : option IpAddr := parse_ip_addr (default (bs "0.0.0.0") (l_address l)).

Definition same_socket_config : PortailConfig :=
  with_listeners sample_config
    [listener_config (bs "web") HTTP 80 None;
     {| l_name := bs "any"; l_protocol := HTTP; l_port := 80; l_target_port := None; l_hostname := None; l_address := Some (bs "0.0.0.0");
        l_interface := None; l_tls := None; l_rate_limit := None |};
     listener_config (bs "db") TCP 9000 None].

(** Two listeners that bind one socket pass: the check compares addresses as
    text, and an unset one binds 0.0.0.0. *)
Example unset_address_conflict_missed : validate same_socket_config = Ok tt /\
  match listeners (gateway same_socket_config) with
  | a :: b :: _ => bind_address a = bind_address b /\ l_port a = l_port b /\ l_protocol a = l_protocol b
  | _ => False
  end.
Proof. split; [vm_compute; reflexivity|]. repeat split; vm_compute; reflexivity. Qed.

(** A parentRef port outside 16 bits selects the listener it wraps to. *)
Example parent_ref_port_wraps :
  selects {| pr_name := bs "gw"; section_name := None; pr_port := Some 65616 |} (listener_config (bs "web") HTTP 80 None) = true.
Proof. reflexivity. Qed.
