(* ===== verification/ClientHello.v ===== *)
(** * The ClientHello of a TLS connection

    [src/src/proxy/tls.rs]: [classify_client_hello], [extract_sni] and
    [peek_client_hello], which read the server name off the first bytes of a
    TLS connection without consuming them. Rust's indexing panics out of
    range, and [panic = "abort"] would take the proxy down: every access is
    in the option monad, [None] being the panic, and a theorem shows none
    happens. A reference encoder of the TLS 1.3 structures says what the
    code must find. *)

From S2P Require Import Prelude Bytes.

(** ** Reading *)

(** [data[i]], [None] out of range. *)
Definition index (data : list Z) (i : nat) : option Z := data !! i.

(** [&data[i..j]], [None] out of range. *)
Definition subslice (i j : nat) (data : list Z) : option (list Z) :=
  if (i <=? j)%nat && (j <=? length data)%nat then Some (slice i j data) else None.

(** [u16::from_be_bytes([data[i], data[i + 1]]) as usize]. *)
Definition u16_at (data : list Z) (i : nat) : option nat :=
  hi ← index data i; lo ← index data (i + 1); Some (Z.to_nat (hi * 256 + lo)).

(** The code between [ext_type == 0x0000] and its returns. *)
Definition server_name_of (sni_data : list Z) : option (option (list Z)) :=
  if (length sni_data <? 2)%nat then Some None
  else
    sni_list_len ← u16_at sni_data 0;
    if (length sni_data <? 2 + sni_list_len)%nat || (sni_list_len <? 3)%nat then Some None
    else
      name_type ← index sni_data 2;
      if negb (name_type =? 0) then Some None
      else
        name_len ← u16_at sni_data 3;
        if (length sni_data <? 5 + name_len)%nat then Some None
        else
          name ← subslice 5 (5 + name_len) sni_data;
          Some (from_utf8 name).

(** The [while pos + 4 <= ext_end] loop. *)
Fixpoint scan_extensions (fuel : nat) (ch : list Z) (pos ext_end : nat) : option (option (list Z)) :=
  match fuel with
  | O => None
  | S fuel =>
      if negb (pos + 4 <=? ext_end)%nat then Some None
      else
        ext_type ← u16_at ch pos;
        ext_data_len ← u16_at ch (pos + 2);
        let pos := (pos + 4)%nat in
        if (ext_end <? pos + ext_data_len)%nat then Some None
        else if (ext_type =? 0)%nat then
          sni_data ← subslice pos (pos + ext_data_len) ch;
          server_name_of sni_data
        else scan_extensions fuel ch (pos + ext_data_len) ext_end
  end.

(** From [let ch = ..] to the end. *)
Definition scan_hello (ch : list Z) : option (option (list Z)) :=
  if (length ch <? 35)%nat then Some None
  else
    session_id_len ← index ch 34;
    let pos := (35 + Z.to_nat session_id_len)%nat in
    if (length ch <? pos + 2)%nat then Some None
    else
      cs_len ← u16_at ch pos;
      let pos := (pos + (2 + cs_len))%nat in
      if (length ch <? pos + 1)%nat then Some None
      else
        cm_len ← index ch pos;
        let pos := (pos + (1 + Z.to_nat cm_len))%nat in
        if (length ch <? pos + 2)%nat then Some None
        else
          ext_len ← u16_at ch pos;
          let pos := (pos + 2)%nat in
          if (length ch <? pos + ext_len)%nat then Some None
          else scan_extensions (S (length ch)) ch pos (pos + ext_len).

Definition extract_sni_handshake (hs : list Z) : option (option (list Z)) :=
  match hs with
  | [] => Some None
  | t :: _ =>
      if negb (t =? 1) then Some None
      else if (length hs <? 4)%nat then Some None
      else
        b1 ← index hs 1; b2 ← index hs 2; b3 ← index hs 3;
        let hs_len := Z.to_nat (Z.lor (Z.lor (Z.shiftl b1 16) (Z.shiftl b2 8)) b3) in
        if (length hs <? 4 + hs_len)%nat then Some None
        else ch ← subslice 4 (4 + hs_len) hs; scan_hello ch
  end.

Definition extract_sni (buf : list Z) : option (option (list Z)) :=
  if (length buf <? 5)%nat then Some None
  else
    t ← index buf 0;
    if negb (t =? 22) then Some None
    else
      record_len ← u16_at buf 3;
      if (length buf <? 5 + record_len)%nat then Some None
      else hs ← subslice 5 (5 + record_len) buf; extract_sni_handshake hs.

Inductive ClientHelloPeek :=
  | Complete (sni : option (list Z))
  | Partial
  | NotTls.

Definition classify_client_hello (buf : list Z) : option ClientHelloPeek :=
  match buf with
  | [] => Some Partial
  | t :: _ =>
      if negb (t =? 22) then Some NotTls
      else if (length buf <? 5)%nat then Some Partial
      else
        record_len ← u16_at buf 3;
        if (length buf <? 5 + record_len)%nat then Some Partial
        else
          hs ← subslice 5 (5 + record_len) buf;
          sni ← extract_sni_handshake hs;
          Some (Complete sni)
  end.

Inductive Hello := Sni (sni : list Z) | Nameless | Unreadable.

(** The array [buf] of [peek_client_hello]. *)
Definition PEEK_WINDOW : Z := 16384.

(** The loop over what each [peek] sees of the stream, [n] bytes of its
    start; the list ends where the budget does, or a peek fails. *)
Fixpoint peek_client_hello (stream : list Z) (peeks : list nat) : option Hello :=
  match peeks with
  | [] => Some Unreadable
  | n :: rest =>
      if (n =? 0)%nat then Some Unreadable
      else
        peek ← classify_client_hello (take n stream);
        match peek with
        | Complete (Some sni) => Some (Sni sni)
        | Complete None => Some Nameless
        | NotTls => Some Unreadable
        | Partial => if Z.of_nat n =? PEEK_WINDOW then Some Nameless else peek_client_hello stream rest
        end
  end.

(** ** The structures of RFC 8446 and RFC 6066, written out *)

Definition be16 (n : nat) : list Z := [Z.of_nat n / 256; Z.of_nat n mod 256].
Definition be24 (n : nat) : list Z := [Z.of_nat n / 65536; Z.of_nat n / 256 mod 256; Z.of_nat n mod 256].

(** A vector with a length of one, two or three bytes before it. *)
Definition vec8 (l : list Z) : list Z := Z.of_nat (length l) :: l.
Definition vec16 (l : list Z) : list Z := be16 (length l) ++ l.
Definition vec24 (l : list Z) : list Z := be24 (length l) ++ l.

(** [ServerName]: its type, 0 for a host name, and the name. *)
Record ServerName := { name_type : Z; name_bytes : list Z }.

Inductive Extension :=
  | ServerNames (names : list ServerName)
  | OtherExtension (ext_type : nat) (data : list Z).

Record ClientHello := {
  legacy_version : list Z;
  random : list Z;
  session_id : list Z;
  cipher_suites : list Z;
  compression_methods : list Z;
  extensions : list Extension;
}.

Definition encode_name (n : ServerName) : list Z := name_type n :: vec16 (name_bytes n).
Definition encode_extension (e : Extension) : list Z :=
  match e with
  | ServerNames names => be16 0 ++ vec16 (vec16 (flat_map encode_name names))
  | OtherExtension t data => be16 t ++ vec16 data
  end.
Definition encode_hello (h : ClientHello) : list Z :=
  legacy_version h ++ random h ++ vec8 (session_id h) ++ vec16 (cipher_suites h)
  ++ vec8 (compression_methods h) ++ vec16 (flat_map encode_extension (extensions h)).
Definition encode_handshake (h : ClientHello) : list Z := 1 :: vec24 (encode_hello h).
Definition encode_record (version : list Z) (h : ClientHello) : list Z := 22 :: version ++ vec16 (encode_handshake h).

(** The lengths the structures allow, and the record's own limit. *)
Definition extension_ok (e : Extension) : bool :=
  match e with
  | ServerNames names => negb (is_nil names) && (Z.of_nat (length (flat_map encode_name names)) <? 65534)
  | OtherExtension t data => negb (t =? 0)%nat && (Z.of_nat t <? 65536) && (Z.of_nat (length data) <? 65536)
  end.
Definition hello_ok (h : ClientHello) : bool :=
  (length (legacy_version h) =? 2)%nat && (length (random h) =? 32)%nat
  && (length (session_id h) <? 256)%nat && (Z.of_nat (length (cipher_suites h)) <? 65536)
  && (length (compression_methods h) <? 256)%nat
  && forallb extension_ok (extensions h)
  && (Z.of_nat (length (flat_map encode_extension (extensions h))) <? 65536)
  && (Z.of_nat (length (encode_handshake h)) <? 65536).

(** What the hello names: the first entry of its first [server_name]. *)
Fixpoint named (es : list Extension) : option (list Z) :=
  match es with
  | [] => None
  | ServerNames (n :: _) :: _ => if name_type n =? 0 then from_utf8 (name_bytes n) else None
  | ServerNames [] :: _ => None
  | OtherExtension _ _ :: es => named es
  end.
Definition hello_of (sni : option (list Z)) : Hello := match sni with Some s => Sni s | None => Nameless end.

(** ** No access is out of range *)

Lemma index_Some data i : (i < length data)%nat -> exists b, index data i = Some b.
Proof. intros H. apply lookup_lt_is_Some_2 in H. by destruct H as [b Hb]; exists b. Qed.

Lemma u16_at_Some data i : (i + 1 < length data)%nat -> exists n, u16_at data i = Some n.
Proof.
  intros H. destruct (index_Some data i) as [hi Hh]; [lia|]. destruct (index_Some data (i + 1)) as [lo Hl]; [lia|].
  exists (Z.to_nat (hi * 256 + lo)). unfold u16_at. by rewrite Hh; simpl; rewrite Hl.
Qed.

Lemma subslice_Some i j data : (i <= j)%nat -> (j <= length data)%nat -> subslice i j data = Some (slice i j data).
Proof. intros Hi Hj. unfold subslice. apply Nat.leb_le in Hi, Hj. by rewrite Hi, Hj. Qed.

(** Steps over the next access of the goal, its range by arithmetic. *)
Ltac access :=
  match goal with
  | |- context [mbind _ (index ?d ?i)] => let b := fresh "b" in let E := fresh "E" in
      destruct (index_Some d i) as [b E]; [lia|rewrite E; clear E; cbn [mbind option_bind]]
  | |- context [mbind _ (u16_at ?d ?i)] => let n := fresh "n" in let E := fresh "E" in
      destruct (u16_at_Some d i) as [n E]; [lia|rewrite E; clear E; cbn [mbind option_bind]]
  | |- context [mbind _ (subslice ?i ?j ?d)] =>
      rewrite (subslice_Some i j d) by lia; cbn [mbind option_bind]
  | |- context [if ?c then _ else _] => destruct c eqn:?; bool_simpl
  | |- context [(?a || ?b)%bool] => destruct a eqn:?; bool_simpl; cbn [orb]
  end.

Lemma server_name_of_total d : exists r, server_name_of d = Some r.
Proof. unfold server_name_of. cbv zeta. repeat access; eauto. Qed.

Lemma scan_extensions_total fuel ch pos ext_end :
  (ext_end <= length ch)%nat -> (ext_end < pos + fuel)%nat -> (0 < fuel)%nat ->
  exists r, scan_extensions fuel ch pos ext_end = Some r.
Proof.
  intros He. revert pos. induction fuel as [|fuel IH]; intros pos Hf Hp; [lia|].
  cbn [scan_extensions]. cbv zeta. repeat access; eauto using server_name_of_total.
  apply IH; lia.
Qed.

Lemma scan_hello_total ch : exists r, scan_hello ch = Some r.
Proof. unfold scan_hello. cbv zeta. repeat access; eauto. apply scan_extensions_total; lia. Qed.

Lemma extract_sni_handshake_total hs : exists r, extract_sni_handshake hs = Some r.
Proof.
  unfold extract_sni_handshake. destruct hs as [|t hs]; [eauto|]. cbv zeta. repeat access; eauto using scan_hello_total.
Qed.

Lemma classify_total buf : exists r, classify_client_hello buf = Some r.
Proof.
  unfold classify_client_hello. destruct buf as [|t buf]; [eauto|]. cbv zeta. repeat access; eauto.
  destruct (extract_sni_handshake_total (slice 5 (5 + n) (t :: buf))) as [r ->]. eauto.
Qed.

Lemma peek_client_hello_total stream peeks : exists r, peek_client_hello stream peeks = Some r.
Proof.
  induction peeks as [|n rest IH]; cbn [peek_client_hello]; [eauto|].
  destruct (n =? 0)%nat; [eauto|]. destruct (classify_total (take n stream)) as [[[sni|]| |] ->];
    cbn [mbind option_bind]; eauto. destruct (Z.of_nat n =? PEEK_WINDOW); eauto.
Qed.

(** The record layer of [extract_sni] is [classify_client_hello]'s. *)
Lemma extract_sni_classify buf :
  extract_sni buf = match classify_client_hello buf with
                    | Some (Complete sni) => Some sni
                    | Some _ => Some None
                    | None => None
                    end.
Proof.
  unfold extract_sni, classify_client_hello. destruct buf as [|t buf]; [done|].
  change (index (t :: buf) 0) with (Some t). cbn [mbind option_bind].
  destruct (t =? 22), (length (t :: buf) <? 5)%nat; cbn [negb]; try done.
  destruct (u16_at (t :: buf) 3) as [n|]; cbn [mbind option_bind]; [|done].
  destruct (length (t :: buf) <? 5 + n)%nat; [done|].
  destruct (subslice 5 (5 + n) (t :: buf)) as [hs|]; cbn [mbind option_bind]; [|done].
  by destruct (extract_sni_handshake hs).
Qed.

(** ** Reading what was encoded *)

Lemma be16_byte n : Z.of_nat n < 65536 -> Z.to_nat (Z.of_nat n / 256 * 256 + Z.of_nat n mod 256) = n.
Proof. intros. rewrite (Z.mul_comm _ 256), <- Z.div_mod by lia. apply Nat2Z.id. Qed.

Lemma length_be16 n : length (be16 n) = 2%nat.
Proof. done. Qed.

Lemma length_vec16 l : length (vec16 l) = S (S (length l)).
Proof. done. Qed.

Lemma index_app pre b post : index (pre ++ b :: post) (length pre) = Some b.
Proof. by apply list_lookup_middle. Qed.

Lemma u16_at_app pre n post :
  Z.of_nat n < 65536 -> u16_at (pre ++ be16 n ++ post) (length pre) = Some n.
Proof.
  intros Hn. unfold u16_at. cbn [be16 app]. rewrite index_app. cbn [mbind option_bind].
  replace (pre ++ _) with ((pre ++ [Z.of_nat n / 256]) ++ (Z.of_nat n mod 256) :: post) by (by rewrite <- app_assoc).
  replace (length pre + 1)%nat with (length (pre ++ [Z.of_nat n / 256])) by (rewrite length_app; simpl; lia).
  rewrite index_app. cbn [mbind option_bind]. by rewrite be16_byte.
Qed.

Lemma subslice_app pre mid post j :
  j = (length pre + length mid)%nat -> subslice (length pre) j (pre ++ mid ++ post) = Some mid.
Proof.
  intros ->. rewrite subslice_Some by (rewrite ?length_app; lia). by rewrite slice_app_mid.
Qed.
(** Setting bits below a shifted word adds them. *)
Lemma lor_shiftl_add a b k : 0 <= k -> 0 <= b < 2 ^ k -> Z.lor (Z.shiftl a k) b = a * 2 ^ k + b.
Proof.
  intros Hk Hb.
  assert (Hand : Z.land (Z.shiftl a k) b = 0).
  { apply Z.bits_inj'. intros i Hi. rewrite Z.land_spec, Z.bits_0.
    destruct (Z_lt_le_dec i k); [by rewrite Z.shiftl_spec_low by lia|].
    replace (Z.testbit b i) with false; [by rewrite andb_false_r|].
    symmetry. apply Z.testbit_false; [lia|]. rewrite Z.div_small; [done|]. split; [lia|].
    eapply Z.lt_le_trans; [apply Hb|]. apply Z.pow_le_mono_r; lia. }
  rewrite <- Z.shiftl_mul_pow2 by lia. by rewrite (Z.add_nocarry_lxor _ _ Hand), Z.lxor_lor.
Qed.

Lemma be24_value n :
  Z.of_nat n < 16777216 ->
  Z.to_nat (Z.lor (Z.lor (Z.shiftl (Z.of_nat n / 65536) 16) (Z.shiftl (Z.of_nat n / 256 mod 256) 8)) (Z.of_nat n mod 256)) = n.
Proof.
  intros Hn. set (z := Z.of_nat n).
  pose proof (Z.mod_pos_bound z 256 ltac:(lia)). pose proof (Z.mod_pos_bound (z / 256) 256 ltac:(lia)).
  replace (Z.lor (Z.shiftl (z / 65536) 16) (Z.shiftl (z / 256 mod 256) 8)) with (Z.shiftl (z / 256) 8).
  - rewrite lor_shiftl_add by (simpl; lia). change (2 ^ 8) with 256.
    rewrite (Z.mul_comm _ 256), <- Z.div_mod by lia. apply Nat2Z.id.
  - rewrite (lor_shiftl_add _ (Z.shiftl _ 8)); [|lia|rewrite Z.shiftl_mul_pow2 by lia; simpl; lia].
    rewrite !Z.shiftl_mul_pow2 by lia. change (2 ^ 8) with 256. change (2 ^ 16) with (256 * 256).
    change 65536 with (256 * 256). rewrite <- Z.div_div by lia.
    pose proof (Z.div_mod (z / 256) 256). lia.
Qed.

Lemma server_name_of_shape L t name rest :
  Z.of_nat L < 65536 -> L = (3 + length name + length rest)%nat ->
  server_name_of (be16 L ++ t :: be16 (length name) ++ name ++ rest)
  = Some (if t =? 0 then from_utf8 name else None).
Proof.
  intros HL EL. set (k := length name) in *. set (d := be16 L ++ _).
  assert (Hd : length d = (2 + L)%nat) by (unfold d; rewrite length_app, length_cons, !length_app, !length_be16; lia).
  assert (E0 : u16_at d 0 = Some L) by (apply (u16_at_app []); lia).
  assert (E2 : index d 2 = Some t) by (apply (index_app (be16 L))).
  assert (E3 : u16_at d 3 = Some k) by (apply (u16_at_app (be16 L ++ [t])); lia).
  assert (E5 : subslice 5 (5 + k) d = Some name)
    by (by apply (subslice_app (be16 L ++ [t] ++ be16 k) name rest)).
  unfold server_name_of. rewrite Hd, E0. cbn [mbind option_bind].
  rewrite !(proj2 (Nat.ltb_ge _ _)) by lia. cbn [orb]. rewrite E2. cbn [mbind option_bind].
  destruct (t =? 0); cbn [negb]; [|done]. rewrite E3. cbn [mbind option_bind].
  rewrite (proj2 (Nat.ltb_ge _ _)) by lia. by rewrite E5.
Qed.

Lemma server_name_of_encoded n ns :
  Z.of_nat (length (flat_map encode_name (n :: ns))) < 65534 ->
  server_name_of (vec16 (flat_map encode_name (n :: ns)))
  = Some (if name_type n =? 0 then from_utf8 (name_bytes n) else None).
Proof.
  intros Hlen. unfold vec16 at 1. set (L := length _).
  assert (EL : L = (3 + length (name_bytes n) + length (flat_map encode_name ns))%nat)
    by (unfold L; cbn [flat_map]; unfold encode_name at 1; rewrite length_app, length_cons, length_vec16; lia).
  cbn [flat_map]. unfold encode_name at 1, vec16 at 1. rewrite <- !app_comm_cons, <- !app_assoc.
  apply server_name_of_shape; [lia|done].
Qed.

(** The type and the data of an extension as the loop reads them. *)
Definition ext_parts (e : Extension) : nat * list Z :=
  match e with
  | ServerNames names => (0%nat, vec16 (flat_map encode_name names))
  | OtherExtension t data => (t, data)
  end.

Lemma encode_ext_parts e : encode_extension e = be16 (ext_parts e).1 ++ vec16 (ext_parts e).2.
Proof. by destruct e. Qed.

Lemma ext_parts_ok e :
  extension_ok e = true -> Z.of_nat (ext_parts e).1 < 65536 /\ Z.of_nat (length (ext_parts e).2) < 65536.
Proof.
  destruct e; cbn [extension_ok ext_parts fst snd]; intros H; bool_simpl; [|lia].
  rewrite length_vec16. lia.
Qed.

Lemma ext_at pre t data post :
  Z.of_nat t < 65536 -> Z.of_nat (length data) < 65536 ->
  let d := pre ++ (be16 t ++ vec16 data) ++ post in
  u16_at d (length pre) = Some t
  /\ u16_at d (length pre + 2) = Some (length data)
  /\ subslice (length pre + 4) (length pre + 4 + length data) d = Some data.
Proof.
  intros Ht Hd d. unfold vec16 in d. split_and!.
  - unfold d. rewrite <- app_assoc. by apply u16_at_app.
  - replace (length pre + 2)%nat with (length (pre ++ be16 t)) by (by rewrite length_app).
    unfold d. rewrite <- !app_assoc, (app_assoc pre). by apply u16_at_app.
  - replace (length pre + 4)%nat with (length (pre ++ be16 t ++ be16 (length data)))
      by (rewrite !length_app, !length_be16; lia).
    unfold d. rewrite <- !app_assoc, (app_assoc (be16 t)), (app_assoc pre (be16 t ++ be16 (length data))).
    by apply subslice_app.
Qed.

Lemma scan_extensions_encoded es pre post fuel :
  forallb extension_ok es = true -> (length es < fuel)%nat ->
  scan_extensions fuel (pre ++ flat_map encode_extension es ++ post) (length pre)
    (length pre + length (flat_map encode_extension es)) = Some (named es).
Proof.
  revert pre fuel. induction es as [|e es IH]; intros pre [|fuel] Hok Hf; simpl in Hf; try lia.
  { cbn [scan_extensions flat_map length]. by rewrite (proj2 (Nat.leb_gt _ _)) by lia. }
  cbn [forallb] in Hok. apply andb_true_iff in Hok as [He Hok]. destruct (ext_parts_ok e He) as [Ht Hd].
  cbn [flat_map]. rewrite <- app_assoc.
  pose proof (ext_at pre _ _ (flat_map encode_extension es ++ post) Ht Hd) as (E1 & E2 & E3).
  rewrite <- encode_ext_parts in E1, E2, E3.
  assert (Hlen : length (encode_extension e) = (4 + length (ext_parts e).2)%nat)
    by (by rewrite encode_ext_parts, length_app, length_be16, length_vec16).
  cbn [scan_extensions]. rewrite length_app. rewrite (proj2 (Nat.leb_le _ _)) by lia. cbn [negb].
  rewrite E1. cbn [mbind option_bind]. rewrite E2. cbn [mbind option_bind]. cbv zeta.
  rewrite (proj2 (Nat.ltb_ge _ _)) by lia. rewrite E3. cbn [mbind option_bind].
  destruct e as [[|n ns]|t data]; cbn [extension_ok is_nil negb andb ext_parts fst snd] in *; [done| |]; bool_simpl.
  - cbn [Nat.eqb named]. by apply server_name_of_encoded.
  - rewrite (proj2 (Nat.eqb_neq _ _)) by lia. cbn [named].
    specialize (IH (pre ++ encode_extension (OtherExtension t data)) fuel Hok ltac:(lia)).
    rewrite length_app, Hlen, <- app_assoc in IH. rewrite Hlen, <- IH. f_equal; lia.
Qed.

Lemma scan_hello_encoded h :
  hello_ok h = true -> scan_hello (encode_hello h) = Some (named (extensions h)).
Proof.
  unfold hello_ok. intros H. bool_simpl. set (exts := flat_map encode_extension (extensions h)) in *.
  set (d := encode_hello h).
  set (p1 := legacy_version h ++ random h). set (p2 := p1 ++ vec8 (session_id h)).
  set (p3 := p2 ++ vec16 (cipher_suites h)). set (p4 := p3 ++ vec8 (compression_methods h)).
  assert (L1 : length p1 = 34%nat) by (unfold p1; rewrite length_app; lia).
  assert (L2 : length p2 = (35 + length (session_id h))%nat) by (unfold p2, vec8; rewrite length_app; simpl; lia).
  assert (L3 : length p3 = (length p2 + (2 + length (cipher_suites h)))%nat) by (unfold p3; rewrite length_app, length_vec16; lia).
  assert (L4 : length p4 = (length p3 + (1 + length (compression_methods h)))%nat) by (unfold p4, vec8; rewrite length_app; simpl; lia).
  assert (Ed : d = p4 ++ vec16 exts) by (unfold d, p4, p3, p2, p1, encode_hello; by rewrite <- !app_assoc).
  assert (Ld : length d = (length p4 + 2 + length exts)%nat) by (rewrite Ed, length_app, length_vec16; lia).
  assert (E1 : index d 34 = Some (Z.of_nat (length (session_id h)))).
  { rewrite <- L1. unfold d, encode_hello, vec8. rewrite (app_assoc (legacy_version h)). apply index_app. }
  assert (E2 : u16_at d (length p2) = Some (length (cipher_suites h))).
  { rewrite Ed. unfold p4, p3, vec16. rewrite <- !app_assoc. apply u16_at_app. lia. }
  assert (E3 : index d (length p3) = Some (Z.of_nat (length (compression_methods h)))).
  { rewrite Ed. unfold p4, vec8. rewrite <- !app_assoc. apply index_app. }
  assert (E4 : u16_at d (length p4) = Some (length exts)).
  { rewrite Ed. unfold vec16. apply u16_at_app. lia. }
  assert (E5 : scan_extensions (S (length d)) d (length p4 + 2) (length p4 + 2 + length exts) = Some (named (extensions h))).
  { pose proof (scan_extensions_encoded (extensions h) (p4 ++ be16 (length exts)) [] (S (length d))) as E.
    fold exts in E. rewrite app_nil_r, length_app, length_be16, <- app_assoc in E. rewrite Ed at 2. unfold vec16. apply E; [done|].
    enough (length (extensions h) <= length exts)%nat by lia.
    unfold exts. clear. induction (extensions h) as [|e es IH]; cbn [flat_map length]; [lia|].
    rewrite encode_ext_parts, !length_app, length_be16. lia. }
  unfold scan_hello. rewrite Ld, E1. cbn [mbind option_bind]. cbv zeta. rewrite Nat2Z.id, <- L2.
  rewrite !(proj2 (Nat.ltb_ge _ _)) by lia. rewrite E2. cbn [mbind option_bind]. rewrite <- L3.
  rewrite !(proj2 (Nat.ltb_ge _ _)) by lia. rewrite E3. cbn [mbind option_bind]. rewrite Nat2Z.id, <- L4.
  rewrite !(proj2 (Nat.ltb_ge _ _)) by lia. rewrite E4. cbn [mbind option_bind].
  rewrite !(proj2 (Nat.ltb_ge _ _)) by lia. rewrite Ld in E5. exact E5.
Qed.

Lemma extract_sni_handshake_encoded h :
  hello_ok h = true -> extract_sni_handshake (encode_handshake h) = Some (named (extensions h)).
Proof.
  intros Hok. pose proof (scan_hello_encoded h Hok) as Hscan. unfold hello_ok in Hok. bool_simpl.
  set (n := length (encode_hello h)).
  assert (Hn : length (encode_handshake h) = (4 + n)%nat) by done.
  assert (E : subslice 4 (4 + n) (encode_handshake h) = Some (encode_hello h)).
  { pose proof (subslice_app (1 :: be24 n) (encode_hello h) [] (4 + n) eq_refl) as E. by rewrite app_nil_r in E. }
  assert (Eb : forall i, index (encode_handshake h) i = (1 :: be24 n ++ encode_hello h) !! i) by done.
  unfold extract_sni_handshake. rewrite !Eb, Hn. unfold encode_handshake at 1. cbn [Z.eqb Pos.eqb negb].
  rewrite (proj2 (Nat.ltb_ge _ _)) by lia.
  unfold be24. cbn [app lookup list_lookup mbind option_bind]. cbv zeta.
  rewrite be24_value by (rewrite Hn in *; lia). rewrite (proj2 (Nat.ltb_ge _ _)) by lia. by rewrite E.
Qed.

(** ** A classification never changes as more bytes arrive *)

Lemma u16_at_prefix p q i n : u16_at p i = Some n -> u16_at (p ++ q) i = Some n.
Proof.
  unfold u16_at, index. intros H.
  destruct (p !! i) as [hi|] eqn:Eh; [|done]. destruct (p !! (i + 1)%nat) as [lo|] eqn:El; [|done].
  rewrite (lookup_app_l_Some _ _ _ _ Eh), (lookup_app_l_Some _ _ _ _ El). done.
Qed.

Lemma slice_prefix p q i j : (j <= length p)%nat -> slice i j (p ++ q) = slice i j p.
Proof.
  intros H. unfold slice. destruct (decide (i <= length p)%nat).
  - rewrite drop_app_le by done. apply take_app_le. rewrite length_drop. lia.
  - replace (j - i)%nat with 0%nat by lia. done.
Qed.

Lemma classify_stable buf more r :
  classify_client_hello buf = Some r -> r <> Partial -> classify_client_hello (buf ++ more) = Some r.
Proof.
  destruct buf as [|t buf]; cbn [classify_client_hello app]; [by intros [= <-]|].
  destruct (t =? 22); cbn [negb]; [|done].
  destruct (length (t :: buf) <? 5)%nat eqn:E5; [by intros [= <-]|]. bool_simpl.
  change (t :: buf ++ more) with ((t :: buf) ++ more). rewrite length_app.
  rewrite (proj2 (Nat.ltb_ge _ _)) by lia.
  destruct (u16_at (t :: buf) 3) as [n|] eqn:En; cbn [mbind option_bind]; [|done].
  rewrite (u16_at_prefix _ more _ _ En). cbn [mbind option_bind].
  destruct (length (t :: buf) <? 5 + n)%nat eqn:El; [by intros [= <-]|]. bool_simpl.
  rewrite (proj2 (Nat.ltb_ge _ _)) by lia.
  rewrite !subslice_Some by (rewrite ?length_app; lia). by rewrite slice_prefix by lia.
Qed.

Lemma classify_record version h tail :
  length version = 2%nat -> hello_ok h = true ->
  classify_client_hello (encode_record version h ++ tail) = Some (Complete (named (extensions h))).
Proof.
  intros Hv Hok. pose proof (extract_sni_handshake_encoded h Hok) as Hs. unfold hello_ok in Hok. bool_simpl.
  set (hs := encode_handshake h) in *.
  assert (Hl : length (encode_record version h) = (5 + length hs)%nat)
    by (unfold encode_record; fold hs; rewrite length_cons, length_app, length_vec16; lia).
  assert (E3 : u16_at (encode_record version h ++ tail) 3 = Some (length hs)).
  { unfold encode_record, vec16. fold hs. replace 3%nat with (length (22 :: version)) by (simpl; lia).
    rewrite app_comm_cons, <- !app_assoc. apply u16_at_app. lia. }
  assert (E5 : subslice 5 (5 + length hs) (encode_record version h ++ tail) = Some hs).
  { replace 5%nat with (length ((22 :: version) ++ be16 (length hs))) by (rewrite length_app; simpl; lia).
    unfold encode_record, vec16. fold hs. rewrite app_comm_cons, (app_assoc (22 :: version)), <- !(app_assoc _ hs tail).
    by apply subslice_app. }
  assert (Hrec : encode_record version h ++ tail = 22 :: (version ++ vec16 hs) ++ tail) by done.
  unfold classify_client_hello. rewrite Hrec at 1. cbn [Z.eqb Pos.eqb negb].
  rewrite length_app, Hl. rewrite (proj2 (Nat.ltb_ge _ _)) by lia.
  rewrite E3. cbn [mbind option_bind]. rewrite (proj2 (Nat.ltb_ge _ _)) by lia.
  rewrite E5. cbn [mbind option_bind]. by rewrite Hs.
Qed.

(** A strict prefix of the record is still arriving. *)
Lemma classify_prefix version h n :
  length version = 2%nat -> hello_ok h = true -> (n < length (encode_record version h))%nat ->
  classify_client_hello (take n (encode_record version h)) = Some Partial.
Proof.
  intros Hv Hok Hn. destruct (classify_total (take n (encode_record version h))) as [r Hr].
  destruct (decide (n < 5)%nat) as [H5|H5].
  { destruct n as [|n]; [done|]. unfold encode_record, classify_client_hello. cbn [take Z.eqb Pos.eqb negb].
    rewrite length_cons, length_take. by rewrite (proj2 (Nat.ltb_lt _ _)) by lia. }
  pose proof (extract_sni_handshake_encoded h Hok) as _. unfold hello_ok in Hok. bool_simpl.
  set (hs := encode_handshake h) in *.
  assert (Hl : length (encode_record version h) = (5 + length hs)%nat)
    by (unfold encode_record; fold hs; rewrite length_cons, length_app, length_vec16; lia).
  assert (E3 : u16_at (take n (encode_record version h)) 3 = Some (length hs)).
  { unfold u16_at, index. rewrite !lookup_take_lt by lia.
    assert (E : u16_at (encode_record version h) 3 = Some (length hs)); [|done].
    unfold encode_record, vec16. fold hs. replace 3%nat with (length (22 :: version)) by (simpl; lia).
    rewrite app_comm_cons. apply u16_at_app. lia. }
  destruct n as [|n]; [lia|]. unfold encode_record in *. cbn [take] in *. unfold classify_client_hello.
  cbn [Z.eqb Pos.eqb negb]. rewrite length_cons, length_take in *. cbn [length] in Hl.
  rewrite (proj2 (Nat.ltb_ge _ _)) by lia.
  rewrite E3. cbn [mbind option_bind]. by rewrite (proj2 (Nat.ltb_lt _ _)) by lia.
Qed.

Lemma classify_record_peek version h tail n :
  length version = 2%nat -> hello_ok h = true ->
  classify_client_hello (take n (encode_record version h ++ tail))
  = Some (if (length (encode_record version h) <=? n)%nat then Complete (named (extensions h)) else Partial).
Proof.
  intros Hv Hok. destruct (length (encode_record version h) <=? n)%nat eqn:E; bool_simpl.
  - rewrite take_app_ge by done. by apply classify_record.
  - rewrite take_app_le by lia. by apply classify_prefix.
Qed.

(** C16: The peek at a TLS connection never indexes out of range, whatever the
    bytes; and a ClientHello that fits the peek window, followed by anything
    and cut anywhere, is read as it was written: once a peek sees the whole
    record the answer is the first name of its first [server_name] extension,
    or [Nameless] where it has none, and until then, or when the budget ends
    first, the connection is [Unreadable] and never misread. *)
Theorem client_hello_peek_exact (version tail : list Z) (h : ClientHello) (peeks : list nat)
  (Hv : length version = 2%nat) (Hok : hello_ok h = true)
  (Hfit : Z.of_nat (length (encode_record version h)) <= PEEK_WINDOW)
  (Hpeeks : Forall (fun n => (0 < n)%nat /\ Z.of_nat n <= PEEK_WINDOW) peeks) :
  (forall s ps, exists r, peek_client_hello s ps = Some r)
  /\ peek_client_hello (encode_record version h ++ tail) peeks
     = Some (if existsb (fun n => (length (encode_record version h) <=? n)%nat) peeks
             then hello_of (named (extensions h)) else Unreadable).
Proof.
  split; [apply peek_client_hello_total|].
  induction Hpeeks as [|n rest [Hn Hw] _ IH]; cbn [peek_client_hello existsb]; [done|].
  rewrite (proj2 (Nat.eqb_neq _ _)) by lia. rewrite classify_record_peek by done. cbn [mbind option_bind].
  destruct (length (encode_record version h) <=? n)%nat eqn:E; cbn [orb]; [by destruct (named (extensions h))|].
  bool_simpl. rewrite (proj2 (Z.eqb_neq _ _)) by lia. done.
Qed.

(** Extensions in any order, and a hello that arrives in three pieces. *)
Definition example_hello : ClientHello := {|
  legacy_version := [3; 3]; random := repeat 7 32; session_id := [1; 2; 3];
  cipher_suites := [19; 1]; compression_methods := [0];
  extensions := [OtherExtension 43 [2; 3; 4]; ServerNames [{| name_type := 0; name_bytes := bs "api.example.com" |}];
                 OtherExtension 16 [0; 0]] |}.

Lemma client_hello_peek_exact_witness :
  peek_client_hello (encode_record [3; 1] example_hello ++ [23; 3; 3]) [3; 40; 200]%nat = Some (Sni (bs "api.example.com")).
Proof.
  destruct (client_hello_peek_exact [3; 1] [23; 3; 3] example_hello [3; 40; 200]%nat
              eq_refl ltac:(vm_compute; reflexivity) ltac:(vm_compute; discriminate)
              ltac:(repeat constructor; first [lia|vm_compute; discriminate])) as [_ E].
  etransitivity; [exact E|vm_compute; reflexivity].
Defined.
