(* ===== verification/TlsPlan.v ===== *)
(** * TLS ports: which listener takes a connection, and with which certificate

    [src/src/proxy/tls.rs]: [TlsPlan], the dispatch of a TLS port by server
    name, [SniCertResolver] and [build_terminating], the certificates of its
    HTTPS listeners. [src/src/proxy/data_plane.rs]: [merge_cert_refs_by_port]
    and [plan_ports], which make both from the listeners of a pass, keeping
    the last good certificates over a bad rotation.
    [src/src/proxy/worker.rs]: [serve_tls_connection], up to the handshake.

    PEM parsing, key loading and the file system are the class [Rustls].
    Error texts are left out: an error keeps its cause. The code walks
    [merged] in the order of a [HashMap]: the ports do not interact, as
    [plan_ports_lookup] shows. *)

From S2P Require Import Prelude Bytes Routing RouteLookup Config ClientHello.

(** ** Dispatch *)

Inductive TlsKind := KindTerminate | KindNoCert | KindPassthrough.

#[export] Instance TlsKind_eq_dec : EqDecision TlsKind.
Proof. solve_decision. Defined.

Definition rank (k : TlsKind) : Z :=
  match k with KindPassthrough => 0 | KindNoCert => 1 | KindTerminate => 2 end.

Record TlsListener := { tl_kind : TlsKind; tl_hostname : option (list Z) }.

(** The rustls library and the files of the certificate directory: what a
    PEM text holds ([None] where it does not parse), whether a key loads,
    and the files. *)
Class Rustls : Type := {
  CertificateDer : Type;
  PrivateKeyDer : Type;
  SigningKey : Type;
  pem_certs : list Z -> list (option CertificateDer);
  pem_private_key : list Z -> option PrivateKeyDer;
  load_private_key : PrivateKeyDer -> option SigningKey;
  read_cert_file : list Z -> option (list Z);
}.

Section Certificates.
Context {RL : Rustls}.

Definition CertifiedKey : Type := list CertificateDer * SigningKey.

Record SniCertResolver := {
  certs : gmap (list Z) CertifiedKey;
  wildcard_certs : gmap (list Z) CertifiedKey;
  by_name : gmap (list Z) CertifiedKey;
  fallback : option CertifiedKey;
}.

Record ServerConfig := { cert_resolver : SniCertResolver; alpn_protocols : list (list Z) }.

(** The first of the parent domains [m] holds. *)
Definition first_parent {A} (m : gmap (list Z) A) (host : list Z) : option A :=
  head (omap (fun p => m !! p) (parent_domains host)).

Definition resolve (r : SniCertResolver) (server_name : option (list Z)) : option CertifiedKey :=
  match server_name with
  | None => fallback r
  | Some sni =>
      let sni_lower := lowercase sni in
      match certs r !! sni_lower with
      | Some key => Some key
      | None =>
          match first_parent (wildcard_certs r) sni_lower with
          | Some key => Some key
          | None => match by_name r !! sni_lower with Some key => Some key | None => fallback r end
          end
      end
  end.

Record TlsPlan := {
  terminate : option ServerConfig;
  exact : gmap (list Z) TlsListener;
  wildcard : gmap (list Z) TlsListener;
  catch_all : option TlsListener;
  passes_through : bool;
}.

Definition TlsPlan_default : TlsPlan :=
  {| terminate := None; exact := ∅; wildcard := ∅; catch_all := None; passes_through := false |}.

(** [replaces] of [add]. *)
Definition replaces (kind : TlsKind) (held : option TlsListener) : bool :=
  match held with None => true | Some held => rank (tl_kind held) <? rank kind end.

Definition TlsPlan_add (p : TlsPlan) (hostname : option (list Z)) (kind : TlsKind) : TlsPlan :=
  let through := passes_through p || bool_decide (kind = KindPassthrough) in
  let hostname := lowercase <$> hostname in
  let listener := {| tl_kind := kind; tl_hostname := hostname |} in
  let put m key := if replaces kind (m !! key) then <[key := listener]> m else m in
  match hostname with
  | None =>
      {| terminate := terminate p; exact := exact p; wildcard := wildcard p;
         catch_all := if replaces kind (catch_all p) then Some listener else catch_all p; passes_through := through |}
  | Some host =>
      match strip_prefix WILD host with
      | Some parent => {| terminate := terminate p; exact := exact p; wildcard := put (wildcard p) parent;
                          catch_all := catch_all p; passes_through := through |}
      | None => {| terminate := terminate p; exact := put (exact p) host; wildcard := wildcard p;
                   catch_all := catch_all p; passes_through := through |}
      end
  end.

Definition TlsPlan_select (p : TlsPlan) (sni : option (list Z)) : option TlsListener :=
  match sni with
  | None => catch_all p
  | Some sni =>
      match exact p !! sni with
      | Some listener => Some listener
      | None => match first_parent (wildcard p) sni with Some listener => Some listener | None => catch_all p end
      end
  end.

Definition TlsPlan_serves (p : TlsPlan) : bool := is_some (terminate p) || passes_through p.

(** ** Certificates *)

(** [collect::<Result<Vec<_>, _>>()]. *)
Fixpoint collect_all {A} (l : list (option A)) : option (list A) :=
  match l with
  | [] => Some []
  | None :: _ => None
  | Some a :: l => cons a <$> collect_all l
  end.

Definition parse_pem_cert_and_key (cert_pem key_pem : list Z) : option (list CertificateDer * PrivateKeyDer) :=
  certs ← collect_all (pem_certs cert_pem);
  if is_nil certs then None else key ← pem_private_key key_pem; Some (certs, key).

Definition load_cert_and_key (cert_ref : CertificateRef) : option (list CertificateDer * PrivateKeyDer) :=
  match cert_pem cert_ref, key_pem cert_ref with
  | Some cert_pem, Some key_pem => parse_pem_cert_and_key cert_pem key_pem
  | _, _ =>
      cert_pem ← read_cert_file (cert_name cert_ref ++ bs ".crt");
      key_pem ← read_cert_file (cert_name cert_ref ++ bs ".key");
      parse_pem_cert_and_key cert_pem key_pem
  end.

Definition build_certified_key (certs : list CertificateDer) (key : PrivateKeyDer) : option CertifiedKey :=
  signing_key ← load_private_key key; Some (certs, signing_key).

Definition validate_cert_key_pair (cert_pem key_pem : list Z) : bool :=
  match parse_pem_cert_and_key cert_pem key_pem with
  | Some (certs, key) => is_some (build_certified_key certs key)
  | None => false
  end.

Definition CertKey : Type := option (list Z) * list Z * option (list Z).

Definition cert_key (r : CertificateRef) : CertKey := (cert_namespace r, cert_name r, cert_hostname r).

(** The variables of [build_terminating]'s loop. *)
Record Loading := { maps : SniCertResolver; loaded : gset CertKey }.

(** What one reference loads to: [None] is skipped with a warning. *)
Definition load_ref (r : CertificateRef) : option CertifiedKey :=
  '(certs, key) ← load_cert_and_key r; build_certified_key certs key.

Definition add_ref (st : Loading) (r : CertificateRef) : Loading :=
  match load_ref r with
  | None => st
  | Some key =>
      let m := maps st in
      {| maps :=
           match cert_hostname r with
           | Some hostname =>
               let sni_name := lowercase hostname in
               match strip_prefix WILD sni_name with
               | Some stripped => {| certs := certs m; wildcard_certs := <[stripped := key]> (wildcard_certs m);
                                     by_name := by_name m; fallback := fallback m |}
               | None => {| certs := <[sni_name := key]> (certs m); wildcard_certs := wildcard_certs m;
                            by_name := by_name m; fallback := fallback m |}
               end
           | None => {| certs := certs m; wildcard_certs := wildcard_certs m;
                        by_name := <[lowercase (cert_name r) := key]> (by_name m); fallback := Some key |}
           end;
         loaded := {[cert_key r]} ∪ loaded st |}
  end.

Definition no_certs : SniCertResolver := {| certs := ∅; wildcard_certs := ∅; by_name := ∅; fallback := None |}.

Inductive TlsBuildError := RequiresCertificateRef | NoValidCertificates (refs : nat).

Definition build_terminating (cert_refs : list CertificateRef) (http2 : bool)
  : result (ServerConfig * gset CertKey) TlsBuildError :=
  if is_nil cert_refs then Err RequiresCertificateRef
  else
    let st := fold_left add_ref cert_refs {| maps := no_certs; loaded := ∅ |} in
    if negb (is_some (fallback (maps st))) && bool_decide (certs (maps st) = ∅)
       && bool_decide (wildcard_certs (maps st) = ∅)
    then Err (NoValidCertificates (length cert_refs))
    else Ok ({| cert_resolver := maps st;
                alpn_protocols := if http2 then [bs "h2"; bs "http/1.1"] else [bs "http/1.1"] |}, loaded st).

(** ** The plans of a pass *)

Record BuiltConfig := {
  fingerprint : Z;
  built_refs : gset CertKey;
  built_loaded : gset CertKey;
  config : ServerConfig;
}.

Definition has_cert_of (b : BuiltConfig) (l : ListenerConfig) : bool :=
  match l_tls l with
  | Some t => existsb (fun r => bool_decide (cert_key r ∈ built_loaded b)) (certificate_refs t)
  | None => false
  end.

Definition listener_refs (l : ListenerConfig) : list CertificateRef :=
  match l_tls l with Some t => certificate_refs t | None => [] end.

(** The body of the inner loop of [merge_cert_refs_by_port]: the port's refs
    and the keys seen. *)
Definition merge_ref (port : Z) (st : gmap Z (list CertificateRef) * gset (Z * CertKey)) (r : CertificateRef)
  : gmap Z (list CertificateRef) * gset (Z * CertKey) :=
  let '(merged, seen) := st in
  if bool_decide ((port, cert_key r) ∈ seen) then st
  else (<[port := default [] (merged !! port) ++ [r]]> merged, {[(port, cert_key r)]} ∪ seen).

Definition merge_listener (st : gmap Z (list CertificateRef) * gset (Z * CertKey)) (l : ListenerConfig)
  : gmap Z (list CertificateRef) * gset (Z * CertKey) :=
  if negb (bool_decide (l_protocol l = HTTPS)) then st
  else
    let '(merged, seen) := st in
    fold_left (merge_ref (l_port l)) (listener_refs l)
      (<[l_port l := default [] (merged !! l_port l)]> merged, seen).

Definition merge_cert_refs_by_port (listeners : list ListenerConfig) : gmap Z (list CertificateRef) :=
  (fold_left merge_listener listeners (∅, ∅)).1.

(** The bytes [compute_cert_fingerprint] feeds its hasher. *)
Definition ref_bytes (r : CertificateRef) : list Z :=
  default [] (cert_pem r) ++ default [] (key_pem r) ++ default [] (cert_namespace r)
  ++ cert_name r ++ default [] (cert_hostname r).

Definition compute_cert_fingerprint `{FN : Fnv} (refs : list CertificateRef) : Z := fnv (flat_map ref_bytes refs).

(** Why a port's certificates failed, and whether the last good ones serve on. *)
Record TlsFailure := { failure : TlsBuildError; kept : bool }.

(** The body of the loop over [merged]: the port's entry of [built], and its error. *)
Definition build_port `{FN : Fnv} (http2 : bool) (held : option BuiltConfig) (refs : list CertificateRef)
  : option BuiltConfig * option TlsFailure :=
  if is_nil refs then (None, None)
  else
    let fp := compute_cert_fingerprint refs in
    if match held with Some b => fingerprint b =? fp | None => false end then (held, None)
    else
      let keys := list_to_set (map cert_key refs) in
      match build_terminating refs http2 with
      | Ok (config, loaded) =>
          (Some {| fingerprint := fp; built_refs := keys; built_loaded := loaded; config := config |}, None)
      | Err e =>
          match held with
          | Some b => if bool_decide (built_refs b = keys) then (held, Some {| failure := e; kept := true |})
                      else (None, Some {| failure := e; kept := false |})
          | None => (None, Some {| failure := e; kept := false |})
          end
      end.

Definition build_step `{FN : Fnv} (http2 : bool) (st : gmap Z BuiltConfig * list (Z * TlsFailure))
  (kv : Z * list CertificateRef) : gmap Z BuiltConfig * list (Z * TlsFailure) :=
  let '(built, errors) := st in
  let '(entry, error) := build_port http2 (built !! kv.1) kv.2 in
  (partial_alter (fun _ => entry) kv.1 built,
   match error with Some e => errors ++ [(kv.1, e)] | None => errors end).

Definition build_ports `{FN : Fnv} (http2 : bool) (merged : gmap Z (list CertificateRef)) (built : gmap Z BuiltConfig)
  : gmap Z BuiltConfig * list (Z * TlsFailure) :=
  fold_left (build_step http2) (map_to_list merged) (filter (fun kv => is_Some (merged !! kv.1)) built, []).

(** The [match l.protocol] of the second loop: the outer [None] continues. *)
Definition listener_kind (built : gmap Z BuiltConfig) (l : ListenerConfig) : option (option TlsKind) :=
  match l_protocol l with
  | UDP => None
  | HTTP | TCP => Some None
  | HTTPS => match built !! l_port l with
             | Some b => Some (Some (if has_cert_of b l then KindTerminate else KindNoCert))
             | None => Some (Some KindNoCert)
             end
  | TLS => if is_tls_passthrough l then Some (Some KindPassthrough) else None
  end.

Definition plan_listener (built : gmap Z BuiltConfig) (plans : gmap Z (option TlsPlan)) (l : ListenerConfig)
  : gmap Z (option TlsPlan) :=
  match listener_kind built l with
  | None => plans
  | Some kind =>
      let plan := default None (plans !! l_port l) in
      <[l_port l := match kind with
                    | None => plan
                    | Some kind => Some (TlsPlan_add (default TlsPlan_default plan) (l_hostname l) kind)
                    end]> plans
  end.

Definition set_terminate (t : option ServerConfig) (p : TlsPlan) : TlsPlan :=
  {| terminate := t; exact := exact p; wildcard := wildcard p; catch_all := catch_all p;
     passes_through := passes_through p |}.

(** Returns the plans, the new [built] and the errors. *)
Definition plan_ports `{FN : Fnv} (listeners : list ListenerConfig) (http2 : bool) (built : gmap Z BuiltConfig)
  : gmap Z (option TlsPlan) * gmap Z BuiltConfig * list (Z * TlsFailure) :=
  let merged := merge_cert_refs_by_port listeners in
  let '(built, errors) := build_ports http2 merged built in
  let plans := fold_left (plan_listener built) listeners ∅ in
  (map_imap (fun port plan => Some (option_map (set_terminate (option_map config (built !! port))) plan)) plans, built, errors).

Definition serves (plan : option TlsPlan) : bool :=
  match plan with None => true | Some p => TlsPlan_serves p end.

(** ** One connection *)

(** Where [serve_tls_connection] sends a connection. *)
Inductive TlsDispatch :=
  | Refuse
  | PassThrough (sni listener : option (list Z))
  | Handshake (config : ServerConfig).

Definition serve_tls_connection (plan : TlsPlan) (hello : Hello) : TlsDispatch :=
  match hello with
  | Unreadable => Refuse
  | _ =>
      let sni := match hello with Sni sni => Some (lowercase sni) | _ => None end in
      match TlsPlan_select plan sni with
      | None => Refuse
      | Some listener =>
          match tl_kind listener with
          | KindPassthrough => PassThrough sni (tl_hostname listener)
          | KindNoCert => Refuse
          | KindTerminate => match terminate plan with Some config => Handshake config | None => Refuse end
          end
      end
  end.

End Certificates.

(** ** Hostnames as keys *)

(** What a listener's hostname, or none, takes. *)
Inductive HostKey := ExactHost (host : list Z) | WildHost (parent : list Z) | AnyHost.

#[export] Instance HostKey_eq_dec : EqDecision HostKey.
Proof. solve_decision. Defined.

Definition host_key (hostname : option (list Z)) : HostKey :=
  match lowercase <$> hostname with
  | None => AnyHost
  | Some h => match strip_prefix WILD h with Some p => WildHost p | None => ExactHost h end
  end.

Definition key_hostname (k : HostKey) : option (list Z) :=
  match k with ExactHost h => Some h | WildHost p => Some (WILD ++ p) | AnyHost => None end.

Lemma key_hostname_of hn : key_hostname (host_key hn) = lowercase <$> hn.
Proof.
  unfold host_key. destruct hn as [h|]; [|done]. cbn [fmap option_fmap option_map].
  destruct (strip_prefix WILD (lowercase h)) as [p|] eqn:E; [|done].
  apply strip_prefix_Some in E. by rewrite E.
Qed.

(** The keys a server name can select, the most specific first. *)
Definition search_keys (sni : option (list Z)) : list HostKey :=
  match sni with
  | None => [AnyHost]
  | Some s => ExactHost s :: map WildHost (parent_domains s) ++ [AnyHost]
  end.

(** The first of [ks] under which [f] holds something. *)
Definition first_held {A} (f : HostKey -> option A) (ks : list HostKey) : option A := head (omap f ks).

Lemma first_held_app {A} (f : HostKey -> option A) ks ks' :
  first_held f (ks ++ ks') = match first_held f ks with Some a => Some a | None => first_held f ks' end.
Proof.
  unfold first_held. rewrite omap_app. by destruct (omap f ks).
Qed.

Lemma first_held_cons {A} (f : HostKey -> option A) k ks :
  first_held f (k :: ks) = match f k with Some a => Some a | None => first_held f ks end.
Proof. unfold first_held. simpl. by destruct (f k). Qed.

Lemma first_held_Some {A} (f : HostKey -> option A) ks a :
  first_held f ks = Some a ->
  exists pre k post, ks = pre ++ k :: post /\ f k = Some a /\ Forall (fun k => f k = None) pre.
Proof.
  induction ks as [|k ks IH]; [done|]. rewrite first_held_cons.
  destruct (f k) as [b|] eqn:E.
  - intros [= <-]. by exists [], k, ks.
  - intros (pre & k' & post & -> & Hk & Hpre)%IH. exists (k :: pre), k', post. split_and!; [done|done|by constructor].
Qed.

Lemma first_held_skip {A} (f : HostKey -> option A) pre k post :
  Forall (fun k => f k = None) pre -> is_Some (f k) -> first_held f (pre ++ k :: post) = f k.
Proof.
  intros Hpre [a Ha]. rewrite first_held_app.
  assert (first_held f pre = None) as ->.
  { induction Hpre as [|k' pre Hk _ IH]; [done|]. by rewrite first_held_cons, Hk. }
  by rewrite first_held_cons, Ha.
Qed.

Lemma first_parent_held {A} (m : gmap (list Z) A) f host :
  (forall p, f (WildHost p) = m !! p) -> first_parent m host = first_held f (map WildHost (parent_domains host)).
Proof.
  intros Hf. unfold first_parent, first_held.
  induction (parent_domains host) as [|p ps IH]; simpl; [done|]. rewrite Hf. by destruct (m !! p).
Qed.

Section Certificates.
Context {RL : Rustls}.

(** ** The plan, key by key *)

Definition plan_at (p : TlsPlan) (k : HostKey) : option TlsListener :=
  match k with
  | ExactHost h => exact p !! h
  | WildHost d => wildcard p !! d
  | AnyHost => catch_all p
  end.

Lemma plan_at_add p hn kind k :
  plan_at (TlsPlan_add p hn kind) k
  = if decide (host_key hn = k) then
      if replaces kind (plan_at p k) then Some {| tl_kind := kind; tl_hostname := key_hostname k |} else plan_at p k
    else plan_at p k.
Proof.
  rewrite <- (decide_ext (k = host_key hn) (host_key hn = k)) by naive_solver.
  destruct (decide (k = host_key hn)) as [->|Hne].
  - rewrite key_hostname_of. unfold host_key, TlsPlan_add. destruct hn as [h|]; cbn [fmap option_fmap option_map].
    + destruct (strip_prefix WILD (lowercase h)) as [p'|]; simpl.
      * destruct (replaces kind (wildcard p !! p')); [by simplify_map_eq|done].
      * destruct (replaces kind (exact p !! lowercase h)); [by simplify_map_eq|done].
    + cbn [plan_at catch_all]. by destruct (replaces kind (catch_all p)).
  - unfold host_key in Hne. unfold TlsPlan_add. destruct hn as [h|]; cbn [fmap option_fmap option_map] in *.
    + destruct (strip_prefix WILD (lowercase h)) as [p'|]; simpl in *;
        destruct k as [h'|d|]; simpl; try done; destruct (replaces _ _); try done;
        rewrite lookup_insert_ne by congruence; done.
    + by destruct k.
Qed.

Lemma TlsPlan_select_keys p sni : TlsPlan_select p sni = first_held (plan_at p) (search_keys sni).
Proof.
  destruct sni as [s|]; simpl.
  - rewrite first_held_cons. simpl. destruct (exact p !! s); [done|].
    rewrite first_held_app, <- (first_parent_held (wildcard p) (plan_at p)) by done.
    destruct (first_parent (wildcard p) s); [done|]. rewrite first_held_cons. simpl. by destruct (catch_all p).
  - rewrite first_held_cons. simpl. by destruct (catch_all p).
Qed.

(** Among the listeners of one hostname the highest rank takes it. *)
Definition best (ks : list TlsKind) : option TlsKind :=
  fold_left (fun b k => match b with Some b => Some (if rank b <? rank k then k else b) | None => Some k end) ks None.

Definition kinds_at (k : HostKey) (es : list (option (list Z) * TlsKind)) : list TlsKind :=
  map snd (filter (fun e => host_key e.1 = k) es).

Definition plan_of (es : list (option (list Z) * TlsKind)) : TlsPlan :=
  fold_left (fun p e => TlsPlan_add p e.1 e.2) es TlsPlan_default.

Lemma plan_at_of es k :
  plan_at (plan_of es) k
  = (fun kind => {| tl_kind := kind; tl_hostname := key_hostname k |}) <$> best (kinds_at k es).
Proof.
  unfold plan_of. induction es as [|e es IH] using rev_ind; [by destruct k|].
  rewrite fold_left_app. simpl. rewrite plan_at_add, IH. unfold kinds_at. rewrite list.filter_app, map_app.
  unfold best. rewrite fold_left_app. destruct (decide (host_key e.1 = k)) as [Hk|Hk].
  - rewrite (filter_cons_True (fun e0 => host_key e0.1 = k) e [] Hk). simpl. fold (best (map snd (filter (fun e => host_key e.1 = k) es))).
    destruct (best _) as [b|]; simpl; [|done]. by destruct (rank b <? rank e.2).
  - rewrite (filter_cons_False (fun e0 => host_key e0.1 = k) e [] Hk). by destruct (fold_left _ (map snd _) None).
Qed.

Lemma rank_inj a b : rank a = rank b -> a = b.
Proof. by destruct a, b. Qed.

Lemma best_spec ks b : best ks = Some b <-> b ∈ ks /\ Forall (fun k => rank k <= rank b) ks.
Proof.
  revert b. induction ks as [|k ks IH] using rev_ind; intros b.
  { split; [done|]. intros [H _]. by apply not_elem_of_nil in H. }
  unfold best. rewrite fold_left_app. fold (best ks). simpl. rewrite elem_of_app, list_elem_of_singleton, Forall_app, Forall_singleton.
  destruct (best ks) as [c|] eqn:Ec.
  - destruct (proj1 (IH c) eq_refl) as [Hin Hmax].
    destruct (Z.ltb_spec (rank c) (rank k)).
    + split.
      * intros [= <-]. split; [by right|]. split; [|lia]. eapply Forall_impl; [exact Hmax|]. simpl. lia.
      * intros [[Hb| ->] [_ Hk]]; [|done]. rewrite Forall_forall in Hmax. specialize (Hmax b Hb). simpl in *. lia.
    + split.
      * intros [= <-]. split; [by left|]. split; [done|lia].
      * intros [[Hb| ->] [Hall Hk]]; f_equal; apply rank_inj; rewrite Forall_forall in Hall; specialize (Hall c Hin).
        -- rewrite Forall_forall in Hmax. specialize (Hmax b Hb). lia.
        -- lia.
  - assert (ks = []) as ->.
    { destruct ks as [|c ks']; [done|]. exfalso. clear -Ec. unfold best in Ec. simpl in Ec.
      assert (H : forall l (c : TlsKind), fold_left (fun b k => match b with Some b => Some (if rank b <? rank k then k else b) | None => Some k end) l (Some c) <> None).
      { intros l. induction l as [|x l IHl]; intros c'; simpl; [done|]. apply IHl. }
      by apply (H ks' c). }
    split; [intros [= <-]; split; [by right|split; [constructor|lia]]|].
    intros [[H| ->] _]; [by apply not_elem_of_nil in H|done].
Qed.

(** ** The certificates, key by key *)

Definition cert_at (r : SniCertResolver) (k : HostKey) : option CertifiedKey :=
  match k with
  | ExactHost h => certs r !! h
  | WildHost d => wildcard_certs r !! d
  | AnyHost => fallback r
  end.

(** A name no key takes may still pick a catch-all certificate by its own name. *)
Lemma resolve_keys r sni :
  resolve r sni
  = match first_held (cert_at r) (removelast (search_keys (lowercase <$> sni))) with
    | Some key => Some key
    | None => match sni with
              | Some s => match by_name r !! lowercase s with Some key => Some key | None => fallback r end
              | None => fallback r
              end
    end.
Proof.
  destruct sni as [s|]; [|done]. cbn [resolve fmap option_fmap option_map search_keys].
  rewrite app_comm_cons, removelast_last, first_held_cons. simpl.
  destruct (certs r !! lowercase s); [done|].
  rewrite <- (first_parent_held (wildcard_certs r) (cert_at r)) by done. done.
Qed.

(** [key] was loaded from a reference of [refs] for the hostname [k]. *)
Definition loaded_for (refs : list CertificateRef) (k : HostKey) (key : CertifiedKey) : Prop :=
  exists r, r ∈ refs /\ load_ref r = Some key /\ host_key (cert_hostname r) = k.

(** What the loop of [build_terminating] keeps true of the references read. *)
Record loading_ok (refs : list CertificateRef) (st : Loading) : Prop := {
  lo_at k key : cert_at (maps st) k = Some key -> loaded_for refs k key;
  lo_name s key : by_name (maps st) !! s = Some key -> loaded_for refs AnyHost key;
  lo_keys ck : ck ∈ loaded st <-> exists r, r ∈ refs /\ is_Some (load_ref r) /\ cert_key r = ck;
  lo_some k : (exists r, r ∈ refs /\ is_Some (load_ref r) /\ host_key (cert_hostname r) = k) -> is_Some (cert_at (maps st) k);
}.

Lemma loaded_for_app refs refs' k key : loaded_for refs k key -> loaded_for (refs ++ refs') k key.
Proof. intros (r & Hr & H). exists r. split; [apply elem_of_app; by left|done]. Qed.

Lemma cert_at_add st r key k :
  load_ref r = Some key ->
  cert_at (maps (add_ref st r)) k = if decide (host_key (cert_hostname r) = k) then Some key else cert_at (maps st) k.
Proof.
  intros Hr. unfold add_ref. rewrite Hr. cbn [maps].
  rewrite <- (decide_ext (k = host_key (cert_hostname r)) (host_key (cert_hostname r) = k)) by naive_solver.
  unfold host_key. destruct (cert_hostname r) as [h|]; cbn [fmap option_fmap option_map].
  - destruct (strip_prefix WILD (lowercase h)) as [p|]; destruct k as [h'|d|]; cbn [cert_at certs wildcard_certs fallback];
      destruct (decide _) as [Hd|Hd]; try done; try (injection Hd as ->; by rewrite lookup_insert_eq);
      rewrite lookup_insert_ne by congruence; done.
  - destruct k; cbn [cert_at certs wildcard_certs fallback]; by destruct (decide _).
Qed.

Lemma loading_ok_add refs st r : loading_ok refs st -> loading_ok (refs ++ [r]) (add_ref st r).
Proof.
  intros [Hat Hname Hkeys Hsome]. destruct (load_ref r) as [key|] eqn:Hr.
  - assert (Hin : loaded_for (refs ++ [r]) (host_key (cert_hostname r)) key).
    { exists r. split; [apply elem_of_app; right; by apply list_elem_of_singleton|done]. }
    split.
    + intros k key'. rewrite (cert_at_add _ _ _ _ Hr).
      destruct (decide _) as [<-|]; [by intros [= <-]|]. intros H. by apply loaded_for_app, Hat.
    + intros s key'. unfold add_ref. rewrite Hr. cbn [maps].
      destruct (cert_hostname r) as [h|] eqn:Eh.
      * assert (E : forall m, by_name match strip_prefix WILD (lowercase h) with
             | Some p => {| certs := certs m; wildcard_certs := <[p := key]> (wildcard_certs m); by_name := by_name m; fallback := fallback m |}
             | None => {| certs := <[lowercase h := key]> (certs m); wildcard_certs := wildcard_certs m; by_name := by_name m; fallback := fallback m |}
             end = by_name m) by (intros m; by destruct (strip_prefix WILD (lowercase h))).
        rewrite E. intros H. by apply loaded_for_app, Hname with s.
      * cbn [by_name]. rewrite lookup_insert_Some. intros [[_ <-]|[_ H]]; [done|]. by apply loaded_for_app, Hname with s.
    + intros ck. unfold add_ref. rewrite Hr. cbn [loaded]. rewrite elem_of_union, elem_of_singleton, Hkeys.
      setoid_rewrite elem_of_app. setoid_rewrite list_elem_of_singleton. split.
      * intros [->|(r' & Hr' & H)]; [exists r; eauto|exists r'; eauto].
      * intros (r' & [Hr'| ->] & Hl & <-); [right; eauto|by left].
    + intros k (r' & Hr' & Hl & Hk). rewrite (cert_at_add _ _ _ _ Hr). destruct (decide _) as [|Hne]; [done|].
      apply Hsome. exists r'. split; [|done]. apply elem_of_app in Hr' as [|Hr']; [done|].
      apply list_elem_of_singleton in Hr' as ->. done.
  - assert (E : add_ref st r = st) by (unfold add_ref; by rewrite Hr). rewrite E.
    assert (Hback : forall (P : CertificateRef -> Prop),
      (exists r', r' ∈ refs ++ [r] /\ is_Some (load_ref r') /\ P r') <-> exists r', r' ∈ refs /\ is_Some (load_ref r') /\ P r').
    { intros P. setoid_rewrite elem_of_app. setoid_rewrite list_elem_of_singleton. split.
      - intros (r' & [Hr'| ->] & [y Hl] & H); [eauto|congruence].
      - intros (r' & Hr' & H). eauto. }
    split.
    + intros k key H. by apply loaded_for_app, Hat.
    + intros s key H. by apply loaded_for_app, Hname with s.
    + intros ck. by rewrite Hkeys, (Hback (fun r => cert_key r = ck)).
    + intros k H. apply Hsome. by apply (Hback (fun r => host_key (cert_hostname r) = k)).
Qed.

Lemma loading_ok_refs refs : loading_ok refs (fold_left add_ref refs {| maps := no_certs; loaded := ∅ |}).
Proof.
  induction refs as [|r refs IH] using rev_ind.
  - split; simpl.
    + intros [] key H; simpl in H; by rewrite ?lookup_empty in H.
    + intros s key H. by rewrite lookup_empty in H.
    + intros ck. rewrite elem_of_empty. split; [done|]. intros (r & Hr & _). by apply not_elem_of_nil in Hr.
    + intros k (r & Hr & _). by apply not_elem_of_nil in Hr.
  - rewrite fold_left_app. by apply loading_ok_add.
Qed.

(** A configuration built from [refs]. *)
Lemma build_terminating_loading refs http2 config keys :
  build_terminating refs http2 = Ok (config, keys) ->
  loading_ok refs {| maps := cert_resolver config; loaded := keys |}.
Proof.
  unfold build_terminating. destruct (is_nil refs); [done|].
  pose proof (loading_ok_refs refs) as H. destruct (fold_left _ _ _) as [m l].
  cbn [maps loaded]. destruct (_ && _); [done|]. intros [= <- <-]. done.
Qed.

(** What is served under a hostname it holds a certificate for, no more
    specific hostname being held. *)
Lemma resolve_loaded refs http2 config keys sni pre k post :
  build_terminating refs http2 = Ok (config, keys) ->
  search_keys (lowercase <$> sni) = pre ++ k :: post ->
  Forall (fun k => cert_at (cert_resolver config) k = None) pre ->
  is_Some (cert_at (cert_resolver config) k) ->
  exists key, resolve (cert_resolver config) sni = Some key /\ loaded_for refs k key.
Proof.
  intros Hb Hs Hpre Hk. apply build_terminating_loading in Hb as [Hat Hname _ _]. cbn [maps] in *.
  rewrite resolve_keys, Hs. destruct post as [|k' post _] using rev_ind.
  - rewrite removelast_last.
    assert (k = AnyHost) as ->.
    { destruct sni as [s|]; cbn [fmap option_fmap option_map search_keys] in Hs.
      - rewrite app_comm_cons in Hs. by apply app_inj_tail in Hs as [_ <-].
      - destruct pre as [|? [|]]; naive_solver. }
    assert (first_held (cert_at (cert_resolver config)) pre = None) as ->.
    { clear -Hpre. induction Hpre as [|k' pre Hk' _ IH]; [done|]. by rewrite first_held_cons, Hk'. }
    destruct Hk as [key Hk]. cbn [cert_at] in Hk. destruct sni as [s|]; [|exists key; split; [done|by apply Hat]].
    destruct (by_name _ !! _) as [key'|] eqn:En; [exists key'; split; [done|by apply Hname with (lowercase s)]|].
    exists key. split; [done|by apply Hat].
  - rewrite app_comm_cons, app_assoc, removelast_last, first_held_skip by done.
    destruct Hk as [key Hk]. rewrite Hk. exists key. split; [done|by apply Hat].
Qed.

(** Whatever is served was loaded from a reference. *)
Lemma resolve_from_refs refs http2 config keys sni key :
  build_terminating refs http2 = Ok (config, keys) -> resolve (cert_resolver config) sni = Some key -> exists k, loaded_for refs k key.
Proof.
  intros Hb. apply build_terminating_loading in Hb as [Hat Hname _ _]. cbn [maps] in *. rewrite resolve_keys.
  destruct (first_held _ _) as [key'|] eqn:Eh.
  { intros [= <-]. apply first_held_Some in Eh as (pre & k & post & _ & Hk & _). exists k. by apply Hat. }
  assert (Hany : fallback (cert_resolver config) = Some key -> exists k, loaded_for refs k key) by (intros H; exists AnyHost; by apply Hat).
  destruct sni as [s|]; [|done]. destruct (by_name _ !! _) as [key'|] eqn:En; [|done]. intros [= <-]. exists AnyHost. by eapply Hname.
Qed.

(** ** The references of a port *)

(** The references of the HTTPS listeners on [port], and whether it has one. *)
Definition https_on (port : Z) (l : ListenerConfig) : bool := bool_decide (l_protocol l = HTTPS) && (l_port l =? port).

Definition port_refs (port : Z) (ls : list ListenerConfig) : list CertificateRef :=
  flat_map listener_refs (List.filter (https_on port) ls).

(** What [merge_cert_refs_by_port] keeps true of what it has read: the merged
    references are among those read, one for each key, and [seen] has their keys. *)
Record merged_ok (ports : list Z) (refs : Z -> list CertificateRef)
  (st : gmap Z (list CertificateRef) * gset (Z * CertKey)) : Prop := {
  mo_ports p : is_Some (st.1 !! p) <-> p ∈ ports;
  mo_in p r : r ∈ default [] (st.1 !! p) -> r ∈ refs p;
  mo_keys p ck : ck ∈ map cert_key (refs p) -> ck ∈ map cert_key (default [] (st.1 !! p));
  mo_seen p ck : (p, ck) ∈ st.2 <-> ck ∈ map cert_key (default [] (st.1 !! p));
}.

Lemma merged_ok_ref ports refs st port r :
  port ∈ ports -> merged_ok ports refs st ->
  merged_ok ports (fun p => if decide (p = port) then refs p ++ [r] else refs p) (merge_ref port st r).
Proof.
  intros Hport [Hp Hin Hk Hs]. destruct st as [merged seen]. unfold merge_ref. cbn [fst snd] in *.
  case_bool_decide as Hseen.
  - split; [done| | |done]; cbn [fst].
    + intros p r' H. destruct (decide (p = port)); [apply elem_of_app; left|]; by apply Hin.
    + intros p ck. destruct (decide (p = port)) as [->|]; [|by apply Hk].
      rewrite map_app, elem_of_app. intros [H|H]; [by apply Hk|].
      cbn [map] in H. apply list_elem_of_singleton in H as ->. by apply Hs.
  - assert (Hlook : forall p, default [] (<[port := default [] (merged !! port) ++ [r]]> merged !! p)
                     = if decide (p = port) then default [] (merged !! p) ++ [r] else default [] (merged !! p)).
    { intros p. destruct (decide (p = port)) as [->|]; [by rewrite lookup_insert_eq|by rewrite lookup_insert_ne]. }
    split; cbn [fst snd].
    + intros p. rewrite lookup_insert_is_Some, <- Hp. split; [intros [<-|[_ H]]|]; [by apply Hp|done|].
      intros H. destruct (decide (port = p)); [by left|by right].
    + intros p r'. rewrite Hlook. destruct (decide (p = port)) as [->|]; [|apply Hin].
      rewrite !elem_of_app. intros [H|H]; [left; by apply Hin|by right].
    + intros p ck. rewrite Hlook. destruct (decide (p = port)) as [->|]; [|apply Hk].
      rewrite !map_app, !elem_of_app. intros [H|H]; [left; by apply Hk|by right].
    + intros p ck. rewrite Hlook, elem_of_union, elem_of_singleton, Hs.
      destruct (decide (p = port)) as [->|Hne]; [|split; [intros [E|]; [congruence|done]|by right]].
      rewrite map_app, elem_of_app. cbn [map]. rewrite list_elem_of_singleton. naive_solver.
Qed.

Lemma merged_ok_refs ports refs st port rs :
  port ∈ ports -> merged_ok ports refs st ->
  merged_ok ports (fun p => if decide (p = port) then refs p ++ rs else refs p) (fold_left (merge_ref port) rs st).
Proof.
  intros Hport. revert refs st. induction rs as [|r rs IH]; intros refs st Hok; simpl.
  - destruct Hok as [Hp Hin Hk Hs]. split; [done| | |done].
    + intros p r H. destruct (decide (p = port)); [rewrite app_nil_r|]; by apply Hin.
    + intros p ck. destruct (decide (p = port)); [rewrite app_nil_r|]; apply Hk.
  - pose proof (IH _ _ (merged_ok_ref _ _ _ port r Hport Hok)) as [Hp Hin Hk Hs]. split; [done| | |done].
    + intros p r' H. apply Hin in H. destruct (decide (p = port)); [by rewrite <- app_assoc in H|done].
    + intros p ck H. apply Hk. destruct (decide (p = port)); [by rewrite <- app_assoc|done].
Qed.

Lemma merged_ok_listener ports refs st l :
  merged_ok ports refs st ->
  merged_ok (ports ++ (if bool_decide (l_protocol l = HTTPS) then [l_port l] else []))
    (fun p => refs p ++ (if https_on p l then listener_refs l else [])) (merge_listener st l).
Proof.
  intros Hok. unfold merge_listener, https_on. case_bool_decide as Hhttps; cbn [negb andb].
  - destruct st as [merged seen].
    assert (Hok' : merged_ok (ports ++ [l_port l]) refs (<[l_port l := default [] (merged !! l_port l)]> merged, seen)).
    { destruct Hok as [Hp Hin Hk Hs]. cbn [fst snd] in *.
      assert (Hlook : forall p, default [] (<[l_port l := default [] (merged !! l_port l)]> merged !! p) = default [] (merged !! p)).
      { intros p. destruct (decide (l_port l = p)) as [<-|]; [by rewrite lookup_insert_eq|by rewrite lookup_insert_ne]. }
      split; cbn [fst snd]; intros p; [|intros ?; rewrite Hlook; auto..].
      rewrite lookup_insert_is_Some, elem_of_app, list_elem_of_singleton, <- Hp.
      destruct (decide (l_port l = p)); naive_solver. }
    pose proof (merged_ok_refs _ _ _ (l_port l) (listener_refs l) ltac:(apply elem_of_app; right; by apply list_elem_of_singleton) Hok') as [Hp Hin Hk Hs].
    split; [done| | |done].
    + intros p r H. apply Hin in H. destruct (decide (p = l_port l)) as [->|Hne]; [by rewrite Z.eqb_refl|].
      rewrite (proj2 (Z.eqb_neq _ _)) by congruence. by rewrite app_nil_r.
    + intros p ck H. apply Hk. destruct (decide (p = l_port l)) as [->|Hne]; [by rewrite Z.eqb_refl in H|].
      rewrite (proj2 (Z.eqb_neq _ _)) in H by congruence. by rewrite app_nil_r in H.
  - rewrite app_nil_r. destruct Hok as [Hp Hin Hk Hs]. split; [done| | |done].
    + intros p r H. rewrite app_nil_r. by apply Hin.
    + intros p ck. rewrite app_nil_r. apply Hk.
Qed.

Lemma merge_spec ls :
  merged_ok (map l_port (List.filter (fun l => bool_decide (l_protocol l = HTTPS)) ls)) (fun p => port_refs p ls)
    (fold_left merge_listener ls (∅, ∅)).
Proof.
  induction ls as [|l ls IH] using rev_ind.
  - split; cbn; intros p.
    + rewrite lookup_empty. split; [by intros [? ?]|intros H; by apply not_elem_of_nil in H].
    + intros r. by rewrite lookup_empty.
    + intros ck H. by apply not_elem_of_nil in H.
    + intros ck. rewrite lookup_empty, elem_of_empty. split; [done|intros H; by apply not_elem_of_nil in H].
  - rewrite fold_left_app. pose proof (merged_ok_listener _ _ _ l IH) as [Hp Hin Hk Hs].
    assert (Erefs : forall p, port_refs p (ls ++ [l]) = port_refs p ls ++ (if https_on p l then listener_refs l else [])).
    { intros p. unfold port_refs. rewrite List.filter_app, flat_map_app. f_equal. cbn [List.filter].
      destruct (https_on p l); cbn [flat_map]; [by rewrite app_nil_r|done]. }
    cbn [fold_left]. split; [| | |done].
    + intros p. rewrite Hp, List.filter_app, map_app. cbn [List.filter]. by destruct (bool_decide (l_protocol l = HTTPS)).
    + intros p r H. rewrite Erefs. by apply Hin.
    + intros p ck. rewrite Erefs. apply Hk.
Qed.

Lemma merge_has_port p ls :
  is_Some (merge_cert_refs_by_port ls !! p) <-> exists l, l ∈ ls /\ https_on p l = true.
Proof.
  unfold merge_cert_refs_by_port. rewrite (mo_ports _ _ _ (merge_spec ls)).
  rewrite list_elem_of_In, in_map_iff. setoid_rewrite filter_In. setoid_rewrite list_elem_of_In. unfold https_on. split.
  - intros (l & <- & Hl & H). exists l. by rewrite H, Z.eqb_refl.
  - intros (l & Hl & H). bool_simpl. exists l. by rewrite bool_decide_true.
Qed.

Lemma merge_refs_in p refs r ls :
  merge_cert_refs_by_port ls !! p = Some refs -> r ∈ refs -> exists l, l ∈ ls /\ https_on p l = true /\ r ∈ listener_refs l.
Proof.
  intros Hm Hr. pose proof (mo_in _ _ _ (merge_spec ls) p r) as H. unfold merge_cert_refs_by_port in Hm.
  rewrite Hm in H. apply H in Hr. unfold port_refs in Hr.
  apply list_elem_of_In, in_flat_map in Hr as (l & Hl & Hr). apply filter_In in Hl as [Hl Hh].
  exists l. by rewrite !list_elem_of_In.
Qed.

Lemma merge_refs_keys p refs r l ls :
  merge_cert_refs_by_port ls !! p = Some refs -> l ∈ ls -> https_on p l = true -> r ∈ listener_refs l ->
  cert_key r ∈ map cert_key refs.
Proof.
  intros Hm Hl Hh Hr. pose proof (mo_keys _ _ _ (merge_spec ls) p (cert_key r)) as H. unfold merge_cert_refs_by_port in Hm.
  rewrite Hm in H. apply H. apply list_elem_of_In, in_map, in_flat_map. exists l.
  rewrite filter_In, <- !list_elem_of_In. done.
Qed.

(** ** Each port on its own *)

Lemma build_ports_fold `{FN : Fnv} http2 kvs st p :
  NoDup (kvs.*1) ->
  (fold_left (build_step http2) kvs st).1 !! p
  = match list_find (fun kv => kv.1 = p) kvs with
    | Some (_, (_, refs)) => (build_port http2 (st.1 !! p) refs).1
    | None => st.1 !! p
    end.
Proof.
  revert st. induction kvs as [|[port refs] kvs IH]; intros st Hnd; [done|].
  inversion_clear Hnd as [|? ? Hnot Hnd']. cbn [fold_left]. rewrite IH by done.
  assert (E : (build_step http2 st (port, refs)).1 = partial_alter (fun _ => (build_port http2 (st.1 !! port) refs).1) port st.1).
  { destruct st as [built errors]. unfold build_step. cbn [fst snd]. by destruct (build_port _ _ _). }
  rewrite E. simpl. destruct (decide (port = p)) as [->|Hne].
  - rewrite lookup_partial_alter_eq.
    destruct (list_find (fun kv => kv.1 = p) kvs) as [[i [p' refs']]|] eqn:Ef; [|done].
    apply list_find_Some in Ef as (Hi & Hp & _). simpl in Hp. subst p'. exfalso. apply Hnot.
    apply list_elem_of_lookup. exists i. by rewrite list_lookup_fmap, Hi.
  - rewrite lookup_partial_alter_ne by done.
    destruct (list_find (fun kv => kv.1 = p) kvs) as [[i [p' refs']]|]; done.
Qed.

(** The loop over [merged] treats each port by itself, so its order does not
    matter. *)
Lemma build_ports_lookup `{FN : Fnv} http2 merged built p :
  (build_ports http2 merged built).1 !! p
  = match merged !! p with Some refs => (build_port http2 (built !! p) refs).1 | None => None end.
Proof.
  unfold build_ports. rewrite build_ports_fold by apply NoDup_fst_map_to_list.
  cbn [fst]. rewrite map_lookup_filter.
  destruct (list_find (fun kv => kv.1 = p) (map_to_list merged)) as [[i [p' refs]]|] eqn:Ef.
  - apply list_find_Some in Ef as (Hi & Hp & _). simpl in Hp. subst p'.
    apply list_elem_of_lookup_2, elem_of_map_to_list in Hi. rewrite Hi.
    destruct (built !! p) as [b|]; simpl; [|done]. by rewrite option_guard_True by (rewrite Hi; eauto).
  - apply list_find_None in Ef. destruct (merged !! p) as [refs|] eqn:Em.
    + exfalso. apply elem_of_map_to_list in Em. rewrite Forall_forall in Ef. by apply (Ef _ Em).
    + destruct (built !! p) as [b|]; simpl; [|done]. rewrite option_guard_False; [done|].
      cbn [fst]. rewrite Em. by intros [? ?].
Qed.

Lemma build_ports_errors `{FN : Fnv} http2 kvs st p e :
  NoDup (kvs.*1) ->
  (p, e) ∈ (fold_left (build_step http2) kvs st).2
  <-> (p, e) ∈ st.2 \/ exists refs, (p, refs) ∈ kvs /\ (build_port http2 (st.1 !! p) refs).2 = Some e.
Proof.
  revert st. induction kvs as [|[port refs] kvs IH]; intros st Hnd.
  { cbn [fold_left]. split; [by left|]. intros [|(refs & Hin & _)]; [done|]. by apply not_elem_of_nil in Hin. }
  inversion_clear Hnd as [|? ? Hnot Hnd']. cbn [fold_left]. rewrite IH by done.
  assert (E : (build_step http2 st (port, refs)).1 = partial_alter (fun _ => (build_port http2 (st.1 !! port) refs).1) port st.1
    /\ forall x, x ∈ (build_step http2 st (port, refs)).2
                 <-> x ∈ st.2 \/ exists e, x = (port, e) /\ (build_port http2 (st.1 !! port) refs).2 = Some e).
  { destruct st as [built errors]. unfold build_step. cbn [fst snd]. destruct (build_port _ _ _) as [b [e'|]]; cbn [fst snd].
    - split; [done|]. intros x. rewrite elem_of_app, list_elem_of_singleton. naive_solver.
    - split; [done|]. intros x. naive_solver. }
  destruct E as [E1 E2]. rewrite E1, E2.
  assert (Hne : forall refs', (p, refs') ∈ kvs -> p <> port).
  { intros refs' Hin ->. apply Hnot. apply list_elem_of_fmap. by exists (port, refs'). }
  setoid_rewrite elem_of_cons. split.
  - intros [[Ho|(e' & [= -> <-] & He)]|(refs' & Hin & He)]; [by left|right; eauto|right; exists refs'; split; [by right|]].
    by rewrite lookup_partial_alter_ne in He by (apply not_eq_sym, (Hne _ Hin)).
  - intros [Ho|(refs' & [[= -> ->]|Hin] & He)]; [by left; left|left; right; eauto|right; exists refs'; split; [done|]].
    by rewrite lookup_partial_alter_ne by (apply not_eq_sym, (Hne _ Hin)).
Qed.

(** ** The plan of a port *)

Definition entry_of (built : gmap Z BuiltConfig) (port : Z) (l : ListenerConfig) : option (option (list Z) * TlsKind) :=
  if l_port l =? port then kind ← listener_kind built l; pair (l_hostname l) <$> kind else None.

(** Whether a listener names its TCP port to the plans. *)
Definition planned (port : Z) (l : ListenerConfig) : bool :=
  (l_port l =? port) && match l_protocol l with UDP => false | TLS => is_tls_passthrough l | _ => true end.

Lemma listener_kind_planned built l :
  is_some (listener_kind built l) = planned (l_port l) l.
Proof.
  unfold planned, listener_kind. rewrite Z.eqb_refl. cbn [andb].
  destruct (l_protocol l); try done.
  - by destruct (built !! l_port l).
  - by destruct (is_tls_passthrough l).
Qed.

Lemma plan_fold_lookup built ls p :
  fold_left (plan_listener built) ls ∅ !! p
  = if existsb (planned p) ls
    then Some (match omap (entry_of built p) ls with [] => None | es => Some (plan_of es) end)
    else None.
Proof.
  induction ls as [|l ls IH] using rev_ind; [done|].
  rewrite fold_left_app, existsb_app, omap_app. cbn [fold_left existsb omap list_omap]. rewrite orb_false_r.
  set (plans := fold_left _ ls ∅) in *. unfold plan_listener.
  pose proof (listener_kind_planned built l) as Hk. unfold entry_of at 2.
  destruct (Z.eqb_spec (l_port l) p) as [<-|Hne].
  - destruct (listener_kind built l) as [kind|]; cbn [is_some] in Hk; rewrite <- Hk; cbn [mbind option_bind].
    + rewrite orb_true_r, lookup_insert_eq, IH. f_equal.
      assert (E : default None (if existsb (planned (l_port l)) ls
                    then Some (match omap (entry_of built (l_port l)) ls with [] => None | es => Some (plan_of es) end) else None)
                  = match omap (entry_of built (l_port l)) ls with [] => None | es => Some (plan_of es) end).
      { destruct (existsb (planned (l_port l)) ls) eqn:Ex; [done|].
        assert (omap (entry_of built (l_port l)) ls = []) as ->; [|done].
        clear -Ex. induction ls as [|l' ls IH]; [done|]. cbn [existsb] in Ex. apply orb_false_iff in Ex as [E1 E2].
        cbn [omap list_omap]. unfold entry_of at 1. destruct (Z.eqb_spec (l_port l') (l_port l)) as [Heq|]; [|by apply IH].
        rewrite <- Heq in E1. rewrite <- listener_kind_planned with (built := built) in E1.
        destruct (listener_kind built l'); [done|]. by apply IH. }
      rewrite E. destruct kind as [kind|]; cbn [fmap option_fmap option_map]; [|by rewrite app_nil_r].
      destruct (omap (entry_of built (l_port l)) ls) as [|e es]; cbn [app default]; [done|].
      unfold plan_of. change (e :: es ++ [(l_hostname l, kind)]) with ((e :: es) ++ [(l_hostname l, kind)]).
      by rewrite fold_left_app.
    + by rewrite orb_false_r, app_nil_r, IH.
  - assert (planned p l = false) as -> by (unfold planned; by rewrite (proj2 (Z.eqb_neq _ _)) by done).
    rewrite orb_false_r, app_nil_r.
    destruct (listener_kind built l) as [kind|]; [rewrite lookup_insert_ne by done|]; exact IH.
Qed.

(** A port's plan after a pass, and the configuration it terminates with. *)
Lemma plan_ports_lookup `{FN : Fnv} ls http2 built0 p plans built errors :
  plan_ports ls http2 built0 = (plans, built, errors) ->
  built !! p = match merge_cert_refs_by_port ls !! p with
               | Some refs => (build_port http2 (built0 !! p) refs).1
               | None => None
               end
  /\ plans !! p = if existsb (planned p) ls
                  then Some (match omap (entry_of built p) ls with
                             | [] => None
                             | es => Some (set_terminate (option_map config (built !! p)) (plan_of es))
                             end)
                  else None.
Proof.
  unfold plan_ports. destruct (build_ports http2 _ built0) as [b e] eqn:Eb. intros [= <- <- <-].
  pose proof (build_ports_lookup http2 (merge_cert_refs_by_port ls) built0 p) as Hb. rewrite Eb in Hb. cbn [fst] in Hb.
  split; [done|]. rewrite map_lookup_imap, plan_fold_lookup.
  destruct (existsb (planned p) ls); [|done]. cbn [mbind option_bind].
  by destruct (omap (entry_of b p) ls).
Qed.

(** ** The certificate served is the selected listener's *)

(** [b] holds what [build_terminating] made of some references. *)
Definition built_from (b : BuiltConfig) (refs : list CertificateRef) : Prop :=
  (exists http2, build_terminating refs http2 = Ok (config b, built_loaded b))
  /\ built_refs b = list_to_set (map cert_key refs).

Definition built_ok (built : gmap Z BuiltConfig) : Prop :=
  forall p b, built !! p = Some b -> exists refs, built_from b refs.

(** A fingerprint found again was taken of the same references. *)
Definition fingerprints_tell `{FN : Fnv} (built : gmap Z BuiltConfig) (ls : list ListenerConfig) : Prop :=
  forall p b refs, built !! p = Some b -> merge_cert_refs_by_port ls !! p = Some refs ->
    fingerprint b = compute_cert_fingerprint refs -> built_refs b = list_to_set (map cert_key refs).

(** What any passes leave, over whatever listeners. *)
Inductive passed `{FN : Fnv} : gmap Z BuiltConfig -> Prop :=
  | passed_none : passed ∅
  | passed_pass ls http2 built plans built' errors :
      passed built -> plan_ports ls http2 built = (plans, built', errors) -> passed built'.

(** Each certificate reference names the hostname of its listener, as the
    controller's conversion of a Gateway does. *)
Definition refs_name_listener (ls : list ListenerConfig) : Prop :=
  forall l r, l ∈ ls -> r ∈ listener_refs l -> cert_hostname r = l_hostname l.

Lemma build_port_from `{FN : Fnv} http2 held refs b :
  (forall b, held = Some b -> exists refs, built_from b refs) ->
  (forall b, held = Some b -> fingerprint b = compute_cert_fingerprint refs -> built_refs b = list_to_set (map cert_key refs)) ->
  (build_port http2 held refs).1 = Some b ->
  exists refs', built_from b refs' /\ built_refs b = list_to_set (map cert_key refs).
Proof.
  intros Hfrom Htell. unfold build_port. destruct (is_nil refs); [done|]. cbv zeta.
  destruct (match held with Some b => fingerprint b =? compute_cert_fingerprint refs | None => false end) eqn:Ef.
  - cbn [fst]. intros ->. bool_simpl. destruct (Hfrom b eq_refl) as [refs' Hr]. exists refs'. eauto.
  - destruct (build_terminating refs http2) as [[c ld]|e] eqn:Eb; cbn [fst].
    + intros [= <-]. exists refs. split; [|done]. split; [by exists http2|done].
    + destruct held as [b'|]; [|done]. case_bool_decide as Hk; [|done]. cbn [fst]. intros [= ->].
      destruct (Hfrom b eq_refl) as [refs' Hr]. eauto.
Qed.

(** Every certificate a pass leaves on a port is that of a reference of an
    HTTPS listener the pass has there. *)
Lemma built_port_listed `{FN : Fnv} ls http2 built0 plans built errors p b :
  built_ok built0 -> fingerprints_tell built0 ls ->
  plan_ports ls http2 built0 = (plans, built, errors) -> built !! p = Some b ->
  exists refs, built_from b refs
    /\ forall r, r ∈ refs -> exists l r', l ∈ ls /\ https_on p l = true /\ r' ∈ listener_refs l /\ cert_key r' = cert_key r.
Proof.
  intros Hok Htell Hplan Hb. destruct (plan_ports_lookup _ _ _ p _ _ _ Hplan) as [Eb _]. rewrite Hb in Eb.
  destruct (merge_cert_refs_by_port ls !! p) as [refs|] eqn:Em; [|done].
  destruct (build_port_from http2 (built0 !! p) refs b) as (refs' & Hfrom & Hkeys); [by apply Hok| |done|].
  { intros b' Hb'. by apply (Htell p). }
  exists refs'. split; [done|]. intros r Hr. destruct Hfrom as [_ Hkeys']. rewrite Hkeys' in Hkeys.
  assert (Hin : cert_key r ∈ map cert_key refs).
  { apply (elem_of_list_to_set (C := gset CertKey)). rewrite <- Hkeys. apply elem_of_list_to_set.
    apply list_elem_of_In, in_map. by apply list_elem_of_In. }
  apply list_elem_of_In, in_map_iff in Hin as (r' & Hk & Hr'). apply list_elem_of_In in Hr'.
  destruct (merge_refs_in p refs r' ls Em Hr') as (l & Hl & Hh & Hrl). exists l, r'. done.
Qed.

Lemma passed_built_ok `{FN : Fnv} built : passed built -> built_ok built.
Proof.
  induction 1 as [|ls http2 built plans built' errors _ IH Hplan]; intros p b Hb; [by rewrite lookup_empty in Hb|].
  destruct (plan_ports_lookup _ _ _ p _ _ _ Hplan) as [Eb _]. rewrite Hb in Eb.
  destruct (merge_cert_refs_by_port ls !! p) as [refs|]; [|done]. symmetry in Eb. unfold build_port in Eb.
  destruct (is_nil refs); [done|]. cbv zeta in Eb. destruct (match built !! p with Some _ => _ | None => _ end); [by eapply IH|].
  destruct (build_terminating refs http2) as [[c ld]|e] eqn:Et.
  - injection Eb as <-. exists refs. split; [by exists http2|done].
  - destruct (built !! p) as [b'|] eqn:Ep; [|done]. case_bool_decide; [|done]. injection Eb as <-. by eapply IH.
Qed.

Lemma https_entry built p l :
  https_on p l = true ->
  entry_of built p l = Some (l_hostname l, match built !! p with
                                           | Some b => if has_cert_of b l then KindTerminate else KindNoCert
                                           | None => KindNoCert
                                           end).
Proof.
  unfold https_on, entry_of, listener_kind. intros Hh. bool_simpl. subst p. rewrite Z.eqb_refl, H.
  by destruct (built !! l_port l).
Qed.

Lemma kinds_at_elem k kind es : kind ∈ kinds_at k es <-> exists hn, (hn, kind) ∈ es /\ host_key hn = k.
Proof.
  unfold kinds_at. rewrite list_elem_of_In, in_map_iff. setoid_rewrite <- list_elem_of_In.
  setoid_rewrite list_elem_of_filter. split.
  - intros ([hn kd] & <- & Hk & Hin). by exists hn.
  - intros (hn & Hin & Hk). by exists (hn, kind).
Qed.

Lemma best_is_Some ks k : k ∈ ks -> is_Some (best ks).
Proof.
  intros Hk. destruct (best ks) as [b|] eqn:E; [done|]. exfalso.
  destruct ks as [|c ks _] using rev_ind; [by apply not_elem_of_nil in Hk|].
  unfold best in E. rewrite fold_left_app in E. simpl in E. by destruct (fold_left _ ks None).
Qed.

(** The keys a plan holds are those of the listeners, and a terminating one
    has a listener with a certificate in the configuration. *)
Lemma plan_of_Some built p ls k l :
  l ∈ ls -> https_on p l = true -> host_key (l_hostname l) = k ->
  is_Some (plan_at (plan_of (omap (entry_of built p) ls)) k).
Proof.
  intros Hl Hh Hk. rewrite plan_at_of, fmap_is_Some.
  eapply best_is_Some, kinds_at_elem. exists (l_hostname l). split; [|done].
  apply list_elem_of_omap. exists l. split; [done|]. by apply https_entry.
Qed.

Lemma plan_of_terminate built p ls k tl :
  plan_at (plan_of (omap (entry_of built p) ls)) k = Some tl -> tl_kind tl = KindTerminate ->
  tl_hostname tl = key_hostname k
  /\ exists l b, l ∈ ls /\ https_on p l = true /\ host_key (l_hostname l) = k /\ built !! p = Some b /\ has_cert_of b l = true.
Proof.
  rewrite plan_at_of, fmap_Some. intros (kind & Hbest & ->) Hkind. simpl in Hkind. subst kind. split; [done|].
  apply best_spec in Hbest as [Hin _]. apply kinds_at_elem in Hin as (hn & Hin & Hk).
  apply list_elem_of_omap in Hin as (l & Hl & He). unfold entry_of, listener_kind in He.
  destruct (Z.eqb_spec (l_port l) p) as [<-|]; [|done]. destruct (l_protocol l) eqn:Ep; try done.
  - destruct (built !! l_port l) as [b|] eqn:Eb; [|done]. destruct (has_cert_of b l) eqn:Ec; [|done].
    injection He as <-. exists l, b. split_and!; try done. unfold https_on. by rewrite Ep, Z.eqb_refl.
  - by destruct (is_tls_passthrough l).
Qed.

(** The name in a ClientHello read whole. *)
Definition hello_name (h : Hello) : option (list Z) := match h with Sni s => Some s | _ => None end.

Lemma handshake_selects plan hello cfg :
  serve_tls_connection plan hello = Handshake cfg ->
  terminate plan = Some cfg /\ exists tl, TlsPlan_select plan (lowercase <$> hello_name hello) = Some tl /\ tl_kind tl = KindTerminate.
Proof.
  assert (Hgen : forall sni,
    match TlsPlan_select plan sni with
    | None => Refuse
    | Some l => match tl_kind l with
                | KindPassthrough => PassThrough sni (tl_hostname l)
                | KindNoCert => Refuse
                | KindTerminate => match terminate plan with Some config => Handshake config | None => Refuse end
                end
    end = Handshake cfg ->
    terminate plan = Some cfg /\ exists tl, TlsPlan_select plan sni = Some tl /\ tl_kind tl = KindTerminate).
  { intros sni. destruct (TlsPlan_select plan sni) as [tl|]; [|done]. destruct (tl_kind tl) eqn:Ek; try done.
    destruct (terminate plan) as [c|]; [|done]. intros [= ->]. eauto. }
  destruct hello as [s| |]; cbn [serve_tls_connection hello_name fmap option_fmap option_map]; [apply Hgen|apply Hgen|done].
Qed.

(** C15: A client is shown a certificate of the port its connection came to,
    and, where the references carry their listener's hostname, the one of the
    listener its name selected. Whatever passes came before, bad rotations
    included, when the plan of a port sends a ClientHello to a handshake, the
    plan selected an HTTPS listener the port has now, and a certificate shown
    was loaded from a reference (Secret and hostname) of an HTTPS listener the
    port has now: none of a passthrough listener, nor of one that is gone. In
    a configuration of the controller, which gives each reference the hostname
    of its listener, there is a certificate for the name, and its listener has
    the very hostname the plan selected: no certificate of another hostname.
    (The references of a configuration file have no hostname, and there the
    certificate may be that of another HTTPS listener of the port.) One thing
    is asked of the hash: that the fingerprint the pass finds unchanged on a
    port was taken of references with the same Secrets and hostnames. *)
Theorem handshake_shows_listener_cert `{FN : Fnv} (ls : list ListenerConfig) (http2 : bool)
  (built0 built : gmap Z BuiltConfig) (plans : gmap Z (option TlsPlan)) (errors : list (Z * TlsFailure))
  (p : Z) (plan : TlsPlan) (hello : Hello) (cfg : ServerConfig)
  (Hpast : passed built0) (Htell : fingerprints_tell built0 ls)
  (Hplan : plan_ports ls http2 built0 = (plans, built, errors))
  (Hp : plans !! p = Some (Some plan))
  (Hserve : serve_tls_connection plan hello = Handshake cfg) :
  (exists l, l ∈ ls /\ https_on p l = true
    /\ TlsPlan_select plan (lowercase <$> hello_name hello)
       = Some {| tl_kind := KindTerminate; tl_hostname := lowercase <$> l_hostname l |})
  /\ (forall key, resolve (cert_resolver cfg) (hello_name hello) = Some key ->
        exists l r r', l ∈ ls /\ https_on p l = true /\ load_ref r = Some key /\ r' ∈ listener_refs l /\ cert_key r' = cert_key r)
  /\ (refs_name_listener ls -> exists l r r' key,
        l ∈ ls /\ https_on p l = true
        /\ TlsPlan_select plan (lowercase <$> hello_name hello)
           = Some {| tl_kind := KindTerminate; tl_hostname := lowercase <$> l_hostname l |}
        /\ resolve (cert_resolver cfg) (hello_name hello) = Some key
        /\ load_ref r = Some key /\ r' ∈ listener_refs l /\ cert_key r' = cert_key r).
Proof.
  pose proof (passed_built_ok _ Hpast) as Hbuilt. destruct (handshake_selects _ _ _ Hserve) as (Hterm & tl & Hsel & Hkind).
  destruct (plan_ports_lookup _ _ _ p _ _ _ Hplan) as [_ Eplan]. rewrite Hp in Eplan.
  destruct (existsb (planned p) ls); [|done]. set (es := omap (entry_of built p) ls) in *.
  assert (Eplan' : plan = set_terminate (option_map config (built !! p)) (plan_of es)) by (destruct es; congruence).
  assert (Hat : forall k, plan_at plan k = plan_at (plan_of es) k) by (intros []; by rewrite Eplan').
  rewrite TlsPlan_select_keys in Hsel. apply first_held_Some in Hsel as Hpos.
  destruct Hpos as (pre & k & post & Hkeys & Hk & Hpre).
  rewrite Hat in Hk. destruct (plan_of_terminate _ _ _ _ _ Hk Hkind) as (Hhost & l & b & Hl & Hh & Hlk & Hb & Hc).
  destruct (built_port_listed _ _ _ _ _ _ _ _ Hbuilt Htell Hplan Hb) as (refs & [[h2 Hfrom] _] & Hlisted).
  assert (Ecfg : cfg = config b) by (rewrite Eplan', Hb in Hterm; by injection Hterm as ->). subst cfg.
  split; [|split; [|intros Hnames]].
  { exists l. split_and!; [done|done|]. rewrite TlsPlan_select_keys, Hsel. destruct tl as [kd hn]; simpl in *. subst kd hn.
    by rewrite <- key_hostname_of, Hlk. }
  { intros key Hkey. destruct (resolve_from_refs _ _ _ _ _ _ Hfrom Hkey) as (k' & r & Hr & Hload & _).
    destruct (Hlisted r Hr) as (l' & r' & Hl' & Hh' & Hr' & Hck). by exists l', r, r'. }
  pose proof (build_terminating_loading _ _ _ _ Hfrom) as [Hcat _ Hck Hcsome]. cbn [maps loaded] in *.
  destruct (resolve_loaded refs h2 (config b) (built_loaded b) (hello_name hello) pre k post Hfrom Hkeys) as (key & Hres & r & Hr & Hload & Hrk).
  - eapply Forall_impl; [exact Hpre|]. intros k' Hnone. destruct (cert_at (cert_resolver (config b)) k') as [key|] eqn:Ec; [|done].
    exfalso. destruct (Hcat k' key Ec) as (r & Hr & _ & Hrk).
    destruct (Hlisted r Hr) as (l' & r' & Hl' & Hh' & Hr' & Hkey).
    destruct (plan_of_Some built p ls k' l' Hl' Hh') as [tl' Htl].
    + rewrite <- (Hnames l' r' Hl' Hr'). unfold cert_key in Hkey. congruence.
    + pose proof (Hat k') as Hk'. unfold es in Hk'. simpl in Hnone. congruence.
  - unfold has_cert_of in Hc. destruct (l_tls l) as [t|] eqn:Et; [|done].
    apply existsb_exists in Hc as (rl & Hrl & Hin). apply bool_decide_eq_true in Hin. destruct (proj1 (Hck _) Hin) as (r & Hr & Hld & Hkey).
    apply Hcsome. exists r. split_and!; [done|done|].
    rewrite <- Hlk, <- (Hnames l rl Hl); [|unfold listener_refs; rewrite Et; by apply list_elem_of_In].
    unfold cert_key in Hkey. congruence.
  - destruct (Hlisted r Hr) as (l' & r' & Hl' & Hh' & Hr' & Hkey). exists l', r, r', key. split_and!; try done.
    rewrite TlsPlan_select_keys, Hsel. destruct tl as [kd hn]; simpl in *. subst kd hn. f_equal. f_equal.
    assert (Hhn : cert_hostname r = l_hostname l')
      by (rewrite <- (Hnames l' r' Hl' Hr'); unfold cert_key in Hkey; congruence).
    rewrite <- Hhn, <- key_hostname_of. by rewrite Hrk.
Qed.
End Certificates.

(** ** At work *)

(** A toy library: a certificate is the bytes of its PEM, the empty PEM holds
    none, every key loads, and a file holds its own name. *)
#[local] Instance toy_rustls : Rustls := {|
  CertificateDer := list Z; PrivateKeyDer := list Z; SigningKey := list Z;
  pem_certs l := if is_nil l then [] else [Some l];
  pem_private_key l := Some l; load_private_key k := Some k; read_cert_file f := Some f |}.

Definition toy_hash (l : list Z) : Z := as_u64 (fold_left (fun h b => h * 263 + b) l 7).

Lemma toy_hash_range l : u64 (toy_hash l).
Proof. apply Z.mod_pos_bound. reflexivity. Qed.

#[local] Instance toy_fnv : Fnv := {| fnv := toy_hash; fnv_range := toy_hash_range |}.

Definition https_listener (name hostname : string) (refs : list CertificateRef) : ListenerConfig := {|
  l_name := bs name; l_protocol := HTTPS; l_port := 443; l_target_port := None;
  l_hostname := if String.eqb hostname "" then None else Some (bs hostname); l_address := None; l_interface := None;
  l_tls := Some {| tls_mode := Terminate; certificate_refs := refs |}; l_rate_limit := None |}.

Definition secret (name hostname pem : string) : CertificateRef := {|
  cert_name := bs name; cert_namespace := Some (bs "prod");
  cert_hostname := if String.eqb hostname "" then None else Some (bs hostname);
  cert_pem := Some (bs pem); key_pem := Some (bs "key") |}.

(** A catch-all and a wildcard listener share the port; a name under the
    wildcard gets the wildcard's certificate. *)
Definition shared_port : list ListenerConfig :=
  [https_listener "any" "" [secret "any-tls" "" "ANY"];
   https_listener "wild" "*.Example.com" [secret "wild-tls" "*.Example.com" "WILD"]].

Definition plan_on (p : Z) (ls : list ListenerConfig) : option TlsPlan :=
  match (plan_ports ls false ∅).1.1 !! p with Some (Some plan) => Some plan | _ => None end.

Definition shared_plan : TlsPlan := default TlsPlan_default (plan_on 443 shared_port).

Definition shared_config : ServerConfig :=
  default {| cert_resolver := no_certs; alpn_protocols := [] |} (terminate shared_plan).

Lemma handshake_shows_listener_cert_witness :
  exists l r r' key,
    l ∈ shared_port /\ https_on 443 l = true
    /\ TlsPlan_select shared_plan (lowercase <$> hello_name (Sni (bs "API.example.com")))
       = Some {| tl_kind := KindTerminate; tl_hostname := lowercase <$> l_hostname l |}
    /\ resolve (cert_resolver shared_config) (hello_name (Sni (bs "API.example.com"))) = Some key
    /\ load_ref r = Some key /\ r' ∈ listener_refs l /\ cert_key r' = cert_key r.
Proof.
  apply (handshake_shows_listener_cert shared_port false ∅ (plan_ports shared_port false ∅).1.2
           (plan_ports shared_port false ∅).1.1 (plan_ports shared_port false ∅).2 443 shared_plan
           (Sni (bs "API.example.com")) shared_config).
  - apply passed_none.
  - intros p b refs H. by rewrite lookup_empty in H.
  - vm_compute. reflexivity.
  - vm_compute. reflexivity.
  - vm_compute. reflexivity.
  - intros l r Hl Hr. unfold shared_port in Hl. rewrite !elem_of_cons in Hl.
    destruct Hl as [->|[->|Hl]]; [| |by apply not_elem_of_nil in Hl];
      cbn in Hr; apply list_elem_of_singleton in Hr as ->; reflexivity.
Defined.

(** ** Where the certificate shown is another listener's *)

(** A file's references carry no hostname, even where their listener has one:
    all of them are catch-all certificates to the resolver. *)
Definition file_ref (name : string) : CertificateRef := {|
  cert_name := bs name; cert_namespace := None; cert_hostname := None; cert_pem := None; key_pem := None |}.

Definition file_listeners : list ListenerConfig :=
  [https_listener "a" "a.example.com" [file_ref "a-tls"]; https_listener "b" "b.example.com" [file_ref "b-tls"]].

(** Two HTTPS listeners of a file share a port. A client naming the first is
    dispatched to it, and shown the certificate of the second. *)
Theorem file_listener_shows_other_cert :
  exists plan cfg,
    plan_on 443 file_listeners = Some plan
    /\ serve_tls_connection plan (Sni (bs "a.example.com")) = Handshake cfg
    /\ TlsPlan_select plan (Some (bs "a.example.com"))
       = Some {| tl_kind := KindTerminate; tl_hostname := Some (bs "a.example.com") |}
    /\ resolve (cert_resolver cfg) (Some (bs "a.example.com")) = load_ref (file_ref "b-tls")
    /\ load_ref (file_ref "b-tls") <> load_ref (file_ref "a-tls").
Proof.
  eexists _, _. split; [vm_compute; reflexivity|]. split; [vm_compute; reflexivity|].
  split; [vm_compute; reflexivity|]. split; [vm_compute; reflexivity|vm_compute; discriminate].
Qed.

(** ** Where a valid certificate is refused *)

(** The fields a fingerprint covers are hashed one after the other with
    nothing between them: a reference to the Secret "tls" of namespace "prod"
    and one to the Secret "dtls" of "pro" hash alike when the Secrets hold the
    same PEM. *)
Definition moved_ref (namespace name : string) : CertificateRef := {|
  cert_name := bs name; cert_namespace := Some (bs namespace); cert_hostname := Some (bs "a.example.com");
  cert_pem := Some (bs "PEM"); key_pem := Some (bs "key") |}.

Definition moved_listeners (namespace name : string) : list ListenerConfig :=
  [https_listener "a" "a.example.com" [moved_ref namespace name]].

Theorem fingerprint_misses_moved_ref :
  compute_cert_fingerprint [moved_ref "prod" "tls"] = compute_cert_fingerprint [moved_ref "pro" "dtls"]
  /\ cert_key (moved_ref "prod" "tls") <> cert_key (moved_ref "pro" "dtls")
  /\ is_some (load_ref (moved_ref "pro" "dtls")) = true
  /\ let built := (plan_ports (moved_listeners "prod" "tls") false ∅).1.2 in
     exists plan, (plan_ports (moved_listeners "pro" "dtls") false built).1.1 !! 443 = Some (Some plan)
       /\ serve_tls_connection plan (Sni (bs "a.example.com")) = Refuse
       /\ (plan_ports (moved_listeners "pro" "dtls") false built).2 = []
       /\ exists plan' cfg, plan_on 443 (moved_listeners "pro" "dtls") = Some plan'
          /\ serve_tls_connection plan' (Sni (bs "a.example.com")) = Handshake cfg.
Proof.
  split; [vm_compute; reflexivity|]. split; [vm_compute; discriminate|]. split; [vm_compute; reflexivity|].
  cbv zeta. eexists. split; [vm_compute; reflexivity|]. split; [vm_compute; reflexivity|]. split; [vm_compute; reflexivity|].
  eexists _, _. split; vm_compute; reflexivity.
Qed.
