(* ===== verification/DataPlane.v ===== *)
(** * The data plane's listeners

    [src/src/proxy/data_plane.rs]: one socket and one accept loop per
    endpoint, brought in line with the listeners of each pass. A pass is
    [close_unwanted], the closed loops awaited, then [add_tcp_listeners].

    An accept loop is a task: it ends when cancelled or on its own, and the
    environment says which have finished. A [PortPlan] is a cell shared by
    the data plane and the accept loops of its port: cells are a store, and a
    loop keeps the cell it was spawned with. What the operating system makes
    of the [n]th bind of a pass is a parameter. The code walks its maps in
    the order of a [HashMap]; here the order is [map_to_list]'s, and the
    theorems are about the maps. *)

From S2P Require Import Prelude Bytes Routing RouteLookup Config ClientHello TlsPlan.

(** [src/src/sync/report.rs]. *)
Inductive Transport := Tcp | Udp.

#[export] Instance Transport_eq_dec : EqDecision Transport.
Proof. solve_decision. Defined.

#[export] Instance Transport_countable : Countable Transport.
Proof.
  refine (inj_countable' (fun t => match t with Tcp => true | Udp => false end) (fun b => if b then Tcp else Udp) _).
  by intros [].
Defined.

Definition Transport_of (p : Protocol) : Transport := match p with UDP => Udp | HTTP | HTTPS | TLS | TCP => Tcp end.

Record Endpoint := { ep_address : option (list Z); ep_port : Z; ep_transport : Transport }.

#[export] Instance Endpoint_eq_dec : EqDecision Endpoint.
Proof. solve_decision. Defined.

#[export] Instance Endpoint_countable : Countable Endpoint.
Proof.
  refine (inj_countable' (fun e => (ep_address e, ep_port e, ep_transport e))
            (fun '(a, p, t) => {| ep_address := a; ep_port := p; ep_transport := t |}) _).
  by intros [].
Defined.

Definition bound_port (l : ListenerConfig) : Z := default (l_port l) (l_target_port l).

Definition Endpoint_of (l : ListenerConfig) : Endpoint :=
  {| ep_address := l_address l; ep_port := bound_port l; ep_transport := Transport_of (l_protocol l) |}.

Definition Endpoint_wildcard (e : Endpoint) : Endpoint :=
  {| ep_address := None; ep_port := ep_port e; ep_transport := ep_transport e |}.

(** A cell of the store of plans, and an accept loop. *)
Abbreviation PortPlan := nat.
Abbreviation Task := nat.

Section DataPlane.
Context {RL : Rustls} {FN : Fnv}.

(** Why an endpoint is not bound: its port's certificates, or the system. *)
Inductive BindReason := TlsConfigBuildFailed (f : TlsFailure) | SystemRefused (e : list Z).

Record BindError := { be_endpoint : Endpoint; be_error : BindReason }.

(** A running loop has its task, the published port it serves and, on TCP,
    its port's plan. *)
Inductive ListenerSlot := Pending | Running (task : Task) (port : Z) (plan : option PortPlan).

#[export] Instance ListenerSlot_eq_dec : EqDecision ListenerSlot.
Proof. solve_decision. Defined.

Record TcpListenerEntry := { te_port : Z; te_bound_port : Z; te_address : option (list Z); te_plan : PortPlan }.
Record UdpListenerEntry := { ue_port : Z; ue_bound_port : Z; ue_address : option (list Z) }.

(** [cells], [next_cell], [next_task], [finished] and [cancelled] stand for
    the heap and the runtime. *)
Record DataPlane := {
  tcp_listeners : list TcpListenerEntry;
  udp_listeners : list UdpListenerEntry;
  listener_tasks : gmap Endpoint ListenerSlot;
  plans : gmap Z PortPlan;
  terminate_configs : gmap Z BuiltConfig;
  closing : list Task;
  tls_failures : gmap Z TlsFailure;
  cells : gmap PortPlan (option TlsPlan);
  next_cell : nat;
  next_task : nat;
  finished : gset Task;
  cancelled : gset Task;
}.

Definition set_tasks (dp : DataPlane) (m : gmap Endpoint ListenerSlot) (c : gset Task) : DataPlane := {|
  tcp_listeners := tcp_listeners dp; udp_listeners := udp_listeners dp; listener_tasks := m; plans := plans dp;
  terminate_configs := terminate_configs dp; closing := closing dp; tls_failures := tls_failures dp; cells := cells dp;
  next_cell := next_cell dp; next_task := next_task dp; finished := finished dp; cancelled := c |}.

Definition set_closing (dp : DataPlane) (l : list Task) : DataPlane := {|
  tcp_listeners := tcp_listeners dp; udp_listeners := udp_listeners dp; listener_tasks := listener_tasks dp; plans := plans dp;
  terminate_configs := terminate_configs dp; closing := l; tls_failures := tls_failures dp; cells := cells dp;
  next_cell := next_cell dp; next_task := next_task dp; finished := finished dp; cancelled := cancelled dp |}.

Definition set_entries (dp : DataPlane) (t : list TcpListenerEntry) (u : list UdpListenerEntry) : DataPlane := {|
  tcp_listeners := t; udp_listeners := u; listener_tasks := listener_tasks dp; plans := plans dp;
  terminate_configs := terminate_configs dp; closing := closing dp; tls_failures := tls_failures dp; cells := cells dp;
  next_cell := next_cell dp; next_task := next_task dp; finished := finished dp; cancelled := cancelled dp |}.

Definition alive (dp : DataPlane) (s : ListenerSlot) : bool :=
  match s with Pending => true | Running t _ _ => negb (bool_decide (t ∈ finished dp)) end.

Definition endpoint_alive (dp : DataPlane) (e : Endpoint) : bool :=
  match listener_tasks dp !! e with Some s => alive dp s | None => false end.

Definition spawn_listener_task (dp : DataPlane) (e : Endpoint) (port : Z) (plan : option PortPlan) : DataPlane := {|
  tcp_listeners := tcp_listeners dp; udp_listeners := udp_listeners dp;
  listener_tasks := <[e := Running (next_task dp) port plan]> (listener_tasks dp); plans := plans dp;
  terminate_configs := terminate_configs dp; closing := closing dp; tls_failures := tls_failures dp; cells := cells dp;
  next_cell := next_cell dp; next_task := S (next_task dp); finished := finished dp; cancelled := cancelled dp |}.

(** The first listener of an endpoint gives it its published port. *)
Definition want (desired : gmap Endpoint Z) (l : ListenerConfig) : gmap Endpoint Z :=
  match desired !! Endpoint_of l with Some _ => desired | None => <[Endpoint_of l := l_port l]> desired end.

Definition desired_endpoints (ls : list ListenerConfig) : gmap Endpoint Z :=
  let desired := fold_left want ls ∅ in
  filter (fun kv => ep_address kv.1 = None \/ desired !! Endpoint_wildcard kv.1 = None) desired.

(** Splits the running loops [close] picks off the map. *)
Definition picked (close : Endpoint -> Z -> bool) (e : Endpoint) (s : ListenerSlot) : bool :=
  match s with Pending => false | Running _ port _ => close e port end.

Definition slot_task (s : ListenerSlot) : option Task := match s with Running t _ _ => Some t | Pending => None end.

Definition close_where (dp : DataPlane) (close : Endpoint -> Z -> bool) : DataPlane * list Task :=
  let tasks := omap (fun kv => slot_task kv.2) (map_to_list (filter (fun kv => picked close kv.1 kv.2 = true) (listener_tasks dp))) in
  (set_tasks dp (filter (fun kv => picked close kv.1 kv.2 = false) (listener_tasks dp)) (list_to_set tasks ∪ cancelled dp), tasks).

Definition close_unwanted (dp : DataPlane) (ls : list ListenerConfig) : DataPlane * list Task :=
  let dp := set_tasks dp (filter (fun kv => alive dp kv.2 = true) (listener_tasks dp)) (cancelled dp) in
  let desired := desired_endpoints ls in
  let held := closing dp in
  let dp := set_closing dp [] in
  let '(dp, closed) := close_where dp (fun e port => negb (bool_decide (desired !! e = Some port))) in
  (dp, held ++ closed).

(** [slot.store(plan)] where the port has a cell, a new cell where it has not. *)
Definition store_plan (st : gmap Z PortPlan * gmap PortPlan (option TlsPlan) * nat) (kv : Z * option TlsPlan)
  : gmap Z PortPlan * gmap PortPlan (option TlsPlan) * nat :=
  let '(plans, cells, next) := st in
  match plans !! kv.1 with
  | Some slot => (plans, <[slot := kv.2]> cells, next)
  | None => (<[kv.1 := next]> plans, <[next := kv.2]> cells, S next)
  end.

(** [add_tcp_listeners] up to the plans published. *)
Definition publish_plans (dp : DataPlane) (ls : list ListenerConfig) (http2 : bool) : DataPlane * list (Z * TlsFailure) :=
  let '(planned, built, errors) := plan_ports ls http2 (terminate_configs dp) in
  let kept := filter (fun kv => is_Some (planned !! kv.1)) (plans dp) in
  let '(plans, cells, next) := fold_left store_plan (map_to_list planned) (kept, cells dp, next_cell dp) in
  ({| tcp_listeners := tcp_listeners dp; udp_listeners := udp_listeners dp; listener_tasks := listener_tasks dp;
      plans := plans; terminate_configs := built; closing := closing dp; tls_failures := list_to_map errors;
      cells := cells; next_cell := next; next_task := next_task dp; finished := finished dp; cancelled := cancelled dp |}, errors).

(** [plan.load()]. *)
Definition load_plan (dp : DataPlane) (slot : PortPlan) : option TlsPlan := default None (cells dp !! slot).

Definition port_serves (dp : DataPlane) (port : Z) : bool :=
  match plans dp !! port with Some slot => serves (load_plan dp slot) | None => false end.

Definition dead_port (dp : DataPlane) (port : Z) : bool :=
  match plans dp !! port with Some slot => negb (serves (load_plan dp slot)) | None => false end.

(** The [match listener_cfg.protocol] of the bind loop: [None] continues. *)
Definition bind_plan (dp : DataPlane) (l : ListenerConfig) : option (option PortPlan) :=
  match l_protocol l with
  | UDP => Some None
  | _ => match plans dp !! l_port l with
         | Some slot => if serves (load_plan dp slot) then Some (Some slot) else None
         | None => None
         end
  end.

(** The variables of the bind loop: how many ports opened, the errors, and
    the binds tried. *)
Record Binding := { bound : DataPlane; opened : nat; errors : list BindError; tries : nat }.

Definition bind_listener (os : nat -> Endpoint -> option (list Z)) (desired : gmap Endpoint Z) (st : Binding)
  (l : ListenerConfig) : Binding :=
  match bind_plan (bound st) l with
  | None => st
  | Some plan =>
      let e := Endpoint_of l in
      if endpoint_alive (bound st) e || negb (bool_decide (desired !! e = Some (l_port l))) then st
      else match os (tries st) e with
           | None => {| bound := spawn_listener_task (bound st) e (l_port l) plan; opened := S (opened st);
                        errors := errors st; tries := S (tries st) |}
           | Some err => {| bound := bound st; opened := opened st;
                            errors := errors st ++ [{| be_endpoint := e; be_error := SystemRefused err |}];
                            tries := S (tries st) |}
           end
  end.

(** The errors of the ports whose certificates failed, one per TCP endpoint. *)
Definition plan_bind_errors (desired : gmap Endpoint Z) (failed : list (Z * TlsFailure)) : list BindError :=
  flat_map (fun pe =>
      map (fun ep => {| be_endpoint := ep.1; be_error := TlsConfigBuildFailed pe.2 |})
        (filter (fun ep => ep.2 = pe.1 /\ ep_transport ep.1 = Tcp) (map_to_list desired))) failed.

(** Returns the state, how many ports opened and the errors. *)
Definition add_tcp_listeners (os : nat -> Endpoint -> option (list Z)) (dp : DataPlane) (ls : list ListenerConfig) (http2 : bool)
  : DataPlane * nat * list BindError :=
  let desired := desired_endpoints ls in
  let '(dp, failed) := publish_plans dp ls http2 in
  let '(dp, dead) := close_where dp (fun e port => bool_decide (ep_transport e = Tcp) && dead_port dp port) in
  let dp := set_closing dp (closing dp ++ dead) in
  let st := fold_left (bind_listener os desired) ls
              {| bound := dp; opened := 0; errors := plan_bind_errors desired failed; tries := 0 |} in
  (bound st, opened st, errors st).

Definition is_ready_for_endpoints (dp : DataPlane) (required : list Endpoint) : bool :=
  forallb (fun e => endpoint_alive dp e || (is_some (ep_address e) && endpoint_alive dp (Endpoint_wildcard e))) required.

(** Why an HTTPS listener terminates nothing. *)
Inductive Refusal := NoCertificateRef | CertificatesFailed (f : TlsFailure) | NoneLoaded.

Definition refusal (dp : DataPlane) (l : ListenerConfig) : option Refusal :=
  if negb (bool_decide (l_protocol l = HTTPS))
     || match terminate_configs dp !! l_port l with Some built => has_cert_of built l | None => false end
  then None
  else Some (if is_nil (listener_refs l) then NoCertificateRef
             else match tls_failures dp !! l_port l with Some f => CertificatesFailed f | None => NoneLoaded end).

(** ** A file's data plane *)

(** The accumulators of [new]'s loop. *)
Record Opening := { op_tcp : list TcpListenerEntry; op_udp : list UdpListenerEntry; bound_endpoints : gset Endpoint }.

Definition open_listener (os : nat -> Endpoint -> option (list Z)) (plans : gmap Z PortPlan) (st : Opening)
  (l : ListenerConfig) : result Opening (list Z) :=
  let open plan :=
    if bool_decide (Endpoint_of l ∈ bound_endpoints st) then Ok st
    else match os (size (bound_endpoints st)) (Endpoint_of l) with
         | Some e => Err e
         | None =>
             let taken := {[Endpoint_of l]} ∪ bound_endpoints st in
             Ok match plan with
                | None => {| op_tcp := op_tcp st;
                             op_udp := op_udp st ++ [{| ue_port := l_port l; ue_bound_port := bound_port l; ue_address := l_address l |}];
                             bound_endpoints := taken |}
                | Some slot => {| op_tcp := op_tcp st ++ [{| te_port := l_port l; te_bound_port := bound_port l;
                                                             te_address := l_address l; te_plan := slot |}];
                                  op_udp := op_udp st; bound_endpoints := taken |}
                end
         end in
  match l_protocol l with
  | UDP => open None
  | _ => match plans !! l_port l with Some slot => open (Some slot) | None => Ok st end
  end.

Fixpoint open_listeners (os : nat -> Endpoint -> option (list Z)) (plans : gmap Z PortPlan) (st : Opening)
  (ls : list ListenerConfig) : result Opening (list Z) :=
  match ls with
  | [] => Ok st
  | l :: ls => match open_listener os plans st l with Ok st => open_listeners os plans st ls | Err e => Err e end
  end.

Inductive NewError := PortFailed (port : Z) (f : TlsFailure) | BindFailed (e : list Z).

Definition DataPlane_new (os : nat -> Endpoint -> option (list Z)) (ls : list ListenerConfig) (http2 : bool)
  : result DataPlane NewError :=
  let '(planned, built, errors) := plan_ports ls http2 ∅ in
  match errors with
  | (port, f) :: _ => Err (PortFailed port f)
  | [] =>
      let '(plans, cells, next) := fold_left store_plan (map_to_list planned) (∅, ∅, 0%nat) in
      match open_listeners os plans {| op_tcp := []; op_udp := []; bound_endpoints := ∅ |} ls with
      | Err e => Err (BindFailed e)
      | Ok st =>
          Ok {| tcp_listeners := op_tcp st; udp_listeners := op_udp st;
                listener_tasks := gset_to_gmap Pending (bound_endpoints st); plans := plans; terminate_configs := built;
                closing := []; tls_failures := ∅; cells := cells; next_cell := next; next_task := 0; finished := ∅; cancelled := ∅ |}
      end
  end.

Definition tcp_endpoint (t : TcpListenerEntry) : Endpoint :=
  {| ep_address := te_address t; ep_port := te_bound_port t; ep_transport := Tcp |}.
Definition udp_endpoint (u : UdpListenerEntry) : Endpoint :=
  {| ep_address := ue_address u; ep_port := ue_bound_port u; ep_transport := Udp |}.

Definition start (dp : DataPlane) : DataPlane :=
  let tcp_entries := tcp_listeners dp in
  let udp_entries := udp_listeners dp in
  let dp := set_entries dp [] [] in
  let dp := fold_left (fun dp t => spawn_listener_task dp (tcp_endpoint t) (te_port t) (Some (te_plan t))) tcp_entries dp in
  fold_left (fun dp u => spawn_listener_task dp (udp_endpoint u) (ue_port u) None) udp_entries dp.

End DataPlane.

(** ** What is wanted *)

Lemma want_fold ls m e :
  fold_left want ls m !! e
  = match m !! e with
    | Some p => Some p
    | None => l_port <$> List.find (fun l => bool_decide (Endpoint_of l = e)) ls
    end.
Proof.
  revert m. induction ls as [|l ls IH]; intros m; cbn [fold_left List.find]; [by destruct (m !! e)|].
  rewrite IH. unfold want. case_bool_decide as He.
  - subst e. destruct (m !! Endpoint_of l) as [p|] eqn:E; [by rewrite E|]. by rewrite lookup_insert_eq.
  - destruct (m !! Endpoint_of l); [done|]. by rewrite lookup_insert_ne.
Qed.

(** A listener wants its endpoint. *)
Definition wants (ls : list ListenerConfig) (e : Endpoint) : Prop := exists l, l ∈ ls /\ Endpoint_of l = e.

Lemma want_is_Some ls e : is_Some (fold_left want ls ∅ !! e) <-> wants ls e.
Proof.
  rewrite want_fold, lookup_empty, fmap_is_Some. unfold wants. split.
  - intros [l Hl]. apply find_some in Hl as [Hin H]. bool_simpl. exists l. by rewrite list_elem_of_In.
  - intros (l & Hl & He). apply list_elem_of_In in Hl.
    destruct (List.find (fun l => bool_decide (Endpoint_of l = e)) ls) as [l'|] eqn:Ef; [done|].
    pose proof (find_none _ _ Ef l Hl) as H. simpl in H. by bool_simpl.
Qed.

Lemma desired_Some ls e p :
  desired_endpoints ls !! e = Some p <->
  (l_port <$> List.find (fun l => bool_decide (Endpoint_of l = e)) ls) = Some p
  /\ (ep_address e = None \/ ~ wants ls (Endpoint_wildcard e)).
Proof.
  unfold desired_endpoints. rewrite map_lookup_filter_Some. cbn [fst].
  rewrite want_fold, lookup_empty. rewrite <- (want_is_Some ls (Endpoint_wildcard e)), <- eq_None_not_Some. done.
Qed.

Lemma desired_listener ls e p :
  desired_endpoints ls !! e = Some p -> exists l, l ∈ ls /\ Endpoint_of l = e /\ l_port l = p.
Proof.
  rewrite desired_Some. intros [H _]. apply fmap_Some in H as (l & Hl & ->).
  apply find_some in Hl as [Hin H]. bool_simpl. exists l. by rewrite list_elem_of_In.
Qed.

(** No endpoint wanted overlaps another: never an address beside its wildcard. *)
Lemma desired_disjoint ls e :
  ep_address e <> None -> is_Some (desired_endpoints ls !! e) -> desired_endpoints ls !! Endpoint_wildcard e = None.
Proof.
  intros Ha [p Hp]. apply desired_Some in Hp as [_ [Hn|Hn]]; [done|].
  destruct (desired_endpoints ls !! Endpoint_wildcard e) as [q|] eqn:E; [|done].
  exfalso. apply Hn. destruct (desired_listener _ _ _ E) as (l & Hl & He & _). by exists l.
Qed.

Section DataPlane.
Context {RL : Rustls} {FN : Fnv}.

(** ** The store of plans *)

Definition cells_ok (plans : gmap Z PortPlan) (next : nat) : Prop :=
  (forall p c, plans !! p = Some c -> (c < next)%nat)
  /\ (forall p q c, plans !! p = Some c -> plans !! q = Some c -> p = q).

Lemma store_plan_ok st kv : cells_ok st.1.1 st.2 -> cells_ok (store_plan st kv).1.1 (store_plan st kv).2.
Proof.
  destruct st as [[pl ce] n], kv as [p plan]. intros [Hlt Hinj]. unfold store_plan. cbn [fst snd] in *.
  destruct (pl !! p) as [c|] eqn:Ep; [done|]. cbn [fst snd]. split.
  - intros q c. rewrite lookup_insert_Some. intros [[_ <-]|[_ H]]; [lia|]. apply Hlt in H. lia.
  - intros q q' c. rewrite !lookup_insert_Some. intros [[<- <-]|[Hq H]] [[<- E]|[Hq' H']]; try done.
    + apply Hlt in H'. lia.
    + subst c. apply Hlt in H. lia.
    + by apply (Hinj _ _ c).
Qed.

(** What publishing leaves: each port of [kvs] on its cell, the one it had if
    it had one, with its new plan. *)
Lemma store_plans kvs st :
  NoDup (kvs.*1) -> cells_ok st.1.1 st.2 ->
  let st' := fold_left store_plan kvs st in
  cells_ok st'.1.1 st'.2
  /\ (forall p c, st.1.1 !! p = Some c -> st'.1.1 !! p = Some c)
  /\ (forall p, is_Some (st'.1.1 !! p) <-> is_Some (st.1.1 !! p) \/ p ∈ kvs.*1)
  /\ (forall p plan, (p, plan) ∈ kvs -> exists c, st'.1.1 !! p = Some c /\ st'.1.2 !! c = Some plan)
  /\ (forall p c, st.1.1 !! p = Some c -> p ∉ kvs.*1 -> st'.1.2 !! c = st.1.2 !! c).
Proof.
  revert st. induction kvs as [|[p0 plan0] kvs IH]; intros st Hnd Hok; cbn [fold_left].
  { split_and!; try done.
    - intros p. split; [by left|]. intros [|H]; [done|by apply not_elem_of_nil in H].
    - intros p plan H. by apply not_elem_of_nil in H. }
  cbn [fmap list_fmap fst] in Hnd. inversion_clear Hnd as [|? ? Hnot Hnd'].
  destruct (IH (store_plan st (p0, plan0)) Hnd' (store_plan_ok _ _ Hok)) as (H1 & H2 & H3 & H4 & H5). clear IH.
  assert (Hst : (forall p c, st.1.1 !! p = Some c -> (store_plan st (p0, plan0)).1.1 !! p = Some c)
    /\ (exists c0, (store_plan st (p0, plan0)).1.1 !! p0 = Some c0 /\ (store_plan st (p0, plan0)).1.2 !! c0 = Some plan0)
    /\ (forall p, p <> p0 -> (store_plan st (p0, plan0)).1.1 !! p = st.1.1 !! p)
    /\ (forall p c, st.1.1 !! p = Some c -> p <> p0 -> (store_plan st (p0, plan0)).1.2 !! c = st.1.2 !! c)).
  { destruct st as [[pl ce] n], Hok as [Hlt Hinj]. unfold store_plan. cbn [fst snd] in *.
    destruct (pl !! p0) as [c0|] eqn:Ep; cbn [fst snd].
    - split_and!; [done|exists c0; by rewrite lookup_insert_eq|done|].
      intros p c Hp Hne. rewrite lookup_insert_ne; [done|]. intros ->. apply Hne. by apply (Hinj _ _ c).
    - split_and!.
      + intros p c Hp. rewrite lookup_insert_ne; [done|]. intros ->. congruence.
      + exists n. by rewrite !lookup_insert_eq.
      + intros p Hne. by rewrite lookup_insert_ne.
      + intros p c Hp Hne. rewrite lookup_insert_ne; [done|]. intros ->. apply Hlt in Hp. lia. }
  destruct Hst as (K1 & (c0 & K2 & K2') & K3 & K4). split_and!.
  - done.
  - auto.
  - intros p. rewrite H3. cbn [fmap list_fmap fst]. rewrite elem_of_cons.
    destruct (decide (p = p0)) as [->|Hne]; [|rewrite K3 by done; naive_solver].
    split; [intros _; right; by left|intros _; left; eauto].
  - intros p plan. rewrite elem_of_cons. intros [[= -> ->]|Hin]; [|by apply H4].
    exists c0. split; [by apply H2|]. by rewrite (H5 p0 c0).
  - intros p c Hp Hnin. cbn [fmap list_fmap fst] in Hnin. rewrite not_elem_of_cons in Hnin. destruct Hnin as [Hne Hnin].
    rewrite (H5 p c) by auto. by apply (K4 p).
Qed.

(** ** The invariant *)

(** The plan cell an accept loop of published port [p] reads. *)
Definition reads_plan (dp : DataPlane) (e : Endpoint) (p : Z) (plan : option PortPlan) : Prop :=
  match ep_transport e with
  | Udp => plan = None
  | Tcp => plans dp !! p = plan /\ is_Some plan
  end.

Record dp_ok (dp : DataPlane) : Prop := {
  ok_pending e : listener_tasks dp !! e <> Some Pending;
  ok_task e t p plan : listener_tasks dp !! e = Some (Running t p plan) -> (t < next_task dp)%nat;
  ok_finished t : t ∈ finished dp -> (t < next_task dp)%nat;
  ok_cells : cells_ok (plans dp) (next_cell dp);
  ok_reads e t p plan : listener_tasks dp !! e = Some (Running t p plan) -> reads_plan dp e p plan;
}.

(** Between the halves of a pass, and at any time, loops may end. *)
Definition finish (dp : DataPlane) (ts : gset Task) : DataPlane := {|
  tcp_listeners := tcp_listeners dp; udp_listeners := udp_listeners dp; listener_tasks := listener_tasks dp; plans := plans dp;
  terminate_configs := terminate_configs dp; closing := closing dp; tls_failures := tls_failures dp; cells := cells dp;
  next_cell := next_cell dp; next_task := next_task dp; finished := ts ∪ finished dp; cancelled := cancelled dp |}.

Definition spawned (dp : DataPlane) (ts : gset Task) : Prop := forall t, t ∈ ts -> (t < next_task dp)%nat.

Lemma finish_ok dp ts : dp_ok dp -> spawned dp ts -> dp_ok (finish dp ts).
Proof.
  intros [? ? Hf ? ?] Hts. split; try done. intros t. unfold finish. cbn [finished next_task].
  rewrite elem_of_union. intros [H|H]; [by apply Hts|by apply Hf].
Qed.

(** Slots only go. *)
Lemma set_tasks_ok dp m c : dp_ok dp -> m ⊆ listener_tasks dp -> dp_ok (set_tasks dp m c).
Proof.
  intros [Hp Ht Hf Hc Hr] Hsub. split; cbn [set_tasks listener_tasks next_task finished plans next_cell]; try done.
  - intros e E. apply (Hp e). by eapply lookup_weaken.
  - intros e t p plan E. eapply Ht, lookup_weaken; eauto.
  - intros e t p plan E. specialize (Hr e t p plan). unfold reads_plan in *. cbn [plans set_tasks]. apply Hr. by eapply lookup_weaken.
Qed.

Lemma close_where_slot dp close e :
  listener_tasks (close_where dp close).1 !! e
  = match listener_tasks dp !! e with Some s => if picked close e s then None else Some s | None => None end.
Proof.
  unfold close_where. cbn [fst set_tasks listener_tasks]. rewrite map_lookup_filter.
  destruct (listener_tasks dp !! e) as [s|]; simpl; [|done].
  destruct (picked close e s); [by rewrite option_guard_False|by rewrite option_guard_True].
Qed.

(** [close_unwanted] leaves the live loops whose endpoint is wanted for the
    port they serve. *)
Lemma close_unwanted_slot dp ls e :
  (forall e, listener_tasks dp !! e <> Some Pending) ->
  listener_tasks (close_unwanted dp ls).1 !! e
  = match listener_tasks dp !! e with
    | Some (Running t p plan) =>
        if negb (bool_decide (t ∈ finished dp)) && bool_decide (desired_endpoints ls !! e = Some p)
        then Some (Running t p plan) else None
    | _ => None
    end.
Proof.
  intros Hpend. unfold close_unwanted. cbv zeta.
  rewrite (surjective_pairing (close_where _ _)). cbn [fst]. rewrite close_where_slot.
  cbn [set_closing set_tasks listener_tasks]. rewrite map_lookup_filter.
  specialize (Hpend e). destruct (listener_tasks dp !! e) as [[|t p plan]|]; simpl; [done| |done].
  destruct (decide (negb (bool_decide (t ∈ finished dp)) = true)) as [Ha|Ha].
  - rewrite option_guard_True by done. simpl. rewrite Ha. cbn [andb]. by destruct (bool_decide (_ !! e = Some p)).
  - rewrite option_guard_False by done. simpl. apply not_true_is_false in Ha. by rewrite Ha.
Qed.

(** ** One pass *)

(** [close_unwanted], the awaits, and [add_tcp_listeners]; [ts] are the tasks
    that end meanwhile. *)
Definition pass (os : nat -> Endpoint -> option (list Z)) (dp : DataPlane) (ls : list ListenerConfig) (http2 : bool) (ts : gset Task)
  : DataPlane * nat * list BindError :=
  add_tcp_listeners os (finish (close_unwanted dp ls).1 ts) ls http2.

Lemma close_where_ok dp close : dp_ok dp -> dp_ok (close_where dp close).1.
Proof. intros Hok. apply set_tasks_ok; [done|]. apply map_filter_subseteq. Qed.

Lemma set_closing_ok dp l : dp_ok dp -> dp_ok (set_closing dp l).
Proof. by intros []. Qed.

Lemma close_unwanted_ok dp ls : dp_ok dp -> dp_ok (close_unwanted dp ls).1.
Proof.
  intros Hok. unfold close_unwanted. cbv zeta. rewrite (surjective_pairing (close_where _ _)). cbn [fst].
  apply close_where_ok, set_closing_ok, set_tasks_ok; [done|]. apply map_filter_subseteq.
Qed.

(** The listeners a data plane is given: TLS ones pass through. *)
Definition servable (ls : list ListenerConfig) : Prop :=
  forall l, l ∈ ls -> l_protocol l = TLS -> is_tls_passthrough l = true.

Lemma servable_planned ls l : servable ls -> l ∈ ls -> Transport_of (l_protocol l) = Tcp -> planned (l_port l) l = true.
Proof.
  intros Hs Hl Ht. unfold planned. rewrite Z.eqb_refl. cbn [andb].
  destruct (l_protocol l) eqn:Ep; try done. by apply Hs.
Qed.

(** Publishing puts every planned port's plan of this pass on its cell, and
    keeps the cells of the ports the loops serve. *)
Lemma publish_plans_spec dp ls http2 :
  cells_ok (plans dp) (next_cell dp) ->
  let dp' := (publish_plans dp ls http2).1 in
  let planned := (plan_ports ls http2 (terminate_configs dp)).1.1 in
  cells_ok (plans dp') (next_cell dp')
  /\ listener_tasks dp' = listener_tasks dp /\ finished dp' = finished dp /\ next_task dp' = next_task dp
  /\ closing dp' = closing dp
  /\ (forall p, is_Some (plans dp' !! p) <-> is_Some (planned !! p))
  /\ (forall p plan, planned !! p = Some plan -> exists c, plans dp' !! p = Some c /\ load_plan dp' c = plan)
  /\ (forall p c, plans dp !! p = Some c -> is_Some (planned !! p) -> plans dp' !! p = Some c)
  /\ terminate_configs dp' = (plan_ports ls http2 (terminate_configs dp)).1.2.
Proof.
  intros [Hlt Hinj]. unfold publish_plans. destruct (plan_ports ls http2 (terminate_configs dp)) as [[pls built] errs]. cbn [fst snd].
  set (kept := filter (fun kv => is_Some (pls !! kv.1)) (plans dp)).
  assert (Hkept : forall p c, kept !! p = Some c <-> plans dp !! p = Some c /\ is_Some (pls !! p)).
  { intros p c. unfold kept. by rewrite map_lookup_filter_Some. }
  pose proof (store_plans (map_to_list pls) (kept, cells dp, next_cell dp) (NoDup_fst_map_to_list pls)) as Hst.
  cbn [fst snd] in Hst. destruct Hst as (H1 & H2 & H3 & H4 & _).
  { split; [intros p c Hc|intros p q c Hc Hc']; apply Hkept in Hc as [Hc _]; [eauto|]. apply Hkept in Hc' as [Hc' _]. eauto. }
  destruct (fold_left store_plan (map_to_list pls) (kept, cells dp, next_cell dp)) as [[pl ce] n]. cbn [fst snd] in *.
  cbn [plans next_cell listener_tasks finished next_task closing terminate_configs]. split_and!; try done.
  - intros p. rewrite H3, list_elem_of_fmap. split.
    + intros [[c Hc]|([p' plan] & -> & Hin)]; [by apply Hkept in Hc as [_ ?]|]. apply elem_of_map_to_list in Hin. by exists plan.
    + intros [plan Hp]. right. exists (p, plan). by rewrite elem_of_map_to_list.
  - intros p plan Hp. apply elem_of_map_to_list in Hp. destruct (H4 _ _ Hp) as (c & Hc & Hce).
    exists c. split; [done|]. unfold load_plan. cbn [cells]. by rewrite Hce.
  - intros p c Hc Hs. apply H2, Hkept. done.
Qed.

Lemma plan_ports_planned ls http2 built0 l :
  l ∈ ls -> planned (l_port l) l = true -> is_Some ((plan_ports ls http2 built0).1.1 !! l_port l).
Proof.
  intros Hl Hpl. destruct (plan_ports ls http2 built0) as [[pls built] errs] eqn:E. cbn [fst].
  destruct (plan_ports_lookup _ _ _ (l_port l) _ _ _ E) as [_ ->].
  assert (existsb (planned (l_port l)) ls = true) as ->; [|eauto].
  apply existsb_exists. exists l. by rewrite <- list_elem_of_In.
Qed.

(** ** Binding *)

Lemma bind_plan_spec dp l plan :
  bind_plan dp l = Some plan ->
  reads_plan dp (Endpoint_of l) (l_port l) plan
  /\ (ep_transport (Endpoint_of l) = Tcp -> port_serves dp (l_port l) = true).
Proof.
  unfold bind_plan, reads_plan, port_serves, Endpoint_of. cbn [ep_transport].
  destruct (l_protocol l); cbn [Transport_of]; intros H;
    try (by injection H as <-);
    (destruct (plans dp !! l_port l) as [slot|]; [|done]; destruct (serves (load_plan dp slot)) eqn:Es; [|done];
     injection H as <-; rewrite ?Es; eauto).
Qed.

Lemma bind_plan_some dp l :
  ep_transport (Endpoint_of l) = Udp \/ port_serves dp (l_port l) = true -> is_Some (bind_plan dp l).
Proof.
  unfold bind_plan, port_serves, Endpoint_of. cbn [ep_transport].
  destruct (l_protocol l); cbn [Transport_of]; intros [H|H]; try done;
    (destruct (plans dp !! l_port l) as [slot|]; [|done]; by rewrite H).
Qed.

Lemma spawn_ok dp e port plan :
  dp_ok dp -> reads_plan dp e port plan -> dp_ok (spawn_listener_task dp e port plan).
Proof.
  intros [Hp Ht Hf Hc Hr] Hplan. split; cbn [spawn_listener_task listener_tasks next_task finished plans next_cell]; try done.
  - intros e'. rewrite lookup_insert_Some. intros [[_ H]|[_ H]]; [done|by apply (Hp e')].
  - intros e' t p pl. rewrite lookup_insert_Some. intros [[_ [= <- _ _]]|[_ H]]; [lia|]. apply Ht in H. lia.
  - intros t H. apply Hf in H. lia.
  - intros e' t p pl. rewrite lookup_insert_Some. intros [[<- [= _ <- <-]]|[_ H]]; [done|]. by apply (Hr e' t p pl).
Qed.

Lemma spawn_alive dp e port plan e' :
  dp_ok dp ->
  endpoint_alive (spawn_listener_task dp e port plan) e' = if decide (e' = e) then true else endpoint_alive dp e'.
Proof.
  intros Hok. unfold endpoint_alive. cbn [spawn_listener_task listener_tasks].
  destruct (decide (e' = e)) as [->|Hne].
  - rewrite lookup_insert_eq. cbn [alive finished spawn_listener_task].
    case_bool_decide as Hf; [|done]. apply (ok_finished dp Hok) in Hf. lia.
  - rewrite lookup_insert_ne by done. by destruct (listener_tasks dp !! e') as [[]|].
Qed.

(** What the bind loop keeps: the plans, and that a live loop serves an
    endpoint for the port that wants it. *)
Record binding_ok (dp0 : DataPlane) (desired : gmap Endpoint Z) (st : Binding) : Prop := {
  bo_ok : dp_ok (bound st);
  bo_plans : plans (bound st) = plans dp0 /\ cells (bound st) = cells dp0;
  bo_slot e t p plan : listener_tasks (bound st) !! e = Some (Running t p plan) ->
    desired !! e = Some p /\ (ep_transport e = Tcp -> port_serves dp0 p = true);
}.

Lemma port_serves_same dp dp0 p : plans dp = plans dp0 -> cells dp = cells dp0 -> port_serves dp p = port_serves dp0 p.
Proof. intros Hp Hc. unfold port_serves, load_plan. by rewrite Hp, Hc. Qed.

Lemma bind_listener_ok os dp0 desired st l :
  binding_ok dp0 desired st -> binding_ok dp0 desired (bind_listener os desired st l).
Proof.
  intros Hok. pose proof Hok as [Hdp [Hpl Hce] Hslot]. unfold bind_listener.
  destruct (bind_plan (bound st) l) as [plan|] eqn:Eb; [|done].
  destruct (endpoint_alive _ _ || _) eqn:Es; [done|]. bool_simpl.
  destruct (bind_plan_spec _ _ _ Eb) as [Hreads Hserves].
  destruct (os (tries st) (Endpoint_of l)) as [err|]; [done|]. split; cbn [bound].
  - by apply spawn_ok.
  - done.
  - intros e t p pl. cbn [spawn_listener_task listener_tasks]. rewrite lookup_insert_Some.
    intros [[<- [= _ <- _]]|[_ H1]]; [|by apply (Hslot e t p pl)].
    split; [done|]. intros Ht. rewrite <- (port_serves_same (bound st) dp0) by done. by apply Hserves.
Qed.

Lemma bind_loop_ok os dp0 desired ls st :
  binding_ok dp0 desired st -> binding_ok dp0 desired (fold_left (bind_listener os desired) ls st).
Proof. revert st. induction ls as [|l ls IH]; intros st Hok; [done|]. by apply IH, bind_listener_ok. Qed.

(** An endpoint is bound, or the system refused it. *)
Definition settled (st : Binding) (e : Endpoint) : Prop :=
  endpoint_alive (bound st) e = true \/ exists err, {| be_endpoint := e; be_error := SystemRefused err |} ∈ errors st.

Lemma settled_mono os dp0 desired st l e :
  binding_ok dp0 desired st -> settled st e -> settled (bind_listener os desired st l) e.
Proof.
  intros [Hdp _ _] Hs. unfold bind_listener. destruct (bind_plan (bound st) l) as [plan|]; [|done].
  destruct (endpoint_alive _ _ || _); [done|]. unfold settled in *.
  destruct (os (tries st) (Endpoint_of l)) as [err|]; cbn [bound errors].
  - destruct Hs as [|[err' H]]; [by left|]. right. exists err'. apply elem_of_app. by left.
  - rewrite spawn_alive by done. destruct (decide (e = Endpoint_of l)); [by left|done].
Qed.

Lemma settled_here os desired st l :
  dp_ok (bound st) -> is_Some (bind_plan (bound st) l) -> desired !! Endpoint_of l = Some (l_port l) ->
  settled (bind_listener os desired st l) (Endpoint_of l).
Proof.
  intros Hdp [plan Hb] Hd. unfold bind_listener. rewrite Hb, bool_decide_true by done. cbn [negb]. rewrite orb_false_r.
  destruct (endpoint_alive (bound st) (Endpoint_of l)) eqn:Ea; [by left|]. unfold settled.
  destruct (os (tries st) (Endpoint_of l)) as [err|]; cbn [bound errors].
  - right. exists err. apply elem_of_app. right. by apply list_elem_of_singleton.
  - left. rewrite spawn_alive by done. by rewrite decide_True.
Qed.

Lemma bind_loop_settles os dp0 desired ls st l :
  binding_ok dp0 desired st -> l ∈ ls -> desired !! Endpoint_of l = Some (l_port l) ->
  ep_transport (Endpoint_of l) = Udp \/ port_serves dp0 (l_port l) = true ->
  settled (fold_left (bind_listener os desired) ls st) (Endpoint_of l).
Proof.
  revert st. induction ls as [|l' ls IH]; intros st Hok Hl Hd Hs; [by apply not_elem_of_nil in Hl|].
  cbn [fold_left]. apply elem_of_cons in Hl as [<-|Hl]; [|by apply IH; [apply bind_listener_ok| | |]].
  assert (Hhere : settled (bind_listener os desired st l) (Endpoint_of l)).
  { pose proof Hok as [Hdp [Hpl Hce] _]. apply settled_here; [done| |done]. apply bind_plan_some.
    by rewrite (port_serves_same (bound st) dp0). }
  pose proof (bind_listener_ok os dp0 desired st l Hok) as Hok'. revert Hok' Hhere.
  generalize (bind_listener os desired st l). clear. induction ls as [|l' ls IH]; intros st Hok Hs; [done|].
  cbn [fold_left]. apply IH; [by apply bind_listener_ok|by eapply settled_mono].
Qed.

Lemma bind_keeps_alive os desired ls st e s :
  listener_tasks (bound st) !! e = Some s -> alive (bound st) s = true ->
  listener_tasks (bound (fold_left (bind_listener os desired) ls st)) !! e = Some s.
Proof.
  revert st. induction ls as [|l ls IH]; intros st Hs Ha; [done|]. cbn [fold_left].
  assert (H : listener_tasks (bound (bind_listener os desired st l)) !! e = Some s
              /\ alive (bound (bind_listener os desired st l)) s = true); [|apply IH; apply H].
  unfold bind_listener. destruct (bind_plan (bound st) l) as [plan|]; [|done].
  destruct (endpoint_alive (bound st) (Endpoint_of l)) eqn:Ea; [done|].
  destruct (false || _); [done|]. destruct (os _ _); cbn [bound]; [done|].
  assert (Hne : Endpoint_of l <> e) by (intros E; rewrite E in Ea; unfold endpoint_alive in Ea; rewrite Hs in Ea; congruence).
  cbn [spawn_listener_task listener_tasks]. rewrite lookup_insert_ne by done. split; [done|]. exact Ha.
Qed.

(** The state the bind loop of a pass starts from. *)
Lemma pass_before_binding dp ls http2 ts :
  dp_ok dp -> servable ls -> spawned dp ts ->
  let dp1 := (publish_plans (finish (close_unwanted dp ls).1 ts) ls http2).1 in
  let dp2 := (close_where dp1 (fun e port => bool_decide (ep_transport e = Tcp) && dead_port dp1 port)).1 in
  dp_ok dp1
  /\ (forall e t p plan, listener_tasks dp2 !! e = Some (Running t p plan) ->
        desired_endpoints ls !! e = Some p /\ (ep_transport e = Tcp -> port_serves dp1 p = true))
  /\ (forall e t p plan, listener_tasks dp !! e = Some (Running t p plan) -> t ∉ finished dp ->
        desired_endpoints ls !! e = Some p -> ep_transport e = Udp \/ port_serves dp1 p = true ->
        listener_tasks dp2 !! e = Some (Running t p plan))
  /\ finished dp2 = ts ∪ finished dp.
Proof.
  intros Hok Hls Hts dp1 dp2.
  pose proof (close_unwanted_ok dp ls Hok) as Hok0.
  pose proof (finish_ok (close_unwanted dp ls).1 ts Hok0 Hts) as Hok1.
  pose proof (publish_plans_spec (finish (close_unwanted dp ls).1 ts) ls http2 (ok_cells _ Hok1)) as Hpub.
  fold dp1 in Hpub. destruct Hpub as (Hcells & Htasks & Hfin & Hnext & _ & Hdom & _ & Hkeep & _).
  assert (Hslot : forall e, listener_tasks dp1 !! e = match listener_tasks dp !! e with
    | Some (Running t p plan) => if negb (bool_decide (t ∈ finished dp)) && bool_decide (desired_endpoints ls !! e = Some p)
                                 then Some (Running t p plan) else None
    | _ => None end).
  { intros e. rewrite Htasks. change (listener_tasks (finish ?d ts)) with (listener_tasks d). apply close_unwanted_slot, Hok. }
  assert (Hwant : forall e t p plan, listener_tasks dp1 !! e = Some (Running t p plan) -> desired_endpoints ls !! e = Some p).
  { intros e t p plan H. rewrite Hslot in H. destruct (listener_tasks dp !! e) as [[|t' p' plan']|]; try done.
    destruct (_ && _) eqn:E; [|done]. bool_simpl. by injection H as <- <- <-. }
  assert (Hok2 : dp_ok dp1).
  { split.
    - intros e. rewrite Htasks. apply (ok_pending _ Hok1).
    - intros e t p plan. rewrite Htasks, Hnext. apply (ok_task _ Hok1).
    - intros t. rewrite Hfin, Hnext. apply (ok_finished _ Hok1).
    - done.
    - intros e t p plan H. pose proof (Hwant _ _ _ _ H) as Hd. rewrite Htasks in H. apply (ok_reads _ Hok1) in H.
      unfold reads_plan in *. destruct (ep_transport e) eqn:Et; [|done]. destruct H as [H [c ->]]. split; [|done].
      apply Hkeep; [done|]. destruct (desired_listener _ _ _ Hd) as (l & Hl & He & <-). apply plan_ports_planned; [done|].
      apply servable_planned with ls; [done|done|]. rewrite <- He in Et. exact Et. }
  split_and!; [done| | |].
  - intros e t p plan H. unfold dp2 in H. rewrite close_where_slot in H.
    destruct (listener_tasks dp1 !! e) as [s|] eqn:Es; [|done].
    destruct (picked _ e s) eqn:Ep; [done|]. injection H as ->. cbn [picked] in Ep.
    split; [by apply (Hwant _ _ _ _ Es)|]. intros Ht. rewrite bool_decide_true in Ep by done. cbn [andb] in Ep.
    pose proof (ok_reads _ Hok2 _ _ _ _ Es) as Hr. unfold reads_plan in Hr. rewrite Ht in Hr. destruct Hr as [Hr [c ->]].
    unfold dead_port in Ep. unfold port_serves. rewrite Hr in *. by bool_simpl.
  - intros e t p plan H Hf Hd Hs. unfold dp2. rewrite close_where_slot, Hslot, H.
    rewrite !bool_decide_false, bool_decide_true by done. cbn [negb andb picked].
    destruct Hs as [Hs|Hs]; [by rewrite Hs|]. unfold port_serves in Hs. unfold dead_port.
    destruct (plans dp1 !! p); [|done]. rewrite Hs, andb_false_r. done.
  - unfold dp2, close_where. cbn [fst set_tasks finished]. by rewrite Hfin.
Qed.

Lemma close_unwanted_configs dp ls : terminate_configs (close_unwanted dp ls).1 = terminate_configs dp.
Proof. done. Qed.

Lemma pass_correct (os : nat -> Endpoint -> option (list Z)) (dp dp' : DataPlane) (ls : list ListenerConfig)
  (http2 : bool) (ts : gset Task) (n : nat) (errs : list BindError)
  (Hok : dp_ok dp) (Hls : servable ls) (Hts : spawned dp ts) (Hpass : pass os dp ls http2 ts = (dp', n, errs)) :
  let planned := (plan_ports ls http2 (terminate_configs dp)).1.1 in
  dp_ok dp'
  /\ (forall e, endpoint_alive dp' e = true -> exists t p plan,
        desired_endpoints ls !! e = Some p /\ listener_tasks dp' !! e = Some (Running t p plan)
        /\ (ep_transport e = Tcp -> exists c, plan = Some c /\ planned !! p = Some (load_plan dp' c) /\ serves (load_plan dp' c) = true))
  /\ (forall e p, desired_endpoints ls !! e = Some p -> ep_transport e = Udp \/ port_serves dp' p = true ->
        endpoint_alive dp' e = true \/ exists err, {| be_endpoint := e; be_error := SystemRefused err |} ∈ errs)
  /\ (forall e t p plan, listener_tasks dp !! e = Some (Running t p plan) -> t ∉ finished dp -> t ∉ ts ->
        desired_endpoints ls !! e = Some p -> ep_transport e = Udp \/ port_serves dp' p = true ->
        listener_tasks dp' !! e = Some (Running t p plan))
  /\ (forall e, ep_address e <> None -> endpoint_alive dp' e = true -> endpoint_alive dp' (Endpoint_wildcard e) = false).
Proof.
  intros planned.
  destruct (pass_before_binding dp ls http2 ts Hok Hls Hts) as (Hok1 & Hslots & Hkept & Hfin).
  pose proof (publish_plans_spec (finish (close_unwanted dp ls).1 ts) ls http2
                (ok_cells _ (finish_ok _ ts (close_unwanted_ok dp ls Hok) Hts))) as Hpub.
  change (terminate_configs (finish (close_unwanted dp ls).1 ts)) with (terminate_configs dp) in Hpub. fold planned in Hpub.
  destruct Hpub as (_ & _ & _ & _ & _ & Hdom & Hload & _ & _).
  unfold pass, add_tcp_listeners in Hpass. cbv zeta in Hpass.
  rewrite (surjective_pairing (publish_plans (finish (close_unwanted dp ls).1 ts) ls http2)) in Hpass.
  set (dp1 := (publish_plans (finish (close_unwanted dp ls).1 ts) ls http2).1) in *.
  rewrite (surjective_pairing (close_where dp1 _)) in Hpass.
  set (cw := close_where dp1 _) in *. set (st0 := {| bound := _ |}) in Hpass.
  assert (Hb0 : binding_ok dp1 (desired_endpoints ls) st0).
  { split; cbn [st0 bound]; [by apply set_closing_ok, close_where_ok|done|exact Hslots]. }
  pose proof (bind_loop_ok os dp1 (desired_endpoints ls) ls st0 Hb0) as Hb.
  set (st := fold_left (bind_listener os (desired_endpoints ls)) ls st0) in *.
  injection Hpass as Hdp' _ Herrs. destruct Hb as [Hok' [Hpl Hce] Hslot']. rewrite Hdp' in *.
  assert (Hps : forall p, port_serves dp' p = port_serves dp1 p) by (intros p; by apply port_serves_same).
  assert (Halive : forall e, endpoint_alive dp' e = true -> exists t p plan,
    listener_tasks dp' !! e = Some (Running t p plan) /\ desired_endpoints ls !! e = Some p).
  { intros e Ha. unfold endpoint_alive in Ha. destruct (listener_tasks dp' !! e) as [[|t p plan]|] eqn:Es; [by apply (ok_pending _ Hok') in Es| |done].
    exists t, p, plan. split; [done|]. by apply (Hslot' _ _ _ _ Es). }
  split_and!; [done| | | |].
  - intros e Ha. destruct (Halive e Ha) as (t & p & plan & Es & Hd). exists t, p, plan. split_and!; [done|done|]. intros Ht.
    pose proof (ok_reads _ Hok' _ _ _ _ Es) as Hr. unfold reads_plan in Hr. rewrite Ht in Hr. destruct Hr as [Hr [c ->]].
    destruct (Hslot' _ _ _ _ Es) as [_ Hsv]. specialize (Hsv Ht). rewrite <- Hps in Hsv. unfold port_serves in Hsv. rewrite Hr in Hsv.
    exists c. split_and!; [done| |done]. rewrite Hpl in Hr.
    destruct (proj1 (Hdom p) ltac:(by rewrite Hr)) as [plan Hplan]. destruct (Hload _ _ Hplan) as (c' & Hc' & Hl').
    rewrite Hr in Hc'. injection Hc' as <-. unfold load_plan in *. rewrite Hce, Hl'. done.
  - intros e p Hd Hs. destruct (desired_listener _ _ _ Hd) as (l & Hl & <- & <-). rewrite Hps in Hs.
    pose proof (bind_loop_settles os dp1 (desired_endpoints ls) ls st0 l Hb0 Hl Hd Hs) as Hset.
    unfold settled in Hset. fold st in Hset. by rewrite Hdp', Herrs in Hset.
  - intros e t p plan Hs Hf Hnt Hd Hsv. rewrite Hps in Hsv. rewrite <- Hdp'. apply bind_keeps_alive.
    + by apply Hkept.
    + cbn [st0 bound]. cbn [alive]. change (finished (set_closing cw.1 _)) with (finished cw.1). rewrite Hfin.
      rewrite bool_decide_false; [done|]. rewrite elem_of_union. by intros [|].
  - intros e Ha Hal. destruct (Halive e Hal) as (t & p & plan & _ & Hd).
    destruct (endpoint_alive dp' (Endpoint_wildcard e)) eqn:Ew; [|done]. exfalso.
    destruct (Halive _ Ew) as (t' & p' & plan' & _ & Hd').
    rewrite (desired_disjoint ls e Ha ltac:(eauto)) in Hd'. done.
Qed.

(** C17: A pass binds what its listeners want and nothing else. For any state
    the data plane can be in, whatever accept loops died before or die during
    the pass, and whatever the system refuses:
    - every live loop afterwards is on an endpoint the listeners want, serves
      the published port that wants it, and, on TCP, reads per connection the
      plan this pass made for that port, through the cell it was spawned with;
    - every endpoint wanted for a port that can serve is live, or the system
      refused it and its error is reported;
    - a loop that was live and still wanted is left alone: the same task;
    - no live endpoint overlaps another;
    - and the invariant holds again. *)
Theorem pass_binds_what_is_wanted (os : nat -> Endpoint -> option (list Z)) (dp dp' : DataPlane) (ls : list ListenerConfig)
  (http2 : bool) (ts : gset Task) (n : nat) (errs : list BindError)
  (Hok : dp_ok dp) (Hls : servable ls) (Hts : spawned dp ts) (Hpass : pass os dp ls http2 ts = (dp', n, errs)) :
  let planned := (plan_ports ls http2 (terminate_configs dp)).1.1 in
  dp_ok dp'
  /\ (forall e, endpoint_alive dp' e = true -> exists t p plan,
        desired_endpoints ls !! e = Some p /\ listener_tasks dp' !! e = Some (Running t p plan)
        /\ (ep_transport e = Tcp -> exists c, plan = Some c /\ planned !! p = Some (load_plan dp' c) /\ serves (load_plan dp' c) = true))
  /\ (forall e p, desired_endpoints ls !! e = Some p -> ep_transport e = Udp \/ port_serves dp' p = true ->
        endpoint_alive dp' e = true \/ exists err, {| be_endpoint := e; be_error := SystemRefused err |} ∈ errs)
  /\ (forall e t p plan, listener_tasks dp !! e = Some (Running t p plan) -> t ∉ finished dp -> t ∉ ts ->
        desired_endpoints ls !! e = Some p -> ep_transport e = Udp \/ port_serves dp' p = true ->
        listener_tasks dp' !! e = Some (Running t p plan))
  /\ (forall e, ep_address e <> None -> endpoint_alive dp' e = true -> endpoint_alive dp' (Endpoint_wildcard e) = false).
Proof. exact (pass_correct os dp dp' ls http2 ts n errs Hok Hls Hts Hpass). Qed.

(** ** A file's listeners *)

(** A listener's socket is opened: a datagram one, or one of a planned port. *)
Definition opens (plans : gmap Z PortPlan) (l : ListenerConfig) : bool :=
  match l_protocol l with UDP => true | _ => is_some (plans !! l_port l) end.

Record opening_ok (plans : gmap Z PortPlan) (ls : list ListenerConfig) (st : Opening) : Prop := {
  oo_bound e : e ∈ bound_endpoints st <-> exists l, l ∈ ls /\ Endpoint_of l = e /\ opens plans l = true;
  oo_tcp t : t ∈ op_tcp st -> plans !! te_port t = Some (te_plan t);
  oo_entries e : e ∈ bound_endpoints st <-> e ∈ map tcp_endpoint (op_tcp st) \/ e ∈ map udp_endpoint (op_udp st);
}.

Lemma open_listener_ok os plans ls st st' l :
  opening_ok plans ls st -> open_listener os plans st l = Ok st' -> opening_ok plans (ls ++ [l]) st'.
Proof.
  intros [Hb Ht He].
  assert (Hskip : opens plans l = false \/ Endpoint_of l ∈ bound_endpoints st -> opening_ok plans (ls ++ [l]) st).
  { intros Hl. split; [|done|done]. intros e. rewrite Hb. setoid_rewrite elem_of_app. setoid_rewrite list_elem_of_singleton. split.
    - intros (l' & Hl' & H). exists l'. auto.
    - intros (l' & [Hl'| ->] & Hep & Ho); [eauto|]. destruct Hl as [Hl|Hl]; [congruence|]. subst e. by apply Hb. }
  assert (Hadd : forall t u, opens plans l = true ->
    opening_ok plans ls st ->
    (forall x, x ∈ t -> plans !! te_port x = Some (te_plan x)) ->
    (forall e, e ∈ map tcp_endpoint t \/ e ∈ map udp_endpoint u <-> e = Endpoint_of l) ->
    opening_ok plans (ls ++ [l]) {| op_tcp := op_tcp st ++ t; op_udp := op_udp st ++ u; bound_endpoints := {[Endpoint_of l]} ∪ bound_endpoints st |}).
  { intros t u Ho _ Hx Hends. split; cbn [op_tcp op_udp bound_endpoints].
    - intros e. rewrite elem_of_union, elem_of_singleton, Hb. setoid_rewrite elem_of_app. setoid_rewrite list_elem_of_singleton. split.
      + intros [->|(l' & Hl' & H)]; [exists l; auto|exists l'; auto].
      + intros (l' & [Hl'| ->] & Hep & Ho'); [right; eauto|by left].
    - intros x Hin. apply elem_of_app in Hin as [|]; auto.
    - intros e. rewrite !map_app, !elem_of_app, elem_of_union, elem_of_singleton, He. specialize (Hends e). tauto. }
  unfold open_listener.
  assert (Hcase : forall plan, opens plans l = true ->
    (ep_transport (Endpoint_of l) = match plan with Some _ => Tcp | None => Udp end) ->
    (forall slot, plan = Some slot -> plans !! l_port l = Some slot) ->
    (if bool_decide (Endpoint_of l ∈ bound_endpoints st) then Ok st
     else match os (size (bound_endpoints st)) (Endpoint_of l) with
          | Some e => Err e
          | None => Ok match plan with
              | None => {| op_tcp := op_tcp st;
                           op_udp := op_udp st ++ [{| ue_port := l_port l; ue_bound_port := bound_port l; ue_address := l_address l |}];
                           bound_endpoints := {[Endpoint_of l]} ∪ bound_endpoints st |}
              | Some slot => {| op_tcp := op_tcp st ++ [{| te_port := l_port l; te_bound_port := bound_port l;
                                                           te_address := l_address l; te_plan := slot |}];
                                op_udp := op_udp st; bound_endpoints := {[Endpoint_of l]} ∪ bound_endpoints st |}
              end
          end) = Ok st' -> opening_ok plans (ls ++ [l]) st').
  { intros plan Ho Htr Hplan. case_bool_decide as Hin; [intros [= <-]; by apply Hskip; right|].
    destruct (os _ _); [done|]. intros [= <-]. destruct plan as [slot|].
    - rewrite <- (app_nil_r (op_udp st)). apply Hadd; [done|done| |].
      + intros x Hx. apply list_elem_of_singleton in Hx as ->. by apply Hplan.
      + intros e. cbn [map]. rewrite list_elem_of_singleton. unfold tcp_endpoint, Endpoint_of in *. cbn [te_address te_bound_port ep_transport] in *.
        rewrite Htr. split; [intros [|H]; [done|by apply not_elem_of_nil in H]|by left].
    - rewrite <- (app_nil_r (op_tcp st)). apply Hadd; [done|done| |].
      + intros x Hx. by apply not_elem_of_nil in Hx.
      + intros e. cbn [map]. rewrite list_elem_of_singleton. unfold udp_endpoint, Endpoint_of in *. cbn [ue_address ue_bound_port ep_transport] in *.
        rewrite Htr. split; [intros [H|]; [by apply not_elem_of_nil in H|done]|by right]. }
  cbv zeta. unfold opens in Hcase, Hskip. unfold Endpoint_of in Hcase at 1. cbn [ep_transport] in Hcase.
  destruct (l_protocol l); cbn [Transport_of] in Hcase;
    try (destruct (plans !! l_port l) as [slot|] eqn:Es; [apply (Hcase (Some slot)); [done|done|by intros ? [= <-]]|intros [= <-]; apply Hskip; by left]).
  apply (Hcase None); done.
Qed.

Lemma open_listeners_ok os plans ls0 ls st st' :
  opening_ok plans ls0 st -> open_listeners os plans st ls = Ok st' -> opening_ok plans (ls0 ++ ls) st'.
Proof.
  revert ls0 st. induction ls as [|l ls IH]; intros ls0 st Hok; cbn [open_listeners].
  - intros [= <-]. by rewrite app_nil_r.
  - destruct (open_listener os plans st l) as [st1|] eqn:E; [|done]. intros H.
    replace (ls0 ++ l :: ls) with ((ls0 ++ [l]) ++ ls) by (by rewrite <- app_assoc).
    apply (IH _ st1); [|done]. by eapply open_listener_ok.
Qed.

(** Spawning a list of loops, each on an endpoint with a plan it may read. *)
Lemma spawn_all_ok {A} (endpoint : A -> Endpoint) (port : A -> Z) (plan : A -> option PortPlan) xs dp (todo : gset Endpoint) :
  (forall e, listener_tasks dp !! e = Some Pending -> e ∈ todo \/ e ∈ map endpoint xs) ->
  dp_ok (set_tasks dp (filter (fun kv => kv.2 <> Pending) (listener_tasks dp)) (cancelled dp)) ->
  (forall x, x ∈ xs -> reads_plan dp (endpoint x) (port x) (plan x)) ->
  let dp' := fold_left (fun dp x => spawn_listener_task dp (endpoint x) (port x) (plan x)) xs dp in
  (forall e, listener_tasks dp' !! e = Some Pending -> e ∈ todo)
  /\ dp_ok (set_tasks dp' (filter (fun kv => kv.2 <> Pending) (listener_tasks dp')) (cancelled dp'))
  /\ plans dp' = plans dp
  /\ (forall e, endpoint_alive dp' e = true <-> endpoint_alive dp e = true \/ e ∈ map endpoint xs).
Proof.
  revert dp. induction xs as [|x xs IH]; intros dp Hpend Hok Hr; cbn [fold_left].
  { split_and!; try done.
    - intros e He. destruct (Hpend e He) as [|H]; [done|by apply not_elem_of_nil in H].
    - intros e. split; [by left|]. intros [|H]; [done|by apply not_elem_of_nil in H]. }
  set (dp1 := spawn_listener_task dp (endpoint x) (port x) (plan x)).
  assert (Hfil : filter (fun kv => kv.2 <> Pending) (listener_tasks dp1)
    = <[endpoint x := Running (next_task dp) (port x) (plan x)]> (filter (fun kv => kv.2 <> Pending) (listener_tasks dp))).
  { unfold dp1. cbn [spawn_listener_task listener_tasks]. by rewrite map_filter_insert_True. }
  destruct (IH dp1) as (H1 & H2 & H3 & H4).
  - intros e. unfold dp1. cbn [spawn_listener_task listener_tasks]. rewrite lookup_insert_Some.
    intros [[_ H]|[Hne H]]; [done|]. destruct (Hpend e H) as [|Hin]; [by left|]. cbn [map] in Hin.
    apply elem_of_cons in Hin as [->|]; [done|by right].
  - rewrite Hfil. exact (spawn_ok _ (endpoint x) (port x) (plan x) Hok (Hr x ltac:(by left))).
  - intros y Hy. apply (Hr y). by right.
  - split_and!; [done|done|by rewrite H3|]. intros e. rewrite H4. cbn [map]. rewrite elem_of_cons.
    assert (Ha : endpoint_alive dp1 e = true <-> endpoint_alive dp e = true \/ e = endpoint x); [|tauto].
    unfold dp1, endpoint_alive. cbn [spawn_listener_task listener_tasks].
    destruct (decide (e = endpoint x)) as [->|Hne].
    + rewrite lookup_insert_eq. cbn [alive finished spawn_listener_task].
      rewrite bool_decide_false; [split; [by right|done]|]. intros Hf. apply (ok_finished _ Hok) in Hf. cbn [set_tasks next_task] in Hf. lia.
    + rewrite lookup_insert_ne by done. destruct (listener_tasks dp !! e) as [[]|]; cbn [alive finished spawn_listener_task]; tauto.
Qed.

(** A port's cell exists when the pass planned the port. *)
Lemma opens_planned (pls : gmap Z (option TlsPlan)) (pl : gmap Z PortPlan) l :
  (forall p, is_Some (pl !! p) <-> is_Some (@None PortPlan) \/ p ∈ (map_to_list pls).*1) ->
  opens pl l = true <-> l_protocol l = UDP \/ is_Some (pls !! l_port l).
Proof.
  intros Hdom. unfold opens.
  assert (Hp : is_some (pl !! l_port l) = true <-> is_Some (pls !! l_port l)).
  { specialize (Hdom (l_port l)).
    assert (Hk : l_port l ∈ (map_to_list pls).*1 <-> is_Some (pls !! l_port l)).
    { rewrite list_elem_of_fmap. split.
      - intros ([p plan] & -> & Hin). apply elem_of_map_to_list in Hin. by exists plan.
      - intros [plan Hpl]. exists (l_port l, plan). by rewrite elem_of_map_to_list. }
    rewrite <- Hk. destruct (pl !! l_port l); cbn [is_some]; split; try done.
    - intros _. destruct (proj1 Hdom ltac:(eauto)) as [[? ?]|]; done.
    - intros Hk'. by destruct (proj2 Hdom ltac:(by right)). }
  destruct (l_protocol l); rewrite ?Hp; split; try tauto; intros [|]; done.
Qed.

(** A file's data plane, once built and started, is in the state the
    passes keep: no socket waits for its loop, every loop reads its port's
    plan, and live are exactly the endpoints of the UDP listeners and of the
    TCP listeners on a planned port. *)
Theorem started_serves_file (os : nat -> Endpoint -> option (list Z)) (ls : list ListenerConfig) (http2 : bool) (dp : DataPlane)
  (Hnew : DataPlane_new os ls http2 = Ok dp) :
  dp_ok (start dp)
  /\ (forall e, endpoint_alive (start dp) e = true <-> exists l, l ∈ ls /\ Endpoint_of l = e
        /\ (l_protocol l = UDP \/ is_Some ((plan_ports ls http2 ∅).1.1 !! l_port l))).
Proof.
  unfold DataPlane_new in Hnew. destruct (plan_ports ls http2 ∅) as [[pls built] [|[q f] errs]]; [|done]. cbn [fst].
  pose proof (store_plans (map_to_list pls) (∅, ∅, 0%nat) (NoDup_fst_map_to_list pls)) as Hst. cbn [fst snd] in Hst.
  destruct Hst as (Hcells & _ & Hdom & _ & _); [split; intros p; intros *; by rewrite lookup_empty|].
  pose proof Hdom as Hdom'. 
  destruct (fold_left store_plan (map_to_list pls) (∅, ∅, 0%nat)) as [[pl ce] nx]. cbn [fst snd] in *.
  setoid_rewrite lookup_empty in Hdom'.
  destruct (open_listeners os pl {| op_tcp := []; op_udp := []; bound_endpoints := ∅ |} ls) as [st|] eqn:Eo; [|done].
  injection Hnew as <-.
  assert (Hoo : opening_ok pl ([] ++ ls) st).
  { eapply open_listeners_ok; [|exact Eo]. split; cbn.
    - intros e. rewrite elem_of_empty. split; [done|]. intros (l & Hl & _). by apply not_elem_of_nil in Hl.
    - intros t Ht. by apply not_elem_of_nil in Ht.
    - intros e. rewrite elem_of_empty. split; [done|]. intros [H|H]; by apply not_elem_of_nil in H. }
  cbn [app] in Hoo. destruct Hoo as [Hb Ht He].
  unfold start. cbn [tcp_listeners udp_listeners]. set (dp0 := set_entries _ [] []).
  assert (Hslots : forall e, listener_tasks dp0 !! e = if decide (e ∈ bound_endpoints st) then Some Pending else None).
  { intros e. unfold dp0. cbn [set_entries listener_tasks]. destruct (decide (e ∈ bound_endpoints st)).
    - by rewrite lookup_gset_to_gmap_Some.
    - rewrite lookup_gset_to_gmap_None. done. }
  destruct (spawn_all_ok tcp_endpoint te_port (fun t => Some (te_plan t)) (op_tcp st) dp0 (list_to_set (map udp_endpoint (op_udp st))))
    as (P1 & O1 & Q1 & A1).
  - intros e Hp. rewrite Hslots in Hp. destruct (decide _) as [Hin|]; [|done]. apply He in Hin as [|]; [by right|left; by apply elem_of_list_to_set].
  - assert (Hempty : filter (fun kv => kv.2 <> Pending) (listener_tasks dp0) = ∅).
    { apply map_empty. intros e. apply map_lookup_filter_None. right. intros s Hs. rewrite Hslots in Hs.
      destruct (decide _); [|done]. injection Hs as <-. cbn. naive_solver. }
    rewrite Hempty. split; cbn [set_tasks listener_tasks finished next_task plans next_cell dp0 set_entries]; try done.
    all: intros *; rewrite lookup_empty; done.
  - intros t Hin. unfold reads_plan, tcp_endpoint. cbn [ep_transport plans dp0 set_entries]. rewrite (Ht t Hin). eauto.
  - set (dp1 := fold_left _ (op_tcp st) dp0) in *.
    destruct (spawn_all_ok udp_endpoint ue_port (fun _ => None) (op_udp st) dp1 ∅) as (P2 & O2 & Q2 & A2).
    + intros e Hp. right. apply P1 in Hp. by apply elem_of_list_to_set in Hp.
    + done.
    + intros u _. done.
    + set (dp2 := fold_left _ (op_udp st) dp1) in *. split.
      * assert (Hsame : filter (fun kv => kv.2 <> Pending) (listener_tasks dp2) = listener_tasks dp2).
        { apply map_filter_id. intros e s Hs. cbn. intros ->. apply P2 in Hs. by apply elem_of_empty in Hs. }
        rewrite Hsame in O2. destruct O2 as [? ? ? ? ?]. by split.
      * intros e. rewrite A2, A1. assert (Hdead : endpoint_alive dp0 e = true <-> e ∈ bound_endpoints st).
        { unfold endpoint_alive. rewrite Hslots. by destruct (decide _). }
        rewrite Hdead, He.
        setoid_rewrite <- (fun l => opens_planned pls pl l Hdom').
        rewrite <- Hb, He. tauto.
Qed.

(** A data plane with nothing bound, as the Kubernetes mode starts it. *)
Definition empty_data_plane : DataPlane := {|
  tcp_listeners := []; udp_listeners := []; listener_tasks := ∅; plans := ∅; terminate_configs := ∅; closing := [];
  tls_failures := ∅; cells := ∅; next_cell := 0; next_task := 0; finished := ∅; cancelled := ∅ |}.

Lemma empty_data_plane_new os : DataPlane_new os [] false = Ok empty_data_plane.
Proof. reflexivity. Qed.

Lemma empty_data_plane_ok : dp_ok empty_data_plane.
Proof.
  split; cbn.
  - intros e H. by rewrite lookup_empty in H.
  - intros e t p plan H. by rewrite lookup_empty in H.
  - intros t H. by apply elem_of_empty in H.
  - split; intros p; intros *; by rewrite lookup_empty.
  - intros e t p plan H. by rewrite lookup_empty in H.
Qed.
End DataPlane.

(** ** At work *)

#[local] Existing Instance toy_rustls.
#[local] Existing Instance toy_fnv.

(** The HTTPS listeners of [shared_port], and DNS on a port of its own. *)
Definition example_listeners : list ListenerConfig :=
  shared_port ++
  [{| l_name := bs "dns"; l_protocol := UDP; l_port := 53; l_target_port := Some 5353; l_hostname := None;
      l_address := Some (bs "10.0.0.1"); l_interface := None; l_tls := None; l_rate_limit := None |}].

Lemma example_servable : servable example_listeners.
Proof.
  intros l Hl. unfold example_listeners, shared_port in Hl. cbn [app] in Hl. rewrite !elem_of_cons in Hl.
  destruct Hl as [->|[->|[->|Hl]]]; [done|done|done|by apply not_elem_of_nil in Hl].
Qed.

(** The system refuses the UDP socket. *)
Definition refuse_udp (n : nat) (e : Endpoint) : option (list Z) :=
  if bool_decide (ep_transport e = Udp) then Some (bs "EACCES") else None.

Definition example_pass : DataPlane * nat * list BindError := pass refuse_udp empty_data_plane example_listeners false ∅.

Lemma pass_binds_what_is_wanted_witness :
  (exists t plan, listener_tasks example_pass.1.1 !! {| ep_address := None; ep_port := 443; ep_transport := Tcp |} = Some (Running t 443 plan))
  /\ exists err, {| be_endpoint := {| ep_address := Some (bs "10.0.0.1"); ep_port := 5353; ep_transport := Udp |};
                    be_error := SystemRefused err |} ∈ example_pass.2.
Proof.
  destruct (pass_binds_what_is_wanted refuse_udp empty_data_plane example_pass.1.1 example_listeners false ∅ example_pass.1.2 example_pass.2
              empty_data_plane_ok example_servable ltac:(intros t Ht; by apply elem_of_empty in Ht)
              ltac:(unfold example_pass; by destruct (pass _ _ _ _ _) as [[? ?] ?])) as (_ & Hlive & Hwant & _).
  split.
  - destruct (Hlive {| ep_address := None; ep_port := 443; ep_transport := Tcp |}) as (t & p & plan & Hd & Hs & _);
      [vm_compute; reflexivity|].
    vm_compute in Hd. injection Hd as <-. eauto.
  - destruct (Hwant {| ep_address := Some (bs "10.0.0.1"); ep_port := 5353; ep_transport := Udp |} 53) as [H|H];
      [vm_compute; reflexivity|by left|vm_compute in H; discriminate|exact H].
Defined.

Lemma started_serves_file_witness :
  endpoint_alive (start (match DataPlane_new (fun _ _ => None) example_listeners false with Ok dp => dp | Err _ => empty_data_plane end))
    {| ep_address := Some (bs "10.0.0.1"); ep_port := 5353; ep_transport := Udp |} = true.
Proof.
  apply (started_serves_file (fun _ _ => None) example_listeners false); [vm_compute; reflexivity|].
  eexists. split; [unfold example_listeners, shared_port; cbn [app]; right; right; left|]. split; [reflexivity|by left].
Defined.
