(* ===== verification/Addresses.v ===== *)
(** * Which addresses a pod binds

    [src/src/dataplane/addresses.rs]: a Gateway's addresses, IP literals and
    network names, matched with the pod's own. Interface enumeration
    ([getifaddrs]) is not modelled: the pod's addresses are an argument. *)

From S2P Require Import Prelude Bytes Net IpText.

(** [str::parse::<Ipv4Addr>]: a longer text cannot be one. *)
Definition parse_ipv4 (s : list Z) : option Z := if (15 <? length s)%nat then None else parse_with read_ipv4_addr s.

(** The digits of [str::parse] for an unsigned integer of at most [max], each
    step checked for overflow. *)
Fixpoint uint_digits (max : Z) (s : list Z) (value : Z) : option Z :=
  match s with
  | [] => Some value
  | c :: t =>
      match to_digit 10 c with
      | None => None
      | Some d => if max <? value * 10 + d then None else uint_digits max t (value * 10 + d)
      end
  end.

Definition parse_uint (max : Z) (s : list Z) : option Z :=
  match s with
  | [] => None
  | [c] => if (c =? 43) || (c =? 45) then None else uint_digits max s 0
  | c :: t => if c =? 43 then uint_digits max t 0 else uint_digits max s 0
  end.

Definition parse_u32 (s : list Z) : option Z := parse_uint U32_MAX s.
Definition parse_u64 (s : list Z) : option Z := parse_uint U64_MAX s.

Definition parse_cidr (cidr : list Z) : option (Z * Z) :=
  '(addr_str, len_str) ← split_once 47 cidr;
  addr ← parse_ipv4 addr_str; len ← parse_u32 len_str; Some (addr, len).

(** [!0u32 << n]. *)
Definition u32_shl_ones (n : Z) : Z := as_u32 (Z.shiftl U32_MAX n).

Definition ip_in_subnet (ip network prefix_len : Z) : bool :=
  if 32 <? prefix_len then false
  else
    let mask := if prefix_len =? 0 then 0 else u32_shl_ones (32 - prefix_len) in
    Z.land ip mask =? Z.land network mask.

Record NetworkCidrs := { net_name : list Z; cidrs : list (list Z) }.

Definition network_names (addresses : list (list Z)) : list (list Z) :=
  List.filter (fun a => negb (is_some (parse_ip_addr a))) addresses.

(** Whether a local address is an IPv4 one in a subnet of the network. *)
Definition on_network (net : NetworkCidrs) (ip : list Z) : bool :=
  match parse_ipv4 ip with
  | Some ip => existsb (fun '(network, len) => ip_in_subnet ip network len) (omap parse_cidr (cidrs net))
  | None => false
  end.

(** The [filter_map] of [resolve_networks]. *)
Definition resolve_network (networks : list NetworkCidrs) (local : list (list Z)) (name : list Z) : option (list Z * list Z) :=
  net ← List.find (fun n => beq (net_name n) name) networks;
  ip ← List.find (on_network net) local;
  Some (name, ip).

(** [collect] into a map: a later entry replaces an earlier one. *)
Definition resolve_networks (addresses : list (list Z)) (networks : list NetworkCidrs) (local : list (list Z))
  : gmap (list Z) (list Z) :=
  fold_left (fun m '(k, v) => <[k := v]> m) (omap (resolve_network networks local) (network_names addresses)) ∅.

Definition unresolved_networks (addresses : list (list Z)) (resolved : gmap (list Z) (list Z)) : list (list Z) :=
  List.filter (fun name => negb (is_some (resolved !! name))) (network_names addresses).

Definition bind_addresses_resolved (addresses : list (list Z)) (resolved : gmap (list Z) (list Z)) (local : list (list Z))
  : option (list (list Z)) :=
  let bindable :=
    List.filter (fun a => bool_decide (a ∈ local) || existsb (fun kv => beq kv.2 a) (map_to_list resolved))
      (map (fun a => default a (resolved !! a)) addresses) in
  if is_nil bindable && negb (is_nil (unresolved_networks addresses resolved)) then None else Some bindable.

Definition bind_addresses (addresses : list (list Z)) (networks : list NetworkCidrs) (local : list (list Z))
  : option (list (list Z)) :=
  bind_addresses_resolved addresses (resolve_networks addresses networks local) local.

(** ** Subnets *)

Lemma testbit_ones_shifted n i : 0 <= n <= 32 -> 0 <= i ->
  Z.testbit (u32_shl_ones n) i = (n <=? i) && (i <? 32).
Proof.
  intros Hn Hi. unfold u32_shl_ones, as_u32, wrap. rewrite <- Z.land_ones by lia. rewrite Z.land_spec.
  rewrite Z.testbit_ones by lia. rewrite Z.shiftl_spec by lia.
  change U32_MAX with (Z.ones 32). rewrite Z.testbit_ones by lia.
  destruct (Z.leb_spec n i), (Z.ltb_spec i 32), (Z.leb_spec 0 (i - n)), (Z.ltb_spec (i - n) 32), (Z.leb_spec 0 i); simpl; lia || done.
Qed.

(** Two addresses are on one network when their first [len] bits agree. *)
Lemma ip_in_subnet_spec ip network len :
  u32 ip -> u32 network -> 0 <= len ->
  ip_in_subnet ip network len = true <-> len <= 32 /\ Z.shiftr ip (32 - len) = Z.shiftr network (32 - len).
Proof.
  intros Hip Hnet Hlen. unfold ip_in_subnet.
  assert (Hhigh : forall a i, u32 a -> 32 <= i -> Z.testbit a i = false).
  { intros a i Ha Hi. rewrite <- (Z.mod_small a (2 ^ 32)) by exact Ha. apply Z.mod_pow2_bits_high. lia. }
  destruct (Z.ltb_spec 32 len); [split; [done|lia]|].
  assert (Hbits : forall a, u32 a -> Z.land a (if len =? 0 then 0 else u32_shl_ones (32 - len)) = Z.shiftl (Z.shiftr a (32 - len)) (32 - len)).
  { intros a Ha. apply Z.bits_inj'. intros i Hi. rewrite Z.land_spec. destruct (Z.eqb_spec len 0) as [->|].
    - rewrite Z.bits_0, andb_false_r. rewrite Z.shiftl_spec by lia. destruct (Z_lt_le_dec i 32).
      + rewrite Z.testbit_neg_r by lia. done.
      + rewrite Z.shiftr_spec by lia. rewrite Hhigh by (done || lia). done.
    - rewrite testbit_ones_shifted by lia. rewrite Z.shiftl_spec by lia. destruct (Z.leb_spec (32 - len) i); cbn [andb].
      + rewrite Z.shiftr_spec by lia. replace (i - (32 - len) + (32 - len)) with i by lia.
        destruct (Z.ltb_spec i 32); [by rewrite andb_true_r|]. rewrite Hhigh by (done || lia). done.
      + rewrite andb_false_r, Z.testbit_neg_r by lia. done. }
  rewrite !Hbits by done. rewrite Z.eqb_eq. split.
  - intros E. split; [lia|]. apply (f_equal (fun z => Z.shiftr z (32 - len))) in E.
    by rewrite !Z.shiftr_shiftl_l, !Z.sub_diag, !Z.shiftl_0_r in E by lia.
  - by intros [_ ->].
Qed.

(** ** What is bound *)

Lemma resolve_networks_Some addresses networks local name ip :
  resolve_networks addresses networks local !! name = Some ip ->
  name ∈ network_names addresses /\ ip ∈ local
  /\ exists net, net ∈ networks /\ net_name net = name /\ on_network net ip = true.
Proof.
  unfold resolve_networks. intros H.
  assert (Hin : (name, ip) ∈ omap (resolve_network networks local) (network_names addresses)).
  { revert H. assert (Hgen : forall l (m : gmap (list Z) (list Z)),
      fold_left (fun m '(k, v) => <[k := v]> m) l m !! name = Some ip -> (name, ip) ∈ l \/ m !! name = Some ip).
    { intros l. induction l as [|[k v] l IH]; intros m; cbn [fold_left]; [by right|].
      intros H%IH. destruct H as [H|H]; [left; by right|]. rewrite lookup_insert_Some in H.
      destruct H as [[-> ->]|[_ H]]; [left; by left|by right]. }
    intros H%Hgen. destruct H as [|H]; [done|by rewrite lookup_empty in H]. }
  apply list_elem_of_omap in Hin as (name' & Hn & Hr). unfold resolve_network in Hr.
  destruct (List.find _ networks) as [net|] eqn:En; [|done]. cbn [mbind option_bind] in Hr.
  destruct (List.find (on_network net) local) as [ip'|] eqn:Ei; [|done]. injection Hr as <- <-.
  apply find_some in En as [En Hb], Ei as [Ei Ho]. apply beq_spec in Hb.
  split; [done|]. split; [by apply list_elem_of_In|]. exists net. split; [by apply list_elem_of_In|]. done.
Qed.

Lemma network_names_spec a addresses : a ∈ network_names addresses <-> a ∈ addresses /\ parse_ip_addr a = None.
Proof.
  unfold network_names. rewrite !list_elem_of_In, filter_In. destruct (parse_ip_addr a); naive_solver.
Qed.

(** The listeners of a Gateway are never exposed on a network it did not
    name. What they bind is an address of the pod, each one named by the
    Gateway, as an IP literal or through a network whose subnets hold it; every
    interface is bound only where the Gateway names no network and no address
    of the pod; and nothing is bound only where a network it names has no
    address on the pod. *)
Theorem bind_addresses_stay_on_named_networks (addresses local : list (list Z)) (networks : list NetworkCidrs) :
  match bind_addresses addresses networks local with
  | Some [] => Forall (fun a => is_some (parse_ip_addr a) = true /\ a ∉ local) addresses
  | Some bound =>
      Forall (fun ip => ip ∈ local
        /\ (ip ∈ addresses
            \/ exists name net, name ∈ addresses /\ parse_ip_addr name = None /\ net ∈ networks /\ net_name net = name
               /\ on_network net ip = true)) bound
  | None => exists name, name ∈ addresses /\ parse_ip_addr name = None /\ resolve_networks addresses networks local !! name = None
  end.
Proof.
  unfold bind_addresses, bind_addresses_resolved. set (resolved := resolve_networks addresses networks local).
  set (bindable := List.filter _ _).
  assert (Hb : forall ip, ip ∈ bindable <-> exists a, a ∈ addresses /\ default a (resolved !! a) = ip
    /\ (ip ∈ local \/ exists name, resolved !! name = Some ip)).
  { intros ip. unfold bindable. rewrite list_elem_of_In, filter_In, in_map_iff, orb_true_iff, existsb_exists.
    setoid_rewrite <- list_elem_of_In. rewrite bool_decide_eq_true. split.
    - intros [(a & <- & Ha) Hc]. exists a. split_and!; [done|done|]. destruct Hc as [|([k v] & Hk & Hv)]; [by left|right].
      apply beq_spec in Hv. simpl in Hv. subst v. exists k. by apply elem_of_map_to_list.
    - intros (a & Ha & <- & Hc). split; [eauto|]. destruct Hc as [|[k Hk]]; [by left|right].
      exists (k, default a (resolved !! a)). split; [by apply elem_of_map_to_list|by apply beq_spec]. }
  destruct (is_nil bindable && negb (is_nil (unresolved_networks addresses resolved))) eqn:E.
  - apply andb_true_iff in E as [_ E]. destruct (unresolved_networks addresses resolved) as [|name rest] eqn:Eu; [done|].
    assert (Hn : name ∈ unresolved_networks addresses resolved) by (rewrite Eu; by left).
    unfold unresolved_networks in Hn. rewrite list_elem_of_In, filter_In, <- list_elem_of_In, network_names_spec in Hn.
    exists name. destruct Hn as [[Ha Hp] Hs]. split_and!; [done|done|]. by destruct (resolved !! name).
  - destruct bindable as [|b0 rest] eqn:Ebind.
    + cbn [is_nil andb] in E. apply Forall_forall. intros a Ha.
      assert (Hlit : is_some (parse_ip_addr a) = true).
      { destruct (parse_ip_addr a) as [i|] eqn:Ep; [done|]. exfalso.
        destruct (resolved !! a) as [ip|] eqn:Er.
        - assert (Hin : ip ∈ (@nil (list Z))); [|by apply not_elem_of_nil in Hin].
          apply Hb. exists a. rewrite Er. eauto.
        - assert (Hin : a ∈ unresolved_networks addresses resolved).
          { unfold unresolved_networks. rewrite list_elem_of_In, filter_In, <- list_elem_of_In, network_names_spec. by rewrite Er. }
          destruct (unresolved_networks addresses resolved); [by apply not_elem_of_nil in Hin|done]. }
      split; [done|]. intros Hloc. assert (Hin : a ∈ (@nil (list Z))); [|by apply not_elem_of_nil in Hin].
      apply Hb. exists a. split_and!; [done| |by left]. destruct (resolved !! a) as [ip|] eqn:Er; [|done].
      apply resolve_networks_Some in Er as [Hn _]. apply network_names_spec in Hn as [_ Hn]. by rewrite Hn in Hlit.
    + rewrite <- Ebind in *. apply Forall_forall. intros ip Hip. apply Hb in Hip as (a & Ha & Hd & Hc).
      split.
      * destruct Hc as [|[name Hn]]; [done|]. by apply resolve_networks_Some in Hn as (_ & ? & _).
      * destruct (resolved !! a) as [ip'|] eqn:Er; simpl in Hd; subst; [|by left]. right.
        apply resolve_networks_Some in Er as (Hn & _ & net & Hnet & Hname & Ho). apply network_names_spec in Hn as [_ Hn].
        exists a, net. done.
Qed.

Example binds_the_named_network :
  bind_addresses [bs "dmz"] [{| net_name := bs "dmz"; cidrs := [bs "10.8.0.0/16"] |}] [bs "192.168.1.4"; bs "10.8.3.4"]
  = Some [bs "10.8.3.4"].
Proof. vm_compute. reflexivity. Qed.
