(* ===== verification/Snapshot.v ===== *)
(** * Snapshots

    [src/src/sync/snapshot.rs] and the keys of [src/src/sync/mod.rs]: the
    configuration the controller sends a data plane, with what the file
    format keeps out of JSON moved to lists the wire carries, and put back by
    the data plane. SHA-256 and the JSON writer are the class [Sealing]. *)

From S2P Require Import Prelude Bytes Config ConfigTable Addresses.

(** ** Keys *)

Record GatewayKey := { gk_namespace : list Z; gk_name : list Z }.

#[export] Instance GatewayKey_eq_dec : EqDecision GatewayKey.
Proof. solve_decision. Defined.

(** [Display], and [FromStr]: [None] is its error. *)
Definition GatewayKey_to_string (k : GatewayKey) : list Z := gk_namespace k ++ 47 :: gk_name k.

Definition GatewayKey_from_str (s : list Z) : option GatewayKey :=
  match split_once 47 s with
  | Some (ns, name) =>
      if negb (is_nil ns) && negb (is_nil name) && negb (is_some (find_byte 47 name))
      then Some {| gk_namespace := ns; gk_name := name |} else None
  | None => None
  end.

Record GatewayRef := { gr_namespace : list Z; gr_name : list Z; gr_uid : list Z; gr_generation : Z }.

Definition GatewayRef_key (g : GatewayRef) : GatewayKey := {| gk_namespace := gr_namespace g; gk_name := gr_name g |}.

Definition MAX_DNS1123_LABEL : nat := 63.

Definition is_dns1123_label (s : list Z) : bool :=
  let alnum c := is_ascii_lowercase c || is_ascii_digit c in
  negb (is_nil s) && (length s <=? MAX_DNS1123_LABEL)%nat
  && forallb (fun c => alnum c || (c =? 45)) s
  && match head s with Some c => alnum c | None => false end
  && match last s with Some c => alnum c | None => false end.

(** ** [String::from_utf8_lossy] *)

(** U+FFFD, which stands for each maximal malformed prefix of a character. *)
Definition REPLACEMENT : list Z := [239; 191; 189].

Fixpoint from_utf8_lossy (l : list Z) : list Z :=
  match l with
  | [] => []
  | b0 :: t0 =>
      if b0 <? 128 then b0 :: from_utf8_lossy t0
      else if (194 <=? b0) && (b0 <=? 223) then
        match t0 with
        | b1 :: t1 => if cont_byte b1 then b0 :: b1 :: from_utf8_lossy t1 else REPLACEMENT ++ from_utf8_lossy t0
        | [] => REPLACEMENT
        end
      else if (224 <=? b0) && (b0 <=? 239) then
        match t0 with
        | b1 :: t1 =>
            if utf8_three b0 b1 then
              match t1 with
              | b2 :: t2 => if cont_byte b2 then b0 :: b1 :: b2 :: from_utf8_lossy t2 else REPLACEMENT ++ from_utf8_lossy t1
              | [] => REPLACEMENT
              end
            else REPLACEMENT ++ from_utf8_lossy t0
        | [] => REPLACEMENT
        end
      else if (240 <=? b0) && (b0 <=? 244) then
        match t0 with
        | b1 :: t1 =>
            if utf8_four b0 b1 then
              match t1 with
              | b2 :: t2 =>
                  if cont_byte b2 then
                    match t2 with
                    | b3 :: t3 =>
                        if cont_byte b3 then b0 :: b1 :: b2 :: b3 :: from_utf8_lossy t3 else REPLACEMENT ++ from_utf8_lossy t2
                    | [] => REPLACEMENT
                    end
                  else REPLACEMENT ++ from_utf8_lossy t1
              | [] => REPLACEMENT
              end
            else REPLACEMENT ++ from_utf8_lossy t0
        | [] => REPLACEMENT
        end
      else REPLACEMENT ++ from_utf8_lossy t0
  end.

(** ** The snapshot *)

Record CertificatePem := { cp_namespace : list Z; cp_name : list Z; cp_cert_pem : list Z; cp_key_pem : list Z }.
Record HeadlessTargetPort := { htp_host : list Z; htp_port : Z; htp_target_port : Z }.
Record ExternalName := { en_host : list Z; en_port : Z; en_targets : list (list Z * Z) }.
Record AppProtocol := { ap_host : list Z; ap_port : Z; ap_app_protocol : list Z }.

Record Backends := {
  b_headless_target_ports : list HeadlessTargetPort;
  b_external_names : list ExternalName;
  b_app_protocols : list AppProtocol;
}.

Definition PROTOCOL : Z := 1.

Record Snapshot := {
  s_protocol : Z;
  version : list Z;
  s_gateway : GatewayRef;
  s_config : PortailConfig;
  certificates : list CertificatePem;
  s_backends : Backends;
  s_networks : list NetworkCidrs;
}.

(** [sort_by] and [sort_unstable]: a sorted list, equal elements being equal. *)
Fixpoint insert_by {A} (cmp : A -> A -> comparison) (x : A) (l : list A) : list A :=
  match l with
  | [] => [x]
  | y :: l' => match cmp x y with Gt => y :: insert_by cmp x l' | _ => x :: l end
  end.
Definition sort_by {A} (cmp : A -> A -> comparison) (l : list A) : list A := foldr (insert_by cmp) [] l.

(** The derived [Ord] of the lists' elements. *)
Fixpoint list_compare {A} (cmp : A -> A -> comparison) (a b : list A) : comparison :=
  match a, b with
  | [], [] => Eq
  | [], _ => Lt
  | _, [] => Gt
  | x :: a, y :: b => then_with (cmp x y) (list_compare cmp a b)
  end.
Definition cert_compare (a b : CertificatePem) : comparison :=
  then_with (bytes_compare (cp_namespace a) (cp_namespace b)) (bytes_compare (cp_name a) (cp_name b)).
Definition headless_compare (a b : HeadlessTargetPort) : comparison :=
  then_with (bytes_compare (htp_host a) (htp_host b))
    (then_with (htp_port a ?= htp_port b) (htp_target_port a ?= htp_target_port b)).
Definition external_compare (a b : ExternalName) : comparison :=
  then_with (bytes_compare (en_host a) (en_host b))
    (then_with (en_port a ?= en_port b)
       (list_compare (fun x y => then_with (bytes_compare x.1 y.1) (x.2 ?= y.2)) (en_targets a) (en_targets b))).
Definition app_compare (a b : AppProtocol) : comparison :=
  then_with (bytes_compare (ap_host a) (ap_host b))
    (then_with (ap_port a ?= ap_port b) (bytes_compare (ap_app_protocol a) (ap_app_protocol b))).
Definition network_compare (a b : NetworkCidrs) : comparison :=
  then_with (bytes_compare (net_name a) (net_name b)) (list_compare bytes_compare (cidrs a) (cidrs b)).

(** Each certificate reference of a configuration changed by [f]. *)
Definition map_refs (f : CertificateRef -> CertificateRef) (cfg : PortailConfig) : PortailConfig :=
  let on_listener l :=
    {| l_name := l_name l; l_protocol := l_protocol l; l_port := l_port l; l_target_port := l_target_port l;
       l_hostname := l_hostname l; l_address := l_address l; l_interface := l_interface l;
       l_tls := (fun t => {| tls_mode := tls_mode t; certificate_refs := map f (certificate_refs t) |}) <$> l_tls l;
       l_rate_limit := l_rate_limit l |} in
  {| gateway := {| g_name := g_name (gateway cfg); listeners := map on_listener (listeners (gateway cfg));
                   g_addresses := g_addresses (gateway cfg) |};
     cfg_http_routes := cfg_http_routes cfg; cfg_tcp_routes := cfg_tcp_routes cfg; cfg_tls_routes := cfg_tls_routes cfg;
     cfg_udp_routes := cfg_udp_routes cfg; performance := performance cfg; endpoint_overrides := endpoint_overrides cfg;
     app_protocol_overrides := app_protocol_overrides cfg; headless_target_ports := headless_target_ports cfg |}.

Definition config_refs (cfg : PortailConfig) : list CertificateRef :=
  flat_map (fun l => match l_tls l with Some t => certificate_refs t | None => [] end) (listeners (gateway cfg)).

Definition set_overrides (cfg : PortailConfig) (eo : gmap (list Z * Z) (list (list Z * Z))) (ap : gmap (list Z * Z) (list Z))
  (ht : gmap (list Z * Z) Z) : PortailConfig :=
  {| gateway := gateway cfg; cfg_http_routes := cfg_http_routes cfg; cfg_tcp_routes := cfg_tcp_routes cfg;
     cfg_tls_routes := cfg_tls_routes cfg; cfg_udp_routes := cfg_udp_routes cfg; performance := performance cfg;
     endpoint_overrides := eo; app_protocol_overrides := ap; headless_target_ports := ht |}.

Definition set_pems (r : CertificateRef) (cert key : option (list Z)) : CertificateRef :=
  {| cert_name := cert_name r; cert_namespace := cert_namespace r; cert_hostname := cert_hostname r;
     cert_pem := cert; key_pem := key |}.

(** [cert_pem.take()] and [key_pem.take()]. *)
Definition take_pems (r : CertificateRef) : CertificateRef := set_pems r None None.

Definition ref_namespace (r : CertificateRef) : list Z := default [] (cert_namespace r).

(** [self.certificates.iter().find(..)]. *)
Definition find_pem (certs : list CertificatePem) (r : CertificateRef) : option CertificatePem :=
  List.find (fun c => beq (cp_namespace c) (ref_namespace r) && beq (cp_name c) (cert_name r)) certs.

(** The body of [from_config]'s inner loop: one certificate per Secret. *)
Definition push_pem (certs : list CertificatePem) (r : CertificateRef) : list CertificatePem :=
  match cert_pem r, key_pem r with
  | Some cert, Some key =>
      if is_some (find_pem certs r) then certs
      else certs ++ [{| cp_namespace := ref_namespace r; cp_name := cert_name r;
                        cp_cert_pem := from_utf8_lossy cert; cp_key_pem := from_utf8_lossy key |}]
  | _, _ => certs
  end.

Class Sealing : Type := {
  sha256_hex : list Z -> list Z;
  snapshot_json : Snapshot -> list Z;
}.

Definition VERSION_HEX_DIGITS : nat := 16.

Definition set_version (s : Snapshot) (v : list Z) : Snapshot :=
  {| s_protocol := s_protocol s; version := v; s_gateway := s_gateway s; s_config := s_config s;
     certificates := certificates s; s_backends := s_backends s; s_networks := s_networks s |}.

Definition seal `{Sealing} (s : Snapshot) : Snapshot :=
  let s := set_version s [] in
  set_version s (take VERSION_HEX_DIGITS (sha256_hex (snapshot_json s))).

Definition from_config `{Sealing} (gateway : GatewayRef) (config : PortailConfig) (networks : list NetworkCidrs) : Snapshot :=
  seal {|
    s_protocol := PROTOCOL; version := []; s_gateway := gateway;
    s_config := set_overrides (map_refs take_pems config) ∅ ∅ ∅;
    certificates := sort_by cert_compare (fold_left push_pem (config_refs config) []);
    s_backends := {|
      b_headless_target_ports := sort_by headless_compare
        (map (fun '((host, port), t) => {| htp_host := host; htp_port := port; htp_target_port := t |})
           (map_to_list (headless_target_ports config)));
      b_external_names := sort_by external_compare
        (map (fun '((host, port), ts) => {| en_host := host; en_port := port; en_targets := ts |})
           (map_to_list (endpoint_overrides config)));
      b_app_protocols := sort_by app_compare
        (map (fun '((host, port), a) => {| ap_host := host; ap_port := port; ap_app_protocol := a |})
           (map_to_list (app_protocol_overrides config))) |};
    s_networks := sort_by network_compare networks |}.

(** The body of [to_config]'s inner loop. *)
Definition restore_pem (certs : list CertificatePem) (r : CertificateRef) : CertificateRef :=
  match find_pem certs r with
  | Some pem => set_pems r (Some (cp_cert_pem pem)) (Some (cp_key_pem pem))
  | None => r
  end.

(** [collect] into a map. *)
Definition collect_map {A V} (key : A -> list Z * Z) (value : A -> V) (l : list A) : gmap (list Z * Z) V :=
  fold_left (fun m a => <[key a := value a]> m) l ∅.

Definition to_config (s : Snapshot) : PortailConfig :=
  let b := s_backends s in
  set_overrides (map_refs (restore_pem (certificates s)) (s_config s))
    (collect_map (fun e => (en_host e, en_port e)) en_targets (b_external_names b))
    (collect_map (fun a => (ap_host a, ap_port a)) ap_app_protocol (b_app_protocols b))
    (collect_map (fun h => (htp_host h, htp_port h)) htp_target_port (b_headless_target_ports b)).

(** ** Lemmas *)

Lemma from_utf8_lossy_valid l : utf8_valid l = true -> from_utf8_lossy l = l.
Proof.
  remember (length l) as n eqn:Hn. assert (Hle : (length l <= n)%nat) by lia. clear Hn. revert l Hle.
  induction n as [|n IH]; intros [|b0 t0] Hle; try done; [simpl in Hle; lia|]. cbn [utf8_valid from_utf8_lossy]. cbn [length] in Hle.
  destruct (b0 <? 128); [intros H; f_equal; apply IH; [lia|done]|].
  destruct t0 as [|b1 t1]; [done|]. cbn [length] in Hle.
  destruct ((194 <=? b0) && (b0 <=? 223)) eqn:E2.
  { intros H. apply andb_true_iff in H as [-> H]. do 2 f_equal. apply IH; [lia|done]. }
  destruct t1 as [|b2 t2]; [done|]. cbn [length] in Hle.
  destruct (utf8_three b0 b1) eqn:E3.
  { intros H. apply andb_true_iff in H as [-> H]. rewrite IH by (lia || done).
    destruct ((224 <=? b0) && (b0 <=? 239)) eqn:Er; [done|]. exfalso. unfold utf8_three in E3. lia. }
  destruct t2 as [|b3 t3]; [done|]. cbn [length] in Hle. intros H.
  apply andb_true_iff in H as [H Hv]. apply andb_true_iff in H as [H H3]. apply andb_true_iff in H as [H4 H2].
  destruct ((224 <=? b0) && (b0 <=? 239)) eqn:Er; [exfalso; unfold utf8_four in H4; lia|].
  destruct ((240 <=? b0) && (b0 <=? 244)) eqn:Es; [|exfalso; unfold utf8_four in H4; lia].
  rewrite H4, H2, H3. rewrite IH by (lia || done). done.
Qed.

Lemma insert_by_perm {A} cmp (x : A) l : insert_by cmp x l ≡ₚ x :: l.
Proof.
  induction l as [|y l IH]; cbn [insert_by]; [done|]. destruct (cmp x y); try done. rewrite IH. constructor.
Qed.

Lemma sort_by_perm {A} cmp (l : list A) : sort_by cmp l ≡ₚ l.
Proof. induction l as [|x l IH]; cbn [sort_by foldr]; [done|]. rewrite insert_by_perm. by constructor. Qed.

(** A map listed, sorted and collected again is the map. *)
Lemma collect_map_lookup {A V} (key : A -> list Z * Z) (value : A -> V) l k v :
  (forall a b, a ∈ l -> b ∈ l -> key a = key b -> value a = value b) ->
  collect_map key value l !! k = Some v <-> exists a, a ∈ l /\ key a = k /\ value a = v.
Proof.
  intros Huniq. unfold collect_map. induction l as [|x l IH] using rev_ind.
  { cbn. rewrite lookup_empty. split; [done|]. intros (a & Ha & _). by apply not_elem_of_nil in Ha. }
  rewrite fold_left_app. cbn [fold_left]. rewrite lookup_insert_Some, IH.
  2: { intros a b Ha Hb. apply Huniq; apply elem_of_app; by left. }
  setoid_rewrite elem_of_app. setoid_rewrite list_elem_of_singleton. split.
  - intros [[Hk Hv]|[Hk (a & Ha & Hka & Hva)]]; [exists x|exists a]; auto.
  - intros (a & [Ha| ->] & Hka & Hva); [|by left].
    destruct (decide (key x = k)) as [E|E]; [left|right; eauto]. split; [done|]. rewrite <- Hva.
    apply Huniq; [apply elem_of_app; right; by apply list_elem_of_singleton|apply elem_of_app; by left|congruence].
Qed.

Lemma collect_sorted_map {A V} (cmp : A -> A -> comparison) (mk : (list Z * Z) * V -> A) (key : A -> list Z * Z) (value : A -> V) (m : gmap (list Z * Z) V) :
  (forall kv, key (mk kv) = kv.1) -> (forall kv, value (mk kv) = kv.2) ->
  collect_map key value (sort_by cmp (map mk (map_to_list m))) = m.
Proof.
  intros Hk Hv. apply map_eq. intros k. apply option_eq. intros v.
  assert (Hin : forall a, a ∈ sort_by cmp (map mk (map_to_list m)) <-> exists kv, mk kv = a /\ m !! kv.1 = Some kv.2).
  { intros a. rewrite sort_by_perm, list_elem_of_In, in_map_iff. setoid_rewrite <- list_elem_of_In.
    split; intros ([k' v'] & E & H); exists (k', v'); by rewrite elem_of_map_to_list in *. }
  rewrite collect_map_lookup.
  - split.
    + intros (a & Ha & <- & <-). apply Hin in Ha as (kv & <- & H). by rewrite Hk, Hv.
    + intros H. exists (mk (k, v)). rewrite Hin, Hk, Hv. split; [|done]. by exists (k, v).
  - intros a b Ha Hb. apply Hin in Ha as (kv & <- & H1), Hb as (kv' & <- & H2). rewrite !Hk, !Hv. congruence.
Qed.

(** ** PEMs *)

(** What the controller puts in a configuration: each reference with its
    Secret's PEMs, which are text, one Secret having one pair. *)
Definition pems_ok (cfg : PortailConfig) : Prop :=
  (forall r, r ∈ config_refs cfg -> exists cert key, cert_pem r = Some cert /\ key_pem r = Some key
     /\ utf8_valid cert = true /\ utf8_valid key = true)
  /\ (forall r r', r ∈ config_refs cfg -> r' ∈ config_refs cfg -> ref_namespace r = ref_namespace r' -> cert_name r = cert_name r' ->
        cert_pem r = cert_pem r' /\ key_pem r = key_pem r').

Definition pem_of (r : CertificateRef) (c : CertificatePem) : Prop :=
  cp_namespace c = ref_namespace r /\ cp_name c = cert_name r.

Lemma find_pem_Some certs r c : find_pem certs r = Some c -> c ∈ certs /\ pem_of r c.
Proof. intros H. apply find_some in H as [Hin H]. bool_simpl. rewrite beq_spec in *. by rewrite list_elem_of_In. Qed.

Lemma find_pem_is_Some certs r : is_Some (find_pem certs r) <-> exists c, c ∈ certs /\ pem_of r c.
Proof.
  split.
  - intros [c Hc]. exists c. by apply find_pem_Some.
  - intros (c & Hin & Hn & Hm). apply list_elem_of_In in Hin. destruct (find_pem certs r) as [c'|] eqn:E; [done|].
    pose proof (find_none _ _ E c Hin) as H. simpl in H. unfold beq in H. by rewrite !bool_decide_true in H.
Qed.

(** Every certificate pushed is some reference's, and each reference with
    PEMs has one. *)
Lemma push_pems_spec rs certs0 :
  let certs := fold_left push_pem rs certs0 in
  (forall c, c ∈ certs -> c ∈ certs0 \/ exists r cert key, r ∈ rs /\ pem_of r c /\ cert_pem r = Some cert /\ key_pem r = Some key
     /\ cp_cert_pem c = from_utf8_lossy cert /\ cp_key_pem c = from_utf8_lossy key)
  /\ (forall c, c ∈ certs0 -> c ∈ certs)
  /\ (forall r, r ∈ rs -> is_Some (cert_pem r) -> is_Some (key_pem r) -> exists c, c ∈ certs /\ pem_of r c).
Proof.
  revert certs0. induction rs as [|r rs IH]; intros certs0; cbn [fold_left].
  { split_and!; [by left|done|]. intros r Hr. by apply not_elem_of_nil in Hr. }
  destruct (IH (push_pem certs0 r)) as (H1 & H2 & H3).
  assert (Hpush : (forall c, c ∈ push_pem certs0 r -> c ∈ certs0 \/ exists cert key, pem_of r c /\ cert_pem r = Some cert /\ key_pem r = Some key
      /\ cp_cert_pem c = from_utf8_lossy cert /\ cp_key_pem c = from_utf8_lossy key)
    /\ (forall c, c ∈ certs0 -> c ∈ push_pem certs0 r)
    /\ (is_Some (cert_pem r) -> is_Some (key_pem r) -> exists c, c ∈ push_pem certs0 r /\ pem_of r c)).
  { unfold push_pem. destruct (cert_pem r) as [cert|], (key_pem r) as [key|]; try (split_and!; [by left|done|intros [] []; done]).
    destruct (find_pem certs0 r) as [c0|] eqn:Ef; cbn [is_some].
    - split_and!; [by left|done|]. intros _ _. apply find_pem_Some in Ef. eauto.
    - split_and!.
      + intros c Hc. apply elem_of_app in Hc as [|Hc]; [by left|]. apply list_elem_of_singleton in Hc as ->. right. by exists cert, key.
      + intros c Hc. apply elem_of_app. by left.
      + intros _ _. eexists. split; [apply elem_of_app; right; by apply list_elem_of_singleton|done]. }
  destruct Hpush as (P1 & P2 & P3). split_and!.
  - intros c Hc. destruct (H1 c Hc) as [Hc'|(r' & cert & key & Hr' & H)].
    + destruct (P1 c Hc') as [|(cert & key & H)]; [by left|right]. exists r, cert, key. split; [by left|done].
    + right. exists r', cert, key. split; [by right|done].
  - auto.
  - intros r' Hr' Hc Hk. apply elem_of_cons in Hr' as [->|Hr']; [|by apply H3].
    destruct (P3 Hc Hk) as (c & Hin & Hp). eauto.
Qed.

Lemma map_refs_compose f g cfg : map_refs f (map_refs g cfg) = map_refs (fun r => f (g r)) cfg.
Proof.
  unfold map_refs. cbn. f_equal. f_equal. rewrite map_map. apply map_ext. intros l. cbn.
  f_equal. destruct (l_tls l) as [t|]; [|done]. cbn. do 2 f_equal. apply map_map.
Qed.

Lemma map_refs_id f cfg : (forall r, r ∈ config_refs cfg -> f r = r) -> map_refs f cfg = cfg.
Proof.
  intros Hf. destruct cfg as [[n ls a] h tc tl u p e ap ht]. unfold map_refs, config_refs in *. cbn in *. f_equal. f_equal.
  induction ls as [|l ls IH]; [done|]. cbn [map flat_map] in *. f_equal.
  - destruct l as [? ? ? ? ? ? ? tls ?]. cbn in *. f_equal. destruct tls as [[m refs]|]; [|done]. cbn in *. do 2 f_equal.
    rewrite <- (map_id refs) at 2. apply map_ext_in. intros r Hr. apply Hf. apply elem_of_app. left. by apply list_elem_of_In.
  - apply IH. intros r Hr. apply Hf. apply elem_of_app. by right.
Qed.

(** C19: A configuration survives the wire: what the data plane makes of a
    snapshot is the configuration the controller sealed, every PEM back in its
    reference and every Service override in its map, where each reference has
    its Secret's PEMs in text. *)
Theorem snapshot_round_trip `{Sealing} (g : GatewayRef) (cfg : PortailConfig) (networks : list NetworkCidrs)
  (Hpems : pems_ok cfg) : to_config (from_config g cfg networks) = cfg.
Proof.
  destruct Hpems as [Hboth Hone]. unfold from_config, seal, to_config.
  cbn [set_version s_config certificates s_backends b_external_names b_app_protocols b_headless_target_ports].
  rewrite (collect_sorted_map external_compare (fun '((host, port), ts) => {| en_host := host; en_port := port; en_targets := ts |}))
    by (by intros [[? ?] ?]).
  rewrite (collect_sorted_map app_compare (fun '((host, port), a) => {| ap_host := host; ap_port := port; ap_app_protocol := a |}))
    by (by intros [[? ?] ?]).
  rewrite (collect_sorted_map headless_compare (fun '((host, port), t) => {| htp_host := host; htp_port := port; htp_target_port := t |}))
    by (by intros [[? ?] ?]).
  set (certs := sort_by cert_compare _).
  assert (E : map_refs (restore_pem certs) (set_overrides (map_refs take_pems cfg) ∅ ∅ ∅)
              = set_overrides (map_refs (restore_pem certs) (map_refs take_pems cfg)) ∅ ∅ ∅) by done.
  rewrite E, map_refs_compose, map_refs_id; [by destruct cfg|].
  intros r Hr. destruct (Hboth r Hr) as (cert & key & Hc & Hk & Vc & Vk).
  destruct (push_pems_spec (config_refs cfg) []) as (H1 & _ & H3).
  assert (Hs : is_Some (find_pem certs (take_pems r))).
  { apply find_pem_is_Some. destruct (H3 r Hr) as (c & Hin & Hp); [by rewrite Hc|by rewrite Hk|].
    exists c. split; [|done]. unfold certs. by rewrite sort_by_perm. }
  destruct Hs as [c Ec]. unfold restore_pem. rewrite Ec. apply find_pem_Some in Ec as [Hin Hp].
  unfold certs in Hin. rewrite sort_by_perm in Hin.
  destruct (H1 c Hin) as [Hn|(r' & cert' & key' & Hr' & Hp' & Hc' & Hk' & -> & ->)]; [by apply not_elem_of_nil in Hn|].
  destruct Hp as [Hns Hnm], Hp' as [Hns' Hnm']. destruct (Hone r r' Hr Hr') as [E1 E2];
    [change (ref_namespace r) with (ref_namespace (take_pems r)); congruence|change (cert_name r) with (cert_name (take_pems r)); congruence|].
  rewrite Hc, Hc' in E1. rewrite Hk, Hk' in E2. injection E1 as <-. injection E2 as <-.
  rewrite !from_utf8_lossy_valid by done. destruct r; cbn in *. by subst.
Qed.

Lemma gateway_key_round_trip k :
  gk_namespace k <> [] -> gk_name k <> [] -> 47 ∉ gk_namespace k -> 47 ∉ gk_name k ->
  GatewayKey_from_str (GatewayKey_to_string k) = Some k.
Proof.
  intros Hns Hn H1 H2. unfold GatewayKey_from_str, GatewayKey_to_string, split_once.
  rewrite find_byte_app_r by (apply Forall_forall; intros x Hx ->; done).
  assert (E : drop (S (length (gk_namespace k))) (gk_namespace k ++ 47 :: gk_name k) = gk_name k).
  { rewrite (app_assoc _ [47] (gk_name k) : _ ++ 47 :: gk_name k = _).
    replace (S _) with (length (gk_namespace k ++ [47])) by (rewrite length_app; simpl; lia). apply drop_app_length. }
  rewrite E, take_app_length.
  rewrite (proj2 (find_byte_None_iff _ _) H2). destruct k as [[|? ?] [|? ?]]; done.
Qed.

(** ** At work *)

Definition pem_ref (name : string) : CertificateRef :=
  {| cert_name := bs name; cert_namespace := Some (bs "prod"); cert_hostname := None;
     cert_pem := Some (bs "CERT"); key_pem := Some (bs "KEY") |}.

Definition sent_config : PortailConfig := {|
  gateway := {| g_name := bs "gw"; g_addresses := [];
    listeners := [{| l_name := bs "https"; l_protocol := HTTPS; l_port := 443; l_target_port := Some 8443; l_hostname := None;
                     l_address := None; l_interface := None;
                     l_tls := Some {| tls_mode := Terminate; certificate_refs := [pem_ref "a"; pem_ref "b"; pem_ref "a"] |};
                     l_rate_limit := None |}] |};
  cfg_http_routes := []; cfg_tcp_routes := []; cfg_tls_routes := []; cfg_udp_routes := [];
  performance := {| udp_session_timeout := 30; udp_max_sessions := None |};
  endpoint_overrides := {[ (bs "svc", 80) := [(bs "ext", 8080)] ]}; app_protocol_overrides := ∅; headless_target_ports := ∅ |}.

Lemma snapshot_round_trip_witness :
  let S0 := {| sha256_hex := fun l => l; snapshot_json := fun s => gr_name (s_gateway s) |} in
  to_config (@from_config S0 {| gr_namespace := bs "prod"; gr_name := bs "gw"; gr_uid := bs "u"; gr_generation := 1 |} sent_config []) = sent_config.
Proof.
  intros S0. apply snapshot_round_trip. split.
  - intros r Hr. exists (bs "CERT"), (bs "KEY"). unfold config_refs in Hr. cbn [sent_config gateway listeners flat_map l_tls certificate_refs app] in Hr.
    rewrite !elem_of_cons in Hr. destruct Hr as [->|[->|[->|Hr]]]; [| | |by apply not_elem_of_nil in Hr]; split_and!; reflexivity.
  - intros r r' Hr Hr' _ _. unfold config_refs in Hr, Hr'. cbn [sent_config gateway listeners flat_map l_tls certificate_refs app] in Hr, Hr'.
    rewrite !elem_of_cons in Hr, Hr'.
    destruct Hr as [->|[->|[->|Hr]]]; [| | |by apply not_elem_of_nil in Hr];
      (destruct Hr' as [->|[->|[->|Hr']]]; [| | |by apply not_elem_of_nil in Hr']); split; reflexivity.
Defined.
