(* ===== verification/Apply.v ===== *)
(** * Applying a snapshot

    [src/src/dataplane/apply.rs]: the [Applier] brings the data plane in line
    with a snapshot, rebuilds and publishes the route table when the
    configuration moved, and reports what is bound. What the environment
    decides during an apply is a record: the binds the system refuses, the
    accept loops that end, the pod's addresses, and the outcome of the table
    build ([Err] is a build that panicked: [to_route_table] itself always
    returns one). The JSON and [Debug] texts that go into the fingerprint are
    the class [ConfigText]. Logs are left out. *)

From S2P Require Import Prelude Bytes Net Routing RouteBuild Health Config ConfigTable ClientHello TlsPlan DataPlane Addresses Snapshot.

(** [serde_json::to_vec] of a configuration, and the [format!]ed lines of its
    override maps and of a bind. *)
Class ConfigText : Type := {
  config_json : PortailConfig -> option (list Z);
  endpoint_line : (list Z * Z) * list (list Z * Z) -> list Z;
  app_protocol_line : (list Z * Z) * list Z -> list Z;
  target_port_line : (list Z * Z) * Z -> list Z;
  bind_line : option (list Z) -> Z -> list Z;
}.

Section Applier.
Context {RE : RegexEngine} {RL : Rustls} {FN : Fnv} {CT : ConfigText}.

(** The bytes [write_sorted] feeds the hasher. *)
Definition write_sorted (items : list (list Z)) : list Z := flat_map (fun item => item ++ [0]) (sort_by bytes_compare items).

Definition data_plane_fingerprint (config : PortailConfig) (binds : list ListenerConfig) : Z :=
  fnv (default [] (config_json config)
       ++ flat_map (fun cr => cert_name cr ++ default [] (cert_pem cr) ++ default [] (key_pem cr)) (config_refs config)
       ++ write_sorted (map endpoint_line (map_to_list (endpoint_overrides config))
                        ++ map app_protocol_line (map_to_list (app_protocol_overrides config))
                        ++ map target_port_line (map_to_list (headless_target_ports config)))
       ++ flat_map (fun b => bind_line (l_address b) (l_port b) ++ [0]) binds).

(** ** What is served *)

Record Served := { sv_config : PortailConfig; sv_bind : option (list (list Z)) }.

Definition with_address (l : ListenerConfig) (a : list Z) : ListenerConfig := {|
  l_name := l_name l; l_protocol := l_protocol l; l_port := l_port l; l_target_port := l_target_port l;
  l_hostname := l_hostname l; l_address := Some a; l_interface := l_interface l; l_tls := l_tls l; l_rate_limit := l_rate_limit l |}.

Definition binds (s : Served) : list ListenerConfig :=
  let ls := listeners (gateway (sv_config s)) in
  match sv_bind s with
  | None => []
  | Some [] => ls
  | Some addresses => flat_map (fun l => map (with_address l) addresses) ls
  end.

Definition endpoint_on (address : option (list Z)) (l : ListenerConfig) : Endpoint :=
  {| ep_address := address; ep_port := bound_port l; ep_transport := Transport_of (l_protocol l) |}.

Definition required_endpoints (ls : list ListenerConfig) (bind_addresses : list (list Z)) : list Endpoint :=
  match bind_addresses with
  | [] => map (endpoint_on None) ls
  | _ => flat_map (fun addr => map (endpoint_on (Some addr)) ls) bind_addresses
  end.

Definition required (s : Served) (dp : DataPlane) : list Endpoint :=
  flat_map (fun l => required_endpoints [l] (default [] (sv_bind s)))
    (List.filter (fun l => negb (is_some (refusal dp l))) (listeners (gateway (sv_config s)))).

(** ** The applier *)

Record Applied := { ap_fingerprint : Z; ap_build_error : option (list Z) }.

Record Published := { p_config : PortailConfig; p_table : RouteTable }.

Record Applier := {
  data_plane : DataPlane;
  routes : RouteTable;
  health : HealthRegistry;
  ready : bool;
  published : option Published;
  last_applied : option Applied;
  dns_epoch : Z;
}.

Record DataPlaneState := { rebuilt : bool; build_error : option (list Z); bind_errors : list BindError }.

(** What the system and the runtime do during one apply. *)
Record Env := {
  refuses : nat -> Endpoint -> option (list Z);
  ends : gset Task;
  local_ips : list (list Z);
  builds : PortailConfig -> result RouteTable (list Z);
}.

Definition set_data_plane (a : Applier) (dp : DataPlane) (rd : bool) : Applier := {|
  data_plane := dp; routes := routes a; health := health a; ready := rd; published := published a;
  last_applied := last_applied a; dns_epoch := dns_epoch a |}.

Definition is_ready (s : Served) (dp : DataPlane) : bool := is_ready_for_endpoints dp (required s dp).

Definition ensure_listeners (env : Env) (http2 : bool) (dp : DataPlane) (binds : list ListenerConfig) : DataPlane * list BindError :=
  let '(dp, _, errors) := pass (refuses env) dp binds http2 (ends env) in (dp, errors).

(** [bring_up] from the table build on: built, stored, published. *)
Definition rebuild (env : Env) (a : Applier) (s : Served) (fp : Z) (errors : list BindError) : Applier * DataPlaneState :=
  let '(a, err) :=
    match builds env (sv_config s) with
    | Ok table =>
        ({| data_plane := data_plane a; routes := table; health := prune (health a) table; ready := ready a;
            published := Some {| p_config := sv_config s; p_table := table |};
            last_applied := last_applied a; dns_epoch := dns_epoch a |}, None)
    | Err e => (a, Some e)
    end in
  ({| data_plane := data_plane a; routes := routes a; health := health a; ready := ready a; published := published a;
      last_applied := Some {| ap_fingerprint := fp; ap_build_error := err |}; dns_epoch := dns_epoch a |},
   {| rebuilt := true; build_error := err; bind_errors := errors |}).

(** [bring_up] from the binds on. *)
Definition rebind (env : Env) (http2 : bool) (a : Applier) (s : Served) (fp : Z) (unchanged : option Applied)
  : Applier * DataPlaneState :=
  let '(dp, errors) := ensure_listeners env http2 (data_plane a) (binds s) in
  let a := set_data_plane a dp (is_ready s dp) in
  match unchanged with
  | Some ap => (a, {| rebuilt := false; build_error := ap_build_error ap; bind_errors := errors |})
  | None => rebuild env a s fp errors
  end.

(** [self.last.clone().filter(..)]. *)
Definition unchanged_since (a : Applier) (fp : Z) : option Applied :=
  match last_applied a with Some ap => if ap_fingerprint ap =? fp then Some ap else None | None => None end.

Definition bring_up (env : Env) (http2 : bool) (a : Applier) (s : Served) : Applier * DataPlaneState :=
  let fp := data_plane_fingerprint (sv_config s) (binds s) in
  let unchanged := unchanged_since a fp in
  if is_ready s (data_plane a) then
    let a := set_data_plane a (data_plane a) true in
    match unchanged with
    | Some ap => (a, {| rebuilt := false; build_error := ap_build_error ap; bind_errors := [] |})
    | None => rebind env http2 a s fp unchanged
    end
  else rebind env http2 a s fp unchanged.

(** ** Reports *)

Inductive ReportError := Refused (r : Refusal) | NotBound (r : BindReason).

Record EndpointReport := {
  er_address : option (list Z);
  er_port : Z;
  er_transport : Transport;
  er_bound : bool;
  er_error : option ReportError;
}.

Record ListenerReport := { lr_name : list Z; lr_endpoints : list EndpointReport }.

Record InstanceReport := {
  applied : list Z;
  apply_error : option (list Z);
  lrs : list ListenerReport;
  interface_ips : list (list Z);
  networks : gmap (list Z) (list Z);
  r_dns_epoch : Z;
  leaving : bool;
}.

Definition endpoint_report (dp : DataPlane) (errors : list BindError) (l : ListenerConfig) (e : Endpoint) : EndpointReport :=
  let refused := refusal dp l in
  let bound := negb (is_some refused) && is_ready_for_endpoints dp [e] in
  {| er_address := ep_address e; er_port := ep_port e; er_transport := ep_transport e; er_bound := bound;
     er_error := match refused with
                 | Some r => Some (Refused r)
                 | None => (fun be => NotBound (be_error be)) <$>
                             List.find (fun be => negb bound && bool_decide (be_endpoint be = e)) errors
                 end |}.

Definition listener_reports (dp : DataPlane) (s : Served) (errors : list BindError) : list ListenerReport :=
  map (fun l => {| lr_name := l_name l;
                   lr_endpoints := match sv_bind s with
                                   | None => []
                                   | Some bind => map (endpoint_report dp errors l) (required_endpoints [l] bind)
                                   end |})
    (listeners (gateway (sv_config s))).

Definition served_of (snapshot : Snapshot) (local : list (list Z)) : Served :=
  let config := to_config snapshot in
  let resolved := resolve_networks (g_addresses (gateway config)) (s_networks snapshot) local in
  {| sv_config := config; sv_bind := bind_addresses_resolved (g_addresses (gateway config)) resolved local |}.

Definition apply (env : Env) (http2 : bool) (a : Applier) (snapshot : Snapshot) : Applier * InstanceReport :=
  let config := to_config snapshot in
  let local := local_ips env in
  let resolved := resolve_networks (g_addresses (gateway config)) (s_networks snapshot) local in
  let served := {| sv_config := config; sv_bind := bind_addresses_resolved (g_addresses (gateway config)) resolved local |} in
  let '(a, state) := bring_up env http2 a served in
  (a, {| applied := version snapshot; apply_error := build_error state;
         lrs := listener_reports (data_plane a) served (bind_errors state);
         interface_ips := local; networks := resolved; r_dns_epoch := dns_epoch a; leaving := false |}).

Definition clear (env : Env) (http2 : bool) (a : Applier) : Applier :=
  let dp := (pass (refuses env) (data_plane a) [] http2 (ends env)).1.1 in
  {| data_plane := dp; routes := RouteTable_new; health := prune (health a) RouteTable_new; ready := false;
     published := None; last_applied := None; dns_epoch := dns_epoch a |}.

End Applier.

Section Ready.
Context {RE : RegexEngine} {RL : Rustls} {FN : Fnv} {CT : ConfigText}.

(** ** What a pass leaves of its ports *)

Lemma pass_state os dp ls http2 ts dp' n errs :
  dp_ok dp -> spawned dp ts -> pass os dp ls http2 ts = (dp', n, errs) ->
  (forall p, port_serves dp' p = match (plan_ports ls http2 (terminate_configs dp)).1.1 !! p with
                                 | Some plan => serves plan
                                 | None => false
                                 end)
  /\ terminate_configs dp' = (plan_ports ls http2 (terminate_configs dp)).1.2.
Proof.
  intros Hok Hts Hpass.
  pose proof (publish_plans_spec (finish (close_unwanted dp ls).1 ts) ls http2
                (ok_cells _ (finish_ok _ ts (close_unwanted_ok dp ls Hok) Hts))) as Hpub.
  change (terminate_configs (finish (close_unwanted dp ls).1 ts)) with (terminate_configs dp) in Hpub.
  destruct Hpub as (_ & _ & _ & _ & _ & Hdom & Hload & _ & Hterm).
  unfold pass, add_tcp_listeners in Hpass. cbv zeta in Hpass.
  rewrite (surjective_pairing (publish_plans (finish (close_unwanted dp ls).1 ts) ls http2)) in Hpass.
  set (dp1 := (publish_plans (finish (close_unwanted dp ls).1 ts) ls http2).1) in *.
  rewrite (surjective_pairing (close_where dp1 _)) in Hpass. set (cw := close_where dp1 _) in *.
  assert (Hsame : forall ls' st, plans (bound (fold_left (bind_listener os (desired_endpoints ls)) ls' st)) = plans (bound st)
    /\ cells (bound (fold_left (bind_listener os (desired_endpoints ls)) ls' st)) = cells (bound st)
    /\ terminate_configs (bound (fold_left (bind_listener os (desired_endpoints ls)) ls' st)) = terminate_configs (bound st)).
  { intros ls'. induction ls' as [|l ls' IH]; intros st; [done|]. cbn [fold_left].
    destruct (IH (bind_listener os (desired_endpoints ls) st l)) as (-> & -> & ->). unfold bind_listener.
    destruct (bind_plan (bound st) l); [|done]. destruct (_ || _); [done|]. by destruct (os _ _). }
  injection Hpass as <- _ _. set (st0 := {| bound := _ |}). destruct (Hsame ls st0) as (Hp & Hc & Ht). split.
  - intros p. rewrite (port_serves_same _ dp1) by done. unfold port_serves.
    destruct ((plan_ports ls http2 (terminate_configs dp)).1.1 !! p) as [plan|] eqn:E.
    + destruct (Hload p plan E) as (c & -> & ->). done.
    + destruct (plans dp1 !! p) eqn:Ep; [|done]. destruct (proj1 (Hdom p) ltac:(eauto)). congruence.
  - by rewrite Ht, <- Hterm.
Qed.

Lemma passes_through_of es :
  passes_through (plan_of es) = existsb (fun e => bool_decide (e.2 = KindPassthrough)) es.
Proof.
  unfold plan_of. induction es as [|e es IH] using rev_ind; [done|].
  rewrite fold_left_app, existsb_app. cbn [fold_left existsb]. rewrite orb_false_r, <- IH.
  unfold TlsPlan_add. destruct (lowercase <$> e.1) as [h|]; [destruct (strip_prefix WILD h)|]; done.
Qed.

(** One port serves plain connections or TLS, never both, as listener
    validation asks. *)
Definition one_family (ls : list ListenerConfig) : Prop :=
  forall l l', l ∈ ls -> l' ∈ ls -> l_port l = l_port l' ->
    (l_protocol l = HTTP \/ l_protocol l = TCP) -> l_protocol l' <> HTTPS /\ l_protocol l' <> TLS.

(** The port of a listener that is not refused can serve. *)
Lemma unrefused_port_serves ls http2 built0 l :
  servable ls -> one_family ls -> l ∈ ls -> Transport_of (l_protocol l) = Tcp ->
  (l_protocol l = HTTPS -> exists b, (plan_ports ls http2 built0).1.2 !! l_port l = Some b /\ has_cert_of b l = true) ->
  match (plan_ports ls http2 built0).1.1 !! l_port l with Some plan => serves plan = true | None => False end.
Proof.
  intros Hs Hf Hl Ht Hc. destruct (plan_ports ls http2 built0) as [[pls built] errs] eqn:E. cbn [fst snd] in *.
  destruct (plan_ports_lookup _ _ _ (l_port l) _ _ _ E) as [_ ->].
  assert (existsb (planned (l_port l)) ls = true) as ->.
  { apply existsb_exists. exists l. split; [by apply list_elem_of_In|]. by apply servable_planned with ls. }
  set (es := omap (entry_of built (l_port l)) ls).
  assert (Hentry : forall kind, entry_of built (l_port l) l = Some (l_hostname l, kind) -> (l_hostname l, kind) ∈ es).
  { intros kind He. apply list_elem_of_omap. eauto. }
  destruct (l_protocol l) eqn:Ep; try done.
  - assert (Hn : forall x, x ∈ es -> False).
    { intros x Hx. apply list_elem_of_omap in Hx as (l' & Hl' & He). unfold entry_of, listener_kind in He.
      destruct (Z.eqb_spec (l_port l') (l_port l)) as [Hp|]; [|done].
      destruct (Hf l l' Hl Hl' (eq_sym Hp) (or_introl Ep)). destruct (l_protocol l'); done. }
    destruct es as [|x rest]; [done|]. exfalso. apply (Hn x). by left.
  - destruct (Hc eq_refl) as (b & Hb & Hcert).
    pose proof (Hentry KindTerminate ltac:(unfold entry_of, listener_kind; by rewrite Z.eqb_refl, Ep, Hb, Hcert)) as Hin.
    destruct es as [|x rest]; [by apply not_elem_of_nil in Hin|]. cbn [serves]. unfold TlsPlan_serves, set_terminate.
    cbn [terminate]. by rewrite Hb.
  - pose proof (Hentry KindPassthrough ltac:(unfold entry_of, listener_kind; by rewrite Z.eqb_refl, Ep, Hs)) as Hin.
    destruct es as [|x rest] eqn:Ees; [by apply not_elem_of_nil in Hin|]. rewrite <- Ees in *. cbn [serves].
    unfold TlsPlan_serves, set_terminate. cbn [terminate passes_through]. rewrite passes_through_of.
    apply orb_true_iff. right. apply existsb_exists. exists (l_hostname l, KindPassthrough).
    split; [by apply list_elem_of_In|done].
  - assert (Hn : forall x, x ∈ es -> False).
    { intros x Hx. apply list_elem_of_omap in Hx as (l' & Hl' & He). unfold entry_of, listener_kind in He.
      destruct (Z.eqb_spec (l_port l') (l_port l)) as [Hp|]; [|done].
      destruct (Hf l l' Hl Hl' (eq_sym Hp) (or_intror Ep)). destruct (l_protocol l'); done. }
    destruct es as [|x rest]; [done|]. exfalso. apply (Hn x). by left.
Qed.

(** ** What is required is what is bound *)

(** What the controller's conversion and port allocation give: no address of
    a listener's own, and a bound port and transport for each published one. *)
Record listeners_ok (ls : list ListenerConfig) : Prop := {
  lo_servable : servable ls;
  lo_family : one_family ls;
  lo_address l : l ∈ ls -> l_address l = None;
  lo_port l l' : l ∈ ls -> l' ∈ ls -> bound_port l = bound_port l' -> Transport_of (l_protocol l) = Transport_of (l_protocol l') ->
    l_port l = l_port l';
}.

(** A copy of [l] that binds. *)
Definition copy_of (l b : ListenerConfig) : Prop := b = l \/ exists a, b = with_address l a.

Lemma copy_same l b : copy_of l b ->
  l_port b = l_port l /\ l_protocol b = l_protocol l /\ l_tls b = l_tls l /\ bound_port b = bound_port l /\ l_hostname b = l_hostname l
  /\ is_tls_passthrough b = is_tls_passthrough l.
Proof. by intros [->|[a ->]]. Qed.

Lemma binds_copies s b : b ∈ binds s -> exists l, l ∈ listeners (gateway (sv_config s)) /\ copy_of l b.
Proof.
  unfold binds. destruct (sv_bind s) as [[|a as_]|].
  - intros Hb. exists b. split; [done|by left].
  - intros Hb. apply list_elem_of_In, in_flat_map in Hb as (l & Hl & Hb). apply in_map_iff in Hb as (a' & <- & _).
    exists l. split; [by apply list_elem_of_In|right; eauto].
  - intros Hb. by apply not_elem_of_nil in Hb.
Qed.

Lemma required_is_bound s l e :
  listeners_ok (listeners (gateway (sv_config s))) -> sv_bind s <> None ->
  l ∈ listeners (gateway (sv_config s)) -> e ∈ required_endpoints [l] (default [] (sv_bind s)) ->
  exists b, b ∈ binds s /\ copy_of l b /\ Endpoint_of b = e /\ (ep_address e = None \/ ~ wants (binds s) (Endpoint_wildcard e)).
Proof.
  intros Hok Hb Hl He. unfold binds. destruct (sv_bind s) as [[|a as_]|] eqn:Eb; [| |done]; cbn [default required_endpoints] in He.
  - cbn [map] in He. apply list_elem_of_singleton in He as ->. exists l. split_and!; [done|by left| |by left].
    unfold Endpoint_of, endpoint_on. by rewrite (lo_address _ Hok l Hl).
  - apply list_elem_of_In, in_flat_map in He as (a' & Ha & He). cbn [map] in He. destruct He as [<-|[]].
    exists (with_address l a'). split_and!.
    + apply list_elem_of_In, in_flat_map. exists l. split; [by apply list_elem_of_In|]. by apply in_map.
    + right. eauto.
    + done.
    + right. intros (b & Hb' & Hw). apply list_elem_of_In, in_flat_map in Hb' as (l' & _ & Hb'). apply in_map_iff in Hb' as (a'' & <- & _). done.
Qed.

Lemma binds_servable s : servable (listeners (gateway (sv_config s))) -> servable (binds s).
Proof.
  intros Hs b Hb Hp. destruct (binds_copies _ _ Hb) as (l & Hl & Hc). apply copy_same in Hc as (_ & E & _ & _ & _ & ->).
  apply Hs; [done|congruence].
Qed.

Lemma binds_family s : one_family (listeners (gateway (sv_config s))) -> one_family (binds s).
Proof.
  intros Hf b b' Hb Hb' Hp Hpr. destruct (binds_copies _ _ Hb) as (l & Hl & Hc), (binds_copies _ _ Hb') as (l' & Hl' & Hc').
  apply copy_same in Hc as (E1 & E2 & _), Hc' as (E1' & E2' & _). rewrite E2'. apply (Hf l l' Hl Hl'); congruence.
Qed.

Lemma refusal_copy dp l b : copy_of l b -> refusal dp b = refusal dp l.
Proof.
  intros Hc. apply copy_same in Hc as (E1 & E2 & E3 & _). unfold refusal, has_cert_of, listener_refs. by rewrite E1, E2, E3.
Qed.

(** A system that refuses nothing causes no error. *)
Lemma unrefusing_pass os dp ls http2 ts dp' n errs e err :
  (forall n e, os n e = None) -> pass os dp ls http2 ts = (dp', n, errs) ->
  {| be_endpoint := e; be_error := SystemRefused err |} ∉ errs.
Proof.
  intros Hos Hpass. unfold pass, add_tcp_listeners in Hpass. cbv zeta in Hpass.
  rewrite (surjective_pairing (publish_plans (finish (close_unwanted dp ls).1 ts) ls http2)) in Hpass.
  rewrite (surjective_pairing (close_where _ _)) in Hpass. injection Hpass as _ _ <-.
  assert (Hsame : forall desired ls' st, errors (fold_left (bind_listener os desired) ls' st) = errors st).
  { intros desired ls'. induction ls' as [|l ls' IH]; intros st; [done|]. cbn [fold_left]. rewrite IH. unfold bind_listener.
    destruct (bind_plan (bound st) l); [|done]. destruct (_ || _); [done|]. by rewrite Hos. }
  rewrite Hsame. cbn [errors]. unfold plan_bind_errors. rewrite list_elem_of_In, in_flat_map.
  intros (pe & _ & Hin). by apply in_map_iff in Hin as (ep & ? & _).
Qed.

(** After a pass the system did not get in the way of, everything required is
    live. *)
Lemma pass_meets_required os dp http2 s dp' n errs :
  (forall n e, os n e = None) -> dp_ok dp -> listeners_ok (listeners (gateway (sv_config s))) -> sv_bind s <> None ->
  pass os dp (binds s) http2 ∅ = (dp', n, errs) -> is_ready s dp' = true.
Proof.
  intros Hos Hok Hls Hbind Hpass.
  assert (Hts : spawned dp ∅) by (intros t Ht; by apply elem_of_empty in Ht).
  destruct (pass_state _ _ _ _ _ _ _ _ Hok Hts Hpass) as [Hserves Hterm].
  unfold is_ready, is_ready_for_endpoints. apply forallb_forall. intros e He. apply orb_true_iff. left.
  unfold required in He. apply in_flat_map in He as (l & Hl & He). apply filter_In in Hl as [Hl Href].
  apply list_elem_of_In in Hl, He. apply negb_true_iff in Href.
  destruct (required_is_bound s l e Hls Hbind Hl He) as (b & Hb & Hc & Eb & Hw). pose proof (copy_same _ _ Hc) as (Ep & Epr & _ & Ebp & _).
  destruct (pass_correct os dp dp' (binds s) http2 ∅ n errs Hok (binds_servable s (lo_servable _ Hls)) Hts Hpass)
    as (_ & _ & Hwant & _).
  destruct (Hwant e (l_port l)) as [|[err Herr]]; [| |done|].
  - apply desired_Some. split; [|done]. destruct (List.find (fun l => bool_decide (Endpoint_of l = e)) (binds s)) as [b'|] eqn:Ef.
    + apply find_some in Ef as [Hb' Hd]. apply bool_decide_eq_true in Hd. apply list_elem_of_In in Hb'. cbn [fmap option_fmap option_map]. f_equal.
      destruct (binds_copies _ _ Hb') as (l' & Hl' & Hc'). pose proof (copy_same _ _ Hc') as (Ep' & Epr' & _ & Ebp' & _).
      rewrite Ep'. rewrite <- Eb in Hd. unfold Endpoint_of in Hd. injection Hd as _ Hbp Htr.
      apply (lo_port _ Hls); [done|done|congruence|congruence].
    + exfalso. apply list_elem_of_In in Hb. pose proof (find_none _ _ Ef b Hb) as H. simpl in H. by rewrite bool_decide_true in H.
  - destruct (ep_transport e) eqn:Et; [|by left]. right. rewrite <- Eb in Et. unfold Endpoint_of in Et. cbn [ep_transport] in Et.
    rewrite Hserves. rewrite <- Ep.
    pose proof (unrefused_port_serves (binds s) http2 (terminate_configs dp) b (binds_servable s (lo_servable _ Hls))
                  (binds_family s (lo_family _ Hls)) Hb Et) as Hu.
    destruct ((plan_ports (binds s) http2 (terminate_configs dp)).1.1 !! l_port b); [|exfalso]; apply Hu; clear Hu.
    all: intros Hh; rewrite <- Hterm.
    all: rewrite <- (refusal_copy dp' l b Hc) in Href; unfold refusal in Href; rewrite (bool_decide_true _ Hh) in Href; cbn [negb orb] in Href.
    all: destruct (terminate_configs dp' !! l_port b) as [bc|]; [|done]; destruct (has_cert_of bc b) eqn:Ec; [|done]; eauto.
  - exfalso. by apply (unrefusing_pass _ _ _ _ _ _ _ _ e err Hos Hpass).
Qed.

(** The data plane and the flag after each part. *)
Lemma rebuild_dp env a s fp errors :
  data_plane (rebuild env a s fp errors).1 = data_plane a /\ ready (rebuild env a s fp errors).1 = ready a
  /\ bind_errors (rebuild env a s fp errors).2 = errors.
Proof. unfold rebuild. by destruct (builds env (sv_config s)). Qed.

Lemma rebind_dp env http2 a s fp unchanged :
  data_plane (rebind env http2 a s fp unchanged).1 = (ensure_listeners env http2 (data_plane a) (binds s)).1
  /\ ready (rebind env http2 a s fp unchanged).1 = is_ready s (ensure_listeners env http2 (data_plane a) (binds s)).1
  /\ bind_errors (rebind env http2 a s fp unchanged).2 = (ensure_listeners env http2 (data_plane a) (binds s)).2.
Proof.
  unfold rebind. destruct (ensure_listeners env http2 (data_plane a) (binds s)) as [dp errors]. cbn [fst].
  destruct unchanged; [done|]. apply rebuild_dp.
Qed.

(** Either nothing is to be done, or a pass is run. *)
Lemma bring_up_dp env http2 a s :
  ready (bring_up env http2 a s).1 = is_ready s (data_plane (bring_up env http2 a s).1)
  /\ ((data_plane (bring_up env http2 a s).1 = data_plane a /\ is_ready s (data_plane a) = true)
      \/ (data_plane (bring_up env http2 a s).1, bind_errors (bring_up env http2 a s).2)
         = ensure_listeners env http2 (data_plane a) (binds s)).
Proof.
  unfold bring_up. set (fp := data_plane_fingerprint _ _).
  assert (Hre : forall a0 u, data_plane a0 = data_plane a ->
    ready (rebind env http2 a0 s fp u).1 = is_ready s (data_plane (rebind env http2 a0 s fp u).1)
    /\ (data_plane (rebind env http2 a0 s fp u).1, bind_errors (rebind env http2 a0 s fp u).2)
       = ensure_listeners env http2 (data_plane a) (binds s)).
  { intros a0 u E. destruct (rebind_dp env http2 a0 s fp u) as (E1 & E2 & E3). rewrite E1, E2, E3, E.
    split; [done|]. symmetry. apply surjective_pairing. }
  destruct (is_ready s (data_plane a)) eqn:Er.
  - destruct (unchanged_since a fp); cbn [fst data_plane set_data_plane ready]; [by auto|].
    destruct (Hre (set_data_plane a (data_plane a) true) None eq_refl). auto.
  - destruct (Hre a (unchanged_since a fp) eq_refl). auto.
Qed.

End Ready.

(** ** At work *)

#[local] Existing Instance toy_rustls.
#[local] Existing Instance toy_fnv.
#[local] Existing Instance literal_regex.

#[local] Instance toy_text : ConfigText := {|
  config_json := fun c => Some (g_name (gateway c)); endpoint_line := fun _ => []; app_protocol_line := fun _ => [];
  target_port_line := fun _ => []; bind_line := fun a p => default [] a ++ [p] |}.

(** One HTTPS listener with a certificate and one without, on their own ports. *)
Definition ready_config : PortailConfig := {|
  gateway := {| g_name := bs "gw"; g_addresses := [bs "10.0.0.1"];
    listeners := [https_listener "https" "" [secret "any-tls" "" "ANY"];
                  {| l_name := bs "bare"; l_protocol := HTTPS; l_port := 8443; l_target_port := None; l_hostname := None; l_address := None;
                     l_interface := None; l_tls := None; l_rate_limit := None |}] |};
  cfg_http_routes := []; cfg_tcp_routes := []; cfg_tls_routes := []; cfg_udp_routes := [];
  performance := {| udp_session_timeout := 30; udp_max_sessions := None |};
  endpoint_overrides := ∅; app_protocol_overrides := ∅; headless_target_ports := ∅ |}.

Definition ready_snapshot : Snapshot := {|
  s_protocol := PROTOCOL; version := bs "v1"; s_gateway := {| gr_namespace := bs "ns"; gr_name := bs "gw"; gr_uid := []; gr_generation := 1 |};
  s_config := ready_config; certificates := []; s_networks := [];
  s_backends := {| b_headless_target_ports := []; b_external_names := []; b_app_protocols := [] |} |}.

Definition ready_env : Env := {|
  refuses := fun _ _ => None; ends := ∅; local_ips := [bs "10.0.0.1"]; builds := fun _ => Ok RouteTable_new |}.

Definition new_applier : Applier := {|
  data_plane := empty_data_plane; routes := RouteTable_new; health := HealthRegistry_new; ready := false; published := None;
  last_applied := None; dns_epoch := 0 |}.

Lemma ready_listeners_ok : listeners_ok (listeners (gateway (to_config ready_snapshot))).
Proof.
  assert (E : to_config ready_snapshot = ready_config) by (vm_compute; reflexivity). rewrite E.
  assert (Hall : forall l, l ∈ listeners (gateway ready_config) ->
    (l_protocol l = HTTPS /\ l_address l = None) /\ (l_port l = bound_port l)).
  { intros l Hl. unfold ready_config in Hl. cbn [gateway listeners] in Hl. rewrite !elem_of_cons in Hl.
    destruct Hl as [->|[->|Hl]]; [done|done|by apply not_elem_of_nil in Hl]. }
  split.
  - intros l Hl Hp. destruct (Hall l Hl) as [[Hh _] _]. congruence.
  - intros l l' Hl _ _ [Hp|Hp]; destruct (Hall l Hl) as [[Hh _] _]; congruence.
  - intros l Hl. by destruct (Hall l Hl) as [[_ ?] _].
  - intros l l' Hl Hl' Hb _. destruct (Hall l Hl) as [_ ->], (Hall l' Hl') as [_ ->]. done.
Qed.

