(* ===== verification/DnsRefresh.v ===== *)
(** * DNS refresh beside the applier

    [src/src/dataplane/dns_refresh.rs]: the task that re-resolves the applied
    configuration and swaps the route table when the addresses changed, and
    the stores the [Applier] of [src/src/dataplane/apply.rs] makes to the same
    two cells, [routes] and [published]. Each load, store and compare-and-swap
    of a cell is a step, and the two tasks' steps interleave freely. Cells hold
    pointers: a table or a pair, once shared, never changes, and a pointer
    still held is not reused, so allocation always gives a new one.
    [intended], the configuration of the last table the applier stored, is
    there for the statements only. *)

From S2P Require Import Prelude Bytes Net Routing RouteBuild Health Config ConfigTable.

Section DnsRefresh.
Context {RE : RegexEngine} {RS : RegexSyntax} {AH : AddrHash} (keyed_hash : SocketAddr -> Z).

(** [t] is a table [to_route_table] returns for [cfg], whatever the resolver
    answered. *)
Definition made (cfg : PortailConfig) (t : RouteTable) : Prop :=
  exists resolver s s', to_route_table keyed_hash resolver cfg s = (Ok t, s').

(** [Arc<RouteTable>] and [Arc<Published>]. *)
Abbreviation TablePtr := nat.
Abbreviation PairPtr := nat.

Record Shared := {
  tables : gmap TablePtr RouteTable;
  pairs : gmap PairPtr (PortailConfig * TablePtr);
  next : nat;
  routes : TablePtr;
  published : option PairPtr;
  registry : HealthRegistry;
  epoch : Z;
  intended : option PortailConfig;
}.

Inductive SwapOutcome := Unchanged | Swapped | Superseded.

(** ** The operations on the cells *)

(** [routes.store(Arc::new(table))]. *)
Definition store_routes (s : Shared) (t : RouteTable) (cfg : option PortailConfig) : Shared := {|
  tables := <[next s := t]> (tables s); pairs := pairs s; next := S (next s); routes := next s; published := published s;
  registry := registry s; epoch := epoch s; intended := cfg |}.

(** [published.store(Some(Arc::new(Published { config, table })))]. *)
Definition store_published (s : Shared) (cfg : PortailConfig) (t : TablePtr) : Shared := {|
  tables := tables s; pairs := <[next s := (cfg, t)]> (pairs s); next := S (next s); routes := routes s;
  published := Some (next s); registry := registry s; epoch := epoch s; intended := intended s |}.

Definition unpublish (s : Shared) : Shared := {|
  tables := tables s; pairs := pairs s; next := next s; routes := routes s; published := None;
  registry := registry s; epoch := epoch s; intended := intended s |}.

Definition prune_registry (s : Shared) (t : RouteTable) : Shared := {|
  tables := tables s; pairs := pairs s; next := next s; routes := routes s; published := published s;
  registry := prune (registry s) t; epoch := epoch s; intended := intended s |}.

(** [routes.compare_and_swap(&pair.table, built)]: [None] when another table
    was there. *)
Definition cas_routes (s : Shared) (held : TablePtr) (built : RouteTable) : option Shared :=
  if (routes s =? held)%nat then
    Some {| tables := <[next s := built]> (tables s); pairs := pairs s; next := S (next s); routes := next s;
            published := published s; registry := registry s; epoch := epoch s; intended := intended s |}
  else None.

(** [published.compare_and_swap(&Some(pair), Some(..))]. *)
Definition cas_published (s : Shared) (pair : PairPtr) (cfg : PortailConfig) (t : TablePtr) : Shared :=
  if bool_decide (published s = Some pair) then store_published s cfg t else s.

(** What follows a swap: [health.prune(&routes.load())] and [on_swap()]. *)
Definition on_swap (s : Shared) : Shared := {|
  tables := tables s; pairs := pairs s; next := next s; routes := routes s; published := published s;
  registry := match tables s !! routes s with Some t => prune (registry s) t | None => registry s end;
  epoch := epoch s + 1; intended := intended s |}.

(** [built.dns_signature() == pair.table.dns_signature()]. *)
Definition same_addresses (s : Shared) (held : TablePtr) (built : RouteTable) : bool :=
  match tables s !! held with Some t => dns_signature built =? dns_signature t | None => false end.

(** [apply_refresh] with nothing in between its two swaps. *)
Definition apply_refresh (s : Shared) (pair : PairPtr) (built : RouteTable) : Shared * SwapOutcome :=
  match pairs s !! pair with
  | None => (s, Superseded)
  | Some (cfg, held) =>
      if same_addresses s held built then (s, Unchanged)
      else match cas_routes s held built with
           | None => (s, Superseded)
           | Some s' => (cas_published s' pair cfg (next s), Swapped)
           end
  end.

(** ** The two tasks *)

(** Where the applier is, between its stores. *)
Inductive ApplierAt :=
  | ApplierIdle
  | TableStored (cfg : PortailConfig) (t : TablePtr)
  | EmptyStored.

(** Where the refresh task is in its tick. *)
Inductive RefreshAt :=
  | RefreshIdle
  | PairLoaded (pair : PairPtr)
  | TableBuilt (pair : PairPtr) (built : RouteTable)
  | RoutesSwapped (pair : PairPtr) (t : TablePtr)
  | PairSwapped.

Record System := { sh : Shared; applier : ApplierAt; refresh : RefreshAt }.

Inductive step : System -> System -> Prop :=
  (** An apply whose build succeeded. *)
  | apply_store s r cfg t :
      made cfg t ->
      step {| sh := s; applier := ApplierIdle; refresh := r |}
           {| sh := store_routes s t (Some cfg); applier := TableStored cfg (next s); refresh := r |}
  | apply_publish s r cfg n t :
      tables s !! n = Some t ->
      step {| sh := s; applier := TableStored cfg n; refresh := r |}
           {| sh := store_published (prune_registry s t) cfg n; applier := ApplierIdle; refresh := r |}
  (** A clear. *)
  | clear_store s r :
      step {| sh := s; applier := ApplierIdle; refresh := r |}
           {| sh := store_routes s RouteTable_new None; applier := EmptyStored; refresh := r |}
  | clear_publish s r :
      step {| sh := s; applier := EmptyStored; refresh := r |}
           {| sh := unpublish (prune_registry s RouteTable_new); applier := ApplierIdle; refresh := r |}
  (** A tick of the refresh; the cell still empty, it waits for the next. *)
  | tick_load s a pair :
      published s = Some pair ->
      step {| sh := s; applier := a; refresh := RefreshIdle |} {| sh := s; applier := a; refresh := PairLoaded pair |}
  | tick_build s a pair cfg held t :
      pairs s !! pair = Some (cfg, held) -> made cfg t ->
      step {| sh := s; applier := a; refresh := PairLoaded pair |} {| sh := s; applier := a; refresh := TableBuilt pair t |}
  | tick_panicked s a pair :
      step {| sh := s; applier := a; refresh := PairLoaded pair |} {| sh := s; applier := a; refresh := RefreshIdle |}
  | tick_unchanged s a pair cfg held t :
      pairs s !! pair = Some (cfg, held) -> same_addresses s held t = true ->
      step {| sh := s; applier := a; refresh := TableBuilt pair t |} {| sh := s; applier := a; refresh := RefreshIdle |}
  | tick_swap s s' a pair cfg held t :
      pairs s !! pair = Some (cfg, held) -> same_addresses s held t = false -> cas_routes s held t = Some s' ->
      step {| sh := s; applier := a; refresh := TableBuilt pair t |} {| sh := s'; applier := a; refresh := RoutesSwapped pair (next s) |}
  | tick_superseded s a pair cfg held t :
      pairs s !! pair = Some (cfg, held) -> same_addresses s held t = false -> cas_routes s held t = None ->
      step {| sh := s; applier := a; refresh := TableBuilt pair t |} {| sh := s; applier := a; refresh := RefreshIdle |}
  | tick_publish s a pair cfg held n :
      pairs s !! pair = Some (cfg, held) ->
      step {| sh := s; applier := a; refresh := RoutesSwapped pair n |}
           {| sh := cas_published s pair cfg n; applier := a; refresh := PairSwapped |}
  | tick_done s a :
      step {| sh := s; applier := a; refresh := PairSwapped |} {| sh := on_swap s; applier := a; refresh := RefreshIdle |}.

(** [Applier::new]: an empty table, nothing published. *)
Definition initial (h : HealthRegistry) : System := {|
  sh := {| tables := {[0%nat := RouteTable_new]}; pairs := ∅; next := 1; routes := 0; published := None; registry := h;
           epoch := 0; intended := None |};
  applier := ApplierIdle; refresh := RefreshIdle |}.

Definition reachable (h : HealthRegistry) (w : System) : Prop := rtc step (initial h) w.

(** ** The invariant *)

(** The table at [n] is one of [cfg], or the empty one where there is none. *)
Definition serves_config (s : Shared) (n : TablePtr) (cfg : option PortailConfig) : Prop :=
  exists t, tables s !! n = Some t /\ match cfg with Some cfg => made cfg t | None => t = RouteTable_new end.

(** No pair holds the table [n]. *)
Definition unpaired (s : Shared) (n : TablePtr) : Prop := forall q c m, pairs s !! q = Some (c, m) -> m <> n.

Definition applier_ok (w : System) : Prop :=
  match applier w with
  | ApplierIdle =>
      match published (sh w) with
      | None => intended (sh w) = None
      | Some q => exists c n, pairs (sh w) !! q = Some (c, n) /\ intended (sh w) = Some c
          /\ routes (sh w) = match refresh w with RoutesSwapped q' m => if decide (q' = q) then m else n | _ => n end
      end
  | TableStored c n => routes (sh w) = n /\ intended (sh w) = Some c /\ unpaired (sh w) n
  | EmptyStored => unpaired (sh w) (routes (sh w)) /\ intended (sh w) = None
  end.

Definition refresh_ok (w : System) : Prop :=
  match refresh w with
  | RefreshIdle | PairSwapped => True
  | PairLoaded q => is_Some (pairs (sh w) !! q)
  | TableBuilt q t => exists c n, pairs (sh w) !! q = Some (c, n) /\ made c t
  | RoutesSwapped q m => exists c n, pairs (sh w) !! q = Some (c, n) /\ serves_config (sh w) m (Some c)
      /\ unpaired (sh w) m /\ (routes (sh w) = m -> intended (sh w) = Some c)
  end.

(** The table the applier has stored and the one the tick has are two. *)
Definition apart (w : System) : Prop :=
  match applier w, refresh w with
  | TableStored _ _, RoutesSwapped _ m | EmptyStored, RoutesSwapped _ m => routes (sh w) <> m
  | _, _ => True
  end.

Record inv (w : System) : Prop := {
  inv_live : serves_config (sh w) (routes (sh w)) (intended (sh w));
  inv_pairs q c n : pairs (sh w) !! q = Some (c, n) ->
    (q < next (sh w))%nat /\ (n < next (sh w))%nat /\ serves_config (sh w) n (Some c) /\ (routes (sh w) = n -> intended (sh w) = Some c);
  inv_tables n : is_Some (tables (sh w) !! n) -> (n < next (sh w))%nat;
  inv_published q : published (sh w) = Some q -> is_Some (pairs (sh w) !! q);
  inv_applier : applier_ok w;
  inv_refresh : refresh_ok w;
  inv_unique q q' c c' n : pairs (sh w) !! q = Some (c, n) -> pairs (sh w) !! q' = Some (c', n) -> q = q';
  inv_apart : apart w;
}.

Lemma serves_config_insert s s' n cfg t m :
  tables s' = <[m := t]> (tables s) -> tables s !! m = None -> serves_config s n cfg -> serves_config s' n cfg.
Proof.
  intros E Hm (t' & Ht & H). exists t'. split; [|done]. rewrite E, lookup_insert_ne; [done|]. intros ->. congruence.
Qed.

Lemma inv_initial h : inv (initial h).
Proof.
  split; cbn.
  - by exists RouteTable_new.
  - intros q c n H. by rewrite lookup_empty in H.
  - intros n H. rewrite lookup_singleton_is_Some in H. lia.
  - done.
  - done.
  - done.
  - intros q q' c c' n H. by rewrite lookup_empty in H.
  - done.
Qed.

(** A new table behind [routes]: of no pair yet. *)
Lemma inv_store w s' t cfg :
  inv w ->
  tables s' = <[next (sh w) := t]> (tables (sh w)) -> pairs s' = pairs (sh w) -> next s' = S (next (sh w)) ->
  routes s' = next (sh w) -> published s' = published (sh w) -> intended s' = cfg ->
  match cfg with Some c => made c t | None => t = RouteTable_new end ->
  serves_config s' (routes s') (intended s')
  /\ (forall q c n, pairs s' !! q = Some (c, n) -> (q < next s')%nat /\ (n < next s')%nat /\ serves_config s' n (Some c) /\ routes s' <> n)
  /\ (forall n, is_Some (tables s' !! n) -> (n < next s')%nat)
  /\ unpaired s' (routes s') /\ tables (sh w) !! next (sh w) = None.
Proof.
  intros Hinv Et Ep En Er Epub Ei Hcfg.
  assert (Hnone : tables (sh w) !! next (sh w) = None).
  { destruct (tables (sh w) !! next (sh w)) eqn:E; [|done]. pose proof (inv_tables w Hinv (next (sh w)) ltac:(eauto)). lia. }
  assert (Hlt : forall q c n, pairs s' !! q = Some (c, n) -> (q < next (sh w))%nat /\ (n < next (sh w))%nat).
  { intros q c n H. rewrite Ep in H. by destruct (inv_pairs w Hinv _ _ _ H) as (? & ? & _). }
  split_and!.
  - exists t. rewrite Et, Er, Ei, lookup_insert_eq. done.
  - intros q c n H. destruct (Hlt _ _ _ H). rewrite Ep in H. destruct (inv_pairs w Hinv _ _ _ H) as (_ & _ & Hs & _).
    rewrite En, Er. split_and!; [lia|lia| |lia]. by eapply serves_config_insert.
  - intros n. rewrite Et, En, lookup_insert_is_Some. intros [<-|[_ H]]; [lia|]. apply (inv_tables w Hinv) in H. lia.
  - intros q c n H. destruct (Hlt _ _ _ H). rewrite Er. lia.
  - done.
Qed.

Lemma unpaired_fresh s s' q c n m :
  pairs s' = <[q := (c, n)]> (pairs s) -> unpaired s m -> n <> m -> unpaired s' m.
Proof.
  intros E Hu Hne q' c' n'. rewrite E, lookup_insert_Some. intros [[_ [= _ <-]]|[_ H]]; [done|by eapply Hu].
Qed.

(** The tick's own knowledge outlives a new table and a new pair. *)
Lemma refresh_ok_mono r s s' a a' :
  refresh_ok {| sh := s; applier := a; refresh := r |} ->
  (forall q v, pairs s !! q = Some v -> pairs s' !! q = Some v) ->
  (forall n t, tables s !! n = Some t -> tables s' !! n = Some t) ->
  (forall q m, r = RoutesSwapped q m -> unpaired s' m /\ (routes s' = m -> intended s' = intended s /\ routes s = m)) ->
  refresh_ok {| sh := s'; applier := a'; refresh := r |}.
Proof.
  intros Hok Hp Ht Hr. destruct r as [|q|q t|q m|]; cbn in *; try done.
  - destruct Hok as [v Hv]. eauto.
  - destruct Hok as (c & n & H & Hm). eauto.
  - destruct Hok as (c & n & H & (t & Htm & Hm) & _ & Hi). destruct (Hr q m eq_refl) as [Hu Hi']. exists c, n.
    split_and!; [auto| |done|]; [exists t; auto|]. intros E. destruct (Hi' E) as [-> E']. auto.
Qed.

(** A store of a new table by either task, once what it means for the two
    tasks' own positions is known. *)
Lemma inv_new_table w s' t cfg a r :
  inv w ->
  tables s' = <[next (sh w) := t]> (tables (sh w)) -> pairs s' = pairs (sh w) -> next s' = S (next (sh w)) ->
  routes s' = next (sh w) -> published s' = published (sh w) -> intended s' = cfg ->
  match cfg with Some c => made c t | None => t = RouteTable_new end ->
  (unpaired s' (routes s') -> applier_ok {| sh := s'; applier := a; refresh := r |}) ->
  (unpaired s' (routes s') -> serves_config s' (routes s') cfg -> (forall n t, tables (sh w) !! n = Some t -> tables s' !! n = Some t) ->
   refresh_ok {| sh := s'; applier := a; refresh := r |}) ->
  apart {| sh := s'; applier := a; refresh := r |} ->
  inv {| sh := s'; applier := a; refresh := r |}.
Proof.
  intros Hinv Et Ep En Er Epub Ei Hcfg Ha Hr Hap.
  destruct (inv_store w s' t cfg Hinv Et Ep En Er Epub Ei Hcfg) as (Hlive & Hpairs & Htab & Hun & Hnone).
  split; cbn; auto.
  - intros q c n H. destruct (Hpairs q c n H) as (? & ? & ? & ?). split_and!; congruence.
  - intros q H. rewrite Epub in H. rewrite Ep. by apply (inv_published w Hinv).
  - apply Hr; [done|by rewrite <- Ei|]. intros n t' H. rewrite Et, lookup_insert_ne; [done|]. intros <-. congruence.
  - intros q q' c c' n H H'. rewrite Ep in H, H'. by eapply (inv_unique w Hinv).
Qed.

(** A new published pair holding the live table, or one of the tick's. *)
Lemma inv_new_pair w s' c n a r :
  inv w ->
  tables s' = tables (sh w) -> pairs s' = <[next (sh w) := (c, n)]> (pairs (sh w)) -> next s' = S (next (sh w)) ->
  routes s' = routes (sh w) -> published s' = Some (next (sh w)) -> intended s' = intended (sh w) ->
  serves_config (sh w) n (Some c) -> unpaired (sh w) n -> (routes (sh w) = n -> intended (sh w) = Some c) ->
  (pairs s' !! next (sh w) = Some (c, n) -> (forall m, unpaired (sh w) m -> n <> m -> unpaired s' m) ->
   applier_ok {| sh := s'; applier := a; refresh := r |}) ->
  ((forall q v, pairs (sh w) !! q = Some v -> pairs s' !! q = Some v) -> (forall m, unpaired (sh w) m -> n <> m -> unpaired s' m) ->
   refresh_ok {| sh := s'; applier := a; refresh := r |}) ->
  apart {| sh := s'; applier := a; refresh := r |} ->
  inv {| sh := s'; applier := a; refresh := r |}.
Proof.
  intros Hinv Et Ep En Er Epub Ei Hs Hun Hi Ha Hr Hap.
  assert (Hq : forall q v, pairs (sh w) !! q = Some v -> (q < next (sh w))%nat).
  { intros q [c' n'] H. by destruct (inv_pairs w Hinv _ _ _ H). }
  assert (Hmono : forall q v, pairs (sh w) !! q = Some v -> pairs s' !! q = Some v).
  { intros q v H. specialize (Hq q v H). rewrite Ep, lookup_insert_ne; [done|lia]. }
  assert (Hunp : forall m, unpaired (sh w) m -> n <> m -> unpaired s' m) by (intros m; by apply (unpaired_fresh (sh w) s' (next (sh w)) c n)).
  assert (Hserv : forall m x, serves_config (sh w) m x -> serves_config s' m x).
  { intros m x (t & Ht & H). exists t. by rewrite Et. }
  assert (Hn : (n < next (sh w))%nat) by (destruct Hs as (t & Ht & _); apply (inv_tables w Hinv); eauto).
  split; cbn; auto.
  - rewrite Er, Ei. apply Hserv, (inv_live w Hinv).
  - intros q c' n'. rewrite Ep, lookup_insert_Some, En, Er, Ei. intros [[<- [= <- <-]]|[_ H]].
    + split_and!; [lia|lia|by apply Hserv|done].
    + destruct (inv_pairs w Hinv _ _ _ H) as (? & ? & ? & ?). split_and!; [lia|lia|by apply Hserv|done].
  - intros m. rewrite Et, En. intros H. apply (inv_tables w Hinv) in H. lia.
  - rewrite Epub. intros q [= <-]. rewrite Ep, lookup_insert_eq. eauto.
  - apply Ha; [|done]. by rewrite Ep, lookup_insert_eq.
  - intros q q' c1 c2 m. rewrite Ep, !lookup_insert_Some. intros [[Hq1 E1]|[_ H]] [[Hq2 E2]|[_ H']]; simplify_eq; try done.
    + by destruct (Hun _ _ _ H').
    + by destruct (Hun _ _ _ H).
    + by eapply (inv_unique w Hinv).
Qed.

(** A step that leaves the cells alone. *)
Lemma inv_same_cells w s' a r :
  inv w -> tables s' = tables (sh w) -> pairs s' = pairs (sh w) -> next s' = next (sh w) -> routes s' = routes (sh w) ->
  published s' = published (sh w) -> intended s' = intended (sh w) ->
  applier_ok {| sh := s'; applier := a; refresh := r |} -> refresh_ok {| sh := s'; applier := a; refresh := r |} ->
  apart {| sh := s'; applier := a; refresh := r |} -> inv {| sh := s'; applier := a; refresh := r |}.
Proof.
  intros [H1 H2 H3 H4 H5 H6 H7 H8] Et Ep En Er Epub Ei Ha Hr Hap.
  assert (Hserv : forall m x, serves_config (sh w) m x -> serves_config s' m x).
  { intros m x (t & Ht & H). exists t. by rewrite Et. }
  split; cbn; auto; rewrite ?Et, ?Ep, ?En, ?Er, ?Epub, ?Ei; auto.
  intros q c n H. destruct (H2 q c n H) as (? & ? & ? & ?). split_and!; auto.
Qed.

(** The tick's swapped table was allocated before whatever comes next. *)
Lemma swapped_old w q m : inv w -> refresh w = RoutesSwapped q m -> (m < next (sh w))%nat /\ unpaired (sh w) m.
Proof.
  intros Hinv E. pose proof (inv_refresh w Hinv) as H. unfold refresh_ok in H. rewrite E in H.
  destruct H as (c & n & _ & (t & Ht & _) & Hu & _). split; [|done]. apply (inv_tables w Hinv). eauto.
Qed.

(** A store by the applier, whatever the tick is doing. *)
Lemma inv_applier_store s r cfg t a :
  inv {| sh := s; applier := ApplierIdle; refresh := r |} ->
  match cfg with Some c => made c t | None => t = RouteTable_new end ->
  a = match cfg with Some c => TableStored c (next s) | None => EmptyStored end ->
  inv {| sh := store_routes s t cfg; applier := a; refresh := r |}.
Proof.
  intros Hinv Hcfg ->.
  assert (Hm : forall q m, r = RoutesSwapped q m -> (m < next s)%nat /\ unpaired s m)
    by (intros q m ->; by eapply (swapped_old _ q m Hinv)).
  apply (inv_new_table _ _ t cfg _ _ Hinv); try done.
  - intros Hu. by destruct cfg.
  - intros Hu Hs Ht. eapply refresh_ok_mono; [exact (inv_refresh _ Hinv)|done|exact Ht|].
    intros q m Er. destruct (Hm q m Er) as [Hlt Hun]. split; [done|]. cbn. lia.
  - assert (forall q m, r = RoutesSwapped q m -> next s <> m) by (intros q m Er; destruct (Hm q m Er); lia).
    destruct cfg, r; cbn; eauto.
Qed.

Lemma inv_apply_publish s r cfg n t :
  inv {| sh := s; applier := TableStored cfg n; refresh := r |} ->
  inv {| sh := store_published (prune_registry s t) cfg n; applier := ApplierIdle; refresh := r |}.
Proof.
  intros Hinv. pose proof (inv_applier _ Hinv) as (Hr & Hi & Hu). cbn in *.
  pose proof (inv_live _ Hinv) as Hlive. cbn in Hlive. rewrite Hr, Hi in Hlive.
  apply (inv_new_pair _ _ cfg n _ _ Hinv); try done.
  - intros Hp _. cbn in *. exists cfg, n. split_and!; [done|done|]. destruct r as [|q|q x|q m|]; try done.
    case_decide as Eq; [|done]. subst q. destruct (inv_refresh _ Hinv) as (c & n' & H & _). cbn in H.
    destruct (inv_pairs _ Hinv _ _ _ H) as (Hlt & _). cbn in Hlt. lia.
  - intros Hp Hun. eapply refresh_ok_mono; [exact (inv_refresh _ Hinv)|exact Hp|done|].
    intros q m Er. split; [|done]. apply Hun; [by eapply (swapped_old _ q m Hinv)|].
    pose proof (inv_apart _ Hinv) as Ha. unfold apart in Ha. cbn in Ha. rewrite Er in Ha. congruence.
Qed.

Lemma inv_clear_publish s r :
  inv {| sh := s; applier := EmptyStored; refresh := r |} ->
  inv {| sh := unpublish (prune_registry s RouteTable_new); applier := ApplierIdle; refresh := r |}.
Proof.
  intros Hinv. destruct (inv_applier _ Hinv) as [Hu Hi]. destruct Hinv as [H1 H2 H3 H4 H5 H6 H7 H8].
  split; cbn in *; auto; done.
Qed.

(** The tick's swap: only the published pair's table is ever the live one. *)
Lemma held_is_published s a r q c n :
  inv {| sh := s; applier := a; refresh := r |} -> (forall q m, r <> RoutesSwapped q m) ->
  pairs s !! q = Some (c, n) -> routes s = n -> a = ApplierIdle /\ published s = Some q /\ intended s = Some c.
Proof.
  intros Hinv Hr Hq Er. destruct (inv_pairs _ Hinv _ _ _ Hq) as (_ & _ & _ & Hi). specialize (Hi Er). cbn in Hi.
  pose proof (inv_applier _ Hinv) as Ha. unfold applier_ok in Ha. cbn in Ha. destruct a as [|c' n'|].
  - split_and!; [done| |done]. destruct (published s) as [q'|] eqn:Ep; [|congruence].
    destruct Ha as (c' & n' & Hq' & _ & Er'). f_equal. apply (inv_unique _ Hinv q' q c' c n); cbn; [|done].
    destruct r as [| | |q0 m0|]; try congruence. by destruct (Hr q0 m0).
  - destruct Ha as (Er' & _ & Hu). destruct (Hu q c n Hq). congruence.
  - destruct Ha as (Hu & _). destruct (Hu q c n Hq). congruence.
Qed.

Lemma inv_tick_swap s s' a pair cfg held t :
  inv {| sh := s; applier := a; refresh := TableBuilt pair t |} -> pairs s !! pair = Some (cfg, held) ->
  cas_routes s held t = Some s' -> inv {| sh := s'; applier := a; refresh := RoutesSwapped pair (next s) |}.
Proof.
  intros Hinv Hp Hcas. unfold cas_routes in Hcas. destruct (Nat.eqb_spec (routes s) held) as [Er|]; [|done].
  injection Hcas as <-. destruct (held_is_published s a _ pair cfg held Hinv ltac:(done) Hp Er) as (-> & Epub & Ei).
  destruct (inv_refresh _ Hinv) as (c & n & Hp' & Hm). cbn in Hp'. rewrite Hp in Hp'. injection Hp' as <- <-.
  apply (inv_new_table _ _ t (Some cfg) _ _ Hinv); try done.
  - intros Hu. cbn. rewrite Epub. exists cfg, held. split_and!; [done|done|]. by rewrite decide_True.
  - intros Hu Hs Ht. cbn. exists cfg, held. split_and!; done.
Qed.

Lemma inv_tick_publish s a pair cfg held n :
  inv {| sh := s; applier := a; refresh := RoutesSwapped pair n |} -> pairs s !! pair = Some (cfg, held) ->
  inv {| sh := cas_published s pair cfg n; applier := a; refresh := PairSwapped |}.
Proof.
  intros Hinv Hp. destruct (inv_refresh _ Hinv) as (c & m & Hp' & Hs & Hu & Hi). cbn in *.
  rewrite Hp in Hp'. injection Hp' as <- <-. pose proof (inv_applier _ Hinv) as Ha. unfold applier_ok in Ha. cbn in Ha.
  unfold cas_published. case_bool_decide as Epub.
  - apply (inv_new_pair _ _ cfg n _ _ Hinv); try done; [|by destruct a].
    pose proof (inv_apart _ Hinv) as Hap. unfold apart in Hap. cbn in Hap.
    intros Hn Hun. unfold applier_ok. cbn in *. destruct a as [|c' n'|].
    + rewrite Epub in Ha. destruct Ha as (c' & n' & Hq & Hic & Er). rewrite Hp in Hq. injection Hq as <- <-.
      exists cfg, n. split_and!; [done|done|]. by rewrite decide_True in Er.
    + destruct Ha as (Er & Hic & Hup). split_and!; [done|done|]. apply Hun; [done|]. congruence.
    + destruct Ha as [Hup Hic]. split; [|done]. apply Hun; [done|]. congruence.
  - apply (inv_same_cells _ _ _ _ Hinv); try done; [|by destruct a].
    unfold applier_ok. cbn. destruct a as [|c' n'|]; try done. destruct (published s) as [q|] eqn:Eq; [|done].
    destruct Ha as (c' & n' & Hq & Hic & Er). exists c', n'. split_and!; [done|done|].
    rewrite decide_False in Er; [done|congruence].
Qed.

(** A step of the tick that stores nothing and does not end on a swap. *)
Lemma inv_tick w s' r :
  inv w -> (forall q m, r <> RoutesSwapped q m) -> (forall q m, refresh w <> RoutesSwapped q m) ->
  tables s' = tables (sh w) -> pairs s' = pairs (sh w) -> next s' = next (sh w) -> routes s' = routes (sh w) ->
  published s' = published (sh w) -> intended s' = intended (sh w) ->
  refresh_ok {| sh := s'; applier := applier w; refresh := r |} -> inv {| sh := s'; applier := applier w; refresh := r |}.
Proof.
  intros Hinv Hr Hr' Et Ep En Er Epub Ei Hok. apply (inv_same_cells w _ _ _ Hinv); try done.
  - pose proof (inv_applier w Hinv) as Ha. unfold applier_ok, unpaired in *. cbn. rewrite Ep, Er, Epub, Ei.
    destruct (applier w); try done. destruct (published (sh w)) as [q|]; [|done].
    destruct Ha as (c & n & ? & ? & Hroutes). exists c, n. split_and!; [done|done|].
    rewrite Hroutes. destruct (refresh w) eqn:E1, r eqn:E2; try done; (by destruct (Hr _ _ eq_refl)) || (by destruct (Hr' _ _ E1)) || by destruct (Hr' _ _ eq_refl).
  - unfold apart. cbn. destruct (applier w), r; try done; by destruct (Hr _ _ eq_refl).
Qed.

Lemma inv_step w w' : inv w -> step w w' -> inv w'.
Proof.
  intros Hinv Hstep. destruct Hstep.
  - by apply (inv_applier_store s r (Some cfg) t).
  - by apply inv_apply_publish.
  - by apply (inv_applier_store s r None).
  - by apply inv_clear_publish.
  - apply (inv_tick _ _ _ Hinv); try done. by apply (inv_published _ Hinv).
  - apply (inv_tick _ _ _ Hinv); try done. cbn. eauto.
  - by apply (inv_tick _ _ _ Hinv).
  - by apply (inv_tick _ _ _ Hinv).
  - by eapply inv_tick_swap.
  - by apply (inv_tick _ _ _ Hinv).
  - by eapply inv_tick_publish.
  - by apply (inv_tick _ _ _ Hinv).
Qed.

Lemma reachable_inv h w : reachable h w -> inv w.
Proof. intros H. eapply (rtc_ind_r inv); [apply inv_initial|intros; by eapply inv_step|exact H]. Qed.

(** Whatever the interleaving of applies, clears and DNS refreshes, the
    live table is one built from the configuration the applier stored last,
    or the empty table after a clear: a refresh that was resolving an older
    configuration never puts it back. *)
Theorem refresh_never_brings_back_config (h : HealthRegistry) (w : System) (Hw : reachable h w) :
  exists t, tables (sh w) !! routes (sh w) = Some t
    /\ match intended (sh w) with Some cfg => made cfg t | None => t = RouteTable_new end.
Proof. exact (inv_live w (reachable_inv h w Hw)). Qed.

(** The refresh is never shut out. Between applies, the published pair
    holds the live table and the configuration last stored, so a tick that
    re-resolves it is not taken for superseded: either the addresses are those
    of the live table, or its table goes live, is the one the next tick
    compares against, and the health of the backends that left is dropped. *)
Theorem refresh_lands_between_applies (h : HealthRegistry) (s : Shared) (q : PairPtr) (t : RouteTable)
  (Hw : reachable h {| sh := s; applier := ApplierIdle; refresh := RefreshIdle |}) (Hq : published s = Some q) :
  exists cfg, pairs s !! q = Some (cfg, routes s) /\ intended s = Some cfg /\
    (made cfg t ->
     exists s' outcome, apply_refresh s q t = (s', outcome)
       /\ rtc step {| sh := s; applier := ApplierIdle; refresh := RefreshIdle |}
            {| sh := match outcome with Swapped => on_swap s' | _ => s' end; applier := ApplierIdle; refresh := RefreshIdle |}
       /\ match outcome with
          | Unchanged => s' = s /\ exists live, tables s !! routes s = Some live /\ dns_signature t = dns_signature live
          | Swapped => tables s' !! routes s' = Some t /\ (q' ← published s'; pairs s' !! q') = Some (cfg, routes s')
              /\ registry (on_swap s') = prune (registry s) t /\ epoch (on_swap s') = epoch s + 1
          | Superseded => False
          end).
Proof.
  pose proof (reachable_inv h _ Hw) as Hinv. pose proof (inv_applier _ Hinv) as Ha. cbn in Ha. rewrite Hq in Ha.
  destruct Ha as (cfg & n & Hp & Hi & <-). exists cfg. split_and!; [done|done|]. intros Hm.
  pose proof (inv_live _ Hinv) as (live & Hlive & _). cbn in Hlive.
  assert (Hload : rtc step {| sh := s; applier := ApplierIdle; refresh := RefreshIdle |}
                    {| sh := s; applier := ApplierIdle; refresh := TableBuilt q t |}).
  { eapply rtc_l; [by apply tick_load|]. apply rtc_once. by eapply tick_build. }
  unfold apply_refresh. rewrite Hp. destruct (same_addresses s (routes s) t) eqn:Esame.
  - exists s, Unchanged. split_and!; [done| |done|].
    + eapply rtc_r; [exact Hload|]. by eapply tick_unchanged.
    + exists live. split; [done|]. unfold same_addresses in Esame. rewrite Hlive in Esame. by apply Z.eqb_eq.
  - destruct (cas_routes s (routes s) t) as [s'|] eqn:Ecas; [|unfold cas_routes in Ecas; by rewrite Nat.eqb_refl in Ecas].
    exists (cas_published s' q cfg (next s)), Swapped. split; [done|].
    assert (Hrun : rtc step {| sh := s; applier := ApplierIdle; refresh := RefreshIdle |}
      {| sh := on_swap (cas_published s' q cfg (next s)); applier := ApplierIdle; refresh := RefreshIdle |}).
    { etrans; [exact Hload|]. eapply rtc_l; [by eapply tick_swap|].
      assert (Hp' : pairs s' !! q = Some (cfg, routes s)).
      { unfold cas_routes in Ecas. rewrite Nat.eqb_refl in Ecas. by injection Ecas as <-. }
      eapply rtc_l; [by eapply tick_publish|]. apply rtc_once, tick_done. }
    split; [exact Hrun|]. unfold cas_routes in Ecas. rewrite Nat.eqb_refl in Ecas. injection Ecas as <-.
    unfold cas_published. cbn [published]. rewrite bool_decide_true by done. cbn. rewrite !lookup_insert_eq. done.
Qed.
End DnsRefresh.

(** ** At work *)

#[local] Existing Instance literal_regex.
#[local] Existing Instance literal_syntax.

Definition sum_hash (a : SocketAddr) : Z := match a with SocketV4 ip port => as_u64 (ip + port) | SocketV6 ip port _ _ => as_u64 (ip + port) end.

Definition toy_hash : AddrHash.
Proof. refine {| backend_addr_hash := sum_hash |}. intros [ip port|ip port f z]; unfold u64, sum_hash, as_u64; apply (wrap_bound 64); lia. Defined.
#[local] Existing Instance toy_hash.

(** Every name resolves to the one address [ip]. *)
Definition resolves_to (ip : Z) : nat -> Resolver := fun _ => {| to_socket_addrs := fun _ port => Some [SocketV4 ip port] |}.

Definition resolved (cfg : PortailConfig) (ip : Z) : RouteTable :=
  match to_route_table (fun _ => 0) (resolves_to ip) cfg start_state with (Ok t, _) => t | _ => RouteTable_new end.

Definition no_routes_config : PortailConfig := {|
  gateway := gateway sample_config; cfg_http_routes := []; cfg_tcp_routes := []; cfg_tls_routes := []; cfg_udp_routes := [];
  performance := performance sample_config; endpoint_overrides := ∅; app_protocol_overrides := ∅; headless_target_ports := ∅ |}.

Lemma made_by (cfg : PortailConfig) (ip : Z) :
  match (to_route_table (fun _ => 0) (resolves_to ip) cfg start_state).1 with Ok _ => true | _ => false end = true -> made (fun _ => 0) cfg (resolved cfg ip).
Proof.
  unfold made, resolved. intros H. exists (resolves_to ip), start_state.
  destruct (to_route_table (fun _ => 0) (resolves_to ip) cfg start_state) as [[t|e] s']; [by eexists|done].
Qed.

Lemma sample_made : made (fun _ => 0) sample_config (resolved sample_config 167772161).
Proof. apply made_by. vm_compute. reflexivity. Qed.

Lemma no_routes_made : made (fun _ => 0) no_routes_config (resolved no_routes_config 167772161).
Proof. apply made_by. vm_compute. reflexivity. Qed.

Lemma applied_once : exists s, reachable (fun _ => 0) HealthRegistry_new {| sh := s; applier := ApplierIdle; refresh := RefreshIdle |}
  /\ published s = Some 2%nat /\ tables s !! 1%nat = Some (resolved sample_config 167772161) /\ next s = 3%nat.
Proof.
  eexists. split.
  - eapply rtc_l; [apply apply_store, sample_made|]. apply rtc_once. eapply apply_publish. cbn. by rewrite lookup_insert_eq.
  - cbn. rewrite lookup_insert_eq. done.
Qed.

(** A second configuration applied while the tick resolves the first. *)
Lemma refresh_never_brings_back_config_witness : exists s t,
  reachable (fun _ => 0) HealthRegistry_new {| sh := s; applier := TableStored no_routes_config 3; refresh := PairLoaded 2 |}
  /\ tables s !! routes s = Some t /\ made (fun _ => 0) no_routes_config t.
Proof.
  destruct applied_once as (s & Hs & Hp & _ & Hn).
  assert (Hw : reachable (fun _ => 0) HealthRegistry_new
    {| sh := store_routes s (resolved no_routes_config 167772161) (Some no_routes_config); applier := TableStored no_routes_config 3; refresh := PairLoaded 2 |}).
  { eapply rtc_r; [eapply rtc_r; [exact Hs|by apply tick_load]|]. rewrite <- Hn. apply apply_store, no_routes_made. }
  destruct (refresh_never_brings_back_config (fun _ => 0) HealthRegistry_new _ Hw) as (t & Ht & Hm).
  eexists _, t. exact (conj Hw (conj Ht Hm)).
Defined.

Lemma refresh_lands_between_applies_witness : exists s cfg,
  reachable (fun _ => 0) HealthRegistry_new {| sh := s; applier := ApplierIdle; refresh := RefreshIdle |}
  /\ pairs s !! 2%nat = Some (cfg, routes s) /\ intended s = Some cfg.
Proof.
  destruct applied_once as (s & Hs & Hp & _ & Hn).
  destruct (refresh_lands_between_applies (fun _ => 0) HealthRegistry_new s 2 (resolved sample_config 167772162) Hs Hp) as (cfg & H & Hi & _).
  exists s, cfg. exact (conj Hs (conj H Hi)).
Defined.
