(* ===== verification/UdpWorker.v ===== *)
(** * UDP sessions

    [src/src/proxy/udp_worker.rs]: per-client sessions of a UDP listener, the
    cap they open against, per listener or one budget all listeners share,
    and the cache of what a route-table swap kept. Several workers run in
    parallel over the shared budgets: each load and compare-and-swap of a
    budget, each await and each reply is a step, and the steps of the workers
    interleave freely. What the system answers to a connect or a send, the
    clock and the health reads are arguments of the steps.

    A table is a pointer [TablePtr] and what it holds: the worker compares
    pointers, and keeps the one it compares with allocated, so two tables it
    takes for one are one. The generation is a u64 counted once per swap
    seen, and is taken unbounded. Metrics and log lines are left out, but for
    [full_logged]. *)

From S2P Require Import Prelude Bytes Net Routing RouteBuild Health Selection RequestProcessor Config.

Abbreviation TablePtr := nat.
Abbreviation BudgetPtr := nat.

(** ** Budgets *)

Record SessionBudget := { budget_max : Z; budget_open : Z; budget_shared : bool }.

Definition SessionBudget_new (max : Z) (shared : bool) : SessionBudget :=
  {| budget_max := max; budget_open := 0; budget_shared := shared |}.

Inductive SessionCap := PerListener (max : Z) | Shared (budget : BudgetPtr).

(** [limit_idle] in nanoseconds. *)
Record SessionLimits := { limit_idle : Z; cap : SessionCap }.

Definition UNKNOWN_NOFILE : Z := 1024.

(** The budgets allocated so far are the store a [BudgetPtr] points into. *)
Definition with_nofile (budgets : list SessionBudget) (perf : PerformanceConfig) (nofile_soft : option Z)
  : SessionLimits * list SessionBudget :=
  match udp_max_sessions perf with
  | Some max => ({| limit_idle := udp_session_timeout perf; cap := PerListener max |}, budgets)
  | None =>
      let quarter := default UNKNOWN_NOFILE nofile_soft / 4 in
      ({| limit_idle := udp_session_timeout perf; cap := Shared (length budgets) |},
       budgets ++ [SessionBudget_new (Z.max quarter 1) true])
  end.

(** [SessionLimits::budget] *)
Definition budget (budgets : list SessionBudget) (l : SessionLimits) : BudgetPtr * list SessionBudget :=
  match cap l with
  | PerListener max => (length budgets, budgets ++ [SessionBudget_new max false])
  | Shared b => (b, budgets)
  end.

Definition full (b : SessionBudget) : bool := budget_max b <=? budget_open b.

Definition set_open (b : SessionBudget) (n : Z) : SessionBudget :=
  {| budget_max := budget_max b; budget_open := n; budget_shared := budget_shared b |}.

(** Dropping a [SessionSlot]: [fetch_sub(1)]. *)
Definition drop_slot (budgets : list SessionBudget) (slot : BudgetPtr) : list SessionBudget :=
  alter (fun b => set_open b (as_u64 (budget_open b - 1))) slot budgets.

Definition drop_slots (budgets : list SessionBudget) (slots : list BudgetPtr) : list SessionBudget := fold_left drop_slot slots budgets.

(** ** Sessions *)

Record UdpSession := {
  session_backend : SocketAddr;
  (** [reply_task.is_finished()] *)
  reply_finished : bool;
  last_active : Z;
  session_generation : Z;
  slot : BudgetPtr;
}.

Record Sessions := {
  server_port : Z;
  udp_selector : BackendSelector;
  idle_timeout : Z;
  sessions_budget : BudgetPtr;
  sessions : gmap SocketAddr UdpSession;
  seen : option TablePtr;
  generation : Z;
  full_logged : bool;
}.

Definition set_sessions (s : Sessions) (m : gmap SocketAddr UdpSession) : Sessions := {|
  server_port := server_port s; udp_selector := udp_selector s; idle_timeout := idle_timeout s; sessions_budget := sessions_budget s;
  sessions := m; seen := seen s; generation := generation s; full_logged := full_logged s |}.

Definition set_selector (s : Sessions) (sel : BackendSelector) : Sessions := {|
  server_port := server_port s; udp_selector := sel; idle_timeout := idle_timeout s; sessions_budget := sessions_budget s;
  sessions := sessions s; seen := seen s; generation := generation s; full_logged := full_logged s |}.

Definition set_logged (s : Sessions) (b : bool) : Sessions := {|
  server_port := server_port s; udp_selector := udp_selector s; idle_timeout := idle_timeout s; sessions_budget := sessions_budget s;
  sessions := sessions s; seen := seen s; generation := generation s; full_logged := b |}.

(** What [run_udp_worker] starts with. *)
Definition Sessions_new (port : Z) (l : SessionLimits) (b : BudgetPtr) : Sessions := {|
  server_port := port; udp_selector := {| route_counters := ∅ |}; idle_timeout := limit_idle l; sessions_budget := b;
  sessions := ∅; seen := None; generation := 0; full_logged := false |}.

Section Worker.
Context {RE : RegexEngine} (table_at : TablePtr -> RouteTable).

(** The table this datagram is routed by, a new generation if it was swapped. *)
Definition observe (s : Sessions) (p : TablePtr) : Sessions :=
  if bool_decide (seen s = Some p) then s
  else {| server_port := server_port s; udp_selector := udp_selector s; idle_timeout := idle_timeout s;
          sessions_budget := sessions_budget s; sessions := sessions s; seen := Some p; generation := generation s + 1;
          full_logged := full_logged s |}.

Definition routed (t : RouteTable) (port : Z) (backend : SocketAddr) : bool :=
  match find_udp_backends t port with
  | None => false
  | Some backends => existsb (fun b => (0 <? weight b) && bool_decide (socket_addr b = backend)) backends
  end.

Definition stamp (x : UdpSession) (g : Z) : UdpSession := {|
  session_backend := session_backend x; reply_finished := reply_finished x; last_active := last_active x;
  session_generation := g; slot := slot x |}.

Definition reusable (s : Sessions) (table : RouteTable) (client : SocketAddr) : bool * Sessions :=
  match sessions s !! client with
  | None => (false, s)
  | Some session =>
      if reply_finished session then (false, s)
      else if session_generation session =? generation s then (true, s)
      else if routed table (server_port s) (session_backend session)
      then (true, set_sessions s (<[client := stamp session (generation s)]> (sessions s)))
      else (false, s)
  end.

(** A datagram the worker has read and not done with. *)
Record Datagram := { payload : list Z; from : SocketAddr; now : Z; under : TablePtr }.

(** Where the recv loop is. *)
Inductive At :=
  | Receiving
  (** In [send], awaiting the backend socket. *)
  | Sending (d : Datagram)
  (** In [take], having read [open]. *)
  | Taking (d : Datagram) (open : Z)
  (** A slot in hand, before [analyze_udp_request]. *)
  | Routing (d : Datagram) (slot : BudgetPtr)
  (** In [open], awaiting the new socket's first send. *)
  | Opening (d : Datagram) (backend : SocketAddr) (slot : BudgetPtr)
  (** In [reap], the idle sessions dropped. *)
  | Reaped
  | Stopped.

Definition touch (x : UdpSession) (t : Z) : UdpSession := {|
  session_backend := session_backend x; reply_finished := reply_finished x; last_active := t;
  session_generation := session_generation x; slot := slot x |}.

(** [forward] up to the send on the session it reuses, the slot it keeps or
    its first read of the budget, [open]. *)
Definition receive (s : Sessions) (d : Datagram) (open : Z) : Sessions * At :=
  let s := observe s (under d) in
  let '(reuse, s) := reusable s (table_at (under d)) (from d) in
  if reuse then (set_sessions s (alter (fun x => touch x (now d)) (from d) (sessions s)), Sending d)
  else match sessions s !! from d with
       | Some old => (set_sessions s (delete (from d) (sessions s)), Routing d (slot old))
       | None => (s, Taking d open)
       end.

(** One turn of [take]'s loop, the budget holding [b]: a weak
    compare-and-swap may fail with the value unchanged. *)
Definition take_turn (b : SessionBudget) (open : Z) (spurious : bool) : option (result Z Z) :=
  if open <? budget_max b then
    if negb spurious && (budget_open b =? open) then Some (Ok (open + 1)) else Some (Err (budget_open b))
  else None.

(** [analyze_udp_request] with a slot in hand: [None] gives it back. *)
Definition route (s : Sessions) (d : Datagram) (reads : Reads) : Sessions * option SocketAddr :=
  match analyze_udp_request (table_at (under d)) {| rule_counters := ∅; selector := udp_selector s |} (server_port s) reads with
  | (UdpForward backend, st) => (set_selector s (selector st), Some backend)
  | (_, st) => (set_selector s (selector st), None)
  end.

(** [send] once the backend socket refused the datagram. *)
Definition send_error (s : Sessions) (d : Datagram) : Sessions * list BudgetPtr :=
  match sessions s !! from d with
  | None => (s, [])
  | Some session => (set_sessions s (delete (from d) (sessions s)), [slot session])
  end.

(** [open] once its socket is connected and took the datagram. *)
Definition open_session (s : Sessions) (d : Datagram) (backend : SocketAddr) (sl : BudgetPtr) : Sessions :=
  set_sessions s (<[from d := {| session_backend := backend; reply_finished := false; last_active := now d;
                                 session_generation := generation s; slot := sl |}]> (sessions s)).

(** What [reap] keeps at [now]. *)
Definition kept (idle_ms now : Z) (x : UdpSession) : bool :=
  negb (reply_finished x) && (Z.max 0 (now - last_active x) <=? idle_ms).

Definition idle_ms (s : Sessions) : Z := as_u64 (idle_timeout s / 1000000).

(** [reap]'s [retain]; the slots of what it drops. *)
Definition reap (s : Sessions) (now : Z) : Sessions * list BudgetPtr :=
  (set_sessions s (filter (fun kv => kept (idle_ms s) now kv.2 = true) (sessions s)),
   map (fun kv => slot kv.2) (map_to_list (filter (fun kv => ~ kept (idle_ms s) now kv.2 = true) (sessions s)))).

(** [reap]'s look at the budget after it. *)
Definition reap_log (s : Sessions) (b : SessionBudget) : Sessions := if full b then s else set_logged s false.

(** ** The workers side by side *)

Record Worker := { table : Sessions; at_ : At }.

Record System := { budgets : list SessionBudget; workers : list Worker; routes : TablePtr }.

Definition set_worker (y : System) (i : nat) (s : Sessions) (a : At) : System :=
  {| budgets := budgets y; workers := <[i := {| table := s; at_ := a |}]> (workers y); routes := routes y |}.

Definition drop_from (y : System) (slots : list BudgetPtr) : System :=
  {| budgets := drop_slots (budgets y) slots; workers := workers y; routes := routes y |}.

Definition set_budget (y : System) (b : BudgetPtr) (open : Z) : System :=
  {| budgets := alter (fun x => set_open x open) b (budgets y); workers := workers y; routes := routes y |}.

(** A datagram handed to a backend's socket by worker [worker]. *)
Record Sent := { worker : nat; sent_datagram : Datagram; to : SocketAddr }.

Definition at_worker (y : System) (i : nat) (s : Sessions) (a : At) : Prop :=
  workers y !! i = Some {| table := s; at_ := a |}.

Inductive step : System -> option Sent -> System -> Prop :=
  (** An apply or a DNS refresh. *)
  | swap y p : step y None {| budgets := budgets y; workers := workers y; routes := p |}
  (** [run_udp_worker], and its return: the sessions are dropped. *)
  | start_worker y port l b bs' :
      budget (budgets y) l = (b, bs') -> (b < length bs')%nat -> (forall max, cap l = PerListener max -> u64 max) ->
      step y None {| budgets := bs'; workers := workers y ++ [{| table := Sessions_new port l b; at_ := Receiving |}]; routes := routes y |}
  | shutdown y i s :
      at_worker y i s Receiving ->
      step y None (drop_from (set_worker y i (set_sessions s ∅) Stopped) (map (fun kv => slot kv.2) (map_to_list (sessions s))))
  | recv_from y i s d b s' a' :
      at_worker y i s Receiving -> under d = routes y -> budgets y !! sessions_budget s = Some b ->
      receive s d (budget_open b) = (s', a') ->
      step y None (set_worker y i s' a')
  | take_slot y i s d open b new :
      at_worker y i s (Taking d open) -> budgets y !! sessions_budget s = Some b -> take_turn b open false = Some (Ok new) ->
      step y None (set_worker (set_budget y (sessions_budget s) new) i s (Routing d (sessions_budget s)))
  | take_again y i s d open b spurious now_open :
      at_worker y i s (Taking d open) -> budgets y !! sessions_budget s = Some b -> take_turn b open spurious = Some (Err now_open) ->
      step y None (set_worker y i s (Taking d now_open))
  | overflow y i s d open b :
      at_worker y i s (Taking d open) -> budgets y !! sessions_budget s = Some b -> take_turn b open false = None ->
      step y None (set_worker y i (set_logged s true) Receiving)
  | routed_to y i s d sl reads s' backend :
      at_worker y i s (Routing d sl) -> route s d reads = (s', Some backend) ->
      step y None (set_worker y i s' (Opening d backend sl))
  | routed_nowhere y i s d sl reads s' :
      at_worker y i s (Routing d sl) -> route s d reads = (s', None) ->
      step y None (drop_from (set_worker y i s' Receiving) [sl])
  | opened y i s d backend sl :
      at_worker y i s (Opening d backend sl) ->
      step y (Some {| worker := i; sent_datagram := d; to := backend |}) (set_worker y i (open_session s d backend sl) Receiving)
  | open_failed y i s d backend sl :
      at_worker y i s (Opening d backend sl) -> step y None (drop_from (set_worker y i s Receiving) [sl])
  | sent y i s d x :
      at_worker y i s (Sending d) -> sessions s !! from d = Some x ->
      step y (Some {| worker := i; sent_datagram := d; to := session_backend x |}) (set_worker y i s Receiving)
  | send_failed y i s d s' slots :
      at_worker y i s (Sending d) -> send_error s d = (s', slots) ->
      step y None (drop_from (set_worker y i s' Receiving) slots)
  | reap_tick y i s now s' slots :
      at_worker y i s Receiving -> reap s now = (s', slots) ->
      step y None (drop_from (set_worker y i s' Reaped) slots)
  | reap_done y i s b :
      at_worker y i s Reaped -> budgets y !! sessions_budget s = Some b ->
      step y None (set_worker y i (reap_log s b) Receiving)
  (** The reply task of a session, at any time: a reply, or its end. *)
  | replied y i s a client x now :
      at_worker y i s a -> sessions s !! client = Some x ->
      step y None (set_worker y i (set_sessions s (<[client := touch x now]> (sessions s))) a)
  | reply_ended y i s a client x :
      at_worker y i s a -> sessions s !! client = Some x ->
      step y None (set_worker y i (set_sessions s (<[client := {| session_backend := session_backend x; reply_finished := true;
        last_active := last_active x; session_generation := session_generation x; slot := slot x |}]> (sessions s))) a).

Definition system_new (p : TablePtr) (bs : list SessionBudget) : System := {| budgets := bs; workers := []; routes := p |}.

(** Any run from no worker, the process's budget unused. *)
Inductive reachable : System -> Prop :=
  | reach_new p perf nofile :
      (forall n, nofile = Some n -> u64 n) -> reachable (system_new p (with_nofile [] perf nofile).2)
  | reach_step y o y' : reachable y -> step y o y' -> reachable y'.

(** ** The invariant *)

Definition at_slots (a : At) : nat := match a with Routing _ _ | Opening _ _ _ => 1 | _ => 0 end.

(** The slots of [b] a worker holds: one per session, one for the session it
    is opening. *)
Definition held (b : BudgetPtr) (w : Worker) : nat :=
  if (sessions_budget (table w) =? b)%nat then (size (sessions (table w)) + at_slots (at_ w))%nat else 0%nat.

Definition total (y : System) (b : BudgetPtr) : nat := sum_list_with (held b) (workers y).

Definition session_ok (s : Sessions) (x : UdpSession) : Prop :=
  slot x = sessions_budget s /\ session_generation x <= generation s
  /\ (session_generation x = generation s -> exists p, seen s = Some p /\ routed (table_at p) (server_port s) (session_backend x) = true).

Definition at_ok (s : Sessions) (a : At) : Prop :=
  match a with
  | Receiving | Reaped | Stopped => True
  | Sending d => seen s = Some (under d) /\ exists x, sessions s !! from d = Some x /\ session_generation x = generation s
  | Taking d _ => seen s = Some (under d) /\ sessions s !! from d = None
  | Routing d sl => seen s = Some (under d) /\ sessions s !! from d = None /\ sl = sessions_budget s
  | Opening d b sl => seen s = Some (under d) /\ sessions s !! from d = None /\ sl = sessions_budget s
      /\ routed (table_at (under d)) (server_port s) b = true
  end.

Record worker_ok (w : Worker) : Prop := {
  wo_sessions : map_Forall (fun _ x => session_ok (table w) x) (sessions (table w));
  wo_counter : u64 (default 0 (route_counters (udp_selector (table w)) !! server_port (table w)));
  wo_at : at_ok (table w) (at_ w);
}.

Record inv (y : System) : Prop := {
  inv_budgets b bg : budgets y !! b = Some bg ->
    budget_open bg = Z.of_nat (total y b) /\ Z.of_nat (total y b) <= budget_max bg /\ u64 (budget_max bg);
  inv_workers : Forall (fun w => worker_ok w /\ is_Some (budgets y !! sessions_budget (table w))) (workers y);
}.

Lemma sum_insert {A} (f : A -> nat) (l : list A) i x x' :
  l !! i = Some x -> (sum_list_with f (<[i := x']> l) + f x = sum_list_with f l + f x')%nat.
Proof.
  revert i. induction l as [|y l IH]; intros [|i] H; simpl in *; [done|done| |].
  - injection H as ->. lia.
  - specialize (IH i H). lia.
Qed.

Lemma total_worker y i w : workers y !! i = Some w -> (held (sessions_budget (table w)) w <= total y (sessions_budget (table w)))%nat.
Proof. intros H. apply sum_list_with_in, (list_elem_of_lookup_2 _ i). exact H. Qed.

(** A worker moves on, the count of its budget following what it holds. *)
Lemma inv_update y i w w' bg n r :
  inv y -> workers y !! i = Some w -> worker_ok w' -> sessions_budget (table w') = sessions_budget (table w) ->
  budgets y !! sessions_budget (table w) = Some bg ->
  n = budget_open bg - Z.of_nat (held (sessions_budget (table w)) w) + Z.of_nat (held (sessions_budget (table w)) w') ->
  n <= budget_max bg ->
  inv {| budgets := <[sessions_budget (table w) := set_open bg n]> (budgets y); workers := <[i := w']> (workers y); routes := r |}.
Proof.
  intros [Hb Hw] Hi Hok Es Ebg En Hmax. set (b := sessions_budget (table w)) in *. split; cbn [budgets workers].
  - intros b' bg'. rewrite list_lookup_insert_Some. unfold total. cbn [workers].
    pose proof (sum_insert (held b') (workers y) i w w' Hi) as Ht. fold (total y b') in Ht. intros [(<- & <- & _)|[Hne H]].
    + cbn [set_open budget_open budget_max]. destruct (Hb b bg Ebg) as (Eo & Hle & Hu). split_and!; [lia|lia|done].
    + destruct (Hb b' bg' H) as (Eo & Hle & Hu).
      assert (held b' w = 0%nat /\ held b' w' = 0%nat) as [E1 E2].
      { unfold held. rewrite Es. fold b. by destruct (Nat.eqb_spec b b'). }
      split_and!; [lia|lia|done].
  - apply Forall_forall. intros x Hx. apply list_elem_of_lookup in Hx as (j & Hj). rewrite list_lookup_insert_Some in Hj.
    assert (Hsome : forall k, is_Some (budgets y !! k) -> is_Some (<[b := set_open bg n]> (budgets y) !! k)).
    { intros k Hk. apply lookup_lt_is_Some. rewrite length_insert. by apply lookup_lt_is_Some. }
    destruct Hj as [(<- & <- & _)|[_ Hj]].
    + split; [done|]. apply Hsome. rewrite Es. by exists bg.
    + rewrite Forall_forall in Hw. destruct (Hw x) as [? ?]; [by eapply list_elem_of_lookup_2|]. auto.
Qed.

Lemma alter_as_insert {A} (f : A -> A) (l : list A) i x : l !! i = Some x -> alter f i l = <[i := f x]> l.
Proof.
  intros H. apply list_eq. intros j. rewrite list_lookup_alter. case_decide as Ej.
  - subst j. rewrite list_lookup_insert_eq by (by eapply lookup_lt_Some). by rewrite H.
  - by rewrite list_lookup_insert_ne.
Qed.

Lemma insert_same (bs : list SessionBudget) b bg : bs !! b = Some bg -> <[b := set_open bg (budget_open bg)]> bs = bs.
Proof. intros H. replace (set_open bg (budget_open bg)) with bg by (by destruct bg). by apply list_insert_id. Qed.

(** A step that holds as many slots as before. *)
Lemma inv_keep y i w s' a' :
  inv y -> workers y !! i = Some w -> worker_ok {| table := s'; at_ := a' |} -> sessions_budget s' = sessions_budget (table w) ->
  (size (sessions s') + at_slots a' = size (sessions (table w)) + at_slots (at_ w))%nat ->
  inv (set_worker y i s' a').
Proof.
  intros Hinv Hi Hok Es Eh. pose proof Hinv as [Hb Hw]. rewrite Forall_lookup in Hw. destruct (Hw i w Hi) as [_ [bg Ebg]].
  unfold set_worker. rewrite <- (insert_same (budgets y) _ bg Ebg).
  eapply (inv_update y i w); [done|done|done|done|done| |].
  - unfold held. cbn. rewrite Es, Nat.eqb_refl. lia.
  - destruct (Hb _ _ Ebg). lia.
Qed.

Lemma drop_slots_open (bs : list SessionBudget) b bg slots :
  Forall (eq b) slots -> bs !! b = Some bg -> Z.of_nat (length slots) <= budget_open bg -> u64 (budget_open bg) ->
  drop_slots bs slots = <[b := set_open bg (budget_open bg - Z.of_nat (length slots))]> bs.
Proof.
  intros Hall. unfold u64. revert bs bg. induction Hall as [|b' slots <- Hall IH]; intros bs bg Hb Hle Hu; cbn [drop_slots fold_left length] in *.
  - rewrite Z.sub_0_r. by rewrite insert_same.
  - unfold drop_slots in *. cbn. unfold drop_slot at 2.
    assert (E : alter (fun x => set_open x (as_u64 (budget_open x - 1))) b bs = <[b := set_open bg (budget_open bg - 1)]> bs).
    { rewrite (alter_as_insert _ _ _ bg Hb). f_equal. by rewrite as_u64_small by (unfold u64; lia). }
    rewrite E, (IH _ (set_open bg (budget_open bg - 1))).
    + rewrite list_insert_insert_eq. cbn. f_equal. unfold set_open. cbn. f_equal. lia.
    + apply list_lookup_insert_eq. by eapply lookup_lt_Some.
    + cbn. lia.
    + cbn. lia.
Qed.

(** A step that gives slots back. *)
Lemma inv_drop y i w s' a' slots :
  inv y -> workers y !! i = Some w -> worker_ok {| table := s'; at_ := a' |} -> sessions_budget s' = sessions_budget (table w) ->
  Forall (eq (sessions_budget (table w))) slots ->
  (size (sessions s') + at_slots a' + length slots = size (sessions (table w)) + at_slots (at_ w))%nat ->
  inv (drop_from (set_worker y i s' a') slots).
Proof.
  intros Hinv Hi Hok Es Hall Eh. pose proof Hinv as [Hb Hw]. rewrite Forall_lookup in Hw. destruct (Hw i w Hi) as [_ [bg Ebg]].
  destruct (Hb _ _ Ebg) as (Eo & Hle & Hu). pose proof (total_worker y i w Hi) as Hin. unfold held in Hin. rewrite Nat.eqb_refl in Hin.
  unfold drop_from, set_worker. cbn [budgets workers routes].
  rewrite (drop_slots_open _ _ bg) by (done || unfold u64 in *; lia).
  eapply (inv_update y i w); [done|done|done|done|done| |]; unfold held; cbn; rewrite ?Es, ?Nat.eqb_refl; lia.
Qed.

(** ** Each operation keeps it *)

Context (tables_ok : forall p port bks, find_udp_backends (table_at p) port = Some bks -> weights_ok bks).

Lemma observe_ok s p : map_Forall (fun _ x => session_ok s x) (sessions s) ->
  map_Forall (fun _ x => session_ok (observe s p) x) (sessions s) /\ seen (observe s p) = Some p /\ sessions (observe s p) = sessions s
  /\ sessions_budget (observe s p) = sessions_budget s /\ server_port (observe s p) = server_port s
  /\ udp_selector (observe s p) = udp_selector s.
Proof.
  intros Hs. unfold observe. case_bool_decide as E; [done|]. cbn. split; [|done].
  intros c x Hx. destruct (Hs c x Hx) as (Hslot & Hgen & _). split_and!; cbn; [done|lia|]. lia.
Qed.

(** What a datagram is carried by, the cache of generations aside: the live
    session whose backend this very table routes. *)
Definition carries (s : Sessions) (p : TablePtr) (client : SocketAddr) : bool :=
  match sessions s !! client with
  | Some x => negb (reply_finished x) && routed (table_at p) (server_port s) (session_backend x)
  | None => false
  end.

Lemma reusable_carries s p client :
  map_Forall (fun _ x => session_ok s x) (sessions s) -> seen s = Some p ->
  (reusable s (table_at p) client).1 = carries s p client.
Proof.
  intros Hs Hp. unfold reusable, carries. destruct (sessions s !! client) as [x|] eqn:Ex; [|done].
  destruct (reply_finished x); [done|]. destruct (Z.eqb_spec (session_generation x) (generation s)) as [Eg|].
  - destruct (Hs client x Ex) as (_ & _ & Hr). destruct (Hr Eg) as (q & Hq & Hrt). cbn. congruence.
  - cbn. by destruct (routed _ _ _).
Qed.

Lemma reusable_state s p client :
  map_Forall (fun _ x => session_ok s x) (sessions s) -> seen s = Some p ->
  if carries s p client then
    exists m x, reusable s (table_at p) client = (true, set_sessions s m) /\ map_Forall (fun _ x => session_ok s x) m /\ size m = size (sessions s)
      /\ m !! client = Some x /\ session_backend <$> sessions s !! client = Some (session_backend x) /\ session_generation x = generation s
  else reusable s (table_at p) client = (false, s).
Proof.
  intros Hs Hp. pose proof (reusable_carries s p client Hs Hp) as Hc. rewrite <- Hc. clear Hc. unfold reusable.
  destruct (sessions s !! client) as [x|] eqn:Ex; [|done]. destruct (reply_finished x); [done|].
  destruct (Z.eqb_spec (session_generation x) (generation s)) as [Eg|].
  { exists (sessions s), x. split_and!; try done. by destruct s. }
  destruct (routed _ _ _) eqn:Er; [|done]. exists (<[client := stamp x (generation s)]> (sessions s)), (stamp x (generation s)).
  split_and!; [done| |by rewrite map_size_insert, Ex|by rewrite lookup_insert_eq|done|done].
  apply map_Forall_insert_2; [|done]. destruct (Hs client x Ex) as (Hslot & _ & _). split_and!; [done|cbn; lia|].
  intros _. by exists p.
Qed.

Lemma map_Forall_touch (s : Sessions) (m : gmap SocketAddr UdpSession) (client : SocketAddr) (t : Z) :
  map_Forall (fun _ x => session_ok s x) m -> map_Forall (fun _ x => session_ok s x) (alter (fun x => touch x t) client m).
Proof.
  intros H c x. rewrite lookup_alter_Some. intros [(-> & x0 & Hx & ->)|[_ Hx]]; [|by eapply H]. exact (H _ _ Hx).
Qed.

Lemma size_alter_touch (m : gmap SocketAddr UdpSession) client t : size (alter (fun x => touch x t) client m) = size m.
Proof.
  rewrite <- !size_dom. f_equal. apply dom_alter_L.
Qed.

(** What [receive] does, with what it leaves in hand. *)
Lemma receive_spec s d open s' a' :
  worker_ok {| table := s; at_ := Receiving |} -> receive s d open = (s', a') ->
  worker_ok {| table := s'; at_ := a' |} /\ sessions_budget s' = sessions_budget s
  /\ (size (sessions s') + at_slots a' = size (sessions s))%nat
  /\ seen s' = Some (under d)
  /\ if carries s (under d) (from d) then a' = Sending d /\ session_backend <$> sessions s' !! from d = session_backend <$> sessions s !! from d
     else match sessions s !! from d with
          | Some x => a' = Routing d (slot x)
          | None => a' = Taking d open
          end.
Proof.
  intros [Hs Hc _]. cbn in Hs, Hc. unfold receive. destruct (observe_ok s (under d) Hs) as (Hs1 & Hseen & Em & Eb & Eport & Esel).
  assert (Ecar : carries (observe s (under d)) (under d) (from d) = carries s (under d) (from d)) by (unfold carries; by rewrite Em, Eport).
  set (s1 := observe s (under d)) in *. assert (Hs1' : map_Forall (fun _ x => session_ok s1 x) (sessions s1)) by (by rewrite Em).
  pose proof (reusable_state s1 (under d) (from d) Hs1' Hseen) as Hreuse. rewrite Ecar in Hreuse.
  assert (Hc1 : u64 (default 0 (route_counters (udp_selector s1) !! server_port s1))) by (by rewrite Esel, Eport).
  rewrite <- Em. destruct (carries s (under d) (from d)) eqn:Ec.
  - destruct Hreuse as (m & x & -> & Hm & Hsize & Hx & Hbk & Hgx). intros [= <- <-]. cbn.
    rewrite size_alter_touch, Nat.add_0_r, lookup_alter_eq, Hx. split_and!; try done.
    split; cbn; [by apply map_Forall_touch|done|]. split; [done|]. exists (touch x (now d)). by rewrite lookup_alter_eq, Hx.
  - rewrite Hreuse. destruct (sessions s1 !! from d) as [x|] eqn:Ex; intros [= <- <-].
    + assert (Hsize : (size (delete (from d) (sessions s1)) + 1 = size (sessions s1))%nat).
      { pose proof (map_size_ne_0_lookup_2 (sessions s1) (from d) ltac:(by exists x)). rewrite (map_size_delete_Some (from d)) by (by exists x). lia. }
      split_and!; try done. split; cbn; [by apply map_Forall_delete|done|].
      split_and!; [done|by rewrite lookup_delete_eq|]. by destruct (Hs1' _ _ Ex).
    + split_and!; [by split|done|cbn; lia|done|done].
Qed.

Lemma at_ok_sessions s m a :
  at_ok s a -> (forall d, from d ∈ (match a with Sending d | Taking d _ | Routing d _ | Opening d _ _ => [from d] | _ => [] end) ->
    session_generation <$> m !! from d = session_generation <$> sessions s !! from d) -> at_ok (set_sessions s m) a.
Proof.
  intros Ha Hm. destruct a as [|d|d o|d sl|d b sl| |]; cbn in *; try done; specialize (Hm d ltac:(set_solver)).
  - destruct Ha as (Hs & x & Hx & Hg). split; [done|]. rewrite Hx in Hm. destruct (m !! from d) as [x'|]; [|done].
    exists x'. injection Hm as Hm. split; [done|congruence].
  - destruct Ha as (Hs & Hx). rewrite Hx in Hm. split; [done|]. by destruct (m !! from d).
  - destruct Ha as (Hs & Hx & ?). rewrite Hx in Hm. split_and!; [done| |done]. by destruct (m !! from d).
  - destruct Ha as (Hs & Hx & ? & ?). rewrite Hx in Hm. split_and!; [done| |done|done]. by destruct (m !! from d).
Qed.

(** A reply, or the end of a reply task. *)
Lemma worker_ok_reply s a client x x' :
  worker_ok {| table := s; at_ := a |} -> sessions s !! client = Some x -> session_ok s x' -> session_generation x' = session_generation x ->
  worker_ok {| table := set_sessions s (<[client := x']> (sessions s)); at_ := a |}.
Proof.
  intros [Hs Hc Ha] Hx Hx' Hg. split; cbn in *; [by apply map_Forall_insert_2|done|].
  apply at_ok_sessions; [done|]. intros d _. rewrite lookup_insert. case_decide as E; [|done]. subst. rewrite Hx. cbn. by rewrite Hg.
Qed.

(** Routing keeps the selector's counter in range and picks what is routed. *)
Lemma route_spec s d reads s' o :
  u64 (default 0 (route_counters (udp_selector s) !! server_port s)) -> route s d reads = (s', o) ->
  (exists sel, s' = set_selector s sel /\ u64 (default 0 (route_counters sel !! server_port s)))
  /\ forall b, o = Some b -> routed (table_at (under d)) (server_port s) b = true.
Proof.
  intros Hc. unfold route. destruct (analyze_udp_request _ _ _ _) as [r st] eqn:E.
  assert (Hsel : u64 (default 0 (route_counters (selector st) !! server_port s))).
  { revert E. unfold analyze_udp_request, analyze_l4_request. destruct (find_udp_backends _ _) as [bks|]; [|by intros [= _ <-]].
    destruct (is_nil bks); [by intros [= _ <-]|]. cbn [selector]. unfold select_l4_backend. destruct (_ =? 0); [by intros [= _ <-]|].
    unfold next_counter, fetch_add1. assert (Hn : u64 (as_u64 (default 0 (route_counters (udp_selector s) !! server_port s) + 1)))
      by (unfold u64, as_u64; apply (wrap_bound 64); lia).
    destruct (_ ≫= _) as [b|]; [case_bool_decide|]; intros [= _ <-]; cbn; by rewrite lookup_insert_eq. }
  intros H. assert (s' = set_selector s (selector st)) as -> by (by destruct r; injection H as <- _). split; [by exists (selector st)|].
  intros b ->. destruct r as [| | |backend|]; try done; injection H as <-.
  apply l4_forward_sound in E; [|by intros ? ? [= ->]|by intros bks; apply tables_ok|done|done].
  destruct E as (bks & x & Hf & Hx & Ha & Hw & _). unfold routed. rewrite Hf. apply existsb_exists. exists x.
  split; [by apply list_elem_of_In|]. apply andb_true_iff. split; [lia|by apply bool_decide_eq_true].
Qed.

Lemma inv_at y i s a : inv y -> at_worker y i s a -> worker_ok {| table := s; at_ := a |}.
Proof. intros [_ Hw] Hi. rewrite Forall_lookup in Hw. by destruct (Hw i _ Hi). Qed.

(** A budget not allocated yet has no holder. *)
Lemma total_none y b : inv y -> budgets y !! b = None -> total y b = 0%nat.
Proof.
  intros [_ Hw] Hb. unfold total. induction Hw as [|w ws [_ Hsome] _ IH]; [done|].
  assert (E : held b w = 0%nat).
  { unfold held. destruct (Nat.eqb_spec (sessions_budget (table w)) b) as [<-|]; [|done]. rewrite Hb in Hsome. by destruct Hsome. }
  simpl. by rewrite E.
Qed.

Lemma inv_start y port l b bs' :
  inv y -> budget (budgets y) l = (b, bs') -> (b < length bs')%nat -> (forall max, cap l = PerListener max -> u64 max) ->
  inv {| budgets := bs'; workers := workers y ++ [{| table := Sessions_new port l b; at_ := Receiving |}]; routes := routes y |}.
Proof.
  intros Hinv Hbud Hlt Hmax. set (w := {| table := Sessions_new port l b; at_ := Receiving |}).
  assert (Hext : exists ext, bs' = budgets y ++ ext /\ Forall (fun bg => budget_open bg = 0 /\ u64 (budget_max bg)) ext).
  { unfold budget in Hbud. destruct (cap l) as [max|b0]; injection Hbud as <- <-.
    - eexists. split; [done|]. repeat constructor; cbn; by apply Hmax.
    - exists []. by rewrite app_nil_r. }
  destruct Hext as (ext & -> & Hext).
  assert (Ht : forall b', total {| budgets := budgets y ++ ext; workers := workers y ++ [w]; routes := routes y |} b' = total y b').
  { intros b'. unfold total. cbn [workers]. rewrite sum_list_with_app.
    assert (E : held b' w = 0%nat) by (unfold held; cbn; rewrite map_size_empty; by destruct (_ =? _)%nat). simpl. rewrite E. lia. }
  split; cbn [budgets workers].
  - intros b' bg Hb'. rewrite Ht. apply lookup_app_Some in Hb' as [Hb'|[Hge Hb']]; [by apply (inv_budgets y Hinv)|].
    rewrite (total_none y b' Hinv) by (by apply lookup_ge_None). rewrite Forall_lookup in Hext.
    destruct (Hext _ _ Hb') as [-> Hu]. pose proof Hu as [? ?]. split_and!; [done|done|done].
  - apply Forall_app. split.
    + eapply Forall_impl; [exact (inv_workers y Hinv)|]. intros x [Hx [bg Hs]]. split; [done|]. exists bg. by apply lookup_app_l_Some.
    + repeat constructor; cbn; try done. by apply lookup_lt_is_Some.
Qed.

Lemma slots_of_budget s (m : gmap SocketAddr UdpSession) :
  map_Forall (fun _ x => session_ok s x) m -> Forall (eq (sessions_budget s)) (map (fun kv => slot kv.2) (map_to_list m)).
Proof.
  intros H. apply Forall_fmap, Forall_forall. intros [c x] Hx. apply elem_of_map_to_list in Hx. cbn. symmetry. by destruct (H c x Hx).
Qed.

Lemma inv_recv y i s d b s' a' :
  inv y -> at_worker y i s Receiving -> receive s d (budget_open b) = (s', a') -> inv (set_worker y i s' a').
Proof.
  intros Hinv Hi Hr. destruct (receive_spec s d _ s' a' (inv_at y i s _ Hinv Hi) Hr) as (Hok & Eb & Esize & _).
  apply (inv_keep y i _ s' a' Hinv Hi Hok Eb). cbn. lia.
Qed.

Lemma inv_take y i s d open b new :
  inv y -> at_worker y i s (Taking d open) -> budgets y !! sessions_budget s = Some b -> take_turn b open false = Some (Ok new) ->
  inv (set_worker (set_budget y (sessions_budget s) new) i s (Routing d (sessions_budget s))).
Proof.
  intros Hinv Hi Hb Ht. unfold take_turn in Ht. destruct (Z.ltb_spec open (budget_max b)) as [Hlt|]; [|done]. cbn in Ht.
  destruct (Z.eqb_spec (budget_open b) open) as [Eo|]; [|done]. injection Ht as <-.
  unfold set_worker, set_budget. cbn [budgets workers routes]. rewrite (alter_as_insert _ _ _ b Hb).
  pose proof (inv_at y i s _ Hinv Hi) as [Hs Hc Ha].
  eapply (inv_update y i _ _ b _ _ Hinv Hi); cbn [table]; try done.
  - split; cbn in *; try done. by destruct Ha.
  - unfold held. cbn. rewrite Nat.eqb_refl. lia.
  - lia.
Qed.

Lemma inv_opened y i s d backend sl :
  inv y -> at_worker y i s (Opening d backend sl) -> inv (set_worker y i (open_session s d backend sl) Receiving).
Proof.
  intros Hinv Hi. destruct (inv_at y i s _ Hinv Hi) as [Hs Hc (Hseen & Hnone & Esl & Hr)]. cbn in *.
  apply (inv_keep y i _ _ _ Hinv Hi); [|done|].
  - split; cbn; [|done|done]. apply map_Forall_insert_2; [|done]. split_and!; cbn; [done|lia|]. intros _. by exists (under d).
  - cbn. rewrite map_size_insert, Hnone. cbn. lia.
Qed.

Lemma inv_send_failed y i s d s' slots :
  inv y -> at_worker y i s (Sending d) -> send_error s d = (s', slots) -> inv (drop_from (set_worker y i s' Receiving) slots).
Proof.
  intros Hinv Hi He. destruct (inv_at y i s _ Hinv Hi) as [Hs Hc (Hseen & x & Hx & Hg)]. cbn in *.
  unfold send_error in He. rewrite Hx in He. injection He as <- <-. apply (inv_drop y i _ _ _ _ Hinv Hi).
  - split; cbn; [by apply map_Forall_delete|done|done].
  - done.
  - repeat constructor. symmetry. by destruct (Hs _ _ Hx).
  - cbn. pose proof (map_size_ne_0_lookup_2 (sessions s) (from d) ltac:(by exists x)).
    rewrite (map_size_delete_Some (from d)) by (by exists x). lia.
Qed.

Lemma inv_reap y i s now s' slots :
  inv y -> at_worker y i s Receiving -> reap s now = (s', slots) -> inv (drop_from (set_worker y i s' Reaped) slots).
Proof.
  intros Hinv Hi He. destruct (inv_at y i s _ Hinv Hi) as [Hs Hc _]. cbn in *. unfold reap in He. injection He as <- <-.
  apply (inv_drop y i _ _ _ _ Hinv Hi); cbn.
  - split; cbn; [|done|done]. intros c x. rewrite map_lookup_filter_Some. intros [Hx _]. exact (Hs c x Hx).
  - done.
  - apply slots_of_budget. intros c x. rewrite map_lookup_filter_Some. intros [Hx _]. exact (Hs c x Hx).
  - rewrite length_map, length_map_to_list. rewrite <- (map_filter_union_complement (fun kv => kept (idle_ms s) now kv.2 = true) (sessions s)) at 3.
    rewrite map_size_disj_union by apply map_disjoint_filter_complement. lia.
Qed.

Lemma udp_inv_step y o y' : inv y -> step y o y' -> inv y'.
Proof.
  intros Hinv Hstep. destruct Hstep.
  - destruct Hinv as [Hb Hw]. by split.
  - by apply (inv_start y port l b bs').
  - destruct (inv_at y i s _ Hinv H) as [Hs Hc _]. apply (inv_drop y i _ _ _ _ Hinv H); cbn in *.
    + by split.
    + done.
    + by apply slots_of_budget.
    + rewrite map_size_empty, length_map, length_map_to_list. lia.
  - by eapply inv_recv.
  - by eapply inv_take.
  - destruct (inv_at y i s _ Hinv H) as [Hs Hc Ha]. by apply (inv_keep y i _ _ _ Hinv H); [split|done|done].
  - destruct (inv_at y i s _ Hinv H) as [Hs Hc Ha]. by apply (inv_keep y i _ _ _ Hinv H); [split|done|done].
  - destruct (inv_at y i s _ Hinv H) as [Hs Hc Ha]. destruct (route_spec s d reads s' _ Hc H0) as ((sel & -> & Hu) & Hb).
    apply (inv_keep y i _ _ _ Hinv H); [|done|done]. split; cbn in *; [done|done|]. destruct Ha as (? & ? & ?). auto.
  - destruct (inv_at y i s _ Hinv H) as [Hs Hc Ha]. destruct (route_spec s d reads s' _ Hc H0) as ((sel & -> & Hu) & Hb).
    apply (inv_drop y i _ _ _ _ Hinv H); [by split|done| |cbn; lia]. repeat constructor. cbn in Ha. symmetry. by destruct Ha as (_ & _ & ?).
  - by apply inv_opened.
  - destruct (inv_at y i s _ Hinv H) as [Hs Hc Ha].
    apply (inv_drop y i _ _ _ _ Hinv H); [by split|done| |cbn; lia]. repeat constructor. cbn in Ha. symmetry. by destruct Ha as (_ & _ & ? & _).
  - destruct (inv_at y i s _ Hinv H) as [Hs Hc Ha]. by apply (inv_keep y i _ _ _ Hinv H); [split|done|done].
  - by eapply inv_send_failed.
  - by eapply inv_reap.
  - destruct (inv_at y i s _ Hinv H) as [Hs Hc Ha]. unfold reap_log. destruct (full b); by apply (inv_keep y i _ _ _ Hinv H); [split|done|done].
  - pose proof (inv_at y i s _ Hinv H) as Hok. apply (inv_keep y i _ _ _ Hinv H); [|done|cbn; by rewrite map_size_insert, H0].
    eapply worker_ok_reply; [done|done| |done]. exact (wo_sessions _ Hok _ _ H0).
  - pose proof (inv_at y i s _ Hinv H) as Hok. apply (inv_keep y i _ _ _ Hinv H); [|done|cbn; by rewrite map_size_insert, H0].
    eapply worker_ok_reply; [done|done| |done]. exact (wo_sessions _ Hok _ _ H0).
Qed.

Lemma udp_reachable_inv y : reachable y -> inv y.
Proof.
  induction 1 as [p perf nofile Hn|y o y' _ IH Hstep]; [|by eapply udp_inv_step].
  split; cbn; [|done]. intros b bg Hb. unfold with_nofile in Hb. destruct (udp_max_sessions perf); [done|].
  apply list_lookup_singleton_Some in Hb as [-> <-]. unfold total, SessionBudget_new. cbn [budget_open budget_max workers system_new sum_list_with].
  assert (Hq : u64 (default UNKNOWN_NOFILE nofile)) by (destruct nofile; [by apply Hn|done]).
  unfold u64 in *. split_and!; Z.div_mod_to_equations; lia.
Qed.

(** C20: the UDP sessions open never exceed their cap. Whatever the
    interleaving of the workers' receives, takes, failures, moves between
    backends, reaps, shutdowns and replies, a budget counts exactly the slots
    its workers hold, one per session and one for a session being opened, and
    the count is at most its maximum: no slot is lost, none is given back
    twice, and the counter never wraps. *)
Theorem udp_sessions_within_budget (y : System) (b : BudgetPtr) (bg : SessionBudget)
  (Hy : reachable y) (Hb : budgets y !! b = Some bg) :
  budget_open bg = Z.of_nat (total y b) /\ Z.of_nat (total y b) <= budget_max bg /\ u64 (budget_max bg).
Proof. by apply (inv_budgets y (udp_reachable_inv y Hy)). Qed.

(** Datagrams follow the live routes. A datagram a client sends is
    carried by its session just when the session's reply path is alive and
    the table live at that moment routes its backend with weight on the port,
    on the same backend as before, whatever swaps the generation cache
    skipped; otherwise it is routed anew, in the slot the session held if
    there was one. And whatever is sent to a backend is sent to one the table
    it was received under routes with weight. *)
Theorem udp_datagrams_follow_routes (y : System) (Hy : reachable y) :
  (forall i s d open s' a', at_worker y i s Receiving -> under d = routes y -> receive s d open = (s', a') ->
     if carries s (routes y) (from d)
     then a' = Sending d /\ session_backend <$> sessions s' !! from d = session_backend <$> sessions s !! from d
     else match sessions s !! from d with Some x => a' = Routing d (slot x) | None => a' = Taking d open end)
  /\ (forall e y', step y (Some e) y' -> exists s a,
        at_worker y (worker e) s a /\ seen s = Some (under (sent_datagram e))
        /\ routed (table_at (under (sent_datagram e))) (server_port s) (to e) = true).
Proof.
  pose proof (udp_reachable_inv y Hy) as Hinv. split.
  - intros i s d open s' a' Hi Hd Hr. rewrite <- Hd. by destruct (receive_spec s d open s' a' (inv_at y i s _ Hinv Hi) Hr) as (_ & _ & _ & _ & H).
  - intros e y' Hstep. inversion Hstep as [| | | | | | | | |y0 i s d backend sl Hi| |y0 i s d x Hi Hx| | | | |]; subst; cbn.
    + destruct (inv_at y i s _ Hinv Hi) as [_ _ (Hseen & _ & _ & Hr)]. by eexists s, _.
    + destruct (inv_at y i s _ Hinv Hi) as [Hs _ (Hseen & x' & Hx' & Hg)]. cbn in *. rewrite Hx in Hx'. injection Hx' as <-.
      destruct (Hs _ _ Hx) as (_ & _ & Hroute). destruct (Hroute Hg) as (p & Hp & Hr). eexists s, _. split_and!; [done|done|congruence].
Qed.
End Worker.

(** ** At work *)

#[local] Existing Instance literal_regex.

Definition udp_table : RouteTable := (add_udp_route RouteTable_new 53 [weighted backend_a 1 Forward]).1.

Definition always (p : TablePtr) : RouteTable := udp_table.

Lemma always_ok p port bks : find_udp_backends (always p) port = Some bks -> weights_ok bks.
Proof.
  unfold find_udp_backends. change (udp_routes (always p)) with ({[53 := [weighted backend_a 1 Forward]]} : gmap Z (list Backend)).
  rewrite lookup_singleton_Some. intros [_ <-]. split; [repeat constructor; cbn; lia|cbn; lia].
Qed.

Definition query : Datagram := {| payload := [1; 2]; from := SocketV4 1 4000; now := 5; under := 7 |}.

Definition perf_default : PerformanceConfig := {| udp_session_timeout := 30000000000; udp_max_sessions := None |}.

Definition shared_limits : SessionLimits := {| limit_idle := 30000000000; cap := Shared 0 |}.

(** A worker on port 53 that took its first datagram up to the open. *)
Lemma opening_reached : exists y, reachable always y
  /\ budgets y = [{| budget_max := 256; budget_open := 1; budget_shared := true |}]
  /\ exists s, at_worker y 0 s (Opening query backend_a 0).
Proof.
  eexists. split.
  - eapply (reach_step always _ None).
    + eapply (reach_step always _ None).
      * eapply (reach_step always _ None).
        -- eapply (reach_step always _ None).
           ++ apply (reach_new always 7 perf_default (Some 1024)). by intros n [= <-].
           ++ apply (start_worker always _ 53 shared_limits 0 _ eq_refl); [cbn; lia|done].
        -- by eapply (recv_from always _ 0 _ query {| budget_max := 256; budget_open := 0; budget_shared := true |} _ (Taking query 0)).
      * by eapply (take_slot always _ 0 _ query 0 {| budget_max := 256; budget_open := 0; budget_shared := true |} 1).
    + by eapply (routed_to always _ 0 _ query 0 (steady HealthRegistry_new)).
  - split; [reflexivity|]. eexists. reflexivity.
Qed.

Lemma udp_sessions_within_budget_witness : exists y bg, reachable always y /\ budgets y !! 0%nat = Some bg /\ Z.of_nat (total y 0) = 1.
Proof.
  destruct opening_reached as (y & Hy & Hb & _).
  assert (Hb0 : budgets y !! 0%nat = Some {| budget_max := 256; budget_open := 1; budget_shared := true |}) by (rewrite Hb; reflexivity).
  exists y, {| budget_max := 256; budget_open := 1; budget_shared := true |}.
  exact (conj Hy (conj Hb0 (eq_sym (proj1 (udp_sessions_within_budget always always_ok y 0 _ Hy Hb0))))).
Defined.

Lemma udp_datagrams_follow_routes_witness : exists y s a,
  reachable always y /\ at_worker y 0 s a /\ routed udp_table (server_port s) backend_a = true.
Proof.
  destruct opening_reached as (y & Hy & _ & (s & Hs)).
  destruct (proj2 (udp_datagrams_follow_routes always always_ok y Hy) _ _ (opened always y 0 s query _ 0 Hs)) as (s' & a & Ha & _ & Hr).
  exists y, s', a. exact (conj Hy (conj Ha Hr)).
Defined.
