(* ===== verification/SyncAnswer.v ===== *)
(** * Answers of the controller

    [src/src/sync/signed.rs]: what a signature over an answer covers, and its
    check; and [src/src/dataplane/remote.rs] with the refusals of
    [src/src/dataplane/apiserver_proxy.rs]: one poll of the controller and
    what its answer is taken for. The cryptography, base64 and the JSON
    reader are libraries: the classes [AnswerCrypto] and [Json]. The network
    is an argument: what each send met and what came back, from whoever sent
    it. Messages of errors are kept as what they tell, not as text. *)

From S2P Require Import Prelude Bytes Addresses HttpFilters Config Snapshot.

(** ** Signatures *)

Class AnswerCrypto : Type := {
  b64_encode : list Z -> list Z;
  b64_decode : list Z -> option (list Z);
  (** A serving leaf and its key. *)
  CertifiedKey : Type;
  leaf_of : CertifiedKey -> list Z;
  key_signs : CertifiedKey -> list Z -> option (list Z);
  (** [verify_server_cert] for the verifier's roots and signer name at a
      time, and [EndEntityCert::verify_signature]. *)
  leaf_trusted : list Z -> Z -> bool;
  verify_signature : list Z -> list Z -> list Z -> bool;
  (** RFC 4648: what is encoded decodes, and a line feed is in no encoding. *)
  b64_round_trip l : Forall u8 l -> b64_decode (b64_encode l) = Some l;
  b64_no_line_feed s l : b64_decode s = Some l -> 10 ∉ s;
  signature_verifies k msg sig : key_signs k msg = Some sig -> Forall u8 sig /\ verify_signature (leaf_of k) msg sig = true;
  leaf_bytes k : Forall u8 (leaf_of k);
}.

Definition SIGNATURE_HEADER : list Z := bs "x-portail-signature".
Definition SIGNER_HEADER : list Z := bs "x-portail-signer".
Definition NONCE_BYTES : nat := 16.

Inductive Signed := SignedSnapshot | SignedGone | SignedUnchanged | SignedPending | SignedLeave.

Definition context (k : Signed) : list Z :=
  match k with
  | SignedSnapshot => bs "portail sync v1 snapshot" ++ [10]
  | SignedGone => bs "portail sync v1 gone" ++ [10]
  | SignedUnchanged => bs "portail sync v1 unchanged" ++ [10]
  | SignedPending => bs "portail sync v1 pending" ++ [10]
  | SignedLeave => bs "portail sync v1 leave" ++ [10]
  end.

(** [Signed::message] *)
Definition message (k : Signed) (nonce body : list Z) : list Z := context k ++ nonce ++ [10] ++ body.

(** A [HeaderMap]: lower-case names, the first value of a name found first. *)
Abbreviation HeaderMap := (list (list Z * list Z)).

Fixpoint get_header (hs : HeaderMap) (name : list Z) : option (list Z) :=
  match hs with
  | [] => None
  | (n, v) :: t => if beq n name then Some v else get_header t name
  end.

Inductive VerifyError := Unsigned (name : list Z) | NotBase64 (name : list Z) | SignerRefused | BadSignature | NotGone | GoneFor (k : GatewayKey).

Section Signing.
Context {AC : AnswerCrypto}.

(** [new_nonce] for the bytes drawn, and [valid_nonce]. *)
Definition new_nonce (drawn : list Z) : list Z := b64_encode drawn.

Definition valid_nonce (nonce : list Z) : bool :=
  match b64_decode nonce with Some bytes => (length bytes =? NONCE_BYTES)%nat | None => false end.

Definition sign (key : CertifiedKey) (k : Signed) (nonce body : list Z) : option HeaderMap :=
  signature ← key_signs key (message k nonce body);
  Some [(SIGNATURE_HEADER, b64_encode signature); (SIGNER_HEADER, b64_encode (leaf_of key))].

Definition decoded (hs : HeaderMap) (name : list Z) : result (list Z) VerifyError :=
  match get_header hs name with
  | None => Err (Unsigned name)
  | Some v => match b64_decode v with None => Err (NotBase64 name) | Some b => Ok b end
  end.

(** [AnswerVerifier::verify] *)
Definition verify (k : Signed) (nonce : list Z) (hs : HeaderMap) (body : list Z) (now : Z) : result unit VerifyError :=
  match decoded hs SIGNATURE_HEADER with
  | Err e => Err e
  | Ok signature =>
      match decoded hs SIGNER_HEADER with
      | Err e => Err e
      | Ok leaf =>
          if negb (leaf_trusted leaf now) then Err SignerRefused
          else if verify_signature leaf (message k nonce body) signature then Ok tt else Err BadSignature
      end
  end.
End Signing.

(** ** Documents *)

(** [serde_json]: a document, its fields, and the derived readers, of which
    a snapshot's takes its version and protocol from the fields so named. *)
Class Json : Type := {
  Value : Type;
  json_parse : list Z -> option Value;
  str_field : Value -> list Z -> option (list Z);
  u64_field : Value -> list Z -> option Z;
  decode_gone : list Z -> option GatewayKey;
  decode_snapshot : Value -> option Snapshot;
  decode_snapshot_fields v s : decode_snapshot v = Some s ->
    str_field v (bs "version") = Some (version s) /\ u64_field v (bs "protocol") = Some (s_protocol s);
}.

(** ** One poll *)

Definition STANDBY_HEADER : list Z := bs "x-portail-standby".
Definition MAX_ANSWER : Z := 67108864.
Definition ERROR_BODY_LOG_BYTES : nat := 512.

(** [excerpt] *)
Definition excerpt (body : list Z) : list Z := str_trim (from_utf8_lossy (take ERROR_BODY_LOG_BYTES body)).

(** [HeaderValue::to_str] *)
Definition to_str (v : list Z) : option (list Z) :=
  if forallb (fun b => ((32 <=? b) && (b <? 127)) || (b =? 9)) v then Some v else None.

(** [retry_after], in seconds. *)
Definition retry_after (hs : HeaderMap) : option Z :=
  v ← get_header hs (bs "retry-after"); s ← to_str v; parse_u64 (str_trim s).

Inductive Via := Direct | ApiserverProxy.

Definition redials_on_standby (v : Via) : bool := match v with Direct => true | ApiserverProxy => false end.

(** [apiserver_proxy::refusal]: the message, and the status its advice is
    for. *)
Definition refusal_of `{JS : Json} (status : Z) (body : list Z) : option (Z * list Z) :=
  match json_parse body with
  | None => None
  | Some value =>
      if bool_decide (str_field value (bs "kind") = Some (bs "Status"))
      then Some (status, default (excerpt body) (str_field value (bs "message")))
      else None
  end.

Definition apiserver_refusal `{JS : Json} (v : Via) (status : Z) (body : list Z) : option (Z * list Z) :=
  match v with Direct => None | ApiserverProxy => refusal_of status body end.

(** Why a poll confirmed nothing. *)
Inductive PollError :=
  | DeclaredTooLong (len : Z)
  | TooLong
  | SnapshotRefused (e : VerifyError)
  | NoContentRefused (e : VerifyError)
  | NotFoundRefused (e : VerifyError)
  | NotServing (text : list Z)
  | ApiserverAnswered (refused : Z * list Z)
  | ControllerAnswered (status : Z) (text : list Z)
  | Credentials
  | NoConnection
  | RequestLost
  | BodyLost
  | NoAnswer
  (** Of a snapshot received and not served. *)
  | NotJson
  | WithoutVersion
  | OtherProtocol (sent : option Z)
  | NotDecoded
  | OtherGateway (k : GatewayKey).

Inductive Answer :=
  | AnsSnapshot (body : list Z)
  | Unchanged
  | Pending
  | Left
  | Gone
  | Standby (e : PollError)
  | Unverified (e : PollError)
  | Retry (after : option Z) (e : PollError).

(** [resp_body]: [None] when reading it failed. *)
Record Response := { resp_status : Z; resp_headers : HeaderMap; resp_body : option (list Z) }.

Record Client := { via : Via; client_gateway : GatewayKey; conn : bool; max_answer : Z }.

Definition set_conn (c : Client) (kept : bool) : Client :=
  {| via := via c; client_gateway := client_gateway c; conn := kept; max_answer := max_answer c |}.

(** What a send met: an answer's head, nothing written, or a request lost. *)
Inductive SendOutcome := Answered (r : Response) | Unsent | Lost.

(** The network during one exchange: the credentials read, whether the idle
    connection is still open, what a send on it met, and a new connection
    with what a send on that met. *)
Record Net := { credentials : bool; idle_open : bool; on_idle : SendOutcome; on_new : option SendOutcome }.

(** [Client::send_new] *)
Definition send_new (n : Net) : result Response PollError :=
  match on_new n with
  | None => Err NoConnection
  | Some (Answered r) => Ok r
  | Some _ => Err RequestLost
  end.

(** The request sent, once more only where nothing of it was written. *)
Definition send_poll (c : Client) (n : Net) : result Response PollError :=
  if conn c && idle_open n then
    match on_idle n with
    | Answered r => Ok r
    | Unsent => send_new n
    | Lost => Err RequestLost
    end
  else send_new n.

Section Exchange.
Context {AC : AnswerCrypto} {JS : Json}.

(** [Client::gone] *)
Definition gone (c : Client) (nonce : list Z) (hs : HeaderMap) (body : list Z) (now : Z) : result unit VerifyError :=
  match verify SignedGone nonce hs body now with
  | Err e => Err e
  | Ok _ =>
      match decode_gone body with
      | None => Err NotGone
      | Some k => if bool_decide (k = client_gateway c) then Ok tt else Err (GoneFor k)
      end
  end.

(** A body read whole: the answer, and whether its connection is kept. *)
Definition take_answer (c : Client) (nonce have : list Z) (leaving : bool) (now : Z) (status : Z) (hs : HeaderMap) (body : list Z)
  : Answer * bool :=
  let standby := is_some (get_header hs STANDBY_HEADER) in
  if status =? 200 then
    match verify SignedSnapshot nonce hs body now with
    | Ok _ => (AnsSnapshot body, true)
    | Err e => (Unverified (SnapshotRefused e), false)
    end
  else if status =? 204 then
    if leaving then
      match verify SignedLeave nonce hs [] now with
      | Ok _ => (Left, true)
      | Err e => (Unverified (NoContentRefused e), false)
      end
    else match verify SignedUnchanged nonce hs have now with
         | Ok _ => (Unchanged, true)
         | Err e => match verify SignedPending nonce hs [] now with
                    | Ok _ => (Pending, true)
                    | Err _ => (Unverified (NoContentRefused e), false)
                    end
         end
  else if (status =? 503) && standby then
    (Standby (NotServing (excerpt body)), negb (redials_on_standby (via c)))
  else match apiserver_refusal (via c) status body with
       | Some e => (Retry (retry_after hs) (ApiserverAnswered e), true)
       | None =>
           if negb (status =? 404) then (Retry (retry_after hs) (ControllerAnswered status (excerpt body)), false)
           else match gone c nonce hs body now with
                | Ok _ => (Gone, true)
                | Err e => (Unverified (NotFoundRefused e), false)
                end
       end.

(** [Client::exchange] *)
Definition exchange (c : Client) (n : Net) (drawn have : list Z) (leaving : bool) (now : Z) : result Answer PollError * Client :=
  let nonce := new_nonce drawn in
  if negb (credentials n) then (Err Credentials, c)
  else match send_poll c n with
       | Err e => (Err e, set_conn c false)
       | Ok r =>
           let declared := v ← get_header (resp_headers r) (bs "content-length"); s ← to_str v; parse_u64 s in
           if match declared with Some len => max_answer c <? len | None => false end
           then (Ok (Unverified (DeclaredTooLong (default 0 declared))), set_conn c false)
           else match resp_body r with
                | None => (Err BodyLost, set_conn c false)
                | Some body =>
                    if max_answer c <? Z.of_nat (length body) then (Ok (Unverified TooLong), set_conn c false)
                    else let '(answer, kept) := take_answer c nonce have leaving now (resp_status r) (resp_headers r) body in
                         (Ok answer, set_conn c kept)
                end
       end.

(** [Client::poll]: [Err] where nothing came within the request timeout. The
    exchange dropped then took its connection along, unless it was still at
    its credentials ([untaken]). *)
Definition poll (c : Client) (n : result Net bool) (drawn have : list Z) (leaving : bool) (now : Z) : Answer * Client :=
  match n with
  | Err untaken => (Retry None NoAnswer, set_conn c (conn c && untaken))
  | Ok n =>
      match exchange c n drawn have leaving now with
      | (Ok answer, c') => (answer, c')
      | (Err e, c') => (Retry None e, c')
      end
  end.

(** ** What a signature vouches for *)

Lemma split_at_line_feed (a b x y : list Z) : 10 ∉ a -> 10 ∉ b -> a ++ [10] ++ x = b ++ [10] ++ y -> a = b /\ x = y.
Proof.
  revert b. induction a as [|c a IH]; intros [|d b] Ha Hb E; cbn in E.
  - by injection E.
  - injection E as <- _. by destruct Hb; left.
  - injection E as -> _. by destruct Ha; left.
  - injection E as <- E. apply not_elem_of_cons in Ha as [_ Ha]. apply not_elem_of_cons in Hb as [_ Hb].
    destruct (IH b Ha Hb E) as [-> ->]. done.
Qed.

(** The context line, the nonce and the body are told apart. *)
Lemma message_injective k k' nonce nonce' body body' :
  10 ∉ nonce -> 10 ∉ nonce' -> message k nonce body = message k' nonce' body' -> k = k' /\ nonce = nonce' /\ body = body'.
Proof.
  intros Hn Hn' E.
  assert (Hc : forall x, exists line, context x = line ++ [10] /\ 10 ∉ line).
  { intros x. destruct x; (eexists; split; [reflexivity|]); refine (bool_decide_eq_true_1 (10 ∉ _) _); vm_compute; reflexivity. }
  destruct (Hc k) as (line & Ek & Hl), (Hc k') as (line' & Ek' & Hl').
  unfold message in E. rewrite Ek, Ek', <- !app_assoc in E. apply split_at_line_feed in E as [El E]; [|done|done].
  apply split_at_line_feed in E as [-> ->]; [|done|done]. split; [|done].
  rewrite El in Ek. rewrite <- Ek' in Ek. destruct k, k'; done.
Qed.

Lemma verify_ok k nonce hs body now :
  verify k nonce hs body now = Ok tt <->
  exists leaf sig, decoded hs SIGNATURE_HEADER = Ok sig /\ decoded hs SIGNER_HEADER = Ok leaf
    /\ leaf_trusted leaf now = true /\ verify_signature leaf (message k nonce body) sig = true.
Proof.
  unfold verify. split.
  - destruct (decoded hs SIGNATURE_HEADER) as [sig|]; [|done]. destruct (decoded hs SIGNER_HEADER) as [leaf|]; [|done].
    destruct (leaf_trusted leaf now) eqn:El; [|done]. cbn. destruct (verify_signature _ _ _) eqn:Ev; [|done].
    intros _. by exists leaf, sig.
  - intros (leaf & sig & -> & -> & -> & Hv). cbn. by rewrite Hv.
Qed.

Lemma drawn_nonce_no_line_feed drawn : Forall u8 drawn -> 10 ∉ new_nonce drawn.
Proof. intros H. eapply b64_no_line_feed. by apply b64_round_trip. Qed.

(** ** Whose word an answer is *)

Section Unforgeable.
(** What the holders of controller leaves signed: an answer of a kind, for a
    poll's nonce, over a body. The signer checks the nonce with
    [valid_nonce]. *)
Context (issued : Signed -> list Z -> list Z -> Prop).
Context (unforgeable : forall leaf now msg sig, leaf_trusted leaf now = true -> verify_signature leaf msg sig = true ->
  exists k nonce body, valid_nonce nonce = true /\ issued k nonce body /\ msg = message k nonce body).

Lemma verified_issued k drawn hs body now u :
  Forall u8 drawn -> verify k (new_nonce drawn) hs body now = Ok u -> issued k (new_nonce drawn) body.
Proof.
  destruct u. intros Hd Hv. apply verify_ok in Hv as (leaf & sig & _ & _ & Hl & Hs).
  destruct (unforgeable leaf now _ sig Hl Hs) as (k' & n' & b' & Hn & Hi & E).
  assert (Hn' : 10 ∉ n').
  { unfold valid_nonce in Hn. destruct (b64_decode n') eqn:En; [|done]. by eapply b64_no_line_feed. }
  apply message_injective in E as (-> & -> & ->); [done|by apply drawn_nonce_no_line_feed|done].
Qed.

(** What the controller said, for an answer to count as it. *)
Definition says (c : Client) (nonce have : list Z) (leaving : bool) (a : Answer) : Prop :=
  match a with
  | AnsSnapshot body => issued SignedSnapshot nonce body
  | Unchanged => issued SignedUnchanged nonce have /\ leaving = false
  | Pending => issued SignedPending nonce [] /\ leaving = false
  | Left => issued SignedLeave nonce [] /\ leaving = true
  | Gone => exists body, issued SignedGone nonce body /\ decode_gone body = Some (client_gateway c)
  | Standby _ | Unverified _ | Retry _ _ => True
  end.

Lemma taken_says c drawn have leaving now status hs body :
  Forall u8 drawn -> says c (new_nonce drawn) have leaving (take_answer c (new_nonce drawn) have leaving now status hs body).1.
Proof.
  intros Hd. unfold take_answer. destruct (status =? 200).
  { destruct (verify _ _ _ _ _) as [u|] eqn:E; [|done]. cbn. by eapply verified_issued. }
  destruct (status =? 204).
  { destruct leaving.
    - destruct (verify SignedLeave _ _ _ _) as [u|] eqn:E; [|done]. cbn. split; [by eapply verified_issued|done].
    - destruct (verify SignedUnchanged _ _ _ _) as [u|] eqn:E; [cbn; split; [by eapply verified_issued|done]|].
      destruct (verify SignedPending _ _ _ _) as [u|] eqn:E'; [cbn; split; [by eapply verified_issued|done]|done]. }
  destruct ((status =? 503) && _); [done|]. destruct (apiserver_refusal _ _ _); [done|].
  destruct (negb (status =? 404)); [done|]. unfold gone. destruct (verify SignedGone _ _ _ _) as [u|] eqn:E; [|done].
  destruct (decode_gone body) as [k|] eqn:Eg; [|done]. case_bool_decide; [|done]. cbn. exists body.
  split; [by eapply verified_issued|by subst].
Qed.

Lemma poll_says c n drawn have leaving now :
  Forall u8 drawn -> says c (new_nonce drawn) have leaving (poll c n drawn have leaving now).1.
Proof.
  intros Hd. unfold poll. destruct n as [n|]; [|done]. unfold exchange. destruct (negb (credentials n)); [done|].
  destruct (send_poll c n) as [r|]; [|done]. destruct (match _ with Some len => max_answer c <? len | None => false end); [done|].
  destruct (resp_body r) as [body|]; [|done]. destruct (max_answer c <? _); [done|].
  pose proof (taken_says c drawn have leaving now (resp_status r) (resp_headers r) body Hd) as H.
  destruct (take_answer _ _ _ _ _ _ _ _) as [answer kept]. exact H.
Qed.

(** Nothing but the controller's word steers a data plane. Whoever
    answers a poll, with whatever status, headers and body: an answer taken
    as a snapshot, as unchanged, pending, a leave acknowledged or the Gateway
    gone is one the controller signed, of that kind, for the nonce of this
    very poll, over this very body, or the version the poll said it had, or a
    gone notice naming this Gateway. A signature of another kind, of an
    earlier poll or for another Gateway passes for none of them. *)
Theorem answers_are_the_controllers (c : Client) (n : result Net bool) (drawn have : list Z) (leaving : bool) (now : Z)
  (Hdrawn : Forall u8 drawn) : says c (new_nonce drawn) have leaving (poll c n drawn have leaving now).1.
Proof. by apply poll_says. Qed.
End Unforgeable.

(** ** The controller is heard *)

Lemma sign_verifies key k nonce body hs now rest :
  sign key k nonce body = Some hs -> leaf_trusted (leaf_of key) now = true -> verify k nonce (hs ++ rest) body now = Ok tt.
Proof.
  unfold sign. intros H Hl. destruct (key_signs key _) as [sig|] eqn:Es; [|done]. injection H as <-.
  destruct (signature_verifies _ _ _ Es) as [Hsig Hv]. apply verify_ok. exists (leaf_of key), sig.
  assert (E1 : get_header ([(SIGNATURE_HEADER, b64_encode sig); (SIGNER_HEADER, b64_encode (leaf_of key))] ++ rest) SIGNATURE_HEADER = Some (b64_encode sig)) by done.
  assert (E2 : get_header ([(SIGNATURE_HEADER, b64_encode sig); (SIGNER_HEADER, b64_encode (leaf_of key))] ++ rest) SIGNER_HEADER = Some (b64_encode (leaf_of key))) by done.
  unfold decoded. rewrite E1, E2, !b64_round_trip by (done || apply leaf_bytes). done.
Qed.

(** The status and the signed body of an answer. *)
Definition answer_of (k : Signed) (have body : list Z) : Z * list Z :=
  match k with
  | SignedSnapshot => (200, body)
  | SignedGone => (404, body)
  | SignedUnchanged => (204, have)
  | SignedPending | SignedLeave => (204, [])
  end.

(** The controller's answer is heard. A snapshot, an unchanged, a leave
    acknowledged or a gone notice for this Gateway, signed by a leaf trusted
    now for the poll's nonce, and read whole within the limit, is taken for
    what it is, and the connection is kept for the next poll. *)
Theorem signed_answers_are_heard (c : Client) (key : CertifiedKey) (k : Signed) (drawn have body : list Z) (leaving : bool) (now : Z)
  (hs rest : HeaderMap)
  (Hsign : sign key k (new_nonce drawn) (answer_of k have body).2 = Some hs) (Hleaf : leaf_trusted (leaf_of key) now = true)
  (Hkind : k <> SignedPending) (Hleave : leaving = true <-> k = SignedLeave)
  (Hgone : k = SignedGone -> decode_gone body = Some (client_gateway c) /\ refusal_of 404 body = None) :
  take_answer c (new_nonce drawn) have leaving now (answer_of k have body).1 (hs ++ rest) body
  = (match k with SignedSnapshot => AnsSnapshot body | SignedGone => Gone | SignedLeave => Left | _ => Unchanged end, true).
Proof.
  pose proof (sign_verifies key k _ _ hs now rest Hsign Hleaf) as Hv. unfold take_answer.
  destruct k; cbn [answer_of fst snd] in *; cbn [Z.eqb Pos.eqb andb].
  - by rewrite Hv.
  - destruct (Hgone eq_refl) as [Hd Hr]. assert (apiserver_refusal (via c) 404 body = None) as -> by (by destruct (via c)).
    cbn [negb]. unfold gone. rewrite Hv, Hd. by rewrite bool_decide_true by done.
  - destruct leaving; [discriminate (proj1 Hleave eq_refl)|]. by rewrite Hv.
  - done.
  - rewrite (proj2 Hleave eq_refl). by rewrite Hv.
Qed.
End Exchange.

(** ** At work *)

Definition toy_encode (l : list Z) : list Z := flat_map (fun b => [48 + b / 16; 48 + b mod 16]) l.

Fixpoint toy_decode (s : list Z) : option (list Z) :=
  match s with
  | [] => Some []
  | h :: l :: t =>
      if (48 <=? h) && (h <? 64) && (48 <=? l) && (l <? 64)
      then match toy_decode t with Some bytes => Some ((h - 48) * 16 + (l - 48) :: bytes) | None => None end
      else None
  | [_] => None
  end.

Lemma toy_round_trip l : Forall u8 l -> toy_decode (toy_encode l) = Some l.
Proof.
  induction 1 as [|b l Hb _ IH]; [done|]. unfold u8 in Hb. cbn [toy_encode flat_map app toy_decode] in *.
  assert (0 <= b / 16 < 16 /\ 0 <= b mod 16 < 16 /\ b / 16 * 16 + b mod 16 = b) as (H1 & H2 & H3) by (Z.div_mod_to_equations; lia).
  assert ((48 <=? 48 + b / 16) && (48 + b / 16 <? 64) && (48 <=? 48 + b mod 16) && (48 + b mod 16 <? 64) = true) as -> by lia.
  unfold toy_encode in IH. rewrite IH. do 2 f_equal. lia.
Qed.

Lemma toy_no_line_feed s l : toy_decode s = Some l -> 10 ∉ s.
Proof.
  assert (H : forall n s l, (length s <= n)%nat -> toy_decode s = Some l -> 10 ∉ s); [|by eapply H].
  clear s l. induction n as [|n IH]; intros [|h [|x t]] l Hn Hd; cbn in Hd, Hn; try done; try lia; try apply not_elem_of_nil.
  destruct (_ && _) eqn:E; [|done]. destruct (toy_decode t) as [bytes|] eqn:Et; [|done].
  specialize (IH t bytes ltac:(lia) Et). rewrite !not_elem_of_cons. split_and!; [lia|lia|done].
Qed.

Definition drawn_zeros : list Z := repeat 0 16.

Definition toy_nonce : list Z := toy_encode drawn_zeros.

Definition toy_body : list Z := bs "the snapshot".

(** A controller that signed one answer, with the signature [7]. *)
Definition toy_message : list Z := message SignedSnapshot toy_nonce toy_body.

Definition toy_crypto : AnswerCrypto.
Proof.
  refine {| b64_encode := toy_encode; b64_decode := toy_decode; CertifiedKey := unit; leaf_of := fun _ => [1];
            key_signs := fun _ msg => if beq msg toy_message then Some [7] else None;
            leaf_trusted := fun leaf _ => beq leaf [1];
            verify_signature := fun _ msg sig => beq msg toy_message && beq sig [7] |}.
  - apply toy_round_trip.
  - apply toy_no_line_feed.
  - intros k msg sig H. destruct (beq msg toy_message) eqn:E; [|done]. injection H as <-. split; [|cbn; by rewrite ?E].
    repeat constructor; lia.
  - intros _. repeat constructor; lia.
Defined.

Definition no_json : Json.
Proof.
  refine {| Value := unit; json_parse := fun _ => None; str_field := fun _ _ => None; u64_field := fun _ _ => None;
            decode_gone := fun _ => None; decode_snapshot := fun _ => None |}. done.
Defined.

#[local] Existing Instance toy_crypto.
#[local] Existing Instance no_json.

Definition toy_issued (k : Signed) (nonce body : list Z) : Prop := k = SignedSnapshot /\ nonce = toy_nonce /\ body = toy_body.

Lemma toy_unforgeable leaf now msg sig : leaf_trusted leaf now = true -> verify_signature leaf msg sig = true ->
  exists k nonce body, valid_nonce nonce = true /\ toy_issued k nonce body /\ msg = message k nonce body.
Proof.
  intros _ H. cbn in H. apply andb_true_iff in H as [H _]. apply bool_decide_eq_true in H.
  exists SignedSnapshot, toy_nonce, toy_body. split_and!; [vm_compute; reflexivity|done|done].
Qed.

Definition toy_client : Client := {| via := Direct; client_gateway := {| gk_namespace := bs "ns"; gk_name := bs "gw" |}; conn := false; max_answer := MAX_ANSWER |}.

Definition toy_headers : HeaderMap := [(SIGNATURE_HEADER, toy_encode [7]); (SIGNER_HEADER, toy_encode [1])].

Definition toy_net : Net := {| credentials := true; idle_open := false; on_idle := Lost;
  on_new := Some (Answered {| resp_status := 200; resp_headers := toy_headers; resp_body := Some toy_body |}) |}.

Lemma answers_are_the_controllers_witness :
  (poll toy_client (Ok toy_net) drawn_zeros [] false 0).1 = AnsSnapshot toy_body
  /\ says toy_issued toy_client toy_nonce [] false (AnsSnapshot toy_body).
Proof.
  assert (E : (poll toy_client (Ok toy_net) drawn_zeros [] false 0).1 = AnsSnapshot toy_body) by (vm_compute; reflexivity).
  split; [exact E|]. rewrite <- E.
  apply (answers_are_the_controllers toy_issued toy_unforgeable toy_client (Ok toy_net) drawn_zeros [] false 0).
  repeat constructor; lia.
Defined.

Lemma signed_answers_are_heard_witness :
  take_answer toy_client toy_nonce [] false 0 200 toy_headers toy_body = (AnsSnapshot toy_body, true).
Proof.
  apply (signed_answers_are_heard (AC := toy_crypto) toy_client tt SignedSnapshot drawn_zeros [] toy_body false 0 toy_headers []).
  - vm_compute. reflexivity.
  - vm_compute. reflexivity.
  - discriminate.
  - split; discriminate.
  - discriminate.
Defined.
