(* ===== verification/SyncLoop.v ===== *)
(** * The sync loop of a data plane

    [src/src/dataplane/mod.rs] and the backoff of
    [src/src/dataplane/remote.rs]: what a data plane makes of each answer of
    its controller, what it reports, and when it polls and binds again.
    [SyncLoop] is the loop's state with one definition per method; [run] is
    the step relation of its [select!]: an answer, an accept loop's end, a
    due rebind or a DNS refresh, in any order, the clock moving in between.
    Durations and times are nanoseconds. Error texts are the class
    [ErrorText]; log lines and the no-snapshot watchdog, which only logs, are
    left out. *)

From S2P Require Import Prelude Bytes Net Routing RouteBuild Health Config TlsPlan DataPlane Addresses Snapshot Apply SyncAnswer.

Definition HOLD : Z := 30000000000.
Definition FIRST_BACKOFF : Z := 1000000000.
Definition STANDBY_RETRY : Z := 1000000000.

(** ** Backoff *)

(** A [Backoff] is its ceiling. [fraction] is [mul_f64(fastrand::f64())]. *)
Abbreviation Backoff := Z.

Definition next_ceiling (b : Backoff) : Z * Backoff := (b, Z.min (b * 2) HOLD).

Definition wait (fraction : Z -> Z) (b : Backoff) : Z * Backoff := let '(c, b') := next_ceiling b in (fraction c, b').

Definition wait_at_least (fraction : Z -> Z) (b : Backoff) (floor : option Z) : Z * Backoff :=
  let '(jittered, b') := wait fraction b in
  (match floor with None => jittered | Some f => Z.max (Z.min f HOLD) jittered end, b').

(** ** State *)

#[export] Instance TlsBuildError_eq_dec : EqDecision TlsBuildError.
Proof. solve_decision. Defined.
#[export] Instance TlsFailure_eq_dec : EqDecision TlsFailure.
Proof. solve_decision. Defined.
#[export] Instance BindReason_eq_dec : EqDecision BindReason.
Proof. solve_decision. Defined.
#[export] Instance Refusal_eq_dec : EqDecision Refusal.
Proof. solve_decision. Defined.
#[export] Instance ReportError_eq_dec : EqDecision ReportError.
Proof. solve_decision. Defined.
#[export] Instance EndpointReport_eq_dec : EqDecision EndpointReport.
Proof. solve_decision. Defined.
#[export] Instance ListenerReport_eq_dec : EqDecision ListenerReport.
Proof. solve_decision. Defined.
#[export] Instance InstanceReport_eq_dec : EqDecision InstanceReport.
Proof. solve_decision. Defined.

Class ErrorText : Type := { text : PollError -> list Z }.

Section Loop.
Context {RE : RegexEngine} {RL : Rustls} {FN : Fnv} {CT : ConfigText} {AC : AnswerCrypto} {JS : Json} {ET : ErrorText}.
Context (http2 : bool).

Record SyncLoop := {
  sl_gateway : GatewayKey;
  sl_applier : Applier;
  current : option Snapshot;
  have : list Z;
  report : option InstanceReport;
  failures : Backoff;
  rebinds : Backoff;
  rebind_at : option Z;
  last_error : option PollError;
  refused : option (list Z * PollError);
  unverified : option PollError;
  (** Of [ControllerSync]: whether the last poll was answered, and when what
      is served was last confirmed. *)
  connected : bool;
  confirmed : option Z;
}.

Definition SyncLoop_new (g : GatewayKey) (a : Applier) : SyncLoop := {|
  sl_gateway := g; sl_applier := a; current := None; have := []; report := None; failures := FIRST_BACKOFF; rebinds := FIRST_BACKOFF;
  rebind_at := None; last_error := None; refused := None; unverified := None; connected := false; confirmed := None |}.

Record SyncRequest := { sr_protocol : Z; sr_gateway : GatewayKey; sr_have : list Z; sr_report : option InstanceReport }.

(** The fields a method writes. *)
Definition with_served (s : SyncLoop) (a : Applier) (cur : option Snapshot) (h : list Z) (r : option InstanceReport)
  (ref : option (list Z * PollError)) : SyncLoop := {|
  sl_gateway := sl_gateway s; sl_applier := a; current := cur; have := h; report := r; failures := failures s; rebinds := rebinds s;
  rebind_at := rebind_at s; last_error := last_error s; refused := ref; unverified := unverified s; connected := connected s;
  confirmed := confirmed s |}.

Definition with_rebind (s : SyncLoop) (b : Backoff) (at_ : option Z) : SyncLoop := {|
  sl_gateway := sl_gateway s; sl_applier := sl_applier s; current := current s; have := have s; report := report s;
  failures := failures s; rebinds := b; rebind_at := at_; last_error := last_error s; refused := refused s;
  unverified := unverified s; connected := connected s; confirmed := confirmed s |}.

Definition with_poll (s : SyncLoop) (f : Backoff) (err : option PollError) (unv : option PollError) (conn : bool) (conf : option Z) : SyncLoop := {|
  sl_gateway := sl_gateway s; sl_applier := sl_applier s; current := current s; have := have s; report := report s;
  failures := f; rebinds := rebinds s; rebind_at := rebind_at s; last_error := err; refused := refused s;
  unverified := unv; connected := conn; confirmed := conf |}.

Definition set_error (r : InstanceReport) (e : option (list Z)) : InstanceReport := {|
  applied := applied r; apply_error := e; lrs := lrs r; interface_ips := interface_ips r; networks := networks r;
  r_dns_epoch := r_dns_epoch r; leaving := leaving r |}.

Definition set_epoch (r : InstanceReport) (n : Z) : InstanceReport := {|
  applied := applied r; apply_error := apply_error r; lrs := lrs r; interface_ips := interface_ips r; networks := networks r;
  r_dns_epoch := n; leaving := leaving r |}.

Definition set_leaving (r : InstanceReport) : InstanceReport := {|
  applied := applied r; apply_error := apply_error r; lrs := lrs r; interface_ips := interface_ips r; networks := networks r;
  r_dns_epoch := r_dns_epoch r; leaving := true |}.

(** ** What the loop says *)

Definition request (s : SyncLoop) : SyncRequest := {|
  sr_protocol := PROTOCOL; sr_gateway := sl_gateway s; sr_have := have s;
  sr_report := match unverified s with
               | Some e => (fun r => set_error r (Some (text e))) <$> report s
               | None => report s
               end |}.

(** The request of [leave]: none before the first apply. *)
Definition leave_request (s : SyncLoop) : option SyncRequest :=
  match report s with
  | None => None
  | Some r => Some {| sr_protocol := PROTOCOL; sr_gateway := sl_gateway s; sr_have := have s; sr_report := Some (set_leaving r) |}
  end.

Definition as_reported (refused : option (list Z * PollError)) (r : InstanceReport) : InstanceReport :=
  match refused with
  | Some (version, error) => {| applied := version; apply_error := Some (text error); lrs := []; interface_ips := interface_ips r;
                                networks := networks r; r_dns_epoch := r_dns_epoch r; leaving := leaving r |}
  | None => r
  end.

(** ** What it does *)

(** [schedule_rebind] at [now]. *)
Definition schedule_rebind (s : SyncLoop) (now : Z) : SyncLoop :=
  let unresolved := match current s, report s with
                    | Some snapshot, Some r => negb (is_nil (unresolved_networks (g_addresses (gateway (s_config snapshot))) (networks r)))
                    | _, _ => false
                    end in
  if ready (sl_applier s) && negb unresolved then with_rebind s FIRST_BACKOFF None
  else let '(c, b) := next_ceiling (rebinds s) in with_rebind s b (Some (now + c)).

Definition serve (env : Env) (s : SyncLoop) (snapshot : Snapshot) (now : Z) : SyncLoop :=
  let '(a, r) := apply env http2 (sl_applier s) snapshot in
  schedule_rebind (with_rebind (with_served s a (Some snapshot) (version snapshot) (Some r) None) FIRST_BACKOFF (rebind_at s)) now.

Definition default_report (env : Env) (a : Applier) : InstanceReport := {|
  applied := []; apply_error := None; lrs := []; interface_ips := local_ips env; networks := ∅; r_dns_epoch := dns_epoch a; leaving := false |}.

Definition refuse (env : Env) (s : SyncLoop) (version : list Z) (error : PollError) : SyncLoop :=
  let previous := default (default_report env (sl_applier s)) (report s) in
  with_served s (sl_applier s) (current s) version (Some (as_reported (Some (version, error)) previous)) (Some (version, error)).

Definition gone_away (env : Env) (s : SyncLoop) : SyncLoop :=
  let a := match current s with Some _ => clear env http2 (sl_applier s) | None => sl_applier s end in
  with_rebind (with_served s a None [] None None) (rebinds s) None.

Definition answered (s : SyncLoop) (is_current : bool) (now : Z) : SyncLoop :=
  with_poll s (failures s) None None true (if is_current then Some now else confirmed s).

Definition succeeded (s : SyncLoop) (is_current : bool) (now : Z) : SyncLoop :=
  let s := answered s is_current now in with_poll s FIRST_BACKOFF (last_error s) (unverified s) (connected s) (confirmed s).

(** Each returns when to poll next; [later] is the clock once it is done. *)
Definition standby (fraction : Z -> Z) (s : SyncLoop) (error : PollError) (later : Z) : SyncLoop * Z :=
  (with_poll s (failures s) (Some error) (unverified s) false (confirmed s), later + fraction STANDBY_RETRY).

Definition failed (fraction : Z -> Z) (s : SyncLoop) (after : option Z) (error : PollError) (later : Z) : SyncLoop * Z :=
  let '(delay, b) := wait_at_least fraction (failures s) after in
  (with_poll s b (Some error) (unverified s) false (confirmed s), later + delay).

Definition unverified_answer (fraction : Z -> Z) (s : SyncLoop) (error : PollError) (later : Z) : SyncLoop * Z :=
  failed fraction (with_poll s (failures s) (last_error s) (Some error) (connected s) (confirmed s)) None error later.

(** A 200's body: the snapshot, or the version refused and why. *)
Definition decode (body : list Z) : result Snapshot (option (list Z) * PollError) :=
  match json_parse body with
  | None => Err (None, NotJson)
  | Some value =>
      match str_field value (bs "version") with
      | None | Some [] => Err (None, WithoutVersion)
      | Some version =>
          let protocol := u64_field value (bs "protocol") in
          if negb (bool_decide (protocol = Some PROTOCOL)) then Err (Some version, OtherProtocol protocol)
          else match decode_snapshot value with
               | Some snapshot => Ok snapshot
               | None => Err (Some version, NotDecoded)
               end
      end
  end.

(** [Duration::from_secs] of a Retry-After. *)
Definition after_ns (after : option Z) : option Z := (fun s => s * 1000000000) <$> after.

Definition handle (env : Env) (fraction : Z -> Z) (s : SyncLoop) (a : Answer) (now later : Z) : SyncLoop * Z :=
  match a with
  | Unchanged => (succeeded s (negb (is_some (refused s))) now, now)
  | Pending | Left => (succeeded s false now, now)
  | Gone =>
      let s := gone_away env (answered s true now) in
      let '(delay, b) := wait fraction (failures s) in
      (with_poll s b (last_error s) (unverified s) (connected s) (confirmed s), now + delay)
  | Standby e => standby fraction s e later
  | Unverified e => unverified_answer fraction s e later
  | Retry after e => failed fraction s (after_ns after) e later
  | AnsSnapshot body =>
      match decode body with
      | Ok snapshot =>
          if bool_decide (GatewayRef_key (s_gateway snapshot) = sl_gateway s)
          then (serve env (succeeded s true now) snapshot later, now)
          else (refuse env (succeeded s false now) (version snapshot) (OtherGateway (GatewayRef_key (s_gateway snapshot))), now)
      | Err (Some version, e) => (refuse env (succeeded s false now) version e, now)
      | Err (None, e) => failed fraction s None e later
      end
  end.

(** [reapply]: whether the report moved. *)
Definition reapply (env : Env) (s : SyncLoop) (now : Z) : SyncLoop * bool :=
  match current s with
  | None => (with_rebind s (rebinds s) None, false)
  | Some snapshot =>
      let '(a, r) := apply env http2 (sl_applier s) snapshot in
      let r := as_reported (refused s) r in
      (schedule_rebind (with_served s a (Some snapshot) (have s) (Some r) (refused s)) now, negb (bool_decide (report s = Some r)))
  end.

Definition dns_moved (s : SyncLoop) : SyncLoop * bool :=
  let epoch := dns_epoch (sl_applier s) in
  match report s with
  | Some r => if r_dns_epoch r =? epoch then (s, false)
              else (with_served s (sl_applier s) (current s) (have s) (Some (set_epoch r epoch)) (refused s), true)
  | None => (s, false)
  end.

(** ** The loop *)

Record Run := {
  loop : SyncLoop;
  client : Client;
  (** The request of the poll now waiting or held, and when it is sent. *)
  in_flight : SyncRequest;
  poll_at : Z;
  clock : Z;
  (** [listener_exits] has a change not read yet. *)
  exits : bool;
}.

(** An accept loop ended by itself: not ready, whatever it served. *)
Definition lose_loops (a : Applier) (ts : gset Task) : Applier := {|
  data_plane := finish (data_plane a) ts; routes := routes a; health := health a; ready := false; published := published a;
  last_applied := last_applied a; dns_epoch := dns_epoch a |}.

(** A DNS refresh swapped the table. *)
Definition refreshed (a : Applier) (t : RouteTable) (p : option Published) : Applier := {|
  data_plane := data_plane a; routes := t; health := prune (health a) t; ready := ready a; published := p;
  last_applied := last_applied a; dns_epoch := dns_epoch a + 1 |}.

Definition with_applier (s : SyncLoop) (a : Applier) : SyncLoop := with_served s a (current s) (have s) (report s) (refused s).

(** The poll goes on, or is dropped for one with what moved. *)
Definition after_move (r : Run) (s : SyncLoop) (moved untaken ex : bool) : Run := {|
  loop := s;
  client := if moved then set_conn (client r) (conn (client r) && untaken) else client r;
  in_flight := if moved then request s else in_flight r;
  poll_at := poll_at r; clock := clock r; exits := ex |}.

Inductive run : Run -> Run -> Prop :=
  | time_passes r t : clock r <= t ->
      run r {| loop := loop r; client := client r; in_flight := in_flight r; poll_at := poll_at r; clock := t; exits := exits r |}
  | loop_ended r ts :
      run r {| loop := with_applier (loop r) (lose_loops (sl_applier (loop r)) ts); client := client r; in_flight := in_flight r;
               poll_at := poll_at r; clock := clock r; exits := true |}
  | dns_swapped r t p :
      run r {| loop := with_applier (loop r) (refreshed (sl_applier (loop r)) t p); client := client r; in_flight := in_flight r;
               poll_at := poll_at r; clock := clock r; exits := exits r |}
  (** An answer to the poll in flight. Loops may end during the apply it
      calls for ([died]). *)
  | poll_answered r env fraction net drawn unix later a c' s' at_ died :
      poll_at r <= clock r <= later -> Forall u8 drawn -> (forall d, 0 <= d -> 0 <= fraction d <= d) ->
      poll (client r) net drawn (sr_have (in_flight r)) false unix = (a, c') ->
      handle env fraction (loop r) a (clock r) later = (s', at_) ->
      run r {| loop := s'; client := c'; in_flight := request s'; poll_at := at_; clock := later; exits := exits r || died |}
  | loop_exit_seen r env s' moved untaken died :
      exits r = true -> reapply env (loop r) (clock r) = (s', moved) ->
      run r (after_move r s' moved untaken died)
  | rebind_due r env t s' moved untaken died :
      rebind_at (loop r) = Some t -> t <= clock r -> reapply env (loop r) (clock r) = (s', moved) ->
      run r (after_move r s' moved untaken (exits r || died))
  | dns_seen r s' moved untaken :
      dns_moved (loop r) = (s', moved) -> run r (after_move r s' moved untaken (exits r)).

Definition run_new (g : GatewayKey) (a : Applier) (c : Client) (t : Z) : Run := {|
  loop := SyncLoop_new g a; client := c; in_flight := request (SyncLoop_new g a); poll_at := t; clock := t; exits := false |}.

(** Any run of a data plane for [g], its client's Gateway. *)
Inductive reached (g : GatewayKey) : Run -> Prop :=
  | reached_new a c t : client_gateway c = g -> reached g (run_new g a c t)
  | reached_step r r' : reached g r -> run r r' -> reached g r'.

(** ** What an answer changes *)

(** Two states that serve, report and owe the same. *)
Record same_core (s s' : SyncLoop) : Prop := {
  sc_gateway : sl_gateway s' = sl_gateway s;
  sc_applier : sl_applier s' = sl_applier s;
  sc_current : current s' = current s;
  sc_have : have s' = have s;
  sc_report : report s' = report s;
  sc_refused : refused s' = refused s;
  sc_rebinds : rebinds s' = rebinds s;
  sc_rebind_at : rebind_at s' = rebind_at s;
}.

Lemma with_poll_core s f e u c t : same_core s (with_poll s f e u c t).
Proof. by split. Qed.

Lemma succeeded_core s b now : same_core s (succeeded s b now).
Proof. by split. Qed.

Definition ceiling_ok (b : Backoff) : Prop := 0 <= b <= HOLD.

Lemma next_ceiling_ok b c b' : ceiling_ok b -> next_ceiling b = (c, b') -> ceiling_ok c /\ ceiling_ok b'.
Proof. unfold ceiling_ok. intros H [= <- <-]. unfold HOLD in *. lia. Qed.

Lemma wait_ok fraction b d b' :
  (forall d, 0 <= d -> 0 <= fraction d <= d) -> ceiling_ok b -> wait fraction b = (d, b') -> ceiling_ok d /\ ceiling_ok b'.
Proof.
  intros Hf Hb. unfold wait. destruct (next_ceiling b) as [c b0] eqn:E. intros [= <- <-].
  destruct (next_ceiling_ok b c b0 Hb E) as [[? ?] ?]. split; [|done]. specialize (Hf c ltac:(lia)). unfold ceiling_ok. lia.
Qed.

Lemma wait_at_least_ok fraction b floor d b' :
  (forall d, 0 <= d -> 0 <= fraction d <= d) -> ceiling_ok b -> wait_at_least fraction b floor = (d, b') -> ceiling_ok d /\ ceiling_ok b'.
Proof.
  intros Hf Hb. unfold wait_at_least. destruct (wait fraction b) as [j b0] eqn:E. intros [= <- <-].
  destruct (wait_ok fraction b j b0 Hf Hb E) as [[? ?] ?]. split; [|done]. unfold ceiling_ok, HOLD in *. destruct floor; lia.
Qed.

Lemma decode_version body sn : decode body = Ok sn -> version sn <> [].
Proof.
  unfold decode. destruct (json_parse body) as [v|]; [|done]. destruct (str_field v (bs "version")) as [[|b vs]|] eqn:Ev; [done| |done].
  destruct (negb _); [done|]. destruct (decode_snapshot v) as [s|] eqn:Es; [|done]. intros [= <-].
  destruct (decode_snapshot_fields v s Es) as [E _]. rewrite Ev in E. injection E as <-. done.
Qed.

Lemma decode_refused body v e : decode body = Err (Some v, e) -> v <> [].
Proof.
  unfold decode. destruct (json_parse body) as [x|]; [|done]. destruct (str_field x (bs "version")) as [[|b vs]|]; [done| |done].
  destruct (negb _); [by intros [= <- _]|]. destruct (decode_snapshot x); [done|]. by intros [= <- _].
Qed.

(** The answer [a] made [s] into [s']. *)
Inductive outcome (env : Env) (s : SyncLoop) (a : Answer) (later : Z) : SyncLoop -> Prop :=
  | kept_on s' : same_core s s' -> outcome env s a later s'
  | took_snapshot s0 body sn : a = AnsSnapshot body -> decode body = Ok sn -> GatewayRef_key (s_gateway sn) = sl_gateway s ->
      same_core s s0 -> outcome env s a later (serve env s0 sn later)
  | refused_snapshot s0 body v e : a = AnsSnapshot body -> v <> [] -> same_core s s0 -> outcome env s a later (refuse env s0 v e)
  | went_away s0 s' : a = Gone -> same_core s s0 -> same_core (gone_away env s0) s' -> outcome env s a later s'.

Lemma handle_outcome env fraction s a now later s' at_ :
  (forall d, 0 <= d -> 0 <= fraction d <= d) -> ceiling_ok (failures s) -> now <= later -> handle env fraction s a now later = (s', at_) ->
  outcome env s a later s' /\ at_ <= later + HOLD /\ ceiling_ok (failures s').
Proof.
  intros Hf Hc Hle. assert (Hfirst : ceiling_ok FIRST_BACKOFF) by (unfold ceiling_ok, FIRST_BACKOFF, HOLD; lia).
  assert (Hnow : now <= later + HOLD) by (unfold HOLD; lia).
  assert (Hfail : forall s0 after e, same_core s s0 -> failures s0 = failures s -> failed fraction s0 after e later = (s', at_) ->
    outcome env s a later s' /\ at_ <= later + HOLD /\ ceiling_ok (failures s')).
  { intros s0 after e Hs Ef H. unfold failed in H. rewrite Ef in H. destruct (wait_at_least _ _ _) as [d b] eqn:Ew. injection H as <- <-.
    destruct (wait_at_least_ok _ _ _ _ _ Hf Hc Ew) as [[? ?] ?]. split_and!; [|lia|done]. apply kept_on. destruct Hs. by split. }
  destruct a as [body| | | | |e|e|after e]; cbn [handle].
  - destruct (decode body) as [sn|[[v|] e]] eqn:Ed.
    + case_bool_decide as Hk; intros [= <- <-].
      * split_and!; [|done|].
        -- eapply took_snapshot; [done|done|done|apply succeeded_core].
        -- unfold serve. destruct (apply _ _ _ _). unfold schedule_rebind. destruct (_ && _); [done|]. by destruct (next_ceiling _).
      * split_and!; [|done|done]. eapply refused_snapshot; [done|by eapply decode_version|apply succeeded_core].
    + intros [= <- <-]. split_and!; [|done|done]. eapply refused_snapshot; [done|by eapply decode_refused|apply succeeded_core].
    + by apply Hfail.
  - intros [= <- <-]. split_and!; [apply kept_on, succeeded_core|done|done].
  - intros [= <- <-]. split_and!; [apply kept_on, succeeded_core|done|done].
  - intros [= <- <-]. split_and!; [apply kept_on, succeeded_core|done|done].
  - destruct (wait fraction _) as [d b] eqn:Ew. intros [= <- <-]. destruct (wait_ok _ _ _ _ Hf Hc Ew) as [[? ?] ?].
    split_and!; [|lia|done]. eapply (went_away _ _ _ _ (answered s true now)); by split.
  - unfold standby. intros [= <- <-]. specialize (Hf STANDBY_RETRY ltac:(unfold STANDBY_RETRY; lia)).
    split_and!; [by apply kept_on|unfold STANDBY_RETRY, HOLD in *; lia|done].
  - intros H. unfold unverified_answer in H. eapply Hfail; [| |exact H]; by try split.
  - by apply Hfail.
Qed.

(** ** What the loop reports *)

(** What becomes of an applier between two applies. *)
Definition drifts (a a' : Applier) : Prop := (exists ts, a' = lose_loops a ts) \/ exists t p, a' = refreshed a t p.

(** [r] is what the last apply reported of [sn], the table's epoch but for a
    later one. *)
Definition reported_by (s : SyncLoop) (sn : Snapshot) (r : InstanceReport) : Prop :=
  exists env a epoch, r = set_epoch (apply env http2 a sn).2 epoch /\ rtc drifts (apply env http2 a sn).1 (sl_applier s).

Definition report_ok (s : SyncLoop) : Prop :=
  (forall sn, current s = Some sn -> version sn <> [] /\ GatewayRef_key (s_gateway sn) = sl_gateway s)
  /\ match refused s with
     | Some (v, e) => have s = v /\ v <> []
         /\ exists r, report s = Some r /\ applied r = v /\ apply_error r = Some (text e) /\ lrs r = [] /\ leaving r = false
     | None =>
         match current s with
         | Some sn => have s = version sn
             /\ exists r, report s = Some r /\ applied r = version sn /\ leaving r = false
                  /\ map lr_name (lrs r) = map l_name (listeners (gateway (to_config sn))) /\ reported_by s sn r
         | None => have s = [] /\ report s = None
         end
     end.

Lemma report_ok_core s s' : same_core s s' -> report_ok s -> report_ok s'.
Proof. intros [Eg Ea Ec Eh Er Ef _ _]. unfold report_ok, reported_by. by rewrite Eg, Ea, Ec, Eh, Er, Ef. Qed.

Lemma report_ok_drifts s a : drifts (sl_applier s) a -> report_ok s -> report_ok (with_applier s a).
Proof.
  intros Hd [Hc Hr]. split; [exact Hc|]. cbn. destruct (refused s) as [[v e]|]; [exact Hr|]. destruct (current s) as [sn|]; [|exact Hr].
  destruct Hr as (Hh & r & E & Ha & Hl & Hn & env & a0 & n & Er & Ht). split; [done|]. exists r. split_and!; try done.
  exists env, a0, n. split; [done|]. by eapply rtc_r.
Qed.

Lemma schedule_rebind_core s now : let s' := schedule_rebind s now in
  sl_gateway s' = sl_gateway s /\ sl_applier s' = sl_applier s /\ current s' = current s /\ have s' = have s /\ report s' = report s
  /\ refused s' = refused s /\ unverified s' = unverified s /\ failures s' = failures s.
Proof. unfold schedule_rebind. destruct (_ && _); [done|]. by destruct (next_ceiling _). Qed.

Lemma report_ok_scheduled s now : report_ok s -> report_ok (schedule_rebind s now).
Proof.
  destruct (schedule_rebind_core s now) as (Eg & Ea & Ec & Eh & Er & Ef & _ & _). unfold report_ok, reported_by. by rewrite Eg, Ea, Ec, Eh, Er, Ef.
Qed.

Lemma apply_report env a sn : let r := (apply env http2 a sn).2 in
  applied r = version sn /\ leaving r = false /\ map lr_name (lrs r) = map l_name (listeners (gateway (to_config sn)))
  /\ r = set_epoch r (r_dns_epoch r).
Proof.
  unfold apply. destruct (bring_up _ _ _ _) as [a' st]. cbn [snd applied leaving lrs]. split_and!; [done|done| |done].
  unfold listener_reports. cbn [sv_config]. by rewrite map_map.
Qed.

Lemma serve_report env s sn now :
  version sn <> [] -> GatewayRef_key (s_gateway sn) = sl_gateway s -> report_ok (serve env s sn now).
Proof.
  intros Hv Hk. unfold serve. pose proof (apply_report env (sl_applier s) sn) as Hr.
  destruct (apply env http2 (sl_applier s) sn) as [a r] eqn:Ea. destruct Hr as (E1 & E2 & E3 & E4). apply report_ok_scheduled.
  split; cbn; [by intros sn' [= <-]|]. split; [done|]. exists r. split_and!; try done. exists env, (sl_applier s), (r_dns_epoch r).
  by rewrite Ea.
Qed.

Lemma refuse_report env s v e : report_ok s -> v <> [] -> report_ok (refuse env s v e).
Proof.
  intros [Hc Hr] Hv. split; [exact Hc|]. cbn. split_and!; [done|done|]. eexists. split_and!; try done. cbn.
  destruct (refused s) as [[v' e']|].
  - destruct Hr as (_ & _ & r & -> & _ & _ & _ & Hl). exact Hl.
  - destruct (current s); [destruct Hr as (_ & r & -> & _ & Hl & _ & _); exact Hl|destruct Hr as [_ ->]; done].
Qed.

Lemma reapply_report env s now s' moved : report_ok s -> reapply env s now = (s', moved) ->
  report_ok s' /\ (moved = false -> request s' = request s).
Proof.
  intros [Hc Hr] H. unfold reapply in H. destruct (current s) as [sn|] eqn:Ec.
  - pose proof (apply_report env (sl_applier s) sn) as Ha. destruct (apply env http2 (sl_applier s) sn) as [a r] eqn:Ea. cbn [snd] in Ha.
    destruct Ha as (E1 & E2 & E3 & E4). injection H as <- <-. split.
    + apply report_ok_scheduled. split; cbn; [by intros sn' [= <-]; apply Hc|]. unfold as_reported.
      destruct (refused s) as [[v e]|].
      * destruct Hr as (Hh & Hv & _). split_and!; [done|done|]. by eexists.
      * destruct Hr as (Hh & _). split; [done|]. exists r. split_and!; try done. exists env, (sl_applier s), (r_dns_epoch r). by rewrite Ea.
    + intros Hm. apply negb_false_iff, bool_decide_eq_true in Hm.
      pose proof (schedule_rebind_core (with_served s a (Some sn) (have s) (Some (as_reported (refused s) r)) (refused s)) now) as Hsr.
      cbv zeta in Hsr. destruct Hsr as (Eg & _ & _ & Eh & Er & _ & Eu & _). unfold request. rewrite Eg, Eh, Er, Eu. cbn. by rewrite Hm.
  - injection H as <- <-. split; [|done]. split; [cbn; by rewrite Ec|]. cbn. by rewrite Ec.
Qed.

Lemma dns_moved_report s s' moved : report_ok s -> dns_moved s = (s', moved) -> report_ok s' /\ (moved = false -> request s' = request s).
Proof.
  intros Hok H. unfold dns_moved in H. destruct (report s) as [r|] eqn:Er; [|by injection H as <- <-].
  destruct (_ =? _); injection H as <- <-; [done|]. split; [|done]. destruct Hok as [Hc Hr]. split; [done|]. cbn.
  destruct (refused s) as [[v e]|].
  - destruct Hr as (Hh & Hv & r' & Er' & H). rewrite Er in Er'. injection Er' as <-. split_and!; [done|done|]. by exists (set_epoch r (dns_epoch (sl_applier s))).
  - destruct (current s); [|destruct Hr as [_ Hr]; congruence].
    destruct Hr as (Hh & r' & Er' & Ha & Hl & Hn & env & a0 & n & Er0 & Ht). rewrite Er in Er'. injection Er' as <-. split; [done|].
    exists (set_epoch r (dns_epoch (sl_applier s))). split_and!; try done. exists env, a0, (dns_epoch (sl_applier s)). by rewrite Er0.
Qed.

Lemma outcome_report env s a later s' : report_ok s -> outcome env s a later s' -> report_ok s'.
Proof.
  intros Hok [s1 Hs|s0 body sn _ Hd Hk Hs|s0 body v e _ Hv Hs|s0 s1 _ Hs Hg].
  - by eapply report_ok_core.
  - apply serve_report; [by eapply decode_version|]. by rewrite (sc_gateway _ _ Hs).
  - apply refuse_report; [|done]. by eapply report_ok_core.
  - eapply report_ok_core; [exact Hg|]. by split.
Qed.

(** ** What it owes *)

(** Every endpoint required is live and every network resolved, as of the
    last apply. *)
Definition fully_bound (s : SyncLoop) : Prop :=
  ready (sl_applier s) = true /\ exists sn r, current s = Some sn /\ report s = Some r
    /\ unresolved_networks (g_addresses (gateway (s_config sn))) (networks r) = [].

Definition rebind_owed (s : SyncLoop) (now : Z) : Prop := exists t, rebind_at s = Some t /\ t <= now + HOLD.

Definition owes (s : SyncLoop) (now : Z) : Prop := current s = None \/ fully_bound s \/ rebind_owed s now.

Lemma owes_later s now later : now <= later -> owes s now -> owes s later.
Proof. intros Hle [H|[H|(t & Ht & Hb)]]; [by left|right; by left|right; right]. exists t. split; [done|lia]. Qed.

Lemma owes_core s s' now : same_core s s' -> owes s now -> owes s' now.
Proof. intros [_ Ea Ec _ Er _ _ Et]. unfold owes, fully_bound, rebind_owed. by rewrite Ea, Ec, Er, Et. Qed.

Lemma schedule_owes s now sn r :
  ceiling_ok (rebinds s) -> current s = Some sn -> report s = Some r -> owes (schedule_rebind s now) now /\ ceiling_ok (rebinds (schedule_rebind s now)).
Proof.
  intros Hc Es Er. unfold schedule_rebind. rewrite Es, Er. destruct (_ && _) eqn:E.
  - apply andb_true_iff in E as [Hr Hu]. rewrite negb_involutive in Hu. split; [|cbn; unfold ceiling_ok, FIRST_BACKOFF, HOLD; lia].
    right. left. split; [done|]. exists sn, r. split_and!; [done|done|]. by destruct (unresolved_networks _ _).
  - destruct (next_ceiling (rebinds s)) as [c b] eqn:En. destruct (next_ceiling_ok _ _ _ Hc En) as [[? ?] ?].
    split; [|done]. right. right. exists (now + c). cbn. split; [done|lia].
Qed.

Lemma serve_owes env s sn now : owes (serve env s sn now) now /\ ceiling_ok (rebinds (serve env s sn now)).
Proof.
  unfold serve. destruct (apply env http2 (sl_applier s) sn) as [a r]. eapply schedule_owes; [|done|done].
  cbn. unfold ceiling_ok, FIRST_BACKOFF, HOLD. lia.
Qed.

Lemma reapply_owes env s now s' moved :
  ceiling_ok (rebinds s) -> reapply env s now = (s', moved) -> owes s' now /\ ceiling_ok (rebinds s').
Proof.
  intros Hc H. unfold reapply in H. destruct (current s) as [sn|] eqn:Ec.
  - destruct (apply env http2 (sl_applier s) sn) as [a r]. injection H as <- <-. by eapply schedule_owes.
  - injection H as <- <-. split; [by left|done].
Qed.

Lemma refuse_owes env s v e now : report_ok s -> owes s now -> owes (refuse env s v e) now.
Proof.
  intros [_ Hr] [H|[(Hrd & sn & r & Ec & Er & Hu)|H]]; [by left|right; left|right; right; exact H].
  split; [done|]. exists sn. eexists. split_and!; [done|done|]. cbn. by rewrite Er.
Qed.

Lemma outcome_owes env s a later s' :
  report_ok s -> ceiling_ok (rebinds s) -> owes s later -> outcome env s a later s' -> owes s' later /\ ceiling_ok (rebinds s').
Proof.
  intros Hok Hc Ho [s1 Hs|s0 body sn _ Hd Hk Hs|s0 body v e _ Hv Hs|s0 s1 _ Hs Hg].
  - split; [by eapply owes_core|]. by rewrite (sc_rebinds _ _ Hs).
  - apply serve_owes.
  - split; [|cbn; by rewrite (sc_rebinds _ _ Hs)]. apply refuse_owes; [by eapply report_ok_core|by eapply owes_core].
  - split; [left; by rewrite (sc_current _ _ Hg)|]. rewrite (sc_rebinds _ _ Hg). cbn. by rewrite (sc_rebinds _ _ Hs).
Qed.

Record run_ok (r : Run) : Prop := {
  ok_in_flight : in_flight r = request (loop r);
  ok_report : report_ok (loop r);
  ok_owes : exits r = true \/ owes (loop r) (clock r);
  ok_rebinds : ceiling_ok (rebinds (loop r));
  ok_failures : ceiling_ok (failures (loop r));
  ok_poll : poll_at r <= clock r + HOLD;
}.

(** A re-apply or a DNS move, the poll following. *)
Lemma after_move_ok r s' moved untaken ex :
  run_ok r -> report_ok s' -> (moved = false -> request s' = request (loop r)) -> (ex = true \/ owes s' (clock r)) ->
  ceiling_ok (rebinds s') -> failures s' = failures (loop r) -> run_ok (after_move r s' moved untaken ex).
Proof.
  intros [Hf _ _ _ Hfl Hp] Hrep Hreq Howe Hreb Ef. split; cbn; try done; [|by rewrite Ef].
  destruct moved; [done|]. rewrite Hf. symmetry. by apply Hreq.
Qed.

Lemma reapply_failures env s now s' moved : reapply env s now = (s', moved) -> failures s' = failures s.
Proof.
  unfold reapply. destruct (current s); [|by intros [= <- _]]. destruct (apply _ _ _ _). intros [= <- _].
  by destruct (schedule_rebind_core (with_served s a (Some s0) (have s) (Some (as_reported (refused s) i)) (refused s)) now) as (_ & _ & _ & _ & _ & _ & _ & E).
Qed.

Lemma dns_owes s s' moved now : owes s now -> dns_moved s = (s', moved) -> owes s' now /\ rebinds s' = rebinds s /\ failures s' = failures s.
Proof.
  intros Ho H. unfold dns_moved in H. destruct (report s) as [r|] eqn:Er; [|by injection H as <- _].
  destruct (_ =? _); injection H as <- _; [done|]. split; [|done]. destruct Ho as [H|[(Hrd & sn & r' & Ec & Er' & Hu)|H]].
  - by left.
  - right. left. split; [done|]. rewrite Er in Er'. injection Er' as <-. exists sn. eexists. by split_and!.
  - right. by right.
Qed.

Lemma run_preserves r r' : run_ok r -> run r r' -> run_ok r'.
Proof.
  intros Hok Hstep. pose proof Hok as [Hf Hrep Hown Hreb Hfl Hp]. destruct Hstep.
  - split; cbn; try done; [|lia]. destruct Hown as [?|?]; [by left|right; by eapply owes_later].
  - split; cbn; try done; [apply report_ok_drifts; [left; by exists ts|done]|by left].
  - split; cbn; try done. apply report_ok_drifts; [right; by exists t, p|done].
  - destruct (handle_outcome _ _ _ _ _ _ _ _ H1 Hfl (proj2 H) H3) as (Ho & Hat & Hf').
    assert (Hnow : exits r = true \/ owes (loop r) later) by (destruct Hown as [?|?]; [by left|right; eapply owes_later; [|done]; lia]).
    split; cbn; [done|by eapply outcome_report| | |done|lia].
    + destruct Hnow as [->|Hnow]; [by left|]. right. by eapply outcome_owes.
    + inversion Ho; subst; cbn.
      * by rewrite (sc_rebinds _ _ H4).
      * apply serve_owes.
      * by rewrite (sc_rebinds _ _ H6).
      * rewrite (sc_rebinds _ _ H6). cbn. by rewrite (sc_rebinds _ _ H5).
  - destruct (reapply_report _ _ _ _ _ Hrep H0). destruct (reapply_owes _ _ _ _ _ Hreb H0).
    apply (after_move_ok r s' moved untaken died Hok); try done; [by right|by eapply reapply_failures].
  - destruct (reapply_report _ _ _ _ _ Hrep H1). destruct (reapply_owes _ _ _ _ _ Hreb H1).
    apply (after_move_ok r s' moved untaken _ Hok); try done; [by right|by eapply reapply_failures].
  - destruct (dns_moved_report _ _ _ Hrep H) as [Hrep' Hreq].
    assert (Hrf : rebinds s' = rebinds (loop r) /\ failures s' = failures (loop r)).
    { unfold dns_moved in H. destruct (report (loop r)); [|by injection H as <- _]. destruct (_ =? _); by injection H as <- _. }
    destruct Hrf as [Eb Ef]. apply (after_move_ok r s' moved untaken _ Hok); try done; [|by rewrite Eb].
    destruct Hown as [?|?]; [by left|]. right. by eapply dns_owes.
Qed.

Lemma reached_ok g r : reached g r -> run_ok r.
Proof.
  induction 1 as [a c t _|r r' _ IH Hstep]; [|by eapply run_preserves].
  split; cbn; try done; try (unfold ceiling_ok, FIRST_BACKOFF, HOLD; lia). right. by left.
Qed.

(** ** The poll itself *)

(** The error a poll tells of: an answer that did not verify goes first. *)
Definition said (s : SyncLoop) (own : option (list Z)) : option (list Z) :=
  match unverified s with Some e => Some (text e) | None => own end.

Lemma request_report s : sr_report (request s) = (fun r => set_error r (said s (apply_error r))) <$> report s.
Proof. unfold request, said. cbn. destruct (unverified s); [done|]. by destruct (report s) as [[]|]. Qed.

(** What an answer makes of [unverified]. *)
Definition hear (a : Answer) (before : option PollError) : option PollError :=
  match a with
  | Unverified e => Some e
  | Standby _ | Retry _ _ => before
  | AnsSnapshot body => match decode body with Err (None, _) => before | _ => None end
  | _ => None
  end.

Lemma handle_hear env fraction s a now later : unverified (handle env fraction s a now later).1 = hear a (unverified s).
Proof.
  destruct a as [body| | | | |e|e|after e]; cbn [handle hear]; try done.
  destruct (decode body) as [sn|[[v|] e]]; [|done|done]. case_bool_decide; [|done]. cbn [fst]. unfold serve.
  destruct (apply _ _ _ _). match goal with |- context [schedule_rebind ?x ?t] => destruct (schedule_rebind_core x t) as (_ & _ & _ & _ & _ & _ & -> & _) end.
  done.
Qed.

(** [a] answered the poll in flight of [r], and made it [r']. *)
Definition answered_by (r : Run) (a : Answer) (r' : Run) : Prop :=
  exists env fraction net drawn unix later c' at_,
    poll (client r) net drawn (sr_have (in_flight r)) false unix = (a, c') /\
    handle env fraction (loop r) a (clock r) later = (loop r', at_).

Lemma run_hear r r' : run r r' ->
  unverified (loop r') = unverified (loop r) \/ exists a, answered_by r a r' /\ unverified (loop r') = hear a (unverified (loop r)).
Proof.
  destruct 1 as [| | |r env fraction net drawn unix later a c' s' at_ died _ _ _ Hp Hh|r env s' moved untaken died _ Hm|
    r env t s' moved untaken died _ _ Hm|r s' moved untaken Hm]; try by left.
  - right. exists a. cbn [loop]. split; [by exists env, fraction, net, drawn, unix, later, c', at_|].
    pose proof (handle_hear env fraction (loop r) a (clock r) later) as H. by rewrite Hh in H.
  - left. cbn. unfold reapply in Hm. destruct (current _); [|by injection Hm as <- _]. destruct (apply _ _ _ _). injection Hm as <- _.
    match goal with |- context [schedule_rebind ?x ?t] => by destruct (schedule_rebind_core x t) as (_ & _ & _ & _ & _ & _ & -> & _) end.
  - left. cbn. unfold reapply in Hm. destruct (current _); [|by injection Hm as <- _]. destruct (apply _ _ _ _). injection Hm as <- _.
    match goal with |- context [schedule_rebind ?x ?t] => by destruct (schedule_rebind_core x t) as (_ & _ & _ & _ & _ & _ & -> & _) end.
  - left. cbn. unfold dns_moved in Hm. destruct (report _); [|by injection Hm as <- _]. by destruct (_ =? _); injection Hm as <- _.
Qed.

(** C29: the poll in flight tells the controller the truth. Whatever answers,
    binds and refreshes came before, it is the poll of the state the data
    plane is in now. It says it has the version received last, served or
    refused, and none before the first and after the Gateway was gone, and
    its report names that version. Of a version served, the report is the
    one its last apply made, with the listeners of that snapshot; since then
    nothing was applied, only accept loops ended and DNS moved. Of a version
    refused, it names no listener and says why. In both, once an answer could
    not be verified, the report says that error instead, until an answer
    that did verify is taken. *)
Theorem sync_reports_the_truth (g : GatewayKey) (r : Run) (Hr : reached g r) :
  in_flight r = request (loop r)
  /\ match refused (loop r), current (loop r) with
     | Some (v, e), _ => sr_have (in_flight r) = v /\ v <> []
         /\ exists rep, sr_report (in_flight r) = Some rep /\ applied rep = v /\ lrs rep = [] /\ leaving rep = false
              /\ apply_error rep = said (loop r) (Some (text e))
     | None, Some sn => sr_have (in_flight r) = version sn /\ version sn <> []
         /\ exists rep, sr_report (in_flight r) = Some rep /\ applied rep = version sn /\ leaving rep = false
              /\ map lr_name (lrs rep) = map l_name (listeners (gateway (to_config sn)))
              /\ exists env a epoch, let '(a', told) := apply env http2 a sn in
                   rep = set_error (set_epoch told epoch) (said (loop r) (apply_error told)) /\ rtc drifts a' (sl_applier (loop r))
     | None, None => sr_have (in_flight r) = [] /\ sr_report (in_flight r) = None
     end
  /\ forall r', run r r' -> unverified (loop r') = unverified (loop r) \/
       exists a, answered_by r a r' /\ unverified (loop r') = hear a (unverified (loop r)).
Proof.
  destruct (reached_ok g r Hr) as [Hf [Hc Hrep] _ _ _ _]. split; [done|]. split; [|apply run_hear].
  rewrite Hf, request_report. cbn [request sr_have].
  destruct (refused (loop r)) as [[v e]|].
  - destruct Hrep as (Hh & Hv & rep & E & Ha & He & Hl & Hlv). rewrite E. split_and!; [done|done|]. eexists. split; [done|]. by rewrite He.
  - destruct (current (loop r)) as [sn|].
    + destruct Hrep as (Hh & rep & E & Ha & Hlv & Hn & env & a & n & Et & Hd). rewrite E. split_and!; [done|by apply Hc|].
      eexists. split; [done|]. split_and!; try done. exists env, a, n. destruct (apply env http2 a sn) as [a' told]. cbn in Et, Hd. by subst rep.
    + destruct Hrep as [Hh E]. by rewrite E.
Qed.

(** A data plane never stops trying. While it serves a snapshot, every
    endpoint required is live and every network it names has an address, as
    of the last apply, or an accept loop's end waits to be seen, or a re-apply
    is due within the hold; and the next poll is due within the hold,
    whatever Retry-After the answers carried. *)
Theorem sync_never_gives_up (g : GatewayKey) (r : Run) (Hr : reached g r) :
  (current (loop r) = None \/ exits r = true \/ fully_bound (loop r) \/ rebind_owed (loop r) (clock r))
  /\ poll_at r <= clock r + HOLD.
Proof.
  destruct (reached_ok g r Hr) as [_ _ Ho _ _ Hp]. split; [|done]. destruct Ho as [?|[?|[?|?]]]; tauto.
Qed.

(** ** Whose snapshots it serves *)

Section Vouched.
Context (issued : Signed -> list Z -> list Z -> Prop).
Context (unforgeable : forall leaf now msg sig, leaf_trusted leaf now = true -> verify_signature leaf msg sig = true ->
  exists k nonce body, valid_nonce nonce = true /\ issued k nonce body /\ msg = message k nonce body).

(** A snapshot the controller signed for a poll of this data plane, and a
    gone notice. *)
Definition vouched (g : GatewayKey) (sn : Snapshot) : Prop :=
  GatewayRef_key (s_gateway sn) = g
  /\ exists drawn body, Forall u8 drawn /\ issued SignedSnapshot (new_nonce drawn) body /\ decode body = Ok sn.

Definition said_gone (g : GatewayKey) : Prop :=
  exists drawn body, Forall u8 drawn /\ issued SignedGone (new_nonce drawn) body /\ decode_gone body = Some g.

(** What may happen to the applier and the snapshot it serves. *)
Inductive served_step (g : GatewayKey) (s s' : SyncLoop) : Prop :=
  | served_same : sl_applier s' = sl_applier s -> current s' = current s -> served_step g s s'
  | loops_lost ts : sl_applier s' = lose_loops (sl_applier s) ts -> current s' = current s -> served_step g s s'
  | dns_refreshed t p : sl_applier s' = refreshed (sl_applier s) t p -> current s' = current s -> served_step g s s'
  | snapshot_applied env sn : sl_applier s' = (apply env http2 (sl_applier s) sn).1 -> current s' = Some sn ->
      current s = Some sn \/ vouched g sn -> served_step g s s'
  | gateway_gone env : said_gone g -> current s' = None ->
      sl_applier s' = match current s with Some _ => clear env http2 (sl_applier s) | None => sl_applier s end -> served_step g s s'.

Lemma poll_gateway c n drawn h l now : client_gateway (poll c n drawn h l now).2 = client_gateway c.
Proof.
  unfold poll. destruct n as [n|]; [|done]. unfold exchange. destruct (negb _); [done|]. destruct (send_poll c n) as [r|]; [|done].
  destruct (match _ with Some len => max_answer c <? len | None => false end); [done|]. destruct (resp_body r); [|done].
  destruct (max_answer c <? _); [done|]. by destruct (take_answer _ _ _ _ _ _ _ _).
Qed.

Lemma outcome_served env s a later s' g c drawn h :
  sl_gateway s = g -> client_gateway c = g -> Forall u8 drawn -> says issued c (new_nonce drawn) h false a ->
  outcome env s a later s' -> served_step g s s' /\ sl_gateway s' = g.
Proof.
  intros Hg Hcg Hd Hsays [s1 Hs|s0 body sn Ha Hdec Hk Hs|s0 body v e Ha Hv Hs|s0 s1 Ha Hs Hgone].
  - split; [|by rewrite (sc_gateway _ _ Hs)]. apply served_same; [apply (sc_applier _ _ Hs)|apply (sc_current _ _ Hs)].
  - subst a. cbn in Hsays. unfold serve. destruct (apply env http2 (sl_applier s0) sn) as [ap rep] eqn:Eap.
    set (s2 := with_rebind _ _ _). destruct (schedule_rebind_core s2 later) as (Eg & Ea & Ec & _).
    split; [|rewrite Eg; cbn; by rewrite (sc_gateway _ _ Hs)]. apply (snapshot_applied g s _ env sn).
    + rewrite Ea. cbn. rewrite <- (sc_applier _ _ Hs), Eap. done.
    + by rewrite Ec.
    + right. split; [congruence|]. by exists drawn, body.
  - split; [|cbn; by rewrite (sc_gateway _ _ Hs)]. apply served_same; [apply (sc_applier _ _ Hs)|apply (sc_current _ _ Hs)].
  - subst a. split; [|rewrite (sc_gateway _ _ Hgone); cbn; by rewrite (sc_gateway _ _ Hs)].
    destruct Hsays as (body & Hi & Hdg). apply (gateway_gone g s _ env).
    + exists drawn, body. by rewrite <- Hcg.
    + by rewrite (sc_current _ _ Hgone).
    + rewrite (sc_applier _ _ Hgone). cbn. by rewrite (sc_current _ _ Hs), (sc_applier _ _ Hs).
Qed.

Lemma reapply_served env s now s' moved g : reapply env s now = (s', moved) -> served_step g s s' /\ sl_gateway s' = sl_gateway s.
Proof.
  unfold reapply. destruct (current s) as [sn|] eqn:Ec.
  - destruct (apply env http2 (sl_applier s) sn) as [ap rep] eqn:Eap. intros [= <- _]. set (s2 := with_served _ _ _ _ _ _).
    destruct (schedule_rebind_core s2 now) as (Eg & Ea & Ec' & _). split; [|by rewrite Eg].
    apply (snapshot_applied g s _ env sn); [by rewrite Ea, Eap|by rewrite Ec'|by left].
  - intros [= <- _]. split; [|done]. by apply served_same.
Qed.

Lemma run_served g r r' :
  sl_gateway (loop r) = g -> client_gateway (client r) = g -> ceiling_ok (failures (loop r)) -> run r r' ->
  served_step g (loop r) (loop r') /\ sl_gateway (loop r') = g /\ client_gateway (client r') = g.
Proof.
  intros Hg Hc Hf Hstep. destruct Hstep; cbn.
  - split_and!; [by apply served_same|done|done].
  - split_and!; [by eapply loops_lost|done|done].
  - split_and!; [by eapply dns_refreshed|done|done].
  - destruct (handle_outcome _ _ _ _ _ _ _ _ H1 Hf (proj2 H) H3) as (Ho & _ & _).
    pose proof (poll_says issued unforgeable (client r) net drawn (sr_have (in_flight r)) false unix H0) as Hsays.
    pose proof (poll_gateway (client r) net drawn (sr_have (in_flight r)) false unix) as Hpg. rewrite H2 in Hsays, Hpg. cbn in Hsays, Hpg.
    destruct (outcome_served _ _ _ _ _ g _ _ _ Hg Hc H0 Hsays Ho). split_and!; [done|done|congruence].
  - destruct (reapply_served _ _ _ _ _ g H0). split_and!; [done|congruence|by destruct moved].
  - destruct (reapply_served _ _ _ _ _ g H1). split_and!; [done|congruence|by destruct moved].
  - assert (sl_applier s' = sl_applier (loop r) /\ current s' = current (loop r) /\ sl_gateway s' = sl_gateway (loop r)) as (E1 & E2 & E3).
    { unfold dns_moved in H. destruct (report (loop r)); [|by injection H as <- _]. destruct (_ =? _); by injection H as <- _. }
    split_and!; [by apply served_same|congruence|by destruct moved].
Qed.

Lemma reached_served g r : reached g r ->
  sl_gateway (loop r) = g /\ client_gateway (client r) = g /\ forall sn, current (loop r) = Some sn -> vouched g sn.
Proof.
  induction 1 as [a c t Hc|r r' Hr IH Hstep]; [done|]. destruct IH as (Hg & Hc & Hv).
  destruct (run_served g r r' Hg Hc (ok_failures r (reached_ok g r Hr)) Hstep) as (Hs & Hg' & Hc'). split_and!; [done|done|].
  intros sn Hsn. destruct Hs as [_ E|? _ E|? ? _ E|env sn' _ E [H|H]|env _ E _]; rewrite E in Hsn; try (by apply Hv); try done;
    injection Hsn as ->; by auto.
Qed.

(** C21: a data plane serves what its controller signed, and nothing else.
    Whoever answers its polls, and whatever they answer: the snapshot served
    is one the controller signed for a poll of this data plane, for its own
    Gateway; and from one moment to the next, the listeners and the table
    change only by applying such a snapshot, by closing every listener on the
    controller's signed word that this Gateway is gone, or on the data
    plane's own account, when an accept loop ends or DNS moved. An answer
    unverified, refused, for another Gateway or that does not decode changes
    nothing served. *)
Theorem sync_serves_only_the_controllers (g : GatewayKey) (r r' : Run) (Hr : reached g r) (Hstep : run r r') :
  (forall sn, current (loop r) = Some sn -> vouched g sn) /\ served_step g (loop r) (loop r').
Proof.
  destruct (reached_served g r Hr) as (Hg & Hc & Hv). split; [exact Hv|].
  by apply (run_served g r r' Hg Hc (ok_failures r (reached_ok g r Hr)) Hstep).
Qed.
End Vouched.
End Loop.

(** ** At work *)

#[local] Existing Instance literal_regex.
#[local] Existing Instance toy_rustls.
#[local] Existing Instance toy_fnv.
#[local] Existing Instance toy_text.
#[local] Existing Instance toy_crypto.

(** The one body the controller signs decodes to the applier's example. *)
Definition one_json : Json.
Proof.
  refine {| Value := unit; json_parse := fun body => if beq body toy_body then Some tt else None;
            str_field := fun _ f => if beq f (bs "version") then Some (version ready_snapshot) else None;
            u64_field := fun _ f => if beq f (bs "protocol") then Some PROTOCOL else None;
            decode_gone := fun _ => None; decode_snapshot := fun _ => Some ready_snapshot |}.
  intros v s [= <-]. split; vm_compute; reflexivity.
Defined.
#[local] Existing Instance one_json.
#[local] Instance no_text : ErrorText := {| text := fun _ => [] |}.

Definition toy_gateway : GatewayKey := client_gateway toy_client.

Definition first_run : Run := run_new toy_gateway new_applier toy_client 0.

Definition heard : SyncLoop := (handle false ready_env (fun _ => 0) (loop first_run) (AnsSnapshot toy_body) 0 0).1.

Definition served_run : Run := {|
  loop := heard; client := set_conn toy_client true; in_flight := request heard; poll_at := 0; clock := 0; exits := false |}.

Lemma first_step : run false first_run served_run.
Proof.
  unfold served_run. change false with (exits first_run || false) at 2.
  simple apply (poll_answered false first_run ready_env (fun _ => 0) (Ok toy_net) drawn_zeros 0 0 (AnsSnapshot toy_body) (set_conn toy_client true) heard 0 false).
  - cbn. lia.
  - repeat constructor; lia.
  - intros d Hd. lia.
  - vm_compute. reflexivity.
  - unfold heard. rewrite (surjective_pairing (handle _ _ _ _ _ _ _)). cbn [fst]. f_equal; vm_compute; reflexivity.
Qed.

Lemma served_reached : reached false toy_gateway served_run.
Proof. eapply reached_step; [by apply reached_new|exact first_step]. Qed.

Lemma heard_current : current heard = Some ready_snapshot /\ refused heard = None.
Proof. split; vm_compute; reflexivity. Qed.

Lemma sync_reports_the_truth_witness :
  in_flight served_run = request heard /\ sr_have (in_flight served_run) = bs "v1".
Proof.
  destruct (sync_reports_the_truth false toy_gateway served_run served_reached) as (Hf & H & _). destruct heard_current as [Ec Er].
  change (loop served_run) with heard in *. rewrite Ec, Er in H. exact (conj Hf (proj1 H)).
Defined.

Lemma sync_never_gives_up_witness : poll_at served_run <= clock served_run + HOLD.
Proof. exact (proj2 (sync_never_gives_up false toy_gateway served_run served_reached)). Defined.

Lemma sync_serves_only_the_controllers_witness :
  vouched toy_issued toy_gateway ready_snapshot
  /\ served_step false toy_issued toy_gateway heard (loop {| loop := heard; client := client served_run; in_flight := in_flight served_run;
       poll_at := 0; clock := 7; exits := false |}).
Proof.
  assert (Hs : run false served_run {| loop := heard; client := client served_run; in_flight := in_flight served_run;
    poll_at := 0; clock := 7; exits := false |}) by (apply (time_passes false served_run 7); cbn; lia).
  destruct (sync_serves_only_the_controllers false toy_issued toy_unforgeable toy_gateway served_run _ served_reached Hs) as [Hv Hstep].
  split; [|exact Hstep]. apply Hv. exact (proj1 heard_current).
Defined.
