(* ===== verification/Ports.v ===== *)
(** * Service ports and the ports bound behind them

    [src/src/kubernetes/controller/provision/ports.rs]: the Service ports of
    a Managed Gateway's listeners, and the unprivileged ports its data plane
    binds behind them. A [BTreeSet] or [BTreeMap] iterates in ascending
    order: [btree_set] sorts what it is given. [next += 1] past 65535 is a
    panic, the [None] of the drawing loops. *)

From S2P Require Import Prelude Bytes HttpFilters DataPlane.

Definition PRIVILEGED_PORT_MAX : Z := 1023.
Definition TARGET_PORT_POOL_BASE : Z := 8000.
Definition ADMIN_PORT : Z := 19099.

(** [u16::try_from] of an i32. *)
Definition u16_try_from (z : Z) : option Z := if (0 <=? z) && (z <=? 65535) then Some z else None.

(** ** Published ports *)

Definition listener_transport (protocol : list Z) : Transport := if beq protocol (bs "UDP") then Udp else Tcp.

Definition protocol (t : Transport) : list Z := match t with Tcp => bs "TCP" | Udp => bs "UDP" end.

Record DerivedPort := { dport_name : list Z; dport : Z; dport_transport : Transport }.

Definition port_name (t : Transport) (port : Z) : list Z := lowercase (protocol t) ++ 45 :: print_decimal port.

(** A listener's port (an i32) and protocol. *)
Definition derive_step (ports : list DerivedPort) (l : Z * list Z) : list DerivedPort :=
  match u16_try_from l.1 with
  | None => ports
  | Some port =>
      let transport := listener_transport l.2 in
      if existsb (fun p => (dport p =? port) && bool_decide (dport_transport p = transport)) ports then ports
      else ports ++ [{| dport_name := port_name transport port; dport := port; dport_transport := transport |}]
  end.

Definition derive_ports (listeners : list (Z * list Z)) : list DerivedPort := fold_left derive_step listeners [].

(** ** Target ports *)

Fixpoint set_insert (p : Z) (l : list Z) : list Z :=
  match l with
  | [] => [p]
  | q :: t => if p <? q then p :: l else if p =? q then l else q :: set_insert p t
  end.

Definition btree_set (l : list Z) : list Z := foldr set_insert [] l.

Definition binds_itself (p : Z) : bool := (PRIVILEGED_PORT_MAX <? p) && negb (p =? ADMIN_PORT).

Record Allocation := { target : gmap Z Z; used : gset Z }.

Definition assign (a : Allocation) (p t : Z) : Allocation := {| target := <[p := t]> (target a); used := {[t]} ∪ used a |}.

(** A privileged port keeps its target while it is unprivileged and free. *)
Definition keep_existing (existing : gmap Z Z) (a : Allocation) (p : Z) : Allocation :=
  match existing !! p with
  | Some t => if (PRIVILEGED_PORT_MAX <? t) && negb (bool_decide (t ∈ used a)) then assign a p t else a
  | None => a
  end.

(** [while used.contains(&next) { next += 1 }] *)
Fixpoint next_free (fuel : nat) (used : gset Z) (next : Z) : option Z :=
  if bool_decide (next ∈ used) then
    match fuel with
    | O => None
    | S fuel => if next =? 65535 then None else next_free fuel used (next + 1)
    end
  else Some next.

(** One turn of the drawing loop, [next] where it stands. *)
Definition draw (st : option (Allocation * Z)) (p : Z) : option (Allocation * Z) :=
  '(a, next) ← st;
  match target a !! p with
  | Some _ => Some (a, next)
  | None =>
      n ← next_free (size (used a)) (used a) next;
      if n =? 65535 then None else Some (assign a p n, n + 1)
  end.

Definition allocate_target_ports (published : list Z) (existing : gmap Z Z) : option (gmap Z Z) :=
  let published := btree_set published in
  let own := List.filter binds_itself published in
  let remapped := List.filter (fun p => negb (binds_itself p)) published in
  let a := fold_left (fun a p => assign a p p) own {| target := ∅; used := {[ADMIN_PORT]} |} in
  let a := fold_left (keep_existing existing) remapped a in
  (fun st => target st.1) <$> fold_left draw remapped (Some (a, TARGET_PORT_POOL_BASE)).

(** ** Both transports *)

Definition of_transport (t : Transport) (existing : gmap (Transport * Z) Z) : gmap Z Z :=
  list_to_map (flat_map (fun kv => if bool_decide (kv.1.1 = t) then [(kv.1.2, kv.2)] else []) (map_to_list existing)).

Definition bound_transport (ports : list DerivedPort) (existing : gmap (Transport * Z) Z) (t : Transport) : option (gmap Z Z) :=
  allocate_target_ports (map dport (List.filter (fun p => bool_decide (dport_transport p = t)) ports)) (of_transport t existing).

Definition keyed (t : Transport) (m : gmap Z Z) : gmap (Transport * Z) Z := kmap (pair t) m.

Definition bound_ports (ports : list DerivedPort) (existing : gmap (Transport * Z) Z) : option (gmap (Transport * Z) Z) :=
  tcp ← bound_transport ports existing Tcp;
  udp ← bound_transport ports existing Udp;
  Some (keyed Udp udp ∪ keyed Tcp tcp).

(** A Service's port: [IntOrString] of its target, [None] for a name. *)
Record ServicePort := { sp_protocol : option (list Z); sp_port : Z; sp_target : option (option Z) }.

Definition existing_target (p : ServicePort) : option ((Transport * Z) * Z) :=
  transport ← match sp_protocol p with
              | None => Some Tcp
              | Some s => if beq s (bs "UDP") then Some Udp else if beq s (bs "TCP") then Some Tcp else None
              end;
  port ← u16_try_from (sp_port p);
  t ← match sp_target p with
      | Some (Some t) => t ← u16_try_from t; if t =? 0 then None else Some t
      | _ => None
      end;
  Some ((transport, port), t).

(** A later port of the list replaces an earlier one of its key. *)
Definition existing_targets (ports : list ServicePort) : gmap (Transport * Z) Z :=
  fold_left (fun m p => match existing_target p with Some (k, t) => <[k := t]> m | None => m end) ports ∅.

(** ** Sorted sets *)

Lemma elem_of_set_insert p q l : p ∈ set_insert q l <-> p = q \/ p ∈ l.
Proof.
  induction l as [|x l IH]; cbn [set_insert]; [by rewrite elem_of_cons|].
  destruct (q <? x); [by rewrite elem_of_cons|]. destruct (Z.eqb_spec q x) as [->|].
  - rewrite elem_of_cons. tauto.
  - rewrite !elem_of_cons, IH. tauto.
Qed.

Lemma elem_of_btree_set p l : p ∈ btree_set l <-> p ∈ l.
Proof.
  induction l as [|x l IH]; [done|]. change (btree_set (x :: l)) with (set_insert x (btree_set l)).
  by rewrite elem_of_set_insert, elem_of_cons, IH.
Qed.

Lemma set_insert_sorted p l : StronglySorted Z.lt l -> StronglySorted Z.lt (set_insert p l).
Proof.
  induction 1 as [|x l Hs IH Hall]; cbn; [repeat constructor|]. destruct (Z.ltb_spec p x) as [Hlt|Hge].
  - constructor; [by constructor|]. constructor; [done|]. eapply Forall_impl; [done|]. cbn. lia.
  - destruct (Z.eqb_spec p x) as [->|Hne]; [by constructor|]. constructor; [done|].
    apply Forall_forall. intros y Hy. apply elem_of_set_insert in Hy as [->|Hy]; [lia|]. rewrite Forall_forall in Hall. auto.
Qed.

Lemma btree_set_NoDup l : NoDup (btree_set l).
Proof.
  assert (H : StronglySorted Z.lt (btree_set l)) by (induction l; [constructor|by apply set_insert_sorted]).
  induction H as [|x l' Hs IH Hall]; [constructor|]. constructor; [|done]. intros Hx. rewrite Forall_forall in Hall. specialize (Hall x Hx). lia.
Qed.

Lemma length_btree_set l : (length (btree_set l) <= length l)%nat.
Proof.
  assert (H : forall p l, (length (set_insert p l) <= S (length l))%nat).
  { intros p. induction l0 as [|x l0 IH]; cbn; [lia|]. destruct (p <? x); [cbn; lia|]. destruct (p =? x); cbn; lia. }
  induction l as [|x l IH]; [done|]. cbn. specialize (H x (btree_set l)). fold (btree_set l). lia.
Qed.

(** ** The allocation *)

Record alloc_ok (a : Allocation) : Prop := {
  ao_used t : t ∈ used a <-> t = ADMIN_PORT \/ exists p, target a !! p = Some t;
  ao_inj p q t : target a !! p = Some t -> target a !! q = Some t -> p = q;
  ao_range p t : target a !! p = Some t -> PRIVILEGED_PORT_MAX < t <= 65535 /\ t <> ADMIN_PORT;
  ao_size : size (used a) = S (size (target a));
}.

Lemma alloc_ok_start : alloc_ok {| target := ∅; used := {[ADMIN_PORT]} |}.
Proof.
  split; cbn.
  - intros t. rewrite elem_of_singleton. split; [by left|]. intros [->|[p H]]; [done|]. by rewrite lookup_empty in H.
  - intros p q t H. by rewrite lookup_empty in H.
  - intros p t H. by rewrite lookup_empty in H.
  - by rewrite size_singleton, map_size_empty.
Qed.

Lemma assign_ok a p t :
  alloc_ok a -> target a !! p = None -> t ∉ used a -> PRIVILEGED_PORT_MAX < t <= 65535 -> alloc_ok (assign a p t).
Proof.
  intros [Hu Hi Hr Hs] Hp Ht Hb. assert (Hfresh : forall q, target a !! q <> Some t) by (intros q Hq; apply Ht, Hu; eauto). split; cbn.
  - intros x. rewrite elem_of_union, elem_of_singleton, Hu. split.
    + intros [->|[->|[q Hq]]]; [right; exists p; by rewrite lookup_insert_eq|by left|]. right. exists q.
      rewrite lookup_insert_ne; [done|]. intros ->. congruence.
    + intros [->|[q Hq]]; [tauto|]. rewrite lookup_insert_Some in Hq. destruct Hq as [[_ <-]|[_ Hq]]; [by left|]. right. right. by exists q.
  - intros x y u Hx Hy. rewrite lookup_insert_Some in Hx, Hy.
    destruct Hx as [[<- <-]|[Hx1 Hx]], Hy as [[<- E]|[Hy1 Hy]]; [done|by destruct (Hfresh y)|subst; by destruct (Hfresh x)|by eapply Hi].
  - intros x u Hx. rewrite lookup_insert_Some in Hx. destruct Hx as [[_ <-]|[_ Hx]]; [|by eapply Hr]. split; [done|].
    intros ->. apply Ht, Hu. by left.
  - rewrite size_union by set_solver. rewrite size_singleton, map_size_insert, Hp, Hs. lia.
Qed.

(** Ports that bind themselves. *)
Lemma own_ok l a :
  alloc_ok a -> NoDup l -> Forall (fun p => binds_itself p = true /\ p <= 65535) l ->
  (forall p t, target a !! p = Some t -> t = p) -> (forall p, p ∈ l -> target a !! p = None) ->
  let a' := fold_left (fun a p => assign a p p) l a in
  alloc_ok a' /\ (forall p t, target a' !! p = Some t <-> t = p /\ (p ∈ l \/ target a !! p = Some p)).
Proof.
  intros Hok Hnd. revert a Hok. induction Hnd as [|p l Hp Hnd IH]; intros a Hok Hall Hself Hfree a'; cbn in a'.
  - split; [done|]. intros p t. split.
    + intros H. pose proof (Hself p t H) as ->. split; [done|by right].
    + by intros [-> [H|H]]; [apply not_elem_of_nil in H|].
  - apply Forall_cons in Hall as [[Hb Hle] Hall]. unfold binds_itself in Hb. apply andb_true_iff in Hb as [Hb1 Hb2].
    assert (Hok1 : alloc_ok (assign a p p)).
    { apply assign_ok; [done|by apply Hfree; left| |lia]. intros Hu. apply (ao_used a Hok) in Hu as [->|[q Hq]].
      - by rewrite Z.eqb_refl in Hb2.
      - rewrite <- (Hself q p Hq), (Hfree p) in Hq by (by left). done. }
    destruct (IH (assign a p p) Hok1 Hall) as [H1 H2].
    + intros q t. cbn. rewrite lookup_insert_Some. intros [[<- <-]|[_ H]]; [done|by apply Hself].
    + intros q Hq. cbn. rewrite lookup_insert_ne by (intros ->; done). apply Hfree. by right.
    + split; [exact H1|]. intros q t. subst a'. rewrite H2. cbn. rewrite elem_of_cons, lookup_insert_Some. split.
      * intros [-> [H|[[-> _]|[_ H]]]]; tauto.
      * intros [-> [[->|H]|H]]; [split; [done|]; right; left; done|tauto|].
        split; [done|]. right. right. split; [|done]. intros <-. by rewrite (Hfree p) in H by (by left).
Qed.

(** Targets kept from before. *)
Lemma keep_ok existing l a :
  alloc_ok a -> NoDup l -> (forall p, p ∈ l -> target a !! p = None) -> (forall p t, existing !! p = Some t -> t <= 65535) ->
  let a' := fold_left (keep_existing existing) l a in
  alloc_ok a'
  /\ (forall p, p ∉ l -> target a' !! p = target a !! p)
  /\ (forall p t, target a' !! p = Some t -> target a !! p = Some t \/ existing !! p = Some t)
  /\ (forall p t, p ∈ l -> existing !! p = Some t -> PRIVILEGED_PORT_MAX < t -> t ∉ used a ->
        (forall q, q ∈ l -> existing !! q = Some t -> q = p) -> target a' !! p = Some t).
Proof.
  intros Hok Hnd. revert a Hok. induction Hnd as [|p l Hp Hnd IH]; intros a Hok Hfree Hex a'; cbn in a'.
  - split_and!; [done|done|by left|]. intros p t H. by apply not_elem_of_nil in H.
  - set (a1 := keep_existing existing a p) in *.
    assert (H1 : alloc_ok a1 /\ (forall q, q <> p -> target a1 !! q = target a !! q)
      /\ (forall t, target a1 !! p = Some t -> existing !! p = Some t) /\ (forall t, t ∈ used a1 -> t ∈ used a \/ existing !! p = Some t)
      /\ (forall t, existing !! p = Some t -> PRIVILEGED_PORT_MAX < t -> t ∉ used a -> target a1 !! p = Some t)).
    { unfold a1, keep_existing. pose proof (Hfree p ltac:(by left)) as Hpn.
      destruct (existing !! p) as [t|] eqn:Et; [|split_and!; [done|done|congruence|by left|done]].
      destruct (Z.ltb_spec PRIVILEGED_PORT_MAX t) as [Hlt|Hge]; cbn; [|split_and!; [done|done|congruence|by left|]; intros t0 [= <-]; lia].
      case_bool_decide as Hu; cbn; [split_and!; [done|done|congruence|by left|]; intros t0 [= <-]; done|].
      split_and!.
      - apply assign_ok; try done. split; [lia|by eapply Hex].
      - intros q Hq. by rewrite lookup_insert_ne.
      - intros t0. by rewrite lookup_insert_eq.
      - intros t0. rewrite elem_of_union, elem_of_singleton. intros [->|H]; [by right|by left].
      - intros t0 [= <-] _ _. by rewrite lookup_insert_eq. }
    destruct H1 as (Hok1 & Hoth & Hpv & Hus & Hpk).
    destruct (IH a1 Hok1) as (I1 & I2 & I3 & I4); [|done|].
    { intros q Hq. rewrite Hoth; [|by intros ->]. apply Hfree. by right. }
    split_and!; [exact I1| | |].
    + intros q Hq. apply not_elem_of_cons in Hq as [Hqp Hq]. subst a'. rewrite I2 by done. by apply Hoth.
    + intros q t Hq. apply I3 in Hq as [Hq|Hq]; [|by right]. destruct (decide (q = p)) as [->|Hqp]; [right; by apply Hpv|].
      left. by rewrite <- (Hoth q Hqp).
    + intros q t Hq Het Hlt Hnu Huniq. apply elem_of_cons in Hq as [->|Hq].
      * subst a'. rewrite I2 by done. by apply Hpk.
      * apply I4; [done|done|done| |].
        -- intros Hu. apply Hus in Hu as [Hu|Hu]; [done|]. assert (p = q) as -> by (apply Huniq; [by left|done]). done.
        -- intros x Hx Hex'. apply Huniq; [by right|done].
Qed.

(** ** Drawing the lowest free port *)

(** A set that holds every port from 8000 to [n] has that many. *)
Lemma run_size (s : gset Z) (n : Z) : (forall x, TARGET_PORT_POOL_BASE <= x < n -> x ∈ s) -> n - TARGET_PORT_POOL_BASE <= Z.of_nat (size s).
Proof.
  intros H. destruct (Z.le_gt_cases n TARGET_PORT_POOL_BASE); [lia|].
  assert (Hsub : (list_to_set (seqZ TARGET_PORT_POOL_BASE (n - TARGET_PORT_POOL_BASE)) : gset Z) ⊆ s).
  { intros x Hx. apply elem_of_list_to_set, elem_of_seqZ in Hx. apply H. lia. }
  apply subseteq_size in Hsub. rewrite size_list_to_set, length_seqZ in Hsub by apply NoDup_seqZ. lia.
Qed.

Lemma next_free_spec (fuel : nat) (s : gset Z) (next : Z) :
  (size (filter (fun x => (next <= x)%Z) s) <= fuel)%nat -> next + Z.of_nat fuel <= 65535 ->
  exists n, next_free fuel s next = Some n /\ n ∉ s /\ next <= n <= next + Z.of_nat fuel /\ forall x, next <= x < n -> x ∈ s.
Proof.
  revert next. induction fuel as [|fuel IH]; intros next Hs Hb; cbn [next_free]; case_bool_decide as Hin.
  - exfalso. assert (Hn : next ∈ filter (fun x => (next <= x)%Z) s) by (apply elem_of_filter; split; [lia|done]).
    assert (size (filter (fun x => (next <= x)%Z) s) <> 0%nat); [|lia]. apply size_non_empty_iff. set_solver.
  - exists next. split_and!; [done|done|lia|lia|lia].
  - assert (E : (next =? 65535) = false) by lia. rewrite E.
    destruct (IH (next + 1)) as (n & Hn & Hns & Hr & Hall).
    + assert (Hsub : filter (fun x => (next + 1 <= x)%Z) s ⊂ filter (fun x => (next <= x)%Z) s).
      { split; [intros x; rewrite !elem_of_filter; intros [? ?]; split; [lia|done]|].
        intros H. specialize (H next). rewrite !elem_of_filter in H. destruct H; [split; [lia|done]|lia]. }
      apply subset_size in Hsub. lia.
    + lia.
    + exists n. split_and!; [done|done|lia|lia|]. intros x Hx. destruct (decide (x = next)) as [->|]; [done|]. apply Hall. lia.
  - exists next. split_and!; [done|done|lia|lia|lia].
Qed.

Record drawing_ok (a : Allocation) (next : Z) : Prop := {
  do_alloc : alloc_ok a;
  do_next : TARGET_PORT_POOL_BASE <= next;
  do_run x : TARGET_PORT_POOL_BASE <= x < next -> x ∈ used a;
}.

Lemma draw_ok (l : list Z) (a : Allocation) (next : Z) :
  drawing_ok a next -> (size (target a) + length l <= 128)%nat ->
  exists a' next', fold_left draw l (Some (a, next)) = Some (a', next') /\ alloc_ok a'
    /\ (forall p t, target a !! p = Some t -> target a' !! p = Some t)
    /\ (forall p, is_Some (target a' !! p) <-> is_Some (target a !! p) \/ p ∈ l).
Proof.
  revert a next. induction l as [|p l IH]; intros a next Hd Hsz; cbn [fold_left].
  { exists a, next. split_and!; [done|apply Hd|done|]. intros p. split; [by left|]. intros [?|H]; [done|by apply not_elem_of_nil in H]. }
  unfold draw at 2. cbn [mbind option_bind]. cbn in Hsz. destruct (target a !! p) as [t|] eqn:Ep.
  - destruct (IH a next Hd ltac:(lia)) as (a' & next' & E & Hok & Hmono & Hdom). exists a', next'. split_and!; try done.
    intros q. rewrite Hdom, elem_of_cons. split; [tauto|]. intros [?|[->|?]]; [by left|left; by exists t|by right].
  - destruct Hd as [Hok Hn Hrun]. pose proof (run_size (used a) next Hrun) as Hlen. pose proof (ao_size a Hok) as Hsu.
    unfold TARGET_PORT_POOL_BASE in *.
    destruct (next_free_spec (size (used a)) (used a) next) as (n & Hfree & Hnu & Hr & Hall); [|lia|].
    { apply subseteq_size. intros x. rewrite elem_of_filter. tauto. }
    rewrite Hfree. cbn [mbind option_bind]. assert (E : (n =? 65535) = false) by lia. rewrite E.
    destruct (IH (assign a p n) (n + 1)) as (a' & next' & E' & Hok' & Hmono & Hdom).
    + split; [|unfold TARGET_PORT_POOL_BASE; lia|].
      * apply assign_ok; [done|done|done|unfold PRIVILEGED_PORT_MAX; lia].
      * unfold TARGET_PORT_POOL_BASE. intros x Hx. cbn. rewrite elem_of_union, elem_of_singleton. destruct (decide (x = n)) as [->|]; [by left|]. right.
        destruct (Z.le_gt_cases next x); [apply Hall; lia|apply Hrun; lia].
    + cbn. rewrite map_size_insert, Ep. cbn. lia.
    + exists a', next'. split_and!; [done|done| |].
      * intros q t Hq. apply Hmono. cbn. rewrite lookup_insert_ne; [done|]. intros <-. congruence.
      * intros q. rewrite Hdom. cbn. rewrite elem_of_cons. split.
        -- intros [H|H]; [|tauto]. rewrite lookup_insert_is_Some in H. destruct H as [<-|[_ H]]; tauto.
        -- intros [H|[->|H]]; [left; rewrite lookup_insert_is_Some; destruct (decide (p = q)); [by left|by right]|left; rewrite lookup_insert_eq; by eexists|by right].
Qed.

(** ** The allocation as a whole *)

Definition remapped (published : list Z) (p : Z) : Prop := p ∈ published /\ binds_itself p = false.

Record allocated (published : list Z) (m : gmap Z Z) : Prop := {
  al_dom p : is_Some (m !! p) <-> p ∈ published;
  al_inj p q t : m !! p = Some t -> m !! q = Some t -> p = q;
  al_range p t : m !! p = Some t -> PRIVILEGED_PORT_MAX < t <= 65535 /\ t <> ADMIN_PORT;
  al_own p : p ∈ published -> binds_itself p = true -> m !! p = Some p;
}.

Lemma allocate_spec published (existing : gmap Z Z) :
  Forall (fun p => 0 <= p <= 65535) published -> (length published <= 64)%nat -> (forall p t, existing !! p = Some t -> t <= 65535) ->
  exists m, allocate_target_ports published existing = Some m /\ allocated published m
    /\ forall p t, remapped published p -> existing !! p = Some t -> PRIVILEGED_PORT_MAX < t -> t <> ADMIN_PORT ->
         (t ∈ published -> binds_itself t = false) -> (forall q, remapped published q -> existing !! q = Some t -> q = p) -> m !! p = Some t.
Proof.
  intros Hp Hlen Hex. unfold allocate_target_ports.
  set (own := List.filter binds_itself (btree_set published)). set (rest := List.filter (fun p => negb (binds_itself p)) (btree_set published)).
  assert (Hown : forall p, p ∈ own <-> p ∈ published /\ binds_itself p = true).
  { intros p. unfold own. rewrite list_elem_of_In, filter_In, <- list_elem_of_In, elem_of_btree_set. done. }
  assert (Hrest : forall p, p ∈ rest <-> remapped published p).
  { intros p. unfold rest, remapped. rewrite list_elem_of_In, filter_In, <- list_elem_of_In, elem_of_btree_set, negb_true_iff. done. }
  assert (Hlr : (length own + length rest <= 64)%nat).
  { pose proof (length_btree_set published). unfold own, rest. pose proof (List.filter_length binds_itself (btree_set published)). lia. }
  pose proof (btree_set_NoDup published) as Hnd.
  destruct (own_ok own {| target := ∅; used := {[ADMIN_PORT]} |} alloc_ok_start) as [Hok1 Ht1].
  { apply NoDup_ListNoDup, List.NoDup_filter, NoDup_ListNoDup, Hnd. }
  { apply Forall_forall. intros p H. apply Hown in H as [H Hb]. rewrite Forall_forall in Hp. specialize (Hp p H). split; [done|lia]. }
  { intros p t H. cbn in H. by rewrite lookup_empty in H. }
  { intros p _. apply lookup_empty. }
  set (a1 := fold_left _ own _) in *. cbn [target] in Ht1.
  assert (Ht1' : forall p t, target a1 !! p = Some t <-> t = p /\ p ∈ own).
  { intros p t. rewrite Ht1, lookup_empty. split; [intros [? [?|?]]; done|tauto]. }
  destruct (keep_ok existing rest a1 Hok1) as (Hok2 & Hsame & Hfrom & Hkeep).
  { apply NoDup_ListNoDup, List.NoDup_filter, NoDup_ListNoDup, Hnd. }
  { intros p H. destruct (target a1 !! p) as [t|] eqn:E; [|done]. apply Ht1' in E as [_ E]. apply Hown in E as [_ E].
    apply Hrest in H as [_ H]. congruence. }
  { done. }
  set (a2 := fold_left (keep_existing existing) rest a1) in *.
  assert (Hdom2 : forall p, is_Some (target a2 !! p) -> p ∈ published).
  { intros p [t H]. destruct (decide (p ∈ rest)) as [Hr|Hr]; [by apply Hrest in Hr as [? _]|]. rewrite (Hsame p Hr) in H.
    apply Ht1' in H as [_ H]. by apply Hown in H as [? _]. }
  assert (Hsz : (size (target a2) <= length published)%nat).
  { rewrite <- size_dom. transitivity (size (list_to_set published : gset Z)).
    - apply subseteq_size. intros p H. apply elem_of_dom in H. by apply elem_of_list_to_set, Hdom2.
    - clear. induction published as [|x l IH]; [done|]. cbn. rewrite size_union_alt, size_singleton.
      pose proof (subseteq_size (list_to_set l ∖ {[x]} : gset Z) (list_to_set l) ltac:(set_solver)). lia. }
  destruct (draw_ok rest a2 TARGET_PORT_POOL_BASE) as (a3 & next & E & Hok3 & Hmono & Hdom3).
  { split; [done|lia|lia]. }
  { lia. }
  exists (target a3). rewrite E. split; [done|].
  assert (Hdom : forall p, is_Some (target a3 !! p) <-> p ∈ published).
  { intros p. rewrite Hdom3. split.
    - intros [H|H]; [by apply Hdom2|by apply Hrest in H as [? _]].
    - intros H. destruct (binds_itself p) eqn:Eb; [|right; by apply Hrest]. left. exists p.
      rewrite Hsame; [apply Ht1'; split; [done|by apply Hown]|]. intros Hr. apply Hrest in Hr as [_ Hr]. congruence. }
  assert (Hself : forall p, p ∈ published -> binds_itself p = true -> target a3 !! p = Some p).
  { intros p H Eb. apply Hmono. rewrite Hsame; [apply Ht1'; split; [done|by apply Hown]|].
    intros Hr. apply Hrest in Hr as [_ Hr]. congruence. }
  split.
  - split; [done|apply (ao_inj a3 Hok3)|apply (ao_range a3 Hok3)|done].
  - intros p t Hr Het Hlt Hadm Hnotown Huniq. apply Hmono, Hkeep; [by apply Hrest|done|done| |].
    + intros Hu. apply (ao_used a1 Hok1) in Hu as [?|[q Hq]]; [done|]. apply Ht1' in Hq as [<- Hq]. apply Hown in Hq as [Hq Hb].
      specialize (Hnotown Hq). congruence.
    + intros q Hq Heq. apply Huniq; [by apply Hrest|done].
Qed.

(** Allocating again over what was allocated changes nothing. *)
Lemma allocate_again published m :
  Forall (fun p => 0 <= p <= 65535) published -> (length published <= 64)%nat -> allocated published m ->
  allocate_target_ports published m = Some m.
Proof.
  intros Hp Hlen [Hdom Hinj Hr Hown].
  destruct (allocate_spec published m Hp Hlen) as (m' & E & [Hdom' _ _ Hown'] & Hkeep); [intros p t H; apply Hr in H; lia|].
  rewrite E. f_equal. apply map_eq. intros p. destruct (decide (p ∈ published)) as [Hin|Hout].
  - destruct (binds_itself p) eqn:Eb; [by rewrite Hown, Hown'|].
    destruct (proj2 (Hdom p) Hin) as [t Ht]. rewrite Ht. destruct (Hr p t Ht) as [[? ?] ?]. apply Hkeep; try done.
    + intros Ht'. destruct (binds_itself t) eqn:Ebt; [|done]. pose proof (Hown t Ht' Ebt) as Hself.
      rewrite <- Ebt, <- (Hinj p t t Ht Hself). exact Eb.
    + intros q _ Hq. exact (Hinj q p t Hq Ht).
  - assert (Hn : forall x : gmap Z Z, (is_Some (x !! p) <-> p ∈ published) -> x !! p = None).
    { intros x Hx. destruct (x !! p) eqn:Ex; [|done]. destruct Hout. apply Hx. by eexists. }
    by rewrite (Hn m' (Hdom' p)), (Hn m (Hdom p)).
Qed.

(** ** Both transports *)

Lemma lookup_of_transport t e p x : of_transport t e !! p = Some x <-> e !! (t, p) = Some x.
Proof.
  assert (H1 : forall y, of_transport t e !! p = Some y -> e !! (t, p) = Some y).
  { intros y H. apply elem_of_list_to_map_2, list_elem_of_In, in_flat_map in H as ([[t' p'] y'] & Hin & Hy). cbn in Hy.
    case_bool_decide; [|done]. destruct Hy as [[= -> ->]|[]]. subst. apply elem_of_map_to_list. by apply list_elem_of_In. }
  split; [apply H1|]. intros H. destruct (of_transport t e !! p) as [y|] eqn:E; [specialize (H1 y eq_refl); congruence|].
  apply not_elem_of_list_to_map in E. destruct E. apply list_elem_of_fmap. exists (p, x). split; [done|].
  apply list_elem_of_In, in_flat_map. exists ((t, p), x). split; [by apply list_elem_of_In, elem_of_map_to_list|]. cbn.
  rewrite bool_decide_true by done. by left.
Qed.

Lemma lookup_keyed t t' m p : keyed t m !! (t', p) = if decide (t' = t) then m !! p else None.
Proof.
  unfold keyed. case_decide as E.
  - subst. by rewrite lookup_kmap by (by intros ? ? [= ->]).
  - apply lookup_kmap_None; [by intros ? ? [= ->]|]. by intros i [= -> _].
Qed.

Lemma derive_spec ls : let ps := derive_ports ls in
  (length ps <= length ls)%nat /\ Forall (fun d => 0 <= dport d <= 65535) ps
  /\ forall p t, (exists d, d ∈ ps /\ dport d = p /\ dport_transport d = t)
       <-> exists l, l ∈ ls /\ u16_try_from l.1 = Some p /\ listener_transport l.2 = t.
Proof.
  unfold derive_ports. induction ls as [|l ls IH] using rev_ind.
  { cbn. split_and!; [done|constructor|]. intros p t. split; intros (x & H & _); by apply not_elem_of_nil in H. }
  rewrite fold_left_app, length_app. cbn [fold_left]. set (ps := fold_left derive_step ls []) in *. destruct IH as (Hlen & Hr & Hin).
  unfold derive_step. destruct (u16_try_from l.1) as [port|] eqn:Ep.
  - destruct (existsb _ ps) eqn:Eex.
    + split_and!; [cbn; lia|done|]. intros p t. rewrite Hin. split.
      * intros (x & Hx & H). exists x. split; [apply elem_of_app; by left|done].
      * intros (x & Hx & H1 & H2). apply elem_of_app in Hx as [Hx|Hx]; [by exists x|]. apply list_elem_of_singleton in Hx as ->.
        apply Hin. apply existsb_exists in Eex as (d & Hd & Ed). apply andb_true_iff in Ed as [E1 E2].
        apply bool_decide_eq_true in E2. assert (port = p) as <- by congruence. exists d. split_and!; [by apply list_elem_of_In|lia|congruence].
    + assert (Hport : 0 <= port <= 65535) by (unfold u16_try_from in Ep; destruct (_ && _) eqn:E; [|done]; injection Ep as <-; lia).
      split_and!; [rewrite length_app; cbn; lia|apply Forall_app; split; [done|repeat constructor; cbn; lia]|].
      intros p t. split.
      * intros (d & Hd & E1 & E2). apply elem_of_app in Hd as [Hd|Hd].
        -- destruct (proj1 (Hin p t) ltac:(by exists d)) as (x & Hx & H). exists x. split; [apply elem_of_app; by left|done].
        -- apply list_elem_of_singleton in Hd as ->. exists l. cbn in *. subst. split_and!; [apply elem_of_app; right; by left|done|done].
      * intros (x & Hx & H1 & H2). apply elem_of_app in Hx as [Hx|Hx].
        -- destruct (proj2 (Hin p t) ltac:(by exists x)) as (d & Hd & H). exists d. split; [apply elem_of_app; by left|done].
        -- apply list_elem_of_singleton in Hx as ->. eexists. split; [apply elem_of_app; right; by left|]. cbn. split; congruence.
  - split_and!; [cbn; lia|done|]. intros p t. rewrite Hin. split.
    + intros (x & Hx & H). exists x. split; [apply elem_of_app; by left|done].
    + intros (x & Hx & H1 & H2). apply elem_of_app in Hx as [Hx|Hx]; [by exists x|]. apply list_elem_of_singleton in Hx as ->. congruence.
Qed.

(** Every published port gets a port of its own the pod can bind. For a
    Gateway's listeners, at most 64 of them, and whatever targets its Service
    has now, the allocation never runs out; it gives a target to exactly the
    published ports of each transport; on one transport no two share one;
    every target is unprivileged and is not the admin port's; a port the pod
    may bind is its own target; and allocating again over the result changes
    nothing, so a Service reconciled twice stays as it is. *)
Theorem bound_ports_correct (listeners : list (Z * list Z)) (existing : gmap (Transport * Z) Z)
  (Hlen : (length listeners <= 64)%nat) (Hex : forall k t, existing !! k = Some t -> t <= 65535) :
  exists m, bound_ports (derive_ports listeners) existing = Some m
    /\ (forall t p, is_Some (m !! (t, p)) <-> exists l, l ∈ listeners /\ u16_try_from l.1 = Some p /\ listener_transport l.2 = t)
    /\ (forall t p q b, m !! (t, p) = Some b -> m !! (t, q) = Some b -> p = q)
    /\ (forall t p b, m !! (t, p) = Some b -> PRIVILEGED_PORT_MAX < b <= 65535 /\ b <> ADMIN_PORT /\ (binds_itself p = true -> b = p))
    /\ bound_ports (derive_ports listeners) m = Some m.
Proof.
  destruct (derive_spec listeners) as (Hdl & Hdr & Hdin). set (ps := derive_ports listeners) in *.
  set (pub t := map dport (List.filter (fun p => bool_decide (dport_transport p = t)) ps)).
  assert (Hpub : forall t, Forall (fun p => 0 <= p <= 65535) (pub t) /\ (length (pub t) <= 64)%nat
    /\ forall p, p ∈ pub t <-> exists l, l ∈ listeners /\ u16_try_from l.1 = Some p /\ listener_transport l.2 = t).
  { intros t. assert (Hmem : forall p, p ∈ pub t <-> exists d, d ∈ ps /\ dport d = p /\ dport_transport d = t).
    { intros p. unfold pub. rewrite list_elem_of_In, in_map_iff. split.
      - intros (d & <- & Hd). apply filter_In in Hd as [Hd Ht]. apply bool_decide_eq_true in Ht. exists d. by rewrite list_elem_of_In.
      - intros (d & Hd & <- & Ht). exists d. split; [done|]. apply filter_In. rewrite <- list_elem_of_In, bool_decide_eq_true. done. }
    split_and!.
    - apply Forall_forall. intros p H. apply Hmem in H as (d & Hd & <- & _). rewrite Forall_forall in Hdr. by apply Hdr.
    - unfold pub. rewrite length_map. pose proof (List.filter_length_le (fun p => bool_decide (dport_transport p = t)) ps). lia.
    - intros p. rewrite Hmem. apply Hdin. }
  assert (Hal : forall t, exists m, bound_transport ps existing t = Some m /\ allocated (pub t) m).
  { intros t. destruct (Hpub t) as (H1 & H2 & _). destruct (allocate_spec (pub t) (of_transport t existing) H1 H2) as (m & E & Ha & _).
    - intros p x H. apply lookup_of_transport in H. by eapply Hex.
    - by exists m. }
  destruct (Hal Tcp) as (mt & Et & At), (Hal Udp) as (mu & Eu & Au).
  assert (Hlook : forall t p, (keyed Udp mu ∪ keyed Tcp mt) !! (t, p) = match t with Tcp => mt !! p | Udp => mu !! p end).
  { intros t p. rewrite lookup_union, !lookup_keyed. destruct t; cbn; [by destruct (mt !! p)|by destruct (mu !! p)]. }
  assert (Hof : forall t, of_transport t (keyed Udp mu ∪ keyed Tcp mt) = match t with Tcp => mt | Udp => mu end).
  { intros t. apply map_eq. intros p. apply option_eq. intros x. rewrite lookup_of_transport, Hlook. by destruct t. }
  exists (keyed Udp mu ∪ keyed Tcp mt). unfold bound_ports. rewrite Et, Eu. split; [done|]. split_and!.
  - intros t p. rewrite Hlook. destruct (Hpub t) as (_ & _ & Hm). rewrite <- Hm. destruct t; [apply (al_dom _ _ At)|apply (al_dom _ _ Au)].
  - intros t p q b. rewrite !Hlook. destruct t; [apply (al_inj _ _ At)|apply (al_inj _ _ Au)].
  - intros t p b. rewrite Hlook. intros H.
    assert (Ha : exists m, allocated (pub t) m /\ m !! p = Some b) by (destruct t; eauto). destruct Ha as (m & [Hd Hi Hr Ho] & Hb).
    destruct (Hr p b Hb). split_and!; [lia|lia|done|]. intros Hbi. rewrite (Ho p) in Hb; [congruence|by apply Hd; exists b|done].
  - unfold bound_transport. rewrite !Hof. destruct (Hpub Tcp) as (T1 & T2 & _), (Hpub Udp) as (U1 & U2 & _).
    fold (pub Tcp) (pub Udp). rewrite (allocate_again (pub Tcp) mt T1 T2 At), (allocate_again (pub Udp) mu U1 U2 Au). done.
Qed.

(** ** At work *)

Definition sample_listeners : list (Z * list Z) := [(80, bs "HTTP"); (443, bs "HTTPS"); (53, bs "UDP"); (8000, bs "TCP"); (19099, bs "TCP"); (53, bs "TCP")].

Lemma bound_ports_correct_witness : exists m,
  bound_ports (derive_ports sample_listeners) {[(Tcp, 443) := 8443]} = Some m
  /\ m !! (Tcp, 443) = Some 8443 /\ m !! (Tcp, 80) = Some 8002 /\ m !! (Udp, 53) = Some 8000
  /\ bound_ports (derive_ports sample_listeners) m = Some m.
Proof.
  destruct (bound_ports_correct sample_listeners {[(Tcp, 443) := 8443]}) as (m & E & _ & _ & _ & Ha).
  - cbn. lia.
  - intros k t H. apply lookup_singleton_Some in H as [_ <-]. lia.
  - exists m. split; [exact E|]. assert (Hm : Some m = bound_ports (derive_ports sample_listeners) {[(Tcp, 443) := 8443]}) by (by rewrite E).
    assert (Hl : forall k, m !! k = (x ← bound_ports (derive_ports sample_listeners) {[(Tcp, 443) := 8443]}; x !! k)) by (intros k; by rewrite <- Hm).
    rewrite !Hl. split_and!; [vm_compute; reflexivity..|exact Ha].
Defined.
