(* ===== verification/GatewayApi.v ===== *)
(** * Gateway API objects and who may attach where

    [src/src/kubernetes/parent_ref.rs], [hostname.rs], [reference_grants.rs]
    and the listener rules of [reconciler/mod.rs]: which listeners of a
    Gateway a route's parentRef selects, whether they admit it, which
    listeners are indistinct, and which references cross namespaces. The
    records carry the fields of the Kubernetes objects the code reads; the
    four kinds of route have the same parentRefs, one record. Messages are
    left out: a rejection keeps its reason. *)

From S2P Require Import Prelude Bytes Routing Config ConfigTable.

(** ** Objects *)

(** [creation_timestamp] in nanoseconds. *)
Record ObjectMeta := {
  meta_name : option (list Z);
  meta_namespace : option (list Z);
  meta_uid : option (list Z);
  meta_generation : option Z;
  creation_timestamp : option Z;
}.

Definition route_namespace (m : ObjectMeta) : list Z := default (bs "default") (meta_namespace m).

(** [ParentRefAccess] *)
Record ParentReference := {
  ref_name : list Z;
  ref_section_name : option (list Z);
  ref_group : option (list Z);
  ref_kind : option (list Z);
  ref_namespace : option (list Z);
  ref_port : option Z;
}.

Inductive NamespacesFrom := FromAll | FromSelector | FromSame.

Record MatchExpression := { me_key : list Z; me_operator : list Z; me_values : option (list (list Z)) }.
Record LabelSelector := { match_labels : option (gmap (list Z) (list Z)); match_expressions : option (list MatchExpression) }.
Record RouteNamespaces := { ns_from : option NamespacesFrom; ns_selector : option LabelSelector }.
Record RouteGroupKind := { rgk_group : option (list Z); rgk_kind : list Z }.
Record AllowedRoutes := { ar_kinds : option (list RouteGroupKind); ar_namespaces : option RouteNamespaces }.

Record SecretRef := { sr_group : option (list Z); sr_kind : option (list Z); sr_name : list Z; sr_namespace : option (list Z) }.
Record ListenerTls := { lt_mode : option TlsMode; lt_certificate_refs : option (list SecretRef) }.

Record GatewayListeners := {
  gl_name : list Z;
  gl_port : Z;                       (** an i32 *)
  gl_protocol : list Z;
  gl_hostname : option (list Z);
  gl_tls : option ListenerTls;
  gl_allowed_routes : option AllowedRoutes;
}.

Record GrantFrom := { gf_group : list Z; gf_kind : list Z; gf_namespace : list Z }.
Record GrantTo := { gt_group : list Z; gt_kind : list Z; gt_name : option (list Z) }.
Record ReferenceGrant := { grant_namespace : option (list Z); grant_from : list GrantFrom; grant_to : list GrantTo }.

Definition GATEWAY_GROUP : list Z := bs "gateway.networking.k8s.io".

(** ** parentRefs *)

Definition is_none_or {A} (p : A -> bool) (o : option A) : bool := match o with Some a => p a | None => true end.

Definition parent_ref_matches_gateway (pr : ParentReference) (route_ns gateway_name gateway_ns : list Z) : bool :=
  beq (ref_name pr) gateway_name
  && is_none_or (fun g => beq g GATEWAY_GROUP) (ref_group pr)
  && is_none_or (fun k => beq k (bs "Gateway")) (ref_kind pr)
  && beq (default route_ns (ref_namespace pr)) gateway_ns.

Definition route_targets_gateway (parent_refs : option (list ParentReference)) (route_ns gateway_name gateway_ns : list Z) : bool :=
  match parent_refs with
  | Some refs => existsb (fun pr => parent_ref_matches_gateway pr route_ns gateway_name gateway_ns) refs
  | None => false
  end.

(** ** Hostnames *)

Definition hostnames_intersect (listener_hostname : option (list Z)) (route_hostnames : list (list Z)) : bool :=
  match listener_hostname with
  | None => true
  | Some lh => if is_nil route_hostnames then true else existsb (Routing.hostnames_intersect lh) route_hostnames
  end.

(** ** Listeners *)

Definition listener_is_served (l : GatewayListeners) : bool :=
  if existsb (beq (gl_protocol l)) [bs "HTTP"; bs "HTTPS"; bs "TCP"; bs "UDP"] then true
  else if beq (gl_protocol l) (bs "TLS")
  then match gl_tls l with Some tls => bool_decide (lt_mode tls = Some Passthrough) | None => false end
  else false.

Definition protocol_allows (protocol route_kind : list Z) : bool :=
  if beq protocol (bs "HTTP") || beq protocol (bs "HTTPS") then beq route_kind (bs "HTTPRoute")
  else if beq protocol (bs "TLS") then beq route_kind (bs "TLSRoute")
  else if beq protocol (bs "TCP") then beq route_kind (bs "TCPRoute")
  else if beq protocol (bs "UDP") then beq route_kind (bs "UDPRoute")
  else false.

(** [allowedRoutes.kinds] *)
Definition kind_allowed (l : GatewayListeners) (route_kind : list Z) : bool :=
  match gl_allowed_routes l with
  | None => true
  | Some allowed =>
      match ar_kinds allowed with
      | None => true
      | Some kinds =>
          is_nil kinds
          || existsb (fun k => beq (rgk_kind k) route_kind && beq (default GATEWAY_GROUP (rgk_group k)) GATEWAY_GROUP) kinds
      end
  end.

Definition expression_holds (labels : gmap (list Z) (list Z)) (e : MatchExpression) : bool :=
  let vals := default [] (me_values e) in
  let contained := match labels !! me_key e with Some v => existsb (beq v) vals | None => false end in
  if beq (me_operator e) (bs "In") then contained
  else if beq (me_operator e) (bs "NotIn") then negb contained
  else if beq (me_operator e) (bs "Exists") then is_some (labels !! me_key e)
  else if beq (me_operator e) (bs "DoesNotExist") then negb (is_some (labels !! me_key e))
  else false.

Definition selector_matches (s : LabelSelector) (labels : gmap (list Z) (list Z)) : bool :=
  match match_labels s with
  | Some want => forallb (fun kv => bool_decide (labels !! kv.1 = Some kv.2)) (map_to_list want)
  | None => true
  end
  && match match_expressions s with Some exprs => forallb (expression_holds labels) exprs | None => true end.

Definition namespace_allowed (l : GatewayListeners) (gateway_ns route_ns : list Z) (namespace_labels : gmap (list Z) (gmap (list Z) (list Z))) : bool :=
  match gl_allowed_routes l with
  | None => beq route_ns gateway_ns
  | Some allowed =>
      match ar_namespaces allowed with
      | None => beq route_ns gateway_ns
      | Some namespaces =>
          match ns_from namespaces with
          | None | Some FromSame => beq route_ns gateway_ns
          | Some FromAll => true
          | Some FromSelector =>
              match namespace_labels !! route_ns with
              | None => false
              | Some labels => match ns_selector namespaces with None => true | Some s => selector_matches s labels end
              end
          end
      end
  end.

Definition is_route_allowed_by_listener (l : GatewayListeners) (gateway_ns route_ns route_kind : list Z)
    (namespace_labels : gmap (list Z) (gmap (list Z) (list Z))) : bool :=
  if negb (listener_is_served l) then false
  else if negb (protocol_allows (gl_protocol l) route_kind) then false
  else if negb (kind_allowed l route_kind) then false
  else namespace_allowed l gateway_ns route_ns namespace_labels.

(** Why a parentRef attaches nowhere. [Conflicted] is [collect_routes]'s. *)
Inductive Rejection := NoMatchingParent | NoMatchingListenerHostname | NotAllowedByListeners | Conflicted.

#[export] Instance Rejection_eq_dec : EqDecision Rejection.
Proof. solve_decision. Defined.

Definition priority (r : Rejection) : Z :=
  match r with NotAllowedByListeners => 2 | NoMatchingListenerHostname => 1 | _ => 0 end.

(** [if priority(r) > priority(best) { best = r }] *)
Definition better (r best : Rejection) : Rejection := if priority best <? priority r then r else best.

Definition ref_selects (pr : ParentReference) (l : GatewayListeners) : bool :=
  is_none_or (fun section => beq section (gl_name l)) (ref_section_name pr)
  && is_none_or (fun port => port =? gl_port l) (ref_port pr).

Definition parent_ref_step (pr : ParentReference) (gateway_ns route_ns route_kind : list Z) (route_hostnames : list (list Z))
    (namespace_labels : gmap (list Z) (gmap (list Z) (list Z))) (st : list (list Z) * Rejection) (l : GatewayListeners)
  : list (list Z) * Rejection :=
  let '(allowed, best_reason) := st in
  if negb (ref_selects pr l) then (allowed, best_reason)
  else if negb (hostnames_intersect (gl_hostname l) route_hostnames) then (allowed, better NoMatchingListenerHostname best_reason)
  else if is_route_allowed_by_listener l gateway_ns route_ns route_kind namespace_labels then (allowed ++ [gl_name l], best_reason)
  else (allowed, better NotAllowedByListeners best_reason).

Definition listeners_for_parent_ref (pr : ParentReference) (listeners : list GatewayListeners) (gateway_ns route_ns route_kind : list Z)
    (route_hostnames : list (list Z)) (namespace_labels : gmap (list Z) (gmap (list Z) (list Z))) : result (list (list Z)) Rejection :=
  let '(allowed, best_reason) :=
    fold_left (parent_ref_step pr gateway_ns route_ns route_kind route_hostnames namespace_labels) listeners ([], NoMatchingParent) in
  if is_nil allowed then Err best_reason else Ok allowed.

(** ** ReferenceGrants *)

Definition grants_reference (g : ReferenceGrant) (from_group from_kind from_namespace to_group to_kind to_namespace to_name : list Z) : bool :=
  beq (default (bs "default") (grant_namespace g)) to_namespace
  && existsb (fun f => beq (gf_group f) from_group && beq (gf_kind f) from_kind && beq (gf_namespace f) from_namespace) (grant_from g)
  && existsb (fun t => beq (gt_group t) to_group && beq (gt_kind t) to_kind && is_none_or (fun n => beq n to_name) (gt_name t)) (grant_to g).

Definition is_reference_allowed (grants : list ReferenceGrant)
    (from_group from_kind from_namespace to_group to_kind to_namespace to_name : list Z) : bool :=
  if beq from_namespace to_namespace then true
  else existsb (fun g => grants_reference g from_group from_kind from_namespace to_group to_kind to_namespace to_name) grants.

(** ** Indistinct listeners *)

Inductive Conflict := ProtocolConflict | HostnameConflict.

#[export] Instance Conflict_eq_dec : EqDecision Conflict.
Proof. solve_decision. Defined.

Definition protocol_family (protocol : list Z) : list Z := if beq protocol (bs "HTTPS") then bs "TLS" else protocol.

Definition udp (l : GatewayListeners) : bool := beq (gl_protocol l) (bs "UDP").

Definition clash (a b : GatewayListeners) : option Conflict :=
  if negb ((gl_port b =? gl_port a) && eqb (udp a) (udp b)) then None
  else if negb (beq (protocol_family (gl_protocol a)) (protocol_family (gl_protocol b))) then Some ProtocolConflict
  else if beq (gl_protocol a) (bs "TCP") || beq (gl_protocol a) (bs "UDP") || bool_decide (gl_hostname a = gl_hostname b)
  then Some HostnameConflict else None.

(** [entry(name).or_insert(reason)], overwritten by a protocol conflict. *)
Definition record_conflict (reason : Conflict) (m : gmap (list Z) Conflict) (name : list Z) : gmap (list Z) Conflict :=
  match reason, m !! name with
  | HostnameConflict, Some _ => m
  | _, _ => <[name := reason]> m
  end.

Definition record_clash (a : GatewayListeners) (m : gmap (list Z) Conflict) (b : GatewayListeners) : gmap (list Z) Conflict :=
  match clash a b with
  | None => m
  | Some reason => record_conflict reason (record_conflict reason m (gl_name a)) (gl_name b)
  end.

Fixpoint conflicts_among (served : list GatewayListeners) (m : gmap (list Z) Conflict) : gmap (list Z) Conflict :=
  match served with
  | [] => m
  | a :: rest => conflicts_among rest (fold_left (record_clash a) rest m)
  end.

Definition listener_conflicts (listeners : list GatewayListeners) : gmap (list Z) Conflict :=
  conflicts_among (List.filter listener_is_served listeners) ∅.

(** [reconcile_to_config] keeps the others. *)
Definition distinct_listeners (listeners : list GatewayListeners) : list GatewayListeners :=
  List.filter (fun l => negb (is_some (listener_conflicts listeners !! gl_name l))) listeners.

(** ** What a parentRef attaches to *)

(** The listeners a parentRef selects that admit the route. *)
Definition admits (l : GatewayListeners) (pr : ParentReference) (gateway_ns route_ns route_kind : list Z) (route_hostnames : list (list Z))
    (namespace_labels : gmap (list Z) (gmap (list Z) (list Z))) : bool :=
  ref_selects pr l && hostnames_intersect (gl_hostname l) route_hostnames
  && is_route_allowed_by_listener l gateway_ns route_ns route_kind namespace_labels.

Lemma beq_true a b : beq a b = true <-> a = b.
Proof. unfold beq. apply bool_decide_eq_true. Qed.

Lemma elem_of_existsb {A} (p : A -> bool) l : existsb p l = true <-> exists x, x ∈ l /\ p x = true.
Proof. rewrite existsb_exists. setoid_rewrite list_elem_of_In. done. Qed.

Section ParentRef.
Context (pr : ParentReference) (gateway_ns route_ns route_kind : list Z) (route_hostnames : list (list Z))
  (labels : gmap (list Z) (gmap (list Z) (list Z))).

Abbreviation admitted l := (admits l pr gateway_ns route_ns route_kind route_hostnames labels).
Abbreviation step := (parent_ref_step pr gateway_ns route_ns route_kind route_hostnames labels).

(** The most specific reason among the listeners that do not admit. *)
Definition specific_reason (ls : list GatewayListeners) : Rejection :=
  if existsb (fun l => ref_selects pr l && hostnames_intersect (gl_hostname l) route_hostnames && negb (admitted l)) ls then NotAllowedByListeners
  else if existsb (fun l => ref_selects pr l && negb (hostnames_intersect (gl_hostname l) route_hostnames)) ls then NoMatchingListenerHostname
  else NoMatchingParent.

Lemma parent_ref_fold ls : fold_left step ls ([], NoMatchingParent) = (map gl_name (List.filter (fun l => admitted l) ls), specific_reason ls).
Proof.
  induction ls as [|l ls IH] using rev_ind; [done|]. rewrite fold_left_app, IH. cbn [fold_left].
  rewrite List.filter_app, map_app. unfold specific_reason. rewrite !existsb_app. cbn [List.filter existsb].
  unfold parent_ref_step, admits. rewrite !orb_false_r.
  destruct (ref_selects pr l); cbn; [|by rewrite app_nil_r, !orb_false_r].
  destruct (hostnames_intersect (gl_hostname l) route_hostnames); cbn.
  - destruct (is_route_allowed_by_listener l gateway_ns route_ns route_kind labels); cbn; [by rewrite !orb_false_r|].
    rewrite app_nil_r, orb_true_r. f_equal. by repeat case_match.
  - rewrite app_nil_r, orb_false_r, orb_true_r. f_equal. by repeat case_match.
Qed.

Lemma listeners_for_parent_ref_eq ls :
  listeners_for_parent_ref pr ls gateway_ns route_ns route_kind route_hostnames labels =
  let allowed := map gl_name (List.filter (fun l => admitted l) ls) in
  if is_nil allowed then Err (specific_reason ls) else Ok allowed.
Proof. unfold listeners_for_parent_ref. by rewrite parent_ref_fold. Qed.

End ParentRef.

(** ** Indistinct listeners, exactly *)

Lemma clash_sym a b : clash a b = clash b a.
Proof.
  unfold clash. rewrite (Z.eqb_sym (gl_port a)). destruct (gl_port b =? gl_port a); [|done].
  assert (Hu : eqb (udp a) (udp b) = eqb (udp b) (udp a)) by (destruct (udp a), (udp b); done). rewrite Hu. clear Hu.
  assert (Hb : forall x y, beq x y = beq y x) by (intros; apply bool_decide_ext; done). rewrite (Hb (protocol_family (gl_protocol a))).
  destruct (eqb (udp b) (udp a)); [|done]. destruct (beq (protocol_family (gl_protocol b)) (protocol_family (gl_protocol a))) eqn:Ef; [|done]. cbn.
  apply beq_true in Ef. rewrite (bool_decide_ext (gl_hostname a = gl_hostname b) (gl_hostname b = gl_hostname a)) by done.
  assert (E : forall p, p = bs "TCP" \/ p = bs "UDP" -> beq (gl_protocol a) p = beq (gl_protocol b) p); [|by rewrite !E by tauto].
  assert (Hf : forall q p, p = bs "TCP" \/ p = bs "UDP" -> q = p <-> protocol_family q = p).
  { intros q p Hp. unfold protocol_family. destruct (beq q (bs "HTTPS")) eqn:E; [|done]. apply beq_true in E as ->. by destruct Hp as [->| ->]. }
  intros p Hp. apply bool_decide_ext. by rewrite (Hf (gl_protocol a) p Hp), (Hf (gl_protocol b) p Hp), Ef.
Qed.

(** Two places of the list whose listeners clash, one of them named [n]. *)
Definition clashes (ls : list GatewayListeners) (n : list Z) (r : Conflict) : Prop :=
  exists i j a b, i <> j /\ ls !! i = Some a /\ ls !! j = Some b /\ gl_name a = n /\ clash a b = Some r.

(** What the map holds, given which clashes have been seen. *)
Definition conflicts_hold (m : gmap (list Z) Conflict) (seen : list Z -> Conflict -> Prop) : Prop :=
  forall n, (forall r, m !! n = Some r -> seen n r) /\ (forall r, seen n r -> is_Some (m !! n))
    /\ (seen n ProtocolConflict -> m !! n = Some ProtocolConflict).

Lemma conflicts_hold_ext m (P Q : list Z -> Conflict -> Prop) : (forall n r, P n r <-> Q n r) -> conflicts_hold m P -> conflicts_hold m Q.
Proof. intros E H n. destruct (H n) as (H1 & H2 & H3). split_and!; intros; [apply E; auto|eapply H2, E; eauto|by apply H3, E]. Qed.

Lemma record_conflict_holds m P r n : conflicts_hold m P -> conflicts_hold (record_conflict r m n) (fun n' r' => P n' r' \/ n' = n /\ r' = r).
Proof.
  intros H n'. destruct (H n') as (H1 & H2 & H3). destruct (decide (n' = n)) as [->|Hne].
  - unfold record_conflict. destruct r; [|destruct (m !! n) as [c|] eqn:E]; rewrite ?lookup_insert_eq, ?E; split_and!; eauto.
    + intros r [= <-]. tauto.
    + intros [HP|[_ ?]]; [auto|done].
    + intros r [= <-]. tauto.
    + intros [HP|[_ ?]]; [by apply H3 in HP|done].
  - assert (E : record_conflict r m n !! n' = m !! n').
    { unfold record_conflict. destruct r, (m !! n); by rewrite ?lookup_insert_ne. }
    rewrite E. split_and!; [by eauto|intros r' [?|[? ?]]; [by eauto|done]|intros [?|[? ?]]; [by eauto|done]].
Qed.

Lemma record_clashes_holds a rest m P : conflicts_hold m P ->
  conflicts_hold (fold_left (record_clash a) rest m)
    (fun n r => P n r \/ exists b, b ∈ rest /\ clash a b = Some r /\ (n = gl_name a \/ n = gl_name b)).
Proof.
  intros H. induction rest as [|b rest IH] using rev_ind.
  { eapply conflicts_hold_ext; [|exact H]. intros n r. split; [by left|]. intros [?|(b & Hb & _)]; [done|]. by apply not_elem_of_nil in Hb. }
  rewrite fold_left_app. cbn [fold_left]. unfold record_clash at 1. destruct (clash a b) as [r|] eqn:E.
  - eapply conflicts_hold_ext; [|exact (record_conflict_holds _ _ r (gl_name b) (record_conflict_holds _ _ r (gl_name a) IH))].
    intros n r'. cbn. setoid_rewrite elem_of_app. setoid_rewrite list_elem_of_singleton. split.
    + intros [[[?|(x & ? & ? & ?)]|[-> ->]]|[-> ->]]; [by left|right; exists x; tauto|right; exists b; tauto|right; exists b; tauto].
    + intros [?|(x & [?| ->] & Hc & Hn)]; [by repeat left|do 2 left; right; by exists x|]. assert (r' = r) as -> by congruence. tauto.
  - eapply conflicts_hold_ext; [|exact IH]. intros n r'. cbn. setoid_rewrite elem_of_app. setoid_rewrite list_elem_of_singleton. split.
    + intros [?|(x & ? & ?)]; [by left|right; exists x; tauto].
    + intros [?|(x & [?| ->] & Hc & Hn)]; [by left|right; by exists x|]. congruence.
Qed.

Lemma clashes_cons a rest n r :
  clashes (a :: rest) n r <-> (exists b, b ∈ rest /\ clash a b = Some r /\ (n = gl_name a \/ n = gl_name b)) \/ clashes rest n r.
Proof.
  split.
  - intros (i & j & x & y & Hij & Hi & Hj & Hn & Hc). destruct i as [|i], j as [|j]; cbn in *; [done| | |].
    + injection Hi as ->. left. exists y. split_and!; [by eapply list_elem_of_lookup_2|done|by left].
    + injection Hj as ->. left. exists x. split_and!; [by eapply list_elem_of_lookup_2|by rewrite clash_sym|by right].
    + right. exists i, j, x, y. split_and!; [congruence|done..].
  - intros [(b & Hb & Hc & Hn)|(i & j & x & y & Hij & Hi & Hj & Hn & Hc)].
    + apply list_elem_of_lookup in Hb as [k Hk]. destruct Hn as [->| ->].
      * exists 0%nat, (S k), a, b. done.
      * exists (S k), 0%nat, b, a. split_and!; try done. by rewrite clash_sym.
    + exists (S i), (S j), x, y. split_and!; [congruence|done..].
Qed.

Lemma conflicts_among_holds served m P : conflicts_hold m P -> conflicts_hold (conflicts_among served m) (fun n r => P n r \/ clashes served n r).
Proof.
  revert m P. induction served as [|a rest IH]; intros m P H; cbn [conflicts_among].
  - eapply conflicts_hold_ext; [|exact H]. intros n r. split; [by left|]. by intros [?|(i & j & x & y & _ & Hi & _)].
  - eapply conflicts_hold_ext; [|exact (IH _ _ (record_clashes_holds a rest m P H))]. intros n r. cbn. rewrite clashes_cons. tauto.
Qed.

Lemma listener_conflicts_holds ls : conflicts_hold (listener_conflicts ls) (clashes (List.filter listener_is_served ls)).
Proof.
  eapply conflicts_hold_ext; [|apply (conflicts_among_holds _ ∅ (fun _ _ => False))].
  - intros n r. cbn. tauto.
  - intros n. rewrite lookup_empty. split_and!; [by intros r|by intros r|done].
Qed.

Lemma elem_of_distinct_listeners ls l : l ∈ distinct_listeners ls <-> l ∈ ls /\ listener_conflicts ls !! gl_name l = None.
Proof.
  unfold distinct_listeners. rewrite list_elem_of_In, filter_In, <- list_elem_of_In.
  destruct (listener_conflicts ls !! gl_name l); cbn; intuition congruence.
Qed.

(** Distinct places of a filtered list are distinct places of the list. *)
Lemma filter_places {A} (p : A -> bool) l i j x y : i <> j -> l !! i = Some x -> l !! j = Some y -> p x = true -> p y = true ->
  exists i' j', i' <> j' /\ List.filter p l !! i' = Some x /\ List.filter p l !! j' = Some y.
Proof.
  revert i j. induction l as [|z l IH]; intros i j Hij Hi Hj Hx Hy; [done|]. cbn [List.filter].
  destruct i as [|i], j as [|j]; cbn in Hi, Hj; [done| | |].
  - injection Hi as ->. rewrite Hx. assert (H : y ∈ List.filter p l) by (apply list_elem_of_In, filter_In; split; [by eapply list_elem_of_In, list_elem_of_lookup_2|done]).
    apply list_elem_of_lookup in H as [k Hk]. by exists 0%nat, (S k).
  - injection Hj as ->. rewrite Hy. assert (H : x ∈ List.filter p l) by (apply list_elem_of_In, filter_In; split; [by eapply list_elem_of_In, list_elem_of_lookup_2|done]).
    apply list_elem_of_lookup in H as [k Hk]. by exists (S k), 0%nat.
  - destruct (IH i j ltac:(congruence) Hi Hj Hx Hy) as (i' & j' & H1 & H2 & H3). destruct (p z); [|by exists i', j'].
    exists (S i'), (S j'). split_and!; [congruence|done..].
Qed.

Lemma elem_of_filter_b {A} (p : A -> bool) l x : x ∈ List.filter p l <-> x ∈ l /\ p x = true.
Proof. by rewrite list_elem_of_In, filter_In, <- list_elem_of_In. Qed.

(** The listeners kept are distinct and no other is refused. For a
    Gateway whose listeners have distinct names, any two that are kept and
    served do not clash: on one port and one of TCP and UDP sockets they are
    of one family, neither plain TCP nor UDP, and their hostnames differ.
    Each one refused is served and clashes with another served listener of
    the Gateway, and its reason is a protocol conflict just when one of
    another family is among them. *)
Theorem distinct_listeners_exact (ls : list GatewayListeners) (Hnames : NoDup (map gl_name ls)) :
  (forall a b, a ∈ distinct_listeners ls -> b ∈ distinct_listeners ls -> listener_is_served a = true -> listener_is_served b = true -> a <> b ->
     gl_port a = gl_port b -> udp a = udp b ->
     protocol_family (gl_protocol a) = protocol_family (gl_protocol b) /\ gl_protocol a <> bs "TCP" /\ gl_protocol a <> bs "UDP" /\ gl_hostname a <> gl_hostname b)
  /\ (forall a, a ∈ ls -> a ∉ distinct_listeners ls ->
        listener_is_served a = true
        /\ exists b r, b ∈ ls /\ b <> a /\ listener_is_served b = true /\ clash a b = Some r /\ listener_conflicts ls !! gl_name a = Some r)
  /\ (forall a, a ∈ ls -> listener_conflicts ls !! gl_name a = Some ProtocolConflict <->
        listener_is_served a = true /\ exists b, b ∈ ls /\ b <> a /\ listener_is_served b = true /\ clash a b = Some ProtocolConflict).
Proof.
  assert (Hinj : forall a b, a ∈ ls -> b ∈ ls -> gl_name a = gl_name b -> a = b).
  { intros a b. by apply NoDup_map_inj. }
  assert (Hserved : forall n r, clashes (List.filter listener_is_served ls) n r <->
    exists a b, a ∈ ls /\ b ∈ ls /\ a <> b /\ listener_is_served a = true /\ listener_is_served b = true /\ gl_name a = n /\ clash a b = Some r).
  { intros n r. split.
    - intros (i & j & a & b & Hij & Hi & Hj & Hn & Hc). exists a, b.
      pose proof (list_elem_of_lookup_2 _ _ _ Hi) as [Ha Hsa]%elem_of_filter_b. pose proof (list_elem_of_lookup_2 _ _ _ Hj) as [Hb Hsb]%elem_of_filter_b.
      split_and!; try done. intros <-. apply Hij. eapply (NoDup_lookup (List.filter listener_is_served ls)); [|done..].
      apply NoDup_ListNoDup, List.NoDup_filter, NoDup_ListNoDup. by eapply NoDup_fmap_1.
    - intros (a & b & Ha & Hb & Hne & Hsa & Hsb & Hn & Hc). apply list_elem_of_lookup in Ha as [i Hi], Hb as [j Hj].
      destruct (filter_places listener_is_served ls i j a b) as (i' & j' & ? & ? & ?); [intros <-; congruence|done..|]. by exists i', j', a, b. }
  split_and!.
  - intros a b [Ha Hna]%elem_of_distinct_listeners [Hb _]%elem_of_distinct_listeners Hsa Hsb Hne Hp Hu.
    assert (Hc : clash a b = None).
    { destruct (clash a b) as [r|] eqn:E; [|done]. destruct (listener_conflicts_holds ls (gl_name a)) as (_ & H2 & _).
      destruct (H2 r) as [c Hc]; [apply Hserved; by exists a, b|]. congruence. }
    revert Hc. unfold clash. rewrite Hp, Hu, Z.eqb_refl, eqb_reflx. cbn. destruct (beq (protocol_family (gl_protocol a)) (protocol_family (gl_protocol b))) eqn:Ef; [|done].
    cbn. destruct (_ || _) eqn:Eo; [done|]. intros _. apply orb_false_iff in Eo as [Eo Eh]. apply orb_false_iff in Eo as [E1 E2].
    apply beq_true in Ef. apply bool_decide_eq_false in E1, E2, Eh. done.
  - intros a Ha Hn. destruct (listener_conflicts ls !! gl_name a) as [r|] eqn:E; [|destruct Hn; by apply elem_of_distinct_listeners].
    destruct (listener_conflicts_holds ls (gl_name a)) as (H1 & _). pose proof (H1 r E) as Hc.
    apply Hserved in Hc as (x & y & Hx & Hy & Hne & Hsx & Hsy & Hn' & Hc). pose proof (Hinj x a Hx Ha Hn') as ->. split; [done|].
    exists y, r. done.
  - intros a Ha. destruct (listener_conflicts_holds ls (gl_name a)) as (H1 & _ & H3).
    assert (H : listener_conflicts ls !! gl_name a = Some ProtocolConflict <-> clashes (List.filter listener_is_served ls) (gl_name a) ProtocolConflict) by (split; auto).
    rewrite H, Hserved. split.
    + intros (x & y & Hx & Hy & Hne & Hsx & Hsy & Hn' & Hc). pose proof (Hinj x a Hx Ha Hn') as ->. split; [done|]. by exists y.
    + intros (Hs & b & Hb & Hne & Hsb & Hc). by exists a, b.
Qed.

(** ** At work *)

Definition plain_listener (name : list Z) (port : Z) (protocol : list Z) (hostname : option (list Z)) : GatewayListeners :=
  {| gl_name := name; gl_port := port; gl_protocol := protocol; gl_hostname := hostname; gl_tls := None; gl_allowed_routes := None |}.

(** Two plain TCP listeners of one port clash; the HTTP ones differ by hostname. *)
Definition sample_gateway_listeners : list GatewayListeners :=
  [plain_listener (bs "web") 80 (bs "HTTP") (Some (bs "a.example")); plain_listener (bs "alt") 80 (bs "HTTP") (Some (bs "b.example"));
   plain_listener (bs "db1") 5432 (bs "TCP") None; plain_listener (bs "db2") 5432 (bs "TCP") None; plain_listener (bs "dns") 5432 (bs "UDP") None].

Lemma distinct_listeners_exact_witness :
  map gl_name (distinct_listeners sample_gateway_listeners) = [bs "web"; bs "alt"; bs "dns"]
  /\ exists b r, b ∈ sample_gateway_listeners /\ clash (plain_listener (bs "db1") 5432 (bs "TCP") None) b = Some r.
Proof.
  split; [vm_compute; reflexivity|].
  destruct (distinct_listeners_exact sample_gateway_listeners ltac:(apply NoDup_ListNoDup; cbv; repeat constructor; cbn; intuition discriminate)) as (_ & H & _).
  destruct (H (plain_listener (bs "db1") 5432 (bs "TCP") None)) as (_ & b & r & Hb & _ & _ & Hc & _).
  - right. right. left.
  - intros H'. apply (list_elem_of_fmap_2 gl_name) in H'. vm_compute in H'. apply list_elem_of_In in H'. cbn in H'. intuition discriminate.
  - by exists b, r.
Defined.
