(* ===== verification/Converters.v ===== *)
(** * Gateway API routes to configurations

    [src/src/kubernetes/converters.rs]: a Gateway and its routes put in the
    form of the configuration, before any of them is attached or checked. A
    part the proxy cannot represent is left out and named, the rest is
    converted. Reading a duration's text is the section's parameter. *)

From S2P Require Import Prelude Bytes PathNorm Routing Config ConfigTable GatewayApi.

(** ** Objects *)

Record HeaderModifierSpec := { hms_add : option (list HttpHeader); hms_set : option (list HttpHeader); hms_remove : option (list (list Z)) }.

Inductive SchemeSpec := SchemeHttp | SchemeHttps.
Inductive PathModifierType := ModReplaceFullPath | ModReplacePrefixMatch.
Record PathModifierSpec := { pms_type : PathModifierType; replace_full_path : option (list Z); replace_prefix_match : option (list Z) }.

Record RedirectSpec := {
  rs_scheme : option SchemeSpec;
  rs_hostname : option (list Z);
  rs_port : option Z;
  rs_path : option PathModifierSpec;
  rs_status_code : option Z;
}.

Record RewriteSpec := { ws_hostname : option (list Z); ws_path : option PathModifierSpec }.

(** [TypeOther] stands for every type the proxy does not know. *)
Inductive FilterType := TypeRequestHeaderModifier | TypeResponseHeaderModifier | TypeRequestRedirect | TypeUrlRewrite | TypeRequestMirror | TypeOther.

(** A backend reference; the L4 kinds and mirrors have no filters. *)
Record MirrorRefSpec := {
  mrs_name : list Z;
  mrs_namespace : option (list Z);
  mrs_port : option Z;
  mrs_group : option (list Z);
  mrs_kind : option (list Z);
}.

Record FractionSpec := { fs_numerator : Z; fs_denominator : option Z }.
Record MirrorSpec := { ms_backend_ref : MirrorRefSpec; ms_fraction : option FractionSpec; ms_percent : option Z }.

Record FilterSpec := {
  fs_type : FilterType;
  fs_request_header_modifier : option HeaderModifierSpec;
  fs_response_header_modifier : option HeaderModifierSpec;
  fs_request_redirect : option RedirectSpec;
  fs_url_rewrite : option RewriteSpec;
  fs_request_mirror : option MirrorSpec;
}.

Record BackendRefSpec := {
  brs_name : list Z;
  brs_namespace : option (list Z);
  brs_port : option Z;
  brs_weight : option Z;
  brs_group : option (list Z);
  brs_kind : option (list Z);
  brs_filters : option (list FilterSpec);
}.

Inductive MethodSpec := MGet | MHead | MPost | MPut | MDelete | MConnect | MOptions | MTrace | MPatch.
Record PathMatchSpec := { pts_type : option HttpPathMatchType; pts_value : option (list Z) }.
Record ValueMatchSpec := { vms_name : list Z; vms_value : list Z; vms_type : option StringMatchType }.

Record MatchSpec := {
  mts_method : option MethodSpec;
  mts_path : option PathMatchSpec;
  mts_headers : option (list ValueMatchSpec);
  mts_query_params : option (list ValueMatchSpec);
}.

Record TimeoutsSpec := { ts_request : option (list Z); ts_backend_request : option (list Z) }.

Record HTTPRouteRules := {
  rule_matches : option (list MatchSpec);
  rule_filters : option (list FilterSpec);
  rule_backend_refs : option (list BackendRefSpec);
  rule_timeouts : option TimeoutsSpec;
}.

Record HTTPRoute := {
  hr_metadata : ObjectMeta;
  hr_parent_refs : option (list ParentReference);
  hr_hostnames : option (list (list Z));
  hr_rules : option (list HTTPRouteRules);
}.

(** TCPRoute and UDPRoute; a TLSRoute has hostnames. *)
Record L4Route := {
  lr_metadata : ObjectMeta;
  lr_parent_refs : option (list ParentReference);
  lr_rules : list (list BackendRefSpec);
}.

Record TLSRoute := {
  tr_metadata : ObjectMeta;
  tr_parent_refs : option (list ParentReference);
  tr_hostnames : list (list Z);
  tr_rules : list (list BackendRefSpec);
}.

(** An address of the Gateway: its type and value. *)
Record AddressSpec := { as_type : option (list Z); as_value : option (list Z) }.

Record Gateway := {
  gw_metadata : ObjectMeta;
  gw_addresses : option (list AddressSpec);
  gw_listeners : list GatewayListeners;
}.

(** ** Names of backends *)

Definition backend_dns_name (name : list Z) (namespace : option (list Z)) (route_ns : list Z) : list Z :=
  name ++ 46 :: default route_ns namespace ++ bs ".svc".

(** [rsplit_once('.')] *)
Definition rsplit_once (c : Z) (l : list Z) : option (list Z * list Z) :=
  match rfind_byte c l with Some i => Some (take i l, drop (S i) l) | None => None end.

Definition parse_backend_dns_name (dns_name : list Z) : option (list Z * list Z) :=
  stripped ← strip_suffix (bs ".svc") dns_name; rsplit_once 46 stripped.

(** ** Gateways *)

Definition CertData := gmap (list Z * list Z) (list Z * list Z).

Definition secret_ref_key (r : SecretRef) (gw_ns : list Z) : option (list Z * list Z) :=
  if is_nil (default [] (sr_group r)) && beq (default (bs "Secret") (sr_kind r)) (bs "Secret")
  then Some (sr_name r, default gw_ns (sr_namespace r)) else None.

(** [addresses.rs] *)
Definition NETWORK_ADDRESS_TYPE : list Z := bs "portail.epheo.eu/Network".

Definition convert_address (a : AddressSpec) : option (list Z) :=
  let t := default (bs "IPAddress") (as_type a) in
  if beq t (bs "IPAddress") || beq t NETWORK_ADDRESS_TYPE then as_value a else None.

Definition convert_protocol (protocol : list Z) : option Protocol :=
  if beq protocol (bs "HTTP") then Some HTTP
  else if beq protocol (bs "HTTPS") then Some HTTPS
  else if beq protocol (bs "TLS") then Some TLS
  else if beq protocol (bs "TCP") then Some TCP
  else if beq protocol (bs "UDP") then Some UDP
  else None.

Definition convert_certificate_ref (l : GatewayListeners) (gw_ns : list Z) (cert_data : CertData) (r : SecretRef) : option CertificateRef :=
  key ← secret_ref_key r gw_ns;
  '(cert, priv) ← cert_data !! key;
  Some {| cert_name := key.1; cert_namespace := Some key.2; cert_hostname := gl_hostname l; cert_pem := Some cert; key_pem := Some priv |}.

(** [None] is the error that skips the listener. *)
Definition convert_listener (l : GatewayListeners) (gw_ns : list Z) (cert_data : CertData) : option ListenerConfig :=
  protocol ← convert_protocol (gl_protocol l);
  if negb (listener_is_served l) then None
  else
    let tls := (fun t => {| tls_mode := match lt_mode t with Some Passthrough => Passthrough | _ => Terminate end;
                            certificate_refs := omap (convert_certificate_ref l gw_ns cert_data) (default [] (lt_certificate_refs t)) |})
               <$> gl_tls l in
    Some {| l_name := gl_name l; l_protocol := protocol; l_port := as_u16 (gl_port l); l_target_port := None;
            l_hostname := gl_hostname l; l_address := None; l_interface := None; l_tls := tls; l_rate_limit := None |}.

Definition convert_gateway (gw : Gateway) (cert_data : CertData) : GatewayConfig :=
  let gw_ns := default (bs "default") (meta_namespace (gw_metadata gw)) in
  {| g_name := default (bs "portail-gateway") (meta_name (gw_metadata gw));
     listeners := omap (fun l => convert_listener l gw_ns cert_data) (gw_listeners gw);
     g_addresses := omap convert_address (default [] (gw_addresses gw)) |}.

(** ** Matches *)

Definition method_name (m : MethodSpec) : list Z :=
  match m with
  | MGet => bs "GET" | MHead => bs "HEAD" | MPost => bs "POST" | MPut => bs "PUT" | MDelete => bs "DELETE"
  | MConnect => bs "CONNECT" | MOptions => bs "OPTIONS" | MTrace => bs "TRACE" | MPatch => bs "PATCH"
  end.

Definition convert_header_match (h : ValueMatchSpec) : HttpHeaderMatch :=
  {| chm_name := vms_name h; chm_value := vms_value h;
     chm_type := match vms_type h with Some StringRegularExpression => StringRegularExpression | _ => StringExact end |}.

Definition convert_query_param_match (q : ValueMatchSpec) : HttpQueryParamMatch :=
  {| cqm_name := vms_name q; cqm_value := vms_value q;
     cqm_type := match vms_type q with Some StringRegularExpression => StringRegularExpression | _ => StringExact end |}.

Definition convert_path_match (p : PathMatchSpec) : HttpPathMatch :=
  {| pm_type := match pts_type p with
                | Some CfgExact => CfgExact
                | Some CfgRegularExpression => CfgRegularExpression
                | _ => CfgPathPrefix
                end;
     pm_value := default [47] (pts_value p) |}.

Definition convert_http_match (m : MatchSpec) : HttpRouteMatch :=
  {| m_method := method_name <$> mts_method m;
     m_path := convert_path_match <$> mts_path m;
     m_headers := map convert_header_match (default [] (mts_headers m));
     m_query_params := map convert_query_param_match (default [] (mts_query_params m)) |}.

(** ** Filters *)

Definition convert_header_mod (hm : HeaderModifierSpec) : HeaderModifierConfig :=
  {| cfg_add := default [] (hms_add hm); cfg_set := default [] (hms_set hm); cfg_remove := default [] (hms_remove hm) |}.

Definition convert_path_modifier (p : PathModifierSpec) : option HttpURLRewritePath :=
  match pms_type p with
  | ModReplaceFullPath => CfgReplaceFullPath <$> replace_full_path p
  | ModReplacePrefixMatch => CfgReplacePrefixMatch <$> replace_prefix_match p
  end.

Definition convert_redirect_config (rr : RedirectSpec) : RequestRedirectConfig :=
  {| rd_scheme := (fun s => match s with SchemeHttp => bs "http" | SchemeHttps => bs "https" end) <$> rs_scheme rr;
     rd_hostname := rs_hostname rr;
     rd_port := as_u16 <$> rs_port rr;
     rd_path := rs_path rr ≫= convert_path_modifier;
     rd_status_code := default 302 (as_u16 <$> rs_status_code rr) |}.

Definition convert_url_rewrite_config (ur : RewriteSpec) : URLRewriteConfig :=
  {| ur_hostname := ws_hostname ur; ur_path := ws_path ur ≫= convert_path_modifier |}.

Definition convert_mirror_config (rm : MirrorSpec) (ns : list Z) : HttpRouteFilter :=
  let b := ms_backend_ref rm in
  FRequestMirror
    (mkBackendRef (backend_dns_name (mrs_name b) (mrs_namespace b) ns) (as_u16 (default 80 (mrs_port b))) 1
       (default [] (mrs_group b)) (default (bs "Service") (mrs_kind b)) [] None false)
    ((fun p => Z.min 100 (Z.max 0 p)) <$> ms_percent rm)
    ((fun f => {| mf_numerator := Z.max 0 (fs_numerator f); mf_denominator := default 100 (Z.max 1 <$> fs_denominator f) |}) <$> ms_fraction rm).

(** [f.x.as_ref().ok_or_else(|| missing(..))?] *)
Definition required_config {A} (config : option A) (build : A -> HttpRouteFilter) : result HttpRouteFilter RouteError :=
  match config with Some c => Ok (build c) | None => Err (unsupported FilterMissingConfig) end.

Definition convert_http_filter (f : FilterSpec) (ns : list Z) : result HttpRouteFilter RouteError :=
  match fs_type f with
  | TypeRequestHeaderModifier => required_config (fs_request_header_modifier f) (fun hm => FRequestHeaderModifier (convert_header_mod hm))
  | TypeResponseHeaderModifier => required_config (fs_response_header_modifier f) (fun hm => FResponseHeaderModifier (convert_header_mod hm))
  | TypeRequestRedirect => required_config (fs_request_redirect f) (fun rr => FRequestRedirect (convert_redirect_config rr))
  | TypeUrlRewrite => required_config (fs_url_rewrite f) (fun ur => FURLRewrite (convert_url_rewrite_config ur))
  | TypeRequestMirror => required_config (fs_request_mirror f) (fun rm => convert_mirror_config rm ns)
  | TypeOther => Err (unsupported FilterTypeUnsupported)
  end.

Definition convert_backend_ref_filter (f : FilterSpec) : result HttpRouteFilter RouteError :=
  match fs_type f with
  | TypeRequestHeaderModifier => required_config (fs_request_header_modifier f) (fun hm => FRequestHeaderModifier (convert_header_mod hm))
  | TypeResponseHeaderModifier => required_config (fs_response_header_modifier f) (fun hm => FResponseHeaderModifier (convert_header_mod hm))
  | _ => Err (unsupported FilterTypeUnsupported)
  end.

(** ** Keeping what converts, and the first error *)

(** [first.get_or_insert(e)] *)
Definition get_or_insert (first : option RouteError) (e : RouteError) : option RouteError := match first with Some _ => first | None => Some e end.

Definition or_first (first : option RouteError) (place : Place) (err : option RouteError) : option RouteError :=
  match err with Some e => get_or_insert first (at_ place e) | None => first end.

(** [enumerate().filter_map(..)] over what may fail. *)
Fixpoint keep_converted {A B} (place : nat -> Place) (f : A -> result B RouteError) (i : nat) (l : list A) (first : option RouteError)
  : list B * option RouteError :=
  match l with
  | [] => ([], first)
  | a :: rest =>
      match f a with
      | Ok b => let '(bs, first) := keep_converted place f (S i) rest first in (b :: bs, first)
      | Err e => keep_converted place f (S i) rest (get_or_insert first (at_ (place i) e))
      end
  end.

(** [enumerate().map(..)] over what converts and may name an error. *)
Fixpoint map_naming {A B} (place : nat -> Place) (f : A -> B * option RouteError) (i : nat) (l : list A) (first : option RouteError)
  : list B * option RouteError :=
  match l with
  | [] => ([], first)
  | a :: rest =>
      let '(b, err) := f a in
      let '(bs, first) := map_naming place f (S i) rest (or_first first (place i) err) in
      (b :: bs, first)
  end.

Definition convert_http_backend_ref (ns : list Z) (br : BackendRefSpec) : BackendRef * option RouteError :=
  let '(filters, first) := keep_converted AtFilter convert_backend_ref_filter 0 (default [] (brs_filters br)) None in
  (mkBackendRef (backend_dns_name (brs_name br) (brs_namespace br) ns) (as_u16 (default 80 (brs_port br))) (as_u32 (default 1 (brs_weight br)))
     (default [] (brs_group br)) (default (bs "Service") (brs_kind br)) filters None false, first).

(** ** L4 routes *)

Definition convert_l4_backend_ref (ns : list Z) (default_port : option Z) (br : BackendRefSpec) : BackendRef :=
  let port := match brs_port br with Some p => as_u16 p | None => match default_port with Some dp => as_u16 dp | None => 0 end end in
  mkBackendRef (backend_dns_name (brs_name br) (brs_namespace br) ns) port (as_u32 (default 1 (brs_weight br)))
    (default [] (brs_group br)) (default (bs "Service") (brs_kind br)) [] None false.

Definition convert_l4_rules (ns : list Z) (default_port : option Z) (rules : list (list BackendRefSpec)) : list L4RouteRule :=
  map (fun refs => {| l4_backend_refs := map (convert_l4_backend_ref ns default_port) refs |}) rules.

Definition convert_tcp_route (r : L4Route) : TcpRouteConfig :=
  {| t_parent_refs := []; t_rules := convert_l4_rules (route_namespace (lr_metadata r)) (Some 80) (lr_rules r) |}.

Definition convert_udp_route (r : L4Route) : TcpRouteConfig :=
  {| t_parent_refs := []; t_rules := convert_l4_rules (route_namespace (lr_metadata r)) None (lr_rules r) |}.

Definition convert_tls_route (r : TLSRoute) : TlsRouteConfig :=
  {| s_parent_refs := []; s_hostnames := tr_hostnames r; s_rules := convert_l4_rules (route_namespace (tr_metadata r)) (Some 443) (tr_rules r) |}.

(** ** HTTP routes *)

Section Http.
(** [config::parsing::parse_duration], in nanoseconds. *)
Context (parse_duration : list Z -> option Z).

Definition convert_timeouts (t : TimeoutsSpec) : HttpRouteTimeouts :=
  {| t_request := ts_request t ≫= parse_duration; t_backend_request := ts_backend_request t ≫= parse_duration |}.

Definition convert_http_rule (ns : list Z) (rule : HTTPRouteRules) : CfgRule * option RouteError :=
  let matches := map convert_http_match (default [] (rule_matches rule)) in
  let '(filters, first) := keep_converted AtFilter (fun f => convert_http_filter f ns) 0 (default [] (rule_filters rule)) None in
  let refs := if existsb is_redirect filters then [] else default [] (rule_backend_refs rule) in
  let '(backends, first) := map_naming AtBackendRef (convert_http_backend_ref ns) 0 refs first in
  ({| c_matches := matches; c_filters := filters; backend_refs := backends; timeouts := convert_timeouts <$> rule_timeouts rule |}, first).

Definition convert_http_route (r : HTTPRoute) : HttpRouteConfig * result unit RouteError :=
  let ns := route_namespace (hr_metadata r) in
  let '(rules, first) := map_naming AtRule (convert_http_rule ns) 0 (default [] (hr_rules r)) None in
  ({| h_parent_refs := []; hostnames := default [] (hr_hostnames r); h_rules := rules |},
   match first with Some e => Err e | None => Ok tt end).

End Http.

(** ** The names read back *)

Lemma parse_backend_dns_name_round name namespace route_ns :
  Forall (fun b => b <> 46) (default route_ns namespace) ->
  parse_backend_dns_name (backend_dns_name name namespace route_ns) = Some (name, default route_ns namespace).
Proof.
  intros H. unfold parse_backend_dns_name, backend_dns_name.
  replace (name ++ 46 :: default route_ns namespace ++ bs ".svc") with ((name ++ 46 :: default route_ns namespace) ++ bs ".svc")
    by (rewrite <- app_assoc; done).
  rewrite strip_suffix_app. cbn [mbind option_bind]. unfold rsplit_once. rewrite rfind_byte_last by done.
  rewrite take_app_length. rewrite drop_app_ge by lia. replace (S (length name) - length name)%nat with 1%nat by lia. done.
Qed.

(** ** What the errors leave in place *)

Lemma keep_converted_elem {A B} place (f : A -> result B RouteError) i l first b :
  b ∈ (keep_converted place f i l first).1 <-> exists a, a ∈ l /\ f a = Ok b.
Proof.
  revert i first. induction l as [|a l IH]; intros i first; cbn [keep_converted].
  { split; [intros H; by apply not_elem_of_nil in H|]. intros (x & Hx & _). by apply not_elem_of_nil in Hx. }
  setoid_rewrite elem_of_cons. destruct (f a) as [b'|e] eqn:E.
  - specialize (IH (S i) first). destruct (keep_converted place f (S i) l first) as [bs' first']. cbn in *. rewrite elem_of_cons, IH. split.
    + intros [->|(x & Hx & Hf)]; [exists a; tauto|exists x; tauto].
    + intros (x & [->|Hx] & Hf); [left; congruence|right; by exists x].
  - rewrite IH. split.
    + intros (x & Hx & Hf). exists x. tauto.
    + intros (x & [->|Hx] & Hf); [congruence|by exists x].
Qed.

Lemma map_naming_map {A B} place (f : A -> B * option RouteError) i l first : (map_naming place f i l first).1 = map (fun a => (f a).1) l.
Proof.
  revert i first. induction l as [|a l IH]; intros i first; cbn [map_naming map]; [done|].
  destruct (f a) as [b err]. specialize (IH (S i) (or_first first (place i) err)).
  destruct (map_naming place f (S i) l (or_first first (place i) err)) as [bs' first']. cbn in *. by rewrite IH.
Qed.
