(* ===== verification/Reconcile.v ===== *)
(** * Reconciliation

    [src/src/kubernetes/reconciler/mod.rs]: the routes and policies of a
    cluster turned into one Gateway's configuration, with the status each
    route and policy is owed. [GatewayRoute] is the trait of the four kinds
    of route. Messages are left out, and so is the status JSON the trait
    reads back. A [HashMap] is a finite map; the routes of a store come as a
    list. *)

From S2P Require Import Prelude Bytes Routing Config ConfigTable Snapshot GatewayApi Converters.

(** ** The trait *)

Definition Verdict := result unit RouteError.

(** [backend_refs_mut] is read as [config_backends] and written through
    [map_backends]; [metadata] gives the namespace, identity, uid and age. A
    mirror is its backend's name, port, group and kind. *)
Class GatewayRoute (R Config : Type) := {
  KIND : list Z;
  ONE_ROUTE_PER_LISTENER : bool;
  parent_refs : R -> option (list ParentReference);
  metadata : R -> ObjectMeta;
  route_hostnames : R -> list (list Z);
  convert : R -> Config * Verdict;
  check : Config -> Verdict;
  attach : Config -> list ParentRef -> Config;
  attached_refs : Config -> list ParentRef;
  config_backends : Config -> list BackendRef;
  map_backends : (BackendRef -> BackendRef) -> Config -> Config;
  mirror_backend_refs : Config -> list BackendRef;
  remove_invalid_mirrors : Config -> gset (list Z * Z) -> Config;
}.

(** ** Verdicts kept between passes *)

Record Checks := { last_verdicts : gmap (list Z) (Z * Verdict); now_verdicts : gmap (list Z) (Z * Verdict) }.

Definition verdict {R Config} {G : GatewayRoute R Config} (c : Checks) (route : R) (config : Config) : Verdict * Checks :=
  match meta_uid (metadata route), meta_generation (metadata route) with
  | Some uid, Some generation =>
      let v := match last_verdicts c !! uid with
               | Some (taken_at, v) => if taken_at =? generation then v else check config
               | None => check config
               end in
      (v, {| last_verdicts := delete uid (last_verdicts c); now_verdicts := <[uid := (generation, v)]> (now_verdicts c) |})
  | _, _ => (check config, c)
  end.

(** ** Status *)

Inductive AcceptedReason := ReasonAccepted | ReasonRejected (r : Rejection) | ReasonInvalid (r : RejectReason).
Inductive RefsReason := ResolvedRefs | InvalidKind | RefNotPermitted | BackendNotFound.

#[export] Instance RefsReason_eq_dec : EqDecision RefsReason.
Proof. solve_decision. Defined.

Record RouteAcceptance := {
  ra_name : list Z;
  ra_namespace : list Z;
  ra_kind : list Z;
  accepted : bool;
  accepted_reason : AcceptedReason;
  refs_resolved : bool;
  refs_reason : RefsReason;
  ra_generation : option Z;
  ra_section_name : option (list Z);
  ra_port : option Z;
  listener_names : list (list Z);
}.

Record RouteCollectCtx := {
  gateway_name : list Z;
  gateway_ns : list Z;
  cx_listeners : list GatewayListeners;
  namespace_labels : gmap (list Z) (gmap (list Z) (list Z));
  reference_grants : list ReferenceGrant;
  known_services : gset (list Z * list Z);
}.

(** ** Precedence *)

(** [Option<Time>]'s order: none before any. *)
Definition option_compare (a b : option Z) : comparison :=
  match a, b with
  | None, None => Eq
  | None, Some _ => Lt
  | Some _, None => Gt
  | Some x, Some y => x ?= y
  end.

Section Collect.
Context {R Config : Type} {G : GatewayRoute R Config}.

Definition route_ns (r : R) : list Z := route_namespace (metadata r).
Definition route_name (r : R) : list Z := default (bs "unknown") (meta_name (metadata r)).

Definition route_key (r : R) : list Z := route_ns r ++ 47 :: route_name r.

Definition precedence (a b : R) : comparison :=
  then_with (option_compare (creation_timestamp (metadata a)) (creation_timestamp (metadata b)))
    (bytes_compare (route_key a) (route_key b)).

Context (cx : RouteCollectCtx).

(** ** Attachment *)

Definition port_of (listener : list Z) : option Z := gl_port <$> find (fun l => beq (gl_name l) listener) (cx_listeners cx).

(** One parentRef's section, port, listeners by allowedRoutes, and result. *)
Record Parent := {
  p_section : option (list Z);
  p_port : option Z;
  p_attached : list (list Z);
  p_result : result (list (list Z)) Rejection;
}.

Definition unclaimed (claimed : gset Z) (l : list Z) : bool :=
  match port_of l with Some p => negb (bool_decide (p ∈ claimed)) | None => true end.

Definition per_parent_of (claimed : gset Z) (route : R) (pr : ParentReference) : Parent :=
  let res := listeners_for_parent_ref pr (cx_listeners cx) (gateway_ns cx) (route_ns route) KIND (route_hostnames route) (namespace_labels cx) in
  {| p_section := ref_section_name pr; p_port := ref_port pr;
     p_attached := match res with Ok ls => ls | Err _ => [] end;
     p_result := if ONE_ROUTE_PER_LISTENER
                 then and_then res (fun ls => let ls := List.filter (unclaimed claimed) ls in if is_nil ls then Err Conflicted else Ok ls)
                 else res |}.

Definition names_gateway (route : R) (pr : ParentReference) : bool :=
  parent_ref_matches_gateway pr (route_ns route) (gateway_name cx) (gateway_ns cx).

Definition per_parent (claimed : gset Z) (route : R) : list Parent :=
  map (per_parent_of claimed route) (List.filter (names_gateway route) (default [] (parent_refs route))).

Definition is_err {A E} (r : result A E) : bool := match r with Err _ => true | Ok _ => false end.

Definition rejection (route : R) (p : Parent) (reason : Rejection) : RouteAcceptance :=
  {| ra_name := route_name route; ra_namespace := route_ns route; ra_kind := KIND; accepted := false;
     accepted_reason := ReasonRejected reason; refs_resolved := true; refs_reason := ResolvedRefs;
     ra_generation := meta_generation (metadata route); ra_section_name := p_section p; ra_port := p_port p;
     listener_names := p_attached p |}.

Definition rejected (route : R) (p : Parent) : RouteAcceptance :=
  rejection route p (match p_result p with Err reason => reason | Ok _ => NoMatchingParent end).

(** ** References *)

Definition check_ref (ns : list Z) (b : BackendRef) : option RefsReason :=
  if (negb (is_nil (br_group b)) && negb (beq (br_group b) (bs "core")))
     || (negb (beq (br_kind b) (bs "Service")) && negb (is_nil (br_kind b)))
  then Some InvalidKind
  else
    '(svc_name, svc_ns) ← parse_backend_dns_name (br_name b);
    if negb (beq svc_ns ns)
       && negb (is_reference_allowed (reference_grants cx) GATEWAY_GROUP KIND ns [] (bs "Service") svc_ns svc_name)
    then Some RefNotPermitted
    else if negb (bool_decide ((svc_name, svc_ns) ∈ known_services cx)) then Some BackendNotFound
    else None.

(** [backend.invalid = true] *)
Definition set_invalid (b : BackendRef) : BackendRef :=
  let 'mkBackendRef name port weight group kind filters app_protocol _ := b in
  mkBackendRef name port weight group kind filters app_protocol true.

Definition mark (ns : list Z) (b : BackendRef) : BackendRef := if is_some (check_ref ns b) then set_invalid b else b.

(** The last error gives the reason. *)
Definition last_error (ns : list Z) (refs : list BackendRef) (reason : RefsReason) : RefsReason :=
  fold_left (fun reason b => default reason (check_ref ns b)) refs reason.

Definition invalid_mirrors (ns : list Z) (config : Config) : gset (list Z * Z) :=
  list_to_set (map (fun b => (br_name b, br_port b)) (List.filter (fun b => is_some (check_ref ns b)) (mirror_backend_refs config))).

(** The configuration with its refs checked, whether all of them resolve, and the reason. *)
Definition resolve_refs (route : R) (config : Config) : Config * bool * RefsReason :=
  let ns := route_ns route in
  let refs := config_backends config in
  let config := map_backends (mark ns) config in
  let mirrors := mirror_backend_refs config in
  let invalid := invalid_mirrors ns config in
  (if bool_decide (invalid = ∅) then config else remove_invalid_mirrors config invalid,
   forallb (fun b => negb (is_some (check_ref ns b))) (refs ++ mirrors),
   last_error ns (refs ++ mirrors) ResolvedRefs).

(** ** One route *)

Definition admitted_status (route : R) (v : Verdict) (resolved : bool) (reason : RefsReason) (p : Parent) : RouteAcceptance :=
  match p_result p with
  | Ok _ =>
      {| ra_name := route_name route; ra_namespace := route_ns route; ra_kind := KIND; accepted := negb (is_err v);
         accepted_reason := match v with Ok _ => ReasonAccepted | Err e => ReasonInvalid (Config.reason e) end;
         refs_resolved := resolved; refs_reason := reason; ra_generation := meta_generation (metadata route);
         ra_section_name := p_section p; ra_port := p_port p; listener_names := p_attached p |}
  | Err r => rejection route p r
  end.

(** [if !attached.contains(&listener) { attached.push(listener) }] *)
Definition push_new (attached : list (list Z)) (l : list Z) : list (list Z) :=
  if existsb (beq l) attached then attached else attached ++ [l].

Definition attached_listeners (ps : list Parent) : list (list Z) :=
  fold_left push_new (flat_map (fun p => match p_result p with Ok ls => ls | Err _ => [] end) ps) [].

Definition listener_ref (l : list Z) : ParentRef := {| pr_name := gateway_name cx; section_name := Some l; pr_port := None |}.

Record Collected := { claimed : gset Z; configs : list Config; statuses : list RouteAcceptance; checks : Checks }.

Definition collect_step (st : Collected) (route : R) : Collected :=
  let ps := per_parent (claimed st) route in
  if forallb (fun p => is_err (p_result p)) ps
  then {| claimed := claimed st; configs := configs st; statuses := statuses st ++ map (rejected route) ps; checks := checks st |}
  else
    let '(config, converted) := convert route in
    let '(v, checks) := match converted with Ok _ => verdict (checks st) route config | Err e => (Err e, checks st) end in
    let '(config, resolved, reason) := resolve_refs route config in
    let statuses := statuses st ++ map (admitted_status route v resolved reason) ps in
    if is_err v then {| claimed := claimed st; configs := configs st; statuses := statuses; checks := checks |}
    else
      let attached := attached_listeners ps in
      {| claimed := if ONE_ROUTE_PER_LISTENER then list_to_set (omap port_of attached) ∪ claimed st else claimed st;
         configs := configs st ++ [attach config (map listener_ref attached)];
         statuses := statuses; checks := checks |}.

Definition ordered_routes (routes : list R) : list R :=
  sort_by precedence
    (List.filter (fun r => route_targets_gateway (parent_refs r) (route_ns r) (gateway_name cx) (gateway_ns cx)) routes).

(** [route_status] is shared by the four kinds: the one appended to. *)
Definition collect_routes (routes : list R) (checks : Checks) (route_status : list RouteAcceptance) : Collected :=
  fold_left collect_step (ordered_routes routes) {| claimed := ∅; configs := []; statuses := route_status; checks := checks |}.

End Collect.

Arguments Collected : clear implicits.

(** ** The four kinds *)

Section Kinds.
Context {RE : RegexEngine} {RS : RegexSyntax} (parse_duration : list Z -> option Z).

Definition rule_map_backends (f : BackendRef -> BackendRef) (r : CfgRule) : CfgRule :=
  {| c_matches := c_matches r; c_filters := c_filters r; backend_refs := map f (backend_refs r); timeouts := timeouts r |}.

Definition mirror_ref (f : HttpRouteFilter) : option BackendRef := match f with FRequestMirror b _ _ => Some b | _ => None end.

Definition keeps_mirror (invalid : gset (list Z * Z)) (f : HttpRouteFilter) : bool :=
  match mirror_ref f with Some b => negb (bool_decide ((br_name b, br_port b) ∈ invalid)) | None => true end.

Definition rule_retain_mirrors (invalid : gset (list Z * Z)) (r : CfgRule) : CfgRule :=
  {| c_matches := c_matches r; c_filters := List.filter (keeps_mirror invalid) (c_filters r); backend_refs := backend_refs r; timeouts := timeouts r |}.

Definition with_rules (c : HttpRouteConfig) (rules : list CfgRule) : HttpRouteConfig :=
  {| h_parent_refs := h_parent_refs c; hostnames := hostnames c; h_rules := rules |}.

(** [compile_http_route(config).map(drop)] *)
Definition check_http_route (c : HttpRouteConfig) : Verdict := match compile_http_route c with Ok _ => Ok tt | Err e => Err e end.

Definition http_gateway_route : GatewayRoute HTTPRoute HttpRouteConfig := {|
  KIND := bs "HTTPRoute";
  ONE_ROUTE_PER_LISTENER := false;
  parent_refs := hr_parent_refs;
  metadata := hr_metadata;
  route_hostnames r := default [] (hr_hostnames r);
  convert := Converters.convert_http_route parse_duration;
  check := check_http_route;
  attach c refs := {| h_parent_refs := refs; hostnames := hostnames c; h_rules := h_rules c |};
  attached_refs := h_parent_refs;
  config_backends c := flat_map backend_refs (h_rules c);
  map_backends f c := with_rules c (map (rule_map_backends f) (h_rules c));
  mirror_backend_refs c := flat_map (fun r => omap mirror_ref (c_filters r)) (h_rules c);
  remove_invalid_mirrors c invalid := with_rules c (map (rule_retain_mirrors invalid) (h_rules c));
|}.

Definition l4_map_backends (f : BackendRef -> BackendRef) (r : L4RouteRule) : L4RouteRule := {| l4_backend_refs := map f (l4_backend_refs r) |}.

Definition l4_gateway_route (kind : list Z) (convert : L4Route -> TcpRouteConfig) : GatewayRoute L4Route TcpRouteConfig := {|
  KIND := kind;
  ONE_ROUTE_PER_LISTENER := true;
  parent_refs := lr_parent_refs;
  metadata := lr_metadata;
  route_hostnames _ := [];
  convert r := (convert r, Ok tt);
  check _ := Ok tt;
  attach c refs := {| t_parent_refs := refs; t_rules := t_rules c |};
  attached_refs := t_parent_refs;
  config_backends c := flat_map l4_backend_refs (t_rules c);
  map_backends f c := {| t_parent_refs := t_parent_refs c; t_rules := map (l4_map_backends f) (t_rules c) |};
  mirror_backend_refs _ := [];
  remove_invalid_mirrors c _ := c;
|}.

Definition tcp_gateway_route := l4_gateway_route (bs "TCPRoute") convert_tcp_route.
Definition udp_gateway_route := l4_gateway_route (bs "UDPRoute") convert_udp_route.

Definition tls_gateway_route : GatewayRoute TLSRoute TlsRouteConfig := {|
  KIND := bs "TLSRoute";
  ONE_ROUTE_PER_LISTENER := false;
  parent_refs := tr_parent_refs;
  metadata := tr_metadata;
  route_hostnames := tr_hostnames;
  convert r := (Converters.convert_tls_route r, Ok tt);
  check _ := Ok tt;
  attach c refs := {| s_parent_refs := refs; s_hostnames := s_hostnames c; s_rules := s_rules c |};
  attached_refs := s_parent_refs;
  config_backends c := flat_map l4_backend_refs (s_rules c);
  map_backends f c := {| s_parent_refs := s_parent_refs c; s_hostnames := s_hostnames c; s_rules := map (l4_map_backends f) (s_rules c) |};
  mirror_backend_refs _ := [];
  remove_invalid_mirrors c _ := c;
|}.

(** ** Rate limit policies *)

(** [rlp_name] is [name_any]. *)
Record RateLimitPolicy := {
  rlp_name : list Z;
  rlp_metadata : ObjectMeta;
  tgt_group : list Z;
  tgt_kind : list Z;
  tgt_name : list Z;
  tgt_section_name : option (list Z);
  rlp_requests_per_second : Z;
  rlp_burst : option Z;
}.

Definition targets_gateway (p : RateLimitPolicy) (gw_ns gw_name : list Z) : bool :=
  bool_decide (meta_namespace (rlp_metadata p) = Some gw_ns) && beq (tgt_name p) gw_name && beq (tgt_kind p) (bs "Gateway")
  && (is_nil (tgt_group p) || beq (tgt_group p) GATEWAY_GROUP).

Definition policy_burst (p : RateLimitPolicy) : Z := default (rlp_requests_per_second p) (rlp_burst p).

Definition policy_compare (a b : RateLimitPolicy) : comparison :=
  then_with (option_compare (creation_timestamp (rlp_metadata a)) (creation_timestamp (rlp_metadata b))) (bytes_compare (rlp_name a) (rlp_name b)).

Inductive PolicyReason := TargetNotFound | PolicyConflicted | PolicyAccepted.

Record PolicyAcceptance := {
  pa_name : list Z;
  pa_namespace : list Z;
  pa_accepted : bool;
  pa_reason : PolicyReason;
  pa_generation : option Z;
}.

Definition of_section (section : option (list Z)) (p : RateLimitPolicy) : bool := bool_decide (tgt_section_name p = section).

(** The oldest policy of the listener's section, else the oldest of the whole Gateway. *)
Definition winner (ordered : list RateLimitPolicy) (name : list Z) : option RateLimitPolicy :=
  match find (of_section (Some name)) ordered with
  | Some p => Some p
  | None => find (of_section None) ordered
  end.

Definition limit_listener (ordered : list RateLimitPolicy) (l : ListenerConfig) : ListenerConfig :=
  match winner ordered (l_name l) with
  | Some p =>
      {| l_name := l_name l; l_protocol := l_protocol l; l_port := l_port l; l_target_port := l_target_port l; l_hostname := l_hostname l;
         l_address := l_address l; l_interface := l_interface l; l_tls := l_tls l;
         l_rate_limit := Some {| requests_per_second := rlp_requests_per_second p; spec_burst := Some (policy_burst p) |} |}
  | None => l
  end.

Definition section_missing (ls : list ListenerConfig) (p : RateLimitPolicy) : bool :=
  match tgt_section_name p with Some section => negb (existsb (fun l => beq (l_name l) section) ls) | None => false end.

Definition policy_acceptance (ls : list ListenerConfig) (applied : gset (list Z)) (p : RateLimitPolicy) : PolicyAcceptance :=
  let reason := if section_missing ls p then TargetNotFound
                else if negb (bool_decide (rlp_name p ∈ applied)) then PolicyConflicted
                else PolicyAccepted in
  {| pa_name := rlp_name p; pa_namespace := default [] (meta_namespace (rlp_metadata p));
     pa_accepted := match reason with PolicyAccepted => true | _ => false end; pa_reason := reason;
     pa_generation := meta_generation (rlp_metadata p) |}.

Definition ordered_policies (policies : list RateLimitPolicy) (gw_ns gw_name : list Z) : list RateLimitPolicy :=
  sort_by policy_compare (List.filter (fun p => targets_gateway p gw_ns gw_name) policies).

Definition apply_rate_limit_policies (ls : list ListenerConfig) (policies : list RateLimitPolicy) (gw_ns gw_name : list Z)
  : list ListenerConfig * list PolicyAcceptance :=
  let ordered := ordered_policies policies gw_ns gw_name in
  let applied := list_to_set (omap (fun l => rlp_name <$> winner ordered (l_name l)) ls) in
  (map (limit_listener ordered) ls, map (policy_acceptance ls applied) ordered).

(** ** The pass *)

Record ClusterSnapshot := {
  http_routes : list HTTPRoute;
  tcp_routes : list L4Route;
  tls_routes : list TLSRoute;
  udp_routes : list L4Route;
  cs_namespace_labels : gmap (list Z) (gmap (list Z) (list Z));
  cs_reference_grants : list ReferenceGrant;
  rate_limit_policies : list RateLimitPolicy;
}.

(** The fields of [ServiceState]. *)
Record ServiceState := {
  ss_known_services : gset (list Z * list Z);
  ss_endpoint_overrides : gmap (list Z * Z) (list (list Z * Z));
  ss_app_protocol_overrides : gmap (list Z * Z) (list Z);
  ss_headless_target_ports : gmap (list Z * Z) Z;
}.

Definition RouteVerdicts := gmap (list Z * list Z) (gmap (list Z) (Z * Verdict)).

(** [RouteVerdicts::retain] *)
Definition retain_verdicts (live : list Z * list Z -> bool) (v : RouteVerdicts) : RouteVerdicts := filter (fun kv => live kv.1 = true) v.

Record ReconcileResult := { config : PortailConfig; route_status : list RouteAcceptance; policy_status : list PolicyAcceptance }.

(** [PerformanceConfig::default]. *)
Definition PerformanceConfig_default : PerformanceConfig := {| udp_session_timeout := 30 * 1000000000; udp_max_sessions := None |}.

Definition reconcile_cx (gateway : Gateway) (snapshot : ClusterSnapshot) (services : ServiceState) : RouteCollectCtx := {|
  gateway_name := default (bs "default") (meta_name (gw_metadata gateway));
  gateway_ns := default (bs "default") (meta_namespace (gw_metadata gateway));
  cx_listeners := distinct_listeners (gw_listeners gateway);
  namespace_labels := cs_namespace_labels snapshot;
  reference_grants := cs_reference_grants snapshot;
  known_services := ss_known_services services;
|}.

Definition reconcile_to_config (gateway : Gateway) (snapshot : ClusterSnapshot) (cert_data : CertData) (services : ServiceState)
    (verdicts : RouteVerdicts) : ReconcileResult * RouteVerdicts :=
  let gateway_config := convert_gateway gateway cert_data in
  let cx := reconcile_cx gateway snapshot services in
  let conflicts := listener_conflicts (gw_listeners gateway) in
  let kept := List.filter (fun l => negb (is_some (conflicts !! l_name l))) (listeners gateway_config) in
  let '(limited, policy_status) := apply_rate_limit_policies kept (rate_limit_policies snapshot) (gateway_ns cx) (gateway_name cx) in
  let key := (gateway_ns cx, gateway_name cx) in
  let start := {| last_verdicts := default ∅ (verdicts !! key); now_verdicts := ∅ |} in
  let http := collect_routes (G := http_gateway_route) cx (http_routes snapshot) start [] in
  let tcp := collect_routes (G := tcp_gateway_route) cx (tcp_routes snapshot) (checks http) (statuses http) in
  let tls := collect_routes (G := tls_gateway_route) cx (tls_routes snapshot) (checks tcp) (statuses tcp) in
  let udp := collect_routes (G := udp_gateway_route) cx (udp_routes snapshot) (checks tls) (statuses tls) in
  ({| config := {| gateway := {| g_name := g_name gateway_config; listeners := limited; g_addresses := g_addresses gateway_config |};
                   cfg_http_routes := configs http; cfg_tcp_routes := configs tcp; cfg_tls_routes := configs tls; cfg_udp_routes := configs udp;
                   performance := PerformanceConfig_default;
                   endpoint_overrides := ss_endpoint_overrides services; app_protocol_overrides := ss_app_protocol_overrides services;
                   headless_target_ports := ss_headless_target_ports services |};
      route_status := statuses udp; policy_status := policy_status |},
   <[key := now_verdicts (checks udp)]> (delete key verdicts)).

End Kinds.
