(* ===== verification/ReconcileSpec.v ===== *)
(** * What reconciliation promises

    [collect_routes] against a reference: the routes in precedence order,
    each attached to the listeners that admit it and no older route holds,
    its references checked. [GatewayRouteLaws] is what the argument needs of
    a kind of route; the four kinds have it. *)

From S2P Require Import Prelude Bytes PathNorm Routing Config AcceptedFilters ConfigTable Snapshot GatewayApi Converters Reconcile.

(** ** The laws of a kind *)

Class GatewayRouteLaws {R C : Type} (G : GatewayRoute R C) : Type := {
  (** the name and namespace of each reference of the route's spec *)
  spec_refs : R -> list (list Z * option (list Z));
  convert_named (r : R) (b : BackendRef) : b ∈ config_backends (convert r).1 \/ b ∈ mirror_backend_refs (convert r).1 ->
    br_invalid b = false /\ exists svc ns, (svc, ns) ∈ spec_refs r /\ br_name b = backend_dns_name svc ns (route_ns r);
  backends_map (f : BackendRef -> BackendRef) (c : C) : config_backends (map_backends f c) = map f (config_backends c);
  mirrors_map (f : BackendRef -> BackendRef) (c : C) : mirror_backend_refs (map_backends f c) = mirror_backend_refs c;
  backends_retain (c : C) (invalid : gset (list Z * Z)) : config_backends (remove_invalid_mirrors c invalid) = config_backends c;
  mirrors_retain (c : C) (invalid : gset (list Z * Z)) (b : BackendRef) :
    b ∈ mirror_backend_refs (remove_invalid_mirrors c invalid) <-> b ∈ mirror_backend_refs c /\ (br_name b, br_port b) ∉ invalid;
  backends_attach (c : C) (refs : list ParentRef) : config_backends (attach c refs) = config_backends c;
  mirrors_attach (c : C) (refs : list ParentRef) : mirror_backend_refs (attach c refs) = mirror_backend_refs c;
  refs_attach (c : C) (refs : list ParentRef) : attached_refs (attach c refs) = refs;
  check_map (f : BackendRef -> BackendRef) (c : C) : (forall b, br_filters (f b) = br_filters b) -> check c = Ok tt -> check (map_backends f c) = Ok tt;
  check_retain (c : C) (invalid : gset (list Z * Z)) : check c = Ok tt -> check (remove_invalid_mirrors c invalid) = Ok tt;
  check_attach (c : C) (refs : list ParentRef) : check (attach c refs) = check c;
}.

Lemma elem_of_flat_map {A B} (f : A -> list B) l b : b ∈ flat_map f l <-> exists a, a ∈ l /\ b ∈ f a.
Proof. rewrite list_elem_of_In, in_flat_map. setoid_rewrite list_elem_of_In. done. Qed.

Lemma elem_of_map {A B} (f : A -> B) l b : b ∈ map f l <-> exists a, a ∈ l /\ f a = b.
Proof. rewrite list_elem_of_In, in_map_iff. setoid_rewrite list_elem_of_In. split; intros (a & ? & ?); by exists a. Qed.

Lemma flat_map_map {A B C} (f : B -> list C) (g : A -> B) l : flat_map f (map g l) = flat_map (fun a => f (g a)) l.
Proof. induction l as [|a l IH]; cbn; [done|]. by rewrite IH. Qed.

Lemma map_flat_map {A B C} (f : B -> C) (g : A -> list B) l : map f (flat_map g l) = flat_map (fun a => map f (g a)) l.
Proof. induction l as [|a l IH]; cbn; [done|]. by rewrite map_app, IH. Qed.

(** ** TCP, UDP and TLS routes *)

Definition l4_refs (rules : list (list BackendRefSpec)) : list (list Z * option (list Z)) :=
  flat_map (map (fun b => (brs_name b, brs_namespace b))) rules.

Lemma l4_rules_named ns port rules b : b ∈ flat_map l4_backend_refs (convert_l4_rules ns port rules) ->
  br_invalid b = false /\ exists svc sns, (svc, sns) ∈ l4_refs rules /\ br_name b = backend_dns_name svc sns ns.
Proof.
  unfold convert_l4_rules. rewrite flat_map_map. cbn [l4_backend_refs]. intros (refs & Hr & (br & Hb & <-)%elem_of_map)%elem_of_flat_map.
  split; [done|]. exists (brs_name br), (brs_namespace br). split; [|done].
  apply elem_of_flat_map. exists refs. split; [done|]. apply elem_of_map. by exists br.
Qed.

Definition l4_laws (kind : list Z) (conv : L4Route -> TcpRouteConfig) (port : option Z)
    (Hconv : forall r, t_rules (conv r) = convert_l4_rules (route_namespace (lr_metadata r)) port (lr_rules r)) :
  GatewayRouteLaws (l4_gateway_route kind conv).
Proof.
  refine {| spec_refs (r : L4Route) := l4_refs (lr_rules r) |}; cbn; try done.
  - intros r b [H|H]; [|by apply not_elem_of_nil in H]. rewrite Hconv in H. exact (l4_rules_named _ _ _ _ H).
  - intros f c. by rewrite flat_map_map, map_flat_map.
  - intros c invalid b. split; [|tauto]. intros H. by apply not_elem_of_nil in H.
Defined.

#[export] Instance tcp_laws : GatewayRouteLaws tcp_gateway_route := l4_laws (bs "TCPRoute") convert_tcp_route (Some 80) (fun _ => eq_refl).
#[export] Instance udp_laws : GatewayRouteLaws udp_gateway_route := l4_laws (bs "UDPRoute") convert_udp_route None (fun _ => eq_refl).

#[export] Instance tls_laws : GatewayRouteLaws tls_gateway_route.
Proof.
  refine {| spec_refs (r : TLSRoute) := l4_refs (tr_rules r) |}; cbn; try done.
  - intros r b [H|H]; [|by apply not_elem_of_nil in H]. exact (l4_rules_named _ _ _ _ H).
  - intros f c. by rewrite flat_map_map, map_flat_map.
  - intros c invalid b. split; [|tauto]. intros H. by apply not_elem_of_nil in H.
Defined.

(** ** HTTP routes *)

Definition mirror_spec_ref (f : FilterSpec) : option (list Z * option (list Z)) :=
  (fun m => (mrs_name (ms_backend_ref m), mrs_namespace (ms_backend_ref m))) <$> fs_request_mirror f.

Definition rule_refs (r : HTTPRouteRules) : list (list Z * option (list Z)) :=
  map (fun b => (brs_name b, brs_namespace b)) (default [] (rule_backend_refs r)) ++ omap mirror_spec_ref (default [] (rule_filters r)).

Definition http_refs (r : HTTPRoute) : list (list Z * option (list Z)) := flat_map rule_refs (default [] (hr_rules r)).

Lemma backend_ref_named ns br : let b := (convert_http_backend_ref ns br).1 in
  br_invalid b = false /\ br_name b = backend_dns_name (brs_name br) (brs_namespace br) ns.
Proof. unfold convert_http_backend_ref. by destruct (keep_converted _ _ _ _ _). Qed.

Lemma mirror_named f ns filter b : convert_http_filter f ns = Ok filter -> mirror_ref filter = Some b ->
  br_invalid b = false /\ exists svc sns, mirror_spec_ref f = Some (svc, sns) /\ br_name b = backend_dns_name svc sns ns.
Proof.
  unfold convert_http_filter, mirror_spec_ref, required_config. destruct (fs_type f); try (case_match; [|done]); try done; intros [= <-]; cbn; try done.
  intros [= <-]. split; [done|]. eexists _, _. done.
Qed.

Section Http.
Context {RE : RegexEngine} {RS : RegexSyntax} (parse_duration : list Z -> option Z).

Lemma http_rule_named ns rule b : let c := (convert_http_rule parse_duration ns rule).1 in
  b ∈ backend_refs c \/ b ∈ omap mirror_ref (c_filters c) ->
  br_invalid b = false /\ exists svc sns, (svc, sns) ∈ rule_refs rule /\ br_name b = backend_dns_name svc sns ns.
Proof.
  unfold convert_http_rule. pose proof (fun b => keep_converted_elem AtFilter (fun f => convert_http_filter f ns) 0 (default [] (rule_filters rule)) None b) as Hk.
  destruct (keep_converted _ _ _ _ _) as [filters first]. cbn [fst] in Hk.
  set (refs := if existsb is_redirect filters then [] else default [] (rule_backend_refs rule)).
  pose proof (map_naming_map AtBackendRef (convert_http_backend_ref ns) 0 refs first) as Hm. destruct (map_naming _ _ _ _ _) as [backends first']. cbn in *.
  intros [H|H].
  - rewrite Hm in H. apply elem_of_map in H as (br & Hbr & <-). destruct (backend_ref_named ns br) as [H1 H2]. split; [done|].
    exists (brs_name br), (brs_namespace br). split; [|done]. apply elem_of_app. left. apply elem_of_map. exists br. split; [|done].
    unfold refs in Hbr. destruct (existsb is_redirect filters); [by apply not_elem_of_nil in Hbr|done].
  - apply list_elem_of_omap in H as (filter & Hf & Hb). apply Hk in Hf as (f & Hf & Hc).
    destruct (mirror_named f ns filter b Hc Hb) as (H1 & svc & sns & H2 & H3). split; [done|]. exists svc, sns. split; [|done].
    apply elem_of_app. right. apply list_elem_of_omap. by exists f.
Qed.


(** A check of each element holds of part of the list, at other places. *)
Lemma try_imap_total {A B} place (f : A -> result B RouteError) i l :
  (exists bs, try_imap place f i l = Ok bs) <-> forall a, a ∈ l -> exists b, f a = Ok b.
Proof.
  setoid_rewrite try_imap_ok. induction l as [|a l IH].
  - split; [intros _ a H; by apply not_elem_of_nil in H|by exists []].
  - setoid_rewrite elem_of_cons. split.
    + intros [bs H]. inversion H as [|? b ? bs' Hb Hrest]; subst. intros x [->|Hx]; [by exists b|]. by apply IH; [exists bs'|].
    + intros H. destruct (H a ltac:(by left)) as [b Hb]. destruct (proj2 IH) as [bs Hbs]; [intros x Hx; apply H; by right|].
      exists (b :: bs). by constructor.
Qed.

Lemma check_http_route_ok c : check_http_route c = Ok tt <-> forall r, r ∈ h_rules c -> exists cr, compile_rule r = Ok cr.
Proof.
  unfold check_http_route, compile_http_route. rewrite <- (try_imap_total AtRule compile_rule 0).
  destruct (try_imap AtRule compile_rule 0 (h_rules c)) as [crs|e]; split; try done; [by exists crs|by intros [? ?]].
Qed.

(** Dropping filters keeps the combination valid. *)
Lemma existsb_filter {A} (p q : A -> bool) l : existsb p (List.filter q l) = true -> existsb p l = true.
Proof. rewrite !elem_of_existsb. intros (x & [Hx _]%elem_of_filter_b & Hp). by exists x. Qed.

Lemma no_repeats_filter (p : HttpRouteFilter -> bool) fs : forall i j e e',
  (forall d, existsb (fun x => (discriminant x =? d)%nat) e' = true -> existsb (fun x => (discriminant x =? d)%nat) e = true) ->
  check_no_repeats_from i e fs = Ok tt -> check_no_repeats_from j e' (List.filter p fs) = Ok tt.
Proof.
  induction fs as [|f fs IH]; intros i j e e' He H; [done|]. cbn [check_no_repeats_from List.filter] in *.
  destruct (negb (is_mirror f) && existsb (fun e0 => (discriminant e0 =? discriminant f)%nat) e) eqn:E; [done|].
  destruct (p f); cbn [check_no_repeats_from].
  - destruct (negb (is_mirror f) && existsb (fun e0 => (discriminant e0 =? discriminant f)%nat) e') eqn:E'.
    + apply andb_true_iff in E' as [E1 E2]. by rewrite E1, (He _ E2) in E.
    + eapply IH; [|exact H]. intros d. rewrite !existsb_app, !orb_true_iff. intros [?|?]; [left; auto|by right].
  - eapply IH; [|exact H]. intros d Hd. rewrite existsb_app, orb_true_iff. left. auto.
Qed.

Lemma filter_combination_filter (p : HttpRouteFilter -> bool) fs :
  check_filter_combination fs = Ok tt -> check_filter_combination (List.filter p fs) = Ok tt.
Proof.
  unfold check_filter_combination, check_rule_filters. rewrite !and_then_ok. intros ([] & Hr & H). exists tt.
  split; [by eapply (no_repeats_filter p fs 0 0 [] [])|].
  destruct (existsb is_redirect fs && _) eqn:E; [done|]. destruct (existsb rewrites_host fs && existsb sets_host fs) eqn:E'; [done|].
  destruct (existsb is_redirect (List.filter p fs) && _) eqn:F.
  { apply andb_true_iff in F as [F1 F2]. by rewrite (existsb_filter _ _ _ F1), (existsb_filter _ _ _ F2) in E. }
  destruct (existsb rewrites_host (List.filter p fs) && existsb sets_host (List.filter p fs)) eqn:F'; [|done].
  apply andb_true_iff in F' as [F1 F2]. by rewrite (existsb_filter _ _ _ F1), (existsb_filter _ _ _ F2) in E'.
Qed.

(** What compiling a rule asks of it. *)
Definition rule_checks (r : CfgRule) : Prop :=
  check_filter_combination (c_filters r) = Ok tt
  /\ check_prefix_replacement r = Ok tt
  /\ (forall b, b ∈ (if redirects r then [] else backend_refs r) -> exists fs, compile_backend_filters b = Ok fs)
  /\ (forall m, m ∈ (if is_nil (c_matches r) then [HttpRouteMatch_path_prefix [47]] else c_matches r) -> exists cm, compile_match m = Ok cm)
  /\ (forall f, f ∈ c_filters r -> exists cf, compile_filter f = Ok cf).

Lemma compile_rule_total r : (exists cr, compile_rule r = Ok cr) <-> rule_checks r.
Proof.
  unfold compile_rule, rule_checks. rewrite <- !try_imap_total. setoid_rewrite and_then_ok. setoid_rewrite and_then_ok. setoid_rewrite and_then_ok.
  setoid_rewrite and_then_ok. setoid_rewrite and_then_ok. split.
  - intros (cr & [] & H1 & [] & H2 & bf & H3 & ms & H4 & fs & H5 & _). split_and!; eauto.
  - intros (H1 & H2 & [bf H3] & [ms H4] & [fs H5]). eexists. exists tt. split; [done|]. exists tt. split; [done|]. exists bf. split; [done|].
    exists ms. split; [done|]. by exists fs.
Qed.

Lemma rule_map_backends_checks f r : (forall b, br_filters (f b) = br_filters b) -> rule_checks r -> rule_checks (rule_map_backends f r).
Proof.
  intros Hf (H1 & H2 & H3 & H4 & H5). unfold rule_checks, rule_map_backends, redirects in *. cbn. split_and!; try done.
  intros b Hb. destruct (existsb is_redirect (c_filters r)); [by apply not_elem_of_nil in Hb|].
  apply elem_of_map in Hb as (b' & Hb & <-). destruct (H3 b' Hb) as [fs Hfs]. exists fs. unfold compile_backend_filters in *. by rewrite Hf.
Qed.

Lemma retain_redirects invalid r : redirects (rule_retain_mirrors invalid r) = redirects r.
Proof.
  unfold redirects, rule_retain_mirrors. cbn [c_filters]. induction (c_filters r) as [|f fs IH]; [done|]. cbn [List.filter existsb].
  destruct (keeps_mirror invalid f) eqn:E; [cbn [existsb]; by rewrite IH|]. rewrite IH. by destruct f.
Qed.

Lemma rule_retain_checks invalid r : rule_checks r -> rule_checks (rule_retain_mirrors invalid r).
Proof.
  intros (H1 & H2 & H3 & H4 & H5). unfold rule_checks. rewrite retain_redirects. cbn.
  split_and!; [by apply filter_combination_filter| |done|done|].
  - unfold check_prefix_replacement in *. cbn. destruct (existsb replaces_prefix (List.filter _ _)) eqn:E; [|done].
    apply existsb_filter in E. by rewrite E in H2.
  - intros f [Hf _]%elem_of_filter_b. auto.
Qed.

#[export] Instance http_laws : GatewayRouteLaws (http_gateway_route parse_duration).
Proof.
  refine {| spec_refs (r : HTTPRoute) := http_refs r |}; try done.
  - intros r b H. cbn [config_backends mirror_backend_refs convert http_gateway_route] in H. unfold Converters.convert_http_route in H.
    pose proof (map_naming_map AtRule (convert_http_rule parse_duration (route_namespace (hr_metadata r))) 0 (default [] (hr_rules r)) None) as Hm.
    destruct (map_naming _ _ _ _ _) as [rules first]. cbn [fst h_rules] in *. subst rules.
    assert (Hr : exists rule, rule ∈ default [] (hr_rules r) /\
      let c := (convert_http_rule parse_duration (route_namespace (hr_metadata r)) rule).1 in b ∈ backend_refs c \/ b ∈ omap mirror_ref (c_filters c)).
    { rewrite !flat_map_map in H. rewrite !elem_of_flat_map in H. destruct H as [(rule & Hr & Hb)|(rule & Hr & Hb)]; exists rule; split; [done|by left|done|by right]. }
    destruct Hr as (rule & Hr & Hb). destruct (http_rule_named _ _ _ Hb) as (H1 & svc & sns & H2 & H3). split; [done|]. exists svc, sns.
    split; [|done]. apply elem_of_flat_map. by exists rule.
  - intros f c. cbn. by rewrite flat_map_map, map_flat_map.
  - intros f c. cbn. by rewrite flat_map_map.
  - intros c invalid. cbn. by rewrite flat_map_map.
  - intros c invalid b. cbn. rewrite flat_map_map, !elem_of_flat_map. cbn [rule_retain_mirrors c_filters]. setoid_rewrite list_elem_of_omap.
    setoid_rewrite elem_of_filter_b. split.
    + intros (r & Hr & f & [Hf Hk] & Hb). split; [by exists r; eauto|]. unfold keeps_mirror in Hk. rewrite Hb in Hk.
      by apply negb_true_iff, bool_decide_eq_false in Hk.
    + intros [(r & Hr & f & Hf & Hb) Hn]. exists r. split; [done|]. exists f. split_and!; try done. unfold keeps_mirror. rewrite Hb.
      by apply negb_true_iff, bool_decide_eq_false.
  - intros f c Hf. cbn. rewrite !check_http_route_ok. setoid_rewrite compile_rule_total. cbn. intros H r Hr.
    apply elem_of_map in Hr as (r' & Hr & <-). apply rule_map_backends_checks; auto.
  - intros c invalid. cbn. rewrite !check_http_route_ok. setoid_rewrite compile_rule_total. cbn. intros H r Hr.
    apply elem_of_map in Hr as (r' & Hr & <-). apply rule_retain_checks; auto.
Defined.

End Http.

(** ** Verdicts kept between passes *)

(** Kubernetes raises an object's generation with every change of its spec:
    [truth] is the check's outcome for each uid and generation. *)
Definition sound (truth : list Z -> Z -> Verdict) (m : gmap (list Z) (Z * Verdict)) : Prop :=
  forall uid g v, m !! uid = Some (g, v) -> v = truth uid g.

Definition sound_checks (truth : list Z -> Z -> Verdict) (c : Checks) : Prop := sound truth (last_verdicts c) /\ sound truth (now_verdicts c).

Definition truthful {R C} {G : GatewayRoute R C} (truth : list Z -> Z -> Verdict) (r : R) : Prop :=
  forall uid g, meta_uid (metadata r) = Some uid -> meta_generation (metadata r) = Some g -> check (convert r).1 = truth uid g.

Lemma sound_empty truth : sound truth ∅.
Proof. intros uid g v H. by rewrite lookup_empty in H. Qed.

Lemma verdict_sound {R C} {G : GatewayRoute R C} truth c (r : R) : sound_checks truth c -> truthful truth r ->
  (verdict c r (convert r).1).1 = check (convert r).1 /\ sound_checks truth (verdict c r (convert r).1).2.
Proof.
  intros [Hl Hn] Ht. unfold verdict. destruct (meta_uid (metadata r)) as [uid|] eqn:Eu; [|done].
  destruct (meta_generation (metadata r)) as [g|] eqn:Eg; [|done]. pose proof (Ht uid g Eu Eg) as E.
  assert (Hv : match last_verdicts c !! uid with
               | Some (taken_at, v) => if taken_at =? g then v else check (convert r).1
               | None => check (convert r).1
               end = check (convert r).1).
  { destruct (last_verdicts c !! uid) as [[at' v]|] eqn:El; [|done]. destruct (Z.eqb_spec at' g) as [->|]; [|done]. rewrite E. by eapply Hl. }
  cbn [fst snd]. rewrite Hv. split; [done|]. split; intros u g' v'; cbn.
  - rewrite lookup_delete_Some. intros [_ H]. by eapply Hl.
  - rewrite lookup_insert_Some. intros [[<- [= <- <-]]|[_ H]]; [done|by eapply Hn].
Qed.

(** ** The reference *)

Section Reference.
Context {R C : Type} {G : GatewayRoute R C} (cx : RouteCollectCtx).

(** A parentRef of the route that names this Gateway and that [l] admits. *)
Definition ref_admitted (r : R) (pr : ParentReference) (l : GatewayListeners) : bool :=
  admits l pr (gateway_ns cx) (route_ns r) KIND (route_hostnames r) (namespace_labels cx).

Definition gateway_refs (r : R) : list ParentReference := List.filter (names_gateway cx r) (default [] (parent_refs r)).

Definition route_admitted (r : R) (l : GatewayListeners) : bool := existsb (fun pr => ref_admitted r pr l) (gateway_refs r).

Definition route_valid (r : R) : bool := negb (is_err (convert r).2) && negb (is_err (check (convert r).1)).

(** The port of [l] is held by an older route of a kind that shares none. *)
Definition free (taken : gset Z) (l : GatewayListeners) : bool := negb (ONE_ROUTE_PER_LISTENER && bool_decide (gl_port l ∈ taken)).

(** Each route with the listeners it gets, in order. *)
Fixpoint assigned (taken : gset Z) (rs : list R) : list (R * list GatewayListeners) :=
  match rs with
  | [] => []
  | r :: rs =>
      let ls := List.filter (fun l => route_admitted r l && free taken l) (cx_listeners cx) in
      (r, ls) :: assigned (if ONE_ROUTE_PER_LISTENER && route_valid r then list_to_set (map gl_port ls) ∪ taken else taken) rs
  end.

Definition served (a : R * list GatewayListeners) : bool := route_valid a.1 && negb (is_nil a.2).

(** The configuration of a served route. *)
Definition carries (c : C) (a : R * list GatewayListeners) : Prop :=
  exists refs, c = attach (resolve_refs cx a.1 (convert a.1).1).1.1 refs /\ refs ≡ₚ map (fun l => listener_ref cx (gl_name l)) a.2.

(** One status entry, for a parentRef of a route and the listeners the route gets. *)
Definition verdict_of (r : R) : Verdict := and_then (convert r).2 (fun _ => check (convert r).1).

Definition ref_reason (r : R) (ls : list GatewayListeners) (pr : ParentReference) : AcceptedReason :=
  if existsb (ref_admitted r pr) ls
  then match verdict_of r with Ok _ => ReasonAccepted | Err e => ReasonInvalid (reason e) end
  else if existsb (ref_admitted r pr) (cx_listeners cx) then ReasonRejected Conflicted
  else ReasonRejected (specific_reason pr (gateway_ns cx) (route_ns r) KIND (route_hostnames r) (namespace_labels cx) (cx_listeners cx)).

Definition entry_of (ap : (R * list GatewayListeners) * ParentReference) : RouteAcceptance :=
  let '((r, ls), pr) := ap in
  let here := existsb (ref_admitted r pr) ls in
  let '(_, resolved, refs_reason) := resolve_refs cx r (convert r).1 in
  {| ra_name := route_name r; ra_namespace := route_ns r; ra_kind := KIND;
     accepted := here && route_valid r; accepted_reason := ref_reason r ls pr;
     refs_resolved := if here then resolved else true; refs_reason := if here then refs_reason else ResolvedRefs;
     ra_generation := meta_generation (metadata r); ra_section_name := ref_section_name pr; ra_port := ref_port pr;
     listener_names := map gl_name (List.filter (ref_admitted r pr) (cx_listeners cx)) |}.

Definition entries (assigned : list (R * list GatewayListeners)) : list RouteAcceptance :=
  flat_map (fun a => map (fun pr => entry_of (a, pr)) (gateway_refs a.1)) assigned.

(** ** The collection meets the reference *)

Context (Hnames : NoDup (map gl_name (cx_listeners cx))).

Lemma listener_by_name l l' : l ∈ cx_listeners cx -> l' ∈ cx_listeners cx -> gl_name l = gl_name l' -> l = l'.
Proof using Hnames. by apply NoDup_map_inj. Qed.

Lemma port_of_listener l : l ∈ cx_listeners cx -> port_of cx (gl_name l) = Some (gl_port l).
Proof using Hnames.
  intros H. unfold port_of. destruct (find _ (cx_listeners cx)) as [l'|] eqn:E.
  - apply find_some in E as [Hin E]. apply beq_true in E. cbn. apply list_elem_of_In in Hin. by rewrite (listener_by_name l' l Hin H E).
  - pose proof (find_none _ _ E l ltac:(by apply list_elem_of_In)) as Hf. cbn in Hf. assert (beq (gl_name l) (gl_name l) = true) by (by apply beq_true). congruence.
Qed.

Lemma unclaimed_listener taken l : l ∈ cx_listeners cx -> unclaimed cx taken (gl_name l) = negb (bool_decide (gl_port l ∈ taken)).
Proof using Hnames. intros H. unfold unclaimed. by rewrite port_of_listener. Qed.

Lemma filter_map_names (p : list Z -> bool) (q : GatewayListeners -> bool) ls :
  (forall l, l ∈ ls -> p (gl_name l) = q l) -> List.filter p (map gl_name ls) = map gl_name (List.filter q ls).
Proof.
  induction ls as [|l ls IH]; intros H; [done|]. cbn. rewrite (H l) by (by left). rewrite IH by (intros; apply H; by right). by destruct (q l).
Qed.

Lemma filter_filter {A} (p q : A -> bool) l : List.filter p (List.filter q l) = List.filter (fun x => q x && p x) l.
Proof. induction l as [|x l IH]; [done|]. cbn. destruct (q x); cbn; [destruct (p x); by rewrite IH|done]. Qed.

(** The listeners one parentRef attaches to. *)
Definition ref_listeners (taken : gset Z) (r : R) (pr : ParentReference) : list GatewayListeners :=
  List.filter (fun l => ref_admitted r pr l && free taken l) (cx_listeners cx).

Lemma filter_all {A} (p : A -> bool) l : (forall x, x ∈ l -> p x = true) -> List.filter p l = l.
Proof. induction l as [|x l IH]; intros H; [done|]. cbn. rewrite (H x) by (by left). rewrite IH; [done|]. intros; apply H; by right. Qed.

Lemma existsb_filter_nil {A} (p : A -> bool) l : existsb p l = negb (is_nil (List.filter p l)).
Proof. induction l as [|x l IH]; [done|]. cbn. by destruct (p x). Qed.

Lemma per_parent_of_eq taken r pr : per_parent_of cx taken r pr =
  {| p_section := ref_section_name pr; p_port := ref_port pr;
     p_attached := map gl_name (List.filter (ref_admitted r pr) (cx_listeners cx));
     p_result := if is_nil (ref_listeners taken r pr)
                 then Err (if existsb (ref_admitted r pr) (cx_listeners cx) then Conflicted
                           else specific_reason pr (gateway_ns cx) (route_ns r) KIND (route_hostnames r) (namespace_labels cx) (cx_listeners cx))
                 else Ok (map gl_name (ref_listeners taken r pr)) |}.
Proof using Hnames.
  unfold per_parent_of. rewrite listeners_for_parent_ref_eq. cbn zeta. fold (ref_admitted r pr).
  assert (Hnil : forall ls : list GatewayListeners, is_nil (map gl_name ls) = is_nil ls) by (by intros []). rewrite Hnil.
  rewrite existsb_filter_nil. unfold ref_listeners, free. set (adm := List.filter (ref_admitted r pr) (cx_listeners cx)).
  assert (Hfree : List.filter (fun l => ref_admitted r pr l && negb (ONE_ROUTE_PER_LISTENER && bool_decide (gl_port l ∈ taken))) (cx_listeners cx)
    = List.filter (fun l => negb (ONE_ROUTE_PER_LISTENER && bool_decide (gl_port l ∈ taken))) adm) by (unfold adm; by rewrite filter_filter).
  rewrite Hfree. destruct ONE_ROUTE_PER_LISTENER; cbn [andb].
  - destruct (is_nil adm) eqn:En; [by destruct adm|]. cbn [and_then].
    rewrite (filter_map_names _ (fun l => negb (bool_decide (gl_port l ∈ taken)))).
    + rewrite Hnil. by destruct (is_nil _).
    + intros l [Hl _]%elem_of_filter_b. by apply unclaimed_listener.
  - rewrite (filter_all (fun _ => negb false)) by done. by destruct adm.
Qed.

Lemma per_parent_eq taken r : per_parent cx taken r = map (per_parent_of cx taken r) (gateway_refs r).
Proof. done. Qed.

Lemma push_new_fold l acc : NoDup acc -> NoDup (fold_left push_new l acc) /\ forall n, n ∈ fold_left push_new l acc <-> n ∈ acc \/ n ∈ l.
Proof.
  revert acc. induction l as [|x l IH]; intros acc Hnd; cbn [fold_left].
  - split; [done|]. intros n. split; [by left|]. intros [?|H]; [done|by apply not_elem_of_nil in H].
  - assert (Hin : existsb (beq x) acc = true <-> x ∈ acc).
    { rewrite elem_of_existsb. setoid_rewrite beq_true. split; [intros (y & Hy & ->); done|by exists x]. }
    assert (Hp : push_new acc x = if existsb (beq x) acc then acc else acc ++ [x]) by done. rewrite Hp. clear Hp.
    destruct (existsb (beq x) acc) eqn:E.
    + destruct (IH acc Hnd) as [H1 H2]. split; [done|]. intros n. rewrite H2, elem_of_cons. pose proof (proj1 Hin eq_refl). intuition congruence.
    + destruct (IH (acc ++ [x])) as [H1 H2].
      { apply NoDup_app. split_and!; [done| |apply NoDup_singleton]. intros y Hy ->%list_elem_of_singleton. apply Hin in Hy. congruence. }
      split; [done|]. intros n. rewrite H2, elem_of_app, list_elem_of_singleton, elem_of_cons. tauto.
Qed.

(** The listeners a route gets. *)
Definition route_listeners (taken : gset Z) (r : R) : list GatewayListeners :=
  List.filter (fun l => route_admitted r l && free taken l) (cx_listeners cx).

Lemma flat_map_ext' {A B} (f g : A -> list B) l : (forall a, f a = g a) -> flat_map f l = flat_map g l.
Proof. intros H. induction l; cbn; [done|]. by rewrite H, IHl. Qed.

Lemma NoDup_map_filter {A B} (f : A -> B) (p : A -> bool) l : NoDup (map f l) -> NoDup (map f (List.filter p l)).
Proof.
  induction l as [|x l IH]; [done|]. cbn [map List.filter]. intros [Hx Hn]%NoDup_cons. destruct (p x); [|by apply IH]. cbn [map].
  apply NoDup_cons. split; [|by apply IH]. intros (y & [Hy _]%elem_of_filter_b & E)%elem_of_map. apply Hx, elem_of_map. by exists y.
Qed.

Lemma attached_listeners_perm taken r : attached_listeners (per_parent cx taken r) ≡ₚ map gl_name (route_listeners taken r).
Proof using Hnames.
  unfold attached_listeners. rewrite per_parent_eq, flat_map_map.
  rewrite (flat_map_ext' _ (fun pr => map gl_name (ref_listeners taken r pr))).
  2: { intros pr. rewrite per_parent_of_eq. cbn [p_result]. by destruct (ref_listeners taken r pr). }
  destruct (push_new_fold (flat_map (fun pr => map gl_name (ref_listeners taken r pr)) (gateway_refs r)) []) as [Hnd Hin]; [constructor|].
  apply NoDup_Permutation; [done| |].
  - by apply NoDup_map_filter.
  - intros n. rewrite Hin, elem_of_flat_map, elem_of_map. setoid_rewrite elem_of_map. split.
    + intros [H|(pr & Hpr & l & [Hl [Ha Hf]%andb_true_iff]%elem_of_filter_b & <-)]; [by apply not_elem_of_nil in H|]. exists l. split; [|done].
      apply elem_of_filter_b. split; [done|]. apply andb_true_iff. split; [|done]. apply elem_of_existsb. by exists pr.
    + intros (l & [Hl [(pr & Hpr & Ha)%elem_of_existsb Hf]%andb_true_iff]%elem_of_filter_b & <-). right. exists pr. split; [done|]. exists l.
      split; [|done]. apply elem_of_filter_b. split; [done|]. by rewrite Ha.
Qed.

Lemma is_nil_perm {A} (l k : list A) : l ≡ₚ k -> is_nil l = is_nil k.
Proof. intros H. destruct l, k; try done; [by apply Permutation_nil_l in H|by apply Permutation_nil_r in H]. Qed.

Lemma all_rejected taken r : forallb (fun p => is_err (p_result p)) (per_parent cx taken r) = is_nil (route_listeners taken r).
Proof using Hnames.
  assert (E : is_nil (route_listeners taken r) = is_nil (map gl_name (route_listeners taken r))) by (by destruct (route_listeners taken r)). rewrite E.
  rewrite <- (is_nil_perm _ _ (attached_listeners_perm taken r)). clear E. unfold attached_listeners. rewrite per_parent_eq, flat_map_map.
  assert (Hp : forall l acc, is_nil (fold_left push_new l acc) = is_nil acc && is_nil l).
  { induction l as [|x l IH]; intros acc; cbn; [by rewrite andb_true_r|]. rewrite IH. unfold push_new. rewrite andb_false_r.
    destruct acc; cbn; [done|]. by destruct (beq x l0 || _). }
  rewrite Hp. cbn [is_nil andb]. clear Hp. induction (gateway_refs r) as [|pr prs IH]; [done|]. cbn [map forallb flat_map]. rewrite IH.
  rewrite per_parent_of_eq. cbn [p_result]. destruct (ref_listeners taken r pr); [done|]. cbn. done.
Qed.

(** Whether a parentRef has a listener of the route's. *)
Lemma ref_has_listener taken r pr : pr ∈ gateway_refs r ->
  existsb (ref_admitted r pr) (route_listeners taken r) = negb (is_nil (ref_listeners taken r pr)).
Proof.
  intros Hpr. rewrite existsb_filter_nil. unfold route_listeners, ref_listeners. rewrite filter_filter. f_equal. f_equal.
  apply List.filter_ext. intros l. destruct (ref_admitted r pr l) eqn:E; [|by rewrite andb_false_r].
  assert (Ha : route_admitted r l = true) by (apply elem_of_existsb; by exists pr). by rewrite Ha, andb_true_r.
Qed.

Lemma rejected_entry taken r pr : pr ∈ gateway_refs r -> is_nil (ref_listeners taken r pr) = true ->
  rejected r (per_parent_of cx taken r pr) = entry_of ((r, route_listeners taken r), pr).
Proof using Hnames.
  intros Hpr Hn. rewrite per_parent_of_eq. unfold entry_of, ref_reason. rewrite (ref_has_listener _ _ _ Hpr), Hn.
  destruct (resolve_refs cx r (convert r).1) as [[? ?] ?]. unfold rejected, rejection. cbn. by destruct (existsb _ _).
Qed.

Lemma verdict_valid r : is_err (verdict_of r) = negb (route_valid r).
Proof. unfold verdict_of, route_valid. destruct (convert r) as [c v]. cbn. destruct v as [[]|e]; cbn; [|done]. by destruct (check c). Qed.

Lemma admitted_entry taken r pr resolved reason c : pr ∈ gateway_refs r -> resolve_refs cx r (convert r).1 = (c, resolved, reason) ->
  admitted_status r (verdict_of r) resolved reason (per_parent_of cx taken r pr) = entry_of ((r, route_listeners taken r), pr).
Proof using Hnames.
  intros Hpr Hres. destruct (is_nil (ref_listeners taken r pr)) eqn:Hn.
  - rewrite <- (rejected_entry taken r pr Hpr Hn). rewrite per_parent_of_eq. unfold admitted_status, rejected. cbn [p_result]. by rewrite Hn.
  - rewrite per_parent_of_eq. unfold entry_of, ref_reason, admitted_status. rewrite (ref_has_listener _ _ _ Hpr), Hn, Hres. cbn.
    f_equal. by rewrite verdict_valid, negb_involutive.
Qed.

Lemma claimed_ports taken r : (list_to_set (omap (port_of cx) (attached_listeners (per_parent cx taken r))) : gset Z)
  = list_to_set (map gl_port (route_listeners taken r)).
Proof using Hnames.
  apply set_eq. intros p. rewrite !elem_of_list_to_set, list_elem_of_omap, elem_of_map. setoid_rewrite attached_listeners_perm. setoid_rewrite elem_of_map. split.
  - intros (n & (l & Hl & <-) & Hp). exists l. split; [done|]. pose proof Hl as [Hin _]%elem_of_filter_b. rewrite port_of_listener in Hp by done. congruence.
  - intros (l & Hl & <-). exists (gl_name l). split; [by exists l|]. apply port_of_listener. by apply elem_of_filter_b in Hl as [? _].
Qed.

Lemma collect_step_meets truth st r : sound_checks truth (checks st) -> truthful truth r ->
  let ls := route_listeners (claimed st) r in let st' := collect_step cx st r in
  sound_checks truth (checks st')
  /\ statuses st' = statuses st ++ map (fun pr => entry_of ((r, ls), pr)) (gateway_refs r)
  /\ claimed st' = (if ONE_ROUTE_PER_LISTENER && route_valid r then list_to_set (map gl_port ls) ∪ claimed st else claimed st)
  /\ exists cs, configs st' = configs st ++ cs /\ Forall2 carries cs (List.filter served [(r, ls)]).
Proof using Hnames.
  intros Hs Ht ls st'. subst st'. unfold collect_step. rewrite all_rejected. fold ls. destruct (is_nil ls) eqn:Hn.
  - cbn [checks statuses claimed configs]. split_and!; [done| | |].
    + f_equal. rewrite per_parent_eq, map_map. apply map_ext_in. intros pr Hpr%list_elem_of_In. apply rejected_entry; [done|].
      apply negb_false_iff. rewrite <- ref_has_listener by done. fold ls. by destruct ls.
    + destruct ls; [|done]. cbn. rewrite union_empty_l_L. by destruct (_ && _).
    + exists []. rewrite app_nil_r. split; [done|]. unfold served. cbn [List.filter fst snd]. rewrite Hn, andb_false_r. constructor.
  - pose proof (verdict_sound truth (checks st) r Hs Ht) as Hv. pose proof (verdict_valid r) as Hval. pose proof (admitted_entry (claimed st) r) as Hent.
    fold ls in Hent. unfold verdict_of in *.
    assert (Hstat : forall resolved reason c v, resolve_refs cx r (convert r).1 = (c, resolved, reason) -> v = verdict_of r ->
      map (admitted_status r v resolved reason) (per_parent cx (claimed st) r) = map (fun pr => entry_of ((r, ls), pr)) (gateway_refs r)).
    { intros resolved reason c v Hres ->. rewrite per_parent_eq, map_map. apply map_ext_in. intros pr Hpr%list_elem_of_In. by eapply Hent. }
    assert (Hcar : forall c resolved reason, resolve_refs cx r (convert r).1 = (c, resolved, reason) ->
      carries (attach c (map (listener_ref cx) (attached_listeners (per_parent cx (claimed st) r)))) (r, ls)).
    { intros c resolved reason Hres. eexists. cbn [fst snd]. rewrite Hres. split; [done|]. rewrite attached_listeners_perm. by rewrite map_map. }
    unfold verdict_of in Hstat. unfold served. cbn [List.filter fst snd]. rewrite Hn. cbn [negb]. rewrite andb_true_r.
    destruct (convert r) as [config converted]. cbn [fst snd] in *.
    destruct (resolve_refs cx r config) as [[config' resolved] reason] eqn:Er.
    destruct converted as [[]|e]; cbn [and_then] in *.
    + destruct (verdict (checks st) r config) as [v checks']. cbn [fst snd] in Hv. destruct Hv as [-> Hs'].
      assert (Hrv : route_valid r = negb (is_err (check config))) by (by rewrite Hval, negb_involutive). rewrite Hrv.
      specialize (Hstat resolved reason config' (check config) eq_refl eq_refl).
      destruct (is_err (check config)); cbn [checks statuses claimed configs negb]; rewrite Hstat; (split_and!; [done|done| |]).
      * by rewrite andb_false_r.
      * exists []. rewrite app_nil_r. split; [done|constructor].
      * rewrite andb_true_r, claimed_ports. fold ls. by destruct ONE_ROUTE_PER_LISTENER.
      * eexists. split; [done|]. repeat constructor. by eapply Hcar.
    + specialize (Hstat resolved reason config' (Err e) eq_refl eq_refl). cbn [is_err] in *.
      assert (Hrv : route_valid r = false) by (by rewrite <- negb_true_iff, <- Hval). rewrite Hrv. cbn [checks statuses claimed configs].
      rewrite Hstat. split_and!; [done|done|by rewrite andb_false_r|]. exists []. rewrite app_nil_r. split; [done|constructor].
Qed.

(** The whole collection. *)
Lemma collect_meets truth rs : forall st, sound_checks truth (checks st) -> Forall (truthful truth) rs ->
  let st' := fold_left (collect_step cx) rs st in let a := assigned (claimed st) rs in
  sound_checks truth (checks st')
  /\ statuses st' = statuses st ++ entries a
  /\ exists cs, configs st' = configs st ++ cs /\ Forall2 carries cs (List.filter served a).
Proof using Hnames.
  induction rs as [|r rs IH]; intros st Hs Ht; cbn [fold_left assigned].
  - unfold entries. cbn. rewrite !app_nil_r. split_and!; [done|done|]. exists []. rewrite app_nil_r. split; [done|constructor].
  - apply Forall_cons in Ht as [Hr Ht]. destruct (collect_step_meets truth st r Hs Hr) as (H1 & H2 & H3 & cs & H4 & H5).
    destruct (IH (collect_step cx st r) H1 Ht) as (I1 & I2 & cs' & I4 & I5). fold (route_listeners (claimed st) r). rewrite <- H3.
    split_and!; [done| |].
    + rewrite I2, H2. unfold entries. cbn [flat_map fst]. by rewrite app_assoc.
    + exists (cs ++ cs'). rewrite I4, H4. split; [by rewrite app_assoc|].
      change (?x :: ?y) with ([x] ++ y) at 1. rewrite List.filter_app. by apply Forall2_app.
Qed.

End Reference.
