(* ===== verification/Reconciled.v ===== *)
(** * A Gateway reconciled

    What [reconcile_to_config] gives a Gateway, from the cluster's objects:
    routes attached where they are admitted and nowhere else, TCP and UDP
    ports to the oldest route, references that are permitted, listeners and
    scopes the table build serves, and the status that says so. *)

From S2P Require Import Prelude Bytes PathNorm Routing RouteBuild Config AcceptedFilters ConfigTable Validation Snapshot GatewayApi Converters Reconcile ReconcileSpec.

(** ** Orders *)

(** A comparison that orders, up to what it holds equal. *)
Class Ordering {A} (cmp : A -> A -> comparison) : Prop := {
  ordering_flip x y : cmp y x = CompOpp (cmp x y);
  ordering_trans x y z : cmp x y <> Gt -> cmp y z <> Gt -> cmp x z <> Gt;
  ordering_eq x y z : cmp x y = Eq -> cmp x z = cmp y z;
}.

#[export] Instance option_ordering : Ordering option_compare.
Proof.
  split.
  - intros [x|] [y|]; cbn; try done. apply Z.compare_antisym.
  - intros [x|] [y|] [z|]; cbn; try done. destruct (Z.compare_spec x y), (Z.compare_spec y z), (Z.compare_spec x z); try done; lia.
  - intros [x|] [y|] [z|]; cbn; try done. destruct (Z.compare_spec x y); try done. by subst.
Qed.

#[export] Instance bytes_ordering : Ordering bytes_compare.
Proof.
  split.
  - induction x as [|a x IH]; intros [|b y]; cbn; try done. rewrite Z.compare_antisym, IH. by destruct (a ?= b).
  - induction x as [|a x IH]; intros [|b y] [|c z]; cbn; try done. intros H1 H2.
    destruct (Z.compare_spec a b), (Z.compare_spec b c), (Z.compare_spec a c); cbn in *; try done; try lia. by eapply IH.
  - induction x as [|a x IH]; intros [|b y] [|c z]; cbn; try done.
    destruct (Z.compare_spec a b); cbn; try done. subst. intros H. by rewrite (IH _ _ H).
Qed.

Lemma then_with_ordering {A B C} (f : A -> B) (g : A -> C) cmp cmp' : Ordering cmp -> Ordering cmp' ->
  Ordering (fun a b => then_with (cmp (f a) (f b)) (cmp' (g a) (g b))).
Proof.
  intros [F1 T1 E1] [F2 T2 E2]. split; intros x y.
  - rewrite F1, F2. by destruct (cmp (f x) (f y)).
  - intros z H1 H2. unfold then_with in *. destruct (cmp (f x) (f y)) eqn:Exy; [| |done].
    + rewrite (E1 _ _ _ Exy). destruct (cmp (f y) (f z)); [by eapply T2|done|done].
    + destruct (cmp (f x) (f z)) eqn:Exz; [|done|].
      * exfalso. assert (Ezy : cmp (f z) (f y) = Lt) by (rewrite <- (E1 _ _ _ Exz); done). rewrite F1, Ezy in H2. done.
      * exfalso. apply (T1 (f x) (f y) (f z)); [congruence| |done]. intros E. by rewrite E in H2.
  - intros z H. unfold then_with in *. destruct (cmp (f x) (f y)) eqn:Exy; try done. by rewrite (E1 _ _ _ Exy), (E2 _ _ _ H).
Qed.

Lemma sort_by_sorted {A} (cmp : A -> A -> comparison) {O : Ordering cmp} l : StronglySorted (fun x y => cmp x y <> Gt) (sort_by cmp l).
Proof.
  induction l as [|x l IH]; [constructor|]. change (sort_by cmp (x :: l)) with (insert_by cmp x (sort_by cmp l)).
  induction IH as [|y k Hs IH Hall]; cbn [insert_by]; [repeat constructor|]. destruct (cmp x y) eqn:E.
  1,2: constructor; [by constructor|]; constructor; [congruence|]; eapply Forall_impl; [exact Hall|]; intros z Hz; eapply ordering_trans; [|exact Hz]; congruence.
  constructor; [done|]. rewrite insert_by_perm. constructor; [|done]. rewrite ordering_flip, E. done.
Qed.

#[export] Instance precedence_ordering {R C} {G : GatewayRoute R C} : Ordering (precedence (G := G)).
Proof.
  apply (then_with_ordering (fun r => creation_timestamp (metadata r)) route_key); apply _.
Qed.

#[export] Instance policy_ordering : Ordering policy_compare.
Proof. apply (then_with_ordering (fun p => creation_timestamp (rlp_metadata p)) rlp_name); apply _. Qed.

Lemma sorted_before {A} (P : A -> A -> Prop) l i j x y : StronglySorted P l -> (i < j)%nat -> l !! i = Some x -> l !! j = Some y -> P x y.
Proof.
  intros H. revert i j. induction H as [|a l Hs IH Hall]; intros [|i] [|j] Hij; cbn; try done; try lia.
  - intros [= ->] Hj. rewrite Forall_forall in Hall. apply Hall. by eapply list_elem_of_lookup_2.
  - intros Hi Hj. apply (IH i j); [lia|done..].
Qed.

(** ** Who gets which port *)

Section Assigned.
Context {R C : Type} {G : GatewayRoute R C} (cx : RouteCollectCtx).

Lemma elem_of_ordered (rs : list R) r :
  r ∈ ordered_routes cx rs <-> r ∈ rs /\ route_targets_gateway (parent_refs r) (route_ns r) (gateway_name cx) (gateway_ns cx) = true.
Proof. unfold ordered_routes. by rewrite sort_by_perm, elem_of_filter_b. Qed.

(** Places of a filtered list come from places of the list in the same order. *)
Lemma filter_ordered_places {A} (p : A -> bool) l i j x y : (i < j)%nat -> List.filter p l !! i = Some x -> List.filter p l !! j = Some y ->
  exists i' j', (i' < j')%nat /\ l !! i' = Some x /\ l !! j' = Some y.
Proof.
  revert i j. induction l as [|z l IH]; intros i j Hij Hi Hj; [done|]. cbn [List.filter] in Hi, Hj. destruct (p z).
  - destruct j as [|j]; [lia|]. destruct i as [|i]; cbn in Hi, Hj.
    + apply list_elem_of_lookup_2, elem_of_filter_b in Hj as [Hj _]. apply list_elem_of_lookup in Hj as [k Hk]. exists 0%nat, (S k).
      split; [lia|done].
    + destruct (IH i j ltac:(lia) Hi Hj) as (i' & j' & ? & ? & ?). exists (S i'), (S j'). split; [lia|done].
  - destruct (IH i j Hij Hi Hj) as (i' & j' & ? & ? & ?). exists (S i'), (S j'). split; [lia|done].
Qed.

Lemma assigned_routes taken rs : map fst (assigned cx taken rs) = rs.
Proof. revert taken. induction rs as [|r rs IH]; intros taken; [done|]. cbn. by rewrite IH. Qed.

(** What a route gets is admitted and was free. *)
Lemma assigned_admitted rs : forall taken j r ls, assigned cx taken rs !! j = Some (r, ls) ->
  rs !! j = Some r /\ forall l, l ∈ ls -> l ∈ cx_listeners cx /\ route_admitted cx r l = true.
Proof.
  induction rs as [|r rs IH]; intros taken j r' ls H; [done|]. cbn [assigned] in H. destruct j as [|j]; cbn in H.
  - injection H as <- <-. split; [done|]. intros l [Hl [Ha _]%andb_true_iff]%elem_of_filter_b. done.
  - by apply IH in H.
Qed.

(** Kinds whose routes share listeners. *)
Lemma assigned_shared rs : ONE_ROUTE_PER_LISTENER = false -> forall taken,
  assigned cx taken rs = map (fun r => (r, List.filter (route_admitted cx r) (cx_listeners cx))) rs.
Proof.
  intros Hone. induction rs as [|r rs IH]; intros taken; [done|]. cbn [assigned map]. rewrite IH. f_equal. f_equal.
  apply List.filter_ext. intros l. unfold free. rewrite Hone. cbn. apply andb_true_r.
Qed.

Lemma admitted_targets r l : route_admitted cx r l = true -> route_targets_gateway (parent_refs r) (route_ns r) (gateway_name cx) (gateway_ns cx) = true.
Proof.
  intros (pr & [Hpr Hm]%elem_of_filter_b & _)%elem_of_existsb. unfold route_targets_gateway. destruct (parent_refs r) as [refs|]; cbn in Hpr.
  - apply elem_of_existsb. by exists pr.
  - by apply not_elem_of_nil in Hpr.
Qed.

Context (Hone : ONE_ROUTE_PER_LISTENER = true).

Lemma assigned_avoids rs : forall taken j r ls l, assigned cx taken rs !! j = Some (r, ls) -> l ∈ ls -> gl_port l ∉ taken.
Proof using Hone.
  induction rs as [|r rs IH]; intros taken j r' ls l H Hl; [done|]. cbn [assigned] in H. rewrite Hone in H. cbn [andb] in H.
  destruct j as [|j]; cbn in H.
  - injection H as <- <-. apply elem_of_filter_b in Hl as [_ [_ Hf]%andb_true_iff]. unfold free in Hf. rewrite Hone in Hf. cbn in Hf.
    by apply negb_true_iff, bool_decide_eq_false in Hf.
  - pose proof (IH _ _ _ _ _ H Hl) as Hn. destruct (route_valid r); [|done]. set_solver.
Qed.

(** No two valid routes get one port. *)
Lemma assigned_exclusive rs : forall taken i j r r' ls ls' l l', (i < j)%nat ->
  assigned cx taken rs !! i = Some (r, ls) -> assigned cx taken rs !! j = Some (r', ls') -> route_valid r = true ->
  l ∈ ls -> l' ∈ ls' -> gl_port l <> gl_port l'.
Proof using Hone.
  induction rs as [|r0 rs IH]; intros taken i j r r' ls ls' l l' Hij Hi Hj Hv Hl Hl'; [done|]. cbn [assigned] in Hi, Hj.
  destruct j as [|j]; [lia|]. cbn in Hj. destruct i as [|i]; cbn in Hi.
  - injection Hi as <- <-. rewrite Hone, Hv in Hj. cbn in Hj. pose proof (assigned_avoids _ _ _ _ _ _ Hj Hl') as Hn.
    intros E. apply Hn. rewrite <- E. apply elem_of_union_l, elem_of_list_to_set, elem_of_map. by exists l.
  - exact (IH _ i j _ _ _ _ _ _ ltac:(lia) Hi Hj Hv Hl Hl').
Qed.

(** A route is without a listener that admits it only where an older one has its port. *)
Lemma assigned_held rs : forall taken j r ls l, assigned cx taken rs !! j = Some (r, ls) -> l ∈ cx_listeners cx -> route_admitted cx r l = true ->
  l ∈ ls \/ gl_port l ∈ taken
  \/ exists i r' ls' l', (i < j)%nat /\ assigned cx taken rs !! i = Some (r', ls') /\ route_valid r' = true /\ l' ∈ ls' /\ gl_port l' = gl_port l.
Proof using Hone.
  induction rs as [|r0 rs IH]; intros taken j r ls l Hj Hl Ha; [done|]. cbn [assigned] in Hj |- *. destruct j as [|j]; cbn in Hj.
  - injection Hj as <- <-. destruct (decide (gl_port l ∈ taken)) as [Ht|Ht]; [by right; left|]. left. apply elem_of_filter_b. split; [done|].
    rewrite Ha. unfold free. rewrite bool_decide_eq_false_2 by done. by destruct ONE_ROUTE_PER_LISTENER.
  - destruct (IH _ j r ls l Hj Hl Ha) as [H|[H|(i & r' & ls' & l' & Hij & Hi & Hv & Hl' & E)]]; [by left| |].
    + rewrite Hone in H. cbn in H. destruct (route_valid r0) eqn:Ev; [|by right; left]. apply elem_of_union in H as [H|H]; [|by right; left].
      apply elem_of_list_to_set, elem_of_map in H as (l' & Hl' & E). right. right. exists 0%nat. eexists _, _, l'. split; [lia|]. cbn. done.
    + right. right. exists (S i), r', ls', l'. split; [lia|]. done.
Qed.

(** Where every route is valid, each port some route is admitted on has one
    route, and none admitted there precedes it. *)
Lemma one_winner (routes : list R) (Hvalid : forall r, r ∈ routes -> route_valid r = true) :
  let winners := List.filter served (assigned cx ∅ (ordered_routes cx routes)) in
  (forall i j a b l l', i <> j -> winners !! i = Some a -> winners !! j = Some b -> l ∈ a.2 -> l' ∈ b.2 -> gl_port l <> gl_port l')
  /\ (forall r l, r ∈ routes -> l ∈ cx_listeners cx -> route_admitted cx r l = true ->
        exists w l', w ∈ winners /\ l' ∈ w.2 /\ gl_port l' = gl_port l /\ precedence w.1 r <> Gt).
Proof using Hone.
  set (ordered := ordered_routes cx routes). intros winners.
  assert (Hin : forall j r ls, assigned cx ∅ ordered !! j = Some (r, ls) -> r ∈ routes /\ route_valid r = true).
  { intros j r ls H. apply assigned_admitted in H as [H _]. apply list_elem_of_lookup_2, elem_of_ordered in H as [H _]. auto. }
  split.
  - assert (Hlt : forall i j a b l l', (i < j)%nat -> winners !! i = Some a -> winners !! j = Some b -> l ∈ a.2 -> l' ∈ b.2 -> gl_port l <> gl_port l').
    { intros i j [r ls] [r' ls'] l l' Hij Hi Hj Hl Hl'. destruct (filter_ordered_places _ _ _ _ _ _ Hij Hi Hj) as (i' & j' & Hij' & Hi' & Hj').
      eapply (assigned_exclusive ordered ∅ i' j'); eauto. by eapply Hin. }
    intros i j a b l l' Hne Hi Hj Hl Hl'. destruct (Nat.lt_total i j) as [H|[H|H]]; [by eapply (Hlt i j)|done|].
    intros E. exact (Hlt j i b a l' l H Hj Hi Hl' Hl (eq_sym E)).
  - intros r l Hr Hl Ha. assert (Ho : r ∈ ordered) by (apply elem_of_ordered; split; [done|by eapply admitted_targets]).
    apply list_elem_of_lookup in Ho as [j Hj]. assert (Hs : exists ls, assigned cx ∅ ordered !! j = Some (r, ls)).
    { pose proof (assigned_routes ∅ ordered) as E. rewrite <- E, list_lookup_fmap in Hj. destruct (assigned cx ∅ ordered !! j) as [[r' ls]|]; [|done].
      injection Hj as ->. by exists ls. }
    destruct Hs as [ls Hs].
    assert (Hw : forall i w ls' l', assigned cx ∅ ordered !! i = Some (w, ls') -> l' ∈ ls' -> (w, ls') ∈ winners).
    { intros i w ls' l' Hi Hl'. apply elem_of_filter_b. split; [by eapply list_elem_of_lookup_2|]. unfold served. cbn.
      rewrite (proj2 (Hin _ _ _ Hi)). destruct ls'; [by apply not_elem_of_nil in Hl'|done]. }
    destruct (assigned_held ordered ∅ j r ls l Hs Hl Ha) as [H|[H|(i & w & ls' & l' & Hij & Hi & _ & Hl' & E)]].
    + exists (r, ls), l. split_and!; [by eapply Hw|done|done|]. pose proof (ordering_flip r r) as F. cbn. destruct (precedence r r); done.
    + by apply not_elem_of_empty in H.
    + exists (w, ls'), l'. split_and!; [by eapply Hw|done|done|]. cbn. apply assigned_admitted in Hi as [Hi _].
      exact (sorted_before _ _ i j w r (sort_by_sorted precedence _) Hij Hi Hj).
Qed.

End Assigned.

Lemma entry_accepted {R C} {G : GatewayRoute R C} cx (r : R) ls pr : accepted (entry_of cx ((r, ls), pr)) = true <->
  served (r, ls) = true /\ exists l, l ∈ ls /\ ref_admitted cx r pr l = true.
Proof.
  unfold entry_of. destruct (resolve_refs cx r (convert r).1) as [[? ?] ?]. cbn [accepted]. unfold served. cbn [fst snd].
  rewrite !andb_true_iff, elem_of_existsb, negb_true_iff. split.
  - intros [(l & Hl & Ha) Hv]. split; [|by exists l]. split; [done|]. destruct ls; [by apply not_elem_of_nil in Hl|done].
  - intros [[Hv _] H]. done.
Qed.

(** An entry is Accepted just when the route is served on a listener of the
    entry's own parentRef, and then a configuration carries it. *)
Definition tells {R C} (G : GatewayRoute R C) (cx : RouteCollectCtx) (configs : list C) (assigned : list (R * list GatewayListeners)) : Prop :=
  forall a pr, a ∈ assigned ->
    (accepted (entry_of cx (a, pr)) = true <-> served a = true /\ exists l, l ∈ a.2 /\ ref_admitted cx a.1 pr l = true)
    /\ (accepted (entry_of cx (a, pr)) = true -> exists c, c ∈ configs /\ carries cx c a).

Lemma entries_tell {R C} (G : GatewayRoute R C) cx (configs : list C) assigned :
  Forall2 (carries cx) configs (List.filter served assigned) -> tells G cx configs assigned.
Proof.
  intros H [r ls] pr Ha. split; [apply entry_accepted|]. intros [Hs _]%entry_accepted.
  assert (Hin : (r, ls) ∈ List.filter served assigned) by (by apply elem_of_filter_b). apply list_elem_of_lookup in Hin as [i Hi].
  destruct (Forall2_lookup_r _ _ _ _ _ H Hi) as (c & Hc & Hcar). exists c. split; [by eapply list_elem_of_lookup_2|done].
Qed.

(** ** References *)

Section References.
Context {R C : Type} {G : GatewayRoute R C} {L : GatewayRouteLaws G} (cx : RouteCollectCtx).

(** A core Service that exists, of the route's namespace or granted to it. *)
Definition permitted (ns : list Z) (b : BackendRef) (svc svc_ns : list Z) : Prop :=
  (br_group b = [] \/ br_group b = bs "core") /\ (br_kind b = bs "Service" \/ br_kind b = [])
  /\ (svc, svc_ns) ∈ known_services cx
  /\ (svc_ns = ns \/ exists g, g ∈ reference_grants cx /\ grants_reference g GATEWAY_GROUP KIND ns [] (bs "Service") svc_ns svc = true).

Lemma is_nil_true {A} (l : list A) : is_nil l = true <-> l = [].
Proof. by destruct l. Qed.

Lemma check_ref_permitted ns b svc svc_ns : parse_backend_dns_name (br_name b) = Some (svc, svc_ns) ->
  check_ref cx ns b = None <-> permitted ns b svc svc_ns.
Proof.
  intros Hp. unfold check_ref, permitted.
  assert (Hg : negb (is_nil (br_group b)) && negb (beq (br_group b) (bs "core")) = false <-> br_group b = [] \/ br_group b = bs "core").
  { rewrite andb_false_iff, !negb_false_iff, is_nil_true, beq_true. done. }
  assert (Hk : negb (beq (br_kind b) (bs "Service")) && negb (is_nil (br_kind b)) = false <-> br_kind b = bs "Service" \/ br_kind b = []).
  { rewrite andb_false_iff, !negb_false_iff, is_nil_true, beq_true. done. }
  destruct (_ || _) eqn:E1.
  { split; [done|]. intros (H1 & H2 & _). apply Hg in H1. apply Hk in H2. by rewrite H1, H2 in E1. }
  apply orb_false_iff in E1 as [E1 E2]. apply Hg in E1. apply Hk in E2. rewrite Hp. cbn [mbind option_bind].
  assert (Ha : negb (beq svc_ns ns) && negb (is_reference_allowed (reference_grants cx) GATEWAY_GROUP KIND ns [] (bs "Service") svc_ns svc) = false
    <-> svc_ns = ns \/ exists g, g ∈ reference_grants cx /\ grants_reference g GATEWAY_GROUP KIND ns [] (bs "Service") svc_ns svc = true).
  { rewrite andb_false_iff, !negb_false_iff, beq_true. unfold is_reference_allowed. destruct (beq ns svc_ns) eqn:En.
    - apply beq_true in En. naive_solver.
    - rewrite elem_of_existsb. done. }
  destruct (negb (beq svc_ns ns) && _) eqn:E3.
  { split; [done|]. intros (_ & _ & _ & H). by apply Ha in H. }
  pose proof (proj1 Ha eq_refl) as Hgr. case_bool_decide as Hkn; cbn; [by split|]. split; [done|]. intros (_ & _ & H & _). done.
Qed.

(** The references of a configuration are of its route's spec; those kept
    valid are permitted and those marked invalid are not; the mirrors kept
    are permitted. *)
Definition refs_checked (r : R) (c : C) : Prop :=
  (forall b, b ∈ config_backends c -> exists svc ns, (svc, ns) ∈ spec_refs r /\ br_name b = backend_dns_name svc ns (route_ns r)
     /\ (br_invalid b = false <-> permitted (route_ns r) b svc (default (route_ns r) ns)))
  /\ (forall b, b ∈ mirror_backend_refs c -> exists svc ns, (svc, ns) ∈ spec_refs r /\ br_name b = backend_dns_name svc ns (route_ns r)
     /\ permitted (route_ns r) b svc (default (route_ns r) ns)).

(** Namespaces are DNS labels: no dot. *)
Definition namespaces_are_labels (r : R) : Prop :=
  forall svc ns, (svc, ns) ∈ spec_refs r -> Forall (fun b => b <> 46) (default (route_ns r) ns).

Lemma mark_same ns b : br_name (mark cx ns b) = br_name b /\ br_group (mark cx ns b) = br_group b /\ br_kind (mark cx ns b) = br_kind b
  /\ br_filters (mark cx ns b) = br_filters b /\ (br_invalid b = false -> br_invalid (mark cx ns b) = is_some (check_ref cx ns b)).
Proof. unfold mark, set_invalid. destruct (check_ref cx ns b), b; done. Qed.

Lemma carried_refs_checked c r ls : namespaces_are_labels r -> carries cx c (r, ls) -> refs_checked r c.
Proof.
  intros Hns (refs & -> & _). cbn [fst]. unfold resolve_refs. cbn [fst snd].
  set (conv := (convert r).1). set (marked := map_backends (mark cx (route_ns r)) conv). set (invalid := invalid_mirrors cx (route_ns r) marked).
  assert (Hb : forall x, config_backends (attach (if bool_decide (invalid = ∅) then marked else remove_invalid_mirrors marked invalid) x)
    = map (mark cx (route_ns r)) (config_backends conv)).
  { intros x. rewrite backends_attach. destruct (bool_decide _); rewrite ?backends_retain; apply backends_map. }
  assert (Hm : forall x b, b ∈ mirror_backend_refs (attach (if bool_decide (invalid = ∅) then marked else remove_invalid_mirrors marked invalid) x)
    -> b ∈ mirror_backend_refs conv /\ (br_name b, br_port b) ∉ invalid).
  { intros x b. rewrite mirrors_attach. case_bool_decide as E.
    - rewrite E. unfold marked. rewrite mirrors_map. set_solver.
    - rewrite mirrors_retain. unfold marked. by rewrite mirrors_map. }
  split.
  - intros b. rewrite Hb. intros (b0 & Hb0 & <-)%elem_of_map. destruct (convert_named r b0) as (Hinv & svc & ns & Hs & Hn); [by left|].
    destruct (mark_same (route_ns r) b0) as (M1 & M2 & M3 & _ & M5). exists svc, ns. split_and!; [done|by rewrite M1|]. rewrite M5 by done.
    assert (Hp : parse_backend_dns_name (br_name b0) = Some (svc, default (route_ns r) ns)) by (rewrite Hn; apply parse_backend_dns_name_round; by eapply Hns).
    pose proof (check_ref_permitted (route_ns r) b0 _ _ Hp) as Hc. unfold permitted in *. rewrite M2, M3, <- Hc. by destruct (check_ref cx (route_ns r) b0).
  - intros b [Hbm Hni]%Hm. destruct (convert_named r b) as (Hinv & svc & ns & Hs & Hn); [by right|]. exists svc, ns. split_and!; [done|done|].
    assert (Hp : parse_backend_dns_name (br_name b) = Some (svc, default (route_ns r) ns)) by (rewrite Hn; apply parse_backend_dns_name_round; by eapply Hns).
    apply (check_ref_permitted (route_ns r) b _ _ Hp). destruct (check_ref cx (route_ns r) b) as [e|] eqn:E; [|done]. destruct Hni.
    apply elem_of_list_to_set, elem_of_map. exists b. split; [|done]. apply elem_of_filter_b. rewrite E. split; [|done]. unfold marked. by rewrite mirrors_map.
Qed.

(** What the build checks of a configuration still holds of the one carried. *)
Lemma carried_checks c r ls : route_valid r = true -> carries cx c (r, ls) -> check c = Ok tt.
Proof.
  intros [_ Hv]%andb_true_iff (refs & -> & _). cbn [fst]. rewrite check_attach. unfold resolve_refs. cbn [fst snd].
  assert (Hc : check (map_backends (mark cx (route_ns r)) (convert r).1) = Ok tt).
  { apply check_map; [intros b; apply mark_same|]. destruct (check (convert r).1) as [[]|]; done. }
  destruct (bool_decide _); [done|by apply check_retain].
Qed.

(** The route and listeners a configuration comes from. *)
Lemma carried_route (configs : list C) (routes : list R) taken c :
  Forall2 (carries cx) configs (List.filter served (assigned cx taken (ordered_routes cx routes))) -> c ∈ configs ->
  exists r ls, r ∈ routes /\ served (r, ls) = true /\ (forall l, l ∈ ls -> l ∈ cx_listeners cx /\ route_admitted cx r l = true) /\ carries cx c (r, ls).
Proof.
  intros H [i Hi]%list_elem_of_lookup. destruct (Forall2_lookup_l _ _ _ _ _ H Hi) as ([r ls] & Ha & Hc).
  apply list_elem_of_lookup_2, elem_of_filter_b in Ha as [Ha Hs]. apply list_elem_of_lookup in Ha as [j Hj].
  apply assigned_admitted in Hj as [Hj Hl]. exists r, ls. split_and!; try done. by apply list_elem_of_lookup_2, elem_of_ordered in Hj as [? _].
Qed.

End References.

(** ** The pass *)

Section Pass.
Context {RE : RegexEngine} {RS : RegexSyntax} (parse_duration : list Z -> option Z).
Context (gw : Gateway) (snapshot : ClusterSnapshot) (cert_data : CertData) (services : ServiceState) (verdicts : RouteVerdicts).

Abbreviation cx := (reconcile_cx gw snapshot services).
Abbreviation result := (reconcile_to_config parse_duration gw snapshot cert_data services verdicts).
Abbreviation http := (http_gateway_route parse_duration).

(** The names of a Gateway's listeners differ, and its verdicts are those of
    the specs they were taken of. *)
Record pass_ok (truth : list Z -> Z -> Verdict) : Prop := {
  po_names : NoDup (map gl_name (gw_listeners gw));
  po_verdicts : forall m, verdicts !! (gateway_ns cx, gateway_name cx) = Some m -> sound truth m;
  po_http : Forall (truthful (G := http) truth) (http_routes snapshot);
  po_tcp : Forall (truthful (G := tcp_gateway_route) truth) (tcp_routes snapshot);
  po_tls : Forall (truthful (G := tls_gateway_route) truth) (tls_routes snapshot);
  po_udp : Forall (truthful (G := udp_gateway_route) truth) (udp_routes snapshot);
}.

(** Each kind's routes in precedence order with the listeners they get. *)
Definition http_assigned := assigned (G := http) cx ∅ (ordered_routes (G := http) cx (http_routes snapshot)).
Definition tcp_assigned := assigned (G := tcp_gateway_route) cx ∅ (ordered_routes (G := tcp_gateway_route) cx (tcp_routes snapshot)).
Definition tls_assigned := assigned (G := tls_gateway_route) cx ∅ (ordered_routes (G := tls_gateway_route) cx (tls_routes snapshot)).
Definition udp_assigned := assigned (G := udp_gateway_route) cx ∅ (ordered_routes (G := udp_gateway_route) cx (udp_routes snapshot)).

Lemma ordered_truthful {R C} {G : GatewayRoute R C} cx truth (rs : list R) : Forall (truthful truth) rs -> Forall (truthful truth) (ordered_routes cx rs).
Proof. rewrite !Forall_forall. intros H r [Hr _]%elem_of_ordered. auto. Qed.

Lemma cx_names : NoDup (map gl_name (gw_listeners gw)) -> NoDup (map gl_name (cx_listeners cx)).
Proof. intros H. by apply NoDup_map_filter. Qed.

Lemma reconcile_meets truth : pass_ok truth ->
  let cfg := config result.1 in
  Forall2 (carries (G := http) cx) (cfg_http_routes cfg) (List.filter (served (G := http)) http_assigned)
  /\ Forall2 (carries (G := tcp_gateway_route) cx) (cfg_tcp_routes cfg) (List.filter (served (G := tcp_gateway_route)) tcp_assigned)
  /\ Forall2 (carries (G := tls_gateway_route) cx) (cfg_tls_routes cfg) (List.filter (served (G := tls_gateway_route)) tls_assigned)
  /\ Forall2 (carries (G := udp_gateway_route) cx) (cfg_udp_routes cfg) (List.filter (served (G := udp_gateway_route)) udp_assigned)
  /\ route_status result.1 = entries (G := http) cx http_assigned ++ entries (G := tcp_gateway_route) cx tcp_assigned
       ++ entries (G := tls_gateway_route) cx tls_assigned ++ entries (G := udp_gateway_route) cx udp_assigned
  /\ (forall m, result.2 !! (gateway_ns cx, gateway_name cx) = Some m -> sound truth m).
Proof.
  intros [Hn Hv H1 H2 H3 H4]. pose proof (cx_names Hn) as Hcx.
  assert (Hs : sound_checks truth {| last_verdicts := default ∅ (verdicts !! (gateway_ns cx, gateway_name cx)); now_verdicts := ∅ |}).
  { split; cbn; [|apply sound_empty]. destruct (verdicts !! _) as [m|] eqn:E; [by apply Hv|apply sound_empty]. }
  destruct (collect_meets (G := http) cx Hcx truth (ordered_routes (G := http) cx (http_routes snapshot)) {| claimed := ∅; configs := []; statuses := [];
    checks := {| last_verdicts := default ∅ (verdicts !! (gateway_ns cx, gateway_name cx)); now_verdicts := ∅ |} |} Hs (ordered_truthful _ _ _ H1))
    as (A1 & A2 & ca & A3 & A4).
  fold (collect_routes (G := http) cx (http_routes snapshot) {| last_verdicts := default ∅ (verdicts !! (gateway_ns cx, gateway_name cx)); now_verdicts := ∅ |} []) in A1, A2, A3.
  cbn [statuses configs claimed app] in A2, A3, A4. unfold reconcile_to_config. destruct (apply_rate_limit_policies _ _ _ _) as [limited ps].
  set (h := collect_routes (G := http) cx (http_routes snapshot) _ _) in *.
  destruct (collect_meets (G := tcp_gateway_route) cx Hcx truth (ordered_routes (G := tcp_gateway_route) cx (tcp_routes snapshot))
    {| claimed := ∅; configs := []; statuses := statuses h; checks := checks h |} A1 (ordered_truthful _ _ _ H2)) as (B1 & B2 & cb & B3 & B4).
  fold (collect_routes (G := tcp_gateway_route) cx (tcp_routes snapshot) (checks h) (statuses h)) in B1, B2, B3. cbn [statuses configs claimed app] in B2, B3, B4.
  set (t := collect_routes (G := tcp_gateway_route) cx (tcp_routes snapshot) _ _) in *.
  destruct (collect_meets (G := tls_gateway_route) cx Hcx truth (ordered_routes (G := tls_gateway_route) cx (tls_routes snapshot))
    {| claimed := ∅; configs := []; statuses := statuses t; checks := checks t |} B1 (ordered_truthful _ _ _ H3)) as (C1 & C2 & cc & C3 & C4).
  fold (collect_routes (G := tls_gateway_route) cx (tls_routes snapshot) (checks t) (statuses t)) in C1, C2, C3. cbn [statuses configs claimed app] in C2, C3, C4.
  set (s := collect_routes (G := tls_gateway_route) cx (tls_routes snapshot) _ _) in *.
  destruct (collect_meets (G := udp_gateway_route) cx Hcx truth (ordered_routes (G := udp_gateway_route) cx (udp_routes snapshot))
    {| claimed := ∅; configs := []; statuses := statuses s; checks := checks s |} C1 (ordered_truthful _ _ _ H4)) as (D1 & D2 & cd & D3 & D4).
  fold (collect_routes (G := udp_gateway_route) cx (udp_routes snapshot) (checks s) (statuses s)) in D1, D2, D3. cbn [statuses configs claimed app] in D2, D3, D4.
  set (u := collect_routes (G := udp_gateway_route) cx (udp_routes snapshot) _ _) in *.
  cbn [fst snd config cfg_http_routes cfg_tcp_routes cfg_tls_routes cfg_udp_routes route_status]. rewrite A3, B3, C3, D3.
  split_and!; [exact A4|exact B4|exact C4|exact D4| |].
  - rewrite D2, C2, B2, A2. by rewrite <- !app_assoc.
  - intros m Hm. assert (Some (now_verdicts (checks u)) = Some m) as [= <-] by (rewrite <- Hm; symmetry; apply lookup_insert_eq). apply D1.
Qed.

(** C4: a Gateway serves exactly the routes its listeners admit. For a
    Gateway with distinct listener names, and verdicts remembered for the
    specs they were taken of, the HTTP and TLS routes of its configuration
    are, in precedence order and one for each, the routes of the cluster
    that convert, pass the table build's check and have a listener that a
    parentRef selects, whose hostname they intersect and that allows their
    kind and namespace; each is attached to all such listeners and no other,
    and is otherwise its conversion with its references checked. The TCP and
    UDP routes are those the reference assigns, older routes first. The
    verdicts left behind are again those of the specs they were taken of. *)
Theorem reconcile_attaches_exactly (truth : list Z -> Z -> Verdict) (Hok : pass_ok truth) :
  let cfg := config result.1 in
  let admitted_by {R C} (G : GatewayRoute R C) (routes : list R) :=
    map (fun r => (r, List.filter (route_admitted cx r) (cx_listeners cx))) (ordered_routes cx routes) in
  Forall2 (carries (G := http) cx) (cfg_http_routes cfg) (List.filter (served (G := http)) (admitted_by http (http_routes snapshot)))
  /\ Forall2 (carries (G := tls_gateway_route) cx) (cfg_tls_routes cfg)
       (List.filter (served (G := tls_gateway_route)) (admitted_by tls_gateway_route (tls_routes snapshot)))
  /\ Forall2 (carries (G := tcp_gateway_route) cx) (cfg_tcp_routes cfg) (List.filter (served (G := tcp_gateway_route)) tcp_assigned)
  /\ Forall2 (carries (G := udp_gateway_route) cx) (cfg_udp_routes cfg) (List.filter (served (G := udp_gateway_route)) udp_assigned)
  /\ StronglySorted (fun a b => precedence (G := http) a b <> Gt) (ordered_routes (G := http) cx (http_routes snapshot))
  /\ (forall m, result.2 !! (gateway_ns cx, gateway_name cx) = Some m -> sound truth m).
Proof.
  destruct (reconcile_meets truth Hok) as (H1 & H2 & H3 & H4 & _ & H6). cbn zeta. split_and!.
  - rewrite <- (assigned_shared (G := http) cx _ eq_refl ∅). exact H1.
  - rewrite <- (assigned_shared (G := tls_gateway_route) cx _ eq_refl ∅). exact H3.
  - exact H2.
  - exact H4.
  - apply sort_by_sorted, _.
  - exact H6.
Qed.

(** C7: a TCP or UDP port goes to the oldest route admitted on it. No two TCP
    routes of the configuration hold listeners of one port; and on every
    port a TCP route of the cluster is admitted on there is one, none of
    them older: the one with the port precedes it, by creation and then by
    namespace and name, or is it. The same holds of UDP routes. *)
Theorem oldest_route_takes_port (truth : list Z -> Z -> Verdict) (Hok : pass_ok truth) :
  let cfg := config result.1 in
  let exclusive (winners : list (L4Route * list GatewayListeners)) :=
    forall i j a b l l', i <> j -> winners !! i = Some a -> winners !! j = Some b -> l ∈ a.2 -> l' ∈ b.2 -> gl_port l <> gl_port l' in
  let oldest (G : GatewayRoute L4Route TcpRouteConfig) (routes : list L4Route) (winners : list (L4Route * list GatewayListeners)) :=
    forall r l, r ∈ routes -> l ∈ cx_listeners cx -> route_admitted cx r l = true ->
      exists w l', w ∈ winners /\ l' ∈ w.2 /\ gl_port l' = gl_port l /\ precedence w.1 r <> Gt in
  (exists winners, Forall2 (carries (G := tcp_gateway_route) cx) (cfg_tcp_routes cfg) winners
     /\ exclusive winners /\ oldest tcp_gateway_route (tcp_routes snapshot) winners)
  /\ (exists winners, Forall2 (carries (G := udp_gateway_route) cx) (cfg_udp_routes cfg) winners
     /\ exclusive winners /\ oldest udp_gateway_route (udp_routes snapshot) winners).
Proof.
  destruct (reconcile_meets truth Hok) as (_ & H2 & _ & H4 & _). cbn zeta. split.
  - destruct (one_winner (G := tcp_gateway_route) cx eq_refl (tcp_routes snapshot)) as [E O]; [done|]. eexists. split; [exact H2|]. done.
  - destruct (one_winner (G := udp_gateway_route) cx eq_refl (udp_routes snapshot)) as [E O]; [done|]. eexists. split; [exact H4|]. done.
Qed.

(** C8: the status says what is served. Every parentRef of a route that names
    the Gateway gets one entry, kind by kind and in precedence order; the
    entry says Accepted just when the route is in the configuration attached
    to a listener this very parentRef selects and that admits it, never on
    the strength of another parentRef, and names every listener that admits
    the parentRef; where it does not, the reason is the route's own invalid
    part, that an older route holds every such port, or the most specific
    rejection among the listeners selected. *)
Theorem route_status_exact (truth : list Z -> Z -> Verdict) (Hok : pass_ok truth) :
  let cfg := config result.1 in
  route_status result.1 = entries (G := http) cx http_assigned ++ entries (G := tcp_gateway_route) cx tcp_assigned
    ++ entries (G := tls_gateway_route) cx tls_assigned ++ entries (G := udp_gateway_route) cx udp_assigned
  /\ tells http cx (cfg_http_routes cfg) http_assigned
  /\ tells tcp_gateway_route cx (cfg_tcp_routes cfg) tcp_assigned
  /\ tells tls_gateway_route cx (cfg_tls_routes cfg) tls_assigned
  /\ tells udp_gateway_route cx (cfg_udp_routes cfg) udp_assigned.
Proof.
  destruct (reconcile_meets truth Hok) as (H1 & H2 & H3 & H4 & H5 & _). cbn zeta. split; [exact H5|]. split_and!; by apply entries_tell.
Qed.

(** C5: no route reaches a Service it may not name. With namespaces that are
    DNS labels, every backendRef of the configuration comes from its route's
    spec, and is valid just when it names a core Service that exists and is
    in the route's namespace, or is granted to routes of that kind and
    namespace by a ReferenceGrant of the Service's namespace; one that does
    not is marked invalid, and the mirrors that do not are gone. So is it
    for the TCP, TLS and UDP routes. *)
Theorem references_are_permitted (truth : list Z -> Z -> Verdict) (Hok : pass_ok truth)
  (Hhttp : forall r, r ∈ http_routes snapshot -> namespaces_are_labels (G := http) r)
  (Htcp : forall r, r ∈ tcp_routes snapshot -> namespaces_are_labels (G := tcp_gateway_route) r)
  (Htls : forall r, r ∈ tls_routes snapshot -> namespaces_are_labels (G := tls_gateway_route) r)
  (Hudp : forall r, r ∈ udp_routes snapshot -> namespaces_are_labels (G := udp_gateway_route) r) :
  let cfg := config result.1 in
  (forall c, c ∈ cfg_http_routes cfg -> exists r, r ∈ http_routes snapshot /\ refs_checked (G := http) cx r c)
  /\ (forall c, c ∈ cfg_tcp_routes cfg -> exists r, r ∈ tcp_routes snapshot /\ refs_checked (G := tcp_gateway_route) cx r c)
  /\ (forall c, c ∈ cfg_tls_routes cfg -> exists r, r ∈ tls_routes snapshot /\ refs_checked (G := tls_gateway_route) cx r c)
  /\ (forall c, c ∈ cfg_udp_routes cfg -> exists r, r ∈ udp_routes snapshot /\ refs_checked (G := udp_gateway_route) cx r c).
Proof.
  destruct (reconcile_meets truth Hok) as (H1 & H2 & H3 & H4 & _). cbn zeta.
  split_and!; intros c Hc; [eapply (carried_route (G := http)) in Hc|eapply (carried_route (G := tcp_gateway_route)) in Hc
    |eapply (carried_route (G := tls_gateway_route)) in Hc|eapply (carried_route (G := udp_gateway_route)) in Hc]; try eassumption;
    destruct Hc as (r & ls & Hr & _ & _ & Hcar); exists r; (split; [done|]); by eapply carried_refs_checked; eauto.
Qed.

End Pass.

(** ** At work *)

#[local] Existing Instance literal_regex.
#[local] Existing Instance literal_syntax.

Definition named (ns name : list Z) (age : Z) : ObjectMeta :=
  {| meta_name := Some name; meta_namespace := Some ns; meta_uid := Some name; meta_generation := Some 1; creation_timestamp := Some age |}.

Definition to_gateway (section : option (list Z)) : ParentReference :=
  {| ref_name := bs "gw"; ref_section_name := section; ref_group := None; ref_kind := None; ref_namespace := None; ref_port := None |}.

Definition to_service (name : list Z) (ns : option (list Z)) : BackendRefSpec :=
  {| brs_name := name; brs_namespace := ns; brs_port := Some 80; brs_weight := None; brs_group := None; brs_kind := None; brs_filters := None |}.

(** One of its backends is in another namespace, without a grant. *)
Definition sample_http_route : HTTPRoute := {|
  hr_metadata := named (bs "edge") (bs "site") 5;
  hr_parent_refs := Some [to_gateway (Some (bs "web")); to_gateway (Some (bs "alt"))];
  hr_hostnames := Some [bs "a.example"];
  hr_rules := Some [{| rule_matches := None; rule_filters := None;
                       rule_backend_refs := Some [to_service (bs "app") None; to_service (bs "app") (Some (bs "other"))]; rule_timeouts := None |}];
|}.

Definition sample_tcp_route (name : list Z) (age : Z) : L4Route := {|
  lr_metadata := named (bs "edge") name age;
  lr_parent_refs := Some [to_gateway (Some (bs "raw"))];
  lr_rules := [[to_service (bs "app") None]];
|}.

Definition sample_gw : Gateway := {|
  gw_metadata := named (bs "edge") (bs "gw") 1;
  gw_addresses := None;
  gw_listeners := plain_listener (bs "raw") 9000 (bs "TCP") None :: sample_gateway_listeners;
|}.

Definition sample_policy (name : list Z) (section : option (list Z)) (rps age : Z) : RateLimitPolicy := {|
  rlp_name := name; rlp_metadata := named (bs "edge") name age; tgt_group := []; tgt_kind := bs "Gateway"; tgt_name := bs "gw";
  tgt_section_name := section; rlp_requests_per_second := rps; rlp_burst := None;
|}.

Definition sample_policies : list RateLimitPolicy :=
  [sample_policy (bs "newer") None 5 200; sample_policy (bs "older") None 1 100; sample_policy (bs "web") (Some (bs "web")) 2 300].

Definition sample_snapshot : ClusterSnapshot := {|
  http_routes := [sample_http_route];
  tcp_routes := [sample_tcp_route (bs "young") 9; sample_tcp_route (bs "old") 2];
  tls_routes := [];
  udp_routes := [];
  cs_namespace_labels := ∅;
  cs_reference_grants := [];
  rate_limit_policies := sample_policies;
|}.

Definition sample_services : ServiceState := {|
  ss_known_services := {[(bs "app", bs "edge"); (bs "app", bs "other")]};
  ss_endpoint_overrides := ∅; ss_app_protocol_overrides := ∅; ss_headless_target_ports := ∅;
|}.

Definition no_durations (s : list Z) : option Z := None.

Definition sample_truth (uid : list Z) (g : Z) : Verdict := Ok tt.

Definition sample_result := reconcile_to_config no_durations sample_gw sample_snapshot ∅ sample_services ∅.

Lemma sample_pass_ok : pass_ok no_durations sample_gw sample_snapshot sample_services ∅ sample_truth.
Proof.
  split.
  - apply NoDup_ListNoDup. cbv. repeat constructor; cbn; intuition discriminate.
  - intros m H. by apply lookup_empty_Some in H.
  - apply Forall_singleton. intros uid g _ _. vm_compute. reflexivity.
  - repeat constructor.
  - constructor.
  - constructor.
Qed.


Lemma reconcile_attaches_exactly_witness :
  map (fun c => omap section_name (h_parent_refs c)) (cfg_http_routes (config sample_result.1)) = [[bs "web"]]
  /\ Forall2 (carries (G := http_gateway_route no_durations) (reconcile_cx sample_gw sample_snapshot sample_services))
       (cfg_http_routes (config sample_result.1))
       (List.filter (served (G := http_gateway_route no_durations))
          (map (fun r => (r, List.filter (route_admitted (G := http_gateway_route no_durations) (reconcile_cx sample_gw sample_snapshot sample_services) r)
                               (cx_listeners (reconcile_cx sample_gw sample_snapshot sample_services))))
             (ordered_routes (G := http_gateway_route no_durations) (reconcile_cx sample_gw sample_snapshot sample_services) [sample_http_route]))).
Proof.
  split; [vm_compute; reflexivity|].
  apply (reconcile_attaches_exactly no_durations sample_gw sample_snapshot ∅ sample_services ∅ sample_truth sample_pass_ok).
Defined.

Lemma oldest_route_takes_port_witness : exists w : L4Route * list GatewayListeners, exists l',
  l' ∈ w.2 /\ gl_port l' = 9000 /\ precedence (G := tcp_gateway_route) w.1 (sample_tcp_route (bs "young") 9) <> Gt.
Proof.
  destruct (oldest_route_takes_port no_durations sample_gw sample_snapshot ∅ sample_services ∅ sample_truth sample_pass_ok) as [(ws & _ & _ & H) _].
  destruct (H (sample_tcp_route (bs "young") 9) (plain_listener (bs "raw") 9000 (bs "TCP") None)) as (w & l' & _ & H1 & H2 & H3).
  - by left.
  - apply list_elem_of_In. vm_compute. by left.
  - vm_compute. reflexivity.
  - exists w, l'. done.
Defined.

Lemma route_status_exact_witness :
  map (fun e => (ra_name e, accepted e)) (route_status sample_result.1)
    = [(bs "site", true); (bs "site", false); (bs "old", true); (bs "young", false)]
  /\ tells tcp_gateway_route (reconcile_cx sample_gw sample_snapshot sample_services) (cfg_tcp_routes (config sample_result.1))
       (tcp_assigned sample_gw sample_snapshot sample_services).
Proof.
  split; [vm_compute; reflexivity|].
  apply (route_status_exact no_durations sample_gw sample_snapshot ∅ sample_services ∅ sample_truth sample_pass_ok).
Defined.

Lemma references_are_permitted_witness :
  map br_invalid (flat_map backend_refs (flat_map h_rules (cfg_http_routes (config sample_result.1)))) = [false; true]
  /\ forall c, c ∈ cfg_http_routes (config sample_result.1) -> exists r, r ∈ http_routes sample_snapshot
       /\ refs_checked (G := http_gateway_route no_durations) (reconcile_cx sample_gw sample_snapshot sample_services) r c.
Proof.
  split; [vm_compute; reflexivity|].
  assert (Hl4 : forall r, r ∈ tcp_routes sample_snapshot -> l4_refs (lr_rules r) = [(bs "app", None)] /\ route_namespace (lr_metadata r) = bs "edge").
  { intros r H. apply list_elem_of_In in H. cbn in H. by destruct H as [<-|[<-|[]]]. }
  apply (references_are_permitted no_durations sample_gw sample_snapshot ∅ sample_services ∅ sample_truth sample_pass_ok).
  - intros r H svc ns Hs. apply list_elem_of_In in H, Hs. cbn in H. destruct H as [<-|[]]. cbn in Hs.
    destruct Hs as [[= <- <-]|[[= <- <-]|[]]]; cbn; repeat constructor; done.
  - intros r H svc ns Hs. destruct (Hl4 r H) as [E En]. cbn in Hs. rewrite E in Hs. apply list_elem_of_In in Hs. destruct Hs as [[= <- <-]|[]].
    unfold route_ns. cbn. rewrite En. repeat constructor; done.
  - intros r H. by apply not_elem_of_nil in H.
  - intros r H. by apply not_elem_of_nil in H.
Defined.
