(* ===== verification/ReconciledTable.v ===== *)
(** * Reconciled routes in the table

    The table build over a reconciled configuration: every route compiles,
    finds the listeners it was accepted on and no other, with a hostname on
    each; and the rate limits the policies gave the listeners. *)

From S2P Require Import Prelude Bytes PathNorm Routing RouteBuild Config AcceptedFilters ConfigTable Validation Snapshot GatewayApi Converters Reconcile ReconcileSpec Reconciled.

(** ** The table serves what was accepted *)

Lemma lower_fixed b c : is_ascii_alphabetic c = false -> to_ascii_lowercase b = c <-> b = c.
Proof. unfold to_ascii_lowercase, is_ascii_alphabetic, is_ascii_uppercase, is_ascii_lowercase. intros H. split; intros E; repeat case_match; bool_simpl; lia. Qed.

Lemma strip_wild_lowercase a : strip_prefix WILD (lowercase a) = lowercase <$> strip_prefix WILD a.
Proof.
  unfold WILD, lowercase. destruct a as [|x [|y a]]; cbn [strip_prefix map]; [done| |].
  - by destruct (42 =? x), (42 =? to_ascii_lowercase x).
  - assert (Hx : (42 =? to_ascii_lowercase x) = (42 =? x)) by (pose proof (lower_fixed x 42 eq_refl); lia).
    assert (Hy : (46 =? to_ascii_lowercase y) = (46 =? y)) by (pose proof (lower_fixed y 46 eq_refl); lia). rewrite Hx, Hy. by destruct (42 =? x), (46 =? y).
Qed.

Lemma wildcard_covers_lowercase p h : wildcard_covers p h = true -> wildcard_covers (lowercase p) (lowercase h) = true.
Proof.
  unfold wildcard_covers. rewrite !length_lowercase. intros [[[r ->]%ends_with_spec Hl]%andb_true_iff Hd]%andb_true_iff.
  rewrite !andb_true_iff. split_and!; [|done|].
  - apply ends_with_spec. exists (lowercase r). apply lowercase_app.
  - apply bool_decide_eq_true in Hd. apply bool_decide_eq_true. unfold lowercase. rewrite list_lookup_fmap, Hd. done.
Qed.

Lemma hostnames_intersect_lowercase a b : Routing.hostnames_intersect a b = true -> hostname_matches a b = true.
Proof.
  unfold hostname_matches, Routing.hostnames_intersect. rewrite !strip_wild_lowercase.
  destruct (strip_prefix WILD a) as [pa|], (strip_prefix WILD b) as [pb|]; cbn [fmap option_fmap option_map].
  - rewrite !orb_true_iff, !beq_true. intros [[->|H]|H]; auto using wildcard_covers_lowercase.
  - apply wildcard_covers_lowercase.
  - apply wildcard_covers_lowercase.
  - rewrite !beq_true. by intros ->.
Qed.

Lemma intersecting_hostnames_effective lh hs : hostnames_intersect lh hs = true -> effective_hostnames lh hs <> [].
Proof.
  unfold hostnames_intersect, effective_hostnames, intersect_hostnames. destruct hs as [|h hs]; [done|]. cbn [is_nil]. destruct lh as [lh|]; [|done].
  intros (x & Hx & Hi)%elem_of_existsb. apply hostnames_intersect_lowercase in Hi.
  assert (H : x ∈ List.filter (hostname_matches lh) (h :: hs)) by (by apply elem_of_filter_b).
  destruct (List.filter _ _); [by apply not_elem_of_nil in H|done].
Qed.

(** ** The Gateway's listeners *)

Section Listeners.
Context {RE : RegexEngine} {RS : RegexSyntax} (parse_duration : list Z -> option Z).
Context (gw : Gateway) (snapshot : ClusterSnapshot) (cert_data : CertData) (services : ServiceState) (verdicts : RouteVerdicts).

Abbreviation cx := (reconcile_cx gw snapshot services).
Abbreviation cfg := (config (reconcile_to_config parse_duration gw snapshot cert_data services verdicts).1).

(** A listener of the configuration and the Gateway's it comes from. *)
Definition comes_from (lc : ListenerConfig) (l : GatewayListeners) : Prop :=
  l_name lc = gl_name l /\ convert_protocol (gl_protocol l) = Some (l_protocol lc) /\ l_port lc = as_u16 (gl_port l) /\ l_hostname lc = gl_hostname l
  /\ (gl_protocol l = bs "TLS" -> is_tls_passthrough lc = true).

Lemma convert_listener_from l ns lc : convert_listener l ns cert_data = Some lc -> listener_is_served l = true /\ comes_from lc l.
Proof.
  unfold convert_listener. destruct (convert_protocol (gl_protocol l)) as [p|] eqn:Ep; [|done]. cbn [mbind option_bind].
  destruct (listener_is_served l) eqn:Es; [|done]. intros [= <-]. split; [done|]. unfold comes_from. cbn. split_and!; try done.
  intros Et. unfold listener_is_served in Es. rewrite Et in Es, Ep. cbn in Es, Ep. injection Ep as <-.
  unfold is_tls_passthrough. cbn. destruct (gl_tls l) as [t|]; [|done]. cbn. apply bool_decide_eq_true in Es. by rewrite Es.
Qed.

Lemma convert_listener_served l ns : listener_is_served l = true -> exists lc, convert_listener l ns cert_data = Some lc.
Proof.
  intros H. unfold convert_listener. rewrite H. unfold listener_is_served in H.
  assert (Hp : exists p, convert_protocol (gl_protocol l) = Some p); [|destruct Hp as [p ->]; cbn; by eexists].
  destruct (existsb _ _) eqn:E.
  - apply elem_of_existsb in E as (x & Hx & E%beq_true). rewrite E. rewrite !elem_of_cons in Hx.
    destruct Hx as [->|[->|[->|[->|Hx]]]]; [by eexists..|]. by apply not_elem_of_nil in Hx.
  - destruct (beq (gl_protocol l) (bs "TLS")) eqn:Et; [|done]. apply beq_true in Et. rewrite Et. by eexists.
Qed.

Lemma limited_from ordered lc l : comes_from (limit_listener ordered lc) l <-> comes_from lc l.
Proof. unfold comes_from, limit_listener, is_tls_passthrough. by destruct (winner ordered (l_name lc)). Qed.

(** The configuration's listeners are the Gateway's distinct ones that are served. *)
Lemma config_listeners : exists lcs ordered,
  listeners (gateway cfg) = map (limit_listener ordered) lcs
  /\ (forall lc, lc ∈ lcs -> exists l, l ∈ cx_listeners cx /\ comes_from lc l)
  /\ (forall l, l ∈ cx_listeners cx -> listener_is_served l = true -> exists lc, lc ∈ lcs /\ comes_from lc l)
  /\ (NoDup (map gl_name (gw_listeners gw)) -> NoDup (map l_name lcs)).
Proof.
  set (ns := default (bs "default") (meta_namespace (gw_metadata gw))). set (conflicts := listener_conflicts (gw_listeners gw)).
  exists (List.filter (fun l => negb (is_some (conflicts !! l_name l))) (omap (fun l => convert_listener l ns cert_data) (gw_listeners gw))).
  exists (ordered_policies (rate_limit_policies snapshot) (gateway_ns cx) (gateway_name cx)). split_and!.
  - unfold reconcile_to_config. done.
  - intros lc [Hin Hc]%elem_of_filter_b. apply list_elem_of_omap in Hin as (l & Hl & E). apply convert_listener_from in E as [_ Hf]. exists l.
    split; [|done]. apply elem_of_filter_b. split; [done|]. destruct Hf as [Hn _]. by rewrite <- Hn.
  - intros l [Hl Hc]%elem_of_filter_b Hs. destruct (convert_listener_served l ns Hs) as [lc E]. exists lc. pose proof (convert_listener_from _ _ _ E) as [_ Hf].
    split; [|done]. apply elem_of_filter_b. split; [apply list_elem_of_omap; by exists l|]. destruct Hf as [Hn _]. by rewrite Hn.
  - intros Hnd. apply NoDup_map_filter. clear -Hnd. induction (gw_listeners gw) as [|l ls IH]; [constructor|]. cbn [map] in Hnd.
    apply NoDup_cons in Hnd as [Hl Hnd]. cbn [omap list_omap]. destruct (convert_listener l ns cert_data) as [lc|] eqn:E; [|by apply IH].
    cbn [map]. apply NoDup_cons. split; [|by apply IH]. intros (lc' & Hin & En)%elem_of_map. apply list_elem_of_omap in Hin as (l' & Hl' & E').
    apply convert_listener_from in E as [_ [Hn _]], E' as [_ [Hn' _]]. apply Hl, elem_of_map. exists l'. split; [done|]. congruence.
Qed.

(** The listeners a carried configuration finds are those its route got. *)
Lemma found_listeners refs ls : NoDup (map gl_name (gw_listeners gw)) -> refs ≡ₚ map (fun l => listener_ref cx (gl_name l)) ls ->
  (forall l, l ∈ ls -> l ∈ cx_listeners cx /\ listener_is_served l = true) ->
  (forall lc, lc ∈ find_listeners_for_route refs (gateway cfg) -> exists l, l ∈ ls /\ comes_from lc l)
  /\ (forall l, l ∈ ls -> exists lc, lc ∈ find_listeners_for_route refs (gateway cfg) /\ comes_from lc l).
Proof.
  intros Hnd Hrefs Hls. destruct config_listeners as (lcs & ordered & E & Hfrom & Hto & Hn). specialize (Hn Hnd).
  assert (Hname : forall lc, l_name (limit_listener ordered lc) = l_name lc) by (intros lc; unfold limit_listener; by destruct (winner ordered (l_name lc))).
  assert (Hnames : NoDup (map l_name (listeners (gateway cfg)))).
  { rewrite E, map_map. erewrite map_ext; [exact Hn|done]. }
  assert (Hsel : forall lc, (exists pr, pr ∈ refs /\ selects pr lc = true) <-> exists l, l ∈ ls /\ gl_name l = l_name lc).
  { intros lc. setoid_rewrite Hrefs. setoid_rewrite elem_of_map. unfold selects, listener_ref. split.
    - intros (pr & (l & Hl & <-) & Hs). cbn in Hs. rewrite andb_true_r in Hs. apply beq_true in Hs. by exists l.
    - intros (l & Hl & Ee). eexists. split; [by exists l|]. cbn. rewrite andb_true_r. by apply beq_true. }
  split.
  - intros lc Hlc. apply (find_listeners_exact _ _ _ Hnames) in Hlc as [Hin (l & Hl & Ee)%Hsel]. exists l. split; [done|].
    rewrite E in Hin. apply elem_of_map in Hin as (lc0 & Hin & <-). apply limited_from. destruct (Hfrom lc0 Hin) as (l' & Hl' & Hc).
    assert (l' = l) as ->; [|done]. destruct (Hls l Hl) as [Hlin _]. eapply (listener_by_name cx (cx_names gw snapshot services Hnd)); try done.
    destruct Hc as [Hc _]. rewrite Hname in Ee. congruence.
  - intros l Hl. destruct (Hls l Hl) as [Hin Hs]. destruct (Hto l Hin Hs) as (lc & Hlc & Hc). exists (limit_listener ordered lc).
    split; [|by apply limited_from]. apply (find_listeners_exact _ _ _ Hnames). split; [rewrite E; apply elem_of_map; by exists lc|].
    apply Hsel. exists l. split; [done|]. rewrite Hname. destruct Hc as [Hc _]. done.
Qed.

(** ** Accepted routes are served *)

Lemma admitted_facts {R C} {G : GatewayRoute R C} (cx : RouteCollectCtx) (r : R) l : route_admitted cx r l = true ->
  listener_is_served l = true /\ protocol_allows (gl_protocol l) KIND = true /\ hostnames_intersect (gl_hostname l) (route_hostnames r) = true.
Proof.
  intros (pr & _ & Ha)%elem_of_existsb. unfold ref_admitted, admits in Ha. apply andb_true_iff in Ha as [[_ Hh]%andb_true_iff Ha].
  unfold is_route_allowed_by_listener in Ha. destruct (listener_is_served l); [|done]. cbn in Ha.
  by destruct (protocol_allows (gl_protocol l) KIND).
Qed.

(** The listeners the table build takes for a kind, as a kind's routes find them. *)
Definition scopes_of {R C} (G : GatewayRoute R C) (takes : ListenerConfig -> bool) (c : C) : list ListenerConfig :=
  List.filter takes (find_listeners_for_route (attached_refs c) (gateway cfg)).

Definition served_where_admitted {R C} (G : GatewayRoute R C) (takes : ListenerConfig -> bool) (routes : list R) (c : C) : Prop :=
  exists r ls, r ∈ routes /\ carries cx c (r, ls) /\ ls <> []
    /\ (forall l, l ∈ ls -> l ∈ cx_listeners cx /\ route_admitted cx r l = true)
    /\ (forall l, l ∈ ls -> exists lc, lc ∈ scopes_of G takes c /\ comes_from lc l)
    /\ (forall lc, lc ∈ scopes_of G takes c -> effective_hostnames (l_hostname lc) (route_hostnames r) <> [] /\ exists l, l ∈ ls /\ comes_from lc l).

Lemma carried_is_served {R C} (G : GatewayRoute R C) {L : GatewayRouteLaws G} takes (routes : list R) configs taken c :
  NoDup (map gl_name (gw_listeners gw)) ->
  (forall lc l, comes_from lc l -> protocol_allows (gl_protocol l) KIND = true -> takes lc = true) ->
  Forall2 (carries cx) configs (List.filter served (assigned cx taken (ordered_routes cx routes))) -> c ∈ configs ->
  served_where_admitted G takes routes c /\ check c = Ok tt.
Proof.
  intros Hnd Htakes HF Hc. destruct (carried_route cx configs routes taken c HF Hc) as (r & ls & Hr & Hs & Hls & Hcar).
  unfold served in Hs. apply andb_true_iff in Hs as [Hv Hne]. split; [|by eapply carried_checks].
  pose proof Hcar as (refs & E & Hrefs). cbn [fst snd] in Hrefs.
  assert (Hserved : forall l, l ∈ ls -> l ∈ cx_listeners cx /\ listener_is_served l = true).
  { intros l Hl. destruct (Hls l Hl) as [Hin Ha]. split; [done|]. by apply admitted_facts in Ha as [? _]. }
  destruct (found_listeners refs ls Hnd Hrefs Hserved) as [Hfrom Hto].
  assert (Har : attached_refs c = refs) by (rewrite E; apply refs_attach).
  exists r, ls. unfold scopes_of. rewrite Har. split_and!; [done|done|by destruct ls|done| |].
  - intros l Hl. destruct (Hto l Hl) as (lc & Hlc & Hf). exists lc. split; [|done]. apply elem_of_filter_b. split; [done|].
    destruct (Hls l Hl) as [_ (_ & Hp & _)%admitted_facts]. by eapply Htakes.
  - intros lc [Hlc _]%elem_of_filter_b. destruct (Hfrom lc Hlc) as (l & Hl & Hf). split; [|by exists l].
    destruct (Hls l Hl) as [_ (_ & _ & Hh)%admitted_facts]. destruct Hf as (_ & _ & _ & -> & _). by apply intersecting_hostnames_effective.
Qed.

Lemma kind_protocols lc l kind : comes_from lc l -> protocol_allows (gl_protocol l) kind = true ->
  (kind = bs "HTTPRoute" -> takes_http_routes lc = true)
  /\ (kind = bs "TCPRoute" -> takes_l4 false lc = true)
  /\ (kind = bs "UDPRoute" -> takes_l4 true lc = true)
  /\ (kind = bs "TLSRoute" -> is_tls_passthrough lc = true).
Proof.
  intros (_ & Hp & _ & _ & Ht). unfold protocol_allows, convert_protocol in *. unfold takes_http_routes, takes_l4. intros Ha.
  repeat match type of Hp with (if beq ?a ?b then _ else _) = _ => destruct (beq a b) eqn:?; [injection Hp as <-|] end; cbn in Ha;
    repeat match goal with H : beq _ _ = true |- _ => apply beq_true in H end; subst; cbn; split_and!; try done; try (intros ->; done).
  intros _. by apply Ht.
Qed.

(** C6: what the controller accepts, the data plane serves. Every HTTP route
    of a reconciled configuration compiles, so the table build leaves none
    out; the listeners the build finds for it are the ones it was accepted
    on, at least one, each with its name, port, protocol and hostname, and
    on each of them the route has a hostname to serve. TCP, UDP and TLS
    routes find theirs as well, TLS routes on passthrough listeners only. *)
Theorem accepted_routes_are_served (truth : list Z -> Z -> Verdict) (Hok : pass_ok parse_duration gw snapshot services verdicts truth) :
  (forall c, c ∈ cfg_http_routes cfg -> (exists crs, compile_http_route c = Ok crs)
     /\ served_where_admitted (http_gateway_route parse_duration) takes_http_routes (http_routes snapshot) c)
  /\ (forall c, c ∈ cfg_tcp_routes cfg -> served_where_admitted tcp_gateway_route (takes_l4 false) (tcp_routes snapshot) c)
  /\ (forall c, c ∈ cfg_udp_routes cfg -> served_where_admitted udp_gateway_route (takes_l4 true) (udp_routes snapshot) c)
  /\ (forall c, c ∈ cfg_tls_routes cfg -> served_where_admitted tls_gateway_route is_tls_passthrough (tls_routes snapshot) c).
Proof.
  destruct (reconcile_meets parse_duration gw snapshot cert_data services verdicts truth Hok) as (H1 & H2 & H3 & H4 & _).
  pose proof (po_names _ _ _ _ _ _ Hok) as Hnd. split_and!; intros c Hc.
  - destruct (carried_is_served (http_gateway_route parse_duration) takes_http_routes _ _ _ c Hnd
      (fun lc l Hf Hp => proj1 (kind_protocols lc l _ Hf Hp) eq_refl) H1 Hc) as [Hs Hck]. split; [|done].
    cbn in Hck. unfold check_http_route in Hck. destruct (compile_http_route c) as [crs|e]; [by exists crs|done].
  - apply (carried_is_served tcp_gateway_route (takes_l4 false) _ _ _ c Hnd) with (2 := H2) (3 := Hc). intros lc l Hf Hp. by apply (kind_protocols lc l _ Hf Hp).
  - apply (carried_is_served udp_gateway_route (takes_l4 true) _ _ _ c Hnd) with (2 := H4) (3 := Hc). intros lc l Hf Hp. by apply (kind_protocols lc l _ Hf Hp).
  - apply (carried_is_served tls_gateway_route is_tls_passthrough _ _ _ c Hnd) with (2 := H3) (3 := Hc). intros lc l Hf Hp. by apply (kind_protocols lc l _ Hf Hp).
Qed.

End Listeners.

(** ** Rate limit policies *)

Lemma bytes_compare_eq a b : bytes_compare a b = Eq -> a = b.
Proof.
  revert b. induction a as [|x a IH]; intros [|y b]; cbn; try done. destruct (Z.compare_spec x y); cbn; try done. subst. intros H. by rewrite (IH _ H).
Qed.

(** The first that fits of a sorted list precedes every other that fits. *)
Lemma find_sorted {A} (cmp : A -> A -> comparison) {O : Ordering cmp} (p : A -> bool) l x : StronglySorted (fun x y => cmp x y <> Gt) l ->
  find p l = Some x -> x ∈ l /\ p x = true /\ forall y, y ∈ l -> p y = true -> cmp x y <> Gt.
Proof.
  induction 1 as [|a l Hs IH Hall]; cbn [find]; [done|]. setoid_rewrite elem_of_cons. destruct (p a) eqn:E.
  - intros [= <-]. split_and!; [by left|done|]. intros y [->|Hy] _; [|rewrite Forall_forall in Hall; by apply Hall].
    pose proof (ordering_flip a a). destruct (cmp a a); done.
  - intros Hf. destruct (IH Hf) as (H1 & H2 & H3). split_and!; [by right|done|]. intros y [->|Hy] Hp; [congruence|auto].
Qed.

Section Policies.
Context (policies : list RateLimitPolicy) (gw_ns gw_name : list Z).

(** The oldest of the policies that target the Gateway with this sectionName. *)
Definition oldest_policy (section : option (list Z)) (p : RateLimitPolicy) : Prop :=
  let fits q := q ∈ policies /\ targets_gateway q gw_ns gw_name = true /\ tgt_section_name q = section in
  fits p /\ forall q, fits q -> policy_compare p q <> Gt.

(** The policy of a listener: its section's, else the Gateway's. *)
Definition governs (p : RateLimitPolicy) (l : ListenerConfig) : Prop :=
  oldest_policy (Some (l_name l)) p
  \/ oldest_policy None p /\ forall q, q ∈ policies -> targets_gateway q gw_ns gw_name = true -> tgt_section_name q <> Some (l_name l).

Definition with_rate_limit (l : ListenerConfig) (p : RateLimitPolicy) : ListenerConfig :=
  {| l_name := l_name l; l_protocol := l_protocol l; l_port := l_port l; l_target_port := l_target_port l; l_hostname := l_hostname l;
     l_address := l_address l; l_interface := l_interface l; l_tls := l_tls l;
     l_rate_limit := Some {| requests_per_second := rlp_requests_per_second p; spec_burst := Some (policy_burst p) |} |}.

Abbreviation ordered := (ordered_policies policies gw_ns gw_name).

Lemma elem_of_ordered_policies p : p ∈ ordered <-> p ∈ policies /\ targets_gateway p gw_ns gw_name = true.
Proof. unfold ordered_policies. by rewrite sort_by_perm, elem_of_filter_b. Qed.

Lemma find_policy section : match find (of_section section) ordered with
  | Some p => oldest_policy section p
  | None => forall q, q ∈ policies -> targets_gateway q gw_ns gw_name = true -> tgt_section_name q <> section
  end.
Proof.
  destruct (find _ ordered) as [p|] eqn:E.
  - apply (find_sorted policy_compare) in E as ([H1 H2]%elem_of_ordered_policies & H3%bool_decide_eq_true & H4); [|apply sort_by_sorted, _].
    split; [done|]. intros q (Q1 & Q2 & Q3). apply H4; [by apply elem_of_ordered_policies|by apply bool_decide_eq_true].
  - intros q Q1 Q2 Q3. pose proof (find_none _ _ E q ltac:(by apply list_elem_of_In, elem_of_ordered_policies)) as Hf. cbn in Hf.
    by apply bool_decide_eq_false in Hf.
Qed.

Abbreviation find_section section := (find (of_section section) ordered).

Lemma winner_governs l p : winner ordered (l_name l) = Some p -> governs p l.
Proof.
  unfold winner. pose proof (find_policy (Some (l_name l))) as H1. pose proof (find_policy None) as H2.
  destruct (find_section (Some (l_name l))) as [q|]; [intros [= <-]; by left|]. destruct (find_section None) as [q|]; [|done]. intros [= <-]. by right.
Qed.

Context (Hnames : NoDup (map rlp_name (List.filter (fun p => targets_gateway p gw_ns gw_name) policies))).

Lemma policy_by_name p q : p ∈ policies -> q ∈ policies -> targets_gateway p gw_ns gw_name = true -> targets_gateway q gw_ns gw_name = true ->
  rlp_name p = rlp_name q -> p = q.
Proof using Hnames. intros. eapply (NoDup_map_inj rlp_name); [exact Hnames| | |done]; by apply elem_of_filter_b. Qed.

Lemma oldest_unique section p q : oldest_policy section p -> oldest_policy section q -> p = q.
Proof using Hnames.
  intros [(P1 & P2 & P3) Pold] [(Q1 & Q2 & Q3) Qold]. pose proof (Pold q ltac:(done)) as Hpq. pose proof (Qold p ltac:(done)) as Hqp.
  rewrite (ordering_flip (cmp := policy_compare)) in Hqp. assert (E : policy_compare p q = Eq) by (destruct (policy_compare p q); done).
  unfold policy_compare, then_with in E. destruct (option_compare _ _); try done. apply bytes_compare_eq in E.
  by apply policy_by_name.
Qed.

Lemma governs_winner l p : governs p l <-> winner ordered (l_name l) = Some p.
Proof using Hnames.
  split; [|apply winner_governs]. unfold winner. pose proof (find_policy (Some (l_name l))) as H1. pose proof (find_policy None) as H2.
  intros [H|[H Hno]].
  - destruct (find_section (Some (l_name l))) as [q|]; [f_equal; by eapply oldest_unique|]. destruct H as [(P1 & P2 & P3) _]. by destruct (H1 p).
  - destruct (find_section (Some (l_name l))) as [q|]; [destruct H1 as [(Q1 & Q2 & Q3) _]; by destruct (Hno q)|].
    destruct (find_section None) as [q|]; [f_equal; by eapply oldest_unique|]. destruct H as [(P1 & P2 & P3) _]. by destruct (H2 p).
Qed.

(** Each listener is limited by the policy it should be. A listener gets
    the limit of the oldest policy naming it, else of the oldest naming the
    whole Gateway, by creation and then by name, and is otherwise left as it
    is; policies of other Gateways and namespaces limit nothing. Every
    policy that targets the Gateway gets one status, oldest first: Accepted
    just when it governs a listener, TargetNotFound just when it names a
    listener that is not there, and Conflicted otherwise. *)
Theorem policies_limit_listeners (ls : list ListenerConfig) :
  let res := apply_rate_limit_policies ls policies gw_ns gw_name in
  Forall2 (fun l l' => (exists p, governs p l /\ l' = with_rate_limit l p) \/ (forall p, ~ governs p l) /\ l' = l) ls res.1
  /\ Forall2 (fun p s => pa_name s = rlp_name p
       /\ (pa_accepted s = true <-> pa_reason s = PolicyAccepted)
       /\ (pa_reason s = PolicyAccepted <-> exists l, l ∈ ls /\ governs p l)
       /\ (pa_reason s = TargetNotFound <-> exists section, tgt_section_name p = Some section /\ ~ exists l, l ∈ ls /\ l_name l = section))
     ordered res.2.
Proof using Hnames.
  unfold apply_rate_limit_policies. cbn [fst snd]. split.
  - apply Forall2_fmap_r, Forall_Forall2_diag, Forall_forall. intros l _. destruct (winner ordered (l_name l)) as [p|] eqn:E.
    + left. exists p. split; [by apply governs_winner|]. unfold compose, limit_listener, with_rate_limit. cbn. rewrite E. reflexivity.
    + right. split; [|unfold limit_listener; by rewrite E]. intros p H%governs_winner. congruence.
  - set (applied := list_to_set _). apply Forall2_fmap_r, Forall_Forall2_diag, Forall_forall. intros p Hp.
    assert (Happ : rlp_name p ∈ applied <-> exists l, l ∈ ls /\ governs p l).
    { unfold applied. rewrite elem_of_list_to_set, list_elem_of_omap. setoid_rewrite governs_winner. split.
      - intros (l & Hl & E). exists l. split; [done|]. destruct (winner ordered (l_name l)) as [q|] eqn:Ew; [|done]. injection E as E. f_equal.
        assert (Hq : q ∈ ordered). { apply winner_governs in Ew. apply elem_of_ordered_policies. destruct Ew as [[(? & ? & _) _]|[[(? & ? & _) _] _]]; by split. }
        apply elem_of_ordered_policies in Hp as [P1 P2], Hq as [Q1 Q2]. by apply policy_by_name.
      - intros (l & Hl & E). exists l. split; [done|]. by rewrite E. }
    assert (Hsec : section_missing ls p = true <-> exists section, tgt_section_name p = Some section /\ ~ exists l, l ∈ ls /\ l_name l = section).
    { unfold section_missing. destruct (tgt_section_name p) as [section|]; [|split; [done|by intros (? & ? & _)]]. rewrite negb_true_iff, <- not_true_iff_false, elem_of_existsb.
      setoid_rewrite beq_true. split; [by exists section|]. by intros (? & [= <-] & ?). }
    assert (Hexcl : (exists l, l ∈ ls /\ governs p l) -> ~ exists section, tgt_section_name p = Some section /\ ~ exists l, l ∈ ls /\ l_name l = section).
    { intros (l & Hl & [[(_ & _ & Hs) _]|[[(_ & _ & Hs) _] _]]) (section & Hs' & Hno); [apply Hno; exists l; split; [done|congruence]|congruence]. }
    unfold compose, policy_acceptance. cbn [pa_name pa_accepted pa_reason]. destruct (section_missing ls p) eqn:Es.
    + pose proof (proj1 Hsec eq_refl). split; [done|]. split; [by split|]. split; [split; [done|]; intros H'; by destruct (Hexcl H')|]. by split.
    + assert (Hno : ~ exists section, tgt_section_name p = Some section /\ ~ exists l, l ∈ ls /\ l_name l = section) by (intros H%Hsec; congruence).
      case_bool_decide as Hin; cbn; (split; [done|]); (split; [by split|]); (split; [|by split]).
      * split; [|done]. intros _. by apply Happ.
      * split; [done|]. intros H%Happ. done.
Qed.

End Policies.

(** ** At work *)

#[local] Existing Instance literal_regex.
#[local] Existing Instance literal_syntax.

Lemma accepted_routes_are_served_witness : Forall (fun c => (exists crs, compile_http_route c = Ok crs)
  /\ served_where_admitted no_durations sample_gw sample_snapshot ∅ sample_services ∅ (http_gateway_route no_durations) takes_http_routes
       (http_routes sample_snapshot) c) (cfg_http_routes (config sample_result.1)).
Proof.
  apply Forall_forall. apply (accepted_routes_are_served no_durations sample_gw sample_snapshot ∅ sample_services ∅ sample_truth sample_pass_ok).
Defined.

Lemma policies_limit_listeners_witness :
  map (fun l => (l_name l, option_map requests_per_second (l_rate_limit l))) (listeners (gateway (config sample_result.1)))
    = [(bs "raw", Some 1); (bs "web", Some 2); (bs "alt", Some 1); (bs "dns", Some 1)]
  /\ Forall2 (fun l l' => (exists p, governs sample_policies (bs "edge") (bs "gw") p l /\ l' = with_rate_limit l p)
                \/ (forall p, ~ governs sample_policies (bs "edge") (bs "gw") p l) /\ l' = l)
       [listener_config (bs "web") HTTP 80 None]
       (apply_rate_limit_policies [listener_config (bs "web") HTTP 80 None] sample_policies (bs "edge") (bs "gw")).1.
Proof.
  split; [vm_compute; reflexivity|].
  apply (policies_limit_listeners sample_policies (bs "edge") (bs "gw")). apply NoDup_ListNoDup. vm_compute. repeat constructor; cbn; intuition discriminate.
Defined.
