(* ===== verification/Services.v ===== *)
(** * Services

    [src/src/kubernetes/services.rs]: what a pass learns of the cluster's
    Services, the named target ports it reads from EndpointSlices and keeps
    between passes, and the overrides kept for the Services a configuration
    routes to. Listing EndpointSlices is the API server's answer, a
    parameter; the clock is an argument. *)

From S2P Require Import Prelude Bytes Net PathNorm Routing RouteBuild Config AcceptedFilters ConfigTable GatewayApi Converters Reconcile ReconcileSpec.

(** ** Objects *)

Inductive IntOrString := IntPort (p : Z) | NamedPort (name : list Z).

(** [port] is an i32. *)
Record ServicePortSpec := {
  svp_name : option (list Z);
  svp_port : Z;
  svp_target_port : option IntOrString;
  svp_app_protocol : option (list Z);
}.

Record ServiceSpec := {
  cluster_ip : option (list Z);
  svc_type : option (list Z);
  external_name : option (list Z);
  svc_ports : option (list ServicePortSpec);
}.

Record Service := {
  svc_name : option (list Z);
  svc_namespace : option (list Z);
  resource_version : option (list Z);
  svc_spec : option ServiceSpec;
}.

Record NamedTargetPortReq := {
  req_ns : list Z;
  req_svc : list Z;
  service_version : option (list Z);
  service_port : Z;
  service_port_name : list Z;
  target_port_name : list Z;
}.

Definition svc_ns (s : Service) : list Z := default (bs "default") (svc_namespace s).
Definition svc_fqdn (s : Service) (name : list Z) : list Z := backend_dns_name name None (svc_ns s).

(** A Service with a spec and a name. *)
Definition spec_and_name (s : Service) : option (ServiceSpec * list Z) :=
  spec ← svc_spec s; name ← svc_name s; Some (spec, name).

(** ** One pass over the Services *)

Definition known_services_of (all : list Service) : gset (list Z * list Z) :=
  list_to_set (omap (fun s => (fun name => (name, svc_ns s)) <$> svc_name s) all).

Definition Headless : Type := gmap (list Z * Z) Z * list NamedTargetPortReq.

Definition headless_port (s : Service) (name : list Z) (st : Headless) (sp : ServicePortSpec) : Headless :=
  let '(ports, named) := st in
  let service_port := as_u16 (svp_port sp) in
  let key := (svc_fqdn s name, service_port) in
  match svp_target_port sp with
  | Some (IntPort p) => (<[key := as_u16 p]> ports, named)
  | Some (NamedPort target) =>
      (<[key := service_port]> ports,
       named ++ [{| req_ns := svc_ns s; req_svc := name; service_version := resource_version s; service_port := service_port;
                    service_port_name := default [] (svp_name sp); target_port_name := target |}])
  | None => (<[key := service_port]> ports, named)
  end.

Definition headless_service (st : Headless) (s : Service) : Headless :=
  match spec_and_name s with
  | Some (spec, name) =>
      if bool_decide (cluster_ip spec = Some (bs "None")) then fold_left (headless_port s name) (default [] (svc_ports spec)) st else st
  | None => st
  end.

Definition external_service (m : gmap (list Z * Z) (list (list Z * Z))) (s : Service) : gmap (list Z * Z) (list (list Z * Z)) :=
  match spec_and_name s with
  | Some (spec, name) =>
      if negb (beq (default [] (svc_type spec)) (bs "ExternalName")) then m
      else match external_name spec with
      | Some target =>
          if is_nil target then m
          else fold_left (fun m sp => let key := (svc_fqdn s name, as_u16 (svp_port sp)) in
                            <[key := default [] (m !! key) ++ [(target, as_u16 (svp_port sp))]]> m) (default [] (svc_ports spec)) m
      | None => m
      end
  | None => m
  end.

Definition app_protocol_service (m : gmap (list Z * Z) (list Z)) (s : Service) : gmap (list Z * Z) (list Z) :=
  match spec_and_name s with
  | Some (spec, name) =>
      fold_left (fun m sp => match svp_app_protocol sp with
                             | Some proto => <[(svc_fqdn s name, as_u16 (svp_port sp)) := proto]> m
                             | None => m
                             end) (default [] (svc_ports spec)) m
  | None => m
  end.

Definition resolve_services (all : list Service) : ServiceState * list NamedTargetPortReq :=
  let '(ports, named) := fold_left headless_service all (∅, []) in
  ({| ss_known_services := known_services_of all; ss_endpoint_overrides := fold_left external_service all ∅;
      ss_app_protocol_overrides := fold_left app_protocol_service all ∅; ss_headless_target_ports := ports |}, named).

(** ** Named target ports *)

Record CachedPorts := { cp_version : option (list Z); cp_epoch : Z; read_at : Z; cp_ports : gmap (list Z) Z }.

Record NamedPortCache := { np_epoch : Z; np_ttl : Z; np_entries : gmap (list Z * list Z) CachedPorts }.

Definition NamedPortCache_new (ttl : Z) : NamedPortCache := {| np_epoch := 0; np_ttl := ttl; np_entries := ∅ |}.

(** Whether anything was cached, and the cache. The counter wraps. *)
Definition dns_changed (c : NamedPortCache) : bool * NamedPortCache :=
  (negb (bool_decide (np_entries c = ∅)), {| np_epoch := as_u64 (np_epoch c + 1); np_ttl := np_ttl c; np_entries := ∅ |}).

Definition cache_get (c : NamedPortCache) (now : Z) (req : NamedTargetPortReq) (epoch : Z) : option (gmap (list Z) Z) :=
  match np_entries c !! (req_ns req, req_svc req) with
  | Some e => if (cp_epoch e =? epoch) && bool_decide (cp_version e = service_version req) && (now - read_at e <? np_ttl c) then Some (cp_ports e) else None
  | None => None
  end.

Definition cache_put (c : NamedPortCache) (now : Z) (req : NamedTargetPortReq) (epoch : Z) (ports : gmap (list Z) Z) : NamedPortCache :=
  {| np_epoch := np_epoch c; np_ttl := np_ttl c;
     np_entries := <[(req_ns req, req_svc req) := {| cp_version := service_version req; cp_epoch := epoch; read_at := now; cp_ports := ports |}]> (np_entries c) |}.

(** A slice's ports: name and number. *)
Definition EndpointSlice : Type := option (list (option (list Z) * option Z)).

Definition u16_of (z : Z) : option Z := if (0 <=? z) && (z <=? 65535) then Some z else None.

(** The first of a name wins. *)
Definition slice_ports (slices : list EndpointSlice) : gmap (list Z) Z :=
  fold_left (fun m (p : option (list Z) * option Z) =>
               match p.2 ≫= u16_of with
               | Some number => match m !! default [] p.1 with Some _ => m | None => <[default [] p.1 := number]> m end
               | None => m
               end) (flat_map (default []) slices) ∅.

Definition req_backend (r : NamedTargetPortReq) : list Z * Z := (backend_dns_name (req_svc r) None (req_ns r), service_port r).

(** One request's turn: when it looks in the cache, what the API answers the
    list of the Service's slices, if it does, when, and how often DNS refresh
    reported a change while the list was under way. *)
Record ListTurn := { asked_at : Z; listed : option (list EndpointSlice); answered_at : Z; dns_changes : nat }.

Definition resolve_named_target_port (epoch : Z) (st : NamedPortCache * gmap (list Z * Z) Z) (rt : NamedTargetPortReq * ListTurn)
  : NamedPortCache * gmap (list Z * Z) Z :=
  let '(cache, out) := st in
  let '(req, turn) := rt in
  let use ports := match ports !! service_port_name req with Some port => <[req_backend req := port]> out | None => out end in
  match cache_get cache (asked_at turn) req epoch with
  | Some ports => (cache, use ports)
  | None =>
      let cache := Nat.iter (dns_changes turn) (fun c => (dns_changed c).2) cache in
      match listed turn with
      | Some slices => let ports := slice_ports slices in (cache_put cache (answered_at turn) req epoch ports, use ports)
      | None => (cache, out)
      end
  end.

Definition resolve_named_target_ports (cache : NamedPortCache) (reqs : list (NamedTargetPortReq * ListTurn)) (out : gmap (list Z * Z) Z)
  : NamedPortCache * gmap (list Z * Z) Z :=
  fold_left (resolve_named_target_port (np_epoch cache)) reqs (cache, out).

(** ** What a configuration routes to *)

Definition filter_mirrors (fs : list HttpRouteFilter) : list BackendRef := omap mirror_ref fs.

Definition routed_refs (cfg : PortailConfig) : list BackendRef :=
  let http_rules := flat_map h_rules (cfg_http_routes cfg) in
  flat_map backend_refs http_rules
  ++ flat_map (fun r => filter_mirrors (c_filters r)) http_rules
  ++ flat_map l4_backend_refs (flat_map t_rules (cfg_tcp_routes cfg ++ cfg_udp_routes cfg) ++ flat_map s_rules (cfg_tls_routes cfg)).

Definition referenced_backends (cfg : PortailConfig) : gset (list Z * Z) :=
  list_to_set (map (fun b => (br_name b, br_port b)) (List.filter (fun b => negb (br_invalid b)) (routed_refs cfg))).

Definition retain_referenced (cfg : PortailConfig) (referenced : gset (list Z * Z)) : PortailConfig :=
  {| gateway := gateway cfg; cfg_http_routes := cfg_http_routes cfg; cfg_tcp_routes := cfg_tcp_routes cfg; cfg_tls_routes := cfg_tls_routes cfg;
     cfg_udp_routes := cfg_udp_routes cfg; performance := performance cfg;
     endpoint_overrides := filter (fun kv => kv.1 ∈ referenced) (endpoint_overrides cfg);
     app_protocol_overrides := filter (fun kv => kv.1 ∈ referenced) (app_protocol_overrides cfg);
     headless_target_ports := filter (fun kv => kv.1 ∈ referenced) (headless_target_ports cfg) |}.

(** ** The table reads no other override *)

(** Two configurations that differ in overrides only, and not in those of the references given. *)
Definition agree (cfg cfg' : PortailConfig) (keys : gset (list Z * Z)) : Prop :=
  forall k, k ∈ keys -> endpoint_overrides cfg !! k = endpoint_overrides cfg' !! k
    /\ app_protocol_overrides cfg !! k = app_protocol_overrides cfg' !! k /\ headless_target_ports cfg !! k = headless_target_ports cfg' !! k.

Definition same_build {A} (m m' : Build A) : Prop := forall s, m s = m' s.

Lemma same_refl {A} (m : Build A) : same_build m m.
Proof. done. Qed.

Lemma same_bind {A B} (m m' : Build A) (k k' : A -> Build B) : same_build m m' -> (forall a, same_build (k a) (k' a)) -> same_build (m ≫= k) (m' ≫= k').
Proof. intros Hm Hk s. unfold mbind, Build_bind. rewrite Hm. destruct (m' s) as [[a|e] s']; [apply Hk|done]. Qed.

Lemma same_collect {A B} (f f' : A -> Build (list B)) l : (forall a, a ∈ l -> same_build (f a) (f' a)) -> same_build (collect f l) (collect f' l).
Proof.
  induction l as [|a l IH]; intros H; [apply same_refl|]. cbn [collect]. apply same_bind; [apply H; by left|]. intros x.
  apply same_bind; [apply IH; intros; apply H; by right|]. intros y. apply same_refl.
Qed.

Lemma same_each {A T} (f f' : T -> A -> Build T) l : (forall t a, a ∈ l -> same_build (f t a) (f' t a)) -> forall t, same_build (each f l t) (each f' l t).
Proof.
  induction l as [|a l IH]; intros H t; [apply same_refl|]. cbn [each]. apply same_bind; [apply H; by left|]. intros t'. apply IH. intros; apply H; by right.
Qed.

Section Same.
Context {RE : RegexEngine} {RS : RegexSyntax} (keyed_hash : SocketAddr -> Z) (policy : BuildPolicy)
  (lookup : nat -> list Z -> Z -> option (list SocketAddr)).
Context (cfg cfg' : PortailConfig) (keys : gset (list Z * Z)) (Hagree : agree cfg cfg' keys).
Context (Hgw : gateway cfg' = gateway cfg).

Definition known_ref (b : BackendRef) : Prop := br_invalid b = false -> (br_name b, br_port b) ∈ keys.

Lemma same_endpoints name port : (name, port) ∈ keys ->
  same_build (endpoints keyed_hash policy lookup cfg name port) (endpoints keyed_hash policy lookup cfg' name port).
Proof using Hagree. intros H. destruct (Hagree _ H) as (E1 & _ & E3). unfold endpoints. rewrite E1, E3. apply same_refl. Qed.

Lemma same_l4_backends refs : (forall b, b ∈ refs -> known_ref b) ->
  same_build (l4_route_backends keyed_hash policy lookup cfg refs) (l4_route_backends keyed_hash policy lookup cfg' refs).
Proof using Hagree.
  intros H. apply same_collect. intros b Hb. unfold ref_backends. destruct (br_invalid b) eqn:E; [apply same_refl|].
  apply same_bind; [apply same_endpoints; by apply H|]. intros; apply same_refl.
Qed.

(** The references of a compiled rule. *)
Definition known_rule (r : CfgRule) : Prop := forall b, b ∈ backend_refs r \/ b ∈ filter_mirrors (c_filters r) -> known_ref b.

Lemma compiled_mirror f b fr : compile_filter f = Ok (Mirror b fr) -> mirror_ref f = Some b.
Proof.
  unfold compile_filter. intros (u & _ & (v & _ & H)%and_then_ok)%and_then_ok. destruct f; cbn in H; try done.
  apply and_then_ok in H as (x & _ & [= <- _]). done.
Qed.

Lemma same_match_rules r cr : compile_rule r = Ok cr -> known_rule r ->
  same_build (match_rules keyed_hash policy lookup cfg cr) (match_rules keyed_hash policy lookup cfg' cr).
Proof using Hagree.
  intros Hc Hk. unfold compile_rule in Hc. apply and_then_ok in Hc as (? & _ & Hc). apply and_then_ok in Hc as (? & _ & Hc).
  apply and_then_ok in Hc as (bf & _ & Hc). apply and_then_ok in Hc as (ms & _ & Hc). apply and_then_ok in Hc as (fs & Hfs & [= <-]).
  unfold match_rules. apply same_bind; [|intros bks; apply same_bind; [|intros; apply same_refl]].
  - unfold rule_backends. cbn [source cr_backend_filters]. destruct (redirects r); [apply same_refl|]. apply same_collect. intros [b fl] Hb.
    apply elem_of_zip_l in Hb. unfold http_ref_backends. destruct (br_invalid b) eqn:E; [apply same_refl|].
    assert (Hin : (br_name b, br_port b) ∈ keys) by (apply Hk; [by left|done]). apply same_bind; [by apply same_endpoints|]. intros es.
    unfold wants_tls. destruct (Hagree _ Hin) as (_ & -> & _). apply same_refl.
  - unfold rule_filters. cbn [cr_filters]. apply same_collect. intros f Hf. unfold rule_filter. destruct f as [|b fr]; [apply same_refl|].
    destruct (br_invalid b) eqn:E; [apply same_refl|]. apply same_bind; [|intros; apply same_refl]. apply same_endpoints. apply Hk; [|done]. right.
    apply try_imap_ok in Hfs. apply list_elem_of_lookup in Hf as [i Hi]. destruct (Forall2_lookup_r _ _ _ _ _ Hfs Hi) as (f & Hf & Hc).
    apply list_elem_of_omap. exists f. split; [by eapply list_elem_of_lookup_2|by eapply compiled_mirror].
Qed.

Lemma same_http_route t ir : (forall r, r ∈ h_rules ir.2 -> known_rule r) ->
  same_build (ConfigTable.convert_http_route keyed_hash policy lookup cfg t ir) (ConfigTable.convert_http_route keyed_hash policy lookup cfg' t ir).
Proof using Hagree Hgw.
  intros Hk. destruct ir as [idx route]. unfold ConfigTable.convert_http_route. cbn [snd] in Hk.
  destruct (compile_http_route route) as [crs|e] eqn:Ec; [|apply same_refl]. apply try_imap_ok in Ec. apply same_bind.
  - apply same_collect. intros cr Hcr. apply list_elem_of_lookup in Hcr as [i Hi]. destruct (Forall2_lookup_r _ _ _ _ _ Ec Hi) as (r & Hr & Hc).
    apply (same_match_rules r cr Hc). apply Hk. by eapply list_elem_of_lookup_2.
  - intros rules. apply same_bind; [unfold route_scopes; rewrite Hgw; apply same_refl|]. intros; apply same_refl.
Qed.

End Same.

Lemma retained_agrees cfg : agree cfg (retain_referenced cfg (referenced_backends cfg)) (referenced_backends cfg).
Proof.
  intros k Hk. unfold retain_referenced. cbn. rewrite !map_lookup_filter. split_and!; symmetry.
  - destruct (endpoint_overrides cfg !! k); cbn; [|done]. by case_guard.
  - destruct (app_protocol_overrides cfg !! k); cbn; [|done]. by case_guard.
  - destruct (headless_target_ports cfg !! k); cbn; [|done]. by case_guard.
Qed.

Lemma routed_ref_known cfg b : b ∈ routed_refs cfg -> known_ref (referenced_backends cfg) b.
Proof.
  intros Hb Hi. apply elem_of_list_to_set, elem_of_map. exists b. split; [|done]. apply elem_of_filter_b. by rewrite Hi.
Qed.

Lemma l4_ref_known cfg rule b :
  rule ∈ flat_map t_rules (cfg_tcp_routes cfg ++ cfg_udp_routes cfg) ++ flat_map s_rules (cfg_tls_routes cfg) -> b ∈ l4_backend_refs rule ->
  known_ref (referenced_backends cfg) b.
Proof.
  intros Hr Hb. apply routed_ref_known. unfold routed_refs. rewrite !elem_of_app. right. right. apply elem_of_flat_map. by exists rule.
Qed.

Lemma same_l4_route {RE : RegexEngine} {RS : RegexSyntax} keyed_hash policy lookup cfg is_udp t route : route ∈ cfg_tcp_routes cfg ++ cfg_udp_routes cfg ->
  same_build (convert_l4_route keyed_hash policy lookup cfg is_udp t route)
    (convert_l4_route keyed_hash policy lookup (retain_referenced cfg (referenced_backends cfg)) is_udp t route).
Proof.
  intros Hin. unfold convert_l4_route. cbn [retain_referenced gateway]. destruct (t_rules route) as [|rule rest] eqn:E; [apply same_refl|].
  destruct (is_nil _); [apply same_refl|]. apply same_bind; [|intros; apply same_refl].
  apply (same_l4_backends _ _ _ cfg _ (referenced_backends cfg) (retained_agrees cfg)). intros b Hb. apply (l4_ref_known cfg rule); [|done].
  rewrite elem_of_app, elem_of_flat_map. left. exists route. rewrite E. split; [done|by left].
Qed.

(** Dropping the overrides of Services a configuration does not route to
    changes nothing of the table. Whatever the resolver answers, under both
    policies, building with the overrides of the referenced backends alone
    gives the table, the errors, the lookups made and the limiters that
    building with all of them gives. *)
Theorem retained_overrides_same_table {RE : RegexEngine} {RS : RegexSyntax} (keyed_hash : SocketAddr -> Z) (policy : BuildPolicy)
  (lookup : nat -> list Z -> Z -> option (list SocketAddr)) (cfg : PortailConfig) (s : BuildState) :
  build_route_table keyed_hash policy lookup (retain_referenced cfg (referenced_backends cfg)) s = build_route_table keyed_hash policy lookup cfg s.
Proof.
  symmetry. revert s. change (same_build (build_route_table keyed_hash policy lookup cfg)
    (build_route_table keyed_hash policy lookup (retain_referenced cfg (referenced_backends cfg)))).
  set (cfg' := retain_referenced cfg (referenced_backends cfg)). pose proof (retained_agrees cfg) as Hag. fold cfg' in Hag.
  unfold build_route_table. apply same_bind; [apply same_refl|]. intros _. unfold fill_table. cbn [cfg' retain_referenced cfg_http_routes cfg_tcp_routes
    cfg_udp_routes cfg_tls_routes gateway]. fold cfg'.
  apply same_bind; [|intros t1; apply same_bind; [|intros t2; apply same_bind; [|intros t3]]].
  - apply same_each. intros t [idx route] Hin. apply (same_http_route _ _ _ cfg cfg' (referenced_backends cfg) Hag eq_refl). intros r Hr b Hb.
    apply routed_ref_known. assert (Hrule : r ∈ flat_map h_rules (cfg_http_routes cfg)).
    { apply elem_of_flat_map. exists route. split; [|done]. apply list_elem_of_lookup in Hin as [i Hi]. rewrite list_lookup_imap in Hi.
      destruct (cfg_http_routes cfg !! i) as [x|] eqn:E; [|done]. injection Hi as _ ->. by eapply list_elem_of_lookup_2. }
    unfold routed_refs. rewrite !elem_of_app, !elem_of_flat_map. destruct Hb as [Hb|Hb]; [left|right; left]; by exists r.
  - apply same_each. intros t route Hin. apply same_l4_route. apply elem_of_app. by left.
  - apply same_each. intros t route Hin. apply same_l4_route. apply elem_of_app. by right.
  - apply same_each. intros t route Hin. unfold ConfigTable.convert_tls_route. change (tls_route_scopes cfg' route) with (tls_route_scopes cfg route).
    destruct (is_nil _); [apply same_refl|]. apply same_each. intros t' rule Hr. apply same_bind; [|intros; apply same_refl].
    apply (same_l4_backends _ _ _ cfg cfg' (referenced_backends cfg) Hag). intros b Hb. apply (l4_ref_known cfg rule); [|done].
    rewrite elem_of_app, !elem_of_flat_map. right. by exists route.
Qed.
