(* ===== verification/Auth.v ===== *)
(** * Who may sync a Gateway

    [src/src/kubernetes/controller/auth.rs] and
    [src/src/kubernetes/naming.rs]: the names derived from a Gateway, the
    check of a token's own claims, the verdicts of TokenReviews and the cache
    that keeps them, the limits on reviews in flight, and [authenticate],
    whose calls run side by side over all of them. SHA-256 is [Sealing]'s;
    base64 and the JSON reader are the class [TokenText]. What the API server
    answers and when is an argument of the steps. Times are nanoseconds.
    Metrics and log lines are left out. *)

From Stdlib Require Import SpecFloat.
From S2P Require Import Prelude Bytes Net HttpFilters Config ConfigTable Addresses Snapshot SyncLoop.

(** ** Names *)

Definition LABEL_PREFIX : list Z := bs "portail-".
Definition HASH_HEX_DIGITS : nat := 8.
Definition MAX_LABEL : nat := MAX_DNS1123_LABEL.

(** [str::get(..n)]: [None] past the end or inside a character. *)
Definition str_get_to (n : nat) (s : list Z) : option (list Z) :=
  if (n <=? length s)%nat && negb (match s !! n with Some b => cont_byte b | None => false end)
  then Some (take n s) else None.

Section Naming.
Context {SE : Sealing}.

Definition resource_name (gateway : list Z) : list Z :=
  let name := LABEL_PREFIX ++ gateway in
  if is_dns1123_label name then name
  else
    let label := map (fun b => if b =? 46 then 45 else b) gateway in
    let max_cut := (MAX_LABEL - length LABEL_PREFIX - 1 - HASH_HEX_DIGITS)%nat in
    let cut := trim_end_matches 45 (default label (str_get_to max_cut label)) in
    let hash := take HASH_HEX_DIGITS (sha256_hex gateway) in
    LABEL_PREFIX ++ cut ++ 45 :: hash.

Definition label_value (gateway : list Z) : list Z :=
  if (length gateway <=? MAX_LABEL)%nat then gateway
  else
    let keep := (MAX_LABEL - 1 - HASH_HEX_DIGITS)%nat in
    let hash := take HASH_HEX_DIGITS (sha256_hex gateway) in
    default gateway (str_get_to keep gateway) ++ 45 :: hash.
End Naming.

Definition controller_audience (service namespace : list Z) : list Z := service ++ 46 :: namespace ++ bs ".svc".

(** ** Claims *)

Definition MAX_TOKEN_BYTES : nat := 16384.
Definition SA_PREFIX : list Z := bs "system:serviceaccount:".

Record ServiceAccount := { sa_namespace : list Z; sa_name : list Z }.

#[export] Instance ServiceAccount_eq_dec : EqDecision ServiceAccount.
Proof. solve_decision. Defined.

Definition from_username (username : list Z) : option ServiceAccount :=
  rest ← strip_prefix SA_PREFIX username;
  '(namespace, name) ← split_once 58 rest;
  if negb (is_nil namespace) && negb (is_nil name) && negb (is_some (find_byte 58 name))
  then Some {| sa_namespace := namespace; sa_name := name |} else None.

Definition ServiceAccount_of `{Sealing} (gateway : GatewayKey) : ServiceAccount :=
  {| sa_namespace := gk_namespace gateway; sa_name := resource_name (gk_name gateway) |}.

(** [f64] *)
Definition f64_add : spec_float -> spec_float -> spec_float := SFadd 53 1024.
Definition f64_sub : spec_float -> spec_float -> spec_float := SFsub 53 1024.
Definition f64_mul : spec_float -> spec_float -> spec_float := SFmul 53 1024.
Definition f64_div : spec_float -> spec_float -> spec_float := SFdiv 53 1024.
Definition f64_of (z : Z) : spec_float := binary_normalize 53 1024 z 0 false.
(** [f64::min] of two numbers. *)
Definition f64_min (a b : spec_float) : spec_float := if SFltb b a then b else a.

(** [Duration::as_secs_f64] of nanoseconds. *)
Definition as_secs_f64 (ns : Z) : spec_float :=
  f64_add (f64_of (ns / 1000000000)) (f64_div (f64_of (ns mod 1000000000)) (f64_of 1000000000)).

(** [serde_json::Value]; a number is what [as_f64] reads of it. *)
Inductive Value :=
  | VNull
  | VBool (b : bool)
  | VNumber (as_f64 : option spec_float)
  | VString (s : list Z)
  | VArray (items : list Value)
  | VObject (fields : list (list Z * Value)).

(** [base64::URL_SAFE_NO_PAD] and [serde_json::from_slice]. *)
Class TokenText : Type := {
  b64url_decode : list Z -> option (list Z);
  value_of_slice : list Z -> option Value;
}.

(** [&value[key]]: null for a key it has not, or no object. *)
Definition value_index (v : Value) (key : list Z) : Value :=
  match v with
  | VObject fields => match find (fun '(k, _) => beq k key) fields with Some (_, x) => x | None => VNull end
  | _ => VNull
  end.

Definition value_is_str (v : Value) (s : list Z) : bool := match v with VString t => beq t s | _ => false end.

Section Claims.
Context {TT : TokenText}.

Definition json_object (part : list Z) : option Value :=
  bytes ← b64url_decode part;
  value ← value_of_slice bytes;
  match value with VObject _ => Some value | _ => None end.

Definition claims (token : list Z) : option Value :=
  if (MAX_TOKEN_BYTES <? length token)%nat then None
  else match split_on 46 token with
       | [header; payload; signature] =>
           _ ← json_object header;
           if is_nil signature || negb (is_some (b64url_decode signature)) then None
           else json_object payload
       | _ => None
       end.

(** [now]: nanoseconds since the epoch, [None] before it. *)
Definition precheck (token audience : list Z) (now : option Z) : option ServiceAccount :=
  claims ← claims token;
  let for_us := match value_index claims (bs "aud") with
                | VString aud => beq aud audience
                | VArray auds => existsb (fun aud => value_is_str aud audience) auds
                | _ => false
                end in
  now ← now;
  let live := match value_index claims (bs "exp") with
              | VNumber (Some exp) => SFltb (as_secs_f64 now) exp
              | _ => false
              end in
  if negb for_us || negb live then None
  else match value_index claims (bs "sub") with VString sub => from_username sub | _ => None end.

(** What is read of [OWN_TOKEN], [None] when it cannot be. *)
Definition own_service_account (read : option (list Z)) : option ServiceAccount :=
  token ← read;
  claims ← claims (str_trim token);
  match value_index claims (bs "sub") with VString sub => from_username sub | _ => None end.
End Claims.

(** ** Verdicts *)

Definition MAX_REVIEWS_IN_FLIGHT : nat := 16.
Definition MAX_REVIEWS_PER_PEER : nat := 2.
Definition REVIEW_RATE_PER_PEER : spec_float := f64_of 5.
Definition REVIEW_BURST_PER_PEER : spec_float := f64_of 10.
Definition MAX_RATED_PEERS : nat := 4096.
Definition MAX_RENEWALS_IN_FLIGHT : nat := 4.
Definition CACHE_TTL : Z := HOLD.
Definition STALE_TTL : Z := HOLD.
Definition REVIEW_TIMEOUT : Z := 5000000000.
Definition MAX_VERDICTS : nat := 4096.
Definition MAX_VERDICTS_PER_POD : nat := 2.
Definition POD_UID : list Z := bs "authentication.kubernetes.io/pod-uid".

Inductive Refusal := Unauthenticated | Forbidden | Throttled | Unavailable.

Record Reviewed := { account : ServiceAccount; pod_uid : list Z }.

Abbreviation TokenHash := (list Z).

(** The digest of [token_hash], in hexadecimal. *)
Definition token_hash `{Sealing} (token : list Z) : TokenHash := sha256_hex token.

Record Verdicts := { by_token : gmap TokenHash (Z * option Reviewed); swept : option Z }.

Inductive Cached := Fresh (r : Reviewed) | Rejected | Expired (r : Reviewed) | Unknown.

(** [Instant::elapsed] and [Instant - Instant] *)
Definition elapsed (now at_ : Z) : Z := Z.max 0 (now - at_).

Definition cached (v : Verdicts) (hash : TokenHash) (now : Z) : Cached :=
  match by_token v !! hash with
  | None => Unknown
  | Some (at_, verdict) =>
      let age := elapsed now at_ in
      match verdict with
      | Some reviewed =>
          if age <? CACHE_TTL then Fresh reviewed
          else if age <? CACHE_TTL + STALE_TTL then Expired reviewed
          else Unknown
      | None => if age <? CACHE_TTL then Rejected else Unknown
      end
  end.

Definition kept (now : Z) (e : Z * option Reviewed) : bool :=
  elapsed now e.1 <? match e.2 with Some _ => CACHE_TTL + STALE_TTL | None => CACHE_TTL end.

(** [HashMap::retain] on what is kept of each key. *)
Definition retain {V} (p : TokenHash -> V -> bool) (m : gmap TokenHash V) : gmap TokenHash V :=
  filter (fun '(k, v) => p k v = true) m.

Definition sweep (now : Z) (v : Verdicts) : Verdicts :=
  if match swept v with Some at_ => CACHE_TTL <=? elapsed now at_ | None => true end
  then {| by_token := retain (fun _ e => kept now e) (by_token v); swept := Some now |}
  else v.

(** Whether there is no room for [hash]. *)
Definition full (m : gmap TokenHash (Z * option Reviewed)) (hash : TokenHash) : bool :=
  (MAX_VERDICTS <=? size m)%nat && negb (is_some (m !! hash)).

Definition drop_rejections (hash : TokenHash) (m : gmap TokenHash (Z * option Reviewed)) : gmap TokenHash (Z * option Reviewed) :=
  if full m hash then retain (fun _ e => is_some e.2) m else m.

(** [ages[MAX_VERDICTS / 4]] is there: the map is full. *)
Definition drop_oldest (hash : TokenHash) (m : gmap TokenHash (Z * option Reviewed)) : gmap TokenHash (Z * option Reviewed) :=
  if full m hash then
    let ages := sort_by Z.compare (map (fun e => e.2.1) (map_to_list m)) in
    match ages !! Nat.div MAX_VERDICTS 4 with
    | Some cutoff => retain (fun _ e => cutoff <? e.1) m
    | None => m
    end
  else m.

Definition aged_compare (a b : Z * TokenHash) : comparison := then_with (a.1 ?= b.1) (bytes_compare a.2 b.2).

(** The accepted verdicts of [pod] but that of [hash]. *)
Definition of_pod (pod : list Z) (hash : TokenHash) (e : TokenHash * (Z * option Reviewed)) : bool :=
  negb (beq e.1 hash) && match e.2.2 with Some r => beq (pod_uid r) pod | None => false end.

(** [same_pod], before it is sorted. *)
Definition same_pod (pod : list Z) (hash : TokenHash) (m : gmap TokenHash (Z * option Reviewed)) : list (Z * TokenHash) :=
  map (fun e => (e.2.1, e.1)) (List.filter (of_pod pod hash) (map_to_list m)).

Definition drop_same_pod (hash : TokenHash) (verdict : option Reviewed) (m : gmap TokenHash (Z * option Reviewed))
  : gmap TokenHash (Z * option Reviewed) :=
  match verdict with
  | None => m
  | Some reviewed =>
      let same := same_pod (pod_uid reviewed) hash m in
      if (MAX_VERDICTS_PER_POD <=? length same)%nat
      then fold_left (fun m old => delete old.2 m) (take (S (length same - MAX_VERDICTS_PER_POD)) (sort_by aged_compare same)) m
      else m
  end.

Definition remember (hash : TokenHash) (verdict : option Reviewed) (now : Z) (v : Verdicts) : Verdicts :=
  let v := sweep now v in
  {| by_token := <[hash := (now, verdict)]> (drop_same_pod hash verdict (drop_oldest hash (drop_rejections hash (by_token v))));
     swept := swept v |}.

(** ** TokenReviews *)

(** [TokenReviewStatus], of its user the name and the extra. *)
Record TokenReviewStatus := {
  st_authenticated : option bool;
  st_audiences : option (list (list Z));
  st_user : option (option (list Z) * option (gmap (list Z) (list (list Z))));
}.

Definition verdict (audience : list Z) (status : TokenReviewStatus) : option Reviewed :=
  if negb (bool_decide (st_authenticated status = Some true)) then None
  else if negb (existsb (fun a => beq a audience) (default [] (st_audiences status))) then None
  else
    '(username, extra) ← st_user status;
    username ← username;
    account ← from_username username;
    extra ← extra;
    values ← extra !! POD_UID;
    pod_uid ← head values;
    Some {| account := account; pod_uid := pod_uid |}.

(** ** Limits *)

Record ReviewBucket := { rb_tokens : spec_float; rb_at : Z }.

Definition tokens_at (b : ReviewBucket) (now : Z) : spec_float :=
  let refill := f64_mul (as_secs_f64 (elapsed now (rb_at b))) REVIEW_RATE_PER_PEER in
  f64_min (f64_add (rb_tokens b) refill) REVIEW_BURST_PER_PEER.

(** The end of [charge_review], once the peer has room for a bucket. *)
Definition charge (peer : IpAddr) (now : Z) (buckets : gmap IpAddr ReviewBucket) : bool * gmap IpAddr ReviewBucket :=
  let bucket := default {| rb_tokens := REVIEW_BURST_PER_PEER; rb_at := now |} (buckets !! peer) in
  let tokens := tokens_at bucket now in
  if SFltb tokens (f64_of 1)
  then (false, <[peer := {| rb_tokens := tokens; rb_at := now |}]> buckets)
  else (true, <[peer := {| rb_tokens := f64_sub tokens (f64_of 1); rb_at := now |}]> buckets).

Definition charge_review (peer : IpAddr) (now : Z) (buckets : gmap IpAddr ReviewBucket) : bool * gmap IpAddr ReviewBucket :=
  if (MAX_RATED_PEERS <=? size buckets)%nat && negb (is_some (buckets !! peer)) then
    let buckets := filter (fun '(_, b) => SFltb (tokens_at b now) REVIEW_BURST_PER_PEER = true) buckets in
    if (MAX_RATED_PEERS <=? size buckets)%nat then (false, buckets) else charge peer now buckets
  else charge peer now buckets.

(** [None]: no cap. A peer refused keeps its count, an unknown one a zero. *)
Definition peer_review (peer : IpAddr) (cap : option nat) (peers : gmap IpAddr nat) : bool * gmap IpAddr nat :=
  let n := default 0%nat (peers !! peer) in
  if match cap with Some cap => (cap <=? n)%nat | None => false end then (false, <[peer := n]> peers)
  else (true, <[peer := S n]> peers).

(** [Drop for PeerReview] *)
Definition peer_review_drop (peer : IpAddr) (peers : gmap IpAddr nat) : gmap IpAddr nat :=
  match peers !! peer with
  | Some n => if (n - 1 =? 0)%nat then delete peer peers else <[peer := (n - 1)%nat]> peers
  | None => peers
  end.

(** ** Calls of [authenticate] *)

(** The parts of the authenticator that never change, and those that do:
    the permits left of the two semaphores, and what the mutexes guard. *)
Record Authenticator := { audience : list Z; refused : list ServiceAccount }.

Record AuthState := {
  unknown : nat;
  renewals : nat;
  peers : gmap IpAddr nat;
  review_rates : gmap IpAddr ReviewBucket;
  verdicts : Verdicts;
}.

Definition Authenticator_new (namespace service : list Z) (own : option ServiceAccount) : Authenticator * AuthState :=
  ({| audience := controller_audience service namespace;
      refused := {| sa_namespace := namespace; sa_name := service |} :: match own with Some o => [o] | None => [] end |},
   {| unknown := MAX_REVIEWS_IN_FLIGHT; renewals := MAX_RENEWALS_IN_FLIGHT; peers := ∅; review_rates := ∅;
      verdicts := {| by_token := ∅; swept := None |} |}).

Definition set_unknown (a : AuthState) (n : nat) : AuthState :=
  {| unknown := n; renewals := renewals a; peers := peers a; review_rates := review_rates a; verdicts := verdicts a |}.
Definition set_renewals (a : AuthState) (n : nat) : AuthState :=
  {| unknown := unknown a; renewals := n; peers := peers a; review_rates := review_rates a; verdicts := verdicts a |}.
Definition set_peers (a : AuthState) (p : gmap IpAddr nat) : AuthState :=
  {| unknown := unknown a; renewals := renewals a; peers := p; review_rates := review_rates a; verdicts := verdicts a |}.
Definition set_rates (a : AuthState) (r : gmap IpAddr ReviewBucket) : AuthState :=
  {| unknown := unknown a; renewals := renewals a; peers := peers a; review_rates := r; verdicts := verdicts a |}.
Definition set_verdicts (a : AuthState) (v : Verdicts) : AuthState :=
  {| unknown := unknown a; renewals := renewals a; peers := peers a; review_rates := review_rates a; verdicts := v |}.

(** Where a call is. [Reviewing stale] waits on the apiserver, for a renewal
    of [stale] or of an unknown token; [Leaving] drops what the call holds. A
    call whose request is dropped while it waits, its peer gone, is
    [Abandoned]: it drops what it holds and answers nothing. *)
Inductive Phase :=
  | Start
  | TakePeer
  | TakePermit (counted : bool)
  | Charge
  | AwaitPermit (stale : Reviewed)
  | CountRenewal (stale : Reviewed)
  | Reviewing (stale : option Reviewed)
  | Leaving (answer : result (list Z) Refusal)
  | Done (answer : result (list Z) Refusal)
  | Abandoned
  | Gone.

(** A call: its arguments, its place, what it holds, and when it read which
    verdict, once it has. *)
Record Call := {
  claimed : ServiceAccount;
  token : list Z;
  gateway : GatewayKey;
  peer : IpAddr;
  phase : Phase;
  counted : bool;
  unknown_permit : bool;
  renewal_permit : bool;
  read : option (Z * Cached);
}.

Definition at_phase (c : Call) (p : Phase) : Call :=
  {| claimed := claimed c; token := token c; gateway := gateway c; peer := peer c; phase := p;
     counted := counted c; unknown_permit := unknown_permit c; renewal_permit := renewal_permit c; read := read c |}.
Definition set_read (c : Call) (r : Z * Cached) : Call :=
  {| claimed := claimed c; token := token c; gateway := gateway c; peer := peer c; phase := phase c;
     counted := counted c; unknown_permit := unknown_permit c; renewal_permit := renewal_permit c; read := Some r |}.
Definition set_counted (c : Call) (b : bool) : Call :=
  {| claimed := claimed c; token := token c; gateway := gateway c; peer := peer c; phase := phase c;
     counted := b; unknown_permit := unknown_permit c; renewal_permit := renewal_permit c; read := read c |}.
Definition set_unknown_permit (c : Call) (b : bool) : Call :=
  {| claimed := claimed c; token := token c; gateway := gateway c; peer := peer c; phase := phase c;
     counted := counted c; unknown_permit := b; renewal_permit := renewal_permit c; read := read c |}.
Definition set_renewal_permit (c : Call) (b : bool) : Call :=
  {| claimed := claimed c; token := token c; gateway := gateway c; peer := peer c; phase := phase c;
     counted := counted c; unknown_permit := unknown_permit c; renewal_permit := b; read := read c |}.

(** What moves a call on. *)
Inductive CallStep :=
  | SStart
  | SPeer
  | SPermit
  | SCharge
  | SGranted
  | SWaitedOut
  | SCount
  | SAnswered (status : TokenReviewStatus)
  | SFailed
  | SDropPermit
  | SDropRenewal
  | SDropPeer
  | SDone
  | SGone.

Section Authenticate.
Context {SE : Sealing} (au : Authenticator).

Definition expected (c : Call) : ServiceAccount := ServiceAccount_of (gateway c).

(** The end of [authenticate], for what the cache or a review said. *)
Definition settle (c : Call) (reviewed : Reviewed) : result (list Z) Refusal :=
  if bool_decide (account reviewed = expected c) then Ok (pod_uid reviewed) else Err Forbidden.

(** [authenticate] up to its first shared write or await. *)
Definition begin (a : AuthState) (c : Call) (now : Z) : Call :=
  if negb (bool_decide (claimed c = expected c)) then at_phase c (Leaving (Err Unauthenticated))
  else if bool_decide (expected c ∈ refused au) then at_phase c (Leaving (Err Forbidden))
  else
    let found := cached (verdicts a) (token_hash (token c)) now in
    let c := set_read c (now, found) in
    match found with
    | Fresh reviewed => at_phase c (Leaving (settle c reviewed))
    | Rejected => at_phase c (Leaving (Err Unauthenticated))
    | Expired stale => at_phase c (AwaitPermit stale)
    | Unknown => at_phase c TakePeer
    end.

(** [review] once the apiserver answered, and what [authenticate] makes of it. *)
Definition answered (a : AuthState) (c : Call) (now : Z) (status : TokenReviewStatus) : AuthState * Call :=
  let v := verdict (audience au) status in
  (set_verdicts a (remember (token_hash (token c)) v now (verdicts a)),
   at_phase c (Leaving (match v with Some reviewed => settle c reviewed | None => Err Unauthenticated end))).

(** A review that gave no verdict. *)
Definition failed (c : Call) (stale : option Reviewed) : Call :=
  at_phase c (Leaving (match stale with Some stale => settle c stale | None => Err Unavailable end)).

(** One step of a call, [None] when it is not at it. *)
Definition call_step (a : AuthState) (now : Z) (c : Call) (s : CallStep) : option (AuthState * Call) :=
  match s, phase c with
  | SStart, Start => Some (a, begin a c now)
  | SPeer, TakePeer =>
      let '(ok, p) := peer_review (peer c) (Some MAX_REVIEWS_PER_PEER) (peers a) in
      Some (set_peers a p, at_phase (set_counted c ok) (TakePermit ok))
  | SPermit, TakePermit counted =>
      let taken := (0 <? unknown a)%nat in
      Some (if taken then set_unknown a (unknown a - 1) else a,
            at_phase (set_unknown_permit c taken) (if counted && taken then Charge else Leaving (Err Throttled)))
  | SCharge, Charge =>
      let '(ok, rates) := charge_review (peer c) now (review_rates a) in
      Some (set_rates a rates, at_phase c (if ok then Reviewing None else Leaving (Err Throttled)))
  | SGranted, AwaitPermit stale =>
      if (0 <? renewals a)%nat
      then Some (set_renewals a (renewals a - 1), at_phase (set_renewal_permit c true) (CountRenewal stale)) else None
  | SWaitedOut, AwaitPermit stale => Some (a, failed c (Some stale))
  | SCount, CountRenewal stale =>
      let '(ok, p) := peer_review (peer c) None (peers a) in
      Some (set_peers a p, at_phase (set_counted c ok) (Reviewing (Some stale)))
  | SAnswered status, Reviewing _ => Some (answered a c now status)
  | SFailed, Reviewing stale => Some (a, failed c stale)
  | SGone, (AwaitPermit _ | Reviewing _) => Some (a, at_phase c Abandoned)
  | SDropPermit, (Leaving _ | Abandoned) => if unknown_permit c then Some (set_unknown a (S (unknown a)), set_unknown_permit c false) else None
  | SDropRenewal, (Leaving _ | Abandoned) => if renewal_permit c then Some (set_renewals a (S (renewals a)), set_renewal_permit c false) else None
  | SDropPeer, (Leaving _ | Abandoned) => if counted c then Some (set_peers a (peer_review_drop (peer c) (peers a)), set_counted c false) else None
  | SDone, Leaving answer =>
      if unknown_permit c || renewal_permit c || counted c then None else Some (a, at_phase c (Done answer))
  | SDone, Abandoned => if unknown_permit c || renewal_permit c || counted c then None else Some (a, at_phase c Gone)
  | _, _ => None
  end.

(** Calls side by side, the clock, and every TokenReview answered: of which
    token, when it was taken in, and what it said. *)
Record AuthWorld := {
  state : AuthState;
  calls : gmap nat Call;
  clock : Z;
  reviews : list (list Z * Z * TokenReviewStatus);
}.

Definition call_new (sa : ServiceAccount) (tok : list Z) (g : GatewayKey) (p : IpAddr) : Call :=
  {| claimed := sa; token := tok; gateway := g; peer := p; phase := Start;
     counted := false; unknown_permit := false; renewal_permit := false; read := None |}.

Definition logged (s : CallStep) (c : Call) (now : Z) (log : list (list Z * Z * TokenReviewStatus)) : list (list Z * Z * TokenReviewStatus) :=
  match s with SAnswered status => (token c, now, status) :: log | _ => log end.

Inductive auth_step : AuthWorld -> AuthWorld -> Prop :=
  | step_time w t : clock w <= t ->
      auth_step w {| state := state w; calls := calls w; clock := t; reviews := reviews w |}
  | step_asked w i sa tok g p : calls w !! i = None ->
      auth_step w {| state := state w; calls := <[i := call_new sa tok g p]> (calls w); clock := clock w; reviews := reviews w |}
  | step_call w i c s a' c' : calls w !! i = Some c -> call_step (state w) (clock w) c s = Some (a', c') ->
      auth_step w {| state := a'; calls := <[i := c']> (calls w); clock := clock w; reviews := logged s c (clock w) (reviews w) |}.

Definition auth_start (a : AuthState) (t : Z) : AuthWorld := {| state := a; calls := ∅; clock := t; reviews := [] |}.

Inductive auth_reached (a : AuthState) : AuthWorld -> Prop :=
  | reached_start t : auth_reached a (auth_start a t)
  | reached_more w w' : auth_reached a w -> auth_step w w' -> auth_reached a w'.
End Authenticate.

(** ** Lemmas on the verdicts kept *)

Abbreviation Kept := (gmap TokenHash (Z * option Reviewed)).

Definition accepted_for (pod : list Z) (e : TokenHash * (Z * option Reviewed)) : Prop :=
  match e.2.2 with Some r => pod_uid r = pod | None => False end.

#[export] Instance accepted_for_dec pod e : Decision (accepted_for pod e).
Proof. unfold accepted_for. destruct (e.2.2); apply _. Defined.

Lemma retain_subseteq {V} (p : TokenHash -> V -> bool) (m : gmap TokenHash V) : retain p m ⊆ m.
Proof. apply map_filter_subseteq. Qed.

Lemma filter_size_mono (P : TokenHash * (Z * option Reviewed) -> Prop) `{forall e, Decision (P e)} (m m' : Kept) :
  m ⊆ m' -> (size (filter P m) <= size (filter P m'))%nat.
Proof. intros Hs. apply map_subseteq_size, map_filter_subseteq_mono, Hs. Qed.

Lemma sweep_subseteq now v : by_token (sweep now v) ⊆ by_token v.
Proof. unfold sweep. split_match; [apply retain_subseteq|done]. Qed.

Lemma drop_rejections_subseteq hash m : drop_rejections hash m ⊆ m.
Proof. unfold drop_rejections. split_match; [apply retain_subseteq|done]. Qed.

Lemma drop_oldest_subseteq hash m : drop_oldest hash m ⊆ m.
Proof. unfold drop_oldest. repeat split_match; try done; apply retain_subseteq. Qed.

Lemma fold_delete_lookup (l : list (Z * TokenHash)) (m : Kept) k :
  fold_left (fun m old => delete old.2 m) l m !! k = if decide (k ∈ map snd l) then None else m !! k.
Proof.
  induction l as [|[a h] l IH] in m |- *; cbn [fold_left map snd].
  { by rewrite decide_False by apply not_elem_of_nil. }
  rewrite IH. cbn [snd]. destruct (decide (k = h)) as [->|Hne].
  - rewrite lookup_delete_eq, (decide_True (P := h ∈ h :: _)) by left. by case_decide.
  - rewrite lookup_delete_ne by done. destruct (decide (k ∈ map snd l)) as [Hi|Hi].
    + by rewrite decide_True by (by right).
    + rewrite decide_False; [done|]. by intros [|]%elem_of_cons.
Qed.

(** What [drop_same_pod] takes out: the oldest, and only of the pod. *)
Definition same_pod_gone (hash : TokenHash) (r : Reviewed) (m : Kept) : list TokenHash :=
  let same := same_pod (pod_uid r) hash m in
  if (MAX_VERDICTS_PER_POD <=? length same)%nat
  then map snd (take (S (length same - MAX_VERDICTS_PER_POD)) (sort_by aged_compare same)) else [].

Lemma drop_same_pod_lookup hash r m k :
  drop_same_pod hash (Some r) m !! k = if decide (k ∈ same_pod_gone hash r m) then None else m !! k.
Proof.
  unfold drop_same_pod, same_pod_gone. destruct (_ <=? _)%nat; [apply fold_delete_lookup|].
  by rewrite decide_False by apply not_elem_of_nil.
Qed.

Lemma of_pod_spec pod hash k a v : of_pod pod hash (k, (a, v)) = true <-> k <> hash /\ exists r, v = Some r /\ pod_uid r = pod.
Proof.
  unfold of_pod. cbn. rewrite andb_true_iff, negb_true_iff, <- not_true_iff_false, beq_spec.
  destruct v as [r|]; [rewrite beq_spec|]; naive_solver.
Qed.

Lemma same_pod_in pod hash m k :
  k ∈ map snd (same_pod pod hash m) <-> k <> hash /\ exists a r, m !! k = Some (a, Some r) /\ pod_uid r = pod.
Proof.
  unfold same_pod. rewrite map_map, list_elem_of_fmap. cbn. setoid_rewrite list_elem_of_In. setoid_rewrite filter_In. split.
  - intros ([h [a v]] & -> & Hm & (Hne & r & -> & Hp)%of_pod_spec). apply list_elem_of_In, elem_of_map_to_list in Hm. cbn. eauto.
  - intros (Hne & a & r & Hm & Hp). exists (k, (a, Some r)). split; [done|]. split.
    + by apply list_elem_of_In, elem_of_map_to_list.
    + apply of_pod_spec. eauto.
Qed.

Lemma same_pod_gone_in hash r m k :
  k ∈ same_pod_gone hash r m -> k <> hash /\ exists a r', m !! k = Some (a, Some r') /\ pod_uid r' = pod_uid r.
Proof.
  unfold same_pod_gone. destruct (_ <=? _)%nat; [|by intros ?%not_elem_of_nil].
  rewrite list_elem_of_fmap. intros (e & -> & Ht). apply same_pod_in, list_elem_of_fmap. exists e. split; [done|].
  rewrite <- (sort_by_perm aged_compare), <- (take_drop (S (length (same_pod (pod_uid r) hash m) - MAX_VERDICTS_PER_POD))), elem_of_app. by left.
Qed.

Lemma size_le_keys {V} (m : gmap TokenHash V) (l : list TokenHash) : (forall k v, m !! k = Some v -> k ∈ l) -> (size m <= length l)%nat.
Proof.
  intros H. rewrite <- (length_map_to_list m), <- (length_fmap fst). apply submseteq_length, NoDup_submseteq.
  - apply NoDup_fst_map_to_list.
  - intros k ([k' v] & -> & Hi%elem_of_map_to_list)%list_elem_of_fmap. by eapply H.
Qed.

(** Besides the new verdict, one of the pod stays. *)
Lemma same_pod_left hash r m (m4 := drop_same_pod hash (Some r) m) :
  (size (delete hash (filter (accepted_for (pod_uid r)) m4)) <= 1)%nat.
Proof.
  set (same := same_pod (pod_uid r) hash m).
  assert (Hin : forall k v, delete hash (filter (accepted_for (pod_uid r)) m4) !! k = Some v ->
    k ∈ map snd (sort_by aged_compare same) /\ k ∉ same_pod_gone hash r m).
  { intros k v [Hne Hk]%lookup_delete_Some. apply map_lookup_filter_Some in Hk as [Hk Ha].
    unfold m4 in Hk. rewrite drop_same_pod_lookup in Hk. case_decide as Hg; [done|]. split; [|done].
    rewrite (sort_by_perm aged_compare same). apply same_pod_in. split; [done|]. destruct v as [a [r'|]]; [|done].
    unfold accepted_for in Ha. cbn in Ha. eauto. }
  unfold same_pod_gone in Hin. fold same in Hin. destruct (_ <=? _)%nat eqn:Hl.
  - apply Nat.leb_le in Hl. set (n := S (length same - MAX_VERDICTS_PER_POD)) in Hin.
    etransitivity; [apply (size_le_keys _ (map snd (drop n (sort_by aged_compare same))))|].
    + intros k v [Hk Hg]%Hin. rewrite <- (take_drop n (sort_by aged_compare same)), map_app, elem_of_app in Hk. tauto.
    + rewrite length_map, length_drop, (Permutation_length (sort_by_perm aged_compare same)). unfold n, MAX_VERDICTS_PER_POD in *. lia.
  - apply Nat.leb_gt in Hl. etransitivity; [apply (size_le_keys _ (map snd (sort_by aged_compare same)))|].
    + intros k v [Hk _]%Hin. done.
    + rewrite length_map, (Permutation_length (sort_by_perm aged_compare same)). unfold MAX_VERDICTS_PER_POD in Hl. lia.
Qed.

Lemma drop_same_pod_subseteq hash verdict m : drop_same_pod hash verdict m ⊆ m.
Proof.
  destruct verdict as [r|]; [|done]. apply map_subseteq_spec. intros k e.
  rewrite drop_same_pod_lookup. by case_decide.
Qed.

(** What the cache never exceeds. *)
Record verdicts_ok (v : Verdicts) : Prop := {
  few_verdicts : (size (by_token v) <= MAX_VERDICTS)%nat;
  few_per_pod pod : (size (filter (accepted_for pod) (by_token v)) <= MAX_VERDICTS_PER_POD)%nat;
}.

(** The map the new verdict goes in. *)
Definition room (hash : TokenHash) (verdict : option Reviewed) (now : Z) (v : Verdicts) : Kept :=
  drop_same_pod hash verdict (drop_oldest hash (drop_rejections hash (by_token (sweep now v)))).

Lemma room_subseteq hash verdict now v : room hash verdict now v ⊆ by_token v.
Proof.
  unfold room. rewrite drop_same_pod_subseteq, drop_oldest_subseteq, drop_rejections_subseteq. apply sweep_subseteq.
Qed.

Lemma drop_same_pod_hash hash verdict m : drop_same_pod hash verdict m !! hash = m !! hash.
Proof.
  destruct verdict as [r|]; [|done]. rewrite drop_same_pod_lookup. case_decide as Hg; [|done].
  by apply same_pod_gone_in in Hg as [? _].
Qed.

Lemma full_false m hash : full m hash = false <-> (size m < MAX_VERDICTS)%nat \/ is_Some (m !! hash).
Proof.
  unfold full. rewrite andb_false_iff, Nat.leb_gt, negb_false_iff. destruct (m !! hash); cbn; [|].
  - split; intros; [right; eauto|by right].
  - split; [intros [?|?]; [by left|done]|intros [?|[? ?]]; [by left|done]].
Qed.

Lemma drop_oldest_room hash m : (size m <= MAX_VERDICTS)%nat -> full (drop_oldest hash m) hash = false.
Proof.
  intros Hs. unfold drop_oldest. destruct (full m hash) eqn:Hf; [|done].
  pose proof (sort_by_perm Z.compare (map (fun e => e.2.1) (map_to_list m))) as Hp.
  set (ages := sort_by _ _) in *. unfold full in Hf. apply andb_true_iff in Hf as [Hf%Nat.leb_le Hn].
  assert (Hlen : length ages = size m) by (by rewrite Hp, length_map, length_map_to_list).
  assert (Hi : (Nat.div MAX_VERDICTS 4 < length ages)%nat) by (rewrite Hlen; eapply Nat.lt_le_trans; [|exact Hf]; apply Nat.div_lt; unfold MAX_VERDICTS; lia).
  apply lookup_lt_is_Some_2 in Hi as [cutoff Hc]. rewrite Hc. apply full_false. left.
  assert (Hin : cutoff ∈ ages) by (by eapply list_elem_of_lookup_2).
  rewrite Hp in Hin. apply list_elem_of_fmap in Hin as ([k [a v]] & Ha & Hm%elem_of_map_to_list). cbn in Ha. subst a.
  assert (Hsub : retain (fun _ e => cutoff <? e.1) m ⊆ delete k m).
  { apply map_subseteq_spec. intros j e [Hj Hlt]%map_lookup_filter_Some. apply lookup_delete_Some. split; [|done].
    intros ->. rewrite Hm in Hj. injection Hj as <-. cbn in Hlt. lia. }
  apply map_subseteq_size in Hsub. rewrite map_size_delete, Hm in Hsub. unfold MAX_VERDICTS in *. lia.
Qed.

Lemma remember_ok hash verdict now v : verdicts_ok v -> verdicts_ok (remember hash verdict now v).
Proof.
  intros [Hf Hp]. pose proof (room_subseteq hash verdict now v) as Hsub. constructor; unfold remember; cbn [by_token].
  - set (m3 := drop_oldest hash (drop_rejections hash (by_token (sweep now v)))).
    assert (H3 : full m3 hash = false).
    { apply drop_oldest_room. etransitivity; [|exact Hf]. apply map_subseteq_size.
      rewrite drop_rejections_subseteq. apply sweep_subseteq. }
    fold (room hash verdict now v) in *. apply full_false in H3 as [H3|[e H3]].
    + pose proof (map_subseteq_size _ _ (drop_same_pod_subseteq hash verdict m3)) as H4. rewrite map_size_insert.
      case_match; unfold id, MAX_VERDICTS in *; lia.
    + rewrite map_size_insert_Some; [|by rewrite drop_same_pod_hash, H3].
      etransitivity; [|exact Hf]. by apply map_subseteq_size.
  - intros pod. fold (room hash verdict now v) in *. rewrite map_filter_insert. case_decide as Ha.
    + destruct verdict as [r|]; [|done]. cbn in Ha. subst pod. rewrite <- insert_delete_eq, map_size_insert_None by apply lookup_delete_eq.
      pose proof (same_pod_left hash r (drop_oldest hash (drop_rejections hash (by_token (sweep now v))))) as Hl. 
      unfold room, MAX_VERDICTS_PER_POD in *. lia.
    + etransitivity; [|apply (Hp pod)]. apply filter_size_mono. etransitivity; [apply delete_subseteq|done].
Qed.

(** What is remembered is the new verdict, or was. *)
Lemma remember_lookup hash verdict now v h e :
  by_token (remember hash verdict now v) !! h = Some e -> (h = hash /\ e = (now, verdict)) \/ by_token v !! h = Some e.
Proof.
  unfold remember. cbn [by_token]. intros [[-> <-]|[_ H]]%lookup_insert_Some; [by left|right].
  exact (lookup_weaken _ _ _ _ H (room_subseteq hash verdict now v)).
Qed.

(** A verdict about another pod, or a rejection, pushes out no accepted one
    in use while there are fewer of them than the cache holds, however many
    rejections fill it; expired ones not yet swept count among them. *)
Lemma remember_keeps hash verdict now v h at_ r :
  by_token v !! h = Some (at_, Some r) -> h <> hash -> kept now (at_, Some r) = true ->
  match verdict with Some r' => pod_uid r' <> pod_uid r | None => True end ->
  (size (filter (fun e => is_some e.2.2 = true) (by_token v)) < MAX_VERDICTS)%nat ->
  by_token (remember hash verdict now v) !! h = Some (at_, Some r).
Proof.
  intros Hh Hne Hk Hpod Hfew. unfold remember. cbn [by_token]. rewrite lookup_insert_ne by done.
  set (m1 := by_token (sweep now v)). assert (H1 : m1 !! h = Some (at_, Some r)).
  { unfold m1, sweep. destruct (match swept v with Some _ => _ | None => true end); [|done]. cbn [by_token].
    apply map_lookup_filter_Some. by split. }
  set (m2 := drop_rejections hash m1). assert (H2 : m2 !! h = Some (at_, Some r)).
  { unfold m2, drop_rejections. destruct (full m1 hash); [|done]. apply map_lookup_filter_Some. by split. }
  assert (H3 : drop_oldest hash m2 !! h = Some (at_, Some r)).
  { unfold drop_oldest. destruct (full m2 hash) eqn:Hf; [|done]. exfalso.
    apply not_false_iff_true in Hf. apply Hf, full_false. left. unfold m2 in Hf |- *. unfold drop_rejections in Hf |- *.
    destruct (full m1 hash) eqn:Hf1; [|done]. eapply Nat.le_lt_trans; [|exact Hfew].
    apply map_subseteq_size. etransitivity; [|apply map_filter_subseteq_mono, (sweep_subseteq now v)].
    apply map_subseteq_spec. intros k e [Ke Pe]%map_lookup_filter_Some. by apply map_lookup_filter_Some. }
  destruct verdict as [r'|]; [|done]. rewrite drop_same_pod_lookup, decide_False; [done|].
  intros (_ & a & r'' & E & Hp)%same_pod_gone_in. rewrite H3 in E. by simplify_eq.
Qed.

(** *** Limits *)

Lemma filter_size_le {V} (P : IpAddr * V -> Prop) `{forall e, Decision (P e)} (m : gmap IpAddr V) : (size (filter P m) <= size m)%nat.
Proof. apply map_subseteq_size, map_filter_subseteq. Qed.

Lemma charge_review_rated peer now buckets :
  (size buckets <= MAX_RATED_PEERS)%nat -> (size (charge_review peer now buckets).2 <= MAX_RATED_PEERS)%nat.
Proof.
  intros Hs. assert (Hc : forall b : gmap IpAddr ReviewBucket, (size b < MAX_RATED_PEERS)%nat \/ is_Some (b !! peer) -> (size b <= MAX_RATED_PEERS)%nat ->
    (size (charge peer now b).2 <= MAX_RATED_PEERS)%nat).
  { intros b Hb Hle. unfold charge. destruct (SFltb _ _); cbn [snd]; rewrite map_size_insert; destruct Hb as [?|[? Hx]]; try rewrite Hx; destruct (b !! peer); cbn; lia. }
  unfold charge_review. destruct (_ && _) eqn:Hf.
  - cbv zeta. destruct (MAX_RATED_PEERS <=? size (filter _ _))%nat eqn:Hle; cbn [snd].
    + etransitivity; [apply filter_size_le|exact Hs].
    + apply Nat.leb_gt in Hle. apply Hc; [by left|by apply Nat.lt_le_incl].
  - apply Hc; [|done]. apply andb_false_iff in Hf as [Hf%Nat.leb_gt|Hf%negb_false_iff]; [by left|right]. destruct (_ !! _); [eauto|done].
Qed.

(** ** Counting peers *)

Definition count_of (p : IpAddr) (m : gmap IpAddr nat) : nat := default 0%nat (m !! p).

Definition positive_counts (m : gmap IpAddr nat) : Prop := forall p n, m !! p = Some n -> (0 < n)%nat.

Lemma peer_review_count p cap m ok m' q : peer_review p cap m = (ok, m') ->
  count_of q m' = (count_of q m + b2n (ok && bool_decide (p = q)))%nat.
Proof.
  unfold peer_review, count_of. intros H.
  destruct (match cap with Some _ => _ | None => false end); injection H as <- <-; destruct (decide (p = q)) as [->|Hne];
    rewrite ?lookup_insert_eq, ?lookup_insert_ne by done; cbn; rewrite ?bool_decide_true, ?bool_decide_false by done; cbn; lia.
Qed.

Lemma peer_review_positive p cap m ok m' : cap <> Some 0%nat -> positive_counts m -> peer_review p cap m = (ok, m') -> positive_counts m'.
Proof.
  unfold peer_review. intros Hc Hm H.
  destruct (match cap with Some _ => _ | None => false end) eqn:E; injection H as <- <-; intros q n [[<- <-]|[_ Hq]]%lookup_insert_Some; try lia; eauto.
  destruct cap as [[|k]|]; [done| |done]. apply Nat.leb_le in E. lia.
Qed.

Lemma peer_review_capped p k m m' : peer_review p (Some k) m = (true, m') -> (count_of p m < k)%nat.
Proof. unfold peer_review, count_of. destruct (_ <=? _)%nat eqn:E; intros [=]. by apply Nat.leb_gt in E. Qed.

Lemma peer_drop_count p m q : positive_counts m -> (0 < count_of p m)%nat ->
  (count_of q (peer_review_drop p m) + b2n (bool_decide (p = q)) = count_of q m)%nat.
Proof.
  unfold count_of, peer_review_drop. intros Hm Hp. destruct (m !! p) as [n|] eqn:E; cbn in Hp; [|lia].
  destruct (decide (p = q)) as [<-|Hne].
  - rewrite bool_decide_true, E by done. cbn [b2n default]. destruct (n - 1 =? 0)%nat eqn:En.
    + rewrite lookup_delete_eq. apply Nat.eqb_eq in En. cbn. lia.
    + rewrite lookup_insert_eq. cbn. lia.
  - rewrite bool_decide_false by done. destruct (n - 1 =? 0)%nat; [rewrite lookup_delete_ne by done|rewrite lookup_insert_ne by done]; cbn; lia.
Qed.

Lemma peer_drop_positive p m : positive_counts m -> positive_counts (peer_review_drop p m).
Proof.
  intros Hm. unfold peer_review_drop. destruct (m !! p) as [n|]; [|done]. destruct (n - 1 =? 0)%nat eqn:En; intros q k.
  - intros [_ H]%lookup_delete_Some. eauto.
  - apply Nat.eqb_neq in En. intros [[<- <-]|[_ H]]%lookup_insert_Some; [lia|eauto].
Qed.

(** ** What calls hold is what is taken *)

Definition counted_from (p : IpAddr) (c : Call) : bool := counted c && bool_decide (peer c = p).

(** A call that reviews a token no verdict was kept for. *)
Definition for_unknown (c : Call) : bool := match read c with Some (_, Unknown) => true | _ => false end.

Definition unknown_from (p : IpAddr) (c : Call) : bool := counted_from p c && for_unknown c.

(** What a call holds where it stands. *)
Definition place_ok (c : Call) : Prop :=
  match phase c with
  | Start => counted c = false /\ unknown_permit c = false /\ renewal_permit c = false /\ read c = None
  | TakePeer => counted c = false /\ unknown_permit c = false /\ renewal_permit c = false /\ for_unknown c = true
  | TakePermit b => counted c = b /\ unknown_permit c = false /\ renewal_permit c = false /\ for_unknown c = true
  | Charge => counted c = true /\ unknown_permit c = true /\ renewal_permit c = false /\ for_unknown c = true
  | AwaitPermit _ => counted c = false /\ unknown_permit c = false /\ renewal_permit c = false /\ for_unknown c = false
  | CountRenewal _ => counted c = false /\ unknown_permit c = false /\ renewal_permit c = true /\ for_unknown c = false
  | Reviewing None => counted c = true /\ unknown_permit c = true /\ renewal_permit c = false /\ for_unknown c = true
  | Reviewing (Some _) => counted c = true /\ unknown_permit c = false /\ renewal_permit c = true /\ for_unknown c = false
  | Leaving _ | Abandoned => unknown_permit c = true -> for_unknown c = true
  | Done _ | Gone => counted c = false /\ unknown_permit c = false /\ renewal_permit c = false
  end.

Record held_ok (a : AuthState) (m : gmap nat Call) : Prop := {
  unknown_held : (unknown a + count unknown_permit m = MAX_REVIEWS_IN_FLIGHT)%nat;
  renewals_held : (renewals a + count renewal_permit m = MAX_RENEWALS_IN_FLIGHT)%nat;
  peers_held p : count_of p (peers a) = count (counted_from p) m;
  peers_positive : positive_counts (peers a);
  peers_capped p : (count (unknown_from p) m <= MAX_REVIEWS_PER_PEER)%nat;
  peers_rated : (size (review_rates a) <= MAX_RATED_PEERS)%nat;
  verdicts_kept : verdicts_ok (verdicts a);
  places i c : m !! i = Some c -> place_ok c;
}.

Lemma held_update a a' m i c c' : held_ok a m -> m !! i = Some c -> place_ok c' ->
  (unknown a' + b2n (unknown_permit c') = unknown a + b2n (unknown_permit c))%nat ->
  (renewals a' + b2n (renewal_permit c') = renewals a + b2n (renewal_permit c))%nat ->
  (forall p, count_of p (peers a') + b2n (counted_from p c) = count_of p (peers a) + b2n (counted_from p c'))%nat ->
  positive_counts (peers a') ->
  (forall p, (b2n (unknown_from p c') <= b2n (unknown_from p c))%nat \/ (count_of p (peers a) < MAX_REVIEWS_PER_PEER)%nat) ->
  (size (review_rates a') <= MAX_RATED_PEERS)%nat -> verdicts_ok (verdicts a') -> held_ok a' (<[i := c']> m).
Proof.
  intros [Hu Hr Hp Hpos Hcap Hrate Hv Hpl] Hi Hc Eu Er Ep Hpos' Hcap' Hrate' Hv'. constructor; try done.
  - pose proof (count_step unknown_permit m i c c' Hi). lia.
  - pose proof (count_step renewal_permit m i c c' Hi). lia.
  - intros p. pose proof (count_step (counted_from p) m i c c' Hi). specialize (Hp p). specialize (Ep p). lia.
  - intros p. pose proof (count_step (unknown_from p) m i c c' Hi) as Hs. specialize (Hcap p). destruct (Hcap' p) as [Hle|Hlt]; [lia|].
    assert (Hm : (count (unknown_from p) m <= count (counted_from p) m)%nat).
    { apply count_mono. intros x. unfold unknown_from. by intros [? _]%andb_true_iff. }
    rewrite <- Hp in Hm. destruct (unknown_from p c'); cbn [b2n] in Hs; lia.
  - intros j x [[<- <-]|[_ Hx]]%lookup_insert_Some; eauto.
Qed.

(** A step that moves the call and touches no count. *)
Lemma held_moves a m i c c' : held_ok a m -> m !! i = Some c -> place_ok c' ->
  unknown_permit c' = unknown_permit c -> renewal_permit c' = renewal_permit c -> counted c' = counted c -> peer c' = peer c ->
  (counted c = true -> read c' = read c) -> held_ok a (<[i := c']> m).
Proof.
  intros Hh Hi Hc Eu Er Ec Ep Erd. eapply held_update; try done; rewrite ?Eu, ?Er; try done; try apply Hh.
  - intros p. unfold counted_from. by rewrite Ec, Ep.
  - intros p. left. unfold unknown_from, counted_from, for_unknown. rewrite Ec, Ep. destruct (counted c) eqn:E; [|done].
    by rewrite Erd.
Qed.

Section Held.
Context {SE : Sealing} (au : Authenticator).

Lemma begin_place a c now : place_ok c -> phase c = Start -> place_ok (begin au a c now) /\
  unknown_permit (begin au a c now) = unknown_permit c /\ renewal_permit (begin au a c now) = renewal_permit c
  /\ counted (begin au a c now) = counted c /\ peer (begin au a c now) = peer c.
Proof.
  intros Hpl Hph. unfold place_ok in Hpl. rewrite Hph in Hpl. destruct Hpl as (Hc & Hu & Hr & _). unfold begin.
  destruct (negb _); [unfold place_ok; cbn; by rewrite Hu|]. case_bool_decide; [unfold place_ok; cbn; by rewrite Hu|].
  destruct (cached _ _ _); unfold place_ok; cbn; by rewrite ?Hu, ?Hc, ?Hr.
Qed.

(** Counting a review of the call's peer. *)
Lemma held_counts a m i c c' cap ok p' : held_ok a m -> m !! i = Some c -> counted c = false -> cap <> Some 0%nat ->
  (forall k, cap = Some k -> (k <= MAX_REVIEWS_PER_PEER)%nat) -> (cap = None -> for_unknown c = false) ->
  peer_review (peer c) cap (peers a) = (ok, p') ->
  unknown_permit c' = unknown_permit c -> renewal_permit c' = renewal_permit c -> counted c' = ok -> peer c' = peer c -> read c' = read c ->
  place_ok c' -> held_ok (set_peers a p') (<[i := c']> m).
Proof.
  intros Hh Hi Hc Hcap Hle Hren Hrev Eu Er Ec Ep Erd Hpl. eapply held_update; try done; rewrite ?Eu, ?Er; try done; try apply Hh.
  - intros p. cbn [peers set_peers]. rewrite (peer_review_count _ _ _ _ _ p Hrev). unfold counted_from. rewrite Hc, Ec, Ep. cbn. lia.
  - cbn [peers set_peers]. eapply peer_review_positive; [done|apply Hh|done].
  - intros p. unfold unknown_from, counted_from, for_unknown. rewrite Hc, Ec, Ep, Erd. cbn [andb b2n].
    destruct ok; [|left; cbn; lia]. destruct (decide (peer c = p)) as [<-|]; [|left; rewrite bool_decide_false by done; cbn; lia].
    destruct cap as [k|].
    + right. apply peer_review_capped in Hrev. specialize (Hle k eq_refl). lia.
    + left. specialize (Hren eq_refl). unfold for_unknown in Hren. rewrite Hren, andb_false_r. cbn. lia.
Qed.

Lemma held_drops_peer a m i c : held_ok a m -> m !! i = Some c -> counted c = true -> (exists r, phase c = Leaving r) \/ phase c = Abandoned ->
  held_ok (set_peers a (peer_review_drop (peer c) (peers a))) (<[i := set_counted c false]> m).
Proof.
  intros Hh Hi Hc Hph. pose proof (places _ _ Hh _ _ Hi) as Hpl.
  assert (Hpos : (0 < count_of (peer c) (peers a))%nat).
  { rewrite (peers_held _ _ Hh). eapply count_pos; [exact Hi|]. unfold counted_from. by rewrite Hc, bool_decide_true. }
  eapply held_update; try done; try apply Hh.
  - unfold place_ok in *. cbn. destruct Hph as [[r Hph]|Hph]; rewrite Hph in *; exact Hpl.
  - intros p. cbn [peers set_peers]. pose proof (peer_drop_count (peer c) (peers a) p (peers_positive _ _ Hh) Hpos) as E.
    unfold counted_from. cbn [counted set_counted peer]. rewrite Hc. cbn [andb b2n]. lia.
  - cbn [peers set_peers]. apply peer_drop_positive, Hh.
  - intros p. left. unfold unknown_from, counted_from. cbn. lia.
Qed.

Lemma held_step a now m i c s a' c' : held_ok a m -> m !! i = Some c -> call_step au a now c s = Some (a', c') -> held_ok a' (<[i := c']> m).
Proof.
  intros Hh Hi Hs. pose proof (places _ _ Hh _ _ Hi) as Hpl. unfold call_step in Hs.
  destruct s, (phase c) as [| |b| |st|st|st|r|r| |] eqn:Hph; try discriminate Hs.
  10,11: destruct (unknown_permit c) eqn:Hu; [|done]; injection Hs as <- <-; eapply held_update; try done; try apply Hh;
    [unfold place_ok; cbn; by rewrite Hph|cbn; rewrite Hu; cbn; lia|intros p; by left].
  10,11: destruct (renewal_permit c) eqn:Hr; [|done]; injection Hs as <- <-; eapply held_update; try done; try apply Hh;
    [unfold place_ok in *; cbn; rewrite Hph in *; exact Hpl|cbn; rewrite Hr; cbn; lia|intros p; by left].
  10,11: destruct (counted c) eqn:Hc; [|done]; injection Hs as <- <-; eapply held_drops_peer; eauto.
  10,11: destruct (unknown_permit c || renewal_permit c || counted c) eqn:Hn; [done|]; injection Hs as <- <-;
    apply orb_false_iff in Hn as [[Hu Hr]%orb_false_iff Hc]; by eapply held_moves.
  10,11: unfold place_ok in Hpl; rewrite Hph in Hpl; injection Hs as <- <-; eapply held_moves; try done;
    unfold place_ok, for_unknown in *; cbn; try destruct st; destruct Hpl as (? & ? & ? & ?); intros; congruence.
  - injection Hs as <- <-. destruct (begin_place a c now Hpl Hph) as (Hp' & Eu & Er & Ec & Ep).
    eapply held_moves; try done. unfold place_ok in Hpl. rewrite Hph in Hpl. destruct Hpl as (-> & _). done.
  - unfold place_ok in Hpl. rewrite Hph in Hpl. destruct Hpl as (Hc & Hu & Hr & Hf).
    destruct (peer_review _ _ _) as [ok p'] eqn:Hrev. injection Hs as <- <-.
    eapply (held_counts a m i c _ (Some MAX_REVIEWS_PER_PEER)); try done. by intros k [= <-].
  - unfold place_ok in Hpl. rewrite Hph in Hpl. destruct Hpl as (Hc & Hu & Hr & Hf).
    injection Hs as <- <-. destruct (0 <? unknown a)%nat eqn:Ht.
    + apply Nat.ltb_lt in Ht. eapply held_update; try done; try apply Hh.
      * unfold place_ok, for_unknown in *. rewrite andb_true_r. cbn. destruct b; cbn; by rewrite ?Hc.
      * cbn. rewrite Hu. cbn. lia.
      * intros p. by left.
    + rewrite andb_false_r. by eapply held_moves.
  - unfold place_ok in Hpl. rewrite Hph in Hpl. destruct Hpl as (Hc & Hu & Hr & Hf).
    pose proof (charge_review_rated (peer c) now (review_rates a) (peers_rated _ _ Hh)) as Hrated.
    destruct (charge_review _ _ _) as [ok rates]. injection Hs as <- <-. eapply held_update; try done; try apply Hh.
    + unfold place_ok, for_unknown in *. destruct ok; cbn; by rewrite ?Hc, ?Hu, ?Hr.
    + intros p. by left.
  - unfold place_ok in Hpl. rewrite Hph in Hpl. destruct Hpl as (Hc & Hu & Hr & Hf).
    destruct (0 <? renewals a)%nat eqn:Ht; [|done]. apply Nat.ltb_lt in Ht. injection Hs as <- <-. eapply held_update; try done; try apply Hh.
    + cbn. rewrite Hr. cbn. lia.
    + intros p. by left.
  - unfold place_ok in Hpl. rewrite Hph in Hpl. destruct Hpl as (Hc & Hu & Hr & Hf). injection Hs as <- <-. eapply held_moves; try done.
    unfold failed, place_ok. cbn. by rewrite Hu.
  - unfold place_ok in Hpl. rewrite Hph in Hpl. destruct Hpl as (Hc & Hu & Hr & Hf).
    destruct (peer_review _ _ _) as [ok p'] eqn:Hrev. injection Hs as <- <-.
    assert (ok = true) as -> by (unfold peer_review in Hrev; by injection Hrev). by eapply (held_counts a m i c _ None).
  - unfold place_ok in Hpl. rewrite Hph in Hpl. injection Hs as <- <-. eapply held_update; try done; try apply Hh.
    + by unfold place_ok, for_unknown in *; cbn; destruct st; destruct Hpl as (? & ? & ? & ?); intros; congruence.
    + intros p. by left.
    + cbn. apply remember_ok, Hh.
  - unfold place_ok in Hpl. rewrite Hph in Hpl. injection Hs as <- <-. eapply held_moves; try done.
    by unfold place_ok, for_unknown in *; cbn; destruct st; destruct Hpl as (? & ? & ? & ?); intros; congruence.
Qed.
End Held.

(** ** What an answer rests on *)

Section Grounds.
Context {SE : Sealing} (au : Authenticator).

(** A TokenReview of a token of this hash, taken in at [t], had this verdict. *)
Definition said (log : list (list Z * Z * TokenReviewStatus)) (hash : TokenHash) (t : Z) (v : option Reviewed) : Prop :=
  exists tok status, (tok, t, status) ∈ log /\ token_hash tok = hash /\ verdict (audience au) status = v.

Definition authorized (c : Call) : Prop := claimed c = expected c /\ expected c ∉ refused au.

(** A verdict good for a call: not older than both lifetimes when the call
    read the cache, or given since. *)
Definition in_time (c : Call) (t ttl : Z) : Prop := exists asked found, read c = Some (asked, found) /\ asked - t < ttl.

Definition grounds (log : list (list Z * Z * TokenReviewStatus)) (c : Call) (answer : result (list Z) Refusal) : Prop :=
  match answer with
  | Ok pod =>
      authorized c /\ exists r t, account r = expected c /\ pod_uid r = pod
        /\ said log (token_hash (token c)) t (Some r) /\ in_time c t (CACHE_TTL + STALE_TTL)
  | Err Unauthenticated =>
      claimed c <> expected c \/ exists t, said log (token_hash (token c)) t None /\ in_time c t CACHE_TTL
  | Err Forbidden =>
      expected c ∈ refused au \/ exists r t, account r <> expected c /\ said log (token_hash (token c)) t (Some r)
  | Err Throttled | Err Unavailable => for_unknown c = true
  end.

Definition stands (log : list (list Z * Z * TokenReviewStatus)) (c : Call) : Prop :=
  match phase c with
  | Start => True
  | TakePeer | TakePermit _ | Charge | Reviewing None => authorized c
  | AwaitPermit st | CountRenewal st | Reviewing (Some st) =>
      authorized c /\ exists t, said log (token_hash (token c)) t (Some st) /\ in_time c t (CACHE_TTL + STALE_TTL)
  | Leaving answer | Done answer => grounds log c answer
  | Abandoned | Gone => True
  end.

Record world_ok (w : AuthWorld) : Prop := {
  world_held : held_ok (state w) (calls w);
  world_cache h t v : by_token (verdicts (state w)) !! h = Some (t, v) -> said (reviews w) h t v;
  world_stands i c : calls w !! i = Some c -> stands (reviews w) c;
  world_past i c t found : calls w !! i = Some c -> read c = Some (t, found) -> t <= clock w;
}.

Lemma said_more log log' h t v : log ⊆ log' -> said log h t v -> said log' h t v.
Proof. intros Hs (tok & st & Hin & Hr). exists tok, st. split; [by apply Hs|done]. Qed.

Lemma stands_more log log' c : log ⊆ log' -> stands log c -> stands log' c.
Proof.
  intros Hs. unfold stands, grounds. destruct (phase c) as [| |b| |st|st|[st|]|[r|[]]|[r|[]]| |]; try done;
    naive_solver eauto using said_more.
Qed.

Lemma settle_grounds log c r t : authorized c -> said log (token_hash (token c)) t (Some r) -> in_time c t (CACHE_TTL + STALE_TTL) ->
  grounds log c (settle c r).
Proof. intros Ha Hs Ht. unfold settle. case_bool_decide; cbn; [|right; eauto]. eauto 10. Qed.

Lemma grounds_phase log c p answer : grounds log (at_phase c p) answer <-> grounds log c answer.
Proof. by destruct answer as [|[]]. Qed.

Lemma logged_subseteq s c now log : log ⊆ logged s c now log.
Proof. unfold logged. destruct s; intros x Hx; try done. by right. Qed.

Lemma cached_said w h now : world_ok w -> match cached (verdicts (state w)) h now with
  | Fresh r | Expired r => exists t, said (reviews w) h t (Some r) /\ now - t < CACHE_TTL + STALE_TTL
  | Rejected => exists t, said (reviews w) h t None /\ now - t < CACHE_TTL
  | Unknown => True
  end.
Proof.
  intros Hw. unfold cached. destruct (by_token _ !! h) as [[t [r|]]|] eqn:E; [| |done]; apply (world_cache _ Hw) in E; unfold elapsed, CACHE_TTL, STALE_TTL, HOLD.
  - destruct (Z.max 0 (now - t) <? 30000000000) eqn:E1; [|destruct (Z.max 0 (now - t) <? 30000000000 + 30000000000) eqn:E2; [|exact I]]; exists t; (split; [done|lia]).
  - destruct (_ <? _) eqn:E1; [|exact I]. exists t. split; [done|lia].
Qed.

Lemma begin_stands w c : world_ok w -> phase c = Start -> let c' := begin au (state w) c (clock w) in
  stands (reviews w) c' /\ forall t found, read c' = Some (t, found) -> t = clock w \/ read c = Some (t, found).
Proof.
  intros Hw Hph. cbv zeta. unfold begin. destruct (bool_decide (claimed c = expected c)) eqn:Ec; cbn [negb].
  2: { apply bool_decide_eq_false in Ec. split; [|by right]. unfold stands. cbn. by left. }
  apply bool_decide_eq_true in Ec. case_bool_decide as Er; [split; [unfold stands; cbn; by left|by right]|].
  assert (Ha : authorized c) by done. pose proof (cached_said w (token_hash (token c)) (clock w) Hw) as Hc.
  split; [|by destruct (cached _ _ _); cbn; intros t f [= <- _]; left].
  destruct (cached _ _ _) as [r| |r|]; unfold stands; cbn [phase at_phase]; [| | |exact Ha].
  - destruct Hc as (t & Hs & Ht). apply grounds_phase, (settle_grounds _ _ _ t); [exact Ha|exact Hs|]. unfold in_time. cbn. eauto.
  - destruct Hc as (t & Hs & Ht). right. exists t. split; [exact Hs|]. unfold in_time. cbn. eauto.
  - destruct Hc as (t & Hs & Ht). split; [exact Ha|]. exists t. split; [exact Hs|]. unfold in_time. cbn. eauto.
Qed.

Lemma answered_stands w i c status st : world_ok w -> calls w !! i = Some c -> phase c = Reviewing st ->
  stands ((token c, clock w, status) :: reviews w) (answered au (state w) c (clock w) status).2.
Proof.
  intros Hw Hi Hph. pose proof (world_stands _ Hw _ _ Hi) as Hst. unfold stands in Hst. rewrite Hph in Hst.
  assert (Ha : authorized c) by (by destruct st; [apply Hst|]).
  assert (Hr : exists asked found, read c = Some (asked, found)).
  { pose proof (places _ _ (world_held _ Hw) _ _ Hi) as Hpl. unfold place_ok in Hpl. rewrite Hph in Hpl. destruct st.
    - destruct Hst as (_ & t & _ & (a & f & E & _)). eauto.
    - destruct Hpl as (_ & _ & _ & Hf). unfold for_unknown in Hf. destruct (read c) as [[t f]|]; [eauto|done]. }
  destruct Hr as (asked & found & Hr). pose proof (world_past _ Hw _ _ _ _ Hi Hr) as Hp.
  set (log := (token c, clock w, status) :: reviews w). assert (Hsaid : said log (token_hash (token c)) (clock w) (verdict (audience au) status)).
  { exists (token c), status. split; [by left|done]. }
  unfold stands. cbn [answered snd at_phase phase]. destruct (verdict (audience au) status) as [r|] eqn:Ev.
  - apply grounds_phase, (settle_grounds log c r (clock w)); [done|done|]. exists asked, found. split; [done|]. unfold CACHE_TTL, STALE_TTL, HOLD. lia.
  - right. exists (clock w). split; [exact Hsaid|]. exists asked, found. split; [done|]. unfold CACHE_TTL, HOLD. lia.
Qed.

Lemma step_stands w i c s a' c' : world_ok w -> calls w !! i = Some c -> call_step au (state w) (clock w) c s = Some (a', c') ->
  stands (logged s c (clock w) (reviews w)) c' /\ (forall t found, read c' = Some (t, found) -> t <= clock w)
  /\ forall h t v, by_token (verdicts a') !! h = Some (t, v) -> said (logged s c (clock w) (reviews w)) h t v.
Proof.
  intros Hw Hi Hs. pose proof (world_stands _ Hw _ _ Hi) as Hst. pose proof (fun t f => world_past _ Hw _ _ t f Hi) as Hpast.
  pose proof (places _ _ (world_held _ Hw) _ _ Hi) as Hpl.
  assert (Hcache : forall h t v, by_token (verdicts (state w)) !! h = Some (t, v) -> said (logged s c (clock w) (reviews w)) h t v).
  { intros h t v E. eapply said_more; [apply logged_subseteq|]. by apply (world_cache _ Hw). }
  unfold call_step in Hs. unfold stands in Hst. unfold place_ok in Hpl.
  destruct s, (phase c) as [| |b| |st|st|st|r|r| |] eqn:Hph; try discriminate Hs; cbn [logged] in *.
  10,11: destruct (unknown_permit c); [|done]; injection Hs as <- <-; unfold stands; cbn; rewrite Hph; done.
  10,11: destruct (renewal_permit c); [|done]; injection Hs as <- <-; unfold stands; cbn; rewrite Hph; done.
  10,11: destruct (counted c); [|done]; injection Hs as <- <-; unfold stands; cbn; rewrite Hph; done.
  10,11: destruct (_ || _); [done|]; injection Hs as <- <-; done.
  10,11: injection Hs as <- <-; done.
  - injection Hs as <- <-. destruct (begin_stands w c Hw Hph) as [H1 H2]. split; [done|]. split; [|done].
    intros t f Hr. destruct (H2 _ _ Hr) as [->|?]; [lia|eauto].
  - destruct (peer_review _ _ _). injection Hs as <- <-. done.
  - injection Hs as <- <-. split; [|split; [done|by destruct (0 <? _)%nat]]. unfold stands. cbn. destruct (b && _); cbn; [done|]. apply Hpl.
  - destruct (charge_review _ _ _) as [ok rates]. injection Hs as <- <-. split; [|done]. unfold stands. cbn. destruct ok; cbn; [done|]. apply Hpl.
  - destruct (0 <? _)%nat; [|done]. injection Hs as <- <-. done.
  - injection Hs as <- <-. split; [|done]. destruct Hst as (Ha & t & Hs & Ht). by apply grounds_phase, (settle_grounds _ _ _ t).
  - destruct (peer_review _ _ _). injection Hs as <- <-. done.
  - injection Hs as <- <-. split; [by apply (answered_stands w i c status st)|]. split; [done|].
    intros h t v [[-> [= -> ->]]|E]%remember_lookup; [|by apply Hcache]. exists (token c), status. split; [by left|done].
  - injection Hs as <- <-. split; [|done]. unfold failed, stands. cbn. destruct st as [st|].
    + destruct Hst as (Ha & t & Hs & Ht). by apply grounds_phase, (settle_grounds _ _ _ t).
    + cbn. apply Hpl.
Qed.

Lemma world_step w w' : world_ok w -> auth_step au w w' -> world_ok w'.
Proof.
  intros Hw H. destruct H as [w t Ht|w i sa tok g p Hi|w i c s a' c' Hi Hs].
  - constructor; cbn; try apply Hw. intros i c t' f Hi Hr. etransitivity; [eapply Hw; eassumption|done].
  - constructor; cbn; try apply Hw.
    + destruct (world_held _ Hw) as [H1 H2 H3 H4 H5 H6 H7 H8]. constructor; try done.
      * rewrite count_new by done. cbn. lia.
      * rewrite count_new by done. cbn. lia.
      * intros q. rewrite count_new by done. cbn. rewrite H3. lia.
      * intros q. rewrite count_new by done. specialize (H5 q). cbn. lia.
      * intros j c [[<- <-]|[_ Hj]]%lookup_insert_Some; [done|eauto].
    + intros j c [[<- <-]|[_ Hj]]%lookup_insert_Some; [done|]. by eapply Hw.
    + intros j c t f [[<- <-]|[_ Hj]]%lookup_insert_Some Hr; [done|]. by eapply Hw.
  - destruct (step_stands w i c s a' c' Hw Hi Hs) as (H1 & H2 & H3). constructor; cbn.
    + eapply held_step; [apply Hw|exact Hi|exact Hs].
    + exact H3.
    + intros j x [[<- <-]|[_ Hj]]%lookup_insert_Some; [done|]. eapply stands_more; [apply logged_subseteq|by eapply Hw].
    + intros j x t f [[<- <-]|[_ Hj]]%lookup_insert_Some Hr; [by eapply H2|by eapply Hw].
Qed.
End Grounds.

(** ** The service accounts of Gateways *)

Section Labels.
Context {SE : Sealing}.

Definition is_hex_digit (b : Z) : bool := is_ascii_digit b || ((97 <=? b) && (b <=? 102)).

(** [{:02x}] of each of 32 bytes. *)
Definition hex_digest : Prop := forall m, length (sha256_hex m) = 64%nat /\ Forall (fun b => is_hex_digit b = true) (sha256_hex m).

(** A DNS-1123 subdomain, as Kubernetes names Gateways, but for its length. *)
Definition gateway_name_ok (s : list Z) : Prop :=
  Forall (fun c => is_ascii_lowercase c || is_ascii_digit c || (c =? 45) || (c =? 46) = true) s.

Definition label_char (c : Z) : bool := is_ascii_lowercase c || is_ascii_digit c || (c =? 45).

Lemma hash8 g : hex_digest -> length (take HASH_HEX_DIGITS (sha256_hex g)) = 8%nat /\ Forall (fun b => is_hex_digit b = true) (take HASH_HEX_DIGITS (sha256_hex g)).
Proof. intros H. destruct (H g) as [Hl Hf]. split; [rewrite length_take, Hl; done|by apply Forall_take]. Qed.

Lemma hex_label b : is_hex_digit b = true -> is_ascii_lowercase b || is_ascii_digit b = true.
Proof. unfold is_hex_digit, is_ascii_lowercase, is_ascii_digit. rewrite !orb_true_iff, !andb_true_iff, !Z.leb_le. lia. Qed.

(** A prefix, a cut and a hash make a label. *)
Lemma hashed_label pre cut hash : length pre = 8%nat -> (length cut <= 46)%nat -> length hash = 8%nat ->
  Forall (fun c => label_char c = true) pre -> Forall (fun c => label_char c = true) cut -> Forall (fun b => is_hex_digit b = true) hash ->
  match head pre with Some c => is_ascii_lowercase c | None => false end = true ->
  is_dns1123_label (pre ++ cut ++ 45 :: hash) = true.
Proof.
  intros Lp Lc Lh Hp Hc Hh Hhd. unfold is_dns1123_label. rewrite !andb_true_iff. split; [split; [split; [split|]|]|].
  - by destruct pre.
  - apply Nat.leb_le. rewrite !length_app. cbn. unfold MAX_DNS1123_LABEL. lia.
  - apply forallb_Forall, Forall_app. split; [done|]. apply Forall_app. split; [done|]. constructor; [done|].
    eapply Forall_impl; [exact Hh|]. cbn. intros b Hb%hex_label. rewrite Hb. done.
  - destruct pre as [|p pre]; [done|]. cbn in *. rewrite Hhd. done.
  - destruct (last_is_Some hash) as [_ [h Hl]]; [by destruct hash|]. rewrite app_assoc, last_app, last_cons, Hl.
    rewrite Forall_forall in Hh. by apply hex_label, Hh, last_Some_elem_of.
Qed.

Lemma resource_name_label g : hex_digest -> gateway_name_ok g -> is_dns1123_label (resource_name g) = true.
Proof.
  intros Hx Hg. unfold resource_name. destruct (is_dns1123_label (LABEL_PREFIX ++ g)) eqn:E; [done|].
  set (label := map _ g). assert (Hl : Forall (fun c => label_char c = true) label).
  { unfold label. apply Forall_fmap. eapply Forall_impl; [exact Hg|]. cbn. intros c Hc. unfold compose, label_char.
    destruct (c =? 46) eqn:Ec; [done|]. by rewrite orb_false_r in Hc. }
  destruct (hash8 g Hx) as [H8 Hh]. apply hashed_label; try done.
  - unfold trim_end_matches. rewrite length_take. cbn [length LABEL_PREFIX]. unfold str_get_to.
    change (MAX_LABEL - length LABEL_PREFIX - 1 - HASH_HEX_DIGITS)%nat with 46%nat.
    destruct (46 <=? length label)%nat eqn:E46; [|apply Nat.leb_gt in E46; cbn [andb default from_option id]; lia].
    cbn [andb]. destruct (label !! 46%nat) as [b|] eqn:Eb; [|cbn [negb default from_option id]; rewrite length_take; lia].
    rewrite Forall_lookup in Hl. apply Hl in Eb. unfold label_char, is_ascii_lowercase, is_ascii_digit in Eb.
    replace (cont_byte b) with false; [cbn [negb default from_option id]; rewrite length_take; lia|]. symmetry. unfold cont_byte. bool_simpl. lia.
  - by repeat constructor.
  - unfold trim_end_matches. apply Forall_take. unfold str_get_to. destruct (_ && _); [by apply Forall_take|done].
Qed.

(** A Gateway may be named as another's hashed name ends: they share one
    ServiceAccount, and the names of their objects. *)
Lemma dotted_name_is_shared : hex_digest ->
  let taken := bs "a-b-" ++ take HASH_HEX_DIGITS (sha256_hex (bs "a.b")) in
  gateway_name_ok taken /\ taken <> bs "a.b" /\ resource_name (bs "a.b") = resource_name taken.
Proof.
  intros Hx. cbv zeta. destruct (hash8 (bs "a.b") Hx) as [H8 Hh]. set (hash := take _ _) in *. split; [|split].
  - apply Forall_app. split; [by repeat constructor|]. eapply Forall_impl; [exact Hh|]. cbn. intros b Hb%hex_label. by rewrite Hb.
  - discriminate.
  - unfold resource_name at 2. change (LABEL_PREFIX ++ bs "a-b-" ++ hash) with (LABEL_PREFIX ++ bs "a-b" ++ 45 :: hash).
    rewrite hashed_label by (done || by repeat constructor || (cbn; lia)). done.
Qed.
End Labels.

(** ** Who syncs, and at what cost *)

Section Authentication.
Context {SE : Sealing} (namespace service : list Z) (own : option ServiceAccount).

Let au := (Authenticator_new namespace service own).1.
Let a0 := (Authenticator_new namespace service own).2.

Lemma auth_start_ok t : world_ok au (auth_start a0 t).
Proof.
  assert (Hc : forall p : Call -> bool, count p ∅ = 0%nat) by (intros p; by apply count_none).
  constructor; [|done..]. constructor; cbn [auth_start state calls]; try done.
  - intros p. rewrite Hc. apply Nat.le_0_l.
  - apply Nat.le_0_l.
  - constructor; [apply Nat.le_0_l|]. intros pod. change (by_token (verdicts a0)) with (∅ : Kept). rewrite map_filter_empty. apply Nat.le_0_l.
Qed.

Lemma auth_reached_ok w : auth_reached au a0 w -> world_ok au w.
Proof. induction 1; [apply auth_start_ok|by eapply world_step]. Qed.

(** C24: only a Gateway's own pods sync it. However calls interleave with each
    other and with the clock, and whatever the API server answers: when
    [authenticate] names an instance, the token claimed the ServiceAccount of
    the Gateway asked for, that account is not one of the controller's own,
    and a TokenReview of a token of this very hash said that it is that
    account's, for the controller's audience, bound to the pod the instance is
    named by. That review was taken in after the call read the cache, or less
    than the two lifetimes of a verdict, a minute, before. *)
Theorem only_vouched_pods_sync (w : AuthWorld) (i : nat) (c : Call) (pod : list Z)
  (Hreached : auth_reached au a0 w) (Hcall : calls w !! i = Some c) (Hdone : phase c = Done (Ok pod)) :
  claimed c = ServiceAccount_of (gateway c) /\ ServiceAccount_of (gateway c) ∉ refused au /\
  exists asked found t tok status, read c = Some (asked, found) /\ (tok, t, status) ∈ reviews w /\ token_hash tok = token_hash (token c)
    /\ verdict (controller_audience service namespace) status = Some {| account := ServiceAccount_of (gateway c); pod_uid := pod |}
    /\ asked - t < 2 * HOLD.
Proof.
  pose proof (world_stands _ _ (auth_reached_ok w Hreached) _ _ Hcall) as Hst. unfold stands in Hst. rewrite Hdone in Hst.
  destruct Hst as ((Hc & Hr) & r & t & Ha & Hp & (tok & status & Hin & Hh & Hv) & (asked & found & Hread & Ht)).
  split; [done|]. split; [done|]. exists asked, found, t, tok, status. do 3 (split; [done|]). split.
  - destruct r as [a p]. unfold expected in Ha. cbn in Ha, Hp. subst. exact Hv.
  - unfold CACHE_TTL, STALE_TTL in Ht. lia.
Qed.

(** Every refusal is deserved. Unauthenticated: the token claims another
    account, or a review less than half a minute old when the cache was read,
    or made since, had nothing for it. Forbidden: the account is the
    controller's own, or the token reviewed is another's. Throttled and
    unavailable are only ever said of a token the cache kept no verdict for:
    no flood of unknown tokens, and no failing API server, refuses a data
    plane whose verdict is kept. *)
Theorem refusals_are_deserved (w : AuthWorld) (i : nat) (c : Call) (e : Refusal)
  (Hreached : auth_reached au a0 w) (Hcall : calls w !! i = Some c) (Hdone : phase c = Done (Err e)) :
  match e with
  | Unauthenticated => claimed c <> ServiceAccount_of (gateway c)
      \/ exists t, said au (reviews w) (token_hash (token c)) t None /\ in_time c t HOLD
  | Forbidden => ServiceAccount_of (gateway c) ∈ refused au
      \/ exists r t, account r <> ServiceAccount_of (gateway c) /\ said au (reviews w) (token_hash (token c)) t (Some r)
  | Throttled | Unavailable => exists asked, read c = Some (asked, Unknown)
  end.
Proof.
  pose proof (world_stands _ _ (auth_reached_ok w Hreached) _ _ Hcall) as Hst. unfold stands in Hst. rewrite Hdone in Hst.
  unfold grounds, expected, for_unknown in Hst. destruct e; try exact Hst; destruct (read c) as [[t []]|]; try done; eauto.
Qed.

(** C25: authentication costs what it may. However calls interleave, at most 16
    reviews of unknown tokens and 4 renewals are in flight, at most 2 of the
    former for one peer; at most 4096 verdicts are kept, 2 of them accepted
    ones of one pod, and 4096 peers' rates; and once every call is answered,
    or was dropped while it waited, all permits are back and no peer is
    counted. *)
Theorem reviews_stay_within_limits (w : AuthWorld) (Hreached : auth_reached au a0 w) :
  (count (fun c => match phase c with Reviewing None => true | _ => false end) (calls w) <= 16)%nat
  /\ (count (fun c => match phase c with Reviewing (Some _) => true | _ => false end) (calls w) <= 4)%nat
  /\ (forall p, (count (fun c => match phase c with Reviewing None => bool_decide (peer c = p) | _ => false end) (calls w) <= 2)%nat)
  /\ (size (by_token (verdicts (state w))) <= 4096)%nat
  /\ (forall pod, (size (filter (accepted_for pod) (by_token (verdicts (state w)))) <= 2)%nat)
  /\ (size (review_rates (state w)) <= 4096)%nat
  /\ ((forall i c, calls w !! i = Some c -> (exists r, phase c = Done r) \/ phase c = Gone) ->
      unknown (state w) = 16%nat /\ renewals (state w) = 4%nat /\ peers (state w) = ∅).
Proof.
  pose proof (world_held _ _ (auth_reached_ok w Hreached)) as Hh.
  assert (Hsub : forall p q, (forall c, place_ok c -> p c = true -> q c = true) -> (count p (calls w) <= count q (calls w))%nat).
  { intros p q Hpq. apply map_subseteq_size, map_subseteq_spec. intros j x [Hj Hx]%map_lookup_filter_Some.
    apply map_lookup_filter_Some. split; [done|]. apply Hpq; [by eapply (places _ _ Hh)|done]. }
  assert (Hrev : forall c, place_ok c -> match phase c with Reviewing None => true | _ => false end = true ->
    unknown_permit c = true /\ counted c = true /\ for_unknown c = true).
  { intros c Hpl H. unfold place_ok in Hpl. destruct (phase c) as [| | | | | |[]| | | |]; try done. by destruct Hpl as (? & ? & _ & ?). }
  split; [|split; [|split; [|split; [|split; [|split]]]]].
  - pose proof (unknown_held _ _ Hh) as H. unfold MAX_REVIEWS_IN_FLIGHT in H. etransitivity; [apply (Hsub _ unknown_permit)|lia].
    intros c Hpl H'. by apply Hrev.
  - pose proof (renewals_held _ _ Hh) as H. unfold MAX_RENEWALS_IN_FLIGHT in H. etransitivity; [apply (Hsub _ renewal_permit)|lia].
    intros c Hpl H'. unfold place_ok in Hpl. destruct (phase c) as [| | | | | |[]| | | |]; try done. by destruct Hpl as (_ & _ & ? & _).
  - intros p. etransitivity; [apply (Hsub _ (unknown_from p))|apply Hh]. intros c Hpl Hp.
    assert (Hr : match phase c with Reviewing None => true | _ => false end = true) by (by destruct (phase c) as [| | | | | |[]| | | |]).
    destruct (Hrev c Hpl Hr) as (_ & Hc & Hf). unfold unknown_from, counted_from. rewrite Hc, Hf.
    destruct (phase c) as [| | | | | |[]| | | |]; try done. by rewrite Hp.
  - apply Hh.
  - apply Hh.
  - apply Hh.
  - intros Hall. set (over := fun c => (exists r, phase c = Done r) \/ phase c = Gone).
    assert (Hover : forall c, place_ok c -> over c -> counted c = false /\ unknown_permit c = false /\ renewal_permit c = false).
    { intros c Hpl [[r Hd]|Hd]; unfold place_ok in Hpl; by rewrite Hd in Hpl. }
    assert (Hnone : forall p, (forall c, place_ok c -> over c -> p c = false) -> count p (calls w) = 0%nat).
    { intros p Hp. apply count_none. intros j x Hj. apply Hp; [by eapply (places _ _ Hh)|by apply (Hall j)]. }
    pose proof (unknown_held _ _ Hh) as Hu. pose proof (renewals_held _ _ Hh) as Hr.
    rewrite Hnone in Hu, Hr by (intros c Hpl Hd; apply (Hover c Hpl Hd)).
    unfold MAX_REVIEWS_IN_FLIGHT, MAX_RENEWALS_IN_FLIGHT in *. split; [lia|]. split; [lia|]. apply map_eq. intros p. rewrite lookup_empty.
    destruct (peers (state w) !! p) as [n|] eqn:E; [|done]. pose proof (peers_positive _ _ Hh _ _ E) as Hn.
    pose proof (peers_held _ _ Hh p) as Hc. unfold count_of in Hc. rewrite E, Hnone in Hc; [cbn in Hc; lia|].
    intros c Hpl Hd. unfold counted_from. by destruct (Hover c Hpl Hd) as (-> & _).
Qed.
End Authentication.

(** Forgeries push out no running data plane's verdict. While fewer than
    4096 accepted verdicts are kept, taking in a rejection, or another pod's
    verdict, keeps every accepted verdict that is not past both its lifetimes,
    however full the cache is of rejections. *)
Theorem floods_keep_verdicts (hash h : TokenHash) (v : option Reviewed) (now t : Z) (kept_before : Verdicts) (r : Reviewed)
  (Hkept : by_token kept_before !! h = Some (t, Some r)) (Hother : h <> hash) (Hage : now - t < 2 * HOLD)
  (Hpod : match v with Some r' => pod_uid r' <> pod_uid r | None => True end)
  (Hfew : (size (filter (fun e => is_some e.2.2 = true) (by_token kept_before)) < 4096)%nat) :
  by_token (remember hash v now kept_before) !! h = Some (t, Some r).
Proof.
  apply remember_keeps; try done. unfold kept, elapsed, CACHE_TTL, STALE_TTL. cbn. unfold HOLD in *. lia.
Qed.

(** Every Gateway has a ServiceAccount Kubernetes can name. *)
Theorem service_account_is_nameable `{Sealing} (g : GatewayKey) (Hhex : hex_digest) (Hname : gateway_name_ok (gk_name g)) :
  is_dns1123_label (sa_name (ServiceAccount_of g)) = true.
Proof. by apply resource_name_label. Qed.

(** ** At work *)

Definition hex_char (d : Z) : Z := if d <? 10 then 48 + d else 87 + d.

(** A digest of 64 digits: the first bytes, spelt out. *)
Definition toy_digest (m : list Z) : list Z :=
  take 64 (flat_map (fun b => [hex_char (b / 16 mod 16); hex_char (b mod 16)]) m ++ repeat 48 64).

Definition toy_sealing : Sealing := {| sha256_hex := toy_digest; snapshot_json := fun s => version s |}.

#[local] Existing Instance toy_sealing.

Lemma hex_char_digit d : 0 <= d < 16 -> is_hex_digit (hex_char d) = true.
Proof.
  intros Hd. unfold hex_char, is_hex_digit, is_ascii_digit. destruct (d <? 10) eqn:E;
    rewrite orb_true_iff, !andb_true_iff, !Z.leb_le; lia.
Qed.

Lemma toy_hex_digest : @hex_digest toy_sealing.
Proof.
  intros m. cbn. unfold toy_digest. split; [rewrite length_take, length_app, repeat_length; lia|]. apply Forall_take, Forall_app. split.
  - apply Forall_flat_map, Forall_forall. intros b _. repeat constructor; apply hex_char_digit; apply Z.mod_pos_bound; lia.
  - apply Forall_forall. intros b Hb%list_elem_of_In%repeat_spec. by subst.
Qed.

Section Play.
Context (au : Authenticator).

(** Calls of a world taken through steps, one by one. *)
Fixpoint play (w : AuthWorld) (l : list (nat * CallStep)) : option AuthWorld :=
  match l with
  | [] => Some w
  | (i, s) :: l =>
      c ← calls w !! i;
      '(a', c') ← call_step au (state w) (clock w) c s;
      play {| state := a'; calls := <[i := c']> (calls w); clock := clock w; reviews := logged s c (clock w) (reviews w) |} l
  end.

Lemma play_reached a w l w' : auth_reached au a w -> play w l = Some w' -> auth_reached au a w'.
Proof.
  induction l as [|[i s] l IH] in w |- *; intros Hw H; [by injection H as <-|]. cbn in H.
  destruct (calls w !! i) as [c|] eqn:Ec; [|done]. cbn in H. destruct (call_step _ _ _ _ _) as [[a' c']|] eqn:Es; [|done]. cbn in H.
  eapply IH; [|exact H]. eapply reached_more; [exact Hw|]. by eapply step_call.
Qed.
End Play.

Definition sample_service : list Z := bs "portail-controller".
Definition sample_namespace : list Z := bs "portail-system".
Definition sample_auth : Authenticator := (Authenticator_new sample_namespace sample_service None).1.
Definition sample_auth_state : AuthState := (Authenticator_new sample_namespace sample_service None).2.
Definition sample_key : GatewayKey := {| gk_namespace := bs "default"; gk_name := bs "gw" |}.
Definition sample_token : list Z := bs "token".
Definition sample_status : TokenReviewStatus := {|
  st_authenticated := Some true;
  st_audiences := Some [bs "portail-controller.portail-system.svc"];
  st_user := Some (Some (bs "system:serviceaccount:default:portail-gw"), Some {[ POD_UID := [bs "pod-1"] ]}) |}.

Definition asked_world : AuthWorld := {|
  state := sample_auth_state;
  calls := <[0%nat := call_new (ServiceAccount_of sample_key) sample_token sample_key (V4 1)]> ∅; clock := 0; reviews := [] |}.

(** A token not yet known, reviewed and accepted. *)
Definition sample_steps : list (nat * CallStep) :=
  map (pair 0%nat) [SStart; SPeer; SPermit; SCharge; SAnswered sample_status; SDropPermit; SDropPeer; SDone].

Definition sample_world : AuthWorld := default asked_world (play sample_auth asked_world sample_steps).

Lemma sample_world_reached : auth_reached sample_auth sample_auth_state sample_world.
Proof.
  apply (play_reached sample_auth sample_auth_state asked_world sample_steps).
  - eapply reached_more; [apply (reached_start _ _ 0)|]. by apply step_asked.
  - assert (H : is_some (play sample_auth asked_world sample_steps) = true) by (vm_compute; reflexivity).
    unfold sample_world. by destruct (play sample_auth asked_world sample_steps).
Qed.

Definition done_call : Call := default (call_new (ServiceAccount_of sample_key) [] sample_key (V4 1)) (calls sample_world !! 0%nat).

Lemma only_vouched_pods_sync_witness : phase done_call = Done (Ok (bs "pod-1")) /\ ServiceAccount_of sample_key ∉ refused sample_auth.
Proof.
  assert (E : phase done_call = Done (Ok (bs "pod-1"))) by (vm_compute; reflexivity). split; [exact E|].
  refine (proj1 (proj2 (only_vouched_pods_sync sample_namespace sample_service None sample_world 0 done_call (bs "pod-1") sample_world_reached _ E))).
  vm_compute. reflexivity.
Defined.

Lemma reviews_stay_within_limits_witness : unknown (state sample_world) = 16%nat /\ peers (state sample_world) = ∅.
Proof.
  pose proof (reviews_stay_within_limits sample_namespace sample_service None sample_world sample_world_reached) as (_ & _ & _ & _ & _ & _ & H).
  destruct H as (Hu & _ & Hp); [|by split]. intros i c Hi. left. exists (Ok (bs "pod-1")).
  assert (E : calls sample_world = {[ 0%nat := done_call ]}) by (vm_compute; reflexivity). rewrite E in Hi.
  apply lookup_singleton_Some in Hi as [_ <-]. vm_compute. reflexivity.
Defined.

Definition known_pod : Reviewed := {| account := ServiceAccount_of sample_key; pod_uid := bs "pod-1" |}.

Definition known_verdicts : Verdicts := {| by_token := {[ bs "a" := (0, Some known_pod) ]}; swept := None |}.

Lemma floods_keep_verdicts_witness : by_token (remember (bs "forged") None 59000000000 known_verdicts) !! bs "a" = Some (0, Some known_pod).
Proof. apply (floods_keep_verdicts (bs "forged") (bs "a") None 59000000000 0 known_verdicts known_pod); [reflexivity|done|unfold HOLD; lia|done|]. vm_compute. lia. Defined.

(** Ten reviews at once, then one every fifth of a second. *)
Example charge_burst :
  let charge_at t := fun m => charge_review (V4 1) t m in
  let burst := fold_left (fun '(n, m) _ => let '(ok, m) := charge_at 0 m in (n + b2n ok, m)%nat) (seq 0 20) (0%nat, ∅) in
  burst.1 = 10%nat /\ (charge_at 200000000 burst.2).1 = true /\ (charge_at 190000000 burst.2).1 = false.
Proof. vm_compute. auto. Qed.
