(* ===== verification/Hub.v ===== *)
(** * The snapshots the controller serves

    [src/src/kubernetes/controller/hub.rs]: one slot per Gateway, each with a
    [tokio::sync::watch] channel that held polls wait on. A channel outlives
    its slot while polls hold its receivers, and a slot made anew under the
    same key has another channel: channels are a store of their own, and slots
    and receivers point into it. [Instant::now()] is an argument. The count of
    a channel's sends is taken unbounded. *)

From S2P Require Import Prelude Bytes Config ConfigTable Addresses Snapshot.

#[export] Instance GatewayKey_countable : Countable GatewayKey.
Proof.
  refine (inj_countable' (fun k => (gk_namespace k, gk_name k)) (fun p => {| gk_namespace := p.1; gk_name := p.2 |}) _).
  by intros [].
Defined.

Abbreviation ChanPtr := nat.

(** [watch]: the value, how often it was sent, and whether the sender is
    still there. *)
Record Chan := { ch_value : option Snapshot; ch_sends : nat; ch_open : bool }.

(** A receiver: its channel, and the sends it has seen. *)
Record Receiver := { rx_chan : ChanPtr; rx_seen : nat }.

Record Slot := {
  slot_current : ChanPtr;
  slot_previous : option Snapshot;
  slot_published : option Z;
  slot_first_published : option Z;
}.

Record Hub := { slots : gmap GatewayKey Slot; chans : gmap ChanPtr Chan; next_chan : ChanPtr }.

Definition Hub_default : Hub := {| slots := ∅; chans := ∅; next_chan := 0 |}.

Definition new_chan : Chan := {| ch_value := None; ch_sends := 0; ch_open := true |}.

(** [Slot::new] on the next channel. *)
Definition Slot_new (chan : ChanPtr) : Slot :=
  {| slot_current := chan; slot_previous := None; slot_published := None; slot_first_published := None |}.

(** [slots.entry(key).or_insert_with(Slot::new)] *)
Definition entry (key : GatewayKey) (h : Hub) : Slot * Hub :=
  match slots h !! key with
  | Some slot => (slot, h)
  | None =>
      let slot := Slot_new (next_chan h) in
      (slot, {| slots := <[key := slot]> (slots h); chans := <[next_chan h := new_chan]> (chans h); next_chan := S (next_chan h) |})
  end.

(** [Sender::borrow] *)
Definition borrow (h : Hub) (chan : ChanPtr) : option Snapshot := c ← chans h !! chan; ch_value c.

Definition same_version (current : option Snapshot) (snapshot : Snapshot) : bool :=
  match current with Some current => beq (version current) (version snapshot) | None => false end.

(** [Sender::send_replace] *)
Definition send_replace (h : Hub) (chan : ChanPtr) (snapshot : Snapshot) : gmap ChanPtr Chan :=
  alter (fun c => {| ch_value := Some snapshot; ch_sends := S (ch_sends c); ch_open := ch_open c |}) chan (chans h).

Definition publish (snapshot : Snapshot) (now : Z) (h : Hub) : bool * Hub :=
  let key := GatewayRef_key (s_gateway snapshot) in
  let '(slot, h) := entry key h in
  let current := borrow h (slot_current slot) in
  if same_version current snapshot then (false, h)
  else
    let slot := {| slot_current := slot_current slot; slot_previous := current; slot_published := Some now;
                   slot_first_published := Some (default now (slot_first_published slot)) |} in
    (true, {| slots := <[key := slot]> (slots h); chans := send_replace h (slot_current slot) snapshot; next_chan := next_chan h |}).

(** Dropping a slot drops its sender. *)
Definition closed_chan (c : Chan) : Chan := {| ch_value := ch_value c; ch_sends := ch_sends c; ch_open := false |}.

Definition close (chan : ChanPtr) (m : gmap ChanPtr Chan) : gmap ChanPtr Chan := alter closed_chan chan m.

Definition remove (key : GatewayKey) (h : Hub) : bool * Hub :=
  match slots h !! key with
  | Some slot => (true, {| slots := delete key (slots h); chans := close (slot_current slot) (chans h); next_chan := next_chan h |})
  | None => (false, h)
  end.

Definition retain_slots (live : GatewayKey -> bool) (h : Hub) : Hub :=
  {| slots := filter (fun '(key, _) => live key = true) (slots h);
     chans := map_fold (fun key slot m => if live key then m else close (slot_current slot) m) (chans h) (slots h);
     next_chan := next_chan h |}.

Definition subscribe (key : GatewayKey) (h : Hub) : Receiver * Hub :=
  let '(slot, h) := entry key h in
  ({| rx_chan := slot_current slot; rx_seen := default 0%nat (ch_sends <$> chans h !! slot_current slot) |}, h).

Definition current (key : GatewayKey) (h : Hub) : option Snapshot := slot ← slots h !! key; borrow h (slot_current slot).

Definition published_at (key : GatewayKey) (h : Hub) : option Z := slot ← slots h !! key; slot_published slot.

Definition first_published_at (key : GatewayKey) (h : Hub) : option Z := slot ← slots h !! key; slot_first_published slot.

Definition opt_list {A} (o : option A) : list A := match o with Some x => [x] | None => [] end.

Definition generation_of (key : GatewayKey) (v : list Z) (h : Hub) : option Z :=
  slot ← slots h !! key;
  s ← find (fun s => beq (version s) v) (opt_list (borrow h (slot_current slot)) ++ opt_list (slot_previous slot));
  Some (gr_generation (s_gateway s)).

(** ** Receivers *)

(** [Receiver::borrow_and_update]; [borrow] is its first half. *)
Definition borrow_and_update (h : Hub) (rx : Receiver) : option Snapshot * Receiver :=
  (borrow h (rx_chan rx), {| rx_chan := rx_chan rx; rx_seen := default (rx_seen rx) (ch_sends <$> chans h !! rx_chan rx) |}).

(** [Receiver::changed]: [None] waits, [Some true] a send not seen, [Some
    false] the sender gone. *)
Definition changed (h : Hub) (rx : Receiver) : option bool :=
  match chans h !! rx_chan rx with
  | None => Some false
  | Some c => if negb (ch_sends c =? rx_seen rx)%nat then Some true else if ch_open c then None else Some false
  end.

(** ** Invariant *)

(** A slot's channel is open, its own, and allocated; an open channel is a
    slot's. *)
Record hub_ok (h : Hub) : Prop := {
  slot_chan key slot : slots h !! key = Some slot -> exists c, chans h !! slot_current slot = Some c /\ ch_open c = true;
  slot_own k k' slot slot' : slots h !! k = Some slot -> slots h !! k' = Some slot' -> slot_current slot = slot_current slot' -> k = k';
  chan_allocated n c : chans h !! n = Some c -> (n < next_chan h)%nat;
  chan_owned n c : chans h !! n = Some c -> ch_open c = true -> exists key slot, slots h !! key = Some slot /\ slot_current slot = n;
}.

Lemma hub_default_ok : hub_ok Hub_default.
Proof. by constructor. Qed.

Lemma entry_spec key h slot h' : hub_ok h -> entry key h = (slot, h') ->
  hub_ok h' /\ slots h' !! key = Some slot /\ (forall k, k <> key -> slots h' !! k = slots h !! k)
  /\ (forall n c, chans h !! n = Some c -> chans h' !! n = Some c)
  /\ (slots h !! key = Some slot /\ h' = h
      \/ slots h !! key = None /\ slot = Slot_new (next_chan h) /\ chans h' !! next_chan h = Some new_chan).
Proof.
  intros Hok. unfold entry. destruct (slots h !! key) as [s|] eqn:E; intros [= <- <-].
  { split; [done|]. split; [done|]. split; [done|]. split; [done|]. by left. }
  assert (Hfresh : chans h !! next_chan h = None).
  { destruct (chans h !! next_chan h) as [c|] eqn:Ec; [|done]. apply (chan_allocated _ Hok) in Ec. lia. }
  assert (Hkeep : forall n c, chans h !! n = Some c -> <[next_chan h := new_chan]> (chans h) !! n = Some c).
  { intros n c Hn. rewrite lookup_insert_ne; [done|]. intros <-. by rewrite Hfresh in Hn. }
  split; [|split; [apply lookup_insert_eq|split; [by intros; apply lookup_insert_ne|split; [done|right; split; [done|split; [done|apply lookup_insert_eq]]]]]].
  constructor; cbn.
  - intros k s [[<- <-]|[Hne Hk]]%lookup_insert_Some; [exists new_chan; by rewrite lookup_insert_eq|].
    destruct (slot_chan _ Hok _ _ Hk) as (c & Hc & Ho). eauto.
  - intros k k' s s' [[<- <-]|[Hne Hk]]%lookup_insert_Some [[<- <-]|[Hne' Hk']]%lookup_insert_Some Hs; [done| | |by eapply Hok].
    + destruct (slot_chan _ Hok _ _ Hk') as (c & Hc & _). cbn in Hs. rewrite <- Hs, Hfresh in Hc. done.
    + destruct (slot_chan _ Hok _ _ Hk) as (c & Hc & _). cbn in Hs. rewrite Hs, Hfresh in Hc. done.
  - intros n c [[<- <-]|[Hne Hn]]%lookup_insert_Some; [lia|]. apply (chan_allocated _ Hok) in Hn. lia.
  - intros n c [[<- <-]|[Hne Hn]]%lookup_insert_Some Ho.
    + exists key, (Slot_new (next_chan h)). by rewrite lookup_insert_eq.
    + destruct (chan_owned _ Hok _ _ Hn Ho) as (k & s & Hk & Hs). exists k, s. rewrite lookup_insert_ne; [done|]. intros <-. by rewrite E in Hk.
Qed.

Lemma publish_ok snapshot now h : hub_ok h -> hub_ok (publish snapshot now h).2.
Proof.
  intros Hok. unfold publish. destruct (entry _ h) as [slot h'] eqn:E. apply entry_spec in E as (Hok' & Hk & _); [|done].
  destruct (same_version _ _); [done|]. set (key := GatewayRef_key _) in *. cbn [snd].
  assert (Hs : forall k s, <[key := {| slot_current := slot_current slot; slot_previous := borrow h' (slot_current slot); slot_published := Some now;
      slot_first_published := Some (default now (slot_first_published slot)) |}]> (slots h') !! k = Some s ->
      exists s', slots h' !! k = Some s' /\ slot_current s' = slot_current s).
  { intros k s [[<- <-]|[_ H]]%lookup_insert_Some; eauto. }
  constructor; cbn [slots chans next_chan slot_current].
  - intros k s (s' & Hs' & <-)%Hs. destruct (slot_chan _ Hok' _ _ Hs') as (c & Hc & Ho). unfold send_replace.
    destruct (decide (slot_current slot = slot_current s')) as [->|Hne].
    + rewrite lookup_alter_eq, Hc. eexists. split; [reflexivity|]. exact Ho.
    + rewrite lookup_alter_ne by done. eauto.
  - intros k k' s s' Hks Hks' E. apply Hs in Hks as (t & Ht & Et). apply Hs in Hks' as (t' & Ht' & Et'). eapply (slot_own _ Hok'); [exact Ht|exact Ht'|congruence].
  - intros n c. unfold send_replace. rewrite lookup_alter_Some. intros [(<- & d & Hd & _)|[_ Hn]]; by eapply (chan_allocated _ Hok').
  - intros n c. unfold send_replace. rewrite lookup_alter_Some. intros Hn Ho.
    assert (H : exists d, chans h' !! n = Some d /\ ch_open d = true) by (destruct Hn as [(<- & d & Hd & ->)|[_ Hn]]; eauto).
    destruct H as (d & Hd & Hdo). destruct (chan_owned _ Hok' _ _ Hd Hdo) as (k & s & Hks & Hsn).
    destruct (decide (k = key)) as [->|Hne]; [|exists k, s; by rewrite lookup_insert_ne].
    eexists key, _. rewrite lookup_insert_eq. split; [done|]. cbn. by simplify_eq.
Qed.

Lemma close_lookup n (m : gmap ChanPtr Chan) c : close n m !! c = if decide (c = n) then closed_chan <$> m !! n else m !! c.
Proof. unfold close. case_decide as E; [subst; by rewrite lookup_alter_eq|by rewrite lookup_alter_ne]. Qed.

(** What a map of slots loses: every sender of it is dropped. *)
Lemma retain_chans (live : GatewayKey -> bool) (m : gmap GatewayKey Slot) (cs : gmap ChanPtr Chan) n
  (r := map_fold (fun key slot m => if live key then m else close (slot_current slot) m) cs m) :
  (forall k s, m !! k = Some s -> slot_current s = n -> live k = true) /\ r !! n = cs !! n
  \/ (exists k s, m !! k = Some s /\ slot_current s = n /\ live k = false) /\ r !! n = closed_chan <$> cs !! n.
Proof.
  revert r. cbv zeta. apply (map_fold_weak_ind (fun r m => (forall k s, m !! k = Some s -> slot_current s = n -> live k = true) /\ r !! n = cs !! n
    \/ (exists k s, m !! k = Some s /\ slot_current s = n /\ live k = false) /\ r !! n = closed_chan <$> cs !! n)).
  { by left. }
  intros k s m' r Hk IH. destruct (live k) eqn:El.
  - destruct IH as [[H E]|[(k' & s' & Hk' & Hs' & Hl') E]].
    + left. split; [|done]. intros k' s' [[<- <-]|[_ H']]%lookup_insert_Some Hs; eauto.
    + right. split; [|done]. exists k', s'. rewrite lookup_insert_ne; [done|]. intros <-. by rewrite El in Hl'.
  - rewrite close_lookup. case_decide as Hn.
    + right. split; [exists k, s; by rewrite lookup_insert_eq|]. subst. destruct IH as [[_ ->]|[_ ->]]; [done|].
      by destruct (cs !! _).
    + destruct IH as [[H E]|[(k' & s' & Hk' & Hs' & Hl') E]].
      * left. split; [|done]. intros k' s' [[<- <-]|[_ H']]%lookup_insert_Some Hs; [by subst|eauto].
      * right. split; [|done]. exists k', s'. rewrite lookup_insert_ne; [done|]. intros <-. by rewrite Hk in Hk'.
Qed.

Lemma remove_is_retain key h : hub_ok h -> (remove key h).2 = retain_slots (fun k => negb (bool_decide (k = key))) h.
Proof.
  intros Hok. unfold remove, retain_slots. destruct (slots h !! key) as [slot|] eqn:E; cbn [snd].
  - f_equal.
    + apply map_eq. intros k. destruct (decide (k = key)) as [->|Hne].
      * rewrite lookup_delete_eq. symmetry. apply map_lookup_filter_None. right. intros s _. by rewrite bool_decide_true.
      * rewrite lookup_delete_ne by done. destruct (slots h !! k) as [s|] eqn:Ek; symmetry; [apply map_lookup_filter_Some|apply map_lookup_filter_None; by left].
        split; [done|]. by rewrite bool_decide_false.
    + apply map_eq. intros n. rewrite close_lookup.
      destruct (retain_chans (fun k => negb (bool_decide (k = key))) (slots h) (chans h) n) as [[H ->]|[(k & s & Hk & Hs & Hl) ->]].
      * rewrite decide_False; [done|]. intros ->. specialize (H key slot E eq_refl). by rewrite bool_decide_true in H.
      * apply negb_false_iff, bool_decide_eq_true in Hl as ->. rewrite decide_True by congruence. simplify_eq. done.
  - destruct h as [sl cs nx]. cbn in *. f_equal.
    + apply map_eq. intros k. destruct (sl !! k) as [s|] eqn:Ek; symmetry; [apply map_lookup_filter_Some|apply map_lookup_filter_None; by left].
      split; [done|]. rewrite bool_decide_false; [done|]. intros ->. by rewrite E in Ek.
    + apply map_eq. intros n. destruct (retain_chans (fun k => negb (bool_decide (k = key))) sl cs n) as [[H ->]|[(k & s & Hk & Hs & Hl) _]]; [done|].
      apply negb_false_iff, bool_decide_eq_true in Hl as ->. by rewrite E in Hk.
Qed.

Lemma retain_ok live h : hub_ok h -> hub_ok (retain_slots live h).
Proof.
  intros Hok. constructor; unfold retain_slots; cbn [slots chans next_chan].
  - intros k s [Hk Hl]%map_lookup_filter_Some. destruct (slot_chan _ Hok _ _ Hk) as (c & Hc & Ho).
    destruct (retain_chans live (slots h) (chans h) (slot_current s)) as [[_ ->]|[(k' & s' & Hk' & Hs' & Hl') _]]; [eauto|].
    rewrite (slot_own _ Hok _ _ _ _ Hk Hk' (eq_sym Hs')) in Hl. by rewrite Hl in Hl'.
  - intros k k' s s' [Hk _]%map_lookup_filter_Some [Hk' _]%map_lookup_filter_Some. by eapply Hok.
  - intros n c Hn. destruct (retain_chans live (slots h) (chans h) n) as [[_ E]|[_ E]]; rewrite E in Hn; [by eapply (chan_allocated _ Hok)|].
    apply fmap_Some in Hn as (d & Hd & _). by eapply (chan_allocated _ Hok).
  - intros n c Hn Ho. destruct (retain_chans live (slots h) (chans h) n) as [[H E]|[_ E]]; rewrite E in Hn.
    + destruct (chan_owned _ Hok _ _ Hn Ho) as (k & s & Hk & Hs). exists k, s. split; [|done]. apply map_lookup_filter_Some. eauto.
    + apply fmap_Some in Hn as (d & _ & ->). done.
Qed.

Lemma remove_ok key h : hub_ok h -> hub_ok (remove key h).2.
Proof. intros Hok. rewrite remove_is_retain by done. by apply retain_ok. Qed.

(** ** What a hub is: histories *)

(** The versions published for each Gateway it serves and when, the newest
    first. *)
Abbreviation Histories := (gmap GatewayKey (list (Snapshot * Z))).

Inductive HubOp :=
  | Publish (snapshot : Snapshot) (now : Z)
  | Remove (key : GatewayKey)
  | Retain (live : GatewayKey -> bool)
  | Subscribe (key : GatewayKey).

Definition history (key : GatewayKey) (H : Histories) : list (Snapshot * Z) := default [] (H !! key).

(** The answer of an operation that has one. *)
Definition spec_op (op : HubOp) (H : Histories) : option bool * Histories :=
  match op with
  | Publish s now =>
      let key := GatewayRef_key (s_gateway s) in
      if same_version (fst <$> head (history key H)) s then (Some false, H)
      else (Some true, <[key := (s, now) :: history key H]> H)
  | Remove key => (Some (is_some (H !! key)), delete key H)
  | Retain live => (None, filter (fun '(key, _) => live key = true) H)
  | Subscribe key => (None, <[key := history key H]> H)
  end.

Definition hub_op (op : HubOp) (h : Hub) : option bool * Hub :=
  match op with
  | Publish s now => let '(b, h) := publish s now h in (Some b, h)
  | Remove key => let '(b, h) := remove key h in (Some b, h)
  | Retain live => (None, retain_slots live h)
  | Subscribe key => (None, (subscribe key h).2)
  end.

(** A slot that holds a history. *)
Definition slot_models (h : Hub) (slot : Slot) (l : list (Snapshot * Z)) : Prop :=
  borrow h (slot_current slot) = fst <$> head l /\ slot_previous slot = fst <$> l !! 1%nat
  /\ slot_published slot = snd <$> head l /\ slot_first_published slot = snd <$> last l.

Definition hub_models (h : Hub) (H : Histories) : Prop :=
  hub_ok h /\ forall key, match slots h !! key, H !! key with
                   | Some slot, Some l => slot_models h slot l
                   | None, None => True
                   | _, _ => False
                   end.

Lemma hub_models_history h H key slot : hub_models h H -> slots h !! key = Some slot -> H !! key = Some (history key H) /\ slot_models h slot (history key H).
Proof. intros [_ Hm] Hk. specialize (Hm key). rewrite Hk in Hm. unfold history. by destruct (H !! key). Qed.

Lemma slot_models_same h h' slot l : borrow h' (slot_current slot) = borrow h (slot_current slot) -> slot_models h slot l -> slot_models h' slot l.
Proof. unfold slot_models. by intros ->. Qed.

Lemma entry_models key h H slot h' : hub_models h H -> entry key h = (slot, h') -> hub_models h' (<[key := history key H]> H) /\ slots h' !! key = Some slot.
Proof.
  intros [Hok Hm] E. pose proof (entry_spec _ _ _ _ Hok E) as (Hok' & Hk & Hne & Hc & Hcase). split; [|done]. split; [done|]. intros k.
  assert (Hold : forall s l, slots h !! k = Some s -> slot_models h s l -> slot_models h' s l).
  { intros s l Hs. apply slot_models_same. destruct (slot_chan _ Hok _ _ Hs) as (c & Hcc & _). unfold borrow. by rewrite (Hc _ _ Hcc), Hcc. }
  destruct (decide (k = key)) as [->|Hk'].
  - rewrite Hk, lookup_insert_eq. destruct Hcase as [[Hs ->]|(Hs & -> & Hnew)].
    + specialize (Hm key). rewrite Hs in Hm. unfold history. by destruct (H !! key).
    + specialize (Hm key). rewrite Hs in Hm. unfold history. destruct (H !! key); [done|]. unfold slot_models, borrow. cbn. by rewrite Hnew.
  - rewrite Hne, lookup_insert_ne by done. specialize (Hm k). destruct (slots h !! k), (H !! k); eauto.
Qed.

Lemma models_histories_ext h H H' : (forall k, H !! k = H' !! k) -> hub_models h H -> hub_models h H'.
Proof. intros E [Hok Hm]. split; [done|]. intros k. rewrite <- E. apply Hm. Qed.

Lemma publish_models s now h H : hub_models h H ->
  Some (publish s now h).1 = (spec_op (Publish s now) H).1 /\ hub_models (publish s now h).2 (spec_op (Publish s now) H).2.
Proof.
  intros HM. pose proof (publish_ok s now h (proj1 HM)) as Hok. unfold publish in *. cbn [spec_op]. set (key := GatewayRef_key (s_gateway s)) in *.
  destruct (entry key h) as [slot h1] eqn:E. destruct (entry_models _ _ _ _ _ HM E) as [HM1 Hk].
  destruct (hub_models_history _ _ _ _ HM1 Hk) as [EH (Hcur & _ & _ & Hfirst)].
  assert (Hh : history key (<[key := history key H]> H) = history key H) by (unfold history at 1; by rewrite lookup_insert_eq).
  rewrite Hh in *. rewrite <- Hcur. destruct (same_version _ s) eqn:Ev; cbn [fst snd] in *.
  - split; [done|]. eapply models_histories_ext; [|exact HM1]. intros k. destruct (decide (k = key)) as [->|]; [|by rewrite lookup_insert_ne].
    rewrite lookup_insert_eq. unfold history in *. destruct (H !! key); [done|]. rewrite Hcur in Ev. done.
  - split; [done|]. split; [exact Hok|]. intros k. cbn [slots]. destruct (decide (k = key)) as [->|Hne].
    + rewrite !lookup_insert_eq. destruct (slot_chan _ (proj1 HM1) _ _ Hk) as (c & Hc & _).
      unfold slot_models, borrow. cbn. unfold send_replace. cbn. rewrite lookup_alter_eq, Hc. cbn. unfold borrow in Hcur. rewrite Hc in Hcur. cbn in Hcur.
      split; [done|]. split; [by rewrite Hcur; destruct (history key H)|]. split; [done|].
      rewrite Hfirst, last_cons. by destruct (last (history key H)).
    + rewrite !lookup_insert_ne by done. pose proof (proj2 HM1 k) as Hm. rewrite lookup_insert_ne in Hm by done.
      destruct (slots h1 !! k) as [sk|] eqn:Ek, (H !! k) as [l|]; try done. revert Hm. apply slot_models_same. unfold borrow. cbn. unfold send_replace.
      rewrite lookup_alter_ne; [done|]. intros Heq. by apply Hne, eq_sym, (slot_own _ (proj1 HM1) _ _ _ _ Hk Ek).
Qed.

Lemma retain_models live h H : hub_models h H -> hub_models (retain_slots live h) (filter (fun '(key, _) => live key = true) H).
Proof.
  intros [Hok Hm]. split; [by apply retain_ok|]. intros k. specialize (Hm k). unfold retain_slots. cbn [slots].
  destruct (live k) eqn:El.
  - assert (Hf : forall {A} (m : gmap GatewayKey A), filter (fun '(key, _) => live key = true) m !! k = m !! k).
    { intros A m. destruct (m !! k) eqn:Em; [by apply map_lookup_filter_Some|apply map_lookup_filter_None; by left]. }
    rewrite !Hf. destruct (slots h !! k) as [s|] eqn:Ek, (H !! k) as [l|]; try done. revert Hm. apply slot_models_same. unfold borrow. cbn [chans].
    destruct (retain_chans live (slots h) (chans h) (slot_current s)) as [[_ ->]|[_ ->]]; [done|]. by destruct (chans h !! _).
  - assert (Hf : forall {A} (m : gmap GatewayKey A), filter (fun '(key, _) => live key = true) m !! k = None).
    { intros A m. apply map_lookup_filter_None. right. intros x _. by rewrite El. }
    by rewrite !Hf.
Qed.

Lemma op_models op h H : hub_models h H -> (hub_op op h).1 = (spec_op op H).1 /\ hub_models (hub_op op h).2 (spec_op op H).2.
Proof.
  intros HM. destruct op as [s now|key|live|key].
  - pose proof (publish_models s now h H HM) as HP. cbn [hub_op]. destruct (publish s now h) as [b h']. exact HP.
  - cbn [hub_op spec_op]. assert (Hb : (remove key h).1 = is_some (H !! key)).
    { pose proof (proj2 HM key) as Hm. unfold remove. by destruct (slots h !! key), (H !! key). }
    pose proof (remove_is_retain key h (proj1 HM)) as Hr. destruct (remove key h) as [b h']. cbn in *. subst. split; [done|].
    eapply models_histories_ext; [|by apply retain_models]. intros k. destruct (decide (k = key)) as [->|Hne].
    + rewrite lookup_delete_eq. apply map_lookup_filter_None. right. intros x _. by rewrite bool_decide_true.
    + rewrite lookup_delete_ne by done. destruct (H !! k) eqn:Ek; [|apply map_lookup_filter_None; by left].
      apply map_lookup_filter_Some. split; [done|]. by rewrite bool_decide_false.
  - split; [done|]. by apply retain_models.
  - cbn [hub_op spec_op]. split; [done|]. unfold subscribe. destruct (entry key h) as [slot h'] eqn:E. cbn [snd]. by eapply entry_models.
Qed.

Definition run_hub (ops : list HubOp) : Hub := fold_left (fun h op => (hub_op op h).2) ops Hub_default.

Definition run_spec (ops : list HubOp) : Histories := fold_left (fun H op => (spec_op op H).2) ops ∅.

Lemma run_models ops : hub_models (run_hub ops) (run_spec ops).
Proof.
  unfold run_hub, run_spec. assert (Hg : forall h H, hub_models h H -> hub_models (fold_left (fun h op => (hub_op op h).2) ops h) (fold_left (fun H op => (spec_op op H).2) ops H)).
  { induction ops as [|op ops IH]; intros h H HM; [done|]. cbn. apply IH, op_models, HM. }
  apply Hg. split; [apply hub_default_ok|done].
Qed.

(** C26: the hub is the histories of what was published. After any operations,
    what the hub answers next and shows of a Gateway is what the list of the
    versions published for it says: its current snapshot and when it was
    published are the newest of the list, its first publication the oldest, and
    the generation of a version is known while it is one of the two newest.
    Publishing the version that is current adds nothing to the list; a removed
    Gateway's list is lost. *)
Theorem hub_refines_histories (ops : list HubOp) (op : HubOp) (key : GatewayKey) (v : list Z) :
  let h := run_hub ops in let H := run_spec ops in let l := history key H in
  (hub_op op h).1 = (spec_op op H).1
  /\ current key h = fst <$> head l
  /\ published_at key h = snd <$> head l
  /\ first_published_at key h = snd <$> last l
  /\ generation_of key v h = (fun s => gr_generation (s_gateway s)) <$> find (fun s => beq (version s) v) (map fst (take 2 l)).
Proof.
  cbv zeta. pose proof (run_models ops) as HM. split; [by apply op_models|]. set (h := run_hub ops) in *. set (H := run_spec ops) in *.
  unfold current, published_at, first_published_at, generation_of. destruct (slots h !! key) as [slot|] eqn:Ek.
  - destruct (hub_models_history _ _ _ _ HM Ek) as [_ (Hc & Hp & Hpub & Hfirst)]. cbn. rewrite Hc, Hp. repeat (split; [done|]).
    destruct (history key H) as [|[s1 t1] [|[s2 t2] l]]; cbn; [done| |]; by repeat case_match.
  - pose proof (proj2 HM key) as Hm. rewrite Ek in Hm. unfold history. destruct (H !! key); done.
Qed.
