(* ===== verification/Reports.v ===== *)
(** * What data planes report

    [src/src/kubernetes/controller/reports.rs], the last report of each
    instance, and [Lapses] of [src/src/kubernetes/controller/server.rs], which
    wakes a Gateway's reconcile when an instance falls silent. A report is
    recorded and its deadline moved in two steps, between which other handlers
    and the watching tasks run; [Instant::now()] is an argument. The channels of
    triggers and wakes are the lists of what was sent. *)

From S2P Require Import Prelude Bytes Net Config ConfigTable Addresses DataPlane Snapshot Apply SyncLoop Hub.

Abbreviation InstanceId := (list Z).

Record Trigger := { t_gateway : GatewayKey; t_dns_moved : bool }.

Record Entry := { e_report : InstanceReport; e_seen : Z }.

(** [Duration::from_secs(2 * HOLD.as_secs())] *)
Definition LIVENESS : Z := 2 * (HOLD / 1000000000) * 1000000000.

Record ReportStore := {
  gateways : gmap GatewayKey (gmap InstanceId Entry);
  triggers : list Trigger;
  receiver : bool;
}.

Definition ReportStore_default : ReportStore := {| gateways := ∅; triggers := []; receiver := true |}.

(** [Instant::elapsed] *)
Definition since (now t : Z) : Z := Z.max 0 (now - t).

Definition alive (now : Z) (e : Entry) : bool := since now (e_seen e) <? LIVENESS.

(** The instances of a Gateway once those silent are dropped and this one's
    report is in. *)
Definition recorded (instance : InstanceId) (report : InstanceReport) (now seen : Z) (instances : gmap InstanceId Entry) : gmap InstanceId Entry :=
  <[instance := {| e_report := report; e_seen := seen |}]> (filter (fun '(_, e) => alive now e = true) instances).

(** [now] is when the silent ones are told, [seen] when the report is put in. *)
Definition record (gateway : GatewayKey) (instance : InstanceId) (report : InstanceReport) (now seen : Z) (s : ReportStore) : ReportStore :=
  let instances := default ∅ (gateways s !! gateway) in
  let previous := filter (fun '(_, e) => alive now e = true) instances !! instance in
  let s' := {| gateways := <[gateway := recorded instance report now seen instances]> (gateways s); triggers := triggers s; receiver := receiver s |} in
  if match previous with Some p => bool_decide (e_report p = report) | None => false end then s'
  else
    let dns_moved := match previous with Some p => negb (r_dns_epoch (e_report p) =? r_dns_epoch report) | None => false end in
    {| gateways := gateways s'; triggers := triggers s' ++ [{| t_gateway := gateway; t_dns_moved := dns_moved |}]; receiver := receiver s' |}.

Definition live (gateway : GatewayKey) (now : Z) (s : ReportStore) : list (InstanceId * InstanceReport) :=
  match gateways s !! gateway with
  | None => []
  | Some instances =>
      sort_by (fun a b => bytes_compare a.1 b.1)
        (map (fun e => (e.1, e_report e.2))
           (List.filter (fun e => alive now e.2 && negb (leaving (e_report e.2))) (map_to_list instances)))
  end.

Definition max_opt (l : list Z) : option Z :=
  match l with [] => None | x :: l => Some (fold_left Z.max l x) end.

Definition last_leaving (gateway : GatewayKey) (s : ReportStore) : option Z :=
  instances ← gateways s !! gateway;
  max_opt (map (fun e => e_seen e.2) (List.filter (fun e => leaving (e_report e.2)) (map_to_list instances))).

Definition retain_reports (keep : GatewayKey -> bool) (s : ReportStore) : ReportStore :=
  {| gateways := filter (fun '(key, _) => keep key = true) (gateways s); triggers := triggers s; receiver := receiver s |}.

(** [triggers]: whether the receiver is given, once. *)
Definition take_triggers (s : ReportStore) : bool * ReportStore :=
  (receiver s, {| gateways := gateways s; triggers := triggers s; receiver := false |}).

(** ** Lapses *)

Abbreviation LapseKey := (GatewayKey * InstanceId)%type.

(** [wakes]: each Gateway woken and when. *)
Record Lapses := { deadlines : gmap LapseKey Z; wakes : list (GatewayKey * Z) }.

Definition Lapses_new : Lapses := {| deadlines := ∅; wakes := [] |}.

(** Whether a watching task is spawned. *)
Definition seen (key : LapseKey) (now : Z) (l : Lapses) : bool * Lapses :=
  (negb (is_some (deadlines l !! key)), {| deadlines := <[key := now + LIVENESS]> (deadlines l); wakes := wakes l |}).

(** One turn of [watch]: until when it sleeps, [None] once it has returned. *)
Definition watch (key : LapseKey) (now : Z) (l : Lapses) : option Z * Lapses :=
  match deadlines l !! key with
  | Some deadline =>
      if now <? deadline then (Some deadline, l)
      else (None, {| deadlines := delete key (deadlines l); wakes := (key.1, now) :: wakes l |})
  | None => (None, l)
  end.

(** ** Handlers and watching tasks side by side *)

Record ReportWorld := {
  store : ReportStore;
  lapses : Lapses;
  reporting : list LapseKey;
  watching : list LapseKey;
  now : Z;
}.

(** The first of equal items removed. *)
Fixpoint remove_first (k : LapseKey) (l : list LapseKey) : list LapseKey :=
  match l with [] => [] | x :: t => if bool_decide (x = k) then t else x :: remove_first k t end.

Inductive report_step : ReportWorld -> ReportWorld -> Prop :=
  | report_time w t : now w <= t ->
      report_step w {| store := store w; lapses := lapses w; reporting := reporting w; watching := watching w; now := t |}
  | report_recorded w g i r t : now w <= t ->
      report_step w {| store := record g i r (now w) t (store w); lapses := lapses w; reporting := (g, i) :: reporting w;
                       watching := watching w; now := t |}
  | report_seen w k : k ∈ reporting w ->
      report_step w {| store := store w; lapses := (seen k (now w) (lapses w)).2; reporting := remove_first k (reporting w);
                       watching := if (seen k (now w) (lapses w)).1 then k :: watching w else watching w; now := now w |}
  | report_watch w k : k ∈ watching w ->
      report_step w {| store := store w; lapses := (watch k (now w) (lapses w)).2; reporting := reporting w;
                       watching := if is_some (watch k (now w) (lapses w)).1 then watching w else remove_first k (watching w); now := now w |}
  | report_forgotten w keep :
      report_step w {| store := retain_reports keep (store w); lapses := lapses w; reporting := reporting w; watching := watching w; now := now w |}.

Inductive report_reached : ReportWorld -> Prop :=
  | report_start t : report_reached {| store := ReportStore_default; lapses := Lapses_new; reporting := []; watching := []; now := t |}
  | report_more w w' : report_reached w -> report_step w w' -> report_reached w'.

Definition entry_of (k : LapseKey) (s : ReportStore) : option Entry := instances ← gateways s !! k.1; instances !! k.2.

(** ** Lemmas *)

Lemma elem_remove_first k x l : x ∈ remove_first k l -> x ∈ l.
Proof.
  induction l as [|y l IH]; cbn; [done|]. case_bool_decide; [by right|]. intros [->|Hi]%elem_of_cons; [by left|right; auto].
Qed.

Lemma remove_first_other k x l : x <> k -> x ∈ l -> x ∈ remove_first k l.
Proof.
  intros Hne. induction l as [|y l IH]; cbn; [done|]. intros [->|Hi]%elem_of_cons; case_bool_decide; subst; try done; [by left|right; auto].
Qed.

Lemma remove_first_NoDup k l : NoDup l -> NoDup (remove_first k l) /\ k ∉ remove_first k l.
Proof.
  induction l as [|y l IH]; cbn; [by split; [constructor|apply not_elem_of_nil]|]. intros [Hn Hl]%NoDup_cons. case_bool_decide as E.
  - subst. done.
  - destruct (IH Hl) as [H1 H2]. split; [|by intros [->|]%elem_of_cons]. apply NoDup_cons. split; [|done]. by intros ?%elem_remove_first.
Qed.

(** What is recorded is this instance's report, or was there. *)
Lemma record_entry g i r now t s k e : entry_of k (record g i r now t s) = Some e ->
  (k = (g, i) /\ e = {| e_report := r; e_seen := t |}) \/ (k <> (g, i) /\ entry_of k s = Some e).
Proof.
  intros H. assert (E : gateways (record g i r now t s) = <[g := recorded i r now t (default ∅ (gateways s !! g))]> (gateways s)).
  { unfold record. by destruct (match _ with Some p => _ | None => false end). }
  unfold entry_of in *. rewrite E in H. destruct k as [g' i']. cbn in *. destruct (decide (g' = g)) as [->|Hne].
  - rewrite lookup_insert_eq in H. cbn in H. unfold recorded in H. apply lookup_insert_Some in H as [[<- <-]|[Hi H]]; [by left|right].
    apply map_lookup_filter_Some in H as [H _]. split; [by intros [= <-]|]. by destruct (gateways s !! g).
  - rewrite lookup_insert_ne in H by done. right. split; [by intros [= -> _]|done].
Qed.

Lemma retain_entry keep s k e : entry_of k (retain_reports keep s) = Some e -> entry_of k s = Some e.
Proof.
  unfold entry_of, retain_reports. cbn. destruct (filter _ _ !! k.1) as [m|] eqn:E; [|done]. apply map_lookup_filter_Some in E as [-> _]. done.
Qed.

(** A silent instance's Gateway is woken for it, or will be. *)
Definition watched (w : ReportWorld) (k : LapseKey) (e : Entry) : Prop :=
  k ∈ reporting w
  \/ (exists d, deadlines (lapses w) !! k = Some d /\ e_seen e + LIVENESS <= d /\ k ∈ watching w)
  \/ (exists t, (k.1, t) ∈ wakes (lapses w) /\ e_seen e + LIVENESS <= t).

Record reports_ok (w : ReportWorld) : Prop := {
  entries_watched k e : entry_of k (store w) = Some e -> watched w k e;
  entries_past k e : entry_of k (store w) = Some e -> e_seen e <= now w;
  deadlines_near k d : deadlines (lapses w) !! k = Some d -> d <= now w + LIVENESS;
  watching_deadlines k : k ∈ watching w <-> is_Some (deadlines (lapses w) !! k);
  watching_once : NoDup (watching w);
}.

Lemma reports_step w w' : reports_ok w -> report_step w w' -> reports_ok w'.
Proof.
  intros [H1 H2 H3 H4 H5] Hs. destruct Hs as [w t Ht|w g i r t Ht|w k Hk|w k Hk|w keep].
  - constructor; cbn; [done| | |done|done].
    + intros k e He. specialize (H2 k e He). lia.
    + intros k d Hd. specialize (H3 k d Hd). lia.
  - constructor; cbn; [| | |done|done].
    + intros k e [[-> _]|[_ He]]%record_entry; [left; by left|]. destruct (H1 k e He) as [?|[?|?]]; [left; by right|right; by left|right; by right].
    + intros k e [[-> ->]|[_ He]]%record_entry; [done|]. specialize (H2 k e He). lia.
    + intros k d Hd. specialize (H3 k d Hd). lia.
  - constructor; cbn.
    + intros k' e He. destruct (decide (k' = k)) as [->|Hne].
      * right. left. exists (now w + LIVENESS). cbn. rewrite lookup_insert_eq. split; [done|]. split; [specialize (H2 k e He); lia|].
        specialize (H4 k). destruct (deadlines (lapses w) !! k) as [d|]; cbn; [apply H4; eauto|by left].
      * destruct (H1 k' e He) as [?|[(d & Hd & Hle & Hw)|?]].
        -- left. cbn. by apply remove_first_other.
        -- right. left. exists d. cbn. rewrite lookup_insert_ne by done. split; [done|]. split; [done|]. destruct (negb _); [by right|done].
        -- right. by right.
    + done.
    + intros k' d [[<- <-]|[_ Hd]]%lookup_insert_Some; [lia|eauto].
    + intros k'. destruct (decide (k' = k)) as [->|Hne].
      * rewrite lookup_insert_eq. split; [eauto|]. intros _. specialize (H4 k). destruct (deadlines (lapses w) !! k); cbn; [apply H4; eauto|by left].
      * rewrite lookup_insert_ne by done. rewrite <- H4. destruct (negb _); [|done]. rewrite elem_of_cons. naive_solver.
    + specialize (H4 k). destruct (deadlines (lapses w) !! k); cbn; [done|]. apply NoDup_cons. split; [|done].
      intros Hw%H4. destruct Hw as [? ?]. done.
  - assert (Hd : is_Some (deadlines (lapses w) !! k)) by (by apply H4). destruct Hd as [d Hd]. unfold watch. rewrite Hd.
    destruct (now w <? d) eqn:Hlt; cbn.
    { by constructor. }
    constructor; cbn.
    + intros k' e He. destruct (H1 k' e He) as [?|[(d' & Hd' & Hle & Hw)|(t & Ht & Hle)]]; [by left| |right; right; exists t; split; [by right|done]].
      destruct (decide (k' = k)) as [->|Hne].
      * right. right. exists (now w). cbn. split; [by left|]. simplify_eq. lia.
      * right. left. exists d'. cbn. rewrite lookup_delete_ne by done. split; [done|]. split; [done|]. by apply remove_first_other.
    + done.
    + intros k' d' [_ Hd']%lookup_delete_Some. eauto.
    + intros k'. destruct (decide (k' = k)) as [->|Hne].
      * rewrite lookup_delete_eq. split; [|by intros [? ?]]. intros H. by destruct (proj2 (remove_first_NoDup k _ H5)).
      * rewrite lookup_delete_ne by done. rewrite <- H4. split; [apply elem_remove_first|by apply remove_first_other].
    + apply (remove_first_NoDup k _ H5).
  - constructor; cbn; [| |done|done|done].
    + intros k e He%retain_entry. by apply H1.
    + intros k e He%retain_entry. by eapply H2.
Qed.

Lemma reports_reached w : report_reached w -> reports_ok w.
Proof.
  induction 1 as [t|w w' _ IH Hs]; [|by eapply reports_step]. constructor; cbn; try done; [|constructor].
  intros k. rewrite lookup_empty. split; [by intros ?%not_elem_of_nil|by intros [? ?]].
Qed.

(** C27: a data plane that vanishes is noticed. However reports, the two halves
    of taking one in, the watching tasks and the pruning interleave: when an
    instance still kept has been silent for the liveness window, its Gateway was
    woken for a reconcile at a time from which on it no longer counts as live,
    unless the handler of its last report is just about to set its deadline, or
    the one task that watches it is, due within another window. *)
Theorem vanished_instances_wake (w : ReportWorld) (g : GatewayKey) (i : InstanceId) (e : Entry)
  (Hreached : report_reached w) (Hentry : entry_of (g, i) (store w) = Some e) :
  (exists t, (g, t) ∈ wakes (lapses w) /\ forall t', t <= t' -> alive t' e = false)
  \/ (g, i) ∈ reporting w
  \/ (exists d, deadlines (lapses w) !! (g, i) = Some d /\ d <= now w + LIVENESS /\ (g, i) ∈ watching w
        /\ forall t, d <= t -> watch (g, i) t (lapses w) = (None, {| deadlines := delete (g, i) (deadlines (lapses w)); wakes := (g, t) :: wakes (lapses w) |})
             /\ alive t e = false).
Proof.
  pose proof (reports_reached w Hreached) as Hok. assert (Hdead : forall t, e_seen e + LIVENESS <= t -> alive t e = false).
  { intros t Ht. unfold alive, since. apply Z.ltb_ge. lia. }
  destruct (entries_watched _ Hok _ _ Hentry) as [Hr|[(d & Hd & Hle & Hw)|(t & Ht & Hle)]].
  - right. by left.
  - right. right. exists d. split; [done|]. split; [by eapply Hok|]. split; [done|]. intros t Ht. split; [|apply Hdead; lia].
    unfold watch. rewrite Hd. by rewrite (proj2 (Z.ltb_ge t d) Ht).
  - left. exists t. split; [done|]. intros t' Ht'. apply Hdead. lia.
Qed.

(** The live instances are those seen within the window that do not leave. *)
Lemma live_exact g now s i r :
  (i, r) ∈ live g now s <-> exists e, entry_of (g, i) s = Some e /\ e_report e = r /\ alive now e = true /\ leaving r = false.
Proof.
  unfold live, entry_of. cbn. destruct (gateways s !! g) as [m|]; cbn; [|by split; [intros ?%not_elem_of_nil|intros (? & ? & _)]].
  rewrite sort_by_perm, list_elem_of_fmap. setoid_rewrite list_elem_of_In. setoid_rewrite filter_In. split.
  - intros ([i' e] & [= -> ->] & Hm & [Ha Hl%negb_true_iff]%andb_true_iff). apply list_elem_of_In, elem_of_map_to_list in Hm. eauto.
  - intros (e & Hm & <- & Ha & Hl). exists (i, e). split; [done|]. split; [by apply list_elem_of_In, elem_of_map_to_list|]. cbn. by rewrite Ha, Hl.
Qed.

(** ** At work *)

Definition some_report : InstanceReport :=
  {| applied := bs "v1"; apply_error := None; lrs := []; interface_ips := []; networks := ∅; r_dns_epoch := 0; leaving := false |}.

Definition some_key : GatewayKey := {| gk_namespace := bs "default"; gk_name := bs "gw" |}.

Definition fresh_world : ReportWorld := {| store := ReportStore_default; lapses := Lapses_new; reporting := []; watching := []; now := 0 |}.

Definition recorded_world : ReportWorld :=
  {| store := record some_key (bs "pod") some_report 0 0 ReportStore_default; lapses := Lapses_new; reporting := [(some_key, bs "pod")];
     watching := []; now := 0 |}.

(** Reported once, then silent for a minute and a second. *)
Definition silent_world : ReportWorld :=
  {| store := store recorded_world; lapses := (seen (some_key, bs "pod") 0 Lapses_new).2; reporting := []; watching := [(some_key, bs "pod")];
     now := 61000000000 |}.

Lemma silent_reached : report_reached silent_world.
Proof.
  assert (H1 : report_reached recorded_world).
  { eapply report_more; [apply (report_start 0)|]. exact (report_recorded fresh_world some_key (bs "pod") some_report 0 (Z.le_refl 0)). }
  eapply report_more; [eapply report_more; [exact H1|apply (report_seen recorded_world (some_key, bs "pod")); by left]|].
  refine (report_time {| store := _; lapses := _; reporting := _; watching := _; now := 0 |} 61000000000 _). done.
Qed.

Lemma vanished_instances_wake_witness :
  live some_key (now silent_world) (store silent_world) = []
  /\ exists d, deadlines (lapses silent_world) !! (some_key, bs "pod") = Some d.
Proof.
  split; [vm_compute; reflexivity|].
  destruct (vanished_instances_wake silent_world some_key (bs "pod") {| e_report := some_report; e_seen := 0 |} silent_reached) as [(t & Ht & _)|[H|(d & Hd & _)]].
  - vm_compute. reflexivity.
  - exfalso. revert Ht. vm_compute. inversion 1.
  - exfalso. revert H. vm_compute. inversion 1.
  - eauto.
Defined.
