(* ===== verification/SyncServer.v ===== *)
(** * The sync endpoint

    [src/src/kubernetes/controller/server.rs]: one request, from its head to
    its answer, and the parts of [src/src/kubernetes/controller/reconcile.rs]
    that share the hub with it: whose a Gateway is, what a pass publishes and
    checks again, and the forgetting of deleted Gateways. Requests, passes and
    the forgetting run side by side: each read or write of shared state is a
    step. What TokenReview, the network and the clock answer, and what the
    reflectors put in the caches, are arguments of the steps. [serde_json] and
    the text of its errors are the class [Wire]; signing is [AnswerCrypto]. *)

From S2P Require Import Prelude Bytes Net HttpFilters Config ConfigTable Addresses DataPlane Snapshot Apply SyncAnswer SyncLoop Auth Hub Reports.

Definition SYNC_PREFIX : list Z := bs "/v1/sync/".
Definition MAX_BODY : Z := 1048576.
Definition MAX_BODY_READS : nat := 16.
Definition RETRY_AFTER_SECS : list Z := bs "1".
Definition TOKEN_HEADER : list Z := bs "x-portail-token".

(** ** Whose a Gateway is *)

(** Of a Gateway its uid and class; of a class its name and controller. *)
Record GatewayObject := { go_uid : list Z; go_class : list Z }.
Record GatewayClass := { gc_name : option (list Z); gc_controller : list Z }.

Inductive ClassOwner := Ours | Other | Missing.

#[export] Instance ClassOwner_eq_dec : EqDecision ClassOwner.
Proof. solve_decision. Defined.

Definition class_owner (classes : list GatewayClass) (class_name controller_name : list Z) : ClassOwner :=
  match find (fun gc => bool_decide (gc_name gc = Some class_name)) classes with
  | Some gc => if beq (gc_controller gc) controller_name then Ours else Other
  | None => Missing
  end.

(** ** Answers *)

Definition response (status : Z) (headers : HeaderMap) (body : list Z) : Response :=
  {| resp_status := status; resp_headers := headers; resp_body := Some body |}.

(** [HeaderMap::insert] of a name not there yet. *)
Definition add_header (r : Response) (name value : list Z) : Response :=
  {| resp_status := resp_status r; resp_headers := resp_headers r ++ [(name, value)]; resp_body := resp_body r |}.

Definition text (status : Z) (body : list Z) : Response :=
  response status [(bs "content-type", bs "text/plain; charset=utf-8"); (bs "connection", bs "close")] (body ++ [10]).

Definition unavailable (body : list Z) : Response := add_header (text 503 body) (bs "retry-after") RETRY_AFTER_SECS.

Definition standby (body : list Z) : Response := add_header (unavailable body) STANDBY_HEADER (bs "true").

Definition refused (r : Refusal) : Response :=
  match r with
  | Unauthenticated => text 401 (bs "unauthenticated")
  | Forbidden => text 403 (bs "forbidden")
  | Throttled => unavailable (bs "too many token reviews")
  | Unavailable => unavailable (bs "token review failed")
  end.

Definition not_signed (error : list Z) : Response := text 500 (bs "answer not signed: " ++ error).

(** [SyncRequest], with the nonce of the poll. *)
Record SyncBody := { sb_request : SyncRequest; sb_nonce : list Z }.

Class Wire : Type := {
  decode_sync : list Z -> result SyncBody (list Z);
  encode_snapshot : Snapshot -> result (list Z) (list Z);
  encode_gone : GatewayKey -> list Z;
  sign_error : list Z;
  decimal : Z -> list Z;
}.

(** [token]: the bearer token of a request. *)
Definition bearer_token (headers : HeaderMap) : option (list Z) :=
  let bearer :=
    v ← get_header headers (bs "authorization");
    v ← to_str v;
    '(scheme, token) ← split_once 32 v;
    if eq_ignore_ascii_case scheme (bs "bearer") then Some token else None in
  let found := match bearer with Some t => Some t | None => v ← get_header headers TOKEN_HEADER; to_str v end in
  t ← str_trim <$> found;
  if is_nil t then None else Some t.

(** What was signed: its kind, and what over. *)
Abbreviation Signature := (Signed * list Z)%type.

Section Answers.
Context {AC : AnswerCrypto} {WI : Wire}.

Definition no_content (key : CertifiedKey) (kind : Signed) (nonce over : list Z) : Response * option Signature :=
  match sign key kind nonce over with
  | Some signature => (response 204 signature [], Some (kind, over))
  | None => (not_signed sign_error, None)
  end.

Definition signed (key : CertifiedKey) (status : Z) (kind : Signed) (nonce body : list Z) : Response * option Signature :=
  match sign key kind nonce body with
  | Some signature => (response status ((bs "content-type", bs "application/json") :: signature) body, Some (kind, body))
  | None => (not_signed sign_error, None)
  end.

Definition served (key : CertifiedKey) (snapshot : Snapshot) (nonce : list Z) : Response * option Signature :=
  match encode_snapshot snapshot with
  | Ok json => signed key 200 SignedSnapshot nonce json
  | Err e => (text 500 (bs "snapshot not serialized: " ++ e), None)
  end.

(** [HeaderMap::insert] replaces the connection header an unsigned answer has. *)
Definition gone_answer (key : CertifiedKey) (gateway : GatewayKey) (nonce : list Z) : Response * option Signature :=
  let '(r, s) := signed key 404 SignedGone nonce (encode_gone gateway) in
  (if is_some (get_header (resp_headers r) (bs "connection")) then r else add_header r (bs "connection") (bs "close"), s).

Definition held (key : CertifiedKey) (current : option Snapshot) (nonce have : list Z) : Response * option Signature :=
  match current with
  | Some snapshot =>
      if beq (version snapshot) have then no_content key SignedUnchanged nonce (version snapshot) else served key snapshot nonce
  | None => no_content key SignedPending nonce []
  end.
End Answers.

(** ** Holds *)

(** A hold's cancellation token is told by its id. *)
Record Holds := { by_instance : gmap InstanceId nat; next_hold : nat; cancelled : gset nat }.

Definition Holds_default : Holds := {| by_instance := ∅; next_hold := 0; cancelled := ∅ |}.

(** [Holds::begin]: the ids a counter gives are only compared for equality. *)
Definition hold_begin (instance : InstanceId) (h : Holds) : nat * Holds :=
  let id := next_hold h in
  (id, {| by_instance := <[instance := id]> (by_instance h); next_hold := S id;
          cancelled := match by_instance h !! instance with Some previous => {[previous]} ∪ cancelled h | None => cancelled h end |}).

(** [Drop for Hold] *)
Definition hold_drop (instance : InstanceId) (id : nat) (h : Holds) : Holds :=
  if bool_decide (by_instance h !! instance = Some id)
  then {| by_instance := delete instance (by_instance h); next_hold := next_hold h; cancelled := cancelled h |} else h.

(** ** Connections *)

(** [PeerConnection::open] and its drop. *)
Definition peer_open (per_peer : nat) (peer : IpAddr) (m : gmap IpAddr nat) : bool * gmap IpAddr nat :=
  peer_review peer (Some per_peer) m.

Definition peer_close (peer : IpAddr) (m : gmap IpAddr nat) : gmap IpAddr nat := peer_review_drop peer m.

(** ** One request *)

(** The head of a request. *)
Record SyncHead := { rq_path : list Z; rq_post : bool; rq_headers : HeaderMap }.

(** The sync endpoint, and what it shares with the controller. *)
Record Server := {
  is_leader : bool;
  is_synced : bool;
  gateway_store : gmap GatewayKey GatewayObject;
  class_store : list GatewayClass;
  hub : Hub;
  reports : ReportStore;
  sv_lapses : Lapses;
  holds : Holds;
  body_readers : gset InstanceId;
  body_reads : nat;
  shutdown : bool;
}.

Definition set_hub (s : Server) (h : Hub) : Server :=
  {| is_leader := is_leader s; is_synced := is_synced s; gateway_store := gateway_store s; class_store := class_store s; hub := h;
     reports := reports s; sv_lapses := sv_lapses s; holds := holds s; body_readers := body_readers s; body_reads := body_reads s; shutdown := shutdown s |}.
Definition set_reports (s : Server) (r : ReportStore) : Server :=
  {| is_leader := is_leader s; is_synced := is_synced s; gateway_store := gateway_store s; class_store := class_store s; hub := hub s;
     reports := r; sv_lapses := sv_lapses s; holds := holds s; body_readers := body_readers s; body_reads := body_reads s; shutdown := shutdown s |}.
Definition set_lapses (s : Server) (l : Lapses) : Server :=
  {| is_leader := is_leader s; is_synced := is_synced s; gateway_store := gateway_store s; class_store := class_store s; hub := hub s;
     reports := reports s; sv_lapses := l; holds := holds s; body_readers := body_readers s; body_reads := body_reads s; shutdown := shutdown s |}.
Definition set_holds (s : Server) (h : Holds) : Server :=
  {| is_leader := is_leader s; is_synced := is_synced s; gateway_store := gateway_store s; class_store := class_store s; hub := hub s;
     reports := reports s; sv_lapses := sv_lapses s; holds := h; body_readers := body_readers s; body_reads := body_reads s; shutdown := shutdown s |}.
Definition set_reading (s : Server) (readers : gset InstanceId) (reads : nat) : Server :=
  {| is_leader := is_leader s; is_synced := is_synced s; gateway_store := gateway_store s; class_store := class_store s; hub := hub s;
     reports := reports s; sv_lapses := sv_lapses s; holds := holds s; body_readers := readers; body_reads := reads; shutdown := shutdown s |}.
Definition set_cache (s : Server) (g : gmap GatewayKey GatewayObject) (c : list GatewayClass) : Server :=
  {| is_leader := is_leader s; is_synced := is_synced s; gateway_store := g; class_store := c; hub := hub s;
     reports := reports s; sv_lapses := sv_lapses s; holds := holds s; body_readers := body_readers s; body_reads := body_reads s; shutdown := shutdown s |}.
Definition set_flags (s : Server) (leader synced down : bool) : Server :=
  {| is_leader := leader; is_synced := synced; gateway_store := gateway_store s; class_store := class_store s; hub := hub s;
     reports := reports s; sv_lapses := sv_lapses s; holds := holds s; body_readers := body_readers s; body_reads := body_reads s; shutdown := down |}.

Definition BodyReader_start (instance : InstanceId) (readers : gset InstanceId) : option (gset InstanceId) :=
  if bool_decide (instance ∈ readers) then None else Some ({[instance]} ∪ readers).

(** Where a request is. From [Serving] on its body was read: what it asks for
    and the nonce to sign over. A request whose peer went away ends with no
    answer. *)
Inductive TaskPhase :=
  | Routing
  | AtLeader (key : GatewayKey)
  | AtSynced (key : GatewayKey)
  | AtToken (key : GatewayKey)
  | Authenticating (key : GatewayKey) (claimed : ServiceAccount) (token : list Z)
  | AtReader (key : GatewayKey) (instance : InstanceId)
  | AtPermit (key : GatewayKey) (instance : InstanceId)
  | ReadingBody (key : GatewayKey) (instance : InstanceId)
  | DropPermit (key : GatewayKey) (instance : InstanceId) (read : result (list Z) (option Response))
  | DropReader (key : GatewayKey) (instance : InstanceId) (read : result (list Z) (option Response))
  | Serving (key : GatewayKey) (instance : InstanceId) (body : SyncBody)
  | Recording (key : GatewayKey) (instance : InstanceId) (body : SyncBody) (report : InstanceReport)
  | Lapsing (key : GatewayKey) (instance : InstanceId) (body : SyncBody) (report : InstanceReport)
  | BeginHold (key : GatewayKey) (instance : InstanceId) (body : SyncBody)
  | Subscribing (key : GatewayKey) (instance : InstanceId) (body : SyncBody) (hold : nat)
  | Rechecking (key : GatewayKey) (instance : InstanceId) (body : SyncBody) (hold : nat) (rx : Receiver)
  | Removing (key : GatewayKey) (instance : InstanceId) (body : SyncBody) (hold : nat) (rx : Receiver)
  | Polling (key : GatewayKey) (instance : InstanceId) (body : SyncBody) (hold : nat) (rx : Receiver) (deadline : Z)
  | Selecting (key : GatewayKey) (instance : InstanceId) (body : SyncBody) (hold : nat) (rx : Receiver) (deadline : Z)
  | DropHold (instance : InstanceId) (hold : nat) (answer : option Response)
  | Answered (answer : option Response).

(** What a request is told from outside. *)
Inductive Event :=
  | Goes
  | Authenticated (answer : result InstanceId Refusal)
  (** The body's bytes; [None]: not read, or not in time. *)
  | BodyRead (bytes : option (list Z))
  | Changed
  | Deadline
  | Superseded
  | ShuttingDown
  (** The connection broke while the request waited. *)
  | PeerGone.

(** What translation made of the Gateway: its generation, configuration and
    networks, provisioned and stamped. *)
Abbreviation Translation := (Z * PortailConfig * list NetworkCidrs)%type.

Section Handle.
Context {SE : Sealing} {TT : TokenText} {AC : AnswerCrypto} {WI : Wire}.
(** The controller's name, the authenticator, and the system clock's reading
    for the pre-check. *)
Context (controller_name : list Z) (au : Authenticator) (unix_now : Z -> option Z).

Definition serves (s : Server) (key : GatewayKey) : bool :=
  match gateway_store s !! key with
  | None => false
  | Some gateway => negb (bool_decide (class_owner (class_store s) (go_class gateway) controller_name = Other))
  end.

(** The declared length of a body, as far as it is one. *)
Definition declared_length (headers : HeaderMap) : option Z :=
  v ← get_header headers (bs "content-length"); v ← to_str v; parse_u64 v.

(** What the body says, once it is all there. *)
Definition parse_body (key : GatewayKey) (bytes : list Z) : result SyncBody Response :=
  match decode_sync bytes with
  | Err e => Err (text 400 (bs "not a sync request: " ++ e))
  | Ok sync =>
      if negb (bool_decide (sr_gateway (sb_request sync) = key)) then Err (text 400 (bs "the body names another Gateway than the path"))
      else if negb (sr_protocol (sb_request sync) =? PROTOCOL)
      then Err (text 409 (bs "protocol " ++ decimal (sr_protocol (sb_request sync)) ++ bs " not supported: this controller speaks " ++ decimal PROTOCOL))
      else if negb (valid_nonce (sb_nonce sync)) then Err (text 400 (bs "nonce: not base64 of 16 bytes"))
      else Ok sync
  end.

(** The body collected under its limit. *)
Definition collected (bytes : option (list Z)) : result (list Z) (option Response) :=
  match bytes with
  | Some bytes => if MAX_BODY <? Z.of_nat (length bytes) then Err (Some (text 413 (bs "body over 1 MiB"))) else Ok bytes
  | None => Err (Some (text 400 (bs "body not read")))
  end.

(** [handle] and [poll], a step at a time: the server and the request after
    it, and what was signed. [signer] is the serving key of the moment. *)
Definition handle_step (rq : SyncHead) (signer : CertifiedKey) (now : Z) (s : Server) (p : TaskPhase) (e : Event)
  : option (Server * TaskPhase * option Signature) :=
  match p, e with
  | Routing, Goes =>
      match strip_prefix SYNC_PREFIX (rq_path rq) ≫= GatewayKey_from_str with
      | None => Some (s, Answered (Some (text 404 (bs "not found"))), None)
      | Some key => if negb (rq_post rq) then Some (s, Answered (Some (text 405 (bs "POST only"))), None) else Some (s, AtLeader key, None)
      end
  | AtLeader key, Goes => Some (s, if is_leader s then AtSynced key else Answered (Some (standby (bs "not the leader"))), None)
  | AtSynced key, Goes => Some (s, if is_synced s then AtToken key else Answered (Some (standby (bs "caches not synced"))), None)
  | AtToken key, Goes =>
      let token := default [] (bearer_token (rq_headers rq)) in
      Some (s, match precheck token (audience au) (unix_now now) with
               | Some claimed => Authenticating key claimed token
               | None => Answered (Some (refused Unauthenticated))
               end, None)
  | Authenticating key _ _, Authenticated (Err refusal) => Some (s, Answered (Some (refused refusal)), None)
  | Authenticating key _ _, Authenticated (Ok instance) =>
      Some (s, match declared_length (rq_headers rq) with
               | Some len => if MAX_BODY <? len then Answered (Some (text 413 (bs "body over 1 MiB"))) else AtReader key instance
               | None => AtReader key instance
               end, None)
  | AtReader key instance, Goes =>
      match BodyReader_start instance (body_readers s) with
      | None => Some (s, Answered (Some (unavailable (bs "a body of this pod is being read"))), None)
      | Some readers => Some (set_reading s readers (body_reads s), AtPermit key instance, None)
      end
  | AtPermit key instance, Goes =>
      if (0 <? body_reads s)%nat then Some (set_reading s (body_readers s) (body_reads s - 1), ReadingBody key instance, None)
      else Some (s, DropReader key instance (Err (Some (unavailable (bs "too many bodies being read")))), None)
  | ReadingBody key instance, BodyRead bytes => Some (s, DropPermit key instance (collected bytes), None)
  | DropPermit key instance read, Goes => Some (set_reading s (body_readers s) (S (body_reads s)), DropReader key instance read, None)
  | DropReader key instance read, Goes =>
      Some (set_reading s (body_readers s ∖ {[instance]}) (body_reads s),
            match read with
            | Err r => Answered r
            | Ok bytes => match parse_body key bytes with Ok body => Serving key instance body | Err r => Answered (Some r) end
            end, None)
  | Serving key instance body, Goes =>
      if negb (serves s key) then
        let '(r, sig) := gone_answer signer key (sb_nonce body) in Some (s, Answered (Some r), sig)
      else Some (s, match sr_report (sb_request body) with
                    | Some report => Recording key instance body report
                    | None => BeginHold key instance body
                    end, None)
  | Recording key instance body report, Goes =>
      Some (set_reports s (record key instance report now now (reports s)), Lapsing key instance body report, None)
  | Lapsing key instance body report, Goes =>
      let s := set_lapses s (seen (key, instance) now (sv_lapses s)).2 in
      if leaving report then
        let '(r, sig) := no_content signer SignedLeave (sb_nonce body) [] in Some (s, Answered (Some r), sig)
      else Some (s, BeginHold key instance body, None)
  | BeginHold key instance body, Goes =>
      let '(id, h) := hold_begin instance (holds s) in Some (set_holds s h, Subscribing key instance body id, None)
  | Subscribing key instance body id, Goes =>
      let '(rx, h) := subscribe key (hub s) in Some (set_hub s h, Rechecking key instance body id rx, None)
  | Rechecking key instance body id rx, Goes =>
      Some (s, if serves s key then Polling key instance body id rx (now + HOLD) else Removing key instance body id rx, None)
  | Removing key instance body id rx, Goes =>
      let '(r, sig) := gone_answer signer key (sb_nonce body) in
      Some (set_hub s (remove key (hub s)).2, DropHold instance id (Some r), sig)
  | Polling key instance body id rx deadline, Goes =>
      let '(snapshot, rx) := borrow_and_update (hub s) rx in
      match snapshot with
      | Some sn =>
          if beq (version sn) (sr_have (sb_request body)) then Some (s, Selecting key instance body id rx deadline, None)
          else let '(r, sig) := served signer sn (sb_nonce body) in Some (s, DropHold instance id (Some r), sig)
      | None => Some (s, Selecting key instance body id rx deadline, None)
      end
  | Selecting key instance body id rx deadline, Changed =>
      match changed (hub s) rx with
      | None => None
      | Some true => Some (s, Polling key instance body id rx deadline, None)
      | Some false => let '(r, sig) := gone_answer signer key (sb_nonce body) in Some (s, DropHold instance id (Some r), sig)
      end
  | Selecting key instance body id rx deadline, Deadline =>
      if now <? deadline then None
      else let '(r, sig) := held signer (borrow (hub s) (rx_chan rx)) (sb_nonce body) (sr_have (sb_request body)) in
           Some (s, DropHold instance id (Some r), sig)
  | Selecting key instance body id rx deadline, Superseded =>
      if bool_decide (id ∈ cancelled (holds s))
      then let '(r, sig) := held signer (borrow (hub s) (rx_chan rx)) (sb_nonce body) (sr_have (sb_request body)) in
           Some (s, DropHold instance id (Some r), sig)
      else None
  | Selecting key instance body id rx deadline, ShuttingDown =>
      if shutdown s then Some (s, DropHold instance id (Some (standby (bs "shutting down"))), None) else None
  | DropHold instance id r, Goes => Some (set_holds s (hold_drop instance id (holds s)), Answered r, None)
  | Authenticating _ _ _, PeerGone => Some (s, Answered None, None)
  | ReadingBody key instance, PeerGone => Some (s, DropPermit key instance (Err None), None)
  | Selecting key instance body id rx deadline, PeerGone => Some (s, DropHold instance id None, None)
  | _, _ => None
  end.

(** ** Passes and the forgetting of deleted Gateways *)

(** The first half of a pass, [publish] of [reconcile.rs]: of its Gateway the
    key, uid and class it was run with. Translating ends with the snapshot, or
    without one. *)
Inductive PassPhase :=
  | PassSynced (key : GatewayKey) (gw : GatewayObject)
  | PassLeader (key : GatewayKey) (gw : GatewayObject)
  | PassClass (key : GatewayKey) (gw : GatewayObject)
  | PassForeign (key : GatewayKey)
  | PassTranslating (key : GatewayKey) (gw : GatewayObject)
  | PassChecking (key : GatewayKey) (gw : GatewayObject)
  | PassRemoving (key : GatewayKey)
  | PassEnded (continues : bool).

Definition snapshot_of (key : GatewayKey) (gw : GatewayObject) (t : Translation) : Snapshot :=
  let '(generation, config, networks) := t in
  from_config {| gr_namespace := gk_namespace key; gr_name := gk_name key; gr_uid := go_uid gw; gr_generation := generation |} config networks.

Definition pass_step (now : Z) (s : Server) (p : PassPhase) (translated : option Translation) : option (Server * PassPhase) :=
  match p with
  | PassSynced key gw => Some (s, if is_synced s then PassLeader key gw else PassEnded false)
  | PassLeader key gw => Some (s, if is_leader s then PassClass key gw else PassEnded false)
  | PassClass key gw =>
      match class_owner (class_store s) (go_class gw) controller_name with
      | Ours => Some (s, PassTranslating key gw)
      | Other => Some (set_hub s (remove key (hub s)).2, PassForeign key)
      | Missing => Some (s, PassEnded false)
      end
  | PassForeign key => Some (set_reports s (retain_reports (fun k => negb (bool_decide (k = key))) (reports s)), PassEnded false)
  | PassTranslating key gw =>
      match translated with
      | Some t => Some (set_hub s (publish (snapshot_of key gw t) now (hub s)).2, PassChecking key gw)
      | None => Some (s, PassChecking key gw)
      end
  | PassChecking key gw =>
      let stale := match gateway_store s !! key with Some current => negb (beq (go_uid current) (go_uid gw)) | None => true end in
      Some (s, if stale then PassRemoving key else PassEnded true)
  | PassRemoving key => Some (set_hub s (remove key (hub s)).2, PassEnded false)
  | PassEnded _ => None
  end.

(** [forget_deleted_gateways], and its idle loop. *)
Inductive ForgetPhase := ForgetIdle | ForgetHub (live : gset GatewayKey) | ForgetReports (live : gset GatewayKey).

Record SyncWorld := {
  server : Server;
  tasks : gmap nat (SyncHead * TaskPhase);
  passes : gmap nat PassPhase;
  (** A delete or relist the watch has yet to tell of, and the notification. *)
  gone_event : bool;
  gone_notified : bool;
  forgetting : ForgetPhase;
  w_now : Z;
}.

Definition with_server (w : SyncWorld) (s : Server) : SyncWorld :=
  {| server := s; tasks := tasks w; passes := passes w; gone_event := gone_event w; gone_notified := gone_notified w;
     forgetting := forgetting w; w_now := w_now w |}.
Definition with_tasks (w : SyncWorld) (t : gmap nat (SyncHead * TaskPhase)) : SyncWorld :=
  {| server := server w; tasks := t; passes := passes w; gone_event := gone_event w; gone_notified := gone_notified w;
     forgetting := forgetting w; w_now := w_now w |}.
Definition with_passes (w : SyncWorld) (p : gmap nat PassPhase) : SyncWorld :=
  {| server := server w; tasks := tasks w; passes := p; gone_event := gone_event w; gone_notified := gone_notified w;
     forgetting := forgetting w; w_now := w_now w |}.
Definition with_gone (w : SyncWorld) (event notified : bool) (f : ForgetPhase) : SyncWorld :=
  {| server := server w; tasks := tasks w; passes := passes w; gone_event := event; gone_notified := notified;
     forgetting := f; w_now := w_now w |}.
Definition with_now (w : SyncWorld) (t : Z) : SyncWorld :=
  {| server := server w; tasks := tasks w; passes := passes w; gone_event := gone_event w; gone_notified := gone_notified w;
     forgetting := forgetting w; w_now := t |}.

Inductive sync_step : SyncWorld -> SyncWorld -> Prop :=
  | sync_time w t : w_now w <= t -> sync_step w (with_now w t)
  | sync_flags w l y d : sync_step w (with_server w (set_flags (server w) l y d))
  | sync_classes w cs : sync_step w (with_server w (set_cache (server w) (gateway_store (server w)) cs))
  | sync_applied w key gw :
      sync_step w (with_server w (set_cache (server w) (<[key := gw]> (gateway_store (server w))) (class_store (server w))))
  | sync_deleted w key :
      sync_step w (with_gone (with_server w (set_cache (server w) (delete key (gateway_store (server w))) (class_store (server w))))
                     true (gone_notified w) (forgetting w))
  | sync_relisted w gs :
      sync_step w (with_gone (with_server w (set_cache (server w) gs (class_store (server w)))) true (gone_notified w) (forgetting w))
  | sync_notified w : gone_event w = true -> sync_step w (with_gone w false true (forgetting w))
  | sync_forget w : gone_notified w = true -> forgetting w = ForgetIdle ->
      sync_step w (with_gone w (gone_event w) false (ForgetHub (dom (gateway_store (server w)))))
  | sync_forget_hub w live : forgetting w = ForgetHub live ->
      sync_step w (with_gone (with_server w (set_hub (server w) (retain_slots (fun k => bool_decide (k ∈ live)) (hub (server w)))))
                     (gone_event w) (gone_notified w) (ForgetReports live))
  | sync_forget_reports w live : forgetting w = ForgetReports live ->
      sync_step w (with_gone (with_server w (set_reports (server w) (retain_reports (fun k => bool_decide (k ∈ live)) (reports (server w)))))
                     (gone_event w) (gone_notified w) ForgetIdle)
  | sync_lapse w k : sync_step w (with_server w (set_lapses (server w) (watch k (w_now w) (sv_lapses (server w))).2))
  | sync_request w i rq : tasks w !! i = None -> sync_step w (with_tasks w (<[i := (rq, Routing)]> (tasks w)))
  | sync_task w i rq p e signer s' p' sig : tasks w !! i = Some (rq, p) ->
      handle_step rq signer (w_now w) (server w) p e = Some (s', p', sig) ->
      sync_step w (with_tasks (with_server w s') (<[i := (rq, p')]> (tasks w)))
  | sync_pass_new w i key gw : passes w !! i = None -> sync_step w (with_passes w (<[i := PassSynced key gw]> (passes w)))
  | sync_pass w i p t s' p' : passes w !! i = Some p -> pass_step (w_now w) (server w) p t = Some (s', p') ->
      sync_step w (with_passes (with_server w s') (<[i := p']> (passes w))).

Definition Server_new : Server :=
  {| is_leader := false; is_synced := false; gateway_store := ∅; class_store := []; hub := Hub_default; reports := ReportStore_default;
     sv_lapses := Lapses_new; holds := Holds_default; body_readers := ∅; body_reads := MAX_BODY_READS; shutdown := false |}.

Definition sync_world_new (t : Z) : SyncWorld :=
  {| server := Server_new; tasks := ∅; passes := ∅; gone_event := false; gone_notified := false; forgetting := ForgetIdle; w_now := t |}.

Inductive sync_reached : SyncWorld -> Prop :=
  | sync_start t : sync_reached (sync_world_new t)
  | sync_more w w' : sync_reached w -> sync_step w w' -> sync_reached w'.
End Handle.

(** ** What a poll waits on *)

(** The receiver's channel is its Gateway's slot's, or its slot is gone. *)
Definition rx_ok (h : Hub) (key : GatewayKey) (rx : Receiver) : Prop :=
  exists c, chans h !! rx_chan rx = Some c
    /\ (ch_open c = true -> exists slot, slots h !! key = Some slot /\ slot_current slot = rx_chan rx).

Definition slot_gone (h : Hub) (rx : Receiver) : Prop := exists c, chans h !! rx_chan rx = Some c /\ ch_open c = false.

Lemma rx_current h key rx : rx_ok h key rx -> borrow h (rx_chan rx) = current key h \/ slot_gone h rx.
Proof.
  intros (c & Hc & Ho). destruct (ch_open c) eqn:E; [left|right; by exists c]. destruct (Ho eq_refl) as (slot & Hs & He).
  unfold current. rewrite Hs. cbn. by rewrite He.
Qed.

Lemma rx_retain live h key rx : rx_ok h key rx -> rx_ok (retain_slots live h) key rx.
Proof.
  intros (c & Hc & Ho). unfold rx_ok, retain_slots. cbn [chans slots].
  destruct (retain_chans live (slots h) (chans h) (rx_chan rx)) as [[Hl ->]|[_ ->]]; rewrite Hc.
  - exists c. split; [done|]. intros H. destruct (Ho H) as (slot & Hs & He). exists slot. split; [|done]. apply map_lookup_filter_Some. eauto.
  - eexists. split; [reflexivity|]. done.
Qed.

Lemma rx_remove k h key rx : hub_ok h -> rx_ok h key rx -> rx_ok (remove k h).2 key rx.
Proof. intros Hok. rewrite remove_is_retain by done. apply rx_retain. Qed.

Lemma rx_entry k h slot h' key rx : hub_ok h -> entry k h = (slot, h') -> rx_ok h key rx -> rx_ok h' key rx.
Proof.
  intros Hok E (c & Hc & Ho). pose proof (entry_spec _ _ _ _ Hok E) as (_ & Hk & Hne & Hcs & Hcase). exists c. split; [eauto|]. intros H.
  destruct (Ho H) as (sl & Hs & He). exists sl. split; [|done]. destruct (decide (key = k)) as [->|Hd]; [|by rewrite Hne].
  destruct Hcase as [[_ ->]|[Hn _]]; [done|]. by rewrite Hs in Hn.
Qed.

Lemma rx_publish sn t h key rx : hub_ok h -> rx_ok h key rx -> rx_ok (publish sn t h).2 key rx.
Proof.
  intros Hok Hrx. unfold publish. set (k := GatewayRef_key _). destruct (entry k h) as [slot h'] eqn:E.
  pose proof (rx_entry _ _ _ _ _ _ Hok E Hrx) as (c & Hc & Ho). pose proof (entry_spec _ _ _ _ Hok E) as (_ & Hk & _).
  destruct (same_version _ _); [by exists c|]. unfold rx_ok. cbn [snd chans slots slot_current]. unfold send_replace.
  assert (Hslot : ch_open c = true -> exists s, <[k := {| slot_current := slot_current slot; slot_previous := borrow h' (slot_current slot); slot_published := Some t;
      slot_first_published := Some (default t (slot_first_published slot)) |}]> (slots h') !! key = Some s /\ slot_current s = rx_chan rx).
  { intros H. destruct (Ho H) as (s & Hs & He). destruct (decide (key = k)) as [->|Hd]; [|exists s; by rewrite lookup_insert_ne].
    eexists. rewrite lookup_insert_eq. split; [reflexivity|]. cbn. by simplify_eq. }
  assert (Hc' : exists c', alter (fun c => {| ch_value := Some sn; ch_sends := S (ch_sends c); ch_open := ch_open c |}) (slot_current slot) (chans h') !! rx_chan rx = Some c'
    /\ ch_open c' = ch_open c).
  { destruct (decide (slot_current slot = rx_chan rx)) as [->|Hd].
    - rewrite lookup_alter_eq, Hc. by eexists.
    - rewrite lookup_alter_ne by done. by exists c. }
  destruct Hc' as (c' & Hc' & Eo). exists c'. split; [exact Hc'|]. rewrite Eo. exact Hslot.
Qed.

Lemma rx_subscribe k h rx h' : hub_ok h -> subscribe k h = (rx, h') -> hub_ok h' /\ rx_ok h' k rx /\ forall key r, rx_ok h key r -> rx_ok h' key r.
Proof.
  intros Hok. unfold subscribe. destruct (entry k h) as [slot h1] eqn:E. intros [= <- <-].
  pose proof (entry_spec _ _ _ _ Hok E) as (Hok' & Hk & _). split; [done|]. split; [|intros key r; by eapply rx_entry].
  destruct (slot_chan _ Hok' _ _ Hk) as (c & Hc & Ho). exists c. split; [done|]. intros _. by exists slot.
Qed.

(** ** Invariants of requests *)

(** What a request asks for, once its body is read, and what it waits on. *)
Definition asked (p : TaskPhase) : option (GatewayKey * InstanceId * SyncBody) :=
  match p with
  | Serving k i b | Recording k i b _ | Lapsing k i b _ | BeginHold k i b | Subscribing k i b _ | Rechecking k i b _ _ | Removing k i b _ _
  | Polling k i b _ _ _ | Selecting k i b _ _ _ => Some (k, i, b)
  | _ => None
  end.

Definition receiver_of (p : TaskPhase) : option (GatewayKey * Receiver) :=
  match p with
  | Rechecking k _ _ _ rx | Removing k _ _ _ rx | Polling k _ _ _ rx _ | Selecting k _ _ _ rx _ => Some (k, rx)
  | _ => None
  end.

(** A slot it made is still its to answer for. *)
Definition answers_for (p : TaskPhase) : option GatewayKey :=
  match p with Rechecking k _ _ _ _ | Removing k _ _ _ _ => Some k | _ => None end.

Definition pass_answers_for (p : PassPhase) : option GatewayKey :=
  match p with PassChecking k _ | PassRemoving k => Some k | _ => None end.

Section Invariant.
Context {SE : Sealing} {TT : TokenText} {AC : AnswerCrypto} {WI : Wire}.
Context (controller_name : list Z) (au : Authenticator) (unix_now : Z -> option Z).

Definition body_ok (key : GatewayKey) (b : SyncBody) : Prop :=
  sr_gateway (sb_request b) = key /\ sr_protocol (sb_request b) = PROTOCOL /\ valid_nonce (sb_nonce b) = true.

Definition phase_ok (h : Hub) (p : TaskPhase) : Prop :=
  (forall k i b, asked p = Some (k, i, b) -> body_ok k b)
  /\ (forall k i b r, p = Recording k i b r \/ p = Lapsing k i b r -> sr_report (sb_request b) = Some r)
  /\ (forall k rx, receiver_of p = Some (k, rx) -> rx_ok h k rx).

(** Whoever will take out the slot of a Gateway the store lost. *)
Definition owed (w : SyncWorld) (key : GatewayKey) : Prop :=
  gone_event w = true \/ gone_notified w = true
  \/ (exists live, forgetting w = ForgetHub live /\ key ∉ live)
  \/ (exists i rq p, tasks w !! i = Some (rq, p) /\ answers_for p = Some key)
  \/ (exists i p, passes w !! i = Some p /\ pass_answers_for p = Some key).

Record sync_ok (w : SyncWorld) : Prop := {
  sync_hub : hub_ok (hub (server w));
  sync_phases i rq p : tasks w !! i = Some (rq, p) -> phase_ok (hub (server w)) p;
  sync_owed key : is_Some (slots (hub (server w)) !! key) -> gateway_store (server w) !! key = None -> owed w key;
}.

Lemma parse_body_ok key bytes b : parse_body key bytes = Ok b -> body_ok key b.
Proof.
  unfold parse_body, body_ok. destruct (decode_sync bytes) as [s|]; [|done]. case_bool_decide; cbn; [|done].
  destruct (_ =? PROTOCOL) eqn:Ep; cbn; [|done]. destruct (valid_nonce _) eqn:En; cbn; [|done]. intros [= <-]. apply Z.eqb_eq in Ep. done.
Qed.

(** A phase with nothing to wait on keeps what was asked. *)
Lemma phase_ok_same h h' p p' : phase_ok h p -> (forall x, asked p' = Some x -> asked p = Some x) -> receiver_of p' = None ->
  (forall k i b r, p' = Recording k i b r \/ p' = Lapsing k i b r -> sr_report (sb_request b) = Some r) -> phase_ok h' p'.
Proof. intros (Ha & _ & _) Hs Hr Hrep. split; [intros k i b H; by eapply Ha, Hs|]. split; [done|]. intros k rx H. by rewrite Hr in H. Qed.

Lemma phase_ok_hub h h' p : (forall k rx, rx_ok h k rx -> rx_ok h' k rx) -> phase_ok h p -> phase_ok h' p.
Proof. intros Hh (Ha & Hr & Hrx). split; [done|]. split; [done|]. intros k rx H. by apply Hh, Hrx. Qed.

Record moves (s s' : Server) (p p' : TaskPhase) : Prop := {
  moves_hub : hub_ok (hub s');
  moves_rx k rx : rx_ok (hub s) k rx -> rx_ok (hub s') k rx;
  moves_phase : phase_ok (hub s') p';
  moves_store : gateway_store s' = gateway_store s;
  moves_slots key : is_Some (slots (hub s') !! key) -> is_Some (slots (hub s) !! key) \/ answers_for p' = Some key;
  moves_owed key : answers_for p = Some key -> gateway_store s !! key = None -> answers_for p' = Some key \/ slots (hub s') !! key = None;
}.

(** A step that leaves the hub alone. *)
Lemma moves_still s s' p p' : hub_ok (hub s) -> hub s' = hub s -> gateway_store s' = gateway_store s -> phase_ok (hub s) p' ->
  (forall key, answers_for p = Some key -> gateway_store s !! key = None -> answers_for p' = Some key) -> moves s s' p p'.
Proof. intros Hok Eh Eg Hp Ho. constructor; rewrite ?Eh; try done; [by left|]. intros key Hk Hn. left. by apply Ho. Qed.

(** ... and to which nothing is owed. *)
Lemma moves_on s s' p p' : hub_ok (hub s) -> phase_ok (hub s) p -> hub s' = hub s -> gateway_store s' = gateway_store s -> answers_for p = None ->
  (forall x, asked p' = Some x -> asked p = Some x) -> receiver_of p' = None ->
  (forall k i b r, p' = Recording k i b r \/ p' = Lapsing k i b r -> sr_report (sb_request b) = Some r) -> moves s s' p p'.
Proof. intros Hok Hp Eh Eg Ha Has Hr Hrep. apply moves_still; try done; [by eapply phase_ok_same|]. intros key H. by rewrite Ha in H. Qed.

Ltac moving := apply moves_on; try done; try (by intros ? [=]); try (by intros ? ? ? ? [[=]|[=]]).

Lemma remove_slots k h key : hub_ok h -> is_Some (slots (remove k h).2 !! key) -> is_Some (slots h !! key).
Proof.
  intros Hok. rewrite remove_is_retain by done. unfold retain_slots. cbn. intros [s Hs]. apply map_lookup_filter_Some in Hs as [Hs _]. eauto.
Qed.

Lemma remove_gone k h : slots (remove k h).2 !! k = None.
Proof. unfold remove. destruct (slots h !! k) eqn:E; [apply lookup_delete_eq|done]. Qed.

Lemma handle_moves rq signer now s p e s' p' sig : hub_ok (hub s) -> phase_ok (hub s) p ->
  handle_step controller_name au unix_now rq signer now s p e = Some (s', p', sig) -> moves s s' p p'.
Proof.
  intros Hok Hp Hs. destruct p, e; try discriminate Hs; cbn [handle_step borrow_and_update hold_begin] in Hs.
  - destruct (_ ≫= _); [destruct (negb _)|]; injection Hs as <- <- <-; moving.
  - injection Hs as <- <- <-. destruct (is_leader s); moving.
  - injection Hs as <- <- <-. destruct (is_synced s); moving.
  - injection Hs as <- <- <-. destruct (precheck _ _ _); moving.
  - destruct answer; injection Hs as <- <- <-; [destruct (declared_length _); [destruct (_ <? _)|]|]; moving.
  - injection Hs as <- <- <-. moving.
  - destruct (BodyReader_start _ _); injection Hs as <- <- <-; moving.
  - destruct (0 <? _)%nat; injection Hs as <- <- <-; moving.
  - injection Hs as <- <- <-. moving.
  - injection Hs as <- <- <-. moving.
  - injection Hs as <- <- <-. moving.
  - injection Hs as <- <- <-. destruct read as [bytes|]; [|moving]. destruct (parse_body key bytes) as [b|] eqn:Eb; [|moving].
    apply moves_still; try done. split; [|split; [by intros ? ? ? ? [[=]|[=]]|done]]. intros k i b' [= <- <- <-]. by eapply parse_body_ok.
  - destruct (negb _).
    + destruct (gone_answer _ _ _) as [r sg]. injection Hs as <- <- <-. moving.
    + injection Hs as <- <- <-. destruct (sr_report _) as [r|] eqn:Er; moving. by intros k i b r' [[= <- <- <- <-]|[=]].
  - injection Hs as <- <- <-. pose proof Hp as (_ & Hr & _). moving. intros k i b r' [[=]|[= <- <- <- <-]]. eapply Hr. by left.
  - destruct (leaving report); [destruct (no_content _ _ _ _) as [r sg]|]; injection Hs as <- <- <-; moving.
  - injection Hs as <- <- <-. moving.
  - destruct (subscribe key (hub s)) as [rx h] eqn:E. injection Hs as <- <- <-. destruct (rx_subscribe _ _ _ _ Hok E) as (Hok' & Hrx & Hkeep).
    constructor; cbn [set_hub hub gateway_store]; try done.
    + pose proof Hp as (Ha & _ & _). split; [intros k i b [= <- <- <-]; by eapply Ha|]. split; [by intros ? ? ? ? [[=]|[=]]|]. by intros k r [= <- <-].
    + intros k Hk. destruct (decide (k = key)) as [->|Hne]; [by right|left]. unfold subscribe in E. destruct (entry key (hub s)) as [sl h1] eqn:E1.
      injection E as _ <-. pose proof (entry_spec _ _ _ _ Hok E1) as (_ & _ & Hn & _). by rewrite <- Hn.
  - injection Hs as <- <- <-. pose proof Hp as (Ha & _ & Hrx). apply moves_still; try done.
    + split; [|split; [destruct (serves _ _ _); by intros ? ? ? ? [[=]|[=]]|]]; destruct (serves _ _ _); cbn.
      * intros k i b [= <- <- <-]. by eapply Ha.
      * intros k i b [= <- <- <-]. by eapply Ha.
      * intros k r [= <- <-]. by eapply Hrx.
      * intros k r [= <- <-]. by eapply Hrx.
    + intros k [= <-] Hn. unfold serves. by rewrite Hn.
  - destruct (gone_answer _ _ _) as [r sg]. injection Hs as <- <- <-. constructor; cbn [set_hub hub gateway_store].
    + by apply remove_ok.
    + intros k r' Hr. by apply rx_remove.
    + split; [done|]. split; [by intros ? ? ? ? [[=]|[=]]|done].
    + done.
    + intros k Hk. left. by eapply remove_slots.
    + intros k [= <-] _. right. apply remove_gone.
  - pose proof Hp as (Ha & _ & Hrx). destruct (borrow _ _) as [sn|]; [destruct (beq _ _)|].
    + injection Hs as <- <- <-. apply moves_still; try done. split; [intros k i b [= <- <- <-]; by eapply Ha|]. split; [by intros ? ? ? ? [[=]|[=]]|].
      intros k r [= <- <-]. specialize (Hrx _ _ eq_refl). exact Hrx.
    + destruct (served _ _ _) as [r sg]. injection Hs as <- <- <-. moving.
    + injection Hs as <- <- <-. apply moves_still; try done. split; [intros k i b [= <- <- <-]; by eapply Ha|]. split; [by intros ? ? ? ? [[=]|[=]]|].
      intros k r [= <- <-]. specialize (Hrx _ _ eq_refl). exact Hrx.
  - pose proof Hp as (Ha & _ & Hrx). destruct (changed _ _) as [[]|]; [| |done].
    + injection Hs as <- <- <-. apply moves_still; try done. split; [intros k i b [= <- <- <-]; by eapply Ha|]. split; [by intros ? ? ? ? [[=]|[=]]|].
      intros k r [= <- <-]. by eapply Hrx.
    + destruct (gone_answer _ _ _) as [r sg]. injection Hs as <- <- <-. moving.
  - destruct (_ <? _); [done|]. destruct (held _ _ _ _) as [r sg]. injection Hs as <- <- <-. moving.
  - case_bool_decide; [|done]. destruct (held _ _ _ _) as [r sg]. injection Hs as <- <- <-. moving.
  - destruct (shutdown s); [|done]. injection Hs as <- <- <-. moving.
  - injection Hs as <- <- <-. moving.
  - injection Hs as <- <- <-. moving.
Qed.

Record pass_moves (s s' : Server) (p p' : PassPhase) : Prop := {
  pass_hub : hub_ok (hub s');
  pass_rx k rx : rx_ok (hub s) k rx -> rx_ok (hub s') k rx;
  pass_store : gateway_store s' = gateway_store s;
  pass_slots key : is_Some (slots (hub s') !! key) -> is_Some (slots (hub s) !! key) \/ pass_answers_for p' = Some key;
  pass_owed key : pass_answers_for p = Some key -> gateway_store s !! key = None -> pass_answers_for p' = Some key \/ slots (hub s') !! key = None;
}.

Lemma pass_still s s' p p' : hub_ok (hub s) -> hub s' = hub s -> gateway_store s' = gateway_store s ->
  (forall key, pass_answers_for p = Some key -> gateway_store s !! key = None -> pass_answers_for p' = Some key) -> pass_moves s s' p p'.
Proof. intros Hok Eh Eg Ho. constructor; rewrite ?Eh; try done; [by left|]. intros key Hk Hn. left. by apply Ho. Qed.

Lemma pass_removes s p p' key : hub_ok (hub s) -> (forall k, pass_answers_for p = Some k -> k = key) ->
  pass_moves s (set_hub s (remove key (hub s)).2) p p'.
Proof.
  intros Hok Hp. constructor; cbn [set_hub hub gateway_store].
  - by apply remove_ok.
  - intros k r Hr. by apply rx_remove.
  - done.
  - intros k Hk. left. by eapply remove_slots.
  - intros k ->%Hp _. right. apply remove_gone.
Qed.

Lemma snapshot_of_key key gw t : GatewayRef_key (s_gateway (snapshot_of key gw t)) = key.
Proof. destruct t as [[g c] n], key. done. Qed.

Lemma publish_slots sn t h key : hub_ok h -> is_Some (slots (publish sn t h).2 !! key) -> is_Some (slots h !! key) \/ GatewayRef_key (s_gateway sn) = key.
Proof.
  intros Hok. unfold publish. set (k := GatewayRef_key _). destruct (entry k h) as [slot h'] eqn:E.
  pose proof (entry_spec _ _ _ _ Hok E) as (_ & _ & Hn & _). destruct (decide (k = key)) as [|Hne]; [by right|]. intros H. left.
  destruct (same_version _ _); cbn in H; rewrite ?lookup_insert_ne in H by done; by rewrite <- Hn.
Qed.

Lemma pass_step_moves now s p t s' p' : hub_ok (hub s) -> pass_step controller_name now s p t = Some (s', p') -> pass_moves s s' p p'.
Proof.
  intros Hok Hs. destruct p; cbn [pass_step] in Hs.
  - injection Hs as <- <-. by apply pass_still.
  - injection Hs as <- <-. by apply pass_still.
  - destruct (class_owner _ _ _); injection Hs as <- <-; [by apply pass_still|by apply pass_removes|by apply pass_still].
  - injection Hs as <- <-. by apply pass_still.
  - destruct t as [t|]; injection Hs as <- <-; [|by apply pass_still]. constructor; cbn [set_hub hub gateway_store]; try done.
    + by apply publish_ok.
    + intros k rx Hr. by apply rx_publish.
    + intros k [H|H]%publish_slots; [by left| |done]. right. rewrite snapshot_of_key in H. by rewrite <- H.
  - injection Hs as <- <-. apply pass_still; try done. intros k [= <-] ->. done.
  - injection Hs as <- <-. apply pass_removes; [done|]. by intros k [= <-].
  - done.
Qed.

Lemma sync_ok_step w w' : sync_ok w -> sync_step controller_name au unix_now w w' -> sync_ok w'.
Proof.
  intros [Hh Hp Ho] Hs. destruct Hs as [w t Ht|w l y d|w cs|w key gw|w key|w gs|w Hn|w Hn Hf|w live Hf|w live Hf|w k|w i rq Hi|w i rq p e signer s' p' sig Hi Hs|w i key gw Hi|w i p t s' p' Hi Hs].
  - by constructor.
  - by constructor.
  - by constructor.
  - constructor; [done|done|]. cbn. intros k Hk [Hne Hn]%lookup_insert_None. by apply Ho.
  - constructor; [done|done|]. intros k Hk _. by left.
  - constructor; [done|done|]. intros k Hk _. by left.
  - constructor; [done|done|]. intros k Hk Hnone. right. by left.
  - constructor; [done|done|]. cbn. intros k Hk Hnone. right. right. left. eexists. split; [done|]. by apply not_elem_of_dom.
  - constructor; cbn.
    + by apply retain_ok.
    + intros i rq p Hi. eapply phase_ok_hub; [|by eapply Hp]. intros k rx. apply rx_retain.
    + intros k [sl Hk] Hnone. apply map_lookup_filter_Some in Hk as [Hk Hl%bool_decide_eq_true].
      destruct (Ho k (mk_is_Some _ _ Hk) Hnone) as [H|[H|[(live' & Hf' & Hn')|[H|H]]]]; [by left|right; by left| |do 3 right; by left|do 4 right; exact H].
      rewrite Hf in Hf'. injection Hf' as <-. done.
  - constructor; cbn; [done|done|]. intros k Hk Hnone. destruct (Ho k Hk Hnone) as [H|[H|[(live' & Hf' & _)|[H|H]]]].
    + by left.
    + right. by left.
    + by rewrite Hf in Hf'.
    + do 3 right. by left.
    + do 4 right. exact H.
  - by constructor.
  - constructor; cbn; [done| |].
    + intros j rq' p [[<- [= <- <-]]|[_ Hj]]%lookup_insert_Some; [|by eapply Hp]. split; [done|]. split; [by intros ? ? ? ? [[=]|[=]]|done].
    + intros k Hk Hnone. destruct (Ho k Hk Hnone) as [H|[H|[H|[(j & rq' & p & Hj & Ha)|H]]]]; [by left|right; by left|do 2 right; by left| |do 4 right; exact H].
      do 3 right. left. exists j, rq', p. split; [|done]. cbn. rewrite lookup_insert_ne; [done|]. intros <-. by rewrite Hi in Hj.
  - pose proof (handle_moves _ _ _ _ _ _ _ _ _ Hh (Hp _ _ _ Hi) Hs) as [M1 M2 M3 M4 M5 M6]. constructor; cbn; [done| |].
    + intros j rq' x [[<- [= <- <-]]|[_ Hj]]%lookup_insert_Some; [done|]. eapply phase_ok_hub; [exact M2|by eapply Hp].
    + rewrite M4. intros k Hk Hnone. assert (Hmine : answers_for p' = Some k -> owed (with_tasks (with_server w s') (<[i := (rq, p')]> (tasks w))) k).
      { intros Ha. do 3 right. left. exists i, rq, p'. cbn. by rewrite lookup_insert_eq. }
      destruct (M5 k Hk) as [Hold|Ha]; [|by apply Hmine].
      destruct (Ho k Hold Hnone) as [H|[H|[H|[(j & rq' & x & Hj & Ha)|H]]]]; [by left|right; by left|do 2 right; by left| |do 4 right; exact H].
      destruct (decide (j = i)) as [->|Hne].
      * rewrite Hi in Hj. injection Hj as <- <-. destruct (M6 k Ha Hnone) as [?|Hg]; [by apply Hmine|]. rewrite Hg in Hk. by destruct Hk.
      * do 3 right. left. exists j, rq', x. cbn. by rewrite lookup_insert_ne.
  - constructor; cbn; [done|done|]. intros k Hk Hnone. destruct (Ho k Hk Hnone) as [H|[H|[H|[H|(j & p & Hj & Ha)]]]]; [by left|right; by left|do 2 right; by left|do 3 right; by left|].
    do 4 right. exists j, p. cbn. rewrite lookup_insert_ne; [done|]. intros <-. by rewrite Hi in Hj.
  - destruct (pass_step_moves _ _ _ _ _ _ Hh Hs) as [M1 M2 M3 M4 M5]. constructor; cbn; [done| |].
    + intros j rq x Hj. eapply phase_ok_hub; [exact M2|by eapply Hp].
    + rewrite M3. intros k Hk Hnone. assert (Hmine : pass_answers_for p' = Some k -> owed (with_passes (with_server w s') (<[i := p']> (passes w))) k).
      { intros Ha. do 4 right. exists i, p'. cbn. by rewrite lookup_insert_eq. }
      destruct (M4 k Hk) as [Hold|Ha]; [|by apply Hmine].
      destruct (Ho k Hold Hnone) as [H|[H|[H|[H|(j & x & Hj & Ha)]]]]; [by left|right; by left|do 2 right; by left|do 3 right; by left|].
      destruct (decide (j = i)) as [->|Hne].
      * rewrite Hi in Hj. injection Hj as <-. destruct (M5 k Ha Hnone) as [?|Hg]; [by apply Hmine|]. rewrite Hg in Hk. by destruct Hk.
      * do 4 right. exists j, x. cbn. by rewrite lookup_insert_ne.
Qed.

Lemma sync_reached_ok w : sync_reached controller_name au unix_now w -> sync_ok w.
Proof. induction 1 as [t|w w' _ IH Hs]; [|by eapply sync_ok_step]. constructor; cbn; [apply hub_default_ok|done|]. intros key [? H]. done. Qed.

(** C23: no slot outlives its Gateway. Requests subscribe to slots, and make
    them; passes publish to them, and make them; Gateways come and go. However
    all of it interleaves: a slot of the hub whose Gateway is not in the store
    is one somebody is about to take out: the watch has yet to tell of a
    deletion, the forgetting was notified or has read a store without the
    Gateway, or the request or the pass that made the slot has yet to look
    again. Once none of these is under way, only Gateways of the store have
    slots, so a poll for a deleted one is answered, not held. *)
Theorem no_slot_outlives_its_gateway (w : SyncWorld) (key : GatewayKey) (Hreached : sync_reached controller_name au unix_now w)
  (Hslot : is_Some (slots (hub (server w)) !! key)) :
  is_Some (gateway_store (server w) !! key)
  \/ gone_event w = true \/ gone_notified w = true
  \/ (exists live, forgetting w = ForgetHub live /\ key ∉ live)
  \/ (exists i rq instance body hold rx, tasks w !! i = Some (rq, Rechecking key instance body hold rx) \/ tasks w !! i = Some (rq, Removing key instance body hold rx))
  \/ (exists i gw, passes w !! i = Some (PassChecking key gw) \/ passes w !! i = Some (PassRemoving key)).
Proof.
  destruct (gateway_store (server w) !! key) as [gw|] eqn:E; [left; eauto|right].
  destruct (sync_owed _ (sync_reached_ok w Hreached) key Hslot E) as [H|[H|[H|[(i & rq & p & Hi & Ha)|(i & p & Hi & Ha)]]]];
    [by left|right; by left|right; right; by left|do 3 right; left|do 4 right].
  - destruct p; try discriminate Ha; injection Ha as ->; do 6 eexists; [left|right]; exact Hi.
  - destruct p; try discriminate Ha; injection Ha as ->; [eexists _, _; left; exact Hi|eexists _, {| go_uid := []; go_class := [] |}; right; exact Hi].
Qed.
End Invariant.

(** ** What the controller signs *)

Section Truth.
Context {SE : Sealing} {TT : TokenText} {AC : AnswerCrypto} {WI : Wire}.
Context (controller_name : list Z) (au : Authenticator) (unix_now : Z -> option Z).

(** What a signed answer to a poll for [key] that has [have] says of the
    controller: what it serves now, or, for a poll whose slot was removed since
    it subscribed, what it served last. *)
Definition answer_true (s : Server) (key : GatewayKey) (rx : option Receiver) (body : SyncBody) (sig : Signature) : Prop :=
  let have := sr_have (sb_request body) in
  let gone := exists r, rx = Some r /\ slot_gone (hub s) r in
  match sig with
  | (SignedSnapshot, over) =>
      exists sn, encode_snapshot sn = Ok over /\ version sn <> have /\ (current key (hub s) = Some sn \/ gone)
  | (SignedUnchanged, over) => over = have /\ exists sn, version sn = have /\ (current key (hub s) = Some sn \/ gone)
  | (SignedPending, over) => over = [] /\ (current key (hub s) = None \/ gone)
  | (SignedGone, over) => over = encode_gone key /\ (serves controller_name s key = false \/ gone)
  | (SignedLeave, over) => over = [] /\ exists r, sr_report (sb_request body) = Some r /\ leaving r = true
  end.

Lemma no_content_sig signer kind nonce over r sig : no_content signer kind nonce over = (r, Some sig) -> sig = (kind, over).
Proof. unfold no_content. destruct (sign _ _ _ _); by intros [= _ <-]. Qed.

Lemma gone_sig signer key nonce r sig : gone_answer signer key nonce = (r, Some sig) -> sig = (SignedGone, encode_gone key).
Proof. unfold gone_answer, signed. destruct (sign _ _ _ _); by intros [= _ <-]. Qed.

Lemma served_sig signer sn nonce r sig : served signer sn nonce = (r, Some sig) -> exists over, encode_snapshot sn = Ok over /\ sig = (SignedSnapshot, over).
Proof. unfold served, signed. destruct (encode_snapshot sn) as [over|]; [|done]. destruct (sign _ _ _ _); intros [= _ <-]. eauto. Qed.

Lemma gone_rx h key rx : hub_ok h -> rx_ok h key rx -> slot_gone (remove key h).2 rx.
Proof.
  intros Hok Hrx. pose proof (rx_remove key h key rx Hok Hrx) as (c & Hc & Ho). exists c. split; [done|].
  destruct (ch_open c); [|done]. destruct (Ho eq_refl) as (slot & Hs & _). by rewrite remove_gone in Hs.
Qed.

Lemma held_true s key rx body nonce r sig signer : rx_ok (hub s) key rx ->
  held signer (borrow (hub s) (rx_chan rx)) nonce (sr_have (sb_request body)) = (r, Some sig) -> answer_true s key (Some rx) body sig.
Proof.
  intros Hrx H. assert (Hc : forall o, borrow (hub s) (rx_chan rx) = o -> current key (hub s) = o \/ exists r, Some rx = Some r /\ slot_gone (hub s) r).
  { intros o <-. destruct (rx_current _ _ _ Hrx) as [->|Hg]; [by left|right; eauto]. }
  unfold held in H. destruct (borrow _ _) as [sn|] eqn:Eb.
  - destruct (beq _ _) eqn:Ev.
    + apply beq_spec in Ev. apply no_content_sig in H as ->. cbn. split; [done|]. exists sn. split; [done|]. by apply Hc.
    + apply served_sig in H as (over & He & ->). exists sn. split; [done|]. split; [|by apply Hc]. intros E. apply beq_spec in E. by rewrite E in Ev.
  - apply no_content_sig in H as ->. cbn. split; [done|]. by apply Hc.
Qed.

Lemma changed_gone h key rx : hub_ok h -> rx_ok h key rx -> changed h rx = Some false -> slot_gone h rx.
Proof.
  intros Hok (c & Hc & Ho) H. unfold changed in H. rewrite Hc in H. destruct (negb _); [done|]. destruct (ch_open c) eqn:E; [done|]. by exists c.
Qed.

(** C22: what the controller signs is true. In any state reached by requests,
    passes, deletions and the clock interleaved in any order, an answer the
    endpoint signs is for a poll that named the Gateway of its path, this
    protocol and a valid nonce, and at that moment: a snapshot is the one the
    hub serves for the Gateway, of another version than the poll has; unchanged
    is signed over the version served, which is the one the poll has; pending
    says that none is served; gone names the Gateway, and it is not one of
    ours; a leave acknowledges a report that said so. The one exception is a
    poll whose slot was removed since it subscribed: it hears what was last
    served, or that the Gateway is gone. *)
Theorem sync_answers_are_true (w : SyncWorld) (i : nat) (rq : SyncHead) (p p' : TaskPhase) (e : Event) (signer : CertifiedKey)
  (s' : Server) (sig : Signature)
  (Hreached : sync_reached controller_name au unix_now w) (Htask : tasks w !! i = Some (rq, p))
  (Hstep : handle_step controller_name au unix_now rq signer (w_now w) (server w) p e = Some (s', p', Some sig)) :
  exists key instance body, asked p = Some (key, instance, body)
    /\ sr_gateway (sb_request body) = key /\ sr_protocol (sb_request body) = PROTOCOL /\ valid_nonce (sb_nonce body) = true
    /\ answer_true s' key (snd <$> receiver_of p) body sig.
Proof.
  pose proof (sync_reached_ok _ _ _ w Hreached) as [Hh Hp _]. specialize (Hp _ _ _ Htask). pose proof Hp as (Ha & Hrep & Hrx). set (s := server w) in *.
  assert (Hconcl : forall k i b, asked p = Some (k, i, b) -> answer_true s' k (snd <$> receiver_of p) b sig -> exists key instance body, asked p = Some (key, instance, body)
    /\ sr_gateway (sb_request body) = key /\ sr_protocol (sb_request body) = PROTOCOL /\ valid_nonce (sb_nonce body) = true
    /\ answer_true s' key (snd <$> receiver_of p) body sig).
  { intros k j b Hk Ht. destruct (Ha _ _ _ Hk) as (? & ? & ?). by exists k, j, b. }
  destruct p, e; try discriminate Hstep; cbn [handle_step borrow_and_update hold_begin] in Hstep.
  - destruct (_ ≫= _); [destruct (negb _)|]; discriminate Hstep.
  - destruct answer; discriminate Hstep.
  - destruct (BodyReader_start _ _); discriminate Hstep.
  - destruct (0 <? _)%nat; discriminate Hstep.
  - destruct (negb (serves _ _ _)) eqn:Es; [|discriminate Hstep]. destruct (gone_answer _ _ _) as [r sg] eqn:E. injection Hstep as <- <- ->.
    eapply Hconcl; [reflexivity|]. apply gone_sig in E as ->. cbn.
    split; [done|]. left. by apply negb_true_iff in Es.
  - destruct (leaving report) eqn:El; [|discriminate Hstep]. destruct (no_content _ _ _ _) as [r sg] eqn:E. injection Hstep as <- <- ->.
    eapply Hconcl; [reflexivity|]. apply no_content_sig in E as ->. cbn.
    split; [done|]. exists report. split; [|done]. eapply Hrep. by right.
  - destruct (subscribe _ _); discriminate Hstep.
  - destruct (gone_answer _ _ _) as [r sg] eqn:E. injection Hstep as <- <- ->.
    eapply Hconcl; [reflexivity|]. apply gone_sig in E as ->. cbn.
    split; [done|]. right. eexists. split; [reflexivity|]. apply gone_rx; [done|]. by apply Hrx.
  - destruct (borrow _ _) as [sn|] eqn:Eb; [destruct (beq _ _) eqn:Ev|]; [discriminate Hstep| |discriminate Hstep].
    destruct (served _ _ _) as [r sg] eqn:E. injection Hstep as <- <- ->. eapply Hconcl; [reflexivity|].
    apply served_sig in E as (over & He & ->). exists sn. split; [done|]. split; [intros Ec; apply beq_spec in Ec; by rewrite Ec in Ev|].
    destruct (rx_current _ _ _ (Hrx _ _ eq_refl)) as [Hc|Hg]; [left; by rewrite <- Hc|right; cbn; eauto].
  - destruct (changed _ _) as [[]|] eqn:Ec; [discriminate Hstep| |discriminate Hstep]. destruct (gone_answer _ _ _) as [r sg] eqn:E. injection Hstep as <- <- ->.
    eapply Hconcl; [reflexivity|]. apply gone_sig in E as ->. cbn.
    split; [done|]. right. eexists. split; [reflexivity|]. by eapply changed_gone; [done|apply Hrx|].
  - destruct (_ <? _); [discriminate Hstep|]. destruct (held _ _ _ _) as [r sg] eqn:E. injection Hstep as <- <- ->.
    eapply Hconcl; [reflexivity|]. eapply held_true; [by apply Hrx|exact E].
  - case_bool_decide; [|discriminate Hstep]. destruct (held _ _ _ _) as [r sg] eqn:E. injection Hstep as <- <- ->.
    eapply Hconcl; [reflexivity|]. eapply held_true; [by apply Hrx|exact E].
  - destruct (shutdown s); discriminate Hstep.
Qed.
End Truth.

(** ** What requests hold *)

Definition reads_body (t : SyncHead * TaskPhase) : bool :=
  match t.2 with ReadingBody _ _ | DropPermit _ _ _ => true | _ => false end.

Definition reader_of (p : TaskPhase) : option InstanceId :=
  match p with AtPermit _ i | ReadingBody _ i | DropPermit _ i _ | DropReader _ i _ => Some i | _ => None end.

Definition hold_of (p : TaskPhase) : option (InstanceId * nat) :=
  match p with
  | Subscribing _ i _ h | Rechecking _ i _ h _ | Removing _ i _ h _ | Polling _ i _ h _ _ | Selecting _ i _ h _ _ | DropHold i h _ => Some (i, h)
  | _ => None
  end.

(** How a step changes who reads bodies and who holds polls. *)
Definition readers_move (s s' : Server) (p p' : TaskPhase) : Prop :=
  match reader_of p, reader_of p' with
  | None, Some i => i ∉ body_readers s /\ body_readers s' = {[i]} ∪ body_readers s
  | Some i, None => body_readers s' = body_readers s ∖ {[i]}
  | r, r' => r = r' /\ body_readers s' = body_readers s
  end.

Definition holds_move (s s' : Server) (p p' : TaskPhase) : Prop :=
  match hold_of p, hold_of p' with
  | None, Some (i, h) => (h, holds s') = hold_begin i (holds s)
  | Some (i, h), None => holds s' = hold_drop i h (holds s)
  | h, h' => h = h' /\ holds s' = holds s
  end.

Section Held.
Context {SE : Sealing} {TT : TokenText} {AC : AnswerCrypto} {WI : Wire}.
Context (controller_name : list Z) (au : Authenticator) (unix_now : Z -> option Z).

Lemma handle_holds rq signer now s p e s' p' sig : handle_step controller_name au unix_now rq signer now s p e = Some (s', p', sig) ->
  (body_reads s' + b2n (reads_body (rq, p')) = body_reads s + b2n (reads_body (rq, p)))%nat /\ readers_move s s' p p' /\ holds_move s s' p p'.
Proof.
  intros Hs. destruct p, e; try discriminate Hs; cbn [handle_step borrow_and_update hold_begin] in Hs.
  all: try (by repeat case_match; simplify_eq).
  - destruct (BodyReader_start instance (body_readers s)) as [rd|] eqn:E; [|by injection Hs as <- <- <-]. injection Hs as <- <- <-.
    unfold BodyReader_start in E. case_bool_decide as Hi; [done|]. by injection E as <-.
  - destruct (0 <? body_reads s)%nat eqn:E; injection Hs as <- <- <-; [|done]. apply Nat.ltb_lt in E. split; [cbn; lia|done].
  - injection Hs as <- <- <-. split; [cbn; lia|done].
  - by injection Hs as <- <- <-.
Qed.

Record limits_ok (s : Server) (m : gmap nat (SyncHead * TaskPhase)) : Prop := {
  limit_reads : (body_reads s + count reads_body m = MAX_BODY_READS)%nat;
  limit_readers i : i ∈ body_readers s <-> exists j rq p, m !! j = Some (rq, p) /\ reader_of p = Some i;
  limit_one_reader j j' rq rq' p p' i : m !! j = Some (rq, p) -> m !! j' = Some (rq', p') -> reader_of p = Some i -> reader_of p' = Some i -> j = j';
  limit_hold j rq p i h : m !! j = Some (rq, p) -> hold_of p = Some (i, h) ->
    (h < next_hold (holds s))%nat /\ (h ∈ cancelled (holds s) \/ by_instance (holds s) !! i = Some h);
  limit_hold_once j j' rq rq' p p' i i' h : m !! j = Some (rq, p) -> m !! j' = Some (rq', p') -> hold_of p = Some (i, h) -> hold_of p' = Some (i', h) -> j = j';
  limit_held i h : by_instance (holds s) !! i = Some h -> exists j rq p, m !! j = Some (rq, p) /\ hold_of p = Some (i, h);
}.

(** The three parts of a step, each for the tasks with one moved. *)
Lemma readers_step s s' m j rq p p' : limits_ok s m -> m !! j = Some (rq, p) -> readers_move s s' p p' ->
  (forall i, i ∈ body_readers s' <-> exists k rq' x, <[j := (rq, p')]> m !! k = Some (rq', x) /\ reader_of x = Some i)
  /\ (forall k k' rq1 rq2 x x' i, <[j := (rq, p')]> m !! k = Some (rq1, x) -> <[j := (rq, p')]> m !! k' = Some (rq2, x') ->
        reader_of x = Some i -> reader_of x' = Some i -> k = k').
Proof.
  intros [_ Hr H1 _ _ _] Hj Hm.
  assert (Hold : forall i, i ∈ body_readers s -> (exists k rq' x, k <> j /\ m !! k = Some (rq', x) /\ reader_of x = Some i) \/ reader_of p = Some i).
  { intros i (k & rq' & x & Hk & Hx)%Hr. destruct (decide (k = j)) as [->|]; [right; by simplify_eq|left; eauto 6]. }
  assert (Hother : forall k rq' x i, k <> j -> m !! k = Some (rq', x) -> reader_of x = Some i -> i ∈ body_readers s /\ reader_of p <> Some i).
  { intros k rq' x i Hne Hk Hx. split; [apply Hr; eauto|]. intros Hp. by apply Hne, (H1 _ _ _ _ _ _ _ Hk Hj Hx Hp). }
  assert (Hmine : forall i, reader_of p = Some i -> i ∈ body_readers s) by (intros i Hi; apply Hr; eauto).
  assert (Hset : forall i, i ∈ body_readers s' <-> reader_of p' = Some i \/ (i ∈ body_readers s /\ reader_of p <> Some i)).
  { intros i. unfold readers_move in Hm. destruct (reader_of p) as [r|], (reader_of p') as [r'|].
    - destruct Hm as [[= <-] ->]. specialize (Hmine r eq_refl). destruct (decide (i = r)) as [->|Hne]; naive_solver.
    - rewrite Hm. set_solver.
    - destruct Hm as [_ ->]. set_solver.
    - destruct Hm as [_ ->]. set_solver. }
  assert (Hclash : forall k rq' x i, k <> j -> m !! k = Some (rq', x) -> reader_of x = Some i -> reader_of p' <> Some i).
  { intros k rq' x i Hne Hk Hx Hp'. destruct (Hother _ _ _ _ Hne Hk Hx) as [Hin Hp]. unfold readers_move in Hm. rewrite Hp' in Hm.
    destruct (reader_of p) as [r|]; naive_solver. }
  split.
  - intros i. rewrite Hset. split.
    + intros [Hp'|[Hin Hp]]; [exists j, rq, p'; by rewrite lookup_insert_eq|].
      destruct (Hold i Hin) as [(k & rq' & x & Hne & Hk & Hx)|?]; [|done]. exists k, rq', x. by rewrite lookup_insert_ne.
    + intros (k & rq' & x & [[<- [= <- <-]]|[Hne Hk]]%lookup_insert_Some & Hx); [by left|right; by eapply Hother].
  - intros k k' rq1 rq2 x x' i [[<- [= <- <-]]|[Hne Hk]]%lookup_insert_Some [[<- [= <- <-]]|[Hne' Hk']]%lookup_insert_Some Hx Hx'; [done| | |by eapply H1].
    + by destruct (Hclash _ _ _ _ (not_eq_sym Hne') Hk' Hx').
    + by destruct (Hclash _ _ _ _ (not_eq_sym Hne) Hk Hx).
Qed.

Lemma holds_step s s' m j rq p p' : limits_ok s m -> m !! j = Some (rq, p) -> holds_move s s' p p' ->
  let m' := <[j := (rq, p')]> m in
  (forall k rq' x i h, m' !! k = Some (rq', x) -> hold_of x = Some (i, h) ->
     (h < next_hold (holds s'))%nat /\ (h ∈ cancelled (holds s') \/ by_instance (holds s') !! i = Some h))
  /\ (forall k k' rq1 rq2 x x' i i' h, m' !! k = Some (rq1, x) -> m' !! k' = Some (rq2, x') -> hold_of x = Some (i, h) -> hold_of x' = Some (i', h) -> k = k')
  /\ (forall i h, by_instance (holds s') !! i = Some h -> exists k rq' x, m' !! k = Some (rq', x) /\ hold_of x = Some (i, h)).
Proof.
  intros [_ _ _ Hh H1 Hb] Hj Hm m'. unfold holds_move in Hm.
  assert (Hlook : forall k rq' x, m' !! k = Some (rq', x) -> k = j /\ x = p' \/ k <> j /\ m !! k = Some (rq', x)).
  { intros k rq' x [[<- [= <- <-]]|[Hne Hk]]%lookup_insert_Some; [by left|right; by split]. }
  assert (Hkeep : forall k rq' x, k <> j -> m !! k = Some (rq', x) -> m' !! k = Some (rq', x)) by (intros; unfold m'; by rewrite lookup_insert_ne).
  assert (Hself : m' !! j = Some (rq, p')) by apply lookup_insert_eq.
  destruct (hold_of p) as [[i0 h0]|] eqn:Ep, (hold_of p') as [[i1 h1]|] eqn:Ep'.
  - destruct Hm as [[= <- <-] Hm]. rewrite Hm. split; [|split].
    + intros k rq' x i h [[-> ->]|[_ Hk]]%Hlook Hx; [|by eapply Hh]. eapply (Hh j); [done|]. congruence.
    + intros k k' rq1 rq2 x x' i i' h [[-> ->]|[Hne Hk]]%Hlook [[-> ->]|[Hne' Hk']]%Hlook Hx Hx'; [done| | |by eapply H1].
      * rewrite Ep' in Hx. injection Hx as <- <-. by eapply H1.
      * rewrite Ep' in Hx'. injection Hx' as <- <-. by eapply H1.
    + intros i h (k & rq' & x & Hk & Hx)%Hb. destruct (decide (k = j)) as [->|]; [|eauto 6]. exists j, rq, p'. split; [done|]. by simplify_eq.
  - split; [|split].
    + intros k rq' x i h [[-> ->]|[Hne Hk]]%Hlook Hx; [by rewrite Ep' in Hx|]. destruct (Hh _ _ _ _ _ Hk Hx) as [Hlt Hor]. rewrite Hm. unfold hold_drop.
      case_bool_decide as Eb; [|done]. cbn. split; [done|]. destruct Hor as [?|Hi]; [by left|]. destruct (decide (i = i0)) as [->|]; [|right; by rewrite lookup_delete_ne].
      rewrite Eb in Hi. injection Hi as <-. by destruct (Hne (H1 _ _ _ _ _ _ _ _ _ Hk Hj Hx Ep)).
    + intros k k' rq1 rq2 x x' i i' h [[-> ->]|[Hne Hk]]%Hlook [[-> ->]|[Hne' Hk']]%Hlook Hx Hx'; [done|by rewrite Ep' in Hx|by rewrite Ep' in Hx'|by eapply H1].
    + intros i h Hi. assert (Hi' : by_instance (holds s) !! i = Some h /\ (i, h) <> (i0, h0)).
      { rewrite Hm in Hi. unfold hold_drop in Hi. case_bool_decide as Eb; [cbn in Hi; apply lookup_delete_Some in Hi as [Hne Hi]; split; [done|naive_solver]|].
        split; [done|]. intros [= -> ->]. done. }
      destruct Hi' as [Hi' Hne]. destruct (Hb _ _ Hi') as (k & rq' & x & Hk & Hx). exists k, rq', x. split; [|done]. apply Hkeep; [|done].
      intros ->. apply Hne. rewrite Hj in Hk. injection Hk as _ <-. congruence.
  - unfold hold_begin in Hm. injection Hm as -> Hs'. rewrite Hs'. cbn. split; [|split].
    + intros k rq' x i h [[-> ->]|[Hne Hk]]%Hlook Hx.
      * rewrite Ep' in Hx. injection Hx as <- <-. split; [lia|]. right. apply lookup_insert_eq.
      * destruct (Hh _ _ _ _ _ Hk Hx) as [Hlt Hor]. split; [lia|]. destruct Hor as [Hc|Hi]; [left; destruct (by_instance (holds s) !! i1); set_solver|].
        destruct (decide (i = i1)) as [->|]; [|right; by rewrite lookup_insert_ne]. left. rewrite Hi. set_solver.
    + intros k k' rq1 rq2 x x' i i' h [[-> ->]|[Hne Hk]]%Hlook [[-> ->]|[Hne' Hk']]%Hlook Hx Hx'; [done| | |by eapply H1].
      * rewrite Ep' in Hx. injection Hx as <- <-. destruct (Hh _ _ _ _ _ Hk' Hx'). lia.
      * rewrite Ep' in Hx'. injection Hx' as <- <-. destruct (Hh _ _ _ _ _ Hk Hx). lia.
    + intros i h [[<- <-]|[Hne Hi]]%lookup_insert_Some; [eauto|]. destruct (Hb _ _ Hi) as (k & rq' & x & Hk & Hx). exists k, rq', x. split; [|done].
      apply Hkeep; [|done]. intros ->. rewrite Hj in Hk. injection Hk as _ <-. by rewrite Ep in Hx.
  - destruct Hm as [_ Hm]. rewrite Hm. split; [|split].
    + intros k rq' x i h [[-> ->]|[_ Hk]]%Hlook Hx; [by rewrite Ep' in Hx|by eapply Hh].
    + intros k k' rq1 rq2 x x' i i' h [[-> ->]|[Hne Hk]]%Hlook [[-> ->]|[Hne' Hk']]%Hlook Hx Hx'; [done|by rewrite Ep' in Hx|by rewrite Ep' in Hx'|by eapply H1].
    + intros i h (k & rq' & x & Hk & Hx)%Hb. exists k, rq', x. split; [|done]. apply Hkeep; [|done]. intros ->. rewrite Hj in Hk. injection Hk as _ <-. by rewrite Ep in Hx.
Qed.

Lemma limits_step s m rq signer now j p e s' p' sig : limits_ok s m -> m !! j = Some (rq, p) ->
  handle_step controller_name au unix_now rq signer now s p e = Some (s', p', sig) -> limits_ok s' (<[j := (rq, p')]> m).
Proof.
  intros Hl Hj Hs. destruct (handle_holds _ _ _ _ _ _ _ _ _ Hs) as (Hc & Hr & Hh).
  destruct (readers_step _ _ _ _ _ _ _ Hl Hj Hr) as [R1 R2]. destruct (holds_step _ _ _ _ _ _ _ Hl Hj Hh) as (H1 & H2 & H3).
  constructor; [|exact R1|exact R2|exact H1|exact H2|exact H3].
  pose proof (count_step reads_body m j (rq, p) (rq, p') Hj) as Hn. pose proof (limit_reads _ _ Hl). lia.
Qed.

(** Steps of others leave what requests hold alone. *)
Lemma limits_other s s' m : limits_ok s m -> body_reads s' = body_reads s -> body_readers s' = body_readers s -> holds s' = holds s -> limits_ok s' m.
Proof. intros [L1 L2 L3 L4 L5 L6] E1 E2 E3. by constructor; rewrite ?E1, ?E2, ?E3. Qed.

Lemma pass_holds now s p t s' p' : pass_step controller_name now s p t = Some (s', p') ->
  body_reads s' = body_reads s /\ body_readers s' = body_readers s /\ holds s' = holds s.
Proof. intros Hs. destruct p; cbn [pass_step] in Hs; repeat case_match; by simplify_eq. Qed.

Lemma limits_world w w' : limits_ok (server w) (tasks w) -> sync_step controller_name au unix_now w w' -> limits_ok (server w') (tasks w').
Proof.
  intros Hl Hs. destruct Hs as [w t Ht|w l y d|w cs|w key gw|w key|w gs|w Hn|w Hn Hf|w live Hf|w live Hf|w k|w i rq Hi|w i rq p e signer s' p' sig Hi Hs|w i key gw Hi|w i p t s' p' Hi Hs];
    try (by eapply limits_other; [exact Hl|..]).
  - cbn. destruct Hl as [L1 L2 L3 L4 L5 L6]. assert (Hlook : forall k rq' x, <[i := (rq, Routing)]> (tasks w) !! k = Some (rq', x) ->
      (k = i /\ x = Routing) \/ tasks w !! k = Some (rq', x)) by (intros k rq' x [[<- [= _ <-]]|[_ Hk]]%lookup_insert_Some; [by left|by right]).
    assert (Hkeep : forall k rq' x, tasks w !! k = Some (rq', x) -> <[i := (rq, Routing)]> (tasks w) !! k = Some (rq', x)).
    { intros k rq' x Hk. rewrite lookup_insert_ne; [done|]. intros <-. by rewrite Hi in Hk. }
    constructor.
    + rewrite count_new by done. cbn. lia.
    + intros x. rewrite L2. split; [intros (k & rq' & y & Hk & Hy); eauto 6|intros (k & rq' & y & [[-> ->]|Hk]%Hlook & Hy); [done|eauto]].
    + intros k k' r1 r2 x x' y [[-> ->]|Hk]%Hlook [[-> ->]|Hk']%Hlook; try done. by eapply L3.
    + intros k r1 x y h [[-> ->]|Hk]%Hlook; [done|]. by eapply L4.
    + intros k k' r1 r2 x x' y y' h [[-> ->]|Hk]%Hlook [[-> ->]|Hk']%Hlook; try done. by eapply L5.
    + intros x h (k & rq' & y & Hk & Hy)%L6. eauto 6.
  - cbn. by eapply limits_step.
  - cbn. destruct (pass_holds _ _ _ _ _ _ Hs) as (E1 & E2 & E3). by eapply limits_other.
Qed.

Lemma limits_reached w : sync_reached controller_name au unix_now w -> limits_ok (server w) (tasks w).
Proof.
  induction 1 as [t|w w' _ IH Hs]; [|by eapply limits_world]. constructor; try done.
  intros i. split; [set_solver|]. by intros (? & ? & ? & ? & _).
Qed.

(** What requests take they give back. However they interleave, and whether
    they are answered or their connections break: at most 16 bodies are read at
    once, of a pod one; of the polls held for an instance all but one are told
    that they are superseded; and once every request has ended, all 16 permits
    are back, no pod is marked as read from and no poll as held. *)
Theorem requests_release_what_they_hold (w : SyncWorld) (Hreached : sync_reached controller_name au unix_now w) :
  (count (fun t => match t.2 with ReadingBody _ _ => true | _ => false end) (tasks w) <= 16)%nat
  /\ (forall j j' rq rq' k k' i, tasks w !! j = Some (rq, ReadingBody k i) -> tasks w !! j' = Some (rq', ReadingBody k' i) -> j = j')
  /\ (forall j j' rq rq' k k' b b' h h' rx rx' d d' i, tasks w !! j = Some (rq, Selecting k i b h rx d) ->
        tasks w !! j' = Some (rq', Selecting k' i b' h' rx' d') -> j = j' \/ h ∈ cancelled (holds (server w)) \/ h' ∈ cancelled (holds (server w)))
  /\ ((forall j rq p, tasks w !! j = Some (rq, p) -> exists r, p = Answered r) ->
      body_reads (server w) = 16%nat /\ body_readers (server w) = ∅ /\ by_instance (holds (server w)) = ∅).
Proof.
  destruct (limits_reached w Hreached) as [L1 L2 L3 L4 L5 L6]. split; [|split; [|split]].
  - etransitivity; [apply (count_mono _ reads_body)|unfold MAX_BODY_READS in L1; lia]. intros [rq []]; done.
  - intros j j' rq rq' k k' i Hj Hj'. by eapply L3.
  - intros j j' rq rq' k k' b b' h h' rx rx' d d' i Hj Hj'. destruct (L4 _ _ _ _ _ Hj eq_refl) as [_ [?|E]]; [by right; left|].
    destruct (L4 _ _ _ _ _ Hj' eq_refl) as [_ [?|E']]; [by right; right|]. left. rewrite E in E'. injection E' as <-. by eapply L5.
  - intros Hall. split; [|split].
    + rewrite (count_none reads_body) in L1; [unfold MAX_BODY_READS in L1; lia|]. intros j [rq p] Hj. by destruct (Hall _ _ _ Hj) as [r ->].
    + apply leibniz_equiv, equiv_empty. intros i (j & rq & p & Hj & Hp)%L2. destruct (Hall _ _ _ Hj) as [r ->]. done.
    + apply map_eq. intros i. rewrite lookup_empty. destruct (by_instance _ !! i) as [h|] eqn:E; [|done].
      destruct (L6 _ _ E) as (j & rq & p & Hj & Hp). destruct (Hall _ _ _ Hj) as [r ->]. done.
Qed.
End Held.

(** ** At work *)

Section Script.
Context {SE : Sealing} {TT : TokenText} {AC : AnswerCrypto} {WI : Wire}.
Context (controller_name : list Z) (au : Authenticator) (unix_now : Z -> option Z) (signer : CertifiedKey).

(** Steps of a world, one by one. *)
Inductive Act :=
  | ActFlags (leader synced : bool)
  | ActClasses (cs : list GatewayClass)
  | ActApplied (key : GatewayKey) (gw : GatewayObject)
  | ActDeleted (key : GatewayKey)
  | ActRequest (i : nat) (rq : SyncHead)
  | ActTask (i : nat) (e : Event)
  | ActPassNew (i : nat) (key : GatewayKey) (gw : GatewayObject)
  | ActPass (i : nat) (t : option Translation).

Definition act (w : SyncWorld) (a : Act) : option SyncWorld :=
  match a with
  | ActFlags l y => Some (with_server w (set_flags (server w) l y false))
  | ActClasses cs => Some (with_server w (set_cache (server w) (gateway_store (server w)) cs))
  | ActApplied key gw => Some (with_server w (set_cache (server w) (<[key := gw]> (gateway_store (server w))) (class_store (server w))))
  | ActDeleted key =>
      Some (with_gone (with_server w (set_cache (server w) (delete key (gateway_store (server w))) (class_store (server w)))) true (gone_notified w) (forgetting w))
  | ActRequest i rq => match tasks w !! i with None => Some (with_tasks w (<[i := (rq, Routing)]> (tasks w))) | Some _ => None end
  | ActTask i e =>
      '(rq, p) ← tasks w !! i;
      '(s', p', _) ← handle_step controller_name au unix_now rq signer (w_now w) (server w) p e;
      Some (with_tasks (with_server w s') (<[i := (rq, p')]> (tasks w)))
  | ActPassNew i key gw => match passes w !! i with None => Some (with_passes w (<[i := PassSynced key gw]> (passes w))) | Some _ => None end
  | ActPass i t =>
      p ← passes w !! i;
      '(s', p') ← pass_step controller_name (w_now w) (server w) p t;
      Some (with_passes (with_server w s') (<[i := p']> (passes w)))
  end.

Fixpoint acts (w : SyncWorld) (l : list Act) : option SyncWorld :=
  match l with [] => Some w | a :: l => w' ← act w a; acts w' l end.

Lemma act_step w a w' : act w a = Some w' -> sync_step controller_name au unix_now w w'.
Proof.
  destruct a; cbn; intros H.
  - injection H as <-. apply sync_flags.
  - injection H as <-. apply sync_classes.
  - injection H as <-. apply sync_applied.
  - injection H as <-. apply sync_deleted.
  - destruct (tasks w !! i) eqn:E; [done|]. injection H as <-. by apply sync_request.
  - destruct (tasks w !! i) as [[rq p]|] eqn:E; [|done]. cbn in H.
    destruct (handle_step _ _ _ _ _ _ _ _ _) as [[[s' p'] sig]|] eqn:Eh; [|done]. cbn in H. injection H as <-. by eapply sync_task.
  - destruct (passes w !! i) eqn:E; [done|]. injection H as <-. by apply sync_pass_new.
  - destruct (passes w !! i) as [p|] eqn:E; [|done]. cbn in H. destruct (pass_step _ _ _ _ _) as [[s' p']|] eqn:Ep; [|done]. cbn in H.
    injection H as <-. by eapply sync_pass.
Qed.

Lemma acts_reached w l w' : sync_reached controller_name au unix_now w -> acts w l = Some w' -> sync_reached controller_name au unix_now w'.
Proof.
  induction l as [|a l IH] in w |- *; intros Hw H; [by injection H as <-|]. cbn in H. destruct (act w a) as [w1|] eqn:E; [|done]. cbn in H.
  eapply IH; [|exact H]. eapply sync_more; [exact Hw|]. by eapply act_step.
Qed.
End Script.

#[local] Existing Instance toy_sealing.
#[local] Existing Instance toy_crypto.

Definition toy_claims : Value := VObject [
  (bs "aud", VString (bs "portail-controller.portail-system.svc"));
  (bs "exp", VNumber (Some (f64_of 1000)));
  (bs "sub", VString (bs "system:serviceaccount:default:portail-gw"))].

#[local] Instance toy_token_text : TokenText := {| b64url_decode := fun s => Some s; value_of_slice := fun _ => Some toy_claims |}.

Definition toy_request : SyncRequest := {| sr_protocol := PROTOCOL; sr_gateway := sample_key; sr_have := []; sr_report := None |}.

#[local] Instance toy_wire : Wire := {|
  decode_sync := fun _ => Ok {| sb_request := toy_request; sb_nonce := toy_nonce |};
  encode_snapshot := fun _ => Ok toy_body;
  encode_gone := fun k => GatewayKey_to_string k;
  sign_error := [];
  decimal := fun _ => [] |}.

Definition our_name : list Z := bs "portail.epheo.eu/controller".

Definition our_gateway : GatewayObject := {| go_uid := bs "uid-1"; go_class := bs "portail" |}.

Definition poll_head : SyncHead := {| rq_path := bs "/v1/sync/default/gw"; rq_post := true; rq_headers := [(TOKEN_HEADER, bs "h.p.s")] |}.

(** A Gateway is published, and a data plane of it polls, up to the moment its
    poll looks at the slot. *)
Definition poll_script : list Act :=
  [ActFlags true true; ActClasses [{| gc_name := Some (bs "portail"); gc_controller := our_name |}]; ActApplied sample_key our_gateway;
   ActPassNew 0 sample_key our_gateway; ActPass 0 None; ActPass 0 None; ActPass 0 None; ActPass 0 (Some (1, sent_config, [])); ActPass 0 None;
   ActRequest 0 poll_head; ActTask 0 Goes; ActTask 0 Goes; ActTask 0 Goes; ActTask 0 Goes; ActTask 0 (Authenticated (Ok (bs "pod-1")));
   ActTask 0 Goes; ActTask 0 Goes; ActTask 0 (BodyRead (Some []))].

Definition poll_rest : list Act :=
  [ActTask 0 Goes; ActTask 0 Goes; ActTask 0 Goes; ActTask 0 Goes; ActTask 0 Goes; ActTask 0 Goes].

Definition play_world (l : list Act) : SyncWorld :=
  default (sync_world_new 0) (acts our_name sample_auth (fun _ => Some 0) tt (sync_world_new 0) l).

Lemma play_world_reached l : is_some (acts our_name sample_auth (fun _ => Some 0) tt (sync_world_new 0) l) = true ->
  sync_reached our_name sample_auth (fun _ => Some 0) (play_world l).
Proof.
  intros H. unfold play_world. destruct (acts _ _ _ _ _ _) as [w|] eqn:E; [|done]. eapply acts_reached; [apply sync_start|exact E].
Qed.

Definition polling_world : SyncWorld := play_world (poll_script ++ poll_rest).

Definition polling_phase : TaskPhase := match tasks polling_world !! 0%nat with Some (_, p) => p | None => Routing end.

Definition served_now : option (Server * TaskPhase * option Signature) :=
  handle_step our_name sample_auth (fun _ => Some 0) poll_head tt 0 (server polling_world) polling_phase Goes.

Lemma sync_answers_are_true_witness :
  match served_now with Some (_, _, Some sig) => sig = (SignedSnapshot, toy_body) | _ => False end
  /\ exists key instance body, asked polling_phase = Some (key, instance, body) /\ sr_gateway (sb_request body) = key.
Proof.
  assert (Ew : is_some (acts our_name sample_auth (fun _ => Some 0) tt (sync_world_new 0) (poll_script ++ poll_rest)) = true) by (vm_compute; reflexivity).
  split; [vm_compute; reflexivity|].
  destruct served_now as [[[s' p'] [sig|]]|] eqn:E; [|exfalso; revert E; vm_compute; discriminate|exfalso; revert E; vm_compute; discriminate].
  destruct (sync_answers_are_true (AC := toy_crypto) our_name sample_auth (fun _ => Some 0) polling_world 0 poll_head polling_phase p' Goes tt s' sig
    (play_world_reached _ Ew) ltac:(vm_compute; reflexivity) E) as (key & instance & body & H1 & H2 & _).
  exists key, instance, body. split; [exact H1|exact H2].
Defined.

(** The Gateway is deleted after the request's first look at the store. *)
Definition raced_world : SyncWorld := play_world (poll_script ++ [ActTask 0 Goes; ActTask 0 Goes; ActTask 0 Goes; ActDeleted sample_key; ActTask 0 Goes; ActTask 0 Goes]).

Lemma no_slot_outlives_its_gateway_witness :
  gateway_store (server raced_world) !! sample_key = None
  /\ (gone_event raced_world = true \/ is_Some (gateway_store (server raced_world) !! sample_key) \/ tasks raced_world <> ∅).
Proof.
  assert (Ew : is_some (acts our_name sample_auth (fun _ => Some 0) tt (sync_world_new 0)
    (poll_script ++ [ActTask 0 Goes; ActTask 0 Goes; ActTask 0 Goes; ActDeleted sample_key; ActTask 0 Goes; ActTask 0 Goes])) = true) by (vm_compute; reflexivity).
  split; [vm_compute; reflexivity|].
  assert (Hs : is_Some (slots (hub (server raced_world)) !! sample_key)) by (vm_compute; eauto).
  destruct (no_slot_outlives_its_gateway our_name sample_auth (fun _ => Some 0) raced_world sample_key (play_world_reached _ Ew) Hs)
    as [H|[H|_]]; [by right; left|by left|right; right; vm_compute; discriminate].
Defined.

Lemma requests_release_what_they_hold_witness :
  (count (fun t => match t.2 with ReadingBody _ _ => true | _ => false end) (tasks polling_world) <= 16)%nat.
Proof.
  apply (requests_release_what_they_hold our_name sample_auth (fun _ => Some 0) polling_world). apply play_world_reached. vm_compute. reflexivity.
Defined.
