(* ===== verification/Leader.v ===== *)
(** * Leader election

    [src/src/kubernetes/controller/leader.rs]: replicas campaign for one Lease
    object by the client-go algorithm. Replicas, the API server and the network
    run side by side: a request reaches the server at some time after it is
    sent, also when its sender has given up on it, and its answer comes later
    or never. Each replica measures durations with a clock of its own that runs
    at the rate of the world's; the stamps in the record are wall-clock readings
    the algorithm never compares. A timer fires at most [slack] after it is due.

    The API server is what Kubernetes documents of it: a replace is refused
    unless the object is the one that was read, a create unless there is none.
    The Lease is nobody else's to write or delete, and no two writes leave the
    same record: each carries the time it was made, in microseconds. *)

From S2P Require Import Prelude Bytes Config.

Definition LEASE_DURATION : Z := 15000000000.
Definition RENEW_DEADLINE : Z := 10000000000.
Definition RETRY_PERIOD : Z := 2000000000.
Definition RELEASED_DURATION_SECS : Z := 1.

(** [i32::try_from(LEASE_DURATION.as_secs())] *)
Definition duration_secs : Z := LEASE_DURATION / 1000000000.

Inductive Role := Standby | Leading | Lost.

#[export] Instance Role_eq_dec : EqDecision Role.
Proof. solve_decision. Defined.

(** ** A replica's view *)

(** A [gained] stream: the items sent on it, and whether it is still read. *)
Record GainedStream := { items : nat; read : bool }.

Record Leader := { role : Role; gained : list GainedStream; since : option Z }.

Definition Leader_new (r : Role) (now : Z) : Leader :=
  {| role := r; gained := []; since := if bool_decide (r = Leading) then Some now else None |}.

Definition is_leader (l : Leader) : bool := bool_decide (role l = Leading).

(** [Leader::gained]: a new stream. *)
Definition new_gained (l : Leader) : Leader :=
  {| role := role l; gained := gained l ++ [{| items := b2n (is_leader l); read := true |}]; since := since l |}.

Definition leading_since (l : Leader) : option Z := if is_leader l then since l else None.

Definition set_role (r : Role) (now : Z) (l : Leader) : Leader :=
  if bool_decide (r = Leading) && negb (bool_decide (role l = Leading))
  then {| role := r; since := Some now;
          gained := map (fun g => {| items := S (items g); read := true |}) (List.filter read (gained l)) |}
  else {| role := r; gained := gained l; since := since l |}.

(** ** The record *)

Abbreviation Identity := (list Z).

Record LeaseSpec := {
  holder_identity : option Identity;
  lease_duration_seconds : option Z;
  acquire_time : option Z;
  renew_time : option Z;
  lease_transitions : option Z;
}.

#[export] Instance LeaseSpec_eq_dec : EqDecision LeaseSpec.
Proof. solve_decision. Defined.

Inductive Outcome := Held | HeldBy (holder : Identity) | Contended.

Abbreviation Observed := (option (LeaseSpec * Z)).

Definition observe (record : LeaseSpec) (at_ : Z) (o : Observed) : Observed :=
  if bool_decide (fst <$> o = Some record) then o else Some (record, at_).

Definition I32_MAX : Z := 2147483647.

(** The record a replica creates the Lease with. *)
Definition first_record (me : Identity) (wall : Z) : LeaseSpec :=
  {| holder_identity := Some me; lease_duration_seconds := Some duration_secs; acquire_time := Some wall; renew_time := Some wall;
     lease_transitions := Some 0 |}.

(** [try_acquire_or_renew] once the Lease is read: who holds it, or the record
    to replace it with. *)
Definition judge (me : Identity) (o : Observed) (record : LeaseSpec) (started wall : Z) : Identity + LeaseSpec :=
  let holder := default [] (holder_identity record) in
  let mine := beq holder me in
  let valid_for := Z.max 0 (default 0 (lease_duration_seconds record)) * 1000000000 in
  let changed_at := match o with Some (_, at_) => at_ | None => started end in
  if negb (is_nil holder) && negb mine && (started <? changed_at + valid_for) then inl holder
  else inr {| holder_identity := Some me; lease_duration_seconds := Some duration_secs;
              acquire_time := if mine then acquire_time record else Some wall;
              renew_time := Some wall;
              lease_transitions := if mine then lease_transitions record
                                   else Some (Z.min (default 0 (lease_transitions record) + 1) I32_MAX) |}.

(** [release]: [None] when the Lease is not this replica's. *)
Definition released (me : Identity) (record : LeaseSpec) (wall : Z) : option LeaseSpec :=
  if bool_decide (holder_identity record = Some me)
  then Some {| holder_identity := Some []; lease_duration_seconds := Some RELEASED_DURATION_SECS; acquire_time := Some wall;
               renew_time := Some wall; lease_transitions := lease_transitions record |}
  else None.

(** ** A campaign *)

(** The Lease as the server has it, with its resource version. *)
Abbreviation Stored := (nat * LeaseSpec)%type.

(** Where a campaign is. [started] and [due] are of the attempt: when its round
    began and when its budget ends; [call] tells the writes of a replica apart. *)
Inductive CampaignPhase :=
  | Reading (started due : Z)
  | WasRead (started due : Z) (lease : option Stored)
  | Writing (started due : Z) (call : nat)
  | Wrote (started due : Z) (spec : option LeaseSpec)
  | Sleeping (until : Z)
  | ReleaseReading
  | ReleaseRead (lease : option Stored)
  | ReleaseWriting (call : nat)
  | Ended.

Record Replica := {
  leader : Leader;
  renewed : option Z;
  observed : Observed;
  next_call : nat;
  phase : CampaignPhase;
}.

(** [RENEW_DEADLINE.saturating_sub(started - at)], or all of it. *)
Definition budget (renewed : option Z) (started : Z) : Z :=
  match renewed with Some at_ => Z.max 0 (RENEW_DEADLINE - Z.max 0 (started - at_)) | None => RENEW_DEADLINE end.

(** The top of the loop. *)
Definition begin_round (r : Replica) (now : Z) : Replica :=
  {| leader := leader r; renewed := renewed r; observed := observed r; next_call := next_call r;
     phase := Reading now (now + budget (renewed r) now) |}.

Definition Replica_new (now : Z) : Replica :=
  begin_round {| leader := Leader_new Standby now; renewed := None; observed := None; next_call := 0; phase := Ended |} now.

(** An attempt that ended: held, held by another, or a failure ([None]), a
    write contended among them. [wait] is the sleep drawn for a candidate. *)
Definition after_attempt (r : Replica) (started now : Z) (attempt : option Outcome) (wait : Z) : Replica :=
  let sleep renewed := now + match renewed with Some _ => RETRY_PERIOD | None => wait end in
  let lost := {| leader := set_role Lost now (leader r); renewed := renewed r; observed := observed r; next_call := next_call r; phase := Ended |} in
  let failure :=
    match renewed r with
    | Some at_ => if RENEW_DEADLINE <=? Z.max 0 (now - at_) then lost
                  else {| leader := leader r; renewed := renewed r; observed := observed r; next_call := next_call r; phase := Sleeping (sleep (renewed r)) |}
    | None => {| leader := leader r; renewed := renewed r; observed := observed r; next_call := next_call r; phase := Sleeping (sleep (renewed r)) |}
    end in
  match attempt with
  | Some Held =>
      {| leader := if is_some (renewed r) then leader r else set_role Leading now (leader r); renewed := Some started; observed := observed r;
         next_call := next_call r; phase := Sleeping (sleep (Some started)) |}
  | Some (HeldBy _) =>
      if is_some (renewed r) then lost
      else {| leader := leader r; renewed := renewed r; observed := observed r; next_call := next_call r; phase := Sleeping (sleep (renewed r)) |}
  | Some Contended | None => failure
  end.

(** The end of the campaign, once stopped. *)
Definition stopped (r : Replica) (now : Z) : Replica :=
  {| leader := if is_some (renewed r) then set_role Standby now (leader r) else leader r; renewed := renewed r; observed := observed r;
     next_call := next_call r; phase := if is_some (renewed r) then ReleaseReading else Ended |}.

Definition at_phase (r : Replica) (p : CampaignPhase) : Replica :=
  {| leader := leader r; renewed := renewed r; observed := observed r; next_call := next_call r; phase := p |}.

Definition saw (r : Replica) (record : LeaseSpec) (now : Z) : Replica :=
  {| leader := leader r; renewed := renewed r; observed := observe record now (observed r); next_call := next_call r; phase := phase r |}.

Definition calls (r : Replica) : Replica :=
  {| leader := leader r; renewed := renewed r; observed := observed r; next_call := S (next_call r); phase := phase r |}.

(** ** Replicas, the network and the server *)

(** A write on its way: a create, or a replace of the version read. *)
Record Write := { w_owner : Identity; w_call : nat; w_base : option nat; w_spec : LeaseSpec; w_started : Z }.

Record Election := {
  replicas : gmap Identity Replica;
  lease : option Stored;
  (** When the server took the Lease in, and all records it ever had. *)
  lease_at : Z;
  past : list LeaseSpec;
  writes : list Write;
  clock : Z;
}.

(** When a replica's timer is due. *)
Definition due_of (p : CampaignPhase) : option Z :=
  match p with
  | Reading _ due | WasRead _ due _ | Writing _ due _ | Wrote _ due _ => Some due
  | Sleeping until => Some until
  | _ => None
  end.

Definition put (e : Election) (me : Identity) (r : Replica) : Election :=
  {| replicas := <[me := r]> (replicas e); lease := lease e; lease_at := lease_at e; past := past e; writes := writes e; clock := clock e |}.

Definition send (e : Election) (w : Write) : Election :=
  {| replicas := replicas e; lease := lease e; lease_at := lease_at e; past := past e; writes := w :: writes e; clock := clock e |}.

(** Whether the server takes a write in: the Lease is as it was read. *)
Definition accepts (e : Election) (w : Write) : bool :=
  match lease e, w_base w with
  | None, None => true
  | Some (v, _), Some base => (v =? base)%nat
  | _, _ => false
  end.

Definition land (e : Election) (w : Write) : Election :=
  {| replicas := replicas e;
     lease := Some (match lease e with Some (v, _) => S v | None => 0%nat end, w_spec w);
     lease_at := clock e; past := w_spec w :: past e; writes := writes e; clock := clock e |}.

Definition drop_write (e : Election) (ws : list Write) : Election :=
  {| replicas := replicas e; lease := lease e; lease_at := lease_at e; past := past e; writes := ws; clock := clock e |}.

Section Election.
(** How late a timer fires at most. *)
Context (slack : Z).

Inductive election_step : Election -> Election -> Prop :=
  (** Time passes, no further than a timer allows. *)
  | el_time e t : clock e <= t -> (forall me r due, replicas e !! me = Some r -> due_of (phase r) = Some due -> t <= due + slack) ->
      election_step e {| replicas := replicas e; lease := lease e; lease_at := lease_at e; past := past e; writes := writes e; clock := t |}
  (** A replica starts: identities are drawn anew each time. *)
  | el_joins e me : me <> [] -> replicas e !! me = None -> election_step e (put e me (Replica_new (clock e)))
  | el_wakes e me r until : replicas e !! me = Some r -> phase r = Sleeping until -> until <= clock e ->
      election_step e (put e me (begin_round r (clock e)))
  (** The server reads the Lease for it, and the answer comes. *)
  | el_reads e me r s d : replicas e !! me = Some r -> phase r = Reading s d -> election_step e (put e me (at_phase r (WasRead s d (lease e))))
  | el_absent e me r s d wall : replicas e !! me = Some r -> phase r = WasRead s d None ->
      election_step e (send (put e me (at_phase (calls r) (Writing s d (next_call r))))
                         {| w_owner := me; w_call := next_call r; w_base := None; w_spec := first_record me wall; w_started := s |})
  | el_held_by e me r s d v record holder wall wait : replicas e !! me = Some r -> phase r = WasRead s d (Some (v, record)) ->
      judge me (observe record (clock e) (observed r)) record s wall = inl holder -> RETRY_PERIOD <= wait ->
      election_step e (put e me (after_attempt (saw r record (clock e)) s (clock e) (Some (HeldBy holder)) wait))
  | el_takes e me r s d v record spec wall : replicas e !! me = Some r -> phase r = WasRead s d (Some (v, record)) ->
      judge me (observe record (clock e) (observed r)) record s wall = inr spec ->
      election_step e (send (put e me (at_phase (calls (saw r record (clock e))) (Writing s d (next_call r))))
                         {| w_owner := me; w_call := next_call r; w_base := Some v; w_spec := spec; w_started := s |})
  (** The server takes a write in, or refuses it; whoever waits for the answer
      gets it. *)
  | el_lands e ws1 w ws2 : writes e = ws1 ++ w :: ws2 -> accepts e w = true -> w_spec w ∉ past e -> election_step e (
      let e := drop_write (land e w) (ws1 ++ ws2) in
      match replicas e !! w_owner w with
      | Some r => match phase r with
                  | Writing s d call => if (call =? w_call w)%nat then put e (w_owner w) (at_phase r (Wrote s d (Some (w_spec w)))) else e
                  | ReleaseWriting call => if (call =? w_call w)%nat then put e (w_owner w) (at_phase r Ended) else e
                  | _ => e
                  end
      | None => e
      end)
  | el_refused e ws1 w ws2 : writes e = ws1 ++ w :: ws2 -> accepts e w = false -> election_step e (
      let e := drop_write e (ws1 ++ ws2) in
      match replicas e !! w_owner w with
      | Some r => match phase r with
                  | Writing s d call => if (call =? w_call w)%nat then put e (w_owner w) (at_phase r (Wrote s d None)) else e
                  | ReleaseWriting call => if (call =? w_call w)%nat then put e (w_owner w) (at_phase r Ended) else e
                  | _ => e
                  end
      | None => e
      end)
  | el_held e me r s d spec wait : replicas e !! me = Some r -> phase r = Wrote s d (Some spec) -> RETRY_PERIOD <= wait ->
      election_step e (put e me (after_attempt (saw r spec (clock e)) s (clock e) (Some Held) wait))
  | el_contended e me r s d wait : replicas e !! me = Some r -> phase r = Wrote s d None -> RETRY_PERIOD <= wait ->
      election_step e (put e me (after_attempt r s (clock e) (Some Contended) wait))
  (** An error of the API at any await; and the attempt's timeout. *)
  | el_fails e me r s d wait : replicas e !! me = Some r -> RETRY_PERIOD <= wait ->
      phase r = Reading s d \/ (exists call, phase r = Writing s d call) -> election_step e (put e me (after_attempt r s (clock e) None wait))
  | el_times_out e me r s d wait : replicas e !! me = Some r -> RETRY_PERIOD <= wait -> d <= clock e ->
      phase r = Reading s d \/ (exists l, phase r = WasRead s d l) \/ (exists call, phase r = Writing s d call) \/ (exists sp, phase r = Wrote s d sp) ->
      election_step e (put e me (after_attempt r s (clock e) None wait))
  (** Stopped, at an await or asleep; and the release. *)
  | el_stops e me r : replicas e !! me = Some r -> is_some (due_of (phase r)) = true -> election_step e (put e me (stopped r (clock e)))
  | el_release_reads e me r : replicas e !! me = Some r -> phase r = ReleaseReading -> election_step e (put e me (at_phase r (ReleaseRead (lease e))))
  | el_releases e me r v record spec wall : replicas e !! me = Some r -> phase r = ReleaseRead (Some (v, record)) -> released me record wall = Some spec ->
      election_step e (send (put e me (at_phase (calls r) (ReleaseWriting (next_call r))))
                         {| w_owner := me; w_call := next_call r; w_base := Some v; w_spec := spec; w_started := clock e |})
  | el_ends e me r : replicas e !! me = Some r ->
      phase r = ReleaseReading \/ (exists l, phase r = ReleaseRead l) \/ (exists call, phase r = ReleaseWriting call) ->
      election_step e (put e me (at_phase r Ended)).

Definition election_new (t : Z) : Election := {| replicas := ∅; lease := None; lease_at := t; past := []; writes := []; clock := t |}.

Inductive election_reached : Election -> Prop :=
  | el_start t : election_reached (election_new t)
  | el_more e e' : election_reached e -> election_step e e' -> election_reached e'.
End Election.

(** ** Invariant *)

(** A record the algorithm writes: with a holder it lasts the full duration. *)
Definition record_ok (s : LeaseSpec) : Prop :=
  exists h, holder_identity s = Some h /\ (h <> [] -> lease_duration_seconds s = Some duration_secs).

(** The Lease is [me]'s, by a write no older than [t]. *)
Definition held_by (e : Election) (me : Identity) (t : Z) : Prop :=
  exists v s, lease e = Some (v, s) /\ holder_identity s = Some me /\ t <= lease_at e.

(** Who may replace the record [s] the Lease has, by a round begun at [started]. *)
Definition entitled (e : Election) (me : Identity) (started : Z) (s : LeaseSpec) : Prop :=
  holder_identity s = Some [] \/ holder_identity s = Some me \/ lease_at e + LEASE_DURATION <= started.

Definition read_of (p : CampaignPhase) : option Stored :=
  match p with WasRead _ _ l => l | ReleaseRead l => l | _ => None end.

Definition attempt_of (p : CampaignPhase) : option (Z * Z) :=
  match p with Reading s d | WasRead s d _ | Writing s d _ | Wrote s d _ => Some (s, d) | _ => None end.

Definition releasing (p : CampaignPhase) : bool :=
  match p with ReleaseWriting _ | Ended => true | _ => false end.

Section Exclusion.
Context (slack : Z).

(** How long a leader's timer may have to run, since it renewed. *)
Definition timer_bound (p : CampaignPhase) (r0 due : Z) : Prop :=
  match p with
  | Sleeping _ => due <= r0 + RENEW_DEADLINE + RETRY_PERIOD + slack
  | _ => due <= r0 + RENEW_DEADLINE + RETRY_PERIOD + 2 * slack
  end.

Record rep_ok (e : Election) (me : Identity) (r : Replica) : Prop := {
  ro_due due : due_of (phase r) = Some due -> clock e <= due + slack;
  ro_observed rec at_ : observed r = Some (rec, at_) ->
    rec ∈ past e /\ at_ <= clock e /\ forall v s, lease e = Some (v, s) -> rec = s -> lease_at e <= at_;
  ro_read b rec : read_of (phase r) = Some (b, rec) ->
    rec ∈ past e /\ exists v s, lease e = Some (v, s) /\ (b <= v)%nat /\ (b = v -> rec = s);
  ro_started s d : attempt_of (phase r) = Some (s, d) -> s <= clock e /\ d <= s + RENEW_DEADLINE;
  ro_acked s d sp : phase r = Wrote s d (Some sp) -> held_by e me s /\ sp ∈ past e;
  ro_lead : role (leader r) = Leading -> exists r0 due, renewed r = Some r0 /\ held_by e me r0 /\ due_of (phase r) = Some due /\ timer_bound (phase r) r0 due;
  ro_renewed due : is_Some (renewed r) -> due_of (phase r) = Some due -> role (leader r) = Leading;
}.

Definition write_ok (e : Election) (w : Write) : Prop :=
  exists r, replicas e !! w_owner w = Some r /\ (w_call w < next_call r)%nat /\ w_started w <= clock e /\ record_ok (w_spec w)
    /\ (holder_identity (w_spec w) = Some (w_owner w) \/ holder_identity (w_spec w) = Some [] /\ releasing (phase r) = true)
    /\ forall b, w_base w = Some b -> exists v s, lease e = Some (v, s) /\ (b <= v)%nat /\ (b = v -> entitled e (w_owner w) (w_started w) s).

Record el_ok (e : Election) : Prop := {
  el_replicas me r : replicas e !! me = Some r -> me <> [] /\ rep_ok e me r;
  el_lease v s : lease e = Some (v, s) -> s ∈ past e /\ lease_at e <= clock e;
  el_past s : s ∈ past e -> record_ok s;
  el_writes w : w ∈ writes e -> write_ok e w;
}.

(** Replicas are judged by the Lease and the clock. *)
Lemma rep_ok_put e me r x y : rep_ok e x y -> rep_ok (put e me r) x y.
Proof. intros [R1 R2 R3 R4 R5 R6 R7]. by constructor. Qed.

Lemma rep_ok_send e w x y : rep_ok e x y -> rep_ok (send e w) x y.
Proof. intros [R1 R2 R3 R4 R5 R6 R7]. by constructor. Qed.

Lemma put_ok e me r r' : el_ok e -> replicas e !! me = Some r -> rep_ok e me r' -> (next_call r <= next_call r')%nat ->
  (releasing (phase r) = true -> releasing (phase r') = true) -> el_ok (put e me r').
Proof.
  intros [H1 H2 H3 H4] Hr Hr' Hc Hrel. constructor; [|exact H2|exact H3|].
  - cbn. intros m x [[<- <-]|[_ Hx]]%lookup_insert_Some; [split; [by eapply H1|by apply rep_ok_put]|]. destruct (H1 _ _ Hx). split; [done|by apply rep_ok_put].
  - intros w Hw. destruct (H4 w Hw) as (x & Hx & Hcall & Hs & Hrec & Hk & Hb). unfold write_ok. cbn. destruct (decide (me = w_owner w)) as [->|Hne].
    + rewrite Hr in Hx. injection Hx as <-. exists r'. rewrite lookup_insert_eq. split; [done|]. split; [lia|]. do 2 (split; [done|]). split; [|exact Hb].
      destruct Hk as [?|[? ?]]; [by left|right; auto].
    + exists x. rewrite lookup_insert_ne by done. do 4 (split; [done|]). split; [exact Hk|exact Hb].
Qed.

Lemma send_ok e w : el_ok e -> write_ok e w -> el_ok (send e w).
Proof.
  intros [H1 H2 H3 H4] Hw. constructor; [|exact H2|exact H3|].
  { intros x y Hx. destruct (H1 _ _ Hx). split; [done|by apply rep_ok_send]. } cbn. intros x [->|Hx]%elem_of_cons; [exact Hw|by apply H4].
Qed.

Lemma observe_some rec at_ o : exists t, observe rec at_ o = Some (rec, t) /\ (t = at_ \/ o = Some (rec, t)).
Proof.
  unfold observe. case_bool_decide as E; [|eauto]. destruct o as [[r t]|]; [|done]. injection E as ->. eauto.
Qed.

(** What an observation of a record read says of the Lease. *)
Lemma saw_observed e me r rec : el_ok e -> replicas e !! me = Some r -> rec ∈ past e ->
  forall rec' at_, observe rec (clock e) (observed r) = Some (rec', at_) ->
    rec' ∈ past e /\ at_ <= clock e /\ forall v s, lease e = Some (v, s) -> rec' = s -> lease_at e <= at_.
Proof.
  intros Hok Hr Hp rec' at_ Ho. destruct (observe_some rec (clock e) (observed r)) as (t & E & Ht). rewrite E in Ho. injection Ho as <- <-.
  destruct Ht as [->|Ht]; [split; [done|split; [lia|]]|by eapply (ro_observed _ _ _ (proj2 (el_replicas _ Hok _ _ Hr)))].
  intros v s Hl _. by eapply (el_lease _ Hok).
Qed.

(** What a round that goes on to write is entitled to. *)
Lemma judge_entitled e me r rec s wall spec : el_ok e -> replicas e !! me = Some r -> rec ∈ past e ->
  judge me (observe rec (clock e) (observed r)) rec s wall = inr spec ->
  (forall v sp, lease e = Some (v, sp) -> rec = sp -> entitled e me s sp) /\ holder_identity spec = Some me /\ lease_duration_seconds spec = Some duration_secs.
Proof.
  intros Hok Hr Hp. unfold judge. destruct (observe_some rec (clock e) (observed r)) as (t & E & _). rewrite E.
  pose proof (saw_observed _ _ _ _ Hok Hr Hp _ _ E) as (_ & _ & Hat).
  destruct (negb (is_nil (default [] (holder_identity rec))) && _ && _) eqn:Ej; intros [= <-]. split; [|done]. intros v sp Hl Hs. specialize (Hat v sp Hl Hs). subst sp.
  destruct (el_past _ Hok _ Hp) as (h & Eh & Hd). unfold entitled. rewrite Eh in *. cbn [default from_option id] in Ej. destruct h as [|x h]; [by left|right]. cbn [is_nil negb andb] in Ej.
  destruct (beq (x :: h) me) eqn:Em; [left; apply beq_spec in Em; by rewrite Em|right]. rewrite (Hd ltac:(done)) in Ej.
  cbn [negb andb default from_option id] in Ej. apply Z.ltb_ge in Ej. change (Z.max 0 duration_secs * 1000000000) with LEASE_DURATION in Ej. lia.
Qed.

Context (Hslack : 0 <= slack < 1000000000).

Lemma role_set r now l : role (set_role r now l) = r.
Proof. unfold set_role. by destruct (_ && _). Qed.

Lemma attempt_due p s d : attempt_of p = Some (s, d) -> due_of p = Some d.
Proof. destruct p; cbn; congruence. Qed.

(** A replica that sleeps, or is done. *)
Lemma sleeping_ok e me r until ld rn n : rep_ok e me r -> clock e <= until ->
  (role ld = Leading -> exists r0, rn = Some r0 /\ held_by e me r0 /\ until <= r0 + RENEW_DEADLINE + RETRY_PERIOD + slack) ->
  (is_Some rn -> role ld = Leading) ->
  rep_ok e me {| leader := ld; renewed := rn; observed := observed r; next_call := n; phase := Sleeping until |}.
Proof.
  intros Hr Hu Hl Hn. constructor; cbn; try done.
  - intros due [= <-]. lia.
  - apply Hr.
  - intros Hrole. destruct (Hl Hrole) as (r0 & -> & Hh & Hb). exists r0, until. done.
  - intros due Hs _. by apply Hn.
Qed.

Lemma ended_ok e me r ld rn n p : rep_ok e me r -> role ld <> Leading -> due_of p = None -> attempt_of p = None -> read_of p = None ->
  rep_ok e me {| leader := ld; renewed := rn; observed := observed r; next_call := n; phase := p |}.
Proof.
  intros Hr Hl Hd Ha Hrd. constructor; cbn; rewrite ?Hd, ?Ha, ?Hrd; try done; [apply Hr|]. intros s d sp ->. done.
Qed.

Lemma after_attempt_ok e me r s d attempt wait : rep_ok e me r -> attempt_of (phase r) = Some (s, d) -> RETRY_PERIOD <= wait ->
  (attempt = Some Held -> held_by e me s) -> rep_ok e me (after_attempt r s (clock e) attempt wait).
Proof.
  intros Hr Ha Hw Hh. pose proof (attempt_due _ _ _ Ha) as Hd. pose proof (ro_due _ _ _ Hr _ Hd) as Hdue.
  destruct (ro_started _ _ _ Hr _ _ Ha) as [Hs Hb]. unfold RETRY_PERIOD in Hw.
  assert (Hnone : renewed r = None -> role (leader r) <> Leading) by (intros E Hl; destruct (ro_lead _ _ _ Hr Hl) as (? & ? & E' & _); congruence).
  assert (Hsleep : rep_ok e me {| leader := leader r; renewed := renewed r; observed := observed r; next_call := next_call r;
     phase := Sleeping (clock e + match renewed r with Some _ => RETRY_PERIOD | None => wait end) |} \/
     exists at_, renewed r = Some at_ /\ RENEW_DEADLINE <= clock e - at_).
  { destruct (renewed r) as [at_|] eqn:E.
    - destruct (decide (RENEW_DEADLINE <= clock e - at_)) as [?|Hlt]; [right; eauto|left]. apply sleeping_ok; [done|unfold RETRY_PERIOD; lia| |].
      + intros Hl. destruct (ro_lead _ _ _ Hr Hl) as (r0 & due & E' & Hheld & _). exists r0. split; [congruence|]. split; [done|].
        rewrite E in E'. injection E' as <-. unfold RENEW_DEADLINE, RETRY_PERIOD in *. lia.
      + intros _. by eapply (ro_renewed _ _ _ Hr); [rewrite E|].
    - left. apply sleeping_ok; [done|lia| |by intros [? ?]]. intros Hl. by destruct (Hnone eq_refl). }
  assert (Hlost : rep_ok e me {| leader := set_role Lost (clock e) (leader r); renewed := renewed r; observed := observed r; next_call := next_call r; phase := Ended |}).
  { by apply ended_ok. }
  assert (Hfail : rep_ok e me (after_attempt r s (clock e) None wait)).
  { unfold after_attempt. destruct (renewed r) as [at_|] eqn:E.
    - destruct (RENEW_DEADLINE <=? Z.max 0 (clock e - at_)) eqn:El; [exact Hlost|].
      destruct Hsleep as [Hsl|(t & [= <-] & Ht)]; [exact Hsl|]. apply Z.leb_gt in El. lia.
    - destruct Hsleep as [Hsl|(t & Ht & _)]; [exact Hsl|done]. }
  destruct attempt as [[|h|]|]; [|unfold after_attempt|exact Hfail|exact Hfail].
  - cbn. apply sleeping_ok; [done|unfold RETRY_PERIOD; lia| |].
    + intros _. exists s. split; [done|]. split; [by apply Hh|]. unfold RENEW_DEADLINE, RETRY_PERIOD in *. lia.
    + intros _. destruct (renewed r) eqn:E; cbn; [|by rewrite role_set]. eapply (ro_renewed _ _ _ Hr); [by rewrite E|done].
  - destruct (renewed r) as [at_|] eqn:E; cbn [is_some]; [exact Hlost|]. destruct Hsleep as [Hsl|(t & Ht & _)]; [exact Hsl|done].
Qed.

Lemma begin_round_ok e me r until : el_ok e -> rep_ok e me r -> phase r = Sleeping until -> until <= clock e -> rep_ok e me (begin_round r (clock e)).
Proof.
  intros Hok Hr Hp Hu. pose proof (ro_due _ _ _ Hr until) as Hdue. rewrite Hp in Hdue. specialize (Hdue eq_refl).
  assert (Hbud : 0 <= budget (renewed r) (clock e) <= RENEW_DEADLINE) by (unfold budget, RENEW_DEADLINE; destruct (renewed r); lia).
  constructor; cbn; try done.
  - intros due [= <-]. lia.
  - apply Hr.
  - intros s d [= <- <-]. lia.
  - intros Hl. destruct (ro_lead _ _ _ Hr Hl) as (r0 & due & E & Hh & Ed & Hb). rewrite Hp in Ed, Hb. injection Ed as <-. cbn in Hb.
    exists r0. eexists. split; [done|]. split; [done|]. split; [done|]. destruct Hh as (v & sp & Hlease & _ & Hle).
    destruct (el_lease _ Hok _ _ Hlease) as [_ Hat]. rewrite E. unfold budget, RENEW_DEADLINE, RETRY_PERIOD in *. lia.
  - intros due Hs _. eapply (ro_renewed _ _ _ Hr); [done|by rewrite Hp].
Qed.

Lemma saw_ok e me r rec : el_ok e -> replicas e !! me = Some r -> rec ∈ past e -> rep_ok e me (saw r rec (clock e)).
Proof.
  intros Hok Hr Hp. pose proof (proj2 (el_replicas _ Hok _ _ Hr)) as [R1 R2 R3 R4 R5 R6 R7]. constructor; cbn; try done.
  exact (saw_observed _ _ _ _ Hok Hr Hp).
Qed.

(** From one place of an attempt to the next. *)
Lemma attempt_on e me r s d p n : rep_ok e me r -> attempt_of (phase r) = Some (s, d) -> attempt_of p = Some (s, d) ->
  (forall b rec, read_of p = Some (b, rec) -> rec ∈ past e /\ exists v sp, lease e = Some (v, sp) /\ (b <= v)%nat /\ (b = v -> rec = sp)) ->
  (forall s d sp, p = Wrote s d (Some sp) -> held_by e me s /\ sp ∈ past e) ->
  rep_ok e me {| leader := leader r; renewed := renewed r; observed := observed r; next_call := n; phase := p |}.
Proof.
  intros Hr Ha Hp Hread Hack. pose proof (attempt_due _ _ _ Ha) as Hd. pose proof (attempt_due _ _ _ Hp) as Hd'. constructor; cbn; try done.
  - intros due E. rewrite Hd' in E. injection E as <-. by apply Hr.
  - apply Hr.
  - intros s' d' E. rewrite Hp in E. injection E as <- <-. by apply Hr.
  - intros Hl. destruct (ro_lead _ _ _ Hr Hl) as (r0 & due & E & Hh & Ed & Hb). exists r0, due. rewrite Hd in Ed. injection Ed as <-.
    split; [done|]. split; [done|]. split; [done|]. destruct (phase r); try discriminate Ha; destruct p; try discriminate Hp; exact Hb.
  - intros due Hs _. by eapply (ro_renewed _ _ _ Hr).
Qed.

Lemma idle_not_leading e me r : rep_ok e me r -> due_of (phase r) = None -> role (leader r) <> Leading.
Proof. intros Hr Hd Hl. destruct (ro_lead _ _ _ Hr Hl) as (? & ? & _ & _ & E & _). congruence. Qed.

(** While a replica leads, or was just told that it holds the Lease, nobody
    else's write goes through. *)
Lemma no_rival e w me r : el_ok e -> w ∈ writes e -> accepts e w = true -> replicas e !! me = Some r ->
  role (leader r) = Leading \/ (exists s d sp, phase r = Wrote s d (Some sp)) -> me = w_owner w.
Proof.
  intros Hok Hw Hacc Hr Hl. destruct (el_replicas _ Hok _ _ Hr) as [Hne Hrep].
  assert (Ht : exists t, held_by e me t /\ clock e < t + LEASE_DURATION).
  { destruct Hl as [Hl|(s & d & sp & Hp)].
    - destruct (ro_lead _ _ _ Hrep Hl) as (r0 & due & _ & Hh & Hd & Hb). exists r0. split; [done|]. pose proof (ro_due _ _ _ Hrep _ Hd).
      unfold timer_bound, LEASE_DURATION, RENEW_DEADLINE, RETRY_PERIOD in *. destruct (phase r); lia.
    - destruct (ro_acked _ _ _ Hrep _ _ _ Hp) as [Hh _]. exists s. split; [done|]. pose proof (ro_due _ _ _ Hrep d) as Hd. rewrite Hp in Hd. specialize (Hd eq_refl).
      destruct (ro_started _ _ _ Hrep s d) as [_ Hb]; [by rewrite Hp|]. unfold LEASE_DURATION, RENEW_DEADLINE in *. lia. }
  destruct Ht as (t & (v & s & Hlease & Hh & Hat) & Hc). destruct (el_writes _ Hok _ Hw) as (x & _ & _ & Hst & _ & _ & Hb).
  unfold accepts in Hacc. rewrite Hlease in Hacc. destruct (w_base w) as [b|] eqn:Eb; [|done]. apply Nat.eqb_eq in Hacc as <-.
  destruct (Hb _ eq_refl) as (v' & s' & Hl' & _ & He). rewrite Hlease in Hl'. injection Hl' as <- <-.
  destruct (He eq_refl) as [E|[E|E]]; [congruence|congruence|]. lia.
Qed.

Lemma accepted_version e w v s : accepts e w = true -> lease e = Some (v, s) -> w_base w = Some v.
Proof. unfold accepts. intros Ha Hl. rewrite Hl in Ha. destruct (w_base w); [|done]. apply Nat.eqb_eq in Ha. by subst. Qed.

Lemma land_ok e ws1 w ws2 : el_ok e -> writes e = ws1 ++ w :: ws2 -> accepts e w = true -> w_spec w ∉ past e ->
  el_ok (drop_write (land e w) (ws1 ++ ws2)).
Proof.
  intros Hok Hws Hacc Hnew. assert (Hw : w ∈ writes e) by (rewrite Hws; set_solver).
  destruct (el_writes _ Hok _ Hw) as (x & Hx & _ & Hst & Hrec & Hk & _).
  assert (Hheld : forall me r t, replicas e !! me = Some r -> role (leader r) = Leading \/ (exists s d sp, phase r = Wrote s d (Some sp)) ->
    t <= clock e -> held_by (drop_write (land e w) (ws1 ++ ws2)) me t).
  { intros me r t Hr Hl Ht. pose proof (no_rival _ _ _ _ Hok Hw Hacc Hr Hl) as ->. rewrite Hx in Hr. injection Hr as <-.
    eexists _, _. split; [reflexivity|]. split; [|done]. destruct Hk as [?|[_ Hrel]]; [done|]. exfalso.
    destruct (el_replicas _ Hok _ _ Hx) as [_ Hrep]. destruct Hl as [Hl|(s & d & sp & Hp)].
    - destruct (ro_lead _ _ _ Hrep Hl) as (? & ? & _ & _ & Hd & _). by destruct (phase x).
    - by rewrite Hp in Hrel. }
  constructor; cbn.
  - intros me r Hr. destruct (el_replicas _ Hok _ _ Hr) as [Hne Hrep]. split; [done|]. constructor; cbn.
    + apply Hrep.
    + intros rec at_ Ho. destruct (ro_observed _ _ _ Hrep _ _ Ho) as (Hp & Hat & _). split; [by right|]. split; [done|].
      intros v s [= _ <-] ->. done.
    + intros b rec Hread. destruct (ro_read _ _ _ Hrep _ _ Hread) as (Hp & v & s & Hl & Hb & _). split; [by right|]. rewrite Hl. eexists _, _. split; [reflexivity|]. split; [lia|intros ->; lia].
    + apply Hrep.
    + intros s d sp Hp. destruct (ro_acked _ _ _ Hrep _ _ _ Hp) as [_ Hpast]. split; [|by right]. eapply Hheld; [done|right; eauto|].
      by eapply (ro_started _ _ _ Hrep s d); rewrite Hp.
    + intros Hl. destruct (ro_lead _ _ _ Hrep Hl) as (r0 & due & E & (v & s & Hlease & _ & Hat) & Hd & Hb). exists r0, due. split; [done|].
      split; [|done]. eapply Hheld; [done|by left|]. destruct (el_lease _ Hok _ _ Hlease). lia.
    + apply Hrep.
  - intros v s [= _ <-]. split; [by left|lia].
  - intros s [->|Hs]%elem_of_cons; [done|by apply (el_past _ Hok)].
  - intros w' Hw'. assert (Hin : w' ∈ writes e) by (rewrite Hws; set_solver). destruct (el_writes _ Hok _ Hin) as (y & Hy & Hc & Hs & Hr & Hk' & Hb).
    exists y. do 5 (split; [done|]). intros b Eb. destruct (Hb b Eb) as (v & s & Hl & Hle & _). cbn. rewrite Hl. eexists _, _. split; [reflexivity|]. split; [lia|intros ->; lia].
Qed.

Lemma drop_ok e ws1 w ws2 : el_ok e -> writes e = ws1 ++ w :: ws2 -> el_ok (drop_write e (ws1 ++ ws2)).
Proof.
  intros [H1 H2 H3 H4] Hws. constructor; [|exact H2|exact H3|].
  - intros me r Hr. destruct (H1 _ _ Hr) as [? [R1 R2 R3 R4 R5 R6 R7]]. split; [done|]. by constructor.
  - cbn. intros w' Hw'. exact (H4 w' ltac:(rewrite Hws; set_solver)).
Qed.

(** The answer of a write reaches whoever waits for it. *)
Lemma answer_ok e me r call n sp : el_ok e -> replicas e !! me = Some r ->
  (forall s d c, phase r = Writing s d c -> sp = None \/ exists x, sp = Some x /\ x ∈ past e /\ held_by e me s) ->
  el_ok (match phase r with
         | Writing s d c => if (c =? call)%nat then put e me (at_phase r (Wrote s d sp)) else e
         | ReleaseWriting c => if (c =? n)%nat then put e me (at_phase r Ended) else e
         | _ => e
         end).
Proof.
  intros Hok Hr Hsp. destruct (el_replicas _ Hok _ _ Hr) as [_ Hrep]. destruct (phase r) as [| |s d c| | | | |c|] eqn:Hp; try done; (destruct (_ =? _)%nat; [|done]).
  - eapply put_ok; [done|done| |done|by rewrite Hp]. eapply attempt_on; [done|by rewrite Hp|done|done|].
    intros s' d' x [= <- <- ->]. destruct (Hsp _ _ _ eq_refl) as [?|(y & [= <-] & Hy & Hh)]; [done|]. done.
  - eapply put_ok; [done|done| |done|done]. apply ended_ok; try done. eapply idle_not_leading; [done|by rewrite Hp].
Qed.

Lemma time_ok e t : el_ok e -> clock e <= t ->
  (forall me r due, replicas e !! me = Some r -> due_of (phase r) = Some due -> t <= due + slack) ->
  el_ok {| replicas := replicas e; lease := lease e; lease_at := lease_at e; past := past e; writes := writes e; clock := t |}.
Proof.
  intros Hok Ht Hd.
  destruct Hok as [H1 H2 H3 H4]. constructor; cbn.
  - intros me r Hr. destruct (H1 _ _ Hr) as [? [R1 R2 R3 R4 R5 R6 R7]]. split; [done|]. constructor; cbn; try done.
    + intros due Hdue. by eapply Hd.
    + intros rec at_ Ho. destruct (R2 _ _ Ho) as (? & ? & ?). split; [done|]. split; [lia|done].
    + intros s d Ha. destruct (R4 _ _ Ha). lia.
  - intros v s Hl. destruct (H2 _ _ Hl). split; [done|lia].
  - done.
  - intros w Hw. destruct (H4 w Hw) as (y & ? & ? & ? & ? & ? & ?). exists y. cbn. do 2 (split; [done|]). split; [lia|]. done.
Qed.

Lemma join_ok e me : el_ok e -> me <> [] -> replicas e !! me = None -> el_ok (put e me (Replica_new (clock e))).
Proof.
  intros Hok Hne Hn.
  destruct Hok as [H1 H2 H3 H4]. constructor; cbn; [|done|done|].
  - intros m x [[<- <-]|[_ Hx]]%lookup_insert_Some; [split; [done|]|destruct (H1 _ _ Hx); split; [done|by apply rep_ok_put]].
    constructor; cbn; try done; [intros due [= <-]; unfold RENEW_DEADLINE; lia|intros s d [= <- <-]; lia].
  - intros w Hw. destruct (H4 w Hw) as (y & Hy & ?). exists y. cbn. rewrite lookup_insert_ne; [done|]. intros ->. congruence.
Qed.

Lemma el_ok_step e e' : el_ok e -> election_step slack e e' -> el_ok e'.
Proof.
  intros Hok Hs. destruct Hs as [e t Ht Hd|e me Hne Hn|e me r until Hr Hp Hu|e me r s d Hr Hp|e me r s d wall Hr Hp
    |e me r s d v record holder wall wait Hr Hp Hj Hw|e me r s d v record spec wall Hr Hp Hj|e ws1 w ws2 Hws Hacc Hnew|e ws1 w ws2 Hws Hacc
    |e me r s d spec wait Hr Hp Hw|e me r s d wait Hr Hp Hw|e me r s d wait Hr Hw Hp|e me r s d wait Hr Hw Hd Hp|e me r Hr Hp|e me r Hr Hp
    |e me r v record spec wall Hr Hp Hrel|e me r Hr Hp]; try (destruct (el_replicas _ Hok _ _ Hr) as [Hid Hrep]).
  - by apply time_ok.
  - by apply join_ok.
  - eapply put_ok; [done|done|by eapply begin_round_ok|done|by rewrite Hp].
  - eapply put_ok; [done|done| |done|by rewrite Hp]. eapply attempt_on; [done|by rewrite Hp|done| |by intros ? ? ? [=]]. cbn. intros b rec Hl.
    destruct (el_lease _ Hok _ _ Hl) as [Hpast _]. split; [done|]. rewrite Hl. eexists _, _. split; [reflexivity|]. by split.
  - apply send_ok.
    + eapply put_ok; [done|done| |cbn; lia|by rewrite Hp]. apply (attempt_on e me r s d); [done|by rewrite Hp|done|done|done].
    + eexists. cbn. rewrite lookup_insert_eq. split; [reflexivity|]. cbn. split; [lia|]. split; [by eapply (ro_started _ _ _ Hrep s d); rewrite Hp|].
      split; [by eexists|]. split; [by left|done].
  - destruct (ro_read _ _ _ Hrep v record) as (Hpast & _); [by rewrite Hp|]. eapply put_ok; [done|done| | |by rewrite Hp].
    + eapply after_attempt_ok; [by apply saw_ok|cbn; by rewrite Hp|done|done].
    + unfold after_attempt. cbn. by destruct (is_some _).
  - destruct (ro_read _ _ _ Hrep v record) as (Hpast & v' & s' & Hl & Hle & Heq); [by rewrite Hp|].
    destruct (judge_entitled _ _ _ _ _ _ _ Hok Hr Hpast Hj) as (He & Hh & Hdur). apply send_ok.
    + eapply put_ok; [done|done| |cbn; lia|by rewrite Hp]. pose proof (saw_ok _ _ _ _ Hok Hr Hpast) as Hsaw.
      eapply (attempt_on e me (saw r record (clock e))); [done|cbn; by rewrite Hp|done|done|done].
    + eexists. cbn. rewrite lookup_insert_eq. split; [reflexivity|]. cbn. split; [lia|]. split; [by eapply (ro_started _ _ _ Hrep s d); rewrite Hp|].
      split; [exists me; by rewrite Hh|]. split; [by left|]. intros b [= <-]. exists v', s'. split; [done|]. split; [done|]. intros ->.
      exact (He _ _ Hl (Heq eq_refl)).
  - pose proof (land_ok _ _ _ _ Hok Hws Hacc Hnew) as Hok'. cbv zeta.
    assert (Hw : w ∈ writes e) by (rewrite Hws; set_solver). destruct (el_writes _ Hok _ Hw) as (x & Hx & _ & _ & _ & Hk & _).
    cbn [replicas drop_write land] in *. rewrite Hx. apply answer_ok; [done|done|]. intros s d c Hph. right. exists (w_spec w). split; [done|].
    split; [by left|]. destruct Hk as [Hh|[_ Hrel]]; [|by rewrite Hph in Hrel]. eexists _, _. split; [reflexivity|]. split; [done|]. cbn.
    destruct (el_replicas _ Hok _ _ Hx) as [_ Hrep]. by eapply (ro_started _ _ _ Hrep s d); rewrite Hph.
  - pose proof (drop_ok _ _ _ _ Hok Hws) as Hok'. cbv zeta. destruct (replicas _ !! w_owner w) as [x|] eqn:Hx; [|done].
    apply answer_ok; [done|done|]. by left.
  - destruct (ro_acked _ _ _ Hrep _ _ _ Hp) as [Hh Hpast]. eapply put_ok; [done|done| |done|by rewrite Hp].
    eapply after_attempt_ok; [by apply saw_ok|cbn; by rewrite Hp|done|done].
  - eapply put_ok; [done|done| | |by rewrite Hp].
    + eapply after_attempt_ok; [done|by rewrite Hp|done|done].
    + unfold after_attempt. destruct (renewed r); [destruct (_ <=? _)|]; done.
  - assert (Ha : attempt_of (phase r) = Some (s, d)) by (by destruct Hp as [->|[c ->]]).
    eapply put_ok; [done|done| | |by destruct Hp as [->|[c ->]]].
    + by eapply after_attempt_ok.
    + unfold after_attempt. destruct (renewed r); [destruct (_ <=? _)|]; done.
  - assert (Ha : attempt_of (phase r) = Some (s, d)) by (by destruct Hp as [->|[[c ->]|[[c ->]|[c ->]]]]).
    eapply put_ok; [done|done| | |by destruct Hp as [->|[[c ->]|[[c ->]|[c ->]]]]].
    + by eapply after_attempt_ok.
    + unfold after_attempt. destruct (renewed r); [destruct (_ <=? _)|]; done.
  - eapply put_ok; [done|done| |done|by destruct (phase r)]. unfold stopped. destruct (renewed r) eqn:E; cbn [is_some].
    + by apply ended_ok.
    + apply ended_ok; try done. intros Hl. destruct (ro_lead _ _ _ Hrep Hl) as (? & ? & E' & _). congruence.
  - eapply put_ok; [done|done| |done|by rewrite Hp]. assert (Hnl : role (leader r) <> Leading) by (eapply idle_not_leading; [done|by rewrite Hp]).
    constructor; cbn; try done; [apply Hrep|]. intros b rec Hl. destruct (el_lease _ Hok _ _ Hl) as [Hpast _]. split; [done|]. rewrite Hl. by eexists _, _.
  - assert (Hnl : role (leader r) <> Leading) by (eapply idle_not_leading; [done|by rewrite Hp]).
    destruct (ro_read _ _ _ Hrep v record) as (Hpast & v' & s' & Hl & Hle & Heq); [by rewrite Hp|].
    unfold released in Hrel. case_bool_decide as Hme; [|done]. injection Hrel as <-. apply send_ok.
    + eapply put_ok; [done|done| |cbn; lia|by rewrite Hp]. by apply (ended_ok e me r).
    + eexists. cbn. rewrite lookup_insert_eq. split; [reflexivity|]. cbn. split; [lia|]. split; [lia|]. split; [by exists []|].
      split; [by right|]. intros b [= <-]. exists v', s'. split; [done|]. split; [done|]. intros ->. right. left. by rewrite <- (Heq eq_refl).
  - assert (Hd : due_of (phase r) = None) by (by destruct Hp as [->|[[l ->]|[c ->]]]).
    eapply put_ok; [done|done| |done|done]. apply ended_ok; try done. by eapply idle_not_leading.
Qed.

Lemma election_reached_ok e : election_reached slack e -> el_ok e.
Proof. induction 1 as [t|e e' _ IH Hs]; [|by eapply el_ok_step]. constructor; cbn; try done; intros ? ?%not_elem_of_nil; done. Qed.

(** C28: at most one replica leads. However replicas, the API server and the
    network interleave, also when answers are lost, writes of attempts given up
    arrive late and replicas come and go: while timers fire within a second of
    being due, two replicas that both take themselves for the leader are one.
    The leader's name is on the Lease, and the server took it in no earlier than
    the leader thinks. *)
Theorem at_most_one_leader (e : Election) (me you : Identity) (r q : Replica) (Hreached : election_reached slack e)
  (Hme : replicas e !! me = Some r) (Hyou : replicas e !! you = Some q)
  (Hleads : is_leader (leader r) = true) (Hrival : is_leader (leader q) = true) :
  me = you /\ exists t v s, renewed r = Some t /\ lease e = Some (v, s) /\ holder_identity s = Some me /\ t <= lease_at e /\ clock e < t + LEASE_DURATION.
Proof.
  pose proof (election_reached_ok e Hreached) as Hok. unfold is_leader in *. apply bool_decide_eq_true in Hleads, Hrival.
  destruct (el_replicas _ Hok _ _ Hme) as [_ Hr]. destruct (el_replicas _ Hok _ _ Hyou) as [_ Hq].
  destruct (ro_lead _ _ _ Hr Hleads) as (t & due & Et & (v & s & Hl & Hh & Hat) & Hd & Hb).
  destruct (ro_lead _ _ _ Hq Hrival) as (t' & due' & _ & (v' & s' & Hl' & Hh' & _) & _).
  split; [congruence|]. exists t, v, s. do 4 (split; [done|]). pose proof (ro_due _ _ _ Hr _ Hd).
  unfold timer_bound, LEASE_DURATION, RENEW_DEADLINE, RETRY_PERIOD in *. destruct (phase r); lia.
Qed.
End Exclusion.

(** ** At work *)

Definition alice : Identity := bs "portail-controller-0_a1".

Definition joined : Election := put (election_new 0) alice (Replica_new 0).

Definition found_absent : Replica := at_phase (Replica_new 0) (WasRead 0 RENEW_DEADLINE None).

Definition creating : Replica := at_phase (calls found_absent) (Writing 0 RENEW_DEADLINE 0).

Definition creation : Write := {| w_owner := alice; w_call := 0; w_base := None; w_spec := first_record alice 7; w_started := 0 |}.

Definition sent : Election := send (put (put joined alice found_absent) alice creating) creation.

Definition created : Replica := at_phase creating (Wrote 0 RENEW_DEADLINE (Some (first_record alice 7))).

Definition landed : Election := put (drop_write (land sent creation) []) alice created.

Definition elected : Replica := after_attempt (saw created (first_record alice 7) 0) 0 0 (Some Held) RETRY_PERIOD.

Definition won : Election := put landed alice elected.

Lemma won_reached : election_reached 0 won.
Proof.
  eapply el_more; [|apply (el_held 0 landed alice created 0 RENEW_DEADLINE (first_record alice 7) RETRY_PERIOD); [apply lookup_insert_eq|done|done]].
  eapply el_more; [|apply (el_lands 0 sent [] creation []); [done|done|apply not_elem_of_nil]].
  eapply el_more; [|apply (el_absent 0 (put joined alice found_absent) alice found_absent 0 RENEW_DEADLINE 7); [apply lookup_insert_eq|done]].
  eapply el_more; [|apply (el_reads 0 joined alice (Replica_new 0) 0 RENEW_DEADLINE); [apply lookup_insert_eq|done]].
  eapply el_more; [apply (el_start 0 0)|]. by apply el_joins.
Qed.

Lemma at_most_one_leader_witness : is_leader (leader elected) = true /\ exists v s, lease won = Some (v, s) /\ holder_identity s = Some alice.
Proof.
  split; [reflexivity|]. assert (Hl : replicas won !! alice = Some elected) by (vm_compute; reflexivity).
  destruct (at_most_one_leader 0 ltac:(lia) won alice alice elected elected won_reached Hl Hl eq_refl eq_refl) as (_ & _ & v & s & _ & H1 & H2 & _).
  exists v, s. by split.
Defined.
