(* ===== verification/Status.v ===== *)
(** * The status of Gateway API objects

    [src/src/kubernetes/status.rs]: statuses as the JSON the API server is
    sent, built without times, compared with what is observed and stamped when
    they are written; and the read-modify-write of the lists several
    controllers share. A [serde_json::Value] is the JSON it stands for, an
    object its fields in the order of their keys. Assigning a field of a value
    that is no object panics, the [None] of the stamping functions. The API
    server is what Kubernetes documents of it: a patch that names a
    resourceVersion is refused unless the object is at it, and each write
    gives the object a new one. Log lines are left out. *)

From S2P Require Import Prelude Bytes Config ConfigTable GatewayApi Snapshot Reconciled.

(** ** [serde_json::Value] *)

Inductive Value :=
  | VNull
  | VBool (b : bool)
  | VNumber (n : Z)
  | VString (s : list Z)
  | VArray (items : list Value)
  | VObject (fields : list (list Z * Value)).

Section ValueInduction.
Context (P : Value -> Prop).
Context (HNull : P VNull) (HBool : forall b, P (VBool b)) (HNumber : forall n, P (VNumber n)) (HString : forall s, P (VString s)).
Context (HArray : forall items, Forall P items -> P (VArray items)).
Context (HObject : forall fields, Forall (fun f => P f.2) fields -> P (VObject fields)).

(** Induction through the lists of arrays and objects. *)
Fixpoint value_induction (v : Value) : P v :=
  match v with
  | VNull => HNull
  | VBool b => HBool b
  | VNumber n => HNumber n
  | VString s => HString s
  | VArray items =>
      HArray items ((fix go l := match l return Forall P l with [] => Forall_nil_2 _ | x :: l => Forall_cons_2 _ _ _ (value_induction x) (go l) end) items)
  | VObject fields =>
      HObject fields ((fix go l := match l return Forall (fun f => P f.2) l with
                                   | [] => Forall_nil_2 _
                                   | x :: l => Forall_cons_2 _ _ _ (value_induction x.2) (go l)
                                   end) fields)
  end.
End ValueInduction.

(** [PartialEq] *)
Fixpoint value_eqb (a b : Value) : bool :=
  match a, b with
  | VNull, VNull => true
  | VBool x, VBool y => eqb x y
  | VNumber x, VNumber y => x =? y
  | VString x, VString y => beq x y
  | VArray l, VArray k =>
      (fix go l k := match l, k with [], [] => true | x :: l, y :: k => value_eqb x y && go l k | _, _ => false end) l k
  | VObject l, VObject k =>
      (fix go l k := match l, k with
                     | [], [] => true
                     | (n, x) :: l, (m, y) :: k => beq n m && value_eqb x y && go l k
                     | _, _ => false
                     end) l k
  | _, _ => false
  end.

Lemma value_eqb_spec a b : value_eqb a b = true <-> a = b.
Proof.
  revert b. induction a as [|x|x|x|l IH|l IH] using value_induction; intros [|y|y|y|k|k]; cbn; try done.
  - rewrite eqb_true_iff. naive_solver.
  - rewrite Z.eqb_eq. naive_solver.
  - rewrite beq_spec. naive_solver.
  - revert k. induction IH as [|x l Hx _ IH]; intros [|y k]; try done. rewrite andb_true_iff, Hx, IH. naive_solver.
  - revert k. induction IH as [|[n x] l Hx _ IH]; intros [|[m y] k]; try done. cbn in Hx. rewrite !andb_true_iff, beq_spec, Hx, IH. naive_solver.
Qed.

#[export] Instance Value_eq_dec : EqDecision Value.
Proof.
  intros a b. destruct (value_eqb a b) eqn:E; [left; by apply value_eqb_spec|right].
  intros H. apply value_eqb_spec in H. congruence.
Defined.

(** *** Objects *)

Fixpoint field_insert (key : list Z) (v : Value) (m : list (list Z * Value)) : list (list Z * Value) :=
  match m with
  | [] => [(key, v)]
  | (k, x) :: m' =>
      match bytes_compare key k with
      | Lt => (key, v) :: m
      | Eq => (key, v) :: m'
      | Gt => (k, x) :: field_insert key v m'
      end
  end.

Fixpoint field (key : list Z) (m : list (list Z * Value)) : option Value :=
  match m with
  | [] => None
  | (k, x) :: m' => if beq k key then Some x else field key m'
  end.

(** [json!({ ... })] *)
Definition object (fields : list (list Z * Value)) : Value :=
  VObject (fold_left (fun m '(k, v) => field_insert k v m) fields []).

Definition get (v : Value) (key : list Z) : option Value :=
  match v with VObject m => field key m | _ => None end.

(** [v[key]], and [v[key] = x]. *)
Definition index (v : Value) (key : list Z) : Value := default VNull (get v key).
Definition index_set (v : Value) (key : list Z) (x : Value) : option Value :=
  match v with
  | VNull => Some (VObject [(key, x)])
  | VObject m => Some (VObject (field_insert key x m))
  | _ => None
  end.

Definition as_str (v : Value) : option (list Z) := match v with VString s => Some s | _ => None end.
Definition as_array (v : Value) : option (list Value) := match v with VArray items => Some items | _ => None end.

Definition str_at (v : Value) (key : list Z) : list Z := default [] (get v key ≫= as_str).

(** ** Conditions *)

Definition group_kind (kind : list Z) : Value := object [(bs "group", VString GATEWAY_GROUP); (bs "kind", VString kind)].

Definition supported_kinds_for_protocol (protocol : list Z) : list Value :=
  if beq protocol (bs "HTTP") || beq protocol (bs "HTTPS") then [group_kind (bs "HTTPRoute")]
  else if beq protocol (bs "TLS") then [group_kind (bs "TLSRoute")]
  else if beq protocol (bs "TCP") then [group_kind (bs "TCPRoute")]
  else if beq protocol (bs "UDP") then [group_kind (bs "UDPRoute")]
  else [].

Record ListenerStatus := {
  ls_accepted : bool;
  ls_accepted_reason : list Z;
  ls_accepted_message : list Z;
  ls_programmed : bool;
  ls_programmed_reason : list Z;
  ls_programmed_message : list Z;
  ls_resolved_refs : bool;
  ls_resolved_refs_reason : list Z;
  ls_resolved_refs_message : list Z;
  ls_conflicted : bool;
  ls_conflicted_reason : list Z;
  ls_conflicted_message : list Z;
  ls_supported_kinds : list Value;
}.

Definition ListenerStatus_default : ListenerStatus := {|
  ls_accepted := false; ls_accepted_reason := bs "Pending"; ls_accepted_message := bs "Listener validation pending";
  ls_programmed := false; ls_programmed_reason := bs "Pending"; ls_programmed_message := bs "Listener programming pending";
  ls_resolved_refs := false; ls_resolved_refs_reason := bs "Pending"; ls_resolved_refs_message := bs "Reference resolution pending";
  ls_conflicted := false; ls_conflicted_reason := bs "NoConflicts"; ls_conflicted_message := bs "No conflicts detected";
  ls_supported_kinds := [];
|}.

(** What one status write did. *)
Inductive StatusWrite := WriteCurrent | WritePatched | WriteFailed.

Definition condition (cond_type : list Z) (ok : bool) (reason message : list Z) (generation : option Z) : Value :=
  let fields := [(bs "type", VString cond_type); (bs "status", VString (if ok then bs "True" else bs "False"));
                 (bs "reason", VString reason); (bs "message", VString message)] in
  object (fields ++ match generation with Some g => [(bs "observedGeneration", VNumber g)] | None => [] end).

Definition LAST_TRANSITION : list Z := bs "lastTransitionTime".

Definition field_is (c : Value) (key expected : list Z) : bool := bool_decide (get c key ≫= as_str = Some expected).

Fixpoint transition_time_json (existing : list Value) (type_ new_status new_reason now : list Z) : list Z :=
  match existing with
  | [] => now
  | c :: rest =>
      if field_is c (bs "type") type_ && field_is c (bs "status") new_status && field_is c (bs "reason") new_reason
      then match get c LAST_TRANSITION ≫= as_str with
           | Some t => t
           | None => transition_time_json rest type_ new_status new_reason now
           end
      else transition_time_json rest type_ new_status new_reason now
  end.

Definition stamp_condition (observed : list Value) (now : list Z) (c : Value) : option Value :=
  index_set c LAST_TRANSITION
    (VString (transition_time_json observed (str_at c (bs "type")) (str_at c (bs "status")) (str_at c (bs "reason")) now)).

Definition stamp_conditions (entry : Value) (observed : list Value) (now : list Z) : option Value :=
  match get entry (bs "conditions") with
  | Some (VArray conditions) =>
      conditions ← mapM (stamp_condition observed now) conditions;
      index_set entry (bs "conditions") (VArray conditions)
  | _ => Some entry
  end.

Fixpoint without_transition_times (v : Value) : Value :=
  match v with
  | VObject m =>
      VObject ((fix go m := match m with
                            | [] => []
                            | (k, x) :: m => if beq k LAST_TRANSITION then go m else (k, without_transition_times x) :: go m
                            end) m)
  | VArray items => VArray (map without_transition_times items)
  | _ => v
  end.

Record GatewayCondition := { gc_ok : bool; gc_reason : list Z; gc_message : list Z }.

Definition GatewayCondition_ok (reason message : list Z) : GatewayCondition :=
  {| gc_ok := true; gc_reason := reason; gc_message := message |}.
Definition GatewayCondition_invalid (message : list Z) : GatewayCondition :=
  {| gc_ok := false; gc_reason := bs "Invalid"; gc_message := message |}.

(** ** The status of a Gateway *)

Definition listener_entry (l : GatewayListeners) (ls : ListenerStatus) (attached_routes : Z) (generation : option Z) : Value :=
  object [(bs "name", VString (gl_name l)); (bs "attachedRoutes", VNumber attached_routes);
          (bs "supportedKinds", VArray (if is_nil (ls_supported_kinds ls) && ls_resolved_refs ls
                                        then supported_kinds_for_protocol (gl_protocol l) else ls_supported_kinds ls));
          (bs "conditions", VArray
            [condition (bs "Accepted") (ls_accepted ls) (ls_accepted_reason ls) (ls_accepted_message ls) generation;
             condition (bs "Programmed") (ls_programmed ls) (ls_programmed_reason ls) (ls_programmed_message ls) generation;
             condition (bs "ResolvedRefs") (ls_resolved_refs ls) (ls_resolved_refs_reason ls) (ls_resolved_refs_message ls) generation;
             condition (bs "Conflicted") (ls_conflicted ls) (ls_conflicted_reason ls) (ls_conflicted_message ls) generation])].

Definition address (address_type value : list Z) : Value :=
  object [(bs "type", VString address_type); (bs "value", VString value)].

(** [conditions] are Accepted and Programmed. *)
Definition desired_gateway_status (conditions : Value * Value) (listeners : list Value) (addresses : option (list Value)) : Value :=
  object ([(bs "conditions", VArray [conditions.1; conditions.2]); (bs "listeners", VArray listeners)]
          ++ match addresses with Some a => [(bs "addresses", VArray a)] | None => [] end).

(** [observed] is the status the store holds, as JSON. *)
Definition observed_gateway_status (status : option Value) : Value := default (VObject []) status.

Definition observed_condition (conditions : Value) (cond_type : list Z) : option Value :=
  items ← as_array conditions;
  without_transition_times <$> List.find (fun c => beq (str_at c (bs "type")) cond_type) items.

Definition observed_list (status : Value) (field : list Z) : option (list Value) :=
  items ← get status field ≫= as_array;
  if is_nil items then None else Some (map without_transition_times items).

(** The items of a list field, times aside. *)
Definition items_of (status : Value) (field : list Z) : list Value :=
  map without_transition_times (default [] (get status field ≫= as_array)).

Definition by_key (status : Value) (field key : list Z) : list Value :=
  sort_by (fun a b => bytes_compare (str_at a key) (str_at b key)) (items_of status field).

Definition conditions_current (observed desired : Value) : bool :=
  match get desired (bs "conditions") ≫= as_array with
  | None => true
  | Some conditions => forallb (fun c => bool_decide (c ∈ items_of observed (bs "conditions"))) conditions
  end.

Definition gateway_status_current (observed desired : Value) : bool :=
  if negb (bool_decide (by_key observed (bs "listeners") (bs "name") = by_key desired (bs "listeners") (bs "name"))) then false
  else if negb (conditions_current observed desired) then false
  else match get desired (bs "addresses") with
       | Some addresses => bool_decide (default (VArray []) (get observed (bs "addresses")) = addresses)
       | None => true
       end.

(** A listener's conditions as observed. *)
Definition prior_conditions (observed listener : Value) : list Value :=
  default []
    (items ← as_array (index observed (bs "listeners"));
     p ← List.find (fun p => bool_decide (index p (bs "name") = index listener (bs "name"))) items;
     as_array (index p (bs "conditions"))).

Definition stamp_status (desired observed : Value) (now : list Z) : option Value :=
  desired ← stamp_conditions desired (default [] (as_array (index observed (bs "conditions")))) now;
  match get desired (bs "listeners") with
  | Some (VArray listeners) =>
      listeners ← mapM (fun l => stamp_conditions l (prior_conditions observed l) now) listeners;
      index_set desired (bs "listeners") (VArray listeners)
  | _ => Some desired
  end.

(** The object a status is applied to, as it was read, with the version and
    kind of its type. *)
Record ObjectRead := { or_api_version : list Z; or_kind : list Z; or_name : list Z; or_namespace : option (list Z); or_uid : option (list Z); or_resource_version : option (list Z) }.

Definition opt_field (key : string) (v : option (list Z)) : list (list Z * Value) :=
  match v with Some v => [(bs key, VString v)] | None => [] end.

Definition apply_body (o : ObjectRead) (status : Value) : Value :=
  object [(bs "apiVersion", VString (or_api_version o)); (bs "kind", VString (or_kind o));
          (bs "metadata", object ([(bs "name", VString (or_name o))] ++ opt_field "namespace" (or_namespace o)
                                  ++ opt_field "uid" (or_uid o) ++ opt_field "resourceVersion" (or_resource_version o)));
          (bs "status", status)].

(** [send] is whether the API server takes the apply. *)
Definition write_gateway_status (send : Value -> bool) (gateway : ObjectRead) (status : option Value) (desired : Value) (now : list Z)
  : option StatusWrite :=
  let observed := observed_gateway_status status in
  if gateway_status_current observed desired then Some WriteCurrent
  else
    desired ← stamp_status desired observed now;
    Some (if send (apply_body gateway desired) then WritePatched else WriteFailed).

(** ** The status of a GatewayClass *)

(** [sort_unstable] then [dedup]. *)
Fixpoint dedup (l : list (list Z)) : list (list Z) :=
  match l with
  | x :: (y :: _) as t => if beq x y then dedup t else x :: dedup t
  | _ => l
  end.

Definition desired_class_status (supported_features : list (list Z)) (generation : option Z) (accepted : GatewayCondition) : Value :=
  object [(bs "conditions", VArray [condition (bs "Accepted") (gc_ok accepted) (gc_reason accepted) (gc_message accepted) generation]);
          (bs "supportedFeatures", VArray (map (fun name => object [(bs "name", VString name)])
                                             (dedup (sort_by bytes_compare supported_features))))].

Definition feature_names (status : Value) : list (list Z) :=
  sort_by bytes_compare (map (fun f => str_at f (bs "name")) (default [] (get status (bs "supportedFeatures") ≫= as_array))).

(** The merge patch that replaces the features. *)
Definition features_patch (features : Value) (resource_version : option (list Z)) : Value :=
  object ([(bs "status", object [(bs "supportedFeatures", features)])]
          ++ match resource_version with
             | Some rv => [(bs "metadata", object [(bs "resourceVersion", VString rv)])]
             | None => []
             end).

(** [apply] is the API server's answer to an apply, the resourceVersion of
    the object written; [merge] whether it takes a merge patch. *)
Definition write_class_status (apply : Value -> option (option (list Z))) (merge : Value -> bool) (class : ObjectRead)
    (status : option Value) (desired : Value) (now : list Z) : option StatusWrite :=
  let observed := default (VObject []) status in
  let conditions_due := negb (conditions_current observed desired) in
  let features_due := negb (bool_decide (feature_names observed = feature_names desired)) in
  if negb conditions_due && negb features_due then Some WriteCurrent
  else
    written ← (if conditions_due
               then conditions ← stamp_status (object [(bs "conditions", index desired (bs "conditions"))]) observed now;
                    Some (apply (apply_body class conditions))
               else Some (Some (or_resource_version class)));
    match written with
    | None => Some WriteFailed
    | Some resource_version =>
        if features_due && negb (merge (features_patch (index desired (bs "supportedFeatures")) resource_version))
        then Some WriteFailed else Some WritePatched
    end.

(** ** Lists several controllers share *)

Record RouteParentStatus := {
  rp_controller_name : list Z;
  rp_gateway_name : list Z;
  rp_gateway_namespace : list Z;
  rp_section_name : option (list Z);
  rp_port : option Z;
  rp_accepted : bool;
  rp_accepted_reason : list Z;
  rp_message : list Z;
  rp_refs_resolved : bool;
  rp_refs_reason : list Z;
  rp_refs_message : list Z;
  rp_programmed : bool;
  rp_generation : option Z;
}.

Definition route_parent_entry (p : RouteParentStatus) : Value :=
  let parent_ref :=
    object ([(bs "group", VString GATEWAY_GROUP); (bs "kind", VString (bs "Gateway"));
             (bs "name", VString (rp_gateway_name p)); (bs "namespace", VString (rp_gateway_namespace p))]
            ++ opt_field "sectionName" (rp_section_name p)
            ++ match rp_port p with Some port => [(bs "port", VNumber port)] | None => [] end) in
  let '(programmed_reason, programmed_message) :=
    if rp_programmed p then (bs "Programmed", bs "Route programmed into data plane") else (bs "Invalid", bs "Route not yet programmed") in
  object [(bs "controllerName", VString (rp_controller_name p)); (bs "parentRef", parent_ref);
          (bs "conditions", VArray
            [condition (bs "Accepted") (rp_accepted p) (rp_accepted_reason p) (rp_message p) (rp_generation p);
             condition (bs "ResolvedRefs") (rp_refs_resolved p) (rp_refs_reason p) (rp_refs_message p) (rp_generation p);
             condition (bs "Programmed") (rp_programmed p) programmed_reason programmed_message (rp_generation p)])].

Definition policy_ancestor_entry (controller_name gw_name gw_ns : list Z) (accepted : bool) (reason message : list Z) (generation : option Z)
  : Value :=
  object [(bs "ancestorRef", object [(bs "group", VString GATEWAY_GROUP); (bs "kind", VString (bs "Gateway"));
                                     (bs "namespace", VString gw_ns); (bs "name", VString gw_name)]);
          (bs "controllerName", VString controller_name);
          (bs "conditions", VArray [condition (bs "Accepted") accepted reason message generation])].

Record Owner := { o_controller : list Z; o_gw_name : list Z; o_gw_ns : list Z }.

#[export] Instance Owner_eq_dec : EqDecision Owner.
Proof. solve_decision. Defined.

Definition owns (o : Owner) (ref_field : list Z) (entry : Value) : bool :=
  let gateway := index entry ref_field in
  bool_decide (as_str (index entry (bs "controllerName")) = Some (o_controller o))
  && bool_decide (as_str (index gateway (bs "name")) = Some (o_gw_name o))
  && bool_decide (as_str (index gateway (bs "namespace")) = Some (o_gw_ns o)).

Definition merge_owned (existing : list Value) (is_ours : Value -> bool) (new : list Value) : list Value :=
  List.filter (fun e => negb (is_ours e)) existing ++ new.

Definition stamp_owned (desired observed : list Value) (is_ours : Value -> bool) (ref_field now : list Z) : option (list Value) :=
  mapM (fun entry =>
          let prior := default []
            (e ← List.find (fun e => bool_decide (index e ref_field = index entry ref_field)) (List.filter is_ours observed);
             as_array (index e (bs "conditions"))) in
          stamp_conditions entry prior now) desired.

Record ObservedEntries := { oe_resource_version : option (list Z); oe_entries : list Value }.

Definition owned_entries_current (observed : list Value) (is_ours : Value -> bool) (desired : list Value) : bool :=
  bool_decide (map without_transition_times (List.filter is_ours observed) = desired).

Definition entries_patch (list_field : list Z) (observed : ObservedEntries) (entries : list Value) : Value :=
  object ([(bs "status", object [(list_field, VArray entries)])]
          ++ match oe_resource_version observed with
             | Some rv => [(bs "metadata", object [(bs "resourceVersion", VString rv)])]
             | None => []
             end).

(** [send] is whether the API server takes the patch. *)
Definition patch_entries (send : Value -> bool) (list_field : list Z) (observed : ObservedEntries) (entries : list Value) : StatusWrite :=
  if send (entries_patch list_field observed entries) then WritePatched else WriteFailed.

(** The entries to write, if any. *)
Definition owned_entries (ref_field : list Z) (owner : Owner) (observed : ObservedEntries) (desired : list Value) (now : list Z)
  : option (option (list Value)) :=
  let is_ours := owns owner ref_field in
  if owned_entries_current (oe_entries observed) is_ours desired then Some None
  else
    stamped ← stamp_owned desired (oe_entries observed) is_ours ref_field now;
    Some (Some (merge_owned (oe_entries observed) is_ours stamped)).

Definition write_owned_entries (send : Value -> bool) (list_field ref_field : list Z) (owner : Owner) (observed : ObservedEntries)
    (desired : list Value) (now : list Z) : option StatusWrite :=
  entries ← owned_entries ref_field owner observed desired now;
  Some (match entries with None => WriteCurrent | Some entries => patch_entries send list_field observed entries end).

Definition remaining_entries (observed : ObservedEntries) (departed : Value -> bool) : option (list Value) :=
  if negb (existsb departed (oe_entries observed)) then None else Some (merge_owned (oe_entries observed) departed []).

Definition remove_entries (send : Value -> bool) (list_field : list Z) (observed : ObservedEntries) (departed : Value -> bool) : StatusWrite :=
  match remaining_entries observed departed with
  | None => WriteCurrent
  | Some entries => patch_entries send list_field observed entries
  end.

(** ** The list on the API server *)

(** Its version, its entries, and the versions before. *)
Record SharedList := { sl_rv : list Z; sl_entries : list Value; sl_past : list (list Z * list Value) }.

Definition versions (s : SharedList) : list (list Z * list Value) := (sl_rv s, sl_entries s) :: sl_past s.

Definition moved (rv : list Z) (entries : list Value) (s : SharedList) : SharedList :=
  {| sl_rv := rv; sl_entries := entries; sl_past := versions s |}.

(** A merge patch: refused when it names a version the object is not at. *)
Definition merge_patch (list_field rv : list Z) (patch : Value) (s : SharedList) : option SharedList :=
  entries ← as_array (index (index patch (bs "status")) list_field);
  match as_str (index (index patch (bs "metadata")) (bs "resourceVersion")) with
  | Some expected => if beq expected (sl_rv s) then Some (moved rv entries s) else None
  | None => Some (moved rv entries s)
  end.

(** Who writes: a pass that owns entries, the sweep of departed ones, or
    anybody else. *)
Inductive Writer :=
  | Pass (owner : Owner) (desired : list Value)
  | Sweep (departed : Value -> bool)
  | Other.

(** A write of ours is computed from any version the object had, and lands
    at any later time. *)
Inductive list_step (list_field ref_field : list Z) : Writer -> SharedList -> SharedList -> Prop :=
  | step_other s rv entries : rv ∉ map fst (versions s) -> list_step list_field ref_field Other s (moved rv entries s)
  | step_pass s rv owner desired now read_rv read_entries entries s' :
      rv ∉ map fst (versions s) -> (read_rv, read_entries) ∈ versions s ->
      owned_entries ref_field owner {| oe_resource_version := Some read_rv; oe_entries := read_entries |} desired now = Some (Some entries) ->
      merge_patch list_field rv (entries_patch list_field {| oe_resource_version := Some read_rv; oe_entries := read_entries |} entries) s = Some s' ->
      list_step list_field ref_field (Pass owner desired) s s'
  | step_sweep s rv departed read_rv read_entries entries s' :
      rv ∉ map fst (versions s) -> (read_rv, read_entries) ∈ versions s ->
      remaining_entries {| oe_resource_version := Some read_rv; oe_entries := read_entries |} departed = Some entries ->
      merge_patch list_field rv (entries_patch list_field {| oe_resource_version := Some read_rv; oe_entries := read_entries |} entries) s = Some s' ->
      list_step list_field ref_field (Sweep departed) s s'.

Inductive reachable_list (list_field ref_field : list Z) : SharedList -> Prop :=
  | list_created rv entries : reachable_list list_field ref_field {| sl_rv := rv; sl_entries := entries; sl_past := [] |}
  | list_moved w s s' : reachable_list list_field ref_field s -> list_step list_field ref_field w s s' -> reachable_list list_field ref_field s'.

(** ** Fields *)

Lemma compare_refl a : bytes_compare a a = Eq.
Proof. pose proof (ordering_flip (cmp := bytes_compare) a a) as H. by destruct (bytes_compare a a). Qed.

Lemma field_insert_same k v m : field k (field_insert k v m) = Some v.
Proof.
  assert (R : forall k : list Z, beq k k = true) by (intros; by apply beq_spec).
  induction m as [|[k' x] m IH]; cbn; [by rewrite R|]. destruct (bytes_compare k k') eqn:E; cbn; rewrite ?R; [done..|].
  destruct (beq k' k) eqn:B; [|done]. apply beq_spec in B as ->. by rewrite compare_refl in E.
Qed.

Lemma index_object_nil k v : index (object [(k, v)]) k = v.
Proof. unfold index, object, get; cbn. by rewrite (proj2 (beq_spec k k) eq_refl). Qed.

(** ** Patches land on what they were computed from *)

Lemma list_step_fresh lf rf w s s' : list_step lf rf w s s' ->
  exists rv entries, (rv ∉ map fst (versions s)) /\ s' = moved rv entries s.
Proof.
  intros H. destruct H as [s rv entries Hf|s rv owner desired now rrv re entries s' Hf _ _ E|s rv departed rrv re entries s' Hf _ _ E];
    [by eauto|..]; unfold merge_patch in E; apply bind_Some in E as (es & _ & E); repeat case_match; simplify_eq; eauto.
Qed.

Lemma versions_distinct lf rf s : reachable_list lf rf s -> NoDup (map fst (versions s)).
Proof.
  induction 1 as [rv entries|w s s' _ IH H]; [apply NoDup_singleton|].
  apply list_step_fresh in H as (rv & entries & Hf & ->). by constructor.
Qed.

Lemma patched_version lf rf s rv read_rv read_entries entries s' : reachable_list lf rf s -> (read_rv, read_entries) ∈ versions s ->
  merge_patch lf rv (entries_patch lf {| oe_resource_version := Some read_rv; oe_entries := read_entries |} entries) s = Some s' ->
  read_entries = sl_entries s /\ sl_entries s' = entries.
Proof.
  intros Hr Hin E. unfold merge_patch, entries_patch in E.
  replace (index (index (object _) (bs "status")) lf) with (VArray entries) in E
    by (symmetry; exact (index_object_nil lf (VArray entries))).
  replace (as_str (index (index (object _) (bs "metadata")) (bs "resourceVersion"))) with (Some read_rv) in E by done.
  cbn in E. destruct (beq read_rv (sl_rv s)) eqn:B; [|done]. apply beq_spec in B. simplify_eq. split; [|done].
  pose proof (versions_distinct lf rf s Hr) as Hn.
  assert (H : (sl_rv s, read_entries) = (sl_rv s, sl_entries s)); [|by injection H].
  by apply (NoDup_map_inj fst (versions s)); [..|left|].
Qed.

(** ** Entries the code builds *)

(** What the argument needs of a kind of entry: stamping it succeeds and
    changes nothing but times, and it names its owner. *)
Class StatusEntry {A : Type} (ref_field : list Z) (entry_of : A -> Value) (owner_of : A -> Owner) : Prop := {
  stamped_entry a prior now : exists e,
    stamp_conditions (entry_of a) prior now = Some e /\ without_transition_times e = entry_of a
    /\ (forall o, owns o ref_field e = owns o ref_field (entry_of a));
  owned_entry a o : owns o ref_field (entry_of a) = bool_decide (o = owner_of a);
}.

Lemma owns_spec c n ns o : bool_decide (Some c = Some (o_controller o)) && bool_decide (Some n = Some (o_gw_name o))
  && bool_decide (Some ns = Some (o_gw_ns o)) = bool_decide (o = {| o_controller := c; o_gw_name := n; o_gw_ns := ns |}).
Proof. destruct o as [a b d]; cbn. apply eq_bool_prop_intro. rewrite !andb_True, !bool_decide_spec. naive_solver. Qed.

Definition parent_owner (p : RouteParentStatus) : Owner :=
  {| o_controller := rp_controller_name p; o_gw_name := rp_gateway_name p; o_gw_ns := rp_gateway_namespace p |}.

#[export] Instance parent_entries : StatusEntry (bs "parentRef") route_parent_entry parent_owner.
Proof.
  split.
  - intros [c n ns sec port ? ? ? ? ? ? [] gen] prior now; destruct sec, port, gen; (eexists; split; [reflexivity|split; reflexivity]).
  - intros [c n ns sec port ? ? ? ? ? ? [] gen] o; destruct sec, port; exact (owns_spec c n ns o).
Qed.

(** The fields of a policy's entry, and its Gateway. *)
Record PolicyAncestor := { pa_owner : Owner; pa_accepted : bool; pa_reason : list Z; pa_message : list Z; pa_generation : option Z }.

Definition ancestor_entry (a : PolicyAncestor) : Value :=
  policy_ancestor_entry (o_controller (pa_owner a)) (o_gw_name (pa_owner a)) (o_gw_ns (pa_owner a)) (pa_accepted a) (pa_reason a)
    (pa_message a) (pa_generation a).

#[export] Instance ancestor_entries : StatusEntry (bs "ancestorRef") ancestor_entry pa_owner.
Proof.
  split.
  - intros [[c n ns] ? ? ? gen] prior now; destruct gen; (eexists; split; [reflexivity|split; reflexivity]).
  - intros [[c n ns] ? ? ? gen] o. exact (owns_spec c n ns o).
Qed.

(** ** Writing entries *)

Section Entries.
Context {A : Type} (ref_field : list Z) (entry_of : A -> Value) (owner_of : A -> Owner).
Context {SE : StatusEntry ref_field entry_of owner_of}.

Lemma stamp_owned_entries desired observed is_ours now : exists stamped,
  stamp_owned (map entry_of desired) observed is_ours ref_field now = Some stamped
  /\ map without_transition_times stamped = map entry_of desired
  /\ forall o, map (owns o ref_field) stamped = map (owns o ref_field) (map entry_of desired).
Proof.
  unfold stamp_owned. setoid_rewrite mapM_Some.
  induction desired as [|a desired (es & E & Es & Eo)]; [by exists []|]. rewrite map_cons.
  match type of E with Forall2 ?P _ _ => assert (H : exists e, P (entry_of a) e /\ without_transition_times e = entry_of a
    /\ forall o, owns o ref_field e = owns o ref_field (entry_of a)) by apply stamped_entry end.
  destruct H as (e & He & Ee & Oe). exists (e :: es). split; [by constructor|]. cbn. split; [by rewrite Ee, Es|].
  intros o. by rewrite Oe, Eo.
Qed.

Lemma filter_true {B} (p : B -> bool) l : Forall (fun x => p x = true) l -> List.filter p l = l.
Proof. induction 1 as [|x l Hx _ IH]; cbn; [done|]. by rewrite Hx, IH. Qed.

Lemma filter_false {B} (p : B -> bool) l : Forall (fun x => p x = false) l -> List.filter p l = [].
Proof. induction 1 as [|x l Hx _ IH]; cbn; [done|]. by rewrite Hx, IH. Qed.

Lemma filter_filter_none {B} (p : B -> bool) l : List.filter p (List.filter (fun x => negb (p x)) l) = [].
Proof. induction l as [|x l IH]; cbn; [done|]. destruct (p x) eqn:E; cbn; [done|]. by rewrite E. Qed.

Lemma filter_idem {B} (p : B -> bool) l : List.filter p (List.filter p l) = List.filter p l.
Proof. induction l as [|x l IH]; cbn; [done|]. destruct (p x) eqn:E; cbn; [by rewrite E, IH|done]. Qed.

Lemma stamped_are_owned owner desired stamped : Forall (fun a => owner_of a = owner) desired ->
  map (owns owner ref_field) stamped = map (owns owner ref_field) (map entry_of desired) ->
  Forall (fun e => owns owner ref_field e = true) stamped.
Proof.
  intros Hd. revert stamped. induction Hd as [|a desired Ha _ IH]; intros [|e es]; cbn; try done. intros [= E1 E2].
  constructor; [|by apply IH]. rewrite E1, owned_entry. by apply bool_decide_eq_true.
Qed.

(** What a write leaves, and that it is never a panic. *)
Lemma owned_entries_exact owner observed desired now : Forall (fun a => owner_of a = owner) desired ->
  exists answer, owned_entries ref_field owner observed (map entry_of desired) now = Some answer
  /\ match answer with
     | None => map without_transition_times (List.filter (owns owner ref_field) (oe_entries observed)) = map entry_of desired
     | Some entries =>
         List.filter (fun e => negb (owns owner ref_field e)) entries = List.filter (fun e => negb (owns owner ref_field e)) (oe_entries observed)
         /\ map without_transition_times (List.filter (owns owner ref_field) entries) = map entry_of desired
     end.
Proof.
  intros Hd. unfold owned_entries, owned_entries_current.
  destruct (bool_decide _) eqn:E; [exists None; split; [done|by apply bool_decide_eq_true in E]|].
  destruct (stamp_owned_entries desired (oe_entries observed) (owns owner ref_field) now) as (es & -> & Es & Eo).
  exists (Some (merge_owned (oe_entries observed) (owns owner ref_field) es)). split; [done|]. unfold merge_owned.
  pose proof (stamped_are_owned owner desired es Hd (Eo owner)) as Ho. rewrite !List.filter_app. split.
  - rewrite (filter_false (fun e => negb (owns owner ref_field e)) es), app_nil_r; [apply filter_idem|].
    apply (Forall_impl _ _ _ Ho). intros e ->. done.
  - by rewrite filter_filter_none, filter_true.
Qed.

End Entries.

(** C9: However the passes of this controller, the sweep of departed
    Gateways, other controllers and the API server interleave, and however
    stale the copy a pass computed its write from: a write that lands leaves
    every entry of others as it is, and of its owner's exactly the desired
    ones, times aside. A pass that then wants the same writes nothing. *)
Theorem status_writes_lose_nothing {A : Type} (list_field ref_field : list Z) (entry_of : A -> Value) (owner_of : A -> Owner)
    `{!StatusEntry ref_field entry_of owner_of} (s s' : SharedList) (owner : Owner) (desired : list A) :
  reachable_list list_field ref_field s -> Forall (fun a => owner_of a = owner) desired ->
  list_step list_field ref_field (Pass owner (map entry_of desired)) s s' ->
  List.filter (fun e => negb (owns owner ref_field e)) (sl_entries s') = List.filter (fun e => negb (owns owner ref_field e)) (sl_entries s)
  /\ map without_transition_times (List.filter (owns owner ref_field) (sl_entries s')) = map entry_of desired
  /\ forall observed now, List.filter (owns owner ref_field) (oe_entries observed) = List.filter (owns owner ref_field) (sl_entries s') ->
     forall send, write_owned_entries send list_field ref_field owner observed (map entry_of desired) now = Some WriteCurrent.
Proof.
  intros Hr Hd H. inversion H as [|? rv ? ? now rrv re entries ? Hf Hin E Hm|]; subst.
  destruct (patched_version _ _ _ _ _ _ _ _ Hr Hin Hm) as [-> Es'].
  destruct (owned_entries_exact ref_field entry_of owner_of owner
              {| oe_resource_version := Some rrv; oe_entries := sl_entries s |} desired now Hd) as (answer & E' & Ha).
  rewrite E in E'. injection E' as <-. rewrite Es'. destruct Ha as [Ha1 Ha2]. split; [done|]. split; [done|].
  intros observed now' Ho send. unfold write_owned_entries, owned_entries, owned_entries_current.
  by rewrite Ho, Ha2, bool_decide_true.
Qed.

(** ** A route with the entry of another controller *)

Definition our_parent : RouteParentStatus := {|
  rp_controller_name := bs "portail"; rp_gateway_name := bs "gw"; rp_gateway_namespace := bs "default"; rp_section_name := None; rp_port := Some 80;
  rp_accepted := true; rp_accepted_reason := bs "Accepted"; rp_message := []; rp_refs_resolved := true; rp_refs_reason := bs "ResolvedRefs";
  rp_refs_message := []; rp_programmed := true; rp_generation := Some 3 |}.

Definition other_parent : RouteParentStatus := {|
  rp_controller_name := bs "other"; rp_gateway_name := bs "gw"; rp_gateway_namespace := bs "default"; rp_section_name := None; rp_port := None;
  rp_accepted := true; rp_accepted_reason := bs "Accepted"; rp_message := []; rp_refs_resolved := true; rp_refs_reason := bs "ResolvedRefs";
  rp_refs_message := []; rp_programmed := true; rp_generation := Some 2 |}.

Definition before_write : SharedList := {| sl_rv := bs "7"; sl_entries := [route_parent_entry other_parent]; sl_past := [] |}.

Definition entries_written : list Value :=
  default [] (default None (owned_entries (bs "parentRef") (parent_owner our_parent)
    {| oe_resource_version := Some (sl_rv before_write); oe_entries := sl_entries before_write |} [route_parent_entry our_parent] (bs "now"))).

Lemma status_writes_lose_nothing_witness :
  length (List.filter (fun e => negb (owns (parent_owner our_parent) (bs "parentRef") e)) entries_written) = 1%nat
  /\ map without_transition_times (List.filter (owns (parent_owner our_parent) (bs "parentRef")) entries_written) = [route_parent_entry our_parent].
Proof.
  destruct (status_writes_lose_nothing (bs "parents") (bs "parentRef") route_parent_entry parent_owner before_write
              (moved (bs "8") entries_written before_write) (parent_owner our_parent) [our_parent]) as (H1 & H2 & _).
  - apply list_created.
  - by repeat constructor.
  - apply (step_pass _ _ before_write (bs "8") _ _ (bs "now") (bs "7") (sl_entries before_write) entries_written).
    + cbn. set_solver.
    + left.
    + vm_compute. reflexivity.
    + vm_compute. reflexivity.
  - split; [|exact H2]. cbn [moved sl_entries] in H1. rewrite H1. vm_compute. reflexivity.
Defined.
