(* ===== verification/Certificates.v ===== *)
(** * The certificates of a Gateway and what its listeners are told

    [src/src/kubernetes/controller/validate.rs]: the certificateRefs of a
    Gateway resolved to the pairs served, the last good pair of each Secret
    kept over a bad rotation, and the conditions of listeners and Gateway.
    Passes of several Gateways run side by side over one store of Secrets and
    one map of last good pairs: a pass reads a Secret, and in a later step
    records or keeps a pair under the map's lock. Loading a pair is
    [Rustls]'s; the text of its error is a parameter. Log lines are left
    out. *)

From S2P Require Import Prelude Bytes Routing Config ConfigTable GatewayApi Converters Reconcile TlsPlan Snapshot Reconciled Status.

Record Secret := {
  sec_uid : option (list Z);
  sec_resource_version : option (list Z);
  sec_data : option (gmap (list Z) (list Z));
}.

(** Name and namespace. *)
Abbreviation SecretKey := (list Z * list Z)%type.
Abbreviation PemPair := (list Z * list Z)%type.

Inductive CertRefError := NotPermitted (message : list Z) | InvalidRef (message : list Z).

Definition CertRefError_reason (e : CertRefError) : list Z :=
  match e with NotPermitted _ => bs "RefNotPermitted" | InvalidRef _ => bs "InvalidCertificateRef" end.
Definition CertRefError_message (e : CertRefError) : list Z := match e with NotPermitted m | InvalidRef m => m end.

Record ResolvedCerts := { rc_valid : gmap SecretKey PemPair; rc_errors : gmap SecretKey CertRefError }.

Record LastGood := { lg_uid : list Z; lg_pair : PemPair }.
Abbreviation LastGoodCerts := (gmap SecretKey LastGood).

Definition record_good (key : SecretKey) (secret : Secret) (pem : PemPair) (store : gmap SecretKey Secret) (last_good : LastGoodCerts)
  : LastGoodCerts :=
  match sec_uid secret with
  | None => last_good
  | Some uid =>
      match store !! key with
      | Some c =>
          if bool_decide (sec_uid c = sec_uid secret) && bool_decide (sec_resource_version c = sec_resource_version secret)
          then <[key := {| lg_uid := uid; lg_pair := pem |}]> last_good else last_good
      | None => last_good
      end
  end.

(** The Secrets the listeners name, in order, with their references. *)
Definition secret_refs (listeners : list GatewayListeners) (gw_ns : list Z) : list (SecretRef * SecretKey) :=
  flat_map (fun l => match gl_tls l ≫= lt_certificate_refs with
                     | Some refs => omap (fun r => (fun key => (r, key)) <$> secret_ref_key r gw_ns) refs
                     | None => []
                     end) listeners.

Definition retain_referenced_certs (gateways : list Gateway) (last_good : LastGoodCerts) : LastGoodCerts :=
  let referenced : gset SecretKey :=
    list_to_set (flat_map (fun gw => map snd (secret_refs (gw_listeners gw) (default (bs "default") (meta_namespace (gw_metadata gw))))) gateways) in
  filter (fun '(key, _) => key ∈ referenced) last_good.

Definition slashed (ns name : list Z) : list Z := ns ++ bs "/" ++ name.

Definition missing_secret (secret_ns name : list Z) : CertRefError :=
  InvalidRef (bs "Secret " ++ slashed secret_ns name ++ bs " not found or missing tls.crt/tls.key").

(** The two entries of a TLS Secret. *)
Definition secret_pair (s : Secret) : option PemPair :=
  data ← sec_data s; cert ← data !! bs "tls.crt"; key ← data !! bs "tls.key"; Some (cert, key).

Section Resolution.
Context {RL : Rustls} (pair_error : list Z -> list Z -> list Z).

Definition resolve_cert_ref (secret : option Secret) (cross_ns_allowed : bool) (secret_ns name : list Z) : result PemPair CertRefError :=
  if negb cross_ns_allowed
  then Err (NotPermitted (bs "Cross-namespace certificate ref " ++ slashed secret_ns name ++ bs " not allowed by ReferenceGrant"))
  else
    match secret with
    | None => Err (missing_secret secret_ns name)
    | Some secret =>
        match secret_pair secret with
        | None => Err (missing_secret secret_ns name)
        | Some (cert, key) =>
            if validate_cert_key_pair cert key then Ok (cert, key)
            else Err (InvalidRef (bs "Secret " ++ slashed secret_ns name ++ bs ": " ++ pair_error cert key))
        end
    end.

Definition cert_permitted (grants : list ReferenceGrant) (gw_ns : list Z) (key : SecretKey) : bool :=
  beq key.2 gw_ns || is_reference_allowed grants GATEWAY_GROUP (bs "Gateway") gw_ns [] (bs "Secret") key.2 key.1.

(** *** One pass over a Gateway's references *)

(** [cp_todo] are the references still to resolve, [cp_reading] what the
    store held for the first of them once it is read. [cp_reads] keeps what
    was read, for the statements. *)
Record CertPass := {
  cp_listeners : list GatewayListeners;
  cp_ns : list Z;
  cp_grants : list ReferenceGrant;
  cp_todo : list (SecretRef * SecretKey);
  cp_reading : option (option Secret);
  cp_resolved : ResolvedCerts;
  cp_reads : gmap SecretKey (option Secret);
}.

Definition begin_certs (listeners : list GatewayListeners) (gw_ns : list Z) (grants : list ReferenceGrant) : CertPass :=
  {| cp_listeners := listeners; cp_ns := gw_ns; cp_grants := grants; cp_todo := secret_refs listeners gw_ns; cp_reading := None;
     cp_resolved := {| rc_valid := ∅; rc_errors := ∅ |}; cp_reads := ∅ |}.

(** The same Secret named before is skipped. *)
Definition read_cert (store : gmap SecretKey Secret) (p : CertPass) : CertPass :=
  match cp_reading p, cp_todo p with
  | None, (_, key) :: rest =>
      if is_some (rc_valid (cp_resolved p) !! key) || is_some (rc_errors (cp_resolved p) !! key)
      then {| cp_listeners := cp_listeners p; cp_ns := cp_ns p; cp_grants := cp_grants p; cp_todo := rest; cp_reading := None; cp_resolved := cp_resolved p; cp_reads := cp_reads p |}
      else {| cp_listeners := cp_listeners p; cp_ns := cp_ns p; cp_grants := cp_grants p; cp_todo := cp_todo p; cp_reading := Some (store !! key);
              cp_resolved := cp_resolved p; cp_reads := cp_reads p |}
  | _, _ => p
  end.

(** What is kept of a Secret that did not validate: [uid] is of what was read. *)
Definition keep_good (key : SecretKey) (uid : option (list Z)) (e : CertRefError) (last_good : LastGoodCerts) : option PemPair * LastGoodCerts :=
  match e with
  | NotPermitted _ => (None, last_good)
  | InvalidRef _ =>
      match last_good !! key with
      | Some last => if bool_decide (uid = Some (lg_uid last)) then (Some (lg_pair last), last_good) else (None, delete key last_good)
      | None => (None, delete key last_good)
      end
  end.

Definition resolve_read (key : SecretKey) (secret : option Secret) (p : CertPass) : result PemPair CertRefError :=
  resolve_cert_ref secret (cert_permitted (cp_grants p) (cp_ns p) key) key.2 key.1.

Definition settle_cert (store : gmap SecretKey Secret) (last_good : LastGoodCerts) (p : CertPass) : CertPass * LastGoodCerts :=
  match cp_reading p, cp_todo p with
  | Some secret, (_, key) :: rest =>
      let done resolved := {| cp_listeners := cp_listeners p; cp_ns := cp_ns p; cp_grants := cp_grants p; cp_todo := rest; cp_reading := None; cp_resolved := resolved;
                              cp_reads := <[key := secret]> (cp_reads p) |} in
      let valid := rc_valid (cp_resolved p) in
      let errors := rc_errors (cp_resolved p) in
      match resolve_read key secret p with
      | Ok pem =>
          (done {| rc_valid := <[key := pem]> valid; rc_errors := errors |},
           match secret with Some s => record_good key s pem store last_good | None => last_good end)
      | Err e =>
          let '(kept, last_good) := keep_good key (secret ≫= sec_uid) e last_good in
          (done {| rc_valid := match kept with Some pem => <[key := pem]> valid | None => valid end; rc_errors := <[key := e]> errors |}, last_good)
      end
  | _, _ => (p, last_good)
  end.

(** The whole pass while nothing else moves: as many turns as references. *)
Definition cert_turn (store : gmap SecretKey Secret) (st : CertPass * LastGoodCerts) : CertPass * LastGoodCerts :=
  settle_cert store st.2 (read_cert store st.1).

Definition resolve_gateway_certs (gateway : Gateway) (gw_ns : list Z) (grants : list ReferenceGrant) (store : gmap SecretKey Secret)
    (last_good : LastGoodCerts) : ResolvedCerts * LastGoodCerts :=
  let st := Nat.iter (length (secret_refs (gw_listeners gateway) gw_ns)) (cert_turn store) (begin_certs (gw_listeners gateway) gw_ns grants, last_good) in
  (cp_resolved st.1, st.2).

End Resolution.

(** ** Conditions *)

Definition set_accepted (ok : bool) (reason message : list Z) (ls : ListenerStatus) : ListenerStatus := {|
  ls_accepted := ok; ls_accepted_reason := reason; ls_accepted_message := message;
  ls_programmed := ls_programmed ls; ls_programmed_reason := ls_programmed_reason ls; ls_programmed_message := ls_programmed_message ls;
  ls_resolved_refs := ls_resolved_refs ls; ls_resolved_refs_reason := ls_resolved_refs_reason ls; ls_resolved_refs_message := ls_resolved_refs_message ls;
  ls_conflicted := ls_conflicted ls; ls_conflicted_reason := ls_conflicted_reason ls; ls_conflicted_message := ls_conflicted_message ls;
  ls_supported_kinds := ls_supported_kinds ls |}.

Definition set_conflicted (reason message : list Z) (ls : ListenerStatus) : ListenerStatus := {|
  ls_accepted := ls_accepted ls; ls_accepted_reason := ls_accepted_reason ls; ls_accepted_message := ls_accepted_message ls;
  ls_programmed := ls_programmed ls; ls_programmed_reason := ls_programmed_reason ls; ls_programmed_message := ls_programmed_message ls;
  ls_resolved_refs := ls_resolved_refs ls; ls_resolved_refs_reason := ls_resolved_refs_reason ls; ls_resolved_refs_message := ls_resolved_refs_message ls;
  ls_conflicted := true; ls_conflicted_reason := reason; ls_conflicted_message := message;
  ls_supported_kinds := ls_supported_kinds ls |}.

Definition set_resolved_refs (ok : bool) (reason message : list Z) (ls : ListenerStatus) : ListenerStatus := {|
  ls_accepted := ls_accepted ls; ls_accepted_reason := ls_accepted_reason ls; ls_accepted_message := ls_accepted_message ls;
  ls_programmed := ls_programmed ls; ls_programmed_reason := ls_programmed_reason ls; ls_programmed_message := ls_programmed_message ls;
  ls_resolved_refs := ok; ls_resolved_refs_reason := reason; ls_resolved_refs_message := message;
  ls_conflicted := ls_conflicted ls; ls_conflicted_reason := ls_conflicted_reason ls; ls_conflicted_message := ls_conflicted_message ls;
  ls_supported_kinds := ls_supported_kinds ls |}.

Definition set_kinds (kinds : list Value) (ls : ListenerStatus) : ListenerStatus := {|
  ls_accepted := ls_accepted ls; ls_accepted_reason := ls_accepted_reason ls; ls_accepted_message := ls_accepted_message ls;
  ls_programmed := ls_programmed ls; ls_programmed_reason := ls_programmed_reason ls; ls_programmed_message := ls_programmed_message ls;
  ls_resolved_refs := ls_resolved_refs ls; ls_resolved_refs_reason := ls_resolved_refs_reason ls; ls_resolved_refs_message := ls_resolved_refs_message ls;
  ls_conflicted := ls_conflicted ls; ls_conflicted_reason := ls_conflicted_reason ls; ls_conflicted_message := ls_conflicted_message ls;
  ls_supported_kinds := kinds |}.

Definition set_programmed (ok : bool) (reason message : list Z) (ls : ListenerStatus) : ListenerStatus := {|
  ls_accepted := ls_accepted ls; ls_accepted_reason := ls_accepted_reason ls; ls_accepted_message := ls_accepted_message ls;
  ls_programmed := ok; ls_programmed_reason := reason; ls_programmed_message := message;
  ls_resolved_refs := ls_resolved_refs ls; ls_resolved_refs_reason := ls_resolved_refs_reason ls; ls_resolved_refs_message := ls_resolved_refs_message ls;
  ls_conflicted := ls_conflicted ls; ls_conflicted_reason := ls_conflicted_reason ls; ls_conflicted_message := ls_conflicted_message ls;
  ls_supported_kinds := ls_supported_kinds ls |}.

Definition supported_protocols : list (list Z) := [bs "HTTP"; bs "HTTPS"; bs "TLS"; bs "TCP"; bs "UDP"].

Definition conflict_reason (c : Conflict) : list Z :=
  match c with ProtocolConflict => bs "ProtocolConflict" | HostnameConflict => bs "HostnameConflict" end.

Definition accept_listener (conflicts : gmap (list Z) Conflict) (l : GatewayListeners) (ls : ListenerStatus) : ListenerStatus :=
  if negb (existsb (beq (gl_protocol l)) supported_protocols)
  then set_accepted false (bs "UnsupportedProtocol") (bs "Protocol '" ++ gl_protocol l ++ bs "' is not supported") ls
  else if negb (listener_is_served l)
  then set_accepted false (bs "UnsupportedProtocol")
         (bs "TLS listeners are served in Passthrough mode only; an HTTPS listener terminates") ls
  else match conflicts !! gl_name l with
       | Some reason =>
           let message := if bool_decide (reason = ProtocolConflict)
                          then bs "Listener port shared with another listener using different protocol"
                          else bs "Listener not distinct from another on its port" in
           set_conflicted (conflict_reason reason) message (set_accepted false (conflict_reason reason) message ls)
       | None => set_accepted true (bs "Accepted") (bs "Listener accepted") ls
       end.

(** A listener's status and [refs_failed]. *)
Definition refs_fail (reason message : list Z) (st : ListenerStatus * bool) : ListenerStatus * bool :=
  (set_resolved_refs (ls_resolved_refs st.1) reason message st.1, true).

Definition check_cert_ref (gw_ns : list Z) (certs : ResolvedCerts) (st : ListenerStatus * bool) (r : SecretRef) : ListenerStatus * bool :=
  match secret_ref_key r gw_ns with
  | None => refs_fail (bs "InvalidCertificateRef")
              (bs "Unsupported certificateRef group/kind: " ++ slashed (default [] (sr_group r)) (default (bs "Secret") (sr_kind r))) st
  | Some key =>
      match rc_errors certs !! key with
      | Some err => refs_fail (CertRefError_reason err) (CertRefError_message err) st
      | None => st
      end
  end.

Definition check_certs (gw_ns : list Z) (certs : ResolvedCerts) (l : GatewayListeners) (st : ListenerStatus * bool) : ListenerStatus * bool :=
  match gl_tls l with
  | Some tls => match lt_certificate_refs tls with Some refs => fold_left (check_cert_ref gw_ns certs) refs st | None => st end
  | None =>
      if beq (gl_protocol l) (bs "HTTPS") || beq (gl_protocol l) (bs "TLS")
      then refs_fail (bs "InvalidCertificateRef") (bs "HTTPS/TLS listener requires TLS configuration") st else st
  end.

Definition kind_supported (k : RouteGroupKind) : bool :=
  beq (default GATEWAY_GROUP (rgk_group k)) GATEWAY_GROUP
  && existsb (beq (rgk_kind k)) [bs "HTTPRoute"; bs "TCPRoute"; bs "TLSRoute"; bs "UDPRoute"].

Definition check_kinds (l : GatewayListeners) (st : ListenerStatus * bool) : ListenerStatus * bool :=
  match gl_allowed_routes l ≫= ar_kinds with
  | Some kinds =>
      let st := (set_kinds (map (fun k => group_kind (rgk_kind k)) (List.filter kind_supported kinds)) st.1, st.2) in
      if existsb (fun k => negb (kind_supported k)) kinds
      then refs_fail (bs "InvalidRouteKinds") (bs "One or more route kinds in allowedRoutes are not supported") st else st
  | None => (set_kinds (supported_kinds_for_protocol (gl_protocol l)) st.1, st.2)
  end.

Definition validate_listener (conflicts : gmap (list Z) Conflict) (gw_ns : list Z) (certs : ResolvedCerts) (l : GatewayListeners) : ListenerStatus :=
  let '(ls, refs_failed) := check_kinds l (check_certs gw_ns certs l (accept_listener conflicts l ListenerStatus_default, false)) in
  let ls := if refs_failed then ls else set_resolved_refs true (bs "ResolvedRefs") (bs "All references resolved") ls in
  if ls_accepted ls && ls_resolved_refs ls then set_programmed true (bs "Programmed") (bs "Programmed") ls
  else set_programmed false (bs "Invalid")
         (if negb (ls_accepted ls) then bs "Listener not programmed due to acceptance failure" else bs "Listener has unresolved references") ls.

Definition address_supported (a : AddressSpec) : bool :=
  let t := default (bs "IPAddress") (as_type a) in
  beq t (bs "IPAddress") || beq t (bs "Hostname") || beq t NETWORK_ADDRESS_TYPE.

(** [join] *)
Definition joined (sep : list Z) (items : list (list Z)) : list Z :=
  match items with [] => [] | x :: rest => fold_left (fun out y => out ++ sep ++ y) rest x end.

Definition validate_gateway (gateway : Gateway) (gw_ns : list Z) (certs : ResolvedCerts) : gmap (list Z) ListenerStatus * GatewayCondition :=
  let listeners := gw_listeners gateway in
  let conflicts := listener_conflicts listeners in
  let statuses := fold_left (fun m l => <[gl_name l := validate_listener conflicts gw_ns certs l]> m) listeners ∅ in
  let cond :=
    match List.find (fun a => negb (address_supported a)) (default [] (gw_addresses gateway)) with
    | Some a => {| gc_ok := false; gc_reason := bs "UnsupportedAddress";
                   gc_message := bs "Unsupported address type '" ++ default (bs "IPAddress") (as_type a) ++ bs "' in spec.addresses" |}
    | None => GatewayCondition_ok (bs "Accepted") (bs "Gateway accepted by portail controller")
    end in
  let cond :=
    if gc_ok cond && negb (bool_decide (statuses = ∅)) && forallb (fun e => negb (ls_accepted e.2)) (map_to_list statuses)
    then {| gc_ok := false; gc_reason := bs "ListenersNotValid"; gc_message := bs "All listeners are rejected due to conflicts or errors" |}
    else if gc_ok cond then
      let rejected :=
        omap (fun l => match statuses !! gl_name l with
                       | Some ls => if ls_accepted ls then None else Some (gl_name l ++ bs " (" ++ ls_accepted_reason ls ++ bs ")")
                       | None => None
                       end) listeners in
      if is_nil rejected then cond
      else GatewayCondition_ok (bs "ListenersNotValid")
             (bs "Listeners not accepted: " ++ joined (bs ", ") (sort_by bytes_compare rejected) ++ bs "; the others are")
    else cond in
  (statuses, cond).

(** ** Passes side by side *)

Section Passes.
Context {RL : Rustls} (pair_error : list Z -> list Z -> list Z).

(** The store of Secrets with all it ever held, the last good pairs, and the
    passes under way. *)
Record CertWorld := {
  cw_store : gmap SecretKey Secret;
  cw_held : list (SecretKey * Secret);
  cw_good : LastGoodCerts;
  cw_passes : gmap nat CertPass;
}.

(** The store takes up a change of a Secret: one uid and resourceVersion is
    one object. *)
Definition store_put (key : SecretKey) (s : Secret) (w : CertWorld) : CertWorld :=
  {| cw_store := <[key := s]> (cw_store w); cw_held := (key, s) :: cw_held w; cw_good := cw_good w; cw_passes := cw_passes w |}.
Definition store_drop (key : SecretKey) (w : CertWorld) : CertWorld :=
  {| cw_store := delete key (cw_store w); cw_held := cw_held w; cw_good := cw_good w; cw_passes := cw_passes w |}.
Definition with_pass (id : nat) (p : CertPass) (good : LastGoodCerts) (w : CertWorld) : CertWorld :=
  {| cw_store := cw_store w; cw_held := cw_held w; cw_good := good; cw_passes := <[id := p]> (cw_passes w) |}.

Inductive cert_step : CertWorld -> CertWorld -> Prop :=
  | cert_put key s w :
      (forall s', (key, s') ∈ cw_held w -> sec_uid s' = sec_uid s -> sec_resource_version s' = sec_resource_version s -> s' = s) ->
      cert_step w (store_put key s w)
  | cert_drop key w : cert_step w (store_drop key w)
  | cert_begin id listeners gw_ns grants w : cert_step w (with_pass id (begin_certs listeners gw_ns grants) (cw_good w) w)
  | cert_read id p w : cw_passes w !! id = Some p -> cert_step w (with_pass id (read_cert (cw_store w) p) (cw_good w) w)
  | cert_settle id p w : cw_passes w !! id = Some p ->
      cert_step w (with_pass id (settle_cert pair_error (cw_store w) (cw_good w) p).1 (settle_cert pair_error (cw_store w) (cw_good w) p).2 w)
  | cert_retain gateways w :
      cert_step w {| cw_store := cw_store w; cw_held := cw_held w; cw_good := retain_referenced_certs gateways (cw_good w); cw_passes := cw_passes w |}.

Inductive cert_reachable : CertWorld -> Prop :=
  | certs_start : cert_reachable {| cw_store := ∅; cw_held := []; cw_good := ∅; cw_passes := ∅ |}
  | certs_move w w' : cert_reachable w -> cert_step w w' -> cert_reachable w'.

(** A pair that loads, out of an object the store held under [key]. *)
Definition vouched (held : list (SecretKey * Secret)) (key : SecretKey) (pem : PemPair) (s : Secret) : Prop :=
  (key, s) ∈ held /\ secret_pair s = Some pem /\ validate_cert_key_pair pem.1 pem.2 = true.

Definition good_vouched (w : CertWorld) : Prop :=
  forall key lg, cw_good w !! key = Some lg -> exists s, vouched (cw_held w) key (lg_pair lg) s /\ sec_uid s = Some (lg_uid lg).

(** A Secret is read once, and as the store held it. *)
Definition read_held (held : list (SecretKey * Secret)) (p : CertPass) : Prop :=
  forall secret r key rest, cp_reading p = Some secret -> cp_todo p = (r, key) :: rest ->
    rc_valid (cp_resolved p) !! key = None /\ rc_errors (cp_resolved p) !! key = None
    /\ forall s, secret = Some s -> (key, s) ∈ held.

(** What a pass has resolved of [key]. *)
Definition resolved_ok (held : list (SecretKey * Secret)) (p : CertPass) (key : SecretKey) : Prop :=
  match cp_reads p !! key with
  | None => rc_valid (cp_resolved p) !! key = None /\ rc_errors (cp_resolved p) !! key = None
  | Some read =>
      match resolve_read pair_error key read p with
      | Ok pem => rc_valid (cp_resolved p) !! key = Some pem /\ rc_errors (cp_resolved p) !! key = None /\
                  exists s, read = Some s /\ vouched held key pem s /\ cert_permitted (cp_grants p) (cp_ns p) key = true
      | Err e => rc_errors (cp_resolved p) !! key = Some e /\
                 forall pem, rc_valid (cp_resolved p) !! key = Some pem ->
                   cert_permitted (cp_grants p) (cp_ns p) key = true /\ exists s t, read = Some s /\ vouched held key pem t /\ sec_uid t = sec_uid s
      end
  end.

(** Every reference is resolved or still to be. *)
Definition covered (p : CertPass) : Prop :=
  forall r key, (r, key) ∈ secret_refs (cp_listeners p) (cp_ns p) -> (r, key) ∈ cp_todo p \/ is_Some (cp_reads p !! key).

Definition cert_inv (w : CertWorld) : Prop :=
  (forall key s, cw_store w !! key = Some s -> (key, s) ∈ cw_held w)
  /\ (forall key s t, (key, s) ∈ cw_held w -> (key, t) ∈ cw_held w -> sec_uid s = sec_uid t -> sec_resource_version s = sec_resource_version t -> s = t)
  /\ good_vouched w
  /\ (forall id p, cw_passes w !! id = Some p -> read_held (cw_held w) p /\ (forall key, resolved_ok (cw_held w) p key) /\ covered p).

(** *** What one step keeps *)

Lemma vouched_mono held held' key pem s : held ⊆ held' -> vouched held key pem s -> vouched held' key pem s.
Proof. intros H (Hi & Hp & Hv). split; [by apply H|done]. Qed.

Lemma resolved_ok_mono held held' p key : held ⊆ held' -> resolved_ok held p key -> resolved_ok held' p key.
Proof.
  intros H. unfold resolved_ok. destruct (cp_reads p !! key); [|done]. destruct (resolve_read _ _ _ _).
  - intros (? & ? & s & ? & Hv & ?). split_and!; [done..|]. exists s. split_and!; [done| |done]. by eapply vouched_mono.
  - intros (? & Hk). split; [done|]. intros pem Hp. destruct (Hk pem Hp) as (? & s & t & ? & Hv & ?). split; [done|].
    exists s, t. split_and!; [done| |done]. by eapply vouched_mono.
Qed.

Lemma read_held_mono held held' p : held ⊆ held' -> read_held held p -> read_held held' p.
Proof. intros H Hr secret r key rest H1 H2. destruct (Hr _ _ _ _ H1 H2) as (? & ? & Hs). split_and!; [done..|]. intros s Es. by apply H, Hs. Qed.

Lemma resolve_read_ok key secret p pem : resolve_read pair_error key secret p = Ok pem ->
  exists s, secret = Some s /\ secret_pair s = Some pem /\ validate_cert_key_pair pem.1 pem.2 = true
            /\ cert_permitted (cp_grants p) (cp_ns p) key = true.
Proof.
  unfold resolve_read, resolve_cert_ref. destruct (cert_permitted _ _ _); cbn; [|done]. destruct secret as [s|]; [|done].
  destruct (secret_pair s) as [[c k]|] eqn:E; [|done]. destruct (validate_cert_key_pair c k) eqn:V; [|done]. intros [= <-]. by exists s.
Qed.

(** A pair recorded is the one of the object the store holds. *)
Lemma record_good_current held key s pem store good key' lg :
  (forall s t, (key, s) ∈ held -> (key, t) ∈ held -> sec_uid s = sec_uid t -> sec_resource_version s = sec_resource_version t -> s = t) ->
  (forall s, store !! key = Some s -> (key, s) ∈ held) -> vouched held key pem s ->
  record_good key s pem store good !! key' = Some lg ->
  good !! key' = Some lg \/ (key' = key /\ store !! key = Some s /\ lg_pair lg = pem /\ sec_uid s = Some (lg_uid lg)).
Proof.
  intros Hone Hstore (Hi & _). unfold record_good. destruct (sec_uid s) as [uid|] eqn:Hu; [|by left].
  destruct (store !! key) as [c|] eqn:Hc; [|by left].
  destruct (bool_decide (sec_uid c = _)) eqn:B1; [|by left]. destruct (bool_decide (sec_resource_version c = _)) eqn:B2; [|by left]. cbn.
  bool_simpl. rewrite lookup_insert_Some. intros [[<- <-]|[_ ?]]; [right|by left].
  rewrite (Hone c s (Hstore c eq_refl) Hi) by congruence. by cbn.
Qed.

Lemma keep_good_kept key uid e good : forall kept good', keep_good key uid e good = (kept, good') ->
  good' ⊆ good /\ forall pem, kept = Some pem -> exists lg, good !! key = Some lg /\ lg_pair lg = pem /\ uid = Some (lg_uid lg) /\ good' = good
    /\ exists m, e = InvalidRef m.
Proof.
  intros kept good'. unfold keep_good. destruct e as [m|m]; [by intros [= <- <-]|].
  destruct (good !! key) as [lg|] eqn:E; [destruct (bool_decide _) eqn:B|]; intros [= <- <-].
  - split; [done|]. intros pem [= <-]. bool_simpl. by exists lg; split_and!; eauto.
  - split; [apply delete_subseteq|done].
  - split; [apply delete_subseteq|done].
Qed.

Lemma begin_ok held listeners gw_ns grants :
  read_held held (begin_certs listeners gw_ns grants) /\ forall key, resolved_ok held (begin_certs listeners gw_ns grants) key.
Proof. split; [by intros ?|]. intros key. unfold resolved_ok. cbn. by rewrite lookup_empty. Qed.

Lemma read_ok held store p : (forall key s, store !! key = Some s -> (key, s) ∈ held) ->
  read_held held p -> (forall key, resolved_ok held p key) ->
  read_held held (read_cert store p) /\ forall key, resolved_ok held (read_cert store p) key.
Proof.
  intros Hstore Hr Ho. unfold read_cert. destruct (cp_reading p) as [x|] eqn:Er; [done|]. destruct (cp_todo p) as [|[r key] rest] eqn:Et; [done|].
  destruct (rc_valid (cp_resolved p) !! key) eqn:Ev; [by split; [intros ?|]|]. destruct (rc_errors (cp_resolved p) !! key) eqn:Ee; [by split; [intros ?|]|].
  split; [|done]. intros secret r' key' rest' [= <-] [= <- <- <-]. split_and!; [done..|]. intros s. apply Hstore.
Qed.

(** Resolving one key leaves what was resolved of the others. *)
Lemma settled_others held p key valid errors secret rest key' : key' <> key -> resolved_ok held p key' ->
  (forall k, k <> key -> valid !! k = rc_valid (cp_resolved p) !! k) -> (forall k, k <> key -> errors !! k = rc_errors (cp_resolved p) !! k) ->
  resolved_ok held {| cp_listeners := cp_listeners p; cp_ns := cp_ns p; cp_grants := cp_grants p; cp_todo := rest; cp_reading := None;
                      cp_resolved := {| rc_valid := valid; rc_errors := errors |}; cp_reads := <[key := secret]> (cp_reads p) |} key'.
Proof.
  intros Hne H Hv He. unfold resolved_ok in *. cbn in *. rewrite lookup_insert_ne by done. rewrite Hv, He by done. exact H.
Qed.

Lemma settle_ok held store good p :
  (forall key s t, (key, s) ∈ held -> (key, t) ∈ held -> sec_uid s = sec_uid t -> sec_resource_version s = sec_resource_version t -> s = t) ->
  (forall key s, store !! key = Some s -> (key, s) ∈ held) ->
  (forall key lg, good !! key = Some lg -> exists s, vouched held key (lg_pair lg) s /\ sec_uid s = Some (lg_uid lg)) ->
  read_held held p -> (forall key, resolved_ok held p key) ->
  read_held held (settle_cert pair_error store good p).1 /\ (forall key, resolved_ok held (settle_cert pair_error store good p).1 key)
  /\ forall key lg, (settle_cert pair_error store good p).2 !! key = Some lg ->
       good !! key = Some lg \/ exists s, store !! key = Some s /\ vouched held key (lg_pair lg) s /\ sec_uid s = Some (lg_uid lg).
Proof.
  intros Hone Hstore Hgood Hr Ho. unfold settle_cert. destruct (cp_reading p) as [secret|] eqn:Er; [|by split_and!; eauto].
  destruct (cp_todo p) as [|[r key] rest] eqn:Et; [by split_and!; eauto|]. destruct (Hr _ _ _ _ Er Et) as (Ev & Ee & Hs).
  destruct (resolve_read pair_error key secret p) as [pem|e] eqn:E.
  - destruct (resolve_read_ok _ _ _ _ E) as (s & -> & Hp & Hv & Hg).
    assert (Hvo : vouched held key pem s) by (split_and!; [by apply Hs|done..]). split_and!; [by intros ?| |].
    + intros key'. destruct (decide (key' = key)) as [->|Hne].
      * unfold resolved_ok. cbn. rewrite !lookup_insert_eq. unfold resolve_read in *. cbn. rewrite E. split_and!; [done..|]. by exists s.
      * apply (settled_others held p); [done|apply Ho|intros; by rewrite lookup_insert_ne|done].
    + intros key' lg H. destruct (record_good_current held key s pem store good key' lg) as [|(-> & ? & <- & ?)]; eauto 10.
  - destruct (keep_good key (secret ≫= sec_uid) e good) as [kept good'] eqn:K. destruct (keep_good_kept _ _ _ _ _ _ K) as [Hsub Hk].
    cbn. split_and!; [by intros ?| |intros key' lg H; left; by eapply lookup_weaken]. intros key'.
    destruct (decide (key' = key)) as [->|Hne].
    + unfold resolved_ok. cbn. rewrite !lookup_insert_eq. unfold resolve_read in *. cbn. rewrite E. split; [done|]. intros pem.
      destruct kept as [pem'|]; [rewrite lookup_insert_eq|by rewrite Ev]. intros [= ->].
      destruct (Hk pem eq_refl) as (lg & Hlg & <- & Hu & _ & m & ->). destruct secret as [s|]; [|done]. cbn in Hu.
      destruct (Hgood _ _ Hlg) as (t & Ht & Htu).
      split; [|exists s, t; split_and!; [reflexivity|exact Ht|congruence]].
      unfold resolve_cert_ref in E. by destruct (cert_permitted (cp_grants p) (cp_ns p) key).
    + apply (settled_others held p); [done|apply Ho|intros; destruct kept; [by rewrite lookup_insert_ne|done]|intros; by rewrite lookup_insert_ne].
Qed.

Lemma resolved_was_read held p key : resolved_ok held p key ->
  is_some (rc_valid (cp_resolved p) !! key) || is_some (rc_errors (cp_resolved p) !! key) = true -> is_Some (cp_reads p !! key).
Proof. unfold resolved_ok. destruct (cp_reads p !! key); [by eexists|]. by intros [-> ->]. Qed.

Lemma read_covered held store p : (forall key, resolved_ok held p key) -> covered p -> covered (read_cert store p).
Proof.
  intros Ho Hc. unfold read_cert. destruct (cp_reading p); [done|]. destruct (cp_todo p) as [|[r key] rest] eqn:Et; [done|].
  destruct (_ || _) eqn:E; [|intros r' key' H; cbn; rewrite <- Et; by apply Hc]. intros r' key' H. cbn in *.
  destruct (Hc _ _ H) as [Hin|]; [|by right]. rewrite Et in Hin. apply elem_of_cons in Hin as [[= -> ->]|]; [|by left].
  right. by apply (resolved_was_read held).
Qed.

Lemma settle_covered store good p : covered p -> covered (settle_cert pair_error store good p).1.
Proof.
  intros Hc. unfold settle_cert. destruct (cp_reading p) as [secret|]; [|done]. destruct (cp_todo p) as [|[r key] rest] eqn:Et; [done|].
  assert (H : forall resolved, covered {| cp_listeners := cp_listeners p; cp_ns := cp_ns p; cp_grants := cp_grants p; cp_todo := rest;
    cp_reading := None; cp_resolved := resolved; cp_reads := <[key := secret]> (cp_reads p) |}).
  { intros resolved r' key' H. cbn in *. destruct (decide (key' = key)) as [->|Hne]; [right; by rewrite lookup_insert_eq|].
    rewrite lookup_insert_ne by done. destruct (Hc _ _ H) as [Hin|]; [|by right]. rewrite Et in Hin.
    apply elem_of_cons in Hin as [[= -> ->]|]; [done|by left]. }
  destruct (resolve_read _ _ _ _); [apply H|]. destruct (keep_good _ _ _ _). apply H.
Qed.

Lemma cert_inv_reachable w : cert_reachable w -> cert_inv w.
Proof.
  induction 1 as [|w w' _ (Hs & Hone & Hg & Hp) H]; [split_and!; try (by intros ? ?); set_solver|].
  destruct H as [key s w Hnew|key w|id listeners gw_ns grants w|id p w Hid|id p w Hid|gateways w]; cbn in *.
  - assert (Hsub : cw_held w ⊆ (key, s) :: cw_held w) by set_solver. split_and!; cbn.
    + intros key' s'. rewrite lookup_insert_Some. intros [[<- <-]|[_ H]]; [left|right; by apply Hs].
    + intros key' a b. rewrite !elem_of_cons. intros [[= -> ->]|Ha] [Hb|Hb] Hu Hv; [by injection Hb| |injection Hb as -> ->|by eapply Hone].
      * symmetry. by apply Hnew.
      * by apply Hnew.
    + intros key' lg H. destruct (Hg _ _ H) as (t & Ht & ?). exists t. split; [by eapply vouched_mono|done].
    + intros id p H. destruct (Hp _ _ H) as (H1 & H2 & H3). split_and!; [by eapply read_held_mono| |done]. intros k. by eapply resolved_ok_mono.
  - split_and!; cbn; [|done..]. intros key' s [_ H]%lookup_delete_Some. by apply Hs.
  - split_and!; cbn; [done..|]. intros id' p. rewrite lookup_insert_Some. intros [[_ <-]|[_ H]]; [|by eapply Hp].
    split_and!; [apply begin_ok..|]. intros r key. by left.
  - destruct (Hp _ _ Hid) as (H1 & H2 & H2'). split_and!; cbn; [done..|]. intros id' p'. rewrite lookup_insert_Some.
    intros [[_ <-]|[_ H]]; [|by eapply Hp].
    destruct (read_ok (cw_held w) (cw_store w) p Hs H1 H2) as [H3 H4]. split_and!; [done..|]. by eapply read_covered.
  - destruct (Hp _ _ Hid) as (H1 & H2 & H2'). destruct (settle_ok (cw_held w) (cw_store w) (cw_good w) p Hone Hs Hg H1 H2) as (H3 & H4 & H5).
    split_and!; cbn; [done|done| |].
    + intros key lg H. destruct (H5 _ _ H) as [|(s & _ & ? & ?)]; [by apply Hg|by exists s].
    + intros id' p'. rewrite lookup_insert_Some. intros [[_ <-]|[_ H]]; [|by eapply Hp].
      split_and!; [done..|]. by apply settle_covered.
  - split_and!; cbn; [done|done| |done]. intros key lg H. apply Hg. unfold retain_referenced_certs in H.
    by apply map_lookup_filter_Some in H as [H _].
Qed.

End Passes.

(** ** What the conditions say *)

Definition cert_ref_bad (gw_ns : list Z) (certs : ResolvedCerts) (r : SecretRef) : bool :=
  match secret_ref_key r gw_ns with None => true | Some key => is_some (rc_errors certs !! key) end.

(** The listener's certificateRefs, and its route kinds, in order. *)
Definition certs_fine (gw_ns : list Z) (certs : ResolvedCerts) (l : GatewayListeners) : bool :=
  match gl_tls l with
  | Some tls => forallb (fun r => negb (cert_ref_bad gw_ns certs r)) (default [] (lt_certificate_refs tls))
  | None => negb (beq (gl_protocol l) (bs "HTTPS") || beq (gl_protocol l) (bs "TLS"))
  end.
Definition kinds_fine (l : GatewayListeners) : bool := forallb kind_supported (default [] (gl_allowed_routes l ≫= ar_kinds)).

(** Checks of references leave acceptance and ResolvedRefs as they are. *)
Definition same_flags (a b : ListenerStatus) : Prop := ls_accepted a = ls_accepted b /\ ls_resolved_refs a = ls_resolved_refs b.

Lemma check_cert_refs_spec gw_ns certs refs st :
  same_flags (fold_left (check_cert_ref gw_ns certs) refs st).1 st.1
  /\ (fold_left (check_cert_ref gw_ns certs) refs st).2 = st.2 || existsb (cert_ref_bad gw_ns certs) refs.
Proof.
  revert st. induction refs as [|r refs IH]; intros st; cbn; [by rewrite orb_false_r|].
  destruct (IH (check_cert_ref gw_ns certs st r)) as [[H1 H2] ->]. unfold same_flags. rewrite H1, H2. clear. unfold check_cert_ref, cert_ref_bad.
  destruct (secret_ref_key r gw_ns) as [key|]; [destruct (rc_errors certs !! key)|]; cbn; rewrite ?orb_true_r; done.
Qed.

Lemma check_certs_spec gw_ns certs l ls :
  same_flags (check_certs gw_ns certs l (ls, false)).1 ls /\ (check_certs gw_ns certs l (ls, false)).2 = negb (certs_fine gw_ns certs l).
Proof.
  unfold check_certs, certs_fine. destruct (gl_tls l) as [tls|].
  - destruct (lt_certificate_refs tls) as [refs|]; [|done]. cbn. destruct (check_cert_refs_spec gw_ns certs refs (ls, false)) as [H ->].
    split; [done|]. cbn. induction refs as [|r refs IH]; cbn; [done|]. rewrite IH by apply check_cert_refs_spec. by destruct (cert_ref_bad gw_ns certs r).
  - by destruct (_ || _).
Qed.

Lemma check_kinds_spec l st : same_flags (check_kinds l st).1 st.1 /\ (check_kinds l st).2 = st.2 || negb (kinds_fine l).
Proof.
  unfold check_kinds, kinds_fine. destruct (gl_allowed_routes l ≫= ar_kinds) as [kinds|]; cbn; [|by rewrite orb_false_r].
  assert (E : existsb (fun k => negb (kind_supported k)) kinds = negb (forallb kind_supported kinds)).
  { induction kinds as [|k kinds IH]; cbn; [done|]. rewrite IH. by destruct (kind_supported k). }
  rewrite E. destruct (forallb kind_supported kinds); cbn; by rewrite ?orb_false_r, ?orb_true_r.
Qed.

Definition listener_accepted (conflicts : gmap (list Z) Conflict) (l : GatewayListeners) : bool :=
  listener_is_served l && negb (is_some (conflicts !! gl_name l)).

Lemma served_is_supported l : listener_is_served l = true -> existsb (beq (gl_protocol l)) supported_protocols = true.
Proof.
  unfold listener_is_served, supported_protocols. cbn [existsb]. destruct (beq (gl_protocol l) (bs "HTTP")), (beq (gl_protocol l) (bs "HTTPS")),
    (beq (gl_protocol l) (bs "TCP")), (beq (gl_protocol l) (bs "UDP")),
    (beq (gl_protocol l) (bs "TLS")); done.
Qed.

Lemma accept_listener_spec conflicts l ls : ls_accepted (accept_listener conflicts l ls) = listener_accepted conflicts l
  /\ ls_resolved_refs (accept_listener conflicts l ls) = ls_resolved_refs ls.
Proof.
  unfold accept_listener, listener_accepted. pose proof (served_is_supported l) as H.
  destruct (existsb _ _); cbn; [|destruct (listener_is_served l); [by discriminate H|done]].
  destruct (listener_is_served l); cbn; [|done]. by destruct (conflicts !! gl_name l).
Qed.

Lemma validate_listener_spec conflicts gw_ns certs l :
  let ls := validate_listener conflicts gw_ns certs l in
  ls_accepted ls = listener_accepted conflicts l
  /\ ls_resolved_refs ls = certs_fine gw_ns certs l && kinds_fine l
  /\ ls_programmed ls = ls_accepted ls && ls_resolved_refs ls.
Proof.
  cbn. unfold validate_listener. set (ls0 := accept_listener conflicts l ListenerStatus_default).
  destruct (check_certs_spec gw_ns certs l ls0) as [[Ha Hr] Hf].
  destruct (check_kinds_spec l (check_certs gw_ns certs l (ls0, false))) as [[Ha' Hr'] Hf'].
  destruct (check_kinds l _) as [ls failed] eqn:E. cbn in *. rewrite Ha in Ha'. rewrite Hr in Hr'. rewrite Hf in Hf'.
  destruct (accept_listener_spec conflicts l ListenerStatus_default) as [Ea Er]. fold ls0 in Ea, Er. cbn in Er. rewrite Ea in Ha'. rewrite Er in Hr'.
  rewrite <- negb_andb in Hf'. replace (certs_fine gw_ns certs l && kinds_fine l) with (negb failed) by (rewrite Hf'; apply negb_involutive).
  destruct failed; cbn.
  - rewrite Hr', andb_false_r. cbn. by rewrite Ha', Hr', andb_false_r.
  - rewrite Ha'. destruct (listener_accepted conflicts l); cbn; by rewrite Ha'.
Qed.

Lemma statuses_lookup {A} (f : GatewayListeners -> A) ls l : NoDup (map gl_name ls) -> l ∈ ls ->
  fold_left (fun m l => <[gl_name l := f l]> m) ls (∅ : gmap (list Z) A) !! gl_name l = Some (f l).
Proof.
  intros Hn Hl. assert (H : forall (m : gmap (list Z) A), fold_left (fun m l => <[gl_name l := f l]> m) ls m !! gl_name l = Some (f l)); [|apply H].
  induction ls as [|x ls IH]; intros m; [by apply not_elem_of_nil in Hl|]. cbn in *. apply NoDup_cons in Hn as [Hx Hn].
  apply elem_of_cons in Hl as [<-|Hl]; [|by apply IH].
  assert (H : forall (m : gmap (list Z) A), m !! gl_name l = Some (f l) -> fold_left (fun m l => <[gl_name l := f l]> m) ls m !! gl_name l = Some (f l));
    [|apply H; by rewrite lookup_insert_eq]. clear -Hx.
  induction ls as [|y ls IH]; intros m Hm; [done|]. cbn in *. apply not_elem_of_cons in Hx as [Hy Hx]. apply IH; [done|]. by rewrite lookup_insert_ne.
Qed.

Lemma statuses_from {A} (f : GatewayListeners -> A) ls n x : fold_left (fun m l => <[gl_name l := f l]> m) ls (∅ : gmap (list Z) A) !! n = Some x ->
  exists l, l ∈ ls /\ gl_name l = n /\ x = f l.
Proof.
  assert (H : forall (m : gmap (list Z) A), fold_left (fun m l => <[gl_name l := f l]> m) ls m !! n = Some x -> m !! n = Some x \/
    exists l, l ∈ ls /\ gl_name l = n /\ x = f l); [|intros E; destruct (H _ E) as [E'|]; [by rewrite lookup_empty in E'|done]].
  induction ls as [|y ls IH]; intros m; [by left|]. cbn. intros E. destruct (IH _ E) as [E'|(l & Hl & ?)]; [|right; exists l; by split; [right|]].
  rewrite lookup_insert_Some in E'. destruct E' as [[? <-]|[_ ?]]; [|by left]. right. exists y. by split; [left|].
Qed.

Section Statements.
Context {RL : Rustls} (pair_error : list Z -> list Z -> list Z).

(** C12: Whatever passes of other Gateways, rotations, deletions and
    recreations of Secrets run beside it: a pair a pass serves for a
    certificateRef is one the Gateway may use, its Secret being in the
    Gateway's namespace or granted to it; the pair loads; and it is the pair
    of an object the store held under that name, of the same uid as the one
    the pass read there, and that very one unless the pass reports an error
    for it. *)
Theorem served_certificates_are_vouched (w : CertWorld) (id : nat) (p : CertPass) (key : SecretKey) (pem : PemPair) :
  cert_reachable pair_error w -> cw_passes w !! id = Some p -> rc_valid (cp_resolved p) !! key = Some pem ->
  cert_permitted (cp_grants p) (cp_ns p) key = true /\ validate_cert_key_pair pem.1 pem.2 = true
  /\ exists read s, cp_reads p !! key = Some (Some read) /\ (key, s) ∈ cw_held w /\ secret_pair s = Some pem /\ sec_uid s = sec_uid read
     /\ (rc_errors (cp_resolved p) !! key = None -> s = read).
Proof.
  intros Hw Hp Hv. apply cert_inv_reachable in Hw as (_ & _ & _ & Hps). destruct (Hps _ _ Hp) as (_ & Ho & _). specialize (Ho key).
  unfold resolved_ok in Ho. destruct (cp_reads p !! key) as [read|]; [|destruct Ho; congruence].
  destruct (resolve_read _ _ _ _) as [pem'|e].
  - destruct Ho as (Hv' & _ & s & -> & (? & ? & ?) & ?). rewrite Hv in Hv'. injection Hv' as <-. split_and!; [done..|]. by exists s, s.
  - destruct Ho as (He & Hk). destruct (Hk _ Hv) as (? & s & t & -> & (? & ? & ?) & ?). split_and!; [done..|].
    exists s, t. split_and!; [done..|]. by rewrite He.
Qed.

(** A pair that becomes the last good one is the store's current one: a pass
    that read an older version overwrites nothing. *)
Lemma last_good_is_current w w' key lg : cert_reachable pair_error w -> cert_step pair_error w w' -> cw_good w' !! key = Some lg ->
  cw_good w !! key = Some lg \/ exists s, cw_store w !! key = Some s /\ secret_pair s = Some (lg_pair lg) /\ sec_uid s = Some (lg_uid lg).
Proof.
  intros Hw H E. apply cert_inv_reachable in Hw as (Hs & Hone & Hg & Hps). destruct H as [| | | |id p w Hid|gateways w]; cbn in E; try (by left).
  - destruct (Hps _ _ Hid) as (H1 & H2 & _). destruct (settle_ok pair_error _ _ _ _ Hone Hs Hg H1 H2) as (_ & _ & H).
    destruct (H _ _ E) as [|(s & ? & (_ & ? & _) & ?)]; [by left|right; by exists s].
  - left. by apply map_lookup_filter_Some in E as [E _].
Qed.

(** A Secret rotated to a pair that does not load keeps its last good one
    served and kept. *)
Lemma bad_rotation_serves_last_good store good p r key rest s lg : cp_reading p = Some (Some s) -> cp_todo p = (r, key) :: rest ->
  cert_permitted (cp_grants p) (cp_ns p) key = true -> (forall c k, secret_pair s = Some (c, k) -> validate_cert_key_pair c k = false) ->
  good !! key = Some lg -> sec_uid s = Some (lg_uid lg) ->
  rc_valid (cp_resolved (settle_cert pair_error store good p).1) !! key = Some (lg_pair lg) /\ (settle_cert pair_error store good p).2 = good.
Proof.
  intros Er Et Hp Hbad Hg Hu. unfold settle_cert, resolve_read, resolve_cert_ref. rewrite Er, Et, Hp. cbn.
  assert (K : forall m, keep_good key (sec_uid s) (InvalidRef m) good = (Some (lg_pair lg), good)).
  { intros m. cbn. by rewrite Hg, bool_decide_true. }
  destruct (secret_pair s) as [[c k]|] eqn:E; [rewrite (Hbad c k eq_refl)|unfold missing_secret]; rewrite K; cbn; by rewrite lookup_insert_eq.
Qed.

Lemma certs_fine_exact (w : CertWorld) (id : nat) (p : CertPass) (l : GatewayListeners) :
  cert_reachable pair_error w -> cw_passes w !! id = Some p -> cp_todo p = [] -> l ∈ cp_listeners p ->
  certs_fine (cp_ns p) (cp_resolved p) l = true <->
    (gl_protocol l = bs "HTTPS" \/ gl_protocol l = bs "TLS" -> is_Some (gl_tls l))
    /\ forall tls refs r, gl_tls l = Some tls -> lt_certificate_refs tls = Some refs -> r ∈ refs ->
         exists key s pem, secret_ref_key r (cp_ns p) = Some key /\ cert_permitted (cp_grants p) (cp_ns p) key = true
           /\ cp_reads p !! key = Some (Some s) /\ secret_pair s = Some pem /\ validate_cert_key_pair pem.1 pem.2 = true
           /\ rc_valid (cp_resolved p) !! key = Some pem.
Proof.
  intros Hw Hp Ht Hl. apply cert_inv_reachable in Hw as (_ & _ & _ & Hps). destruct (Hps _ _ Hp) as (_ & Ho & Hc). unfold certs_fine.
  destruct (gl_tls l) as [tls|] eqn:Etls.
  - rewrite forallb_Forall, Forall_forall. split.
    + intros H. split; [by eexists|]. intros tls' refs r [= <-] Er Hr. rewrite Er in H. specialize (H r Hr). unfold cert_ref_bad in H.
      destruct (secret_ref_key r (cp_ns p)) as [key|] eqn:Ek; [|done].
      destruct (rc_errors (cp_resolved p) !! key) eqn:Ee; [done|]. specialize (Hc r key). destruct Hc as [Hin|[read Hread]].
      * apply list_elem_of_In, in_flat_map. exists l. rewrite <- list_elem_of_In, Etls. split; [done|]. cbn. rewrite Er.
        apply list_elem_of_In, list_elem_of_omap. exists r. by rewrite Ek.
      * rewrite Ht in Hin. by apply not_elem_of_nil in Hin.
      * specialize (Ho key). unfold resolved_ok in Ho. rewrite Hread in Ho. destruct (resolve_read _ _ _ _) as [pem|e]; [|destruct Ho; congruence].
        destruct Ho as (? & _ & s & -> & (? & ? & ?) & ?). by exists key, s, pem.
    + intros [_ H] r Hr. destruct (lt_certificate_refs tls) as [refs|] eqn:Er; [|by apply not_elem_of_nil in Hr].
      destruct (H tls refs r eq_refl Er Hr) as (key & s & pem & Ek & Hperm & Hread & Hpair & Hval & _). unfold cert_ref_bad. rewrite Ek.
      specialize (Ho key). unfold resolved_ok in Ho. rewrite Hread in Ho. unfold resolve_read, resolve_cert_ref in Ho.
      rewrite Hperm, Hpair in Ho. destruct pem as [c k]. cbn in Hval, Ho. rewrite Hval in Ho. destruct Ho as (_ & -> & _). done.
  - rewrite negb_true_iff, orb_false_iff, <- !not_true_iff_false, !beq_spec. split; [|intros [H _]; by split; intros E; destruct H as [? ?]; eauto].
    intros [H1 H2]. split; [by intros []|]. by intros tls refs r [=].
Qed.
End Statements.

(** ** The references of a controller's configuration *)

Lemma convert_listener_names l ns cert_data lc r : convert_listener l ns cert_data = Some lc -> r ∈ listener_refs lc -> cert_hostname r = l_hostname lc.
Proof.
  unfold convert_listener. destruct (convert_protocol _) as [p|]; [|done]. cbn [mbind option_bind]. destruct (negb _); [done|].
  intros [= <-]. unfold listener_refs. cbn [l_tls l_hostname]. destruct (gl_tls l) as [t|]; cbn [fmap option_fmap option_map certificate_refs];
    [|by intros ?%not_elem_of_nil].
  intros (x & _ & Hx)%list_elem_of_omap. unfold convert_certificate_ref in Hx.
  destruct (secret_ref_key x ns) as [key|]; [|done]. cbn [mbind option_bind] in Hx. destruct (cert_data !! key) as [[c k]|]; [|done].
  by injection Hx as <-.
Qed.

(** In the configuration the controller makes of a Gateway, each certificate
    reference carries its listener's hostname. *)
Theorem reconciled_refs_name_listener `{RE : RegexEngine} {RS : RegexSyntax} parse_duration gw snapshot cert_data services verdicts :
  refs_name_listener (listeners (gateway (Reconcile.config (reconcile_to_config parse_duration gw snapshot cert_data services verdicts).1))).
Proof.
  unfold reconcile_to_config, apply_rate_limit_policies. cbn [fst Reconcile.config gateway listeners].
  intros lc r Hl Hr. apply list_elem_of_In, in_map_iff in Hl as (l0 & <- & Hl). apply List.filter_In in Hl as [Hl _].
  apply list_elem_of_In, list_elem_of_omap in Hl as (l & _ & Hc). unfold limit_listener in *.
  destruct (winner _ _); by eapply (convert_listener_names l _ cert_data l0).
Qed.

(** Whether some status is an accepted listener's. *)
Lemma statuses_all_rejected conflicts gw_ns certs ls : NoDup (map gl_name ls) ->
  forallb (fun e => negb (ls_accepted e.2)) (map_to_list (fold_left (fun m l => <[gl_name l := validate_listener conflicts gw_ns certs l]> m) ls
    (∅ : gmap (list Z) ListenerStatus))) = true <-> forall l, l ∈ ls -> listener_accepted conflicts l = false.
Proof.
  intros Hn. rewrite forallb_Forall, Forall_forall. split.
  - intros H l Hl. destruct (validate_listener_spec conflicts gw_ns certs l) as (<- & _).
    specialize (H (gl_name l, validate_listener conflicts gw_ns certs l)). cbn in H. rewrite negb_true_iff in H. apply H.
    by apply elem_of_map_to_list, (statuses_lookup (validate_listener conflicts gw_ns certs)).
  - intros H [n ls'] Hin. apply elem_of_map_to_list, statuses_from in Hin as (l & Hl & _ & ->). cbn.
    destruct (validate_listener_spec conflicts gw_ns certs l) as (-> & _). by rewrite H.
Qed.

Lemma find_unsupported addresses : List.find (fun a => negb (address_supported a)) addresses = None
  <-> forall a, a ∈ addresses -> address_supported a = true.
Proof.
  induction addresses as [|a l IH]; cbn; [split; [by intros _ a ?%not_elem_of_nil|done]|]. setoid_rewrite elem_of_cons.
  destruct (address_supported a) eqn:E; cbn; [rewrite IH; naive_solver|]. split; [done|]. intros H. specialize (H a (or_introl eq_refl)). congruence.
Qed.

Lemma gateway_accepted gateway gw_ns certs statuses cond : NoDup (map gl_name (gw_listeners gateway)) ->
  validate_gateway gateway gw_ns certs = (statuses, cond) ->
  gc_ok cond = true <->
    (forall a, a ∈ default [] (gw_addresses gateway) -> address_supported a = true)
    /\ (gw_listeners gateway = [] \/ exists l, l ∈ gw_listeners gateway /\ listener_is_served l = true
          /\ listener_conflicts (gw_listeners gateway) !! gl_name l = None).
Proof.
  intros Hn. unfold validate_gateway. set (conflicts := listener_conflicts (gw_listeners gateway)). intros [= Es <-].
  rewrite <- find_unsupported. destruct (List.find _ _) as [a|]; cbn; [by split; [|intros [? _]]|].
  assert (Hacc : (exists l, l ∈ gw_listeners gateway /\ listener_is_served l = true /\ conflicts !! gl_name l = None)
    <-> ~ forall l, l ∈ gw_listeners gateway -> listener_accepted conflicts l = false).
  { split.
    - intros (l & Hl & Hs & Hc) H. specialize (H l Hl). unfold listener_accepted in H. by rewrite Hs, Hc in H.
    - intros H. destruct (existsb (listener_accepted conflicts) (gw_listeners gateway)) eqn:B.
      + apply existsb_exists in B as (l & Hl & Ha). apply list_elem_of_In in Hl. unfold listener_accepted in Ha. exists l.
        destruct (conflicts !! gl_name l), (listener_is_served l); done.
      + destruct H. intros l Hl. destruct (listener_accepted conflicts l) eqn:A; [|done].
        rewrite <- B. symmetry. apply existsb_exists. exists l. by rewrite <- list_elem_of_In. }
  rewrite Hacc. pose proof (statuses_all_rejected conflicts gw_ns certs (gw_listeners gateway) Hn) as Hall.
  destruct (forallb _ _) eqn:F.
  - destruct Hall as [Hall _]. specialize (Hall eq_refl). rewrite andb_true_r. destruct (bool_decide _) eqn:B; cbn.
    + apply bool_decide_eq_true in B. assert (gw_listeners gateway = []) as ->; [|by cbn; split; [split; [|left]|]].
      destruct (gw_listeners gateway) as [|l ls] eqn:El; [done|]. exfalso. rewrite <- El in *.
      assert (Hl : l ∈ gw_listeners gateway) by (rewrite El; left).
      pose proof (statuses_lookup (validate_listener conflicts gw_ns certs) _ l Hn Hl) as H. by rewrite B, lookup_empty in H.
    + split; [done|]. intros [_ [H|H]]; [|by destruct H]. by rewrite H in B.
  - rewrite andb_false_r. cbn. destruct (is_nil _); cbn; (split; [intros _|done]; split; [done|]); right; intros H; by apply Hall in H.
Qed.

(** C13: What a Gateway's listeners are told once a pass has resolved its
    certificateRefs, whatever ran beside it. A listener is Programmed by the
    translation just when it is served, clashes with no other, allows only
    known kinds of route, has a TLS section where its protocol needs one, and
    each of its certificateRefs names a Secret it may use, whose own pair, as
    the pass read it, loads and is served. The Gateway is accepted just when
    its addresses are of known types and it has no listener or an accepted
    one. *)
Theorem listener_conditions_exact {RL : Rustls} (pair_error : list Z -> list Z -> list Z) (w : CertWorld) (id : nat) (p : CertPass)
    (gateway : Gateway) :
  cert_reachable pair_error w -> cw_passes w !! id = Some p -> cp_todo p = [] -> gw_listeners gateway = cp_listeners p ->
  NoDup (map gl_name (gw_listeners gateway)) ->
  let '(statuses, cond) := validate_gateway gateway (cp_ns p) (cp_resolved p) in
  (forall l, l ∈ gw_listeners gateway -> exists ls, statuses !! gl_name l = Some ls /\
     (ls_programmed ls = true <->
        listener_is_served l = true /\ listener_conflicts (gw_listeners gateway) !! gl_name l = None /\ kinds_fine l = true
        /\ (gl_protocol l = bs "HTTPS" \/ gl_protocol l = bs "TLS" -> is_Some (gl_tls l))
        /\ forall tls refs r, gl_tls l = Some tls -> lt_certificate_refs tls = Some refs -> r ∈ refs ->
             exists key s pem, secret_ref_key r (cp_ns p) = Some key /\ cert_permitted (cp_grants p) (cp_ns p) key = true
               /\ cp_reads p !! key = Some (Some s) /\ secret_pair s = Some pem /\ validate_cert_key_pair pem.1 pem.2 = true
               /\ rc_valid (cp_resolved p) !! key = Some pem))
  /\ (gc_ok cond = true <->
        (forall a, a ∈ default [] (gw_addresses gateway) -> address_supported a = true)
        /\ (gw_listeners gateway = [] \/ exists l, l ∈ gw_listeners gateway /\ listener_is_served l = true
              /\ listener_conflicts (gw_listeners gateway) !! gl_name l = None)).
Proof.
  intros Hw Hp Ht Hl Hn. destruct (validate_gateway gateway (cp_ns p) (cp_resolved p)) as [statuses cond] eqn:E. split.
  - intros l Hin. exists (validate_listener (listener_conflicts (gw_listeners gateway)) (cp_ns p) (cp_resolved p) l).
    split; [injection E as <- _; by apply statuses_lookup|]. destruct (validate_listener_spec (listener_conflicts (gw_listeners gateway)) (cp_ns p)
      (cp_resolved p) l) as (Ha & Hr & ->). rewrite Ha, Hr. unfold listener_accepted. rewrite !andb_true_iff, negb_true_iff.
    rewrite (certs_fine_exact pair_error w id p l Hw Hp Ht) by (by rewrite <- Hl). destruct (listener_conflicts _ !! _); cbn; intuition congruence.
  - by eapply gateway_accepted.
Qed.

(** ** Runs *)

#[local] Existing Instance toy_rustls.

Definition no_text : list Z -> list Z -> list Z := fun _ _ => [].

Definition web_key : SecretKey := (bs "cert", bs "default").
Definition web_secret (rv : string) (cert : list Z) : Secret :=
  {| sec_uid := Some (bs "u"); sec_resource_version := Some (bs rv); sec_data := Some {[ bs "tls.crt" := cert; bs "tls.key" := bs "k" ]} |}.

Definition web_listener : GatewayListeners := {|
  gl_name := bs "https"; gl_port := 443; gl_protocol := bs "HTTPS"; gl_hostname := None;
  gl_tls := Some {| lt_mode := Some Terminate; lt_certificate_refs := Some [{| sr_group := None; sr_kind := None; sr_name := bs "cert"; sr_namespace := None |}] |};
  gl_allowed_routes := None |}.

Definition web_gateway : Gateway := {|
  gw_metadata := {| meta_name := Some (bs "gw"); meta_namespace := Some (bs "default"); meta_uid := None; meta_generation := None; creation_timestamp := None |};
  gw_addresses := None; gw_listeners := [web_listener] |}.

Definition no_certs : CertWorld := {| cw_store := ∅; cw_held := []; cw_good := ∅; cw_passes := ∅ |}.

Definition begun (id : nat) (w : CertWorld) : CertWorld := with_pass id (begin_certs [web_listener] (bs "default") []) (cw_good w) w.
Definition pass_at (id : nat) (w : CertWorld) : CertPass := default (begin_certs [] [] []) (cw_passes w !! id).
Definition read_at (id : nat) (w : CertWorld) : CertWorld := with_pass id (read_cert (cw_store w) (pass_at id w)) (cw_good w) w.
Definition settled_at (id : nat) (w : CertWorld) : CertWorld :=
  with_pass id (settle_cert no_text (cw_store w) (cw_good w) (pass_at id w)).1 (settle_cert no_text (cw_store w) (cw_good w) (pass_at id w)).2 w.

Definition served_run : CertWorld := settled_at 0 (read_at 0 (begun 0 (store_put web_key (web_secret "1" (bs "c")) no_certs))).

Lemma served_run_reachable : cert_reachable no_text served_run.
Proof.
  eapply certs_move; [|by apply (cert_settle no_text 0)]. eapply certs_move; [|by apply (cert_read no_text 0)].
  eapply certs_move; [|apply cert_begin]. eapply certs_move; [apply certs_start|apply cert_put]. set_solver.
Qed.

Lemma served_certificates_are_vouched_witness :
  rc_valid (cp_resolved (pass_at 0 served_run)) !! web_key = Some (bs "c", bs "k") /\ validate_cert_key_pair (bs "c") (bs "k") = true.
Proof.
  split; [vm_compute; reflexivity|].
  apply (served_certificates_are_vouched no_text served_run 0 (pass_at 0 served_run) web_key (bs "c", bs "k"));
    [apply served_run_reachable|vm_compute; reflexivity|vm_compute; reflexivity].
Defined.

Lemma listener_conditions_exact_witness :
  exists ls, (validate_gateway web_gateway (bs "default") (cp_resolved (pass_at 0 served_run))).1 !! bs "https" = Some ls /\ ls_programmed ls = true.
Proof.
  pose proof (listener_conditions_exact no_text served_run 0 (pass_at 0 served_run) web_gateway) as H.
  destruct (validate_gateway web_gateway (cp_ns (pass_at 0 served_run)) (cp_resolved (pass_at 0 served_run))) as [statuses cond] eqn:E.
  destruct H as [H _]; [apply served_run_reachable|vm_compute; reflexivity|vm_compute; reflexivity|vm_compute; reflexivity|apply NoDup_singleton|].
  destruct (H web_listener) as (ls & Hls & _); [left|]. exists ls. change (bs "default") with (cp_ns (pass_at 0 served_run)). rewrite E.
  split; [exact Hls|]. assert (Hs : statuses = (validate_gateway web_gateway (cp_ns (pass_at 0 served_run)) (cp_resolved (pass_at 0 served_run))).1) by (by rewrite E).
  rewrite Hs in Hls. assert (Hp : ls_programmed <$> (validate_gateway web_gateway (cp_ns (pass_at 0 served_run)) (cp_resolved (pass_at 0 served_run))).1 !! gl_name web_listener = Some true)
    by (vm_compute; reflexivity). rewrite Hls in Hp. by injection Hp.
Defined.

(** A pass that read a Secret before it was there takes away the pair another
    pass recorded since: a bad rotation then has nothing to fall back on. *)
Definition forgotten_run : CertWorld :=
  settled_at 2 (read_at 2 (begun 2 (store_put web_key (web_secret "2" []) (settled_at 0
    (settled_at 1 (read_at 1 (begun 1 (store_put web_key (web_secret "1" (bs "c")) (read_at 0 (begun 0 no_certs)))))))))).

Theorem stale_pass_forgets_newer_pair :
  cert_reachable no_text forgotten_run
  /\ rc_valid (cp_resolved (pass_at 1 forgotten_run)) !! web_key = Some (bs "c", bs "k")
  /\ rc_valid (cp_resolved (pass_at 2 forgotten_run)) !! web_key = None.
Proof.
  split; [|split; vm_compute; reflexivity]. unfold forgotten_run.
  eapply certs_move; [|by apply (cert_settle no_text 2)]. eapply certs_move; [|by apply (cert_read no_text 2)].
  eapply certs_move; [|apply cert_begin]. eapply certs_move; [|apply cert_put].
  - eapply certs_move; [|by apply (cert_settle no_text 0)]. eapply certs_move; [|by apply (cert_settle no_text 1)].
    eapply certs_move; [|by apply (cert_read no_text 1)]. eapply certs_move; [|apply cert_begin]. eapply certs_move; [|apply cert_put; set_solver].
    eapply certs_move; [|by apply (cert_read no_text 0)]. eapply certs_move; [apply certs_start|apply cert_begin].
  - cbn. intros s' [H|H]%elem_of_cons; [injection H as ->; cbn; intros _ [=]|set_solver].
Qed.
