(* ===== verification/Programmed.v ===== *)
(** * A Gateway's Programmed

    [src/src/kubernetes/controller/programmed.rs]: the status of a Gateway
    from its translation, the live reports of its data planes and the Service
    in front of them. The status held by the store is an argument, as JSON;
    so is the Service the controller owns, with the fields the code reads.
    Times are nanoseconds. The text of an endpoint's error is a parameter. *)

From S2P Require Import Prelude Bytes HttpFilters Config ConfigTable Validation GatewayApi Converters Addresses DataPlane Snapshot Apply SyncLoop Reconciled Hub Reports Leader Status Certificates.

Definition KEEP : Z := HOLD.
(** [Duration::from_secs(2 * HOLD.as_secs())] *)
Definition TAKEOVER_KEEP : Z := 2 * (HOLD / 1000000000) * 1000000000.

Definition IP_ADDRESS : list Z := bs "IPAddress".
Definition HOSTNAME : list Z := bs "Hostname".

Inductive Unpublished := TranslationRejected (e : list Z) | InvalidParameters (m : list Z).

Record GatewayStatus := {
  gs_desired : Value;
  gs_programmed : bool;
  gs_recheck : option Z;
  gs_routes : bool;
}.

Inductive Verdict := Fresh (c : GatewayCondition) | Kept (until : Z) (otherwise : GatewayCondition).

Abbreviation TypedAddress := (list Z * list Z)%type.
Inductive StatusAddresses := Known (known : list TypedAddress) | Unknown.

(** ** The Service *)

(** A Service's name, type, cluster IP, the IP and hostname of each ingress
    of its load balancer, and whether it is being deleted. *)
Record FrontService := {
  fs_namespace : option (list Z);
  fs_name : list Z;
  fs_type : option (list Z);
  fs_cluster_ip : option (list Z);
  fs_ingress : list (option (list Z) * option (list Z));
  fs_deleting : bool;
}.

Record ServiceView := { sv_name : list Z; load_balancer : bool; sv_addresses : list TypedAddress }.

Definition address_compare (a b : TypedAddress) : comparison := then_with (bytes_compare a.1 b.1) (bytes_compare a.2 b.2).

(** [dedup] of a sorted list. *)
Fixpoint dedup_addresses (l : list TypedAddress) : list TypedAddress :=
  match l with
  | x :: (y :: _) as t => if bool_decide (x = y) then dedup_addresses t else x :: dedup_addresses t
  | _ => l
  end.

Definition ServiceView_of (svc : FrontService) : ServiceView :=
  let load_balancer := bool_decide (fs_type svc = Some (bs "LoadBalancer")) in
  let addresses :=
    if load_balancer
    then flat_map (fun ingress => map (fun ip => (IP_ADDRESS, ip)) (opt_list ingress.1) ++ map (fun h => (HOSTNAME, h)) (opt_list ingress.2)) (fs_ingress svc)
    else match fs_cluster_ip svc with
         | Some ip => if negb (is_nil ip) && negb (beq ip (bs "None")) then [(IP_ADDRESS, ip)] else []
         | None => []
         end in
  {| sv_name := slashed (default [] (fs_namespace svc)) (fs_name svc); load_balancer := load_balancer;
     sv_addresses := dedup_addresses (sort_by address_compare addresses) |}.

Definition spec_addresses (gateway : Gateway) : list AddressSpec := default [] (gw_addresses gateway).
Definition address_type (a : AddressSpec) : list Z := default IP_ADDRESS (as_type a).

Definition unassigned (s : ServiceView) (gateway : Gateway) : option (list Z) :=
  if load_balancer s && is_nil (sv_addresses s)
  then Some (bs "LoadBalancer Service " ++ sv_name s ++ bs " has no ingress address yet")
  else
    let missing := List.filter (fun v => negb (existsb (fun ta => beq ta.1 IP_ADDRESS && beq ta.2 v) (sv_addresses s)))
                     (omap as_value (List.filter (fun a => beq (address_type a) IP_ADDRESS) (spec_addresses gateway))) in
    if is_nil missing then None
    else Some (bs "IPAddress " ++ joined (bs ", ") missing ++ bs " not assigned: Service " ++ sv_name s
               ++ bs " does not hold it, and static addresses are not requested from it").

(** ** The verdict *)

(** [status], the status the store holds, is a field of the Gateway in the code. *)
Record Inputs := {
  i_gateway : Gateway;
  i_status : option Value;
  i_accepted : GatewayCondition;
  i_listeners : gmap (list Z) ListenerStatus;
  i_attached : gmap (list Z) Z;
  i_problem : option (list Z);
  i_unpublished : option Unpublished;
  i_served : option Snapshot;
  i_reports : list (InstanceId * InstanceReport);
  i_older : option Z;
  i_service : option FrontService;
  i_published_at : option Z;
  i_first_published : option Z;
  i_leading_since : option Z;
  i_last_leaving : option Z;
  i_now : Z;
}.

Definition pending (message : list Z) : GatewayCondition := {| gc_ok := false; gc_reason := bs "Pending"; gc_message := message |}.

(** A listener not yet online. *)
Definition set_pending (message : list Z) (ls : ListenerStatus) : ListenerStatus := set_programmed false (bs "Pending") message ls.

Definition mark_pending (listeners : gmap (list Z) ListenerStatus) (message : list Z) : gmap (list Z) ListenerStatus * list (list Z) :=
  ((fun ls => if ls_programmed ls then set_pending message ls else ls) <$> listeners,
   map fst (List.filter (fun e => ls_programmed e.2) (map_to_list listeners))).

Definition bound (report : InstanceReport) (listener : list Z) : bool :=
  match List.find (fun l => beq (lr_name l) listener) (lrs report) with
  | Some l => negb (is_nil (lr_endpoints l)) && forallb er_bound (lr_endpoints l)
  | None => false
  end.

(** [Option::max] *)
Definition max_option (a b : option Z) : option Z :=
  match a, b with Some a, Some b => Some (Z.max a b) | Some a, None => Some a | None, b => b end.

Definition keep_until (i : Inputs) : option Z :=
  let live_older := negb (is_nil (i_reports i)) in
  let edited := (fun t => t + KEEP) <$>
    max_opt (opt_list (if live_older then i_published_at i else None) ++ opt_list (i_last_leaving i) ++ opt_list (i_first_published i)) in
  let taken_over := (fun t => t + TAKEOVER_KEEP) <$> (if negb live_older then i_leading_since i else None) in
  max_option edited taken_over.

Definition names_addresses (gateway : Gateway) : bool :=
  existsb (fun a => beq (address_type a) IP_ADDRESS || beq (address_type a) NETWORK_ADDRESS_TYPE) (spec_addresses gateway).

(** What one instance holds of a spec address. *)
Definition held_address (report : InstanceReport) (a : AddressSpec) : option (list Z) :=
  value ← as_value a;
  if beq (address_type a) IP_ADDRESS then if existsb (beq value) (interface_ips report) then Some value else None
  else if beq (address_type a) NETWORK_ADDRESS_TYPE then networks report !! value
  else None.

Definition instance_addresses (gateway : Gateway) (at_version : list InstanceReport) (binds : list (option (list (list Z)))) : list TypedAddress :=
  let all := flat_map (fun rb => match rb.2 with
                                 | None => []
                                 | Some _ =>
                                     let held := omap (held_address rb.1) (spec_addresses gateway) in
                                     if is_nil held then opt_list (head (interface_ips rb.1)) else held
                                 end) (combine at_version binds) in
  map (fun ip => (IP_ADDRESS, ip)) (dedup (sort_by bytes_compare all)).

(** The first error an instance reports for a listener. *)
Definition listener_error (reports : list InstanceReport) (name : list Z) : option ReportError :=
  head (omap er_error (flat_map lr_endpoints (flat_map (fun r => List.filter (fun x => beq (lr_name x) name) (lrs r)) reports))).

Definition print_i64 (n : Z) : list Z := if n <? 0 then bs "-" ++ print_decimal (- n) else print_decimal n.

Section Evaluate.
Context (error_text : ReportError -> list Z).

(** The variables of the loop over the counted listeners. *)
Definition check_bound (at_version : list InstanceReport) (unusable : bool) (st : gmap (list Z) ListenerStatus * bool) (name : list Z)
  : gmap (list Z) ListenerStatus * bool :=
  let fail message := (alter (set_pending message) name st.1, false) in
  match listener_error at_version name with
  | Some err => fail (bs "Listener port not bound: " ++ error_text err)
  | None =>
      if existsb (fun r => bound r name) at_version then st
      else if unusable then fail (bs "Not bound: no address of this Gateway is on the pod")
      else fail (bs "Listener port not bound yet")
  end.

Definition at_served (i : Inputs) (served : Snapshot) : list InstanceReport :=
  List.filter (fun r => beq (applied r) (version served)) (map snd (i_reports i)).

(** Only listeners the translation could program count. *)
Definition counted (i : Inputs) (served : Snapshot) : list (list Z) :=
  List.filter (fun name => match i_listeners i !! name with Some ls => ls_programmed ls | None => false end)
    (map l_name (listeners (gateway (s_config served)))).

Definition evaluate_served (i : Inputs) (served : Snapshot) (at_version : list InstanceReport) (service : option ServiceView)
  : Verdict * StatusAddresses * gmap (list Z) ListenerStatus :=
  let addresses := g_addresses (gateway (s_config served)) in
  let binds := map (fun r => bind_addresses_resolved addresses (networks r) (interface_ips r)) at_version in
  let unusable := forallb (fun b => negb (is_some b)) binds in
  let '(ls, all_bound) := fold_left (check_bound at_version unusable) (counted i served) (i_listeners i, true) in
  let condition :=
    match head (omap apply_error at_version) with
    | Some e => GatewayCondition_invalid (bs "Route table conversion failed: " ++ e)
    | None =>
        if is_nil (counted i served) && negb (is_nil (gw_listeners (i_gateway i)))
        then GatewayCondition_invalid (bs "No listener could be programmed")
        else if unusable
        then {| gc_ok := false; gc_reason := bs "AddressNotUsable";
                gc_message := bs "Network address "
                  ++ joined (bs ", ") (unresolved_networks addresses (default ∅ (networks <$> head at_version)))
                  ++ bs " has no IP on this pod, or its NetworkAttachmentDefinition could not be read, so no listener of this Gateway is bound; check the NetworkAttachmentDefinition and the pod's network attachment" |}
        else if all_bound then GatewayCondition_ok (bs "Programmed") (bs "Programmed")
        else GatewayCondition_invalid (bs "Data plane not ready: not all listener ports are bound")
    end in
  let known :=
    match service with
    | Some s => Known (sv_addresses s)
    | None => let held := instance_addresses (i_gateway i) at_version binds in if is_nil held then Unknown else Known held
    end in
  (Fresh condition, known, ls).

(** The verdict, the addresses, the listeners' statuses and those turned
    Pending for want of an instance at the served version. *)
Definition evaluate (i : Inputs) (service : option ServiceView)
  : Verdict * StatusAddresses * gmap (list Z) ListenerStatus * list (list Z) :=
  let from_service := (fun s => Known (sv_addresses s)) <$> service in
  match i_served i with
  | None =>
      let message := bs "No configuration published for this Gateway yet" in
      let '(ls, marked) := mark_pending (i_listeners i) message in
      (Fresh (pending message), default Unknown from_service, ls, marked)
  | Some served =>
      let at_version := at_served i served in
      if is_nil at_version
      then
        let generation := print_i64 (gr_generation (s_gateway served)) in
        let message := match i_older i with
                       | Some older => bs "No data plane applied generation " ++ generation ++ bs " yet; one serves generation " ++ print_i64 older
                       | None => bs "No data plane applied generation " ++ generation ++ bs " yet"
                       end in
        let '(ls, marked) := mark_pending (i_listeners i) message in
        let expired :=
          let none := is_nil (i_reports i) && negb (names_addresses (i_gateway i)) in
          (Fresh (pending message), default (if none then Known [] else Unknown) from_service, ls, marked) in
        match keep_until i with
        | Some until => if i_now i <? until then (Kept until (pending message), default Unknown from_service, ls, marked) else expired
        | None => expired
        end
      else (evaluate_served i served at_version service, [])
  end.

(** ** The status *)

Definition condition_of (cond_type : list Z) (c : GatewayCondition) (generation : option Z) : Value :=
  condition cond_type (gc_ok c) (gc_reason c) (gc_message c) generation.

Definition unpublished (i : Inputs) (why : Unpublished) (observed : Value) : GatewayStatus :=
  let generation := meta_generation (gw_metadata (i_gateway i)) in
  let '(accepted, message) :=
    match why with
    | TranslationRejected e => (i_accepted i, bs "Reconciliation failed: " ++ e)
    | InvalidParameters m =>
        ({| gc_ok := false; gc_reason := bs "InvalidParameters"; gc_message := m |}, bs "Nothing published for this generation: " ++ m)
    end in
  {| gs_desired := desired_gateway_status
       (condition_of (bs "Accepted") accepted generation, condition (bs "Programmed") false (bs "Invalid") message generation)
       (default [] (observed_list observed (bs "listeners"))) (observed_list observed (bs "addresses"));
     gs_programmed := false; gs_recheck := None; gs_routes := false |}.

(** The first condition of a type replaced. *)
Fixpoint replace_condition (cond_type : list Z) (kept : Value) (conditions : list Value) : list Value :=
  match conditions with
  | [] => []
  | c :: rest => if bool_decide (index c (bs "type") = VString cond_type) then kept :: rest else c :: replace_condition cond_type kept rest
  end.

Definition keep_entry (observed : Value) (pending : list (list Z)) (entry : Value) : Value :=
  let written := default [] (as_array (index observed (bs "listeners"))) in
  if negb (existsb (beq (default [] (as_str (index entry (bs "name"))))) pending) then entry
  else
    match List.find (fun w => bool_decide (index w (bs "name") = index entry (bs "name"))) written
          ≫= (fun w => observed_condition (index w (bs "conditions")) (bs "Programmed")) with
    | None => entry
    | Some kept =>
        match entry, as_array (index entry (bs "conditions")) with
        | VObject m, Some cs => VObject (field_insert (bs "conditions") (VArray (replace_condition (bs "Programmed") kept cs)) m)
        | _, _ => entry
        end
    end.

Definition keep_listener_programmed (entries : list Value) (observed : Value) (pending : list (list Z)) : list Value :=
  map (keep_entry observed pending) entries.

Definition overruled (i : Inputs) (service : option ServiceView) (verdict : Verdict) : Verdict :=
  match i_problem i with
  | Some problem => Fresh (GatewayCondition_invalid problem)
  | None =>
      if negb (gc_ok (i_accepted i)) then Fresh (GatewayCondition_invalid (bs "Gateway not accepted: " ++ gc_message (i_accepted i)))
      else match service ≫= (fun s => unassigned s (i_gateway i)) with
           | Some message => Fresh {| gc_ok := false; gc_reason := bs "AddressNotAssigned"; gc_message := message |}
           | None => verdict
           end
  end.

(** [until.saturating_duration_since(now)] *)
Definition saturating_since (until now : Z) : Z := Z.max 0 (until - now).

Definition decide_status (i : Inputs) : GatewayStatus :=
  let generation := meta_generation (gw_metadata (i_gateway i)) in
  let observed := observed_gateway_status (i_status i) in
  match i_unpublished i with
  | Some why => unpublished i why observed
  | None =>
      let service := ServiceView_of <$> i_service i in
      let '(verdict, addresses, ls, marked) := evaluate i service in
      let verdict := overruled i service verdict in
      let entries := map (fun l => listener_entry l (default ListenerStatus_default (ls !! gl_name l))
                                     (default 0 (i_attached i !! gl_name l)) generation) (gw_listeners (i_gateway i)) in
      let fresh c := condition_of (bs "Programmed") c generation in
      let '(entries, programmed, recheck) :=
        match verdict with
        | Fresh c => (entries, fresh c, None)
        | Kept until otherwise =>
            let entries := keep_listener_programmed entries observed marked in
            match observed_condition (index observed (bs "conditions")) (bs "Programmed") with
            | Some kept => (entries, kept, Some (saturating_since until (i_now i)))
            | None => (entries, fresh otherwise, None)
            end
        end in
      let written := observed_list observed (bs "addresses") in
      let addresses :=
        match addresses with
        | Known known => if is_nil known then (fun _ => []) <$> written else Some (map (fun ta => address ta.1 ta.2) known)
        | Unknown => written
        end in
      {| gs_desired := desired_gateway_status (condition_of (bs "Accepted") (i_accepted i) generation, programmed) entries addresses;
         gs_programmed := bool_decide (index programmed (bs "status") = VString (bs "True"));
         gs_recheck := recheck; gs_routes := true |}
  end.

End Evaluate.

(** [hub] and [reports] are read one after the other: each reading may find
    another state. *)
Definition status_inputs (gateway : Gateway) (status : option Value) (key : GatewayKey) (accepted : GatewayCondition)
    (listeners : gmap (list Z) ListenerStatus) (attached : gmap (list Z) Z) (problem : option (list Z)) (why : option Unpublished)
    (current_of : Hub) (reports_of : ReportStore) (reports_at : Z) (service : option FrontService) (older_of published_of first_of : Hub)
    (leader : Leader) (leaving_of : ReportStore) (now : Z) : Inputs :=
  let reports := live key reports_at reports_of in
  {| i_gateway := gateway; i_status := status; i_accepted := accepted; i_listeners := listeners; i_attached := attached; i_problem := problem;
     i_unpublished := why; i_served := current key current_of; i_reports := reports;
     i_older := r ← head reports; generation_of key (applied r.2) older_of;
     i_service := s ← service; if fs_deleting s then None else Some s;
     i_published_at := published_at key published_of; i_first_published := first_published_at key first_of;
     i_leading_since := leading_since leader; i_last_leaving := last_leaving key leaving_of; i_now := now |}.

Definition gateway_status (error_text : ReportError -> list Z) (gateway : Gateway) (status : option Value) (key : GatewayKey)
    (accepted : GatewayCondition) (listeners : gmap (list Z) ListenerStatus) (attached : gmap (list Z) Z) (problem : option (list Z))
    (why : option Unpublished) (current_of : Hub) (reports_of : ReportStore) (reports_at : Z) (service : option FrontService)
    (older_of published_of first_of : Hub) (leader : Leader) (leaving_of : ReportStore) (now : Z) : GatewayStatus :=
  decide_status error_text (status_inputs gateway status key accepted listeners attached problem why current_of reports_of reports_at service
                              older_of published_of first_of leader leaving_of now).

(** ** What Programmed says *)

(** What stands behind a Programmed of [served], for the instances at its
    version: they can all serve it, one can bind, and every listener that
    counts is wholly bound by one and in error at none. *)
Definition backed (gateway : Gateway) (counted : list (list Z)) (served : Snapshot) (serving : InstanceReport -> Prop) : Prop :=
  (forall r, serving r -> apply_error r = None)
  /\ (gw_listeners gateway = [] \/ counted <> [])
  /\ (exists r, serving r /\ is_Some (bind_addresses_resolved (g_addresses (Config.gateway (s_config served))) (networks r) (interface_ips r)))
  /\ forall name, name ∈ counted ->
       (forall r l e, serving r -> l ∈ lrs r -> lr_name l = name -> e ∈ lr_endpoints l -> er_error e = None)
       /\ exists r, serving r /\ bound r name = true.

Lemma head_omap_None {A B} (f : A -> option B) l : head (omap f l) = None <-> forall x, x ∈ l -> f x = None.
Proof.
  induction l as [|x l IH]; cbn; [split; [by intros _ x ?%not_elem_of_nil|done]|]. setoid_rewrite elem_of_cons.
  destruct (f x) eqn:E; cbn; [|rewrite IH; naive_solver]. split; [done|]. intros H. specialize (H x (or_introl eq_refl)). congruence.
Qed.

Lemma listener_error_None reports name : listener_error reports name = None
  <-> forall r l e, r ∈ reports -> l ∈ lrs r -> lr_name l = name -> e ∈ lr_endpoints l -> er_error e = None.
Proof.
  unfold listener_error. rewrite head_omap_None. setoid_rewrite list_elem_of_In. setoid_rewrite in_flat_map. setoid_rewrite in_flat_map.
  setoid_rewrite filter_In. setoid_rewrite beq_spec. split; [|naive_solver].
  intros H r l e Hr Hl Hn He. apply H. exists l. split; [|done]. by exists r.
Qed.

Definition listener_fine (at_version : list InstanceReport) (name : list Z) : bool :=
  negb (is_some (listener_error at_version name)) && existsb (fun r => bound r name) at_version.

Lemma check_bound_all error_text at_version unusable names st :
  (fold_left (check_bound error_text at_version unusable) names st).2 = st.2 && forallb (listener_fine at_version) names.
Proof.
  revert st. induction names as [|name names IH]; intros st; cbn; [by rewrite andb_true_r|]. rewrite IH. unfold check_bound, listener_fine.
  destruct (listener_error at_version name); cbn; [by rewrite andb_false_r|]. destruct (existsb _ _); cbn; [done|].
  destruct unusable; cbn; by rewrite andb_false_r.
Qed.

Lemma not_unusable addresses (reports : list InstanceReport) :
  forallb (fun b => negb (is_some b)) (map (fun r => bind_addresses_resolved addresses (networks r) (interface_ips r)) reports) = false
  <-> exists r, r ∈ reports /\ is_Some (bind_addresses_resolved addresses (networks r) (interface_ips r)).
Proof.
  induction reports as [|r reports IH]; cbn; [split; [done|by intros (r & ?%not_elem_of_nil & _)]|]. setoid_rewrite elem_of_cons.
  destruct (bind_addresses_resolved addresses (networks r) (interface_ips r)) eqn:E; cbn; [|rewrite IH; split;
    [intros (r' & ? & ?); eauto|intros (r' & [->|?] & Hs); [rewrite E in Hs; by destruct Hs|eauto]]].
  split; [intros _|done]. exists r. rewrite E. eauto.
Qed.

Lemma evaluate_served_backed error_text i served service c known ls :
  evaluate_served error_text i served (at_served i served) service = (Fresh c, known, ls) ->
  gc_ok c = true <-> backed (i_gateway i) (counted i served) served (fun r => r ∈ at_served i served).
Proof.
  unfold evaluate_served, backed. destruct (fold_left _ _ _) as [ls' all_bound] eqn:F. intros [= <- _ _].
  pose proof (check_bound_all error_text (at_served i served) (forallb (fun b => negb (is_some b))
    (map (fun r => bind_addresses_resolved (g_addresses (Config.gateway (s_config served))) (networks r) (interface_ips r)) (at_served i served)))
    (counted i served) (i_listeners i, true)) as Hall. rewrite F in Hall. cbn in Hall. rewrite <- not_unusable, <- head_omap_None.
  destruct (head (omap apply_error _)); [cbn; naive_solver|].
  assert (Hempty : is_nil (counted i served) && negb (is_nil (gw_listeners (i_gateway i))) = false <-> gw_listeners (i_gateway i) = [] \/ counted i served <> [])
    by (destruct (counted i served), (gw_listeners (i_gateway i)); cbn; naive_solver).
  rewrite <- Hempty. destruct (is_nil (counted i served) && _); [cbn; naive_solver|]. destruct (forallb _ (map _ _)); [cbn; naive_solver|].
  assert (Hb : all_bound = true <-> forall name, name ∈ counted i served ->
       (forall r l e, r ∈ at_served i served -> l ∈ lrs r -> lr_name l = name -> e ∈ lr_endpoints l -> er_error e = None)
       /\ exists r, r ∈ at_served i served /\ bound r name = true).
  { rewrite Hall, forallb_Forall, Forall_forall. apply forall_proper; intros name. apply Morphisms_Prop.iff_iff_iff_impl_morphism; [done|].
    unfold listener_fine. rewrite andb_true_iff, negb_true_iff, existsb_exists, <- listener_error_None. setoid_rewrite list_elem_of_In.
    destruct (listener_error _ name); cbn; naive_solver. }
  rewrite <- Hb. destruct all_bound; cbn; naive_solver.
Qed.

Lemma status_field cond_type ok reason message generation :
  index (condition cond_type ok reason message generation) (bs "status") = VString (if ok then bs "True" else bs "False").
Proof. by destruct generation. Qed.

Lemma programmed_field c generation :
  bool_decide (index (condition_of (bs "Programmed") c generation) (bs "status") = VString (bs "True")) = gc_ok c.
Proof. unfold condition_of. rewrite status_field. by destruct (gc_ok c). Qed.

(** The Programmed the store holds. *)
Definition written_programmed (status : option Value) : option Value :=
  observed_condition (index (observed_gateway_status status) (bs "conditions")) (bs "Programmed").

Definition says_true (c : Value) : Prop := index c (bs "status") = VString (bs "True").

(** The written Programmed stands in for instances not there yet. *)
Definition standing (i : Inputs) (served : Snapshot) : Prop :=
  at_served i served = [] /\ exists until kept, keep_until i = Some until /\ i_now i < until
    /\ written_programmed (i_status i) = Some kept /\ says_true kept.

(** Nothing overrules the verdict. *)
Definition unopposed (i : Inputs) : Prop :=
  i_unpublished i = None /\ i_problem i = None /\ gc_ok (i_accepted i) = true
  /\ forall s, i_service i = Some s -> unassigned (ServiceView_of s) (i_gateway i) = None.

Lemma unopposed_spec i : unopposed i \/ (forall error_text, gs_programmed (decide_status error_text i) = false) /\ ~ unopposed i.
Proof.
  unfold unopposed, decide_status. destruct (i_unpublished i) as [why|]; [right; split; [by destruct why|by intros []]|].
  unfold overruled. destruct (i_problem i) as [problem|].
  { right. split; [|naive_solver]. intros error_text. destruct (evaluate error_text i _) as [[[v a] ls] marked]. cbn [gs_programmed]. apply programmed_field. }
  destruct (gc_ok (i_accepted i)); cbn [negb].
  2: { right. split; [|naive_solver]. intros error_text. destruct (evaluate error_text i _) as [[[v a] ls] marked]. cbn [gs_programmed]. apply programmed_field. }
  destruct (i_service i) as [s|]; [|left; naive_solver]. cbn [fmap option_fmap option_map mbind option_bind].
  destruct (unassigned (ServiceView_of s) (i_gateway i)) as [m|] eqn:U; [|left; naive_solver].
  right. split; [|intros (_ & _ & _ & H); specialize (H s eq_refl); congruence].
  intros error_text. destruct (evaluate error_text i _) as [[[v a] ls] marked]. cbn [gs_programmed]. apply programmed_field.
Qed.

Lemma overruled_unopposed i verdict : unopposed i -> overruled i (ServiceView_of <$> i_service i) verdict = verdict.
Proof.
  intros (_ & Hp & Ha & Hs). unfold overruled. rewrite Hp, Ha. destruct (i_service i) as [s|]; [|done]. cbn. by rewrite (Hs s eq_refl).
Qed.

(** The status of a Gateway nothing overrules, by its verdict. *)
Lemma decided_by_verdict error_text i verdict a ls marked : unopposed i ->
  evaluate error_text i (ServiceView_of <$> i_service i) = (verdict, a, ls, marked) ->
  gs_programmed (decide_status error_text i) =
    match verdict with
    | Fresh c => gc_ok c
    | Kept _ otherwise => match written_programmed (i_status i) with Some kept => bool_decide (says_true kept) | None => gc_ok otherwise end
    end
  /\ gs_recheck (decide_status error_text i) =
    match verdict with
    | Fresh _ => None
    | Kept until _ => match written_programmed (i_status i) with Some _ => Some (saturating_since until (i_now i)) | None => None end
    end.
Proof.
  intros Hu E. pose proof (overruled_unopposed i verdict Hu) as Ho. destruct Hu as (Hn & _). unfold decide_status, written_programmed.
  rewrite Hn, E, Ho. destruct verdict as [c|until otherwise]; cbn [gs_programmed gs_recheck]; [by rewrite programmed_field|].
  destruct (observed_condition _ _); cbn [gs_programmed gs_recheck]; [done|by rewrite programmed_field].
Qed.

Lemma programmed_exact error_text i : gs_programmed (decide_status error_text i) = true <->
  unopposed i /\ exists served, i_served i = Some served
    /\ ((at_served i served <> [] /\ backed (i_gateway i) (counted i served) served (fun r => r ∈ at_served i served)) \/ standing i served).
Proof.
  destruct (unopposed_spec i) as [Hu|[-> Hu]]; [|naive_solver].
  destruct (evaluate error_text i (ServiceView_of <$> i_service i)) as [[[verdict a] ls] marked] eqn:E.
  destruct (decided_by_verdict error_text i verdict a ls marked Hu E) as [-> _]. unfold evaluate in E. unfold standing.
  destruct (i_served i) as [served|]; [|injection E as <- _ _ _; cbn; naive_solver].
  destruct (at_served i served) as [|r rs] eqn:Ea.
  - cbn in E. destruct (keep_until i) as [until|]; [destruct (i_now i <? until) eqn:B|]; injection E as <- _ _ _; cbn [gc_ok pending].
    + bool_simpl. destruct (written_programmed (i_status i)) as [kept|]; [|naive_solver]. rewrite bool_decide_eq_true. split.
      * intros Hk. split; [done|]. exists served. split; [done|]. right. split; [done|]. by exists until, kept.
      * intros (_ & s & [= <-] & [[? _]|(_ & until' & kept' & _ & _ & [= <-] & ?)]); done.
    + bool_simpl. split; [done|]. intros (_ & s & [= <-] & [[? _]|(_ & until' & kept' & [= <-] & ? & _)]); [done|lia].
    + split; [done|]. intros (_ & s & [= <-] & [[? _]|(_ & until' & kept' & ? & _)]); done.
  - rewrite <- Ea in *. assert (is_nil (at_served i served) = false) as Hn by (by rewrite Ea). rewrite Hn in E.
    destruct (evaluate_served error_text i served (at_served i served) (ServiceView_of <$> i_service i)) as [[v' a'] ls'] eqn:Ev. injection E as -> -> -> <-.
    destruct verdict as [c|until otherwise]; [|unfold evaluate_served in Ev; by destruct (fold_left _ _ _)].
    rewrite (evaluate_served_backed _ _ _ _ _ _ _ Ev). assert (at_served i served <> []) by (by rewrite Ea). naive_solver.
Qed.

(** An instance heard of within the liveness window, not leaving, that serves
    version [v]. *)
Definition serving (key : GatewayKey) (store : ReportStore) (now : Z) (v : list Z) (r : InstanceReport) : Prop :=
  exists id e, entry_of (key, id) store = Some e /\ e_report e = r /\ Reports.since now (e_seen e) < LIVENESS /\ leaving r = false /\ applied r = v.

Lemma at_served_serving i served key store now r : i_reports i = live key now store ->
  r ∈ at_served i served <-> serving key store now (version served) r.
Proof.
  intros E. unfold at_served, serving. rewrite list_elem_of_In, filter_In, beq_spec, <- list_elem_of_In, E, list_elem_of_fmap. split.
  - intros [((id & r') & -> & H) Hv]. apply live_exact in H as (e & ? & ? & Ha & ?). unfold alive in Ha. bool_simpl. by exists id, e.
  - intros (id & e & He & <- & Ha & Hl & Hv). split; [|done]. exists (id, e_report e). split; [done|]. apply live_exact. exists e.
    split_and!; [done|done| |done]. unfold alive. by apply Z.ltb_lt.
Qed.

Lemma backed_iff gateway names served P Q : (forall r, P r <-> Q r) -> backed gateway names served P <-> backed gateway names served Q.
Proof. intros H. unfold backed. by setoid_rewrite H. Qed.

(** C10: Programmed is what live data planes bound. A Gateway's status says
    Programmed just when its translation was published, nothing keeps its
    data plane from being provisioned, it is accepted, its Service has the
    addresses it names, a snapshot is served, and either some instance heard
    of within the liveness window applied that very version, all those can
    serve it, one can bind, and every listener the translation could program
    is wholly bound by one of them and in error at none; or none of them is at
    that version yet, the store says Programmed, and the time that may stand
    for is not over. *)
Theorem programmed_is_backed (error_text : ReportError -> list Z) gateway status key accepted statuses attached problem why
    (current_of : Hub) (reports_of : ReportStore) (reports_at : Z) service (older_of published_of first_of : Hub) (leader : Leader)
    (leaving_of : ReportStore) (now : Z) :
  let i := status_inputs gateway status key accepted statuses attached problem why current_of reports_of reports_at service older_of
             published_of first_of leader leaving_of now in
  gs_programmed (gateway_status error_text gateway status key accepted statuses attached problem why current_of reports_of reports_at
                   service older_of published_of first_of leader leaving_of now) = true <->
  why = None /\ problem = None /\ gc_ok accepted = true
  /\ (forall s, service = Some s -> fs_deleting s = false -> unassigned (ServiceView_of s) gateway = None)
  /\ exists served, current key current_of = Some served
     /\ ((exists r, serving key reports_of reports_at (version served) r)
           /\ backed gateway (counted i served) served (serving key reports_of reports_at (version served))
         \/ (forall r, ~ serving key reports_of reports_at (version served) r)
           /\ exists until kept, keep_until i = Some until /\ now < until /\ written_programmed status = Some kept /\ says_true kept).
Proof.
  cbn zeta. unfold gateway_status. set (i := status_inputs _ _ _ _ _ _ _ _ _ _ _ _ _ _ _ _ _ _).
  assert (Hserv : forall served r, r ∈ at_served i served <-> serving key reports_of reports_at (version served) r)
    by (intros; by apply at_served_serving).
  assert (Hnil : forall served, at_served i served = [] <-> forall r, ~ serving key reports_of reports_at (version served) r).
  { intros served. setoid_rewrite <- Hserv. destruct (at_served i served) as [|r rs]; [split; [|done]; intros _ r; apply not_elem_of_nil|].
    split; [done|]. intros H. destruct (H r). left. }
  assert (Hsome : forall served, at_served i served <> [] <-> exists r, serving key reports_of reports_at (version served) r).
  { intros served. setoid_rewrite <- Hserv. destruct (at_served i served) as [|r rs]; [split; [done|by intros (r & ?%not_elem_of_nil)]|].
    split; [|done]. intros _. exists r. left. }
  assert (Hsvc : (forall s, i_service i = Some s -> unassigned (ServiceView_of s) gateway = None)
    <-> forall s, service = Some s -> fs_deleting s = false -> unassigned (ServiceView_of s) gateway = None).
  { change (i_service i) with (s ← service; if fs_deleting s then None else Some s). destruct service as [s|]; [|by split; intros ? ? [=]].
    cbn [mbind option_bind]. destruct (fs_deleting s) eqn:D; (split; intros H s' [= <-]); [congruence|intros _; by apply H|by apply H]. }
  rewrite programmed_exact. unfold unopposed, standing. setoid_rewrite Hsome. setoid_rewrite Hnil.
  setoid_rewrite (backed_iff _ _ _ _ _ (Hserv _)). change (i_gateway i) with gateway. rewrite Hsvc. cbn. tauto.
Qed.

(** ** Keeping a Programmed *)

(** The same inputs at another time, with another status in the store. *)
Definition at_time (i : Inputs) (status : option Value) (now : Z) : Inputs := {|
  i_gateway := i_gateway i; i_status := status; i_accepted := i_accepted i; i_listeners := i_listeners i; i_attached := i_attached i;
  i_problem := i_problem i; i_unpublished := i_unpublished i; i_served := i_served i; i_reports := i_reports i; i_older := i_older i;
  i_service := i_service i; i_published_at := i_published_at i; i_first_published := i_first_published i;
  i_leading_since := i_leading_since i; i_last_leaving := i_last_leaving i; i_now := now |}.

Definition past (now : Z) (t : option Z) : Prop := forall x, t = Some x -> x <= now.

Lemma max_opt_le l now : Forall (fun x => x <= now) l -> past now (max_opt l).
Proof.
  destruct l as [|y l]; [by intros _ x|]. intros H x [= <-]. apply Forall_cons in H as [Hy H]. revert y Hy.
  induction H as [|z l Hz _ IH]; intros y Hy; cbn; [done|]. apply IH. lia.
Qed.

Lemma opt_list_past now t : past now t -> Forall (fun x => x <= now) (opt_list t).
Proof. destruct t as [x|]; cbn; [|constructor]. intros H. constructor; [by apply H|constructor]. Qed.

Lemma keep_until_bound i until : past (i_now i) (i_published_at i) -> past (i_now i) (i_last_leaving i) -> past (i_now i) (i_first_published i) ->
  past (i_now i) (i_leading_since i) -> keep_until i = Some until -> until <= i_now i + TAKEOVER_KEEP.
Proof.
  intros H1 H2 H3 H4. unfold keep_until.
  match goal with |- context [max_opt ?l] => assert (Hm : past (i_now i) (max_opt l)) end.
  { apply max_opt_le. rewrite !Forall_app. split_and!; apply opt_list_past; [|done..]. by destruct (negb (is_nil (i_reports i))). }
  destruct (max_opt _) as [m|]; cbn.
  - specialize (Hm m eq_refl). assert (KEEP <= TAKEOVER_KEEP) by (by vm_compute).
    destruct (negb (negb _)); [destruct (i_leading_since i) as [t|]; [specialize (H4 t eq_refl)|]|]; cbn; intros [= <-]; lia.
  - destruct (negb (negb _)); [destruct (i_leading_since i) as [t|]; [specialize (H4 t eq_refl)|]|]; cbn; intros [= <-]; lia.
Qed.

(** C11: A Programmed kept for want of an instance at the served version lapses
    by itself. While every time it rests on is past, the status names when to
    look again, at most two holds from now; and from then on, with nothing
    published, reported or gained meanwhile, the Gateway is no longer
    Programmed, whatever the store says. *)
Theorem kept_programmed_lapses (error_text : ReportError -> list Z) (i : Inputs) (served : Snapshot) :
  past (i_now i) (i_published_at i) -> past (i_now i) (i_last_leaving i) -> past (i_now i) (i_first_published i) ->
  past (i_now i) (i_leading_since i) -> i_served i = Some served -> at_served i served = [] ->
  gs_programmed (decide_status error_text i) = true ->
  exists d, gs_recheck (decide_status error_text i) = Some d /\ 0 < d <= 2 * HOLD
  /\ forall status now, i_now i + d <= now -> gs_programmed (decide_status error_text (at_time i status now)) = false.
Proof.
  intros H1 H2 H3 H4 Hs Ha Hp. apply programmed_exact in Hp as (Hu & s & Hs' & [[? _]|(_ & until & kept & Hk & Hn & Hw & _)]); [congruence|].
  rewrite Hs in Hs'. injection Hs' as <-. pose proof (keep_until_bound i until H1 H2 H3 H4 Hk) as Hb.
  assert (HT : TAKEOVER_KEEP = 2 * HOLD) by (by vm_compute). exists (saturating_since until (i_now i)). split_and!.
  - destruct (evaluate error_text i (ServiceView_of <$> i_service i)) as [[[verdict a] ls] marked] eqn:E.
    destruct (decided_by_verdict error_text i verdict a ls marked Hu E) as [_ ->]. unfold evaluate in E. rewrite Hs, Ha, Hk in E. cbn in E.
    rewrite (proj2 (Z.ltb_lt _ _) Hn) in E. injection E as <- _ _ _. by rewrite Hw.
  - unfold saturating_since. lia.
  - unfold saturating_since. lia.
  - intros status now Hnow. unfold saturating_since in Hnow. apply not_true_iff_false. rewrite programmed_exact.
    intros (_ & s & Hs' & [[Hne _]|(_ & until' & kept' & Hk' & Hn' & _)]).
    + change (i_served (at_time i status now)) with (i_served i) in Hs'. rewrite Hs in Hs'. injection Hs' as <-. by apply Hne.
    + change (keep_until (at_time i status now)) with (keep_until i) in Hk'. rewrite Hk in Hk'. injection Hk' as <-. cbn in Hn'. lia.
Qed.

(** ** At work *)

Definition http_listener : GatewayListeners := {|
  gl_name := bs "http"; gl_port := 80; gl_protocol := bs "HTTP"; gl_hostname := None; gl_tls := None; gl_allowed_routes := None |}.

Definition http_gateway : Gateway := {|
  gw_metadata := {| meta_name := Some (bs "gw"); meta_namespace := Some (bs "default"); meta_uid := Some (bs "u"); meta_generation := Some 2; creation_timestamp := None |};
  gw_addresses := None; gw_listeners := [http_listener] |}.

Definition http_snapshot : Snapshot := {|
  s_protocol := PROTOCOL; version := bs "v2"; s_gateway := {| gr_namespace := bs "default"; gr_name := bs "gw"; gr_uid := bs "u"; gr_generation := 2 |};
  s_config := with_listeners sample_config [listener_config (bs "http") HTTP 80 None]; certificates := [];
  s_backends := {| b_headless_target_ports := []; b_external_names := []; b_app_protocols := [] |}; s_networks := [] |}.

Definition http_report (v : list Z) (is_bound : bool) : InstanceReport := {|
  applied := v; apply_error := None;
  lrs := [{| lr_name := bs "http"; lr_endpoints := [{| er_address := None; er_port := 80; er_transport := Tcp; er_bound := is_bound; er_error := None |}] |}];
  interface_ips := [bs "10.0.0.7"]; networks := ∅; r_dns_epoch := 0; leaving := false |}.

Definition http_inputs (reports : list (InstanceId * InstanceReport)) (status : option Value) : Inputs := {|
  i_gateway := http_gateway; i_status := status; i_accepted := GatewayCondition_ok (bs "Accepted") [];
  i_listeners := (validate_gateway http_gateway (bs "default") {| rc_valid := ∅; rc_errors := ∅ |}).1; i_attached := ∅; i_problem := None;
  i_unpublished := None; i_served := Some http_snapshot; i_reports := reports; i_older := None; i_service := None;
  i_published_at := Some 100; i_first_published := Some 50; i_leading_since := Some 10; i_last_leaving := None; i_now := 200 |}.

Definition said_programmed : option Value :=
  Some (object [(bs "conditions", VArray [condition (bs "Programmed") true (bs "Programmed") (bs "Programmed") (Some 1)])]).

(** Bound, it is programmed and its address known; not bound, it is not. *)
Example bound_is_programmed :
  let st := decide_status (fun _ => []) (http_inputs [(bs "pod", http_report (bs "v2") true)] None) in
  gs_programmed st = true /\ gs_recheck st = None /\ index (gs_desired st) (bs "addresses") = VArray [address (bs "IPAddress") (bs "10.0.0.7")]
  /\ gs_programmed (decide_status (fun _ => []) (http_inputs [(bs "pod", http_report (bs "v2") false)] None)) = false.
Proof. vm_compute. auto. Qed.

Lemma kept_programmed_lapses_witness :
  exists d, 0 < d <= 2 * HOLD
  /\ gs_programmed (decide_status (fun _ => []) (http_inputs [(bs "pod", http_report (bs "v1") true)] said_programmed)) = true
  /\ gs_programmed (decide_status (fun _ => []) (at_time (http_inputs [(bs "pod", http_report (bs "v1") true)] said_programmed) said_programmed (200 + d))) = false.
Proof.
  destruct (kept_programmed_lapses (fun _ => []) (http_inputs [(bs "pod", http_report (bs "v1") true)] said_programmed) http_snapshot)
    as (d & _ & Hd & H); try (intros x [= <-]; cbn; lia); [reflexivity|vm_compute; reflexivity|vm_compute; reflexivity|].
  exists d. split; [exact Hd|]. split; [vm_compute; reflexivity|]. apply H. cbn. lia.
Defined.
