(* ===== verification/Provision.v ===== *)
(** * Provisioning a Gateway's data plane

    [src/src/kubernetes/controller/provision/mod.rs]: the ServiceAccount,
    Deployment, Service and PodDisruptionBudget of a Managed Gateway, applied
    when every name is free or ours, and deleted when obsolete. A pass is a
    program over what it asks and tells its surroundings, [ProvE]: the caches,
    the API server and the records of what was applied, all of which change
    while it runs. A small logic over such programs says what a pass may
    call; a world of objects, stale caches and other writers says what its
    calls then touch. The objects rendered are an argument. The API server is
    what Kubernetes documents of it: an apply or a delete that names a uid is
    refused unless the object has it. Log lines are left out. *)

From S2P Require Import Prelude Bytes HttpFilters Config GatewayApi Converters DataPlane Snapshot Apply Ports Auth Status Certificates Programmed.

(** ** Objects *)

Inductive Kind := KServiceAccount | KDeployment | KService | KPodDisruptionBudget.

#[export] Instance Kind_eq_dec : EqDecision Kind.
Proof. solve_decision. Defined.
#[export] Instance Kind_countable : Countable Kind.
Proof.
  refine (inj_countable' (fun k => match k with KServiceAccount => 0%nat | KDeployment => 1%nat | KService => 2%nat | KPodDisruptionBudget => 3%nat end)
            (fun n => match n with 0%nat => KServiceAccount | 1%nat => KDeployment | 2%nat => KService | _ => KPodDisruptionBudget end) _).
  by intros [].
Defined.

Definition Kind_name (k : Kind) : list Z :=
  match k with
  | KServiceAccount => bs "ServiceAccount" | KDeployment => bs "Deployment" | KService => bs "Service"
  | KPodDisruptionBudget => bs "PodDisruptionBudget"
  end.

Record OwnerReference := {
  own_api_version : list Z;
  own_kind : list Z;
  own_name : list Z;
  own_uid : list Z;
  own_controller : option bool;
}.

(** [ObjectMeta], with what provisioning reads of it. *)
Record PMeta := {
  pm_name : option (list Z);
  pm_namespace : option (list Z);
  pm_uid : option (list Z);
  pm_generation : option Z;
  pm_resource_version : option (list Z);
  pm_labels : option (gmap (list Z) (list Z));
  pm_owners : option (list OwnerReference);
}.

#[export] Instance OwnerReference_eq_dec : EqDecision OwnerReference.
Proof. solve_decision. Defined.
#[export] Instance PMeta_eq_dec : EqDecision PMeta.
Proof. solve_decision. Defined.

Definition Kind_version (k : Kind) (m : PMeta) : list Z :=
  match k with
  | KDeployment | KPodDisruptionBudget => default [] (print_i64 <$> pm_generation m)
  | KServiceAccount | KService => default [] (pm_resource_version m)
  end.

Definition LABEL_MANAGED_BY : list Z := bs "app.kubernetes.io/managed-by".
Definition MANAGED_BY : list Z := bs "portail-controller".
Definition LABEL_CONTROLLER : list Z := bs "portail.epheo.eu/controller-name".

Definition controller_owner (m : PMeta) : option OwnerReference :=
  List.find (fun o => bool_decide (own_controller o = Some true) && beq (own_kind o) (bs "Gateway")
                      && starts_with (bs "gateway.networking.k8s.io/") (own_api_version o)) (default [] (pm_owners m)).

(** The name and namespace of the Gateway an owned object's controller
    ownerReference names. *)
Definition controller_gateway (m : PMeta) : option (list Z * list Z) :=
  owner ← controller_owner m; ns ← pm_namespace m; Some (own_name owner, ns).

Definition label (m : PMeta) (key : list Z) : option (list Z) := labels ← pm_labels m; labels !! key.

Definition is_ours (m : PMeta) (gateway_uid install : list Z) : bool :=
  bool_decide (label m LABEL_CONTROLLER = Some install)
  && match controller_owner m with Some o => negb (is_nil gateway_uid) && beq (own_uid o) gateway_uid | None => false end.

Inductive LiveObject := Absent | Ours (uid version : list Z) | Stale | Foreign.

Definition name_any (gateway : Gateway) : list Z := default [] (meta_name (gw_metadata gateway)).
Definition gateway_uid (gateway : Gateway) : list Z := default [] (meta_uid (gw_metadata gateway)).
Definition gateway_ns (gateway : Gateway) : list Z := default (bs "default") (meta_namespace (gw_metadata gateway)).

Definition judge_object (k : Kind) (m : option PMeta) (gateway : Gateway) (install : list Z) : LiveObject :=
  match m with
  | None => Absent
  | Some m =>
      if is_ours m (gateway_uid gateway) install then Ours (default [] (pm_uid m)) (Kind_version k m)
      else match controller_owner m with
           | Some o => if beq (own_name o) (name_any gateway) && bool_decide (label m LABEL_CONTROLLER = Some install) then Stale else Foreign
           | None => Foreign
           end
  end.

(** [kube::Error]: the API server's answer, or anything else. *)
Inductive KubeError := ApiError (code : Z) (message : list Z) | OtherError.

Inductive Failure := Retry | RefusedCall (message : list Z).

Definition Failure_of (e : KubeError) (what : list Z) : Failure :=
  match e with
  | ApiError code message =>
      if (400 <=? code) && (code <? 500) && negb ((code =? 408) || (code =? 409) || (code =? 429))
      then RefusedCall (what ++ bs ": " ++ message) else Retry
  | OtherError => Retry
  end.

Record AppliedObject := { ao_uid : list Z; ao_version : list Z; ao_hash : list Z }.

#[export] Instance AppliedObject_eq_dec : EqDecision AppliedObject.
Proof. solve_decision. Defined.

Record Wanted := { w_kind : Kind; w_body : Value }.

Record Provisioned := { pv_bound_ports : gmap (Transport * Z) Z; pv_problem : option (list Z) }.

Definition Provisioned_unmanaged : Provisioned := {| pv_bound_ports := ∅; pv_problem := None |}.

(** [stamp]: listeners get their bound ports. *)
Definition stamp_listener (p : Provisioned) (l : ListenerConfig) : ListenerConfig :=
  {| l_name := l_name l; l_protocol := l_protocol l; l_port := l_port l; l_target_port := pv_bound_ports p !! (Transport_of (l_protocol l), l_port l);
     l_hostname := l_hostname l; l_address := l_address l; l_interface := l_interface l; l_tls := l_tls l; l_rate_limit := l_rate_limit l |}.

(** ** The records of what was applied *)

Abbreviation AppliedObjects := (gmap (list Z) (gmap Kind AppliedObject)).

Definition record_applied (gateway_uid : list Z) (k : Kind) (r : option AppliedObject) (applied : AppliedObjects) : AppliedObjects :=
  let kinds := default ∅ (applied !! gateway_uid) in
  let kinds := match r with Some r => <[k := r]> kinds | None => delete k kinds end in
  if bool_decide (kinds = ∅) then delete gateway_uid applied else <[gateway_uid := kinds]> applied.

Definition forget_deleted (k : Kind) (m : PMeta) (applied : AppliedObjects) : AppliedObjects :=
  match controller_owner m with
  | None => applied
  | Some owner =>
      if bool_decide (k = KDeployment) then delete (own_uid owner) applied
      else match applied !! own_uid owner with
           | Some kinds =>
               let kinds := delete k kinds in
               if bool_decide (kinds = ∅) then delete (own_uid owner) applied else <[own_uid owner := kinds]> applied
           | None => applied
           end
  end.

Definition prune_relisted (deployments : list PMeta) (applied : AppliedObjects) : AppliedObjects :=
  let owners : gset (list Z) := list_to_set (omap (fun d => own_uid <$> controller_owner d) deployments) in
  filter (fun '(uid, _) => uid ∈ owners) applied.

(** ** A pass as a program *)

(** What a pass asks and tells. The reads and writes of the records name the
    Gateway's uid in the code; objects are those of the Gateway's namespace. *)
Inductive ProvE : Type -> Type :=
  | CachedService : ProvE (option (PMeta * list ServicePort))
  | Cached (k : Kind) : ProvE (option PMeta)
  | GetMetadata (k : Kind) : ProvE (result PMeta KubeError)
  | ReadApplied (k : Kind) : ProvE (option AppliedObject)
  | ApplyObject (w : Wanted) (taken : option (list Z)) : ProvE (result PMeta KubeError)
  | RecordApplied (k : Kind) (r : option AppliedObject) : ProvE unit
  | ListCached : ProvE (list (Kind * PMeta))
  | DeleteObject (k : Kind) (name : list Z) (uid : option (list Z)) : ProvE (result unit KubeError)
  | RetryLater : ProvE unit.

Inductive Prog (A : Type) : Type :=
  | Ret (a : A)
  | Vis (X : Type) (e : ProvE X) (k : X -> Prog A).
Arguments Ret {A} a.
Arguments Vis {A X} e k.

Fixpoint bind {A B} (p : Prog A) (f : A -> Prog B) : Prog B :=
  match p with Ret a => f a | Vis e k => Vis e (fun x => bind (k x) f) end.

Definition ask {X} (e : ProvE X) : Prog X := Vis e Ret.

Declare Scope prog_scope.
Delimit Scope prog_scope with prog.
Notation "x <- p ;; q" := (bind p (fun x => q)) (at level 100, p at next level, right associativity, format "x  <-  p ;;  '//' q") : prog_scope.
Notation "p ;; q" := (bind p (fun _ => q)) (at level 100, right associativity) : prog_scope.
#[local] Open Scope prog_scope.

Definition get_metadata (k : Kind) : Prog (result (option PMeta) KubeError) :=
  answer <- ask (GetMetadata k) ;;
  Ret (match answer with
       | Ok m => Ok (Some m)
       | Err (ApiError 404 _) => Ok None
       | Err e => Err e
       end).

Section Pass.
Context {SE : Sealing} (value_text : Value -> list Z) (gateway : Gateway) (deleting : bool) (install : list Z).

Definition object_name : list Z := resource_name (name_any gateway).
Definition named (k : Kind) : list Z := slashed (Kind_name k) object_name.

Definition read_object (k : Kind) : Prog (result (option PMeta) KubeError) :=
  cached <- ask (Cached k) ;;
  match cached with
  | Some m => Ret (Ok (Some m))
  | None => if bool_decide (k = KService) then Ret (Ok None) else get_metadata k
  end.

(** The variables of the preflight loop. *)
Record Preflight := { pf_live : list LiveObject; pf_conflicts : list (list Z); pf_stale : bool }.

Definition judge_into (k : Kind) (m : option PMeta) (st : Preflight) : Preflight :=
  match judge_object k m gateway install with
  | Stale => {| pf_live := pf_live st; pf_conflicts := pf_conflicts st ++ [named k]; pf_stale := true |}
  | Foreign => {| pf_live := pf_live st; pf_conflicts := pf_conflicts st ++ [named k]; pf_stale := pf_stale st |}
  | state => {| pf_live := pf_live st ++ [state]; pf_conflicts := pf_conflicts st; pf_stale := pf_stale st |}
  end.

Fixpoint preflight (wanted : list Wanted) (st : Preflight) : Prog (result Preflight Failure) :=
  match wanted with
  | [] => Ret (Ok st)
  | w :: rest =>
      meta <- read_object (w_kind w) ;;
      match meta with
      | Err e => Ret (Err (Failure_of e (bs "reading " ++ named (w_kind w))))
      | Ok m => preflight rest (judge_into (w_kind w) m st)
      end
  end.

Definition conflict_problem (st : Preflight) : list Z :=
  match pf_conflicts st with
  | [one] => bs "name conflict: " ++ one ++ bs " is not owned by this Gateway"
  | many => bs "name conflict: " ++ joined (bs ", ") many ++ bs " are not owned by this Gateway"
  end
  ++ (if pf_stale st then bs " (a deleted Gateway of the same name owns some; they go with its garbage collection)" else []).

(** One wanted object applied, unless its record says it is as it should be. *)
Definition apply_wanted (w : Wanted) (taken : option (list Z)) (hash : list Z) : Prog (result unit Failure) :=
  answer <- ask (ApplyObject w taken) ;;
  match answer with
  | Err e => ask (RecordApplied (w_kind w) None) ;; Ret (Err (Failure_of e (bs "applying " ++ named (w_kind w))))
  | Ok m =>
      ask (RecordApplied (w_kind w) (Some {| ao_uid := default [] (pm_uid m); ao_version := Kind_version (w_kind w) m; ao_hash := hash |})) ;;
      Ret (Ok tt)
  end.

Definition bring_in_line (w : Wanted) (state : LiveObject) : Prog (result unit Failure) :=
  let hash := sha256_hex (value_text (w_body w)) in
  match state with
  | Ours uid version =>
      let current := {| ao_uid := uid; ao_version := version; ao_hash := hash |} in
      record <- ask (ReadApplied (w_kind w)) ;;
      if bool_decide (record = Some current) then Ret (Ok tt) else apply_wanted w (Some uid) hash
  | _ => apply_wanted w None hash
  end.

Fixpoint apply_all (todo : list (Wanted * LiveObject)) : Prog (result unit Failure) :=
  match todo with
  | [] => Ret (Ok tt)
  | (w, state) :: rest =>
      applied <- bring_in_line w state ;;
      match applied with Err e => Ret (Err e) | Ok _ => apply_all rest end
  end.

Definition deletable (cached : list (Kind * PMeta)) (uid : list Z) : list (Kind * PMeta) :=
  List.filter (fun km => bool_decide (pm_namespace km.2 = Some (gateway_ns gateway)) && is_ours km.2 uid install
                         && bool_decide (label km.2 LABEL_MANAGED_BY = Some MANAGED_BY)) cached.

Definition kept (keep : list (Kind * list Z)) (km : Kind * PMeta) : bool := bool_decide ((km.1, default [] (pm_name km.2)) ∈ keep).

Fixpoint delete_each (keep : list (Kind * list Z)) (todo : list (Kind * PMeta)) : Prog (result unit Failure) :=
  match todo with
  | [] => Ret (Ok tt)
  | (k, m) :: rest =>
      let name := default [] (pm_name m) in
      if kept keep (k, m) then delete_each keep rest
      else
        answer <- ask (DeleteObject k name (pm_uid m)) ;;
        match answer with
        | Ok _ | Err (ApiError 404 _) | Err (ApiError 409 _) => ask (RecordApplied k None) ;; delete_each keep rest
        | Err e => Ret (Err (Failure_of e (bs "deleting " ++ slashed (Kind_name k) name)))
        end
  end.

Definition delete_all_but (keep : list (Kind * list Z)) : Prog (result unit Failure) :=
  match meta_uid (gw_metadata gateway) with
  | None => Ret (Ok tt)
  | Some uid => cached <- ask ListCached ;; delete_each keep (deletable cached uid)
  end.

(** The ports the Service of the Gateway targets, if it is ours. *)
Definition owned_targets : Prog (gmap (Transport * Z) Z) :=
  match meta_uid (gw_metadata gateway) with
  | None => Ret ∅
  | Some uid =>
      service <- ask CachedService ;;
      Ret (match service with Some (m, ports) => if is_ours m uid install then existing_targets ports else ∅ | None => ∅ end)
  end.

(** [desired] are the objects rendered for the ports there are. *)
Definition provision (desired : gmap (Transport * Z) Z -> list Wanted * gmap (Transport * Z) Z) : Prog (result Provisioned Failure) :=
  existing <- owned_targets ;;
  let '(wanted, bound_ports) := desired existing in
  let provisioned := Ok {| pv_bound_ports := bound_ports; pv_problem := None |} in
  if deleting then Ret provisioned
  else
    read <- preflight wanted {| pf_live := []; pf_conflicts := []; pf_stale := false |} ;;
    match read with
    | Err e => Ret (Err e)
    | Ok st =>
        if negb (is_nil (pf_conflicts st)) then Ret (Ok {| pv_bound_ports := ∅; pv_problem := Some (conflict_problem st) |})
        else
          applied <- apply_all (combine wanted (pf_live st)) ;;
          match applied with
          | Err e => Ret (Err e)
          | Ok _ =>
              deleted <- delete_all_but (map (fun w => (w_kind w, object_name)) wanted) ;;
              Ret (match deleted with Err e => Err e | Ok _ => provisioned end)
          end
    end.

Definition reconcile_objects (unmanaged : bool) (desired : gmap (Transport * Z) Z -> list Wanted * gmap (Transport * Z) Z) : Prog Provisioned :=
  result <- (if unmanaged
             then deleted <- delete_all_but [] ;; Ret (match deleted with Ok _ => Ok Provisioned_unmanaged | Err e => Err e end)
             else provision desired) ;;
  let live := if unmanaged then Ret ∅ else owned_targets in
  match result with
  | Ok provisioned => Ret provisioned
  | Err (RefusedCall problem) => ports <- live ;; Ret {| pv_bound_ports := ports; pv_problem := Some problem |}
  | Err Retry => ask RetryLater ;; ports <- live ;; Ret {| pv_bound_ports := ports; pv_problem := None |}
  end.

Definition release : Prog (result unit Failure) := delete_all_but [].

End Pass.

(** ** What a pass may call *)

(** What a pass has learnt: what it found under the names it wants, what the
    caches listed, and whether it has applied anything. *)
Record Facts := { f_read : list (Kind * option PMeta); f_listed : list (Kind * PMeta); f_applied : bool }.

Definition no_facts : Facts := {| f_read := []; f_listed := []; f_applied := false |}.

Definition found (k : Kind) (m : option PMeta) (g : Facts) : Facts :=
  {| f_read := (k, m) :: f_read g; f_listed := f_listed g; f_applied := f_applied g |}.

(** The Services are all cached: of them, an empty cache says there is none. *)
Definition learn {X} (e : ProvE X) : X -> Facts -> Facts :=
  match e with
  | Cached k => fun m g => match m with Some m => found k (Some m) g | None => if bool_decide (k = KService) then found k None g else g end
  | GetMetadata k => fun r g => match r with Ok m => found k (Some m) g | Err (ApiError 404 _) => found k None g | Err _ => g end
  | ApplyObject _ _ => fun _ g => {| f_read := f_read g; f_listed := f_listed g; f_applied := true |}
  | ListCached => fun l g => {| f_read := f_read g; f_listed := l ++ f_listed g; f_applied := f_applied g |}
  | _ => fun _ g => g
  end.

Section Logic.
Context {SE : Sealing} (value_text : Value -> list Z) (gateway : Gateway) (deleting : bool) (install : list Z).

Abbreviation ours := (fun m => is_ours m (gateway_uid gateway) install = true).

(** Reads of wanted names all come before the first apply. Nothing is applied
    once one of them is not ours; an object is forced only where ours was
    found, by its uid, and one not found is applied without force. What is
    deleted is ours, managed by this controller, in the Gateway's namespace
    and not wanted, and named by its uid. *)
Definition allowed {X} (e : ProvE X) (g : Facts) : Prop :=
  match e with
  | Cached _ | GetMetadata _ => f_applied g = false
  | ApplyObject w taken =>
      (forall k m, (k, Some m) ∈ f_read g -> ours m)
      /\ match taken with
         | Some uid => exists m, (w_kind w, Some m) ∈ f_read g /\ default [] (pm_uid m) = uid
         | None => (w_kind w, None) ∈ f_read g
         end
  | DeleteObject k name uid =>
      exists m, (k, m) ∈ f_listed g /\ pm_namespace m = Some (gateway_ns gateway) /\ ours m /\ label m LABEL_MANAGED_BY = Some MANAGED_BY
        /\ name = default [] (pm_name m) /\ uid = pm_uid m
        /\ (name = object_name gateway -> forall found, (k, found) ∉ f_read g)
  | _ => True
  end.

(** Whatever is answered, every call is allowed by what was learnt before. *)
Fixpoint wp {A} (p : Prog A) (g : Facts) (Q : A -> Facts -> Prop) : Prop :=
  match p with
  | Ret a => Q a g
  | Vis e k => allowed e g /\ forall x, wp (k x) (learn e x g) Q
  end.

Lemma wp_mono {A} (p : Prog A) g (Q R : A -> Facts -> Prop) : (forall a g, Q a g -> R a g) -> wp p g Q -> wp p g R.
Proof. intros H. revert g. induction p as [a|X e k IH]; intros g; cbn; [apply H|]. intros [Ha Hk]. split; [done|]. intros x. apply IH, Hk. Qed.

Lemma wp_bind {A B} (p : Prog A) (f : A -> Prog B) g Q : wp p g (fun a g => wp (f a) g Q) -> wp (bind p f) g Q.
Proof. revert g. induction p as [a|X e k IH]; intros g; cbn; [done|]. intros [Ha Hk]. split; [done|]. intros x. apply IH, Hk. Qed.

Lemma wp_ask {X} (e : ProvE X) g Q : allowed e g -> (forall x, Q x (learn e x g)) -> wp (ask e) g Q.
Proof. done. Qed.

Lemma deletable_spec cached uid km : km ∈ deletable gateway install cached uid ->
  km ∈ cached /\ pm_namespace km.2 = Some (gateway_ns gateway) /\ is_ours km.2 uid install = true /\ label km.2 LABEL_MANAGED_BY = Some MANAGED_BY.
Proof.
  unfold deletable. rewrite elem_of_filter_b, !andb_true_iff, !bool_decide_eq_true. tauto.
Qed.

Lemma wp_delete_each keep todo g :
  (forall k m, (k, m) ∈ todo -> (k, m) ∈ f_listed g /\ pm_namespace m = Some (gateway_ns gateway) /\ ours m /\ label m LABEL_MANAGED_BY = Some MANAGED_BY) ->
  (forall k m, (k, m) ∈ f_read g -> (k, object_name gateway) ∈ keep) ->
  wp (delete_each keep todo) g (fun _ _ => True).
Proof.
  revert g. induction todo as [|[k m] todo IH]; intros g Htodo Hkeep; cbn [delete_each]; [done|].
  destruct (kept keep (k, m)) eqn:K; [apply IH; [|done]; intros k' m' H; apply Htodo; by right|].
  destruct (Htodo k m) as (H1 & H2 & H3 & H4); [left|].
  apply wp_bind, wp_ask.
  - exists m. split_and!; try done. intros Hn found Hin. apply Hkeep in Hin. unfold kept in K. cbn in K. bool_simpl. by rewrite Hn in K.
  - intros x. cbn. assert (HIH : wp (delete_each keep todo) g (fun _ _ => True)) by (apply IH; [|done]; intros k' m' H; apply Htodo; by right).
    destruct x as [u|[code message|]]; [by cbn| |done]. repeat (case_match; try done; try by cbn).
Qed.

Lemma wp_delete_all_but keep g : (forall k m, (k, m) ∈ f_read g -> (k, object_name gateway) ∈ keep) ->
  wp (delete_all_but gateway install keep) g (fun _ _ => True).
Proof.
  intros Hkeep. unfold delete_all_but. destruct (meta_uid (gw_metadata gateway)) as [uid|] eqn:Hu; [|done].
  apply wp_bind, wp_ask; [done|]. intros cached. apply wp_delete_each; [|done]. intros k m H. apply deletable_spec in H as (H1 & H2 & H3 & H4).
  cbn in *. split_and!; [by apply elem_of_app; left|done| |done]. unfold gateway_uid. by rewrite Hu.
Qed.

Lemma wp_owned_targets g Q : (forall x, Q x g) -> wp (owned_targets gateway install) g Q.
Proof.
  intros H. unfold owned_targets. destruct (meta_uid _); [|apply H]. apply wp_bind, wp_ask; [done|]. intros x. cbn. apply H.
Qed.

Lemma wp_read_object k g Q : f_applied g = false -> (forall e, Q (Err e) g) ->
  (forall m, Q (Ok m) (found k m g)) -> wp (read_object k) g Q.
Proof.
  intros Ha He Hm. unfold read_object. apply wp_bind, wp_ask; [done|]. intros [m|]; [apply Hm|]. cbn [learn].
  case_bool_decide; [apply Hm|]. unfold get_metadata. apply wp_bind, wp_ask; [done|]. intros [m|[code message|]]; cbn; [apply Hm| |apply He].
  repeat (case_match; try apply He; try apply Hm).
Qed.

(** What the preflight left of a wanted object. *)
Definition judged (g : Facts) (w : Wanted) (state : LiveObject) : Prop :=
  match state with
  | Absent => (w_kind w, None) ∈ f_read g
  | Ours uid _ => exists m, (w_kind w, Some m) ∈ f_read g /\ default [] (pm_uid m) = uid
  | _ => False
  end.

Definition clean (g : Facts) : Prop := forall k m, (k, Some m) ∈ f_read g -> ours m.

Lemma judged_mono g g' w state : f_read g ⊆ f_read g' -> judged g w state -> judged g' w state.
Proof. intros H. destruct state; cbn; [apply H| |done..]. intros (m & Hm & ?). exists m. split; [by apply H|done]. Qed.

Lemma judge_into_clean w m st g : pf_conflicts (judge_into gateway install (w_kind w) m st) = [] ->
  pf_conflicts st = [] /\ (clean g -> clean (found (w_kind w) m g))
  /\ exists state, pf_live (judge_into gateway install (w_kind w) m st) = pf_live st ++ [state] /\ judged (found (w_kind w) m g) w state.
Proof.
  unfold judge_into, judge_object. destruct m as [m|].
  - destruct (is_ours m (gateway_uid gateway) install) eqn:O; cbn.
    + intros Hc. split_and!; [done| |eexists; split; [done|]; cbn; exists m; split; [left|done]].
      intros Hg k m' [[= -> ->]|H]%elem_of_cons; [done|by eapply Hg].
    + destruct (controller_owner m) as [o|]; [destruct (_ && _)|]; cbn; by intros []%app_eq_nil.
  - cbn. intros Hc. split_and!; [done| |eexists; split; [done|]; cbn; left]. intros Hg k m' [[=]|H]%elem_of_cons. by eapply Hg.
Qed.

Lemma wp_preflight (all : list Kind) wanted st g : f_applied g = false -> (forall k m, (k, m) ∈ f_read g -> k ∈ all) -> (forall w, w ∈ wanted -> w_kind w ∈ all) ->
  wp (preflight gateway install wanted st) g (fun r g' =>
    f_applied g' = false /\ (forall k m, (k, m) ∈ f_read g' -> k ∈ all)
    /\ match r with
       | Err _ => True
       | Ok st' => pf_conflicts st' = [] ->
           pf_conflicts st = [] /\ (clean g -> clean g') /\ f_read g ⊆ f_read g'
           /\ exists ls, pf_live st' = pf_live st ++ ls /\ Forall2 (judged g') wanted ls
       end).
Proof.
  revert st g. induction wanted as [|w wanted IH]; intros st g Ha Hk Hw.
  { cbn. split_and!; [done..|]. intros ->. split_and!; [done..|]. exists []. by rewrite app_nil_r. }
  cbn [preflight]. apply wp_bind, wp_read_object; [done|by cbn|]. intros m.
  eapply wp_mono; [|apply IH; [done| |intros w' H; apply Hw; by right]].
  2: { cbn. intros k m' [[= -> ->]|H]%elem_of_cons; [apply Hw; left|by eapply Hk]. }
  intros r g' (H1 & H2 & H3). split_and!; [done..|]. destruct r as [st'|]; [|done]. intros Hc.
  destruct (H3 Hc) as (Hc1 & Hcl & Hsub & ls & Hls & HF). destruct (judge_into_clean w m st g Hc1) as (Hc0 & Hcl0 & state & Es & Hj).
  split_and!; [done|auto|intros x Hx; apply Hsub; by right|]. exists (state :: ls).
  split; [rewrite Hls, Es, <- app_assoc; done|]. constructor; [by eapply judged_mono|done].
Qed.

Lemma wp_apply_wanted w taken hash g Q : allowed (ApplyObject w taken) g ->
  (forall r, Q r {| f_read := f_read g; f_listed := f_listed g; f_applied := true |}) -> wp (apply_wanted gateway w taken hash) g Q.
Proof.
  intros Ha HQ. unfold apply_wanted. apply wp_bind, wp_ask; [done|]. intros [m|e]; (apply wp_bind, wp_ask; [done|]; intros u; apply HQ).
Qed.

Lemma wp_apply_all wanted ls g : clean g -> Forall2 (judged g) wanted ls ->
  wp (apply_all value_text gateway (combine wanted ls)) g (fun _ g' => f_read g' = f_read g).
Proof.
  intros Hc HF. revert g Hc HF. revert ls. induction wanted as [|w wanted IH]; intros ls g Hc HF; inversion HF as [|? state ? ls' Hj HF']; subst; [done|].
  cbn [combine apply_all]. apply wp_bind.
  assert (Hgo : forall (r : result unit Failure) g', f_read g' = f_read g ->
    wp (match r with Ok _ => apply_all value_text gateway (combine wanted ls') | Err e => Ret (Err e) end) g' (fun _ g'' => f_read g'' = f_read g)).
  { intros [u|e] g' Hg; [|done]. eapply wp_mono; [|apply IH]; [by cbn; intros _ g'' ->|intros k m; rewrite Hg; apply Hc|].
    eapply Forall2_impl; [exact HF'|]. intros w' s. apply judged_mono. by rewrite Hg. }
  unfold bring_in_line. destruct state as [|uid version| |]; [..|done|done].
  - apply wp_apply_wanted; [by split|]. intros r. by apply Hgo.
  - apply wp_bind, wp_ask; [done|]. intros record. case_bool_decide; [by apply (Hgo (Ok tt))|].
    apply wp_apply_wanted; [by split|]. intros r. by apply Hgo.
Qed.

Lemma wp_provision desired : wp (provision value_text gateway deleting install desired) no_facts (fun _ _ => True).
Proof.
  unfold provision. apply wp_bind, wp_owned_targets. intros existing. destruct (desired existing) as [wanted ports]. destruct deleting; [done|].
  apply wp_bind. eapply wp_mono; [|apply (wp_preflight (map w_kind wanted)); [done|by intros k m ?%not_elem_of_nil|]].
  2: { intros w H. by apply list_elem_of_fmap_2. }
  intros r g (Ha & Hk & Hr). destruct r as [st|e]; [|done]. destruct (negb (is_nil (pf_conflicts st))) eqn:Hn; [done|].
  destruct Hr as (_ & Hc & _ & ls & Hls & HF); [by destruct (pf_conflicts st)|]. cbn in Hls. rewrite Hls.
  apply wp_bind. eapply wp_mono; [|apply wp_apply_all; [apply Hc; by intros k m ?%not_elem_of_nil|done]].
  intros [u|e] g' Hg; [|done]. apply wp_bind. eapply wp_mono; [|apply wp_delete_all_but]; [done|].
  intros k m. rewrite Hg. intros H%Hk. apply list_elem_of_fmap in H as (w & -> & Hw). apply list_elem_of_fmap. by exists w.
Qed.

(** Every call of a pass is allowed. *)
Lemma wp_reconcile_objects unmanaged desired : wp (reconcile_objects value_text gateway deleting install unmanaged desired) no_facts (fun _ _ => True).
Proof.
  unfold reconcile_objects.
  assert (Hlive : forall g (Q : gmap (Transport * Z) Z -> Prog Provisioned), (forall x, exists p, Q x = Ret p) ->
    wp (bind (if unmanaged then Ret ∅ else owned_targets gateway install) Q) g (fun _ _ => True)).
  { intros g Q HQ. apply wp_bind. destruct unmanaged; [cbn; by destruct (HQ ∅) as [p ->]|]. apply wp_owned_targets.
    intros x. by destruct (HQ x) as [p ->]. }
  apply wp_bind. eapply wp_mono with (Q := fun _ _ => True).
  2: { destruct unmanaged; [|apply wp_provision]. apply wp_bind. eapply wp_mono; [|apply wp_delete_all_but; by intros k m ?%not_elem_of_nil]. done. }
  intros [p|[|problem]] g _; [done| |by apply Hlive; eauto]. apply wp_bind, wp_ask; [done|]. intros u. apply Hlive. eauto.
Qed.

Lemma wp_release : wp (release gateway install) no_facts (fun _ _ => True).
Proof. apply wp_delete_all_but. by intros k m ?%not_elem_of_nil. Qed.
End Logic.

(** ** Passes in the cluster *)

Abbreviation ObjKey := (Kind * list Z * list Z)%type.

Section Cluster.
Context {SE : Sealing} (value_text : Value -> list Z) (install : list Z).

(** A pass under way: its Gateway, what is left of it, what it learnt, and
    how many states the cluster had been in when it began. *)
Record Running := { rn_gateway : Gateway; rn_prog : Prog unit; rn_facts : Facts; rn_begun : nat }.

(** The objects on the API server with all they ever were, the controller's
    caches, which may lag, every state of the two so far, the latest first,
    and the passes. *)
Record Cluster := {
  cl_objects : gmap ObjKey PMeta;
  cl_past : list (ObjKey * PMeta);
  cl_caches : gmap ObjKey PMeta;
  cl_history : list (gmap ObjKey PMeta * gmap ObjKey PMeta);
  cl_passes : gmap nat Running;
}.

(** The states since the pass began, the one it began in with them. *)
Definition since (cl : Cluster) (rn : Running) : list (gmap ObjKey PMeta * gmap ObjKey PMeta) :=
  take (S (length (cl_history cl) - rn_begun rn)) (cl_history cl).

(** A name is free: the API server has no such object, or, of a Service,
    which is not asked for, the cache has none. *)
Definition free_in (key : ObjKey) (state : gmap ObjKey PMeta * gmap ObjKey PMeta) : Prop :=
  state.1 !! key = None \/ (key.1.1 = KService /\ state.2 !! key = None).

(** An object under its own name, with a uid. *)
Definition keyed (key : ObjKey) (m : PMeta) : Prop :=
  pm_namespace m = Some key.1.2 /\ pm_name m = Some key.2 /\ is_Some (pm_uid m).

Definition wanted_key (gateway : Gateway) (k : Kind) : ObjKey := (k, gateway_ns gateway, object_name gateway).

(** What an apply may do: nothing, or change or create the object, whether or
    not its answer arrives. With a uid it changes the object of that uid only;
    without, it creates one where there is none, and changes one there is
    where none of its fields conflict. *)
Inductive apply_effect (objects : gmap ObjKey PMeta) (key : ObjKey) (taken : option (list Z)) : result PMeta KubeError -> gmap ObjKey PMeta -> Prop :=
  | apply_refused e : apply_effect objects key taken (Err e) objects
  | apply_lands m answer : keyed key m -> answer = Ok m \/ (exists e, answer = Err e) ->
      match taken, objects !! key with
      | Some uid, Some o => pm_uid o = Some uid /\ pm_uid m = Some uid
      | Some _, None => False
      | None, Some o => pm_uid m = pm_uid o
      | None, None => True
      end ->
      apply_effect objects key taken answer (<[key := m]> objects).

Inductive delete_effect (objects : gmap ObjKey PMeta) (key : ObjKey) (uid : option (list Z)) : result unit KubeError -> gmap ObjKey PMeta -> Prop :=
  | delete_refused e : delete_effect objects key uid (Err e) objects
  | delete_lands o answer : objects !! key = Some o -> (forall u, uid = Some u -> pm_uid o = Some u) ->
      delete_effect objects key uid answer (delete key objects).

(** How a call is answered, and the objects it leaves. *)
Definition answered {X} (cl : Cluster) (gateway : Gateway) (e : ProvE X) : X -> gmap ObjKey PMeta -> Prop :=
  match e with
  | Cached k => fun m objects => objects = cl_objects cl /\ m = cl_caches cl !! wanted_key gateway k
  | GetMetadata k => fun r objects => objects = cl_objects cl /\
      match r with
      | Ok m => cl_objects cl !! wanted_key gateway k = Some m
      | Err (ApiError 404 _) => cl_objects cl !! wanted_key gateway k = None
      | Err _ => True
      end
  | ApplyObject w taken => apply_effect (cl_objects cl) (wanted_key gateway (w_kind w)) taken
  | ListCached => fun l objects => objects = cl_objects cl /\ forall k m, (k, m) ∈ l -> exists ns name, cl_caches cl !! (k, ns, name) = Some m
  | DeleteObject k name uid => delete_effect (cl_objects cl) (k, gateway_ns gateway, name) uid
  | _ => fun _ objects => objects = cl_objects cl
  end.

Definition with_objects (objects : gmap ObjKey PMeta) (cl : Cluster) : Cluster :=
  {| cl_objects := objects; cl_past := map_to_list objects ++ cl_past cl; cl_caches := cl_caches cl;
     cl_history := (objects, cl_caches cl) :: cl_history cl; cl_passes := cl_passes cl |}.

(** The caches hear of the object under [key], or of its deletion. *)
Definition cache_heard (key : ObjKey) (cl : Cluster) : Cluster :=
  let caches := match cl_objects cl !! key with Some m => <[key := m]> (cl_caches cl) | None => delete key (cl_caches cl) end in
  {| cl_objects := cl_objects cl; cl_past := cl_past cl; cl_caches := caches;
     cl_history := (cl_objects cl, caches) :: cl_history cl; cl_passes := cl_passes cl |}.

Definition with_running (id : nat) (rn : Running) (cl : Cluster) : Cluster :=
  {| cl_objects := cl_objects cl; cl_past := cl_past cl; cl_caches := cl_caches cl; cl_history := cl_history cl;
     cl_passes := <[id := rn]> (cl_passes cl) |}.

Definition start (cl : Cluster) (gateway : Gateway) {A} (p : Prog A) : Running :=
  {| rn_gateway := gateway; rn_prog := bind p (fun _ => Ret tt); rn_facts := no_facts; rn_begun := length (cl_history cl) |}.

(** One call of a pass. *)
Inductive pass_call (cl : Cluster) (id : nat) : Cluster -> Prop :=
  | called rn X (e : ProvE X) k x objects : cl_passes cl !! id = Some rn -> rn_prog rn = Vis e k -> answered cl (rn_gateway rn) e x objects ->
      pass_call cl id (with_objects objects
        (with_running id {| rn_gateway := rn_gateway rn; rn_prog := k x; rn_facts := learn e x (rn_facts rn); rn_begun := rn_begun rn |} cl)).

Inductive cluster_step : Cluster -> Cluster -> Prop :=
  | others_put key m cl : keyed key m -> cluster_step cl (with_objects (<[key := m]> (cl_objects cl)) cl)
  | others_delete key cl : cluster_step cl (with_objects (delete key (cl_objects cl)) cl)
  | cache_moves key cl : cluster_step cl (cache_heard key cl)
  | pass_begins id gateway deleting unmanaged desired cl :
      cluster_step cl (with_running id (start cl gateway (reconcile_objects value_text gateway deleting install unmanaged desired)) cl)
  | release_begins id gateway cl : cluster_step cl (with_running id (start cl gateway (release gateway install)) cl)
  | pass_calls id cl cl' : pass_call cl id cl' -> cluster_step cl cl'.

Inductive cluster_reachable : Cluster -> Prop :=
  | cluster_empty : cluster_reachable {| cl_objects := ∅; cl_past := []; cl_caches := ∅; cl_history := [(∅, ∅)]; cl_passes := ∅ |}
  | cluster_moves cl cl' : cluster_reachable cl -> cluster_step cl cl' -> cluster_reachable cl'.

(** What a pass learnt was so, a name it found free at a time since it
    began. *)
Definition truthful (past : list (ObjKey * PMeta)) (states : list (gmap ObjKey PMeta * gmap ObjKey PMeta)) (rn : Running) : Prop :=
  (forall k m, (k, Some m) ∈ f_read (rn_facts rn) -> (wanted_key (rn_gateway rn) k, m) ∈ past)
  /\ (forall k m, (k, m) ∈ f_listed (rn_facts rn) -> exists ns name, ((k, ns, name), m) ∈ past)
  /\ (forall k, (k, None) ∈ f_read (rn_facts rn) -> Exists (free_in (wanted_key (rn_gateway rn) k)) states).

Record cluster_inv (cl : Cluster) : Prop := {
  ci_keyed : forall key m, (key, m) ∈ cl_past cl -> keyed key m;
  ci_objects : forall key m, cl_objects cl !! key = Some m -> (key, m) ∈ cl_past cl;
  ci_caches : forall key m, cl_caches cl !! key = Some m -> (key, m) ∈ cl_past cl;
  ci_history : exists earlier, cl_history cl = (cl_objects cl, cl_caches cl) :: earlier;
  ci_begun : forall id rn, cl_passes cl !! id = Some rn -> (rn_begun rn <= length (cl_history cl))%nat;
  ci_passes : forall id rn, cl_passes cl !! id = Some rn ->
    truthful (cl_past cl) (since cl rn) rn /\ wp (rn_gateway rn) install (rn_prog rn) (rn_facts rn) (fun _ _ => True);
}.

Lemma truthful_mono past past' states states' rn : past ⊆ past' -> states ⊆ states' -> truthful past states rn -> truthful past' states' rn.
Proof.
  intros H Hs (H1 & H2 & H3). split_and!; [intros k m Hm; by apply H, H1| |].
  - intros k m Hm. destruct (H2 k m Hm) as (ns & name & Hi). exists ns, name. by apply H.
  - intros k Hk. apply Exists_exists. specialize (H3 k Hk). apply Exists_exists in H3 as (st & Hst & Hf). exists st. auto.
Qed.

(** A state more is one more since the pass began. *)
Lemma since_pushed cl cl' rn state : cl_history cl' = state :: cl_history cl -> (rn_begun rn <= length (cl_history cl))%nat ->
  since cl rn ⊆ since cl' rn.
Proof.
  intros E Hle. unfold since. rewrite E. cbn [length]. rewrite Nat.sub_succ_l by done. cbn [take]. intros st H. by apply elem_of_cons; right.
Qed.

Lemma with_objects_inv objects cl : cluster_inv cl -> (forall key m, objects !! key = Some m -> keyed key m) -> cluster_inv (with_objects objects cl).
Proof.
  intros [H1 H2 H3 H4 H5 H6] Hk. assert (Hsub : cl_past cl ⊆ map_to_list objects ++ cl_past cl) by set_solver. split; cbn.
  - intros key m [H|H]%elem_of_app; [by apply Hk, elem_of_map_to_list|by apply H1].
  - intros key m H. apply elem_of_app. left. by apply elem_of_map_to_list.
  - intros key m H. by apply Hsub, H3.
  - by eexists.
  - intros id rn H. specialize (H5 _ _ H). lia.
  - intros id rn H. destruct (H6 _ _ H) as [Ht Hw]. split; [|done]. eapply truthful_mono; [exact Hsub| |exact Ht].
    apply (since_pushed cl (with_objects objects cl) rn (objects, cl_caches cl)); [done|by eapply H5].
Qed.

Lemma cache_heard_inv key cl : cluster_inv cl -> cluster_inv (cache_heard key cl).
Proof.
  intros [H1 H2 H3 H4 H5 H6]. split; cbn; [done|done| |by eexists| |].
  - intros key' m'. destruct (cl_objects cl !! key) as [m|] eqn:E.
    + rewrite lookup_insert_Some. intros [[<- <-]|[_ H]]; [by apply H2|by apply H3].
    + intros [_ H]%lookup_delete_Some. by apply H3.
  - intros id rn H. specialize (H5 _ _ H). lia.
  - intros id rn H. destruct (H6 _ _ H) as [Ht Hw]. split; [|done]. eapply truthful_mono; [done| |exact Ht].
    eapply (since_pushed cl (cache_heard key cl) rn); [done|by eapply H5].
Qed.

Lemma objects_keyed cl : cluster_inv cl -> forall key m, cl_objects cl !! key = Some m -> keyed key m.
Proof. intros Hi key m H. by apply Hi, Hi. Qed.

Lemma answered_keyed cl gateway {X} (e : ProvE X) x objects : cluster_inv cl -> answered cl gateway e x objects ->
  forall key m, objects !! key = Some m -> keyed key m.
Proof.
  intros Hi. pose proof (objects_keyed cl Hi) as Hk. destruct e; cbn; try (by intros ->); try (by intros [-> _]).
  - intros [e|m answer Hm _ _] key m'; [apply Hk|]. rewrite lookup_insert_Some. intros [[<- <-]|[_ H]]; [done|by apply Hk].
  - intros [e|o answer Ho _] key m'; [apply Hk|]. intros [_ H]%lookup_delete_Some. by apply Hk.
Qed.

Lemma learn_truthful cl rn {X} (e : ProvE X) x objects k : cluster_inv cl -> truthful (cl_past cl) (since cl rn) rn ->
  answered cl (rn_gateway rn) e x objects ->
  truthful (cl_past cl) (since cl rn) {| rn_gateway := rn_gateway rn; rn_prog := k; rn_facts := learn e x (rn_facts rn); rn_begun := rn_begun rn |}.
Proof.
  intros [_ Ho Hc [earlier Hh] _ _] (Hr & Hl & Hf) Ha.
  assert (Hnow : (cl_objects cl, cl_caches cl) ∈ since cl rn) by (unfold since; rewrite Hh; by apply elem_of_cons; left).
  assert (Hfound : forall kd m, (forall m', m = Some m' -> (wanted_key (rn_gateway rn) kd, m') ∈ cl_past cl) ->
    (m = None -> free_in (wanted_key (rn_gateway rn) kd) (cl_objects cl, cl_caches cl)) ->
    truthful (cl_past cl) (since cl rn)
      {| rn_gateway := rn_gateway rn; rn_prog := k; rn_facts := found kd m (rn_facts rn); rn_begun := rn_begun rn |}).
  { intros kd m Hm Hn. split_and!; [|exact Hl|]; cbn.
    - intros k' m' [[= -> <-]|H]%elem_of_cons; [by apply Hm|by apply Hr].
    - intros k' [[= -> <-]|H]%elem_of_cons; [|by apply Hf]. apply Exists_exists. eexists. split; [exact Hnow|by apply Hn]. }
  destruct e; cbn in *; try (by split_and!).
  - destruct Ha as [_ ->]. destruct (cl_caches cl !! _) as [m|] eqn:E.
    + apply Hfound; [|done]. intros m' [= <-]. by apply Hc.
    + case_bool_decide as Hk; [|by split_and!]. apply Hfound; [done|]. intros _. by right.
  - destruct Ha as [_ Ha]. destruct x as [m|[code message|]]; [| |by split_and!].
    + apply Hfound; [|done]. intros m' [= <-]. by apply Ho.
    + repeat (case_match; try (by split_and!); try (apply Hfound; [done|intros _; by left])).
  - destruct Ha as [_ Ha]. split_and!; [exact Hr| |exact Hf]. cbn. intros k' m [H|H]%elem_of_app; [|by apply Hl].
    destruct (Ha _ _ H) as (ns & name & Hi). exists ns, name. by apply Hc.
Qed.

Lemma start_inv id gateway {A} (p : Prog A) cl : cluster_inv cl -> wp gateway install p no_facts (fun _ _ => True) ->
  cluster_inv (with_running id (start cl gateway p) cl).
Proof.
  intros [H1 H2 H3 H4 H5 H6] Hw. split; cbn; try done; intros id' rn; rewrite lookup_insert_Some; intros [[_ <-]|[_ H]];
    [done|by eapply H5| |by eapply H6].
  split; [|cbn; by apply wp_bind]. split_and!; cbn; [by intros k m ?%not_elem_of_nil|by intros k m ?%not_elem_of_nil|by intros k ?%not_elem_of_nil].
Qed.

Lemma cluster_inv_reachable cl : cluster_reachable cl -> cluster_inv cl.
Proof.
  induction 1 as [|cl cl' _ IH H].
  { split; cbn; try (intros ? ?; by rewrite lookup_empty); [by intros ? ? ?%not_elem_of_nil|by eexists]. }
  destruct H as [key m cl Hm|key cl|key cl|id gateway deleting unmanaged desired cl|id gateway cl|id cl cl' Hc].
  - apply with_objects_inv; [done|]. intros key' m'. rewrite lookup_insert_Some. intros [[<- <-]|[_ H]]; [done|by eapply objects_keyed].
  - apply with_objects_inv; [done|]. intros key' m' [_ H]%lookup_delete_Some. by eapply objects_keyed.
  - by apply cache_heard_inv.
  - apply start_inv; [done|]. apply wp_reconcile_objects.
  - apply start_inv; [done|]. apply wp_release.
  - destruct Hc as [rn X e k x objects Hid Hp Ha]. apply with_objects_inv; [|by eapply answered_keyed].
    destruct (ci_passes _ IH _ _ Hid) as [Ht Hw]. rewrite Hp in Hw. destruct Hw as [_ Hw].
    pose proof (learn_truthful cl rn e x objects (k x) IH Ht Ha) as Hl. destruct IH as [H1 H2 H3 H4 H5 H6].
    split; cbn; try done; intros id' rn'; rewrite lookup_insert_Some; intros [[_ <-]|[_ H]]; cbn; [by eapply H5|by eapply H5| |by eapply H6].
    split; [exact Hl|apply Hw].
Qed.

(** C14: Whatever other writers do to the cluster, however far the caches lag
    and whichever calls are lost, an object a pass changes or deletes is one
    that was ours, under that very name and with that very uid: controlled by
    the pass's Gateway and labelled with this install. The one exception is a
    wanted name the pass found free: at a time since the pass began the API
    server had no object under it or, of a Service, for which only the cache
    is asked, the cache had none. An object that is there by now, made since
    or, of a Service, older than what the cache knows, an apply without force
    may change, keeping its uid, where the API server finds no field in
    conflict. And nothing is applied by a pass that found, under any name it
    wants, an object that is not ours. *)
Theorem foreign_objects_are_left_alone (cl cl' : Cluster) (id : nat) (rn : Running) :
  cluster_reachable cl -> cl_passes cl !! id = Some rn -> pass_call cl id cl' ->
  (forall key o, cl_objects cl !! key = Some o -> cl_objects cl' !! key <> Some o ->
     (exists m, (key, m) ∈ cl_past cl /\ pm_uid m = pm_uid o /\ is_ours m (gateway_uid (rn_gateway rn)) install = true)
     \/ exists k o', key = wanted_key (rn_gateway rn) k /\ Exists (free_in key) (since cl rn) /\ cl_objects cl' !! key = Some o' /\ pm_uid o' = pm_uid o)
  /\ forall w taken rest, rn_prog rn = Vis (ApplyObject w taken) rest ->
       forall k m, (k, Some m) ∈ f_read (rn_facts rn) -> is_ours m (gateway_uid (rn_gateway rn)) install = true.
Proof.
  intros Hr Hid Hc. apply cluster_inv_reachable in Hr as [Hk Ho _ _ _ Hp]. destruct (Hp _ _ Hid) as [(Htr & Htl & Htf) Hw]. split.
  2: { intros w taken rest E. rewrite E in Hw. destruct Hw as [[Hall _] _]. exact Hall. }
  destruct Hc as [rn' X e k x objects Hid' Hpr Ha]. rewrite Hid in Hid'. injection Hid' as <-. rewrite Hpr in Hw. destruct Hw as [Hal _].
  cbn. intros key o Hkey Hne. destruct e; cbn in Ha; try (by destruct Hne; rewrite Ha); try (by destruct Ha as [-> _]).
  - destruct Ha as [e|m answer Hm _ Hland]; [done|]. destruct (decide (wanted_key (rn_gateway rn) (w_kind w) = key)) as [<-|Hn].
    2: { destruct Hne. by rewrite lookup_insert_ne. }
    rewrite Hkey in Hland. destruct Hal as [Hall Htk]. destruct taken as [uid|].
    + left. destruct Htk as (m' & Hm' & <-). exists m'. destruct Hland as [-> _]. pose proof (Htr _ _ Hm') as Hpast. split_and!; [done| |by eapply Hall].
      destruct (Hk _ _ Hpast) as (_ & _ & [u Hu]). by rewrite Hu.
    + right. exists (w_kind w), m. rewrite lookup_insert_eq. split_and!; [done|by apply Htf|done|done].
  - destruct Ha as [e|o' answer Ho' Huid]; [done|]. destruct (decide ((k0, gateway_ns (rn_gateway rn), name) = key)) as [<-|Hn].
    2: { destruct Hne. by rewrite lookup_delete_ne. }
    rewrite Hkey in Ho'. injection Ho' as <-. left. destruct Hal as (m & Hm & Hns & Hours & _ & -> & -> & _). exists m.
    destruct (Htl _ _ Hm) as (ns & name & Hpast). destruct (Hk _ _ Hpast) as (Hns' & Hname & [u Hu]). cbn in Hns', Hname.
    rewrite Hns in Hns'. injection Hns' as <-. rewrite Hname. cbn. split_and!; [done| |done]. rewrite (Huid u Hu). by rewrite Hu.
Qed.
End Cluster.

(** ** At work *)

#[local] Existing Instance toy_sealing.

Definition some_gateway : Gateway := {|
  gw_metadata := {| meta_name := Some (bs "gw"); meta_namespace := Some (bs "default"); meta_uid := Some (bs "u"); meta_generation := None; creation_timestamp := None |};
  gw_addresses := None; gw_listeners := [] |}.

Definition our_account : PMeta := {|
  pm_name := Some (bs "portail-gw"); pm_namespace := Some (bs "default"); pm_uid := Some (bs "o1"); pm_generation := None; pm_resource_version := Some (bs "1");
  pm_labels := Some {[ LABEL_CONTROLLER := bs "portail"; LABEL_MANAGED_BY := MANAGED_BY ]};
  pm_owners := Some [{| own_api_version := bs "gateway.networking.k8s.io/v1"; own_kind := bs "Gateway"; own_name := bs "gw"; own_uid := bs "u"; own_controller := Some true |}] |}.

Definition account_key : ObjKey := (KServiceAccount, bs "default", bs "portail-gw").

Definition no_objects : Cluster := {| cl_objects := ∅; cl_past := []; cl_caches := ∅; cl_history := [(∅, ∅)]; cl_passes := ∅ |}.

Definition cached_account : Cluster := cache_heard account_key (with_objects (<[account_key := our_account]> (cl_objects no_objects)) no_objects).

Definition leaving_pass : Running := start cached_account some_gateway (release some_gateway (bs "portail")).

(** The rest of the pass once the caches were listed. *)
Definition listed_pass : Running :=
  match rn_prog leaving_pass with
  | Vis e k => match e in ProvE X return (X -> Prog unit) -> Running with
               | ListCached => fun k => {| rn_gateway := some_gateway; rn_prog := k [(KServiceAccount, our_account)]; rn_facts := learn ListCached [(KServiceAccount, our_account)] no_facts;
                                            rn_begun := rn_begun leaving_pass |}
               | _ => fun _ => leaving_pass
               end k
  | Ret _ => leaving_pass
  end.

Definition listed_cluster : Cluster := with_objects (cl_objects cached_account) (with_running 0 listed_pass (with_running 0 leaving_pass cached_account)).

Lemma listed_reachable : cluster_reachable (fun _ => []) (bs "portail") listed_cluster.
Proof.
  eapply cluster_moves; [eapply cluster_moves; [|exact (release_begins (fun _ => []) (bs "portail") 0 some_gateway cached_account)]|].
  - eapply cluster_moves; [eapply cluster_moves; [apply cluster_empty|apply (others_put _ _ account_key our_account)]|].
    + by split_and!; [..|eexists].
    + exact (cache_moves _ _ account_key _).
  - apply (pass_calls _ _ 0). apply (called _ _ leaving_pass _ ListCached _ [(KServiceAccount, our_account)]); [done|reflexivity|].
    split; [done|]. intros k m [[= -> ->]|?%not_elem_of_nil]%elem_of_cons; [|done]. by exists (bs "default"), (bs "portail-gw").
Qed.

Lemma foreign_objects_are_left_alone_witness :
  exists cl', pass_call listed_cluster 0 cl' /\ cl_objects cl' !! account_key = None /\ is_ours our_account (bs "u") (bs "portail") = true.
Proof.
  assert (H : exists cl', pass_call listed_cluster 0 cl' /\ cl_objects cl' !! account_key = None).
  { eexists. split.
    - eapply (called _ _ listed_pass _ (DeleteObject KServiceAccount (bs "portail-gw") (Some (bs "o1"))) _ (Ok tt) (delete account_key (cl_objects listed_cluster)));
        [reflexivity|reflexivity|]. apply (delete_lands _ _ _ our_account); [reflexivity|by intros u [= <-]].
    - reflexivity. }
  destruct H as (cl' & Hc & Hn). exists cl'. split; [exact Hc|]. split; [exact Hn|].
  destruct (foreign_objects_are_left_alone (fun _ => []) (bs "portail") listed_cluster cl' 0 listed_pass) as [H _]; [apply listed_reachable|reflexivity|exact Hc|].
  destruct (H account_key our_account) as [(m & Hm & _)|(k & o' & _ & _ & Ho & _)]; [reflexivity|by rewrite Hn| |by rewrite Hn in Ho].
  vm_compute. reflexivity.
Defined.

(** ** A Service the cache has not heard of *)

Definition service_key : ObjKey := (KService, bs "default", bs "portail-gw").

Definition hand_written : PMeta := {|
  pm_name := Some (bs "portail-gw"); pm_namespace := Some (bs "default"); pm_uid := Some (bs "h1"); pm_generation := None;
  pm_resource_version := Some (bs "1"); pm_labels := None; pm_owners := None |}.

(** The same Service with what the controller applies added to it. *)
Definition taken_over : PMeta := {|
  pm_name := Some (bs "portail-gw"); pm_namespace := Some (bs "default"); pm_uid := Some (bs "h1"); pm_generation := None;
  pm_resource_version := Some (bs "2"); pm_labels := pm_labels our_account; pm_owners := pm_owners our_account |}.

Definition service_only (existing : gmap (Transport * Z) Z) : list Wanted * gmap (Transport * Z) Z :=
  ([{| w_kind := KService; w_body := VNull |}], existing).

(** A hand-written Service, there before the pass began and ever since, is
    changed by it: of Services only the cache is asked, and the cache has
    not heard of this one. *)
Lemma lagging_cache_changes_foreign_service :
  exists cl cl' rn, cluster_reachable (fun _ => []) (bs "portail") cl /\ cl_passes cl !! 0%nat = Some rn /\ pass_call cl 0 cl' /\
    Forall (fun state => state.1 !! service_key = Some hand_written) (since cl rn) /\
    is_ours hand_written (gateway_uid (rn_gateway rn)) (bs "portail") = false /\ cl_objects cl' !! service_key = Some taken_over.
Proof.
  assert (Hk : forall m, m = hand_written \/ m = taken_over -> keyed service_key m) by (intros m [->| ->]; by split_and!; [..|eexists]).
  pose proof (cluster_moves (fun _ => []) (bs "portail") _ _ (cluster_empty _ _) (others_put _ _ service_key hand_written _ (Hk _ (or_introl eq_refl)))) as R0.
  pose proof (cluster_moves _ _ _ _ R0 (pass_begins _ _ 0 some_gateway false false service_only _)) as R1. clear R0.
  eassert (R2 : cluster_reachable _ _ _).
  { eapply (cluster_moves _ _ _ _ R1), (pass_calls _ _ 0), (called _ 0 _ _ CachedService _ None); [reflexivity|reflexivity|reflexivity]. }
  eassert (R3 : cluster_reachable _ _ _).
  { eapply (cluster_moves _ _ _ _ R2), (pass_calls _ _ 0), (called _ 0 _ _ (Cached KService) _ None); [reflexivity|reflexivity|split; reflexivity]. }
  clear R1 R2. eexists _, _, _. split; [exact R3|]. split; [reflexivity|]. split.
  - eapply (called _ 0 _ _ (ApplyObject {| w_kind := KService; w_body := VNull |} None) _ (Ok taken_over)); [reflexivity|reflexivity|].
    apply (apply_lands _ _ _ taken_over); [by apply Hk; right|by left|reflexivity].
  - split_and!; [|reflexivity|reflexivity]. repeat (constructor; [reflexivity|]). constructor.
Qed.
